(* ===== verification/_CoqProject ===== *)
-Q . S2P
Prelude.v
Bytes.v
Layout.v
Sorting.v
Hash.v
Identity.v
Trajectory.v
Framework.v
Activation.v
Effects.v
Producer.v
Highway.v
ReferenceTopology.v
ReferenceMapping.v
MachineException.v
EvidenceTestimony.v
WorldAdmission.v
LineageGraph.v
LineageRoots.v
LineageShortest.v
EvidenceLineage.v
SourceProfile.v
StockRecipe.v
Binary64.v
BigUint.v
Geometry.v
Perfcache.v
PersistenceFrames.v
PersistenceStream.v
PersistenceLaw.v
UnicodeFields.v
UnicodeNumeric.v
UnicodeCollation.v
UnicodeAtoms.v
UnicodePlacement.v
UnicodeStream.v
UnicodeLaw.v
StandingNumeric.v
StandingCalculation.v
StandingPeriod.v
PerfcacheModules.v
UnicodeReverse.v
UnicodeTier0.v
