(* ===== verification/Prelude.v ===== *)
(** * The Laplace engine: a verification library

    Laplace is a content-addressed store of text and evidence.  Its native
    core, [engine/src/*.c] with the headers [engine/include/laplace/*.h], is a
    set of C routines that never allocate shared state: they take arrays from
    the caller, check them, write results and a receipt to the caller's
    buffers, and return a status.  The PostgreSQL extension
    ([integrations/postgresql/extension/src/*.c]) and the C++ decomposition and
    cognition layers drive these routines.  This library models the C core and
    proves what each routine promises to those callers.  All paths below are
    relative to [src/].

    ** Parts of the program and the files that model them

    - [Prelude]: machine integers, caller pointers and the early-return
      notation, shared tactics, list lemmas.  [Bytes]: little-endian codecs,
      [memcmp], [memcpy] on slices.  [Sorting]: comparators, [qsort], binary
      search, scans of neighbours.  [Hash]: the BLAKE3 interface, transcripts
      and prefix codes, and the [hash_u16/u32/u64] helpers each C file repeats.
    - [Identity] ([engine/src/identity.c]): the identity of a Unicode position
      and of an ordered composition of identities, from a list of children or
      from runs of equal children.
    - [Trajectory] ([engine/src/trajectory.c]): payloads of 212 bits carried by
      four doubles in [1,2), and compositions stored as a sequence of carriers;
      the identities the carriers hold are those of [Identity].
    - [Layout]: records written and read at fixed offsets.  [Effects]: routines
      that leave through one failure exit, as a state-and-failure monad with a
      logic of what they log.  [Binary64]: IEEE operations on bit patterns.
    - [Framework] ([engine/src/framework.c], contexts to staging): the operation
      registry, the execution context every other receipt is bound to, canonical
      streams of records, and their staging to several sinks with a receipt.
      [Producer] (same file): streaming a plan of batches to the sinks with
      checkpoints, cancellation and replay.  [Activation] (same file): admitting
      what was staged and committing or aborting it.
    - [MachineException] ([engine/src/machine_exception.c]): the table of
      exception descriptors and the classification of an exception.
    - [Highway] ([engine/src/highway.c]): coordinates of semantic keys and the
      receipt of the registry they come from.
    - [SourceProfile] ([engine/src/source_profile.c]): what a source declares
      about itself; it is keyed by a highway coordinate.
    - [StockRecipe] ([engine/src/stock_recipe.c]): catalogs of recipes and of
      the planes derived from them.
    - [ReferenceTopology] ([engine/src/reference_topology.c]): decides, for each
      reference of a batch, whether its scoped key is present, retired or absent
      in the batch, from highway coordinates and occurrences.
    - [ReferenceMapping] ([engine/src/reference_mapping.c]): mappings between two
      references that the topology has already resolved.
    - [EvidenceTestimony] ([engine/src/evidence_testimony.c]): typed testimony
      with a canonical uncertainty fraction, and batches of it.
    - [LineageGraph], [LineageRoots], [LineageShortest] and [EvidenceLineage]
      ([engine/src/evidence_lineage.c]): the dependence graph of a batch of
      evidence nodes, the search for a cycle in it, the propagation of roots with
      shortest distances, and the batch routine over the three.
    - [WorldAdmission] ([engine/src/world_admission.c]): the closing of a
      source's observation over structure, references and testimony, whose
      fingerprints it combines.
    - [StandingNumeric], [StandingCalculation] and [StandingPeriod]
      ([engine/src/standing_calculation.c]): the arithmetic of a rating period,
      the recipes, states and events it works on, and the period itself.
    - [BigUint] and [Geometry] ([engine/src/geometry.c]): exact sums of weighted
      binary64 points in fixed-width integers and their correctly rounded mean,
      the coordinate of a composition.
    - [PersistenceFrames], [PersistenceStream] and [PersistenceLaw]
      ([engine/src/persistence.c]): the frames of the five persisted record
      kinds, the validation of a stream of them against its closure, and the law
      of such a stream.
    - [UnicodeFields], [UnicodeNumeric], [UnicodeCollation], [UnicodeAtoms],
      [UnicodePlacement], [UnicodeStream] and [UnicodeLaw]
      ([engine/src/unicode_root.c]): the property fields, coordinates, records
      and frames of the Unicode root, the placement of its atoms, the incremental
      validator of a root stream, and the law of the streams it accepts.
    - [Perfcache] ([engine/src/perfcache.c]): the binary artifact in which a
      compiled table is published, its validation into a view and its lookup.
      [PerfcacheModules], [UnicodeReverse] and [UnicodeTier0]
      ([engine/src/perfcache_modules.c]): the built-in modules that give artifacts
      their meaning, the hash table from Unicode identities to positions and the
      dense table from positions to atoms, whose records are those of
      [UnicodeAtoms].

    ** How state and operations correspond to the code

    A [uintN_t], a [size_t] or an enumeration is a [Z]; conversions wrap with
    [u8] ... [u64], and a theorem's hypotheses say which arguments are in
    range.  A 16- or 32-byte digest and every other buffer is a [list Z] of
    bytes.  A struct is a [Record] with the fields of the header file in their
    order.  An input pointer is a [ptr A], with [None] for [NULL]; an output
    pointer is passed in with its content and returned with its content after
    the call, so that a theorem can say which bytes a failing call leaves
    alone.  [return_when c with r ;; k] is the C statement [if (c) return r;]
    followed by [k].  A [double] is its 64-bit pattern, which is what the code
    inspects through [memcpy]; the arithmetic on doubles is [SpecFloat]'s.
    Each definition carries the name of the C function, constant or struct it
    models; a suffix such as [_loop] or [_from] names the loop inside it.

    Parameters stand for what is not source of this repository: the BLAKE3
    hasher ([Hash.Blake3], with its documented behaviour in [Hash.Blake3Laws]),
    the registry tables generated from [contracts/*.json] (operations, highway
    kinds, perfcache law codes, exception descriptors, the sizes of the two
    Unicode tables), the callbacks of sinks, producers and activation providers,
    the outcome of every [malloc], [calloc] and [realloc], and [exp] and [log] of
    the C library, about which nothing is assumed.  [Hash.checksum_blake3] is a concrete hasher that satisfies the
    laws; the witnesses evaluate the model with it.  No theorem assumes that
    the hash has no collisions: what a digest binds is stated on the transcript
    that it is the digest of, which is proved injective.

    [qsort] is insertion sort; [Sorting.sorted_permutation_unique] makes the
    result independent of the algorithm wherever the comparator separates the
    elements, as it does in every use here.

    ** Bounds and fuel

    Loops over an array are structural in the list.  The others run with fuel
    that a lemma proves sufficient: the Euclidean loop of testimony 129
    (two steps halve a 64-bit word), the quotient search of geometry 65 (an
    interval below 2^64 is halved each time), the high-bit loop 65 (one bit of
    a word per round), the carry of a product 6 rounds (it has 5 limbs),
    binary searches one unit per element, and the emission of a run one unit
    per block of 4096 identities.  The search of the lineage graph takes one unit
    per node and edge, the propagation of roots one per node, a chain of roots
    one per relation.  Loops over the bytes of a stream take one unit per byte,
    since every frame, entry or field has at least one; the Hilbert loops run over
    31 powers and 32 bits as written.  The bracket and the Illinois loop of the
    volatility take 101, one more than the limit of 100 that the code tests, and
    probing one unit per slot of the table, as the code's own loop does.  The
    bounds on counts in hypotheses are those of [size_t] or of the C types.

    ** What the theorems show

    - Identity: the run form computes on every branch what the expanded list
      computes; position encoding round-trips and is prefix-free; an identity
      is the prefix of a digest that binds its ordered children; a batch of
      codepoints is all or nothing.
    - Trajectory: carriers and compositions round-trip in both directions,
      ordinals survive the 16-bit packing, and the queries on occurrences are
      the queries on the expanded list of children.
    - Framework: staging follows the protocol begin all / stage each batch to
      each sink / seal all, and aborts exactly what was begun, whatever the
      callbacks answer; every receipt validates exactly when the run succeeded;
      artifacts are complete after success and cleared after failure; stream
      and context fingerprints bind their content.
      A producer run hands the sinks the batches of its plan in order and stages
      the stream that staging alone would; an activation is settled at most once
      whatever the order of the calls.
    - MachineException: an exception is classified by the one descriptor that
      matches it.
    - Highway: coordinates and the registry epoch bind their data; batches are
      decided by their first invalid key before anything is written.
    - ReferenceTopology, ReferenceMapping, EvidenceTestimony, WorldAdmission:
      each batch routine refines a declarative law of the whole batch: it
      succeeds exactly when the law holds, returns exactly the specified
      records, counts and fingerprints, and a failure names the first record at
      fault; identities bind every field, up to the symmetry a mapping has.
      SourceProfile and StockRecipe have the same form; a catalog does not depend
      on the order of its parts.
    - EvidenceLineage: the routine ends, reports a cycle exactly when there is one
      and a cycle of the batch when it does, and otherwise returns every root of
      every node with the length of a shortest path.
    - Standing: a period is accepted exactly under its law and gives the state
      that the arithmetic defines, in whatever order the matches come; the search
      for the volatility ends; a history of periods keeps its invariant.
    - Geometry: adding is exact and never overflows, order and grouping of the
      additions are irrelevant limb for limb, and the mean is the nearest double
      of the exact mean, ties to even.
    - Persistence and Unicode: a record decodes exactly when its bytes are the
      encoding of a well-formed record, and a refusal says what is wrong; a stream
      is accepted exactly when it obeys the law of its sections, whatever the
      batches in which it arrives, and the summary is that of the records;
      quantization rounds to nearest and the Hilbert key is a bijection.
    - Perfcache: validation accepts exactly the canonical artifacts of a
      contract, writing and validating round-trip, lookup answers every key.  The
      reverse table is accepted exactly when it is a lawful hash table, the dense
      table exactly when it is the image of a list of atoms, and the identities
      read from the one resolve to their positions in the other.

    ** Where the code is not what a contract says

    The definitions follow the code, and the theorems concerned name the
    difference instead of calling the code's behaviour the law.
    [PersistenceLaw.stream_exact]: an attestation after a consensus record is
    accepted.  [UnicodeFields.field_shape_exact]: so are a bracket type that is no
    letter and a negative zero.  [EvidenceTestimony.testimony_batch_exact]: the
    fields of a testimony are hashed in another order than the contract lists.
    [SourceProfile.profile_batch_exact]: of the fault fields that are declared,
    some are never reported.

    ** Not modelled

    Of the C core: [isa.c], which executes programs of operations on caller
    buffers by handing them to the routines modelled here (its checks on ranges,
    overlap and capacities and its receipts are on the memory layouts of the C
    structures, which this library does not describe), and of [unicode_root.c] the
    release of a validator's memory.  Outside the C core:
    [perfcache_file_posix.c] (file mapping and publication through the operating
    system), the PostgreSQL extension (marshalling between datums and the
    routines above, and SQL), the C++ layers, the managed tools, the build and
    test programs. *)
From Stdlib Require Import ZArith Lia.
From stdpp Require Import prelude sorting.

#[global] Open Scope Z_scope.

(** ** Machine integers: a [w]-bit unsigned integer is a [Z] in its range. *)
Abbreviation UINT8_MAX := 255 (only parsing).
Abbreviation UINT16_MAX := 65535 (only parsing).
Abbreviation UINT32_MAX := 4294967295 (only parsing).
Abbreviation UINT64_MAX := 18446744073709551615 (only parsing).
Abbreviation SIZE_MAX := 18446744073709551615 (only parsing).

Definition u8 (v : Z) : Z := v mod 256.
Definition u16 (v : Z) : Z := v mod 65536.
Definition u32 (v : Z) : Z := v mod 4294967296.
Definition u64 (v : Z) : Z := v mod 18446744073709551616.

Abbreviation is_u8 v := (0 <= v <= UINT8_MAX) (only parsing).
Abbreviation is_u16 v := (0 <= v <= UINT16_MAX) (only parsing).
Abbreviation is_u32 v := (0 <= v <= UINT32_MAX) (only parsing).
Abbreviation is_u64 v := (0 <= v <= UINT64_MAX) (only parsing).

(** ** Pointers: [None] is NULL, [Some v] points at an object holding [v]. *)
Definition ptr (A : Type) : Type := option A.

(** Writing through a pointer; a write through NULL never happens in the
    modelled code (it is guarded), and is a no-op here. *)
Definition store {A} (p : ptr A) (v : A) : ptr A :=
  match p with Some _ => Some v | None => None end.

Definition is_null {A} (p : ptr A) : bool :=
  match p with Some _ => false | None => true end.

(** The first [count] cells of an array; a NULL array has no cells. *)
Definition cells {A} (p : ptr (list A)) (count : Z) : list A :=
  take (Z.to_nat count) (default [] p).

(** ** Early returns *)
Declare Scope c_scope.
Delimit Scope c_scope with c.
#[global] Open Scope c_scope.

Notation "'return_when' c 'with' r ;; k" := (if c then r else k)
  (at level 10, c at level 99, r at level 99, k at level 200, only parsing) : c_scope.

(** ** Automation *)
Create HintDb laplace discriminated.
Create Rewrite HintDb laplace.
#[export] Hint Constants Opaque : laplace.

(** Close a decidable, closed proposition by evaluation. *)
Ltac check := apply (bool_decide_unpack _); vm_compute; exact I.

(** Split boolean guards into their propositional parts. *)
Lemma orb_false_iff' b c : b || c = false <-> b = false /\ c = false.
Proof. apply orb_false_iff. Qed.

Ltac bools :=
  repeat match goal with
  | H : _ || _ = false |- _ => apply orb_false_iff' in H as [? ?]
  | H : _ && _ = true |- _ => apply andb_true_iff in H as [? ?]
  | H : negb _ = true |- _ => apply negb_true_iff in H
  | H : negb _ = false |- _ => apply negb_false_iff in H
  | H : (_ =? _) = true |- _ => apply Z.eqb_eq in H
  | H : (_ =? _) = false |- _ => apply Z.eqb_neq in H
  | H : (_ <? _) = true |- _ => apply Z.ltb_lt in H
  | H : (_ <? _) = false |- _ => apply Z.ltb_ge in H
  | H : (_ <=? _) = true |- _ => apply Z.leb_le in H
  | H : (_ <=? _) = false |- _ => apply Z.leb_gt in H
  end.

(** Case split on the innermost guard of a run of early returns. *)
Ltac casec :=
  match goal with
  | |- context [if ?b then _ else _] =>
      lazymatch b with context [if _ then _ else _] => fail | _ => idtac end;
      let E := fresh "Hguard" in destruct b eqn:E; bools
  end.

(** The same in a hypothesis. *)
Ltac casec_in H :=
  match type of H with
  | context [if ?b then _ else _] =>
      lazymatch b with context [if _ then _ else _] => fail | _ => idtac end;
      let E := fresh "Hguard" in destruct b eqn:E; bools
  end.

(** Decide the NULL tests of non-NULL pointers. *)
Ltac ptrs := cbn [is_null orb andb negb].

(** ** Integer lemmas *)
Lemma u8_small v : is_u8 v -> u8 v = v.
Proof. intros ?. apply Z.mod_small. lia. Qed.
Lemma u16_small v : is_u16 v -> u16 v = v.
Proof. intros ?. apply Z.mod_small. lia. Qed.
Lemma u32_small v : is_u32 v -> u32 v = v.
Proof. intros ?. apply Z.mod_small. lia. Qed.
Lemma u64_small v : is_u64 v -> u64 v = v.
Proof. intros ?. apply Z.mod_small. lia. Qed.

Lemma u8_range v : is_u8 (u8 v).
Proof. unfold u8. pose proof (Z.mod_pos_bound v 256). lia. Qed.
Lemma u16_range v : is_u16 (u16 v).
Proof. unfold u16. pose proof (Z.mod_pos_bound v 65536). lia. Qed.
Lemma u32_range v : is_u32 (u32 v).
Proof. unfold u32. pose proof (Z.mod_pos_bound v 4294967296). lia. Qed.
Lemma u64_range v : is_u64 (u64 v).
Proof. unfold u64. pose proof (Z.mod_pos_bound v 18446744073709551616). lia. Qed.

#[export] Hint Resolve u8_range u16_range u32_range u64_range : laplace.
#[export] Hint Rewrite u8_small u16_small u32_small u64_small using lia : laplace.

(** Single bits of a mask. *)
Lemma land_single_bit m i : 0 <= i -> Z.land m (Z.shiftl 1 i) = 0 <-> Z.testbit m i = false.
Proof.
  intros Hi. rewrite Z.shiftl_1_l. split.
  - intros H. apply (f_equal (fun z => Z.testbit z i)) in H.
    by rewrite Z.land_spec, Z.pow2_bits_true, andb_true_r, Z.bits_0 in H.
  - intros H. apply Z.bits_inj'. intros j Hj. rewrite Z.land_spec, Z.bits_0.
    destruct (Z.eq_dec i j) as [<-|Hij]; [by rewrite H|].
    rewrite Z.pow2_bits_false by done. apply andb_false_r.
Qed.

Lemma land_bit_zero v k : 0 <= k -> (Z.land v (Z.shiftl 1 k) =? 0) = negb (Z.testbit v k).
Proof.
  intros Hk. pose proof (land_single_bit v k Hk) as H.
  destruct (Z.testbit v k); [apply Z.eqb_neq; naive_solver|apply Z.eqb_eq; naive_solver].
Qed.

(** ** List lemmas *)
Lemma cells_app {A} (l l' : list A) (n : Z) :
  n = Z.of_nat (length l) -> cells (Some (l ++ l')) n = l.
Proof. intros ->. unfold cells. rewrite Nat2Z.id. apply take_app_length. Qed.

Lemma cells_all {A} (l : list A) (n : Z) :
  n = Z.of_nat (length l) -> cells (Some l) n = l.
Proof. intros ->. unfold cells. rewrite Nat2Z.id. apply take_ge. simpl. lia. Qed.

Lemma app_inj_len {A} (a b c d : list A) :
  length a = length c -> a ++ b = c ++ d -> a = c /\ b = d.
Proof. intros Hl Heq. by apply app_inj_1 in Heq. Qed.
