(* ===== verification/Bytes.v ===== *)
(** * Byte strings: little-endian codecs, [memcmp], zero tests *)
From stdpp Require Import prelude.
From Stdlib Require Import ZArith Lia.
From S2P Require Import Prelude.

(** A byte string of [n] bytes. *)
Definition bytes (n : nat) (l : list Z) : Prop :=
  length l = n /\ Forall (fun b => is_u8 b) l.

(** [bytes[index] = (uint8_t)(value >> (index * 8))] for [index < n]. *)
Definition store_le (n : nat) (value : Z) : list Z :=
  map (fun index => u8 (Z.shiftr value (8 * Z.of_nat index))) (seq 0 n).

(** [value |= (uint64_t)bytes[index] << (index * 8)], from [index] on. *)
Fixpoint load_le_from (index : Z) (value : Z) (l : list Z) : Z :=
  match l with
  | [] => value
  | b :: t => load_le_from (index + 1) (Z.lor value (Z.shiftl b (8 * index))) t
  end.
Definition load_le (l : list Z) : Z := load_le_from 0 0 l.

(** The order of [memcmp] on two byte strings of one length. *)
Fixpoint memcmp (l r : list Z) : comparison :=
  match l, r with
  | [], [] => Eq
  | [], _ :: _ => Lt
  | _ :: _, [] => Gt
  | a :: l', b :: r' =>
      match a ?= b with Eq => memcmp l' r' | c => c end
  end.

(** [memcmp(l, r, n) == 0]. *)
Definition bytes_equal (l r : list Z) : bool :=
  match memcmp l r with Eq => true | _ => false end.

(** [aggregate |= bytes[index]] over the string, then [aggregate == 0]. *)
Definition bytes_zero (l : list Z) : bool :=
  foldl (fun aggregate b => u8 (Z.lor aggregate b)) 0 l =? 0.

Definition zeros (n : nat) : list Z := replicate n 0.

(** ** Value of a little-endian string *)
Fixpoint le_val (l : list Z) : Z :=
  match l with [] => 0 | b :: t => b + 256 * le_val t end.

Fixpoint le_digits (n : nat) (v : Z) : list Z :=
  match n with O => [] | S m => v mod 256 :: le_digits m (v / 256) end.

#[export] Instance bytes_dec n l : Decision (bytes n l).
Proof. unfold bytes. apply _. Defined.

Lemma bytes_length n l : bytes n l -> length l = n.
Proof. by intros [? _]. Qed.

Lemma bytes_cons n b l : is_u8 b -> bytes n l -> bytes (S n) (b :: l).
Proof. intros ? [? ?]; split; [simpl; lia | by constructor]. Qed.

Lemma bytes_app n m l r : bytes n l -> bytes m r -> bytes (n + m) (l ++ r).
Proof.
  intros [? ?] [? ?]; split; [rewrite length_app; lia | by apply Forall_app_2].
Qed.

Lemma bytes_zeros n : bytes n (zeros n).
Proof.
  split; [apply length_replicate | apply Forall_replicate; lia].
Qed.

Lemma bytes_take n m l : bytes n l -> (m <= n)%nat -> bytes m (take m l).
Proof.
  intros [? ?] ?; split; [rewrite length_take; lia | by apply Forall_take].
Qed.

Lemma bytes_drop n m l : bytes n l -> (m <= n)%nat -> bytes (n - m) (drop m l).
Proof.
  intros [? ?] ?; split; [rewrite length_drop; lia | by apply Forall_drop].
Qed.

Lemma store_le_digits n v : store_le n v = le_digits n v.
Proof.
  unfold store_le. revert v. induction n as [|n IH]; intros v; [done|].
  cbn [seq map le_digits]. apply f_equal2; [unfold u8; by rewrite Z.shiftr_0_r|].
  rewrite <- IH, <- seq_shift, map_map. apply map_ext. intros i.
  replace (v / 256) with (Z.shiftr v 8) by (rewrite Z.shiftr_div_pow2; done).
  rewrite Z.shiftr_shiftr by lia. do 2 f_equal. lia.
Qed.

Lemma le_digits_bytes n v : bytes n (le_digits n v).
Proof.
  revert v; induction n as [|n IH]; intros v; [split; [done|constructor]|].
  apply bytes_cons; [pose proof (Z.mod_pos_bound v 256); lia | apply IH].
Qed.

Lemma store_le_bytes n v : bytes n (store_le n v).
Proof. rewrite store_le_digits. apply le_digits_bytes. Qed.

Lemma length_store_le n v : length (store_le n v) = n.
Proof. apply store_le_bytes. Qed.

Lemma le_val_bound n l : bytes n l -> 0 <= le_val l < 256 ^ Z.of_nat n.
Proof.
  revert n; induction l as [|b l IH]; intros n [<- Hb]; [simpl; lia|].
  inversion Hb as [|?? Hb1 Hb2]; subst.
  specialize (IH (length l) (conj eq_refl Hb2)).
  cbn [length le_val]. rewrite Nat2Z.inj_succ, Z.pow_succ_r by lia. lia.
Qed.

Lemma le_val_digits n v : le_val (le_digits n v) = v mod 256 ^ Z.of_nat n.
Proof.
  revert v; induction n as [|n IH]; intros v; [simpl; by rewrite Z.mod_1_r|].
  cbn [le_val le_digits]. rewrite IH, Nat2Z.inj_succ, Z.pow_succ_r by lia.
  assert (0 < 256 ^ Z.of_nat n) by (apply Z.pow_pos_nonneg; lia).
  rewrite Z.rem_mul_r; lia.
Qed.

Lemma le_digits_val n l : bytes n l -> le_digits n (le_val l) = l.
Proof.
  revert n; induction l as [|b l IH]; intros n [<- Hb]; [done|].
  inversion Hb as [|?? Hb1 Hb2]; subst. cbn [length le_val le_digits].
  f_equal.
  - rewrite Z.mul_comm, Z_mod_plus_full. apply Z.mod_small; lia.
  - rewrite Z.mul_comm, Z_div_plus_full, Z.div_small by lia.
    by apply (IH (length l)).
Qed.

Lemma lor_shiftl_add v k b : 0 <= k -> 0 <= v < 2 ^ k -> 0 <= b ->
  Z.lor v (Z.shiftl b k) = v + b * 2 ^ k.
Proof.
  intros Hk Hv Hb. rewrite Z.shiftl_mul_pow2 by lia.
  rewrite <- Z.lxor_lor, <- Z.add_nocarry_lxor; [done| |].
  all: apply Z.bits_inj'; intros i Hi; rewrite Z.land_spec, Z.bits_0;
    destruct (Z.lt_ge_cases i k) as [Hik|Hik];
    [ rewrite Z.mul_pow2_bits_low by lia; apply andb_false_r
    | rewrite <- (Z.mod_small v (2 ^ k)) by lia;
      rewrite Z.mod_pow2_bits_high by lia; done ].
Qed.

Lemma load_le_from_val l : forall n index value,
  bytes n l -> 0 <= index -> 0 <= value < 256 ^ index ->
  load_le_from index value l = value + 256 ^ index * le_val l.
Proof.
  induction l as [|b l IH]; intros n index value Hl Hi Hv; cbn [load_le_from le_val]; [lia|].
  destruct Hl as [_ Hb]. inversion Hb as [|?? Hb1 Hb2]; subst.
  assert (Hp : 2 ^ (8 * index) = 256 ^ index).
  { rewrite Z.pow_mul_r by lia. done. }
  assert (Hs : 256 ^ (index + 1) = 256 * 256 ^ index).
  { rewrite Z.pow_add_r by lia. lia. }
  rewrite lor_shiftl_add, Hp; try lia.
  rewrite (IH (length l)); [rewrite Hs; lia | by split | lia | nia].
Qed.

Lemma load_le_val n l : bytes n l -> load_le l = le_val l.
Proof.
  intros ?. unfold load_le. rewrite (load_le_from_val l n) by (try lia; done). lia.
Qed.

Lemma load_store_le n v : load_le (store_le n v) = v mod 256 ^ Z.of_nat n.
Proof.
  rewrite (load_le_val n) by apply store_le_bytes.
  rewrite store_le_digits. apply le_val_digits.
Qed.

Lemma store_load_le n l : bytes n l -> store_le n (load_le l) = l.
Proof.
  intros Hl. rewrite (load_le_val n) by done. rewrite store_le_digits.
  by apply le_digits_val.
Qed.

Lemma load_le_bound n l : bytes n l -> 0 <= load_le l < 256 ^ Z.of_nat n.
Proof. intros Hl. rewrite (load_le_val n) by done. by apply le_val_bound. Qed.

Lemma store_le_inj n v w :
  0 <= v < 256 ^ Z.of_nat n -> 0 <= w < 256 ^ Z.of_nat n ->
  store_le n v = store_le n w -> v = w.
Proof.
  intros Hv Hw Heq. apply (f_equal load_le) in Heq.
  rewrite !load_store_le, !Z.mod_small in Heq; done.
Qed.

Lemma store_le_4 value :
  [u8 value; u8 (Z.shiftr value 8); u8 (Z.shiftr value 16); u8 (Z.shiftr value 24)] =
  store_le 4 value.
Proof. unfold store_le. simpl. by rewrite Z.shiftr_0_r. Qed.

Lemma store_le_2 value : [u8 (Z.land value 0xff); u8 (Z.shiftr value 8)] = store_le 2 value.
Proof.
  unfold store_le. simpl. rewrite Z.shiftr_0_r. f_equal.
  change 0xff with (Z.ones 8). rewrite Z.land_ones by done. unfold u8. apply Z.mod_mod. done.
Qed.

(** The codec is used through its lemmas from here on. *)
#[global] Opaque store_le load_le.

(** ** [memcmp] is a strict total order *)
Lemma memcmp_eq l r : memcmp l r = Eq <-> l = r.
Proof.
  revert r; induction l as [|a l IH]; intros [|b r]; simpl; try done.
  destruct (Z.compare_spec a b) as [->|?|?].
  - rewrite IH. split; [by intros -> | by intros [= ->]].
  - split; [done | intros [= -> _]; lia].
  - split; [done | intros [= -> _]; lia].
Qed.

Lemma memcmp_refl l : memcmp l l = Eq.
Proof. by apply memcmp_eq. Qed.

Lemma memcmp_antisym l r : memcmp r l = CompOpp (memcmp l r).
Proof.
  revert r; induction l as [|a l IH]; intros [|b r]; simpl; try done.
  rewrite (Z.compare_antisym a b). destruct (a ?= b); simpl; auto.
Qed.

Lemma memcmp_lt_trans a b c : memcmp a b = Lt -> memcmp b c = Lt -> memcmp a c = Lt.
Proof.
  revert b c; induction a as [|x a IH]; intros [|y b] [|z c]; simpl; try done.
  destruct (Z.compare_spec x y), (Z.compare_spec y z); try done; intros H1 H2;
    destruct (Z.compare_spec x z); try done; try lia; subst; eauto.
Qed.

Lemma bytes_equal_spec l r : bytes_equal l r = true <-> l = r.
Proof.
  unfold bytes_equal. rewrite <- memcmp_eq. destruct (memcmp l r); naive_solver.
Qed.

Lemma bytes_equal_false l r : bytes_equal l r = false <-> l <> r.
Proof. rewrite <- bytes_equal_spec. destruct (bytes_equal l r); naive_solver. Qed.

(** ** Zero tests *)
Lemma bytes_zero_spec l :
  Forall (fun b => is_u8 b) l -> bytes_zero l = true <-> Forall (fun b => b = 0) l.
Proof.
  intros Hl. unfold bytes_zero. rewrite Z.eqb_eq.
  enough (forall acc, is_u8 acc ->
    foldl (fun a b => u8 (Z.lor a b)) acc l = 0 <-> acc = 0 /\ Forall (fun b => b = 0) l)
    as H by (rewrite H by lia; naive_solver).
  induction Hl as [|b l Hb Hl IH]; intros acc Hacc; simpl; [naive_solver|].
  rewrite IH by apply u8_range.
  assert (Hr : is_u8 (Z.lor acc b)).
  { split; [apply Z.lor_nonneg; lia|].
    apply Z.lt_succ_r, Z.log2_lt_cancel. rewrite Z.log2_lor by lia.
    pose proof (Z.log2_le_mono acc 255). pose proof (Z.log2_le_mono b 255).
    change (Z.log2 255) with 7 in *. change (Z.log2 (Z.succ 255)) with 8. lia. }
  rewrite u8_small, Z.lor_eq_0_iff, Forall_cons by done. naive_solver.
Qed.

Lemma bytes_zero_zeros n l : bytes n l -> bytes_zero l = true <-> l = zeros n.
Proof.
  intros [Hn Hl]. rewrite bytes_zero_spec by done. unfold zeros.
  split.
  - intros H. subst n. clear Hl. induction H as [|b l -> H IH]; simpl; [done | by f_equal].
  - intros ->. by apply Forall_replicate.
Qed.

#[export] Hint Resolve bytes_zeros store_le_bytes : laplace.
#[export] Hint Rewrite length_store_le : laplace.

(** ** Reading and writing inside a buffer *)
(** The [len] bytes at [offset]. *)
Definition slice (offset len : Z) (l : list Z) : list Z :=
  take (Z.to_nat len) (drop (Z.to_nat offset) l).

(** [memcpy(l + offset, data, length(data))]. *)
Definition put (offset : Z) (data l : list Z) : list Z :=
  take (Z.to_nat offset) l ++ data ++ drop (Z.to_nat offset + length data) l.

Lemma put_next h data rest :
  put (Z.of_nat (length h)) data (h ++ rest) = (h ++ data) ++ drop (length data) rest.
Proof.
  unfold put. rewrite Nat2Z.id, take_app_length, drop_app_ge by lia.
  by rewrite Nat.add_comm, Nat.add_sub, app_assoc.
Qed.

Lemma slice_app_l offset len l r :
  0 <= offset -> 0 <= len -> offset + len <= Z.of_nat (length l) ->
  slice offset len (l ++ r) = slice offset len l.
Proof.
  intros Ho Hl Hle. unfold slice. rewrite drop_app_le by lia.
  rewrite take_app_le; [done|]. rewrite length_drop. lia.
Qed.

Lemma slice_app_r offset len l r :
  Z.of_nat (length l) <= offset ->
  slice offset len (l ++ r) = slice (offset - Z.of_nat (length l)) len r.
Proof.
  intros Ho. unfold slice. rewrite drop_app_ge by lia. do 2 f_equal. lia.
Qed.

Lemma slice_all len l : Z.of_nat (length l) <= len -> slice 0 len l = l.
Proof. intros Hl. unfold slice. simpl. apply take_ge. lia. Qed.

(** The pieces of a concatenation are its slices. *)
Lemma slice_pieces pieces i p rest offset len :
  pieces !! i = Some p ->
  offset = Z.of_nat (sum_list (map length (take i pieces))) -> len = Z.of_nat (length p) ->
  slice offset len (concat pieces ++ rest) = p.
Proof.
  intros Hi -> ->. unfold slice. rewrite !Nat2Z.id.
  revert i Hi. induction pieces as [|q pieces IH]; intros [|i] Hi; simpl in *; try done.
  - injection Hi as ->. rewrite <- app_assoc. simpl. apply take_app_length.
  - rewrite <- app_assoc, drop_app_ge by lia.
    replace (length q + sum_list (map length (take i pieces)) - length q)%nat
      with (sum_list (map length (take i pieces))) by lia.
    by apply IH.
Qed.

Lemma length_slice offset len l :
  0 <= offset -> 0 <= len -> offset + len <= Z.of_nat (length l) ->
  length (slice offset len l) = Z.to_nat len.
Proof. intros. unfold slice. rewrite length_take, length_drop. lia. Qed.

Lemma slice_split n m l : 0 <= n -> 0 <= m ->
  slice 0 (n + m) l = slice 0 n l ++ slice n m l.
Proof.
  intros Hn Hm. unfold slice. rewrite Z2Nat.inj_add by lia. simpl. rewrite !drop_0.
  rewrite <- (take_drop (Z.to_nat n) (take (Z.to_nat n + Z.to_nat m) l)) at 1.
  rewrite take_take, Nat.min_l by lia. f_equal. rewrite skipn_firstn_comm. f_equal. lia.
Qed.
