(* ===== verification/Layout.v ===== *)
(** * Records at fixed offsets

    The binary records of the engine are written by stores at fixed offsets into
    cleared memory and read back by loads at the same offsets.  A record is a
    list of pieces, each a field or a gap that stays zero; [puts_layout] shows
    that the stores leave the concatenation of the pieces, and [cuts_pieces] and
    [pieces_split] relate the slices that are loaded to the pieces. *)
From stdpp Require Import prelude.
From Stdlib Require Import ZArith Lia.
From S2P Require Import Prelude Bytes.

(** ** Stores *)
(** Stores at offsets, in their order. *)
Definition puts (writes : list (Z * list Z)) (output : list Z) : list Z :=
  foldl (fun output w => put w.1 w.2 output) output writes.

Inductive piece := stored (data : list Z) | gap (size : nat).

Definition piece_bytes (p : piece) : list Z :=
  match p with stored data => data | gap size => zeros size end.
Definition layout (ps : list piece) : list Z := concat (map piece_bytes ps).

(** The stores of the fields of a record whose pieces have the given sizes. *)
Fixpoint writes_at (offset : Z) (sizes : list nat) (ps : list piece) : list (Z * list Z) :=
  match sizes, ps with
  | n :: sizes, stored data :: ps => (offset, data) :: writes_at (offset + Z.of_nat n) sizes ps
  | n :: sizes, gap _ :: ps => writes_at (offset + Z.of_nat n) sizes ps
  | _, _ => []
  end.

Lemma length_zeros n : length (zeros n) = n.
Proof. apply length_replicate. Qed.

Lemma zeros_app n m : zeros (n + m) = zeros n ++ zeros m.
Proof. apply replicate_add. Qed.

Lemma length_concat_pieces {A} (l : list (list A)) : length (concat l) = sum_list (map length l).
Proof. induction l as [|x l IH]; simpl; [done|]. by rewrite length_app, IH. Qed.

(** A store into cleared memory, behind what has been written. *)
Lemma put_cleared h data n t : (length data <= n)%nat ->
  put (Z.of_nat (length h)) data (h ++ zeros n ++ t) =
  (h ++ data) ++ zeros (n - length data) ++ t.
Proof.
  intros Hn. rewrite put_next. f_equal.
  replace n with (length data + (n - length data))%nat at 1 by lia.
  rewrite zeros_app, <- app_assoc. apply drop_app_length'. symmetry. apply length_zeros.
Qed.

Lemma puts_layout sizes ps : map (fun p => length (piece_bytes p)) ps = sizes -> forall h n t,
  (sum_list sizes <= n)%nat ->
  puts (writes_at (Z.of_nat (length h)) sizes ps) (h ++ zeros n ++ t) =
  h ++ layout ps ++ zeros (n - sum_list sizes) ++ t.
Proof.
  intros <-. induction ps as [|p ps IH]; intros h n t Hn; cbn in Hn; [by rewrite Nat.sub_0_r|].
  unfold layout. cbn [map concat writes_at sum_list].
  destruct p as [data|size]; cbn [piece_bytes] in *.
  - cbn [puts foldl fst snd]. rewrite put_cleared by lia.
    rewrite <- Nat2Z.inj_add, <- length_app. fold (puts (writes_at (Z.of_nat (length (h ++ data)))
      (map (fun p => length (piece_bytes p)) ps) ps)). unfold puts in IH. rewrite IH by lia.
    rewrite <- !app_assoc. do 5 f_equal. cbn. lia.
  - rewrite length_zeros in *. replace n with (size + (n - size))%nat at 1 by lia.
    rewrite zeros_app, <- app_assoc, (app_assoc h).
    replace (Z.of_nat (length h) + Z.of_nat size) with (Z.of_nat (length (h ++ zeros size)))
      by (rewrite length_app, length_zeros; lia).
    rewrite IH by lia. rewrite <- !app_assoc. do 5 f_equal. cbn. rewrite ?length_zeros. lia.
Qed.

(** The stores of a whole record into memory cleared for it. *)
Lemma puts_record sizes ps n output : map (fun p => length (piece_bytes p)) ps = sizes ->
  (sum_list sizes <= n)%nat ->
  puts (writes_at 0 sizes ps) (put 0 (zeros n) output) =
  layout ps ++ zeros (n - sum_list sizes) ++ drop n output.
Proof.
  intros Hs Hn. change 0 with (Z.of_nat (@length Z [])).
  rewrite <- (app_nil_l output) at 1. rewrite put_next, length_zeros. cbn [app].
  apply (puts_layout sizes ps Hs []). done.
Qed.

(** ** Loads *)
Definition u8_at (offset : Z) (l : list Z) : Z := l !!! Z.to_nat offset.
Definition u16_at (offset : Z) (l : list Z) : Z := load_le (slice offset 2 l).
Definition u32_at (offset : Z) (l : list Z) : Z := load_le (slice offset 4 l).
Definition u64_at (offset : Z) (l : list Z) : Z := load_le (slice offset 8 l).

(** Consecutive slices of a buffer. *)
Fixpoint cuts (offset : Z) (lengths : list nat) (l : list Z) : list (list Z) :=
  match lengths with
  | [] => []
  | n :: lengths => slice offset (Z.of_nat n) l :: cuts (offset + Z.of_nat n) lengths l
  end.

Lemma concat_cuts lengths : forall offset l, 0 <= offset ->
  concat (cuts offset lengths l) = slice offset (Z.of_nat (sum_list lengths)) l.
Proof.
  induction lengths as [|n lengths IH]; intros offset l Ho; [by unfold slice; simpl; rewrite take_0|].
  cbn [cuts concat]. rewrite IH by lia. unfold slice. rewrite !Nat2Z.id.
  replace (Z.to_nat (offset + Z.of_nat n)) with (Z.to_nat offset + n)%nat by lia.
  rewrite <- drop_drop. change (sum_list (n :: lengths)) with (n + sum_list lengths)%nat.
  apply take_take_drop.
Qed.

Lemma cuts_pieces pieces : forall h rest,
  cuts (Z.of_nat (length h)) (map length pieces) (h ++ concat pieces ++ rest) = pieces.
Proof.
  induction pieces as [|p pieces IH]; intros h rest; [done|]. cbn [map cuts concat]. f_equal.
  - rewrite slice_app_r, Z.sub_diag by lia. unfold slice. cbn. rewrite drop_0, Nat2Z.id, <- app_assoc.
    apply take_app_length.
  - rewrite <- app_assoc, <- Nat2Z.inj_add, <- length_app, app_assoc. apply IH.
Qed.

(** A buffer that starts with the pieces of a record. *)
Lemma cuts_record sizes pieces rest m : map length pieces = sizes -> m = concat pieces ++ rest ->
  cuts 0 sizes m = pieces.
Proof. intros <- ->. apply (cuts_pieces pieces []). Qed.

Lemma pieces_split sizes pieces m : cuts 0 sizes m = pieces -> m = concat pieces ++ drop (sum_list sizes) m.
Proof.
  intros <-. rewrite concat_cuts by lia. unfold slice. rewrite Nat2Z.id. cbn. rewrite drop_0.
  symmetry. apply take_drop.
Qed.

Lemma slice_bytes n a off : bytes (length a) a -> 0 <= off ->
  off + Z.of_nat n <= Z.of_nat (length a) -> bytes n (slice off (Z.of_nat n) a).
Proof.
  intros [_ Ha] Ho Hl. unfold slice. rewrite Nat2Z.id.
  split; [rewrite length_take, length_drop; lia|by apply Forall_take, Forall_drop].
Qed.

(** A word that was loaded is the slice that it was loaded from. *)
Lemma store_slice n a off : bytes (length a) a -> 0 <= off ->
  off + Z.of_nat n <= Z.of_nat (length a) ->
  slice off (Z.of_nat n) a = store_le n (load_le (slice off (Z.of_nat n) a)).
Proof. intros Ha Ho Hl. symmetry. apply store_load_le. by apply slice_bytes. Qed.

Lemma load_slice_bound n a off : bytes (length a) a -> 0 <= off ->
  off + Z.of_nat n <= Z.of_nat (length a) ->
  0 <= load_le (slice off (Z.of_nat n) a) < 256 ^ Z.of_nat n.
Proof. intros Ha Ho Hl. apply load_le_bound. by apply slice_bytes. Qed.

(** A word that was stored is loaded. *)
Lemma load_stored n v s : s = store_le n v -> 0 <= v < 256 ^ Z.of_nat n -> load_le s = v.
Proof. intros -> Hv. rewrite load_store_le. by apply Z.mod_small. Qed.

Lemma slice_one a off : 0 <= off < Z.of_nat (length a) -> slice off 1 a = [u8_at off a].
Proof.
  intros Ho. unfold slice, u8_at. change (Z.to_nat 1) with 1%nat.
  destruct (lookup_lt_is_Some_2 a (Z.to_nat off)) as [b Hb]; [lia|].
  rewrite (list_lookup_total_correct _ _ _ Hb). rewrite (drop_S _ _ _ Hb). cbn. by rewrite take_0.
Qed.

Lemma u8_at_octet a off : bytes (length a) a -> 0 <= off < Z.of_nat (length a) -> is_u8 (u8_at off a).
Proof.
  intros [_ Ha] Ho. unfold u8_at. destruct (lookup_lt_is_Some_2 a (Z.to_nat off)) as [b Hb]; [lia|].
  rewrite (list_lookup_total_correct _ _ _ Hb). by apply (Forall_lookup_1 _ _ _ _ Ha Hb).
Qed.

(** *** Words at an offset *)
Lemma slice_u16 m off : bytes (length m) m -> 0 <= off -> off + 2 <= Z.of_nat (length m) ->
  slice off 2 m = store_le 2 (u16_at off m).
Proof. apply (store_slice 2). Qed.
Lemma slice_u32 m off : bytes (length m) m -> 0 <= off -> off + 4 <= Z.of_nat (length m) ->
  slice off 4 m = store_le 4 (u32_at off m).
Proof. apply (store_slice 4). Qed.
Lemma slice_u64 m off : bytes (length m) m -> 0 <= off -> off + 8 <= Z.of_nat (length m) ->
  slice off 8 m = store_le 8 (u64_at off m).
Proof. apply (store_slice 8). Qed.

Lemma u16_at_range m off : bytes (length m) m -> 0 <= off -> off + 2 <= Z.of_nat (length m) ->
  is_u16 (u16_at off m).
Proof. intros Hm Ho Hl. pose proof (load_slice_bound 2 m off Hm Ho Hl) as H. change (256 ^ _) with 65536 in H. unfold u16_at. change (Z.of_nat 2) with 2 in H. lia. Qed.
Lemma u32_at_range m off : bytes (length m) m -> 0 <= off -> off + 4 <= Z.of_nat (length m) ->
  is_u32 (u32_at off m).
Proof. intros Hm Ho Hl. pose proof (load_slice_bound 4 m off Hm Ho Hl) as H. change (256 ^ _) with 4294967296 in H. unfold u32_at. change (Z.of_nat 4) with 4 in H. lia. Qed.
Lemma u64_at_range m off : bytes (length m) m -> 0 <= off -> off + 8 <= Z.of_nat (length m) ->
  is_u64 (u64_at off m).
Proof. intros Hm Ho Hl. pose proof (load_slice_bound 8 m off Hm Ho Hl) as H. change (256 ^ _) with 18446744073709551616 in H. unfold u64_at. change (Z.of_nat 8) with 8 in H. lia. Qed.

Lemma u8_at_stored m off b : slice off 1 m = [b] -> u8_at off m = b.
Proof.
  unfold slice, u8_at. change (Z.to_nat 1) with 1%nat. intros H.
  apply list_lookup_total_correct. rewrite <- (Nat.add_0_r (Z.to_nat off)), <- lookup_drop.
  destruct (drop (Z.to_nat off) m); [done|]. cbn in *. by injection H as ->.
Qed.
Lemma u16_at_stored m off v : slice off 2 m = store_le 2 v -> is_u16 v -> u16_at off m = v.
Proof. intros H Hv. apply (load_stored 2 v _ H). change (256 ^ _) with 65536. lia. Qed.
Lemma u32_at_stored m off v : slice off 4 m = store_le 4 v -> is_u32 v -> u32_at off m = v.
Proof. intros H Hv. apply (load_stored 4 v _ H). change (256 ^ _) with 4294967296. lia. Qed.
Lemma u64_at_stored m off v : slice off 8 m = store_le 8 v -> is_u64 v -> u64_at off m = v.
Proof. intros H Hv. apply (load_stored 8 v _ H). change (256 ^ _) with 18446744073709551616. lia. Qed.

(** The slices of a header in place of its cuts. *)
Ltac slices :=
  match goal with
  | |- context [cuts 0 ?sizes ?m] =>
      let c := eval lazy [cuts Z.add Z.of_nat Pos.of_succ_nat Pos.succ Pos.add Pos.add_carry] in (cuts 0 sizes m) in
      change (cuts 0 sizes m) with c
  end.
Ltac slices_in H :=
  match type of H with
  | context [cuts 0 ?sizes ?m] =>
      let c := eval lazy [cuts Z.add Z.of_nat Pos.of_succ_nat Pos.succ Pos.add Pos.add_carry] in (cuts 0 sizes m) in
      change (cuts 0 sizes m) with c in H
  end.

(** *** Records stored one behind the other *)
Lemma store_all {A} (size : nat) (step : Z) (enc : A -> list Z) (es : list A) :
  step = Z.of_nat size -> Forall (fun e => length (enc e) = size) es -> forall h n t,
  (length es * size <= n)%nat ->
  foldl (fun '(offset, output) e => (offset + step, put offset (enc e) output))
    (Z.of_nat (length h), h ++ zeros n ++ t) es =
  (Z.of_nat (length (h ++ concat (map enc es))),
   (h ++ concat (map enc es)) ++ zeros (n - length es * size) ++ t).
Proof.
  intros -> Hes. induction Hes as [|e es He _ IH]; intros h n t Hn.
  { cbn. rewrite app_nil_r. by rewrite Nat.sub_0_r. }
  cbn [foldl map concat length] in *. rewrite put_cleared by lia.
  replace (Z.of_nat (length h) + Z.of_nat size) with (Z.of_nat (length (h ++ enc e)))
    by (rewrite length_app; lia).
  rewrite IH by lia. rewrite !app_assoc. do 4 f_equal. cbn. lia.
Qed.

(** ** Arrays of records of one size *)
Lemma forallb_seq_S f n : forallb f (seq 0 (S n)) = f 0%nat && forallb (fun i => f (S i)) (seq 0 n).
Proof.
  cbn [seq forallb]. f_equal. rewrite <- seq_shift. generalize (seq 0 n).
  induction l as [|i l IH]; [done|]. cbn. by rewrite IH.
Qed.

Section Strided.
Context {A : Type} (size : nat) (open : list Z -> bool) (enc : A -> list Z) (wf : A -> Prop).
Hypothesis enc_length : forall a, wf a -> length (enc a) = size.
Hypothesis open_exact : forall l, Forall (fun b => is_u8 b) l -> (size <= length l)%nat ->
  open l = true <-> exists a, wf a /\ take size l = enc a.

Lemma strided_exact count : forall l, Forall (fun b => is_u8 b) l -> (count * size <= length l)%nat ->
  forallb (fun index => open (drop (index * size) l)) (seq 0 count) = true <->
  exists es, length es = count /\ Forall wf es /\ take (count * size) l = concat (map enc es).
Proof.
  induction count as [|count IH]; intros l Hl Hn.
  { split; [|done]. intros _. exists []. by repeat split. }
  rewrite forallb_seq_S. change (0 * size)%nat with 0%nat. rewrite drop_0, andb_true_iff.
  rewrite open_exact by (done || lia).
  assert (E : forallb (fun i => open (drop (S i * size) l)) (seq 0 count) =
              forallb (fun i => open (drop (i * size) (drop size l))) (seq 0 count)).
  { generalize (seq 0 count). induction l0 as [|i l0 IHl]; [done|]. cbn [forallb].
    rewrite IHl, drop_drop. done. }
  rewrite E, IH; [|by apply Forall_drop|rewrite length_drop; lia]. clear E. cbn [Nat.mul].
  split.
  - intros [(a & Ha & Ea) (es & <- & Hes & Ees)]. exists (a :: es). split; [done|]. split; [by constructor|].
    cbn [map concat]. rewrite <- Ea, <- Ees. symmetry. apply take_take_drop.
  - intros ([|a es] & Hlen & Hes & E); [done|]. apply Forall_cons in Hes as [Ha Hes].
    rewrite <- take_take_drop in E. cbn [map concat] in E. injection Hlen as <-.
    apply app_inj_1 in E as [Ea Ees]; [|rewrite length_take, enc_length by done; lia].
    split; [by exists a|]. by exists es.
Qed.
End Strided.

(** A record of an array, behind the ones before it. *)
Lemma strided_lookup {A} (size : nat) (enc : A -> list Z) es :
  Forall (fun e => length (enc e) = size) es -> forall i e rest, es !! i = Some e ->
  exists rest', drop (i * size) (concat (map enc es) ++ rest) = enc e ++ rest'.
Proof.
  induction 1 as [|a es Ha _ IH]; intros [|i] e rest Hi; try done; cbn [map concat].
  - injection Hi as ->. eexists. cbn [Nat.mul]. by rewrite drop_0, <- app_assoc.
  - destruct (IH i e rest Hi) as [rest' Hr]. exists rest'.
    cbn [Nat.mul]. by rewrite <- app_assoc, drop_app_ge, Ha, Nat.add_comm, Nat.add_sub by lia.
Qed.
