(* ===== verification/Sorting.v ===== *)
(** * Sorting: comparators, [qsort], scans of adjacent elements

    The C library's [qsort] is modelled by insertion sort.  The standard fixes
    its result only up to the order of elements the comparator calls equal;
    [sorted_permutation_unique] shows that wherever the comparator separates
    the elements, every sorted permutation is the one computed here. *)
From stdpp Require Import prelude sorting.
From Stdlib Require Import ZArith Lia.
From S2P Require Import Prelude Bytes.

(** ** Definitions *)
Section Definitions.
Context {A : Type}.
Implicit Types (cmp : A -> A -> comparison) (l : list A).

Fixpoint insert_by cmp (x : A) l : list A :=
  match l with
  | [] => [x]
  | y :: t => match cmp x y with Gt => y :: insert_by cmp x t | _ => x :: l end
  end.

Definition qsort cmp l : list A := foldr (insert_by cmp) [] l.

(** [for (index = 1; index < count; ++index) if (p(l[index-1], l[index])) ...]:
    the second element of the first adjacent pair that satisfies [p]. *)
Fixpoint find_adjacent_from (p : A -> A -> bool) (previous : A) l : option A :=
  match l with
  | [] => None
  | current :: t =>
      if p previous current then Some current else find_adjacent_from p current t
  end.
Definition find_adjacent (p : A -> A -> bool) l : option A :=
  match l with [] => None | x :: t => find_adjacent_from p x t end.

(** [a] sorts no later than [b]. *)
Definition cmp_le cmp (a b : A) : Prop := cmp a b <> Gt.
End Definitions.

(** Comparators a C program may hand to [qsort]. *)
Class CmpLaws {A} (cmp : A -> A -> comparison) : Prop := {
  cmp_antisym a b : cmp b a = CompOpp (cmp a b);
  cmp_le_trans a b c : cmp_le cmp a b -> cmp_le cmp b c -> cmp_le cmp a c }.

Arguments cmp_antisym {A} cmp {CmpLaws} a b : rename.
Arguments cmp_le_trans {A} cmp {CmpLaws} a b c : rename.

(** Compare by a first key, then by a second one. *)
Definition cmp_then {A} (c1 c2 : A -> A -> comparison) (a b : A) : comparison :=
  match c1 a b with Eq => c2 a b | c => c end.

Definition cmp_on {A B} (f : A -> B) (cmp : B -> B -> comparison) (a b : A) : comparison :=
  cmp (f a) (f b).

(** ** Laws *)
Section Laws.
Context {A : Type} (cmp : A -> A -> comparison) `{!CmpLaws cmp}.

Lemma cmp_refl a : cmp a a = Eq.
Proof. pose proof (cmp_antisym cmp a a). by destruct (cmp a a). Qed.

Lemma cmp_le_refl a : cmp_le cmp a a.
Proof. unfold cmp_le. by rewrite cmp_refl. Qed.

Lemma cmp_le_total a b : cmp_le cmp a b \/ cmp_le cmp b a.
Proof.
  unfold cmp_le. rewrite (cmp_antisym cmp a b). destruct (cmp a b); simpl; auto.
Qed.

Lemma cmp_le_antisym a b : cmp_le cmp a b -> cmp_le cmp b a -> cmp a b = Eq.
Proof.
  unfold cmp_le. rewrite (cmp_antisym cmp a b). destruct (cmp a b); naive_solver.
Qed.

Lemma cmp_eq_le a b : cmp a b = Eq -> cmp_le cmp a b /\ cmp_le cmp b a.
Proof. unfold cmp_le. rewrite (cmp_antisym cmp a b). by intros ->. Qed.

(** An equivalence class of the comparator is an interval. *)
Lemma cmp_convex a b c :
  cmp_le cmp a b -> cmp_le cmp b c -> cmp a c = Eq -> cmp a b = Eq /\ cmp b c = Eq.
Proof.
  intros Hab Hbc [_ Hca]%cmp_eq_le.
  split; apply cmp_le_antisym; eauto using cmp_le_trans.
Qed.

Lemma insert_by_perm x l : insert_by cmp x l ≡ₚ x :: l.
Proof.
  induction l as [|y l IH]; simpl; [done|].
  destruct (cmp x y); [done..|]. rewrite IH. apply Permutation_swap.
Qed.

Lemma qsort_perm l : qsort cmp l ≡ₚ l.
Proof.
  induction l as [|x l IH]; simpl; [done|]. by rewrite insert_by_perm, IH.
Qed.

Lemma insert_by_sorted x l :
  StronglySorted (cmp_le cmp) l -> StronglySorted (cmp_le cmp) (insert_by cmp x l).
Proof.
  induction 1 as [|y l Hs IH Hy]; simpl; [repeat constructor|].
  destruct (cmp x y) eqn:E.
  1,2: constructor; [by constructor|]; constructor; [unfold cmp_le; by rewrite E|];
    eapply Forall_impl; [exact Hy|]; intros z Hz; eapply (cmp_le_trans cmp); [|exact Hz];
    unfold cmp_le; by rewrite E.
  constructor; [done|]. rewrite insert_by_perm. constructor; [|done].
  destruct (cmp_le_total x y) as [H|H]; [by contradict E; apply H|done].
Qed.

Lemma qsort_sorted l : StronglySorted (cmp_le cmp) (qsort cmp l).
Proof. induction l; simpl; [constructor | by apply insert_by_sorted]. Qed.

Lemma length_qsort l : length (qsort cmp l) = length l.
Proof. by rewrite qsort_perm. Qed.

Lemma sorted_permutation_unique l1 l2 :
  StronglySorted (cmp_le cmp) l1 -> StronglySorted (cmp_le cmp) l2 -> l1 ≡ₚ l2 ->
  (forall a b, a ∈ l1 -> b ∈ l1 -> cmp a b = Eq -> a = b) -> l1 = l2.
Proof.
  revert l2. induction l1 as [|x l1 IH]; intros l2 H1 H2 Hp Hsep.
  { by apply Permutation_nil_l in Hp. }
  destruct l2 as [|y l2]; [by apply Permutation_sym, Permutation_nil_l in Hp|].
  assert (x = y) as ->.
  { inversion H1 as [|? ? ? Hx]; inversion H2 as [|? ? ? Hy]; subst.
    apply Hsep; [set_solver | rewrite Hp; set_solver |].
    apply cmp_le_antisym.
    - assert (y ∈ x :: l1) as [->|Hin]%elem_of_cons by (rewrite Hp; set_solver);
        [apply cmp_le_refl | rewrite Forall_forall in Hx; auto].
    - assert (x ∈ y :: l2) as [->|Hin]%elem_of_cons by (rewrite <- Hp; set_solver);
        [apply cmp_le_refl | rewrite Forall_forall in Hy; auto]. }
  f_equal. apply IH.
  - by inversion H1.
  - by inversion H2.
  - by apply Permutation_cons_inv in Hp.
  - intros a b Ha Hb. apply Hsep; set_solver.
Qed.
End Laws.

#[export] Instance memcmp_laws : CmpLaws memcmp.
Proof.
  split; [apply memcmp_antisym|]. unfold cmp_le.
  intros a b c Hab Hbc.
  destruct (memcmp a b) eqn:E1, (memcmp b c) eqn:E2; try done.
  - apply memcmp_eq in E1, E2. subst. by rewrite memcmp_refl.
  - apply memcmp_eq in E1. subst. by rewrite E2.
  - apply memcmp_eq in E2. subst. by rewrite E1.
  - by rewrite (memcmp_lt_trans a b c).
Qed.

#[export] Instance Z_compare_laws : CmpLaws Z.compare.
Proof.
  split; [intros a b; apply Z.compare_antisym|]. unfold cmp_le.
  intros a b c. rewrite !Z.compare_le_iff. lia.
Qed.

#[export] Instance cmp_on_laws {A B} (f : A -> B) cmp :
  CmpLaws cmp -> CmpLaws (cmp_on f cmp).
Proof.
  intros [H1 H2]. split; unfold cmp_on, cmp_le in *; eauto.
Qed.

#[export] Instance cmp_then_laws {A} (c1 c2 : A -> A -> comparison) :
  CmpLaws c1 -> CmpLaws c2 -> CmpLaws (cmp_then c1 c2).
Proof.
  intros L1 L2. unfold cmp_then. split.
  - intros a b. rewrite (cmp_antisym c1 a b), (cmp_antisym c2 a b).
    by destruct (c1 a b).
  - unfold cmp_le. intros a b c Hab Hbc.
    assert (Hac : c1 a c <> Gt).
    { apply (cmp_le_trans c1 a b c); unfold cmp_le;
        [by destruct (c1 a b) | by destruct (c1 b c)]. }
    destruct (c1 a c) eqn:E; [|done..].
    destruct (cmp_convex c1 a b c) as [E1 E2]; unfold cmp_le;
      [by destruct (c1 a b) | by destruct (c1 b c) | done |].
    rewrite E1 in Hab. rewrite E2 in Hbc.
    by apply (cmp_le_trans c2 a b c).
Qed.

(** ** Adjacent scans *)
Section Adjacent.
Context {A : Type} (le : A -> A -> Prop) (R E : A -> A -> Prop).
Context (R_convex : forall a b c, le a b -> le b c -> R a c -> R a b /\ R b c).
Context (E_trans : forall a b c, E a b -> E b c -> E a c).

(** If no adjacent pair breaks [R -> E], no pair of a sorted list does. *)
Lemma find_adjacent_none p l :
  (forall a b, p a b = false -> R a b -> E a b) ->
  StronglySorted le l -> find_adjacent p l = None ->
  StronglySorted (fun a b => R a b -> E a b) l.
Proof.
  intros Hp Hs. destruct Hs as [|x l Hs Hx]; [constructor|]. simpl.
  revert x Hx. induction Hs as [|y l Hs IH Hy]; intros x Hx Hn; [repeat constructor|].
  simpl in Hn. destruct (p x y) eqn:Epxy; [done|].
  apply Forall_cons in Hx as [Hxy Hx].
  specialize (IH y Hy Hn). constructor; [done|].
  inversion IH as [|? ? _ Hyl]; subst.
  constructor; [by apply Hp|].
  rewrite Forall_forall in Hyl, Hy |- *. intros z Hz HR.
  destruct (R_convex x y z) as [H1 H2]; auto.
  eapply E_trans; [by apply Hp | by apply Hyl].
Qed.
End Adjacent.

Lemma find_adjacent_some {A} (p : A -> A -> bool) l b :
  find_adjacent p l = Some b -> exists l1 a l2, l = l1 ++ a :: b :: l2 /\ p a b = true.
Proof.
  destruct l as [|x l]; [done|]. simpl. revert x.
  induction l as [|y l IH]; intros x; simpl; [done|].
  destruct (p x y) eqn:Ep.
  - intros [= ->]. by exists [], x, l.
  - intros (l1 & a & l2 & -> & Ha)%IH. by exists (x :: l1), a, l2.
Qed.

(** Every ordered pair of a list satisfies [P] exactly when every pair of
    elements does, for a symmetric [P] that holds on the diagonal. *)
Lemma StronglySorted_pairs {A} (P : A -> A -> Prop) l :
  (forall a b, P a b -> P b a) -> (forall a, a ∈ l -> P a a) ->
  StronglySorted P l -> forall a b, a ∈ l -> b ∈ l -> P a b.
Proof.
  intros Hsym Hd Hs. induction Hs as [|x l Hs IH Hx]; intros a b; [set_solver|].
  rewrite Forall_forall in Hx.
  intros [->|Ha]%elem_of_cons [->|Hb]%elem_of_cons; auto; [set_solver|].
  apply IH; [intros; apply Hd; set_solver | done..].
Qed.

(** ** Binary search
    [while (low < high) { middle = low + (high - low) / 2; if (before(middle))
    low = middle + 1; else high = middle; }] *)
Fixpoint lower_bound (fuel : nat) (before : Z -> bool) (low high : Z) : Z :=
  match fuel with
  | O => low
  | S fuel =>
      if low <? high then
        let middle := low + (high - low) / 2 in
        if before middle then lower_bound fuel before (middle + 1) high
        else lower_bound fuel before low middle
      else low
  end.

(** With fuel for the length of the range and a monotone test, the search
    ends at the boundary of the elements before the one sought. *)
Lemma lower_bound_spec before fuel : forall low high,
  low <= high -> high - low <= Z.of_nat fuel ->
  (forall i j, low <= i <= j -> j < high -> before j = true -> before i = true) ->
  let r := lower_bound fuel before low high in
  low <= r <= high /\ (forall i, low <= i < r -> before i = true) /\
  (forall i, r <= i < high -> before i = false).
Proof.
  induction fuel as [|fuel IH]; intros low high Hle Hfuel Hmono; cbn [lower_bound].
  { split_and!; intros; lia. }
  destruct (Z.ltb_spec low high) as [Hlt|Hge]; [|split_and!; intros; lia].
  assert (Hmid : low <= low + (high - low) / 2 < high).
  { pose proof (Z.div_pos (high - low) 2). pose proof (Z.div_lt (high - low) 2). lia. }
  set (middle := low + (high - low) / 2) in *. cbv zeta. destruct (before middle) eqn:Hb.
  - destruct (IH (middle + 1) high) as (Hr & H1 & H2); [lia|lia| |].
    { intros i j ? ?. apply Hmono; lia. }
    split_and!; [lia|lia| |done].
    intros i Hi. destruct (Z.le_gt_cases i middle).
    + apply (Hmono i middle); [lia|lia|done].
    + apply H1. lia.
  - destruct (IH low middle) as (Hr & H1 & H2); [lia|lia| |].
    { intros i j ? ?. apply Hmono; lia. }
    split_and!; [lia|lia|done|].
    intros i Hi. destruct (Z.lt_ge_cases i middle); [apply H2; lia|].
    destruct (before i) eqn:Hbi; [|done].
    rewrite (Hmono middle i) in Hb; [done|lia|lia|done].
Qed.

(** ** Duplicates and collisions in an array sorted by a digest *)
Section Scans.
Context {A : Type} (f : A -> list Z) (c2 : A -> A -> comparison) `{!CmpLaws c2}.
Local Abbreviation cmp := (cmp_then (cmp_on f memcmp) c2).

Lemma cmp_then_le_1 a b : cmp_le cmp a b -> cmp_le (cmp_on f memcmp) a b.
Proof. unfold cmp_le, cmp_then. by destruct (cmp_on f memcmp a b). Qed.

Lemma digest_convex a b c :
  cmp_le cmp a b -> cmp_le cmp b c -> f a = f c -> f a = f b /\ f b = f c.
Proof.
  intros Hab%cmp_then_le_1 Hbc%cmp_then_le_1 Heq.
  destruct (cmp_convex (cmp_on f memcmp) a b c Hab Hbc) as [H1 H2].
  - unfold cmp_on. by apply memcmp_eq.
  - unfold cmp_on in *. by apply memcmp_eq in H1, H2.
Qed.

(** The scan for two neighbours with the same digest finds none exactly when
    all digests are distinct. *)
Lemma duplicate_scan l :
  find_adjacent (fun a b => bytes_equal (f a) (f b)) (qsort cmp l) = None <->
  NoDup (map f l).
Proof.
  rewrite <- (qsort_perm cmp l) at 2. split.
  - intros Hn. apply (find_adjacent_none (cmp_le cmp) (fun a b => f a = f b)
      (fun _ _ => False)) in Hn; [| | | |apply (qsort_sorted cmp)].
    + induction Hn as [|x l' Hs IH Hx]; simpl; [constructor|]. constructor; [|done].
      intros (y & Hy & Hin)%list_elem_of_fmap. rewrite Forall_forall in Hx. by apply (Hx y).
    + apply digest_convex.
    + done.
    + intros a b Hp Heq. by apply bytes_equal_false in Hp.
  - intros Hnd. destruct (find_adjacent _ _) as [b|] eqn:E; [|done].
    apply find_adjacent_some in E as (l1 & a & l2 & E & Heq).
    apply bytes_equal_spec in Heq. rewrite E, map_app in Hnd. simpl in Hnd.
    apply NoDup_app in Hnd as (_ & _ & Hnd). rewrite Heq in Hnd.
    apply NoDup_cons in Hnd as [Hnd _]. contradict Hnd. left.
Qed.

(** The scan for two neighbours with the same coordinate and different
    fingerprints finds none exactly when coordinates determine fingerprints. *)
Lemma collision_scan (g : A -> list Z) l :
  find_adjacent (fun a b => bytes_equal (f a) (f b) && negb (bytes_equal (g a) (g b)))
    (qsort cmp l) = None <->
  (forall a b, a ∈ l -> b ∈ l -> f a = f b -> g a = g b).
Proof.
  split.
  - intros Hn a b Ha Hb. apply (find_adjacent_none (cmp_le cmp) (fun a b => f a = f b)
      (fun a b => g a = g b)) in Hn; [| | | |apply (qsort_sorted cmp)].
    + rewrite <- (qsort_perm cmp l) in Ha, Hb.
      revert a b Ha Hb. apply (StronglySorted_pairs (fun a b => f a = f b -> g a = g b));
        [|done|done]. intros x y H Heq. symmetry. by apply H.
    + apply digest_convex.
    + congruence.
    + intros x y Hp Heq. apply andb_false_iff in Hp as [Hp|Hp].
      * by apply bytes_equal_false in Hp.
      * apply negb_false_iff, bytes_equal_spec in Hp. done.
  - intros Hall. destruct (find_adjacent _ _) as [b|] eqn:E; [|done].
    apply find_adjacent_some in E as (l1 & a & l2 & E & Hp).
    apply andb_true_iff in Hp as [H1 H2]. apply bytes_equal_spec in H1.
    apply negb_true_iff, bytes_equal_false in H2. contradict H2.
    apply Hall; [..|done]; rewrite <- (qsort_perm cmp l), E; set_solver.
Qed.
End Scans.

(** ** Groups of equal keys
    [end = index + 1; while (end < count && compare(l[index], l[end]) == 0) ++end;]
    gives the segments of a sorted array whose elements compare equal. *)
Definition same {A} (c : A -> A -> comparison) (a b : A) : bool :=
  match c a b with Eq => true | _ => false end.

Fixpoint span {A} (p : A -> bool) (l : list A) : list A * list A :=
  match l with
  | [] => ([], [])
  | x :: t => if p x then let '(a, b) := span p t in (x :: a, b) else ([], l)
  end.

Fixpoint groups {A} (fuel : nat) (c : A -> A -> comparison) (l : list A) : list (list A) :=
  match fuel, l with
  | S fuel, x :: t => let '(g, rest) := span (same c x) t in (x :: g) :: groups fuel c rest
  | _, _ => []
  end.

Lemma span_spec {A} (p : A -> bool) l :
  let '(a, b) := span p l in
  l = a ++ b /\ Forall (fun x => p x = true) a /\
  match b with [] => True | y :: _ => p y = false end.
Proof.
  induction l as [|x l IH]; simpl; [done|]. destruct (p x) eqn:E; [|done].
  destruct (span p l) as [a b]. destruct IH as (-> & Ha & Hb).
  split_and!; [done | by constructor | done].
Qed.

Section Groups.
Context {A : Type} (c1 c2 : A -> A -> comparison) `{!CmpLaws c1, !CmpLaws c2}.
Local Abbreviation le := (cmp_le (cmp_then c1 c2)).

Lemma same_true a b : same c1 a b = true <-> c1 a b = Eq.
Proof. unfold same. by destruct (c1 a b). Qed.

Lemma cmp_eq_trans a b c : c1 a b = Eq -> c1 b c = Eq -> c1 a c = Eq.
Proof.
  intros [H1 H2]%(cmp_eq_le c1) [H3 H4]%(cmp_eq_le c1).
  apply (cmp_le_antisym c1); eapply (cmp_le_trans c1); eauto.
Qed.

Lemma cmp_eq_sym a b : c1 a b = Eq -> c1 b a = Eq.
Proof. rewrite (cmp_antisym c1 a b). by intros ->. Qed.

Lemma le_first a b : le a b -> cmp_le c1 a b.
Proof. unfold cmp_le, cmp_then. by destruct (c1 a b). Qed.

(** The groups partition the sorted list into its classes: consecutive,
    non-empty, equal keys inside a group, different keys across groups. *)
Lemma groups_spec fuel : forall l,
  (length l <= fuel)%nat -> StronglySorted le l ->
  concat (groups fuel c1 l) = l /\
  Forall (fun g => exists x t, g = x :: t /\ Forall (fun y => c1 x y = Eq) t)
    (groups fuel c1 l) /\
  StronglySorted (fun g h => forall a b, a ∈ g -> b ∈ h -> c1 a b <> Eq) (groups fuel c1 l).
Proof.
  induction fuel as [|fuel IH]; intros [|x t] Hf Hs; simpl in Hf; try lia;
    try (split_and!; constructor); cbn [groups].
  apply StronglySorted_inv in Hs as [Hs Hx].
  pose proof (span_spec (same c1 x) t) as Hspan.
  destruct (span (same c1 x) t) as [g rest]. destruct Hspan as (-> & Hg & Hrest).
  assert (Hsr : StronglySorted le rest).
  { clear -Hs. induction g as [|y g IHg]; [done|]. apply IHg. by inversion Hs. }
  destruct (IH rest) as (Hc & Hne & Hd); [rewrite length_app in Hf; lia | done|].
  assert (Hgx : Forall (fun y => c1 x y = Eq) g).
  { eapply Forall_impl; [exact Hg|]. intros y. by rewrite same_true. }
  assert (Hout : forall b, b ∈ rest -> c1 x b <> Eq).
  { destruct rest as [|y rest]; [set_solver|]. intros b Hb Heq.
    apply Forall_app in Hx as [_ Hx]. apply Forall_cons in Hx as [Hxy _].
    assert (Hyb : cmp_le c1 y b).
    { apply elem_of_cons in Hb as [->|Hb]; [apply (cmp_le_refl c1)|].
      apply StronglySorted_inv in Hsr as [_ Hy]. rewrite Forall_forall in Hy.
      by apply le_first, Hy. }
    destruct (cmp_convex c1 x y b (le_first _ _ Hxy) Hyb Heq) as [H _].
    apply same_true in H. congruence. }
  cbn [concat]. split_and!.
  - simpl. by rewrite Hc.
  - constructor; [by exists x, g | done].
  - constructor; [done|]. apply Forall_forall. intros h Hh a b Ha Hb Hab.
    assert (b ∈ rest) by (rewrite <- Hc; apply list_elem_of_In, in_concat;
                          exists h; split; by apply list_elem_of_In).
    apply (Hout b); [done|].
    apply elem_of_cons in Ha as [->|Ha]; [done|]. rewrite Forall_forall in Hgx.
    eapply cmp_eq_trans; [by apply Hgx | done].
Qed.
End Groups.

Lemma StronglySorted_trichotomy {A} (R : A -> A -> Prop) l a b :
  StronglySorted R l -> a ∈ l -> b ∈ l -> a = b \/ R a b \/ R b a.
Proof.
  induction 1 as [|x l Hs IH Hx]; intros Ha Hb; [set_solver|].
  rewrite Forall_forall in Hx.
  apply elem_of_cons in Ha as [->|Ha], Hb as [->|Hb]; auto.
Qed.

Lemma StronglySorted_map {A C} (R : A -> A -> Prop) (S : C -> C -> Prop) (f : A -> C) l :
  StronglySorted R l -> (forall a b, a ∈ l -> b ∈ l -> R a b -> S (f a) (f b)) ->
  StronglySorted S (map f l).
Proof.
  induction 1 as [|x l Hs IH Hx]; intros Hf; simpl; constructor.
  - apply IH. intros a b ? ?. apply Hf; by right.
  - apply Forall_forall. intros y (z & -> & Hz)%list_elem_of_fmap.
    rewrite Forall_forall in Hx. apply Hf; [left | by right | by apply Hx].
Qed.

(** ** Ordered batches read from front to back *)
Lemma StronglySorted_snoc {A} (R : A -> A -> Prop) l x :
  StronglySorted R (l ++ [x]) <-> StronglySorted R l /\ Forall (fun y => R y x) l.
Proof.
  induction l as [|y l IH]; simpl; [split; repeat constructor|]. split.
  - intros [Hs Hy]%StronglySorted_inv. apply IH in Hs as [Hs Hx].
    apply Forall_app in Hy as [Hy Hyx]. apply Forall_cons in Hyx as [Hyx _].
    split; by constructor.
  - intros [[Hs Hy]%StronglySorted_inv [Hyx Hx]%Forall_cons].
    constructor; [by apply IH|]. apply Forall_app. split; [done|by constructor].
Qed.

(** A strictly ordered list is extended by an element above its last one. *)
Lemma StronglySorted_extend {A} (R : A -> A -> Prop) `{!Transitive R} l x :
  StronglySorted R l ->
  (StronglySorted R (l ++ [x]) <-> match last l with None => True | Some y => R y x end).
Proof.
  intros Hl. rewrite StronglySorted_snoc. destruct l as [|z l _] using rev_ind.
  { split; [done|]. by repeat constructor. }
  rewrite last_snoc. apply StronglySorted_snoc in Hl as [Hl Hz]. split.
  - intros [_ H]. apply Forall_app in H as [_ H]. by apply Forall_cons in H as [H _].
  - intros Hzx. split; [by apply StronglySorted_snoc|]. apply Forall_app.
    split; [|by constructor]. eapply Forall_impl; [exact Hz|]. intros y Hy. by transitivity z.
Qed.

(** All elements of a list agree on [f]. *)
Definition homogeneous {A C} (f : A -> C) (l : list A) : Prop :=
  forall a b, a ∈ l -> b ∈ l -> f a = f b.

Lemma homogeneous_extend {A C} (f : A -> C) l x first :
  homogeneous f l -> head (l ++ [x]) = Some first ->
  (homogeneous f (l ++ [x]) <-> f first = f x).
Proof.
  intros Hl Hf. assert (Hin : first ∈ l ++ [x]).
  { destruct l; simpl in *; injection Hf as ->; left. }
  split; [intros H; apply H; set_solver|].
  intros E. assert (Hx : forall a, a ∈ l ++ [x] -> f a = f x).
  { intros a [Ha|Ha%list_elem_of_singleton]%elem_of_app; [|congruence].
    rewrite <- E. apply Hl; [done|]. destruct l; [set_solver|].
    simpl in Hf. injection Hf as ->. left. }
  intros a b Ha%Hx Hb%Hx. congruence.
Qed.

#[export] Instance memcmp_lt_transitive {A} (f : A -> list Z) :
  Transitive (fun a b => memcmp (f a) (f b) = Lt).
Proof. intros a b c. apply memcmp_lt_trans. Qed.

(** A sum over a list of machine words. *)
Definition sum_of {A} (f : A -> Z) (l : list A) : Z := foldr (fun a n => f a + n) 0 l.

Lemma sum_of_snoc {A} (f : A -> Z) l x : sum_of f (l ++ [x]) = sum_of f l + f x.
Proof. induction l as [|y l IH]; simpl; [lia|]. unfold sum_of in *. lia. Qed.

Lemma sum_of_app {A} (f : A -> Z) l l' : sum_of f (l ++ l') = sum_of f l + sum_of f l'.
Proof. induction l as [|y l IH]; unfold sum_of in *; simpl; lia. Qed.

Lemma sum_of_nonneg {A} (f : A -> Z) l : Forall (fun a => 0 <= f a) l -> 0 <= sum_of f l.
Proof. induction 1; unfold sum_of in *; simpl; lia. Qed.

Lemma foldl_snoc {A C} (f : A -> C -> A) l x a : foldl f a (l ++ [x]) = f (foldl f a l) x.
Proof. by rewrite foldl_app. Qed.

Lemma take_snoc {A} (p l : list A) x : take (S (length p)) (p ++ x :: l) = p ++ [x].
Proof. induction p as [|y p IH]; simpl; [by rewrite take_0|]. by f_equal. Qed.

(** ** [bsearch]
    The search of the C library in an array sorted by a key: [compare x] is the
    comparison of the key with [x].  Where several elements compare equal the
    standard leaves open which is found; [bsearch_spec] is what clients use. *)
Fixpoint bsearch_loop {A} (fuel : nat) (compare : A -> comparison) (l : list A)
    (low high : nat) : option A :=
  match fuel with
  | O => None
  | S fuel =>
      if (low <? high)%nat then
        let middle := Nat.div2 (low + high) in
        match l !! middle with
        | None => None
        | Some x =>
            match compare x with
            | Eq => Some x
            | Lt => bsearch_loop fuel compare l low middle
            | Gt => bsearch_loop fuel compare l (S middle) high
            end
        end
      else None
  end.

Definition bsearch {A} (compare : A -> comparison) (l : list A) : option A :=
  bsearch_loop (S (length l)) compare l 0 (length l).

Lemma bsearch_loop_spec {A} (compare : A -> comparison) l :
  (forall i j x y, (i <= j)%nat -> l !! i = Some x -> l !! j = Some y ->
     (compare y = Gt -> compare x = Gt) /\ (compare x = Lt -> compare y = Lt)) ->
  forall fuel low high, (high - low < fuel)%nat -> (low <= high <= length l)%nat ->
  match bsearch_loop fuel compare l low high with
  | Some x => x ∈ l /\ compare x = Eq
  | None => forall i x, (low <= i < high)%nat -> l !! i = Some x -> compare x <> Eq
  end.
Proof.
  intros Hmono. induction fuel as [|fuel IH]; intros low high Hf Hlh; [lia|].
  cbn [bsearch_loop]. destruct (Nat.ltb_spec low high) as [Hlt|Hge]; [|intros; lia].
  set (middle := Nat.div2 (low + high)).
  assert (Hm : (low <= middle < high)%nat).
  { unfold middle. rewrite Nat.div2_div. pose proof (Nat.div_mod (low + high) 2).
    pose proof (Nat.mod_upper_bound (low + high) 2). lia. }
  destruct (lookup_lt_is_Some_2 l middle) as [x Hx]; [lia|]. rewrite Hx.
  destruct (compare x) eqn:Ec.
  - split; [by apply (list_elem_of_lookup_2 l middle) | done].
  - specialize (IH low middle ltac:(lia) ltac:(lia)).
    destruct (bsearch_loop fuel compare l low middle); [done|].
    intros i y Hi Hy. destruct (decide (i < middle)%nat); [by apply (IH i y); [lia|]|].
    destruct (Hmono middle i x y ltac:(lia) Hx Hy) as [_ H]. by rewrite H.
  - specialize (IH (S middle) high ltac:(lia) ltac:(lia)).
    destruct (bsearch_loop fuel compare l (S middle) high); [done|].
    intros i y Hi Hy. destruct (decide (middle < i)%nat); [by apply (IH i y); [lia|]|].
    destruct (Hmono i middle y x ltac:(lia) Hy Hx) as [H _]. by rewrite H.
Qed.

Lemma StronglySorted_lookup {A} (R : A -> A -> Prop) l i j x y :
  StronglySorted R l -> (i < j)%nat -> l !! i = Some x -> l !! j = Some y -> R x y.
Proof.
  intros Hs. revert i j. induction Hs as [|z l Hs IH Hz]; intros i j Hij Hi Hj; [done|].
  destruct j as [|j]; [lia|]. destruct i as [|i]; simpl in *.
  - injection Hi as ->. rewrite Forall_forall in Hz. by eapply Hz, list_elem_of_lookup_2.
  - apply (IH i j); [lia|done..].
Qed.

(** In an array sorted by [f] the search for a key finds an element that has
    it, if there is one. *)
Lemma bsearch_spec {A} (f : A -> list Z) (key : list Z) l :
  StronglySorted (cmp_le (cmp_on f memcmp)) l ->
  match bsearch (fun x => memcmp key (f x)) l with
  | Some x => x ∈ l /\ f x = key
  | None => forall x, x ∈ l -> f x <> key
  end.
Proof.
  intros Hs. pose proof (bsearch_loop_spec (fun x => memcmp key (f x)) l) as H.
  assert (Hmono : forall i j x y, (i <= j)%nat -> l !! i = Some x -> l !! j = Some y ->
     (memcmp key (f y) = Gt -> memcmp key (f x) = Gt) /\
     (memcmp key (f x) = Lt -> memcmp key (f y) = Lt)).
  { intros i j x y Hij Hi Hj.
    assert (Hle : cmp_le memcmp (f x) (f y)).
    { destruct (decide (i = j)) as [->|]; [|apply (StronglySorted_lookup _ l i j x y Hs); [lia|done..]].
      rewrite Hi in Hj. injection Hj as ->. apply (cmp_le_refl memcmp). }
    split.
    - intros Hg. apply (f_equal CompOpp) in Hg. rewrite <- memcmp_antisym in Hg. simpl in Hg.
      destruct (memcmp (f x) (f y)) eqn:E; [|clear Hle|done].
      + apply memcmp_eq in E. rewrite E, (memcmp_antisym (f y) key), Hg. done.
      + pose proof (memcmp_lt_trans _ _ _ E Hg) as Hlt.
        by rewrite (memcmp_antisym (f x) key), Hlt.
    - intros Hl. destruct (memcmp (f x) (f y)) eqn:E; [|clear Hle|done].
      + apply memcmp_eq in E. by rewrite <- E.
      + by apply (memcmp_lt_trans _ _ _ Hl E). }
  specialize (H Hmono (S (length l)) 0%nat (length l) ltac:(lia) ltac:(lia)).
  unfold bsearch. destruct (bsearch_loop _ _ l 0 (length l)) as [x|].
  - destruct H as [Hx Hc]. split; [done|]. symmetry. by apply memcmp_eq.
  - intros x [i Hi]%list_elem_of_lookup_1 Hc. apply (H i x); [|done|].
    + apply lookup_lt_Some in Hi. lia.
    + by apply memcmp_eq.
Qed.

(** An element at least as large as its strictly ordered predecessors either
    repeats the identity before it or extends the order. *)
Lemma sorted_extend {A} (f : A -> list Z) all ps r rest :
  all = ps ++ r :: rest -> StronglySorted (cmp_le (cmp_on f memcmp)) all ->
  StronglySorted (fun a b => memcmp (f a) (f b) = Lt) ps ->
  if match last ps with None => false | Some q => bytes_equal (f r) (f q) end
  then ~ NoDup (map f all)
  else StronglySorted (fun a b => memcmp (f a) (f b) = Lt) (ps ++ [r]).
Proof.
  intros Hall Hs Hlt. destruct ps as [|q ps _] using rev_ind; [by repeat constructor|].
  rewrite last_snoc. destruct (bytes_equal (f r) (f q)) eqn:E.
  - apply bytes_equal_spec in E. rewrite Hall, <- app_assoc, map_app. simpl. intros Hnd.
    apply NoDup_app in Hnd as (_ & _ & Hnd). apply NoDup_cons in Hnd as [Hnd _].
    apply Hnd. rewrite E. left.
  - apply StronglySorted_extend; [apply (memcmp_lt_transitive f)|done|]. rewrite last_snoc.
    apply bytes_equal_false in E.
    assert (Hle : cmp_le (cmp_on f memcmp) q r).
    { apply (StronglySorted_lookup _ all (length ps) (S (length ps)) q r Hs); [lia|..];
        rewrite Hall, <- app_assoc; simpl; [by apply list_lookup_middle|].
      rewrite (cons_middle q), app_assoc. apply list_lookup_middle.
      rewrite length_app. simpl. lia. }
    unfold cmp_le, cmp_on in Hle. destruct (memcmp _ _) eqn:Ec; [|done|by destruct Hle].
    apply memcmp_eq in Ec. congruence.
Qed.

Lemma strictly_sorted_distinct {A} (f : A -> list Z) l :
  StronglySorted (fun a b => memcmp (f a) (f b) = Lt) l -> NoDup (map f l).
Proof.
  induction 1 as [|x l _ IH Hx]; simpl; constructor; [|done].
  intros (y & E & Hy)%list_elem_of_fmap. rewrite Forall_forall in Hx. specialize (Hx y Hy).
  by rewrite E, memcmp_refl in Hx.
Qed.
