(* ===== verification/Hash.v ===== *)
(** * The BLAKE3 hasher interface and canonical transcripts

    The engine links the upstream [blake3.h]; its code is not part of the
    repository, so the hasher is a parameter.  [Blake3] holds the operations
    the engine calls, [Blake3Laws] the documented behaviour it relies on: the
    digest of a hasher depends only on the concatenation of what was absorbed,
    and is a string of 32 bytes.

    [absorbs h m] says that hasher [h] has absorbed the byte string [m]; the
    hint database [laplace] computes the transcript of every routine that
    updates a hasher.  A transcript function is a [prefix_code] when equal
    transcripts, whatever follows them, come from equal data; [counted] lists
    them behind their length, and the tactic [peel] splits an equation between
    two transcripts into the equations of their fields.  This is how the
    theorems state what a digest binds without assuming anything about
    collisions. *)
From stdpp Require Import prelude strings.
From Stdlib Require Import ZArith Lia Ascii.
From S2P Require Import Prelude Bytes.

Class Blake3 := {
  blake3_hasher : Type;
  blake3_hasher_init : blake3_hasher;
  blake3_hasher_update : blake3_hasher -> list Z -> blake3_hasher;
  blake3_hasher_finalize : blake3_hasher -> list Z }.

(** ** Definitions *)
Section Hashing.
Context {B : Blake3}.

(** The digest of one byte string. *)
Definition blake3 (m : list Z) : list Z :=
  blake3_hasher_finalize (blake3_hasher_update blake3_hasher_init m).

(** [h] is a hasher that has absorbed [m], in any number of updates. *)
Definition absorbs (h : blake3_hasher) (m : list Z) : Prop :=
  exists chunks, h = foldl blake3_hasher_update blake3_hasher_init chunks /\
    m = concat chunks.

Definition hash_u32 (hasher : blake3_hasher) (value : Z) : blake3_hasher :=
  blake3_hasher_update hasher
    [u8 value; u8 (Z.shiftr value 8); u8 (Z.shiftr value 16); u8 (Z.shiftr value 24)].

Definition hash_u16 (hasher : blake3_hasher) (value : Z) : blake3_hasher :=
  blake3_hasher_update hasher [u8 (Z.land value 0xff); u8 (Z.shiftr value 8)].

Definition hash_u64 (hasher : blake3_hasher) (value : Z) : blake3_hasher :=
  blake3_hasher_update hasher (store_le 8 value).
End Hashing.

(** The bytes of a C string literal, without its terminating NUL. *)
Definition domain_bytes (s : string) : list Z :=
  map (fun c => Z.of_nat (nat_of_ascii c)) (String.list_ascii_of_string s).

Class Blake3Laws (B : Blake3) : Prop := {
  blake3_incremental chunks :
    blake3_hasher_finalize (foldl blake3_hasher_update blake3_hasher_init chunks) =
    blake3 (concat chunks);
  blake3_bytes m : bytes 32 (blake3 m) }.

(** A concrete hasher, used to evaluate the model: it keeps what it absorbed
    and digests it with a rolling checksum.  It satisfies the laws. *)
Definition checksum (m : list Z) : list Z :=
  let acc := foldl (fun acc b => (acc * 131 + b + 7) mod 2 ^ 127) 1 m in
  store_le 16 acc ++ store_le 16 (acc + 1).
Definition checksum_blake3 : Blake3 := {|
  blake3_hasher := list Z;
  blake3_hasher_init := [];
  blake3_hasher_update h m := h ++ m;
  blake3_hasher_finalize h := checksum h |}.

Lemma checksum_blake3_laws : Blake3Laws checksum_blake3.
Proof.
  assert (Hf : forall chunks (h : list Z),
    foldl (@blake3_hasher_update checksum_blake3) h chunks = h ++ concat chunks).
  { induction chunks as [|c chunks IH]; intros h; simpl; [by rewrite app_nil_r|].
    rewrite IH. simpl. by rewrite <- app_assoc. }
  split.
  - intros chunks. by rewrite Hf.
  - intros m. apply (bytes_app 16 16); apply store_le_bytes.
Qed.

(** ** Transcripts of the hashing helpers *)
Section Absorbs.
Context {B : Blake3} {L : Blake3Laws B}.

Lemma absorbs_init : absorbs blake3_hasher_init [].
Proof. by exists []. Qed.

Lemma absorbs_update h m c : absorbs h m -> absorbs (blake3_hasher_update h c) (m ++ c).
Proof.
  intros (chunks & -> & ->). exists (chunks ++ [c]).
  rewrite foldl_app, concat_app. simpl. by rewrite app_nil_r.
Qed.

Lemma absorbs_first c : absorbs (blake3_hasher_update blake3_hasher_init c) c.
Proof. exists [c]. simpl. by rewrite app_nil_r. Qed.

Lemma absorbs_finalize h m : absorbs h m -> blake3_hasher_finalize h = blake3 m.
Proof. intros (chunks & -> & ->). apply blake3_incremental. Qed.

Lemma absorbs_u32 h m v : absorbs h m -> absorbs (hash_u32 h v) (m ++ store_le 4 v).
Proof. unfold hash_u32. rewrite store_le_4. apply absorbs_update. Qed.

Lemma absorbs_u16 h m v : absorbs h m -> absorbs (hash_u16 h v) (m ++ store_le 2 v).
Proof. unfold hash_u16. rewrite store_le_2. apply absorbs_update. Qed.

Lemma absorbs_u64 h m v : absorbs h m -> absorbs (hash_u64 h v) (m ++ store_le 8 v).
Proof. apply absorbs_update. Qed.

Lemma blake3_length m : length (blake3 m) = 32%nat.
Proof. apply blake3_bytes. Qed.
End Absorbs.

#[export] Hint Resolve absorbs_init absorbs_first absorbs_update absorbs_u16 absorbs_u32 absorbs_u64 : laplace.
#[export] Hint Resolve blake3_bytes : laplace.

(** Compute the transcript of the hasher in the goal. *)
Ltac absorb := rewrite ?app_assoc; eauto 100 with laplace.

(** ** Injective encodings: peel fields of fixed width off a transcript *)
Lemma app_bytes_inj n (a b c d : list Z) :
  bytes n a -> bytes n c -> a ++ b = c ++ d -> a = c /\ b = d.
Proof. intros [? _] [? _] ?. apply app_inj_len; [lia|done]. Qed.

Lemma app_u16_inj v w b d :
  is_u16 v -> is_u16 w -> store_le 2 v ++ b = store_le 2 w ++ d -> v = w /\ b = d.
Proof.
  intros Hv Hw [H ?]%(app_bytes_inj 2); [|apply store_le_bytes..].
  apply store_le_inj in H; [done | change (256 ^ Z.of_nat 2) with 65536; lia..].
Qed.

Lemma app_u32_inj v w b d :
  is_u32 v -> is_u32 w -> store_le 4 v ++ b = store_le 4 w ++ d -> v = w /\ b = d.
Proof.
  intros Hv Hw [H ?]%(app_bytes_inj 4); [|apply store_le_bytes..].
  apply store_le_inj in H; [done | change (256 ^ Z.of_nat 4) with 4294967296; lia..].
Qed.

Lemma app_u64_inj v w b d :
  is_u64 v -> is_u64 w -> store_le 8 v ++ b = store_le 8 w ++ d -> v = w /\ b = d.
Proof.
  intros Hv Hw [H ?]%(app_bytes_inj 8); [|apply store_le_bytes..].
  apply store_le_inj in H;
    [done | change (256 ^ Z.of_nat 8) with 18446744073709551616; lia..].
Qed.

(** Peel all fields of an equation between two transcripts (written as
    right-nested appends ending in [[]]). *)
Ltac peel_field H :=
  first
  [ apply app_u64_inj in H as [? H]; [|assumption..]
  | apply app_u32_inj in H as [? H]; [|assumption..]
  | apply app_u16_inj in H as [? H]; [|assumption..]
  | apply (app_bytes_inj 16) in H as [? H]; [|assumption..]
  | apply (app_bytes_inj 32) in H as [? H]; [|assumption..] ].
Ltac peel H := repeat rewrite <- app_assoc in H; repeat peel_field H.

(** ** Prefix codes
    An encoding that can be peeled off the front of a transcript; lists of
    code words preceded by their count are again a prefix code. *)
Definition prefix_code {A} (P : A -> Prop) (enc : A -> list Z) : Prop :=
  forall a b x y, P a -> P b -> enc a ++ x = enc b ++ y -> a = b /\ x = y.

Lemma prefix_code_list {A} (P : A -> Prop) enc : prefix_code P enc ->
  forall l1 l2 x y, Forall P l1 -> Forall P l2 -> length l1 = length l2 ->
  concat (map enc l1) ++ x = concat (map enc l2) ++ y -> l1 = l2 /\ x = y.
Proof.
  intros Hp. induction l1 as [|a l1 IH]; intros [|b l2] x y H1 H2 Hl; simpl in *; try done.
  apply Forall_cons in H1 as [Ha H1]. apply Forall_cons in H2 as [Hb H2].
  rewrite <- !app_assoc. intros [-> H]%Hp; [|done..].
  apply IH in H as [-> ->]; [done..|lia].
Qed.

Definition counted {A} (enc : A -> list Z) (l : list A) : list Z :=
  store_le 8 (Z.of_nat (length l)) ++ concat (map enc l).

Lemma prefix_code_counted {A} (P : A -> Prop) enc : prefix_code P enc ->
  prefix_code (fun l => Forall P l /\ Z.of_nat (length l) <= UINT64_MAX) (counted enc).
Proof.
  intros Hp l1 l2 x y [H1 Hl1] [H2 Hl2] H. unfold counted in H. rewrite <- !app_assoc in H.
  apply app_u64_inj in H as [Hl H]; [|lia..].
  apply (prefix_code_list P enc Hp) in H; [done..|lia].
Qed.

(** A length-prefixed string. *)
Definition sized (s : list Z) : list Z := store_le 8 (Z.of_nat (length s)) ++ s.

Lemma prefix_code_sized : prefix_code (fun s => Z.of_nat (length s) <= UINT64_MAX) sized.
Proof.
  intros s1 s2 x y H1 H2 H. unfold sized in H. rewrite <- !app_assoc in H.
  apply app_u64_inj in H as [Hl H]; [|lia..]. apply app_inj_len in H; [done|lia].
Qed.

Lemma absorbs_fold {B : Blake3} {A} (f : blake3_hasher -> A -> blake3_hasher) enc :
  (forall h m a, absorbs h m -> absorbs (f h a) (m ++ enc a)) ->
  forall l h m, absorbs h m -> absorbs (foldl f h l) (m ++ concat (map enc l)).
Proof.
  intros Hf. induction l as [|a l IH]; intros h m Hm; simpl; [by rewrite app_nil_r|].
  rewrite app_assoc. by apply IH, Hf.
Qed.
