(* ===== verification/Identity.v ===== *)
(** * Identity: codepoint encoding and content identities

    Models [engine/src/identity.c] and [engine/include/laplace/identity.h]:
    the variable-width encoding of Unicode positions, the identity of a
    codepoint, and the identity of an ordered composition given either as a
    list of children or as runs of equal children. *)
From stdpp Require Import prelude.
From Stdlib Require Import ZArith Lia.
From S2P Require Import Prelude Bytes Hash.

(** ** Data *)
Abbreviation LAPLACE_IDENTITY_BYTES := 16 (only parsing).
Abbreviation LAPLACE_COMPOSITE_DOMAIN_BYTE := 1 (only parsing).
Abbreviation LAPLACE_UNICODE_POSITION_MAXIMUM := 1114111 (only parsing).
Abbreviation LAPLACE_RUN_BLOCK_IDENTITIES := 4096 (only parsing).

(** A 16-byte identity and a 32-byte digest are byte strings; [bytes 16] and
    [bytes 32] are their well-formedness. *)
Abbreviation laplace_id128 := (list Z).
Abbreviation laplace_digest256 := (list Z).

Record laplace_id_run := mk_run { run_id : laplace_id128; run_count : Z }.

Inductive laplace_identity_status :=
  | LAPLACE_IDENTITY_OK
  | LAPLACE_IDENTITY_INVALID_ARGUMENT
  | LAPLACE_IDENTITY_POSITION_OUT_OF_RANGE
  | LAPLACE_IDENTITY_EMPTY_COMPOSITION
  | LAPLACE_IDENTITY_ZERO_RUN
  | LAPLACE_IDENTITY_COUNT_OVERFLOW
  | LAPLACE_IDENTITY_WITNESS_MISMATCH.

#[export] Instance laplace_identity_status_eq_dec : EqDecision laplace_identity_status.
Proof. solve_decision. Defined.

(** Writing the first bytes of a longer buffer. *)
Definition overwrite (old new : list Z) : list Z := new ++ drop (length new) old.

(** ** Codepoints *)
Definition position_bytes (position : Z) : list Z :=
  if position <=? 0x7f then
    [u8 position]
  else if position <=? 0x7ff then
    [u8 (Z.lor 0xc0 (Z.shiftr position 6));
     u8 (Z.lor 0x80 (Z.land position 0x3f))]
  else if position <=? 0xffff then
    [u8 (Z.lor 0xe0 (Z.shiftr position 12));
     u8 (Z.lor 0x80 (Z.land (Z.shiftr position 6) 0x3f));
     u8 (Z.lor 0x80 (Z.land position 0x3f))]
  else
    [u8 (Z.lor 0xf0 (Z.shiftr position 18));
     u8 (Z.lor 0x80 (Z.land (Z.shiftr position 12) 0x3f));
     u8 (Z.lor 0x80 (Z.land (Z.shiftr position 6) 0x3f));
     u8 (Z.lor 0x80 (Z.land position 0x3f))].

Definition laplace_unicode_position_encode (position : Z)
    (out_bytes : ptr (list Z)) (out_length : ptr Z)
    : laplace_identity_status * ptr (list Z) * ptr Z :=
  match out_bytes, out_length with
  | Some buffer, Some _ =>
      return_when (LAPLACE_UNICODE_POSITION_MAXIMUM <? position)
        with (LAPLACE_IDENTITY_POSITION_OUT_OF_RANGE, out_bytes, out_length);;
      let encoded := position_bytes position in
      (LAPLACE_IDENTITY_OK, Some (overwrite buffer encoded),
       Some (Z.of_nat (length encoded)))
  | _, _ => (LAPLACE_IDENTITY_INVALID_ARGUMENT, out_bytes, out_length)
  end.

Section Operations.
Context {B : Blake3}.

Definition laplace_identity_codepoint_witness (position : Z)
    (out_id : ptr laplace_id128) (out_witness : ptr laplace_digest256)
    : laplace_identity_status * ptr laplace_id128 * ptr laplace_digest256 :=
  return_when (is_null out_id || is_null out_witness)
    with (LAPLACE_IDENTITY_INVALID_ARGUMENT, out_id, out_witness);;
  match laplace_unicode_position_encode position (Some (zeros 4)) (Some 0) with
  | (LAPLACE_IDENTITY_OK, Some encoded, Some encoded_length) =>
      let hasher := blake3_hasher_update blake3_hasher_init
                      (take (Z.to_nat encoded_length) encoded) in
      let witness := blake3_hasher_finalize hasher in
      (LAPLACE_IDENTITY_OK, store out_id (take 16 witness), store out_witness witness)
  | (status, _, _) => (status, out_id, out_witness)
  end.

Definition laplace_identity_codepoint (position : Z) (out_id : ptr laplace_id128)
    : laplace_identity_status * ptr laplace_id128 :=
  let '(status, out_id, _) :=
    laplace_identity_codepoint_witness position out_id (Some (zeros 32)) in
  (status, out_id).

(** The second loop of the batch: [&out_ids[index]] is the cell [index]. *)
Fixpoint codepoint_batch_loop (positions : list Z) (index : nat)
    (out_ids : list laplace_id128) : laplace_identity_status * list laplace_id128 :=
  match positions with
  | [] => (LAPLACE_IDENTITY_OK, out_ids)
  | position :: rest =>
      match laplace_identity_codepoint position (out_ids !! index) with
      | (LAPLACE_IDENTITY_OK, Some id) =>
          codepoint_batch_loop rest (S index) (<[index := id]> out_ids)
      | (status, _) => (status, out_ids)
      end
  end.

Definition laplace_identity_codepoint_batch (positions : ptr (list Z))
    (position_count : Z) (out_ids : ptr (list laplace_id128))
    : laplace_identity_status * ptr (list laplace_id128) :=
  return_when ((is_null positions && negb (position_count =? 0)) ||
               (is_null out_ids && negb (position_count =? 0)))
    with (LAPLACE_IDENTITY_INVALID_ARGUMENT, out_ids);;
  return_when ((SIZE_MAX / 4 <? position_count) || (SIZE_MAX / 16 <? position_count))
    with (LAPLACE_IDENTITY_COUNT_OVERFLOW, out_ids);;
  return_when (existsb (fun p => LAPLACE_UNICODE_POSITION_MAXIMUM <? p)
                 (cells positions position_count))
    with (LAPLACE_IDENTITY_POSITION_OUT_OF_RANGE, out_ids);;
  match out_ids with
  | Some cells_out =>
      let '(status, written) :=
        codepoint_batch_loop (cells positions position_count) 0 cells_out in
      (status, Some written)
  | None => (LAPLACE_IDENTITY_OK, None)
  end.

(** ** Compositions *)
Definition finalize_identity (hasher : blake3_hasher)
    (out_id : ptr laplace_id128) (out_witness : ptr laplace_digest256)
    : ptr laplace_id128 * ptr laplace_digest256 :=
  let witness := blake3_hasher_finalize hasher in
  (store out_id (take 16 witness), store out_witness witness).

Definition witness_matches_identity (id : ptr laplace_id128)
    (witness : ptr laplace_digest256) : bool :=
  match id, witness with
  | Some id, Some witness => bytes_equal id (take 16 witness)
  | _, _ => false
  end.

Definition composite_domain : Z := u8 LAPLACE_COMPOSITE_DOMAIN_BYTE.

Definition laplace_identity_composite_witness (child_ids : ptr (list laplace_id128))
    (child_count : Z) (collapsed_child_witness : ptr laplace_digest256)
    (out_id : ptr laplace_id128) (out_witness : ptr laplace_digest256)
    : laplace_identity_status * ptr laplace_id128 * ptr laplace_digest256 :=
  return_when (is_null out_id || (is_null child_ids && negb (child_count =? 0)))
    with (LAPLACE_IDENTITY_INVALID_ARGUMENT, out_id, out_witness);;
  return_when (child_count =? 0)
    with (LAPLACE_IDENTITY_EMPTY_COMPOSITION, out_id, out_witness);;
  let children := cells child_ids child_count in
  return_when (child_count =? 1) with
    (return_when (is_null out_witness)
       with (LAPLACE_IDENTITY_INVALID_ARGUMENT, out_id, out_witness);;
     return_when (negb (witness_matches_identity (children !! 0%nat)
                          collapsed_child_witness))
       with (LAPLACE_IDENTITY_WITNESS_MISMATCH, out_id, out_witness);;
     (LAPLACE_IDENTITY_OK, store out_id (default [] (children !! 0%nat)),
      store out_witness (default [] collapsed_child_witness)));;
  return_when (SIZE_MAX / 16 <? child_count)
    with (LAPLACE_IDENTITY_COUNT_OVERFLOW, out_id, out_witness);;
  let hasher := blake3_hasher_update blake3_hasher_init [composite_domain] in
  let hasher := blake3_hasher_update hasher (concat children) in
  let '(out_id, out_witness) := finalize_identity hasher out_id out_witness in
  (LAPLACE_IDENTITY_OK, out_id, out_witness).

Definition laplace_identity_composite (child_ids : ptr (list laplace_id128))
    (child_count : Z) (out_id : ptr laplace_id128)
    : laplace_identity_status * ptr laplace_id128 :=
  return_when (is_null out_id || (is_null child_ids && negb (child_count =? 0)))
    with (LAPLACE_IDENTITY_INVALID_ARGUMENT, out_id);;
  return_when (child_count =? 0)
    with (LAPLACE_IDENTITY_EMPTY_COMPOSITION, out_id);;
  return_when (child_count =? 1) with
    (LAPLACE_IDENTITY_OK,
     store out_id (default [] (cells child_ids child_count !! 0%nat)));;
  return_when (SIZE_MAX / 16 <? child_count)
    with (LAPLACE_IDENTITY_COUNT_OVERFLOW, out_id);;
  let '(status, out_id, _) :=
    laplace_identity_composite_witness child_ids child_count None out_id None in
  (status, out_id).

(** ** Runs *)
(** The counting loop of both run routines. *)
Fixpoint count_runs (runs : list laplace_id_run) (logical_count : Z)
    : laplace_identity_status * Z :=
  match runs with
  | [] => (LAPLACE_IDENTITY_OK, logical_count)
  | run :: rest =>
      return_when (run_count run =? 0) with (LAPLACE_IDENTITY_ZERO_RUN, logical_count);;
      return_when (UINT64_MAX - logical_count <? run_count run)
        with (LAPLACE_IDENTITY_COUNT_OVERFLOW, logical_count);;
      count_runs rest (logical_count + run_count run)
  end.

(** [while (remaining != 0)]: a block of at most 4096 copies per update.
    [remaining] iterations are enough fuel, since each emits at least one. *)
Fixpoint emit_run (fuel : nat) (hasher : blake3_hasher) (id : laplace_id128)
    (remaining : Z) : blake3_hasher :=
  match fuel with
  | O => hasher
  | S fuel =>
      return_when (remaining =? 0) with hasher;;
      let emitted := if LAPLACE_RUN_BLOCK_IDENTITIES <? remaining
                     then LAPLACE_RUN_BLOCK_IDENTITIES else remaining in
      let block := replicate (Z.to_nat LAPLACE_RUN_BLOCK_IDENTITIES) id in
      emit_run fuel
        (blake3_hasher_update hasher (concat (take (Z.to_nat emitted) block)))
        id (u64 (remaining - emitted))
  end.

Definition run_blocks (count : Z) : nat :=
  Z.to_nat (count / LAPLACE_RUN_BLOCK_IDENTITIES + 1).

Definition hash_runs (hasher : blake3_hasher) (runs : list laplace_id_run)
    : blake3_hasher :=
  foldl (fun h run => emit_run (run_blocks (run_count run)) h (run_id run) (run_count run))
    hasher runs.

Definition laplace_identity_composite_runs_witness (runs : ptr (list laplace_id_run))
    (run_count : Z) (collapsed_child_witness : ptr laplace_digest256)
    (out_logical_count : ptr Z) (out_id : ptr laplace_id128)
    (out_witness : ptr laplace_digest256)
    : laplace_identity_status * ptr Z * ptr laplace_id128 * ptr laplace_digest256 :=
  return_when (is_null out_id || is_null out_logical_count ||
               (is_null runs && negb (run_count =? 0)))
    with (LAPLACE_IDENTITY_INVALID_ARGUMENT, out_logical_count, out_id, out_witness);;
  return_when (run_count =? 0)
    with (LAPLACE_IDENTITY_EMPTY_COMPOSITION, out_logical_count, out_id, out_witness);;
  let run_cells := cells runs run_count in
  match count_runs run_cells 0 with
  | (LAPLACE_IDENTITY_OK, logical_count) =>
      let first_id : option laplace_id128 := run_id <$> run_cells !! 0%nat in
      return_when (logical_count =? 1) with
        (return_when (is_null out_witness)
           with (LAPLACE_IDENTITY_INVALID_ARGUMENT, out_logical_count, out_id, out_witness);;
         return_when (negb (witness_matches_identity first_id collapsed_child_witness))
           with (LAPLACE_IDENTITY_WITNESS_MISMATCH, out_logical_count, out_id, out_witness);;
         (LAPLACE_IDENTITY_OK, store out_logical_count logical_count,
          store out_id (default [] first_id),
          store out_witness (default [] collapsed_child_witness)));;
      let hasher := blake3_hasher_update blake3_hasher_init [composite_domain] in
      let hasher := hash_runs hasher run_cells in
      let '(out_id, out_witness) := finalize_identity hasher out_id out_witness in
      (LAPLACE_IDENTITY_OK, store out_logical_count logical_count, out_id, out_witness)
  | (status, _) => (status, out_logical_count, out_id, out_witness)
  end.

Definition laplace_identity_composite_runs (runs : ptr (list laplace_id_run))
    (run_count : Z) (out_logical_count : ptr Z) (out_id : ptr laplace_id128)
    : laplace_identity_status * ptr Z * ptr laplace_id128 :=
  return_when (is_null out_id || is_null out_logical_count ||
               (is_null runs && negb (run_count =? 0)))
    with (LAPLACE_IDENTITY_INVALID_ARGUMENT, out_logical_count, out_id);;
  return_when (run_count =? 0)
    with (LAPLACE_IDENTITY_EMPTY_COMPOSITION, out_logical_count, out_id);;
  match count_runs (cells runs run_count) 0 with
  | (LAPLACE_IDENTITY_OK, logical_count) =>
      return_when (logical_count =? 1) with
        (LAPLACE_IDENTITY_OK, store out_logical_count logical_count,
         store out_id (default [] (run_id <$> cells runs run_count !! 0%nat)));;
      let '(status, out_logical_count, out_id, _) :=
        laplace_identity_composite_runs_witness runs run_count None
          out_logical_count out_id None in
      (status, out_logical_count, out_id)
  | (status, _) => (status, out_logical_count, out_id)
  end.
End Operations.

(** ** Comparison *)
Definition laplace_identity_equal (left_id right_id : ptr laplace_id128) : bool :=
  match left_id, right_id with
  | Some a, Some b => bytes_equal a b
  | _, _ => false
  end.

Definition laplace_identity_compare (left_id right_id : ptr laplace_id128) : comparison :=
  match left_id, right_id with
  | None, None => Eq
  | None, Some _ => Lt
  | Some _, None => Gt
  | Some a, Some b => memcmp a b
  end.

(** ** Specifications *)

(** Reference decoder of the position encoding: the position of the first
    encoded unit and the bytes after it. *)
Definition decode_position (l : list Z) : option (Z * list Z) :=
  match l with
  | a :: t =>
      if a <? 0x80 then Some (a, t) else
      match t with
      | b :: t =>
          if a <? 0xe0 then Some ((a - 0xc0) * 64 + (b - 0x80), t) else
          match t with
          | c :: t =>
              if a <? 0xf0
              then Some ((a - 0xe0) * 4096 + (b - 0x80) * 64 + (c - 0x80), t) else
              match t with
              | d :: t =>
                  Some ((a - 0xf0) * 262144 + (b - 0x80) * 4096
                        + (c - 0x80) * 64 + (d - 0x80), t)
              | [] => None
              end
          | [] => None
          end
      | [] => None
      end
  | [] => None
  end.

(** The children a list of runs stands for. *)
Definition expand_runs (runs : list laplace_id_run) : list laplace_id128 :=
  concat (map (fun run => replicate (Z.to_nat (run_count run)) (run_id run)) runs).

Definition runs_total (runs : list laplace_id_run) : Z :=
  foldr (fun run total => run_count run + total) 0 runs.

(** The byte string a composition of two or more children is digested from. *)
Definition composite_transcript (children : list laplace_id128) : list Z :=
  [1] ++ concat children.

(** ** Codepoint lemmas *)
Lemma lor_tag k n v : 0 <= n -> 0 <= k -> 0 <= v < 2 ^ n -> Z.lor (k * 2 ^ n) v = k * 2 ^ n + v.
Proof.
  intros Hn Hk Hv. rewrite Z.lor_comm, <- Z.shiftl_mul_pow2 by lia.
  rewrite lor_shiftl_add by lia. rewrite Z.shiftl_mul_pow2; lia.
Qed.

Lemma land_3f v : Z.land v 0x3f = v mod 64.
Proof. change 0x3f with (Z.ones 6). by rewrite Z.land_ones. Qed.

Lemma continuation_byte v : u8 (Z.lor 0x80 (Z.land v 0x3f)) = 0x80 + v mod 64.
Proof.
  rewrite land_3f. pose proof (Z.mod_pos_bound v 64 eq_refl).
  rewrite (lor_tag 2 6) by (simpl; lia). apply u8_small. simpl. lia.
Qed.

Lemma position_bytes_spec p :
  0 <= p <= LAPLACE_UNICODE_POSITION_MAXIMUM ->
  position_bytes p =
    if p <=? 0x7f then [p]
    else if p <=? 0x7ff then [0xc0 + p / 64; 0x80 + p mod 64]
    else if p <=? 0xffff then [0xe0 + p / 4096; 0x80 + p / 64 mod 64; 0x80 + p mod 64]
    else [0xf0 + p / 262144; 0x80 + p / 4096 mod 64; 0x80 + p / 64 mod 64;
          0x80 + p mod 64].
Proof.
  intros Hp. unfold position_bytes. rewrite !continuation_byte, !Z.shiftr_div_pow2 by lia.
  change (2 ^ 6) with 64. change (2 ^ 12) with 4096. change (2 ^ 18) with 262144.
  repeat casec; f_equal.
  - apply u8_small. lia.
  - assert (p / 64 < 32) by (apply Z.div_lt_upper_bound; lia).
    assert (0 <= p / 64) by (apply Z.div_pos; lia).
    rewrite (lor_tag 6 5) by (simpl; lia). apply u8_small. simpl. lia.
  - assert (p / 4096 < 16) by (apply Z.div_lt_upper_bound; lia).
    assert (0 <= p / 4096) by (apply Z.div_pos; lia).
    rewrite (lor_tag 14 4) by (simpl; lia). apply u8_small. simpl. lia.
  - assert (p / 262144 < 8) by (apply Z.div_lt_upper_bound; lia).
    assert (0 <= p / 262144) by (apply Z.div_pos; lia).
    rewrite (lor_tag 30 3) by (simpl; lia). apply u8_small. simpl. lia.
Qed.

Lemma position_bytes_decode p r :
  0 <= p <= LAPLACE_UNICODE_POSITION_MAXIMUM ->
  decode_position (position_bytes p ++ r) = Some (p, r).
Proof.
  intros Hp. rewrite position_bytes_spec by done.
  Z.div_mod_to_equations.
  repeat casec; simpl;
    repeat match goal with |- context [?a <? ?b] =>
      first [ replace (a <? b) with true by (symmetry; apply Z.ltb_lt; lia)
            | replace (a <? b) with false by (symmetry; apply Z.ltb_ge; lia) ] end;
    repeat f_equal; lia.
Qed.

Lemma length_position_bytes p : (1 <= length (position_bytes p) <= 4)%nat.
Proof. unfold position_bytes. repeat casec; simpl; lia. Qed.

Lemma position_encode_ok p buffer len :
  0 <= p <= LAPLACE_UNICODE_POSITION_MAXIMUM ->
  laplace_unicode_position_encode p (Some buffer) (Some len) =
    (LAPLACE_IDENTITY_OK, Some (overwrite buffer (position_bytes p)),
     Some (Z.of_nat (length (position_bytes p)))).
Proof. intros Hp. unfold laplace_unicode_position_encode. casec; [lia|done]. Qed.

(** ** Operation lemmas *)
Section Lemmas.
Context {B : Blake3} {L : Blake3Laws B}.

Lemma codepoint_witness_ok p id w :
  0 <= p <= LAPLACE_UNICODE_POSITION_MAXIMUM ->
  laplace_identity_codepoint_witness p (Some id) (Some w) =
    (LAPLACE_IDENTITY_OK, Some (take 16 (blake3 (position_bytes p))),
     Some (blake3 (position_bytes p))).
Proof.
  intros Hp. unfold laplace_identity_codepoint_witness. ptrs.
  rewrite position_encode_ok by done. unfold overwrite.
  by rewrite Nat2Z.id, take_app_length.
Qed.

Lemma codepoint_ok p id :
  0 <= p <= LAPLACE_UNICODE_POSITION_MAXIMUM ->
  laplace_identity_codepoint p (Some id) =
    (LAPLACE_IDENTITY_OK, Some (take 16 (blake3 (position_bytes p)))).
Proof. intros Hp. unfold laplace_identity_codepoint. by rewrite codepoint_witness_ok. Qed.

Lemma codepoint_batch_loop_ok positions : forall index out,
  Forall (fun p => 0 <= p <= LAPLACE_UNICODE_POSITION_MAXIMUM) positions ->
  (index + length positions <= length out)%nat ->
  codepoint_batch_loop positions index out =
    (LAPLACE_IDENTITY_OK,
     take index out ++ map (fun p => take 16 (blake3 (position_bytes p))) positions
     ++ drop (index + length positions) out).
Proof.
  induction positions as [|p positions IH]; intros index out Hp Hlen; simpl.
  { by rewrite Nat.add_0_r, take_drop. }
  apply Forall_cons in Hp as [Hp1 Hp2].
  destruct (lookup_lt_is_Some_2 out index) as [old Hold]; [simpl in *; lia|].
  rewrite Hold, codepoint_ok by done.
  rewrite IH; [|done | rewrite length_insert; simpl in *; lia].
  rewrite (take_S_r _ _ (take 16 (blake3 (position_bytes p))))
    by (apply list_lookup_insert_eq; simpl in *; lia).
  rewrite take_insert_ge, drop_insert_lt by lia.
  rewrite <- app_assoc. simpl. do 4 f_equal. f_equal. lia.
Qed.

Lemma emit_run_absorbs fuel : forall h m id remaining,
  absorbs h m -> is_u64 remaining -> (Z.to_nat (remaining / 4096) < fuel)%nat ->
  absorbs (emit_run fuel h id remaining)
    (m ++ concat (replicate (Z.to_nat remaining) id)).
Proof.
  induction fuel as [|fuel IH]; intros h m id remaining Hh Hr Hfuel; [lia|].
  cbn [emit_run]. casec; [subst; simpl; by rewrite app_nil_r|].
  set (emitted := if 4096 <? remaining then 4096 else remaining).
  assert (He : 0 < emitted <= remaining /\ emitted <= 4096 /\
               (remaining - emitted) / 4096 <= remaining / 4096 - 1 \/
               emitted = remaining /\ emitted <= 4096).
  { subst emitted. casec; [|lia]. left.
    replace (remaining - 4096) with (remaining + (-1) * 4096) by lia.
    rewrite Z_div_plus_full by lia. lia. }
  rewrite u64_small by lia.
  replace (replicate (Z.to_nat remaining) id)
    with (replicate (Z.to_nat emitted) id ++ replicate (Z.to_nat (remaining - emitted)) id)
    by (rewrite <- replicate_add; f_equal; lia).
  rewrite concat_app, app_assoc. rewrite take_replicate, Nat.min_l by lia.
  destruct (Z.eq_dec remaining emitted) as [Heq|Hne].
  - rewrite <- Heq, Z.sub_diag. simpl. rewrite app_nil_r.
    destruct fuel; simpl; auto using absorbs_update.
  - apply IH; [auto using absorbs_update | lia |].
    assert (0 <= (remaining - emitted) / 4096) by (apply Z.div_pos; lia). lia.
Qed.

Lemma hash_runs_absorbs runs : forall h m,
  Forall (fun run => is_u64 (run_count run)) runs -> absorbs h m ->
  absorbs (hash_runs h runs) (m ++ concat (expand_runs runs)).
Proof.
  unfold hash_runs, expand_runs. induction runs as [|run runs IH]; intros h m Hr Hh; simpl.
  { by rewrite app_nil_r. }
  apply Forall_cons in Hr as [Hr1 Hr2]. rewrite concat_app, app_assoc.
  apply IH; [done|]. apply emit_run_absorbs; [done..|]. unfold run_blocks. 
  assert (0 <= run_count run / 4096) by (apply Z.div_pos; lia). lia.
Qed.

Lemma count_runs_ok runs : forall total,
  Forall (fun run => 0 < run_count run) runs -> 0 <= total ->
  total + runs_total runs <= UINT64_MAX ->
  count_runs runs total = (LAPLACE_IDENTITY_OK, total + runs_total runs).
Proof.
  induction runs as [|run runs IH]; intros total Hr Ht Hmax; simpl in *.
  { f_equal. lia. }
  apply Forall_cons in Hr as [Hr1 Hr2].
  assert (0 <= runs_total runs) by (clear -Hr2; induction Hr2; simpl; lia).
  casec; [lia|]. casec; [lia|]. rewrite IH by (done || lia). f_equal. lia.
Qed.

Lemma length_expand_runs runs :
  Forall (fun run => 0 < run_count run) runs ->
  Z.of_nat (length (expand_runs runs)) = runs_total runs.
Proof.
  unfold expand_runs. induction 1; simpl; [done|].
  rewrite length_app, length_replicate. lia.
Qed.

Lemma concat_bytes16 l : Forall (bytes 16) l -> bytes (16 * length l) (concat l).
Proof.
  induction 1; simpl length; [by split; [|constructor]|].
  replace (16 * S (length l))%nat with (16 + 16 * length l)%nat by lia.
  simpl concat. by apply bytes_app.
Qed.

Lemma concat_bytes16_inj l r :
  Forall (bytes 16) l -> Forall (bytes 16) r -> concat l = concat r -> l = r.
Proof.
  intros Hl. revert r. induction Hl as [|x l Hx Hl IH]; intros r Hr Heq.
  - destruct Hr as [|y r [Hy _] Hr]; [done|].
    apply (f_equal length) in Heq. simpl in Heq. rewrite length_app in Heq. lia.
  - destruct Hr as [|y r Hy Hr]; [apply (f_equal length) in Heq; simpl in Heq;
      rewrite length_app in Heq; destruct Hx; lia|].
    simpl in Heq. apply (app_bytes_inj 16) in Heq as [-> Heq]; [|done..].
    f_equal. by apply IH.
Qed.

Lemma composite_witness_ok children cw id w :
  (2 <= length children)%nat -> Z.of_nat (length children) <= SIZE_MAX / 16 ->
  laplace_identity_composite_witness (Some children) (Z.of_nat (length children)) cw
    (Some id) w =
  (LAPLACE_IDENTITY_OK, Some (take 16 (blake3 (composite_transcript children))),
   store w (blake3 (composite_transcript children))).
Proof.
  intros H2 Hmax. unfold laplace_identity_composite_witness.
  rewrite cells_all by done. ptrs.
  repeat (casec; [lia|]). unfold finalize_identity.
  rewrite (absorbs_finalize _ (composite_transcript children)); [done|].
  unfold composite_transcript. apply absorbs_update.
  change [1] with ([] ++ [composite_domain]). apply absorbs_update, absorbs_init.
Qed.
End Lemmas.

(** ** Properties *)

(** encoding every Unicode position, surrogates included, succeeds, writes
    one to four bytes, and the reference decoder recovers the position and
    leaves whatever follows: the encoding is injective and prefix-free. *)
Theorem position_encode_roundtrip p buffer len rest :
  0 <= p <= LAPLACE_UNICODE_POSITION_MAXIMUM -> length buffer = 4%nat ->
  exists encoded,
    laplace_unicode_position_encode p (Some buffer) (Some len) =
      (LAPLACE_IDENTITY_OK, Some (encoded ++ drop (length encoded) buffer),
       Some (Z.of_nat (length encoded))) /\
    (1 <= length encoded <= 4)%nat /\
    Forall (fun b => is_u8 b) encoded /\
    decode_position (encoded ++ rest) = Some (p, rest).
Proof.
  intros Hp Hb. exists (position_bytes p). split_and!.
  - by apply position_encode_ok.
  - apply length_position_bytes.
  - apply length_position_bytes.
  - unfold position_bytes. repeat casec; repeat constructor; apply u8_range.
  - by apply position_bytes_decode.
Qed.

Lemma position_encode_roundtrip_witness :
  0 <= 0xd800 <= LAPLACE_UNICODE_POSITION_MAXIMUM /\
  exists encoded,
    laplace_unicode_position_encode 0xd800 (Some [9; 9; 9; 9]) (Some 0) =
      (LAPLACE_IDENTITY_OK, Some (encoded ++ drop (length encoded) [9; 9; 9; 9]),
       Some (Z.of_nat (length encoded))) /\
    (1 <= length encoded <= 4)%nat /\ Forall (fun b => is_u8 b) encoded /\
    decode_position (encoded ++ [1; 2]) = Some (0xd800, [1; 2]).
Proof. split; [lia|]. apply position_encode_roundtrip; [lia | reflexivity]. Defined.

(** The batch of codepoint identities is all-or-nothing: when every position
    is in range each output cell holds the 16-byte BLAKE3 prefix of the
    position's encoding, in input order; otherwise the batch reports the range
    error and no output cell is written. *)
Theorem codepoint_batch_atomic {B : Blake3} {L : Blake3Laws B} positions out n :
  n = Z.of_nat (length positions) -> length out = length positions ->
  n <= SIZE_MAX / 16 -> Forall (fun p => is_u32 p) positions ->
  laplace_identity_codepoint_batch (Some positions) n (Some out) =
    if forallb (fun p => p <=? LAPLACE_UNICODE_POSITION_MAXIMUM) positions
    then (LAPLACE_IDENTITY_OK,
          Some (map (fun p => take 16 (blake3 (position_bytes p))) positions))
    else (LAPLACE_IDENTITY_POSITION_OUT_OF_RANGE, Some out).
Proof.
  intros Hn Hlen Hmax Hu. unfold laplace_identity_codepoint_batch.
  rewrite cells_all by done. ptrs.
  assert (SIZE_MAX / 16 <= SIZE_MAX / 4) by (vm_compute; discriminate).
  casec; [apply orb_true_iff in Hguard as [?|?]; bools; lia|].
  assert (Hneg : existsb (fun p => LAPLACE_UNICODE_POSITION_MAXIMUM <? p) positions =
                 negb (forallb (fun p => p <=? LAPLACE_UNICODE_POSITION_MAXIMUM) positions)).
  { clear. induction positions as [|p l IH]; simpl; [done|].
    rewrite IH, negb_andb, Z.leb_antisym, negb_involutive. done. }
  rewrite Hneg.
  destruct (forallb _ positions) eqn:Hall; simpl; [|done].
  rewrite codepoint_batch_loop_ok, drop_ge, app_nil_r; [done | lia | | lia].
  rewrite forallb_forall in Hall. apply Forall_forall. intros p Hp.
  rewrite Forall_forall in Hu. specialize (Hu p Hp).
  apply list_elem_of_In in Hp. specialize (Hall p Hp). bools. lia.
Qed.

Lemma codepoint_batch_atomic_witness :
  laplace_identity_codepoint_batch (B:=checksum_blake3) (Some [50; 0x10ffff]) 2
    (Some [[]; []]) =
    (LAPLACE_IDENTITY_OK,
     Some [take 16 (blake3 (B:=checksum_blake3) [50]);
           take 16 (blake3 (B:=checksum_blake3) [0xf4; 0x8f; 0xbf; 0xbf])]).
Proof.
  pose proof checksum_blake3_laws as L.
  rewrite (codepoint_batch_atomic [50; 0x10ffff] [[]; []] 2);
    [reflexivity | reflexivity | reflexivity | check | repeat constructor; lia].
Defined.

(** C11: a composition given as runs has exactly the status, identity, witness
    and count of the composition of the expanded children, on every branch
    (collapse of a single child, missing or mismatching collapsed witness,
    digest of many children), whatever the run lengths. *)
Theorem composite_runs_refines_composite {B : Blake3} {L : Blake3Laws B}
    runs cw count id w :
  runs <> [] -> Forall (fun run => 0 < run_count run) runs ->
  runs_total runs <= SIZE_MAX / 16 ->
  laplace_identity_composite_runs_witness (Some runs) (Z.of_nat (length runs)) cw
    (Some count) (Some id) w =
  let '(status, id', w') :=
    laplace_identity_composite_witness (Some (expand_runs runs)) (runs_total runs) cw
      (Some id) w in
  (status,
   if decide (status = LAPLACE_IDENTITY_OK) then Some (runs_total runs) else Some count,
   id', w').
Proof.
  intros Hne Hr Hmax.
  assert (Hlen := length_expand_runs runs Hr).
  assert (Hmax64 : SIZE_MAX / 16 <= UINT64_MAX) by (vm_compute; discriminate).
  assert (Hpos : 0 < runs_total runs).
  { destruct Hr as [|run l H1 H2]; [done|]. simpl.
    enough (0 <= runs_total l) by lia. clear -H2. induction H2; simpl; lia. }
  assert (Hu : Forall (fun run => is_u64 (run_count run)) runs).
  { clear Hne Hlen Hpos. induction Hr as [|run l H1 H2 IH]; [done|]. simpl in Hmax.
    assert (0 <= runs_total l) by (clear -H2; induction H2; simpl; lia).
    constructor; [lia | apply IH; lia]. }
  unfold laplace_identity_composite_runs_witness, laplace_identity_composite_witness.
  rewrite !cells_all by done. rewrite count_runs_ok by (done || lia).
  rewrite Z.add_0_l. ptrs.
  destruct (Z.of_nat (length runs) =? 0) eqn:E0; bools; [destruct runs; simpl in *; lia|].
  destruct (runs_total runs =? 0) eqn:E1; bools; [lia|].
  assert (Hfirst : run_id <$> runs !! 0%nat = expand_runs runs !! 0%nat).
  { destruct Hr as [|run l H1 _]; [done|]. unfold expand_runs. simpl.
    by destruct (Z.to_nat (run_count run)) eqn:E; [lia|]. }
  rewrite Hfirst.
  destruct (runs_total runs =? 1) eqn:E2; bools.
  { destruct w; simpl; [|done].
    destruct (negb _); simpl; done. }
  casec; [lia|]. unfold finalize_identity.
  rewrite (absorbs_finalize (hash_runs _ _) ([1] ++ concat (expand_runs runs)));
    [|apply hash_runs_absorbs; [done|];
      change [1] with ([] ++ [composite_domain]); apply absorbs_update, absorbs_init].
  rewrite (absorbs_finalize (blake3_hasher_update _ _) ([1] ++ concat (expand_runs runs)));
    [done|]. apply absorbs_update.
  change [1] with ([] ++ [composite_domain]). apply absorbs_update, absorbs_init.
Qed.

Lemma composite_runs_refines_composite_witness :
  laplace_identity_composite_runs_witness (B:=checksum_blake3)
    (Some [mk_run (replicate 16 7) 1; mk_run (replicate 16 8) 2]) 2 None
    (Some 0) (Some []) (Some []) =
  let '(status, id', w') :=
    laplace_identity_composite_witness (B:=checksum_blake3)
      (Some [replicate 16 7; replicate 16 8; replicate 16 8]) 3 None (Some []) (Some []) in
  (status,
   if decide (status = LAPLACE_IDENTITY_OK) then Some 3 else Some 0, id', w').
Proof.
  pose proof checksum_blake3_laws as L.
  apply (composite_runs_refines_composite
           [mk_run (replicate 16 7) 1; mk_run (replicate 16 8) 2]);
    [done | repeat constructor; lia | check].
Defined.

(** identities bind content.  A composition of at least two children is
    identified by the BLAKE3 prefix of a transcript that determines the ordered
    list of children, and that no codepoint's transcript equals: two different
    contents can share a witness only through a BLAKE3 collision. *)
Theorem composite_identity_binds_children {B : Blake3} {L : Blake3Laws B}
    (children : list laplace_id128) cw id w :
  (2 <= length children)%nat -> Z.of_nat (length children) <= SIZE_MAX / 16 ->
  Forall (bytes 16) children ->
  laplace_identity_composite_witness (Some children) (Z.of_nat (length children)) cw
      (Some id) (Some w) =
    (LAPLACE_IDENTITY_OK, Some (take 16 (blake3 (composite_transcript children))),
     Some (blake3 (composite_transcript children))) /\
  (forall others, Forall (bytes 16) others ->
     composite_transcript others = composite_transcript children -> others = children) /\
  (forall p, composite_transcript children <> position_bytes p).
Proof.
  intros H2 Hmax Hc. split_and!.
  - by rewrite composite_witness_ok.
  - intros others Ho Heq. unfold composite_transcript in Heq. injection Heq as Heq.
    by apply concat_bytes16_inj.
  - intros p Heq. apply (f_equal length) in Heq.
    pose proof (length_position_bytes p).
    unfold composite_transcript in Heq. rewrite length_app in Heq.
    apply concat_bytes16 in Hc as [Hlen _]. simpl in Heq. lia.
Qed.

Lemma composite_identity_binds_children_witness :
  (2 <= 2)%nat /\
  laplace_identity_composite_witness (B:=checksum_blake3)
    (Some [replicate 16 7; replicate 16 8]) 2 None (Some []) (Some []) =
    (LAPLACE_IDENTITY_OK,
     Some (take 16 (blake3 (B:=checksum_blake3)
             (composite_transcript [replicate 16 7; replicate 16 8]))),
     Some (blake3 (B:=checksum_blake3)
             (composite_transcript [replicate 16 7; replicate 16 8]))).
Proof.
  pose proof checksum_blake3_laws as L. split; [lia|].
  apply (composite_identity_binds_children [replicate 16 7; replicate 16 8] None [] []);
    [simpl; lia | check | check].
Defined.

(** on every successful composition the identity is the 16-byte prefix of
    the witness that is returned, including a collapsed single child, whose
    stored witness is checked against it. *)
Theorem composite_identity_is_witness_prefix {B : Blake3}
    children count cw id w id' w' :
  laplace_identity_composite_witness children count cw (Some id) (Some w) =
    (LAPLACE_IDENTITY_OK, Some id', Some w') -> id' = take 16 w'.
Proof.
  unfold laplace_identity_composite_witness. ptrs.
  repeat casec; try done; simpl.
  - intros [= <- <-].
    destruct (cells children count !! 0%nat), cw; simpl in *; try done.
    by apply bytes_equal_spec.
  - by intros [= <- <-].
Qed.

Lemma composite_identity_is_witness_prefix_witness :
  laplace_identity_composite_witness (B:=checksum_blake3)
    (Some [replicate 16 7]) 1 (Some (replicate 32 7)) (Some []) (Some []) =
    (LAPLACE_IDENTITY_OK, Some (replicate 16 7), Some (replicate 32 7)) /\
  replicate 16 7 = take 16 (replicate 32 7).
Proof.
  split; [vm_compute; reflexivity|].
  apply (composite_identity_is_witness_prefix (B:=checksum_blake3)
           (Some [replicate 16 7]) 1 (Some (replicate 32 7)) [] []).
  vm_compute. reflexivity.
Defined.
