(* ===== verification/Trajectory.v ===== *)
(** * Trajectory: 212-bit carriers and composition occurrences

    Models [engine/src/trajectory.c] and [engine/include/laplace/trajectory.h].
    A binary64 slot is its 64-bit pattern (the source only moves the pattern
    with [memcpy]); every carrier slot has the exponent field 1023, and its
    sign and mantissa carry 53 payload bits. *)
From stdpp Require Import prelude.
From Stdlib Require Import ZArith Lia.
From S2P Require Import Prelude Bytes Hash Identity.

(** ** Data *)
Abbreviation LAPLACE_TRAJECTORY_SLOT_COUNT := 4%nat (only parsing).
Abbreviation LAPLACE_TRAJECTORY_BINARY64_EXPONENT := 1023 (only parsing).
Abbreviation LAPLACE_TRAJECTORY_HAS_ATOM_BIT := 0 (only parsing).
Abbreviation LAPLACE_TRAJECTORY_TIER_SHIFT := 1 (only parsing).
Abbreviation LAPLACE_TRAJECTORY_TIER_MASK := 0x1f (only parsing).
Abbreviation LAPLACE_TRAJECTORY_ATOM_SHIFT := 31 (only parsing).
Abbreviation LAPLACE_TRAJECTORY_ATOM_MASK := 0x1fffff (only parsing).
Abbreviation MANTISSA_MASK := 0x000fffffffffffff (only parsing).
Abbreviation SLOT_PAYLOAD_MASK := 0x001fffffffffffff (only parsing).
Abbreviation EXPONENT_MASK := 0x7ff (only parsing).
Abbreviation METADATA_MASK := 0x000fffffffffffff (only parsing).
Abbreviation LOW_11_MASK := 0x7ff (only parsing).
Abbreviation LOW_21_MASK := 0x1fffff (only parsing).
Abbreviation LOW_22_MASK := 0x3fffff (only parsing).
Abbreviation LOW_31_MASK := 0x7fffffff (only parsing).
Abbreviation LOW_42_MASK := 0x3ffffffffff (only parsing).

Record laplace_trajectory_carrier := mk_carrier { slots : list Z }.

Record laplace_trajectory_payload := mk_payload {
  lane128 : list Z;
  ordinal : Z;
  run_length : Z;
  metadata : Z }.

Record laplace_composition_occurrence := mk_occurrence {
  entity_id : laplace_id128;
  logical_ordinal : Z;
  occurrence_metadata : Z;
  atom : Z;
  packed_ordinal : Z;
  occurrence_run_length : Z;
  tier : Z;
  has_atom : Z;
  reserved : Z }.

Inductive laplace_trajectory_status :=
  | LAPLACE_TRAJECTORY_OK
  | LAPLACE_TRAJECTORY_INVALID_ARGUMENT
  | LAPLACE_TRAJECTORY_METADATA_OUT_OF_RANGE
  | LAPLACE_TRAJECTORY_INVALID_CARRIER
  | LAPLACE_TRAJECTORY_ZERO_RUN
  | LAPLACE_TRAJECTORY_ORDINAL_MISMATCH
  | LAPLACE_TRAJECTORY_CAPACITY_INSUFFICIENT
  | LAPLACE_TRAJECTORY_COUNT_OVERFLOW.

(** [uint64_t] shifts. *)
Definition shl64 (v n : Z) : Z := u64 (Z.shiftl v n).

(** ** Slots *)
Definition payload_slot_to_double (payload : Z) : Z :=
  let sign := Z.land (Z.shiftr payload 52) 1 in
  let mantissa := Z.land payload MANTISSA_MASK in
  Z.lor (Z.lor (shl64 sign 63) (shl64 LAPLACE_TRAJECTORY_BINARY64_EXPONENT 52)) mantissa.

Definition double_to_payload_slot (bits : Z) : option Z :=
  let exponent := Z.land (Z.shiftr bits 52) EXPONENT_MASK in
  return_when (negb (exponent =? LAPLACE_TRAJECTORY_BINARY64_EXPONENT)) with None;;
  Some (Z.lor (shl64 (Z.land (Z.shiftr bits 63) 1) 52) (Z.land bits MANTISSA_MASK)).

(** ** Carriers *)
Definition payload_slots (payload : laplace_trajectory_payload) : list Z :=
  let high_lane := load_le (take 8 (lane128 payload)) in
  let low_lane := load_le (drop 8 (lane128 payload)) in
  [ Z.land low_lane SLOT_PAYLOAD_MASK;
    Z.lor (Z.land (Z.shiftr low_lane 53) LOW_11_MASK)
          (shl64 (Z.land high_lane LOW_42_MASK) 11);
    Z.lor (Z.land (Z.shiftr high_lane 42) LOW_22_MASK)
          (shl64 (Z.land (metadata payload) LOW_31_MASK) 22);
    Z.lor (Z.lor (ordinal payload) (shl64 (run_length payload) 16))
          (shl64 (Z.land (Z.shiftr (metadata payload) 31) LOW_21_MASK) 32) ].

Definition laplace_trajectory_carrier_encode (payload : ptr laplace_trajectory_payload)
    (carrier : ptr laplace_trajectory_carrier)
    : laplace_trajectory_status * ptr laplace_trajectory_carrier :=
  match payload, carrier with
  | Some payload, Some _ =>
      return_when (negb (Z.land (metadata payload) (u64 (Z.lnot METADATA_MASK)) =? 0))
        with (LAPLACE_TRAJECTORY_METADATA_OUT_OF_RANGE, carrier);;
      (LAPLACE_TRAJECTORY_OK,
       Some (mk_carrier (map payload_slot_to_double (payload_slots payload))))
  | _, _ => (LAPLACE_TRAJECTORY_INVALID_ARGUMENT, carrier)
  end.

Definition slots_payload (slot0 slot1 slot2 slot3 : Z) : laplace_trajectory_payload :=
  let low_lane := Z.lor (Z.land slot0 SLOT_PAYLOAD_MASK)
                        (shl64 (Z.land slot1 LOW_11_MASK) 53) in
  let high_lane := Z.lor (Z.land (Z.shiftr slot1 11) LOW_42_MASK)
                         (shl64 (Z.land slot2 LOW_22_MASK) 42) in
  {| lane128 := store_le 8 high_lane ++ store_le 8 low_lane;
     ordinal := u16 (Z.land slot3 0xffff);
     run_length := u16 (Z.land (Z.shiftr slot3 16) 0xffff);
     metadata := Z.lor (Z.land (Z.shiftr slot2 22) LOW_31_MASK)
                       (shl64 (Z.land (Z.shiftr slot3 32) LOW_21_MASK) 31) |}.

Definition laplace_trajectory_carrier_decode (carrier : ptr laplace_trajectory_carrier)
    (payload : ptr laplace_trajectory_payload)
    : laplace_trajectory_status * ptr laplace_trajectory_payload :=
  match carrier, payload with
  | Some carrier, Some _ =>
      match mapM double_to_payload_slot (slots carrier) with
      | Some [slot0; slot1; slot2; slot3] =>
          (LAPLACE_TRAJECTORY_OK, Some (slots_payload slot0 slot1 slot2 slot3))
      | _ => (LAPLACE_TRAJECTORY_INVALID_CARRIER, payload)
      end
  | _, _ => (LAPLACE_TRAJECTORY_INVALID_ARGUMENT, payload)
  end.

(** ** Compositions *)
Definition packed (logical_ordinal : Z) : Z :=
  if logical_ordinal <=? UINT16_MAX then u16 logical_ordinal else 0.

Definition laplace_trajectory_composition_encode (entity_id : ptr laplace_id128)
    (logical_ordinal run_length metadata : Z) (carrier : ptr laplace_trajectory_carrier)
    : laplace_trajectory_status * ptr laplace_trajectory_carrier :=
  match entity_id with
  | Some id =>
      return_when (is_null carrier || (logical_ordinal =? 0))
        with (LAPLACE_TRAJECTORY_INVALID_ARGUMENT, carrier);;
      return_when (run_length =? 0) with (LAPLACE_TRAJECTORY_ZERO_RUN, carrier);;
      return_when (UINT64_MAX - logical_ordinal <? run_length - 1)
        with (LAPLACE_TRAJECTORY_COUNT_OVERFLOW, carrier);;
      laplace_trajectory_carrier_encode
        (Some {| lane128 := id; ordinal := packed logical_ordinal;
                 run_length := run_length; metadata := metadata |}) carrier
  | None => (LAPLACE_TRAJECTORY_INVALID_ARGUMENT, carrier)
  end.

Definition laplace_trajectory_metadata_tier (metadata : Z) : Z :=
  u8 (Z.land (Z.shiftr metadata LAPLACE_TRAJECTORY_TIER_SHIFT) LAPLACE_TRAJECTORY_TIER_MASK).

Definition laplace_trajectory_metadata_has_atom (metadata : Z) : bool :=
  negb (Z.land metadata (shl64 1 LAPLACE_TRAJECTORY_HAS_ATOM_BIT) =? 0).

Definition laplace_trajectory_metadata_atom (metadata : Z) : Z :=
  u32 (Z.land (Z.shiftr metadata LAPLACE_TRAJECTORY_ATOM_SHIFT) LAPLACE_TRAJECTORY_ATOM_MASK).

Definition laplace_trajectory_composition_decode_one
    (carrier : ptr laplace_trajectory_carrier) (logical_ordinal : Z)
    (occurrence : ptr laplace_composition_occurrence)
    : laplace_trajectory_status * ptr laplace_composition_occurrence :=
  return_when (is_null carrier || is_null occurrence || (logical_ordinal =? 0))
    with (LAPLACE_TRAJECTORY_INVALID_ARGUMENT, occurrence);;
  match laplace_trajectory_carrier_decode carrier (Some (mk_payload [] 0 0 0)) with
  | (LAPLACE_TRAJECTORY_OK, Some payload) =>
      return_when (run_length payload =? 0)
        with (LAPLACE_TRAJECTORY_ZERO_RUN, occurrence);;
      return_when (negb (ordinal payload =? packed logical_ordinal))
        with (LAPLACE_TRAJECTORY_ORDINAL_MISMATCH, occurrence);;
      return_when (UINT64_MAX - logical_ordinal <? run_length payload - 1)
        with (LAPLACE_TRAJECTORY_COUNT_OVERFLOW, occurrence);;
      (LAPLACE_TRAJECTORY_OK,
       Some {| entity_id := lane128 payload;
               logical_ordinal := logical_ordinal;
               occurrence_metadata := metadata payload;
               atom := laplace_trajectory_metadata_atom (metadata payload);
               packed_ordinal := ordinal payload;
               occurrence_run_length := run_length payload;
               tier := laplace_trajectory_metadata_tier (metadata payload);
               has_atom := if laplace_trajectory_metadata_has_atom (metadata payload)
                           then 1 else 0;
               reserved := 0 |})
  | (status, _) => (status, occurrence)
  end.

Definition empty_occurrence : laplace_composition_occurrence :=
  mk_occurrence [] 0 0 0 0 0 0 0 0.

(** The loop of [validate_composition], from [logical_ordinal] on. *)
Fixpoint validate_composition_from (carriers : list laplace_trajectory_carrier)
    (logical_ordinal : Z) : laplace_trajectory_status * Z :=
  match carriers with
  | [] => (LAPLACE_TRAJECTORY_OK, logical_ordinal - 1)
  | carrier :: rest =>
      match laplace_trajectory_composition_decode_one
              (Some carrier) logical_ordinal (Some empty_occurrence) with
      | (LAPLACE_TRAJECTORY_OK, Some occurrence) =>
          return_when (UINT64_MAX - logical_ordinal <? occurrence_run_length occurrence)
            with (LAPLACE_TRAJECTORY_COUNT_OVERFLOW, 0);;
          validate_composition_from rest
            (logical_ordinal + occurrence_run_length occurrence)
      | (status, _) => (status, 0)
      end
  end.

Definition validate_composition (carriers : list laplace_trajectory_carrier)
    : laplace_trajectory_status * Z :=
  validate_composition_from carriers 1.

(** The second loop of the decoder: [occurrences[index] = occurrence]. *)
Fixpoint decode_occurrences (carriers : list laplace_trajectory_carrier) (index : nat)
    (logical_ordinal : Z) (occurrences : list laplace_composition_occurrence)
    : laplace_trajectory_status * list laplace_composition_occurrence :=
  match carriers with
  | [] => (LAPLACE_TRAJECTORY_OK, occurrences)
  | carrier :: rest =>
      match laplace_trajectory_composition_decode_one
              (Some carrier) logical_ordinal (Some empty_occurrence) with
      | (LAPLACE_TRAJECTORY_OK, Some occurrence) =>
          decode_occurrences rest (S index)
            (u64 (logical_ordinal + occurrence_run_length occurrence))
            (<[index := occurrence]> occurrences)
      | (status, _) => (status, occurrences)
      end
  end.

Definition laplace_trajectory_composition_decode
    (carriers : ptr (list laplace_trajectory_carrier)) (carrier_count : Z)
    (occurrences : ptr (list laplace_composition_occurrence)) (occurrence_capacity : Z)
    (logical_count : ptr Z)
    : laplace_trajectory_status * ptr (list laplace_composition_occurrence) * ptr Z :=
  return_when ((is_null carriers && negb (carrier_count =? 0)) ||
               (is_null occurrences && negb (carrier_count =? 0)) || is_null logical_count)
    with (LAPLACE_TRAJECTORY_INVALID_ARGUMENT, occurrences, logical_count);;
  return_when (occurrence_capacity <? carrier_count)
    with (LAPLACE_TRAJECTORY_CAPACITY_INSUFFICIENT, occurrences, logical_count);;
  match validate_composition (cells carriers carrier_count) with
  | (LAPLACE_TRAJECTORY_OK, total) =>
      match decode_occurrences (cells carriers carrier_count) 0 1 (default [] occurrences) with
      | (LAPLACE_TRAJECTORY_OK, written) =>
          (LAPLACE_TRAJECTORY_OK, store occurrences written, store logical_count total)
      | (status, written) => (status, store occurrences written, logical_count)
      end
  | (status, _) => (status, occurrences, logical_count)
  end.

(** ** Queries over decoded occurrences *)
Fixpoint entity_count_from (occurrences : list laplace_composition_occurrence)
    (entity : laplace_id128) (count : Z) : option Z :=
  match occurrences with
  | [] => Some count
  | o :: rest =>
      if laplace_identity_equal (Some (entity_id o)) (Some entity) then
        return_when (UINT64_MAX - count <? occurrence_run_length o) with None;;
        entity_count_from rest entity (count + occurrence_run_length o)
      else entity_count_from rest entity count
  end.

Definition laplace_trajectory_entity_count
    (occurrences : ptr (list laplace_composition_occurrence)) (occurrence_count : Z)
    (entity : ptr laplace_id128) (logical_count : ptr Z)
    : laplace_trajectory_status * ptr Z :=
  match entity with
  | Some id =>
      return_when ((is_null occurrences && negb (occurrence_count =? 0)) ||
                   is_null logical_count)
        with (LAPLACE_TRAJECTORY_INVALID_ARGUMENT, logical_count);;
      match entity_count_from (cells occurrences occurrence_count) id 0 with
      | Some count => (LAPLACE_TRAJECTORY_OK, store logical_count count)
      | None => (LAPLACE_TRAJECTORY_COUNT_OVERFLOW, logical_count)
      end
  | None => (LAPLACE_TRAJECTORY_INVALID_ARGUMENT, logical_count)
  end.

Definition laplace_trajectory_occurrence_precedes
    (occurrences : ptr (list laplace_composition_occurrence)) (occurrence_count : Z)
    (left_index right_index : Z) (result : ptr bool)
    : laplace_trajectory_status * ptr bool :=
  return_when ((is_null occurrences && negb (occurrence_count =? 0)) || is_null result ||
               (occurrence_count <=? left_index) || (occurrence_count <=? right_index))
    with (LAPLACE_TRAJECTORY_INVALID_ARGUMENT, result);;
  let at_index i := default empty_occurrence
                      (cells occurrences occurrence_count !! Z.to_nat i) in
  let l := at_index left_index in
  let r := at_index right_index in
  return_when ((occurrence_run_length l =? 0) || (occurrence_run_length r =? 0))
    with (LAPLACE_TRAJECTORY_INVALID_ARGUMENT, result);;
  return_when (UINT64_MAX - logical_ordinal l <? occurrence_run_length l - 1)
    with (LAPLACE_TRAJECTORY_COUNT_OVERFLOW, result);;
  let left_end := u64 (logical_ordinal l + occurrence_run_length l - 1) in
  (LAPLACE_TRAJECTORY_OK, store result (left_end <? logical_ordinal r)).

Definition laplace_trajectory_entities_cooccur
    (occurrences : ptr (list laplace_composition_occurrence)) (occurrence_count : Z)
    (left_id right_id : ptr laplace_id128) (result : ptr bool)
    : laplace_trajectory_status * ptr bool :=
  return_when ((is_null occurrences && negb (occurrence_count =? 0)) || is_null left_id ||
               is_null right_id || is_null result)
    with (LAPLACE_TRAJECTORY_INVALID_ARGUMENT, result);;
  let found id := existsb (fun o => laplace_identity_equal (Some (entity_id o)) id)
                    (cells occurrences occurrence_count) in
  (LAPLACE_TRAJECTORY_OK, store result (found left_id && found right_id)).

(** ** Specifications *)

(** One entry of a composition: an entity, its run length, its metadata. *)
Record entry := mk_entry { entry_id : laplace_id128; entry_run : Z; entry_metadata : Z }.

Definition entry_valid (e : entry) : Prop :=
  bytes 16 (entry_id e) /\ 1 <= entry_run e <= UINT16_MAX /\
  0 <= entry_metadata e <= METADATA_MASK.

(** Encode the entries one after the other, each at the ordinal it starts. *)
Fixpoint encode_entries (entries : list entry) (start : Z)
    : option (list laplace_trajectory_carrier) :=
  match entries with
  | [] => Some []
  | e :: rest =>
      match laplace_trajectory_composition_encode (Some (entry_id e)) start
              (entry_run e) (entry_metadata e) (Some (mk_carrier [])) with
      | (LAPLACE_TRAJECTORY_OK, Some carrier) =>
          carriers ← encode_entries rest (start + entry_run e); Some (carrier :: carriers)
      | _ => None
      end
  end.

(** What the decoder must return for them. *)
Fixpoint entry_occurrences (entries : list entry) (start : Z)
    : list laplace_composition_occurrence :=
  match entries with
  | [] => []
  | e :: rest =>
      {| entity_id := entry_id e;
         logical_ordinal := start;
         occurrence_metadata := entry_metadata e;
         atom := Z.land (Z.shiftr (entry_metadata e) 31) 0x1fffff;
         packed_ordinal := if start <=? UINT16_MAX then start else 0;
         occurrence_run_length := entry_run e;
         tier := Z.land (Z.shiftr (entry_metadata e) 1) 0x1f;
         has_atom := Z.land (entry_metadata e) 1;
         reserved := 0 |} :: entry_occurrences rest (start + entry_run e)
  end.

Definition entries_total (entries : list entry) : Z :=
  foldr (fun e total => entry_run e + total) 0 entries.

(** The logical children of decoded occurrences, runs expanded. *)
Definition logical_children (occurrences : list laplace_composition_occurrence)
    : list laplace_id128 :=
  concat (map (fun o => replicate (Z.to_nat (occurrence_run_length o)) (entity_id o))
            occurrences).

(** A carrier whose four slots are 64-bit patterns. *)
Definition carrier_wf (c : laplace_trajectory_carrier) : Prop :=
  length (slots c) = 4%nat /\ Forall (fun s => is_u64 s) (slots c).

Definition payload_wf (p : laplace_trajectory_payload) : Prop :=
  bytes 16 (lane128 p) /\ is_u16 (ordinal p) /\ is_u16 (run_length p) /\
  0 <= metadata p <= METADATA_MASK.

Lemma contract_vector :
  laplace_trajectory_composition_encode
    (Some [0xd6; 0x3b; 0xd9; 0xa8; 0x26; 0xaf; 0x91; 0xc1;
           0xfe; 0xa3; 0x71; 0x96; 0x5a; 0x64; 0xe1; 0x1e]) 1 1
    0x1880000001 (Some (mk_carrier [])) =
  (LAPLACE_TRAJECTORY_OK,
   Some (mk_carrier [0x3ff1645a9671a3fe; 0xbff93546c9deb0f7;
                     0x3ff000000070646b; 0x3ff0003100010001])).
Proof. vm_compute. reflexivity. Qed.

(** ** Bit-field lemmas *)
Lemma land_mask n v m : 0 <= n -> m = Z.ones n -> Z.land v m = v mod 2 ^ n.
Proof. intros ? ->. by apply Z.land_ones. Qed.

(** A field of [n] bits placed below another field. *)
Lemma lor_field v b k : 0 <= k -> 0 <= v < 2 ^ k -> 0 <= b -> b * 2 ^ k <= UINT64_MAX ->
  Z.lor v (shl64 b k) = v + b * 2 ^ k.
Proof.
  intros Hk Hv Hb Hmax. unfold shl64.
  rewrite u64_small by (rewrite Z.shiftl_mul_pow2 by lia; nia).
  by apply lor_shiftl_add.
Qed.

Ltac fields :=
  rewrite ?(land_mask 53 _ SLOT_PAYLOAD_MASK), ?(land_mask 52 _ MANTISSA_MASK),
    ?(land_mask 42 _ LOW_42_MASK), ?(land_mask 31 _ LOW_31_MASK),
    ?(land_mask 22 _ LOW_22_MASK), ?(land_mask 21 _ LOW_21_MASK),
    ?(land_mask 11 _ LOW_11_MASK), ?(land_mask 16 _ 0xffff), ?(land_mask 1 _ 1),
    ?Z.shiftr_div_pow2 by (lia || reflexivity);
  change (2 ^ 1) with 2; change (2 ^ 11) with 2048; change (2 ^ 16) with 65536;
  change (2 ^ 21) with 2097152; change (2 ^ 22) with 4194304;
  change (2 ^ 31) with 2147483648; change (2 ^ 32) with 4294967296;
  change (2 ^ 42) with 4398046511104; change (2 ^ 52) with 4503599627370496;
  change (2 ^ 53) with 9007199254740992; change (2 ^ 63) with 9223372036854775808.

Ltac divmod := Z.div_mod_to_equations; lia.

Lemma payload_slot_to_double_val s :
  0 <= s < 2 ^ 53 ->
  payload_slot_to_double s = 1023 * 2 ^ 52 + s mod 2 ^ 52 + s / 2 ^ 52 * 2 ^ 63.
Proof.
  intros Hs. unfold payload_slot_to_double. fields.
  assert (H1 : s / 4503599627370496 mod 2 = s / 4503599627370496) by divmod.
  rewrite H1. clear H1.
  rewrite <- Z.lor_assoc, Z.lor_comm.
  change (shl64 1023 52) with (1023 * 2 ^ 52).
  rewrite (lor_tag 1023 52) by (change (2 ^ 52) with 4503599627370496; divmod).
  rewrite lor_field; change (2 ^ 63) with 9223372036854775808;
    change (2 ^ 52) with 4503599627370496 in *; change (2 ^ 53) with 9007199254740992 in *;
    divmod.
Qed.

Lemma double_to_payload_slot_val b :
  is_u64 b ->
  double_to_payload_slot b =
    if b / 2 ^ 52 mod 2 ^ 11 =? 1023 then Some (b mod 2 ^ 52 + b / 2 ^ 63 * 2 ^ 52) else None.
Proof.
  intros Hb. unfold double_to_payload_slot. fields.
  destruct (_ =? 1023); [|done]. cbn [negb].
  assert (H1 : b / 9223372036854775808 mod 2 = b / 9223372036854775808) by divmod.
  rewrite H1. clear H1.
  f_equal. rewrite Z.lor_comm, lor_field; change (2 ^ 52) with 4503599627370496; divmod.
Qed.

(** Unpacking a slot that was packed gives the payload back. *)
Lemma slot_pack_unpack s :
  0 <= s < 2 ^ 53 ->
  double_to_payload_slot (payload_slot_to_double s) = Some s /\
  is_u64 (payload_slot_to_double s).
Proof.
  intros Hs. rewrite payload_slot_to_double_val by done. fields.
  change (2 ^ 53) with 9007199254740992 in Hs.
  assert (is_u64 (1023 * 4503599627370496 + s mod 4503599627370496 +
                  s / 4503599627370496 * 9223372036854775808)) by divmod.
  split; [|done]. rewrite double_to_payload_slot_val by done. fields.
  rewrite (proj2 (Z.eqb_eq _ _)) by divmod. f_equal. divmod.
Qed.

(** Packing what was unpacked gives the same bit pattern back. *)
Lemma slot_unpack_pack b s :
  is_u64 b -> double_to_payload_slot b = Some s ->
  payload_slot_to_double s = b /\ 0 <= s < 2 ^ 53.
Proof.
  intros Hb. rewrite double_to_payload_slot_val by done. fields.
  destruct (_ =? 1023) eqn:E; [|done]. bools. intros [= <-].
  assert (0 <= b mod 4503599627370496 + b / 9223372036854775808 * 4503599627370496 <
          9007199254740992) by divmod.
  split; [|done]. rewrite payload_slot_to_double_val by done. fields. divmod.
Qed.

Lemma payload_slots_val p :
  payload_wf p ->
  payload_slots p =
    (let high := load_le (take 8 (lane128 p)) in
    let low := load_le (drop 8 (lane128 p)) in
    [low mod 2 ^ 53; low / 2 ^ 53 + high mod 2 ^ 42 * 2 ^ 11;
     high / 2 ^ 42 + metadata p mod 2 ^ 31 * 2 ^ 22;
     ordinal p + run_length p * 2 ^ 16 + metadata p / 2 ^ 31 * 2 ^ 32]) /\
  Forall (fun s => 0 <= s < 2 ^ 53) (payload_slots p).
Proof.
  intros (Hlane & Ho & Hr & Hm).
  assert (Hhi : 0 <= load_le (take 8 (lane128 p)) < 18446744073709551616)
    by (apply (load_le_bound 8), (bytes_take 16); [done | lia]).
  assert (Hlo : 0 <= load_le (drop 8 (lane128 p)) < 18446744073709551616)
    by (apply (load_le_bound 8), (bytes_drop 16); [done | lia]).
  unfold payload_slots. cbv zeta.
  set (hi := load_le (take 8 (lane128 p))) in *. set (lo := load_le (drop 8 (lane128 p))) in *.
  fields.
  assert (H1 : lo / 9007199254740992 mod 2048 = lo / 9007199254740992) by divmod.
  assert (H2 : hi / 4398046511104 mod 4194304 = hi / 4398046511104) by divmod.
  assert (H3 : metadata p / 2147483648 mod 2097152 = metadata p / 2147483648) by divmod.
  rewrite H1, H2, H3. clear H1 H2 H3.
  rewrite (lor_field (lo / _)), (lor_field (hi / _)), (lor_field (ordinal p)), lor_field;
    fields; try (try change (2 ^ 16) with 65536; divmod).
  split; [done|]. repeat constructor; divmod.
Qed.

Lemma slots_payload_val s0 s1 s2 s3 :
  0 <= s0 < 2 ^ 53 -> 0 <= s1 < 2 ^ 53 -> 0 <= s2 < 2 ^ 53 -> 0 <= s3 < 2 ^ 53 ->
  slots_payload s0 s1 s2 s3 =
    {| lane128 := store_le 8 (s1 / 2 ^ 11 + s2 mod 2 ^ 22 * 2 ^ 42) ++
                  store_le 8 (s0 + s1 mod 2 ^ 11 * 2 ^ 53);
       ordinal := s3 mod 2 ^ 16;
       run_length := s3 / 2 ^ 16 mod 2 ^ 16;
       metadata := s2 / 2 ^ 22 + s3 / 2 ^ 32 * 2 ^ 31 |}.
Proof.
  intros H0 H1 H2 H3. unfold slots_payload. fields.
  change (2 ^ 53) with 9007199254740992 in *.
  assert (E0 : s0 mod 9007199254740992 = s0) by divmod.
  assert (E1 : s1 / 2048 mod 4398046511104 = s1 / 2048) by divmod.
  assert (E2 : s2 / 4194304 mod 2147483648 = s2 / 4194304) by divmod.
  assert (E3 : s3 / 4294967296 mod 2097152 = s3 / 4294967296) by divmod.
  rewrite E0, E1, E2, E3. clear E0 E1 E2 E3.
  rewrite (lor_field s0), (lor_field (s1 / _)), (lor_field (s2 / _));
    fields; try divmod.
  f_equal; apply u16_small; divmod.
Qed.

Lemma land_high v m k : 0 <= k ->
  Z.land v (Z.shiftl m k) = Z.shiftl (Z.land (Z.shiftr v k) m) k.
Proof.
  intros Hk. apply Z.bits_inj'. intros i Hi.
  rewrite Z.land_spec, !Z.shiftl_spec, Z.land_spec by lia.
  destruct (Z.lt_ge_cases i k).
  - rewrite !(Z.testbit_neg_r _ (i - k)) by lia. by rewrite !andb_false_r.
  - rewrite Z.shiftr_spec by lia. by replace (i - k + k) with i by lia.
Qed.

Lemma metadata_guard md :
  is_u64 md -> (Z.land md (u64 (Z.lnot METADATA_MASK)) =? 0) = (md <=? METADATA_MASK).
Proof.
  intros Hmd. change (u64 (Z.lnot METADATA_MASK)) with (Z.shiftl 0xfff 52).
  rewrite land_high, (land_mask 12 _ 0xfff), Z.shiftl_mul_pow2, Z.shiftr_div_pow2
    by (lia || reflexivity).
  change (2 ^ 12) with 4096. change (2 ^ 52) with 4503599627370496.
  apply eq_iff_eq_true. rewrite Z.eqb_eq, Z.leb_le. divmod.
Qed.

Lemma mapM_slots ss :
  Forall (fun s => 0 <= s < 2 ^ 53) ss ->
  mapM double_to_payload_slot (map payload_slot_to_double ss) = Some ss.
Proof.
  intros Hs. apply mapM_Some_2.
  induction Hs as [|s ss Hs _ IH]; constructor; [by apply slot_pack_unpack | exact IH].
Qed.

Lemma carrier_encode_ok p c0 :
  payload_wf p ->
  laplace_trajectory_carrier_encode (Some p) (Some c0) =
    (LAPLACE_TRAJECTORY_OK, Some (mk_carrier (map payload_slot_to_double (payload_slots p)))).
Proof.
  intros (_ & _ & _ & Hm). unfold laplace_trajectory_carrier_encode.
  rewrite metadata_guard by lia. by rewrite (proj2 (Z.leb_le _ _)) by lia.
Qed.

Lemma lane_halves lane hi lo :
  bytes 16 lane -> hi = load_le (take 8 lane) -> lo = load_le (drop 8 lane) ->
  store_le 8 hi ++ store_le 8 lo = lane.
Proof.
  intros Hl -> ->.
  rewrite !store_load_le; [apply take_drop | by apply (bytes_drop 16); [|lia] |
                           by apply (bytes_take 16); [|lia]].
Qed.

(** Reading back the two fields of [a + b * k]. *)
Lemma field_low a b k : 0 <= a < k -> (a + b * k) mod k = a.
Proof. intros ?. rewrite Z_mod_plus_full. by apply Z.mod_small. Qed.

Lemma field_high a b k : 0 <= a < k -> (a + b * k) / k = b.
Proof. intros ?. rewrite Z_div_plus_full, Z.div_small; lia. Qed.

Lemma payload_fields_back hi lo ord run md :
  is_u64 hi -> is_u64 lo -> is_u16 ord -> is_u16 run -> 0 <= md <= METADATA_MASK ->
  let s1 := lo / 9007199254740992 + hi mod 4398046511104 * 2048 in
  let s2 := hi / 4398046511104 + md mod 2147483648 * 4194304 in
  let s3 := ord + run * 65536 + md / 2147483648 * 4294967296 in
  s1 / 2048 + s2 mod 4194304 * 4398046511104 = hi /\
  lo mod 9007199254740992 + s1 mod 2048 * 9007199254740992 = lo /\
  s3 mod 65536 = ord /\ s3 / 65536 mod 65536 = run /\
  s2 / 4194304 + s3 / 4294967296 * 2147483648 = md.
Proof.
  intros Hhi Hlo Ho Hr Hm. cbv zeta.
  rewrite (field_low (lo / _) _ 2048), (field_high (lo / _) _ 2048) by divmod.
  rewrite (field_low (hi / _) _ 4194304), (field_high (hi / _) _ 4194304) by divmod.
  rewrite (field_high (ord + _)) by lia.
  replace (ord + run * 65536 + md / 2147483648 * 4294967296)
    with (ord + (run + md / 2147483648 * 65536) * 65536) by ring.
  rewrite (field_low ord), (field_high ord), (field_low run) by lia.
  split_and!; try done; divmod.
Qed.

Lemma slots_payload_slots p :
  payload_wf p ->
  mapM double_to_payload_slot (map payload_slot_to_double (payload_slots p)) =
    Some (payload_slots p) /\
  exists s0 s1 s2 s3, payload_slots p = [s0; s1; s2; s3] /\ slots_payload s0 s1 s2 s3 = p.
Proof.
  intros Hp. destruct (payload_slots_val p Hp) as [Hval Hr].
  split; [by apply mapM_slots|].
  cbv zeta in Hval. rewrite Hval in *. do 4 eexists. split; [reflexivity|].
  decompose_Forall_hyps. rewrite slots_payload_val by done.
  destruct Hp as (Hlane & Ho & Hrun & Hm).
  assert (Hhi : 0 <= load_le (take 8 (lane128 p)) < 18446744073709551616)
    by (apply (load_le_bound 8), (bytes_take 16); [done | lia]).
  assert (Hlo : 0 <= load_le (drop 8 (lane128 p)) < 18446744073709551616)
    by (apply (load_le_bound 8), (bytes_drop 16); [done | lia]).
  clear Hval. destruct p as [lane ord run md]. simpl in *. fields.
  destruct (payload_fields_back (load_le (take 8 lane)) (load_le (drop 8 lane)) ord run md)
    as (Eh & El & Eo & Er & Em); [lia..|].
  rewrite Eh, El, Eo, Er, Em. f_equal. by apply lane_halves.
Qed.

Lemma carrier_slots_inv c p0 p :
  laplace_trajectory_carrier_decode (Some c) (Some p0) = (LAPLACE_TRAJECTORY_OK, Some p) ->
  exists s0 s1 s2 s3, mapM double_to_payload_slot (slots c) = Some [s0; s1; s2; s3] /\
    p = slots_payload s0 s1 s2 s3.
Proof.
  unfold laplace_trajectory_carrier_decode.
  destruct (mapM _ _) as [[|s0 [|s1 [|s2 [|s3 [|]]]]]|]; try done.
  intros [= <-]. by exists s0, s1, s2, s3.
Qed.

Lemma carrier_decode_some c p0 :
  laplace_trajectory_carrier_decode (Some c) (Some p0) <> (LAPLACE_TRAJECTORY_OK, None).
Proof.
  unfold laplace_trajectory_carrier_decode.
  by destruct (mapM _ _) as [[|s0 [|s1 [|s2 [|s3 [|]]]]]|].
Qed.

Lemma mapM_slots_inv bs : forall ss,
  Forall (fun b => is_u64 b) bs -> mapM double_to_payload_slot bs = Some ss ->
  map payload_slot_to_double ss = bs /\ Forall (fun s => 0 <= s < 2 ^ 53) ss.
Proof.
  intros ss Hb Hm. apply mapM_Some_1 in Hm. revert Hb.
  induction Hm as [|b s bs ss Hbs _ IH]; intros Hb; [by split|].
  apply Forall_cons in Hb as [Hb1 Hb2].
  destruct (slot_unpack_pack b s Hb1 Hbs) as [Hs ?]. destruct (IH Hb2) as [Hss ?].
  cbn [map]. rewrite Hs, Hss. split; [done | by constructor].
Qed.

Lemma slots_payload_wf s0 s1 s2 s3 :
  Forall (fun s => 0 <= s < 2 ^ 53) [s0; s1; s2; s3] ->
  payload_wf (slots_payload s0 s1 s2 s3) /\
  payload_slots (slots_payload s0 s1 s2 s3) = [s0; s1; s2; s3].
Proof.
  intros Hs. decompose_Forall_hyps. rewrite slots_payload_val by done.
  assert (Hwf : payload_wf
    {| lane128 := store_le 8 (s1 / 2 ^ 11 + s2 mod 2 ^ 22 * 2 ^ 42) ++
                  store_le 8 (s0 + s1 mod 2 ^ 11 * 2 ^ 53);
       ordinal := s3 mod 2 ^ 16; run_length := s3 / 2 ^ 16 mod 2 ^ 16;
       metadata := s2 / 2 ^ 22 + s3 / 2 ^ 32 * 2 ^ 31 |}).
  { split_and!; simpl; [apply (bytes_app 8 8); apply store_le_bytes | ..]; fields;
      change (2 ^ 53) with 9007199254740992 in *; divmod. }
  split; [done|]. destruct (payload_slots_val _ Hwf) as [-> _]. cbv zeta. simpl.
  rewrite take_app_length', drop_app_length' by (by rewrite length_store_le).
  rewrite !load_store_le. change (256 ^ Z.of_nat 8) with 18446744073709551616. fields.
  change (2 ^ 53) with 9007199254740992 in *.
  rewrite !(Z.mod_small (_ + _) 18446744073709551616) by divmod.
  repeat f_equal; divmod.
Qed.

(** ** Properties *)

(** the carrier codec is a bijection.  A well-formed payload (16 lane bytes,
    16-bit ordinal and run, 52-bit metadata) is encoded into four 64-bit
    patterns with exponent field 1023, hence finite doubles, and decoding
    returns the payload; conversely a carrier that decodes is the encoding of
    a well-formed payload, bit for bit. *)
Theorem carrier_roundtrip p c0 p0 :
  payload_wf p ->
  exists c,
    laplace_trajectory_carrier_encode (Some p) (Some c0) = (LAPLACE_TRAJECTORY_OK, Some c) /\
    carrier_wf c /\
    Forall (fun s => s / 2 ^ 52 mod 2 ^ 11 = 1023) (slots c) /\
    laplace_trajectory_carrier_decode (Some c) (Some p0) = (LAPLACE_TRAJECTORY_OK, Some p) /\
    (forall c' q, carrier_wf c' ->
       laplace_trajectory_carrier_decode (Some c') (Some p0) =
         (LAPLACE_TRAJECTORY_OK, Some q) ->
       payload_wf q /\
       laplace_trajectory_carrier_encode (Some q) (Some c0) =
         (LAPLACE_TRAJECTORY_OK, Some c')).
Proof.
  intros Hp. eexists. split; [by apply carrier_encode_ok|].
  destruct (payload_slots_val p Hp) as [Hval Hrange].
  destruct (slots_payload_slots p Hp) as [Hmap (s0 & s1 & s2 & s3 & Hs & Hback)].
  split_and!.
  - split; cbn [slots]; [by rewrite length_map, Hs|].
    apply Forall_map. eapply Forall_impl; [exact Hrange|]. intros s H; apply slot_pack_unpack, H.
  - cbn [slots]. apply Forall_map. eapply Forall_impl; [exact Hrange|]. intros s H.
    cbn [compose]. rewrite payload_slot_to_double_val by done.
    change (2 ^ 53) with 9007199254740992 in H. fields. divmod.
  - unfold laplace_trajectory_carrier_decode. cbn [slots]. by rewrite Hmap, Hs, Hback.
  - intros c' q [Hlen Hc'] (t0 & t1 & t2 & t3 & Hm & ->)%carrier_slots_inv.
    destruct (mapM_slots_inv _ _ Hc' Hm) as [Hmap' Ht].
    destruct (slots_payload_wf _ _ _ _ Ht) as [Hwf Hslots].
    split; [done|]. rewrite carrier_encode_ok, Hslots, Hmap' by done. by destruct c'.
Qed.

Lemma carrier_roundtrip_witness :
  exists c,
    laplace_trajectory_carrier_encode
      (Some (mk_payload (replicate 16 0xab) 65535 3 0xfffffffffffff)) (Some (mk_carrier [])) =
      (LAPLACE_TRAJECTORY_OK, Some c) /\
    laplace_trajectory_carrier_decode (Some c) (Some (mk_payload [] 0 0 0)) =
      (LAPLACE_TRAJECTORY_OK, Some (mk_payload (replicate 16 0xab) 65535 3 0xfffffffffffff)).
Proof.
  destruct (carrier_roundtrip (mk_payload (replicate 16 0xab) 65535 3 0xfffffffffffff)
              (mk_carrier []) (mk_payload [] 0 0 0)) as (c & H1 & _ & _ & H2 & _).
  - split_and!; check || (simpl; lia).
  - exists c. by split.
Defined.

(** ** Composition lemmas *)
Definition occurrences_total (os : list laplace_composition_occurrence) : Z :=
  foldr (fun o total => occurrence_run_length o + total) 0 os.

(** Occurrences that follow each other from [start] on, with 16-bit runs. *)
Fixpoint contiguous (start : Z) (os : list laplace_composition_occurrence) : Prop :=
  match os with
  | [] => True
  | o :: rest =>
      logical_ordinal o = start /\ 1 <= occurrence_run_length o <= UINT16_MAX /\
      packed_ordinal o = packed start /\
      contiguous (start + occurrence_run_length o) rest
  end.

Lemma packed_range start : 1 <= start -> is_u16 (packed start).
Proof. intros ?. unfold packed. casec; [apply u16_range | lia]. Qed.

Lemma packed_val start :
  1 <= start -> packed start = if start <=? UINT16_MAX then start else 0.
Proof. intros ?. unfold packed. casec; [apply u16_small; lia | done]. Qed.

Lemma contiguous_runs os : forall start,
  contiguous start os -> Forall (fun o => 1 <= occurrence_run_length o) os.
Proof.
  induction os as [|o os IH]; intros start; [constructor|].
  intros (_ & [Hrun _] & _ & Hc). constructor; [done | by apply (IH _ Hc)].
Qed.

Lemma decode_one_inv c start o0 o :
  laplace_trajectory_composition_decode_one (Some c) start (Some o0) =
    (LAPLACE_TRAJECTORY_OK, Some o) ->
  exists p, laplace_trajectory_carrier_decode (Some c) (Some (mk_payload [] 0 0 0)) =
      (LAPLACE_TRAJECTORY_OK, Some p) /\
    entity_id o = lane128 p /\ logical_ordinal o = start /\
    1 <= occurrence_run_length o <= UINT16_MAX /\ packed_ordinal o = packed start.
Proof.
  unfold laplace_trajectory_composition_decode_one. ptrs. casec; [done|].
  destruct (laplace_trajectory_carrier_decode _ _) as [[] [p|]] eqn:Ed; try done;
    [|by apply carrier_decode_some in Ed].
  casec; [done|]. casec; [done|]. casec; [done|]. intros [= <-]. exists p. cbn.
  apply carrier_slots_inv in Ed as (s0 & s1 & s2 & s3 & _ & ->).
  pose proof (u16_range (Z.land (Z.shiftr s3 16) 65535)). simpl in *.
  split_and!; done || lia.
Qed.

Lemma decode_one_some c start o0 :
  laplace_trajectory_composition_decode_one (Some c) start (Some o0) <>
    (LAPLACE_TRAJECTORY_OK, None).
Proof.
  unfold laplace_trajectory_composition_decode_one. ptrs. casec; [done|].
  destruct (laplace_trajectory_carrier_decode _ _) as [[] [p|]] eqn:Ed; try done.
  by repeat (casec; [done|]).
Qed.

Lemma decode_loops_agree carriers : forall start total index occs,
  validate_composition_from carriers start = (LAPLACE_TRAJECTORY_OK, total) ->
  1 <= start <= UINT64_MAX -> (index + length carriers <= length occs)%nat ->
  exists os,
    decode_occurrences carriers index start occs =
      (LAPLACE_TRAJECTORY_OK,
       take index occs ++ os ++ drop (index + length carriers) occs) /\
    length os = length carriers /\ contiguous start os /\
    total = start - 1 + occurrences_total os /\ total < UINT64_MAX.
Proof.
  induction carriers as [|c rest IH]; intros start total index occs Hv Hs Hlen;
    cbn [validate_composition_from decode_occurrences length] in *.
  { injection Hv as <-. exists []. rewrite Nat.add_0_r. simpl.
    rewrite take_drop. split_and!; done || lia. }
  destruct (laplace_trajectory_composition_decode_one _ _ _) as [[] [o|]] eqn:Eo; try done;
    [|by apply decode_one_some in Eo].
  destruct (decode_one_inv _ _ _ _ Eo) as (_ & _ & _ & Hord & Hrun & Hpacked).
  casec_in Hv; [done|]. rewrite u64_small by lia.
  destruct (IH _ _ (S index) (<[index:=o]> occs) Hv) as (os & Hd & Hl & Hc & Ht & Hm);
    [lia | rewrite length_insert; lia |].
  exists (o :: os). rewrite Hd.
  split_and!; [|simpl; lia | simpl; auto | simpl; lia | done].
  rewrite (take_S_r _ _ o) by (apply list_lookup_insert_eq; lia).
  rewrite take_insert_ge, drop_insert_lt by lia.
  rewrite <- app_assoc. simpl. do 4 f_equal. f_equal. lia.
Qed.

Lemma decode_inv carriers n occs capacity lc os' total :
  n = Z.of_nat (length carriers) -> (length carriers <= length occs)%nat ->
  laplace_trajectory_composition_decode (Some carriers) n (Some occs) capacity (Some lc) =
    (LAPLACE_TRAJECTORY_OK, Some os', Some total) ->
  exists os, os' = os ++ drop (length carriers) occs /\ length os = length carriers /\
    contiguous 1 os /\ total = occurrences_total os /\ total < UINT64_MAX.
Proof.
  intros -> Hlen. unfold laplace_trajectory_composition_decode. ptrs.
  casec; [done|]. rewrite cells_all by done. unfold validate_composition.
  destruct (validate_composition_from _ _) as [st t] eqn:Ev. destruct st; try done.
  destruct (decode_loops_agree carriers 1 t 0 occs Ev) as (os & Hd & Hl & Hc & Ht & Hm);
    [lia | lia |].
  simpl default. rewrite Hd. intros [= <- <-]. exists os. split_and!; done || lia.
Qed.

(** The start of the [i]-th of contiguous occurrences. *)
Lemma contiguous_start os : forall start i o,
  contiguous start os -> os !! i = Some o ->
  logical_ordinal o = start + occurrences_total (take i os) /\
  1 <= occurrence_run_length o <= UINT16_MAX /\
  logical_ordinal o + occurrence_run_length o <= start + occurrences_total os.
Proof.
  induction os as [|x os IH]; intros start [|i] o Hc Hi; simpl in *; try done.
  - injection Hi as ->. destruct Hc as (? & ? & _ & Hc).
    assert (0 <= occurrences_total os).
    { clear -Hc. revert Hc. generalize (start + occurrence_run_length o).
      induction os as [|y os IH]; simpl; intros s; [lia|]. intros (? & ? & _ & ?%IH). lia. }
    lia.
  - destruct Hc as (Hx & Hxr & _ & Hc).
    destruct (IH _ i o Hc Hi) as (-> & ? & ?). split_and!; lia.
Qed.

Lemma contiguous_total_mono os : forall start i j,
  contiguous start os -> (i < j <= length os)%nat ->
  forall o, os !! i = Some o ->
  occurrences_total (take i os) + occurrence_run_length o <= occurrences_total (take j os).
Proof.
  induction os as [|x os IH]; intros start [|i] [|j] Hc Hij o Ho; simpl in *; try lia; try done.
  - injection Ho as ->. destruct Hc as (_ & _ & _ & Hc).
    enough (0 <= occurrences_total (take j os)) by lia. clear -Hc. revert Hc.
    generalize (start + occurrence_run_length o). revert j.
    induction os as [|y os IH]; intros [|j] s; simpl; try lia.
    intros (? & ? & _ & Hc). specialize (IH j _ Hc). lia.
  - destruct Hc as (_ & _ & _ & Hc). specialize (IH _ i j Hc ltac:(lia) o Ho). lia.
Qed.

(** [laplace_identity_equal] on non-NULL arguments. *)
Lemma identity_equal_spec a b : laplace_identity_equal (Some a) (Some b) = bool_decide (a = b).
Proof.
  simpl. apply eq_iff_eq_true. by rewrite bytes_equal_spec, bool_decide_eq_true.
Qed.

Lemma filter_replicate {A} (P : A -> Prop) `{!forall x, Decision (P x)} n x :
  filter P (replicate n x) = if decide (P x) then replicate n x else [].
Proof.
  induction n as [|n IH]; simpl; [by destruct (decide _)|].
  rewrite filter_cons, IH. by destruct (decide _).
Qed.

Lemma contiguous_total_nonneg os start : contiguous start os -> 0 <= occurrences_total os.
Proof.
  revert start. induction os as [|o os IH]; simpl; intros start; [lia|].
  intros (_ & ? & _ & ?%IH). lia.
Qed.

Lemma entity_count_from_val os : forall start id count,
  contiguous start os -> 0 <= count -> count + occurrences_total os <= UINT64_MAX ->
  entity_count_from os id count =
    Some (count + Z.of_nat (length (filter (fun x => x = id) (logical_children os)))).
Proof.
  unfold logical_children.
  induction os as [|o os IH]; intros start id count Hc Hcount Hmax;
    cbn [entity_count_from map concat occurrences_total foldr contiguous] in *.
  { f_equal. cbn. lia. }
  destruct Hc as (_ & Hr & _ & Hc). pose proof (contiguous_total_nonneg _ _ Hc).
  fold (occurrences_total os) in *.
  rewrite identity_equal_spec, filter_app, length_app, filter_replicate.
  case_decide as He; case_bool_decide; try done.
  - casec; [lia|]. rewrite (IH _ _ _ Hc), length_replicate by lia. f_equal. lia.
  - by rewrite (IH _ _ _ Hc) by lia.
Qed.

Lemma found_spec os id :
  Forall (fun o => 1 <= occurrence_run_length o) os ->
  existsb (fun o => laplace_identity_equal (Some (entity_id o)) (Some id)) os =
    bool_decide (id ∈ logical_children os).
Proof.
  intros Hr. apply eq_iff_eq_true. rewrite existsb_exists, bool_decide_eq_true.
  unfold logical_children. rewrite list_elem_of_In, in_concat.
  setoid_rewrite in_map_iff. setoid_rewrite identity_equal_spec.
  setoid_rewrite bool_decide_eq_true. split.
  - intros (o & Ho & <-). exists (replicate (Z.to_nat (occurrence_run_length o)) (entity_id o)).
    split; [by exists o|]. rewrite Forall_forall in Hr.
    apply list_elem_of_In, elem_of_replicate. split; [done|].
    apply list_elem_of_In in Ho. specialize (Hr o Ho). lia.
  - intros (l & (o & <- & Ho) & Hid). exists o. split; [done|].
    apply list_elem_of_In, elem_of_replicate in Hid as [-> _]. done.
Qed.

(** ** Round trip of whole compositions *)
Lemma encode_entry_ok e start :
  entry_valid e -> 1 <= start -> start + entry_run e <= UINT64_MAX ->
  let p := mk_payload (entry_id e) (packed start) (entry_run e) (entry_metadata e) in
  payload_wf p /\
  laplace_trajectory_composition_encode (Some (entry_id e)) start (entry_run e)
    (entry_metadata e) (Some (mk_carrier [])) =
    (LAPLACE_TRAJECTORY_OK, Some (mk_carrier (map payload_slot_to_double (payload_slots p)))).
Proof.
  intros (Hid & Hr & Hm) Hs Hmax. cbv zeta.
  assert (Hwf : payload_wf
    (mk_payload (entry_id e) (packed start) (entry_run e) (entry_metadata e))).
  { split_and!; simpl; try done; try lia; by apply packed_range. }
  split; [done|]. unfold laplace_trajectory_composition_encode. ptrs.
  casec; [lia|]. casec; [lia|]. casec; [lia|]. by apply carrier_encode_ok.
Qed.

Lemma decode_one_ok p start o0 :
  payload_wf p -> 1 <= run_length p -> 1 <= start -> ordinal p = packed start ->
  start + run_length p <= UINT64_MAX ->
  laplace_trajectory_composition_decode_one
    (Some (mk_carrier (map payload_slot_to_double (payload_slots p)))) start (Some o0) =
    (LAPLACE_TRAJECTORY_OK,
     Some {| entity_id := lane128 p; logical_ordinal := start;
             occurrence_metadata := metadata p;
             atom := laplace_trajectory_metadata_atom (metadata p);
             packed_ordinal := ordinal p; occurrence_run_length := run_length p;
             tier := laplace_trajectory_metadata_tier (metadata p);
             has_atom := if laplace_trajectory_metadata_has_atom (metadata p) then 1 else 0;
             reserved := 0 |}).
Proof.
  intros Hp Hrun Hs Ho Hmax. unfold laplace_trajectory_composition_decode_one. ptrs.
  casec; [lia|].
  destruct (slots_payload_slots p Hp) as [Hmap (s0 & s1 & s2 & s3 & Hs' & Hback)].
  unfold laplace_trajectory_carrier_decode. cbn [slots]. rewrite Hmap, Hs', Hback.
  rewrite (proj2 (Z.eqb_neq _ _)), (proj2 (Z.eqb_eq (ordinal p) _)) by (done || lia).
  ptrs. by rewrite (proj2 (Z.ltb_ge _ _)) by lia.
Qed.

Lemma metadata_fields md :
  0 <= md <= METADATA_MASK ->
  laplace_trajectory_metadata_atom md = Z.land (Z.shiftr md 31) 0x1fffff /\
  laplace_trajectory_metadata_tier md = Z.land (Z.shiftr md 1) 0x1f /\
  (if laplace_trajectory_metadata_has_atom md then 1 else 0) = Z.land md 1.
Proof.
  intros Hm. unfold laplace_trajectory_metadata_atom, laplace_trajectory_metadata_tier,
    laplace_trajectory_metadata_has_atom.
  change (shl64 1 0) with 1.
  rewrite !(land_mask 21 _ 0x1fffff), !(land_mask 5 _ 0x1f), !(land_mask 1 _ 1) by done.
  split_and!; [apply u32_small | apply u8_small | ].
  - pose proof (Z.mod_pos_bound (Z.shiftr md 31) (2 ^ 21) eq_refl). lia.
  - pose proof (Z.mod_pos_bound (Z.shiftr md 1) (2 ^ 5) eq_refl). lia.
  - pose proof (Z.mod_pos_bound md (2 ^ 1) eq_refl).
    destruct (_ =? 0) eqn:E; bools; cbn [negb]; lia.
Qed.

Lemma entries_roundtrip es : forall start,
  Forall entry_valid es -> 1 <= start -> start + entries_total es <= UINT64_MAX ->
  exists carriers,
    encode_entries es start = Some carriers /\ length carriers = length es /\
    validate_composition_from carriers start =
      (LAPLACE_TRAJECTORY_OK, start - 1 + entries_total es) /\
    forall index occs, (index + length es <= length occs)%nat ->
      decode_occurrences carriers index start occs =
        (LAPLACE_TRAJECTORY_OK,
         take index occs ++ entry_occurrences es start ++ drop (index + length es) occs).
Proof.
  induction es as [|e es IH]; intros start Hv Hs Hmax.
  { exists []. simpl. split_and!; try done; [f_equal; lia|].
    intros. by rewrite Nat.add_0_r, take_drop. }
  apply Forall_cons in Hv as [He Hv]. cbn [entries_total foldr] in Hmax.
  fold (entries_total es) in Hmax.
  assert (Hr := proj1 (proj2 He)).
  assert (0 <= entries_total es).
  { clear -Hv. induction Hv as [|? ? (_ & ? & _)]; simpl; [lia|]. fold (entries_total l). lia. }
  destruct (encode_entry_ok e start He Hs ltac:(lia)) as [Hwf Henc].
  destruct (IH (start + entry_run e) Hv ltac:(lia) ltac:(lia)) as (cs & Hcs & Hl & Hval & Hdec).
  assert (Hone := decode_one_ok _ start empty_occurrence Hwf ltac:(cbn; lia) Hs eq_refl
                    ltac:(cbn; lia)).
  destruct (metadata_fields (entry_metadata e) (proj2 (proj2 He))) as (Ha & Ht & Hh).
  cbn [lane128 ordinal run_length metadata] in Hone. rewrite Ha, Ht, Hh, packed_val in Hone by lia.
  eexists. split_and!.
  - cbn [encode_entries]. rewrite Henc, Hcs. reflexivity.
  - simpl. by rewrite Hl.
  - cbn [validate_composition_from]. rewrite packed_val by lia.
    rewrite Hone. cbn [occurrence_run_length]. casec; [lia|]. rewrite Hval.
    cbn [entries_total foldr]. fold (entries_total es). f_equal. lia.
  - intros index occs Hlen. cbn [decode_occurrences length] in *.
    rewrite packed_val by lia. rewrite Hone.
    cbn [occurrence_run_length].
    rewrite u64_small by lia. rewrite Hdec by (rewrite length_insert; lia).
    erewrite take_S_r by (apply list_lookup_insert_eq; lia).
    rewrite take_insert_ge, drop_insert_lt by lia. rewrite <- app_assoc.
    cbn [entry_occurrences app].
    by replace (index + S (length es))%nat with (S index + length es)%nat by lia.
Qed.

(** C20: decoding what was encoded returns every entity with its run, metadata
    and the metadata's atom, tier and atom flag, at the logical ordinal where
    its run starts, and the logical count; cells past the last carrier keep
    their content.  Holds for compositions of up to 2^64 - 2 logical children,
    whose ordinals exceed the 16-bit packed field. *)
Theorem composition_roundtrip es occs capacity lc :
  Forall entry_valid es -> 1 + entries_total es <= UINT64_MAX ->
  (length es <= length occs)%nat -> Z.of_nat (length es) <= capacity ->
  exists carriers,
    encode_entries es 1 = Some carriers /\ length carriers = length es /\
    laplace_trajectory_composition_decode (Some carriers) (Z.of_nat (length carriers))
      (Some occs) capacity (Some lc) =
    (LAPLACE_TRAJECTORY_OK, Some (entry_occurrences es 1 ++ drop (length es) occs),
     Some (entries_total es)).
Proof.
  intros Hv Hmax Hlen Hcap.
  destruct (entries_roundtrip es 1 Hv ltac:(lia) Hmax) as (cs & Hcs & Hl & Hval & Hdec).
  exists cs. split_and!; [done..|]. unfold laplace_trajectory_composition_decode. ptrs.
  casec; [lia|]. rewrite cells_all by done. unfold validate_composition. rewrite Hval.
  simpl default. rewrite (Hdec 0%nat occs) by lia. simpl. by replace (1 - 1 + entries_total es) with (entries_total es) by lia.
Qed.

Lemma composition_roundtrip_witness :
  exists carriers,
    encode_entries [mk_entry (replicate 16 7) 65535 1; mk_entry (replicate 16 8) 2 0x3f] 1 =
      Some carriers /\
    laplace_trajectory_composition_decode (Some carriers) (Z.of_nat (length carriers))
      (Some [empty_occurrence; empty_occurrence]) 2 (Some 0) =
    (LAPLACE_TRAJECTORY_OK,
     Some [mk_occurrence (replicate 16 7) 1 1 0 1 65535 0 1 0;
           mk_occurrence (replicate 16 8) 65536 0x3f 0 0 2 31 1 0],
     Some 65537).
Proof.
  destruct (composition_roundtrip
    [mk_entry (replicate 16 7) 65535 1; mk_entry (replicate 16 8) 2 0x3f]
    [empty_occurrence; empty_occurrence] 2 0) as (cs & H1 & _ & H2).
  - repeat constructor; check || (simpl; lia).
  - simpl. lia.
  - simpl. lia.
  - simpl. lia.
  - exists cs. split; [exact H1 | exact H2].
Defined.

(** whenever a composition decodes, [laplace_trajectory_occurrence_precedes]
    succeeds on every pair of its occurrences and decides exactly their order
    in the composition, so precedence is a strict total order. *)
Theorem decoded_precedes_is_order carriers n occs capacity lc os' total i j result :
  n = Z.of_nat (length carriers) -> (length carriers <= length occs)%nat ->
  laplace_trajectory_composition_decode (Some carriers) n (Some occs) capacity (Some lc) =
    (LAPLACE_TRAJECTORY_OK, Some os', Some total) ->
  0 <= i < n -> 0 <= j < n ->
  laplace_trajectory_occurrence_precedes (Some os') n i j (Some result) =
    (LAPLACE_TRAJECTORY_OK, Some (i <? j)).
Proof.
  intros Hn Hlen Hdec Hi Hj.
  destruct (decode_inv _ _ _ _ _ _ _ Hn Hlen Hdec) as (os & -> & Hl & Hc & -> & Hmax).
  unfold laplace_trajectory_occurrence_precedes. ptrs.
  rewrite cells_app by lia.
  casec; [destruct (n <=? i) eqn:?; bools; lia|].
  destruct (lookup_lt_is_Some_2 os (Z.to_nat i)) as [a Ha]; [lia|].
  destruct (lookup_lt_is_Some_2 os (Z.to_nat j)) as [b Hb]; [lia|].
  rewrite Ha, Hb. simpl default.
  destruct (contiguous_start _ _ _ _ Hc Ha) as (Ea & Hra & Hma).
  destruct (contiguous_start _ _ _ _ Hc Hb) as (Eb & Hrb & Hmb).
  casec; [destruct (occurrence_run_length a =? 0) eqn:?; bools; lia|].
  assert (0 <= occurrences_total (take (Z.to_nat i) os)).
  { destruct (Z.to_nat i) as [|k] eqn:Ek; [done|].
    destruct (lookup_lt_is_Some_2 os 0%nat) as [o Ho]; [lia|].
    pose proof (contiguous_total_mono _ _ 0 (S k) Hc ltac:(lia) o Ho) as Hm.
    destruct (contiguous_start _ _ _ _ Hc Ho) as (_ & ? & _). simpl in Hm. lia. }
  casec; [lia|]. rewrite u64_small by lia. simpl. do 2 f_equal.
  destruct (Z.ltb_spec i j) as [Hij|Hij].
  - apply Z.ltb_lt.
    pose proof (contiguous_total_mono _ _ (Z.to_nat i) (Z.to_nat j) Hc ltac:(lia) a Ha). lia.
  - apply Z.ltb_ge. destruct (Z.eq_dec i j) as [->|Hne]; [rewrite Ea, Eb; lia|].
    pose proof (contiguous_total_mono _ _ (Z.to_nat j) (Z.to_nat i) Hc ltac:(lia) b Hb). lia.
Qed.

Definition sample_carriers : list laplace_trajectory_carrier :=
  default [] (encode_entries [mk_entry (replicate 16 7) 3 1; mk_entry (replicate 16 8) 2 0] 1).
Definition sample_occurrences : list laplace_composition_occurrence :=
  [mk_occurrence (replicate 16 7) 1 1 0 1 3 0 1 0; mk_occurrence (replicate 16 8) 4 0 0 4 2 0 0 0].

Lemma decoded_precedes_is_order_witness :
  laplace_trajectory_occurrence_precedes (Some sample_occurrences) 2 1 0 (Some true) =
    (LAPLACE_TRAJECTORY_OK, Some (1 <? 0)).
Proof.
  apply (decoded_precedes_is_order sample_carriers 2 [empty_occurrence; empty_occurrence] 2 0
           sample_occurrences 5 1 0 true); [reflexivity | vm_compute; lia | vm_compute; reflexivity
    | lia | lia].
Defined.

(** on the occurrences of a decoded composition the queries agree with the
    expanded list of logical children: the entity count never overflows and is
    the number of positions that hold the entity, and two entities co-occur
    exactly when both occur. *)
Theorem decoded_queries_agree carriers n occs capacity lc os' total id id2 count result :
  n = Z.of_nat (length carriers) -> length carriers = length occs ->
  laplace_trajectory_composition_decode (Some carriers) n (Some occs) capacity (Some lc) =
    (LAPLACE_TRAJECTORY_OK, Some os', Some total) ->
  Z.of_nat (length (logical_children os')) = total /\
  laplace_trajectory_entity_count (Some os') n (Some id) (Some count) =
    (LAPLACE_TRAJECTORY_OK,
     Some (Z.of_nat (length (filter (fun x => x = id) (logical_children os'))))) /\
  laplace_trajectory_entities_cooccur (Some os') n (Some id) (Some id2) (Some result) =
    (LAPLACE_TRAJECTORY_OK,
     Some (bool_decide (id ∈ logical_children os' /\ id2 ∈ logical_children os'))).
Proof.
  intros Hn Hlen Hdec.
  assert (Hle : (length carriers <= length occs)%nat) by lia.
  destruct (decode_inv _ _ _ _ _ _ _ Hn Hle Hdec) as (os & -> & Hl & Hc & -> & Hmax).
  rewrite drop_ge, app_nil_r by lia.
  assert (Hr := contiguous_runs _ _ Hc).
  split_and!.
  - unfold logical_children. clear -Hr.
    induction Hr as [|o os Ho _ IH]; [done|]. cbn [map concat occurrences_total foldr].
    fold (occurrences_total os). rewrite length_app, length_replicate. lia.
  - unfold laplace_trajectory_entity_count. ptrs. rewrite cells_all by lia.
    rewrite (entity_count_from_val _ _ _ _ Hc) by lia. by rewrite Z.add_0_l.
  - unfold laplace_trajectory_entities_cooccur. ptrs. rewrite cells_all by lia.
    rewrite !found_spec by done. simpl. do 2 f_equal.
    by rewrite bool_decide_and.
Qed.

Lemma decoded_queries_agree_witness :
  laplace_trajectory_entity_count (Some sample_occurrences) 2 (Some (replicate 16 7)) (Some 0) =
    (LAPLACE_TRAJECTORY_OK, Some 3).
Proof.
  apply (decoded_queries_agree sample_carriers 2 [empty_occurrence; empty_occurrence] 2 0
           sample_occurrences 5 (replicate 16 7) [] 0 true);
    [reflexivity | reflexivity | vm_compute; reflexivity].
Defined.
