(* ===== verification/Framework.v ===== *)
(** * Framework: contexts, canonical streams and staging to sinks

    Models [engine/src/framework.c] and [engine/include/laplace/framework.h]
    up to the staging of a canonical stream: the operation registry, the
    execution context and its fingerprint, the fingerprint of a canonical
    stream, the sinks (a record of callbacks that act on a world the staging
    code knows nothing about), the staging of a stream to all of them with its
    abort discipline, and the stream receipt with its validation.

    The producer, its checkpoints and replay are in [Producer], the activation
    of staged streams in [Activation]. *)
From stdpp Require Import prelude strings.
From Stdlib Require Import ZArith Lia.
From S2P Require Import Prelude Bytes Sorting Hash Identity.

(** ** Contract constants ([contracts/framework.json]) *)
Abbreviation LAPLACE_FRAMEWORK_MAJOR := 1 (only parsing).
Abbreviation LAPLACE_FRAMEWORK_MINOR := 6 (only parsing).
Abbreviation LAPLACE_FRAMEWORK_EPOCH_COUNT := 10%nat (only parsing).
Abbreviation LAPLACE_FRAMEWORK_KNOWN_CONTEXT_FLAGS := 3 (only parsing).
Abbreviation LAPLACE_FRAMEWORK_KNOWN_BATCH_FLAGS := 0 (only parsing).
Abbreviation LAPLACE_FRAMEWORK_KNOWN_STREAM_FLAGS := 0 (only parsing).
Abbreviation LAPLACE_FRAMEWORK_EFFECT_STAGED_INERT := 1 (only parsing).
Abbreviation LAPLACE_FRAMEWORK_SINK_ABI_MAJOR := 1 (only parsing).
Abbreviation LAPLACE_FRAMEWORK_SINK_ABI_MINOR := 0 (only parsing).
Abbreviation LAPLACE_FRAMEWORK_NO_INDEX := UINT64_MAX (only parsing).

(** ** Data *)
Record laplace_framework_operation_descriptor := mk_operation {
  opcode : Z;
  module_id : Z;
  input_type : Z;
  output_type : Z;
  instruction_version : Z;
  introduced_minor : Z;
  operation_flags : Z }.

Record laplace_execution_grant := mk_grant {
  memory_bytes : Z;
  cpu_slots : Z;
  io_slots : Z }.

Record laplace_framework_context := mk_context {
  epochs : list laplace_digest256;
  authority_fingerprint : laplace_digest256;
  resource_grant : laplace_execution_grant;
  epoch_mask : Z;
  major : Z;
  minor : Z;
  context_flags : Z;
  context_reserved : Z }.

Record laplace_framework_canonical_batch := mk_batch {
  canonical_bytes : ptr (list Z);
  byte_count : Z;
  record_count : Z;
  first_ordinal : Z;
  batch_record_type : Z;
  batch_flags : Z }.

Record laplace_framework_canonical_stream := mk_stream {
  batches : ptr (list laplace_framework_canonical_batch);
  stream_source_fingerprint : laplace_digest256;
  stream_recipe_fingerprint : laplace_digest256;
  stream_batch_count : Z;
  stream_flags : Z;
  stream_reserved : Z }.

Inductive laplace_framework_status :=
| LAPLACE_FRAMEWORK_OK
| LAPLACE_FRAMEWORK_INVALID_ARGUMENT
| LAPLACE_FRAMEWORK_UNSUPPORTED_VERSION
| LAPLACE_FRAMEWORK_CONTEXT_INVALID
| LAPLACE_FRAMEWORK_REGISTRY_INVALID
| LAPLACE_FRAMEWORK_STREAM_INVALID
| LAPLACE_FRAMEWORK_SINK_INVALID
| LAPLACE_FRAMEWORK_SINK_BEGIN_FAILED
| LAPLACE_FRAMEWORK_SINK_STAGE_FAILED
| LAPLACE_FRAMEWORK_SINK_SEAL_FAILED
| LAPLACE_FRAMEWORK_OVERFLOW
| LAPLACE_FRAMEWORK_EFFECT_NOT_AUTHORIZED
| LAPLACE_FRAMEWORK_ACTIVATION_REQUEST_INVALID
| LAPLACE_FRAMEWORK_ACTIVATION_PROVIDER_INVALID
| LAPLACE_FRAMEWORK_ACTIVATION_ADMISSION_FAILED
| LAPLACE_FRAMEWORK_ACTIVATION_COMMIT_FAILED
| LAPLACE_FRAMEWORK_PRODUCER_INVALID
| LAPLACE_FRAMEWORK_PRODUCER_PREPARE_FAILED
| LAPLACE_FRAMEWORK_PRODUCER_BATCH_FAILED
| LAPLACE_FRAMEWORK_PRODUCER_FINISH_FAILED
| LAPLACE_FRAMEWORK_PRODUCER_CANCELLED
| LAPLACE_FRAMEWORK_REPLAY_INVALID
| LAPLACE_FRAMEWORK_REPLAY_MISMATCH.

#[export] Instance framework_status_eq_dec : EqDecision laplace_framework_status.
Proof. solve_decision. Defined.

(** The integer value of a status, as the receipts hash it. *)
Definition status_value (status : laplace_framework_status) : Z :=
  match status with
  | LAPLACE_FRAMEWORK_OK => 0
  | LAPLACE_FRAMEWORK_INVALID_ARGUMENT => 1
  | LAPLACE_FRAMEWORK_UNSUPPORTED_VERSION => 2
  | LAPLACE_FRAMEWORK_CONTEXT_INVALID => 3
  | LAPLACE_FRAMEWORK_REGISTRY_INVALID => 4
  | LAPLACE_FRAMEWORK_STREAM_INVALID => 5
  | LAPLACE_FRAMEWORK_SINK_INVALID => 6
  | LAPLACE_FRAMEWORK_SINK_BEGIN_FAILED => 7
  | LAPLACE_FRAMEWORK_SINK_STAGE_FAILED => 8
  | LAPLACE_FRAMEWORK_SINK_SEAL_FAILED => 9
  | LAPLACE_FRAMEWORK_OVERFLOW => 10
  | LAPLACE_FRAMEWORK_EFFECT_NOT_AUTHORIZED => 11
  | LAPLACE_FRAMEWORK_ACTIVATION_REQUEST_INVALID => 12
  | LAPLACE_FRAMEWORK_ACTIVATION_PROVIDER_INVALID => 13
  | LAPLACE_FRAMEWORK_ACTIVATION_ADMISSION_FAILED => 14
  | LAPLACE_FRAMEWORK_ACTIVATION_COMMIT_FAILED => 15
  | LAPLACE_FRAMEWORK_PRODUCER_INVALID => 16
  | LAPLACE_FRAMEWORK_PRODUCER_PREPARE_FAILED => 17
  | LAPLACE_FRAMEWORK_PRODUCER_BATCH_FAILED => 18
  | LAPLACE_FRAMEWORK_PRODUCER_FINISH_FAILED => 19
  | LAPLACE_FRAMEWORK_PRODUCER_CANCELLED => 20
  | LAPLACE_FRAMEWORK_REPLAY_INVALID => 21
  | LAPLACE_FRAMEWORK_REPLAY_MISMATCH => 22
  end.

(** A sink: callbacks on the world [W] its state pointer gives access to. *)
Record laplace_framework_sink_v1 (W : Type) := mk_sink {
  sink_begin : ptr (W -> ptr laplace_framework_context -> Z -> Z -> Z ->
                    laplace_framework_status * W);
  sink_stage : ptr (W -> laplace_framework_canonical_batch -> laplace_framework_status * W);
  sink_seal : ptr (W -> laplace_digest256 -> laplace_digest256 ->
                   laplace_framework_status * laplace_digest256 * W);
  sink_abort : ptr (W -> W);
  abi_major : Z;
  abi_minor : Z;
  sink_flags : Z;
  sink_reserved : Z }.
Arguments mk_sink {W}.
Arguments sink_begin {W}. Arguments sink_stage {W}. Arguments sink_seal {W}.
Arguments sink_abort {W}. Arguments abi_major {W}. Arguments abi_minor {W}.
Arguments sink_flags {W}. Arguments sink_reserved {W}.

Record laplace_framework_sink_artifact_output := mk_artifact_output {
  artifact_fingerprints : ptr (list laplace_digest256);
  capacity : Z;
  count : Z;
  output_reserved : Z }.

Record laplace_framework_stream_receipt := mk_stream_receipt {
  receipt_id : laplace_digest256;
  context_fingerprint : laplace_digest256;
  source_fingerprint : laplace_digest256;
  recipe_fingerprint : laplace_digest256;
  stream_fingerprint : laplace_digest256;
  sink_artifacts_fingerprint : laplace_digest256;
  total_records : Z;
  total_bytes : Z;
  batch_count : Z;
  sink_count : Z;
  failed_batch_index : Z;
  failed_sink_index : Z;
  record_type : Z;
  effect_disposition : Z;
  status : laplace_framework_status;
  receipt_reserved : Z }.

(** ** Operation registry
    [OPERATIONS] is generated from [contracts/isa.json] and
    [LAPLACE_ISA_OPERATION_COUNT] with it. *)
Section Registry.
Variable OPERATIONS : list laplace_framework_operation_descriptor.
Variable LAPLACE_ISA_OPERATION_COUNT : Z.

Definition laplace_framework_operation_count : Z := Z.of_nat (length OPERATIONS).

Definition operation_at (index : Z) : laplace_framework_operation_descriptor :=
  default (mk_operation 0 0 0 0 0 0 0) (OPERATIONS !! Z.to_nat index).

Definition laplace_framework_operation_find (code : Z)
    : ptr laplace_framework_operation_descriptor :=
  let low := lower_bound (length OPERATIONS) (fun middle => opcode (operation_at middle) <? code)
               0 laplace_framework_operation_count in
  if (low <? laplace_framework_operation_count) && (opcode (operation_at low) =? code) then
    Some (operation_at low)
  else None.

Definition operation_invalid (index : Z) (operation : laplace_framework_operation_descriptor)
    : bool :=
  (opcode operation =? 0) || (module_id operation =? 0) || (input_type operation =? 0) ||
  (output_type operation =? 0) || (instruction_version operation =? 0) ||
  negb (operation_flags operation =? 0) ||
  (negb (index =? 0) && (opcode operation <=? opcode (operation_at (index - 1)))).

Definition laplace_framework_registry_validate : laplace_framework_status :=
  return_when negb (laplace_framework_operation_count =? LAPLACE_ISA_OPERATION_COUNT)
    with LAPLACE_FRAMEWORK_REGISTRY_INVALID ;;
  return_when existsb (fun index => operation_invalid (Z.of_nat index)
                                      (operation_at (Z.of_nat index)))
                (seq 0 (length OPERATIONS))
    with LAPLACE_FRAMEWORK_REGISTRY_INVALID ;;
  LAPLACE_FRAMEWORK_OK.
End Registry.

(** ** Context *)
Definition epoch_present (context : laplace_framework_context) (index : nat) : bool :=
  negb (Z.land (epoch_mask context) (Z.shiftl 1 (Z.of_nat index)) =? 0).

Definition epoch_at (context : laplace_framework_context) (index : nat) : laplace_digest256 :=
  default (zeros 32) (epochs context !! index).

(** [value & ~mask], on the 64-bit (or 32-bit) words it is used for. *)
Definition outside (value mask : Z) : Z := Z.land value (Z.lnot mask).

Definition laplace_framework_context_validate (context : ptr laplace_framework_context)
    : laplace_framework_status :=
  let known_epoch_mask := Z.shiftl 1 (Z.of_nat LAPLACE_FRAMEWORK_EPOCH_COUNT) - 1 in
  match context with
  | None => LAPLACE_FRAMEWORK_INVALID_ARGUMENT
  | Some context =>
      return_when negb (major context =? LAPLACE_FRAMEWORK_MAJOR) ||
                  (LAPLACE_FRAMEWORK_MINOR <? minor context)
        with LAPLACE_FRAMEWORK_UNSUPPORTED_VERSION ;;
      return_when negb (outside (context_flags context)
                          LAPLACE_FRAMEWORK_KNOWN_CONTEXT_FLAGS =? 0) ||
                  negb (context_reserved context =? 0) ||
                  negb (outside (epoch_mask context) known_epoch_mask =? 0) ||
                  (epoch_mask context =? 0) ||
                  (memory_bytes (resource_grant context) =? 0) ||
                  (cpu_slots (resource_grant context) =? 0)
        with LAPLACE_FRAMEWORK_CONTEXT_INVALID ;;
      return_when existsb (fun index => negb (epoch_present context index) &&
                                        negb (bytes_zero (epoch_at context index)))
                    (seq 0 LAPLACE_FRAMEWORK_EPOCH_COUNT)
        with LAPLACE_FRAMEWORK_CONTEXT_INVALID ;;
      LAPLACE_FRAMEWORK_OK
  end.

Section Fingerprints.
Context {B : Blake3}.

Definition hash_epoch (context : laplace_framework_context) (hasher : blake3_hasher)
    (index : nat) : blake3_hasher :=
  if epoch_present context index then
    blake3_hasher_update (hash_u32 hasher (Z.of_nat index)) (epoch_at context index)
  else hasher.

Definition hash_context (context : laplace_framework_context) : blake3_hasher :=
  let hasher := blake3_hasher_update blake3_hasher_init
                  (domain_bytes "laplace-framework-context-v1") in
  let hasher := hash_u16 hasher (major context) in
  let hasher := hash_u16 hasher (minor context) in
  let hasher := hash_u32 hasher (context_flags context) in
  let hasher := hash_u64 hasher (epoch_mask context) in
  let hasher := foldl (hash_epoch context) hasher (seq 0 LAPLACE_FRAMEWORK_EPOCH_COUNT) in
  let hasher := blake3_hasher_update hasher (authority_fingerprint context) in
  let hasher := hash_u64 hasher (memory_bytes (resource_grant context)) in
  let hasher := hash_u32 hasher (cpu_slots (resource_grant context)) in
  hash_u32 hasher (io_slots (resource_grant context)).

Definition laplace_framework_context_fingerprint (context : ptr laplace_framework_context)
    (fingerprint : ptr laplace_digest256)
    : laplace_framework_status * ptr laplace_digest256 :=
  return_when is_null fingerprint with (LAPLACE_FRAMEWORK_INVALID_ARGUMENT, fingerprint) ;;
  match laplace_framework_context_validate context, context with
  | LAPLACE_FRAMEWORK_OK, Some context =>
      (LAPLACE_FRAMEWORK_OK,
       store fingerprint (blake3_hasher_finalize (hash_context context)))
  | failed, _ => (failed, store fingerprint (zeros 32))
  end.

(** ** Canonical stream *)
Fixpoint validate_batches (batches : list laplace_framework_canonical_batch)
    (type records bytes : Z) : option (Z * Z) :=
  match batches with
  | [] => Some (records, bytes)
  | batch :: rest =>
      return_when is_null (canonical_bytes batch) || (byte_count batch =? 0) ||
                  (record_count batch =? 0) || negb (first_ordinal batch =? records) ||
                  negb (batch_record_type batch =? type) ||
                  negb (batch_flags batch =? LAPLACE_FRAMEWORK_KNOWN_BATCH_FLAGS) ||
                  (UINT64_MAX - records <? record_count batch) ||
                  (UINT64_MAX - bytes <? byte_count batch) || (SIZE_MAX <? byte_count batch)
        with None ;;
      validate_batches rest type (records + record_count batch) (bytes + byte_count batch)
  end.

Definition initialize_stream_hasher (record_type total_records total_bytes : Z)
    : blake3_hasher :=
  let hasher := blake3_hasher_update blake3_hasher_init
                  (domain_bytes "laplace-framework-canonical-stream-v1") in
  let hasher := hash_u32 hasher record_type in
  let hasher := hash_u64 hasher total_records in
  hash_u64 hasher total_bytes.

Definition batch_bytes (batch : laplace_framework_canonical_batch) : list Z :=
  cells (canonical_bytes batch) (byte_count batch).

Definition hash_batches (hasher : blake3_hasher)
    (batches : list laplace_framework_canonical_batch) : blake3_hasher :=
  foldl (fun hasher batch => blake3_hasher_update hasher (batch_bytes batch)) hasher batches.

Definition laplace_framework_canonical_stream_fingerprint
    (batches : ptr (list laplace_framework_canonical_batch)) (batch_count : Z)
    (fingerprint : ptr laplace_digest256) (record_type total_records total_bytes : ptr Z)
    : laplace_framework_status * ptr laplace_digest256 * ptr Z * ptr Z * ptr Z :=
  let failed status := (status, fingerprint, record_type, total_records, total_bytes) in
  return_when is_null batches || (batch_count =? 0) || is_null fingerprint ||
              is_null record_type || is_null total_records || is_null total_bytes
    with failed LAPLACE_FRAMEWORK_INVALID_ARGUMENT ;;
  let all := cells batches batch_count in
  let type := default 0 (batch_record_type <$> head all) in
  return_when type =? 0 with failed LAPLACE_FRAMEWORK_STREAM_INVALID ;;
  match validate_batches all type 0 0 with
  | None => failed LAPLACE_FRAMEWORK_STREAM_INVALID
  | Some (records, bytes) =>
      let hasher := hash_batches (initialize_stream_hasher type records bytes) all in
      (LAPLACE_FRAMEWORK_OK, store fingerprint (blake3_hasher_finalize hasher),
       store record_type type, store total_records records, store total_bytes bytes)
  end.

Definition laplace_framework_canonical_empty_stream_fingerprint (record_type : Z)
    (fingerprint : ptr laplace_digest256)
    : laplace_framework_status * ptr laplace_digest256 :=
  return_when (record_type =? 0) || is_null fingerprint
    with (LAPLACE_FRAMEWORK_INVALID_ARGUMENT, fingerprint) ;;
  (LAPLACE_FRAMEWORK_OK,
   store fingerprint (blake3_hasher_finalize (initialize_stream_hasher record_type 0 0))).
End Fingerprints.

(** ** Sinks *)
Section Sinks.
Context {B : Blake3} {W : Type}.
Implicit Types (sinks : list (laplace_framework_sink_v1 W)) (world : W).

Definition sink_valid (sink : laplace_framework_sink_v1 W) : bool :=
  negb (is_null (sink_begin sink) || is_null (sink_stage sink) || is_null (sink_seal sink) ||
        is_null (sink_abort sink) ||
        negb (abi_major sink =? LAPLACE_FRAMEWORK_SINK_ABI_MAJOR) ||
        (LAPLACE_FRAMEWORK_SINK_ABI_MINOR <? abi_minor sink) ||
        negb (sink_flags sink =? 0) || negb (sink_reserved sink =? 0)).

(** The index of the first invalid sink, counted from [sink_index]. *)
Fixpoint first_invalid_sink sinks (sink_index : Z) : option Z :=
  match sinks with
  | [] => None
  | sink :: rest =>
      if sink_valid sink then first_invalid_sink rest (sink_index + 1) else Some sink_index
  end.

Definition validate_sinks (sinks : ptr (list (laplace_framework_sink_v1 W))) (sink_count : Z)
    (failed_sink_index : Z) : laplace_framework_status * Z :=
  return_when is_null sinks || (sink_count =? 0)
    with (LAPLACE_FRAMEWORK_SINK_INVALID, failed_sink_index) ;;
  match first_invalid_sink (cells sinks sink_count) 0 with
  | Some sink_index => (LAPLACE_FRAMEWORK_SINK_INVALID, sink_index)
  | None => (LAPLACE_FRAMEWORK_OK, failed_sink_index)
  end.

(** [abort_sinks]: the first [count] sinks, in order. *)
Fixpoint abort_sinks sinks (count : nat) (world : W) : W :=
  match sinks, count with
  | sink :: rest, S count =>
      let world := match sink_abort sink with Some abort => abort world | None => world end in
      abort_sinks rest count world
  | _, _ => world
  end.

Definition clear_sink_artifact_output (output : ptr laplace_framework_sink_artifact_output)
    (sink_count : Z) : ptr laplace_framework_sink_artifact_output :=
  match output with
  | None => None
  | Some output =>
      let clear_count := Z.to_nat (Z.min (capacity output) sink_count) in
      Some {| artifact_fingerprints :=
                (fun fingerprints =>
                   if capacity output <=? SIZE_MAX then
                     replicate (clear_count `min` length fingerprints) (zeros 32) ++
                     drop clear_count fingerprints
                   else fingerprints) <$> artifact_fingerprints output;
              capacity := capacity output;
              count := 0;
              output_reserved := output_reserved output |}
  end.

Definition prepare_sink_artifact_output
    (output : ptr laplace_framework_sink_artifact_output) (sink_count : Z) (required : bool)
    : laplace_framework_status * ptr laplace_framework_sink_artifact_output :=
  match output with
  | None =>
      (if required then LAPLACE_FRAMEWORK_INVALID_ARGUMENT else LAPLACE_FRAMEWORK_OK, None)
  | Some out =>
      return_when is_null (artifact_fingerprints out) || (capacity out <? sink_count) ||
                  (SIZE_MAX <? capacity out) || (SIZE_MAX / 32 <? sink_count) ||
                  negb (output_reserved out =? 0)
        with (LAPLACE_FRAMEWORK_INVALID_ARGUMENT,
              clear_sink_artifact_output output sink_count) ;;
      (LAPLACE_FRAMEWORK_OK, clear_sink_artifact_output output sink_count)
  end.

(** [artifact_output->artifact_fingerprints[sink_index] = artifact] *)
Definition store_artifact (output : ptr laplace_framework_sink_artifact_output)
    (sink_index : nat) (artifact : laplace_digest256)
    : ptr laplace_framework_sink_artifact_output :=
  match output with
  | None => None
  | Some out =>
      Some (mk_artifact_output (<[sink_index := artifact]> <$> artifact_fingerprints out)
              (capacity out) (count out) (output_reserved out))
  end.

Definition store_artifact_count (output : ptr laplace_framework_sink_artifact_output)
    (sink_count : Z) : ptr laplace_framework_sink_artifact_output :=
  match output with
  | None => None
  | Some out =>
      Some (mk_artifact_output (artifact_fingerprints out) (capacity out) sink_count
              (output_reserved out))
  end.

Definition initialize_sink_artifact_hasher (artifact_count : Z) : blake3_hasher :=
  hash_u64 (blake3_hasher_update blake3_hasher_init
              (domain_bytes "laplace-framework-sink-artifacts-v1")) artifact_count.

Definition update_sink_artifact_hasher (hasher : blake3_hasher) (artifact_index : Z)
    (artifact_fingerprint : laplace_digest256) : blake3_hasher :=
  blake3_hasher_update (hash_u64 hasher artifact_index) artifact_fingerprint.

(** A callback through a NULL function pointer: never reached, the sinks have
    been validated. *)
Fixpoint begin_sinks_from sinks (sink_index : nat) (context : ptr laplace_framework_context)
    (record_type total_records total_bytes : Z) (failed_sink_index : Z) (world : W)
    : laplace_framework_status * nat * Z * W :=
  match sinks with
  | [] => (LAPLACE_FRAMEWORK_OK, sink_index, failed_sink_index, world)
  | sink :: rest =>
      let '(status, world) :=
        match sink_begin sink with
        | Some begin => begin world context record_type total_records total_bytes
        | None => (LAPLACE_FRAMEWORK_OK, world)
        end in
      match status with
      | LAPLACE_FRAMEWORK_OK =>
          begin_sinks_from rest (S sink_index) context record_type total_records total_bytes
            failed_sink_index world
      | _ => (LAPLACE_FRAMEWORK_SINK_BEGIN_FAILED, S sink_index, Z.of_nat sink_index, world)
      end
  end.
Definition begin_sinks sinks := begin_sinks_from sinks 0.

Fixpoint stage_batch_from sinks (sink_index : nat) (batch : laplace_framework_canonical_batch)
    (batch_index : Z) (failed_batch_index failed_sink_index : Z) (world : W)
    : laplace_framework_status * Z * Z * W :=
  match sinks with
  | [] => (LAPLACE_FRAMEWORK_OK, failed_batch_index, failed_sink_index, world)
  | sink :: rest =>
      let '(status, world) :=
        match sink_stage sink with
        | Some stage => stage world batch
        | None => (LAPLACE_FRAMEWORK_OK, world)
        end in
      match status with
      | LAPLACE_FRAMEWORK_OK =>
          stage_batch_from rest (S sink_index) batch batch_index failed_batch_index
            failed_sink_index world
      | _ => (LAPLACE_FRAMEWORK_SINK_STAGE_FAILED, batch_index, Z.of_nat sink_index, world)
      end
  end.
Definition stage_batch_to_sinks sinks := stage_batch_from sinks 0.

(** The loop over the batches in [stage_canonical_stream_impl]. *)
Fixpoint stage_batches_from sinks (batches : list laplace_framework_canonical_batch)
    (batch_index : nat) (failed_batch_index failed_sink_index : Z) (world : W)
    : laplace_framework_status * Z * Z * W :=
  match batches with
  | [] => (LAPLACE_FRAMEWORK_OK, failed_batch_index, failed_sink_index, world)
  | batch :: rest =>
      match stage_batch_to_sinks sinks batch (Z.of_nat batch_index) failed_batch_index
              failed_sink_index world with
      | (LAPLACE_FRAMEWORK_OK, failed_batch_index, failed_sink_index, world) =>
          stage_batches_from sinks rest (S batch_index) failed_batch_index failed_sink_index
            world
      | failed => failed
      end
  end.

Fixpoint seal_sinks_from sinks (sink_index : nat) (stream_fingerprint : laplace_digest256)
    (artifact_hasher : blake3_hasher)
    (artifact_output : ptr laplace_framework_sink_artifact_output) (world : W)
    : laplace_framework_status * nat * blake3_hasher *
      ptr laplace_framework_sink_artifact_output * W :=
  match sinks with
  | [] => (LAPLACE_FRAMEWORK_OK, sink_index, artifact_hasher, artifact_output, world)
  | sink :: rest =>
      let '(status, artifact, world) :=
        match sink_seal sink with
        | Some seal => seal world stream_fingerprint (zeros 32)
        | None => (LAPLACE_FRAMEWORK_OK, zeros 32, world)
        end in
      match status with
      | LAPLACE_FRAMEWORK_OK =>
          seal_sinks_from rest (S sink_index) stream_fingerprint
            (update_sink_artifact_hasher artifact_hasher (Z.of_nat sink_index) artifact)
            (store_artifact artifact_output sink_index artifact) world
      | _ => (LAPLACE_FRAMEWORK_SINK_SEAL_FAILED, sink_index, artifact_hasher,
              artifact_output, world)
      end
  end.

Definition seal_sinks sinks (stream_fingerprint artifacts_fingerprint : laplace_digest256)
    (artifact_output : ptr laplace_framework_sink_artifact_output) (failed_sink_index : Z)
    (world : W)
    : laplace_framework_status * laplace_digest256 *
      ptr laplace_framework_sink_artifact_output * Z * W :=
  let sink_count := Z.of_nat (length sinks) in
  match seal_sinks_from sinks 0 stream_fingerprint (initialize_sink_artifact_hasher sink_count)
          artifact_output world with
  | (LAPLACE_FRAMEWORK_OK, _, artifact_hasher, artifact_output, world) =>
      (LAPLACE_FRAMEWORK_OK, blake3_hasher_finalize artifact_hasher,
       store_artifact_count artifact_output sink_count, failed_sink_index, world)
  | (failed, sink_index, _, artifact_output, world) =>
      (failed, artifacts_fingerprint, clear_sink_artifact_output artifact_output sink_count,
       Z.of_nat sink_index, world)
  end.

Fixpoint hash_artifacts (hasher : blake3_hasher) (artifact_index : Z)
    (artifacts : list laplace_digest256) : blake3_hasher :=
  match artifacts with
  | [] => hasher
  | artifact :: rest =>
      hash_artifacts (update_sink_artifact_hasher hasher artifact_index artifact)
        (artifact_index + 1) rest
  end.

Definition laplace_framework_sink_artifacts_fingerprint
    (artifacts : ptr (list laplace_digest256)) (artifact_count : Z)
    (aggregate_fingerprint : ptr laplace_digest256)
    : laplace_framework_status * ptr laplace_digest256 :=
  return_when is_null artifacts || (artifact_count =? 0) || is_null aggregate_fingerprint
    with (LAPLACE_FRAMEWORK_INVALID_ARGUMENT, aggregate_fingerprint) ;;
  (LAPLACE_FRAMEWORK_OK,
   store aggregate_fingerprint
     (blake3_hasher_finalize
        (hash_artifacts (initialize_sink_artifact_hasher artifact_count) 0
           (cells artifacts artifact_count)))).
End Sinks.

(** ** Stream receipts *)
Section Receipts.
Context {B : Blake3}.

Definition hash_receipt_payload (receipt : laplace_framework_stream_receipt)
    : blake3_hasher :=
  let hasher := blake3_hasher_update blake3_hasher_init
                  (domain_bytes "laplace-framework-stream-receipt-v1") in
  let hasher := hash_u32 hasher (status_value (status receipt)) in
  let hasher := hash_u32 hasher (record_type receipt) in
  let hasher := hash_u32 hasher (effect_disposition receipt) in
  let hasher := hash_u64 hasher (total_records receipt) in
  let hasher := hash_u64 hasher (total_bytes receipt) in
  let hasher := hash_u64 hasher (batch_count receipt) in
  let hasher := hash_u64 hasher (sink_count receipt) in
  let hasher := hash_u64 hasher (failed_batch_index receipt) in
  let hasher := hash_u64 hasher (failed_sink_index receipt) in
  let hasher := blake3_hasher_update hasher (context_fingerprint receipt) in
  let hasher := blake3_hasher_update hasher (source_fingerprint receipt) in
  let hasher := blake3_hasher_update hasher (recipe_fingerprint receipt) in
  let hasher := blake3_hasher_update hasher (stream_fingerprint receipt) in
  blake3_hasher_update hasher (sink_artifacts_fingerprint receipt).

Definition set_receipt_id (id : laplace_digest256) (r : laplace_framework_stream_receipt) :=
  mk_stream_receipt id (context_fingerprint r) (source_fingerprint r) (recipe_fingerprint r)
    (stream_fingerprint r) (sink_artifacts_fingerprint r) (total_records r) (total_bytes r)
    (batch_count r) (sink_count r) (failed_batch_index r) (failed_sink_index r)
    (record_type r) (effect_disposition r) (status r) (receipt_reserved r).

Definition hash_stream_receipt (receipt : laplace_framework_stream_receipt)
    : laplace_framework_stream_receipt :=
  set_receipt_id (blake3_hasher_finalize (hash_receipt_payload receipt)) receipt.

Definition stream_receipt_is_valid (receipt : ptr laplace_framework_stream_receipt) : bool :=
  match receipt with
  | None => false
  | Some receipt =>
      return_when negb (bool_decide (status receipt = LAPLACE_FRAMEWORK_OK)) ||
                  negb (effect_disposition receipt =? LAPLACE_FRAMEWORK_EFFECT_STAGED_INERT) ||
                  negb (receipt_reserved receipt =? 0) || (record_type receipt =? 0) ||
                  (total_records receipt =? 0) || (total_bytes receipt =? 0) ||
                  (batch_count receipt =? 0) || (sink_count receipt =? 0) ||
                  negb (failed_batch_index receipt =? LAPLACE_FRAMEWORK_NO_INDEX) ||
                  negb (failed_sink_index receipt =? LAPLACE_FRAMEWORK_NO_INDEX)
        with false ;;
      bytes_equal (receipt_id receipt) (receipt_id (hash_stream_receipt receipt))
  end.

Definition laplace_framework_stream_receipt_identity_validate
    (receipt : ptr laplace_framework_stream_receipt) : laplace_framework_status :=
  if stream_receipt_is_valid receipt then LAPLACE_FRAMEWORK_OK
  else LAPLACE_FRAMEWORK_STREAM_INVALID.

Definition laplace_framework_stream_receipt_validate
    (context : ptr laplace_framework_context) (receipt : ptr laplace_framework_stream_receipt)
    : laplace_framework_status :=
  match laplace_framework_context_fingerprint context (Some (zeros 32)) with
  | (LAPLACE_FRAMEWORK_OK, fingerprint) =>
      return_when negb (stream_receipt_is_valid receipt) ||
                  negb (bytes_equal (default [] fingerprint)
                          (default [] (context_fingerprint <$> receipt)))
        with LAPLACE_FRAMEWORK_STREAM_INVALID ;;
      LAPLACE_FRAMEWORK_OK
  | (failed, _) => failed
  end.
End Receipts.

(** ** Staging a canonical stream *)
Section Staging.
Context {B : Blake3} {W : Type}.

(** The receipt as it stands at the assignments of [stage_canonical_stream_impl]. *)
Definition initial_receipt (sink_count : Z) : laplace_framework_stream_receipt :=
  mk_stream_receipt (zeros 32) (zeros 32) (zeros 32) (zeros 32) (zeros 32) (zeros 32)
    0 0 0 sink_count LAPLACE_FRAMEWORK_NO_INDEX LAPLACE_FRAMEWORK_NO_INDEX 0 0
    LAPLACE_FRAMEWORK_OK 0.

Definition set_context (fingerprint : laplace_digest256) (r : laplace_framework_stream_receipt) :=
  mk_stream_receipt (receipt_id r) fingerprint (source_fingerprint r) (recipe_fingerprint r)
    (stream_fingerprint r) (sink_artifacts_fingerprint r) (total_records r) (total_bytes r)
    (batch_count r) (sink_count r) (failed_batch_index r) (failed_sink_index r)
    (record_type r) (effect_disposition r) (status r) (receipt_reserved r).

Definition set_stream (batches : Z) (source recipe : laplace_digest256)
    (r : laplace_framework_stream_receipt) :=
  mk_stream_receipt (receipt_id r) (context_fingerprint r) source recipe
    (stream_fingerprint r) (sink_artifacts_fingerprint r) (total_records r) (total_bytes r)
    batches (sink_count r) (failed_batch_index r) (failed_sink_index r)
    (record_type r) (effect_disposition r) (status r) (receipt_reserved r).

Definition set_totals (fingerprint : laplace_digest256) (type records bytes : Z)
    (r : laplace_framework_stream_receipt) :=
  mk_stream_receipt (receipt_id r) (context_fingerprint r) (source_fingerprint r)
    (recipe_fingerprint r) fingerprint (sink_artifacts_fingerprint r) records bytes
    (batch_count r) (sink_count r) (failed_batch_index r) (failed_sink_index r)
    type (effect_disposition r) (status r) (receipt_reserved r).

Definition set_failed (batch_index sink_index : Z) (r : laplace_framework_stream_receipt) :=
  mk_stream_receipt (receipt_id r) (context_fingerprint r) (source_fingerprint r)
    (recipe_fingerprint r) (stream_fingerprint r) (sink_artifacts_fingerprint r)
    (total_records r) (total_bytes r) (batch_count r) (sink_count r) batch_index sink_index
    (record_type r) (effect_disposition r) (status r) (receipt_reserved r).

Definition set_artifacts (artifacts : laplace_digest256) (r : laplace_framework_stream_receipt) :=
  mk_stream_receipt (receipt_id r) (context_fingerprint r) (source_fingerprint r)
    (recipe_fingerprint r) (stream_fingerprint r) artifacts
    (total_records r) (total_bytes r) (batch_count r) (sink_count r) (failed_batch_index r)
    (failed_sink_index r) (record_type r) (effect_disposition r) (status r)
    (receipt_reserved r).

(** [receipt->status = s; hash_stream_receipt(receipt)], with the disposition. *)
Definition finish_receipt (s : laplace_framework_status) (effect : Z)
    (r : laplace_framework_stream_receipt) : laplace_framework_stream_receipt :=
  hash_stream_receipt
    (mk_stream_receipt (receipt_id r) (context_fingerprint r) (source_fingerprint r)
       (recipe_fingerprint r) (stream_fingerprint r) (sink_artifacts_fingerprint r)
       (total_records r) (total_bytes r) (batch_count r) (sink_count r)
       (failed_batch_index r) (failed_sink_index r) (record_type r) effect s
       (receipt_reserved r)).

(** The part that calls the sinks, from [begin_sinks] on. *)
Definition stage_to_sinks (context : ptr laplace_framework_context)
    (batches : list laplace_framework_canonical_batch)
    (sinks : list (laplace_framework_sink_v1 W))
    (artifact_output : ptr laplace_framework_sink_artifact_output)
    (receipt : laplace_framework_stream_receipt) (world : W)
    : laplace_framework_status * ptr laplace_framework_sink_artifact_output *
      laplace_framework_stream_receipt * W :=
  match begin_sinks sinks context (record_type receipt) (total_records receipt)
          (total_bytes receipt) (failed_sink_index receipt) world with
  | (LAPLACE_FRAMEWORK_OK, begun, failed_sink, world) =>
      match stage_batches_from sinks batches 0 (failed_batch_index receipt) failed_sink
              world with
      | (LAPLACE_FRAMEWORK_OK, failed_batch, failed_sink, world) =>
          match seal_sinks sinks (stream_fingerprint receipt)
                  (sink_artifacts_fingerprint receipt) artifact_output failed_sink world with
          | (LAPLACE_FRAMEWORK_OK, artifacts, artifact_output, failed_sink, world) =>
              (LAPLACE_FRAMEWORK_OK, artifact_output,
               finish_receipt LAPLACE_FRAMEWORK_OK LAPLACE_FRAMEWORK_EFFECT_STAGED_INERT
                 (set_artifacts artifacts (set_failed failed_batch failed_sink receipt)),
               world)
          | (failed, artifacts, artifact_output, failed_sink, world) =>
              (failed, artifact_output,
               finish_receipt failed 0
                 (set_artifacts artifacts (set_failed failed_batch failed_sink receipt)),
               abort_sinks sinks begun world)
          end
      | (failed, failed_batch, failed_sink, world) =>
          (failed, artifact_output,
           finish_receipt failed 0 (set_failed failed_batch failed_sink receipt),
           abort_sinks sinks begun world)
      end
  | (failed, begun, failed_sink, world) =>
      (failed, artifact_output,
       finish_receipt failed 0 (set_failed (failed_batch_index receipt) failed_sink receipt),
       abort_sinks sinks begun world)
  end.

Definition stream_header_invalid (stream : ptr laplace_framework_canonical_stream) : bool :=
  match stream with
  | None => true
  | Some stream =>
      is_null (batches stream) || (stream_batch_count stream =? 0) ||
      (SIZE_MAX <? stream_batch_count stream) ||
      negb (stream_flags stream =? LAPLACE_FRAMEWORK_KNOWN_STREAM_FLAGS) ||
      negb (stream_reserved stream =? 0)
  end.

(** From the stream fingerprint on; [stream] has a valid header. *)
Definition stage_stream (context : ptr laplace_framework_context)
    (stream : laplace_framework_canonical_stream)
    (sinks : ptr (list (laplace_framework_sink_v1 W))) (sinks_count : Z)
    (artifact_output : ptr laplace_framework_sink_artifact_output)
    (receipt : laplace_framework_stream_receipt) (world : W)
    : laplace_framework_status * ptr laplace_framework_sink_artifact_output *
      laplace_framework_stream_receipt * W :=
  match laplace_framework_canonical_stream_fingerprint (batches stream)
          (stream_batch_count stream) (Some (stream_fingerprint receipt))
          (Some (record_type receipt)) (Some (total_records receipt))
          (Some (total_bytes receipt)) with
  | (LAPLACE_FRAMEWORK_OK, Some fingerprint, Some type, Some records, Some bytes) =>
      let receipt := set_totals fingerprint type records bytes receipt in
      match validate_sinks sinks sinks_count (failed_sink_index receipt) with
      | (LAPLACE_FRAMEWORK_OK, _) =>
          stage_to_sinks context (cells (batches stream) (stream_batch_count stream))
            (cells sinks sinks_count) artifact_output receipt world
      | (failed, failed_sink) =>
          (failed, artifact_output,
           finish_receipt failed 0 (set_failed (failed_batch_index receipt) failed_sink receipt),
           world)
      end
  | (failed, _, _, _, _) => (failed, artifact_output, finish_receipt failed 0 receipt, world)
  end.

Definition stage_canonical_stream_impl (context : ptr laplace_framework_context)
    (stream : ptr laplace_framework_canonical_stream)
    (sinks : ptr (list (laplace_framework_sink_v1 W))) (sinks_count : Z)
    (artifact_output : ptr laplace_framework_sink_artifact_output)
    (artifact_output_required : bool) (receipt : ptr laplace_framework_stream_receipt)
    (world : W)
    : laplace_framework_status * ptr laplace_framework_sink_artifact_output *
      ptr laplace_framework_stream_receipt * W :=
  return_when is_null receipt
    with (LAPLACE_FRAMEWORK_INVALID_ARGUMENT, artifact_output, receipt, world) ;;
  let current := initial_receipt sinks_count in
  match prepare_sink_artifact_output artifact_output sinks_count artifact_output_required with
  | (LAPLACE_FRAMEWORK_OK, artifact_output) =>
      match laplace_framework_context_fingerprint context
              (Some (context_fingerprint current)) with
      | (LAPLACE_FRAMEWORK_OK, Some fingerprint) =>
          let current := set_context fingerprint current in
          match stream_header_invalid stream, stream with
          | false, Some stream =>
              let current :=
                set_stream (stream_batch_count stream) (stream_source_fingerprint stream)
                  (stream_recipe_fingerprint stream) current in
              let '(result, artifact_output, current, world) :=
                stage_stream context stream sinks sinks_count artifact_output current world in
              (result, artifact_output, Some current, world)
          | _, _ =>
              (LAPLACE_FRAMEWORK_STREAM_INVALID, artifact_output,
               Some (finish_receipt LAPLACE_FRAMEWORK_STREAM_INVALID 0 current), world)
          end
      | (failed, fingerprint) =>
          (failed, artifact_output,
           Some (finish_receipt failed 0
                   (set_context (default (zeros 32) fingerprint) current)), world)
      end
  | (failed, artifact_output) =>
      (failed, artifact_output, Some (finish_receipt failed 0 current), world)
  end.

Definition laplace_framework_stage_canonical_stream (context : ptr laplace_framework_context)
    (stream : ptr laplace_framework_canonical_stream)
    (sinks : ptr (list (laplace_framework_sink_v1 W))) (sinks_count : Z)
    (receipt : ptr laplace_framework_stream_receipt) (world : W)
    : laplace_framework_status * ptr laplace_framework_stream_receipt * W :=
  let '(result, _, receipt, world) :=
    stage_canonical_stream_impl context stream sinks sinks_count None false receipt world in
  (result, receipt, world).

Definition laplace_framework_stage_canonical_stream_with_artifacts
    (context : ptr laplace_framework_context)
    (stream : ptr laplace_framework_canonical_stream)
    (sinks : ptr (list (laplace_framework_sink_v1 W))) (sinks_count : Z)
    (artifact_output : ptr laplace_framework_sink_artifact_output)
    (receipt : ptr laplace_framework_stream_receipt) (world : W) :=
  stage_canonical_stream_impl context stream sinks sinks_count artifact_output true receipt
    world.
End Staging.

(** ** Instrumented sinks
    [traced] logs every call a sink receives, with its index and arguments,
    next to what the sink itself does; [record] embeds these events in those of
    the log, which other callbacks may share. *)
Inductive sink_event :=
| Begin (index : nat) (record_type total_records total_bytes : Z)
| Stage (batch : laplace_framework_canonical_batch) (index : nat)
| Seal (fingerprint : laplace_digest256) (index : nat)
| Aborted (index : nat).

Definition traced {W E} (record : sink_event -> E) (index : nat)
    (sink : laplace_framework_sink_v1 W) : laplace_framework_sink_v1 (W * list E) := {|
  sink_begin := (fun begin '(w, log) context type records bytes =>
    let '(s, w) := begin w context type records bytes in
    (s, (w, log ++ [record (Begin index type records bytes)]))) <$> sink_begin sink;
  sink_stage := (fun stage '(w, log) batch =>
    let '(s, w) := stage w batch in (s, (w, log ++ [record (Stage batch index)]))) <$> sink_stage sink;
  sink_seal := (fun seal '(w, log) fingerprint artifact =>
    let '(s, artifact, w) := seal w fingerprint artifact in
    (s, artifact, (w, log ++ [record (Seal fingerprint index)]))) <$> sink_seal sink;
  sink_abort := (fun abort '(w, log) => (abort w, log ++ [record (Aborted index)])) <$> sink_abort sink;
  abi_major := abi_major sink;
  abi_minor := abi_minor sink;
  sink_flags := sink_flags sink;
  sink_reserved := sink_reserved sink |}.

Fixpoint traced_from {W E} (record : sink_event -> E) (index : nat)
    (sinks : list (laplace_framework_sink_v1 W)) :=
  match sinks with
  | [] => []
  | sink :: rest => traced record index sink :: traced_from record (S index) rest
  end.

(** Every batch handed to each of [n] sinks. *)
Definition staged_events (n : nat) (batches : list laplace_framework_canonical_batch) :=
  concat (map (fun batch => map (Stage batch) (seq 0 n)) batches).

Definition begin_events (n : nat) (type records bytes : Z) :=
  map (fun index => Begin index type records bytes) (seq 0 n).

(** The calls [n] sinks may receive when staging [batches] ends with [result]
    and the receipt [r]. *)
Definition staging_protocol (n : nat) (batches : list laplace_framework_canonical_batch)
    (result : laplace_framework_status) (r : laplace_framework_stream_receipt)
    (log : list sink_event) : Prop :=
  let begun k := begin_events k (record_type r) (total_records r) (total_bytes r) in
  let sealed k := map (Seal (stream_fingerprint r)) (seq 0 k) in
  let aborted k := map Aborted (seq 0 k) in
  match result with
  | LAPLACE_FRAMEWORK_OK => log = begun n ++ staged_events n batches ++ sealed n
  | LAPLACE_FRAMEWORK_SINK_BEGIN_FAILED =>
      exists k, (k < n)%nat /\ failed_sink_index r = Z.of_nat k /\
        log = begun (S k) ++ aborted (S k)
  | LAPLACE_FRAMEWORK_SINK_STAGE_FAILED =>
      exists j batch k, batches !! j = Some batch /\ (k < n)%nat /\
        failed_batch_index r = Z.of_nat j /\ failed_sink_index r = Z.of_nat k /\
        log = begun n ++ staged_events n (take j batches) ++
              map (Stage batch) (seq 0 (S k)) ++ aborted n
  | LAPLACE_FRAMEWORK_SINK_SEAL_FAILED =>
      exists k, (k < n)%nat /\ failed_sink_index r = Z.of_nat k /\
        log = begun n ++ staged_events n batches ++ sealed (S k) ++ aborted n
  | _ => log = []
  end.

(** ** Lemmas: the loops over the sinks *)
Section SinkLoops.
Context {B : Blake3} {W E : Type}.
Variable record : sink_event -> E.
Implicit Types (sinks : list (laplace_framework_sink_v1 W)) (log : list E).

Lemma sink_valid_callbacks (sink : laplace_framework_sink_v1 W) :
  sink_valid sink = true ->
  exists b t s a, sink_begin sink = Some b /\ sink_stage sink = Some t /\
    sink_seal sink = Some s /\ sink_abort sink = Some a.
Proof.
  unfold sink_valid. destruct (sink_begin sink), (sink_stage sink), (sink_seal sink),
    (sink_abort sink); simpl; naive_solver.
Qed.

Lemma begin_traced sinks context type records bytes failed : forall k w log,
  Forall (fun s => sink_valid s = true) sinks ->
  let '(s, begun, f, w') := begin_sinks_from sinks k context type records bytes failed w in
  begin_sinks_from (traced_from record k sinks) k context type records bytes failed (w, log) =
    (s, begun, f,
     (w', log ++ map record (map (fun i => Begin i type records bytes) (seq k (begun - k))))) /\
  match s with
  | LAPLACE_FRAMEWORK_OK => begun = (k + length sinks)%nat /\ f = failed
  | LAPLACE_FRAMEWORK_SINK_BEGIN_FAILED =>
      exists j, begun = S j /\ f = Z.of_nat j /\ (k <= j < k + length sinks)%nat
  | _ => False
  end.
Proof.
  induction sinks as [|sink sinks IH]; intros k w log Hv; cbn [begin_sinks_from traced_from].
  { simpl. rewrite Nat.sub_diag, app_nil_r. split_and!; done || lia. }
  apply Forall_cons in Hv as [Hsink Hv].
  destruct (sink_valid_callbacks sink Hsink) as (b & t & s & a & Eb & _).
  cbn [traced sink_begin]. rewrite Eb. cbn [fmap option_fmap option_map].
  destruct (b w context type records bytes) as [st w1].
  destruct st; try (split; [do 2 f_equal; replace (S k - k)%nat with 1%nat by lia; done
                           | exists k; simpl; lia]).
  specialize (IH (S k) w1 (log ++ [record (Begin k type records bytes)]) Hv).
  destruct (begin_sinks_from sinks (S k) context type records bytes failed w1)
    as [[[s' begun] f] w'].
  destruct IH as [-> Hs]. split.
  - do 2 f_equal. rewrite <- app_assoc. f_equal.
    assert (S k <= begun)%nat as Hle.
    { destruct s'; try done; [lia|]. destruct Hs as (j & -> & _ & ?). lia. }
    replace (begun - k)%nat with (S (begun - S k)) by lia. done.
  - destruct s'; try done; simpl; [lia|]. destruct Hs as (j & -> & -> & ?).
    exists j. lia.
Qed.

Lemma stage_batch_traced sinks batch bi fb fs : forall k w log,
  Forall (fun s => sink_valid s = true) sinks ->
  let '(s, fb', fs', w') := stage_batch_from sinks k batch bi fb fs w in
  exists m,
  stage_batch_from (traced_from record k sinks) k batch bi fb fs (w, log) =
    (s, fb', fs', (w', log ++ map record (map (Stage batch) (seq k m)))) /\
  match s with
  | LAPLACE_FRAMEWORK_OK => m = length sinks /\ fb' = fb /\ fs' = fs
  | LAPLACE_FRAMEWORK_SINK_STAGE_FAILED =>
      exists j, m = S j /\ fb' = bi /\ fs' = Z.of_nat (k + j) /\ (j < length sinks)%nat
  | _ => False
  end.
Proof.
  induction sinks as [|sink sinks IH]; intros k w log Hv; cbn [stage_batch_from traced_from].
  { exists 0%nat. simpl. rewrite app_nil_r. done. }
  apply Forall_cons in Hv as [Hsink Hv].
  destruct (sink_valid_callbacks sink Hsink) as (b & t & s & a & _ & Et & _).
  cbn [traced sink_stage]. rewrite Et. cbn [fmap option_fmap option_map].
  destruct (t w batch) as [st w1].
  destruct st; try (exists 1%nat; split; [done | exists 0%nat; simpl; split_and!; done || lia]).
  specialize (IH (S k) w1 (log ++ [record (Stage batch k)]) Hv).
  destruct (stage_batch_from sinks (S k) batch bi fb fs w1) as [[[s' fb'] fs'] w'].
  destruct IH as (m & -> & Hs). exists (S m). split.
  - do 2 f_equal. rewrite <- app_assoc. done.
  - destruct s'; try done; simpl; [lia|]. destruct Hs as (j & -> & -> & -> & ?).
    exists (S j). split_and!; lia || done.
Qed.

Lemma stage_batches_traced sinks batches : forall k fb fs w log,
  Forall (fun s => sink_valid s = true) sinks ->
  let '(s, fb', fs', w') := stage_batches_from sinks batches k fb fs w in
  exists events,
  stage_batches_from (traced_from record 0 sinks) batches k fb fs (w, log) =
    (s, fb', fs', (w', log ++ map record events)) /\
  match s with
  | LAPLACE_FRAMEWORK_OK =>
      events = staged_events (length sinks) batches /\ fb' = fb /\ fs' = fs
  | LAPLACE_FRAMEWORK_SINK_STAGE_FAILED =>
      exists j batch i, batches !! j = Some batch /\ fb' = Z.of_nat (k + j) /\
        fs' = Z.of_nat i /\ (i < length sinks)%nat /\
        events = staged_events (length sinks) (take j batches) ++
                 map (Stage batch) (seq 0 (S i))
  | _ => False
  end.
Proof.
  induction batches as [|batch batches IH]; intros k fb fs w log Hv;
    cbn [stage_batches_from].
  { exists []. rewrite app_nil_r. done. }
  unfold stage_batch_to_sinks.
  pose proof (stage_batch_traced sinks batch (Z.of_nat k) fb fs 0 w log Hv) as Hone.
  destruct (stage_batch_from sinks 0 batch (Z.of_nat k) fb fs w) as [[[s fb1] fs1] w1].
  destruct Hone as (m & -> & Hs). destruct s; try done.
  - destruct Hs as (-> & -> & ->).
    specialize (IH (S k) fb fs w1
      (log ++ map record (map (Stage batch) (seq 0 (length sinks)))) Hv).
    destruct (stage_batches_from sinks batches (S k) fb fs w1) as [[[s fb'] fs'] w'].
    destruct IH as (events & -> & Hs).
    exists (map (Stage batch) (seq 0 (length sinks)) ++ events).
    split; [by rewrite map_app, <- app_assoc|]. destruct s; try done.
    + destruct Hs as (-> & ? & ?). done.
    + destruct Hs as (j & b & i & ? & -> & -> & ? & ->). exists (S j), b, i.
      split_and!; [done | lia | done | done |]. simpl. unfold staged_events. simpl.
      by rewrite <- app_assoc.
  - destruct Hs as (j & -> & -> & -> & ?). exists (map (Stage batch) (seq 0 (S j))).
    split; [done|]. exists 0%nat, batch, j. rewrite Nat.add_0_r. done.
Qed.
End SinkLoops.

Section SealLoops.
Context {B : Blake3} {W E : Type}.
Variable record : sink_event -> E.
Implicit Types (sinks : list (laplace_framework_sink_v1 W)) (log : list E).

Lemma seal_traced sinks fp : forall k h out w log,
  Forall (fun s => sink_valid s = true) sinks ->
  let '(s, i, h', out', w') := seal_sinks_from sinks k fp h out w in
  exists m,
  seal_sinks_from (traced_from record k sinks) k fp h out (w, log) =
    (s, i, h', out', (w', log ++ map record (map (Seal fp) (seq k m)))) /\
  match s with
  | LAPLACE_FRAMEWORK_OK => m = length sinks
  | LAPLACE_FRAMEWORK_SINK_SEAL_FAILED =>
      exists j, m = S j /\ i = (k + j)%nat /\ (j < length sinks)%nat
  | _ => False
  end.
Proof.
  induction sinks as [|sink sinks IH]; intros k h out w log Hv;
    cbn [seal_sinks_from traced_from].
  { exists 0%nat. simpl. rewrite app_nil_r. done. }
  apply Forall_cons in Hv as [Hsink Hv].
  destruct (sink_valid_callbacks sink Hsink) as (b & t & s & a & _ & _ & Es & _).
  cbn [traced sink_seal]. rewrite Es. cbn [fmap option_fmap option_map].
  destruct (s w fp (zeros 32)) as [[st artifact] w1].
  destruct st; try (exists 1%nat; split; [done | exists 0%nat; simpl; split_and!; done || lia]).
  specialize (IH (S k) (update_sink_artifact_hasher h (Z.of_nat k) artifact)
                (store_artifact out k artifact) w1 (log ++ [record (Seal fp k)]) Hv).
  destruct (seal_sinks_from sinks (S k) fp _ _ w1) as [[[[s' i] h'] out'] w'].
  destruct IH as (m & -> & Hs). exists (S m). split; [by rewrite <- app_assoc|].
  destruct s'; try done; simpl; [lia|]. destruct Hs as (j & -> & -> & ?).
  exists (S j). lia.
Qed.

Lemma abort_traced sinks : forall k n w log,
  Forall (fun s => sink_valid s = true) sinks -> (n <= length sinks)%nat ->
  abort_sinks (traced_from record k sinks) n (w, log) =
    (abort_sinks sinks n w, log ++ map record (map Aborted (seq k n))).
Proof.
  induction sinks as [|sink sinks IH]; intros k [|n] w log Hv Hn; simpl in Hn;
    try lia; cbn [abort_sinks traced_from seq map]; try by rewrite app_nil_r.
  apply Forall_cons in Hv as [Hsink Hv].
  destruct (sink_valid_callbacks sink Hsink) as (b & t & s & a & _ & _ & _ & Ea).
  cbn [traced sink_abort]. rewrite Ea. cbn [fmap option_fmap option_map].
  rewrite IH by (done || lia). by rewrite <- app_assoc.
Qed.

Lemma traced_valid sinks : forall k j,
  first_invalid_sink (traced_from record k sinks) j = first_invalid_sink sinks j.
Proof.
  induction sinks as [|sink sinks IH]; intros k j; [done|]. cbn [first_invalid_sink traced_from].
  rewrite IH. replace (sink_valid (traced record k sink)) with (sink_valid sink); [done|].
  unfold sink_valid, traced. simpl.
  by destruct (sink_begin sink), (sink_stage sink), (sink_seal sink), (sink_abort sink).
Qed.

Lemma first_invalid_none sinks j :
  first_invalid_sink sinks j = None <-> Forall (fun s => sink_valid s = true) sinks.
Proof.
  revert j. induction sinks as [|sink sinks IH]; intros j; simpl; [done|].
  rewrite Forall_cons, <- (IH (j + 1)). destruct (sink_valid sink); naive_solver.
Qed.

Lemma length_traced_from sinks : forall k, length (traced_from record k sinks) = length sinks.
Proof. induction sinks; intros; simpl; congruence || auto. Qed.

Lemma take_traced_from sinks : forall k n,
  take n (traced_from record k sinks) = traced_from record k (take n sinks).
Proof. induction sinks as [|? ? IH]; intros k [|n]; simpl; [done..|]. by rewrite IH. Qed.

(** Staging traced sinks does what staging the sinks does, and logs calls that
    follow the protocol. *)
Lemma stage_to_sinks_traced sinks context batches out r w :
  Forall (fun s => sink_valid s = true) sinks ->
  let '(s, out', r', w') := stage_to_sinks context batches sinks out r w in
  exists log : list sink_event,
  stage_to_sinks context batches (traced_from record 0 sinks) out r (w, []) =
    (s, out', r', (w', map record log)) /\
  staging_protocol (length sinks) batches s r' log.
Proof.
  intros Hv. unfold stage_to_sinks, begin_sinks.
  pose proof (begin_traced record sinks context (record_type r) (total_records r) (total_bytes r)
                (failed_sink_index r) 0 w [] Hv) as Hbegin.
  destruct (begin_sinks_from sinks 0 context (record_type r) (total_records r) (total_bytes r)
              (failed_sink_index r) w) as [[[s begun] f] w1].
  destruct Hbegin as [-> Hs]. simpl app. destruct s; try done.
  2:{ destruct Hs as (j & -> & -> & Hj). rewrite abort_traced by (done || lia).
      eexists. split; [by rewrite <- ?map_app|]. exists j. split_and!; [lia | done|].
      by rewrite Nat.sub_0_r. }
  destruct Hs as [-> ->]. rewrite Nat.sub_0_r, Nat.add_0_l.
  match goal with |- context [stage_batches_from _ _ _ _ _ (w1, ?log)] =>
    pose proof (stage_batches_traced record sinks batches 0 (failed_batch_index r)
                  (failed_sink_index r) w1 log Hv) as Hstage end.
  destruct (stage_batches_from sinks batches 0 _ _ w1) as [[[s fb] fs] w2].
  destruct Hstage as (events & -> & Hs). destruct s; try done.
  2:{ destruct Hs as (j & batch & i & ? & -> & -> & ? & ->). rewrite abort_traced by done.
      eexists. split; [by rewrite <- ?map_app|]. exists j, batch, i. split_and!; [done..|].
      unfold begin_events. by rewrite <- !app_assoc. }
  destruct Hs as (-> & -> & ->). unfold seal_sinks. rewrite length_traced_from.
  match goal with |- context [seal_sinks_from _ _ _ ?h _ (w2, ?log)] =>
    pose proof (seal_traced sinks (stream_fingerprint r) 0 h out w2 log Hv) as Hseal end.
  destruct (seal_sinks_from sinks 0 _ _ _ w2) as [[[[s i] h] out'] w3].
  destruct Hseal as (m & -> & Hs). destruct s; try done.
  - subst m. eexists. split; [by rewrite <- ?map_app|]. simpl. unfold begin_events. by rewrite <- app_assoc.
  - destruct Hs as (j & -> & -> & ?). rewrite abort_traced by done.
    eexists. split; [by rewrite <- ?map_app|]. exists j. split_and!; [done..|].
    unfold begin_events. by rewrite <- !app_assoc.
Qed.
End SealLoops.

(** ** Status of the parts *)
Section Statuses.
Context {B : Blake3}.

Lemma context_validate_cases context :
  match laplace_framework_context_validate context with
  | LAPLACE_FRAMEWORK_OK | LAPLACE_FRAMEWORK_INVALID_ARGUMENT
  | LAPLACE_FRAMEWORK_UNSUPPORTED_VERSION | LAPLACE_FRAMEWORK_CONTEXT_INVALID => True
  | _ => False
  end.
Proof. destruct context as [c|]; simpl; [|done]. repeat (casec; [done|]). done. Qed.

Lemma context_fingerprint_cases context fp :
  match laplace_framework_context_fingerprint context (Some fp) with
  | (LAPLACE_FRAMEWORK_OK, Some digest) =>
      exists c, context = Some c /\ digest = blake3_hasher_finalize (hash_context c) /\
        laplace_framework_context_validate context = LAPLACE_FRAMEWORK_OK
  | (LAPLACE_FRAMEWORK_INVALID_ARGUMENT, Some digest)
  | (LAPLACE_FRAMEWORK_UNSUPPORTED_VERSION, Some digest)
  | (LAPLACE_FRAMEWORK_CONTEXT_INVALID, Some digest) => digest = zeros 32
  | _ => False
  end.
Proof.
  unfold laplace_framework_context_fingerprint. ptrs. pose proof (context_validate_cases context).
  destruct (laplace_framework_context_validate context) eqn:E; try done.
  destruct context as [c|]; [by exists c | done].
Qed.

Lemma context_fingerprint_again context fp1 fp2 digest :
  laplace_framework_context_fingerprint context (Some fp1) =
    (LAPLACE_FRAMEWORK_OK, Some digest) ->
  laplace_framework_context_fingerprint context (Some fp2) =
    (LAPLACE_FRAMEWORK_OK, Some digest).
Proof.
  unfold laplace_framework_context_fingerprint. ptrs.
  by destruct (laplace_framework_context_validate context), context.
Qed.

Lemma stream_fingerprint_cases batches n fp type records bytes :
  match laplace_framework_canonical_stream_fingerprint batches n (Some fp) (Some type)
          (Some records) (Some bytes) with
  | (LAPLACE_FRAMEWORK_OK, Some fp', Some type', Some records', Some bytes') =>
      exists l, batches = Some l /\ n <> 0 /\ type' <> 0 /\
        type' = default 0 (batch_record_type <$> head (cells batches n)) /\
        validate_batches (cells batches n) type' 0 0 = Some (records', bytes') /\
        fp' = blake3_hasher_finalize
                (hash_batches (initialize_stream_hasher type' records' bytes') (cells batches n))
  | (LAPLACE_FRAMEWORK_INVALID_ARGUMENT, Some fp', Some type', Some records', Some bytes')
  | (LAPLACE_FRAMEWORK_STREAM_INVALID, Some fp', Some type', Some records', Some bytes') =>
      fp' = fp /\ type' = type /\ records' = records /\ bytes' = bytes
  | _ => False
  end.
Proof.
  unfold laplace_framework_canonical_stream_fingerprint. ptrs.
  casec; [done|]. destruct batches as [l|]; [|done]. casec; [done|].
  destruct (validate_batches _ _ 0 0) as [[rs bs]|] eqn:Ev; [|done]. simpl store.
  exists l. split_and!; done.
Qed.
End Statuses.

(** No sink was called. *)
Ltac no_calls := eexists _, []; split_and!; reflexivity.

(** C12: staging calls the sinks in a fixed protocol, whatever they do: no sink
    is called unless the context, the stream and all sinks are valid; then all
    are begun in order, every batch is handed to every sink in order, all are
    sealed; the first callback that fails stops the run, exactly the sinks
    already begun are aborted, once each and in order, the receipt names the
    failing batch and sink, and after success none is aborted. *)
Theorem staging_follows_protocol {B : Blake3} {W} (context : ptr laplace_framework_context)
    stream (sinks : list (laplace_framework_sink_v1 W)) out required receipt w :
  let batches :=
    match stream with
    | Some s => cells (batches s) (stream_batch_count s)
    | None => []
    end in
  let n := Z.of_nat (length sinks) in
  let '(result, out', r', w') :=
    stage_canonical_stream_impl context stream (Some sinks) n out required (Some receipt) w in
  exists r log,
    r' = Some r /\
    stage_canonical_stream_impl context stream (Some (traced_from id 0 sinks)) n out required
      (Some receipt) (w, []) = (result, out', r', (w', log)) /\
    staging_protocol (length sinks) batches result r log.
Proof.
  cbv zeta. unfold stage_canonical_stream_impl. ptrs.
  destruct (prepare_sink_artifact_output out _ required) as [s out1] eqn:Eprep.
  assert (s = LAPLACE_FRAMEWORK_OK \/ s = LAPLACE_FRAMEWORK_INVALID_ARGUMENT) as [-> | ->].
  { revert Eprep. unfold prepare_sink_artifact_output.
    destruct out; [casec|destruct required]; intros [= <- _]; auto. }
  2:{ no_calls. }
  pose proof (context_fingerprint_cases context (context_fingerprint
                (initial_receipt (Z.of_nat (length sinks))))) as Hctx.
  destruct (laplace_framework_context_fingerprint context _) as [s [fp|]];
    destruct s; try done; try no_calls.
  destruct (stream_header_invalid stream) eqn:Eh; [no_calls|].
  destruct stream as [stream|]; [|no_calls].
  set (r1 := set_stream _ _ _ _). unfold stage_stream.
  pose proof (stream_fingerprint_cases (batches stream) (stream_batch_count stream)
    (stream_fingerprint r1) (record_type r1) (total_records r1) (total_bytes r1)) as Hfp.
  destruct (laplace_framework_canonical_stream_fingerprint _ _ _ _ _ _)
    as [[[[s [fp1|]] [t1|]] [rs1|]] [bs1|]]; destruct s; try done; try no_calls.
  set (r2 := set_totals _ _ _ _ _). unfold validate_sinks. ptrs.
  casec; [no_calls|].
  rewrite (cells_all sinks), (cells_all (traced_from id 0 sinks)) by
    (by rewrite ?length_traced_from).
  rewrite traced_valid.
  destruct (first_invalid_sink sinks 0) as [bad|] eqn:Ebad; [no_calls|].
  apply first_invalid_none in Ebad.
  pose proof (stage_to_sinks_traced id sinks context (cells (batches stream)
    (stream_batch_count stream)) out1 r2 w Ebad) as Hst.
  destruct (stage_to_sinks _ _ sinks _ _ _) as [[[s out2] r3] w2].
  destruct Hst as (log & -> & Hp). rewrite map_id. by exists r3, log.
Qed.

(** ** Lemmas: receipts *)
Section ReceiptLemmas.
Context {B : Blake3} {W : Type}.

(** What of a receipt the calls to the sinks leave alone. *)
Definition receipt_core (r : laplace_framework_stream_receipt) :=
  (context_fingerprint r, source_fingerprint r, recipe_fingerprint r, stream_fingerprint r,
   total_records r, total_bytes r, batch_count r, sink_count r, record_type r,
   receipt_reserved r).

(** A receipt as a run that returned [s] leaves it. *)
Definition receipt_finished (s : laplace_framework_status)
    (r : laplace_framework_stream_receipt) : Prop :=
  status r = s /\ hash_stream_receipt r = r /\
  effect_disposition r =
    (if bool_decide (s = LAPLACE_FRAMEWORK_OK) then LAPLACE_FRAMEWORK_EFFECT_STAGED_INERT
     else 0).

Lemma finish_receipt_finished s r :
  receipt_finished s (finish_receipt s (if bool_decide (s = LAPLACE_FRAMEWORK_OK) then 1 else 0) r)
  /\ receipt_core (finish_receipt s (if bool_decide (s = LAPLACE_FRAMEWORK_OK) then 1 else 0) r)
     = receipt_core r.
Proof. by destruct r. Qed.

Lemma stage_to_sinks_receipt (sinks : list (laplace_framework_sink_v1 W)) context batches out
    r w :
  Forall (fun s => sink_valid s = true) sinks ->
  let '(s, out', r', w') := stage_to_sinks context batches sinks out r w in
  receipt_finished s r' /\ receipt_core r' = receipt_core r /\
  (s = LAPLACE_FRAMEWORK_OK ->
   failed_batch_index r' = failed_batch_index r /\ failed_sink_index r' = failed_sink_index r).
Proof.
  intros Hv. unfold stage_to_sinks, begin_sinks, seal_sinks.
  pose proof (begin_traced id sinks context (record_type r) (total_records r) (total_bytes r)
                (failed_sink_index r) 0 w [] Hv) as Hb.
  destruct (begin_sinks_from sinks 0 context (record_type r) (total_records r) (total_bytes r)
              (failed_sink_index r) w) as [[[s begun] f] w1].
  destruct Hb as [_ Hs]. destruct s; try done. destruct Hs as [_ ->].
  pose proof (stage_batches_traced id sinks batches 0 (failed_batch_index r)
                (failed_sink_index r) w1 [] Hv) as Hstage.
  destruct (stage_batches_from sinks batches 0 _ _ w1) as [[[s fb] fs] w2].
  destruct Hstage as (events & _ & Hs). destruct s; try done. destruct Hs as (_ & -> & ->).
  pose proof (seal_traced id sinks (stream_fingerprint r) 0
    (initialize_sink_artifact_hasher (Z.of_nat (length sinks))) out w2 [] Hv) as Hseal.
  destruct (seal_sinks_from sinks 0 _ _ _ w2) as [[[[s i] h] out'] w3].
  destruct Hseal as (m & _ & Hs). destruct s; try done.
Qed.

Lemma validate_batches_spec batches : forall type records bytes records' bytes',
  validate_batches batches type records bytes = Some (records', bytes') ->
  records' = records + foldr (fun b n => record_count b + n) 0 batches /\
  bytes' = bytes + foldr (fun b n => byte_count b + n) 0 batches.
Proof.
  induction batches as [|b batches IH]; intros type records bytes records' bytes'; simpl.
  { intros [= <- <-]. lia. }
  casec; [done|]. intros [-> ->]%IH. lia.
Qed.

(** The counts are unsigned words. *)
Definition batch_wf (b : laplace_framework_canonical_batch) : Prop :=
  is_u32 (batch_record_type b) /\ is_u64 (record_count b) /\ is_u64 (byte_count b) /\
  (forall content, canonical_bytes b = Some content ->
     Z.of_nat (length content) = byte_count b).

Lemma validate_batches_bounds batches : forall type records bytes records' bytes',
  Forall batch_wf batches -> 0 <= records <= UINT64_MAX -> 0 <= bytes <= UINT64_MAX ->
  validate_batches batches type records bytes = Some (records', bytes') ->
  records + Z.of_nat (length batches) <= records' <= UINT64_MAX /\
  bytes + Z.of_nat (length batches) <= bytes' <= UINT64_MAX.
Proof.
  induction batches as [|b batches IH]; intros type records bytes records' bytes' Hwf Hr Hb;
    simpl; [intros [= <- <-]; lia|].
  apply Forall_cons in Hwf as [(_ & ? & ? & _) Hwf].
  casec; [done|]. intros ?%IH; [|done|lia|lia]. lia.
Qed.
End ReceiptLemmas.

Section ReceiptVerdicts.
Context {B : Blake3}.

Lemma failed_receipt_rejected s r :
  s <> LAPLACE_FRAMEWORK_OK -> receipt_finished s r ->
  laplace_framework_stream_receipt_identity_validate (Some r) =
    LAPLACE_FRAMEWORK_STREAM_INVALID.
Proof.
  intros Hs (Hr & _). unfold laplace_framework_stream_receipt_identity_validate,
    stream_receipt_is_valid. rewrite Hr, (bool_decide_eq_false_2 _ Hs). done.
Qed.

Lemma sealed_receipt_valid r :
  receipt_finished LAPLACE_FRAMEWORK_OK r -> receipt_reserved r = 0 -> record_type r <> 0 ->
  total_records r <> 0 -> total_bytes r <> 0 -> batch_count r <> 0 -> sink_count r <> 0 ->
  failed_batch_index r = LAPLACE_FRAMEWORK_NO_INDEX ->
  failed_sink_index r = LAPLACE_FRAMEWORK_NO_INDEX ->
  stream_receipt_is_valid (Some r) = true.
Proof.
  intros (Hs & Hh & He) H1 H2 H3 H4 H5 H6 H7 H8. unfold stream_receipt_is_valid.
  assert (He' : effect_disposition r = 1) by (rewrite He; done).
  rewrite Hs, He', H1, H7, H8, (proj2 (Z.eqb_neq _ 0) H2), (proj2 (Z.eqb_neq _ 0) H3),
    (proj2 (Z.eqb_neq _ 0) H4), (proj2 (Z.eqb_neq _ 0) H5), (proj2 (Z.eqb_neq _ 0) H6),
    bool_decide_eq_true_2, !Z.eqb_refl by done.
  cbn [negb orb]. rewrite Hh. by apply bytes_equal_spec.
Qed.

Lemma stream_batches_nonempty batches n type records bytes :
  Forall batch_wf (cells batches n) -> type <> 0 ->
  type = default 0 (batch_record_type <$> head (cells batches n)) ->
  validate_batches (cells batches n) type 0 0 = Some (records, bytes) ->
  records <> 0 /\ bytes <> 0.
Proof.
  intros Hwf Ht Hhead Hv.
  destruct (validate_batches_bounds _ _ 0 0 _ _ Hwf ltac:(lia) ltac:(lia) Hv).
  destruct (cells batches n); simpl in *; [by subst | lia].
Qed.
End ReceiptVerdicts.

(** The stream a caller hands over: buffers as long as their byte counts say. *)
Definition stream_wf (stream : laplace_framework_canonical_stream) : Prop :=
  Forall batch_wf (cells (batches stream) (stream_batch_count stream)).

(** A run that stopped before calling a sink. *)
Ltac failed_run :=
  eexists; split_and!;
  [ reflexivity | reflexivity | reflexivity | done
  | let Hs := fresh in
    intros Hs; split; [apply (failed_receipt_rejected _ _ Hs); split_and!|]; done ].

(** the receipt of a staged stream is self-certifying.  Every run that has
    a receipt leaves one whose status is the status returned and whose
    identity is the digest of its body.  When the run succeeds the receipt
    carries the stream's source and recipe, the totals of its batches and the
    context's fingerprint, and validates against that context; when it fails
    the receipt is rejected as a proof of staging. *)
Theorem staged_receipt_validates {B : Blake3} {W} context
    (stream : laplace_framework_canonical_stream)
    (sinks : ptr (list (laplace_framework_sink_v1 W))) n out required receipt w :
  stream_wf stream ->
  let all := cells (batches stream) (stream_batch_count stream) in
  let '(result, _, r', _) :=
    stage_canonical_stream_impl context (Some stream) sinks n out required (Some receipt) w in
  exists r,
    r' = Some r /\ status r = result /\ hash_stream_receipt r = r /\
    (result = LAPLACE_FRAMEWORK_OK ->
       laplace_framework_stream_receipt_validate context (Some r) = LAPLACE_FRAMEWORK_OK /\
       source_fingerprint r = stream_source_fingerprint stream /\
       recipe_fingerprint r = stream_recipe_fingerprint stream /\
       total_records r = foldr (fun b n => record_count b + n) 0 all /\
       total_bytes r = foldr (fun b n => byte_count b + n) 0 all /\
       effect_disposition r = LAPLACE_FRAMEWORK_EFFECT_STAGED_INERT) /\
    (result <> LAPLACE_FRAMEWORK_OK ->
       laplace_framework_stream_receipt_identity_validate (Some r) =
         LAPLACE_FRAMEWORK_STREAM_INVALID /\ effect_disposition r = 0).
Proof.
  intros Hwf. cbv zeta. unfold stage_canonical_stream_impl. ptrs.
  destruct (prepare_sink_artifact_output out n required) as [s out1] eqn:Eprep.
  assert (s = LAPLACE_FRAMEWORK_OK \/ s = LAPLACE_FRAMEWORK_INVALID_ARGUMENT) as [-> | ->].
  { revert Eprep. unfold prepare_sink_artifact_output.
    destruct out; [casec|destruct required]; intros [= <- _]; auto. }
  2:{ failed_run. }
  pose proof (context_fingerprint_cases context (context_fingerprint (initial_receipt n)))
    as Hctx.
  destruct (laplace_framework_context_fingerprint context _) as [s [fp|]] eqn:Ectx;
    destruct s; try done; try failed_run.
  destruct (stream_header_invalid (Some stream)) eqn:Eh; [failed_run|].
  simpl in Eh. bools. set (r1 := set_stream _ _ _ _). unfold stage_stream.
  pose proof (stream_fingerprint_cases (batches stream) (stream_batch_count stream)
    (stream_fingerprint r1) (record_type r1) (total_records r1) (total_bytes r1)) as Hfp.
  destruct (laplace_framework_canonical_stream_fingerprint _ _ _ _ _ _)
    as [[[[s [fp1|]] [t1|]] [rs1|]] [bs1|]]; destruct s; try done; try failed_run.
  destruct Hfp as (l & Hl & Hn & Ht & Hhead & Hv & Hfp).
  set (r2 := set_totals _ _ _ _ _). unfold validate_sinks.
  casec; [failed_run|].
  destruct (first_invalid_sink (cells sinks n) 0) as [bad|] eqn:Ebad; [failed_run|].
  apply first_invalid_none in Ebad.
  pose proof (stage_to_sinks_receipt (cells sinks n) context
    (cells (batches stream) (stream_batch_count stream)) out1 r2 w Ebad) as Hst.
  destruct (stage_to_sinks _ _ (cells sinks n) _ _ _) as [[[s out2] r3] w2].
  destruct Hst as (Hfin & Hcore & Hidx). injection Hcore as Hc1 Hc2 Hc3 Hc4 Hc5 Hc6 Hc7 Hc8 Hc9 Hc10.
  exists r3. pose proof Hfin as (Hst & Hhash & Heff). split_and!; [done..| |].
  - intros ->. destruct (Hidx eq_refl) as [Hb Hs].
    destruct (stream_batches_nonempty _ _ _ _ _ Hwf Ht Hhead Hv) as [Hr0 Hb0].
    destruct (validate_batches_spec _ _ _ _ _ _ Hv) as [Hr Hby].
    split_and!; [|done|done|lia|lia|done].
    unfold laplace_framework_stream_receipt_validate.
    rewrite (context_fingerprint_again context _ _ fp Ectx).
    rewrite sealed_receipt_valid by (done || congruence). simpl.
    rewrite Hc1. by rewrite (proj2 (bytes_equal_spec fp fp)).
  - intros Hs. split; [by apply (failed_receipt_rejected s)|].
    by rewrite Heff, (bool_decide_eq_false_2 _ Hs).
Qed.

(** A context, a stream of two batches and a sink that collects bytes. *)
Definition sample_context : laplace_framework_context :=
  mk_context (replicate 32 5 :: replicate 9 (zeros 32)) (replicate 32 9) (mk_grant 1024 1 0)
    1 1 6 0 0.
Definition sample_stream : laplace_framework_canonical_stream :=
  mk_stream (Some [mk_batch (Some [1; 2; 3]) 3 2 0 7 0; mk_batch (Some [4]) 1 1 2 7 0])
    (replicate 32 1) (replicate 32 2) 2 0 0.
Definition sample_sink : laplace_framework_sink_v1 (list Z) :=
  mk_sink (Some (fun w _ _ _ _ => (LAPLACE_FRAMEWORK_OK, w)))
    (Some (fun w batch => (LAPLACE_FRAMEWORK_OK, w ++ batch_bytes batch)))
    (Some (fun w _ _ => (LAPLACE_FRAMEWORK_OK, w ++ zeros (32 - length w), w)))
    (Some (fun _ => [])) 1 0 0 0.

Lemma sample_stream_wf : stream_wf sample_stream.
Proof.
  repeat constructor; simpl; try lia; by intros content [= <-].
Qed.

Definition sample_run :=
  stage_canonical_stream_impl (B := checksum_blake3) (Some sample_context)
    (Some sample_stream) (Some [sample_sink]) 1 None false (Some (initial_receipt 0)) [].

Lemma sample_run_ok : sample_run.1.1.1 = LAPLACE_FRAMEWORK_OK /\ sample_run.2 = [1; 2; 3; 4].
Proof. split; vm_compute; reflexivity. Qed.

Lemma staged_receipt_validates_witness :
  sample_run.1.1.1 = LAPLACE_FRAMEWORK_OK /\
  exists r, sample_run.1.2 = Some r /\ total_records r = 3 /\ total_bytes r = 4.
Proof.
  pose proof (staged_receipt_validates (B := checksum_blake3) (Some sample_context)
    sample_stream (Some [sample_sink]) 1 None false (initial_receipt 0) []
    sample_stream_wf) as H.
  cbv zeta in H. destruct sample_run_ok as [Hok _]. fold sample_run in H.
  destruct sample_run as [[[result out] r'] w]. cbn [fst snd] in *. subst result.
  destruct H as (r & -> & _ & _ & H & _). destruct (H eq_refl) as (_ & _ & _ & Hr & Hb & _).
  split; [done|]. exists r. split_and!; [done|rewrite Hr; reflexivity|rewrite Hb; reflexivity].
Defined.

(** ** Lemmas: artifact output *)
Section ArtifactLemmas.
Context {B : Blake3} {W : Type}.
Implicit Types (output : laplace_framework_sink_artifact_output).

(** [length l] artifacts stored from cell [k] on. *)
Fixpoint store_artifacts (out : ptr laplace_framework_sink_artifact_output) (k : nat)
    (l : list laplace_digest256) :=
  match l with
  | [] => out
  | artifact :: rest => store_artifacts (store_artifact out k artifact) (S k) rest
  end.

Lemma seal_artifacts (sinks : list (laplace_framework_sink_v1 W)) fp : forall k h out w,
  let '(s, i, h', out', w') := seal_sinks_from sinks k fp h out w in
  exists arts, out' = store_artifacts out k arts /\ (length arts <= length sinks)%nat /\
    h' = hash_artifacts h (Z.of_nat k) arts /\
    (s = LAPLACE_FRAMEWORK_OK -> length arts = length sinks).
Proof.
  induction sinks as [|sink sinks IH]; intros k h out w; cbn [seal_sinks_from].
  { by exists []. }
  destruct (match sink_seal sink with Some _ => _ | None => _ end) as [[st artifact] w1].
  destruct st; try (exists []; split_and!; [done | simpl; lia | done | done]).
  specialize (IH (S k) (update_sink_artifact_hasher h (Z.of_nat k) artifact)
                (store_artifact out k artifact) w1).
  destruct (seal_sinks_from sinks (S k) fp _ _ w1) as [[[[s i] h'] out'] w'].
  destruct IH as (arts & -> & Hlen & -> & Hok). exists (artifact :: arts). simpl.
  split_and!; [done | lia | f_equal; lia | intros Hs; rewrite Hok; done].
Qed.

Lemma clear_store output k artifact n :
  Z.of_nat k < n -> n <= capacity output <= SIZE_MAX ->
  clear_sink_artifact_output (store_artifact (Some output) k artifact) n =
  clear_sink_artifact_output (Some output) n.
Proof.
  intros Hk Hn. unfold store_artifact, clear_sink_artifact_output. simpl. f_equal.
  destruct output as [[l|] c ct rs]; simpl in *; [|done]. f_equal. f_equal. casec; [|lia].
  rewrite length_insert. f_equal. apply drop_insert_lt. lia.
Qed.

Lemma clear_stores arts : forall k output n,
  Z.of_nat (k + length arts) <= n -> n <= capacity output <= SIZE_MAX ->
  clear_sink_artifact_output (store_artifacts (Some output) k arts) n =
  clear_sink_artifact_output (Some output) n.
Proof.
  induction arts as [|a arts IH]; intros k output n Hk Hn; [done|]. simpl in *.
  rewrite IH by (simpl; lia). by apply clear_store; [lia|].
Qed.

Lemma clear_clear out n :
  clear_sink_artifact_output (clear_sink_artifact_output out n) n =
  clear_sink_artifact_output out n.
Proof.
  destruct out as [[[l|] c ct rs]|]; simpl; [|done..]. do 2 f_equal. f_equal. casec; [|done].
  rewrite length_app, length_replicate, length_drop.
  set (m := Z.to_nat (Z.min c n)). f_equal.
  - f_equal. lia.
  - destruct (decide (m <= length l)%nat) as [Hm|Hm].
    + replace (m `min` length l)%nat with m by lia. by rewrite drop_app_length' by
        (by rewrite length_replicate).
    + by rewrite (drop_ge l), app_nil_r, drop_ge by (rewrite ?length_replicate; lia).
Qed.

Lemma store_artifacts_list arts : forall k l c ct rs,
  (k + length arts <= length l)%nat ->
  store_artifacts (Some (mk_artifact_output (Some l) c ct rs)) k arts =
  Some (mk_artifact_output (Some (take k l ++ arts ++ drop (k + length arts) l)) c ct rs).
Proof.
  induction arts as [|a arts IH]; intros k l c ct rs Hk; simpl.
  { by rewrite Nat.add_0_r, take_drop. }
  simpl in Hk. rewrite IH by (rewrite length_insert; lia). do 3 f_equal.
  erewrite take_S_r by (apply list_lookup_insert_eq; lia).
  rewrite take_insert_ge, drop_insert_lt by lia. rewrite <- app_assoc. simpl.
  by replace (k + S (length arts))%nat with (S k + length arts)%nat by lia.
Qed.

Lemma stage_to_sinks_artifacts (sinks : list (laplace_framework_sink_v1 W)) context batches
    output r w :
  Forall (fun s => sink_valid s = true) sinks ->
  Z.of_nat (length sinks) <= capacity output <= SIZE_MAX ->
  let '(s, out', r', w') := stage_to_sinks context batches sinks (Some output) r w in
  match s with
  | LAPLACE_FRAMEWORK_OK =>
      exists arts, length arts = length sinks /\
        out' = store_artifact_count (store_artifacts (Some output) 0 arts)
                 (Z.of_nat (length sinks)) /\
        sink_artifacts_fingerprint r' =
          blake3_hasher_finalize
            (hash_artifacts (initialize_sink_artifact_hasher (Z.of_nat (length sinks))) 0 arts)
  | _ => out' = Some output \/
         out' = clear_sink_artifact_output (Some output) (Z.of_nat (length sinks))
  end.
Proof.
  intros Hv Hcap. unfold stage_to_sinks, begin_sinks.
  destruct (begin_sinks_from sinks 0 context _ _ _ _ w) as [[[s begun] f] w1].
  destruct s; auto.
  destruct (stage_batches_from sinks batches 0 _ _ w1) as [[[s fb] fs] w2].
  destruct s; auto. unfold seal_sinks.
  pose proof (seal_traced id sinks (stream_fingerprint r) 0
    (initialize_sink_artifact_hasher (Z.of_nat (length sinks))) (Some output) w2 [] Hv) as Ht.
  pose proof (seal_artifacts sinks (stream_fingerprint r) 0
    (initialize_sink_artifact_hasher (Z.of_nat (length sinks))) (Some output) w2) as Ha.
  destruct (seal_sinks_from sinks 0 _ _ _ w2) as [[[[s i] h] out'] w3].
  destruct Ha as (arts & -> & Hlen & -> & Hok). destruct Ht as (m & _ & Ht).
  destruct s; try done.
  - exists arts. split_and!; [by apply Hok | done | done].
  - right. by apply clear_stores; [lia|].
Qed.
End ArtifactLemmas.

Lemma clear_explicit l c ct rs k :
  Z.of_nat (length l) = c -> c <= SIZE_MAX ->
  clear_sink_artifact_output (Some (mk_artifact_output (Some l) c ct rs)) (Z.of_nat k) =
  Some (mk_artifact_output
          (Some (replicate (k `min` length l) (zeros 32) ++ drop k l)) c 0 rs).
Proof.
  intros Hl Hc. simpl. rewrite (proj2 (Z.leb_le c SIZE_MAX) Hc). do 4 f_equal.
  - f_equal. lia.
  - destruct (decide (k <= length l)%nat); [f_equal; lia|].
    by rewrite !drop_ge by lia.
Qed.

(** What a caller finds in its artifact output: after success the artifacts of
    all sinks in order, from which the aggregate in the receipt is recomputed;
    after any failure a zero count and cleared cells. *)
Definition artifact_contract {B : Blake3} (k : nat) (l : list laplace_digest256)
    (out : laplace_framework_sink_artifact_output) (result : laplace_framework_status)
    (out' : ptr laplace_framework_sink_artifact_output)
    (r' : ptr laplace_framework_stream_receipt) : Prop :=
  match result with
  | LAPLACE_FRAMEWORK_OK =>
      exists arts r, length arts = k /\ r' = Some r /\
        out' = Some (mk_artifact_output (Some (arts ++ drop k l)) (capacity out)
                       (Z.of_nat k) 0) /\
        forall fp,
          laplace_framework_sink_artifacts_fingerprint (Some (arts ++ drop k l)) (Z.of_nat k)
            (Some fp) = (LAPLACE_FRAMEWORK_OK, Some (sink_artifacts_fingerprint r))
  | _ =>
      out' = Some (mk_artifact_output
               (Some (replicate (k `min` length l) (zeros 32) ++ drop k l)) (capacity out) 0
               (output_reserved out))
  end.

(** the artifact output follows the framework contract: only after every
    sink has sealed does it hold all artifacts, in sink order and with their
    count, and [laplace_framework_sink_artifacts_fingerprint] recomputes the
    receipt's aggregate from it; after every failure, also one in the middle of
    sealing, the count is zero and every addressable cell is cleared. *)
Theorem artifact_output_contract {B : Blake3} {W} context stream
    (sinks : list (laplace_framework_sink_v1 W)) out l required receipt w :
  artifact_fingerprints out = Some l -> Z.of_nat (length l) = capacity out ->
  capacity out <= SIZE_MAX ->
  let '(result, out', r', _) :=
    stage_canonical_stream_impl context stream (Some sinks) (Z.of_nat (length sinks))
      (Some out) required (Some receipt) w in
  artifact_contract (length sinks) l out result out' r'.
Proof.
  intros Hl Hcap Hmax. destruct out as [l0 c ct rs]. simpl in *. subst l0.
  pose proof (clear_explicit l c ct rs (length sinks) Hcap Hmax) as Hclear.
  unfold stage_canonical_stream_impl. ptrs. unfold prepare_sink_artifact_output. ptrs.
  cbn [artifact_fingerprints capacity output_reserved is_null orb].
  rewrite Hclear. casec; [done|]. subst rs.
  pose proof (context_fingerprint_cases context (context_fingerprint
                (initial_receipt (Z.of_nat (length sinks))))) as Hctx.
  destruct (laplace_framework_context_fingerprint context _) as [s [fp|]];
    destruct s; try done.
  destruct (stream_header_invalid stream) eqn:Eh; [done|].
  destruct stream as [stream|]; [|done].
  set (r1 := set_stream _ _ _ _). unfold stage_stream.
  pose proof (stream_fingerprint_cases (batches stream) (stream_batch_count stream)
    (stream_fingerprint r1) (record_type r1) (total_records r1) (total_bytes r1)) as Hfp.
  destruct (laplace_framework_canonical_stream_fingerprint _ _ _ _ _ _)
    as [[[[s [fp1|]] [t1|]] [rs1|]] [bs1|]]; destruct s; try done.
  set (r2 := set_totals _ _ _ _ _). unfold validate_sinks.
  casec; [done|]. rewrite cells_all by done.
  destruct (first_invalid_sink sinks 0) as [bad|] eqn:Ebad; [done|].
  apply first_invalid_none in Ebad. set (cleared := mk_artifact_output (Some (replicate _ _ ++ _)) _ _ _) in *.
  pose proof (stage_to_sinks_artifacts sinks context (cells (batches stream)
    (stream_batch_count stream)) cleared r2 w Ebad ltac:(simpl; lia)) as Hst.
  destruct (stage_to_sinks _ _ sinks _ _ _) as [[[s out2] r3] w2].
  assert (Hboth : out2 = Some cleared \/
    out2 = clear_sink_artifact_output (Some cleared) (Z.of_nat (length sinks)) ->
    out2 = Some cleared).
  { intros [->| ->]; [done|]. by rewrite <- Hclear, clear_clear. }
  destruct s; try (by apply Hboth). clear Hboth.
  destruct Hst as (arts & Hlen & -> & Hagg). exists arts, r3.
  rewrite <- Hlen. unfold cleared at 1. rewrite store_artifacts_list
    by (rewrite length_app, length_replicate, length_drop; lia).
  cbn [store_artifact_count artifact_fingerprints capacity output_reserved take app Nat.add].
  rewrite drop_app_length' by (rewrite length_replicate; lia).
  split_and!; [done|done|by rewrite Hlen|].
  intros fp'. unfold laplace_framework_sink_artifacts_fingerprint. ptrs.
  rewrite Hlen. casec; [lia|]. by rewrite cells_app, Hagg by lia.
Qed.

Definition sample_output : laplace_framework_sink_artifact_output :=
  mk_artifact_output (Some [replicate 32 3; replicate 32 4]) 2 5 0.

Lemma artifact_output_contract_witness :
  let '(result, out', r', _) :=
    stage_canonical_stream_impl (B := checksum_blake3) (Some sample_context)
      (Some sample_stream) (Some [sample_sink]) 1 (Some sample_output) true
      (Some (initial_receipt 0)) [] in
  artifact_contract (B := checksum_blake3) 1 [replicate 32 3; replicate 32 4] sample_output result out' r'.
Proof.
  apply (artifact_output_contract (B := checksum_blake3) (Some sample_context)
    (Some sample_stream) [sample_sink] sample_output [replicate 32 3; replicate 32 4] true
    (initial_receipt 0) []); [reflexivity | reflexivity | simpl; lia].
Defined.

(** ** Stream fingerprint *)
Section StreamFingerprint.
Context {B : Blake3} {L : Blake3Laws B}.

Definition stream_transcript (type records : Z) (content : list Z) : list Z :=
  domain_bytes "laplace-framework-canonical-stream-v1" ++ store_le 4 type ++
  store_le 8 records ++ store_le 8 (Z.of_nat (length content)) ++ content.

Lemma absorbs_batches batches : forall h m,
  absorbs h m -> absorbs (hash_batches h batches) (m ++ concat (map batch_bytes batches)).
Proof.
  unfold hash_batches. induction batches as [|b batches IH]; intros h m Hm; simpl.
  { by rewrite app_nil_r. }
  rewrite app_assoc. apply IH. absorb.
Qed.

Lemma absorbs_stream_header type records bytes :
  absorbs (initialize_stream_hasher type records bytes)
    (domain_bytes "laplace-framework-canonical-stream-v1" ++ store_le 4 type ++
     store_le 8 records ++ store_le 8 bytes).
Proof. unfold initialize_stream_hasher. rewrite !app_assoc. absorb. Qed.

Lemma validated_content batches : forall type records bytes records' bytes',
  Forall batch_wf batches ->
  validate_batches batches type records bytes = Some (records', bytes') ->
  bytes' = bytes + Z.of_nat (length (concat (map batch_bytes batches))).
Proof.
  induction batches as [|b batches IH]; intros type records bytes records' bytes' Hwf; simpl.
  { intros [= _ <-]. lia. }
  apply Forall_cons in Hwf as [(_ & _ & _ & Hlen) Hwf]. casec; [done|].
  intros ->%IH; [|done]. rewrite length_app.
  assert (Z.of_nat (length (batch_bytes b)) = byte_count b); [|lia].
  unfold batch_bytes. destruct (canonical_bytes b) as [content|]; [|done].
  rewrite cells_all; [by apply Hlen | by rewrite (Hlen content)].
Qed.

Lemma stream_transcript_inj t1 r1 c1 t2 r2 c2 :
  is_u32 t1 -> is_u32 t2 -> is_u64 r1 -> is_u64 r2 ->
  Z.of_nat (length c1) <= UINT64_MAX -> Z.of_nat (length c2) <= UINT64_MAX ->
  stream_transcript t1 r1 c1 = stream_transcript t2 r2 c2 -> t1 = t2 /\ r1 = r2 /\ c1 = c2.
Proof.
  intros Ht1 Ht2 Hr1 Hr2 Hc1 Hc2 H. unfold stream_transcript in H.
  apply app_inv_head in H.
  assert (is_u64 (Z.of_nat (length c1))) by lia. assert (is_u64 (Z.of_nat (length c2))) by lia.
  peel H. done.
Qed.
End StreamFingerprint.

(** the canonical stream fingerprint identifies the stream's content, not
    its batching.  A stream that is accepted is fingerprinted by the digest of
    a transcript of its record type, record count and concatenated bytes;
    equal transcripts have equal type, count and bytes, so two accepted streams
    have the same transcript exactly when they agree on these, however they are
    cut into batches; the empty stream's fingerprint fits the same scheme. *)
Theorem stream_fingerprint_identifies_content {B : Blake3} {L : Blake3Laws B} batches n
    fp0 t0 r0 b0 fp type records bytes :
  Forall batch_wf (cells batches n) ->
  laplace_framework_canonical_stream_fingerprint batches n (Some fp0) (Some t0) (Some r0)
    (Some b0) = (LAPLACE_FRAMEWORK_OK, Some fp, Some type, Some records, Some bytes) ->
  let content := concat (map batch_bytes (cells batches n)) in
  fp = blake3 (stream_transcript type records content) /\
  bytes = Z.of_nat (length content) /\
  records = foldr (fun b n => record_count b + n) 0 (cells batches n) /\
  laplace_framework_canonical_empty_stream_fingerprint type (Some fp0) =
    (LAPLACE_FRAMEWORK_OK, Some (blake3 (stream_transcript type 0 []))) /\
  (forall type' records' content',
     is_u32 type' -> is_u64 records' -> Z.of_nat (length content') <= UINT64_MAX ->
     stream_transcript type' records' content' = stream_transcript type records content ->
     type' = type /\ records' = records /\ content' = content).
Proof.
  intros Hwf H. pose proof (stream_fingerprint_cases batches n fp0 t0 r0 b0) as Hc.
  rewrite H in Hc. destruct Hc as (l & -> & Hn & Ht & Hhead & Hv & ->). cbv zeta.
  pose proof (validated_content _ _ _ _ _ _ Hwf Hv) as Hb. rewrite Z.add_0_l in Hb.
  destruct (validate_batches_bounds _ _ 0 0 _ _ Hwf ltac:(lia) ltac:(lia) Hv) as [? ?].
  assert (Htype : is_u32 type).
  { destruct (cells (Some l) n) as [|b rest]; [by subst|]. simpl in Hhead. subst.
    by apply Forall_cons in Hwf as [[? _] _]. }
  split_and!; [| done | | |].
  - apply absorbs_finalize. unfold stream_transcript. rewrite <- Hb, !app_assoc.
    apply absorbs_batches. rewrite <- !app_assoc. apply absorbs_stream_header.
  - by destruct (validate_batches_spec _ _ _ _ _ _ Hv) as [-> _].
  - unfold laplace_framework_canonical_empty_stream_fingerprint. ptrs. casec; [lia|].
    do 2 f_equal. apply absorbs_finalize. unfold stream_transcript. rewrite app_nil_r.
    apply absorbs_stream_header.
  - intros t' r' c' ? ? ?. apply stream_transcript_inj; lia.
Qed.

Lemma stream_fingerprint_identifies_content_witness :
  laplace_framework_canonical_empty_stream_fingerprint (B := checksum_blake3) 7
    (Some (zeros 32)) =
  (LAPLACE_FRAMEWORK_OK, Some (blake3 (B := checksum_blake3) (stream_transcript 7 0 []))).
Proof.
  eapply (stream_fingerprint_identifies_content (B := checksum_blake3)
    (L := checksum_blake3_laws) (batches sample_stream) 2 (zeros 32) 0 0 0 _ 7 3 4).
  - exact sample_stream_wf.
  - vm_compute. reflexivity.
Defined.

(** ** Context fingerprint *)
Record context_wf (c : laplace_framework_context) : Prop := {
  wf_epochs : length (epochs c) = LAPLACE_FRAMEWORK_EPOCH_COUNT;
  wf_epoch : Forall (bytes 32) (epochs c);
  wf_authority : bytes 32 (authority_fingerprint c);
  wf_memory : is_u64 (memory_bytes (resource_grant c));
  wf_cpu : is_u32 (cpu_slots (resource_grant c));
  wf_io : is_u32 (io_slots (resource_grant c));
  wf_mask : is_u64 (epoch_mask c);
  wf_major : is_u16 (major c);
  wf_minor : is_u16 (minor c);
  wf_flags : is_u32 (context_flags c) }.

Section ContextFingerprint.
Context {B : Blake3} {L : Blake3Laws B}.

Definition epoch_transcript (c : laplace_framework_context) (index : nat) : list Z :=
  if epoch_present c index then store_le 4 (Z.of_nat index) ++ epoch_at c index else [].

Definition context_transcript (c : laplace_framework_context) : list Z :=
  domain_bytes "laplace-framework-context-v1" ++ store_le 2 (major c) ++
  store_le 2 (minor c) ++ store_le 4 (context_flags c) ++ store_le 8 (epoch_mask c) ++
  concat (map (epoch_transcript c) (seq 0 LAPLACE_FRAMEWORK_EPOCH_COUNT)) ++
  authority_fingerprint c ++ store_le 8 (memory_bytes (resource_grant c)) ++
  store_le 4 (cpu_slots (resource_grant c)) ++ store_le 4 (io_slots (resource_grant c)).

Lemma absorbs_epochs c indexes : forall h m,
  absorbs h m -> absorbs (foldl (hash_epoch c) h indexes)
                   (m ++ concat (map (epoch_transcript c) indexes)).
Proof.
  induction indexes as [|i indexes IH]; intros h m Hm; simpl; [by rewrite app_nil_r|].
  rewrite app_assoc. apply IH. unfold hash_epoch, epoch_transcript.
  destruct (epoch_present c i); [absorb | by rewrite app_nil_r].
Qed.

Lemma absorbs_context c : absorbs (hash_context c) (context_transcript c).
Proof.
  unfold hash_context, context_transcript. rewrite !app_assoc.
  apply absorbs_u32, absorbs_u32, absorbs_u64, absorbs_update, absorbs_epochs. absorb.
Qed.

Lemma epoch_at_bytes c index : context_wf c -> bytes 32 (epoch_at c index).
Proof.
  intros Hwf. unfold epoch_at. destruct (epochs c !! index) as [e|] eqn:E; simpl.
  - eapply Forall_lookup_1; [apply wf_epoch, Hwf | exact E].
  - apply bytes_zeros.
Qed.

Lemma epochs_inj c1 c2 indexes : context_wf c1 -> context_wf c2 ->
  epoch_mask c1 = epoch_mask c2 -> Forall (fun i => Z.of_nat i <= UINT32_MAX) indexes ->
  forall t1 t2,
  concat (map (epoch_transcript c1) indexes) ++ t1 =
    concat (map (epoch_transcript c2) indexes) ++ t2 ->
  t1 = t2 /\
  Forall (fun i => epoch_present c1 i = true -> epoch_at c1 i = epoch_at c2 i) indexes.
Proof.
  intros H1 H2 Hm Hi t1 t2. induction indexes as [|i indexes IH]; simpl; [done|].
  apply Forall_cons in Hi as [Hi His].
  assert (Hp : epoch_present c2 i = epoch_present c1 i) by (unfold epoch_present; by rewrite Hm).
  unfold epoch_transcript at 1 3. rewrite Hp. destruct (epoch_present c1 i) eqn:Ep; simpl.
  - rewrite <- !app_assoc. intros H.
    assert (bytes 4 (store_le 4 (Z.of_nat i))) by apply store_le_bytes.
    apply (app_bytes_inj 4) in H as [_ H]; [|done..].
    apply (app_bytes_inj 32) in H as [He H]; [|by apply epoch_at_bytes..].
    destruct (IH His H) as [-> HF]. split; [done|]. by constructor.
  - intros H. destruct (IH His H) as [-> HF]. split; [done|]. constructor; [|done].
    by rewrite Ep.
Qed.

Lemma validated_epochs c :
  laplace_framework_context_validate (Some c) = LAPLACE_FRAMEWORK_OK -> context_wf c ->
  context_reserved c = 0 /\
  forall i, (i < LAPLACE_FRAMEWORK_EPOCH_COUNT)%nat -> epoch_present c i = false ->
    epoch_at c i = zeros 32.
Proof.
  unfold laplace_framework_context_validate.
  casec; [done|]. casec; [done|]. casec; [done|]. intros _ Hwf. split; [done|]. intros i Hi Hp.
  assert (Hall : forallb (fun index => epoch_present c index || bytes_zero (epoch_at c index))
                   (seq 0 LAPLACE_FRAMEWORK_EPOCH_COUNT) = true).
  { apply forallb_forall. intros j Hj. match goal with H : existsb _ _ = false |- _ => apply not_true_iff_false in H as Hex end.
    destruct (epoch_present c j || bytes_zero (epoch_at c j)) eqn:E; [done|].
    contradict Hex. apply existsb_exists. exists j. split; [done|].
    by rewrite <- negb_orb, E. }
  rewrite forallb_forall in Hall. specialize (Hall i).
  rewrite Hp, orb_false_l in Hall.
  apply (bytes_zero_zeros 32); [by apply epoch_at_bytes|]. apply Hall.
  apply in_seq. lia.
Qed.

Lemma context_transcript_inj c1 c2 :
  context_wf c1 -> context_wf c2 ->
  laplace_framework_context_validate (Some c1) = LAPLACE_FRAMEWORK_OK ->
  laplace_framework_context_validate (Some c2) = LAPLACE_FRAMEWORK_OK ->
  context_transcript c1 = context_transcript c2 -> c1 = c2.
Proof.
  intros H1 H2 Hv1 Hv2 H. unfold context_transcript in H. apply app_inv_head in H.
  pose proof H1 as [? ? ? ? ? ? ? ? ? ?]. pose proof H2 as [? ? ? ? ? ? ? ? ? ?].
  peel H. apply epochs_inj in H as [H HF]; [|done..|by repeat constructor].
  rewrite <- (app_nil_r (store_le 4 (io_slots _))) in H.
  rewrite <- (app_nil_r (store_le 4 (io_slots (resource_grant c2)))) in H.
  peel H.
  destruct (validated_epochs c1 Hv1 H1) as [Hr1 Hz1].
  destruct (validated_epochs c2 Hv2 H2) as [Hr2 Hz2].
  assert (Hepochs : epochs c1 = epochs c2).
  { apply list_eq_same_length with LAPLACE_FRAMEWORK_EPOCH_COUNT; [done..|].
    intros i e1 e2 Hi He1 He2.
    assert (E : epoch_at c1 i = epoch_at c2 i).
    { destruct (epoch_present c1 i) eqn:Ep.
      - rewrite Forall_forall in HF. apply HF; [|done].
        apply elem_of_seq. lia.
      - rewrite Hz1 by done. rewrite Hz2; [done|lia|].
        revert Ep. unfold epoch_present. by replace (epoch_mask c2) with (epoch_mask c1). }
    unfold epoch_at in E. by rewrite He1, He2 in E. }
  destruct c1 as [? ? [] ? ? ? ? ?], c2 as [? ? [] ? ? ? ? ?]; simpl in *. congruence.
Qed.
End ContextFingerprint.

(** The context fingerprint identifies the context.  A valid context is
    fingerprinted by the digest of its transcript, and two valid contexts with
    the same transcript are equal in every field, the zero payload of absent
    epochs included; an invalid one leaves a zero fingerprint and its status. *)
Theorem context_fingerprint_binds {B : Blake3} {L : Blake3Laws B} c1 c2 fp0 :
  context_wf c1 -> context_wf c2 ->
  let '(s1, f1) := laplace_framework_context_fingerprint (Some c1) (Some fp0) in
  let '(s2, f2) := laplace_framework_context_fingerprint (Some c2) (Some fp0) in
  (s1 = LAPLACE_FRAMEWORK_OK -> f1 = Some (blake3 (context_transcript c1))) /\
  (s1 <> LAPLACE_FRAMEWORK_OK -> f1 = Some (zeros 32)) /\
  (s1 = LAPLACE_FRAMEWORK_OK -> s2 = LAPLACE_FRAMEWORK_OK ->
   context_transcript c1 = context_transcript c2 -> c1 = c2).
Proof.
  intros H1 H2. pose proof (context_fingerprint_cases (Some c1) fp0) as Hc1.
  pose proof (context_fingerprint_cases (Some c2) fp0) as Hc2.
  destruct (laplace_framework_context_fingerprint (Some c1) _) as [s1 [f1|]];
    destruct (laplace_framework_context_fingerprint (Some c2) _) as [s2 [f2|]];
    try (destruct s2; done); destruct s1; try done; try (rewrite Hc1; by split_and!).
  destruct Hc1 as (c & [= <-] & -> & Hv1). split_and!; [|done|].
  - intros _. f_equal. apply absorbs_finalize, absorbs_context.
  - intros _ ->. destruct Hc2 as (c & [= <-] & -> & Hv2). by apply context_transcript_inj.
Qed.

Lemma sample_context_wf : context_wf sample_context.
Proof. split; simpl; try lia; check. Qed.

Lemma context_fingerprint_binds_witness :
  laplace_framework_context_validate (Some sample_context) = LAPLACE_FRAMEWORK_OK /\
  let '(s, f) := laplace_framework_context_fingerprint (B := checksum_blake3)
                   (Some sample_context) (Some (zeros 32)) in
  s = LAPLACE_FRAMEWORK_OK -> f = Some (blake3 (B := checksum_blake3)
                                          (context_transcript sample_context)).
Proof.
  split; [reflexivity|].
  pose proof (context_fingerprint_binds (B := checksum_blake3) (L := checksum_blake3_laws)
    sample_context sample_context (zeros 32) sample_context_wf sample_context_wf) as H.
  destruct (laplace_framework_context_fingerprint _ _) as [s f]. apply H.
Defined.

(** ** Operation registry *)
Section RegistryLemmas.
Variable operations : list laplace_framework_operation_descriptor.

Lemma operation_at_lookup i op :
  operations !! i = Some op -> operation_at operations (Z.of_nat i) = op.
Proof. intros Hop. unfold operation_at. by rewrite Nat2Z.id, Hop. Qed.

Lemma validated_step count i :
  laplace_framework_registry_validate operations count = LAPLACE_FRAMEWORK_OK ->
  0 < i < laplace_framework_operation_count operations ->
  opcode (operation_at operations (i - 1)) < opcode (operation_at operations i).
Proof.
  unfold laplace_framework_registry_validate, laplace_framework_operation_count.
  casec; [done|]. casec; [done|]. intros _ Hi.
  destruct (operation_invalid operations i (operation_at operations i)) eqn:E.
  - apply not_true_iff_false in Hguard0. contradict Hguard0. apply existsb_exists.
    exists (Z.to_nat i). split; [apply in_seq; lia|]. by rewrite Z2Nat.id by lia.
  - unfold operation_invalid in E. bools.
    match goal with H : negb (i =? 0) && _ = false |- _ =>
      apply andb_false_iff in H as [H|H] end; bools; lia.
Qed.

Lemma validated_increasing count i j :
  laplace_framework_registry_validate operations count = LAPLACE_FRAMEWORK_OK ->
  0 <= i < j -> j < laplace_framework_operation_count operations ->
  opcode (operation_at operations i) < opcode (operation_at operations j).
Proof.
  intros Hv Hij. replace j with (i + 1 + Z.of_nat (Z.to_nat (j - i - 1))) by lia.
  generalize (Z.to_nat (j - i - 1)). induction n as [|n IH]; intros Hj.
  - pose proof (validated_step count (i + 1) Hv ltac:(lia)) as Hs.
    replace (i + 1 - 1) with i in Hs by lia. by replace (i + 1 + Z.of_nat 0) with (i + 1) by lia.
  - specialize (IH ltac:(lia)).
    pose proof (validated_step count (i + 1 + Z.of_nat (S n)) Hv ltac:(lia)) as Hs.
    replace (i + 1 + Z.of_nat (S n) - 1) with (i + 1 + Z.of_nat n) in Hs by lia. lia.
Qed.
End RegistryLemmas.

(** when the generated operation table validates, the binary search of
    [laplace_framework_operation_find] is exact: it returns a descriptor for a
    code if and only if the table has a descriptor with that code, and the
    descriptor of a code is unique. *)
Theorem operation_find_exact operations count code operation :
  laplace_framework_registry_validate operations count = LAPLACE_FRAMEWORK_OK ->
  (laplace_framework_operation_find operations code = Some operation <->
   operation ∈ operations /\ opcode operation = code).
Proof.
  intros Hv. pose proof (fun i j => validated_increasing operations count i j Hv) as Hlt.
  unfold laplace_framework_operation_find, laplace_framework_operation_count in *.
  destruct (lower_bound_spec (fun m => opcode (operation_at operations m) <? code)
    (length operations) 0 (Z.of_nat (length operations))) as (Hr & Hbefore & Hafter); [lia..| |].
  { intros i j Hij Hj Hb. bools. apply Z.ltb_lt.
    destruct (Z.eq_dec i j) as [->|]; [done|]. specialize (Hlt i j). lia. }
  set (low := lower_bound _ _ _ _) in *. split.
  - casec; [|done]. intros [= <-]. split; [|done]. unfold operation_at.
    destruct (lookup_lt_is_Some_2 operations (Z.to_nat low)) as [op Hop]; [lia|].
    rewrite Hop. by apply list_elem_of_lookup_2 in Hop.
  - intros [[i Hop]%list_elem_of_lookup Hcode].
    assert (Hi := lookup_lt_Some _ _ _ Hop).
    pose proof (operation_at_lookup _ _ _ Hop) as Hati.
    assert (low = Z.of_nat i) as ->.
    { destruct (Z.lt_trichotomy low (Z.of_nat i)) as [Hl|[Hl|Hl]]; [|done|].
      - specialize (Hafter low ltac:(lia)). bools.
        specialize (Hlt low (Z.of_nat i)). rewrite Hati in Hlt. lia.
      - specialize (Hbefore (Z.of_nat i) ltac:(lia)). bools. rewrite Hati in Hbefore. lia. }
    rewrite Hati, Hcode, Z.eqb_refl, (proj2 (Z.ltb_lt _ _)) by lia. done.
Qed.

Lemma operation_find_exact_witness :
  let table := [mk_operation 3 1 1 1 1 0 0; mk_operation 8 1 1 2 1 0 0] in
  laplace_framework_registry_validate table 2 = LAPLACE_FRAMEWORK_OK /\
  laplace_framework_operation_find table 8 = Some (mk_operation 8 1 1 2 1 0 0).
Proof.
  split; [reflexivity|].
  apply (operation_find_exact [mk_operation 3 1 1 1 1 0 0; mk_operation 8 1 1 2 1 0 0] 2);
    [reflexivity|]. split; [|reflexivity]. right. left.
Defined.
