(* ===== verification/Activation.v ===== *)
(** * Activation: admitting, committing and aborting a staged stream

    Models the last part of [engine/src/framework.c] (from
    [activation_provider_is_valid] on) with [hash_activation_request] and
    [hash_activation_receipt]: the admission of a staged stream against the
    epochs of a context, the commit or abort of what was admitted, and the
    validation of the receipts that are retained.

    An activation provider is a record of callbacks on a world, like a sink.
    [reachable] is the step relation of a client that calls the three entry
    points in any order on one receipt; [advance] is the automaton of the calls
    the provider may see. *)
From stdpp Require Import prelude strings.
From Stdlib Require Import ZArith Lia.
From S2P Require Import Prelude Bytes Sorting Hash Identity Framework.

Abbreviation LAPLACE_FRAMEWORK_CONTEXT_READ_ONLY := 2 (only parsing).
Abbreviation LAPLACE_FRAMEWORK_KNOWN_ACTIVATION_FLAGS := 0 (only parsing).
Abbreviation LAPLACE_FRAMEWORK_EFFECT_NONE := 0 (only parsing).
Abbreviation LAPLACE_FRAMEWORK_EFFECT_ACTIVATION_ADMITTED := 2 (only parsing).
Abbreviation LAPLACE_FRAMEWORK_EFFECT_ACTIVATED := 3 (only parsing).
Abbreviation LAPLACE_FRAMEWORK_ACTIVATION_PROVIDER_ABI_MAJOR := 1 (only parsing).
Abbreviation LAPLACE_FRAMEWORK_ACTIVATION_PROVIDER_ABI_MINOR := 0 (only parsing).

(** ** Data *)
Record laplace_framework_activation_request := mk_activation_request {
  expected_epoch : laplace_digest256;
  next_epoch : laplace_digest256;
  epoch_slot : Z;
  request_flags : Z;
  request_reserved : Z }.

#[export] Instance activation_request_eq_dec : EqDecision laplace_framework_activation_request.
Proof. solve_decision. Defined.

(** The callbacks, on the world [W] the state pointer gives access to.  The
    output fingerprint is passed with its content and returned. *)
Record laplace_framework_activation_provider_v1 (W : Type) := mk_activation_provider {
  provider_prepare : ptr (W -> ptr laplace_framework_context ->
    ptr laplace_framework_stream_receipt -> laplace_framework_activation_request ->
    laplace_digest256 -> laplace_framework_status * laplace_digest256 * W);
  provider_commit : ptr (W -> laplace_framework_activation_request -> laplace_digest256 ->
    laplace_digest256 -> laplace_framework_status * laplace_digest256 * W);
  provider_abort : ptr (W -> laplace_framework_activation_request -> laplace_digest256 -> W);
  provider_abi_major : Z;
  provider_abi_minor : Z;
  provider_flags : Z;
  provider_reserved : Z }.
Arguments mk_activation_provider {W}. Arguments provider_prepare {W}.
Arguments provider_commit {W}. Arguments provider_abort {W}.
Arguments provider_abi_major {W}. Arguments provider_abi_minor {W}.
Arguments provider_flags {W}. Arguments provider_reserved {W}.

Record laplace_framework_activation_receipt := mk_activation_receipt {
  activation_receipt_id : laplace_digest256;
  activation_context_fingerprint : laplace_digest256;
  staged_receipt_id : laplace_digest256;
  request_fingerprint : laplace_digest256;
  preparation_fingerprint : laplace_digest256;
  activation_fingerprint : laplace_digest256;
  receipt_expected_epoch : laplace_digest256;
  receipt_next_epoch : laplace_digest256;
  receipt_epoch_slot : Z;
  activation_effect : Z;
  activation_status : laplace_framework_status;
  activation_reserved : Z }.

(** ** Hashing *)
Section Hashing.
Context {B : Blake3}.

Definition hash_activation_request (staged_id : laplace_digest256)
    (request : laplace_framework_activation_request) : laplace_digest256 :=
  let hasher := blake3_hasher_update blake3_hasher_init
                  (domain_bytes "laplace-framework-activation-request-v1") in
  let hasher := blake3_hasher_update hasher staged_id in
  let hasher := hash_u32 hasher (epoch_slot request) in
  let hasher := hash_u32 hasher (request_flags request) in
  let hasher := blake3_hasher_update hasher (expected_epoch request) in
  let hasher := blake3_hasher_update hasher (next_epoch request) in
  blake3_hasher_finalize hasher.

Definition hash_activation_body (receipt : laplace_framework_activation_receipt)
    : blake3_hasher :=
  let hasher := blake3_hasher_update blake3_hasher_init
                  (domain_bytes "laplace-framework-activation-receipt-v1") in
  let hasher := hash_u32 hasher (status_value (activation_status receipt)) in
  let hasher := hash_u32 hasher (receipt_epoch_slot receipt) in
  let hasher := hash_u32 hasher (activation_effect receipt) in
  let hasher := blake3_hasher_update hasher (activation_context_fingerprint receipt) in
  let hasher := blake3_hasher_update hasher (staged_receipt_id receipt) in
  let hasher := blake3_hasher_update hasher (request_fingerprint receipt) in
  let hasher := blake3_hasher_update hasher (preparation_fingerprint receipt) in
  let hasher := blake3_hasher_update hasher (activation_fingerprint receipt) in
  let hasher := blake3_hasher_update hasher (receipt_expected_epoch receipt) in
  blake3_hasher_update hasher (receipt_next_epoch receipt).

Definition hash_activation_receipt (r : laplace_framework_activation_receipt)
    : laplace_framework_activation_receipt :=
  mk_activation_receipt (blake3_hasher_finalize (hash_activation_body r))
    (activation_context_fingerprint r) (staged_receipt_id r) (request_fingerprint r)
    (preparation_fingerprint r) (activation_fingerprint r) (receipt_expected_epoch r)
    (receipt_next_epoch r) (receipt_epoch_slot r) (activation_effect r)
    (activation_status r) (activation_reserved r).
End Hashing.

(** ** The receipt at the assignments of the code *)
Definition empty_activation_receipt : laplace_framework_activation_receipt :=
  mk_activation_receipt (zeros 32) (zeros 32) (zeros 32) (zeros 32) (zeros 32) (zeros 32)
    (zeros 32) (zeros 32) 0 0 LAPLACE_FRAMEWORK_OK 0.

Definition set_activation_context (fingerprint : laplace_digest256)
    (r : laplace_framework_activation_receipt) :=
  mk_activation_receipt (activation_receipt_id r) fingerprint (staged_receipt_id r)
    (request_fingerprint r) (preparation_fingerprint r) (activation_fingerprint r)
    (receipt_expected_epoch r) (receipt_next_epoch r) (receipt_epoch_slot r)
    (activation_effect r) (activation_status r) (activation_reserved r).

Definition set_request {B : Blake3} (staged_id : laplace_digest256)
    (request : laplace_framework_activation_request)
    (r : laplace_framework_activation_receipt) :=
  mk_activation_receipt (activation_receipt_id r) (activation_context_fingerprint r) staged_id
    (hash_activation_request staged_id request) (preparation_fingerprint r)
    (activation_fingerprint r) (expected_epoch request) (next_epoch request)
    (epoch_slot request) (activation_effect r) (activation_status r) (activation_reserved r).

Definition set_fingerprints (preparation activation : laplace_digest256)
    (r : laplace_framework_activation_receipt) :=
  mk_activation_receipt (activation_receipt_id r) (activation_context_fingerprint r)
    (staged_receipt_id r) (request_fingerprint r) preparation activation
    (receipt_expected_epoch r) (receipt_next_epoch r) (receipt_epoch_slot r)
    (activation_effect r) (activation_status r) (activation_reserved r).

(** [receipt->effect_disposition = effect; receipt->status = s;
    hash_activation_receipt(receipt)] *)
Definition finish_activation {B : Blake3} (s : laplace_framework_status) (effect : Z)
    (r : laplace_framework_activation_receipt) : laplace_framework_activation_receipt :=
  hash_activation_receipt
    (mk_activation_receipt (activation_receipt_id r) (activation_context_fingerprint r)
       (staged_receipt_id r) (request_fingerprint r) (preparation_fingerprint r)
       (activation_fingerprint r) (receipt_expected_epoch r) (receipt_next_epoch r)
       (receipt_epoch_slot r) effect s (activation_reserved r)).

(** ** Entry points *)
Section Activation.
Context {B : Blake3} {W : Type}.
Implicit Types (provider : laplace_framework_activation_provider_v1 W) (world : W).

Definition activation_provider_is_valid
    (provider : ptr (laplace_framework_activation_provider_v1 W)) : bool :=
  match provider with
  | None => false
  | Some provider =>
      negb (is_null (provider_prepare provider)) && negb (is_null (provider_commit provider)) &&
      negb (is_null (provider_abort provider)) &&
      (provider_abi_major provider =? LAPLACE_FRAMEWORK_ACTIVATION_PROVIDER_ABI_MAJOR) &&
      (provider_abi_minor provider <=? LAPLACE_FRAMEWORK_ACTIVATION_PROVIDER_ABI_MINOR) &&
      (provider_flags provider =? 0) && (provider_reserved provider =? 0)
  end.

(** The callbacks of a provider that has been validated. *)
Definition call_prepare provider world context staged request fingerprint :=
  match provider_prepare provider with
  | Some prepare => prepare world context staged request fingerprint
  | None => (LAPLACE_FRAMEWORK_OK, fingerprint, world)
  end.

Definition call_commit provider world request preparation fingerprint :=
  match provider_commit provider with
  | Some commit => commit world request preparation fingerprint
  | None => (LAPLACE_FRAMEWORK_OK, fingerprint, world)
  end.

Definition call_abort provider world request preparation : W :=
  match provider_abort provider with
  | Some abort => abort world request preparation
  | None => world
  end.

Definition admitted_receipt_is_valid (receipt : ptr laplace_framework_activation_receipt)
    : bool :=
  match receipt with
  | None => false
  | Some receipt =>
      return_when negb (bool_decide (activation_status receipt = LAPLACE_FRAMEWORK_OK)) ||
                  negb (activation_effect receipt =?
                        LAPLACE_FRAMEWORK_EFFECT_ACTIVATION_ADMITTED) ||
                  (Z.of_nat LAPLACE_FRAMEWORK_EPOCH_COUNT <=? receipt_epoch_slot receipt) ||
                  negb (activation_reserved receipt =? 0)
        with false ;;
      bytes_equal (activation_receipt_id receipt)
        (activation_receipt_id (hash_activation_receipt receipt))
  end.

Definition request_invalid (request : laplace_framework_activation_request) : bool :=
  (Z.of_nat LAPLACE_FRAMEWORK_EPOCH_COUNT <=? epoch_slot request) ||
  negb (request_flags request =? LAPLACE_FRAMEWORK_KNOWN_ACTIVATION_FLAGS) ||
  negb (request_reserved request =? 0) ||
  bytes_equal (expected_epoch request) (next_epoch request).

(** The slot is not held by the context at the expected epoch. *)
Definition epoch_unexpected (context : laplace_framework_context)
    (request : laplace_framework_activation_request) : bool :=
  (Z.land (epoch_mask context) (Z.shiftl 1 (epoch_slot request)) =? 0) ||
  negb (bytes_equal (epoch_at context (Z.to_nat (epoch_slot request)))
          (expected_epoch request)).

(** From [provider->prepare] on. *)
Definition prepare_admission provider (context : ptr laplace_framework_context)
    (staged : laplace_framework_stream_receipt)
    (request : laplace_framework_activation_request)
    (receipt : laplace_framework_activation_receipt) world
    : laplace_framework_status * laplace_framework_activation_receipt * W :=
  match call_prepare provider world context (Some staged) request
          (preparation_fingerprint receipt) with
  | (LAPLACE_FRAMEWORK_OK, preparation, world) =>
      (LAPLACE_FRAMEWORK_OK,
       finish_activation LAPLACE_FRAMEWORK_OK LAPLACE_FRAMEWORK_EFFECT_ACTIVATION_ADMITTED
         (set_fingerprints preparation (activation_fingerprint receipt) receipt), world)
  | (_, preparation, world) =>
      let world := call_abort provider world request preparation in
      (LAPLACE_FRAMEWORK_ACTIVATION_ADMISSION_FAILED,
       finish_activation LAPLACE_FRAMEWORK_ACTIVATION_ADMISSION_FAILED
         LAPLACE_FRAMEWORK_EFFECT_STAGED_INERT
         (set_fingerprints preparation (activation_fingerprint receipt) receipt), world)
  end.

Definition laplace_framework_admit_staged_stream (context : ptr laplace_framework_context)
    (staged : ptr laplace_framework_stream_receipt)
    (request : ptr laplace_framework_activation_request)
    (provider : ptr (laplace_framework_activation_provider_v1 W))
    (receipt : ptr laplace_framework_activation_receipt) (world : W)
    : laplace_framework_status * ptr laplace_framework_activation_receipt * W :=
  return_when is_null receipt with (LAPLACE_FRAMEWORK_INVALID_ARGUMENT, receipt, world) ;;
  let current := empty_activation_receipt in
  let stop s current := (s, Some (finish_activation s LAPLACE_FRAMEWORK_EFFECT_NONE current),
                         world) in
  match laplace_framework_context_fingerprint context
          (Some (activation_context_fingerprint current)), context with
  | (LAPLACE_FRAMEWORK_OK, Some fingerprint), Some held =>
      let current := set_activation_context fingerprint current in
      match laplace_framework_stream_receipt_validate context staged, staged, request with
      | LAPLACE_FRAMEWORK_OK, Some staged, Some request =>
          return_when request_invalid request
            with stop LAPLACE_FRAMEWORK_ACTIVATION_REQUEST_INVALID current ;;
          let current := set_request (receipt_id staged) request current in
          return_when negb (Z.land (context_flags held)
                              LAPLACE_FRAMEWORK_CONTEXT_READ_ONLY =? 0)
            with stop LAPLACE_FRAMEWORK_EFFECT_NOT_AUTHORIZED current ;;
          return_when epoch_unexpected held request
            with stop LAPLACE_FRAMEWORK_ACTIVATION_REQUEST_INVALID current ;;
          match activation_provider_is_valid provider, provider with
          | true, Some provider =>
              let '(s, current, world) :=
                prepare_admission provider context staged request current world in
              (s, Some current, world)
          | _, _ => stop LAPLACE_FRAMEWORK_ACTIVATION_PROVIDER_INVALID current
          end
      | _, _, _ => stop LAPLACE_FRAMEWORK_ACTIVATION_REQUEST_INVALID current
      end
  | (failed, fingerprint), _ =>
      stop failed (set_activation_context (default (zeros 32) fingerprint) current)
  end.

Definition laplace_framework_admitted_stream_validate (context : ptr laplace_framework_context)
    (request : ptr laplace_framework_activation_request)
    (provider : ptr (laplace_framework_activation_provider_v1 W))
    (receipt : ptr laplace_framework_activation_receipt) : laplace_framework_status :=
  match context, request, receipt,
        laplace_framework_context_fingerprint context (Some (zeros 32)) with
  | Some _, Some request, Some admitted, (LAPLACE_FRAMEWORK_OK, fingerprint) =>
      return_when negb (activation_provider_is_valid provider) ||
                  negb (admitted_receipt_is_valid receipt) ||
                  negb (bytes_equal (activation_context_fingerprint admitted)
                          (default [] fingerprint)) ||
                  negb (receipt_epoch_slot admitted =? epoch_slot request) ||
                  negb (bytes_equal (receipt_expected_epoch admitted)
                          (expected_epoch request)) ||
                  negb (bytes_equal (receipt_next_epoch admitted) (next_epoch request))
        with LAPLACE_FRAMEWORK_ACTIVATION_REQUEST_INVALID ;;
      LAPLACE_FRAMEWORK_OK
  | _, _, _, _ => LAPLACE_FRAMEWORK_ACTIVATION_REQUEST_INVALID
  end.

Definition laplace_framework_commit_admitted_stream (context : ptr laplace_framework_context)
    (request : ptr laplace_framework_activation_request)
    (provider : ptr (laplace_framework_activation_provider_v1 W))
    (receipt : ptr laplace_framework_activation_receipt) (world : W)
    : laplace_framework_status * ptr laplace_framework_activation_receipt * W :=
  match laplace_framework_admitted_stream_validate context request provider receipt,
        request, provider, receipt with
  | LAPLACE_FRAMEWORK_OK, Some request, Some provider, Some admitted =>
      let preparation := preparation_fingerprint admitted in
      match call_commit provider world request preparation
              (activation_fingerprint admitted) with
      | (LAPLACE_FRAMEWORK_OK, activation, world) =>
          (LAPLACE_FRAMEWORK_OK,
           Some (finish_activation LAPLACE_FRAMEWORK_OK LAPLACE_FRAMEWORK_EFFECT_ACTIVATED
                   (set_fingerprints preparation activation admitted)), world)
      | (_, activation, world) =>
          let world := call_abort provider world request preparation in
          (LAPLACE_FRAMEWORK_ACTIVATION_COMMIT_FAILED,
           Some (finish_activation LAPLACE_FRAMEWORK_ACTIVATION_COMMIT_FAILED
                   (activation_effect admitted)
                   (set_fingerprints preparation activation admitted)), world)
      end
  | s, _, _, _ => (s, receipt, world)
  end.

Definition laplace_framework_abort_admitted_stream (context : ptr laplace_framework_context)
    (request : ptr laplace_framework_activation_request)
    (provider : ptr (laplace_framework_activation_provider_v1 W))
    (receipt : ptr laplace_framework_activation_receipt) (world : W)
    : laplace_framework_status * ptr laplace_framework_activation_receipt * W :=
  match laplace_framework_admitted_stream_validate context request provider receipt,
        request, provider, receipt with
  | LAPLACE_FRAMEWORK_OK, Some request, Some provider, Some admitted =>
      let world := call_abort provider world request (preparation_fingerprint admitted) in
      (LAPLACE_FRAMEWORK_OK,
       Some (finish_activation LAPLACE_FRAMEWORK_OK LAPLACE_FRAMEWORK_EFFECT_STAGED_INERT
               (set_fingerprints (preparation_fingerprint admitted) (zeros 32) admitted)),
       world)
  | _, _, _, _ => (LAPLACE_FRAMEWORK_ACTIVATION_REQUEST_INVALID, receipt, world)
  end.

Definition laplace_framework_activate_staged_stream (context : ptr laplace_framework_context)
    (staged : ptr laplace_framework_stream_receipt)
    (request : ptr laplace_framework_activation_request)
    (provider : ptr (laplace_framework_activation_provider_v1 W))
    (receipt : ptr laplace_framework_activation_receipt) (world : W)
    : laplace_framework_status * ptr laplace_framework_activation_receipt * W :=
  match laplace_framework_admit_staged_stream context staged request provider receipt world with
  | (LAPLACE_FRAMEWORK_OK, receipt, world) =>
      laplace_framework_commit_admitted_stream context request provider receipt world
  | failed => failed
  end.
End Activation.

(** The receipt both identities are recomputed from. *)
Definition admitted_body {B : Blake3} (context_fingerprint staged_receipt_id : laplace_digest256)
    (request : laplace_framework_activation_request) (preparation : laplace_digest256)
    : laplace_framework_activation_receipt :=
  hash_activation_receipt
    (mk_activation_receipt (zeros 32) context_fingerprint staged_receipt_id
       (hash_activation_request staged_receipt_id request) preparation (zeros 32)
       (expected_epoch request) (next_epoch request) (epoch_slot request)
       LAPLACE_FRAMEWORK_EFFECT_ACTIVATION_ADMITTED LAPLACE_FRAMEWORK_OK 0).

Definition laplace_framework_committed_receipts_validate {B : Blake3}
    (context_fingerprint staged_receipt_id : ptr laplace_digest256)
    (request : ptr laplace_framework_activation_request)
    (preparation_fingerprint activation_fingerprint admission_receipt_id
       activation_id : ptr laplace_digest256) : laplace_framework_status :=
  match context_fingerprint, staged_receipt_id, request, preparation_fingerprint,
        activation_fingerprint, admission_receipt_id, activation_id with
  | Some context_fingerprint, Some staged_receipt_id, Some request, Some preparation,
    Some activation, Some admission_receipt_id, Some activation_id =>
      return_when request_invalid request
        with LAPLACE_FRAMEWORK_ACTIVATION_REQUEST_INVALID ;;
      let expected := admitted_body context_fingerprint staged_receipt_id request preparation in
      return_when negb (bytes_equal (activation_receipt_id expected) admission_receipt_id)
        with LAPLACE_FRAMEWORK_ACTIVATION_REQUEST_INVALID ;;
      let expected :=
        finish_activation LAPLACE_FRAMEWORK_OK LAPLACE_FRAMEWORK_EFFECT_ACTIVATED
          (set_fingerprints preparation activation expected) in
      if bytes_equal (activation_receipt_id expected) activation_id then LAPLACE_FRAMEWORK_OK
      else LAPLACE_FRAMEWORK_ACTIVATION_REQUEST_INVALID
  | _, _, _, _, _, _, _ => LAPLACE_FRAMEWORK_ACTIVATION_REQUEST_INVALID
  end.

(** ** Instrumented providers *)
Inductive activation_event :=
| Prepared (request : laplace_framework_activation_request) (preparation : laplace_digest256)
    (accepted : bool)
| Committed (request : laplace_framework_activation_request)
    (preparation : laplace_digest256) (accepted : bool)
| Withdrawn (request : laplace_framework_activation_request) (preparation : laplace_digest256).

Definition accepted (s : laplace_framework_status) : bool :=
  bool_decide (s = LAPLACE_FRAMEWORK_OK).

(** Logs every call the provider receives and what it answered. *)
Definition traced_provider {W} (provider : laplace_framework_activation_provider_v1 W)
    : laplace_framework_activation_provider_v1 (W * list activation_event) := {|
  provider_prepare := (fun prepare '(w, log) context staged request fingerprint =>
    let '(s, preparation, w) := prepare w context staged request fingerprint in
    (s, preparation, (w, log ++ [Prepared request preparation (accepted s)])))
    <$> provider_prepare provider;
  provider_commit := (fun commit '(w, log) request preparation fingerprint =>
    let '(s, activation, w) := commit w request preparation fingerprint in
    (s, activation, (w, log ++ [Committed request preparation (accepted s)])))
    <$> provider_commit provider;
  provider_abort := (fun abort '(w, log) request preparation =>
    (abort w request preparation, log ++ [Withdrawn request preparation]))
    <$> provider_abort provider;
  provider_abi_major := provider_abi_major provider;
  provider_abi_minor := provider_abi_minor provider;
  provider_flags := provider_flags provider;
  provider_reserved := provider_reserved provider |}.

(** ** The protocol of a provider
    [Open q f]: the preparation [f] of request [q] is neither committed nor
    withdrawn.  [Owed q f]: a call on it has failed and its withdrawal is due. *)
Inductive activation_phase :=
| Idle
| Open (request : laplace_framework_activation_request) (preparation : laplace_digest256)
| Owed (request : laplace_framework_activation_request) (preparation : laplace_digest256).

(** The same transition of the same epoch slot. *)
Definition same_transition (q q' : laplace_framework_activation_request) : Prop :=
  epoch_slot q = epoch_slot q' /\ expected_epoch q = expected_epoch q' /\
  next_epoch q = next_epoch q'.

#[export] Instance same_transition_dec q q' : Decision (same_transition q q').
Proof. unfold same_transition. apply _. Defined.

Definition advance (phase : activation_phase) (event : activation_event)
    : option activation_phase :=
  match phase, event with
  | Owed q f, Withdrawn q' f' => if decide (q = q' /\ f = f') then Some Idle else None
  | Owed _ _, _ => None
  | _, Prepared q f true => Some (Open q f)
  | _, Prepared q f false => Some (Owed q f)
  | Open q f, Committed q' f' ok =>
      if decide (same_transition q q' /\ f = f') then Some (if ok then Idle else Owed q' f)
      else None
  | Open q f, Withdrawn q' f' =>
      if decide (same_transition q q' /\ f = f') then Some Idle else None
  | Idle, _ => None
  end.

Definition advances (phase : activation_phase) (log : list activation_event)
    : option activation_phase :=
  foldl (fun phase event => phase ≫= fun phase => advance phase event) (Some phase) log.

(** ** A client of one receipt
    Any sequence of the entry points, with any contexts, staged receipts and
    requests, from a receipt object that does not hold an admission. *)
Section Client.
Context {B : Blake3} {W : Type}.
Variable provider : laplace_framework_activation_provider_v1 W.

Inductive reachable : laplace_framework_activation_receipt -> W * list activation_event -> Prop :=
| reach_start r w :
    admitted_receipt_is_valid (Some r) = false -> reachable r (w, [])
| reach_admit r w context staged request s r' w' :
    reachable r w ->
    laplace_framework_admit_staged_stream context staged request
      (Some (traced_provider provider)) (Some r) w = (s, Some r', w') ->
    reachable r' w'
| reach_commit r w context request s r' w' :
    reachable r w ->
    laplace_framework_commit_admitted_stream context request
      (Some (traced_provider provider)) (Some r) w = (s, Some r', w') ->
    reachable r' w'
| reach_abort r w context request s r' w' :
    reachable r w ->
    laplace_framework_abort_admitted_stream context request
      (Some (traced_provider provider)) (Some r) w = (s, Some r', w') ->
    reachable r' w'
| reach_activate r w context staged request s r' w' :
    reachable r w ->
    laplace_framework_activate_staged_stream context staged request
      (Some (traced_provider provider)) (Some r) w = (s, Some r', w') ->
    reachable r' w'.

(** The receipt holds an admission exactly of the preparation that is open. *)
Definition settled (r : laplace_framework_activation_receipt)
    (w : W * list activation_event) : Prop :=
  exists phase, advances Idle w.2 = Some phase /\
    match phase with Owed _ _ => False | _ => True end /\
    (admitted_receipt_is_valid (Some r) = true ->
     exists q, phase = Open q (preparation_fingerprint r) /\
       receipt_epoch_slot r = epoch_slot q /\ receipt_expected_epoch r = expected_epoch q /\
       receipt_next_epoch r = next_epoch q).
End Client.

(** ** Lemmas *)
Section Lemmas.
Context {B : Blake3} {W : Type}.
Variable provider : laplace_framework_activation_provider_v1 W.

Lemma advances_snoc phase log event :
  advances phase (log ++ [event]) = advances phase log ≫= fun p => advance p event.
Proof. unfold advances. by rewrite foldl_app. Qed.

Lemma advance_prepared log phase q f ok :
  advances Idle log = Some phase -> match phase with Owed _ _ => False | _ => True end ->
  advances Idle (log ++ [Prepared q f ok]) = Some (if ok then Open q f else Owed q f).
Proof. intros H Hp. rewrite advances_snoc, H. by destruct phase, ok. Qed.

Lemma finished_not_admitted s effect r :
  s <> LAPLACE_FRAMEWORK_OK \/ effect <> 2 ->
  admitted_receipt_is_valid (Some (finish_activation s effect r)) = false.
Proof.
  intros H. cbn [admitted_receipt_is_valid]. unfold finish_activation, hash_activation_receipt.
  cbn. casec; [done|]. destruct H as [H|H]; [|lia].
  by rewrite bool_decide_eq_false_2 in *.
Qed.

Lemma settled_idle (w : W) log s effect r :
  advances Idle log = Some Idle -> s <> LAPLACE_FRAMEWORK_OK \/ effect <> 2 ->
  settled (finish_activation s effect r) (w, log).
Proof.
  intros Hlog H. exists Idle. split_and!; [exact Hlog | done |].
  by rewrite finished_not_admitted.
Qed.

(** A validated provider has its callbacks. *)
Lemma provider_callbacks (p : laplace_framework_activation_provider_v1 W) :
  activation_provider_is_valid (Some p) = true ->
  exists prepare commit abort, provider_prepare p = Some prepare /\
    provider_commit p = Some commit /\ provider_abort p = Some abort.
Proof.
  unfold activation_provider_is_valid. destruct (provider_prepare p), (provider_commit p),
    (provider_abort p); simpl; naive_solver.
Qed.

Lemma traced_provider_valid :
  activation_provider_is_valid (Some (traced_provider provider)) =
  activation_provider_is_valid (Some provider).
Proof.
  unfold activation_provider_is_valid, traced_provider. simpl.
  by destruct (provider_prepare provider), (provider_commit provider), (provider_abort provider).
Qed.

(** What the tracing of a valid provider adds to each call. *)
Lemma traced_calls w log context staged q f g :
  activation_provider_is_valid (Some provider) = true ->
  call_prepare (traced_provider provider) (w, log) context staged q f =
    (let '(s, p, w') := call_prepare provider w context staged q f in
     (s, p, (w', log ++ [Prepared q p (accepted s)]))) /\
  call_commit (traced_provider provider) (w, log) q f g =
    (let '(s, a, w') := call_commit provider w q f g in
     (s, a, (w', log ++ [Committed q f (accepted s)]))) /\
  call_abort (traced_provider provider) (w, log) q f =
    (call_abort provider w q f, log ++ [Withdrawn q f]).
Proof.
  intros (prepare & commit & abort & Hp & Hc & Ha)%provider_callbacks.
  unfold call_prepare, call_commit, call_abort, traced_provider. simpl.
  by rewrite Hp, Hc, Ha.
Qed.

(** What validation against an admitted receipt guarantees. *)
Lemma admitted_validated {V} context request
    (p : ptr (laplace_framework_activation_provider_v1 V)) receipt :
  laplace_framework_admitted_stream_validate context request p receipt =
    LAPLACE_FRAMEWORK_OK ->
  exists q r p', request = Some q /\ receipt = Some r /\ p = Some p' /\
    activation_provider_is_valid p = true /\ admitted_receipt_is_valid receipt = true /\
    laplace_framework_context_fingerprint context (Some (zeros 32)) =
      (LAPLACE_FRAMEWORK_OK, Some (activation_context_fingerprint r)) /\
    receipt_epoch_slot r = epoch_slot q /\ receipt_expected_epoch r = expected_epoch q /\
    receipt_next_epoch r = next_epoch q.
Proof.
  unfold laplace_framework_admitted_stream_validate.
  destruct context as [c|]; [|done]. destruct request as [q|]; [|done].
  destruct receipt as [r|]; [|done].
  pose proof (context_fingerprint_cases (Some c) (zeros 32)) as Hc.
  destruct (laplace_framework_context_fingerprint (Some c) (Some (zeros 32)))
    as [s [fp|]]; destruct s; try done.
  casec; [done|]. intros _.
  repeat match goal with H : bytes_equal _ _ = true |- _ => apply bytes_equal_spec in H end.
  destruct p as [p|]; [|done]. exists q, r, p. change (default [] (Some fp)) with fp in *.
  split_and!; try congruence. by do 2 f_equal.
Qed.

(** A call of [prepare], and of [abort] when it fails, keeps the books. *)
Lemma prepare_settled context staged q r w :
  activation_provider_is_valid (Some provider) = true ->
  receipt_epoch_slot r = epoch_slot q -> receipt_expected_epoch r = expected_epoch q ->
  receipt_next_epoch r = next_epoch q ->
  (exists phase, advances Idle w.2 = Some phase /\
     match phase with Owed _ _ => False | _ => True end) ->
  let '(s, r', w') := prepare_admission (traced_provider provider) context staged q r w in
  settled r' w'.
Proof.
  intros Hv H1 H2 H3 (phase & Hlog & Hphase). destruct w as [w log]. unfold prepare_admission.
  destruct (traced_calls w log context (Some staged) q (preparation_fingerprint r)
    (preparation_fingerprint r) Hv) as (-> & _ & _).
  destruct (call_prepare provider w context (Some staged) q (preparation_fingerprint r))
    as [[s p] w1].
  pose proof (fun ok => advance_prepared log phase q p ok Hlog Hphase) as Hadv.
  assert (Hfail : s <> LAPLACE_FRAMEWORK_OK ->
    settled (finish_activation LAPLACE_FRAMEWORK_ACTIVATION_ADMISSION_FAILED 1
               (set_fingerprints p (activation_fingerprint r) r))
      (call_abort (traced_provider provider) (w1, log ++ [Prepared q p (accepted s)]) q p)).
  { intros Hs. destruct (traced_calls w1 (log ++ [Prepared q p (accepted s)]) context
      (Some staged) q p p Hv) as (_ & _ & ->).
    apply settled_idle; [|by left]. unfold accepted. rewrite (bool_decide_eq_false_2 _ Hs).
    rewrite advances_snoc, Hadv. simpl. by rewrite decide_True. }
  destruct s; try (apply Hfail; done).
  exists (Open q p). split_and!; [apply Hadv | done | by exists q].
Qed.

Lemma reset_settled r (w : W * list activation_event) : settled r w ->
  forall s effect r', s <> LAPLACE_FRAMEWORK_OK \/ effect <> 2 ->
  settled (finish_activation s effect r') w.
Proof.
  intros (phase & ? & ? & _) s effect r' Hs. exists phase. split_and!; [done..|].
  by rewrite finished_not_admitted.
Qed.

Lemma admit_settled context staged request r (w : W * list activation_event) s r' w' :
  settled r w ->
  laplace_framework_admit_staged_stream context staged request
    (Some (traced_provider provider)) (Some r) w = (s, Some r', w') ->
  settled r' w' /\ (s = LAPLACE_FRAMEWORK_OK ->
    activation_provider_is_valid (Some provider) = true).
Proof.
  intros Hset. unfold laplace_framework_admit_staged_stream. ptrs.
  assert (Hstop : forall s0 cur, s0 <> LAPLACE_FRAMEWORK_OK ->
    (s0, Some (finish_activation s0 0 cur), w) = (s, Some r', w') ->
    settled r' w' /\ (s = LAPLACE_FRAMEWORK_OK ->
      activation_provider_is_valid (Some provider) = true)).
  { intros s0 cur Hs [= <- <- <-]. split; [|done]. apply (reset_settled r w Hset). by left. }
  pose proof (context_fingerprint_cases context
    (activation_context_fingerprint empty_activation_receipt)) as Hc.
  destruct (laplace_framework_context_fingerprint context _) as [s0 [fp|]];
    destruct s0; try done; try (apply Hstop; done).
  destruct Hc as (c & -> & _). set (cur := set_activation_context fp _).
  destruct (laplace_framework_stream_receipt_validate (Some c) staged);
    try (apply Hstop; done).
  destruct staged as [staged|]; [|by apply Hstop].
  destruct request as [q|]; [|by apply Hstop].
  casec; [by apply Hstop|]. casec; [by apply Hstop|]. casec; [by apply Hstop|].
  rewrite traced_provider_valid.
  destruct (activation_provider_is_valid (Some provider)) eqn:Hv; [|by apply Hstop].
  pose proof (prepare_settled (Some c) staged q (set_request (receipt_id staged) q cur) w
    Hv eq_refl eq_refl eq_refl) as Hp.
  destruct (prepare_admission _ _ _ _ _ _) as [[s1 r1] w1]. intros [= <- <- <-].
  split; [|done]. apply Hp. destruct Hset as (phase & ? & ? & _). by exists phase.
Qed.

(** The phase an admitted receipt stands for. *)
Lemma settled_open r (w : W * list activation_event) : settled r w -> admitted_receipt_is_valid (Some r) = true ->
  exists q, advances Idle w.2 = Some (Open q (preparation_fingerprint r)) /\
    receipt_epoch_slot r = epoch_slot q /\ receipt_expected_epoch r = expected_epoch q /\
    receipt_next_epoch r = next_epoch q.
Proof. intros (phase & Hl & _ & H) (q & -> & ?)%H. by exists q. Qed.

Lemma commit_settled context request r w s r' w' :
  settled r w ->
  laplace_framework_commit_admitted_stream context request
    (Some (traced_provider provider)) (Some r) w = (s, Some r', w') ->
  settled r' w'.
Proof.
  intros Hset. unfold laplace_framework_commit_admitted_stream.
  destruct (laplace_framework_admitted_stream_validate context request
    (Some (traced_provider provider)) (Some r)) eqn:E;
    try by (intros [= <- <- <-]).
  apply admitted_validated in E as (q & r0 & p' & -> & [= <-] & _ & Hv & Hr & _ & E1 & E2 & E3).
  rewrite traced_provider_valid in Hv. destruct w as [w log].
  destruct (settled_open r (w, log) Hset Hr) as (q0 & Hopen & F1 & F2 & F3).
  cbn [snd] in Hopen.
  destruct (traced_calls w log context None q (preparation_fingerprint r)
    (activation_fingerprint r) Hv) as (_ & -> & _).
  destruct (call_commit provider w q (preparation_fingerprint r) (activation_fingerprint r))
    as [[s1 a] w1].
  assert (Hnext : forall ok, advances Idle (log ++ [Committed q (preparation_fingerprint r) ok]) =
    Some (if ok then Idle else Owed q (preparation_fingerprint r))).
  { intros ok. rewrite advances_snoc, Hopen. simpl. rewrite decide_True; [by destruct ok|].
    split; [|done]. unfold same_transition. split_and!; congruence. }
  assert (Hfail : s1 <> LAPLACE_FRAMEWORK_OK -> forall cur,
    settled (finish_activation LAPLACE_FRAMEWORK_ACTIVATION_COMMIT_FAILED (activation_effect r)
               cur)
      (call_abort (traced_provider provider)
         (w1, log ++ [Committed q (preparation_fingerprint r) (accepted s1)]) q
         (preparation_fingerprint r))).
  { intros Hs cur. destruct (traced_calls w1
      (log ++ [Committed q (preparation_fingerprint r) (accepted s1)]) context None q
      (preparation_fingerprint r) (activation_fingerprint r) Hv) as (_ & _ & ->).
    apply settled_idle; [|by left]. unfold accepted. rewrite (bool_decide_eq_false_2 _ Hs).
    rewrite advances_snoc, Hnext. simpl. by rewrite decide_True. }
  destruct (decide (s1 = LAPLACE_FRAMEWORK_OK)) as [-> | Hs].
  - intros [= <- <- <-]. apply settled_idle; [apply Hnext | right; lia].
  - specialize (Hfail Hs). destruct s1; try done; intros [= <- <- <-]; apply Hfail.
Qed.

Lemma abort_settled context request r w s r' w' :
  settled r w ->
  laplace_framework_abort_admitted_stream context request
    (Some (traced_provider provider)) (Some r) w = (s, Some r', w') ->
  settled r' w'.
Proof.
  intros Hset. unfold laplace_framework_abort_admitted_stream.
  destruct (laplace_framework_admitted_stream_validate context request
    (Some (traced_provider provider)) (Some r)) eqn:E;
    try by (intros [= <- <- <-]).
  apply admitted_validated in E as (q & r0 & p' & -> & [= <-] & _ & Hv & Hr & _ & E1 & E2 & E3).
  rewrite traced_provider_valid in Hv. destruct w as [w log].
  destruct (settled_open r (w, log) Hset Hr) as (q0 & Hopen & F1 & F2 & F3).
  cbn [snd] in Hopen.
  destruct (traced_calls w log context None q (preparation_fingerprint r)
    (activation_fingerprint r) Hv) as (_ & _ & ->).
  intros [= <- <- <-]. apply settled_idle; [|right; lia].
  rewrite advances_snoc, Hopen. simpl. rewrite decide_True; [done|].
  split; [unfold same_transition; split_and!; congruence | done].
Qed.

(** Admission never loses the receipt. *)
Lemma admit_receipt context staged request p r (w : W * list activation_event) :
  exists s r' w', laplace_framework_admit_staged_stream context staged request p (Some r) w =
    (s, Some r', w').
Proof.
  unfold laplace_framework_admit_staged_stream. ptrs.
  destruct (laplace_framework_context_fingerprint context _) as [s0 [fp|]];
    destruct s0, context as [c|]; eauto.
  destruct (laplace_framework_stream_receipt_validate (Some c) staged), staged as [staged|],
    request as [q|]; eauto.
  casec; [eauto|]. casec; [eauto|]. casec; [eauto|].
  destruct (activation_provider_is_valid p), p as [p|]; eauto.
  destruct (prepare_admission _ _ _ _ _ _) as [[s1 r1] w1]. eauto.
Qed.

Lemma activate_settled context staged request r w s r' w' :
  settled r w ->
  laplace_framework_activate_staged_stream context staged request
    (Some (traced_provider provider)) (Some r) w = (s, Some r', w') ->
  settled r' w'.
Proof.
  intros Hset. unfold laplace_framework_activate_staged_stream.
  destruct (admit_receipt context staged request (Some (traced_provider provider)) r w)
    as (s1 & r1 & w1 & E). rewrite E.
  apply (admit_settled _ _ _ _ _ _ _ _ Hset) in E as [Hset1 _].
  destruct s1; try (intros [= <- <- <-]; exact Hset1).
  by apply commit_settled.
Qed.

Lemma reachable_settled r (w : W * list activation_event) : reachable provider r w -> settled r w.
Proof.
  induction 1.
  - exists Idle. split_and!; [done..|]. intros. congruence.
  - by eapply admit_settled.
  - by eapply commit_settled.
  - by eapply abort_settled.
  - by eapply activate_settled.
Qed.
End Lemmas.

(** ** Properties *)
(** C17: an activation provider is driven by a protocol, whatever a client does.
    In every state reachable by admitting, committing, aborting and activating
    on one receipt, in any order and with any arguments, the calls the provider
    received follow [advance]: a commit or withdrawal only ever concerns the
    preparation that is open, with its own fingerprint and epoch transition, so
    nothing is committed twice or both committed and withdrawn; a preparation
    or commit that failed was withdrawn at once; and a receipt that passes for
    an admission is that of the open preparation. *)
Theorem activation_settled {B : Blake3} {W}
    (provider : laplace_framework_activation_provider_v1 W) r w log :
  reachable provider r (w, log) ->
  exists phase, advances Idle log = Some phase /\
    (forall q f, phase <> Owed q f) /\
    (admitted_receipt_is_valid (Some r) = true ->
     exists q, phase = Open q (preparation_fingerprint r) /\
       receipt_epoch_slot r = epoch_slot q /\ receipt_expected_epoch r = expected_epoch q /\
       receipt_next_epoch r = next_epoch q).
Proof.
  intros (phase & Hlog & Hphase & Hr)%reachable_settled. exists phase.
  split_and!; [exact Hlog | | exact Hr]. intros q f ->. done.
Qed.

Definition activation_authorized {B : Blake3} (context : ptr laplace_framework_context)
    (staged : ptr laplace_framework_stream_receipt)
    (request : ptr laplace_framework_activation_request) : bool :=
  match context, request with
  | Some held, Some request =>
      bool_decide (laplace_framework_stream_receipt_validate context staged =
                   LAPLACE_FRAMEWORK_OK) &&
      negb (request_invalid request) &&
      (Z.land (context_flags held) LAPLACE_FRAMEWORK_CONTEXT_READ_ONLY =? 0) &&
      negb (epoch_unexpected held request)
  | _, _ => false
  end.

(** A receipt as a call that returned [s] leaves it. *)
Definition activation_finished {B : Blake3} (s : laplace_framework_status)
    (r : ptr laplace_framework_activation_receipt) : Prop :=
  exists rf, r = Some rf /\ activation_status rf = s /\ hash_activation_receipt rf = rf /\
    (activation_effect rf = LAPLACE_FRAMEWORK_EFFECT_ACTIVATED -> s = LAPLACE_FRAMEWORK_OK).

Section Exactness.
Context {B : Blake3} {W : Type}.
Variable provider : laplace_framework_activation_provider_v1 W.
Hypothesis Hprovider : activation_provider_is_valid (Some provider) = true.

Lemma finish_finished s effect r :
  s = LAPLACE_FRAMEWORK_OK \/ effect <> LAPLACE_FRAMEWORK_EFFECT_ACTIVATED ->
  activation_finished s (Some (finish_activation s effect r)).
Proof. intros H. eexists. split_and!; [done..|]. simpl. intros ->. by destruct H. Qed.

Lemma staged_validated context staged :
  laplace_framework_stream_receipt_validate context staged = LAPLACE_FRAMEWORK_OK ->
  exists fp g, staged = Some g /\
    laplace_framework_context_fingerprint context (Some (zeros 32)) =
      (LAPLACE_FRAMEWORK_OK, Some fp).
Proof.
  unfold laplace_framework_stream_receipt_validate.
  pose proof (context_fingerprint_cases context (zeros 32)) as Hc.
  destruct (laplace_framework_context_fingerprint context (Some (zeros 32))) as [s [fp|]];
    destruct s; try done. casec; [done|]. intros _.
  destruct staged as [g|]; [by exists fp, g | done].
Qed.

(** Admission refuses whatever is not authorized, without calling the provider. *)
Lemma admit_unauthorized context staged request r w :
  activation_authorized context staged request = false ->
  exists s rf, laplace_framework_admit_staged_stream context staged request (Some provider)
    (Some r) w = (s, Some rf, w) /\ s <> LAPLACE_FRAMEWORK_OK /\
    activation_finished s (Some rf).
Proof.
  unfold activation_authorized, laplace_framework_admit_staged_stream. ptrs.
  assert (Hstop : forall s cur, s <> LAPLACE_FRAMEWORK_OK ->
    exists s' rf, (s, Some (finish_activation s 0 cur), w) = (s', Some rf, w) /\
      s' <> LAPLACE_FRAMEWORK_OK /\ activation_finished s' (Some rf)).
  { intros s cur Hs. eexists _, _. split_and!; [done..|]. apply finish_finished. right. lia. }
  pose proof (context_fingerprint_cases context
    (activation_context_fingerprint empty_activation_receipt)) as Hc.
  destruct (laplace_framework_context_fingerprint context _) as [s0 [fp|]];
    destruct s0; try done; try (intros _; apply Hstop; done).
  destruct Hc as (c & -> & _). set (cur := set_activation_context fp _).
  destruct (laplace_framework_stream_receipt_validate (Some c) staged) eqn:Es;
    try (intros _; apply Hstop; done).
  destruct (staged_validated _ _ Es) as (fp' & g & -> & _).
  destruct request as [q|]; [|intros _; by apply Hstop].
  destruct (request_invalid q); [intros _; by apply Hstop|].
  destruct (Z.land (context_flags c) 2 =? 0); [|intros _; by apply Hstop].
  destruct (epoch_unexpected c q); [intros _; by apply Hstop|].
  cbn. rewrite bool_decide_eq_true_2 by done. done.
Qed.

Lemma admit_authorized context staged q r w :
  activation_authorized context staged (Some q) = true ->
  exists fp g, staged = Some g /\ request_invalid q = false /\
    laplace_framework_context_fingerprint context (Some (zeros 32)) =
      (LAPLACE_FRAMEWORK_OK, Some fp) /\
    laplace_framework_admit_staged_stream context staged (Some q) (Some provider) (Some r) w =
      let '(s, current, world) :=
        prepare_admission provider context g q
          (set_request (receipt_id g) q (set_activation_context fp empty_activation_receipt))
          w in
      (s, Some current, world).
Proof.
  unfold activation_authorized, laplace_framework_admit_staged_stream. ptrs.
  destruct context as [c|]; [|done]. intros H. bools.
  match goal with H : bool_decide _ = true |- _ => apply bool_decide_eq_true in H as Es end.
  destruct (staged_validated _ _ Es) as (fp & g & -> & Efp). exists fp, g.
  split_and!; [done..|]. change (activation_context_fingerprint _) with (zeros 32).
  rewrite Efp, Es, Hprovider.
  repeat match goal with H : _ = false |- _ => rewrite H end.
  match goal with H : Z.land _ _ = 0 |- _ => rewrite H end. done.
Qed.

Lemma finished_admitted r :
  receipt_epoch_slot r < Z.of_nat LAPLACE_FRAMEWORK_EPOCH_COUNT -> activation_reserved r = 0 ->
  admitted_receipt_is_valid (Some (finish_activation LAPLACE_FRAMEWORK_OK 2 r)) = true.
Proof.
  intros Hslot Hr. unfold admitted_receipt_is_valid.
  replace (activation_status (finish_activation LAPLACE_FRAMEWORK_OK 2 r))
    with LAPLACE_FRAMEWORK_OK by done.
  replace (receipt_epoch_slot (finish_activation LAPLACE_FRAMEWORK_OK 2 r))
    with (receipt_epoch_slot r) by done.
  replace (activation_reserved (finish_activation LAPLACE_FRAMEWORK_OK 2 r)) with 0 by done.
  replace (activation_effect (finish_activation LAPLACE_FRAMEWORK_OK 2 r)) with 2 by done.
  rewrite bool_decide_eq_true_2, (proj2 (Z.leb_gt _ _) Hslot) by done.
  by apply bytes_equal_spec.
Qed.

(** The receipt of an admission opens the door to its commit. *)
Lemma admission_validates context fp q g f :
  request_invalid q = false ->
  laplace_framework_context_fingerprint context (Some (zeros 32)) =
    (LAPLACE_FRAMEWORK_OK, Some fp) ->
  laplace_framework_admitted_stream_validate context (Some q) (Some provider)
    (Some (finish_activation LAPLACE_FRAMEWORK_OK 2
       (set_fingerprints f (zeros 32)
          (set_request g q (set_activation_context fp empty_activation_receipt))))) =
    LAPLACE_FRAMEWORK_OK.
Proof.
  intros Hq Hfp. unfold laplace_framework_admitted_stream_validate.
  destruct context as [c|]; [|discriminate Hfp]. rewrite Hfp, Hprovider.
  rewrite finished_admitted; [|unfold request_invalid in Hq; bools; simpl; lia | done].
  replace (activation_context_fingerprint _) with fp by done.
  rewrite !(proj2 (bytes_equal_spec _ _)), (proj2 (Z.eqb_eq _ _)) by done. done.
Qed.
End Exactness.

(** Activation does exactly what authority, preparation and commit decide.
    Unless the staged receipt validates under the context, the request is well
    formed, the context may write and holds the slot at the expected epoch, no
    callback is called and the call fails.  Otherwise the provider prepares and
    then commits; a failure of either is withdrawn and named by the status;
    after success the retained identities of admission and activation pass
    [laplace_framework_committed_receipts_validate] with the fingerprints of
    this run.  The receipt always certifies itself, and reads as activated only
    after success. *)
Theorem activation_exact {B : Blake3} {W} context staged request
    (provider : laplace_framework_activation_provider_v1 W) r w :
  activation_provider_is_valid (Some provider) = true ->
  let '(s, r', w') :=
    laplace_framework_activate_staged_stream context staged request (Some provider) (Some r) w in
  activation_finished s r' /\
  match activation_authorized context staged request, staged, request with
  | true, Some g, Some q =>
      exists fp, laplace_framework_context_fingerprint context (Some (zeros 32)) =
          (LAPLACE_FRAMEWORK_OK, Some fp) /\
      match call_prepare provider w context staged q (zeros 32) with
      | (LAPLACE_FRAMEWORK_OK, f, w1) =>
          match call_commit provider w1 q f (zeros 32) with
          | (LAPLACE_FRAMEWORK_OK, a, w2) =>
              s = LAPLACE_FRAMEWORK_OK /\ w' = w2 /\
              exists rf, r' = Some rf /\
                activation_effect rf = LAPLACE_FRAMEWORK_EFFECT_ACTIVATED /\
                laplace_framework_committed_receipts_validate (Some fp) (Some (receipt_id g))
                  request (Some f) (Some a)
                  (Some (activation_receipt_id (admitted_body fp (receipt_id g) q f)))
                  (Some (activation_receipt_id rf)) = LAPLACE_FRAMEWORK_OK
          | (_, a, w2) =>
              s = LAPLACE_FRAMEWORK_ACTIVATION_COMMIT_FAILED /\
              w' = call_abort provider w2 q f
          end
      | (_, f, w1) =>
          s = LAPLACE_FRAMEWORK_ACTIVATION_ADMISSION_FAILED /\
          w' = call_abort provider w1 q f
      end
  | _, _, _ => s <> LAPLACE_FRAMEWORK_OK /\ w' = w
  end.
Proof.
  intros Hp. unfold laplace_framework_activate_staged_stream.
  destruct (activation_authorized context staged request) eqn:Ea.
  2:{ destruct (admit_unauthorized provider context staged request r w Ea)
        as (s & rf & -> & Hs & Hf). by destruct s. }
  destruct request as [q|]; [|by destruct context].
  destruct (admit_authorized provider Hp context staged q r w Ea)
    as (fp & g & -> & Hq & Hfp & ->). unfold prepare_admission.
  change (preparation_fingerprint (set_request _ _ _)) with (zeros 32).
  change (activation_fingerprint (set_request _ _ _)) with (zeros 32).
  destruct (call_prepare provider w context (Some g) q (zeros 32)) as [[s f] w1].
  destruct (decide (s = LAPLACE_FRAMEWORK_OK)) as [-> | Hs].
  2:{ destruct s; [done|..];
        (split; [apply finish_finished; right; lia | by exists fp]). }
  unfold laplace_framework_commit_admitted_stream.
  rewrite (admission_validates provider Hp context fp q (receipt_id g) f Hq Hfp).
  change (preparation_fingerprint (finish_activation _ _ _)) with f.
  change (activation_fingerprint (finish_activation _ _ _)) with (zeros 32).
  destruct (call_commit provider w1 q f (zeros 32)) as [[s a] w2].
  destruct (decide (s = LAPLACE_FRAMEWORK_OK)) as [-> | Hs].
  2:{ destruct s; [done|..];
        (split; [apply finish_finished; right; simpl; lia | by exists fp]). }
  split; [apply finish_finished; by left|]. exists fp. split_and!; [done..|].
  eexists. split_and!; [done..|]. unfold laplace_framework_committed_receipts_validate.
  rewrite Hq, (proj2 (bytes_equal_spec _ _)) by done. cbn [negb].
  by rewrite (proj2 (bytes_equal_spec _ _)).
Qed.

(** ** Witnesses *)
Definition sample_staged {B : Blake3} : laplace_framework_stream_receipt :=
  default (initial_receipt 1)
    (laplace_framework_stage_canonical_stream (Some sample_context) (Some sample_stream)
       (Some [sample_sink]) 1 (Some (initial_receipt 1)) []).1.2.

(** Epoch 0 of the sample context moves on. *)
Definition sample_transition : laplace_framework_activation_request :=
  mk_activation_request (epoch_at sample_context 0) (replicate 32 9) 0 0 0.

Definition sample_provider : laplace_framework_activation_provider_v1 nat :=
  mk_activation_provider
    (Some (fun w _ _ _ _ => (LAPLACE_FRAMEWORK_OK, replicate 32 1, S w)))
    (Some (fun w _ _ _ => (LAPLACE_FRAMEWORK_OK, replicate 32 2, S w)))
    (Some (fun w _ _ => w)) 1 0 0 0.

Abbreviation sample_admission :=
  (laplace_framework_admit_staged_stream (B := checksum_blake3) (Some sample_context)
     (Some (sample_staged (B := checksum_blake3))) (Some sample_transition)
     (Some (traced_provider sample_provider)) (Some empty_activation_receipt) (0%nat, []))
  (only parsing).

Lemma sample_admission_ok :
  let '(s, r, w) := sample_admission in
  s = LAPLACE_FRAMEWORK_OK /\ w = (1%nat, [Prepared sample_transition (replicate 32 1) true]) /\
  match r with
  | Some r => admitted_receipt_is_valid (B := checksum_blake3) (Some r) = true
  | None => False
  end.
Proof. vm_compute. by split_and!. Qed.

Lemma sample_admission_reachable :
  exists r, admitted_receipt_is_valid (B := checksum_blake3) (Some r) = true /\
    reachable (B := checksum_blake3) sample_provider r
      (1%nat, [Prepared sample_transition (replicate 32 1) true]).
Proof.
  pose proof sample_admission_ok as H.
  destruct (sample_admission) as [[s [r|]] w] eqn:E;
    [|by destruct H as (_ & _ & [])].
  destruct H as (-> & -> & Hr). exists r. split; [exact Hr|].
  eapply (reach_admit (B := checksum_blake3) _ _ _ _ _ _ _ _ _ _ E).
  Unshelve. by apply reach_start.
Qed.

Lemma activation_settled_witness :
  exists r q, admitted_receipt_is_valid (B := checksum_blake3) (Some r) = true /\
    epoch_slot q = receipt_epoch_slot r.
Proof.
  destruct sample_admission_reachable as (r & Hr & Hreach).
  destruct (activation_settled (B := checksum_blake3) _ _ _ _ Hreach)
    as (phase & _ & _ & Hopen).
  destruct (Hopen Hr) as (q & _ & Hslot & _). exists r, q. split; [exact Hr|].
  symmetry. exact Hslot.
Defined.

Lemma sample_authorized :
  activation_authorized (B := checksum_blake3) (Some sample_context)
    (Some (sample_staged (B := checksum_blake3))) (Some sample_transition) = true.
Proof. vm_compute. reflexivity. Qed.

Lemma activation_exact_witness :
  let '(s, _, w) :=
    laplace_framework_activate_staged_stream (B := checksum_blake3) (Some sample_context)
      (Some (sample_staged (B := checksum_blake3))) (Some sample_transition)
      (Some sample_provider) (Some empty_activation_receipt) 0%nat in
  s = LAPLACE_FRAMEWORK_OK /\ w = 2%nat.
Proof.
  pose proof (activation_exact (B := checksum_blake3) (Some sample_context)
    (Some (sample_staged (B := checksum_blake3))) (Some sample_transition) sample_provider
    empty_activation_receipt 0%nat eq_refl) as H.
  rewrite sample_authorized in H.
  destruct (laplace_framework_activate_staged_stream _ _ _ _ _ _) as [[s r] w].
  destruct H as (_ & fp & _ & Hs & Hw & _). split; assumption.
Defined.
