(* ===== verification/Effects.v ===== *)
(** * Effects: C routines with a [goto fail] exit

    A routine that threads a state through many calls and leaves through one
    label on the first failure is a function of the state that returns a value
    or a status, with the state it leaves.  [traces] is the logic in which such
    routines are verified together with an instrumented copy: it relates a
    routine on a state with the same routine on a state that also holds a log,
    and says what was logged. *)
From stdpp Require Import prelude.
From S2P Require Import Prelude.

Inductive outcome (F A : Type) :=
| Continue (value : A)
| Fail (status : F).
Arguments Continue {F A}. Arguments Fail {F A}.

Definition routine (S F A : Type) : Type := S -> outcome F A * S.

Section Combinators.
Context {S F : Type}.

Definition pure {A} (value : A) : routine S F A := fun state => (Continue value, state).

Definition fail {A} (status : F) : routine S F A := fun state => (Fail status, state).

Definition andthen {A C} (m : routine S F A) (k : A -> routine S F C) : routine S F C :=
  fun state =>
    match m state with
    | (Continue value, state) => k value state
    | (Fail status, state) => (Fail status, state)
    end.

Definition gets {A} (f : S -> A) : routine S F A := fun state => (Continue (f state), state).

Definition modify (f : S -> S) : routine S F unit := fun state => (Continue tt, f state).

(** [if (failed) { status = s; goto fail; }] *)
Definition fail_when (failed : bool) (status : F) : routine S F unit :=
  if failed then fail status else pure tt.
End Combinators.

Declare Scope routine_scope.
Delimit Scope routine_scope with routine.

Notation "'do' x <- m ;; k" := (andthen m (fun x => k))
  (at level 100, x name, m at level 99, right associativity) : routine_scope.
Notation "'do' ' p <- m ;; k" := (andthen m (fun x => match x with p => k end))
  (at level 100, p pattern, m at level 99, right associativity) : routine_scope.
Notation "'run' m ;; k" := (andthen m (fun _ => k))
  (at level 100, m at level 99, right associativity) : routine_scope.

(** ** The logic of traced routines
    [embed s log] is the state of the instrumented copy. *)
Section Traces.
Context {S T F E : Type} (embed : S -> list E -> T).

(** [mt] does on the embedded state what [m] does, whatever the log, and adds
    events such that [P] relates the states, the outcome and the events. *)
Definition traces {A} (m : routine S F A) (mt : routine T F A) (s : S)
    (P : outcome F A -> S -> list E -> Prop) : Prop :=
  forall log, let '(a, s') := m s in
  exists events, mt (embed s log) = (a, embed s' (log ++ events)) /\ P a s' events.

Lemma traces_pure {A} (v : A) s (P : outcome F A -> S -> list E -> Prop) :
  P (Continue v) s [] -> traces (pure v) (pure v) s P.
Proof. intros H log. exists []. by rewrite app_nil_r. Qed.

Lemma traces_fail {A} status s (P : outcome F A -> S -> list E -> Prop) :
  P (Fail status) s [] -> traces (fail status) (fail status) s P.
Proof. intros H log. exists []. by rewrite app_nil_r. Qed.

Lemma traces_fail_when b status s (P : outcome F unit -> S -> list E -> Prop) :
  (b = true -> P (Fail status) s []) -> (b = false -> P (Continue tt) s []) ->
  traces (fail_when b status) (fail_when b status) s P.
Proof. destruct b; intros H1 H2; [apply traces_fail | apply traces_pure]; auto. Qed.

Lemma traces_gets {A} (f : S -> A) ft s (P : outcome F A -> S -> list E -> Prop) :
  (forall log, ft (embed s log) = f s) -> P (Continue (f s)) s [] ->
  traces (gets f) (gets ft) s P.
Proof. intros Hf H log. exists []. rewrite app_nil_r. unfold gets. by rewrite Hf. Qed.

Lemma traces_modify f ft s (P : outcome F unit -> S -> list E -> Prop) :
  (forall log, ft (embed s log) = embed (f s) log) -> P (Continue tt) (f s) [] ->
  traces (modify f) (modify ft) s P.
Proof.
  intros Hf H log. exists []. rewrite app_nil_r. unfold modify. by rewrite Hf.
Qed.

Lemma traces_andthen {A C} (m : routine S F A) mt (k : A -> routine S F C) kt s P :
  traces m mt s (fun a s' events =>
    match a with
    | Continue v => traces (k v) (kt v) s' (fun b s'' events' => P b s'' (events ++ events'))
    | Fail status => P (Fail status) s' events
    end) ->
  traces (andthen m k) (andthen mt kt) s P.
Proof.
  intros H log. specialize (H log). unfold andthen. destruct (m s) as [[v|status] s'].
  - destruct H as (events & -> & H). specialize (H (log ++ events)).
    destruct (k v s') as [b s'']. destruct H as (events' & -> & H).
    exists (events ++ events'). by rewrite app_assoc.
  - destruct H as (events & -> & H). by exists events.
Qed.

Lemma traces_consequence {A} (m : routine S F A) mt s (P Q : outcome F A -> S -> list E -> Prop) :
  traces m mt s P -> (forall a s' events, P a s' events -> Q a s' events) -> traces m mt s Q.
Proof.
  intros H HPQ log. specialize (H log). destruct (m s) as [a s'].
  destruct H as (events & ? & ?). exists events. auto.
Qed.
End Traces.
