(* ===== verification/Producer.v ===== *)
(** * Producers: streaming batches to sinks with checkpoints and replay

    Models the producer part of [engine/src/framework.c]: the plan, the
    checkpoint after every batch and its checksum, the producer receipt, and
    [run_producer_impl], which pulls batches from a producer, hands each to all
    sinks, reports progress, honours cancellation and verifies a replay
    checkpoint on the way.  The routine is written in [Effects]: its state is
    what lives across the [goto fail], and [run_producer_impl] adds the exit
    that aborts the sinks that were begun and the producer.

    Producer, control and sinks are callbacks on one world.  The loop over the
    batches runs [batch_count] times at most, as the plan says. *)
From stdpp Require Import prelude strings.
From Stdlib Require Import ZArith Lia.
From S2P Require Import Prelude Bytes Sorting Hash Identity Framework Effects.
#[local] Open Scope routine_scope.

Abbreviation LAPLACE_FRAMEWORK_PRODUCER_ABI_MAJOR := 1 (only parsing).
Abbreviation LAPLACE_FRAMEWORK_PRODUCER_ABI_MINOR := 0 (only parsing).
Abbreviation LAPLACE_FRAMEWORK_PRODUCER_CONTROL_ABI_MAJOR := 1 (only parsing).
Abbreviation LAPLACE_FRAMEWORK_PRODUCER_CONTROL_ABI_MINOR := 0 (only parsing).
Abbreviation LAPLACE_FRAMEWORK_KNOWN_PRODUCER_FLAGS := 0 (only parsing).
Abbreviation LAPLACE_FRAMEWORK_KNOWN_PRODUCER_CONTROL_FLAGS := 0 (only parsing).
Abbreviation LAPLACE_FRAMEWORK_KNOWN_REPLAY_FLAGS := 0 (only parsing).

(** ** Data *)
Record laplace_framework_producer_plan := mk_plan {
  producer_fingerprint : laplace_digest256;
  initial_cursor_fingerprint : laplace_digest256;
  plan_batch_count : Z;
  plan_total_records : Z;
  plan_total_bytes : Z;
  plan_record_type : Z;
  plan_flags : Z;
  plan_reserved : Z }.

Record laplace_framework_replay_checkpoint := mk_checkpoint {
  checkpoint_id : laplace_digest256;
  checkpoint_context : laplace_digest256;
  checkpoint_source : laplace_digest256;
  checkpoint_recipe : laplace_digest256;
  checkpoint_producer : laplace_digest256;
  checkpoint_plan : laplace_digest256;
  prefix_fingerprint : laplace_digest256;
  cursor_fingerprint : laplace_digest256;
  completed_batches : Z;
  completed_records : Z;
  completed_bytes : Z;
  next_ordinal : Z;
  checkpoint_record_type : Z;
  checkpoint_flags : Z;
  checkpoint_reserved : Z }.

Record laplace_framework_producer_v1 (W : Type) := mk_producer {
  producer_prepare : ptr (W -> ptr laplace_framework_context -> laplace_digest256 ->
    laplace_digest256 -> laplace_framework_producer_plan ->
    laplace_framework_status * laplace_framework_producer_plan * W);
  producer_next : ptr (W -> Z -> laplace_framework_canonical_batch -> laplace_digest256 ->
    laplace_framework_status * laplace_framework_canonical_batch * laplace_digest256 * W);
  producer_finish : ptr (W -> laplace_digest256 ->
    laplace_framework_status * laplace_digest256 * W);
  producer_abort : ptr (W -> W);
  producer_abi_major : Z;
  producer_abi_minor : Z;
  producer_flags : Z;
  producer_reserved : Z }.
Arguments mk_producer {W}. Arguments producer_prepare {W}. Arguments producer_next {W}.
Arguments producer_finish {W}. Arguments producer_abort {W}.
Arguments producer_abi_major {W}. Arguments producer_abi_minor {W}.
Arguments producer_flags {W}. Arguments producer_reserved {W}.

Record laplace_framework_producer_control_v1 (W : Type) := mk_control {
  replay_checkpoint : ptr laplace_framework_replay_checkpoint;
  cancel_requested : ptr (W -> Z * W);
  observe_progress : ptr (W -> laplace_framework_replay_checkpoint -> W);
  control_abi_major : Z;
  control_abi_minor : Z;
  control_flags : Z;
  control_reserved : Z }.
Arguments mk_control {W}. Arguments replay_checkpoint {W}. Arguments cancel_requested {W}.
Arguments observe_progress {W}. Arguments control_abi_major {W}.
Arguments control_abi_minor {W}. Arguments control_flags {W}. Arguments control_reserved {W}.

Record laplace_framework_producer_receipt := mk_producer_receipt {
  producer_receipt_id : laplace_digest256;
  stream : laplace_framework_stream_receipt;
  checkpoint : laplace_framework_replay_checkpoint;
  plan_fingerprint : laplace_digest256;
  completion_fingerprint : laplace_digest256;
  replay_checkpoint_id : laplace_digest256;
  progress_events : Z;
  producer_status : laplace_framework_status;
  replay_verified : Z;
  producer_receipt_reserved : Z }.

(** ** Hashing *)
Section Hashing.
Context {B : Blake3}.

Definition hash_producer_plan (context source recipe : laplace_digest256)
    (plan : laplace_framework_producer_plan) : laplace_digest256 :=
  let hasher := blake3_hasher_update blake3_hasher_init
                  (domain_bytes "laplace-framework-producer-plan-v1") in
  let hasher := blake3_hasher_update hasher context in
  let hasher := blake3_hasher_update hasher source in
  let hasher := blake3_hasher_update hasher recipe in
  let hasher := blake3_hasher_update hasher (producer_fingerprint plan) in
  let hasher := blake3_hasher_update hasher (initial_cursor_fingerprint plan) in
  let hasher := hash_u64 hasher (plan_batch_count plan) in
  let hasher := hash_u64 hasher (plan_total_records plan) in
  let hasher := hash_u64 hasher (plan_total_bytes plan) in
  let hasher := hash_u32 hasher (plan_record_type plan) in
  let hasher := hash_u32 hasher (plan_flags plan) in
  blake3_hasher_finalize hasher.

Definition initialize_prefix_hasher (record_type : Z) : blake3_hasher :=
  let hasher := blake3_hasher_update blake3_hasher_init
                  (domain_bytes "laplace-framework-producer-prefix-v1") in
  hash_u32 hasher record_type.

Definition update_prefix_hasher (hasher : blake3_hasher) (batch_index : Z)
    (batch : laplace_framework_canonical_batch) : blake3_hasher :=
  let hasher := hash_u64 hasher batch_index in
  let hasher := hash_u64 hasher (first_ordinal batch) in
  let hasher := hash_u64 hasher (record_count batch) in
  let hasher := hash_u64 hasher (byte_count batch) in
  blake3_hasher_update hasher (batch_bytes batch).

Definition hash_checkpoint_body (c : laplace_framework_replay_checkpoint) : blake3_hasher :=
  let hasher := blake3_hasher_update blake3_hasher_init
                  (domain_bytes "laplace-framework-producer-checkpoint-v1") in
  let hasher := blake3_hasher_update hasher (checkpoint_context c) in
  let hasher := blake3_hasher_update hasher (checkpoint_source c) in
  let hasher := blake3_hasher_update hasher (checkpoint_recipe c) in
  let hasher := blake3_hasher_update hasher (checkpoint_producer c) in
  let hasher := blake3_hasher_update hasher (checkpoint_plan c) in
  let hasher := blake3_hasher_update hasher (prefix_fingerprint c) in
  let hasher := blake3_hasher_update hasher (cursor_fingerprint c) in
  let hasher := hash_u64 hasher (completed_batches c) in
  let hasher := hash_u64 hasher (completed_records c) in
  let hasher := hash_u64 hasher (completed_bytes c) in
  let hasher := hash_u64 hasher (next_ordinal c) in
  let hasher := hash_u32 hasher (checkpoint_record_type c) in
  hash_u32 hasher (checkpoint_flags c).

Definition hash_checkpoint (c : laplace_framework_replay_checkpoint)
    : laplace_framework_replay_checkpoint :=
  mk_checkpoint (blake3_hasher_finalize (hash_checkpoint_body c)) (checkpoint_context c)
    (checkpoint_source c) (checkpoint_recipe c) (checkpoint_producer c) (checkpoint_plan c)
    (prefix_fingerprint c) (cursor_fingerprint c) (completed_batches c) (completed_records c)
    (completed_bytes c) (next_ordinal c) (checkpoint_record_type c) (checkpoint_flags c)
    (checkpoint_reserved c).

Definition set_checkpoint (context source recipe : laplace_digest256)
    (plan : laplace_framework_producer_plan)
    (plan_fingerprint prefix_fingerprint cursor_fingerprint : laplace_digest256)
    (batches records bytes : Z) : laplace_framework_replay_checkpoint :=
  hash_checkpoint
    (mk_checkpoint (zeros 32) context source recipe (producer_fingerprint plan)
       plan_fingerprint prefix_fingerprint cursor_fingerprint batches records bytes records
       (plan_record_type plan) LAPLACE_FRAMEWORK_KNOWN_REPLAY_FLAGS 0).

Definition checkpoint_checksum_is_valid (c : laplace_framework_replay_checkpoint) : bool :=
  return_when (checkpoint_record_type c =? 0) ||
              negb (checkpoint_flags c =? LAPLACE_FRAMEWORK_KNOWN_REPLAY_FLAGS) ||
              negb (checkpoint_reserved c =? 0) ||
              negb (next_ordinal c =? completed_records c)
    with false ;;
  bytes_equal (checkpoint_id c) (checkpoint_id (hash_checkpoint c)).

Definition hash_producer_body (r : laplace_framework_producer_receipt) : blake3_hasher :=
  let hasher := blake3_hasher_update blake3_hasher_init
                  (domain_bytes "laplace-framework-producer-receipt-v1") in
  let hasher := hash_u32 hasher (status_value (producer_status r)) in
  let hasher := hash_u32 hasher (replay_verified r) in
  let hasher := hash_u64 hasher (progress_events r) in
  let hasher := blake3_hasher_update hasher (receipt_id (stream r)) in
  let hasher := blake3_hasher_update hasher (checkpoint_id (checkpoint r)) in
  let hasher := blake3_hasher_update hasher (plan_fingerprint r) in
  let hasher := blake3_hasher_update hasher (completion_fingerprint r) in
  blake3_hasher_update hasher (replay_checkpoint_id r).

Definition hash_producer_receipt (r : laplace_framework_producer_receipt)
    : laplace_framework_producer_receipt :=
  mk_producer_receipt (blake3_hasher_finalize (hash_producer_body r)) (stream r) (checkpoint r)
    (plan_fingerprint r) (completion_fingerprint r) (replay_checkpoint_id r)
    (progress_events r) (producer_status r) (replay_verified r) (producer_receipt_reserved r).
End Hashing.

(** ** The state of a run: what the [fail] label can see *)
Record producer_run (W : Type) := mk_run {
  run_receipt : laplace_framework_producer_receipt;
  run_begun : nat;
  producer_prepared : bool;
  run_replay_verified : bool;
  run_output : ptr laplace_framework_sink_artifact_output;
  run_world : W }.
Arguments mk_run {W}. Arguments run_receipt {W}. Arguments run_begun {W}.
Arguments producer_prepared {W}. Arguments run_replay_verified {W}.
Arguments run_output {W}. Arguments run_world {W}.

Definition empty_checkpoint : laplace_framework_replay_checkpoint :=
  mk_checkpoint (zeros 32) (zeros 32) (zeros 32) (zeros 32) (zeros 32) (zeros 32) (zeros 32)
    (zeros 32) 0 0 0 0 0 0 0.

Definition initial_run {W} (sinks_count : Z)
    (output : ptr laplace_framework_sink_artifact_output) (world : W) : producer_run W :=
  mk_run (mk_producer_receipt (zeros 32) (initial_receipt sinks_count) empty_checkpoint
            (zeros 32) (zeros 32) (zeros 32) 0 LAPLACE_FRAMEWORK_OK 0 0)
    0 false false output world.

Section Updates.
Context {W : Type}.
Implicit Types st : producer_run W.

Definition with_receipt (f : laplace_framework_producer_receipt ->
    laplace_framework_producer_receipt) st : producer_run W :=
  mk_run (f (run_receipt st)) (run_begun st) (producer_prepared st) (run_replay_verified st)
    (run_output st) (run_world st).

Definition with_prepared st : producer_run W :=
  mk_run (run_receipt st) (run_begun st) true (run_replay_verified st) (run_output st)
    (run_world st).

Definition with_verified st : producer_run W :=
  mk_run (run_receipt st) (run_begun st) (producer_prepared st) true (run_output st)
    (run_world st).

Definition with_output output st : producer_run W :=
  mk_run (run_receipt st) (run_begun st) (producer_prepared st) (run_replay_verified st)
    output (run_world st).

Definition with_begun begun st : producer_run W :=
  mk_run (run_receipt st) begun (producer_prepared st) (run_replay_verified st)
    (run_output st) (run_world st).
End Updates.

Definition with_world {V W} (world : W) (st : producer_run V) : producer_run W :=
  mk_run (run_receipt st) (run_begun st) (producer_prepared st) (run_replay_verified st)
    (run_output st) world.

Definition on_stream (f : laplace_framework_stream_receipt -> laplace_framework_stream_receipt)
    (r : laplace_framework_producer_receipt) : laplace_framework_producer_receipt :=
  mk_producer_receipt (producer_receipt_id r) (f (stream r)) (checkpoint r)
    (plan_fingerprint r) (completion_fingerprint r) (replay_checkpoint_id r)
    (progress_events r) (producer_status r) (replay_verified r) (producer_receipt_reserved r).

Definition set_plan (fingerprint : laplace_digest256) (r : laplace_framework_producer_receipt) :=
  mk_producer_receipt (producer_receipt_id r) (stream r) (checkpoint r) fingerprint
    (completion_fingerprint r) (replay_checkpoint_id r) (progress_events r)
    (producer_status r) (replay_verified r) (producer_receipt_reserved r).

Definition put_checkpoint (c : laplace_framework_replay_checkpoint)
    (r : laplace_framework_producer_receipt) :=
  mk_producer_receipt (producer_receipt_id r) (stream r) c (plan_fingerprint r)
    (completion_fingerprint r) (replay_checkpoint_id r) (progress_events r)
    (producer_status r) (replay_verified r) (producer_receipt_reserved r).

Definition set_replay (id : laplace_digest256) (r : laplace_framework_producer_receipt) :=
  mk_producer_receipt (producer_receipt_id r) (stream r) (checkpoint r) (plan_fingerprint r)
    (completion_fingerprint r) id (progress_events r) (producer_status r) (replay_verified r)
    (producer_receipt_reserved r).

Definition count_progress (r : laplace_framework_producer_receipt) :=
  mk_producer_receipt (producer_receipt_id r) (stream r) (checkpoint r) (plan_fingerprint r)
    (completion_fingerprint r) (replay_checkpoint_id r) (u64 (progress_events r + 1))
    (producer_status r) (replay_verified r) (producer_receipt_reserved r).

Definition set_completion (fingerprint : laplace_digest256)
    (r : laplace_framework_producer_receipt) :=
  mk_producer_receipt (producer_receipt_id r) (stream r) (checkpoint r) (plan_fingerprint r)
    fingerprint (replay_checkpoint_id r) (progress_events r) (producer_status r)
    (replay_verified r) (producer_receipt_reserved r).

(** The end of the run: the stream receipt, then the producer receipt. *)
Definition finish_producer {B : Blake3} (s : laplace_framework_status) (effect : Z)
    (verified : bool) (r : laplace_framework_producer_receipt)
    : laplace_framework_producer_receipt :=
  hash_producer_receipt
    (mk_producer_receipt (producer_receipt_id r) (finish_receipt s effect (stream r))
       (checkpoint r) (plan_fingerprint r) (completion_fingerprint r)
       (replay_checkpoint_id r) (progress_events r) s (if verified then 1 else 0)
       (producer_receipt_reserved r)).

Definition failed (s : laplace_framework_status) : bool :=
  negb (bool_decide (s = LAPLACE_FRAMEWORK_OK)).

Definition outcome_of (s : laplace_framework_status) : outcome laplace_framework_status unit :=
  if failed s then Fail s else Continue tt.

(** ** Running a producer *)
Section Producing.
Context {B : Blake3} {W : Type}.
Implicit Types (producer : laplace_framework_producer_v1 W)
  (control : laplace_framework_producer_control_v1 W)
  (sinks : list (laplace_framework_sink_v1 W)).

Abbreviation step := (routine (producer_run W) laplace_framework_status).

(** A callback: it reads and writes the world. *)
Definition invoke {A} (call : W -> A * W) : step A :=
  fun st => let '(answer, world) := call (run_world st) in
            (Continue answer, with_world world st).

Definition update (f : laplace_framework_producer_receipt -> laplace_framework_producer_receipt)
    : step unit := modify (with_receipt f).

(** Callbacks of a producer and a control that have been validated. *)
Definition call_prepare producer (context : ptr laplace_framework_context)
    (source recipe : laplace_digest256)
    (world : W) : laplace_framework_status * laplace_framework_producer_plan * W :=
  let plan := mk_plan (zeros 32) (zeros 32) 0 0 0 0 0 0 in
  match producer_prepare producer with
  | Some prepare => prepare world context source recipe plan
  | None => (LAPLACE_FRAMEWORK_OK, plan, world)
  end.

Definition call_next producer (batch_index : Z) (world : W)
    : laplace_framework_status * laplace_framework_canonical_batch * laplace_digest256 * W :=
  let batch := mk_batch None 0 0 0 0 0 in
  match producer_next producer with
  | Some next => next world batch_index batch (zeros 32)
  | None => (LAPLACE_FRAMEWORK_OK, batch, zeros 32, world)
  end.

Definition call_finish producer (fingerprint : laplace_digest256) (world : W)
    : laplace_framework_status * laplace_digest256 * W :=
  match producer_finish producer with
  | Some finish => finish world fingerprint
  | None => (LAPLACE_FRAMEWORK_OK, fingerprint, world)
  end.

Definition call_producer_abort (producer : ptr (laplace_framework_producer_v1 W)) (world : W)
    : W :=
  match producer ≫= producer_abort with
  | Some abort => abort world
  | None => world
  end.

Definition call_cancel control (world : W) : Z * W :=
  match cancel_requested control with
  | Some cancel => cancel world
  | None => (0, world)
  end.

Definition call_observe control (c : laplace_framework_replay_checkpoint) (world : W)
    : unit * W :=
  match observe_progress control with
  | Some observe => (tt, observe world c)
  | None => (tt, world)
  end.

Definition producer_valid producer : bool :=
  negb (is_null (producer_prepare producer) || is_null (producer_next producer) ||
        is_null (producer_finish producer) || is_null (producer_abort producer) ||
        negb (producer_abi_major producer =? LAPLACE_FRAMEWORK_PRODUCER_ABI_MAJOR) ||
        (LAPLACE_FRAMEWORK_PRODUCER_ABI_MINOR <? producer_abi_minor producer) ||
        negb (producer_flags producer =? LAPLACE_FRAMEWORK_KNOWN_PRODUCER_FLAGS) ||
        negb (producer_reserved producer =? 0)).

Definition control_valid control : bool :=
  negb (is_null (cancel_requested control) || is_null (observe_progress control) ||
        negb (control_abi_major control =? LAPLACE_FRAMEWORK_PRODUCER_CONTROL_ABI_MAJOR) ||
        (LAPLACE_FRAMEWORK_PRODUCER_CONTROL_ABI_MINOR <? control_abi_minor control) ||
        negb (control_flags control =? LAPLACE_FRAMEWORK_KNOWN_PRODUCER_CONTROL_FLAGS) ||
        negb (control_reserved control =? 0)).

Definition plan_invalid (plan : laplace_framework_producer_plan) : bool :=
  (plan_batch_count plan =? 0) || (plan_total_records plan =? 0) ||
  (plan_total_bytes plan =? 0) || (plan_record_type plan =? 0) ||
  negb (plan_flags plan =? LAPLACE_FRAMEWORK_KNOWN_PRODUCER_FLAGS) ||
  negb (plan_reserved plan =? 0).

(** The calls to the sinks, on the state of the run. *)
Definition prepare_output (sinks_count : Z) (required : bool) : step unit :=
  fun st =>
    let '(s, output) := prepare_sink_artifact_output (run_output st) sinks_count required in
    (outcome_of s, with_output output st).

Definition set_failed_sink (f : Z) (r : laplace_framework_stream_receipt) :=
  set_failed (failed_batch_index r) f r.

Definition check_sinks (sinks : ptr (list (laplace_framework_sink_v1 W))) (sinks_count : Z)
    : step unit :=
  fun st =>
    let '(s, f) := validate_sinks sinks sinks_count
                     (failed_sink_index (stream (run_receipt st))) in
    (outcome_of s, with_receipt (on_stream (set_failed_sink f)) st).

Definition begin_all sinks (context : ptr laplace_framework_context)
    (plan : laplace_framework_producer_plan) : step unit :=
  fun st =>
    let '(s, begun, f, world) :=
      begin_sinks sinks context (plan_record_type plan) (plan_total_records plan)
        (plan_total_bytes plan) (failed_sink_index (stream (run_receipt st)))
        (run_world st) in
    (outcome_of s,
     with_world world (with_begun begun (with_receipt (on_stream (set_failed_sink f)) st))).

Definition stage_all sinks (batch : laplace_framework_canonical_batch) (batch_index : Z)
    : step unit :=
  fun st =>
    let receipt := stream (run_receipt st) in
    let '(s, failed_batch, f, world) :=
      stage_batch_to_sinks sinks batch batch_index (failed_batch_index receipt)
        (failed_sink_index receipt) (run_world st) in
    (outcome_of s, with_world world (with_receipt (on_stream (set_failed failed_batch f)) st)).

Definition seal_all sinks : step unit :=
  fun st =>
    let receipt := stream (run_receipt st) in
    let '(s, artifacts, output, f, world) :=
      seal_sinks sinks (stream_fingerprint receipt) (sink_artifacts_fingerprint receipt)
        (run_output st) (failed_sink_index receipt) (run_world st) in
    (outcome_of s,
     with_world world
       (with_output output
          (with_receipt (on_stream (fun r => set_artifacts artifacts (set_failed_sink f r)))
             st))).

(** [if (control->cancel_requested(...) != 0) goto fail] *)
Definition check_cancelled control : step unit :=
  do cancelled <- invoke (call_cancel control) ;;
  fail_when (negb (cancelled =? 0)) LAPLACE_FRAMEWORK_PRODUCER_CANCELLED.

Definition report_progress control : step unit :=
  do c <- gets (fun st => checkpoint (run_receipt st)) ;;
  run invoke (call_observe control c) ;;
  update count_progress.

(** A replay checkpoint must be of this run, and within its plan. *)
Definition replay_invalid (replay : laplace_framework_replay_checkpoint)
    (context source recipe : laplace_digest256) (plan : laplace_framework_producer_plan)
    (plan_fingerprint : laplace_digest256) : bool :=
  negb (checkpoint_checksum_is_valid replay) ||
  (plan_batch_count plan <? completed_batches replay) ||
  (plan_total_records plan <? completed_records replay) ||
  (plan_total_bytes plan <? completed_bytes replay) ||
  negb (checkpoint_record_type replay =? plan_record_type plan) ||
  negb (bytes_equal (checkpoint_context replay) context) ||
  negb (bytes_equal (checkpoint_source replay) source) ||
  negb (bytes_equal (checkpoint_recipe replay) recipe) ||
  negb (bytes_equal (checkpoint_producer replay) (producer_fingerprint plan)) ||
  negb (bytes_equal (checkpoint_plan replay) plan_fingerprint).

(** The checkpoint of the receipt must be the one to replay. *)
Definition verify_replay (replay : laplace_framework_replay_checkpoint) : step unit :=
  do c <- gets (fun st => checkpoint (run_receipt st)) ;;
  run fail_when (negb (bytes_equal (checkpoint_id replay) (checkpoint_id c)))
        LAPLACE_FRAMEWORK_REPLAY_MISMATCH ;;
  modify with_verified.

Definition check_replay control (context source recipe : laplace_digest256)
    (plan : laplace_framework_producer_plan) (plan_fingerprint : laplace_digest256)
    : step unit :=
  match replay_checkpoint control with
  | None => pure tt
  | Some replay =>
      run update (set_replay (checkpoint_id replay)) ;;
      run fail_when (replay_invalid replay context source recipe plan plan_fingerprint)
            LAPLACE_FRAMEWORK_REPLAY_INVALID ;;
      if completed_batches replay =? 0 then verify_replay replay else pure tt
  end.

(** Fails naming the batch. *)
Definition fail_batch_when (b : bool) (batch_index : Z) : step unit :=
  if b then
    run update (on_stream (fun r => set_failed batch_index (failed_sink_index r) r)) ;;
    fail LAPLACE_FRAMEWORK_PRODUCER_BATCH_FAILED
  else pure tt.

Definition batch_invalid (plan : laplace_framework_producer_plan)
    (batch : laplace_framework_canonical_batch) (records bytes : Z) : bool :=
  is_null (canonical_bytes batch) || (byte_count batch =? 0) || (record_count batch =? 0) ||
  negb (first_ordinal batch =? records) ||
  negb (batch_record_type batch =? plan_record_type plan) ||
  negb (batch_flags batch =? LAPLACE_FRAMEWORK_KNOWN_BATCH_FLAGS) ||
  (SIZE_MAX <? byte_count batch) || (UINT64_MAX - records <? record_count batch) ||
  (UINT64_MAX - bytes <? byte_count batch).

(** What the loop carries from one batch to the next. *)
Record loop_state := mk_loop {
  loop_records : Z;
  loop_bytes : Z;
  loop_stream_hasher : blake3_hasher;
  loop_prefix_hasher : blake3_hasher }.

Section Loop.
Variables (producer : laplace_framework_producer_v1 W)
  (control : laplace_framework_producer_control_v1 W)
  (sinks : list (laplace_framework_sink_v1 W))
  (context source recipe : laplace_digest256)
  (plan : laplace_framework_producer_plan) (plan_fingerprint : laplace_digest256).

(** One iteration. *)
Definition produce_batch (batch_index : Z) (l : loop_state) : step loop_state :=
  run check_cancelled control ;;
  do '(s, batch, cursor) <- invoke (call_next producer batch_index) ;;
  run fail_batch_when (failed s) batch_index ;;
  run fail_batch_when (batch_invalid plan batch (loop_records l) (loop_bytes l)) batch_index ;;
  let records := loop_records l + record_count batch in
  let bytes := loop_bytes l + byte_count batch in
  run fail_batch_when ((plan_total_records plan <? records) || (plan_total_bytes plan <? bytes))
        batch_index ;;
  run stage_all sinks batch batch_index ;;
  let stream_hasher := blake3_hasher_update (loop_stream_hasher l) (batch_bytes batch) in
  let prefix_hasher := update_prefix_hasher (loop_prefix_hasher l) batch_index batch in
  run update (put_checkpoint
        (set_checkpoint context source recipe plan plan_fingerprint
           (blake3_hasher_finalize prefix_hasher) cursor (batch_index + 1) records bytes)) ;;
  run match replay_checkpoint control with
      | Some replay =>
          if completed_batches replay =? batch_index + 1 then verify_replay replay
          else pure tt
      | None => pure tt
      end ;;
  run report_progress control ;;
  pure (mk_loop records bytes stream_hasher prefix_hasher).

(** [for (batch_index = 0; batch_index < plan.batch_count; ++batch_index)] with
    [remaining] batches to go. *)
Fixpoint produce_batches (remaining : nat) (batch_index : Z) (l : loop_state)
    : step loop_state :=
  match remaining with
  | O => pure l
  | S remaining =>
      do l <- produce_batch batch_index l ;;
      produce_batches remaining (batch_index + 1) l
  end.

(** From the end of the loop on. *)
Definition finish_stream (l : loop_state) : step unit :=
  do verified <- gets run_replay_verified ;;
  run fail_batch_when
        (negb (loop_records l =? plan_total_records plan) ||
         negb (loop_bytes l =? plan_total_bytes plan) ||
         negb (is_null (replay_checkpoint control)) && negb verified)
        (plan_batch_count plan) ;;
  run check_cancelled control ;;
  do completion <- gets (fun st => completion_fingerprint (run_receipt st)) ;;
  do '(s, completion) <- invoke (call_finish producer completion) ;;
  run update (set_completion completion) ;;
  run fail_when (failed s) LAPLACE_FRAMEWORK_PRODUCER_FINISH_FAILED ;;
  run update (on_stream (fun r =>
        set_totals (blake3_hasher_finalize (loop_stream_hasher l)) (record_type r)
          (total_records r) (total_bytes r) r)) ;;
  seal_all sinks.

(** From the first progress report on. *)
Definition produce_stream (framework_context : ptr laplace_framework_context) (l : loop_state)
    : step unit :=
  run check_cancelled control ;;
  run report_progress control ;;
  run check_cancelled control ;;
  run begin_all sinks framework_context plan ;;
  do l <- produce_batches (Z.to_nat (plan_batch_count plan)) 0 l ;;
  finish_stream l.
End Loop.

(** From the plan on. *)
Definition run_plan producer control sinks (framework_context : ptr laplace_framework_context)
    (context source recipe : laplace_digest256) (plan : laplace_framework_producer_plan)
    : step unit :=
  run fail_when (plan_invalid plan) LAPLACE_FRAMEWORK_PRODUCER_INVALID ;;
  let plan_fingerprint := hash_producer_plan context source recipe plan in
  let prefix_hasher := initialize_prefix_hasher (plan_record_type plan) in
  run update (on_stream (fun r =>
        set_totals (stream_fingerprint r) (plan_record_type plan) (plan_total_records plan)
          (plan_total_bytes plan)
          (set_stream (plan_batch_count plan) (source_fingerprint r) (recipe_fingerprint r)
             r))) ;;
  run update (set_plan plan_fingerprint) ;;
  run update (put_checkpoint
        (set_checkpoint context source recipe plan plan_fingerprint
           (blake3_hasher_finalize prefix_hasher) (initial_cursor_fingerprint plan) 0 0 0)) ;;
  run check_replay control context source recipe plan plan_fingerprint ;;
  produce_stream producer control sinks context source recipe plan plan_fingerprint
    framework_context
    (mk_loop 0 0
       (initialize_stream_hasher (plan_record_type plan) (plan_total_records plan)
          (plan_total_bytes plan)) prefix_hasher).

Definition produce (context : ptr laplace_framework_context)
    (source recipe : ptr laplace_digest256)
    (producer : ptr (laplace_framework_producer_v1 W))
    (control : ptr (laplace_framework_producer_control_v1 W))
    (sinks : ptr (list (laplace_framework_sink_v1 W))) (sinks_count : Z) (required : bool)
    : step unit :=
  run prepare_output sinks_count required ;;
  let '(s, fingerprint) := laplace_framework_context_fingerprint context (Some (zeros 32)) in
  let fingerprint := default (zeros 32) fingerprint in
  run update (on_stream (set_context fingerprint)) ;;
  run fail_when (failed s) s ;;
  match source, recipe with
  | Some source, Some recipe =>
      run update (on_stream (fun r => set_stream (batch_count r) source recipe r)) ;;
      match producer, control with
      | Some producer, Some control =>
          run fail_when (negb (producer_valid producer) || negb (control_valid control))
                LAPLACE_FRAMEWORK_PRODUCER_INVALID ;;
          run check_sinks sinks sinks_count ;;
          run modify with_prepared ;;
          do '(s, plan) <- invoke (call_prepare producer context source recipe) ;;
          run fail_when (failed s) LAPLACE_FRAMEWORK_PRODUCER_PREPARE_FAILED ;;
          run_plan producer control (cells sinks sinks_count) context fingerprint source recipe
            plan
      | _, _ => fail LAPLACE_FRAMEWORK_PRODUCER_INVALID
      end
  | _, _ => fail LAPLACE_FRAMEWORK_PRODUCER_INVALID
  end.

Definition run_producer_impl (context : ptr laplace_framework_context)
    (source recipe : ptr laplace_digest256)
    (producer : ptr (laplace_framework_producer_v1 W))
    (control : ptr (laplace_framework_producer_control_v1 W))
    (sinks : ptr (list (laplace_framework_sink_v1 W))) (sinks_count : Z)
    (output : ptr laplace_framework_sink_artifact_output) (required : bool)
    (receipt : ptr laplace_framework_producer_receipt) (world : W)
    : laplace_framework_status * ptr laplace_framework_sink_artifact_output *
      ptr laplace_framework_producer_receipt * W :=
  return_when is_null receipt
    with (LAPLACE_FRAMEWORK_INVALID_ARGUMENT, output, receipt, world) ;;
  match produce context source recipe producer control sinks sinks_count required
          (initial_run sinks_count output world) with
  | (Continue _, st) =>
      (LAPLACE_FRAMEWORK_OK, run_output st,
       Some (finish_producer LAPLACE_FRAMEWORK_OK LAPLACE_FRAMEWORK_EFFECT_STAGED_INERT
               (run_replay_verified st) (run_receipt st)), run_world st)
  | (Fail s, st) =>
      let world := abort_sinks (cells sinks sinks_count) (run_begun st) (run_world st) in
      let world := if producer_prepared st then call_producer_abort producer world
                   else world in
      (s, run_output st, Some (finish_producer s 0 (run_replay_verified st) (run_receipt st)),
       world)
  end.

Definition laplace_framework_run_producer (context : ptr laplace_framework_context)
    (source recipe : ptr laplace_digest256)
    (producer : ptr (laplace_framework_producer_v1 W))
    (control : ptr (laplace_framework_producer_control_v1 W))
    (sinks : ptr (list (laplace_framework_sink_v1 W))) (sinks_count : Z)
    (receipt : ptr laplace_framework_producer_receipt) (world : W)
    : laplace_framework_status * ptr laplace_framework_producer_receipt * W :=
  let '(s, _, receipt, world) :=
    run_producer_impl context source recipe producer control sinks sinks_count None false
      receipt world in
  (s, receipt, world).

Definition laplace_framework_run_producer_with_artifacts
    (context : ptr laplace_framework_context) (source recipe : ptr laplace_digest256)
    (producer : ptr (laplace_framework_producer_v1 W))
    (control : ptr (laplace_framework_producer_control_v1 W))
    (sinks : ptr (list (laplace_framework_sink_v1 W))) (sinks_count : Z)
    (output : ptr laplace_framework_sink_artifact_output)
    (receipt : ptr laplace_framework_producer_receipt) (world : W) :=
  run_producer_impl context source recipe producer control sinks sinks_count output true
    receipt world.
End Producing.

(** ** Instrumented runs *)
Inductive run_event :=
| PrepareCalled
| Produced (batch_index : Z) (batch : laplace_framework_canonical_batch)
| SinkCalled (event : sink_event)
| Progress (c : laplace_framework_replay_checkpoint)
| FinishCalled
| AbortCalled.

Definition traced_producer {W} (producer : laplace_framework_producer_v1 W)
    : laplace_framework_producer_v1 (W * list run_event) := {|
  producer_prepare := (fun prepare '(w, log) context source recipe plan =>
    let '(s, plan, w) := prepare w context source recipe plan in
    (s, plan, (w, log ++ [PrepareCalled]))) <$> producer_prepare producer;
  producer_next := (fun next '(w, log) batch_index batch cursor =>
    let '(s, batch, cursor, w) := next w batch_index batch cursor in
    (s, batch, cursor, (w, log ++ [Produced batch_index batch]))) <$> producer_next producer;
  producer_finish := (fun finish '(w, log) fingerprint =>
    let '(s, fingerprint, w) := finish w fingerprint in
    (s, fingerprint, (w, log ++ [FinishCalled]))) <$> producer_finish producer;
  producer_abort := (fun abort '(w, log) => (abort w, log ++ [AbortCalled]))
    <$> producer_abort producer;
  producer_abi_major := producer_abi_major producer;
  producer_abi_minor := producer_abi_minor producer;
  producer_flags := producer_flags producer;
  producer_reserved := producer_reserved producer |}.

Definition traced_control {W} (control : laplace_framework_producer_control_v1 W)
    : laplace_framework_producer_control_v1 (W * list run_event) := {|
  replay_checkpoint := replay_checkpoint control;
  cancel_requested := (fun cancel '(w, log) => let '(c, w) := cancel w in (c, (w, log)))
    <$> cancel_requested control;
  observe_progress := (fun observe '(w, log) c => (observe w c, log ++ [Progress c]))
    <$> observe_progress control;
  control_abi_major := control_abi_major control;
  control_abi_minor := control_abi_minor control;
  control_flags := control_flags control;
  control_reserved := control_reserved control |}.

Abbreviation traced_sinks sinks := (traced_from SinkCalled 0 sinks).

(** ** The script of a run
    What a run that pulls the batches and cursors [ps] from its producer does,
    call by call. *)
Section Script.
Context {B : Blake3}.
Variables (n : nat) (context source recipe : laplace_digest256)
  (plan : laplace_framework_producer_plan) (plan_fingerprint : laplace_digest256).

Definition advance_loop (batch_index : Z) (l : loop_state)
    (batch : laplace_framework_canonical_batch) : loop_state :=
  mk_loop (loop_records l + record_count batch) (loop_bytes l + byte_count batch)
    (blake3_hasher_update (loop_stream_hasher l) (batch_bytes batch))
    (update_prefix_hasher (loop_prefix_hasher l) batch_index batch).

(** The checkpoint once [l] has been reached with [batches] batches. *)
Definition checkpoint_at (batches : Z) (l : loop_state) (cursor : laplace_digest256)
    : laplace_framework_replay_checkpoint :=
  set_checkpoint context source recipe plan plan_fingerprint
    (blake3_hasher_finalize (loop_prefix_hasher l)) cursor batches (loop_records l)
    (loop_bytes l).

Fixpoint batches_script (batch_index : Z) (l : loop_state)
    (ps : list (laplace_framework_canonical_batch * laplace_digest256)) : list run_event :=
  match ps with
  | [] => []
  | (batch, cursor) :: rest =>
      let l := advance_loop batch_index l batch in
      Produced batch_index batch ::
      map SinkCalled (map (Stage batch) (seq 0 n)) ++
      Progress (checkpoint_at (batch_index + 1) l cursor) ::
      batches_script (batch_index + 1) l rest
  end.

Fixpoint final_loop (batch_index : Z) (l : loop_state)
    (ps : list (laplace_framework_canonical_batch * laplace_digest256)) : loop_state :=
  match ps with
  | [] => l
  | (batch, _) :: rest =>
      final_loop (batch_index + 1) (advance_loop batch_index l batch) rest
  end.

Definition initial_loop : loop_state :=
  mk_loop 0 0
    (initialize_stream_hasher (plan_record_type plan) (plan_total_records plan)
       (plan_total_bytes plan)) (initialize_prefix_hasher (plan_record_type plan)).

Definition stream_script ps : list run_event :=
  Progress (checkpoint_at 0 initial_loop (initial_cursor_fingerprint plan)) ::
  map SinkCalled (begin_events n (plan_record_type plan) (plan_total_records plan)
                    (plan_total_bytes plan)) ++
  batches_script 0 initial_loop ps ++
  FinishCalled ::
  map SinkCalled
    (map (Seal (blake3_hasher_finalize (loop_stream_hasher (final_loop 0 initial_loop ps))))
       (seq 0 n)).
End Script.

Definition is_begin (event : run_event) : bool :=
  match event with SinkCalled (Begin _ _ _ _) => true | _ => false end.
Definition begins (events : list run_event) : nat := length (List.filter is_begin events).

(** ** Tracing of the parts of a run *)
Section Tracing.
Context {B : Blake3} {W : Type}.

Definition embed (st : producer_run W) (log : list run_event)
    : producer_run (W * list run_event) := with_world (run_world st, log) st.

Abbreviation ensures m mt st P := (traces embed m mt st P).

Lemma traces_update f st (P : outcome laplace_framework_status unit -> _ -> _ -> Prop) :
  P (Continue tt) (with_receipt f st) [] -> ensures (update f) (update f) st P.
Proof. by apply traces_modify. Qed.

Lemma traces_invoke {A} (call : W -> A * W) callt st (events : A -> list run_event)
    (P : outcome laplace_framework_status A -> _ -> _ -> Prop) :
  (forall log, callt (run_world st, log) =
     let '(a, w) := call (run_world st) in (a, (w, log ++ events a))) ->
  (forall a w, P (Continue a) (with_world w st) (events a)) ->
  ensures (invoke call) (invoke callt) st P.
Proof.
  intros Hcall H log. unfold invoke. simpl. rewrite Hcall.
  destruct (call (run_world st)) as [a w]. by exists (events a).
Qed.

(** The callbacks of a valid producer or control, with what they log. *)
Lemma producer_callbacks (p : laplace_framework_producer_v1 W) : producer_valid p = true ->
  exists prepare next finish abort, producer_prepare p = Some prepare /\
    producer_next p = Some next /\ producer_finish p = Some finish /\
    producer_abort p = Some abort.
Proof.
  unfold producer_valid. destruct (producer_prepare p), (producer_next p), (producer_finish p),
    (producer_abort p); simpl; naive_solver.
Qed.

Lemma control_callbacks (c : laplace_framework_producer_control_v1 W) :
  control_valid c = true ->
  exists cancel observe, cancel_requested c = Some cancel /\ observe_progress c = Some observe.
Proof.
  unfold control_valid. destruct (cancel_requested c), (observe_progress c); simpl; naive_solver.
Qed.

Lemma traced_producer_valid (p : laplace_framework_producer_v1 W) :
  producer_valid (traced_producer p) = producer_valid p.
Proof.
  unfold producer_valid, traced_producer. simpl. by destruct (producer_prepare p),
    (producer_next p), (producer_finish p), (producer_abort p).
Qed.

Lemma traced_control_valid (c : laplace_framework_producer_control_v1 W) :
  control_valid (traced_control c) = control_valid c.
Proof.
  unfold control_valid, traced_control. simpl.
  by destruct (cancel_requested c), (observe_progress c).
Qed.

Section Calls.
Variables (producer : laplace_framework_producer_v1 W)
  (control : laplace_framework_producer_control_v1 W)
  (sinks : list (laplace_framework_sink_v1 W)).
Hypothesis Hproducer : producer_valid producer = true.
Hypothesis Hcontrol : control_valid control = true.
Hypothesis Hsinks : Forall (fun s => sink_valid s = true) sinks.

Lemma traces_prepare context source recipe st
    (P : outcome laplace_framework_status _ -> _ -> _ -> Prop) :
  (forall a w, P (Continue a) (with_world w st) [PrepareCalled]) ->
  ensures (invoke (call_prepare producer context source recipe))
    (invoke (call_prepare (traced_producer producer) context source recipe)) st P.
Proof.
  intros H. apply (traces_invoke _ _ _ (fun _ => [PrepareCalled])); [|exact H].
  intros log. destruct (producer_callbacks _ Hproducer) as (? & ? & ? & ? & E & _).
  unfold call_prepare, traced_producer. simpl. rewrite E. simpl.
  by destruct (x _ _ _ _ _) as [[? ?] ?].
Qed.

Lemma traces_next batch_index st
    (P : outcome laplace_framework_status _ -> _ -> _ -> Prop) :
  (forall s batch cursor w,
     P (Continue (s, batch, cursor)) (with_world w st) [Produced batch_index batch]) ->
  ensures (invoke (call_next producer batch_index))
    (invoke (call_next (traced_producer producer) batch_index)) st P.
Proof.
  intros H. apply (traces_invoke _ _ _ (fun a => [Produced batch_index a.1.2]));
    [|by intros [[s batch] cursor] w; apply H].
  intros log. destruct (producer_callbacks _ Hproducer) as (? & ? & ? & ? & _ & E & _).
  unfold call_next, traced_producer. simpl. rewrite E. simpl.
  by destruct (x0 _ _ _ _) as [[[? ?] ?] ?].
Qed.

Lemma traces_finish fingerprint st
    (P : outcome laplace_framework_status _ -> _ -> _ -> Prop) :
  (forall a w, P (Continue a) (with_world w st) [FinishCalled]) ->
  ensures (invoke (call_finish producer fingerprint))
    (invoke (call_finish (traced_producer producer) fingerprint)) st P.
Proof.
  intros H. apply (traces_invoke _ _ _ (fun _ => [FinishCalled])); [|exact H].
  intros log. destruct (producer_callbacks _ Hproducer) as (? & ? & ? & ? & _ & _ & E & _).
  unfold call_finish, traced_producer. simpl. rewrite E. simpl.
  by destruct (x1 _ _) as [[? ?] ?].
Qed.

Lemma traces_cancel st (P : outcome laplace_framework_status unit -> _ -> _ -> Prop) :
  (forall w, P (Fail LAPLACE_FRAMEWORK_PRODUCER_CANCELLED) (with_world w st) []) ->
  (forall w, P (Continue tt) (with_world w st) []) ->
  ensures (check_cancelled control) (check_cancelled (traced_control control)) st P.
Proof.
  intros Hf Hc. unfold check_cancelled. apply traces_andthen.
  apply (traces_invoke _ _ _ (fun _ => [])).
  - intros log. destruct (control_callbacks _ Hcontrol) as (? & ? & E & _).
    unfold call_cancel, traced_control. simpl. rewrite E. simpl.
    destruct (x _). by rewrite app_nil_r.
  - intros a w. apply traces_fail_when; intros _; [apply Hf | apply Hc].
Qed.

Lemma traces_progress st (P : outcome laplace_framework_status unit -> _ -> _ -> Prop) :
  (forall w, P (Continue tt) (with_receipt count_progress (with_world w st))
               [Progress (checkpoint (run_receipt st))]) ->
  ensures (report_progress control) (report_progress (traced_control control)) st P.
Proof.
  intros H. unfold report_progress. apply traces_andthen, traces_gets; [done|].
  apply traces_andthen.
  apply (traces_invoke _ _ _ (fun _ => [Progress (checkpoint (run_receipt st))])).
  - intros log. destruct (control_callbacks _ Hcontrol) as (? & ? & _ & E).
    unfold call_observe, traced_control. simpl. by rewrite E.
  - intros _ w. by apply traces_update.
Qed.

Let n := length sinks.

Lemma keep_failed_sink (st : producer_run W) :
  with_receipt (on_stream (set_failed_sink (failed_sink_index (stream (run_receipt st))))) st = st.
Proof. by destruct st as [[? [] ? ? ? ? ? ? ? ?] ? ? ? ? ?]. Qed.

Lemma keep_failed (st : producer_run W) :
  with_receipt (on_stream (set_failed (failed_batch_index (stream (run_receipt st)))
                             (failed_sink_index (stream (run_receipt st))))) st = st.
Proof. by destruct st as [[? [] ? ? ? ? ? ? ? ?] ? ? ? ? ?]. Qed.

Lemma traces_begin context plan st (P : outcome laplace_framework_status unit -> _ -> _ -> Prop) :
  let begun k := map SinkCalled (begin_events k (plan_record_type plan)
                   (plan_total_records plan) (plan_total_bytes plan)) in
  (forall w, P (Continue tt) (with_world w (with_begun n st)) (begun n)) ->
  (forall w j, (j < n)%nat ->
     P (Fail LAPLACE_FRAMEWORK_SINK_BEGIN_FAILED)
       (with_world w (with_begun (S j) (with_receipt (on_stream (set_failed_sink (Z.of_nat j)))
          st))) (begun (S j))) ->
  ensures (begin_all sinks context plan) (begin_all (traced_sinks sinks) context plan) st P.
Proof.
  intros begun Hc Hf log. unfold begin_all, begin_sinks. simpl run_world.
  change (run_receipt (embed st log)) with (run_receipt st).
  pose proof (begin_traced SinkCalled sinks context (plan_record_type plan)
    (plan_total_records plan) (plan_total_bytes plan)
    (failed_sink_index (stream (run_receipt st))) 0 (run_world st) log Hsinks) as H.
  destruct (begin_sinks_from sinks 0 context _ _ _ _ (run_world st)) as [[[s k] f] w].
  destruct H as [-> Hs]. rewrite Nat.sub_0_r. exists (begun k). split; [by destruct s|].
  destruct s; try done.
  - destruct Hs as [-> ->]. rewrite keep_failed_sink. apply Hc.
  - destruct Hs as (j & -> & -> & Hj). apply Hf. subst n. lia.
Qed.

Lemma traces_stage batch batch_index st
    (P : outcome laplace_framework_status unit -> _ -> _ -> Prop) :
  let staged k := map SinkCalled (map (Stage batch) (seq 0 k)) in
  (forall w, P (Continue tt) (with_world w st) (staged n)) ->
  (forall w j, (j < n)%nat ->
     P (Fail LAPLACE_FRAMEWORK_SINK_STAGE_FAILED)
       (with_world w (with_receipt (on_stream (set_failed batch_index (Z.of_nat j))) st))
       (staged (S j))) ->
  ensures (stage_all sinks batch batch_index) (stage_all (traced_sinks sinks) batch batch_index)
    st P.
Proof.
  intros staged Hc Hf log. unfold stage_all, stage_batch_to_sinks. simpl run_world.
  change (run_receipt (embed st log)) with (run_receipt st).
  pose proof (stage_batch_traced SinkCalled sinks batch batch_index
    (failed_batch_index (stream (run_receipt st))) (failed_sink_index (stream (run_receipt st)))
    0 (run_world st) log Hsinks) as H.
  destruct (stage_batch_from sinks 0 batch _ _ _ (run_world st)) as [[[s b] f] w].
  destruct H as (m & -> & Hs). exists (staged m). split; [by destruct s|]. destruct s; try done.
  - destruct Hs as (-> & -> & ->). rewrite keep_failed. apply Hc.
  - destruct Hs as (j & -> & -> & -> & Hj). by apply Hf.
Qed.

Lemma traces_seal st (P : outcome laplace_framework_status unit -> _ -> _ -> Prop) :
  let sealed k := map SinkCalled (map (Seal (stream_fingerprint (stream (run_receipt st))))
                                    (seq 0 k)) in
  (forall artifacts output w, P (Continue tt)
     (with_world w (with_output output (with_receipt (on_stream (set_artifacts artifacts)) st)))
     (sealed n)) ->
  (forall f output w j, (j < n)%nat -> P (Fail LAPLACE_FRAMEWORK_SINK_SEAL_FAILED)
     (with_world w (with_output output (with_receipt (on_stream f) st))) (sealed (S j))) ->
  ensures (seal_all sinks) (seal_all (traced_sinks sinks)) st P.
Proof.
  intros sealed Hc Hf log. unfold seal_all, seal_sinks. rewrite length_traced_from.
  simpl run_world. change (run_receipt (embed st log)) with (run_receipt st).
  change (run_output (embed st log)) with (run_output st).
  pose proof (seal_traced SinkCalled sinks (stream_fingerprint (stream (run_receipt st))) 0
    (initialize_sink_artifact_hasher (Z.of_nat (length sinks))) (run_output st) (run_world st)
    log Hsinks) as H.
  destruct (seal_sinks_from sinks 0 _ _ _ (run_world st)) as [[[[s i] h] out] w].
  destruct H as (m & -> & Hs). destruct s; try done; exists (sealed m).
  - subst m. split; [done|].
    specialize (Hc (blake3_hasher_finalize h) (store_artifact_count out (Z.of_nat n)) w).
    destruct st as [[? [] ? ? ? ? ? ? ? ?] ? ? ? ? ?]. exact Hc.
  - destruct Hs as (j & -> & -> & Hj). split; [done|]. by apply Hf.
Qed.
End Calls.
End Tracing.

(** ** The script is followed *)
Section Following.
Context {B : Blake3} {W : Type}.
Abbreviation ensures m mt st P := (traces embed m mt st P).

Variables (producer : laplace_framework_producer_v1 W)
  (control : laplace_framework_producer_control_v1 W)
  (sinks : list (laplace_framework_sink_v1 W)).
Hypothesis Hproducer : producer_valid producer = true.
Hypothesis Hcontrol : control_valid control = true.
Hypothesis Hsinks : Forall (fun s => sink_valid s = true) sinks.
Variables (context source recipe : laplace_digest256)
  (plan : laplace_framework_producer_plan) (plan_fp : laplace_digest256).
Let n := length sinks.

Abbreviation script := (batches_script n context source recipe plan plan_fp).

(** What every step keeps. *)
Definition keeps (st st' : producer_run W) : Prop :=
  run_begun st' = run_begun st /\ producer_prepared st' = producer_prepared st.

Lemma traces_fail_batch b batch_index (st : producer_run W)
    (P : outcome laplace_framework_status unit -> _ -> _ -> Prop) :
  (b = true -> P (Fail LAPLACE_FRAMEWORK_PRODUCER_BATCH_FAILED)
     (with_receipt (on_stream (fun r => set_failed batch_index (failed_sink_index r) r)) st) []) ->
  (b = false -> P (Continue tt) st []) ->
  ensures (fail_batch_when b batch_index) (fail_batch_when b batch_index) st P.
Proof.
  intros Hf Hc. destruct b; [|by apply traces_pure, Hc].
  apply traces_andthen, traces_update, traces_fail. by apply Hf.
Qed.

Lemma traces_verify replay (st : producer_run W) (P : outcome laplace_framework_status unit -> _ -> _ -> Prop) :
  P (Fail LAPLACE_FRAMEWORK_REPLAY_MISMATCH) st [] ->
  (checkpoint_id replay = checkpoint_id (checkpoint (run_receipt st)) ->
   P (Continue tt) (with_verified st) []) ->
  ensures (verify_replay replay) (verify_replay replay) st P.
Proof.
  intros Hf Hc. unfold verify_replay. apply traces_andthen, traces_gets; [done|].
  apply traces_andthen, traces_fail_when; intros H; bools; [done|].
  apply traces_modify; [done|]. apply Hc. by apply bytes_equal_spec.
Qed.

(** The replay assertion between two batches changes nothing but the flag. *)
Lemma traces_replay batches (st : producer_run W) :
  let m := match replay_checkpoint control with
           | Some replay =>
               if completed_batches replay =? batches then verify_replay replay else pure tt
           | None => pure tt
           end in
  let mt := match replay_checkpoint control with
           | Some replay =>
               if completed_batches replay =? batches then verify_replay replay else pure tt
           | None => pure tt
           end in
  ensures m mt st (fun a st' events => events = [] /\ keeps st st' /\
    stream (run_receipt st') = stream (run_receipt st) /\
    checkpoint (run_receipt st') = checkpoint (run_receipt st)).
Proof.
  cbv zeta. destruct (replay_checkpoint control) as [replay|]; [|by apply traces_pure].
  destruct (completed_batches replay =? batches); [|by apply traces_pure].
  by apply traces_verify.
Qed.

Lemma map_seq_prefix {A C} (f : nat -> A) (g : A -> C) j k tail :
  (j <= k)%nat -> map g (map f (seq 0 j)) `prefix_of` map g (map f (seq 0 k)) ++ tail.
Proof.
  intros Hj. exists (map g (map f (seq j (k - j))) ++ tail).
  rewrite app_assoc, <- !map_app, <- seq_app. do 4 f_equal. lia.
Qed.

(** A batch that passes the checks extends a valid sequence of batches. *)
Definition batch_fits (l : loop_state) (batch : laplace_framework_canonical_batch) : Prop :=
  batch_invalid plan batch (loop_records l) (loop_bytes l) = false.

Lemma traces_produce_batch batch_index l st :
  ensures
    (produce_batch producer control sinks context source recipe plan plan_fp batch_index l)
    (produce_batch (traced_producer producer) (traced_control control) (traced_sinks sinks)
       context source recipe plan plan_fp batch_index l) st
    (fun a st' events =>
       keeps st st' /\ exists batch cursor,
       match a with
       | Continue l' =>
           l' = advance_loop batch_index l batch /\ batch_fits l batch /\
           events = script batch_index l [(batch, cursor)] /\
           stream (run_receipt st') = stream (run_receipt st) /\
           checkpoint (run_receipt st') =
             checkpoint_at context source recipe plan plan_fp (batch_index + 1) l' cursor
       | Fail _ => events `prefix_of` script batch_index l [(batch, cursor)]
       end).
Proof.
  unfold produce_batch. cbn [replay_checkpoint traced_control].
  apply traces_andthen, traces_cancel; [done| |]; intros w0.
  { split; [done|]. exists (mk_batch None 0 0 0 0 0), (zeros 32). apply prefix_nil. }
  apply traces_andthen, traces_next; [done|]. intros s batch cursor w1.
  apply traces_andthen, traces_fail_batch; intros Hs.
  { split; [done|]. exists batch, cursor. by apply prefix_cons, prefix_nil. }
  apply traces_andthen, traces_fail_batch; intros Hfit.
  { split; [done|]. exists batch, cursor. by apply prefix_cons, prefix_nil. }
  apply traces_andthen, traces_fail_batch; intros Htotals.
  { split; [done|]. exists batch, cursor. by apply prefix_cons, prefix_nil. }
  apply traces_andthen, traces_stage; [done| |].
  2:{ intros w2 j Hj. split; [done|]. exists batch, cursor. apply prefix_cons.
      rewrite !app_nil_l. apply map_seq_prefix. lia. }
  intros w2. apply traces_andthen, traces_update, traces_andthen.
  eapply traces_consequence; [apply traces_replay|].
  intros a st' events (-> & Hk & Hstream & Hc). destruct a as [[]|status].
  2:{ split; [exact Hk|]. exists batch, cursor. apply prefix_cons.
      rewrite !app_nil_l, app_nil_r. by apply prefix_app_r. }
  apply traces_andthen, traces_progress; [done|]. intros w3. apply traces_pure.
  split; [exact Hk|]. exists batch, cursor. rewrite Hc.
  split_and!; [done | exact Hfit | | exact Hstream | done].
  by rewrite !app_nil_l, !app_nil_r.
Qed.

(** The batches that were produced, one by one, fit the plan. *)
Lemma fits_validate batch_index (l : loop_state) batch rest result :
  batch_fits l batch ->
  validate_batches rest (plan_record_type plan)
    (loop_records (advance_loop batch_index l batch))
    (loop_bytes (advance_loop batch_index l batch)) = result ->
  validate_batches (batch :: rest) (plan_record_type plan) (loop_records l) (loop_bytes l) =
    result.
Proof.
  unfold batch_fits, batch_invalid. intros H. bools. cbn [validate_batches].
  repeat match goal with H : ?b = false |- context [?b] => rewrite H end.
  repeat match goal with H : ?x = ?y |- context [?x =? ?y] => rewrite (proj2 (Z.eqb_eq x y) H) end.
  repeat match goal with H : ?x <> ?y |- context [?x =? ?y] =>
    rewrite (proj2 (Z.eqb_neq x y) H) end.
  repeat match goal with H : ?x <= ?y |- context [?y <? ?x] =>
    rewrite (proj2 (Z.ltb_ge y x) H) end.
  done.
Qed.

Lemma script_app batch_index l p rest :
  script batch_index l [p] ++ script (batch_index + 1) (advance_loop batch_index l p.1) rest =
  script batch_index l (p :: rest).
Proof. destruct p as [batch cursor]. simpl. by rewrite <- app_assoc. Qed.

Lemma traces_produce_batches remaining : forall batch_index l st,
  ensures
    (produce_batches producer control sinks context source recipe plan plan_fp remaining
       batch_index l)
    (produce_batches (traced_producer producer) (traced_control control) (traced_sinks sinks)
       context source recipe plan plan_fp remaining batch_index l) st
    (fun a st' events =>
       keeps st st' /\ exists ps,
       match a with
       | Continue l' =>
           length ps = remaining /\ l' = final_loop batch_index l ps /\
           events = script batch_index l ps /\
           validate_batches (map fst ps) (plan_record_type plan) (loop_records l) (loop_bytes l)
             = Some (loop_records l', loop_bytes l') /\
           stream (run_receipt st') = stream (run_receipt st)
       | Fail _ => events `prefix_of` script batch_index l ps
       end).
Proof.
  induction remaining as [|remaining IH]; intros batch_index l st; cbn [produce_batches].
  { apply traces_pure. split; [done|]. by exists []. }
  apply traces_andthen. eapply traces_consequence; [apply traces_produce_batch|].
  intros a st1 events1 (Hk1 & batch & cursor & H). destruct a as [l1|status].
  2:{ split; [done|]. by exists [(batch, cursor)]. }
  destruct H as (-> & Hfit & -> & Hstream & _).
  eapply traces_consequence; [apply IH|]. intros a st2 events2 (Hk2 & ps & H).
  split. { destruct Hk1, Hk2. split; congruence. }
  exists ((batch, cursor) :: ps). rewrite <- (script_app batch_index l (batch, cursor) ps).
  destruct a as [l2|status]; [|by apply prefix_app].
  destruct H as (<- & -> & -> & Hv & Hstream2). split_and!; [done..| |congruence].
  by apply (fits_validate batch_index).
Qed.

Lemma begins_app e1 e2 : begins (e1 ++ e2) = (begins e1 + begins e2)%nat.
Proof. unfold begins. by rewrite List.filter_app, length_app. Qed.

Lemma begins_cons e events : is_begin e = false -> begins (e :: events) = begins events.
Proof. unfold begins. cbn [List.filter]. by intros ->. Qed.

Lemma begins_none f (l : list nat) : (forall i, is_begin (SinkCalled (f i)) = false) ->
  begins (map SinkCalled (map f l)) = 0%nat.
Proof.
  intros H. induction l as [|i l IH]; [done|]. unfold begins in *.
  cbn [map List.filter]. by rewrite H.
Qed.

Lemma begins_begin k : begins (map SinkCalled (begin_events k (plan_record_type plan)
  (plan_total_records plan) (plan_total_bytes plan))) = k.
Proof.
  unfold begin_events, begins. generalize 0%nat at 1.
  induction k as [|k IH]; intros i; simpl; [done|]. by rewrite IH.
Qed.

Lemma begins_script ps : forall batch_index l, begins (script batch_index l ps) = 0%nat.
Proof.
  induction ps as [|[batch cursor] ps IH]; intros batch_index l; [done|].
  cbn [batches_script]. by rewrite begins_cons, begins_app, begins_cons, IH, begins_none.
Qed.

Lemma begins_prefix e1 e2 : e1 `prefix_of` e2 -> begins e2 = 0%nat -> begins e1 = 0%nat.
Proof. intros [tail ->]. rewrite begins_app. lia. Qed.

(** The two halves of the script: until the sinks have begun, and after. *)
Let opening := Progress (checkpoint_at context source recipe plan plan_fp 0 (initial_loop plan)
                           (initial_cursor_fingerprint plan)) ::
  map SinkCalled (begin_events n (plan_record_type plan) (plan_total_records plan)
                    (plan_total_bytes plan)).
Let closing ps := FinishCalled ::
  map SinkCalled
    (map (Seal (blake3_hasher_finalize
                  (loop_stream_hasher (final_loop 0 (initial_loop plan) ps)))) (seq 0 n)).

Lemma opened events ps :
  events `prefix_of` script 0 (initial_loop plan) ps ++ closing ps ->
  opening ++ events `prefix_of` stream_script n context source recipe plan plan_fp ps /\
  begins (opening ++ events) = n.
Proof.
  intros Hp. split.
  - unfold stream_script. apply prefix_cons, prefix_app, Hp.
  - apply begins_prefix in Hp.
    + unfold opening. cbn [app]. rewrite begins_cons, begins_app, begins_begin by done. lia.
    + unfold closing. by rewrite begins_app, begins_script, begins_cons, begins_none.
Qed.

Definition streamed (st : producer_run W) (a : outcome laplace_framework_status unit)
    (st' : producer_run W) (events : list run_event) : Prop :=
  producer_prepared st' = producer_prepared st /\ exists ps,
  match a with
  | Continue _ =>
      run_begun st' = n /\ length ps = Z.to_nat (plan_batch_count plan) /\
      events = stream_script n context source recipe plan plan_fp ps /\
      validate_batches (map fst ps) (plan_record_type plan) 0 0 =
        Some (plan_total_records plan, plan_total_bytes plan) /\
      exists artifacts, stream (run_receipt st') =
        set_artifacts artifacts
          (set_totals (blake3_hasher_finalize
                         (loop_stream_hasher (final_loop 0 (initial_loop plan) ps)))
             (record_type (stream (run_receipt st))) (total_records (stream (run_receipt st)))
             (total_bytes (stream (run_receipt st))) (stream (run_receipt st)))
  | Fail _ =>
      run_begun st' = begins events /\
      events `prefix_of` stream_script n context source recipe plan plan_fp ps
  end.

(** A failure once the sinks have begun. *)
Lemma streamed_fail st st' events ps status :
  run_begun st' = n -> producer_prepared st' = producer_prepared st ->
  events `prefix_of` script 0 (initial_loop plan) ps ++ closing ps ->
  streamed st (Fail status) st' (opening ++ events).
Proof.
  intros Hb Hp [Hpre Hbegins]%opened. split; [done|]. exists ps. by rewrite Hb, Hbegins.
Qed.

(** From the end of the loop on. *)
Lemma traces_closing st0 st ps (l : loop_state) :
  run_begun st = n -> producer_prepared st = producer_prepared st0 ->
  stream (run_receipt st) = stream (run_receipt st0) ->
  length ps = Z.to_nat (plan_batch_count plan) -> l = final_loop 0 (initial_loop plan) ps ->
  validate_batches (map fst ps) (plan_record_type plan) 0 0 =
    Some (loop_records l, loop_bytes l) ->
  ensures (finish_stream producer control sinks plan l)
    (finish_stream (traced_producer producer) (traced_control control) (traced_sinks sinks)
       plan l) st
    (fun a st' events =>
       streamed st0 a st' (opening ++ script 0 (initial_loop plan) ps ++ events)).
Proof.
  intros Hbegun Hprep Hstream Hlen Hl Hv.
  assert (Hfail : forall st' events status, keeps st st' -> events `prefix_of` closing ps ->
    streamed st0 (Fail status) st' (opening ++ script 0 (initial_loop plan) ps ++ events)).
  { intros st' events status [? ?] Hp.
    apply (streamed_fail _ _ _ ps); [congruence..|]. by apply prefix_app. }
  unfold finish_stream. cbn [replay_checkpoint traced_control].
  apply traces_andthen, traces_gets; [done|].
  apply traces_andthen, traces_fail_batch; intros Hok; [by apply Hfail, prefix_nil|].
  apply traces_andthen, traces_cancel; [done|intros w; by apply Hfail, prefix_nil|].
  intros w. apply traces_andthen, traces_gets; [done|].
  apply traces_andthen, traces_finish; [done|]. intros [s completion] w1.
  apply traces_andthen, traces_update, traces_andthen, traces_fail_when; intros Hs.
  { apply Hfail; [done|]. by apply prefix_cons, prefix_nil. }
  apply traces_andthen, traces_update, traces_seal; [done| |].
  2:{ intros f output w2 j Hj. apply Hfail; [done|]. apply prefix_cons.
      rewrite !app_nil_l, <- (app_nil_r (map SinkCalled (map _ (seq 0 n)))), <- Hl.
      apply map_seq_prefix. lia. }
  intros artifacts output w2. split; [done|]. exists ps. bools.
  split_and!; [done | exact Hlen | | congruence |].
  - unfold stream_script. rewrite !app_nil_l, <- Hl. done.
  - exists artifacts. simpl. by rewrite Hstream, <- Hl.
Qed.

Lemma traces_produce_stream framework_context st :
  run_begun st = 0%nat ->
  checkpoint (run_receipt st) =
    checkpoint_at context source recipe plan plan_fp 0 (initial_loop plan)
      (initial_cursor_fingerprint plan) ->
  ensures
    (produce_stream producer control sinks context source recipe plan plan_fp framework_context
       (initial_loop plan))
    (produce_stream (traced_producer producer) (traced_control control) (traced_sinks sinks)
       context source recipe plan plan_fp framework_context (initial_loop plan)) st
    (streamed st).
Proof.
  intros Hbegun Hc. unfold produce_stream.
  apply traces_andthen, traces_cancel; [done| |]; intros w0.
  { split; [done|]. exists []. split; [exact Hbegun | apply prefix_nil]. }
  apply traces_andthen, traces_progress; [done|]. intros w1.
  apply traces_andthen, traces_cancel; [done| |]; intros w2.
  { split; [done|]. exists []. split; [exact Hbegun|].
    rewrite !app_nil_l, app_nil_r. unfold stream_script.
    change (checkpoint (run_receipt (with_world w0 st))) with (checkpoint (run_receipt st)).
    rewrite Hc. by apply prefix_cons, prefix_nil. }
  apply traces_andthen, traces_begin; [done| |].
  2:{ intros w3 j Hj. split; [done|]. exists [].
      change (checkpoint (run_receipt (with_world w0 st))) with (checkpoint (run_receipt st)).
      rewrite Hc, !app_nil_l. cbn [app]. split; [by rewrite begins_cons, begins_begin|].
      apply prefix_cons. by apply map_seq_prefix. }
  intros w3. apply traces_andthen. eapply traces_consequence; [apply traces_produce_batches|].
  intros a st4 events [[Hb Hp] (ps & H)].
  change (checkpoint (run_receipt (with_world w0 st))) with (checkpoint (run_receipt st)).
  rewrite Hc, !app_nil_l. destruct a as [l|status].
  2:{ apply (streamed_fail _ _ _ ps); [done..|]. by apply prefix_app_r. }
  destruct H as (Hlen & -> & -> & Hv & Hstream).
  eapply traces_consequence; [apply (traces_closing st st4 ps); done|]. done.
Qed.
End Following.

(** ** From the preparation on *)
Section Whole.
Context {B : Blake3} {W : Type}.
Abbreviation ensures m mt st P := (traces embed m mt st P).

(** What a run did: it follows the script of some plan and batches, to the end
    when it succeeds, and has begun as many sinks as it says. *)
Definition followed (n : nat) (sinks_count : Z)
    (framework_context : ptr laplace_framework_context) (source recipe : ptr laplace_digest256)
    (a : outcome laplace_framework_status unit)
    (st : producer_run W) (events : list run_event) : Prop :=
  exists context src rec plan ps,
  let plan_fp := hash_producer_plan context src rec plan in
  let script := PrepareCalled :: stream_script n context src rec plan plan_fp ps in
  begins events = run_begun st /\ (producer_prepared st = false <-> events = []) /\
  match a with
  | Continue _ =>
      source = Some src /\ recipe = Some rec /\
      laplace_framework_context_fingerprint framework_context (Some (zeros 32)) =
        (LAPLACE_FRAMEWORK_OK, Some context) /\
      run_begun st = n /\ events = script /\
      length ps = Z.to_nat (plan_batch_count plan) /\ plan_invalid plan = false /\
      validate_batches (map fst ps) (plan_record_type plan) 0 0 =
        Some (plan_total_records plan, plan_total_bytes plan) /\
      exists artifacts, stream (run_receipt st) =
        set_artifacts artifacts
          (set_totals (blake3_hasher_finalize
                         (loop_stream_hasher (final_loop 0 (initial_loop plan) ps)))
             (plan_record_type plan) (plan_total_records plan) (plan_total_bytes plan)
             (set_stream (plan_batch_count plan) src rec
                (set_context context (initial_receipt sinks_count))))
  | Fail _ => events `prefix_of` script
  end.

Section Plans.
Variables (producer : laplace_framework_producer_v1 W)
  (control : laplace_framework_producer_control_v1 W)
  (sinks : list (laplace_framework_sink_v1 W)).
Hypothesis Hproducer : producer_valid producer = true.
Hypothesis Hcontrol : control_valid control = true.
Hypothesis Hsinks : Forall (fun s => sink_valid s = true) sinks.

(** A failure after the preparation and before the sinks. *)
Lemma followed_fail n sinks_count fctx source recipe status st :
  run_begun st = 0%nat -> producer_prepared st = true ->
  followed n sinks_count fctx source recipe (Fail status) st [PrepareCalled].
Proof.
  intros Hb Hp. exists (zeros 32), (zeros 32), (zeros 32), (mk_plan (zeros 32) (zeros 32) 0 0 0 0 0 0), [].
  split_and!; [by rewrite Hb | by rewrite Hp | by apply prefix_cons, prefix_nil].
Qed.

Lemma traces_check_replay context source recipe plan plan_fp (st : producer_run W) :
  ensures (check_replay control context source recipe plan plan_fp)
    (check_replay (traced_control control) context source recipe plan plan_fp) st
    (fun a st' events => events = [] /\ keeps st st' /\
       stream (run_receipt st') = stream (run_receipt st) /\
       checkpoint (run_receipt st') = checkpoint (run_receipt st)).
Proof.
  unfold check_replay. cbn [replay_checkpoint traced_control].
  destruct (replay_checkpoint control) as [replay|]; [|by apply traces_pure].
  apply traces_andthen, traces_update, traces_andthen, traces_fail_when; intros _; [done|].
  destruct (completed_batches replay =? 0); [|by apply traces_pure].
  by apply traces_verify.
Qed.

Lemma traces_run_plan sinks_count fctx context src rec plan (st : producer_run W) :
  run_begun st = 0%nat -> producer_prepared st = true ->
  laplace_framework_context_fingerprint fctx (Some (zeros 32)) =
    (LAPLACE_FRAMEWORK_OK, Some context) ->
  stream (run_receipt st) =
    set_stream 0 src rec (set_context context (initial_receipt sinks_count)) ->
  ensures (run_plan producer control sinks fctx context src rec plan)
    (run_plan (traced_producer producer) (traced_control control) (traced_sinks sinks) fctx
       context src rec plan) st
    (fun a st' events =>
       followed (length sinks) sinks_count fctx (Some src) (Some rec) a st'
         (PrepareCalled :: events)).
Proof.
  intros Hb Hp Hctx Hstream. unfold run_plan.
  apply traces_andthen, traces_fail_when; intros Hplan; [by apply followed_fail|].
  apply traces_andthen, traces_update, traces_andthen, traces_update, traces_andthen,
    traces_update, traces_andthen.
  eapply traces_consequence; [apply traces_check_replay|].
  intros a st1 events (-> & [Hb1 Hp1] & Hstream1 & Hc1). destruct a as [[]|status].
  2:{ apply followed_fail; [by rewrite Hb1 | by rewrite Hp1]. }
  eapply traces_consequence; [apply traces_produce_stream; [done..|by rewrite Hb1|exact Hc1]|].
  intros a st2 events [Hp2 (ps & H)]. rewrite !app_nil_l.
  exists context, src, rec, plan, ps. rewrite begins_cons by done.
  assert (Hprep : producer_prepared st2 = true) by (rewrite Hp2, Hp1; exact Hp).
  rewrite Hprep. destruct a as [[]|status].
  2:{ destruct H as [-> Hpre]. split_and!; [done..|]. by apply prefix_cons. }
  destruct H as (Hb2 & Hlen & -> & Hv & artifacts & Hr).
  split_and!; try done.
  - rewrite Hb2. unfold stream_script. cbn [app].
    by rewrite begins_cons, !begins_app, begins_begin, begins_script, begins_cons, begins_none
      by done.
  - exists artifacts. rewrite Hr, Hstream1. simpl. by rewrite Hstream.
Qed.
End Plans.

(** ** Failures are failures
    A routine is honest when it never fails with the status of success. *)
Definition honest {A} (m : routine (producer_run W) laplace_framework_status A) : Prop :=
  forall st, match m st with (Fail s, _) => s <> LAPLACE_FRAMEWORK_OK | _ => True end.

Lemma honest_andthen {A C} (m : routine _ _ A) (k : A -> routine _ _ C) :
  honest m -> (forall v, honest (k v)) -> honest (andthen m k).
Proof.
  intros Hm Hk st. unfold andthen. specialize (Hm st). destruct (m st) as [[v|s] st1]; [|done].
  apply Hk.
Qed.

Lemma honest_pure {A} (v : A) : honest (pure v).
Proof. done. Qed.
Lemma honest_modify f : honest (modify f).
Proof. done. Qed.
Lemma honest_gets {A} (f : _ -> A) : honest (gets f).
Proof. done. Qed.
Lemma honest_invoke {A} (call : W -> A * W) : honest (invoke call).
Proof. intros st. unfold invoke. by destruct (call _). Qed.
Lemma honest_fail {A} s : s <> LAPLACE_FRAMEWORK_OK -> honest (fail (A := A) s).
Proof. by intros H st. Qed.
Lemma honest_fail_when b s : s <> LAPLACE_FRAMEWORK_OK -> honest (fail_when b s).
Proof. intros H. destruct b; [by apply honest_fail | done]. Qed.
Lemma honest_failed s : honest (fail_when (failed s) s).
Proof.
  unfold failed. destruct (bool_decide (s = LAPLACE_FRAMEWORK_OK)) eqn:E; [done|].
  apply bool_decide_eq_false in E. by apply honest_fail.
Qed.

Lemma outcome_of_honest s : match outcome_of s with Fail s' => s' <> LAPLACE_FRAMEWORK_OK | _ => True end.
Proof. by destruct s. Qed.

Create HintDb honest.
#[local] Hint Resolve honest_pure honest_modify honest_gets honest_invoke honest_failed : honest.
#[local] Hint Extern 1 (honest (fail _)) => by apply honest_fail : honest.
#[local] Hint Extern 2 (honest (fail_when _ _)) => by apply honest_fail_when : honest.
#[local] Hint Extern 3 (honest (andthen _ _)) => apply honest_andthen; [|intros ?] : honest.

Lemma honest_prepare_output count required : honest (prepare_output count required).
Proof.
  intros st. unfold prepare_output. destruct (prepare_sink_artifact_output _ _ _) as [s o].
  apply outcome_of_honest.
Qed.
Lemma honest_check_sinks (sinks : ptr (list (laplace_framework_sink_v1 W))) count :
  honest (check_sinks sinks count).
Proof.
  intros st. unfold check_sinks. destruct (validate_sinks _ _ _) as [s o].
  apply outcome_of_honest.
Qed.
Lemma honest_begin_all (sinks : list (laplace_framework_sink_v1 W)) context plan :
  honest (begin_all sinks context plan).
Proof.
  intros st. unfold begin_all. destruct (begin_sinks _ _ _ _ _ _ _) as [[[s ?] ?] ?].
  apply outcome_of_honest.
Qed.
Lemma honest_stage_all (sinks : list (laplace_framework_sink_v1 W)) batch index :
  honest (stage_all sinks batch index).
Proof.
  intros st. unfold stage_all. destruct (stage_batch_to_sinks _ _ _ _ _ _) as [[[s ?] ?] ?].
  apply outcome_of_honest.
Qed.
Lemma honest_seal_all (sinks : list (laplace_framework_sink_v1 W)) : honest (seal_all sinks).
Proof.
  intros st. unfold seal_all. destruct (seal_sinks _ _ _ _ _ _) as [[[[s ?] ?] ?] ?].
  apply outcome_of_honest.
Qed.
Lemma honest_fail_batch b index : honest (fail_batch_when b index).
Proof. destruct b; [|done]. apply honest_andthen; [done|]. intros ?. by apply honest_fail. Qed.
#[local] Hint Resolve honest_prepare_output honest_check_sinks honest_begin_all honest_stage_all
  honest_seal_all honest_fail_batch : honest.

Ltac honest_steps :=
  repeat match goal with
  | |- honest (andthen _ _) => apply honest_andthen
  | |- forall _, honest _ => intros ?
  | |- honest (match ?p with (_, _) => _ end) => destruct p
  | |- honest _ => solve [auto 10 with honest]
  end.

Lemma honest_verify replay : honest (verify_replay replay).
Proof. unfold verify_replay. auto 10 with honest. Qed.
#[local] Hint Resolve honest_verify : honest.

Section Honest.
Variables (producer : laplace_framework_producer_v1 W)
  (control : laplace_framework_producer_control_v1 W)
  (sinks : list (laplace_framework_sink_v1 W))
  (context source recipe : laplace_digest256)
  (plan : laplace_framework_producer_plan).

Lemma honest_produce_batch plan_fp index l :
  honest (produce_batch producer control sinks context source recipe plan plan_fp index l).
Proof.
  unfold produce_batch, check_cancelled, report_progress, update. honest_steps.
  destruct (replay_checkpoint control); [|done]. by case_match; honest_steps.
Qed.

Lemma honest_produce_batches plan_fp remaining : forall index l,
  honest (produce_batches producer control sinks context source recipe plan plan_fp remaining
            index l).
Proof.
  induction remaining as [|remaining IH]; intros index l; simpl; [done|].
  apply honest_andthen; [apply honest_produce_batch | auto].
Qed.

Lemma honest_run_plan fctx :
  honest (run_plan producer control sinks fctx context source recipe plan).
Proof.
  unfold run_plan, check_replay, produce_stream, finish_stream, check_cancelled,
    report_progress, update. honest_steps.
  - destruct (replay_checkpoint control); honest_steps. by case_match; honest_steps.
  - apply honest_produce_batches.
Qed.
End Honest.

Lemma honest_produce fctx source recipe
    (producer : ptr (laplace_framework_producer_v1 W))
    (control : ptr (laplace_framework_producer_control_v1 W)) sinks count required :
  honest (produce fctx source recipe producer control sinks count required).
Proof.
  unfold produce, update. apply honest_andthen; [apply honest_prepare_output|]. intros [].
  destruct (laplace_framework_context_fingerprint _ _) as [s fp]. honest_steps.
  destruct source, recipe; try (by apply honest_fail). honest_steps.
  destruct producer, control; try (by apply honest_fail). honest_steps.
  apply honest_run_plan.
Qed.

(** ** The whole run, traced *)
Lemma followed_nothing n count fctx source recipe status st :
  run_begun st = 0%nat -> producer_prepared st = false ->
  followed n count fctx source recipe (Fail status) st [].
Proof.
  intros Hb Hp. exists (zeros 32), (zeros 32), (zeros 32), (mk_plan (zeros 32) (zeros 32) 0 0 0 0 0 0), [].
  split_and!; [by rewrite Hb | by rewrite Hp | apply prefix_nil].
Qed.

Lemma traces_prepare_output count required (st : producer_run W)
    (P : outcome laplace_framework_status unit -> _ -> _ -> Prop) :
  (forall a output, P a (with_output output st) []) ->
  ensures (prepare_output count required) (prepare_output count required) st P.
Proof.
  intros H log. unfold prepare_output. change (run_output (embed st log)) with (run_output st).
  destruct (prepare_sink_artifact_output _ _ _) as [s output]. exists [].
  by rewrite app_nil_r.
Qed.

Lemma traces_check_sinks (sinks : list (laplace_framework_sink_v1 W)) (st : producer_run W)
    (P : outcome laplace_framework_status unit -> _ -> _ -> Prop) :
  (forall s f, P (Fail s) (with_receipt (on_stream (set_failed_sink f)) st) []) ->
  (sinks <> [] /\ Forall (fun s => sink_valid s = true) sinks -> P (Continue tt) st []) ->
  ensures (check_sinks (Some sinks) (Z.of_nat (length sinks)))
    (check_sinks (Some (traced_sinks sinks)) (Z.of_nat (length sinks))) st P.
Proof.
  intros Hf Hc log. unfold check_sinks, validate_sinks. ptrs.
  change (run_receipt (embed st log)) with (run_receipt st).
  rewrite (cells_all sinks), (cells_all (traced_sinks sinks))
    by (by rewrite ?length_traced_from).
  rewrite traced_valid. casec; [|destruct (first_invalid_sink sinks 0) as [i|] eqn:E];
    exists []; rewrite app_nil_r; (split; [done|]); simpl outcome_of; [by apply Hf..|].
  rewrite keep_failed_sink. apply Hc. split; [by intros ->|].
  by apply (first_invalid_none sinks 0).
Qed.

Lemma traces_produce fctx source recipe (producer : ptr (laplace_framework_producer_v1 W))
    (control : ptr (laplace_framework_producer_control_v1 W))
    (sinks : list (laplace_framework_sink_v1 W)) required output w :
  let count := Z.of_nat (length sinks) in
  ensures (produce fctx source recipe producer control (Some sinks) count required)
    (produce fctx source recipe (traced_producer <$> producer) (traced_control <$> control)
       (Some (traced_sinks sinks)) count required)
    (initial_run count output w)
    (fun a st' events =>
       followed (length sinks) count fctx source recipe a st' events /\
       (events <> [] -> (sinks <> [] /\ Forall (fun s => sink_valid s = true) sinks) /\
          exists p, producer = Some p /\ producer_valid p = true)).
Proof.
  intros count. unfold produce.
  assert (Hnothing : forall status st (G : Prop),
    run_begun st = 0%nat -> producer_prepared st = false ->
    followed (length sinks) count fctx source recipe (Fail status) st [] /\
    ([] <> @nil run_event -> G)).
  { intros status st G ? ?. split; [by apply followed_nothing | done]. }
  apply traces_andthen, traces_prepare_output. intros [[]|s] output1; [|by apply Hnothing].
  pose proof (context_fingerprint_cases fctx (zeros 32)) as Hctx.
  destruct (laplace_framework_context_fingerprint fctx (Some (zeros 32))) as [s fp] eqn:Efp.
  apply traces_andthen, traces_update, traces_andthen, traces_fail_when; intros Hs;
    [by apply Hnothing|].
  destruct source as [source|]; [|by apply traces_fail, Hnothing].
  destruct recipe as [recipe|]; [|by apply traces_fail, Hnothing].
  apply traces_andthen, traces_update.
  destruct producer as [producer|]; [|by apply traces_fail, Hnothing].
  destruct control as [control|]; [|by apply traces_fail, Hnothing].
  cbn [fmap option_fmap option_map]. rewrite traced_producer_valid, traced_control_valid.
  apply traces_andthen, traces_fail_when; intros Hvalid; [by apply Hnothing|]. bools.
  apply traces_andthen, traces_check_sinks; [intros; by apply Hnothing|]. intros Hsinks.
  apply traces_andthen, traces_modify; [done|].
  apply traces_andthen, traces_prepare; [done|]. intros [s1 plan] w1.
  assert (Hcalled : forall events : list run_event, events <> [] ->
    (sinks <> [] /\ Forall (fun s => sink_valid s = true) sinks) /\
    exists p, Some producer = Some p /\ producer_valid p = true) by eauto.
  apply traces_andthen, traces_fail_when; intros Hs1.
  { split; [by apply followed_fail | by apply Hcalled]. }
  rewrite (cells_all sinks), (cells_all (traced_sinks sinks))
    by (by rewrite ?length_traced_from).
  eapply traces_consequence; [apply (traces_run_plan _ _ _ ltac:(done) ltac:(done) (proj2 Hsinks) count)|].
  - done.
  - done.
  - unfold failed in Hs. destruct s; try done. destruct fp as [fp|]; [|done]. exact Efp.
  - done.
  - intros a st2 events H2. rewrite !app_nil_l. split; [exact H2 | by apply Hcalled].
Qed.
End Whole.

(** The calls that end a run: after a failure, the withdrawal of the sinks that
    were begun, in order, and then of the producer that was prepared. *)
Definition cleanup (s : laplace_framework_status) (calls : list run_event) : list run_event :=
  match s, calls with
  | LAPLACE_FRAMEWORK_OK, _ | _, [] => []
  | _, _ => map SinkCalled (map Aborted (seq 0 (begins calls))) ++ [AbortCalled]
  end.

Section Runs.
Context {B : Blake3} {W : Type}.

Lemma followed_begins (sinks : list (laplace_framework_sink_v1 W)) count fctx source recipe
    status (st : producer_run W) events :
  followed (length sinks) count fctx source recipe (Fail status) st events ->
  (run_begun st <= length sinks)%nat.
Proof.
  intros (context & src & rec & plan & ps & <- & _ & [tail H]).
  apply (f_equal begins) in H. rewrite begins_app in H. unfold stream_script in H.
  rewrite !begins_cons, !begins_app, begins_begin, begins_script, begins_cons, begins_none in H
    by done. lia.
Qed.

(** A traced run is the run, with its calls and their cleanup logged. *)
Lemma run_traced fctx source recipe (producer : ptr (laplace_framework_producer_v1 W))
    (control : ptr (laplace_framework_producer_control_v1 W))
    (sinks : list (laplace_framework_sink_v1 W)) output required receipt w :
  let count := Z.of_nat (length sinks) in
  let '(s, output', r', w') :=
    run_producer_impl fctx source recipe producer control (Some sinks) count output required
      (Some receipt) w in
  exists a (st : producer_run W) calls,
    run_producer_impl fctx source recipe (traced_producer <$> producer)
      (traced_control <$> control) (Some (traced_sinks sinks)) count output required
      (Some receipt) (w, []) = (s, output', r', (w', calls ++ cleanup s calls)) /\
    r' = Some (finish_producer s (if decide (s = LAPLACE_FRAMEWORK_OK) then 1 else 0)
                 (run_replay_verified st) (run_receipt st)) /\
    (a = Continue tt <-> s = LAPLACE_FRAMEWORK_OK) /\
    (calls <> [] -> sinks <> []) /\
    followed (length sinks) count fctx source recipe a st calls.
Proof.
  intros count. unfold run_producer_impl. ptrs.
  pose proof (traces_produce fctx source recipe producer control sinks required output w [])
    as Htrace. fold count in Htrace.
  pose proof (honest_produce fctx source recipe producer control (Some sinks) count required
    (initial_run count output w)) as Hhonest.
  change (embed (initial_run count output w) []) with (initial_run count output (w, @nil run_event))
    in Htrace.
  destruct (produce fctx source recipe producer control (Some sinks) count required
    (initial_run count output w)) as [[[]|s] st].
  - destruct Htrace as (calls & -> & Hf & Hcalls). exists (Continue tt), st, calls.
    split_and!; [by rewrite app_nil_r | done | done | naive_solver | done].
  - destruct Htrace as (calls & -> & Hf & Hcalls). simpl in Hhonest.
    exists (Fail s), st, calls. rewrite decide_False by done.
    pose proof Hf as (_ & _ & _ & _ & _ & Hb & Hp & _).
    rewrite (cells_all sinks), (cells_all (traced_sinks sinks))
      by (by rewrite ?length_traced_from).
    change (run_begun (embed st _)) with (run_begun st).
    change (producer_prepared (embed st _)) with (producer_prepared st).
    change (run_world (embed st ?l)) with (run_world st, l). cbn [app].
    split_and!; [| done | naive_solver | naive_solver | exact Hf].
    destruct calls as [|e calls].
    + assert (run_begun st = 0%nat) as -> by (by rewrite <- Hb).
      rewrite (proj2 Hp) by done. by destruct s, sinks.
    + destruct Hcalls as ([Hne Hsinks] & p & -> & Hvalid); [done|].
      rewrite abort_traced by (done || exact (followed_begins _ _ _ _ _ _ _ _ Hf)).
      assert (producer_prepared st = true) as -> by (destruct (producer_prepared st); naive_solver).
      destruct (producer_callbacks _ Hvalid) as (? & ? & ? & ? & _ & _ & _ & E).
      unfold call_producer_abort, traced_producer. simpl. rewrite E. simpl.
      rewrite <- Hb. unfold cleanup. rewrite <- app_assoc. by destruct s.
Qed.
End Runs.

(** ** Properties *)
(** C13: a producer run follows the script, whatever the callbacks do: prepare,
    report, begin all sinks, then for every batch pull it, stage it to all
    sinks and report its checkpoint, then finish and seal all sinks.  A run
    that fails has made a prefix of these calls, and then aborts exactly the
    sinks it had begun, once each and in order, and the producer exactly if it
    had been asked to prepare; a run that succeeds aborts nothing and has
    pulled as many batches as the plan announced. *)
Theorem producer_follows_script {B : Blake3} {W} fctx source recipe
    (producer : ptr (laplace_framework_producer_v1 W))
    (control : ptr (laplace_framework_producer_control_v1 W))
    (sinks : list (laplace_framework_sink_v1 W)) output required receipt w :
  let n := Z.of_nat (length sinks) in
  let '(s, output', r', w') :=
    run_producer_impl fctx source recipe producer control (Some sinks) n output required
      (Some receipt) w in
  exists calls context src rec plan ps,
    run_producer_impl fctx source recipe (traced_producer <$> producer)
      (traced_control <$> control) (Some (traced_sinks sinks)) n output required
      (Some receipt) (w, []) = (s, output', r', (w', calls ++ cleanup s calls)) /\
    let script :=
      PrepareCalled :: stream_script (length sinks) context src rec plan
                         (hash_producer_plan context src rec plan) ps in
    match s with
    | LAPLACE_FRAMEWORK_OK => calls = script /\ length ps = Z.to_nat (plan_batch_count plan)
    | _ => calls `prefix_of` script
    end.
Proof.
  cbv zeta. pose proof (run_traced fctx source recipe producer control sinks output required
    receipt w) as H. cbv zeta in H.
  destruct (run_producer_impl fctx source recipe producer control (Some sinks)
    (Z.of_nat (length sinks)) output required (Some receipt) w) as [[[s o] r'] w'].
  destruct H as (a & st & calls & Hrun & _ & Ha & _ & context & src & rec & plan & ps & _ & _ & H).
  exists calls, context, src, rec, plan, ps. split; [exact Hrun|].
  destruct a as [[]|status].
  - rewrite (proj1 Ha eq_refl). naive_solver.
  - destruct s; try exact H. by discriminate (proj2 Ha eq_refl).
Qed.

Definition sink_calls (events : list run_event) : list sink_event :=
  omap (fun e => match e with SinkCalled e => Some e | _ => None end) events.
Definition produced (events : list run_event) : list laplace_framework_canonical_batch :=
  omap (fun e => match e with Produced _ b => Some b | _ => None end) events.

Section Scripts.
Context {B : Blake3}.
Variables (n : nat) (context src rec : laplace_digest256)
  (plan : laplace_framework_producer_plan) (plan_fp : laplace_digest256).

Lemma sink_calls_sinks l : sink_calls (map SinkCalled l) = l.
Proof. induction l as [|e l IH]; [done|]. exact (f_equal (cons e) IH). Qed.

Lemma produced_sinks l : produced (map SinkCalled l) = [].
Proof. by induction l. Qed.

Lemma script_calls ps : forall batch_index l,
  sink_calls (batches_script n context src rec plan plan_fp batch_index l ps) =
    staged_events n (map fst ps) /\
  produced (batches_script n context src rec plan plan_fp batch_index l ps) = map fst ps.
Proof.
  induction ps as [|[batch cursor] ps IH]; intros batch_index l; [done|].
  unfold sink_calls, produced in *. cbn [batches_script omap list_omap].
  rewrite !omap_app. cbn [omap list_omap].
  rewrite (proj1 (IH _ _)), (proj2 (IH _ _)).
  pose proof (sink_calls_sinks (map (Stage batch) (seq 0 n))) as H1.
  pose proof (produced_sinks (map (Stage batch) (seq 0 n))) as H2.
  unfold sink_calls, produced in H1, H2. by rewrite H1, H2.
Qed.

Lemma final_hasher ps : forall batch_index l,
  loop_stream_hasher (final_loop batch_index l ps) =
    hash_batches (loop_stream_hasher l) (map fst ps).
Proof. induction ps as [|[batch cursor] ps IH]; intros; simpl; [done|]. by rewrite IH. Qed.

Lemma script_produced ps :
  produced (PrepareCalled :: stream_script n context src rec plan plan_fp ps) = map fst ps.
Proof.
  unfold stream_script, produced. cbn [omap list_omap]. rewrite !omap_app. cbn [omap list_omap].
  pose proof (fun ps i l => proj2 (script_calls ps i l)) as Hscript.
  unfold produced in Hscript. rewrite Hscript.
  pose proof produced_sinks as Hsinks. unfold produced in Hsinks.
  by rewrite !Hsinks, app_nil_r.
Qed.

Lemma script_sink_calls ps :
  sink_calls (stream_script n context src rec plan plan_fp ps) =
  begin_events n (plan_record_type plan) (plan_total_records plan) (plan_total_bytes plan) ++
  staged_events n (map fst ps) ++
  map (Seal (blake3_hasher_finalize
               (loop_stream_hasher (final_loop 0 (initial_loop plan) ps)))) (seq 0 n).
Proof.
  unfold stream_script, sink_calls. cbn [omap list_omap]. rewrite !omap_app.
  cbn [omap list_omap]. pose proof (fun ps i l => proj1 (script_calls ps i l)) as Hscript.
  unfold sink_calls in Hscript. rewrite Hscript.
  pose proof sink_calls_sinks as Hsinks. unfold sink_calls in Hsinks. by rewrite !Hsinks.
Qed.

(** Batches that validate from zero make a canonical stream. *)
Lemma validated_fingerprint bs fp0 t0 r0 b0 type records bytes :
  validate_batches bs type 0 0 = Some (records, bytes) -> type <> 0 -> records <> 0 ->
  laplace_framework_canonical_stream_fingerprint (Some bs) (Z.of_nat (length bs)) (Some fp0)
    (Some t0) (Some r0) (Some b0) =
  (LAPLACE_FRAMEWORK_OK,
   Some (blake3_hasher_finalize
           (hash_batches (initialize_stream_hasher type records bytes) bs)),
   Some type, Some records, Some bytes).
Proof.
  intros Hv Ht Hr. unfold laplace_framework_canonical_stream_fingerprint. ptrs.
  rewrite cells_all by done. destruct bs as [|b bs].
  { simpl in Hv. by injection Hv as <- <-. }
  assert (batch_record_type b = type) as Hb.
  { simpl in Hv. casec_in Hv; [done|]. congruence. }
  cbn [head fmap option_fmap option_map length]. simpl default. rewrite Hb.
  rewrite Hv, (proj2 (Z.eqb_neq (Z.of_nat (S (length bs))) 0)), (proj2 (Z.eqb_neq type 0) Ht) by lia.
  done.
Qed.
End Scripts.

(** C14: a producer run that succeeds has staged exactly the canonical stream of
    the batches it pulled.  The sinks received what
    [laplace_framework_stage_canonical_stream] would have sent them for those
    batches; the fingerprint, type and totals of the receipt are those that
    [laplace_framework_canonical_stream_fingerprint] computes of them; and the
    stream receipt validates under the context. *)
Theorem producer_stages_stream {B : Blake3} {W} fctx source recipe
    (producer : ptr (laplace_framework_producer_v1 W))
    (control : ptr (laplace_framework_producer_control_v1 W))
    (sinks : list (laplace_framework_sink_v1 W)) output required receipt w output' r' w' :
  let n := Z.of_nat (length sinks) in
  run_producer_impl fctx source recipe producer control (Some sinks) n output required
    (Some receipt) w = (LAPLACE_FRAMEWORK_OK, output', Some r', w') ->
  exists log bs,
    run_producer_impl fctx source recipe (traced_producer <$> producer)
      (traced_control <$> control) (Some (traced_sinks sinks)) n output required
      (Some receipt) (w, []) = (LAPLACE_FRAMEWORK_OK, output', Some r', (w', log)) /\
    produced log = bs /\ Z.of_nat (length bs) = batch_count (stream r') /\
    staging_protocol (length sinks) bs LAPLACE_FRAMEWORK_OK (stream r') (sink_calls log) /\
    laplace_framework_canonical_stream_fingerprint (Some bs) (Z.of_nat (length bs))
      (Some (zeros 32)) (Some 0) (Some 0) (Some 0) =
      (LAPLACE_FRAMEWORK_OK, Some (stream_fingerprint (stream r')),
       Some (record_type (stream r')), Some (total_records (stream r')),
       Some (total_bytes (stream r'))) /\
    laplace_framework_stream_receipt_validate fctx (Some (stream r')) = LAPLACE_FRAMEWORK_OK.
Proof.
  intros n Hrun0. pose proof (run_traced fctx source recipe producer control sinks output
    required receipt w) as H. cbv zeta in H. fold n in H. rewrite Hrun0 in H.
  destruct H as (a & st & calls & Hrun & Hr & Ha & Hne & context & src & rec & plan & ps & _ & _ & H).
  rewrite (proj2 Ha eq_refl) in H.
  destruct H as (_ & _ & Hctx & _ & Hcalls & Hlen & Hplan & Hv & artifacts & Hstream).
  specialize (Hne ltac:(by rewrite Hcalls)). unfold plan_invalid in Hplan. bools.
  exists calls, (map fst ps). rewrite Hrun. injection Hr as ->.
  assert (Hps : ps <> []).
  { intros ->. simpl in Hv. congruence. }
  assert (Hcount : Z.of_nat (length ps) = plan_batch_count plan).
  { destruct ps; [done|]. simpl in Hlen |- *. lia. }
  assert (Hs : stream (finish_producer LAPLACE_FRAMEWORK_OK 1 (run_replay_verified st)
    (run_receipt st)) = finish_receipt LAPLACE_FRAMEWORK_OK 1 (stream (run_receipt st))) by done.
  rewrite length_map. split_and!.
  - simpl cleanup. by rewrite app_nil_r.
  - rewrite Hcalls. by apply script_produced.
  - rewrite Hs, Hstream. exact Hcount.
  - rewrite Hcalls, Hs, Hstream. simpl stream_fingerprint.
    change (sink_calls (PrepareCalled :: ?e)) with (sink_calls e).
    unfold staging_protocol. rewrite script_sink_calls. done.
  - rewrite <- (length_map fst), Hs, Hstream. simpl. rewrite final_hasher.
    by apply validated_fingerprint.
  - unfold laplace_framework_stream_receipt_validate. rewrite Hctx, Hs.
    rewrite sealed_receipt_valid; rewrite ?Hstream; try done.
    + rewrite (proj2 (bytes_equal_spec _ _)); done.
    + simpl. subst n. destruct sinks; [done | simpl; lia].
Qed.

(** ** Replay *)
Definition with_replay {W} (replay : ptr laplace_framework_replay_checkpoint)
    (control : laplace_framework_producer_control_v1 W)
    : laplace_framework_producer_control_v1 W :=
  mk_control replay (cancel_requested control) (observe_progress control)
    (control_abi_major control) (control_abi_minor control) (control_flags control)
    (control_reserved control).

Section Replay.
Context {B : Blake3} {W : Type}.
Variables (producer : laplace_framework_producer_v1 W)
  (control : laplace_framework_producer_control_v1 W)
  (sinks : list (laplace_framework_sink_v1 W)) (c : laplace_framework_replay_checkpoint).

(** The state of the replaying run next to that of the run without replay. *)
Definition masked (verified : bool) (st : producer_run W) : producer_run W :=
  mk_run (set_replay (checkpoint_id c) (run_receipt st)) (run_begun st) (producer_prepared st)
    verified (run_output st) (run_world st).

Definition commutes {A} (m : routine (producer_run W) laplace_framework_status A)
    (m' : routine (producer_run W) laplace_framework_status A) : Prop :=
  forall v st, m' (masked v st) = let '(a, st') := m st in (a, masked v st').

Lemma commutes_andthen {A C} (m m' : routine _ _ A) (k k' : A -> routine _ _ C) :
  commutes m m' -> (forall v, commutes (k v) (k' v)) -> commutes (andthen m k) (andthen m' k').
Proof.
  intros Hm Hk v st. unfold andthen. rewrite Hm. destruct (m st) as [[a|s] st1]; [|done].
  apply Hk.
Qed.

Lemma commutes_same {A} (m : routine (producer_run W) laplace_framework_status A) :
  commutes m m -> commutes m m.
Proof. done. Qed.

Lemma commutes_pure {A} (v : A) : commutes (pure v) (pure v).
Proof. done. Qed.
Lemma commutes_fail {A} s : commutes (fail (A := A) s) (fail s).
Proof. done. Qed.
Lemma commutes_fail_when b s : commutes (fail_when b s) (fail_when b s).
Proof. by destruct b. Qed.
Lemma commutes_invoke {A} (call : W -> A * W) : commutes (invoke call) (invoke call).
Proof. intros v st. unfold invoke. simpl. by destruct (call _). Qed.
Lemma commutes_update f :
  (forall r, f (set_replay (checkpoint_id c) r) = set_replay (checkpoint_id c) (f r)) ->
  commutes (update f) (update f).
Proof. intros H v st. unfold update, modify, masked, with_receipt. simpl. by rewrite H. Qed.
Lemma commutes_gets {A} (f : producer_run W -> A) :
  (forall v st, f (masked v st) = f st) -> commutes (gets f) (gets f).
Proof. intros H v st. unfold gets. by rewrite H. Qed.
Lemma commutes_begin context plan : commutes (begin_all sinks context plan) (begin_all sinks context plan).
Proof. intros v st. unfold begin_all. simpl. by destruct (begin_sinks _ _ _ _ _ _ _) as [[[? ?] ?] ?]. Qed.
Lemma commutes_stage batch index : commutes (stage_all sinks batch index) (stage_all sinks batch index).
Proof.
  intros v st. unfold stage_all. simpl.
  by destruct (stage_batch_to_sinks _ _ _ _ _ _) as [[[? ?] ?] ?].
Qed.
Lemma commutes_seal : commutes (seal_all sinks) (seal_all sinks).
Proof.
  intros v st. unfold seal_all. simpl.
  by destruct (seal_sinks _ _ _ _ _ _) as [[[[? ?] ?] ?] ?].
Qed.
Lemma commutes_fail_batch b index : commutes (fail_batch_when b index) (fail_batch_when b index).
Proof. by destruct b. Qed.

Create HintDb commutes.
#[local] Hint Resolve commutes_pure commutes_fail commutes_fail_when commutes_invoke
  commutes_begin commutes_stage commutes_seal commutes_fail_batch : commutes.
#[local] Hint Extern 1 (commutes _ (update _)) => by apply commutes_update : commutes.
#[local] Hint Extern 1 (commutes _ (gets _)) => by apply commutes_gets : commutes.

Ltac commutes_steps :=
  repeat match goal with
  | |- commutes (andthen _ _) _ => apply commutes_andthen
  | |- forall _, commutes _ _ => intros ?
  | |- commutes (match ?p with (_, _) => _ end) _ => destruct p
  | |- commutes _ _ => solve [auto 10 with commutes]
  end.

(** One step of the replaying run, from a masked state. *)
Lemma commutes_step {A C} (m m' : routine _ _ A) (k' : A -> routine _ _ C) v st :
  commutes m m' ->
  andthen m' k' (masked v st) =
    match m st with
    | (Continue a, st1) => k' a (masked v st1)
    | (Fail s, st1) => (Fail s, masked v st1)
    end.
Proof. intros H. unfold andthen. rewrite H. by destruct (m st) as [[a|s] st1]. Qed.

Lemma commutes_report : commutes (report_progress (with_replay None control))
  (report_progress (with_replay (Some c) control)).
Proof. unfold report_progress. commutes_steps. Qed.
Lemma commutes_cancel : commutes (check_cancelled (with_replay None control))
  (check_cancelled (with_replay (Some c) control)).
Proof. unfold check_cancelled. commutes_steps. Qed.

(** Run both sides of a step that commutes; [H] is the run without replay. *)
Ltac both H :=
  erewrite commutes_step;
  [| first [ apply commutes_cancel | apply commutes_report | solve [auto 10 with commutes] ] ];
  unfold andthen at 1 in H;
  match type of H with
  | context [match ?m ?st with (_, _) => _ end] =>
      let a := fresh "a" in destruct (m st) as [[a|?] ?]; [|discriminate H];
      cbv beta iota in H |- *
  end.

(** Routines that leave the checkpoint alone. *)
Definition quiet {A} (m : routine (producer_run W) laplace_framework_status A) : Prop :=
  forall st, checkpoint (run_receipt (m st).2) = checkpoint (run_receipt st).

Lemma quiet_andthen {A C} (m : routine _ _ A) (k : A -> routine _ _ C) :
  quiet m -> (forall v, quiet (k v)) -> quiet (andthen m k).
Proof.
  intros Hm Hk st. unfold andthen. specialize (Hm st). destruct (m st) as [[v|s] st1]; [|done].
  by rewrite Hk.
Qed.

Lemma quiet_invoke {A} (call : W -> A * W) : quiet (invoke call).
Proof. intros st. unfold invoke. by destruct (call _). Qed.

Lemma quiet_seal : quiet (seal_all sinks).
Proof.
  intros st. unfold seal_all. by destruct (seal_sinks _ _ _ _ _ _) as [[[[? ?] ?] ?] ?].
Qed.
#[local] Hint Resolve quiet_invoke quiet_seal : commutes.

Section Batches.
Variables (context source recipe : laplace_digest256)
  (plan : laplace_framework_producer_plan) (plan_fp : laplace_digest256).

Abbreviation batch_without :=
  (produce_batch producer (with_replay None control) sinks context source recipe plan plan_fp).
Abbreviation batch_with :=
  (produce_batch producer (with_replay (Some c) control) sinks context source recipe plan plan_fp).

Lemma report_checkpoint st a st' :
  report_progress (with_replay None control) st = (a, st') ->
  a = Continue tt /\ checkpoint (run_receipt st') = checkpoint (run_receipt st).
Proof.
  unfold report_progress, andthen, gets, invoke, update, modify.
  destruct (call_observe _ _ _). by intros [= <- <-].
Qed.

Lemma replay_batch index l st l1 st1 v :
  batch_without index l st = (Continue l1, st1) ->
  (completed_batches c = index + 1 ->
   checkpoint_id c = checkpoint_id (checkpoint (run_receipt st1))) ->
  batch_with index l (masked v st) =
    (Continue l1, masked (v || (completed_batches c =? index + 1)) st1).
Proof.
  unfold produce_batch. cbn [replay_checkpoint with_replay]. intros H Hid.
  both H. both H. destruct a0 as [[s batch] cursor]. both H. both H. both H. both H. both H.
  unfold andthen at 1, pure at 1 in H. cbv beta iota in H.
  rename p5 into q.
  assert (Hend : checkpoint (run_receipt st1) = checkpoint (run_receipt q)).
  { unfold andthen in H.
    destruct (report_progress (with_replay None control) q) as [a9 st2] eqn:Hr.
    apply report_checkpoint in Hr as [-> Hc]. unfold pure in H. cbv beta iota in H.
    injection H as _ <-. exact Hc. }
  assert (Hreport : forall v, (run report_progress (with_replay (Some c) control) ;;
    pure l1) (masked v q) = (Continue l1, masked v st1)).
  { intros v'. both H. unfold pure in H. injection H as _ ->. done. }
  assert (l1 = mk_loop (loop_records l + record_count batch) (loop_bytes l + byte_count batch)
    (blake3_hasher_update (loop_stream_hasher l) (batch_bytes batch))
    (update_prefix_hasher (loop_prefix_hasher l) index batch)) as <-.
  { unfold andthen in H. destruct (report_progress _ q) as [[a9|s2] st2]; [|discriminate H].
    unfold pure in H. by injection H. }
  destruct (Z.eqb_spec (completed_batches c) (index + 1)) as [Hk|Hk].
  - rewrite orb_true_r. unfold verify_replay, andthen, gets, modify, fail_when. simpl.
    rewrite (proj2 (bytes_equal_spec _ _)) by (rewrite Hid, Hend; done). simpl.
    apply Hreport.
  - rewrite orb_false_r. apply Hreport.
Qed.

Abbreviation batches_without :=
  (produce_batches producer (with_replay None control) sinks context source recipe plan plan_fp).
Abbreviation batches_with :=
  (produce_batches producer (with_replay (Some c) control) sinks context source recipe plan
     plan_fp).

Lemma replay_batches remaining : forall index l st l' st' v,
  batches_without remaining index l st = (Continue l', st') ->
  completed_batches c = index + Z.of_nat remaining ->
  checkpoint_id c = checkpoint_id (checkpoint (run_receipt st')) ->
  batches_with remaining index l (masked v st) =
    (Continue l', masked (v || negb (Nat.eqb remaining 0)) st').
Proof.
  induction remaining as [|remaining IH]; intros index l st l' st' v H Hk Hid.
  { cbn in H |- *. injection H as -> ->. by rewrite orb_false_r. }
  cbn [produce_batches] in H |- *. unfold andthen in H |- *.
  destruct (batch_without index l st) as [[l1|s] st1] eqn:Hb; [|discriminate H].
  rewrite (replay_batch _ _ _ _ _ v Hb).
  - rewrite (IH _ _ _ _ _ _ H) by (lia || done). do 2 f_equal.
    destruct remaining; simpl.
    + rewrite (proj2 (Z.eqb_eq _ _)) by lia. by rewrite orb_false_r.
    + by rewrite !orb_true_r.
  - intros Hone. assert (remaining = 0%nat) as -> by lia.
    cbn in H. injection H as _ <-. exact Hid.
Qed.

(** Finishing leaves the checkpoint alone. *)
Lemma quiet_finish l st a st' :
  finish_stream producer (with_replay None control) sinks plan l st = (a, st') ->
  checkpoint (run_receipt st') = checkpoint (run_receipt st).
Proof.
  intros H. change st' with (a, st').2. rewrite <- H. clear H. revert st.
  change (quiet (finish_stream producer (with_replay None control) sinks plan l)).
  unfold finish_stream, check_cancelled.
  repeat match goal with
  | |- quiet (andthen _ _) => apply quiet_andthen
  | |- forall _, quiet _ => intros ?
  | |- quiet (match ?p with (_, _) => _ end) => destruct p
  | |- quiet (fail_batch_when ?b _) => by destruct b
  | |- quiet (fail_when ?b _) => by destruct b
  | |- quiet _ => solve [auto with commutes | done]
  end.
Qed.

(** What a finished stream tells about the loop. *)
Lemma finish_stream_ok l st st' :
  finish_stream producer (with_replay None control) sinks plan l st = (Continue tt, st') ->
  loop_records l = plan_total_records plan /\ loop_bytes l = plan_total_bytes plan /\
  checkpoint (run_receipt st') = checkpoint (run_receipt st) /\
  finish_stream producer (with_replay (Some c) control) sinks plan l (masked true st) =
    (Continue tt, masked true st').
Proof.
  intros H'. pose proof H' as H. revert H.
  unfold finish_stream. cbn [replay_checkpoint with_replay is_null negb].
  unfold andthen at 1, gets at 1. intros H. unfold andthen at 1, gets at 1.
  cbn [run_replay_verified masked]. rewrite andb_false_l, orb_false_r in H.
  rewrite andb_false_r, orb_false_r.
  destruct (negb (loop_records l =? plan_total_records plan)
    || negb (loop_bytes l =? plan_total_bytes plan)) eqn:Hguard; [discriminate H|]. bools.
  unfold fail_batch_when, andthen at 1, pure at 1 in H. unfold fail_batch_when, andthen at 1, pure at 1.
  cbv beta iota in H |- *. split_and!; [done..| |].
  - apply (quiet_finish l st) in H'. exact H'.
  - both H. both H. both H. destruct a1 as [s completion]. both H. both H. both H.
    pose proof (commutes_seal true) as Hseal. rewrite Hseal, H. done.
Qed.

Hypothesis Hproducer : producer_valid producer = true.
Hypothesis Hcontrol : control_valid control = true.
Hypothesis Hsinks : Forall (fun s => sink_valid s = true) sinks.

Lemma batches_checkpoint remaining : forall index l st l' st',
  batches_without (S remaining) index l st = (Continue l', st') ->
  exists cursor, checkpoint (run_receipt st') =
    checkpoint_at context source recipe plan plan_fp (index + Z.of_nat (S remaining)) l' cursor.
Proof.
  induction remaining as [|remaining IH]; intros index l st l' st' H;
    cbn [produce_batches] in H; unfold andthen at 1 in H;
    destruct (batch_without index l st) as [[l1|s] st1] eqn:Hb; try discriminate H.
  - pose proof (traces_produce_batch producer (with_replay None control) sinks Hproducer Hcontrol
      Hsinks context source recipe plan plan_fp index l st []) as Ht.
    rewrite Hb in Ht. destruct Ht as (events & _ & _ & batch & cursor & -> & _ & _ & _ & Hc).
    injection H as <- <-. exists cursor. exact Hc.
  - destruct (IH (index + 1) l1 st1 l' st' H) as [cursor Hc]. exists cursor. rewrite Hc.
    f_equal. lia.
Qed.

Abbreviation stream_without :=
  (produce_stream producer (with_replay None control) sinks context source recipe plan plan_fp).
Abbreviation stream_with :=
  (produce_stream producer (with_replay (Some c) control) sinks context source recipe plan
     plan_fp).

(** The checkpoint a finished stream ends with. *)
Lemma stream_checkpoint fctx st st' :
  plan_invalid plan = false ->
  stream_without fctx (initial_loop plan) st = (Continue tt, st') ->
  (0 < Z.to_nat (plan_batch_count plan))%nat /\
  exists cursor l, loop_records l = plan_total_records plan /\
    loop_bytes l = plan_total_bytes plan /\
    checkpoint (run_receipt st') =
      checkpoint_at context source recipe plan plan_fp (plan_batch_count plan) l cursor.
Proof.
  unfold produce_stream, plan_invalid. intros Hplan H. bools.
  do 4 (unfold andthen at 1 in H;
        match type of H with
        | context [match ?m ?s with (_, _) => _ end] => destruct (m s) as [[[]|?] ?]
        end; [|discriminate H]).
  unfold andthen in H.
  destruct (batches_without (Z.to_nat (plan_batch_count plan)) 0 (initial_loop plan) _)
    as [[l|s] st1] eqn:Hb; [|discriminate H].
  destruct (finish_stream_ok _ _ _ H) as (Hr & Hy & Hc & _).
  destruct (Z.to_nat (plan_batch_count plan)) as [|remaining] eqn:Hn.
  { cbn in Hb. injection Hb as <- _. simpl in Hr. congruence. }
  split; [lia|]. destruct (batches_checkpoint _ _ _ _ _ _ Hb) as [cursor Hcursor].
  exists cursor, l. split_and!; [done..|]. rewrite Hc, Hcursor. f_equal. lia.
Qed.

Lemma replay_stream fctx st st' :
  plan_invalid plan = false ->
  stream_without fctx (initial_loop plan) st = (Continue tt, st') ->
  c = checkpoint (run_receipt st') ->
  stream_with fctx (initial_loop plan) (masked false st) = (Continue tt, masked true st').
Proof.
  intros Hplan H Hc. destruct (stream_checkpoint _ _ _ Hplan H) as (Hpos & cursor & l & _ & _ & E).
  revert H. unfold produce_stream. intros H. both H. both H. both H. both H.
  unfold andthen in H |- *.
  destruct (batches_without (Z.to_nat (plan_batch_count plan)) 0 (initial_loop plan) _)
    as [[l'|s] st1] eqn:Hb; [|discriminate H].
  destruct (finish_stream_ok _ _ _ H) as (_ & _ & Hc1 & Hfinish).
  rewrite (replay_batches _ _ _ _ _ _ false Hb).
  - destruct (Z.to_nat (plan_batch_count plan)); [lia|]. exact Hfinish.
  - rewrite Hc, E. simpl. lia.
  - by rewrite Hc, Hc1.
Qed.

(** The checkpoint of a finished run is one of its own. *)
Lemma checkpoint_replays l cursor :
  plan_invalid plan = false -> loop_records l = plan_total_records plan ->
  loop_bytes l = plan_total_bytes plan ->
  replay_invalid (checkpoint_at context source recipe plan plan_fp (plan_batch_count plan) l
    cursor) context source recipe plan plan_fp = false.
Proof.
  unfold plan_invalid. intros Hplan Hr Hy. bools. unfold replay_invalid.
  unfold checkpoint_checksum_is_valid, checkpoint_at, set_checkpoint, hash_checkpoint. simpl.
  rewrite (proj2 (Z.eqb_neq (plan_record_type plan) 0)), !Z.eqb_refl, Hr, Hy, !Z.ltb_irrefl
    by done. cbn [orb negb]. by rewrite !(proj2 (bytes_equal_spec _ _)).
Qed.
End Batches.

Hypothesis Hsinks : Forall (fun s => sink_valid s = true) sinks.
Hypothesis Hproducer : producer_valid producer = true.
Hypothesis Hcontrol : control_valid control = true.

Lemma replay_plan fctx context source recipe plan st st' :
  run_plan producer (with_replay None control) sinks fctx context source recipe plan st =
    (Continue tt, st') ->
  run_replay_verified st = false -> c = checkpoint (run_receipt st') ->
  run_plan producer (with_replay (Some c) control) sinks fctx context source recipe plan st =
    (Continue tt, masked true st').
Proof.
  unfold run_plan. intros H Hv Hc.
  destruct (plan_invalid plan) eqn:Hplan; [discriminate H|].
  unfold andthen, update, modify, fail_when, pure, check_replay in H |- *.
  cbn [replay_checkpoint with_replay] in H |- *. unfold pure in H |- *.
  cbv beta iota zeta in H |- *.
  match type of H with produce_stream _ _ _ _ _ _ _ ?fp _ _ ?s = _ =>
    set (st1 := s) in H |- *; set (plan_fp := fp) in H |- * end.
  destruct (stream_checkpoint context source recipe plan plan_fp Hproducer Hcontrol Hsinks fctx
    st1 st' Hplan H) as (Hpos & cursor & l & Hr & Hy & E).
  assert (Hinvalid : replay_invalid c context source recipe plan plan_fp = false).
  { rewrite Hc, E. by apply checkpoint_replays. }
  rewrite Hinvalid.
  rewrite (proj2 (Z.eqb_neq (completed_batches c) 0)) by (rewrite Hc, E; simpl; lia).
  pose proof (replay_stream context source recipe plan plan_fp Hproducer Hcontrol Hsinks fctx
    st1 st' Hplan H Hc) as Hs. rewrite <- Hv in Hs. exact Hs.
Qed.
End Replay.

Lemma sinks_checked {W} (sinks : list (laplace_framework_sink_v1 W)) st st' :
  check_sinks (Some sinks) (Z.of_nat (length sinks)) st = (Continue tt, st') ->
  Forall (fun s => sink_valid s = true) sinks /\
  run_replay_verified st' = run_replay_verified st.
Proof.
  unfold check_sinks, validate_sinks. ptrs. rewrite (cells_all sinks) by done.
  casec; [done|]. destruct (first_invalid_sink sinks 0) eqn:E; [done|].
  apply first_invalid_none in E. by intros [= <-].
Qed.

(** Replaying a finished run against the checkpoint it ended with succeeds.
    From the same world, with the checkpoint of the receipt as the checkpoint
    to replay, the run goes through to the end again: same status, same
    artifacts, same effects on the world, and a receipt with the same stream,
    checkpoint, plan, completion and progress, that says the replay was
    verified and which checkpoint it was. *)
Theorem producer_replays {B : Blake3} {W} fctx source recipe
    (producer : laplace_framework_producer_v1 W)
    (control : laplace_framework_producer_control_v1 W)
    (sinks : list (laplace_framework_sink_v1 W)) output required receipt w output' r' w' :
  let n := Z.of_nat (length sinks) in
  let rerun replay :=
    run_producer_impl fctx source recipe (Some producer) (Some (with_replay replay control))
      (Some sinks) n output required (Some receipt) w in
  rerun None = (LAPLACE_FRAMEWORK_OK, output', Some r', w') ->
  exists r2, rerun (Some (checkpoint r')) = (LAPLACE_FRAMEWORK_OK, output', Some r2, w') /\
    stream r2 = stream r' /\ checkpoint r2 = checkpoint r' /\
    plan_fingerprint r2 = plan_fingerprint r' /\
    completion_fingerprint r2 = completion_fingerprint r' /\
    progress_events r2 = progress_events r' /\
    replay_verified r2 = 1 /\ replay_checkpoint_id r2 = checkpoint_id (checkpoint r').
Proof.
  cbv zeta. unfold run_producer_impl. ptrs. intros Hrun.
  destruct (produce fctx source recipe (Some producer) (Some (with_replay None control))
    (Some sinks) (Z.of_nat (length sinks)) required
    (initial_run (Z.of_nat (length sinks)) output w)) as [[[]|s] st'] eqn:H.
  2:{ pose proof (honest_produce fctx source recipe (Some producer)
        (Some (with_replay None control)) (Some sinks) (Z.of_nat (length sinks)) required
        (initial_run (Z.of_nat (length sinks)) output w)) as Hh. rewrite H in Hh.
      by injection Hrun as ->. }
  injection Hrun as <- <- <-. change (checkpoint (finish_producer _ _ _ _)) with
    (checkpoint (run_receipt st')). set (c := checkpoint (run_receipt st')).
  enough (produce fctx source recipe (Some producer) (Some (with_replay (Some c) control))
    (Some sinks) (Z.of_nat (length sinks)) required
    (initial_run (Z.of_nat (length sinks)) output w) = (Continue tt, masked c true st')) as ->.
  { eexists. split; [reflexivity|]. by split_and!. }
  revert H. unfold produce, andthen at 1. intros H. unfold andthen at 1.
  destruct (prepare_output _ _ _) as [[[]|?] st1] eqn:Hout; [|discriminate H].
  assert (Hv1 : run_replay_verified st1 = false).
  { unfold prepare_output in Hout. destruct (prepare_sink_artifact_output _ _ _).
    by injection Hout as _ <-. }
  destruct (laplace_framework_context_fingerprint _ _) as [s fp].
  unfold andthen at 1, update at 1, modify at 1 in H.
  unfold andthen at 1, update at 1, modify at 1. cbv beta iota in H |- *.
  unfold fail_when at 1, andthen at 1 in H. unfold fail_when at 1, andthen at 1.
  destruct (failed s); [discriminate H|]. unfold pure at 1 in H. unfold pure at 1.
  destruct source as [source|]; [|discriminate H]. destruct recipe as [recipe|]; [|discriminate H].
  unfold andthen at 1, update at 1, modify at 1 in H.
  unfold andthen at 1, update at 1, modify at 1. cbv beta iota in H |- *.
  change (control_valid (with_replay _ control)) with (control_valid control) in H |- *.
  unfold fail_when at 1, andthen at 1 in H. unfold fail_when at 1, andthen at 1.
  destruct (negb (producer_valid producer) || negb (control_valid control)) eqn:Hvalid;
    [discriminate H|]. unfold pure at 1 in H. unfold pure at 1. bools.
  unfold andthen at 1 in H. unfold andthen at 1.
  destruct (check_sinks _ _ _) as [[[]|?] st3] eqn:Hsinks; [|discriminate H].
  unfold andthen at 1, modify at 1 in H. unfold andthen at 1, modify at 1.
  unfold andthen at 1, invoke at 1 in H. unfold andthen at 1, invoke at 1.
  destruct (call_prepare _ _ _ _ _) as [[s1 plan] w3].
  unfold fail_when at 1, andthen at 1 in H. unfold fail_when at 1, andthen at 1.
  destruct (failed s1); [discriminate H|]. unfold pure at 1 in H. unfold pure at 1.
  rewrite (cells_all sinks) in H |- * by done.
  apply sinks_checked in Hsinks as [Hvalid Hv3].
  apply replay_plan; [exact Hvalid | done | done | exact H | | done]. exact (eq_trans Hv3 Hv1).
Qed.

(** ** Witnesses *)
Definition sample_producer : laplace_framework_producer_v1 (list Z) :=
  mk_producer
    (Some (fun w _ _ _ _ =>
       (LAPLACE_FRAMEWORK_OK, mk_plan (replicate 32 3) (replicate 32 4) 2 3 4 7 0 0, w)))
    (Some (fun w index _ _ =>
       (LAPLACE_FRAMEWORK_OK,
        (if index =? 0 then mk_batch (Some [1; 2; 3]) 3 2 0 7 0
         else mk_batch (Some [4]) 1 1 2 7 0), replicate 32 (5 + index), w)))
    (Some (fun w _ => (LAPLACE_FRAMEWORK_OK, replicate 32 8, w)))
    (Some (fun w => w)) 1 0 0 0.
Definition sample_control : laplace_framework_producer_control_v1 (list Z) :=
  mk_control None (Some (fun w => (0, w))) (Some (fun w _ => w)) 1 0 0 0.
Definition sample_producer_receipt : laplace_framework_producer_receipt :=
  run_receipt (initial_run 1 None ([] : list Z)).

Abbreviation sample_producing :=
  (run_producer_impl (B := checksum_blake3) (Some sample_context) (Some (replicate 32 1))
     (Some (replicate 32 2)) (Some sample_producer) (Some (with_replay None sample_control))
     (Some [sample_sink]) 1 None false (Some sample_producer_receipt) []).

Lemma sample_producing_ok :
  let '(s, output, r, w) := sample_producing in
  s = LAPLACE_FRAMEWORK_OK /\ output = None /\ w = [1; 2; 3; 4] /\ is_null r = false.
Proof. vm_compute. by split_and!. Qed.

Lemma producer_stages_stream_witness :
  exists r w, sample_producing = (LAPLACE_FRAMEWORK_OK, None, Some r, w) /\
    laplace_framework_stream_receipt_validate (B := checksum_blake3) (Some sample_context)
      (Some (stream r)) = LAPLACE_FRAMEWORK_OK.
Proof.
  pose proof sample_producing_ok as H.
  destruct sample_producing as [[[s output] r] w] eqn:E.
  destruct H as (-> & -> & -> & Hr). destruct r as [r|]; [|discriminate Hr].
  exists r, [1; 2; 3; 4]. split; [reflexivity|].
  destruct (producer_stages_stream (B := checksum_blake3) _ _ _ _ _ [sample_sink] _ _ _ _ _ _ _ E)
    as (log & bs & _ & _ & _ & _ & _ & Hvalid). exact Hvalid.
Defined.

Lemma producer_replays_witness :
  exists r w, sample_producing = (LAPLACE_FRAMEWORK_OK, None, Some r, w) /\
    exists r2, run_producer_impl (B := checksum_blake3) (Some sample_context)
      (Some (replicate 32 1)) (Some (replicate 32 2)) (Some sample_producer)
      (Some (with_replay (Some (checkpoint r)) sample_control)) (Some [sample_sink]) 1 None
      false (Some sample_producer_receipt) [] = (LAPLACE_FRAMEWORK_OK, None, Some r2, w) /\
    replay_verified r2 = 1.
Proof.
  pose proof sample_producing_ok as H.
  destruct sample_producing as [[[s output] r] w] eqn:E.
  destruct H as (-> & -> & -> & Hr). destruct r as [r|]; [|discriminate Hr].
  exists r, [1; 2; 3; 4]. split; [reflexivity|].
  destruct (producer_replays (B := checksum_blake3) _ _ _ sample_producer sample_control
    [sample_sink] _ _ _ _ _ _ _ E) as (r2 & Hrun & _ & _ & _ & _ & _ & Hver & _).
  exists r2. split; [exact Hrun | exact Hver].
Defined.
