(* ===== verification/Highway.v ===== *)
(** * Highway coordinates and the highway registry

    Models [engine/src/highway.c] and [engine/include/laplace/highway.h]: the
    validation of a highway key, its coordinate and collision fingerprint, the
    two-pass batch, the registry tables and the registry receipt.  The tables,
    the registry version and its hexadecimal fingerprint are generated from
    [contracts/highway.json]; they are parameters here and instantiated with
    rows of the contract in the witnesses. *)
From stdpp Require Import prelude strings.
From Stdlib Require Import ZArith Lia.
From S2P Require Import Prelude Bytes Sorting Hash Identity Framework.

(** ** Data *)
Record laplace_highway_key := mk_key {
  key_kind : Z;
  key_reserved : Z;
  authority : laplace_id128;
  release : laplace_id128;
  name_space : laplace_id128;
  local_identifier : laplace_id128;
  key_version : Z }.

Record laplace_highway_coordinate := mk_coordinate {
  coordinate : laplace_id128;
  collision_fingerprint : laplace_digest256;
  coordinate_kind : Z;
  coordinate_reserved : Z;
  coordinate_version : Z }.

Record laplace_highway_kind_contract_row := mk_kind_row {
  kind_row_id : Z; kind_row_name : list Z; kind_row_introduced : Z; kind_row_retired : Z }.

Record laplace_highway_alias_contract_row := mk_alias_row {
  alias_row_kind_id : Z; alias_row_name : list Z;
  alias_row_introduced : Z; alias_row_retired : Z }.

Record laplace_highway_disposition_contract_row := mk_disposition_row {
  disposition_row_id : Z; disposition_row_name : list Z }.

Inductive laplace_highway_status :=
| LAPLACE_HIGHWAY_OK
| LAPLACE_HIGHWAY_INVALID_ARGUMENT
| LAPLACE_HIGHWAY_UNKNOWN_KIND
| LAPLACE_HIGHWAY_ZERO_SCOPE
| LAPLACE_HIGHWAY_ZERO_VERSION
| LAPLACE_HIGHWAY_COUNT_OVERFLOW
| LAPLACE_HIGHWAY_ZERO_COORDINATE
| LAPLACE_HIGHWAY_REGISTRY_INVALID
| LAPLACE_HIGHWAY_CONTEXT_INVALID
| LAPLACE_HIGHWAY_MEMORY_FAILURE
| LAPLACE_HIGHWAY_UTF8_INVALID.

Record laplace_highway_registry_receipt := mk_registry_receipt {
  registry_receipt_id : laplace_digest256;
  registry_context_fingerprint : laplace_digest256;
  registry_fingerprint : laplace_digest256;
  activation_epoch_id : laplace_id128;
  activation_epoch_fingerprint : laplace_digest256;
  registry_version : Z;
  kind_count : Z;
  alias_count : Z;
  disposition_count : Z;
  registry_status : laplace_highway_status;
  registry_reserved : Z }.

Definition zero_coordinate : laplace_highway_coordinate :=
  mk_coordinate (zeros 16) (zeros 32) 0 0 0.

Definition zero_registry_receipt : laplace_highway_registry_receipt :=
  mk_registry_receipt (zeros 32) (zeros 32) (zeros 32) (zeros 16) (zeros 32) 0 0 0 0
    LAPLACE_HIGHWAY_OK 0.

(** A key whose scopes are 16-byte ids and whose words are in range. *)
Record key_wf (key : laplace_highway_key) : Prop := {
  wf_kind : is_u32 (key_kind key);
  wf_authority : bytes 16 (authority key);
  wf_release : bytes 16 (release key);
  wf_name_space : bytes 16 (name_space key);
  wf_local : bytes 16 (local_identifier key);
  wf_version : is_u64 (key_version key) }.

(** ** Coordinates *)
Section Coordinates.
Context {B : Blake3}.
Variable registry_kinds : list laplace_highway_kind_contract_row.

Definition laplace_highway_kind_valid (kind : Z) : bool :=
  existsb (fun row => kind =? kind_row_id row) registry_kinds.

Definition hash_key_payload (hasher : blake3_hasher) (key : laplace_highway_key)
    : blake3_hasher :=
  let hasher := hash_u32 hasher (key_kind key) in
  let hasher := blake3_hasher_update hasher (authority key) in
  let hasher := blake3_hasher_update hasher (release key) in
  let hasher := blake3_hasher_update hasher (name_space key) in
  let hasher := blake3_hasher_update hasher (local_identifier key) in
  hash_u64 hasher (key_version key).

Definition validate_key (key : ptr laplace_highway_key) : laplace_highway_status :=
  match key with
  | None => LAPLACE_HIGHWAY_INVALID_ARGUMENT
  | Some key =>
      return_when negb (key_reserved key =? 0) with LAPLACE_HIGHWAY_INVALID_ARGUMENT ;;
      return_when negb (laplace_highway_kind_valid (key_kind key))
        with LAPLACE_HIGHWAY_UNKNOWN_KIND ;;
      return_when bytes_zero (authority key) || bytes_zero (release key) ||
                  bytes_zero (name_space key) || bytes_zero (local_identifier key)
        with LAPLACE_HIGHWAY_ZERO_SCOPE ;;
      return_when key_version key =? 0 with LAPLACE_HIGHWAY_ZERO_VERSION ;;
      LAPLACE_HIGHWAY_OK
  end.

Definition key_digest (domain : string) (key : laplace_highway_key) : laplace_digest256 :=
  blake3_hasher_finalize
    (hash_key_payload (blake3_hasher_update blake3_hasher_init (domain_bytes domain)) key).

Definition laplace_highway_coordinate_calculate (key : ptr laplace_highway_key)
    (output : ptr laplace_highway_coordinate)
    : laplace_highway_status * ptr laplace_highway_coordinate :=
  return_when is_null output with (LAPLACE_HIGHWAY_INVALID_ARGUMENT, output) ;;
  match validate_key key, key with
  | LAPLACE_HIGHWAY_OK, Some key =>
      let coordinate_digest := key_digest "laplace-highway-coordinate-v1" key in
      let fingerprint := key_digest "laplace-highway-coordinate-fingerprint-v1" key in
      let id := take 16 coordinate_digest in
      return_when bytes_zero id
        with (LAPLACE_HIGHWAY_ZERO_COORDINATE, store output zero_coordinate) ;;
      (LAPLACE_HIGHWAY_OK,
       store output (mk_coordinate id fingerprint (key_kind key) 0 (key_version key)))
  | failed, _ => (failed, output)
  end.

(** The two loops of [laplace_highway_coordinate_calculate_batch]. *)
Fixpoint validate_keys (keys : list laplace_highway_key) : laplace_highway_status :=
  match keys with
  | [] => LAPLACE_HIGHWAY_OK
  | key :: rest =>
      match validate_key (Some key) with
      | LAPLACE_HIGHWAY_OK => validate_keys rest
      | failed => failed
      end
  end.

Fixpoint calculate_keys (keys : list laplace_highway_key) (index : nat)
    (outputs : list laplace_highway_coordinate)
    : laplace_highway_status * list laplace_highway_coordinate :=
  match keys with
  | [] => (LAPLACE_HIGHWAY_OK, outputs)
  | key :: rest =>
      match laplace_highway_coordinate_calculate (Some key) (outputs !! index) with
      | (LAPLACE_HIGHWAY_OK, Some output) =>
          calculate_keys rest (S index) (<[index := output]> outputs)
      | (failed, Some output) => (failed, <[index := output]> outputs)
      | (failed, None) => (failed, outputs)
      end
  end.

Definition laplace_highway_coordinate_calculate_batch (keys : ptr (list laplace_highway_key))
    (key_count : Z) (outputs : ptr (list laplace_highway_coordinate))
    : laplace_highway_status * ptr (list laplace_highway_coordinate) :=
  return_when (is_null keys && negb (key_count =? 0)) ||
              (is_null outputs && negb (key_count =? 0))
    with (LAPLACE_HIGHWAY_INVALID_ARGUMENT, outputs) ;;
  return_when (SIZE_MAX / 80 <? key_count) || (SIZE_MAX / 64 <? key_count)
    with (LAPLACE_HIGHWAY_COUNT_OVERFLOW, outputs) ;;
  match validate_keys (cells keys key_count) with
  | LAPLACE_HIGHWAY_OK =>
      let '(status, written) :=
        calculate_keys (cells keys key_count) 0 (default [] outputs) in
      (status, store outputs written)
  | failed => (failed, outputs)
  end.
End Coordinates.

(** ** Registry *)
Definition hex_nibble (value : Z) : option Z :=
  if (48 <=? value) && (value <=? 57) then Some (value - 48)
  else if (97 <=? value) && (value <=? 102) then Some (value - 97 + 10)
  else None.

Fixpoint decode_hex (value : list Z) : option (list Z) :=
  match value with
  | [] => Some []
  | high :: low :: rest =>
      match hex_nibble high, hex_nibble low, decode_hex rest with
      | Some high, Some low, Some decoded => Some (u8 (Z.lor (Z.shiftl high 4) low) :: decoded)
      | _, _, _ => None
      end
  | _ => None
  end.

Section Registry.
Context {B : Blake3}.
Variable registry_kinds : list laplace_highway_kind_contract_row.
Variable registry_aliases : list laplace_highway_alias_contract_row.
Variable registry_dispositions : list laplace_highway_disposition_contract_row.
Variable LAPLACE_HIGHWAY_REGISTRY_FINGERPRINT : list Z.
Variable LAPLACE_HIGHWAY_REGISTRY_VERSION : Z.

Definition decode_registry_fingerprint : option laplace_digest256 :=
  return_when negb (length LAPLACE_HIGHWAY_REGISTRY_FINGERPRINT =? 64)%nat with None ;;
  decode_hex LAPLACE_HIGHWAY_REGISTRY_FINGERPRINT.

Definition laplace_highway_registry_kinds (count : ptr Z)
    : ptr (list laplace_highway_kind_contract_row) * ptr Z :=
  match count with
  | None => (None, None)
  | Some _ => (Some registry_kinds, Some (Z.of_nat (length registry_kinds)))
  end.

Definition laplace_highway_registry_aliases (count : ptr Z)
    : ptr (list laplace_highway_alias_contract_row) * ptr Z :=
  match count with
  | None => (None, None)
  | Some _ =>
      (match registry_aliases with [] => None | _ => Some registry_aliases end,
       Some (Z.of_nat (length registry_aliases)))
  end.

Definition laplace_highway_registry_dispositions (count : ptr Z)
    : ptr (list laplace_highway_disposition_contract_row) * ptr Z :=
  match count with
  | None => (None, None)
  | Some _ => (Some registry_dispositions, Some (Z.of_nat (length registry_dispositions)))
  end.

Definition hash_string (hasher : blake3_hasher) (value : list Z) : blake3_hasher :=
  blake3_hasher_update (hash_u64 hasher (Z.of_nat (length value))) value.

Definition hash_kind_row (hasher : blake3_hasher) (row : laplace_highway_kind_contract_row)
    : blake3_hasher :=
  let hasher := hash_u32 hasher (kind_row_id row) in
  let hasher := hash_string hasher (kind_row_name row) in
  let hasher := hash_u64 hasher (kind_row_introduced row) in
  hash_u64 hasher (kind_row_retired row).

Definition hash_alias_row (hasher : blake3_hasher) (row : laplace_highway_alias_contract_row)
    : blake3_hasher :=
  let hasher := hash_u32 hasher (alias_row_kind_id row) in
  let hasher := hash_string hasher (alias_row_name row) in
  let hasher := hash_u64 hasher (alias_row_introduced row) in
  hash_u64 hasher (alias_row_retired row).

Definition hash_disposition_row (hasher : blake3_hasher)
    (row : laplace_highway_disposition_contract_row) : blake3_hasher :=
  hash_string (hash_u32 hasher (disposition_row_id row)) (disposition_row_name row).

Definition hash_registry_epoch (fingerprint : laplace_digest256) : blake3_hasher :=
  let hasher := blake3_hasher_update blake3_hasher_init
                  (domain_bytes "laplace-highway-registry-epoch-v1") in
  let hasher := blake3_hasher_update hasher fingerprint in
  let hasher := hash_u64 hasher LAPLACE_HIGHWAY_REGISTRY_VERSION in
  let hasher := hash_u64 hasher (Z.of_nat (length registry_kinds)) in
  let hasher := foldl hash_kind_row hasher registry_kinds in
  let hasher := hash_u64 hasher (Z.of_nat (length registry_aliases)) in
  let hasher := foldl hash_alias_row hasher registry_aliases in
  let hasher := hash_u64 hasher (Z.of_nat (length registry_dispositions)) in
  foldl hash_disposition_row hasher registry_dispositions.

Definition hash_registry_receipt (context_fp fingerprint epoch_fp : laplace_digest256)
    : blake3_hasher :=
  let hasher := blake3_hasher_update blake3_hasher_init
                  (domain_bytes "laplace-highway-registry-receipt-v1") in
  let hasher := blake3_hasher_update hasher context_fp in
  let hasher := blake3_hasher_update hasher fingerprint in
  let hasher := blake3_hasher_update hasher epoch_fp in
  let hasher := hash_u64 hasher LAPLACE_HIGHWAY_REGISTRY_VERSION in
  let hasher := hash_u64 hasher (Z.of_nat (length registry_kinds)) in
  let hasher := hash_u64 hasher (Z.of_nat (length registry_aliases)) in
  hash_u64 hasher (Z.of_nat (length registry_dispositions)).

Definition laplace_highway_registry_materialize (context : ptr laplace_framework_context)
    (receipt : ptr laplace_highway_registry_receipt)
    : laplace_highway_status * ptr laplace_highway_registry_receipt :=
  return_when is_null context || is_null receipt
    with (LAPLACE_HIGHWAY_INVALID_ARGUMENT, receipt) ;;
  match laplace_framework_context_fingerprint context (Some (zeros 32)) with
  | (LAPLACE_FRAMEWORK_OK, Some context_fp) =>
      match decode_registry_fingerprint with
      | None => (LAPLACE_HIGHWAY_REGISTRY_INVALID, store receipt zero_registry_receipt)
      | Some fingerprint =>
          let epoch_fp := blake3_hasher_finalize (hash_registry_epoch fingerprint) in
          let epoch_id := take 16 epoch_fp in
          return_when bytes_zero epoch_id || bytes_zero epoch_fp
            with (LAPLACE_HIGHWAY_REGISTRY_INVALID, store receipt zero_registry_receipt) ;;
          let id := blake3_hasher_finalize
                      (hash_registry_receipt context_fp fingerprint epoch_fp) in
          return_when bytes_zero id
            with (LAPLACE_HIGHWAY_REGISTRY_INVALID, store receipt zero_registry_receipt) ;;
          (LAPLACE_HIGHWAY_OK,
           store receipt
             (mk_registry_receipt id context_fp fingerprint epoch_id epoch_fp
                LAPLACE_HIGHWAY_REGISTRY_VERSION (Z.of_nat (length registry_kinds))
                (Z.of_nat (length registry_aliases))
                (Z.of_nat (length registry_dispositions)) LAPLACE_HIGHWAY_OK 0))
      end
  | (_, context_fp) =>
      (LAPLACE_HIGHWAY_CONTEXT_INVALID,
       store receipt
         (mk_registry_receipt (zeros 32) (default (zeros 32) context_fp) (zeros 32) (zeros 16)
            (zeros 32) 0 0 0 0 LAPLACE_HIGHWAY_OK 0))
  end.
End Registry.

(** ** Lemmas: coordinates *)
Section CoordinateLemmas.
Context {B : Blake3} {L : Blake3Laws B}.

Definition key_transcript (domain : string) (key : laplace_highway_key) : list Z :=
  domain_bytes domain ++ store_le 4 (key_kind key) ++ authority key ++ release key ++
  name_space key ++ local_identifier key ++ store_le 8 (key_version key).

Lemma key_digest_transcript domain key :
  key_digest domain key = blake3 (key_transcript domain key).
Proof.
  apply absorbs_finalize. unfold hash_key_payload, key_transcript. absorb.
Qed.

Lemma key_transcript_inj domain k1 k2 :
  key_wf k1 -> key_wf k2 -> key_reserved k1 = key_reserved k2 ->
  key_transcript domain k1 = key_transcript domain k2 -> k1 = k2.
Proof.
  intros [] [] Hr H. unfold key_transcript in H. apply app_inv_head in H.
  rewrite <- (app_nil_r (store_le 8 (key_version k1))) in H.
  rewrite <- (app_nil_r (store_le 8 (key_version k2))) in H.
  peel H. destruct k1, k2; simpl in *; congruence.
Qed.

Lemma key_domains_disjoint k1 k2 :
  key_transcript "laplace-highway-coordinate-v1" k1 <>
  key_transcript "laplace-highway-coordinate-fingerprint-v1" k2.
Proof.
  unfold key_transcript. intros H. apply (f_equal (fun l => l !! 27%nat)) in H.
  rewrite !lookup_app_l in H by (vm_compute; lia). by vm_compute in H.
Qed.
End CoordinateLemmas.

(** C40: a coordinate binds its whole scope.  A calculation succeeds exactly for
    a valid key with a non-zero coordinate; coordinate and collision
    fingerprint are digests of two transcripts that always differ from each
    other and each determine kind, authority, release, namespace, local
    identifier and version of the key. *)
Theorem coordinate_binds_key {B : Blake3} {L : Blake3Laws B} kinds key output c :
  key_wf key ->
  laplace_highway_coordinate_calculate kinds (Some key) (Some output) =
    (LAPLACE_HIGHWAY_OK, Some c) ->
  validate_key kinds (Some key) = LAPLACE_HIGHWAY_OK /\
  coordinate c = take 16 (blake3 (key_transcript "laplace-highway-coordinate-v1" key)) /\
  coordinate c <> zeros 16 /\
  collision_fingerprint c =
    blake3 (key_transcript "laplace-highway-coordinate-fingerprint-v1" key) /\
  coordinate_kind c = key_kind key /\ coordinate_version c = key_version key /\
  (forall key', key_wf key' -> validate_key kinds (Some key') = LAPLACE_HIGHWAY_OK ->
     (key_transcript "laplace-highway-coordinate-v1" key' =
        key_transcript "laplace-highway-coordinate-v1" key \/
      key_transcript "laplace-highway-coordinate-fingerprint-v1" key' =
        key_transcript "laplace-highway-coordinate-fingerprint-v1" key) -> key' = key) /\
  (forall key', key_transcript "laplace-highway-coordinate-v1" key' <>
                key_transcript "laplace-highway-coordinate-fingerprint-v1" key).
Proof.
  intros Hwf. unfold laplace_highway_coordinate_calculate. ptrs.
  destruct (validate_key kinds (Some key)) eqn:Ev; try done. casec; [done|].
  intros [= <-]. cbn [coordinate collision_fingerprint coordinate_kind coordinate_version].
  rewrite !key_digest_transcript in *.
  assert (Hreserved : forall k, validate_key kinds (Some k) = LAPLACE_HIGHWAY_OK ->
                        key_reserved k = 0).
  { intros k. unfold validate_key. casec; [done|]. lia. }
  split_and!; [done|done| |done|done|done| |intros key'; apply key_domains_disjoint].
  - intros Hz. rewrite Hz in Hguard. by vm_compute in Hguard.
  - intros key' Hwf' Hv' [H|H]; apply key_transcript_inj in H; try done;
      by rewrite !Hreserved.
Qed.

(** Kind rows of the contract and a key of kind [language]. *)
Definition sample_kinds : list laplace_highway_kind_contract_row :=
  [mk_kind_row 1 (domain_bytes "grammar-symbol") 1 0; mk_kind_row 3 (domain_bytes "language") 1 0].
Definition sample_key : laplace_highway_key :=
  mk_key 3 0 (replicate 16 1) (replicate 16 2) (replicate 16 3) (replicate 16 4) 1.
Definition sample_coordinate : laplace_highway_coordinate :=
  mk_coordinate (take 16 (key_digest (B := checksum_blake3) "laplace-highway-coordinate-v1"
                            sample_key))
    (key_digest (B := checksum_blake3) "laplace-highway-coordinate-fingerprint-v1" sample_key)
    3 0 1.

Lemma sample_key_wf : key_wf sample_key.
Proof. split; simpl; lia || check. Qed.

Lemma coordinate_binds_key_witness :
  coordinate sample_coordinate <> zeros 16 /\ coordinate_kind sample_coordinate = 3.
Proof.
  destruct (coordinate_binds_key (B := checksum_blake3) (L := checksum_blake3_laws)
    sample_kinds sample_key zero_coordinate sample_coordinate sample_key_wf)
    as (_ & _ & H & _ & Hk & _); [vm_compute; reflexivity|].
  split; [exact H | exact Hk].
Defined.

(** ** Batches *)
Section Batches.
Context {B : Blake3}.
Variable kinds : list laplace_highway_kind_contract_row.

Definition key_invalid (key : laplace_highway_key) : Prop :=
  validate_key kinds (Some key) <> LAPLACE_HIGHWAY_OK.

(** What a single calculation writes for a valid key. *)
Definition coordinate_of (key : laplace_highway_key) : laplace_highway_coordinate :=
  mk_coordinate (take 16 (key_digest "laplace-highway-coordinate-v1" key))
    (key_digest "laplace-highway-coordinate-fingerprint-v1" key) (key_kind key) 0
    (key_version key).

Definition coordinate_zero (key : laplace_highway_key) : bool :=
  bytes_zero (coordinate (coordinate_of key)).

Lemma calculate_valid key output :
  validate_key kinds (Some key) = LAPLACE_HIGHWAY_OK ->
  laplace_highway_coordinate_calculate kinds (Some key) (Some output) =
    if coordinate_zero key then (LAPLACE_HIGHWAY_ZERO_COORDINATE, Some zero_coordinate)
    else (LAPLACE_HIGHWAY_OK, Some (coordinate_of key)).
Proof.
  intros Hv. unfold laplace_highway_coordinate_calculate. ptrs. by rewrite Hv.
Qed.

Lemma validate_keys_ok keys :
  validate_keys kinds keys = LAPLACE_HIGHWAY_OK <->
  Forall (fun key => validate_key kinds (Some key) = LAPLACE_HIGHWAY_OK) keys.
Proof.
  induction keys as [|key keys IH]; cbn [validate_keys]; [done|].
  rewrite Forall_cons, <- IH. destruct (validate_key kinds (Some key));
    (split; [by intros | by intros [? ?]]).
Qed.

Lemma validate_keys_first keys i key :
  keys !! i = Some key -> key_invalid key -> Forall (fun k => ~ key_invalid k) (take i keys) ->
  validate_keys kinds keys = validate_key kinds (Some key).
Proof.
  revert i. induction keys as [|k keys IH]; intros [|i] Hi Hbad Hall;
    cbn [validate_keys take lookup list_lookup] in *; try done.
  - injection Hi as ->. unfold key_invalid in Hbad. by destruct (validate_key kinds (Some key)).
  - apply Forall_cons in Hall as [Hk Hall]. unfold key_invalid in Hk.
    destruct (validate_key kinds (Some k)); try (exfalso; by apply Hk). by apply (IH i).
Qed.

Lemma calculate_keys_spec keys : forall index outputs,
  Forall (fun key => validate_key kinds (Some key) = LAPLACE_HIGHWAY_OK) keys ->
  (index + length keys <= length outputs)%nat ->
  match list_find (fun key => Is_true (coordinate_zero key)) keys with
  | None =>
      calculate_keys kinds keys index outputs =
        (LAPLACE_HIGHWAY_OK,
         take index outputs ++ map coordinate_of keys ++ drop (index + length keys) outputs)
  | Some (i, _) =>
      calculate_keys kinds keys index outputs =
        (LAPLACE_HIGHWAY_ZERO_COORDINATE,
         take index outputs ++ map coordinate_of (take i keys) ++
         zero_coordinate :: drop (S (index + i)) outputs)
  end.
Proof.
  induction keys as [|key keys IH]; intros index outputs Hv Hlen; cbn [list_find].
  { cbn [calculate_keys]. simpl. by rewrite Nat.add_0_r, take_drop. }
  apply Forall_cons in Hv as [Hk Hv]. cbn [length] in Hlen.
  destruct (lookup_lt_is_Some_2 outputs index) as [o Ho]; [lia|].
  cbn [calculate_keys]. rewrite Ho, (calculate_valid key o Hk).
  assert (Htake : take (S index) (<[index := coordinate_of key]> outputs) =
                  take index outputs ++ [coordinate_of key]).
  { erewrite take_S_r by (apply list_lookup_insert_eq; lia). by rewrite take_insert_ge by lia. }
  destruct (decide (Is_true (coordinate_zero key))) as [Hz|Hz].
  - rewrite (Is_true_true_1 _ Hz). cbn [take map app]. rewrite Nat.add_0_r.
    by rewrite insert_take_drop by lia.
  - destruct (coordinate_zero key); [by destruct Hz|].
    specialize (IH (S index) (<[index := coordinate_of key]> outputs) Hv
                  ltac:(rewrite length_insert; lia)). rewrite Htake in IH.
    destruct (list_find _ keys) as [[i k]|]; cbn [fmap option_fmap option_map prod_map fst];
      rewrite IH, drop_insert_lt, <- app_assoc by lia; cbn [map take app];
      cbn [length]; by rewrite ?Nat.add_succ_r.
Qed.
End Batches.

(** The batch is all-or-nothing under validation.  The first invalid key
    decides the status and nothing is written, whatever keys follow or
    precede it; a batch of valid keys writes the coordinate of every key in
    order and leaves the cells past the batch alone; only a key whose
    coordinate is the reserved zero stops it, with that cell cleared and no
    later cell touched. *)
Theorem coordinate_batch_atomic {B : Blake3} kinds keys outputs n :
  n = Z.of_nat (length keys) -> (length keys <= length outputs)%nat -> n <= SIZE_MAX / 80 ->
  let run := laplace_highway_coordinate_calculate_batch kinds (Some keys) n (Some outputs) in
  (forall i key, keys !! i = Some key -> key_invalid kinds key ->
     Forall (fun k => ~ key_invalid kinds k) (take i keys) ->
     run = (validate_key kinds (Some key), Some outputs)) /\
  (Forall (fun k => ~ key_invalid kinds k) keys ->
     match list_find (fun key => Is_true (coordinate_zero key)) keys with
     | None =>
         run = (LAPLACE_HIGHWAY_OK,
                Some (map coordinate_of keys ++ drop (length keys) outputs))
     | Some (i, _) =>
         run = (LAPLACE_HIGHWAY_ZERO_COORDINATE,
                Some (map coordinate_of (take i keys) ++ zero_coordinate ::
                      drop (S i) outputs))
     end).
Proof.
  intros -> Hlen Hmax. cbv zeta. unfold laplace_highway_coordinate_calculate_batch. ptrs.
  assert (SIZE_MAX / 80 <= SIZE_MAX / 64) by (vm_compute; discriminate).
  rewrite (proj2 (Z.ltb_ge (SIZE_MAX / 80) _)), (proj2 (Z.ltb_ge (SIZE_MAX / 64) _)) by lia.
  cbn [orb]. rewrite cells_all by done. split.
  - intros i key Hi Hbad Hall. rewrite (validate_keys_first kinds keys i key) by done.
    unfold key_invalid in Hbad. by destruct (validate_key kinds (Some key)).
  - intros Hall.
    assert (Hv : Forall (fun k => validate_key kinds (Some k) = LAPLACE_HIGHWAY_OK) keys).
    { eapply Forall_impl; [exact Hall|]. intros k. unfold key_invalid.
      destruct (validate_key kinds (Some k)); naive_solver. }
    rewrite (proj2 (validate_keys_ok kinds keys) Hv).
    pose proof (calculate_keys_spec kinds keys 0 outputs Hv Hlen) as Hc. simpl default.
    destruct (list_find _ keys) as [[i k]|]; by rewrite Hc.
Qed.

Definition unknown_key : laplace_highway_key := mk_key 9 0 [1] [1] [1] [1] 1.

Lemma coordinate_batch_atomic_witness :
  laplace_highway_coordinate_calculate_batch (B := checksum_blake3) sample_kinds
    (Some [sample_key; unknown_key]) 2 (Some [zero_coordinate; zero_coordinate]) =
  (validate_key sample_kinds (Some unknown_key), Some [zero_coordinate; zero_coordinate]).
Proof.
  destruct (coordinate_batch_atomic (B := checksum_blake3) sample_kinds
    [sample_key; unknown_key] [zero_coordinate; zero_coordinate] 2) as [H _];
    [reflexivity | simpl; lia | vm_compute; discriminate |].
  refine (H 1%nat unknown_key eq_refl _ _).
  - vm_compute. discriminate.
  - constructor; [|constructor]. intros Hbad. apply Hbad. vm_compute. reflexivity.
Defined.

(** ** Registry fingerprint *)
Definition hex_digit (n : Z) : Z := if n <? 10 then 48 + n else 87 + n.
Definition hex_encode (d : list Z) : list Z :=
  concat (map (fun b => [hex_digit (b / 16); hex_digit (b mod 16)]) d).

Lemma length_hex_encode d : length (hex_encode d) = (2 * length d)%nat.
Proof. induction d as [|b d IH]; [done|]. unfold hex_encode in *. simpl. lia. Qed.

Lemma hex_nibble_digit n : 0 <= n < 16 -> hex_nibble (hex_digit n) = Some n.
Proof.
  intros Hn. unfold hex_digit, hex_nibble.
  destruct (Z.ltb_spec n 10); repeat (casec; try lia); f_equal; lia.
Qed.

Lemma hex_nibble_inv v n : hex_nibble v = Some n -> 0 <= n < 16 /\ v = hex_digit n.
Proof.
  unfold hex_nibble, hex_digit. casec; [|casec; [|done]]; intros [= <-].
  - rewrite (proj2 (Z.ltb_lt (v - 48) 10)) by lia. lia.
  - rewrite (proj2 (Z.ltb_ge (v - 97 + 10) 10)) by lia. lia.
Qed.

Lemma nibbles_byte high low : 0 <= high < 16 -> 0 <= low < 16 ->
  u8 (Z.lor (Z.shiftl high 4) low) = 16 * high + low.
Proof.
  intros Hh Hl. rewrite Z.lor_comm, lor_shiftl_add by (change (2 ^ 4) with 16; lia).
  change (2 ^ 4) with 16. rewrite u8_small; lia.
Qed.

Lemma decode_hex_spec : forall d value,
  decode_hex value = Some d <-> Forall (fun b => is_u8 b) d /\ value = hex_encode d.
Proof.
  intros d value. split.
  - revert d. remember (length value) as n eqn:Hn. revert value Hn.
    induction n as [n IH] using lt_wf_ind. intros [|h [|l rest]] Hn d; try done.
    { intros [= <-]. done. }
    cbn [decode_hex]. destruct (hex_nibble h) as [hi|] eqn:Eh; [|done].
    destruct (hex_nibble l) as [lo|] eqn:El; [|done].
    destruct (decode_hex rest) as [d'|] eqn:Er; [|done]. intros [= <-].
    apply hex_nibble_inv in Eh as [Hh ->]. apply hex_nibble_inv in El as [Hlo ->].
    destruct (IH (length rest)) with (value := rest) (d := d') as [HF ->]; [simpl in *; lia|done..|].
    rewrite nibbles_byte by done. split; [constructor; [lia|done]|].
    unfold hex_encode. cbn [map concat app].
    replace ((16 * hi + lo) / 16) with hi by (apply Z.div_unique with lo; lia).
    replace ((16 * hi + lo) mod 16) with lo by (apply Z.mod_unique with hi; lia). done.
  - intros [HF ->]. induction HF as [|b d Hb _ IH]; [done|].
    unfold hex_encode. cbn [map concat app decode_hex]. fold (hex_encode d).
    pose proof (Z.mod_pos_bound b 16). pose proof (Z.div_mod b 16).
    rewrite !hex_nibble_digit, IH, nibbles_byte by lia. do 2 f_equal. lia.
Qed.

(** the registry fingerprint constant is decoded exactly: the decoder
    returns a digest if and only if the constant is the 64-character lowercase
    hexadecimal text of that 32-byte digest. *)
Theorem registry_fingerprint_exact value d :
  decode_registry_fingerprint value = Some d <-> bytes 32 d /\ value = hex_encode d.
Proof.
  unfold decode_registry_fingerprint, bytes. split.
  - casec; [done|]. apply Nat.eqb_eq in Hguard. intros [HF ->]%decode_hex_spec.
    split_and!; [|done|done]. rewrite length_hex_encode in Hguard. lia.
  - intros [[Hlen HF] ->]. rewrite length_hex_encode, Hlen. by apply decode_hex_spec.
Qed.

(** ** Registry epoch and receipt *)
Definition name_wf (name : list Z) : Prop := Z.of_nat (length name) <= UINT64_MAX.
Definition kind_row_wf (r : laplace_highway_kind_contract_row) : Prop :=
  is_u32 (kind_row_id r) /\ name_wf (kind_row_name r) /\ is_u64 (kind_row_introduced r) /\
  is_u64 (kind_row_retired r).
Definition alias_row_wf (r : laplace_highway_alias_contract_row) : Prop :=
  is_u32 (alias_row_kind_id r) /\ name_wf (alias_row_name r) /\
  is_u64 (alias_row_introduced r) /\ is_u64 (alias_row_retired r).
Definition disposition_row_wf (r : laplace_highway_disposition_contract_row) : Prop :=
  is_u32 (disposition_row_id r) /\ name_wf (disposition_row_name r).

(** The tables of a registry. *)
Record registry := mk_registry {
  kinds_table : list laplace_highway_kind_contract_row;
  aliases_table : list laplace_highway_alias_contract_row;
  dispositions_table : list laplace_highway_disposition_contract_row;
  table_version : Z }.

Record registry_wf (r : registry) : Prop := {
  wf_kinds : Forall kind_row_wf (kinds_table r) /\
             Z.of_nat (length (kinds_table r)) <= UINT64_MAX;
  wf_aliases : Forall alias_row_wf (aliases_table r) /\
               Z.of_nat (length (aliases_table r)) <= UINT64_MAX;
  wf_dispositions : Forall disposition_row_wf (dispositions_table r) /\
                    Z.of_nat (length (dispositions_table r)) <= UINT64_MAX;
  wf_table_version : is_u64 (table_version r) }.

Definition kind_row_code (r : laplace_highway_kind_contract_row) : list Z :=
  store_le 4 (kind_row_id r) ++ sized (kind_row_name r) ++
  store_le 8 (kind_row_introduced r) ++ store_le 8 (kind_row_retired r).
Definition alias_row_code (r : laplace_highway_alias_contract_row) : list Z :=
  store_le 4 (alias_row_kind_id r) ++ sized (alias_row_name r) ++
  store_le 8 (alias_row_introduced r) ++ store_le 8 (alias_row_retired r).
Definition disposition_row_code (r : laplace_highway_disposition_contract_row) : list Z :=
  store_le 4 (disposition_row_id r) ++ sized (disposition_row_name r).

Definition registry_transcript (fingerprint : laplace_digest256) (r : registry) : list Z :=
  domain_bytes "laplace-highway-registry-epoch-v1" ++ fingerprint ++
  store_le 8 (table_version r) ++ counted kind_row_code (kinds_table r) ++
  counted alias_row_code (aliases_table r) ++
  counted disposition_row_code (dispositions_table r).

Definition receipt_transcript (context_fp fingerprint epoch_fp : laplace_digest256)
    (r : registry) : list Z :=
  domain_bytes "laplace-highway-registry-receipt-v1" ++ context_fp ++ fingerprint ++ epoch_fp ++
  store_le 8 (table_version r) ++ store_le 8 (Z.of_nat (length (kinds_table r))) ++
  store_le 8 (Z.of_nat (length (aliases_table r))) ++
  store_le 8 (Z.of_nat (length (dispositions_table r))).

Lemma kind_row_prefix : prefix_code kind_row_wf kind_row_code.
Proof.
  intros a b x y (Ha1 & Ha2 & Ha3 & Ha4) (Hb1 & Hb2 & Hb3 & Hb4) H. unfold kind_row_code in H.
  rewrite <- !app_assoc in H. apply app_u32_inj in H as [? H]; [|done..].
  apply prefix_code_sized in H as [? H]; [|done..]. peel H.
  destruct a, b; simpl in *; split; congruence.
Qed.

Lemma alias_row_prefix : prefix_code alias_row_wf alias_row_code.
Proof.
  intros a b x y (Ha1 & Ha2 & Ha3 & Ha4) (Hb1 & Hb2 & Hb3 & Hb4) H. unfold alias_row_code in H.
  rewrite <- !app_assoc in H. apply app_u32_inj in H as [? H]; [|done..].
  apply prefix_code_sized in H as [? H]; [|done..]. peel H.
  destruct a, b; simpl in *; split; congruence.
Qed.

Lemma disposition_row_prefix : prefix_code disposition_row_wf disposition_row_code.
Proof.
  intros a b x y (Ha1 & Ha2) (Hb1 & Hb2) H. unfold disposition_row_code in H.
  rewrite <- !app_assoc in H. apply app_u32_inj in H as [? H]; [|done..].
  apply prefix_code_sized in H as [? H]; [|done..].
  destruct a, b; simpl in *; split; congruence.
Qed.

Lemma registry_transcript_inj f1 f2 r1 r2 :
  bytes 32 f1 -> bytes 32 f2 -> registry_wf r1 -> registry_wf r2 ->
  registry_transcript f1 r1 = registry_transcript f2 r2 -> f1 = f2 /\ r1 = r2.
Proof.
  intros Hf1 Hf2 [] [] H. unfold registry_transcript in H. apply app_inv_head in H.
  peel H. apply (prefix_code_counted _ _ kind_row_prefix) in H as [? H]; [|done..].
  apply (prefix_code_counted _ _ alias_row_prefix) in H as [? H]; [|done..].
  rewrite <- (app_nil_r (counted disposition_row_code (dispositions_table r1))) in H.
  rewrite <- (app_nil_r (counted disposition_row_code (dispositions_table r2))) in H.
  apply (prefix_code_counted _ _ disposition_row_prefix) in H as [? H]; [|done..].
  destruct r1, r2; simpl in *; split; congruence.
Qed.

Section Materialize.
Context {B : Blake3} {L : Blake3Laws B}.

Lemma absorbs_string h m s : absorbs h m -> absorbs (hash_string h s) (m ++ sized s).
Proof. intros. unfold hash_string, sized. absorb. Qed.

Lemma absorbs_registry_epoch fingerprint r :
  absorbs (hash_registry_epoch (kinds_table r) (aliases_table r) (dispositions_table r)
             (table_version r) fingerprint) (registry_transcript fingerprint r).
Proof.
  unfold hash_registry_epoch, registry_transcript, counted. rewrite !app_assoc.
  apply (absorbs_fold hash_disposition_row disposition_row_code).
  { intros h m row Hm. unfold hash_disposition_row, disposition_row_code. rewrite app_assoc.
    by apply absorbs_string, absorbs_u32. }
  apply absorbs_u64, (absorbs_fold hash_alias_row alias_row_code).
  { intros h m row Hm. unfold hash_alias_row, alias_row_code. rewrite !app_assoc.
    by apply absorbs_u64, absorbs_u64, absorbs_string, absorbs_u32. }
  apply absorbs_u64, (absorbs_fold hash_kind_row kind_row_code); [|absorb].
  intros h m row Hm. unfold hash_kind_row, kind_row_code. rewrite !app_assoc.
  by apply absorbs_u64, absorbs_u64, absorbs_string, absorbs_u32.
Qed.

Lemma absorbs_registry_receipt c f e r :
  absorbs (hash_registry_receipt (kinds_table r) (aliases_table r) (dispositions_table r)
             (table_version r) c f e) (receipt_transcript c f e r).
Proof. unfold hash_registry_receipt, receipt_transcript. absorb. Qed.

Definition materialize (r : registry) (hex : list Z) :=
  laplace_highway_registry_materialize (kinds_table r) (aliases_table r)
    (dispositions_table r) hex (table_version r).
End Materialize.

(** A registry receipt binds the registry it was made from.  On success the
    activation epoch is the digest of a transcript that determines the
    registry fingerprint, its version and every row of the three tables, the
    epoch id is its prefix, the epoch does not depend on the context, and the
    receipt id covers context, registry and epoch; every failure leaves a
    receipt whose identity and epoch are zero. *)
Theorem registry_receipt_binds {B : Blake3} {L : Blake3Laws B} r hex context old result out :
  registry_wf r ->
  materialize r hex (Some context) (Some old) = (result, Some out) ->
  match result with
  | LAPLACE_HIGHWAY_OK =>
      hex = hex_encode (registry_fingerprint out) /\
      activation_epoch_fingerprint out =
        blake3 (registry_transcript (registry_fingerprint out) r) /\
      activation_epoch_id out = take 16 (activation_epoch_fingerprint out) /\
      activation_epoch_id out <> zeros 16 /\
      registry_receipt_id out =
        blake3 (receipt_transcript (registry_context_fingerprint out)
                  (registry_fingerprint out) (activation_epoch_fingerprint out) r) /\
      (forall f r', bytes 32 f -> registry_wf r' ->
         registry_transcript f r' = registry_transcript (registry_fingerprint out) r ->
         f = registry_fingerprint out /\ r' = r) /\
      (forall context' old' out',
         materialize r hex (Some context') (Some old') = (LAPLACE_HIGHWAY_OK, Some out') ->
         activation_epoch_fingerprint out' = activation_epoch_fingerprint out)
  | LAPLACE_HIGHWAY_CONTEXT_INVALID | LAPLACE_HIGHWAY_REGISTRY_INVALID =>
      registry_receipt_id out = zeros 32 /\ activation_epoch_fingerprint out = zeros 32
  | _ => False
  end.
Proof.
  intros Hwf. unfold materialize, laplace_highway_registry_materialize. ptrs.
  pose proof (context_fingerprint_cases (Some context) (zeros 32)) as Hc.
  destruct (laplace_framework_context_fingerprint (Some context) (Some (zeros 32)))
    as [s [fp|]]; destruct s; try done; try (by intros [= <- <-]).
  destruct (decode_registry_fingerprint hex) as [f|] eqn:Ef; [|by intros [= <- <-]].
  apply registry_fingerprint_exact in Ef as [Hf ->].
  rewrite (absorbs_finalize _ _ (absorbs_registry_epoch f r)).
  casec; [by intros [= <- <-]|].
  rewrite (absorbs_finalize _ _ (absorbs_registry_receipt fp f _ r)).
  casec; [by intros [= <- <-]|]. intros [= <- <-].
  cbn [registry_fingerprint activation_epoch_fingerprint activation_epoch_id
       registry_receipt_id registry_context_fingerprint].
  split_and!; try done.
  - intros Hz. rewrite Hz in *. by vm_compute in H.
  - intros f' r' ? ?. by apply registry_transcript_inj.
  - intros context' old' out'.
    destruct (laplace_framework_context_fingerprint (Some context') _) as [s' [fp'|]];
      destruct s'; try done.
    casec; [done|]. by intros [= <-].
Qed.

(** The registry of the sample rows, materialized in the sample context. *)
Definition sample_registry : registry :=
  mk_registry sample_kinds [] [mk_disposition_row 1 (domain_bytes "present")] 2.
Definition sample_hex : list Z := hex_encode (replicate 32 171).
Definition sample_receipt : laplace_highway_registry_receipt :=
  default zero_registry_receipt
    (materialize (B := checksum_blake3) sample_registry sample_hex (Some sample_context)
       (Some zero_registry_receipt)).2.

Lemma sample_registry_wf : registry_wf sample_registry.
Proof.
  split; simpl; try lia; (split; [|lia]); repeat constructor; unfold name_wf; simpl; lia.
Qed.

Lemma sample_materialize_ok :
  materialize (B := checksum_blake3) sample_registry sample_hex (Some sample_context)
    (Some zero_registry_receipt) = (LAPLACE_HIGHWAY_OK, Some sample_receipt).
Proof. vm_compute. reflexivity. Qed.

Lemma registry_receipt_binds_witness :
  activation_epoch_fingerprint sample_receipt =
    blake3 (B := checksum_blake3)
      (registry_transcript (registry_fingerprint sample_receipt) sample_registry).
Proof.
  destruct (registry_receipt_binds (B := checksum_blake3) (L := checksum_blake3_laws)
    sample_registry sample_hex sample_context zero_registry_receipt LAPLACE_HIGHWAY_OK
    sample_receipt sample_registry_wf sample_materialize_ok) as (_ & H & _).
  exact H.
Defined.
