(* ===== verification/ReferenceTopology.v ===== *)
(** * Reference topology: resolving scoped references of a batch

    Models [engine/src/reference_topology.c] and
    [engine/include/laplace/reference_topology.h]: validation of candidates,
    occurrence and record identities, the grouping of equal scoped keys, the
    disposition of every occurrence, the detection of declaration conflicts,
    coordinate collisions and duplicate occurrences, and the receipt.

    The outcome of the three [calloc] calls is the argument [allocated].  The
    index arrays are derived from the candidates and records at the point where
    the code has filled them. *)
From stdpp Require Import prelude strings sorting.
From Stdlib Require Import ZArith Lia.
From S2P Require Import Prelude Bytes Sorting Hash Identity Highway.

(** ** Contract constants ([contracts/reference-topology.json]) *)
Abbreviation LAPLACE_REFERENCE_TOPOLOGY_VERSION := 1 (only parsing).
Abbreviation LAPLACE_REFERENCE_RULE_ENDPOINT := 1 (only parsing).
Abbreviation LAPLACE_REFERENCE_RULE_PRESENT_DECLARATION := 2 (only parsing).
Abbreviation LAPLACE_REFERENCE_RULE_RETIRED_DECLARATION := 4 (only parsing).
Abbreviation LAPLACE_REFERENCE_RULE_KNOWN_MASK := 7 (only parsing).
Abbreviation LAPLACE_REFERENCE_DISPOSITION_PRESENT := 1 (only parsing).
Abbreviation LAPLACE_REFERENCE_DISPOSITION_RETIRED := 2 (only parsing).
Abbreviation LAPLACE_REFERENCE_DISPOSITION_UNRESOLVED := 6 (only parsing).
Abbreviation REFERENCE_FIELD_NONE := 0 (only parsing).
Abbreviation REFERENCE_FIELD_RECORD := 1 (only parsing).
Abbreviation REFERENCE_FIELD_PROFILE := 2 (only parsing).
Abbreviation REFERENCE_FIELD_DECLARATION := 3 (only parsing).
Abbreviation REFERENCE_FIELD_COORDINATE := 4 (only parsing).
Abbreviation REFERENCE_FIELD_OCCURRENCE := 5 (only parsing).

(** ** Data *)
Record laplace_reference_candidate := mk_candidate {
  source_profile_id : laplace_digest256;
  key : laplace_highway_key;
  row_entity_id : laplace_id128;
  field_entity_id : laplace_id128;
  value_entity_id : laplace_id128;
  source_ordinal : Z;
  artifact_ordinal : Z;
  row_ordinal : Z;
  column_ordinal : Z;
  rule_flags : Z;
  candidate_reserved : Z }.

Record laplace_reference_record := mk_record {
  candidate : laplace_reference_candidate;
  record_coordinate : laplace_highway_coordinate;
  occurrence_id : laplace_digest256;
  reference_id : laplace_digest256;
  disposition : Z;
  record_reserved : Z }.

Inductive laplace_reference_topology_status :=
| LAPLACE_REFERENCE_TOPOLOGY_OK
| LAPLACE_REFERENCE_TOPOLOGY_INVALID_ARGUMENT
| LAPLACE_REFERENCE_TOPOLOGY_RECORD_INVALID
| LAPLACE_REFERENCE_TOPOLOGY_PROFILE_MISMATCH
| LAPLACE_REFERENCE_TOPOLOGY_DECLARATION_CONFLICT
| LAPLACE_REFERENCE_TOPOLOGY_COORDINATE_COLLISION
| LAPLACE_REFERENCE_TOPOLOGY_DUPLICATE_OCCURRENCE
| LAPLACE_REFERENCE_TOPOLOGY_MEMORY_FAILURE
| LAPLACE_REFERENCE_TOPOLOGY_OVERFLOW
| LAPLACE_REFERENCE_TOPOLOGY_HIGHWAY_FAILURE.

(** The [status] word of a receipt is 0 before success and [OK] = 0 after. *)
Record laplace_reference_topology_receipt := mk_receipt {
  receipt_id : laplace_digest256;
  receipt_source_profile_id : laplace_digest256;
  input_fingerprint : laplace_digest256;
  output_fingerprint : laplace_digest256;
  occurrence_count : Z;
  coordinate_count : Z;
  present_count : Z;
  retired_count : Z;
  unresolved_count : Z;
  version : Z;
  receipt_status : Z }.

Record laplace_reference_topology_error := mk_error {
  record_index : Z;
  field : Z;
  error_reserved : Z }.

Record reference_index := mk_reference_index {
  index_key : laplace_highway_key;
  index_input : nat;
  index_rule_flags : Z }.

Record coordinate_index := mk_coordinate_index {
  index_coordinate : laplace_id128;
  index_fingerprint : laplace_digest256;
  coordinate_input : nat }.

Record occurrence_index := mk_occurrence_index {
  index_occurrence : laplace_digest256;
  occurrence_input : nat }.

(** ** Comparators *)
Definition key_compare_value : laplace_highway_key -> laplace_highway_key -> comparison :=
  cmp_then (cmp_on key_kind Z.compare)
    (cmp_then (cmp_on authority memcmp)
       (cmp_then (cmp_on release memcmp)
          (cmp_then (cmp_on name_space memcmp)
             (cmp_then (cmp_on local_identifier memcmp) (cmp_on key_version Z.compare))))).

Definition reference_index_compare : reference_index -> reference_index -> comparison :=
  cmp_then (cmp_on index_key key_compare_value)
    (cmp_on (fun a => Z.of_nat (index_input a)) Z.compare).

Definition coordinate_index_compare : coordinate_index -> coordinate_index -> comparison :=
  cmp_then (cmp_on index_coordinate memcmp)
    (cmp_then (cmp_on index_fingerprint memcmp)
       (cmp_on (fun a => Z.of_nat (coordinate_input a)) Z.compare)).

Definition occurrence_index_compare : occurrence_index -> occurrence_index -> comparison :=
  cmp_then (cmp_on index_occurrence memcmp)
    (cmp_on (fun a => Z.of_nat (occurrence_input a)) Z.compare).

(** [(value & flag) != 0] *)
Definition flag_set (value flag : Z) : bool := negb (Z.land value flag =? 0).

Definition candidate_valid (c : laplace_reference_candidate) : bool :=
  let both := Z.lor LAPLACE_REFERENCE_RULE_PRESENT_DECLARATION
                LAPLACE_REFERENCE_RULE_RETIRED_DECLARATION in
  let declarations := Z.land (rule_flags c) both in
  negb (bytes_zero (source_profile_id c)) && negb (bytes_zero (row_entity_id c)) &&
  negb (bytes_zero (field_entity_id c)) && negb (bytes_zero (value_entity_id c)) &&
  bytes_equal (value_entity_id c) (local_identifier (key c)) &&
  negb (source_ordinal c =? 0) && negb (row_ordinal c =? 0) &&
  negb (column_ordinal c =? 0) && (candidate_reserved c =? 0) &&
  flag_set (rule_flags c) LAPLACE_REFERENCE_RULE_ENDPOINT &&
  (Z.land (rule_flags c) (Z.lnot LAPLACE_REFERENCE_RULE_KNOWN_MASK) =? 0) &&
  negb (declarations =? both).

Section Topology.
Context {B : Blake3}.
Variable kinds : list laplace_highway_kind_contract_row.

Definition hash_key (hasher : blake3_hasher) (key : laplace_highway_key) : blake3_hasher :=
  let hasher := hash_u32 hasher (key_kind key) in
  let hasher := blake3_hasher_update hasher (authority key) in
  let hasher := blake3_hasher_update hasher (release key) in
  let hasher := blake3_hasher_update hasher (name_space key) in
  let hasher := blake3_hasher_update hasher (local_identifier key) in
  hash_u64 hasher (key_version key).

Definition identify_occurrence (c : laplace_reference_candidate) : laplace_digest256 :=
  let hasher := blake3_hasher_update blake3_hasher_init
                  (domain_bytes "laplace-reference-topology-occurrence-v1") in
  let hasher := blake3_hasher_update hasher (source_profile_id c) in
  let hasher := blake3_hasher_update hasher (row_entity_id c) in
  let hasher := blake3_hasher_update hasher (field_entity_id c) in
  let hasher := blake3_hasher_update hasher (value_entity_id c) in
  let hasher := hash_u64 hasher (source_ordinal c) in
  let hasher := hash_u64 hasher (artifact_ordinal c) in
  let hasher := hash_u64 hasher (row_ordinal c) in
  blake3_hasher_finalize (hash_u64 hasher (column_ordinal c)).

Definition identify_record (r : laplace_reference_record) : laplace_reference_record :=
  let hasher := blake3_hasher_update blake3_hasher_init
                  (domain_bytes "laplace-reference-topology-record-v1") in
  let hasher := blake3_hasher_update hasher (occurrence_id r) in
  let hasher := hash_key hasher (key (candidate r)) in
  let hasher := blake3_hasher_update hasher (coordinate (record_coordinate r)) in
  let hasher := blake3_hasher_update hasher (collision_fingerprint (record_coordinate r)) in
  let hasher := hash_u32 hasher (disposition r) in
  let hasher := hash_u32 hasher (rule_flags (candidate r)) in
  mk_record (candidate r) (record_coordinate r) (occurrence_id r)
    (blake3_hasher_finalize hasher) (disposition r) (record_reserved r).

Definition hash_candidate (hasher : blake3_hasher) (c : laplace_reference_candidate)
    : blake3_hasher :=
  let hasher := blake3_hasher_update hasher (source_profile_id c) in
  let hasher := hash_key hasher (key c) in
  let hasher := blake3_hasher_update hasher (row_entity_id c) in
  let hasher := blake3_hasher_update hasher (field_entity_id c) in
  let hasher := blake3_hasher_update hasher (value_entity_id c) in
  let hasher := hash_u64 hasher (source_ordinal c) in
  let hasher := hash_u64 hasher (artifact_ordinal c) in
  let hasher := hash_u64 hasher (row_ordinal c) in
  let hasher := hash_u64 hasher (column_ordinal c) in
  hash_u32 hasher (rule_flags c).

Definition hash_input (candidates : list laplace_reference_candidate) : blake3_hasher :=
  foldl hash_candidate
    (hash_u64 (blake3_hasher_update blake3_hasher_init
                 (domain_bytes "laplace-reference-topology-input-v1"))
       (Z.of_nat (length candidates))) candidates.

Definition hash_output (records : list laplace_reference_record) : blake3_hasher :=
  foldl (fun hasher r => blake3_hasher_update hasher (reference_id r))
    (hash_u64 (blake3_hasher_update blake3_hasher_init
                 (domain_bytes "laplace-reference-topology-output-v1"))
       (Z.of_nat (length records))) records.

(** ** The first loop: validate and fill the records *)
Definition set_coordinate (coord : laplace_highway_coordinate) (r : laplace_reference_record) :=
  mk_record (candidate r) coord (occurrence_id r) (reference_id r) (disposition r)
    (record_reserved r).

Fixpoint index_candidates (profile : laplace_digest256)
    (candidates : list laplace_reference_candidate) (index : nat)
    (records : list laplace_reference_record)
    : laplace_reference_topology_status * Z * Z * list laplace_reference_record :=
  match candidates with
  | [] => (LAPLACE_REFERENCE_TOPOLOGY_OK, UINT64_MAX, REFERENCE_FIELD_NONE, records)
  | c :: rest =>
      let invalid records :=
        (LAPLACE_REFERENCE_TOPOLOGY_RECORD_INVALID, Z.of_nat index, REFERENCE_FIELD_RECORD,
         records) in
      return_when negb (candidate_valid c) with invalid records ;;
      match laplace_highway_coordinate_calculate kinds (Some (key c))
              (record_coordinate <$> records !! index) with
      | (LAPLACE_HIGHWAY_OK, Some coord) =>
          return_when negb (index =? 0)%nat && negb (bytes_equal profile (source_profile_id c))
            with (LAPLACE_REFERENCE_TOPOLOGY_PROFILE_MISMATCH, Z.of_nat index,
                  REFERENCE_FIELD_PROFILE, alter (set_coordinate coord) index records) ;;
          index_candidates profile rest (S index)
            (alter (fun r => mk_record c coord (identify_occurrence c) (reference_id r)
                               (disposition r) 0) index records)
      | (_, Some coord) => invalid (alter (set_coordinate coord) index records)
      | (_, None) => invalid records
      end
  end.

(** ** The second loop: groups of equal keys *)
Definition set_disposition (d : Z) (r : laplace_reference_record) :=
  mk_record (candidate r) (record_coordinate r) (occurrence_id r) (reference_id r) d
    (record_reserved r).

Definition group_has (flag : Z) (group : list reference_index) : bool :=
  existsb (fun item => flag_set (index_rule_flags item) flag) group.

Definition group_disposition (present retired : bool) : Z :=
  if present then LAPLACE_REFERENCE_DISPOSITION_PRESENT
  else if retired then LAPLACE_REFERENCE_DISPOSITION_RETIRED
  else LAPLACE_REFERENCE_DISPOSITION_UNRESOLVED.

Definition dispose_group (d : Z) (group : list reference_index)
    (records : list laplace_reference_record) : list laplace_reference_record :=
  foldl (fun records item => alter (set_disposition d) (index_input item) records) records
    group.

(** The first item of a group with both declarations, if any; the records and
    the number of groups before it. *)
Fixpoint resolve_groups (gs : list (list reference_index))
    (records : list laplace_reference_record) (count : Z)
    : option nat * list laplace_reference_record * Z :=
  match gs with
  | [] => (None, records, count)
  | group :: rest =>
      let present := group_has LAPLACE_REFERENCE_RULE_PRESENT_DECLARATION group in
      let retired := group_has LAPLACE_REFERENCE_RULE_RETIRED_DECLARATION group in
      return_when present && retired
        with (Some (default 0%nat (index_input <$> head group)), records, count) ;;
      resolve_groups rest (dispose_group (group_disposition present retired) group records)
        (count + 1)
  end.

Definition reference_indexes (candidates : list laplace_reference_candidate)
    : list reference_index :=
  imap (fun index c => mk_reference_index (key c) index (rule_flags c)) candidates.

Definition coordinate_indexes (records : list laplace_reference_record)
    : list coordinate_index :=
  imap (fun index r => mk_coordinate_index (coordinate (record_coordinate r))
                         (collision_fingerprint (record_coordinate r)) index) records.

Definition occurrence_indexes (records : list laplace_reference_record)
    : list occurrence_index :=
  imap (fun index r => mk_occurrence_index (occurrence_id r) index) records.

Definition find_collision (coordinates : list coordinate_index) : option coordinate_index :=
  find_adjacent (fun a b => bytes_equal (index_coordinate a) (index_coordinate b) &&
                            negb (bytes_equal (index_fingerprint a) (index_fingerprint b)))
    (qsort coordinate_index_compare coordinates).

Definition find_duplicate (occurrences : list occurrence_index) : option occurrence_index :=
  find_adjacent (fun a b => bytes_equal (index_occurrence a) (index_occurrence b))
    (qsort occurrence_index_compare occurrences).

(** ** The receipt *)
Definition count_disposition (d : Z) (records : list laplace_reference_record) : Z :=
  foldl (fun count r => if disposition r =? d then count + 1 else count) 0 records.

(** The [default] branch of the [switch]. *)
Definition count_other (records : list laplace_reference_record) : Z :=
  foldl (fun count r =>
           if (disposition r =? LAPLACE_REFERENCE_DISPOSITION_PRESENT) ||
              (disposition r =? LAPLACE_REFERENCE_DISPOSITION_RETIRED) then count
           else count + 1) 0 records.

Definition failed_receipt (coordinates : Z) : laplace_reference_topology_receipt :=
  mk_receipt (zeros 32) (zeros 32) (zeros 32) (zeros 32) 0 coordinates 0 0 0
    LAPLACE_REFERENCE_TOPOLOGY_VERSION 0.

Definition hash_receipt (r : laplace_reference_topology_receipt) : blake3_hasher :=
  let hasher := blake3_hasher_update blake3_hasher_init
                  (domain_bytes "laplace-reference-topology-receipt-v1") in
  let hasher := blake3_hasher_update hasher (receipt_source_profile_id r) in
  let hasher := blake3_hasher_update hasher (input_fingerprint r) in
  let hasher := blake3_hasher_update hasher (output_fingerprint r) in
  let hasher := hash_u64 hasher (occurrence_count r) in
  let hasher := hash_u64 hasher (coordinate_count r) in
  let hasher := hash_u64 hasher (present_count r) in
  let hasher := hash_u64 hasher (retired_count r) in
  let hasher := hash_u64 hasher (unresolved_count r) in
  let hasher := hash_u32 hasher (version r) in
  hash_u32 hasher (receipt_status r).

Definition final_receipt (profile : laplace_digest256)
    (candidates : list laplace_reference_candidate) (records : list laplace_reference_record)
    (coordinates : Z) : laplace_reference_topology_receipt :=
  let receipt :=
    mk_receipt (zeros 32) profile (blake3_hasher_finalize (hash_input candidates))
      (blake3_hasher_finalize (hash_output records)) (Z.of_nat (length candidates))
      coordinates (count_disposition LAPLACE_REFERENCE_DISPOSITION_PRESENT records)
      (count_disposition LAPLACE_REFERENCE_DISPOSITION_RETIRED records)
      (count_other records) LAPLACE_REFERENCE_TOPOLOGY_VERSION 0 in
  mk_receipt (blake3_hasher_finalize (hash_receipt receipt))
    (receipt_source_profile_id receipt) (input_fingerprint receipt)
    (output_fingerprint receipt) (occurrence_count receipt) (coordinate_count receipt)
    (present_count receipt) (retired_count receipt) (unresolved_count receipt)
    (version receipt) (receipt_status receipt).

(** ** [laplace_reference_topology_resolve_batch] *)
Definition report (error : ptr laplace_reference_topology_error) (index field_value : Z) :=
  store error (mk_error index field_value 0).

(** The part between the input checks and the end, on [candidate_count]
    candidates; [records] are the caller's cells. *)
Definition resolve_candidates (candidates : list laplace_reference_candidate)
    (records : list laplace_reference_record) (error : ptr laplace_reference_topology_error)
    : laplace_reference_topology_status * list laplace_reference_record *
      laplace_reference_topology_receipt * ptr laplace_reference_topology_error :=
  let profile := default [] (source_profile_id <$> head candidates) in
  let n := length candidates in
  match index_candidates profile candidates 0 records with
  | (LAPLACE_REFERENCE_TOPOLOGY_OK, _, _, records) =>
      let ordered := qsort reference_index_compare (reference_indexes candidates) in
      match resolve_groups (groups n (cmp_on index_key key_compare_value) ordered) records 0 with
      | (Some index, records, count) =>
          (LAPLACE_REFERENCE_TOPOLOGY_DECLARATION_CONFLICT, records, failed_receipt count,
           report error (Z.of_nat index) REFERENCE_FIELD_DECLARATION)
      | (None, records, count) =>
          match find_collision (coordinate_indexes (take n records)) with
          | Some item =>
              (LAPLACE_REFERENCE_TOPOLOGY_COORDINATE_COLLISION, records, failed_receipt count,
               report error (Z.of_nat (coordinate_input item)) REFERENCE_FIELD_COORDINATE)
          | None =>
              match find_duplicate (occurrence_indexes (take n records)) with
              | Some item =>
                  (LAPLACE_REFERENCE_TOPOLOGY_DUPLICATE_OCCURRENCE, records,
                   failed_receipt count,
                   report error (Z.of_nat (occurrence_input item)) REFERENCE_FIELD_OCCURRENCE)
              | None =>
                  let identified := map identify_record (take n records) in
                  (LAPLACE_REFERENCE_TOPOLOGY_OK, identified ++ drop n records,
                   final_receipt profile candidates identified count,
                   report error UINT64_MAX REFERENCE_FIELD_NONE)
              end
          end
      end
  | (failed, index, field_value, records) =>
      (failed, records, failed_receipt 0, report error index field_value)
  end.

Definition laplace_reference_topology_resolve_batch (allocated : bool)
    (candidates : ptr (list laplace_reference_candidate)) (candidate_count : Z)
    (records : ptr (list laplace_reference_record))
    (receipt : ptr laplace_reference_topology_receipt)
    (error : ptr laplace_reference_topology_error)
    : laplace_reference_topology_status * ptr (list laplace_reference_record) *
      ptr laplace_reference_topology_receipt * ptr laplace_reference_topology_error :=
  let cleared := report error UINT64_MAX REFERENCE_FIELD_NONE in
  return_when is_null candidates || is_null records || is_null receipt ||
              (candidate_count =? 0) || (SIZE_MAX / 96 <? candidate_count)
    with (LAPLACE_REFERENCE_TOPOLOGY_INVALID_ARGUMENT, records,
          store receipt (failed_receipt 0), cleared) ;;
  return_when negb allocated
    with (LAPLACE_REFERENCE_TOPOLOGY_MEMORY_FAILURE, records,
          store receipt (failed_receipt 0), cleared) ;;
  let '(status, written, body, error) :=
    resolve_candidates (cells candidates candidate_count) (default [] records) error in
  (status, store records written, store receipt body, error).
End Topology.

(** ** Specification *)
Section Specification.
Context {B : Blake3}.
Variable kinds : list laplace_highway_kind_contract_row.

Definition same_key (k1 k2 : laplace_highway_key) : bool := same key_compare_value k1 k2.

(** Some candidate of the batch declares the scoped key with [flag]. *)
Definition declares (flag : Z) (cs : list laplace_reference_candidate)
    (k : laplace_highway_key) : bool :=
  existsb (fun c => same_key k (key c) && flag_set (rule_flags c) flag) cs.

Definition disposition_of (cs : list laplace_reference_candidate) (k : laplace_highway_key)
    : Z :=
  if declares LAPLACE_REFERENCE_RULE_PRESENT_DECLARATION cs k
  then LAPLACE_REFERENCE_DISPOSITION_PRESENT
  else if declares LAPLACE_REFERENCE_RULE_RETIRED_DECLARATION cs k
  then LAPLACE_REFERENCE_DISPOSITION_RETIRED
  else LAPLACE_REFERENCE_DISPOSITION_UNRESOLVED.

(** The record of a candidate in an accepted batch. *)
Definition resolved (cs : list laplace_reference_candidate) (c : laplace_reference_candidate)
    : laplace_reference_record :=
  identify_record (mk_record c (coordinate_of (key c)) (identify_occurrence c) []
                     (disposition_of cs (key c)) 0).

Definition candidate_accepted (c : laplace_reference_candidate) : Prop :=
  candidate_valid c = true /\ validate_key kinds (Some (key c)) = LAPLACE_HIGHWAY_OK /\
  coordinate_zero (key c) = false.

(** The batches the resolution law accepts. *)
Record accepted (cs : list laplace_reference_candidate) : Prop := {
  all_accepted : Forall candidate_accepted cs;
  one_profile : forall a b, a ∈ cs -> b ∈ cs -> source_profile_id a = source_profile_id b;
  no_conflict : forall c, c ∈ cs ->
    declares LAPLACE_REFERENCE_RULE_PRESENT_DECLARATION cs (key c) &&
    declares LAPLACE_REFERENCE_RULE_RETIRED_DECLARATION cs (key c) = false;
  no_collision : forall a b, a ∈ cs -> b ∈ cs ->
    coordinate (coordinate_of (key a)) = coordinate (coordinate_of (key b)) ->
    collision_fingerprint (coordinate_of (key a)) =
      collision_fingerprint (coordinate_of (key b));
  no_duplicate : NoDup (map identify_occurrence cs) }.

(** [ks] lists the distinct scoped keys of the batch. *)
Definition distinct_keys (cs : list laplace_reference_candidate)
    (ks : list laplace_highway_key) : Prop :=
  StronglySorted (fun k1 k2 => same_key k1 k2 = false) ks /\
  (forall k, k ∈ ks -> exists c, c ∈ cs /\ key c = k) /\
  (forall c, c ∈ cs -> exists k, k ∈ ks /\ same_key k (key c) = true).

(** A record the first loop has filled for [c]. *)
Definition filled (c : laplace_reference_candidate) (r : laplace_reference_record) : Prop :=
  candidate r = c /\ record_coordinate r = coordinate_of (key c) /\
  occurrence_id r = identify_occurrence c /\ record_reserved r = 0.
End Specification.

(** ** The first loop *)
Section FirstLoop.
Context {B : Blake3}.
Variable kinds : list laplace_highway_kind_contract_row.

Lemma calculate_cases k o :
  (exists s c, laplace_highway_coordinate_calculate kinds (Some k) (Some o) = (s, Some c) /\
     s <> LAPLACE_HIGHWAY_OK /\
     ~ (validate_key kinds (Some k) = LAPLACE_HIGHWAY_OK /\ coordinate_zero k = false)) \/
  (laplace_highway_coordinate_calculate kinds (Some k) (Some o) =
     (LAPLACE_HIGHWAY_OK, Some (coordinate_of k)) /\
   validate_key kinds (Some k) = LAPLACE_HIGHWAY_OK /\ coordinate_zero k = false).
Proof.
  destruct (validate_key kinds (Some k)) eqn:Ev.
  { rewrite (calculate_valid kinds k o Ev). destruct (coordinate_zero k) eqn:Ez.
    - left. eexists _, _; split_and!; [reflexivity|done|by intros [_ ?]].
    - by right. }
  all: left; eexists _, o; split_and!;
    [unfold laplace_highway_coordinate_calculate; rewrite Ev; reflexivity | done
    | by intros [? _]].
Qed.

Lemma index_candidates_ok profile cs : forall i rs,
  (i + length cs <= length rs)%nat ->
  let '(st, _, _, rs') := index_candidates kinds profile cs i rs in
  (st = LAPLACE_REFERENCE_TOPOLOGY_OK <->
   Forall (candidate_accepted kinds) cs /\
   Forall (fun c => profile = source_profile_id c) (drop (1 - i) cs)) /\
  (st = LAPLACE_REFERENCE_TOPOLOGY_OK ->
   exists fs, Forall2 filled cs fs /\ rs' = take i rs ++ fs ++ drop (i + length cs) rs).
Proof.
  induction cs as [|c cs IH]; intros i rs Hlen; cbn [index_candidates].
  { split; [by destruct i as [|[|]]|]. exists []. split; [constructor|]. simpl.
    by rewrite Nat.add_0_r, take_drop. }
  simpl in Hlen. pose proof (Forall_cons (candidate_accepted kinds) c cs) as Hcons.
  destruct (candidate_valid c) eqn:Ev; cbn [negb].
  2:{ split; [|done]. split; [done|]. rewrite Hcons. intros [[(H & _) _] _]. congruence. }
  destruct (lookup_lt_is_Some_2 rs i) as [r Hr]; [lia|]. rewrite Hr.
  cbn [fmap option_fmap option_map].
  destruct (calculate_cases (key c) (record_coordinate r))
    as [(s & co & -> & Hs & Hbad) | (-> & Hk & Hz)].
  { destruct s; try done; (split; [|done]); (split; [done|]);
      rewrite Hcons; intros [[(_ & H) _] _]; by apply Hbad in H. }
  assert (Hsame : drop (1 - i) (c :: cs) = (if (i =? 0)%nat then [] else [c]) ++ cs)
    by (by destruct i).
  set (fill := fun r => mk_record _ _ _ _ _ _).
  destruct (negb (i =? 0)%nat && negb (bytes_equal profile (source_profile_id c))) eqn:Ep.
  { split; [|done]. split; [done|]. rewrite Hsame. intros [_ H].
    apply andb_true_iff in Ep as [E0 Ep]. apply negb_true_iff in E0, Ep. rewrite E0 in H.
    apply Forall_cons in H as [H _]. by apply bytes_equal_false in Ep. }
  specialize (IH (S i) (alter fill i rs) ltac:(rewrite length_alter; lia)).
  destruct (index_candidates kinds profile cs (S i) (alter fill i rs)) as [[[st x] y] rs'].
  destruct IH as [Hiff Hfs]. simpl (1 - S i)%nat in Hiff. rewrite drop_0 in Hiff. split.
  - rewrite Hiff, Hcons, Hsame, Forall_app. apply andb_false_iff in Ep.
    assert (Hp : Forall (fun c => profile = source_profile_id c)
                   (if (i =? 0)%nat then [] else [c])).
    { destruct (i =? 0)%nat; [done|]. constructor; [|done].
      destruct Ep as [?|Ep]; [done|]. by apply negb_false_iff, bytes_equal_spec in Ep. }
    unfold candidate_accepted at 2. tauto.
  - intros Hok. destruct (Hfs Hok) as (fs & HF & ->). exists (fill r :: fs).
    split; [constructor; [done|done]|].
    erewrite take_S_r by (rewrite list_lookup_alter_eq, Hr; reflexivity).
    rewrite take_alter_ge, drop_alter_lt by lia. rewrite <- app_assoc. simpl.
    by rewrite Nat.add_succ_r.
Qed.
End FirstLoop.

(** ** The second loop *)
Lemma key_compare_laws : CmpLaws key_compare_value.
Proof. apply _. Qed.
#[export] Existing Instance key_compare_laws.

Section SecondLoop.
Implicit Types (g : list reference_index) (rs : list laplace_reference_record).

Lemma length_dispose d g : forall rs, length (dispose_group d g rs) = length rs.
Proof.
  unfold dispose_group. induction g as [|item g IH]; intros rs; simpl; [done|].
  by rewrite IH, length_alter.
Qed.

Lemma dispose_other d g i : forall rs,
  i ∉ map index_input g -> dispose_group d g rs !! i = rs !! i.
Proof.
  unfold dispose_group. induction g as [|item g IH]; intros rs Hi; simpl in *; [done|].
  apply not_elem_of_cons in Hi as [Hne Hi]. rewrite IH by done.
  by rewrite list_lookup_alter_ne by done.
Qed.

Lemma dispose_member d g i r : forall rs,
  i ∈ map index_input g -> rs !! i = Some r ->
  dispose_group d g rs !! i = Some (set_disposition d r).
Proof.
  revert r. unfold dispose_group. induction g as [|item g IH]; intros r rs Hi Hr; simpl in *;
    [set_solver|].
  destruct (decide (i = index_input item)) as [->|Hne].
  - destruct (decide (index_input item ∈ map index_input g)) as [Hin|Hout].
    + rewrite (IH (set_disposition d r)); [done|done|].
      by rewrite list_lookup_alter_eq, Hr.
    + pose proof (dispose_other d g (index_input item)
        (alter (set_disposition d) (index_input item) rs) Hout) as Ho.
      unfold dispose_group in Ho. rewrite Ho. by rewrite list_lookup_alter_eq, Hr.
  - apply IH; [set_solver|]. by rewrite list_lookup_alter_ne by done.
Qed.

Definition group_of (g : list reference_index) : Z :=
  group_disposition (group_has LAPLACE_REFERENCE_RULE_PRESENT_DECLARATION g)
    (group_has LAPLACE_REFERENCE_RULE_RETIRED_DECLARATION g).

Definition group_conflict (g : list reference_index) : bool :=
  group_has LAPLACE_REFERENCE_RULE_PRESENT_DECLARATION g &&
  group_has LAPLACE_REFERENCE_RULE_RETIRED_DECLARATION g.

Lemma resolve_groups_spec gs : forall rs count,
  NoDup (concat (map (map index_input) gs)) ->
  let '(conflict, rs', count') := resolve_groups gs rs count in
  (conflict = None <-> Forall (fun g => group_conflict g = false) gs) /\
  (conflict = None ->
     count' = count + Z.of_nat (length gs) /\ length rs' = length rs /\
     (forall i, i ∉ concat (map (map index_input) gs) -> rs' !! i = rs !! i) /\
     (forall g i r, g ∈ gs -> i ∈ map index_input g -> rs !! i = Some r ->
        rs' !! i = Some (set_disposition (group_of g) r))).
Proof.
  induction gs as [|g gs IH]; intros rs count Hnd; cbn [resolve_groups].
  { split; [done|]. intros _. split_and!; [simpl; lia|done|done|set_solver]. }
  pose proof (Forall_cons (fun g => group_conflict g = false) g gs) as Hcons.
  fold (group_conflict g). destruct (group_conflict g) eqn:Eg.
  { split; [|done]. split; [done|]. rewrite Hcons. intros [? _]. congruence. }
  fold (group_of g). simpl in Hnd. apply NoDup_app in Hnd as (_ & Hdisj & Hnd).
  specialize (IH (dispose_group (group_of g) g rs) (count + 1) Hnd).
  destruct (resolve_groups gs _ (count + 1)) as [[conflict rs'] count'].
  destruct IH as [Hiff Hspec]. split; [rewrite Hiff, Hcons; naive_solver|].
  intros Hn. destruct (Hspec Hn) as (-> & Hlen & Hother & Hmember).
  rewrite length_dispose in Hlen. split_and!; [cbn [length]; lia | done | |].
  - intros i Hi. simpl in Hi. apply not_elem_of_app in Hi as [Hi1 Hi2].
    rewrite Hother by done. by apply dispose_other.
  - intros h i r Hh Hi Hr. apply elem_of_cons in Hh as [->|Hh].
    + rewrite (Hother i (Hdisj i Hi)). by apply dispose_member.
    + apply (Hmember h); [done|done|]. rewrite dispose_other; [done|].
      intros Hg. apply (Hdisj i Hg). rewrite list_elem_of_In.
      apply in_concat. exists (map index_input h). rewrite <- !list_elem_of_In.
      split; [|done]. by apply list_elem_of_fmap_2.
Qed.
End SecondLoop.

(** ** Groups of a batch *)
Section BatchGroups.
Variable cs : list laplace_reference_candidate.

Definition batch_groups : list (list reference_index) :=
  groups (length cs) (cmp_on index_key key_compare_value)
    (qsort reference_index_compare (reference_indexes cs)).

Lemma batch_groups_spec :
  concat batch_groups ≡ₚ reference_indexes cs /\
  Forall (fun g => exists x t, g = x :: t /\
    Forall (fun y => key_compare_value (index_key x) (index_key y) = Eq) t) batch_groups /\
  StronglySorted (fun g h => forall a b, a ∈ g -> b ∈ h ->
    key_compare_value (index_key a) (index_key b) <> Eq) batch_groups.
Proof.
  unfold batch_groups.
  destruct (groups_spec (cmp_on index_key key_compare_value)
    (cmp_on (fun a => Z.of_nat (index_input a)) Z.compare) (length cs)
    (qsort reference_index_compare (reference_indexes cs))) as (Hc & Hg & Hs).
  - rewrite length_qsort. unfold reference_indexes. by rewrite length_imap.
  - apply qsort_sorted. apply _.
  - split_and!; [|done|done]. rewrite Hc. apply qsort_perm.
Qed.

Lemma indexes_inputs : map index_input (reference_indexes cs) = seq 0 (length cs).
Proof.
  apply list_eq. intros i. unfold reference_indexes. rewrite list_lookup_fmap, list_lookup_imap.
  destruct (cs !! i) as [c|] eqn:E; simpl.
  - apply lookup_lt_Some in E. by rewrite lookup_seq_lt.
  - apply lookup_ge_None in E. by rewrite lookup_seq_ge.
Qed.

Lemma indexes_elem item :
  item ∈ reference_indexes cs <->
  exists i c, cs !! i = Some c /\ item = mk_reference_index (key c) i (rule_flags c).
Proof.
  unfold reference_indexes. rewrite elem_of_lookup_imap. naive_solver.
Qed.

Lemma batch_group_items g x :
  g ∈ batch_groups -> x ∈ g -> x ∈ reference_indexes cs.
Proof.
  intros Hg Hx. destruct batch_groups_spec as (Hc & _ & _). rewrite <- Hc.
  rewrite list_elem_of_In. apply in_concat. exists g. by rewrite <- !list_elem_of_In.
Qed.

Lemma batch_item_group x : x ∈ reference_indexes cs -> exists g, g ∈ batch_groups /\ x ∈ g.
Proof.
  destruct batch_groups_spec as (Hc & _ & _). rewrite <- Hc, list_elem_of_In, in_concat.
  intros (g & Hg & Hx). exists g. by rewrite !list_elem_of_In.
Qed.

Lemma batch_groups_inputs : NoDup (concat (map (map index_input) batch_groups)).
Proof.
  destruct batch_groups_spec as (Hc & _ & _). rewrite <- concat_map.
  rewrite (Permutation_map index_input Hc), indexes_inputs. apply NoDup_seq.
Qed.

(** Two items are in the same group exactly when their keys are the same. *)
Lemma batch_group_key g x y :
  g ∈ batch_groups -> x ∈ g -> y ∈ reference_indexes cs ->
  (y ∈ g <-> same_key (index_key x) (index_key y) = true).
Proof.
  intros Hg Hx Hy. destruct batch_groups_spec as (_ & Hin & Hout). unfold same_key.
  rewrite same_true. split.
  - intros Hyg. rewrite Forall_forall in Hin. destruct (Hin g Hg) as (h & t & -> & Ht).
    assert (Hh : forall z, z ∈ h :: t -> key_compare_value (index_key h) (index_key z) = Eq).
    { rewrite Forall_forall in Ht. intros z [->|Hz]%elem_of_cons; [apply cmp_refl, _|auto]. }
    eapply (cmp_eq_trans key_compare_value); [|by apply Hh].
    apply (cmp_eq_sym key_compare_value). by apply Hh.
  - intros Heq. destruct (batch_item_group y Hy) as (g' & Hg' & Hy').
    destruct (StronglySorted_trichotomy _ _ g g' Hout Hg Hg') as [->|[H|H]]; [done|..].
    + by apply H in Heq.
    + exfalso. apply (H y x Hy' Hx). by apply (cmp_eq_sym key_compare_value).
Qed.

Lemma group_has_declares flag g x :
  g ∈ batch_groups -> x ∈ g -> group_has flag g = declares flag cs (index_key x).
Proof.
  intros Hg Hx. apply eq_true_iff_eq. unfold group_has, declares.
  rewrite !existsb_exists. split.
  - intros (y & Hy%list_elem_of_In & Hf). pose proof (batch_group_items g y Hg Hy) as Hi.
    pose proof Hi as (i & c & Hc & ->)%indexes_elem. exists c. split.
    + apply list_elem_of_In. by eapply list_elem_of_lookup_2.
    + simpl in Hf. rewrite Hf, andb_true_r.
      by apply (batch_group_key g x _ Hg Hx Hi) in Hy.
  - intros (c & [i Hc]%list_elem_of_In%list_elem_of_lookup & [Hk Hf]%andb_true_iff).
    exists (mk_reference_index (key c) i (rule_flags c)). split; [|done].
    apply list_elem_of_In, (batch_group_key g x); [done|done| |done].
    apply indexes_elem. eauto.
Qed.
End BatchGroups.

(** ** Composition of the phases *)
Section Phases.
Context {B : Blake3}.
Variable cs : list laplace_reference_candidate.

Definition disposed (c : laplace_reference_candidate) (r : laplace_reference_record) : Prop :=
  filled c r /\ disposition r = disposition_of cs (key c).

Lemma group_conflicts :
  Forall (fun g => group_conflict g = false) (batch_groups cs) <->
  (forall c, c ∈ cs ->
    declares LAPLACE_REFERENCE_RULE_PRESENT_DECLARATION cs (key c) &&
    declares LAPLACE_REFERENCE_RULE_RETIRED_DECLARATION cs (key c) = false).
Proof.
  rewrite Forall_forall. unfold group_conflict. split.
  - intros H c [i Hc]%list_elem_of_lookup.
    destruct (batch_item_group cs (mk_reference_index (key c) i (rule_flags c))) as (g & Hg & Hx).
    { apply indexes_elem. eauto. }
    specialize (H g Hg). by rewrite !(group_has_declares cs _ _ _ Hg Hx) in H.
  - intros H g Hg. destruct (batch_groups_spec cs) as (_ & Hne & _).
    rewrite Forall_forall in Hne. destruct (Hne g Hg) as (x & t & -> & _).
    assert (Hx : x ∈ x :: t) by left.
    pose proof (batch_group_items cs _ _ Hg Hx) as (i & c & Hc & E)%indexes_elem.
    rewrite !(group_has_declares cs _ _ _ Hg Hx), E. simpl.
    apply H. by eapply list_elem_of_lookup_2.
Qed.

Lemma group_keys : exists ks,
  distinct_keys cs ks /\ length (batch_groups cs) = length ks.
Proof.
  destruct (batch_groups_spec cs) as (_ & Hne & Hsep).
  pose (k0 := mk_key 0 0 [] [] [] [] 0).
  exists (map (fun g => default k0 (index_key <$> head g)) (batch_groups cs)).
  split; [|by rewrite length_map]. rewrite Forall_forall in Hne.
  assert (Hhead : forall g, g ∈ batch_groups cs -> exists x, x ∈ g /\
            default k0 (index_key <$> head g) = index_key x).
  { intros g Hg. destruct (Hne g Hg) as (x & t & -> & _). exists x. split; [left|done]. }
  split_and!.
  - apply (StronglySorted_map _ _ _ _ Hsep). intros g h Hg Hh Hgh. apply not_true_iff_false.
    unfold same_key. rewrite same_true.
    destruct (Hhead g Hg) as (x & Hx & ->), (Hhead h Hh) as (y & Hy & ->). by apply Hgh.
  - intros k (g & -> & Hg)%list_elem_of_fmap. destruct (Hhead g Hg) as (x & Hx & ->).
    pose proof (batch_group_items cs _ _ Hg Hx) as (i & c & Hc & ->)%indexes_elem.
    exists c. split; [by eapply list_elem_of_lookup_2 | done].
  - intros c [i Hc]%list_elem_of_lookup.
    destruct (batch_item_group cs (mk_reference_index (key c) i (rule_flags c)))
      as (g & Hg & Hy); [apply indexes_elem; eauto|].
    destruct (Hhead g Hg) as (x & Hx & Hk). exists (index_key x). split.
    + rewrite <- Hk. by apply (list_elem_of_fmap_2 (fun g => default k0 (index_key <$> head g))).
    + apply (batch_group_key cs g x _ Hg Hx) in Hy; [done|]. apply indexes_elem. eauto.
Qed.

Lemma second_loop fs tl :
  Forall2 filled cs fs ->
  let '(conflict, rs, count) := resolve_groups (batch_groups cs) (fs ++ tl) 0 in
  (conflict = None <-> Forall (fun g => group_conflict g = false) (batch_groups cs)) /\
  (conflict = None ->
     count = Z.of_nat (length (batch_groups cs)) /\
     exists fs', Forall2 disposed cs fs' /\ rs = fs' ++ tl).
Proof.
  intros HF. pose proof (Forall2_length _ _ _ HF) as Hlen.
  pose proof (resolve_groups_spec (batch_groups cs) (fs ++ tl) 0 (batch_groups_inputs cs)) as H.
  destruct (resolve_groups (batch_groups cs) (fs ++ tl) 0) as [[conflict rs] count].
  destruct H as [Hiff Hspec]. split; [done|]. intros Hn.
  destruct (Hspec Hn) as (-> & Hl & Hother & Hmember). split; [done|].
  exists (take (length cs) rs). split.
  - apply Forall2_same_length_lookup_2.
    { rewrite length_take, Hl, length_app. lia. }
    intros i c r Hc Hr.
    assert (Hi : (i < length cs)%nat) by by eapply lookup_lt_Some.
    rewrite lookup_take_lt in Hr by done.
    destruct (lookup_lt_is_Some_2 fs i) as [f Hf]; [lia|].
    assert (Hx : mk_reference_index (key c) i (rule_flags c) ∈ reference_indexes cs).
    { apply indexes_elem. eauto. }
    destruct (batch_item_group cs _ Hx) as (g & Hg & Hxg).
    rewrite (Hmember g i f) in Hr; [| done | | by rewrite lookup_app_l by lia].
    2:{ apply list_elem_of_fmap. by eexists; split; [|exact Hxg]. }
    injection Hr as <-. destruct (Forall2_lookup_lr _ _ _ _ _ _ HF Hc Hf) as (? & ? & ? & ?).
    split; [by split_and!|]. simpl. unfold group_of, group_disposition, disposition_of.
    by rewrite !(group_has_declares cs _ _ _ Hg Hxg).
  - rewrite <- (take_drop (length cs) rs) at 1. f_equal. apply list_eq. intros i.
    rewrite lookup_drop, Hother; [by rewrite lookup_app_r, Hlen, Nat.add_comm, Nat.add_sub
      by lia|].
    rewrite <- concat_map. intros Hin. destruct (batch_groups_spec cs) as (Hc & _ & _).
    rewrite Hc, indexes_inputs in Hin. apply elem_of_seq in Hin. lia.
Qed.
End Phases.

Section Verdicts.
Context {B : Blake3}.
Variable kinds : list laplace_highway_kind_contract_row.
Variable cs : list laplace_reference_candidate.

Lemma disposed_collision fs :
  Forall2 (disposed cs) cs fs ->
  find_collision (coordinate_indexes fs) = None <->
  (forall a b, a ∈ cs -> b ∈ cs ->
     coordinate (coordinate_of (key a)) = coordinate (coordinate_of (key b)) ->
     collision_fingerprint (coordinate_of (key a)) =
       collision_fingerprint (coordinate_of (key b))).
Proof.
  intros HF. unfold find_collision, coordinate_index_compare.
  rewrite (collision_scan index_coordinate _ index_fingerprint).
  assert (Helem : forall x, x ∈ coordinate_indexes fs <-> exists i c, cs !! i = Some c /\
    x = mk_coordinate_index (coordinate (coordinate_of (key c)))
          (collision_fingerprint (coordinate_of (key c))) i).
  { intros x. unfold coordinate_indexes. rewrite elem_of_lookup_imap. split.
    - intros (i & r & -> & Hr). destruct (Forall2_lookup_r _ _ _ _ _ HF Hr) as (c & Hc & H).
      exists i, c. destruct H as [(_ & -> & _) _]. done.
    - intros (i & c & Hc & ->). destruct (Forall2_lookup_l _ _ _ _ _ HF Hc) as (r & Hr & H).
      exists i, r. destruct H as [(_ & -> & _) _]. done. }
  split.
  - intros H a b [i Ha]%list_elem_of_lookup [j Hb]%list_elem_of_lookup Heq.
    pose (ix k c := mk_coordinate_index (coordinate (coordinate_of (key c)))
                      (collision_fingerprint (coordinate_of (key c))) k).
    refine (H (ix i a) (ix j b) _ _ Heq); apply Helem; eauto.
  - intros H x y (i & a & Ha & ->)%Helem (j & b & Hb & ->)%Helem Heq.
    apply H; [by eapply list_elem_of_lookup_2..|done].
Qed.

Lemma disposed_duplicate fs :
  Forall2 (disposed cs) cs fs ->
  find_duplicate (occurrence_indexes fs) = None <-> NoDup (map identify_occurrence cs).
Proof.
  intros HF. unfold find_duplicate, occurrence_index_compare. rewrite (duplicate_scan index_occurrence _).
  replace (map index_occurrence (occurrence_indexes fs)) with (map identify_occurrence cs);
    [done|].
  apply list_eq. intros i. unfold occurrence_indexes.
  rewrite !list_lookup_fmap, list_lookup_imap.
  pose proof (Forall2_lookup (disposed cs) cs fs) as [H _]. specialize (H HF i).
  destruct H as [c r [(_ & _ & Ho & _) _]|]; simpl; [by rewrite Ho | done].
Qed.

Lemma disposed_identified fs :
  Forall2 (disposed cs) cs fs -> map identify_record fs = map (resolved cs) cs.
Proof.
  intros HF. apply list_eq. intros i. rewrite !list_lookup_fmap.
  pose proof (Forall2_lookup (disposed cs) cs fs) as [H _]. specialize (H HF i).
  destruct H as [c r [(Hc & Hco & Ho & Hr) Hd]|]; simpl; [|done].
  unfold resolved, identify_record. destruct r; simpl in *. by subst.
Qed.

Lemma same_profiles :
  (cs <> [] -> Forall (fun c => default [] (source_profile_id <$> head cs) = source_profile_id c)
                 (drop 1 cs)) <->
  (forall a b, a ∈ cs -> b ∈ cs -> source_profile_id a = source_profile_id b).
Proof.
  destruct cs as [|c0 rest]; simpl; [split; [set_solver|done]|]. rewrite drop_0. split.
  - intros H. specialize (H ltac:(done)). rewrite Forall_forall in H.
    assert (Hc : forall a, a ∈ c0 :: rest -> source_profile_id a = source_profile_id c0).
    { intros a [->|Ha]%elem_of_cons; [done|]. symmetry. by apply H. }
    intros a b Ha Hb. by rewrite (Hc a), (Hc b).
  - intros H _. apply Forall_forall. intros c Hc. apply H; [left | by right].
Qed.
End Verdicts.

(** What an accepted batch returns. *)
Definition topology_result {B : Blake3} (cs : list laplace_reference_candidate)
    (r : laplace_reference_topology_receipt) : Prop :=
  let count d := Z.of_nat (length (filter (fun c => disposition_of cs (key c) = d) cs)) in
  exists ks, distinct_keys cs ks /\ coordinate_count r = Z.of_nat (length ks) /\
    occurrence_count r = Z.of_nat (length cs) /\
    present_count r = count LAPLACE_REFERENCE_DISPOSITION_PRESENT /\
    retired_count r = count LAPLACE_REFERENCE_DISPOSITION_RETIRED /\
    unresolved_count r = count LAPLACE_REFERENCE_DISPOSITION_UNRESOLVED /\
    Forall (fun c => receipt_source_profile_id r = source_profile_id c) cs /\
    receipt_id r = blake3_hasher_finalize (hash_receipt r).

Section Counting.
Context {B : Blake3}.

Lemma count_disposition_filter cs d :
  count_disposition d (map (resolved cs) cs) =
  Z.of_nat (length (filter (fun c => disposition_of cs (key c) = d) cs)).
Proof.
  enough (forall l n, foldl (fun count r => if disposition r =? d then count + 1 else count) n
            (map (resolved cs) l) =
          n + Z.of_nat (length (filter (fun c => disposition_of cs (key c) = d) l))) as H
    by apply (H cs 0).
  induction l as [|c l IH]; intros n; cbn [map foldl]; [simpl; lia|].
  rewrite IH, filter_cons. cbn [disposition resolved identify_record].
  destruct (decide (disposition_of cs (key c) = d)) as [E|E].
  - rewrite (proj2 (Z.eqb_eq _ _) E). simpl. lia.
  - by rewrite (proj2 (Z.eqb_neq _ _) E).
Qed.

Lemma disposition_cases cs k :
  disposition_of cs k = 1 \/ disposition_of cs k = 2 \/ disposition_of cs k = 6.
Proof. unfold disposition_of. repeat casec; auto. Qed.

Lemma count_other_filter cs :
  count_other (map (resolved cs) cs) =
  Z.of_nat (length (filter (fun c => disposition_of cs (key c) = 6) cs)).
Proof.
  rewrite <- count_disposition_filter. unfold count_other, count_disposition.
  enough (forall l n,
    foldl (fun count r => if (disposition r =? 1) || (disposition r =? 2) then count
                          else count + 1) n (map (resolved cs) l) =
    foldl (fun count r => if disposition r =? 6 then count + 1 else count) n
      (map (resolved cs) l)) as H by apply H.
  induction l as [|c l IH]; intros n; cbn [map foldl]; [done|].
  rewrite IH. cbn [disposition resolved identify_record].
  by destruct (disposition_cases cs (key c)) as [-> | [-> | ->]].
Qed.
End Counting.

Section Resolution.
Context {B : Blake3}.
Variable kinds : list laplace_highway_kind_contract_row.

Lemma final_receipt_result cs ks coordinates :
  cs <> [] -> distinct_keys cs ks -> coordinates = Z.of_nat (length ks) ->
  (forall a b, a ∈ cs -> b ∈ cs -> source_profile_id a = source_profile_id b) ->
  topology_result cs
    (final_receipt (default [] (source_profile_id <$> head cs)) cs (map (resolved cs) cs)
       coordinates).
Proof.
  intros Hne Hks -> Hp. exists ks. cbv zeta. unfold final_receipt.
  rewrite !count_disposition_filter, count_other_filter.
  split_and!; try done.
  destruct cs as [|c0 rest]; [done|]. apply Forall_forall. intros c Hc. simpl.
  apply Hp; [left | done].
Qed.

Lemma resolve_candidates_exact cs rs error :
  cs <> [] -> (length cs <= length rs)%nat ->
  let '(status, records, receipt, _) := resolve_candidates kinds cs rs error in
  (status = LAPLACE_REFERENCE_TOPOLOGY_OK <-> accepted kinds cs) /\
  (status = LAPLACE_REFERENCE_TOPOLOGY_OK ->
     records = map (resolved cs) cs ++ drop (length cs) rs /\ topology_result cs receipt).
Proof.
  intros Hne Hlen. unfold resolve_candidates.
  pose proof (index_candidates_ok kinds (default [] (source_profile_id <$> head cs)) cs 0 rs
                Hlen) as H1.
  destruct (index_candidates kinds _ cs 0 rs) as [[[st ix] fd] rs1].
  destruct H1 as [Hok1 Hfs]. pose proof (same_profiles cs) as Hprof.
  destruct st; try (split; [|done]; split; [done|]; intros [Ha Hp _ _ _];
    apply Hok1; split; [done | by apply Hprof]).
  destruct (Hfs eq_refl) as (fs & HF & ->). destruct Hok1 as [Hok1 _].
  destruct (Hok1 eq_refl) as [Hacc Hp1]. clear Hok1 Hfs.
  assert (Hp : forall a b, a ∈ cs -> b ∈ cs -> source_profile_id a = source_profile_id b)
    by (by apply Hprof).
  rewrite take_0, app_nil_l, Nat.add_0_l. fold (batch_groups cs).
  pose proof (second_loop cs fs (drop (length cs) rs) HF) as H2.
  destruct (resolve_groups (batch_groups cs) _ 0) as [[conflict rs2] count].
  destruct H2 as [Hok2 Hfs]. rewrite group_conflicts in Hok2.
  destruct conflict; [split; [|done]; split; [done|]; intros [_ _ Hc _ _]; by apply Hok2 in Hc|].
  destruct (Hfs eq_refl) as (-> & fs2 & HD & ->).
  assert (Hl2 : length fs2 = length cs) by (by apply Forall2_length in HD).
  rewrite take_app_length', drop_app_length' by done.
  destruct (find_collision (coordinate_indexes fs2)) eqn:Ecol.
  { split; [|done]. split; [done|]. intros [_ _ _ Hc _].
    apply (disposed_collision cs fs2 HD) in Hc. congruence. }
  destruct (find_duplicate (occurrence_indexes fs2)) eqn:Edup.
  { split; [|done]. split; [done|]. intros [_ _ _ _ Hd].
    apply (disposed_duplicate cs fs2 HD) in Hd. congruence. }
  rewrite (disposed_identified cs fs2 HD). split.
  - split; [|done]. intros _. split; [done | done | by apply Hok2 | |].
    + by apply (disposed_collision cs fs2 HD).
    + by apply (disposed_duplicate cs fs2 HD).
  - intros _. split; [done|]. destruct (group_keys cs) as (ks & Hks & Hlk).
    apply (final_receipt_result cs ks); [done|done|by rewrite Hlk|done].
Qed.
End Resolution.

(** C25: resolution of a batch is exact.  It succeeds if and only if every
    candidate is valid with a non-zero coordinate, all share one source
    profile, no scoped key is declared both present and retired, no two keys
    share a coordinate with different fingerprints, and no occurrence repeats.
    Then the records are the candidates in input order, each with the
    coordinate of its key and the disposition its key has in the whole batch
    (present if declared present anywhere, else retired if declared retired,
    else unresolved), nothing else is written, and the receipt counts distinct
    keys and dispositions. *)
Theorem resolve_batch_exact {B : Blake3} kinds cs rs n receipt error :
  n = Z.of_nat (length cs) -> 1 <= n <= SIZE_MAX / 96 -> (length cs <= length rs)%nat ->
  let '(status, records', receipt', _) :=
    laplace_reference_topology_resolve_batch kinds true (Some cs) n (Some rs) (Some receipt)
      error in
  (status = LAPLACE_REFERENCE_TOPOLOGY_OK <-> accepted kinds cs) /\
  (status = LAPLACE_REFERENCE_TOPOLOGY_OK ->
     records' = Some (map (resolved cs) cs ++ drop (length cs) rs) /\
     exists r, receipt' = Some r /\ topology_result cs r).
Proof.
  intros -> Hn Hlen. unfold laplace_reference_topology_resolve_batch. ptrs.
  rewrite (proj2 (Z.eqb_neq _ _)), (proj2 (Z.ltb_ge _ _)) by lia. cbn [orb].
  rewrite cells_all by done. change (default [] (Some rs)) with rs.
  assert (Hne : cs <> []) by (intros ->; simpl in Hn; lia).
  pose proof (resolve_candidates_exact kinds cs rs error Hne Hlen) as H.
  destruct (resolve_candidates kinds cs rs error) as [[[st rs'] r] e].
  destruct H as [Hiff Hres]. split; [done|]. intros Hst. destruct (Hres Hst) as [-> Hr].
  split; [done|]. by exists r.
Qed.

(** A batch of an endpoint and its declaration, and an undeclared endpoint. *)
Definition sample_candidate (local flags row : Z) : laplace_reference_candidate :=
  mk_candidate (replicate 32 1)
    (mk_key 3 0 (replicate 16 1) (replicate 16 2) (replicate 16 3) (replicate 16 local) 1)
    (replicate 16 5) (replicate 16 6) (replicate 16 local) 1 0 row 1 flags 0.
Definition sample_batch : list laplace_reference_candidate :=
  [sample_candidate 4 1 1; sample_candidate 4 3 2; sample_candidate 9 1 3].
Definition sample_records : list laplace_reference_record :=
  map (fun c => mk_record c zero_coordinate (zeros 32) (zeros 32) 0 0) sample_batch.

Lemma sample_batch_ok :
  (laplace_reference_topology_resolve_batch (B := checksum_blake3) sample_kinds true
     (Some sample_batch) 3 (Some sample_records) (Some (failed_receipt 0)) None).1.1.1 =
  LAPLACE_REFERENCE_TOPOLOGY_OK.
Proof. vm_compute. reflexivity. Qed.

Lemma resolve_batch_exact_witness :
  let '(status, records, _, _) :=
    laplace_reference_topology_resolve_batch (B := checksum_blake3) sample_kinds true
      (Some sample_batch) 3 (Some sample_records) (Some (failed_receipt 0)) None in
  status = LAPLACE_REFERENCE_TOPOLOGY_OK /\
  map disposition (default [] records) = [1; 1; 6].
Proof.
  pose proof (resolve_batch_exact (B := checksum_blake3) sample_kinds sample_batch
    sample_records 3 (failed_receipt 0) None eq_refl ltac:(vm_compute; split; discriminate)
    ltac:(simpl; lia)) as H.
  pose proof sample_batch_ok as Hok.
  destruct (laplace_reference_topology_resolve_batch _ _ _ _ _ _ _) as [[[st rs] r] e].
  cbn [fst snd] in Hok. subst st.
  destruct H as [_ H]. destruct (H eq_refl) as [-> _]. split; [reflexivity|].
  vm_compute. reflexivity.
Defined.
