(* ===== verification/ReferenceMapping.v ===== *)
(** * Reference mappings: propositions between resolved references

    Models [engine/src/reference_mapping.c] and
    [engine/include/laplace/reference_mapping.h]: validation of mapping
    candidates, the disposition of a mapping from those of its endpoints, the
    proposition identity with its canonical orientation of symmetric mappings,
    occurrence and record identities, the batch with its duplicate and collision
    scans, the count of distinct propositions and the receipt.

    [allocated] is the outcome of the three [calloc] calls. *)
From stdpp Require Import prelude strings sorting.
From Stdlib Require Import ZArith Lia.
From S2P Require Import Prelude Bytes Sorting Hash Identity Highway.

(** ** Contract constants ([contracts/reference-mapping.json] and
    [contracts/reference-topology.json]) *)
Abbreviation LAPLACE_REFERENCE_MAPPING_VERSION := 1 (only parsing).
Abbreviation LAPLACE_REFERENCE_MAPPING_FLAG_DIRECTED := 1 (only parsing).
Abbreviation LAPLACE_REFERENCE_MAPPING_FLAG_SYMMETRIC := 2 (only parsing).
Abbreviation LAPLACE_REFERENCE_MAPPING_FLAG_KNOWN_MASK := 3 (only parsing).
Abbreviation LAPLACE_REFERENCE_MAPPING_DISPOSITION_RESOLVED := 1 (only parsing).
Abbreviation LAPLACE_REFERENCE_MAPPING_DISPOSITION_LEFT_UNRESOLVED := 2 (only parsing).
Abbreviation LAPLACE_REFERENCE_MAPPING_DISPOSITION_RIGHT_UNRESOLVED := 3 (only parsing).
Abbreviation LAPLACE_REFERENCE_MAPPING_DISPOSITION_BOTH_UNRESOLVED := 4 (only parsing).
Abbreviation LAPLACE_REFERENCE_MAPPING_DISPOSITION_RETIRED_ENDPOINT := 5 (only parsing).
Abbreviation LAPLACE_REFERENCE_DISPOSITION_PRESENT := 1 (only parsing).
Abbreviation LAPLACE_REFERENCE_DISPOSITION_RETIRED := 2 (only parsing).
Abbreviation LAPLACE_REFERENCE_DISPOSITION_UNRESOLVED := 6 (only parsing).
Abbreviation MAPPING_FIELD_NONE := 0 (only parsing).
Abbreviation MAPPING_FIELD_RECORD := 1 (only parsing).
Abbreviation MAPPING_FIELD_BOUNDARY := 2 (only parsing).
Abbreviation MAPPING_FIELD_OCCURRENCE := 3 (only parsing).
Abbreviation MAPPING_FIELD_COORDINATE := 4 (only parsing).

(** ** Data *)
Record laplace_reference_mapping_candidate := mk_candidate {
  boundary_id : laplace_digest256;
  source_profile_id : laplace_digest256;
  left_reference_id : laplace_digest256;
  right_reference_id : laplace_digest256;
  left_coordinate : laplace_highway_coordinate;
  right_coordinate : laplace_highway_coordinate;
  relation_id : laplace_id128;
  row_entity_id : laplace_id128;
  left_field_entity_id : laplace_id128;
  left_value_entity_id : laplace_id128;
  right_field_entity_id : laplace_id128;
  right_value_entity_id : laplace_id128;
  source_ordinal : Z;
  artifact_ordinal : Z;
  row_ordinal : Z;
  relation_version : Z;
  relation_kind : Z;
  flags : Z;
  left_disposition : Z;
  right_disposition : Z }.

Record laplace_reference_mapping_record := mk_record {
  candidate : laplace_reference_mapping_candidate;
  proposition_id : laplace_digest256;
  occurrence_id : laplace_digest256;
  mapping_id : laplace_digest256;
  disposition : Z;
  record_reserved : Z }.

Record laplace_reference_mapping_receipt := mk_receipt {
  receipt_id : laplace_digest256;
  receipt_boundary_id : laplace_digest256;
  input_fingerprint : laplace_digest256;
  output_fingerprint : laplace_digest256;
  occurrence_count : Z;
  proposition_count : Z;
  resolved_count : Z;
  unresolved_count : Z;
  retired_count : Z;
  version : Z;
  receipt_status : Z }.

Record laplace_reference_mapping_error := mk_error {
  record_index : Z;
  field : Z;
  error_reserved : Z }.

Inductive laplace_reference_mapping_status :=
| LAPLACE_REFERENCE_MAPPING_OK
| LAPLACE_REFERENCE_MAPPING_INVALID_ARGUMENT
| LAPLACE_REFERENCE_MAPPING_RECORD_INVALID
| LAPLACE_REFERENCE_MAPPING_BOUNDARY_MISMATCH
| LAPLACE_REFERENCE_MAPPING_DUPLICATE_OCCURRENCE
| LAPLACE_REFERENCE_MAPPING_COORDINATE_COLLISION
| LAPLACE_REFERENCE_MAPPING_MEMORY_FAILURE
| LAPLACE_REFERENCE_MAPPING_OVERFLOW.

Record digest_index := mk_digest_index {
  digest : laplace_digest256;
  digest_input : nat }.

Record coordinate_index := mk_coordinate_index {
  index_coordinate : laplace_id128;
  index_fingerprint : laplace_digest256;
  coordinate_input : nat }.

(** ** Comparators and validation *)
Definition digest_compare : digest_index -> digest_index -> comparison :=
  cmp_then (cmp_on digest memcmp) (cmp_on (fun a => Z.of_nat (digest_input a)) Z.compare).

Definition coordinate_compare : coordinate_index -> coordinate_index -> comparison :=
  cmp_then (cmp_on index_coordinate memcmp)
    (cmp_then (cmp_on index_fingerprint memcmp)
       (cmp_on (fun a => Z.of_nat (coordinate_input a)) Z.compare)).

Definition coordinate_value_compare
    : laplace_highway_coordinate -> laplace_highway_coordinate -> comparison :=
  cmp_then (cmp_on coordinate memcmp) (cmp_on collision_fingerprint memcmp).

Definition disposition_valid (value : Z) : bool :=
  (value =? LAPLACE_REFERENCE_DISPOSITION_PRESENT) ||
  (value =? LAPLACE_REFERENCE_DISPOSITION_RETIRED) ||
  (value =? LAPLACE_REFERENCE_DISPOSITION_UNRESOLVED).

Definition coordinate_valid (c : laplace_highway_coordinate) : bool :=
  negb (bytes_zero (coordinate c)) && negb (bytes_zero (collision_fingerprint c)) &&
  negb (coordinate_kind c =? 0) && (coordinate_reserved c =? 0) &&
  negb (coordinate_version c =? 0).

Definition candidate_valid (v : laplace_reference_mapping_candidate) : bool :=
  let direction := Z.land (flags v) LAPLACE_REFERENCE_MAPPING_FLAG_KNOWN_MASK in
  negb (bytes_zero (boundary_id v)) && negb (bytes_zero (source_profile_id v)) &&
  negb (bytes_zero (left_reference_id v)) && negb (bytes_zero (right_reference_id v)) &&
  coordinate_valid (left_coordinate v) && coordinate_valid (right_coordinate v) &&
  negb (bytes_zero (relation_id v)) && negb (bytes_zero (row_entity_id v)) &&
  negb (bytes_zero (left_field_entity_id v)) && negb (bytes_zero (left_value_entity_id v)) &&
  negb (bytes_zero (right_field_entity_id v)) &&
  negb (bytes_zero (right_value_entity_id v)) &&
  negb (source_ordinal v =? 0) && negb (artifact_ordinal v =? 0) &&
  negb (row_ordinal v =? 0) && negb (relation_version v =? 0) &&
  negb (relation_kind v =? 0) &&
  (Z.land (flags v) (Z.lnot LAPLACE_REFERENCE_MAPPING_FLAG_KNOWN_MASK) =? 0) &&
  ((direction =? LAPLACE_REFERENCE_MAPPING_FLAG_DIRECTED) ||
   (direction =? LAPLACE_REFERENCE_MAPPING_FLAG_SYMMETRIC)) &&
  disposition_valid (left_disposition v) && disposition_valid (right_disposition v).

Definition resolve_disposition (v : laplace_reference_mapping_candidate) : Z :=
  return_when (left_disposition v =? LAPLACE_REFERENCE_DISPOSITION_RETIRED) ||
              (right_disposition v =? LAPLACE_REFERENCE_DISPOSITION_RETIRED)
    with LAPLACE_REFERENCE_MAPPING_DISPOSITION_RETIRED_ENDPOINT ;;
  let left_unresolved := left_disposition v =? LAPLACE_REFERENCE_DISPOSITION_UNRESOLVED in
  let right_unresolved := right_disposition v =? LAPLACE_REFERENCE_DISPOSITION_UNRESOLVED in
  return_when left_unresolved && right_unresolved
    with LAPLACE_REFERENCE_MAPPING_DISPOSITION_BOTH_UNRESOLVED ;;
  return_when left_unresolved with LAPLACE_REFERENCE_MAPPING_DISPOSITION_LEFT_UNRESOLVED ;;
  return_when right_unresolved with LAPLACE_REFERENCE_MAPPING_DISPOSITION_RIGHT_UNRESOLVED ;;
  LAPLACE_REFERENCE_MAPPING_DISPOSITION_RESOLVED.

(** The two coordinates in the order the proposition is hashed. *)
Definition oriented (v : laplace_reference_mapping_candidate)
    : laplace_highway_coordinate * laplace_highway_coordinate :=
  let l := left_coordinate v in
  let r := right_coordinate v in
  if negb (Z.land (flags v) LAPLACE_REFERENCE_MAPPING_FLAG_SYMMETRIC =? 0) &&
     match coordinate_value_compare l r with Gt => true | _ => false end
  then (r, l) else (l, r).

Section Mapping.
Context {B : Blake3}.

Definition hash_coordinate (hasher : blake3_hasher) (c : laplace_highway_coordinate)
    : blake3_hasher :=
  let hasher := blake3_hasher_update hasher (coordinate c) in
  let hasher := blake3_hasher_update hasher (collision_fingerprint c) in
  let hasher := hash_u32 hasher (coordinate_kind c) in
  hash_u64 hasher (coordinate_version c).

Definition hash_candidate (hasher : blake3_hasher) (v : laplace_reference_mapping_candidate)
    : blake3_hasher :=
  let hasher := blake3_hasher_update hasher (boundary_id v) in
  let hasher := blake3_hasher_update hasher (source_profile_id v) in
  let hasher := blake3_hasher_update hasher (left_reference_id v) in
  let hasher := blake3_hasher_update hasher (right_reference_id v) in
  let hasher := hash_coordinate hasher (left_coordinate v) in
  let hasher := hash_coordinate hasher (right_coordinate v) in
  let hasher := blake3_hasher_update hasher (relation_id v) in
  let hasher := blake3_hasher_update hasher (row_entity_id v) in
  let hasher := blake3_hasher_update hasher (left_field_entity_id v) in
  let hasher := blake3_hasher_update hasher (left_value_entity_id v) in
  let hasher := blake3_hasher_update hasher (right_field_entity_id v) in
  let hasher := blake3_hasher_update hasher (right_value_entity_id v) in
  let hasher := hash_u64 hasher (source_ordinal v) in
  let hasher := hash_u64 hasher (artifact_ordinal v) in
  let hasher := hash_u64 hasher (row_ordinal v) in
  let hasher := hash_u64 hasher (relation_version v) in
  let hasher := hash_u32 hasher (relation_kind v) in
  let hasher := hash_u32 hasher (flags v) in
  let hasher := hash_u32 hasher (left_disposition v) in
  hash_u32 hasher (right_disposition v).

Definition identify_proposition (v : laplace_reference_mapping_candidate)
    : laplace_digest256 :=
  let '(l, r) := oriented v in
  let hasher := blake3_hasher_update blake3_hasher_init
                  (domain_bytes "laplace-reference-mapping-proposition-v1") in
  let hasher := hash_u32 hasher (relation_kind v) in
  let hasher := hash_u64 hasher (relation_version v) in
  let hasher := blake3_hasher_update hasher (relation_id v) in
  let hasher := hash_u32 hasher (flags v) in
  let hasher := hash_coordinate hasher l in
  blake3_hasher_finalize (hash_coordinate hasher r).

Definition identify_occurrence (v : laplace_reference_mapping_candidate)
    : laplace_digest256 :=
  let hasher := blake3_hasher_update blake3_hasher_init
                  (domain_bytes "laplace-reference-mapping-occurrence-v1") in
  let hasher := blake3_hasher_update hasher (source_profile_id v) in
  let hasher := blake3_hasher_update hasher (row_entity_id v) in
  let hasher := blake3_hasher_update hasher (left_field_entity_id v) in
  let hasher := blake3_hasher_update hasher (left_value_entity_id v) in
  let hasher := blake3_hasher_update hasher (right_field_entity_id v) in
  let hasher := blake3_hasher_update hasher (right_value_entity_id v) in
  let hasher := hash_u64 hasher (source_ordinal v) in
  let hasher := hash_u64 hasher (artifact_ordinal v) in
  blake3_hasher_finalize (hash_u64 hasher (row_ordinal v)).

Definition identify_record (r : laplace_reference_mapping_record)
    : laplace_reference_mapping_record :=
  let hasher := blake3_hasher_update blake3_hasher_init
                  (domain_bytes "laplace-reference-mapping-record-v1") in
  let hasher := blake3_hasher_update hasher (proposition_id r) in
  let hasher := blake3_hasher_update hasher (occurrence_id r) in
  let hasher := blake3_hasher_update hasher (left_reference_id (candidate r)) in
  let hasher := blake3_hasher_update hasher (right_reference_id (candidate r)) in
  let hasher := hash_u32 hasher (disposition r) in
  mk_record (candidate r) (proposition_id r) (occurrence_id r)
    (blake3_hasher_finalize hasher) (disposition r) (record_reserved r).

(** The record the first loop writes for a valid candidate. *)
Definition mapping_record (v : laplace_reference_mapping_candidate)
    : laplace_reference_mapping_record :=
  identify_record
    (mk_record v (identify_proposition v) (identify_occurrence v) [] (resolve_disposition v) 0).

Fixpoint index_candidates (boundary : laplace_digest256)
    (candidates : list laplace_reference_mapping_candidate) (index : nat)
    (records : list laplace_reference_mapping_record)
    : laplace_reference_mapping_status * Z * Z * list laplace_reference_mapping_record :=
  match candidates with
  | [] => (LAPLACE_REFERENCE_MAPPING_OK, UINT64_MAX, MAPPING_FIELD_NONE, records)
  | v :: rest =>
      return_when negb (candidate_valid v)
        with (LAPLACE_REFERENCE_MAPPING_RECORD_INVALID, Z.of_nat index, MAPPING_FIELD_RECORD,
              records) ;;
      return_when negb (index =? 0)%nat && negb (bytes_equal boundary (boundary_id v))
        with (LAPLACE_REFERENCE_MAPPING_BOUNDARY_MISMATCH, Z.of_nat index,
              MAPPING_FIELD_BOUNDARY, records) ;;
      index_candidates boundary rest (S index) (<[index := mapping_record v]> records)
  end.

Definition digest_indexes (digests : list laplace_digest256) : list digest_index :=
  imap (fun index d => mk_digest_index d index) digests.

(** [coordinates[index * 2]] and [coordinates[index * 2 + 1]]. *)
Definition coordinate_indexes (candidates : list laplace_reference_mapping_candidate)
    : list coordinate_index :=
  concat (imap (fun index v =>
    [mk_coordinate_index (coordinate (left_coordinate v))
       (collision_fingerprint (left_coordinate v)) index;
     mk_coordinate_index (coordinate (right_coordinate v))
       (collision_fingerprint (right_coordinate v)) index]) candidates).

Definition find_duplicate (occurrences : list digest_index) : option digest_index :=
  find_adjacent (fun a b => bytes_equal (digest a) (digest b))
    (qsort digest_compare occurrences).

Definition find_collision (coordinates : list coordinate_index) : option coordinate_index :=
  find_adjacent (fun a b => bytes_equal (index_coordinate a) (index_coordinate b) &&
                            negb (bytes_equal (index_fingerprint a) (index_fingerprint b)))
    (qsort coordinate_compare coordinates).

(** [count = 1; for (index = 1; ...) if (differs(l[index-1], l[index])) ++count;] *)
Fixpoint count_changes_from (previous : digest_index) (l : list digest_index) (count : Z)
    : Z :=
  match l with
  | [] => count
  | current :: rest =>
      count_changes_from current rest
        (if bytes_equal (digest previous) (digest current) then count else count + 1)
  end.

Definition count_propositions (propositions : list digest_index) : Z :=
  match qsort digest_compare propositions with
  | [] => 1
  | first :: rest => count_changes_from first rest 1
  end.

Definition hash_input (candidates : list laplace_reference_mapping_candidate)
    : blake3_hasher :=
  foldl hash_candidate
    (hash_u64 (blake3_hasher_update blake3_hasher_init
                 (domain_bytes "laplace-reference-mapping-input-v1"))
       (Z.of_nat (length candidates))) candidates.

Definition hash_output (records : list laplace_reference_mapping_record) : blake3_hasher :=
  foldl (fun hasher r => blake3_hasher_update hasher (mapping_id r))
    (hash_u64 (blake3_hasher_update blake3_hasher_init
                 (domain_bytes "laplace-reference-mapping-output-v1"))
       (Z.of_nat (length records))) records.

(** The counters of the output loop: resolved, retired, unresolved. *)
Definition count_record (counts : Z * Z * Z) (r : laplace_reference_mapping_record)
    : Z * Z * Z :=
  let '(resolved, retired, unresolved) := counts in
  if disposition r =? LAPLACE_REFERENCE_MAPPING_DISPOSITION_RESOLVED then
    (resolved + 1, retired, unresolved)
  else if disposition r =? LAPLACE_REFERENCE_MAPPING_DISPOSITION_RETIRED_ENDPOINT then
    (resolved, retired + 1, unresolved)
  else (resolved, retired, unresolved + 1).

Definition failed_receipt : laplace_reference_mapping_receipt :=
  mk_receipt (zeros 32) (zeros 32) (zeros 32) (zeros 32) 0 0 0 0 0
    LAPLACE_REFERENCE_MAPPING_VERSION 0.

Definition hash_receipt (r : laplace_reference_mapping_receipt) : blake3_hasher :=
  let hasher := blake3_hasher_update blake3_hasher_init
                  (domain_bytes "laplace-reference-mapping-receipt-v1") in
  let hasher := blake3_hasher_update hasher (receipt_boundary_id r) in
  let hasher := blake3_hasher_update hasher (input_fingerprint r) in
  let hasher := blake3_hasher_update hasher (output_fingerprint r) in
  let hasher := hash_u64 hasher (occurrence_count r) in
  let hasher := hash_u64 hasher (proposition_count r) in
  let hasher := hash_u64 hasher (resolved_count r) in
  let hasher := hash_u64 hasher (unresolved_count r) in
  let hasher := hash_u64 hasher (retired_count r) in
  let hasher := hash_u32 hasher (version r) in
  hash_u32 hasher (receipt_status r).

Definition final_receipt (boundary : laplace_digest256)
    (candidates : list laplace_reference_mapping_candidate)
    (records : list laplace_reference_mapping_record) : laplace_reference_mapping_receipt :=
  let '(resolved, retired, unresolved) := foldl count_record (0, 0, 0) records in
  let receipt :=
    mk_receipt (zeros 32) boundary (blake3_hasher_finalize (hash_input candidates))
      (blake3_hasher_finalize (hash_output records)) (Z.of_nat (length candidates))
      (count_propositions (digest_indexes (map proposition_id records)))
      resolved unresolved retired LAPLACE_REFERENCE_MAPPING_VERSION 0 in
  mk_receipt (blake3_hasher_finalize (hash_receipt receipt)) (receipt_boundary_id receipt)
    (input_fingerprint receipt) (output_fingerprint receipt) (occurrence_count receipt)
    (proposition_count receipt) (resolved_count receipt) (unresolved_count receipt)
    (retired_count receipt) (version receipt) (receipt_status receipt).

Definition report (error : ptr laplace_reference_mapping_error) (index field_value : Z) :=
  store error (mk_error index field_value 0).

Definition resolve_candidates (candidates : list laplace_reference_mapping_candidate)
    (records : list laplace_reference_mapping_record)
    (error : ptr laplace_reference_mapping_error)
    : laplace_reference_mapping_status * list laplace_reference_mapping_record *
      laplace_reference_mapping_receipt * ptr laplace_reference_mapping_error :=
  let boundary := default [] (boundary_id <$> head candidates) in
  let n := length candidates in
  match index_candidates boundary candidates 0 records with
  | (LAPLACE_REFERENCE_MAPPING_OK, _, _, records) =>
      match find_duplicate (digest_indexes (map occurrence_id (take n records))) with
      | Some item =>
          (LAPLACE_REFERENCE_MAPPING_DUPLICATE_OCCURRENCE, records, failed_receipt,
           report error (Z.of_nat (digest_input item)) MAPPING_FIELD_OCCURRENCE)
      | None =>
          match find_collision (coordinate_indexes candidates) with
          | Some item =>
              (LAPLACE_REFERENCE_MAPPING_COORDINATE_COLLISION, records, failed_receipt,
               report error (Z.of_nat (coordinate_input item)) MAPPING_FIELD_COORDINATE)
          | None =>
              (LAPLACE_REFERENCE_MAPPING_OK, records,
               final_receipt boundary candidates (take n records),
               report error UINT64_MAX MAPPING_FIELD_NONE)
          end
      end
  | (failed, index, field_value, records) =>
      (failed, records, failed_receipt, report error index field_value)
  end.

Definition laplace_reference_mapping_resolve_batch (allocated : bool)
    (candidates : ptr (list laplace_reference_mapping_candidate)) (candidate_count : Z)
    (records : ptr (list laplace_reference_mapping_record))
    (receipt : ptr laplace_reference_mapping_receipt)
    (error : ptr laplace_reference_mapping_error)
    : laplace_reference_mapping_status * ptr (list laplace_reference_mapping_record) *
      ptr laplace_reference_mapping_receipt * ptr laplace_reference_mapping_error :=
  let cleared := report error UINT64_MAX MAPPING_FIELD_NONE in
  return_when is_null candidates || is_null records || is_null receipt ||
              (candidate_count =? 0) || (SIZE_MAX / 2 <? candidate_count) ||
              (SIZE_MAX / 40 <? candidate_count)
    with (LAPLACE_REFERENCE_MAPPING_INVALID_ARGUMENT, records,
          store receipt failed_receipt, cleared) ;;
  return_when negb allocated
    with (LAPLACE_REFERENCE_MAPPING_MEMORY_FAILURE, records, store receipt failed_receipt,
          cleared) ;;
  let '(status, written, body, error) :=
    resolve_candidates (cells candidates candidate_count) (default [] records) error in
  (status, store records written, store receipt body, error).
End Mapping.

(** ** Specification *)
Section Specification.
Context {B : Blake3}.

(** The endpoint coordinates of a batch. *)
Definition endpoints (cs : list laplace_reference_mapping_candidate)
    : list laplace_highway_coordinate :=
  concat (map (fun v => [left_coordinate v; right_coordinate v]) cs).

Record mapping_accepted (cs : list laplace_reference_mapping_candidate) : Prop := {
  all_valid : Forall (fun v => candidate_valid v = true) cs;
  one_boundary : forall a b, a ∈ cs -> b ∈ cs -> boundary_id a = boundary_id b;
  distinct_occurrences : NoDup (map identify_occurrence cs);
  endpoints_separated : forall a b, a ∈ endpoints cs -> b ∈ endpoints cs ->
    coordinate a = coordinate b -> collision_fingerprint a = collision_fingerprint b }.

Definition mapping_result (cs : list laplace_reference_mapping_candidate)
    (r : laplace_reference_mapping_receipt) : Prop :=
  let count d := Z.of_nat (length (filter (fun v => resolve_disposition v = d) cs)) in
  occurrence_count r = Z.of_nat (length cs) /\
  proposition_count r = Z.of_nat (length (remove_dups (map identify_proposition cs))) /\
  resolved_count r = count LAPLACE_REFERENCE_MAPPING_DISPOSITION_RESOLVED /\
  retired_count r =
    count LAPLACE_REFERENCE_MAPPING_DISPOSITION_RETIRED_ENDPOINT /\
  resolved_count r + retired_count r + unresolved_count r = occurrence_count r /\
  Forall (fun v => receipt_boundary_id r = boundary_id v) cs /\
  receipt_id r = blake3_hasher_finalize (hash_receipt r).
End Specification.

(** ** Lemmas: the phases of a batch *)
Section Phases.
Context {B : Blake3}.
Implicit Types (cs : list laplace_reference_mapping_candidate).

Lemma index_candidates_spec boundary cs : forall i rs,
  (i + length cs <= length rs)%nat ->
  let '(st, _, _, rs') := index_candidates boundary cs i rs in
  (st = LAPLACE_REFERENCE_MAPPING_OK <->
   Forall (fun v => candidate_valid v = true) cs /\
   Forall (fun v => boundary = boundary_id v) (drop (1 - i) cs)) /\
  (st = LAPLACE_REFERENCE_MAPPING_OK ->
   rs' = take i rs ++ map mapping_record cs ++ drop (i + length cs) rs).
Proof.
  induction cs as [|v cs IH]; intros i rs Hlen; cbn [index_candidates].
  { split; [by destruct i as [|[|]]|]. intros _. simpl. by rewrite Nat.add_0_r, take_drop. }
  simpl in Hlen. pose proof (Forall_cons (fun v => candidate_valid v = true) v cs) as Hcons.
  destruct (candidate_valid v) eqn:Ev; cbn [negb].
  2:{ split; [|done]. split; [done|]. rewrite Hcons. intros [[H _] _]. congruence. }
  assert (Hsame : drop (1 - i) (v :: cs) = (if (i =? 0)%nat then [] else [v]) ++ cs)
    by (by destruct i).
  destruct (negb (i =? 0)%nat && negb (bytes_equal boundary (boundary_id v))) eqn:Ep.
  { split; [|done]. split; [done|]. rewrite Hsame. intros [_ H].
    apply andb_true_iff in Ep as [E0 Ep]. apply negb_true_iff in E0, Ep. rewrite E0 in H.
    apply Forall_cons in H as [H _]. by apply bytes_equal_false in Ep. }
  specialize (IH (S i) (<[i := mapping_record v]> rs) ltac:(rewrite length_insert; lia)).
  destruct (index_candidates boundary cs (S i) _) as [[[st x] y] rs'].
  destruct IH as [Hiff Hrs]. simpl (1 - S i)%nat in Hiff. rewrite drop_0 in Hiff. split.
  - rewrite Hiff, Hcons, Hsame, Forall_app. apply andb_false_iff in Ep.
    assert (Hp : Forall (fun v => boundary = boundary_id v)
                   (if (i =? 0)%nat then [] else [v])).
    { destruct (i =? 0)%nat; [done|]. constructor; [|done].
      destruct Ep as [?|Ep]; [done|]. by apply negb_false_iff, bytes_equal_spec in Ep. }
    tauto.
  - intros Hok. rewrite (Hrs Hok). cbn [map length].
    erewrite take_S_r by (apply list_lookup_insert_eq; lia).
    rewrite take_insert_ge, drop_insert_lt, <- app_assoc by lia.
    by rewrite Nat.add_succ_r.
Qed.

Lemma digest_indexes_digests l : map digest (digest_indexes l) = l.
Proof.
  unfold digest_indexes. apply list_eq. intros i.
  rewrite list_lookup_fmap, list_lookup_imap. by destruct (l !! i).
Qed.

Lemma find_duplicate_none l : find_duplicate (digest_indexes l) = None <-> NoDup l.
Proof.
  unfold find_duplicate, digest_compare. rewrite (duplicate_scan digest _).
  by rewrite digest_indexes_digests.
Qed.

Lemma coordinate_indexes_elem cs x :
  x ∈ coordinate_indexes cs <->
  exists i v c, cs !! i = Some v /\ (c = left_coordinate v \/ c = right_coordinate v) /\
    x = mk_coordinate_index (coordinate c) (collision_fingerprint c) i.
Proof.
  unfold coordinate_indexes. rewrite list_elem_of_In, in_concat. split.
  - intros (l & Hl%list_elem_of_In%elem_of_lookup_imap & Hx). destruct Hl as (i & v & -> & Hv).
    destruct Hx as [<-|[<-|[]]]; [exists i, v, (left_coordinate v)
      | exists i, v, (right_coordinate v)]; auto.
  - intros (i & v & c & Hv & Hc & ->). eexists. split.
    + apply list_elem_of_In, elem_of_lookup_imap. eauto.
    + destruct Hc as [-> | ->]; [left | right; left]; done.
Qed.

Lemma endpoints_elem cs c :
  c ∈ endpoints cs <->
  exists i v, cs !! i = Some v /\ (c = left_coordinate v \/ c = right_coordinate v).
Proof.
  unfold endpoints. rewrite list_elem_of_In, in_concat. split.
  - intros (l & (v & <- & [i Hv]%list_elem_of_In%list_elem_of_lookup)%in_map_iff & Hc).
    exists i, v. split; [done|]. destruct Hc as [<-|[<-|[]]]; auto.
  - intros (i & v & Hv & Hc). eexists. split.
    + apply in_map_iff. exists v. split; [done|]. apply list_elem_of_In.
      by eapply list_elem_of_lookup_2.
    + destruct Hc as [-> | ->]; [left | right; left]; done.
Qed.

Lemma find_collision_none cs :
  find_collision (coordinate_indexes cs) = None <->
  (forall a b, a ∈ endpoints cs -> b ∈ endpoints cs ->
     coordinate a = coordinate b -> collision_fingerprint a = collision_fingerprint b).
Proof.
  unfold find_collision, coordinate_compare.
  rewrite (collision_scan index_coordinate _ index_fingerprint). split.
  - intros H a b (i & v & Hv & Ha)%endpoints_elem (j & w & Hw & Hb)%endpoints_elem Heq.
    refine (H (mk_coordinate_index (coordinate a) (collision_fingerprint a) i)
      (mk_coordinate_index (coordinate b) (collision_fingerprint b) j) _ _ Heq);
      apply coordinate_indexes_elem; eauto 10.
  - intros H x y (i & v & a & Hv & Ha & ->)%coordinate_indexes_elem
      (j & w & b & Hw & Hb & ->)%coordinate_indexes_elem Heq.
    apply H; [apply endpoints_elem; eauto..|done].
Qed.

(** Changes in a sorted array count its distinct digests. *)
Lemma count_changes_sorted l : forall x n,
  StronglySorted (cmp_le digest_compare) (x :: l) ->
  count_changes_from x l n = n + Z.of_nat (length (remove_dups (map digest (x :: l)))) - 1.
Proof.
  induction l as [|y l IH]; intros x n Hs; [simpl; lia|].
  cbn [count_changes_from]. apply StronglySorted_inv in Hs as [Hs Hx].
  rewrite (IH y _ Hs). cbn [map remove_dups].
  change (remove_dups (map digest (y :: l))) with
    (if decide_rel (∈) (digest y) (map digest l) then remove_dups (map digest l)
     else digest y :: remove_dups (map digest l)).
  destruct (bytes_equal (digest x) (digest y)) eqn:E.
  - apply bytes_equal_spec in E.
    destruct (decide_rel (∈) (digest x) (digest y :: map digest l)) as [_|Hn]; [lia|].
    contradict Hn. rewrite E. left.
  - apply bytes_equal_false in E.
    destruct (decide_rel (∈) (digest x) (digest y :: map digest l)) as [Hin|_].
    + exfalso. apply elem_of_cons in Hin as [Hin|(z & Hz & Hin)%list_elem_of_fmap]; [done|].
      apply Forall_cons in Hx as [Hxy _].
      apply StronglySorted_inv in Hs as [_ Hy]. rewrite Forall_forall in Hy.
      destruct (digest_convex digest (cmp_on (fun a => Z.of_nat (digest_input a)) Z.compare)
        x y z Hxy (Hy z Hin) Hz) as [? _]. done.
    + cbn [length]. lia.
Qed.

Lemma length_remove_dups_perm (l1 l2 : list (list Z)) :
  l1 ≡ₚ l2 -> length (remove_dups l1) = length (remove_dups l2).
Proof.
  intros Hp. apply Permutation_length, NoDup_Permutation; [apply NoDup_remove_dups..|].
  intros x. by rewrite !elem_of_remove_dups, Hp.
Qed.

Lemma count_propositions_distinct l :
  l <> [] -> count_propositions (digest_indexes l) = Z.of_nat (length (remove_dups l)).
Proof.
  intros Hne. unfold count_propositions.
  pose proof (qsort_perm digest_compare (digest_indexes l)) as Hp.
  assert (Hs : StronglySorted (cmp_le digest_compare)
                 (qsort digest_compare (digest_indexes l))) by (apply qsort_sorted, _).
  rewrite <- (digest_indexes_digests l) at 2.
  rewrite (length_remove_dups_perm _ _ (Permutation_map digest (Permutation_sym Hp))).
  destruct (qsort digest_compare (digest_indexes l)) as [|x rest].
  - apply Permutation_nil in Hp. destruct l; [done|]. discriminate.
  - rewrite count_changes_sorted by done. lia.
Qed.
End Phases.

Section Outcome.
Context {B : Blake3}.
Implicit Types (cs : list laplace_reference_mapping_candidate).

Lemma same_boundaries cs :
  Forall (fun v => default [] (boundary_id <$> head cs) = boundary_id v) (drop 1 cs) <->
  (forall a b, a ∈ cs -> b ∈ cs -> boundary_id a = boundary_id b).
Proof.
  destruct cs as [|v0 rest]; simpl; [split; [set_solver|by constructor]|]. rewrite drop_0. split.
  - rewrite Forall_forall. intros H.
    assert (Hc : forall a, a ∈ v0 :: rest -> boundary_id a = boundary_id v0).
    { intros a [->|Ha]%elem_of_cons; [done|]. symmetry. by apply H. }
    intros a b Ha Hb. by rewrite (Hc a), (Hc b).
  - intros H. apply Forall_forall. intros c Hc. apply H; [left | by right].
Qed.

Lemma count_records cs : forall p q u,
  foldl count_record (p, q, u) (map mapping_record cs) =
  (p + Z.of_nat (length (filter (fun v => resolve_disposition v = 1) cs)),
   q + Z.of_nat (length (filter (fun v => resolve_disposition v = 5) cs)),
   u + Z.of_nat (length cs) - Z.of_nat (length (filter (fun v => resolve_disposition v = 1) cs))
     - Z.of_nat (length (filter (fun v => resolve_disposition v = 5) cs))).
Proof.
  assert (Htriple : forall a b c a' b' c' : Z,
    a = a' -> b = b' -> c = c' -> (a, b, c) = (a', b', c')) by congruence.
  induction cs as [|v cs IH]; intros p q u; cbn [map foldl].
  { simpl. apply Htriple; lia. }
  cbn [count_record disposition mapping_record identify_record].
  rewrite !filter_cons.
  destruct (decide (resolve_disposition v = 1)) as [E1|E1];
    destruct (decide (resolve_disposition v = 5)) as [E5|E5]; try lia.
  - rewrite E1. simpl. rewrite IH. cbn [length]. apply Htriple; lia.
  - rewrite E5. simpl. rewrite IH. cbn [length]. apply Htriple; lia.
  - rewrite (proj2 (Z.eqb_neq _ _) E1), (proj2 (Z.eqb_neq _ _) E5), IH. cbn [length].
    apply Htriple; lia.
Qed.

Lemma mapping_final_result cs :
  cs <> [] -> (forall a b, a ∈ cs -> b ∈ cs -> boundary_id a = boundary_id b) ->
  mapping_result cs
    (final_receipt (default [] (boundary_id <$> head cs)) cs (map mapping_record cs)).
Proof.
  intros Hne Hb. unfold final_receipt. rewrite (count_records cs 0 0 0).
  rewrite map_map. change (map (fun x => proposition_id (mapping_record x)) cs) with
    (map identify_proposition cs).
  rewrite count_propositions_distinct by (by destruct cs).
  unfold mapping_result. cbn [occurrence_count proposition_count resolved_count retired_count
    unresolved_count receipt_boundary_id receipt_id]. split_and!; try done; try lia.
  destruct cs as [|v0 rest]; [done|]. apply Forall_forall. intros v Hv. simpl.
  apply Hb; [left | done].
Qed.

Lemma mapping_candidates_exact cs rs error :
  cs <> [] -> (length cs <= length rs)%nat ->
  let '(status, records, receipt, _) := resolve_candidates cs rs error in
  (status = LAPLACE_REFERENCE_MAPPING_OK <-> mapping_accepted cs) /\
  (status = LAPLACE_REFERENCE_MAPPING_OK ->
     records = map mapping_record cs ++ drop (length cs) rs /\ mapping_result cs receipt).
Proof.
  intros Hne Hlen. unfold resolve_candidates.
  pose proof (index_candidates_spec (default [] (boundary_id <$> head cs)) cs 0 rs Hlen) as H1.
  destruct (index_candidates _ cs 0 rs) as [[[st ix] fd] rs1].
  destruct H1 as [Hok1 Hrs]. simpl (1 - 0)%nat in Hok1. rewrite same_boundaries in Hok1.
  destruct st; try (split; [|done]; split; [done|]; intros [Ha Hb _ _]; by apply Hok1).
  rewrite (Hrs eq_refl). destruct (proj1 Hok1 eq_refl) as [Hvalid Hb].
  rewrite take_0, app_nil_l, Nat.add_0_l, take_app_length' by (by rewrite length_map).
  rewrite map_map. change (map (fun x => occurrence_id (mapping_record x)) cs) with
    (map identify_occurrence cs).
  destruct (find_duplicate _) eqn:Edup.
  { split; [|done]. split; [done|]. intros [_ _ Hd _].
    apply find_duplicate_none in Hd. congruence. }
  destruct (find_collision _) eqn:Ecol.
  { split; [|done]. split; [done|]. intros [_ _ _ Hc].
    apply find_collision_none in Hc. congruence. }
  split.
  - split; [|done]. intros _. split; [done | done | by apply find_duplicate_none
      | by apply find_collision_none].
  - intros _. split; [done|]. by apply mapping_final_result.
Qed.
End Outcome.

(** C38: resolution of a mapping batch is exact.  It succeeds if and only if
    every candidate is valid, all share one boundary, no witness occurrence
    repeats and endpoint coordinates determine their fingerprints; then the
    records are those of the candidates in input order, nothing else is
    written, the proposition count is the number of distinct propositions
    however many witnesses each has, and resolved, retired and unresolved
    mappings partition the batch. *)
Theorem mapping_batch_exact {B : Blake3} cs rs n receipt error :
  n = Z.of_nat (length cs) -> 1 <= n <= SIZE_MAX / 40 -> (length cs <= length rs)%nat ->
  let '(status, records', receipt', _) :=
    laplace_reference_mapping_resolve_batch true (Some cs) n (Some rs) (Some receipt) error in
  (status = LAPLACE_REFERENCE_MAPPING_OK <-> mapping_accepted cs) /\
  (status = LAPLACE_REFERENCE_MAPPING_OK ->
     records' = Some (map mapping_record cs ++ drop (length cs) rs) /\
     exists r, receipt' = Some r /\ mapping_result cs r).
Proof.
  intros -> Hn Hlen. unfold laplace_reference_mapping_resolve_batch. ptrs.
  assert (Hbounds : SIZE_MAX / 40 <= SIZE_MAX / 2) by (vm_compute; discriminate).
  rewrite (proj2 (Z.eqb_neq _ _)), (proj2 (Z.ltb_ge (SIZE_MAX / 2) _)),
    (proj2 (Z.ltb_ge (SIZE_MAX / 40) _)) by lia. cbn [orb].
  rewrite cells_all by done. change (default [] (Some rs)) with rs.
  assert (Hne : cs <> []) by (intros ->; simpl in Hn; lia).
  pose proof (mapping_candidates_exact cs rs error Hne Hlen) as H.
  destruct (resolve_candidates cs rs error) as [[[st rs'] r] e].
  destruct H as [Hiff Hres]. split; [done|]. intros Hst. destruct (Hres Hst) as [-> Hr].
  split; [done|]. by exists r.
Qed.

(** Two witnesses of one symmetric mapping, in opposite orders. *)
Definition left_end : laplace_highway_coordinate :=
  mk_coordinate (replicate 16 1) (replicate 32 2) 3 0 1.
Definition right_end : laplace_highway_coordinate :=
  mk_coordinate (replicate 16 4) (replicate 32 5) 3 0 1.
Definition sample_mapping (l r : laplace_highway_coordinate) (row : Z)
    : laplace_reference_mapping_candidate :=
  mk_candidate (replicate 32 1) (replicate 32 2) (replicate 32 3) (replicate 32 4) l r
    (replicate 16 6) (replicate 16 7) (replicate 16 8) (replicate 16 9) (replicate 16 10)
    (replicate 16 11) 1 1 row 1 8 2 1 6.
Definition sample_mappings : list laplace_reference_mapping_candidate :=
  [sample_mapping left_end right_end 1; sample_mapping right_end left_end 2].
Definition sample_mapping_records : list laplace_reference_mapping_record :=
  map (mapping_record (B := checksum_blake3)) sample_mappings.

Lemma sample_mappings_ok :
  (laplace_reference_mapping_resolve_batch (B := checksum_blake3) true (Some sample_mappings) 2
     (Some sample_mapping_records) (Some failed_receipt) None).1.1.1 =
  LAPLACE_REFERENCE_MAPPING_OK.
Proof. vm_compute. reflexivity. Qed.

Lemma mapping_batch_exact_witness :
  let '(status, _, receipt, _) :=
    laplace_reference_mapping_resolve_batch (B := checksum_blake3) true (Some sample_mappings) 2
      (Some sample_mapping_records) (Some failed_receipt) None in
  status = LAPLACE_REFERENCE_MAPPING_OK /\ (proposition_count <$> receipt) = Some 1.
Proof.
  pose proof (mapping_batch_exact (B := checksum_blake3) sample_mappings
    sample_mapping_records 2 failed_receipt None eq_refl
    ltac:(vm_compute; split; discriminate) ltac:(simpl; lia)) as H.
  pose proof sample_mappings_ok as Hok.
  destruct (laplace_reference_mapping_resolve_batch _ _ _ _ _ _) as [[[st rs] r] e].
  cbn [fst snd] in Hok. subst st. split; [reflexivity|].
  destruct H as [_ H]. destruct (H eq_refl) as (_ & r' & -> & _ & Hp & _).
  simpl. rewrite Hp. vm_compute. reflexivity.
Defined.

(** ** Proposition identity *)
Record endpoint_wf (c : laplace_highway_coordinate) : Prop := {
  wf_coordinate : bytes 16 (coordinate c);
  wf_fingerprint : bytes 32 (collision_fingerprint c);
  wf_endpoint_kind : is_u32 (coordinate_kind c);
  wf_endpoint_reserved : coordinate_reserved c = 0;
  wf_endpoint_version : is_u64 (coordinate_version c) }.

Record mapping_wf (v : laplace_reference_mapping_candidate) : Prop := {
  wf_left : endpoint_wf (left_coordinate v);
  wf_right : endpoint_wf (right_coordinate v);
  wf_relation : bytes 16 (relation_id v);
  wf_relation_kind : is_u32 (relation_kind v);
  wf_relation_version : is_u64 (relation_version v);
  wf_mapping_flags : is_u32 (flags v) }.

Definition endpoint_code (c : laplace_highway_coordinate) : list Z :=
  coordinate c ++ collision_fingerprint c ++ store_le 4 (coordinate_kind c) ++
  store_le 8 (coordinate_version c).

Definition proposition_transcript (v : laplace_reference_mapping_candidate) : list Z :=
  domain_bytes "laplace-reference-mapping-proposition-v1" ++ store_le 4 (relation_kind v) ++
  store_le 8 (relation_version v) ++ relation_id v ++ store_le 4 (flags v) ++
  endpoint_code (oriented v).1 ++ endpoint_code (oriented v).2.

Definition same_relation (v w : laplace_reference_mapping_candidate) : Prop :=
  relation_kind v = relation_kind w /\ relation_version v = relation_version w /\
  relation_id v = relation_id w /\ flags v = flags w.

Definition is_symmetric (v : laplace_reference_mapping_candidate) : bool :=
  negb (Z.land (flags v) LAPLACE_REFERENCE_MAPPING_FLAG_SYMMETRIC =? 0).

(** Same endpoints in the same order, or swapped in a symmetric mapping. *)
Definition same_endpoints (v w : laplace_reference_mapping_candidate) : Prop :=
  (left_coordinate v = left_coordinate w /\ right_coordinate v = right_coordinate w) \/
  (is_symmetric v = true /\
   left_coordinate v = right_coordinate w /\ right_coordinate v = left_coordinate w).

Section Propositions.
Context {B : Blake3} {L : Blake3Laws B}.

Lemma absorbs_coordinate h m c :
  absorbs h m -> absorbs (hash_coordinate h c) (m ++ endpoint_code c).
Proof. intros. unfold hash_coordinate, endpoint_code. absorb. Qed.

Lemma identify_proposition_transcript v :
  identify_proposition v = blake3 (proposition_transcript v).
Proof.
  unfold identify_proposition, proposition_transcript. destruct (oriented v) as [l r].
  apply absorbs_finalize. rewrite !app_assoc.
  apply absorbs_coordinate, absorbs_coordinate. absorb.
Qed.

Lemma endpoint_prefix : prefix_code endpoint_wf endpoint_code.
Proof.
  intros a b x y [] [] H. unfold endpoint_code in H. peel H.
  destruct a, b; simpl in *; split; congruence.
Qed.

Lemma value_compare_antisym l r :
  coordinate_value_compare r l = CompOpp (coordinate_value_compare l r).
Proof. apply (cmp_antisym coordinate_value_compare). Qed.

(** How a mapping orients its endpoints. *)
Lemma oriented_cases v :
  oriented v = (left_coordinate v, right_coordinate v) \/
  (is_symmetric v = true /\ oriented v = (right_coordinate v, left_coordinate v)).
Proof.
  unfold oriented, is_symmetric. casec; [|by left]. right. split; [by apply negb_true_iff, Z.eqb_neq|done].
Qed.

Lemma oriented_swap v w :
  flags v = flags w -> is_symmetric v = true ->
  left_coordinate v = right_coordinate w -> right_coordinate v = left_coordinate w ->
  (coordinate_value_compare (left_coordinate v) (right_coordinate v) = Eq ->
   left_coordinate v = right_coordinate v) ->
  oriented v = oriented w.
Proof.
  unfold oriented, is_symmetric. intros <- -> <- <- Hdet.
  rewrite (value_compare_antisym (left_coordinate v)).
  destruct (coordinate_value_compare _ _) eqn:E; simpl; try done.
  by rewrite (Hdet eq_refl).
Qed.
End Propositions.

(** a proposition is its relation and its typed endpoints, oriented only
    when the relation is directed.  Its identity is the digest of a transcript
    that is equal for two candidates exactly when relation kind, version,
    content and direction agree and the endpoints agree in order, or are
    swapped and the mapping is symmetric; source, row, fields and other
    witness data do not enter.  (Endpoints with equal coordinate and
    fingerprint are assumed to be equal.) *)
Theorem proposition_identity {B : Blake3} {L : Blake3Laws B} v w :
  mapping_wf v -> mapping_wf w ->
  (coordinate_value_compare (left_coordinate v) (right_coordinate v) = Eq ->
   left_coordinate v = right_coordinate v) ->
  identify_proposition v = blake3 (proposition_transcript v) /\
  (proposition_transcript v = proposition_transcript w <->
   same_relation v w /\ same_endpoints v w).
Proof.
  intros Hv Hw Hdet. split; [apply identify_proposition_transcript|].
  pose proof Hv as [Hl Hr ? ? ? ?]. pose proof Hw as [Hl' Hr' ? ? ? ?]. split.
  - unfold proposition_transcript. intros H. apply app_inv_head in H. peel H.
    assert (Ho : endpoint_wf (oriented v).1 /\ endpoint_wf (oriented v).2 /\
                 endpoint_wf (oriented w).1 /\ endpoint_wf (oriented w).2).
    { destruct (oriented_cases v) as [-> | [_ ->]], (oriented_cases w) as [-> | [_ ->]]; done. }
    destruct Ho as (? & ? & ? & ?).
    apply endpoint_prefix in H as [Hfst H]; [|done..].
    rewrite <- (app_nil_r (endpoint_code (oriented v).2)) in H.
    rewrite <- (app_nil_r (endpoint_code (oriented w).2)) in H.
    apply endpoint_prefix in H as [Hsnd _]; [|done..].
    split; [by split_and!|].
    assert (is_symmetric v = is_symmetric w) by (unfold is_symmetric; congruence).
    unfold same_endpoints.
    destruct (oriented_cases v) as [Ev | [Sv Ev]], (oriented_cases w) as [Ew | [Sw Ew]];
      rewrite Ev, Ew in Hfst, Hsnd; simpl in *; [left; done | right | right | left; done];
      split_and!; congruence.
  - intros [(Hk & Hver & Hid & Hf) [[E1 E2] | (Hs & E1 & E2)]];
      unfold proposition_transcript; rewrite Hk, Hver, Hid, Hf.
    + unfold oriented. by rewrite E1, E2, Hf.
    + by rewrite (oriented_swap v w).
Qed.

Lemma proposition_identity_witness :
  proposition_transcript (sample_mapping left_end right_end 1) =
  proposition_transcript (sample_mapping right_end left_end 2).
Proof.
  assert (Hwf : forall l r row, endpoint_wf l -> endpoint_wf r ->
                  mapping_wf (sample_mapping l r row)).
  { intros l r row Hl Hr. split; simpl; done || lia || check. }
  assert (Hl : endpoint_wf left_end) by (split; simpl; done || lia || check).
  assert (Hr : endpoint_wf right_end) by (split; simpl; done || lia || check).
  apply (proposition_identity (B := checksum_blake3) (L := checksum_blake3_laws)
    (sample_mapping left_end right_end 1) (sample_mapping right_end left_end 2)
    (Hwf _ _ _ Hl Hr) (Hwf _ _ _ Hr Hl)).
  - intros H. vm_compute in H. discriminate H.
  - split; [by split_and!|]. right. split_and!; reflexivity.
Defined.
