(* ===== verification/MachineException.v ===== *)
(** * Machine exceptions: the registry of conditions and their classification

    Models [engine/src/machine_exception.c] and
    [engine/include/laplace/machine_exception.h]: the registry of machine
    conditions, its validation, the lookup of a condition, the classification of
    a set of observed conditions by priority, and the account of why work
    stopped.

    [k_descriptors] is an argument of the model, as the table of the code is
    expanded from constants generated from [contracts/framework.json];
    [contract_descriptors] is the table that contract gives, and
    [contract_registry_valid] checks it. *)
From stdpp Require Import prelude sorting.
From Stdlib Require Import ZArith Lia.
From S2P Require Import Prelude Bytes Sorting.

(** ** Contract constants ([contracts/framework.json], [machine_exception]) *)
Abbreviation LAPLACE_MACHINE_CONDITION_NONE := 0 (only parsing).
Abbreviation LAPLACE_MACHINE_CONDITION_COUNT := 20 (only parsing).
Abbreviation LAPLACE_MACHINE_KIND_TERMINAL_DISPOSITION := 5 (only parsing).
Abbreviation LAPLACE_MACHINE_CAPABILITY_KNOWN_MASK := 127 (only parsing).
Abbreviation LAPLACE_MACHINE_RECOVERY_TYPED_LIMIT := 4 (only parsing).
Abbreviation LAPLACE_MACHINE_PUBLICATION_UPPER_BOUND := 2 (only parsing).

(** ** Data *)
Inductive laplace_machine_exception_status :=
| LAPLACE_MACHINE_EXCEPTION_OK
| LAPLACE_MACHINE_EXCEPTION_INVALID_ARGUMENT
| LAPLACE_MACHINE_EXCEPTION_UNKNOWN_CONDITION
| LAPLACE_MACHINE_EXCEPTION_REGISTRY_INVALID.

#[export] Instance machine_status_eq_dec : EqDecision laplace_machine_exception_status.
Proof. solve_decision. Defined.

Record laplace_machine_exception_descriptor := mk_descriptor {
  condition : Z;
  kind : Z;
  priority : Z;
  capability_flags : Z;
  recovery_disposition : Z;
  publication_disposition : Z }.

#[export] Instance descriptor_eq_dec : EqDecision laplace_machine_exception_descriptor.
Proof. solve_decision. Defined.

(** The ten flags [1 << 0] to [1 << 9]. *)
Definition LAPLACE_MACHINE_EXCEPTION_BIND_KNOWN_MASK : Z := 1023.

Record laplace_machine_exception_binding := mk_binding {
  program_fingerprint : list Z;
  physical_plan_fingerprint : list Z;
  provider_fingerprint : list Z;
  node_fingerprint : list Z;
  world_scope_fingerprint : list Z;
  transaction_fingerprint : list Z;
  last_valid_receipt_fingerprint : list Z;
  durable_boundary_fingerprint : list Z;
  replay_origin_fingerprint : list Z;
  invalidated_output_fingerprint : list Z;
  presence_mask : Z;
  affected_instruction_index : Z;
  invalidated_output_count : Z;
  binding_reserved : Z }.

Record laplace_machine_exception_receipt := mk_receipt {
  selected : laplace_machine_exception_descriptor;
  binding : laplace_machine_exception_binding;
  observed_condition_mask : Z;
  receipt_reserved : Z }.

Record laplace_machine_why_not := mk_why_not {
  open_obligations_fingerprint : list Z;
  continuation_condition_fingerprint : list Z;
  completed_work_units : Z;
  open_obligation_count : Z;
  limiting_condition : Z;
  why_not_recovery_disposition : Z }.

(** ** Operations *)
Section Registry.
Context (k_descriptors : list laplace_machine_exception_descriptor).

Definition laplace_machine_exception_descriptor_count : Z :=
  Z.of_nat (length k_descriptors).

Definition laplace_machine_exception_find (c : Z)
    : option laplace_machine_exception_descriptor :=
  snd <$> list_find (fun d => condition d = c) k_descriptors.

(** The fields of one descriptor are outside the vocabulary of the contract. *)
Definition descriptor_invalid (d : laplace_machine_exception_descriptor) : bool :=
  (64 <=? condition d) ||
  (LAPLACE_MACHINE_KIND_TERMINAL_DISPOSITION <? kind d) ||
  negb (Z.land (capability_flags d) (UINT32_MAX - LAPLACE_MACHINE_CAPABILITY_KNOWN_MASK) =? 0) ||
  (LAPLACE_MACHINE_RECOVERY_TYPED_LIMIT <? recovery_disposition d) ||
  (LAPLACE_MACHINE_PUBLICATION_UPPER_BOUND <? publication_disposition d).

(** The inner loop: a later descriptor repeats the condition or the priority. *)
Definition descriptor_clash (d later : laplace_machine_exception_descriptor) : bool :=
  (condition d =? condition later) ||
  (negb (condition d =? LAPLACE_MACHINE_CONDITION_NONE) && (priority d =? priority later)).

Fixpoint registry_loop (rest : list laplace_machine_exception_descriptor)
    : laplace_machine_exception_status :=
  match rest with
  | [] => LAPLACE_MACHINE_EXCEPTION_OK
  | d :: rest =>
      return_when descriptor_invalid d with LAPLACE_MACHINE_EXCEPTION_REGISTRY_INVALID ;;
      return_when existsb (descriptor_clash d) rest
        with LAPLACE_MACHINE_EXCEPTION_REGISTRY_INVALID ;;
      registry_loop rest
  end.

Definition laplace_machine_exception_registry_validate : laplace_machine_exception_status :=
  return_when negb (laplace_machine_exception_descriptor_count =? LAPLACE_MACHINE_CONDITION_COUNT)
    with LAPLACE_MACHINE_EXCEPTION_REGISTRY_INVALID ;;
  return_when negb (from_option condition 0 (head k_descriptors) =? LAPLACE_MACHINE_CONDITION_NONE)
    with LAPLACE_MACHINE_EXCEPTION_REGISTRY_INVALID ;;
  registry_loop k_descriptors.

Definition laplace_machine_exception_descriptor_validate
    (descriptor : ptr laplace_machine_exception_descriptor) : laplace_machine_exception_status :=
  match descriptor with
  | None => LAPLACE_MACHINE_EXCEPTION_INVALID_ARGUMENT
  | Some descriptor =>
      match laplace_machine_exception_registry_validate with
      | LAPLACE_MACHINE_EXCEPTION_OK =>
          match laplace_machine_exception_find (condition descriptor) with
          | None => LAPLACE_MACHINE_EXCEPTION_UNKNOWN_CONDITION
          | Some expected =>
              return_when negb (kind expected =? kind descriptor) ||
                  negb (priority expected =? priority descriptor) ||
                  negb (capability_flags expected =? capability_flags descriptor) ||
                  negb (recovery_disposition expected =? recovery_disposition descriptor) ||
                  negb (publication_disposition expected =? publication_disposition descriptor)
                with LAPLACE_MACHINE_EXCEPTION_INVALID_ARGUMENT ;;
              LAPLACE_MACHINE_EXCEPTION_OK
          end
      | _ => LAPLACE_MACHINE_EXCEPTION_REGISTRY_INVALID
      end
  end.

(** The loop over the observed conditions: the descriptor selected so far and
    the mask of the conditions seen, or nothing for an unknown condition. *)
Fixpoint classify_loop (observed : list Z)
    (selected : option laplace_machine_exception_descriptor) (observed_mask : Z)
    : option (option laplace_machine_exception_descriptor * Z) :=
  match observed with
  | [] => Some (selected, observed_mask)
  | c :: observed =>
      return_when (c =? LAPLACE_MACHINE_CONDITION_NONE) || (64 <=? c) with None ;;
      match laplace_machine_exception_find c with
      | None => None
      | Some d =>
          classify_loop observed
            (match selected with
             | None => Some d
             | Some s => if priority d <? priority s then Some d else selected
             end)
            (Z.lor observed_mask (u64 (Z.shiftl 1 c)))
      end
  end.

Definition laplace_machine_exception_classify (observed_conditions : ptr (list Z))
    (observed_condition_count : Z) (b : ptr laplace_machine_exception_binding)
    (receipt : ptr laplace_machine_exception_receipt)
    : laplace_machine_exception_status * ptr laplace_machine_exception_receipt :=
  match b with
  | None => (LAPLACE_MACHINE_EXCEPTION_INVALID_ARGUMENT, receipt)
  | Some b =>
      return_when is_null observed_conditions || (observed_condition_count =? 0) ||
          is_null receipt ||
          negb (Z.land (presence_mask b)
                  (UINT64_MAX - LAPLACE_MACHINE_EXCEPTION_BIND_KNOWN_MASK) =? 0)
        with (LAPLACE_MACHINE_EXCEPTION_INVALID_ARGUMENT, receipt) ;;
      match laplace_machine_exception_registry_validate with
      | LAPLACE_MACHINE_EXCEPTION_OK =>
          match classify_loop (cells observed_conditions observed_condition_count) None 0 with
          | Some (Some d, mask) =>
              (LAPLACE_MACHINE_EXCEPTION_OK, store receipt (mk_receipt d b mask 0))
          | _ => (LAPLACE_MACHINE_EXCEPTION_UNKNOWN_CONDITION, receipt)
          end
      | _ => (LAPLACE_MACHINE_EXCEPTION_REGISTRY_INVALID, receipt)
      end
  end.

Definition laplace_machine_exception_why_not (receipt : ptr laplace_machine_exception_receipt)
    (completed_work_units open_obligation_count : Z) (open_obligations continuation : ptr (list Z))
    (why_not : ptr laplace_machine_why_not)
    : laplace_machine_exception_status * ptr laplace_machine_why_not :=
  match receipt, open_obligations, continuation with
  | Some receipt, Some open_obligations, Some continuation =>
      return_when is_null why_not ||
          (condition (selected receipt) =? LAPLACE_MACHINE_CONDITION_NONE)
        with (LAPLACE_MACHINE_EXCEPTION_INVALID_ARGUMENT, why_not) ;;
      match laplace_machine_exception_find (condition (selected receipt)),
            laplace_machine_exception_descriptor_validate (Some (selected receipt)) with
      | Some descriptor, LAPLACE_MACHINE_EXCEPTION_OK =>
          (LAPLACE_MACHINE_EXCEPTION_OK,
           store why_not (mk_why_not open_obligations continuation completed_work_units
             open_obligation_count (condition descriptor) (recovery_disposition descriptor)))
      | _, _ => (LAPLACE_MACHINE_EXCEPTION_INVALID_ARGUMENT, why_not)
      end
  | _, _, _ => (LAPLACE_MACHINE_EXCEPTION_INVALID_ARGUMENT, why_not)
  end.
End Registry.

(** The table of the contract: condition, kind, priority, capabilities, recovery
    and publication. *)
Definition contract_descriptors : list laplace_machine_exception_descriptor :=
  [mk_descriptor 0 0 65535 0 0 0; mk_descriptor 1 1 10 65 0 0; mk_descriptor 2 1 20 65 0 0;
   mk_descriptor 3 3 30 65 0 0; mk_descriptor 4 3 40 31 2 0; mk_descriptor 5 3 50 31 2 0;
   mk_descriptor 6 3 60 31 2 0; mk_descriptor 7 3 70 19 3 0; mk_descriptor 8 3 80 31 2 0;
   mk_descriptor 9 3 90 31 2 0; mk_descriptor 10 1 100 65 0 0; mk_descriptor 11 4 110 19 3 0;
   mk_descriptor 12 2 120 23 1 0; mk_descriptor 13 5 130 23 1 0; mk_descriptor 14 5 140 65 0 0;
   mk_descriptor 15 5 150 19 4 0; mk_descriptor 16 5 160 65 4 0; mk_descriptor 17 5 170 65 4 1;
   mk_descriptor 18 5 180 65 4 2; mk_descriptor 19 5 190 64 4 0].

(** ** Specification *)

(** A well-typed registry. *)
Record registry_wf (table : list laplace_machine_exception_descriptor) : Prop := {
  registry_count : length table = 20%nat;
  registry_first : exists d rest, table = d :: rest /\ condition d = LAPLACE_MACHINE_CONDITION_NONE;
  registry_fields : Forall (fun d => condition d < 64 /\
    kind d <= LAPLACE_MACHINE_KIND_TERMINAL_DISPOSITION /\
    Z.land (capability_flags d) (UINT32_MAX - LAPLACE_MACHINE_CAPABILITY_KNOWN_MASK) = 0 /\
    recovery_disposition d <= LAPLACE_MACHINE_RECOVERY_TYPED_LIMIT /\
    publication_disposition d <= LAPLACE_MACHINE_PUBLICATION_UPPER_BOUND) table;
  registry_conditions : NoDup (map condition table);
  registry_priorities d e : d ∈ table -> e ∈ table ->
    condition d <> LAPLACE_MACHINE_CONDITION_NONE ->
    condition e <> LAPLACE_MACHINE_CONDITION_NONE -> priority d = priority e -> d = e }.

(** [d] is the descriptor of an observed condition, of the least priority number
    among them. *)
Definition prevails (table : list laplace_machine_exception_descriptor) (observed : list Z)
    (d : laplace_machine_exception_descriptor) : Prop :=
  d ∈ table /\ condition d ∈ observed /\
  forall e, e ∈ table -> condition e ∈ observed -> priority d <= priority e.

(** ** Proofs *)
Section Registry_proofs.
Context (table : list laplace_machine_exception_descriptor).

Lemma descriptor_invalid_spec d : descriptor_invalid d = false <->
  condition d < 64 /\ kind d <= LAPLACE_MACHINE_KIND_TERMINAL_DISPOSITION /\
  Z.land (capability_flags d) (UINT32_MAX - LAPLACE_MACHINE_CAPABILITY_KNOWN_MASK) = 0 /\
  recovery_disposition d <= LAPLACE_MACHINE_RECOVERY_TYPED_LIMIT /\
  publication_disposition d <= LAPLACE_MACHINE_PUBLICATION_UPPER_BOUND.
Proof.
  unfold descriptor_invalid. rewrite !orb_false_iff, negb_false_iff, Z.leb_gt, !Z.ltb_ge, Z.eqb_eq.
  tauto.
Qed.

Lemma registry_loop_spec l : registry_loop l = LAPLACE_MACHINE_EXCEPTION_OK <->
  Forall (fun d => descriptor_invalid d = false) l /\ NoDup (map condition l) /\
  StronglySorted (fun d e => condition d = LAPLACE_MACHINE_CONDITION_NONE \/ priority d <> priority e) l.
Proof.
  induction l as [|d l IH]; cbn [registry_loop map].
  { split; [|done]. intros _. repeat constructor. }
  rewrite Forall_cons, NoDup_cons, StronglySorted_cons.
  destruct (descriptor_invalid d) eqn:Hd; [naive_solver|].
  destruct (existsb (descriptor_clash d) l) eqn:Hc.
  - split; [done|]. intros (_ & (Hnin & _) & (Hp & _)). exfalso.
    apply existsb_exists in Hc as (e & He & Hc). apply list_elem_of_In in He.
    unfold descriptor_clash in Hc. apply orb_true_iff in Hc as [Hc|Hc].
    + apply Z.eqb_eq in Hc. apply Hnin. rewrite Hc. by apply list_elem_of_fmap_2.
    + bools. rewrite Forall_forall in Hp. destruct (Hp e He); congruence.
  - rewrite IH. assert (Hno : forall e, e ∈ l -> condition d <> condition e /\
      (condition d = LAPLACE_MACHINE_CONDITION_NONE \/ priority d <> priority e)).
    { intros e He. destruct (descriptor_clash d e) eqn:E.
      - exfalso. assert (Ht : existsb (descriptor_clash d) l = true); [|congruence].
        apply existsb_exists. exists e. split; [by apply list_elem_of_In|done].
      - unfold descriptor_clash in E. bools. split; [done|].
        match goal with H : _ && _ = false |- _ => apply andb_false_iff in H as [H|H] end;
        bools; auto. }
    split; [|naive_solver]. intros (Hf & Hnd & Hs). split_and!; try done.
    + intros Hin. apply list_elem_of_fmap in Hin as (e & Heq & He). by apply Hno in He as [? _].
    + apply Forall_forall. intros e He. by apply Hno.
Qed.

Lemma StronglySorted_distinct {A} (R : A -> A -> Prop) (l : list A) : NoDup l ->
  (forall a b, a ∈ l -> b ∈ l -> a <> b -> R a b) -> StronglySorted R l.
Proof.
  induction 1 as [|a l Hnin _ IH]; intros HR; [constructor|]. apply StronglySorted_cons. split.
  - apply Forall_forall. intros b Hb. apply HR; [by left|by right|]. by intros ->.
  - apply IH. intros x y Hx Hy. apply HR; by right.
Qed.

Lemma registry_validate_wf :
  laplace_machine_exception_registry_validate table = LAPLACE_MACHINE_EXCEPTION_OK <->
  registry_wf table.
Proof.
  unfold laplace_machine_exception_registry_validate, laplace_machine_exception_descriptor_count.
  destruct (Z.eqb_spec (Z.of_nat (length table)) LAPLACE_MACHINE_CONDITION_COUNT) as [Hn|Hn];
    cbn [negb]; [|split; [done|intros [Hc _ _ _ _]; lia]].
  destruct (Z.eqb_spec (from_option condition 0 (head table)) LAPLACE_MACHINE_CONDITION_NONE)
    as [Hf|Hf]; cbn [negb].
  2: { split; [done|]. intros [_ (d & rest & -> & Hd) _ _ _]. cbn in Hf. congruence. }
  rewrite registry_loop_spec. split.
  - intros (Hfields & Hnd & Hs). destruct table as [|d rest]; [done|].
    split; [lia|by exists d, rest| |done|].
    + eapply Forall_impl; [exact Hfields|]. intros e. apply descriptor_invalid_spec.
    + intros a b Ha Hb Hca Hcb Hp.
      destruct (StronglySorted_trichotomy _ _ a b Hs Ha Hb) as [?|[[?|?]|[?|?]]]; congruence.
  - intros [_ (d & rest & -> & Hd) Hfields Hnd Hp]. split; [|split; [done|]].
    + eapply Forall_impl; [exact Hfields|]. intros e. apply descriptor_invalid_spec.
    + cbn in Hnd. apply NoDup_cons in Hnd as [Hnin Hnd]. apply StronglySorted_cons. split.
      { apply Forall_forall. auto. }
      assert (Hnone : forall a, a ∈ rest -> condition a <> LAPLACE_MACHINE_CONDITION_NONE).
      { intros a Ha Hc. apply Hnin. rewrite Hd, <- Hc. by apply list_elem_of_fmap_2. }
      apply StronglySorted_distinct; [by eapply NoDup_fmap_1|].
      intros a b Ha Hb Hne. right. intros Heq. apply Hne, Hp; auto; by right.
Qed.

Lemma registry_validate_status :
  laplace_machine_exception_registry_validate table = LAPLACE_MACHINE_EXCEPTION_OK \/
  laplace_machine_exception_registry_validate table = LAPLACE_MACHINE_EXCEPTION_REGISTRY_INVALID.
Proof.
  unfold laplace_machine_exception_registry_validate. destruct (negb _); [auto|].
  destruct (negb _); [auto|]. induction table as [|d l IH]; cbn; [auto|].
  destruct (descriptor_invalid d); [auto|]. destruct (existsb _ l); auto.
Qed.

(** ** Lookup and classification in a well-formed registry *)
Lemma find_some c d : laplace_machine_exception_find table c = Some d -> d ∈ table /\ condition d = c.
Proof.
  unfold laplace_machine_exception_find. destruct (list_find _ table) as [[i e]|] eqn:E; [|done].
  intros [= ->]. apply list_find_Some in E as (Hi & Hc & _). split; [|done].
  by eapply list_elem_of_lookup_2.
Qed.

Lemma find_none c : laplace_machine_exception_find table c = None ->
  forall d, d ∈ table -> condition d <> c.
Proof.
  unfold laplace_machine_exception_find. destruct (list_find _ table) as [[i e]|] eqn:E; [done|].
  intros _ d Hd. apply list_find_None in E. rewrite Forall_forall in E. by apply E.
Qed.

Lemma find_complete d : NoDup (map condition table) -> d ∈ table ->
  laplace_machine_exception_find table (condition d) = Some d.
Proof.
  intros Hnd Hd. destruct (laplace_machine_exception_find table (condition d)) as [e|] eqn:E.
  - apply find_some in E as [He Hc]. f_equal.
    apply list_elem_of_lookup in Hd as [i Hi], He as [j Hj].
    assert (i = j) as ->; [|congruence].
    eapply (NoDup_lookup (map condition table)); [done|..]; rewrite list_lookup_fmap;
      [by rewrite Hi|by rewrite Hj; cbn; rewrite Hc].
  - by apply find_none with (d := d) in E.
Qed.

Definition known (observed : list Z) : Prop :=
  forall c, c ∈ observed -> c <> LAPLACE_MACHINE_CONDITION_NONE /\
    exists d, d ∈ table /\ condition d = c.

(** The selection prevails over what was seen. *)
#[local] Definition prevailing (seen : list Z)
    (s : option laplace_machine_exception_descriptor) : Prop :=
  match s with Some d => prevails table seen d | None => seen = [] end.

Lemma prevailing_step seen s d : NoDup (map condition table) -> d ∈ table -> prevailing seen s ->
  prevailing (seen ++ [condition d])
    (match s with
     | None => Some d
     | Some s' => if priority d <? priority s' then Some d else s
     end).
Proof.
  intros Hnd Hd Hs.
  assert (Hsame : forall e, e ∈ table -> condition e = condition d -> e = d).
  { intros e He Hc. apply find_complete in Hd, He; [|done..]. congruence. }
  destruct s as [s'|]; cbn in Hs.
  - destruct Hs as (Hs & Hc & Hmin). destruct (Z.ltb_spec (priority d) (priority s')); cbn;
      (split; [done|]); (split; [set_solver|]); intros e He [Hin|Heq]%elem_of_app;
      [specialize (Hmin e He Hin); lia| |by apply Hmin|];
      apply list_elem_of_singleton in Heq; apply Hsame in Heq as ->; done || lia.
  - subst seen. cbn. split; [done|]. split; [set_solver|].
    intros e He Heq%list_elem_of_singleton. by apply Hsame in Heq as ->.
Qed.

Lemma classify_loop_spec : registry_wf table -> forall observed seen s mask,
  Forall (fun c => 0 <= c) observed -> prevailing seen s ->
  match classify_loop table observed s mask with
  | Some (s', mask') =>
      known observed /\ prevailing (seen ++ observed) s' /\
      forall i, 0 <= i -> Z.testbit mask' i = Z.testbit mask i || bool_decide (i ∈ observed)
  | None => ~ known observed
  end.
Proof.
  intros Hwf. induction observed as [|c observed IH]; intros seen s mask Hpos Hs; cbn [classify_loop].
  { split; [intros c Hc; by apply elem_of_nil in Hc|]. split; [by rewrite app_nil_r|].
    intros i _. by rewrite bool_decide_false, orb_false_r by apply not_elem_of_nil. }
  apply Forall_cons in Hpos as [Hc Hpos].
  assert (Hfirst : known (c :: observed) -> c <> 0 /\ c < 64 /\ known observed /\
    exists d, d ∈ table /\ condition d = c).
  { intros Hk. destruct (Hk c) as [H0 (d & Hd & Hdc)]; [by left|]. split; [done|]. split.
    - destruct Hwf as [_ _ Hf _ _]. rewrite Forall_forall in Hf. apply Hf in Hd as [? _]. lia.
    - split; [|by exists d]. intros c' Hc'. apply Hk. by right. }
  destruct ((c =? LAPLACE_MACHINE_CONDITION_NONE) || (64 <=? c)) eqn:Hg.
  { intros (H0 & H64 & _)%Hfirst. apply orb_true_iff in Hg as [Hg|Hg];
      [by apply Z.eqb_eq in Hg|apply Z.leb_le in Hg; lia]. }
  bools. destruct (laplace_machine_exception_find table c) as [d|] eqn:Hd.
  - apply find_some in Hd as [Hd Hdc]. 
    pose proof (prevailing_step seen s d (registry_conditions _ Hwf) Hd Hs) as Hs'.
    rewrite Hdc in Hs'.
    specialize (IH (seen ++ [c]) _ (Z.lor mask (u64 (Z.shiftl 1 c))) Hpos Hs').
    destruct (classify_loop _ _ _ _) as [[s' mask']|].
    + destruct IH as (Hk & Hp & Hm). split.
      { intros c' [->|Hc']%elem_of_cons; [split; [done|by exists d]|by apply Hk]. }
      rewrite <- app_assoc in Hp. split; [done|]. intros i Hi.
      rewrite Hm, Z.lor_spec, <- orb_assoc by done. f_equal.
      rewrite u64_small.
      2: { rewrite Z.shiftl_1_l. pose proof (Z.pow_nonneg 2 c).
           pose proof (Z.pow_lt_mono_r 2 c 64) as H64. change (2 ^ 64) with 18446744073709551616 in H64.
           lia. }
      rewrite Z.shiftl_1_l, Z.pow2_bits_eqb by lia.
      destruct (Z.eqb_spec c i) as [->|Hne]; cbn.
      * symmetry. apply bool_decide_true. by left.
      * apply bool_decide_ext. rewrite elem_of_cons. naive_solver.
    + intros (_ & _ & Hk & _)%Hfirst. done.
  - intros (_ & _ & _ & d & Hdt & Hdc)%Hfirst. by apply find_none with (d := d) in Hd.
Qed.

Lemma prevails_unique observed d e : registry_wf table -> known observed ->
  prevails table observed d -> prevails table observed e -> e = d.
Proof.
  intros Hwf Hk (Hd & Hdo & Hdm) (He & Heo & Hem). symmetry.
  apply (registry_priorities _ Hwf); [done|done|by apply Hk in Hdo as [? _]|
    by apply Hk in Heo as [? _]|].
  apply Z.le_antisymm; auto.
Qed.
End Registry_proofs.

Lemma u32_nonneg (l : list Z) : Forall (fun c => is_u32 c) l -> Forall (fun c => 0 <= c) l.
Proof. induction 1; constructor; [lia|done]. Qed.

(** A successful classification selected the condition that prevails. *)
Lemma classify_selected table observed b receipt r :
  Forall (fun c => is_u32 c) observed ->
  laplace_machine_exception_classify table (Some observed) (Z.of_nat (length observed)) (Some b)
    receipt = (LAPLACE_MACHINE_EXCEPTION_OK, r) ->
  registry_wf table /\ known table observed /\
  exists d mask, r = store receipt (mk_receipt d b mask 0) /\ prevails table observed d /\
    forall i, 0 <= i -> Z.testbit mask i = bool_decide (i ∈ observed).
Proof.
  intros Hu. unfold laplace_machine_exception_classify. destruct (_ || _) eqn:Hg; [done|].
  rewrite cells_all by done. pose proof (registry_validate_wf table) as Hwf.
  destruct (laplace_machine_exception_registry_validate table); [|done..].
  destruct Hwf as [Hwf _]. specialize (Hwf eq_refl).
  pose proof (classify_loop_spec table Hwf observed [] None 0) as Hl.
  destruct (classify_loop table observed None 0) as [[[d|] mask]|]; [|done..].
  intros [= <-]. destruct Hl as (Hk & Hp & Hm); [|done|].
  { by apply u32_nonneg. }
  split; [done|]. split; [done|]. exists d, mask. split; [done|]. split; [done|].
  intros i Hi. by rewrite Hm, Z.bits_0.
Qed.

(** The registry check accepts exactly the well-typed registries: the right
    number of descriptors, the condition that means none first, every field in
    the vocabulary of the contract, no condition twice and no priority twice
    among real conditions.  In such a registry a descriptor validates exactly
    when it is one of the registry's. *)
Theorem registry_validate_exact table :
  (laplace_machine_exception_registry_validate table = LAPLACE_MACHINE_EXCEPTION_OK <->
     registry_wf table) /\
  (laplace_machine_exception_registry_validate table <> LAPLACE_MACHINE_EXCEPTION_OK ->
     laplace_machine_exception_registry_validate table =
     LAPLACE_MACHINE_EXCEPTION_REGISTRY_INVALID) /\
  (forall d, laplace_machine_exception_descriptor_validate table (Some d) =
       LAPLACE_MACHINE_EXCEPTION_OK <-> registry_wf table /\ d ∈ table).
Proof.
  pose proof (registry_validate_wf table) as Hwf. split; [done|]. split.
  { destruct (registry_validate_status table) as [H|H]; [done|auto]. }
  intros d. unfold laplace_machine_exception_descriptor_validate.
  destruct (laplace_machine_exception_registry_validate table);
    [|split; [done|by intros [?%Hwf _]]..].
  assert (Hreg : registry_wf table) by by apply Hwf.
  destruct (laplace_machine_exception_find table (condition d)) as [e|] eqn:He.
  - apply find_some in He as [He Hc]. destruct (_ || _) eqn:Hg.
    + split; [done|]. intros [_ Hd]. exfalso.
      assert (d = e) as ->; [|by rewrite !Z.eqb_refl in Hg].
      pose proof (find_complete table d (registry_conditions _ Hreg) Hd) as H1.
      pose proof (find_complete table e (registry_conditions _ Hreg) He) as H2. congruence.
    + bools. split; [|done]. intros _. split; [done|].
      replace d with e; [done|]. destruct d, e. cbn in *. congruence.
  - split; [done|]. intros [_ Hd]. by apply find_none with (d := d) in He.
Qed.

(** C36: Classification succeeds exactly in a well-formed registry on observed
    conditions it knows; it selects the one condition of least priority number
    among them, whatever their order and repetitions, and the mask has exactly
    the bits of the observed conditions.  Otherwise the receipt is untouched. *)
Theorem classify_exact table observed b old : observed <> [] -> Forall (fun c => is_u32 c) observed ->
  Z.land (presence_mask b) (UINT64_MAX - LAPLACE_MACHINE_EXCEPTION_BIND_KNOWN_MASK) = 0 ->
  let '(status, receipt) := laplace_machine_exception_classify table (Some observed)
    (Z.of_nat (length observed)) (Some b) (Some old) in
  (status = LAPLACE_MACHINE_EXCEPTION_OK <-> registry_wf table /\ known table observed) /\
  (status = LAPLACE_MACHINE_EXCEPTION_OK -> exists d mask,
     receipt = Some (mk_receipt d b mask 0) /\ prevails table observed d /\
     (forall e, prevails table observed e -> e = d) /\
     forall i, 0 <= i -> Z.testbit mask i = bool_decide (i ∈ observed)) /\
  (status <> LAPLACE_MACHINE_EXCEPTION_OK -> receipt = Some old /\
     status = if decide (laplace_machine_exception_registry_validate table =
                         LAPLACE_MACHINE_EXCEPTION_OK)
              then LAPLACE_MACHINE_EXCEPTION_UNKNOWN_CONDITION
              else LAPLACE_MACHINE_EXCEPTION_REGISTRY_INVALID).
Proof.
  intros Hne Hu Hmask.
  destruct (laplace_machine_exception_classify _ _ _ _ _) as [status receipt] eqn:Hrun.
  pose proof (u32_nonneg observed Hu) as Hpos.
  assert (Hsel : status = LAPLACE_MACHINE_EXCEPTION_OK -> registry_wf table /\ known table observed /\
    exists d mask, receipt = Some (mk_receipt d b mask 0) /\ prevails table observed d /\
      forall i, 0 <= i -> Z.testbit mask i = bool_decide (i ∈ observed)).
  { intros ->. by apply classify_selected in Hrun. }
  unfold laplace_machine_exception_classify in Hrun. revert Hrun. ptrs. rewrite Hmask.
  assert (Hlen : Z.of_nat (length observed) <> 0) by (destruct observed; [done|cbn; lia]).
  rewrite (proj2 (Z.eqb_neq _ _) Hlen). cbn [orb negb Z.eqb]. rewrite cells_all by done.
  intros Hrun. split; [split; [naive_solver|]|split].
  - intros [Hwf Hk]. rewrite (proj2 (registry_validate_wf table) Hwf) in Hrun.
    pose proof (classify_loop_spec table Hwf observed [] None 0 Hpos eq_refl) as Hl.
    destruct (classify_loop table observed None 0) as [[[d|] mask]|]; [by injection Hrun| |done].
    by destruct Hl as (_ & Hp & _).
  - intros (Hwf & Hk & d & mask & -> & Hp & Hm)%Hsel. exists d, mask. split_and!; try done.
    intros e He. by apply (prevails_unique table observed).
  - intros Hs. destruct (registry_validate_status table) as [Hv|Hv]; rewrite Hv in Hrun |- *.
    + rewrite decide_True by done.
      destruct (classify_loop table observed None 0) as [[[d|] mask]|]; injection Hrun as <- <-; done.
    + rewrite decide_False by done. by injection Hrun as <- <-.
Qed.

(** Every receipt that classification produced can be accounted for: the
    account names the prevailing condition and its recovery disposition, with
    the caller's work counts and obligations. *)
Theorem why_not_explains table observed b old receipt work open obligations continuation w :
  Forall (fun c => is_u32 c) observed ->
  laplace_machine_exception_classify table (Some observed) (Z.of_nat (length observed)) (Some b)
    (Some old) = (LAPLACE_MACHINE_EXCEPTION_OK, Some receipt) ->
  exists d, prevails table observed d /\
    laplace_machine_exception_why_not table (Some receipt) work open (Some obligations)
      (Some continuation) (Some w) =
    (LAPLACE_MACHINE_EXCEPTION_OK,
     Some (mk_why_not obligations continuation work open (condition d) (recovery_disposition d))).
Proof.
  intros Hu Hrun. apply classify_selected in Hrun as (Hwf & Hk & d & mask & [= ->] & Hp & _); [|done].
  exists d. split; [done|]. destruct Hp as (Hd & Hdo & _).
  unfold laplace_machine_exception_why_not. cbn [selected]. ptrs.
  destruct (Hk _ Hdo) as [Hnone _]. rewrite (proj2 (Z.eqb_neq _ _) Hnone).
  unfold laplace_machine_exception_descriptor_validate.
  rewrite (proj2 (registry_validate_wf table) Hwf).
  rewrite find_complete by (done || apply Hwf). by rewrite !Z.eqb_refl.
Qed.

(** ** The contract's table, and a cancelled run on faulty storage *)
Lemma contract_registry_valid :
  laplace_machine_exception_registry_validate contract_descriptors = LAPLACE_MACHINE_EXCEPTION_OK.
Proof. vm_compute. reflexivity. Qed.

Definition sample_binding : laplace_machine_exception_binding :=
  mk_binding (zeros 32) (zeros 32) (zeros 32) (zeros 32) (zeros 32) (zeros 32) (zeros 32)
    (zeros 32) (zeros 32) (zeros 32) 1023 17 3 0.
Definition sample_receipt : laplace_machine_exception_receipt :=
  mk_receipt (mk_descriptor 5 3 50 31 2 0) sample_binding 2080 0.

Lemma classify_exact_witness :
  exists receipt, laplace_machine_exception_classify contract_descriptors (Some [11; 5; 11]) 3
    (Some sample_binding) (Some sample_receipt) = (LAPLACE_MACHINE_EXCEPTION_OK, receipt) /\
  exists d mask, receipt = Some (mk_receipt d sample_binding mask 0) /\
    prevails contract_descriptors [11; 5; 11] d /\ Z.testbit mask 5 = true.
Proof.
  pose proof (classify_exact contract_descriptors [11; 5; 11] sample_binding sample_receipt
    ltac:(discriminate) ltac:(repeat constructor; lia) eq_refl) as H.
  destruct (laplace_machine_exception_classify _ _ _ _ _) as [status receipt] eqn:Hrun.
  assert (Hok : status = LAPLACE_MACHINE_EXCEPTION_OK)
    by (vm_compute in Hrun; injection Hrun as <- _; reflexivity).
  subst status. exists receipt. split; [reflexivity|].
  destruct H as (_ & H & _). destruct (H eq_refl) as (d & mask & Hr & Hp & _ & Hm).
  exists d, mask. split; [exact Hr|]. split; [exact Hp|]. rewrite Hm by lia. reflexivity.
Defined.

Lemma why_not_explains_witness :
  exists d, prevails contract_descriptors [11; 5] d /\
    laplace_machine_exception_why_not contract_descriptors (Some sample_receipt) 7 2
      (Some (zeros 32)) (Some (zeros 32)) (Some (mk_why_not [] [] 0 0 0 0)) =
    (LAPLACE_MACHINE_EXCEPTION_OK,
     Some (mk_why_not (zeros 32) (zeros 32) 7 2 (condition d) (recovery_disposition d))).
Proof.
  apply (why_not_explains contract_descriptors [11; 5] sample_binding sample_receipt).
  - repeat constructor; lia.
  - vm_compute. reflexivity.
Defined.
