(* ===== verification/EvidenceTestimony.v ===== *)
(** * Evidence testimony: typed testimony records and their batches

    Models [engine/src/evidence_testimony.c] and
    [engine/include/laplace/evidence_testimony.h]: the canonical uncertainty
    fraction, the testimony identity, and the recording of an ordered,
    profile-homogeneous batch with its receipt.  The Euclidean loop runs with
    fuel 129, which [gcd_loop_enough] proves sufficient for 64-bit words.

    The identity is the code's; the preimage in the contract has the same fields
    in another order, and [contract_transcript_coincides] says when the two are
    the same bytes. *)
From stdpp Require Import prelude strings sorting.
From Stdlib Require Import ZArith Lia Znumtheory.
From S2P Require Import Prelude Bytes Sorting Hash Identity.

(** ** Contract constants ([contracts/evidence-testimony.json]) *)
Abbreviation LAPLACE_EVIDENCE_TESTIMONY_VERSION := 1 (only parsing).
Abbreviation LAPLACE_EVIDENCE_SOURCE_STANDARD := 1 (only parsing).
Abbreviation LAPLACE_EVIDENCE_SOURCE_EXTERNAL_PROVIDER := 8 (only parsing).
Abbreviation LAPLACE_EVIDENCE_OUTCOME_ASSERTION := 1 (only parsing).
Abbreviation LAPLACE_EVIDENCE_OUTCOME_UNKNOWN_BOUNDARY := 9 (only parsing).
Abbreviation LAPLACE_EVIDENCE_DISPOSITION_PERSISTED := 1 (only parsing).
Abbreviation LAPLACE_EVIDENCE_DISPOSITION_UNSUPPORTED := 5 (only parsing).
Abbreviation LAPLACE_EVIDENCE_DISPOSITION_MALFORMED := 6 (only parsing).
Abbreviation LAPLACE_EVIDENCE_DISPOSITION_UNRESOLVED := 7 (only parsing).
Abbreviation LAPLACE_EVIDENCE_DISPOSITION_REJECTED := 8 (only parsing).
Abbreviation LAPLACE_EVIDENCE_DISPOSITION_CONTRADICTED := 10 (only parsing).
Abbreviation LAPLACE_EVIDENCE_TESTIMONY_FLAGS_NONE := 0 (only parsing).

(** ** Data *)
Record laplace_evidence_testimony_record := mk_record {
  testimony_id : laplace_digest256;
  evidence_node_id : laplace_digest256;
  source_profile_id : laplace_digest256;
  recipe_receipt_id : laplace_digest256;
  trust_input_id : laplace_digest256;
  outcome_detail_id : laplace_digest256;
  uncertainty_numerator : Z;
  uncertainty_denominator : Z;
  sample_count : Z;
  source_type : Z;
  outcome_type : Z;
  disposition : Z;
  flags : Z }.

Record laplace_evidence_testimony_receipt := mk_receipt {
  receipt_id : laplace_digest256;
  receipt_source_profile_id : laplace_digest256;
  input_fingerprint : laplace_digest256;
  output_fingerprint : laplace_digest256;
  testimony_count : Z;
  receipt_sample_count : Z;
  uncertain_count : Z;
  negative_disposition_count : Z;
  version : Z;
  receipt_status : Z }.

Record laplace_evidence_testimony_error := mk_error { record_index : Z }.

Inductive laplace_evidence_testimony_status :=
| LAPLACE_EVIDENCE_TESTIMONY_OK
| LAPLACE_EVIDENCE_TESTIMONY_INVALID_ARGUMENT
| LAPLACE_EVIDENCE_TESTIMONY_RECORD_INVALID
| LAPLACE_EVIDENCE_TESTIMONY_IDENTITY_MISMATCH
| LAPLACE_EVIDENCE_TESTIMONY_ORDER_INVALID
| LAPLACE_EVIDENCE_TESTIMONY_PROFILE_MISMATCH
| LAPLACE_EVIDENCE_TESTIMONY_UNCERTAINTY_INVALID
| LAPLACE_EVIDENCE_TESTIMONY_OVERFLOW.

#[export] Instance testimony_status_eq_dec : EqDecision laplace_evidence_testimony_status.
Proof. solve_decision. Defined.

(** ** Uncertainty *)
Fixpoint gcd_loop (fuel : nat) (left right : Z) : Z :=
  match fuel with
  | O => left
  | S fuel => if right =? 0 then left else gcd_loop fuel right (left mod right)
  end.

Definition gcd_u64 (left right : Z) : Z := gcd_loop 129 left right.

Definition uncertainty_valid (numerator denominator : Z) : bool :=
  return_when (denominator =? 0) || (denominator <? numerator) with false ;;
  return_when numerator =? 0 with (denominator =? 1) ;;
  gcd_u64 numerator denominator =? 1.

Definition source_type_valid (value : Z) : bool :=
  (LAPLACE_EVIDENCE_SOURCE_STANDARD <=? value) &&
  (value <=? LAPLACE_EVIDENCE_SOURCE_EXTERNAL_PROVIDER).

Definition outcome_type_valid (value : Z) : bool :=
  (LAPLACE_EVIDENCE_OUTCOME_ASSERTION <=? value) &&
  (value <=? LAPLACE_EVIDENCE_OUTCOME_UNKNOWN_BOUNDARY).

Definition disposition_valid (value : Z) : bool :=
  (LAPLACE_EVIDENCE_DISPOSITION_PERSISTED <=? value) &&
  (value <=? LAPLACE_EVIDENCE_DISPOSITION_CONTRADICTED).

Definition disposition_negative (value : Z) : bool :=
  existsb (Z.eqb value)
    [LAPLACE_EVIDENCE_DISPOSITION_UNSUPPORTED; LAPLACE_EVIDENCE_DISPOSITION_MALFORMED;
     LAPLACE_EVIDENCE_DISPOSITION_UNRESOLVED; LAPLACE_EVIDENCE_DISPOSITION_REJECTED;
     LAPLACE_EVIDENCE_DISPOSITION_CONTRADICTED].

Section Testimony.
Context {B : Blake3}.

(** ** Identity *)
Definition hash_record (hasher : blake3_hasher) (r : laplace_evidence_testimony_record)
    (include_identity : bool) : blake3_hasher :=
  let hasher :=
    if include_identity then blake3_hasher_update hasher (testimony_id r) else hasher in
  let hasher := blake3_hasher_update hasher (evidence_node_id r) in
  let hasher := blake3_hasher_update hasher (source_profile_id r) in
  let hasher := blake3_hasher_update hasher (recipe_receipt_id r) in
  let hasher := blake3_hasher_update hasher (trust_input_id r) in
  let hasher := blake3_hasher_update hasher (outcome_detail_id r) in
  let hasher := hash_u64 hasher (uncertainty_numerator r) in
  let hasher := hash_u64 hasher (uncertainty_denominator r) in
  let hasher := hash_u64 hasher (sample_count r) in
  let hasher := hash_u32 hasher (source_type r) in
  let hasher := hash_u32 hasher (outcome_type r) in
  let hasher := hash_u32 hasher (disposition r) in
  hash_u32 hasher (flags r).

Definition record_fields_invalid (r : laplace_evidence_testimony_record) : bool :=
  bytes_zero (evidence_node_id r) || bytes_zero (source_profile_id r) ||
  bytes_zero (recipe_receipt_id r) || bytes_zero (trust_input_id r) ||
  bytes_zero (outcome_detail_id r) || (sample_count r =? 0) ||
  negb (source_type_valid (source_type r)) || negb (outcome_type_valid (outcome_type r)) ||
  negb (disposition_valid (disposition r)) ||
  negb (flags r =? LAPLACE_EVIDENCE_TESTIMONY_FLAGS_NONE).

Definition laplace_evidence_testimony_identify
    (testimony : ptr laplace_evidence_testimony_record) (id : ptr laplace_digest256)
    : laplace_evidence_testimony_status * ptr laplace_digest256 :=
  match testimony, id with
  | Some r, Some _ =>
      return_when record_fields_invalid r with (LAPLACE_EVIDENCE_TESTIMONY_RECORD_INVALID, id) ;;
      return_when negb (uncertainty_valid (uncertainty_numerator r) (uncertainty_denominator r))
        with (LAPLACE_EVIDENCE_TESTIMONY_UNCERTAINTY_INVALID, id) ;;
      let hasher := blake3_hasher_update blake3_hasher_init
                      (domain_bytes "laplace-evidence-testimony-v1") in
      (LAPLACE_EVIDENCE_TESTIMONY_OK,
       store id (blake3_hasher_finalize (hash_record hasher r false)))
  | _, _ => (LAPLACE_EVIDENCE_TESTIMONY_RECORD_INVALID, id)
  end.

(** ** Batches *)
Record accumulator := mk_accumulator {
  input_hasher : blake3_hasher;
  output_hasher : blake3_hasher;
  samples : Z;
  uncertain : Z;
  negative : Z }.

(** The checks of one iteration; [previous] is the record before, if any. *)
Definition check_record (first : laplace_evidence_testimony_record)
    (previous : option laplace_evidence_testimony_record) (samples : Z)
    (r : laplace_evidence_testimony_record) : laplace_evidence_testimony_status :=
  match laplace_evidence_testimony_identify (Some r) (Some (zeros 32)) with
  | (LAPLACE_EVIDENCE_TESTIMONY_OK, expected) =>
      return_when negb (bytes_equal (default [] expected) (testimony_id r))
        with LAPLACE_EVIDENCE_TESTIMONY_IDENTITY_MISMATCH ;;
      return_when match previous with
                  | None => false
                  | Some p => match memcmp (testimony_id p) (testimony_id r) with
                              | Lt => false
                              | _ => true
                              end
                  end
        with LAPLACE_EVIDENCE_TESTIMONY_ORDER_INVALID ;;
      return_when match previous with
                  | None => false
                  | Some _ => negb (bytes_equal (source_profile_id first) (source_profile_id r))
                  end
        with LAPLACE_EVIDENCE_TESTIMONY_PROFILE_MISMATCH ;;
      return_when UINT64_MAX - samples <? sample_count r
        with LAPLACE_EVIDENCE_TESTIMONY_OVERFLOW ;;
      LAPLACE_EVIDENCE_TESTIMONY_OK
  | (failed, _) => failed
  end.

Definition accumulate (acc : accumulator) (r : laplace_evidence_testimony_record)
    : accumulator := {|
  input_hasher := hash_record (input_hasher acc) r true;
  output_hasher := blake3_hasher_update (output_hasher acc) (testimony_id r);
  samples := samples acc + sample_count r;
  uncertain := uncertain acc + (if uncertainty_numerator r =? 0 then 0 else 1);
  negative := negative acc + (if disposition_negative (disposition r) then 1 else 0) |}.

Fixpoint record_loop (first : laplace_evidence_testimony_record)
    (previous : option laplace_evidence_testimony_record)
    (records : list laplace_evidence_testimony_record) (index : Z) (acc : accumulator)
    : laplace_evidence_testimony_status * Z * accumulator :=
  match records with
  | [] => (LAPLACE_EVIDENCE_TESTIMONY_OK, UINT64_MAX, acc)
  | r :: rest =>
      match check_record first previous (samples acc) r with
      | LAPLACE_EVIDENCE_TESTIMONY_OK =>
          record_loop first (Some r) rest (index + 1) (accumulate acc r)
      | failed => (failed, index, acc)
      end
  end.

Definition initial_accumulator (record_count : Z) : accumulator := {|
  input_hasher := hash_u64 (blake3_hasher_update blake3_hasher_init
    (domain_bytes "laplace-evidence-testimony-input-v1")) record_count;
  output_hasher := hash_u64 (blake3_hasher_update blake3_hasher_init
    (domain_bytes "laplace-evidence-testimony-output-v1")) record_count;
  samples := 0;
  uncertain := 0;
  negative := 0 |}.

Definition hash_receipt (r : laplace_evidence_testimony_receipt) : blake3_hasher :=
  let hasher := blake3_hasher_update blake3_hasher_init
                  (domain_bytes "laplace-evidence-testimony-receipt-v1") in
  let hasher := blake3_hasher_update hasher (receipt_source_profile_id r) in
  let hasher := blake3_hasher_update hasher (input_fingerprint r) in
  let hasher := blake3_hasher_update hasher (output_fingerprint r) in
  let hasher := hash_u64 hasher (testimony_count r) in
  let hasher := hash_u64 hasher (receipt_sample_count r) in
  let hasher := hash_u64 hasher (uncertain_count r) in
  let hasher := hash_u64 hasher (negative_disposition_count r) in
  let hasher := hash_u32 hasher (version r) in
  hash_u32 hasher (receipt_status r).

Definition empty_receipt : laplace_evidence_testimony_receipt :=
  mk_receipt (zeros 32) (zeros 32) (zeros 32) (zeros 32) 0 0 0 0
    LAPLACE_EVIDENCE_TESTIMONY_VERSION 0.

Definition final_receipt (profile : laplace_digest256) (record_count : Z) (acc : accumulator)
    : laplace_evidence_testimony_receipt :=
  let body :=
    mk_receipt (zeros 32) profile (blake3_hasher_finalize (input_hasher acc))
      (blake3_hasher_finalize (output_hasher acc)) record_count (samples acc)
      (uncertain acc) (negative acc) LAPLACE_EVIDENCE_TESTIMONY_VERSION 0 in
  mk_receipt (blake3_hasher_finalize (hash_receipt body)) (receipt_source_profile_id body)
    (input_fingerprint body) (output_fingerprint body) (testimony_count body)
    (receipt_sample_count body) (uncertain_count body) (negative_disposition_count body)
    (version body) (receipt_status body).

Definition laplace_evidence_record_testimony_batch
    (records : ptr (list laplace_evidence_testimony_record)) (record_count : Z)
    (receipt : ptr laplace_evidence_testimony_receipt)
    (error : ptr laplace_evidence_testimony_error)
    : laplace_evidence_testimony_status * ptr laplace_evidence_testimony_receipt *
      ptr laplace_evidence_testimony_error :=
  return_when is_null records || (record_count =? 0) || is_null receipt
    with (LAPLACE_EVIDENCE_TESTIMONY_INVALID_ARGUMENT, store receipt empty_receipt,
          store error (mk_error UINT64_MAX)) ;;
  match cells records record_count with
  | [] => (* not reached: the array holds [record_count] > 0 records *)
      (LAPLACE_EVIDENCE_TESTIMONY_INVALID_ARGUMENT, store receipt empty_receipt,
           store error (mk_error UINT64_MAX))
  | (first :: _) as all =>
      match record_loop first None all 0 (initial_accumulator record_count) with
      | (LAPLACE_EVIDENCE_TESTIMONY_OK, _, acc) =>
          (LAPLACE_EVIDENCE_TESTIMONY_OK,
           store receipt (final_receipt (source_profile_id first) record_count acc),
           store error (mk_error UINT64_MAX))
      | (failed, index, _) =>
          (failed, store receipt empty_receipt, store error (mk_error index))
      end
  end.
End Testimony.

(** ** Uncertainty is canonical *)
Lemma gcd_loop_enough k : forall l r,
  0 <= l -> 0 <= r < 2 ^ Z.of_nat k -> gcd_loop (2 * k + 1) l r = Z.gcd l r.
Proof.
  induction k as [|k IH]; intros l r Hl Hr.
  { change (2 ^ Z.of_nat 0) with 1 in Hr. assert (r = 0) as -> by lia.
    simpl. rewrite Z.gcd_0_r. lia. }
  replace (2 * S k + 1)%nat with (S (S (2 * k + 1))) by lia. cbn [gcd_loop].
  destruct (Z.eqb_spec r 0) as [->|Hr0]; [rewrite Z.gcd_0_r; lia|].
  pose proof (Z.mod_pos_bound l r ltac:(lia)).
  destruct (Z.eqb_spec (l mod r) 0) as [Hz|Hz].
  { rewrite Z.gcd_comm, <- Z.gcd_mod, Hz, Z.gcd_0_l by lia. lia. }
  pose proof (Z.mod_pos_bound r (l mod r) ltac:(lia)).
  pose proof (Z.div_mod r (l mod r) Hz).
  assert (1 <= r / (l mod r)) by (apply Z.div_le_lower_bound; lia).
  rewrite IH; [|lia|].
  - rewrite Z.gcd_comm, Z.gcd_mod by lia. rewrite Z.gcd_mod by lia. apply Z.gcd_comm.
  - rewrite Nat2Z.inj_succ, Z.pow_succ_r in Hr by lia. nia.
Qed.

Lemma gcd_u64_spec l r : is_u64 l -> is_u64 r -> gcd_u64 l r = Z.gcd l r.
Proof.
  intros Hl Hr. apply (gcd_loop_enough 64); [lia|].
  change (2 ^ Z.of_nat 64) with 18446744073709551616. lia.
Qed.

(** uncertainty fractions are exact and canonical.  Validation accepts
    exactly the reduced fractions of the unit interval (zero only as 0/1);
    every fraction in the unit interval has an accepted form, and two accepted
    fractions of equal value are the same pair, so a testimony's identity
    cannot change with the representation of its uncertainty. *)
Theorem uncertainty_canonical n d :
  is_u64 n -> is_u64 d ->
  (uncertainty_valid n d = true <-> 0 < d /\ n <= d /\ Z.gcd n d = 1) /\
  (0 < d -> n <= d -> uncertainty_valid (n / Z.gcd n d) (d / Z.gcd n d) = true) /\
  (forall n' d', is_u64 n' -> is_u64 d' -> uncertainty_valid n d = true ->
     uncertainty_valid n' d' = true -> n * d' = n' * d -> n = n' /\ d = d').
Proof.
  assert (Hv : forall n d, is_u64 n -> is_u64 d ->
    (uncertainty_valid n d = true <-> 0 < d /\ n <= d /\ Z.gcd n d = 1)).
  { intros n' d' Hn Hd. unfold uncertainty_valid.
    destruct ((d' =? 0) || (d' <? n')) eqn:E.
    { split; [done|]. apply orb_true_iff in E as [E|E]; bools; lia. }
    bools. destruct (Z.eqb_spec n' 0) as [->|Hn0].
    - rewrite Z.gcd_0_l, Z.eqb_eq. lia.
    - rewrite gcd_u64_spec, Z.eqb_eq by lia. lia. }
  intros Hn Hd. split_and!.
  - by apply Hv.
  - intros Hd0 Hnd. set (g := Z.gcd n d).
    assert (Hg : 0 < g) by (pose proof (Z.gcd_nonneg n d); pose proof (Z.gcd_eq_0_r n d); lia).
    assert (Hq : forall x, is_u64 x -> is_u64 (x / g)).
    { intros x Hx. pose proof (Z.div_pos x g). pose proof (Z.div_le_upper_bound x g x). nia. }
    apply Hv; [by apply Hq..|]. split_and!.
    + apply Z.div_str_pos. split; [done|]. apply Z.divide_pos_le; [done|]. apply Z.gcd_divide_r.
    + by apply Z.div_le_mono.
    + by apply Z.gcd_div_gcd; [lia|].
  - intros n' d' Hn' Hd' H1%Hv H2%Hv Heq; [|done..].
    assert (Hdiv : (d | d')).
    { apply (Z.gauss d n d'); [|rewrite Z.gcd_comm; lia]. exists n'. lia. }
    assert (Hdiv' : (d' | d)).
    { apply (Z.gauss d' n' d); [|rewrite Z.gcd_comm; lia]. exists n. lia. }
    assert (d = d') as -> by (apply Z.divide_antisym_nonneg; lia || done).
    split; [nia|done].
Qed.

(** ** Testimony identity *)
Record testimony_wf (r : laplace_evidence_testimony_record) : Prop := {
  wf_node : bytes 32 (evidence_node_id r);
  wf_profile : bytes 32 (source_profile_id r);
  wf_recipe : bytes 32 (recipe_receipt_id r);
  wf_trust : bytes 32 (trust_input_id r);
  wf_detail : bytes 32 (outcome_detail_id r);
  wf_numerator : is_u64 (uncertainty_numerator r);
  wf_denominator : is_u64 (uncertainty_denominator r);
  wf_samples : is_u64 (sample_count r);
  wf_source : is_u32 (source_type r);
  wf_outcome : is_u32 (outcome_type r);
  wf_disposition : is_u32 (disposition r);
  wf_flags : is_u32 (flags r) }.

(** The bytes a record contributes to a hasher, without its identity. *)
Definition record_code (r : laplace_evidence_testimony_record) : list Z :=
  evidence_node_id r ++ source_profile_id r ++ recipe_receipt_id r ++ trust_input_id r ++
  outcome_detail_id r ++ store_le 8 (uncertainty_numerator r) ++
  store_le 8 (uncertainty_denominator r) ++ store_le 8 (sample_count r) ++
  store_le 4 (source_type r) ++ store_le 4 (outcome_type r) ++
  store_le 4 (disposition r) ++ store_le 4 (flags r).

Definition identity_transcript (r : laplace_evidence_testimony_record) : list Z :=
  domain_bytes "laplace-evidence-testimony-v1" ++ record_code r.

(** What a testimony says: every field but its own identity. *)
Definition same_testimony (v w : laplace_evidence_testimony_record) : Prop :=
  mk_record (testimony_id w) (evidence_node_id v) (source_profile_id v) (recipe_receipt_id v)
    (trust_input_id v) (outcome_detail_id v) (uncertainty_numerator v)
    (uncertainty_denominator v) (sample_count v) (source_type v) (outcome_type v)
    (disposition v) (flags v) = w.

(** A record the identification accepts. *)
Definition identifiable (r : laplace_evidence_testimony_record) : bool :=
  negb (record_fields_invalid r) &&
  uncertainty_valid (uncertainty_numerator r) (uncertainty_denominator r).

Section Identification.
Context {B : Blake3} {L : Blake3Laws B}.

Lemma absorbs_record h m r :
  absorbs h m -> absorbs (hash_record h r false) (m ++ record_code r).
Proof. intros. unfold hash_record, record_code. absorb. Qed.

Lemma absorbs_record_with_id h m r :
  absorbs h m -> absorbs (hash_record h r true) (m ++ testimony_id r ++ record_code r).
Proof. intros. unfold hash_record, record_code. absorb. Qed.

Lemma identify_spec r out :
  identifiable r = true ->
  laplace_evidence_testimony_identify (Some r) (Some out) =
  (LAPLACE_EVIDENCE_TESTIMONY_OK, Some (blake3 (identity_transcript r))).
Proof.
  unfold identifiable. intros H. bools. unfold laplace_evidence_testimony_identify.
  rewrite H, H0. cbn [negb store]. do 2 f_equal. apply absorbs_finalize.
  unfold identity_transcript. apply absorbs_record. absorb.
Qed.
End Identification.

(** A testimony is identified by everything it says.  Identification
    succeeds exactly for records with all references present, a positive
    sample count, known types, no flags and a canonical uncertainty; it then
    returns the digest of a transcript that two records share if and only if
    they agree on every field but the identity itself, and otherwise it
    reports whether fields or uncertainty are at fault and writes nothing. *)
Theorem testimony_identity {B : Blake3} {L : Blake3Laws B} v w out :
  testimony_wf v -> testimony_wf w ->
  laplace_evidence_testimony_identify (Some v) (Some out) =
    (if record_fields_invalid v then (LAPLACE_EVIDENCE_TESTIMONY_RECORD_INVALID, Some out)
     else if identifiable v
     then (LAPLACE_EVIDENCE_TESTIMONY_OK, Some (blake3 (identity_transcript v)))
     else (LAPLACE_EVIDENCE_TESTIMONY_UNCERTAINTY_INVALID, Some out)) /\
  (identity_transcript v = identity_transcript w <-> same_testimony v w).
Proof.
  intros Hv Hw. split.
  - destruct (identifiable v) eqn:E; [rewrite identify_spec by done|].
    + unfold identifiable in E. bools. by rewrite H.
    + unfold identifiable, laplace_evidence_testimony_identify in *.
      destruct (record_fields_invalid v); [done|]. simpl in E. by rewrite E.
  - split; [|by intros <-]. intros H. unfold identity_transcript in H.
    apply app_inv_head in H. rewrite <- (app_nil_r (record_code v)) in H.
    rewrite <- (app_nil_r (record_code w)) in H.
    destruct Hv, Hw. unfold record_code in H. peel H.
    destruct v, w. unfold same_testimony. simpl in *. congruence.
Qed.

(** ** The preimage of the contract
    [contracts/evidence-testimony.json] lists the same fields behind the same
    domain, but the kinds of a testimony before its uncertainty and its samples.
    The code hashes them after. *)
Definition contract_transcript (r : laplace_evidence_testimony_record) : list Z :=
  domain_bytes "laplace-evidence-testimony-v1" ++
  evidence_node_id r ++ source_profile_id r ++ recipe_receipt_id r ++ trust_input_id r ++
  outcome_detail_id r ++ store_le 4 (source_type r) ++ store_le 4 (outcome_type r) ++
  store_le 4 (disposition r) ++ store_le 8 (uncertainty_numerator r) ++
  store_le 8 (uncertainty_denominator r) ++ store_le 8 (sample_count r) ++ store_le 4 (flags r).

(** The only records on which the two orders give the same bytes: the three
    wide fields repeat the three kinds. *)
Definition orders_coincide (r : laplace_evidence_testimony_record) : Prop :=
  uncertainty_numerator r = source_type r + 4294967296 * outcome_type r /\
  uncertainty_denominator r = disposition r + 4294967296 * source_type r /\
  sample_count r = outcome_type r + 4294967296 * disposition r.

Lemma le_digits_app m : forall n v,
  le_digits (n + m) v = le_digits n (v mod 256 ^ Z.of_nat n) ++ le_digits m (v / 256 ^ Z.of_nat n).
Proof.
  induction n as [|n IH]; intros v; [cbn; by rewrite Z.div_1_r|].
  rewrite Nat2Z.inj_succ, Z.pow_succ_r by lia. cbn [Nat.add le_digits app].
  pose proof (Z.pow_pos_nonneg 256 (Z.of_nat n) eq_refl ltac:(lia)).
  rewrite IH, Z.div_div, Z.rem_mul_r by lia.
  pose proof (Z.mod_pos_bound v 256 eq_refl) as Hr.
  f_equal; [|do 2 f_equal].
  - apply (Z.mod_unique _ _ ((v / 256) mod 256 ^ Z.of_nat n)); lia.
  - apply (Z.div_unique _ _ _ (v mod 256)); lia.
Qed.

(** A 64-bit field is two 32-bit words. *)
Lemma store_u64_words v : store_le 8 v = store_le 4 (u32 v) ++ store_le 4 (v / 4294967296).
Proof. rewrite !store_le_digits. apply (le_digits_app 4 4). Qed.

Lemma u64_words_range v : is_u64 v -> is_u32 (u32 v) /\ is_u32 (v / 4294967296) /\
  v = u32 v + 4294967296 * (v / 4294967296).
Proof.
  intros Hv. unfold u32. pose proof (Z.div_mod v 4294967296 ltac:(done)).
  pose proof (Z.mod_pos_bound v 4294967296 eq_refl). lia.
Qed.

Lemma contract_transcript_coincides r :
  testimony_wf r -> identity_transcript r = contract_transcript r <-> orders_coincide r.
Proof.
  intros []. unfold identity_transcript, contract_transcript, record_code, orders_coincide.
  rewrite !store_u64_words, <- !app_assoc.
  destruct (u64_words_range _ wf_numerator0) as (? & ? & En).
  destruct (u64_words_range _ wf_denominator0) as (? & ? & Ed).
  destruct (u64_words_range _ wf_samples0) as (? & ? & Es).
  revert En Ed Es.
  generalize dependent (u32 (uncertainty_numerator r)). generalize dependent (uncertainty_numerator r / 4294967296).
  generalize dependent (u32 (uncertainty_denominator r)). generalize dependent (uncertainty_denominator r / 4294967296).
  generalize dependent (u32 (sample_count r)). generalize dependent (sample_count r / 4294967296).
  intros s1 ? s0 ? d1 ? d0 ? n1 ? n0 ? En Ed Es. split.
  - intros E. do 6 apply app_inv_head in E. peel E. lia.
  - intros (Hn & Hd & Hs).
    assert (n0 = source_type r /\ n1 = outcome_type r /\ d0 = disposition r /\ d1 = source_type r /\
      s0 = outcome_type r /\ s1 = disposition r) as (-> & -> & -> & -> & -> & ->) by lia. done.
Qed.

(** ** The batch *)
(** What a batch must satisfy to be recorded. *)
Record testimony_accepted {B : Blake3} (rs : list laplace_evidence_testimony_record) : Prop := {
  accepted_identities : Forall (fun r => identifiable r = true /\
    testimony_id r = blake3 (identity_transcript r)) rs;
  accepted_order : StronglySorted
    (fun a b => memcmp (testimony_id a) (testimony_id b) = Lt) rs;
  accepted_profile : homogeneous source_profile_id rs;
  accepted_samples : sum_of sample_count rs <= UINT64_MAX }.

Definition input_transcript (rs : list laplace_evidence_testimony_record) : list Z :=
  domain_bytes "laplace-evidence-testimony-input-v1" ++
  counted (fun r => testimony_id r ++ record_code r) rs.

Definition output_transcript (rs : list laplace_evidence_testimony_record) : list Z :=
  domain_bytes "laplace-evidence-testimony-output-v1" ++ counted testimony_id rs.

Definition receipt_transcript (r : laplace_evidence_testimony_receipt) : list Z :=
  domain_bytes "laplace-evidence-testimony-receipt-v1" ++ receipt_source_profile_id r ++
  input_fingerprint r ++ output_fingerprint r ++ store_le 8 (testimony_count r) ++
  store_le 8 (receipt_sample_count r) ++ store_le 8 (uncertain_count r) ++
  store_le 8 (negative_disposition_count r) ++ store_le 4 (version r) ++
  store_le 4 (receipt_status r).

(** The receipt of an accepted batch. *)
Definition receipt_of {B : Blake3} (rs : list laplace_evidence_testimony_record)
    (r : laplace_evidence_testimony_receipt) : Prop :=
  receipt_id r = blake3 (receipt_transcript r) /\
  Forall (fun t => source_profile_id t = receipt_source_profile_id r) rs /\
  input_fingerprint r = blake3 (input_transcript rs) /\
  output_fingerprint r = blake3 (output_transcript rs) /\
  testimony_count r = Z.of_nat (length rs) /\
  receipt_sample_count r = sum_of sample_count rs /\
  uncertain_count r =
    Z.of_nat (length (filter (fun t => uncertainty_numerator t <> 0) rs)) /\
  negative_disposition_count r =
    Z.of_nat (length (filter (fun t => disposition_negative (disposition t) = true) rs)) /\
  version r = LAPLACE_EVIDENCE_TESTIMONY_VERSION /\ receipt_status r = 0.

Section Batch.
Context {B : Blake3} {L : Blake3Laws B}.
Implicit Types (r first : laplace_evidence_testimony_record)
  (p rs : list laplace_evidence_testimony_record).

Lemma testimony_accepted_nil : testimony_accepted [].
Proof. split; [constructor..| |done]. intros a b Ha. by apply not_elem_of_nil in Ha. Qed.

(** The checks of one iteration extend the accepted prefix exactly. *)
Lemma check_record_spec first p r :
  Forall (fun t => 0 <= sample_count t) (p ++ [r]) ->
  testimony_accepted p -> head (p ++ [r]) = Some first ->
  (check_record first (last p) (sum_of sample_count p) r = LAPLACE_EVIDENCE_TESTIMONY_OK <->
   testimony_accepted (p ++ [r])).
Proof.
  intros Hpos [Hid Ho Hp Hs] Hf. unfold check_record.
  pose proof (homogeneous_extend source_profile_id p r first Hp Hf) as Hprofile.
  pose proof (StronglySorted_extend (fun a b => memcmp (testimony_id a) (testimony_id b) = Lt)
    p r Ho) as Horder.
  destruct (identifiable r) eqn:Ei.
  2:{ assert (Hno : ~ testimony_accepted (p ++ [r])).
      { intros [H _ _ _]. apply Forall_app in H as [_ H].
        apply Forall_cons in H as [[H _] _]. congruence. }
      unfold laplace_evidence_testimony_identify. unfold identifiable in Ei.
      destruct (record_fields_invalid r); [split; done|]. simpl in Ei. rewrite Ei.
      split; done. }
  rewrite identify_spec by done. change (default [] (Some ?x)) with x.
  destruct (bytes_equal _ (testimony_id r)) eqn:Eid; cbn [negb].
  2:{ apply bytes_equal_false in Eid. split; [done|]. intros [H _ _ _].
      apply Forall_app in H as [_ H]. apply Forall_cons in H as [[_ H] _]. congruence. }
  apply bytes_equal_spec in Eid.
  assert (Ho' : StronglySorted (fun a b => memcmp (testimony_id a) (testimony_id b) = Lt)
                  (p ++ [r]) <->
          match last p with
          | None => false
          | Some q => match memcmp (testimony_id q) (testimony_id r) with
                      | Lt => false | _ => true end
          end = false).
  { rewrite Horder. destruct (last p); [|done]. by destruct (memcmp _ _). }
  clear Horder. destruct (match last p with None => false | Some _ => _ end) eqn:Eord.
  { split; [done|]. intros [_ H _ _]. by apply Ho' in H. }
  assert (Hp' : homogeneous source_profile_id (p ++ [r]) <->
          match last p with
          | None => false
          | Some _ => negb (bytes_equal (source_profile_id first) (source_profile_id r))
          end = false).
  { rewrite Hprofile. destruct p as [|q p _] using rev_ind.
    - simpl in Hf |- *. injection Hf as ->. done.
    - rewrite last_snoc, negb_false_iff. symmetry. apply bytes_equal_spec. }
  destruct (match last p with None => false | Some _ => negb _ end) eqn:Epro.
  { split; [done|]. intros [_ _ H _]. by apply Hp' in H. }
  destruct (Z.ltb_spec (UINT64_MAX - sum_of sample_count p) (sample_count r)) as [Hov|Hov].
  { split; [done|]. intros [_ _ _ H]. rewrite sum_of_snoc in H. lia. }
  split; [|done]. intros _. split; [|by apply Ho'|by apply Hp'|rewrite sum_of_snoc; lia].
  apply Forall_app. split; [done|]. by repeat constructor.
Qed.

Lemma testimony_accepted_prefix p rs :
  Forall (fun t => 0 <= sample_count t) (p ++ rs) ->
  testimony_accepted (p ++ rs) -> testimony_accepted p.
Proof.
  intros Hpos [Hid Ho Hp Hs]. apply Forall_app in Hpos as [_ Hpos%sum_of_nonneg].
  split.
  - by apply Forall_app in Hid as [? _].
  - clear -Ho. induction p as [|x p IH]; simpl in *; [constructor|].
    apply StronglySorted_inv in Ho as [Ho Hx]. apply Forall_app in Hx as [Hx _].
    constructor; auto.
  - intros a b Ha Hb. apply Hp; set_solver.
  - rewrite sum_of_app in Hs. lia.
Qed.

(** The accumulator after a prefix. *)
Definition accumulated (n : Z) p : accumulator := foldl accumulate (initial_accumulator n) p.

Lemma accumulated_samples n p : samples (accumulated n p) = sum_of sample_count p.
Proof.
  induction p as [|r p IH] using rev_ind; [done|].
  unfold accumulated in *. rewrite foldl_snoc, sum_of_snoc, <- IH. done.
Qed.

(** The loop accepts a batch or stops at the first record that breaks it. *)
Lemma record_loop_spec first n rs : forall p i,
  Forall (fun t => 0 <= sample_count t) (p ++ rs) ->
  testimony_accepted p -> head (p ++ rs) = Some first -> i = Z.of_nat (length p) ->
  let '(status, index, acc) := record_loop first (last p) rs i (accumulated n p) in
  if decide (status = LAPLACE_EVIDENCE_TESTIMONY_OK)
  then testimony_accepted (p ++ rs) /\ acc = accumulated n (p ++ rs)
  else exists k, index = Z.of_nat k /\ (k < length (p ++ rs))%nat /\
       testimony_accepted (take k (p ++ rs)) /\ ~ testimony_accepted (take (S k) (p ++ rs)).
Proof.
  induction rs as [|r rs IH]; intros p i Hpos Hp Hf Hi; cbn [record_loop].
  { rewrite decide_True by done. by rewrite app_nil_r. }
  assert (Hpr : Forall (fun t => 0 <= sample_count t) (p ++ [r])).
  { apply Forall_app in Hpos as [? Hpos]. apply Forall_cons in Hpos as [? _].
    apply Forall_app. split; [done|]. by repeat constructor. }
  assert (Hfr : head (p ++ [r]) = Some first) by (destruct p; done).
  pose proof (check_record_spec first p r Hpr Hp Hfr) as Hc.
  rewrite accumulated_samples.
  destruct (decide (check_record first (last p) (sum_of sample_count p) r =
                    LAPLACE_EVIDENCE_TESTIMONY_OK)) as [E|E].
  - rewrite E. specialize (IH (p ++ [r]) (i + 1)).
    rewrite <- !app_assoc, last_snoc in IH. unfold accumulated in IH at 1.
    rewrite foldl_snoc in IH. apply IH; [done|by apply Hc|done|].
    rewrite length_app. simpl. lia.
  - destruct (check_record first (last p) (sum_of sample_count p) r) eqn:E'; [done|..];
      rewrite decide_False by done; exists (length p); rewrite length_app, take_app_length;
      (split_and!; [done | simpl; lia | done | by rewrite take_snoc, <- Hc]).
Qed.

Lemma accumulated_hashers n p :
  absorbs (input_hasher (accumulated n p))
    (domain_bytes "laplace-evidence-testimony-input-v1" ++ store_le 8 n ++
     concat (map (fun r => testimony_id r ++ record_code r) p)) /\
  absorbs (output_hasher (accumulated n p))
    (domain_bytes "laplace-evidence-testimony-output-v1" ++ store_le 8 n ++
     concat (map testimony_id p)).
Proof.
  induction p as [|r p [IHi IHo]] using rev_ind.
  { unfold accumulated, initial_accumulator.
    cbn [foldl map concat input_hasher output_hasher]. rewrite !app_nil_r. split; absorb. }
  unfold accumulated in *. rewrite foldl_snoc, !map_app, !concat_app.
  cbn [map concat accumulate input_hasher output_hasher]. rewrite !app_nil_r. split.
  - rewrite (app_assoc (store_le 8 n)), (app_assoc (domain_bytes _)).
    by apply absorbs_record_with_id.
  - rewrite (app_assoc (store_le 8 n)), (app_assoc (domain_bytes _)).
    by apply absorbs_update.
Qed.

Lemma length_filter_snoc {A} (P : A -> Prop) `{!forall a, Decision (P a)} l x :
  Z.of_nat (length (filter P (l ++ [x]))) =
  Z.of_nat (length (filter P l)) + (if decide (P x) then 1 else 0).
Proof.
  rewrite filter_app, length_app, Nat2Z.inj_add. f_equal. rewrite filter_cons, filter_nil.
  by destruct (decide (P x)).
Qed.

Lemma accumulated_counts n p :
  uncertain (accumulated n p) =
    Z.of_nat (length (filter (fun t => uncertainty_numerator t <> 0) p)) /\
  negative (accumulated n p) =
    Z.of_nat (length (filter (fun t => disposition_negative (disposition t) = true) p)).
Proof.
  induction p as [|r p [IHu IHn]] using rev_ind; [done|].
  unfold accumulated in *. rewrite foldl_snoc, !length_filter_snoc, <- IHu, <- IHn.
  unfold accumulate. simpl. split; f_equal.
  - destruct (Z.eqb_spec (uncertainty_numerator r) 0); by case_decide.
  - destruct (disposition_negative (disposition r)); by case_decide.
Qed.

Lemma final_receipt_spec first rs :
  homogeneous source_profile_id rs -> head rs = Some first ->
  receipt_of rs (final_receipt (source_profile_id first) (Z.of_nat (length rs))
    (accumulated (Z.of_nat (length rs)) rs)).
Proof.
  intros Hp Hf. destruct (accumulated_hashers (Z.of_nat (length rs)) rs) as [Hi Ho].
  destruct (accumulated_counts (Z.of_nat (length rs)) rs) as [Hu Hn].
  unfold receipt_of, final_receipt.
  cbn [receipt_id receipt_source_profile_id input_fingerprint output_fingerprint
    testimony_count receipt_sample_count uncertain_count negative_disposition_count
    version receipt_status].
  split_and!; [|..|done|done|done|done]; try done.
  - apply absorbs_finalize. unfold hash_receipt, receipt_transcript.
    cbn [receipt_source_profile_id input_fingerprint output_fingerprint
      testimony_count receipt_sample_count uncertain_count negative_disposition_count
      version receipt_status]. absorb.
  - apply Forall_forall. intros t Ht. apply Hp; [done|].
    destruct rs; [done|]. simpl in Hf. injection Hf as ->. left.
  - by apply absorbs_finalize.
  - by apply absorbs_finalize.
  - apply accumulated_samples.
Qed.
End Batch.

(** C39: recording testimony is exact.  A batch is recorded if and only if every
    record carries the identity that the code computes and is identifiable,
    identities increase strictly, all records come from one source profile and
    the sample counts sum to a 64-bit word; its receipt then fingerprints the
    records and their identities and counts samples, uncertain and negative
    testimony.  Otherwise the receipt stays empty and the error index is that of
    the first record whose batch so far is not acceptable.  The identity of a
    recorded testimony is not the one that [contracts/evidence-testimony.json]
    describes: [hash_record] hashes the uncertainty and the samples before the
    kinds of the testimony, the contract after, and the two preimages are the same
    bytes only for a record whose wide fields repeat its kinds. *)
Theorem testimony_batch_exact {B : Blake3} {L : Blake3Laws B} rs n receipt err :
  n = Z.of_nat (length rs) -> 1 <= n -> Forall (fun t => is_u64 (sample_count t)) rs ->
  let '(status, receipt', error') :=
    laplace_evidence_record_testimony_batch (Some rs) n (Some receipt) (Some err) in
  (status = LAPLACE_EVIDENCE_TESTIMONY_OK <-> testimony_accepted rs) /\
  (status = LAPLACE_EVIDENCE_TESTIMONY_OK ->
     error' = Some (mk_error UINT64_MAX) /\ (exists r, receipt' = Some r /\ receipt_of rs r) /\
     Forall (fun t => testimony_id t = blake3 (identity_transcript t) /\
       (testimony_wf t -> identity_transcript t = contract_transcript t <-> orders_coincide t)) rs) /\
  (status <> LAPLACE_EVIDENCE_TESTIMONY_OK -> receipt' = Some empty_receipt /\
     exists k, error' = Some (mk_error (Z.of_nat k)) /\ (k < length rs)%nat /\
       testimony_accepted (take k rs) /\ ~ testimony_accepted (take (S k) rs)).
Proof.
  intros -> Hn Hpos. unfold laplace_evidence_record_testimony_batch. ptrs.
  rewrite (proj2 (Z.eqb_neq _ _)) by lia. cbn [orb]. rewrite cells_all by done.
  destruct rs as [|first rs]; [simpl in Hn; lia|].
  assert (Hpos' : Forall (fun t => 0 <= sample_count t) (first :: rs)).
  { eapply Forall_impl; [exact Hpos|]. simpl. lia. }
  set (all := first :: rs) in *. set (len := Z.of_nat (length all)).
  pose proof (record_loop_spec first len all [] 0 Hpos' testimony_accepted_nil
    eq_refl eq_refl) as H.
  change (accumulated len []) with (initial_accumulator len) in H.
  change (last []) with (@None laplace_evidence_testimony_record) in H.
  change ([] ++ all) with all in H.
  destruct (record_loop first None all 0 (initial_accumulator len)) as [[status index] acc].
  case_decide as Hst.
  - subst status. destruct H as [Hacc ->]. subst all. cbn [store]. split; [done|]. split; [|done].
    intros _. split; [done|]. split.
    + eexists. split; [done|]. apply final_receipt_spec; [|done]. by apply Hacc.
    + eapply Forall_impl; [apply Hacc|]. intros t [_ Ht]. split; [done|].
      apply contract_transcript_coincides.
  - destruct H as (k & -> & Hk & Hpre & Hno).
    assert (Hnot : ~ testimony_accepted all).
    { intros Hacc. apply Hno. apply (testimony_accepted_prefix _ (drop (S k) all));
        by rewrite take_drop. }
    subst all. destruct status; [done|..]; cbn [store]; (split; [by split|]); (split; [done|]);
      (intros _; split; [done|]); by exists k.
Qed.

(** ** A batch of two records *)
Definition draft_testimony (node : Z) : laplace_evidence_testimony_record :=
  mk_record (zeros 32) (replicate 32 node) (replicate 32 2) (replicate 32 3) (replicate 32 4)
    (replicate 32 5) 1 3 10 2 4 6 0.
Definition sample_testimony (node : Z) : laplace_evidence_testimony_record :=
  let r := draft_testimony node in
  mk_record
    (default [] (laplace_evidence_testimony_identify (B := checksum_blake3) (Some r)
                   (Some (zeros 32))).2)
    (evidence_node_id r) (source_profile_id r) (recipe_receipt_id r) (trust_input_id r)
    (outcome_detail_id r) 1 3 10 2 4 6 0.
Definition sample_batch : list laplace_evidence_testimony_record :=
  [sample_testimony 1; sample_testimony 9].

Lemma sample_testimony_batch_ok :
  (laplace_evidence_record_testimony_batch (B := checksum_blake3) (Some sample_batch) 2
     (Some empty_receipt) (Some (mk_error 0))).1.1 = LAPLACE_EVIDENCE_TESTIMONY_OK.
Proof. vm_compute. reflexivity. Qed.

Lemma sample_testimony_wf node : is_u8 node -> testimony_wf (sample_testimony node).
Proof. intros Hn. split; try (cbn; lia); split; try reflexivity; repeat constructor; cbn; lia. Qed.

(** The batch is recorded, under identities that are not the contract's. *)
Lemma testimony_batch_exact_witness :
  let '(status, receipt, error) :=
    laplace_evidence_record_testimony_batch (B := checksum_blake3) (Some sample_batch) 2
      (Some empty_receipt) (Some (mk_error 0)) in
  status = LAPLACE_EVIDENCE_TESTIMONY_OK /\ error = Some (mk_error UINT64_MAX) /\
  (receipt_sample_count <$> receipt) = Some 20 /\
  (negative_disposition_count <$> receipt) = Some 2 /\
  identity_transcript (sample_testimony 1) <> contract_transcript (sample_testimony 1).
Proof.
  pose proof (testimony_batch_exact (B := checksum_blake3) (L := checksum_blake3_laws)
    sample_batch 2 empty_receipt (mk_error 0) eq_refl ltac:(lia)
    ltac:(repeat constructor; simpl; lia)) as H.
  pose proof sample_testimony_batch_ok as Hok.
  destruct (laplace_evidence_record_testimony_batch _ _ _ _) as [[st r] e].
  cbn [fst snd] in Hok. subst st. destruct H as (_ & H & _).
  destruct (H eq_refl) as (-> & (r' & -> & _ & _ & _ & _ & _ & Hs & _ & Hn & _) & Hid).
  apply Forall_cons in Hid as [[_ Hid] _].
  simpl. rewrite Hs, Hn. split_and!; try reflexivity.
  intros E. apply Hid in E; [|apply sample_testimony_wf; lia].
  destruct E as [E _]. vm_compute in E. discriminate E.
Defined.

Lemma uncertainty_canonical_witness :
  uncertainty_valid 6 8 = false /\ uncertainty_valid 3 4 = true.
Proof.
  destruct (uncertainty_canonical 6 8) as (Hv & Hex & _); [lia..|]. split.
  - destruct (uncertainty_valid 6 8); [|reflexivity].
    destruct (proj1 Hv eq_refl) as (_ & _ & H). vm_compute in H. discriminate H.
  - apply Hex; lia.
Defined.

Lemma testimony_identity_witness :
  identity_transcript (draft_testimony 1) = identity_transcript (sample_testimony 1).
Proof.
  assert (Hwf : forall id, testimony_wf (mk_record id (replicate 32 1) (replicate 32 2)
    (replicate 32 3) (replicate 32 4) (replicate 32 5) 1 3 10 2 4 6 0)).
  { intros id. split; simpl; lia || check. }
  apply (testimony_identity (B := checksum_blake3) (L := checksum_blake3_laws)
    (draft_testimony 1) (sample_testimony 1) [] (Hwf _) (Hwf _)).
  reflexivity.
Defined.
