(* ===== verification/WorldAdmission.v ===== *)
(** * World admission: closing a source's observation over its evidence

    Models [engine/src/world_admission.c] and
    [engine/include/laplace/world_admission.h]: the closure law of one admission
    record, its identity, its semantic projection, and the closing of an
    ordered, boundary-homogeneous batch with its receipt.  Record fields of the
    projection and the receipt that share a name with a field of the admission
    record carry the prefix [projection_] or [receipt_]. *)
From stdpp Require Import prelude strings sorting.
From Stdlib Require Import ZArith Lia.
From S2P Require Import Prelude Bytes Sorting Hash Identity.

(** ** Contract constants *)
Abbreviation LAPLACE_WORLD_ADMISSION_VERSION := 1 (only parsing).
Abbreviation LAPLACE_WORLD_ADMISSION_FLAGS_NONE := 0 (only parsing).
Abbreviation LAPLACE_SOURCE_PROFILE_RECONSTRUCTION_EXACT := 1 (only parsing).
Abbreviation LAPLACE_SOURCE_PROFILE_RECONSTRUCTION_NONE := 3 (only parsing).

(** ** Data *)
Record laplace_world_admission_record := mk_record {
  admission_id : laplace_digest256;
  source_profile_id : laplace_digest256;
  selected_boundary_fingerprint : laplace_digest256;
  source_profile_receipt_id : laplace_digest256;
  recipe_receipt_id : laplace_digest256;
  composition_working_set_receipt_id : laplace_digest256;
  composition_presence_receipt_id : laplace_digest256;
  composition_producer_receipt_id : laplace_digest256;
  composition_stream_receipt_id : laplace_digest256;
  evidence_lineage_receipt_id : laplace_digest256;
  evidence_testimony_receipt_id : laplace_digest256;
  readback_fingerprint : laplace_digest256;
  profile_occurrence_count : Z;
  composition_occurrence_count : Z;
  profile_claim_count : Z;
  evidence_node_count : Z;
  testimony_count : Z;
  profile_bound_testimony_count : Z;
  recipe_bound_testimony_count : Z;
  lineage_bound_testimony_count : Z;
  closure_subject_count : Z;
  closed_subject_count : Z;
  reconstruction_class : Z;
  flags : Z }.

Record laplace_world_admission_receipt := mk_receipt {
  receipt_id : laplace_digest256;
  receipt_boundary_fingerprint : laplace_digest256;
  input_fingerprint : laplace_digest256;
  output_fingerprint : laplace_digest256;
  admission_count : Z;
  occurrence_count : Z;
  claim_count : Z;
  receipt_evidence_node_count : Z;
  receipt_testimony_count : Z;
  receipt_closure_subject_count : Z;
  version : Z;
  receipt_status : Z }.

Record laplace_world_admission_semantic_projection := mk_projection {
  semantic_fingerprint : laplace_digest256;
  projection_source_profile_id : laplace_digest256;
  projection_boundary_fingerprint : laplace_digest256;
  projection_source_profile_receipt_id : laplace_digest256;
  projection_recipe_receipt_id : laplace_digest256;
  projection_evidence_lineage_receipt_id : laplace_digest256;
  projection_evidence_testimony_receipt_id : laplace_digest256;
  projection_readback_fingerprint : laplace_digest256;
  projection_profile_occurrence_count : Z;
  projection_composition_occurrence_count : Z;
  projection_profile_claim_count : Z;
  projection_evidence_node_count : Z;
  projection_testimony_count : Z;
  projection_profile_bound_testimony_count : Z;
  projection_recipe_bound_testimony_count : Z;
  projection_lineage_bound_testimony_count : Z;
  projection_closure_subject_count : Z;
  projection_closed_subject_count : Z;
  projection_reconstruction_class : Z;
  projection_flags : Z;
  projection_version : Z;
  projection_status : Z }.

Record laplace_world_admission_error := mk_error {
  admission_index : Z;
  field : Z;
  reserved : Z }.

Inductive laplace_world_admission_status :=
| LAPLACE_WORLD_ADMISSION_OK
| LAPLACE_WORLD_ADMISSION_INVALID_ARGUMENT
| LAPLACE_WORLD_ADMISSION_COMPONENT_MISSING
| LAPLACE_WORLD_ADMISSION_OCCURRENCE_MISMATCH
| LAPLACE_WORLD_ADMISSION_CLAIM_MISMATCH
| LAPLACE_WORLD_ADMISSION_PROFILE_BINDING_MISMATCH
| LAPLACE_WORLD_ADMISSION_RECIPE_BINDING_MISMATCH
| LAPLACE_WORLD_ADMISSION_LINEAGE_BINDING_MISMATCH
| LAPLACE_WORLD_ADMISSION_CLOSURE_MISMATCH
| LAPLACE_WORLD_ADMISSION_RECONSTRUCTION_INVALID
| LAPLACE_WORLD_ADMISSION_IDENTITY_MISMATCH
| LAPLACE_WORLD_ADMISSION_ORDER_INVALID
| LAPLACE_WORLD_ADMISSION_BOUNDARY_MISMATCH
| LAPLACE_WORLD_ADMISSION_OVERFLOW.

#[export] Instance admission_status_eq_dec : EqDecision laplace_world_admission_status.
Proof. solve_decision. Defined.

(** The numbers of the status values, as stored in receipts and projections. *)
Definition status_code (status : laplace_world_admission_status) : Z :=
  match status with
  | LAPLACE_WORLD_ADMISSION_OK => 0
  | LAPLACE_WORLD_ADMISSION_INVALID_ARGUMENT => 1
  | LAPLACE_WORLD_ADMISSION_COMPONENT_MISSING => 2
  | LAPLACE_WORLD_ADMISSION_OCCURRENCE_MISMATCH => 3
  | LAPLACE_WORLD_ADMISSION_CLAIM_MISMATCH => 4
  | LAPLACE_WORLD_ADMISSION_PROFILE_BINDING_MISMATCH => 5
  | LAPLACE_WORLD_ADMISSION_RECIPE_BINDING_MISMATCH => 6
  | LAPLACE_WORLD_ADMISSION_LINEAGE_BINDING_MISMATCH => 7
  | LAPLACE_WORLD_ADMISSION_CLOSURE_MISMATCH => 8
  | LAPLACE_WORLD_ADMISSION_RECONSTRUCTION_INVALID => 9
  | LAPLACE_WORLD_ADMISSION_IDENTITY_MISMATCH => 10
  | LAPLACE_WORLD_ADMISSION_ORDER_INVALID => 11
  | LAPLACE_WORLD_ADMISSION_BOUNDARY_MISMATCH => 12
  | LAPLACE_WORLD_ADMISSION_OVERFLOW => 13
  end.

Inductive world_admission_field :=
| WORLD_ADMISSION_FIELD_NONE
| WORLD_ADMISSION_FIELD_COMPONENT
| WORLD_ADMISSION_FIELD_OCCURRENCE
| WORLD_ADMISSION_FIELD_CLAIM
| WORLD_ADMISSION_FIELD_PROFILE_BINDING
| WORLD_ADMISSION_FIELD_RECIPE_BINDING
| WORLD_ADMISSION_FIELD_LINEAGE_BINDING
| WORLD_ADMISSION_FIELD_CLOSURE
| WORLD_ADMISSION_FIELD_RECONSTRUCTION
| WORLD_ADMISSION_FIELD_IDENTITY
| WORLD_ADMISSION_FIELD_ORDER
| WORLD_ADMISSION_FIELD_BOUNDARY
| WORLD_ADMISSION_FIELD_AGGREGATE.

Definition field_code (f : world_admission_field) : Z :=
  match f with
  | WORLD_ADMISSION_FIELD_NONE => 0
  | WORLD_ADMISSION_FIELD_COMPONENT => 1
  | WORLD_ADMISSION_FIELD_OCCURRENCE => 2
  | WORLD_ADMISSION_FIELD_CLAIM => 3
  | WORLD_ADMISSION_FIELD_PROFILE_BINDING => 4
  | WORLD_ADMISSION_FIELD_RECIPE_BINDING => 5
  | WORLD_ADMISSION_FIELD_LINEAGE_BINDING => 6
  | WORLD_ADMISSION_FIELD_CLOSURE => 7
  | WORLD_ADMISSION_FIELD_RECONSTRUCTION => 8
  | WORLD_ADMISSION_FIELD_IDENTITY => 9
  | WORLD_ADMISSION_FIELD_ORDER => 10
  | WORLD_ADMISSION_FIELD_BOUNDARY => 11
  | WORLD_ADMISSION_FIELD_AGGREGATE => 12
  end.

(** ** The closure law of one record *)
(** The digests that every admission must carry. *)
Definition component_digests (a : laplace_world_admission_record) : list laplace_digest256 :=
  [source_profile_id a; selected_boundary_fingerprint a; source_profile_receipt_id a;
   recipe_receipt_id a; composition_working_set_receipt_id a;
   composition_presence_receipt_id a; composition_producer_receipt_id a;
   composition_stream_receipt_id a; readback_fingerprint a].

Definition validate_record (a : laplace_world_admission_record)
    : laplace_world_admission_status * world_admission_field :=
  return_when existsb bytes_zero (component_digests a)
    with (LAPLACE_WORLD_ADMISSION_COMPONENT_MISSING, WORLD_ADMISSION_FIELD_COMPONENT) ;;
  return_when
    (if profile_claim_count a =? 0
     then negb (bytes_zero (evidence_lineage_receipt_id a)) ||
          negb (bytes_zero (evidence_testimony_receipt_id a)) ||
          negb (evidence_node_count a =? 0) || negb (testimony_count a =? 0) ||
          negb (profile_bound_testimony_count a =? 0) ||
          negb (recipe_bound_testimony_count a =? 0) ||
          negb (lineage_bound_testimony_count a =? 0)
     else bytes_zero (evidence_lineage_receipt_id a) ||
          bytes_zero (evidence_testimony_receipt_id a))
    with (LAPLACE_WORLD_ADMISSION_COMPONENT_MISSING, WORLD_ADMISSION_FIELD_COMPONENT) ;;
  return_when (profile_occurrence_count a =? 0) ||
              negb (profile_occurrence_count a =? composition_occurrence_count a)
    with (LAPLACE_WORLD_ADMISSION_OCCURRENCE_MISMATCH, WORLD_ADMISSION_FIELD_OCCURRENCE) ;;
  return_when negb (profile_claim_count a =? testimony_count a)
    with (LAPLACE_WORLD_ADMISSION_CLAIM_MISMATCH, WORLD_ADMISSION_FIELD_CLAIM) ;;
  return_when negb (profile_bound_testimony_count a =? testimony_count a)
    with (LAPLACE_WORLD_ADMISSION_PROFILE_BINDING_MISMATCH,
          WORLD_ADMISSION_FIELD_PROFILE_BINDING) ;;
  return_when negb (recipe_bound_testimony_count a =? testimony_count a)
    with (LAPLACE_WORLD_ADMISSION_RECIPE_BINDING_MISMATCH,
          WORLD_ADMISSION_FIELD_RECIPE_BINDING) ;;
  return_when negb (lineage_bound_testimony_count a =? testimony_count a) ||
              (negb (testimony_count a =? 0) && (evidence_node_count a =? 0))
    with (LAPLACE_WORLD_ADMISSION_LINEAGE_BINDING_MISMATCH,
          WORLD_ADMISSION_FIELD_LINEAGE_BINDING) ;;
  return_when (closure_subject_count a =? 0) ||
              negb (closed_subject_count a =? closure_subject_count a)
    with (LAPLACE_WORLD_ADMISSION_CLOSURE_MISMATCH, WORLD_ADMISSION_FIELD_CLOSURE) ;;
  return_when (reconstruction_class a <? LAPLACE_SOURCE_PROFILE_RECONSTRUCTION_EXACT) ||
              (LAPLACE_SOURCE_PROFILE_RECONSTRUCTION_NONE <? reconstruction_class a)
    with (LAPLACE_WORLD_ADMISSION_RECONSTRUCTION_INVALID,
          WORLD_ADMISSION_FIELD_RECONSTRUCTION) ;;
  return_when negb (flags a =? LAPLACE_WORLD_ADMISSION_FLAGS_NONE)
    with (LAPLACE_WORLD_ADMISSION_INVALID_ARGUMENT, WORLD_ADMISSION_FIELD_NONE) ;;
  (LAPLACE_WORLD_ADMISSION_OK, WORLD_ADMISSION_FIELD_NONE).

(** [add_u64(&total, value)]: the returned flag and the new total. *)
Definition add_u64 (total value : Z) : bool * Z :=
  if UINT64_MAX - total <? value then (false, total) else (true, total + value).

Section Admission.
Context {B : Blake3}.

(** ** Identity *)
Definition hash_record (hasher : blake3_hasher) (a : laplace_world_admission_record)
    (include_identity : bool) : blake3_hasher :=
  let hasher :=
    if include_identity then blake3_hasher_update hasher (admission_id a) else hasher in
  let hasher := blake3_hasher_update hasher (source_profile_id a) in
  let hasher := blake3_hasher_update hasher (selected_boundary_fingerprint a) in
  let hasher := blake3_hasher_update hasher (source_profile_receipt_id a) in
  let hasher := blake3_hasher_update hasher (recipe_receipt_id a) in
  let hasher := blake3_hasher_update hasher (composition_working_set_receipt_id a) in
  let hasher := blake3_hasher_update hasher (composition_presence_receipt_id a) in
  let hasher := blake3_hasher_update hasher (composition_producer_receipt_id a) in
  let hasher := blake3_hasher_update hasher (composition_stream_receipt_id a) in
  let hasher := blake3_hasher_update hasher (evidence_lineage_receipt_id a) in
  let hasher := blake3_hasher_update hasher (evidence_testimony_receipt_id a) in
  let hasher := blake3_hasher_update hasher (readback_fingerprint a) in
  let hasher := hash_u64 hasher (profile_occurrence_count a) in
  let hasher := hash_u64 hasher (composition_occurrence_count a) in
  let hasher := hash_u64 hasher (profile_claim_count a) in
  let hasher := hash_u64 hasher (evidence_node_count a) in
  let hasher := hash_u64 hasher (testimony_count a) in
  let hasher := hash_u64 hasher (profile_bound_testimony_count a) in
  let hasher := hash_u64 hasher (recipe_bound_testimony_count a) in
  let hasher := hash_u64 hasher (lineage_bound_testimony_count a) in
  let hasher := hash_u64 hasher (closure_subject_count a) in
  let hasher := hash_u64 hasher (closed_subject_count a) in
  let hasher := hash_u32 hasher (reconstruction_class a) in
  hash_u32 hasher (flags a).

Definition laplace_world_admission_identify
    (admission : ptr laplace_world_admission_record) (id : ptr laplace_digest256)
    : laplace_world_admission_status * ptr laplace_digest256 :=
  match admission, id with
  | Some a, Some _ =>
      match validate_record a with
      | (LAPLACE_WORLD_ADMISSION_OK, _) =>
          let hasher := blake3_hasher_update blake3_hasher_init
                          (domain_bytes "laplace-world-admission-v1") in
          (LAPLACE_WORLD_ADMISSION_OK,
           store id (blake3_hasher_finalize (hash_record hasher a false)))
      | (failed, _) => (failed, id)
      end
  | _, _ => (LAPLACE_WORLD_ADMISSION_INVALID_ARGUMENT, id)
  end.

(** [identify(...) != OK || !digest_equal(&expected, &admission->admission_id)]. *)
Definition identity_mismatch (a : laplace_world_admission_record) : bool :=
  match laplace_world_admission_identify (Some a) (Some (zeros 32)) with
  | (LAPLACE_WORLD_ADMISSION_OK, expected) =>
      negb (bytes_equal (default [] expected) (admission_id a))
  | _ => true
  end.

(** ** Semantic projection *)
Definition hash_semantic_projection (hasher : blake3_hasher)
    (a : laplace_world_admission_record) : blake3_hasher :=
  let hasher := blake3_hasher_update hasher (source_profile_id a) in
  let hasher := blake3_hasher_update hasher (selected_boundary_fingerprint a) in
  let hasher := blake3_hasher_update hasher (source_profile_receipt_id a) in
  let hasher := blake3_hasher_update hasher (recipe_receipt_id a) in
  let hasher := blake3_hasher_update hasher (evidence_lineage_receipt_id a) in
  let hasher := blake3_hasher_update hasher (evidence_testimony_receipt_id a) in
  let hasher := blake3_hasher_update hasher (readback_fingerprint a) in
  let hasher := hash_u64 hasher (profile_occurrence_count a) in
  let hasher := hash_u64 hasher (composition_occurrence_count a) in
  let hasher := hash_u64 hasher (profile_claim_count a) in
  let hasher := hash_u64 hasher (evidence_node_count a) in
  let hasher := hash_u64 hasher (testimony_count a) in
  let hasher := hash_u64 hasher (profile_bound_testimony_count a) in
  let hasher := hash_u64 hasher (recipe_bound_testimony_count a) in
  let hasher := hash_u64 hasher (lineage_bound_testimony_count a) in
  let hasher := hash_u64 hasher (closure_subject_count a) in
  let hasher := hash_u64 hasher (closed_subject_count a) in
  let hasher := hash_u32 hasher (reconstruction_class a) in
  hash_u32 hasher (flags a).

(** The cleared projection with a version and a status. *)
Definition empty_projection (status : laplace_world_admission_status)
    : laplace_world_admission_semantic_projection :=
  mk_projection (zeros 32) (zeros 32) (zeros 32) (zeros 32) (zeros 32) (zeros 32) (zeros 32)
    (zeros 32) 0 0 0 0 0 0 0 0 0 0 0 0 LAPLACE_WORLD_ADMISSION_VERSION (status_code status).

(** The projection of an admission: every field but the physical receipts. *)
Definition projected (fingerprint : laplace_digest256) (a : laplace_world_admission_record)
    : laplace_world_admission_semantic_projection :=
  mk_projection fingerprint (source_profile_id a) (selected_boundary_fingerprint a)
    (source_profile_receipt_id a) (recipe_receipt_id a) (evidence_lineage_receipt_id a)
    (evidence_testimony_receipt_id a) (readback_fingerprint a)
    (profile_occurrence_count a) (composition_occurrence_count a) (profile_claim_count a)
    (evidence_node_count a) (testimony_count a) (profile_bound_testimony_count a)
    (recipe_bound_testimony_count a) (lineage_bound_testimony_count a)
    (closure_subject_count a) (closed_subject_count a) (reconstruction_class a) (flags a)
    LAPLACE_WORLD_ADMISSION_VERSION (status_code LAPLACE_WORLD_ADMISSION_OK).

Definition laplace_world_admission_project_semantics
    (admission : ptr laplace_world_admission_record)
    (projection : ptr laplace_world_admission_semantic_projection)
    : laplace_world_admission_status * ptr laplace_world_admission_semantic_projection :=
  match admission, projection with
  | Some a, Some _ =>
      match validate_record a with
      | (LAPLACE_WORLD_ADMISSION_OK, _) =>
          return_when identity_mismatch a
            with (LAPLACE_WORLD_ADMISSION_IDENTITY_MISMATCH,
                  Some (empty_projection LAPLACE_WORLD_ADMISSION_IDENTITY_MISMATCH)) ;;
          let hasher := blake3_hasher_update blake3_hasher_init
                          (domain_bytes "laplace-world-admission-semantic-projection-v1") in
          let hasher := hash_semantic_projection hasher a in
          let hasher := hash_u32 hasher LAPLACE_WORLD_ADMISSION_VERSION in
          let hasher := hash_u32 hasher (status_code LAPLACE_WORLD_ADMISSION_OK) in
          (LAPLACE_WORLD_ADMISSION_OK, Some (projected (blake3_hasher_finalize hasher) a))
      | (failed, _) => (failed, Some (empty_projection failed))
      end
  | _, _ => (LAPLACE_WORLD_ADMISSION_INVALID_ARGUMENT,
             store projection (empty_projection LAPLACE_WORLD_ADMISSION_INVALID_ARGUMENT))
  end.

(** ** Closing a batch *)
(** The loop's state: both hashers and the totals it adds up in the receipt. *)
Record closing := mk_closing {
  input_hasher : blake3_hasher;
  output_hasher : blake3_hasher;
  totals : laplace_world_admission_receipt }.

Definition set_totals (r : laplace_world_admission_receipt) (o c n t s : Z)
    : laplace_world_admission_receipt :=
  mk_receipt (receipt_id r) (receipt_boundary_fingerprint r) (input_fingerprint r)
    (output_fingerprint r) (admission_count r) o c n t s (version r) (receipt_status r).

(** The five additions; the first that overflows ends them, and those before
    it stay in the receipt. *)
Definition add_totals (r : laplace_world_admission_receipt) (a : laplace_world_admission_record)
    : bool * laplace_world_admission_receipt :=
  let '(ok, o) := add_u64 (occurrence_count r) (profile_occurrence_count a) in
  let r := set_totals r o (claim_count r) (receipt_evidence_node_count r)
             (receipt_testimony_count r) (receipt_closure_subject_count r) in
  return_when negb ok with (false, r) ;;
  let '(ok, c) := add_u64 (claim_count r) (profile_claim_count a) in
  let r := set_totals r o c (receipt_evidence_node_count r)
             (receipt_testimony_count r) (receipt_closure_subject_count r) in
  return_when negb ok with (false, r) ;;
  let '(ok, n) := add_u64 (receipt_evidence_node_count r) (evidence_node_count a) in
  let r := set_totals r o c n (receipt_testimony_count r) (receipt_closure_subject_count r) in
  return_when negb ok with (false, r) ;;
  let '(ok, t) := add_u64 (receipt_testimony_count r) (testimony_count a) in
  let r := set_totals r o c n t (receipt_closure_subject_count r) in
  return_when negb ok with (false, r) ;;
  let '(ok, s) := add_u64 (receipt_closure_subject_count r) (closure_subject_count a) in
  (ok, set_totals r o c n t s).

(** The checks before the additions; [previous] is the record before, if any. *)
Definition check_admission (first : laplace_world_admission_record)
    (previous : option laplace_world_admission_record) (a : laplace_world_admission_record)
    : laplace_world_admission_status * world_admission_field :=
  match validate_record a with
  | (LAPLACE_WORLD_ADMISSION_OK, _) =>
      return_when identity_mismatch a
        with (LAPLACE_WORLD_ADMISSION_IDENTITY_MISMATCH, WORLD_ADMISSION_FIELD_IDENTITY) ;;
      return_when match previous with
                  | None => false
                  | Some p => match memcmp (admission_id p) (admission_id a) with
                              | Lt => false
                              | _ => true
                              end
                  end
        with (LAPLACE_WORLD_ADMISSION_ORDER_INVALID, WORLD_ADMISSION_FIELD_ORDER) ;;
      return_when match previous with
                  | None => false
                  | Some _ => negb (bytes_equal (selected_boundary_fingerprint first)
                                                (selected_boundary_fingerprint a))
                  end
        with (LAPLACE_WORLD_ADMISSION_BOUNDARY_MISMATCH, WORLD_ADMISSION_FIELD_BOUNDARY) ;;
      (LAPLACE_WORLD_ADMISSION_OK, WORLD_ADMISSION_FIELD_NONE)
  | failed => failed
  end.

Definition absorb_admission (s : closing) (a : laplace_world_admission_record)
    (r : laplace_world_admission_receipt) : closing := {|
  input_hasher := hash_record (input_hasher s) a true;
  output_hasher :=
    blake3_hasher_update (blake3_hasher_update (output_hasher s) (admission_id a))
      (readback_fingerprint a);
  totals := r |}.

Fixpoint close_loop (first : laplace_world_admission_record)
    (previous : option laplace_world_admission_record)
    (admissions : list laplace_world_admission_record) (index : Z) (s : closing)
    : laplace_world_admission_status * laplace_world_admission_error * closing :=
  match admissions with
  | [] => (LAPLACE_WORLD_ADMISSION_OK,
           mk_error UINT64_MAX (field_code WORLD_ADMISSION_FIELD_NONE) 0, s)
  | a :: rest =>
      match check_admission first previous a with
      | (LAPLACE_WORLD_ADMISSION_OK, _) =>
          let '(ok, r) := add_totals (totals s) a in
          if ok then close_loop first (Some a) rest (index + 1) (absorb_admission s a r)
          else (LAPLACE_WORLD_ADMISSION_OVERFLOW,
                mk_error index (field_code WORLD_ADMISSION_FIELD_AGGREGATE) 0,
                mk_closing (input_hasher s) (output_hasher s) r)
      | (failed, f) => (failed, mk_error index (field_code f) 0, s)
      end
  end.

(** The cleared receipt. *)
Definition empty_receipt : laplace_world_admission_receipt :=
  mk_receipt (zeros 32) (zeros 32) (zeros 32) (zeros 32) 0 0 0 0 0 0
    LAPLACE_WORLD_ADMISSION_VERSION 0.

Definition initial_closing (count : Z) : closing := {|
  input_hasher := hash_u64 (blake3_hasher_update blake3_hasher_init
    (domain_bytes "laplace-world-admission-input-v1")) count;
  output_hasher := hash_u64 (blake3_hasher_update blake3_hasher_init
    (domain_bytes "laplace-world-admission-output-v1")) count;
  totals := empty_receipt |}.

Definition hash_receipt (r : laplace_world_admission_receipt) : blake3_hasher :=
  let hasher := blake3_hasher_update blake3_hasher_init
                  (domain_bytes "laplace-world-admission-receipt-v1") in
  let hasher := blake3_hasher_update hasher (receipt_boundary_fingerprint r) in
  let hasher := blake3_hasher_update hasher (input_fingerprint r) in
  let hasher := blake3_hasher_update hasher (output_fingerprint r) in
  let hasher := hash_u64 hasher (admission_count r) in
  let hasher := hash_u64 hasher (occurrence_count r) in
  let hasher := hash_u64 hasher (claim_count r) in
  let hasher := hash_u64 hasher (receipt_evidence_node_count r) in
  let hasher := hash_u64 hasher (receipt_testimony_count r) in
  let hasher := hash_u64 hasher (receipt_closure_subject_count r) in
  let hasher := hash_u32 hasher (version r) in
  hash_u32 hasher (receipt_status r).

Definition final_receipt (boundary : laplace_digest256) (count : Z) (s : closing)
    : laplace_world_admission_receipt :=
  let r := totals s in
  let body := mk_receipt (receipt_id r) boundary (blake3_hasher_finalize (input_hasher s))
    (blake3_hasher_finalize (output_hasher s)) count (occurrence_count r) (claim_count r)
    (receipt_evidence_node_count r) (receipt_testimony_count r)
    (receipt_closure_subject_count r) (version r)
    (status_code LAPLACE_WORLD_ADMISSION_OK) in
  mk_receipt (blake3_hasher_finalize (hash_receipt body)) (receipt_boundary_fingerprint body)
    (input_fingerprint body) (output_fingerprint body) (admission_count body)
    (occurrence_count body) (claim_count body) (receipt_evidence_node_count body)
    (receipt_testimony_count body) (receipt_closure_subject_count body) (version body)
    (receipt_status body).

Definition laplace_world_admission_close_batch
    (admissions : ptr (list laplace_world_admission_record)) (count : Z)
    (receipt : ptr laplace_world_admission_receipt)
    (error : ptr laplace_world_admission_error)
    : laplace_world_admission_status * ptr laplace_world_admission_receipt *
      ptr laplace_world_admission_error :=
  let no_error := mk_error UINT64_MAX (field_code WORLD_ADMISSION_FIELD_NONE) 0 in
  return_when is_null admissions || (count =? 0) || is_null receipt
    with (LAPLACE_WORLD_ADMISSION_INVALID_ARGUMENT, store receipt empty_receipt,
          store error no_error) ;;
  match cells admissions count with
  | [] => (* not reached: the array holds [count] > 0 records *)
      (LAPLACE_WORLD_ADMISSION_INVALID_ARGUMENT, store receipt empty_receipt,
       store error no_error)
  | (first :: _) as all =>
      match close_loop first None all 0 (initial_closing count) with
      | (LAPLACE_WORLD_ADMISSION_OK, _, s) =>
          (LAPLACE_WORLD_ADMISSION_OK,
           store receipt (final_receipt (selected_boundary_fingerprint first) count s),
           store error no_error)
      | (failed, e, s) => (failed, store receipt (totals s), store error e)
      end
  end.
End Admission.

(** ** The closure law, declaratively *)
Record admission_wf (a : laplace_world_admission_record) : Prop := {
  wf_profile : bytes 32 (source_profile_id a);
  wf_boundary : bytes 32 (selected_boundary_fingerprint a);
  wf_profile_receipt : bytes 32 (source_profile_receipt_id a);
  wf_recipe : bytes 32 (recipe_receipt_id a);
  wf_working_set : bytes 32 (composition_working_set_receipt_id a);
  wf_presence : bytes 32 (composition_presence_receipt_id a);
  wf_producer : bytes 32 (composition_producer_receipt_id a);
  wf_stream : bytes 32 (composition_stream_receipt_id a);
  wf_lineage : bytes 32 (evidence_lineage_receipt_id a);
  wf_testimony : bytes 32 (evidence_testimony_receipt_id a);
  wf_readback : bytes 32 (readback_fingerprint a);
  wf_occurrences : is_u64 (profile_occurrence_count a);
  wf_composed : is_u64 (composition_occurrence_count a);
  wf_claims : is_u64 (profile_claim_count a);
  wf_nodes : is_u64 (evidence_node_count a);
  wf_testimonies : is_u64 (testimony_count a);
  wf_profile_bound : is_u64 (profile_bound_testimony_count a);
  wf_recipe_bound : is_u64 (recipe_bound_testimony_count a);
  wf_lineage_bound : is_u64 (lineage_bound_testimony_count a);
  wf_subjects : is_u64 (closure_subject_count a);
  wf_closed : is_u64 (closed_subject_count a);
  wf_class : is_u32 (reconstruction_class a);
  wf_flags : is_u32 (flags a) }.

(** What it takes for an observation to be closed over its evidence. *)
Record admission_complete (a : laplace_world_admission_record) : Prop := {
  complete_components : Forall (fun d => d <> zeros 32) (component_digests a);
  complete_occurrences :
    0 < profile_occurrence_count a /\
    composition_occurrence_count a = profile_occurrence_count a;
  complete_claims :
    testimony_count a = profile_claim_count a /\
    profile_bound_testimony_count a = profile_claim_count a /\
    recipe_bound_testimony_count a = profile_claim_count a /\
    lineage_bound_testimony_count a = profile_claim_count a;
  complete_evidence :
    if decide (profile_claim_count a = 0)
    then evidence_lineage_receipt_id a = zeros 32 /\
         evidence_testimony_receipt_id a = zeros 32 /\ evidence_node_count a = 0
    else evidence_lineage_receipt_id a <> zeros 32 /\
         evidence_testimony_receipt_id a <> zeros 32 /\ 0 < evidence_node_count a;
  complete_closure :
    0 < closure_subject_count a /\ closed_subject_count a = closure_subject_count a;
  complete_reconstruction : 1 <= reconstruction_class a <= 3;
  complete_flags : flags a = 0 }.

Lemma bytes_zero_false l : bytes 32 l -> bytes_zero l = false <-> l <> zeros 32.
Proof.
  intros Hl. rewrite <- not_true_iff_false. by rewrite (bytes_zero_zeros 32).
Qed.

Lemma component_digests_present a :
  admission_wf a -> existsb bytes_zero (component_digests a) = false <->
  Forall (fun d => d <> zeros 32) (component_digests a).
Proof.
  intros []. unfold component_digests. cbn [existsb].
  rewrite !orb_false_iff', !bytes_zero_false by done. rewrite !Forall_cons, Forall_nil.
  tauto.
Qed.

Lemma validate_record_complete a :
  admission_wf a -> (validate_record a).1 = LAPLACE_WORLD_ADMISSION_OK <->
  admission_complete a.
Proof.
  intros Hwf. pose proof (component_digests_present a Hwf) as Hd. destruct Hwf.
  unfold validate_record. split.
  - intros H. destruct (existsb bytes_zero _); [done|].
    destruct (Z.eqb_spec (profile_claim_count a) 0);
      repeat (casec_in H; [done|]); clear H; bools;
      rewrite ?negb_false_iff in *; 
      repeat match goal with
      | H : bytes_zero _ = true |- _ => apply (bytes_zero_zeros 32) in H; [|done]
      | H : bytes_zero _ = false |- _ => apply bytes_zero_false in H; [|done]
      | H : _ && _ = false |- _ => apply andb_false_iff in H as [H|H]; bools
      end;
      (split; [by apply Hd | lia | lia | case_decide; try lia | lia | lia | lia]).
    all: split_and!; done || lia.
  - intros [Hc Ho Hcl He Hcs Hr Hf]. rewrite (proj2 Hd Hc).
    destruct Ho as [Ho1 Ho2], Hcl as (H1 & H2 & H3 & H4), Hcs as [Hs1 Hs2].
    rewrite H1, H2, H3, H4, Ho2, Hs2, Hf.
    rewrite !Z.eqb_refl. rewrite (proj2 (Z.eqb_neq (profile_occurrence_count a) 0)),
      (proj2 (Z.eqb_neq (closure_subject_count a) 0)), (proj2 (Z.ltb_ge _ 1)),
      (proj2 (Z.ltb_ge 3 _)) by lia.
    case_decide as Hz.
    + destruct He as (E1 & E2 & E3). rewrite Hz, E1, E2, E3. done.
    + destruct He as (E1 & E2 & E3).
      rewrite (proj2 (Z.eqb_neq (profile_claim_count a) 0)),
        (proj2 (Z.eqb_neq (evidence_node_count a) 0)),
        (proj2 (bytes_zero_false _ wf_lineage0) E1),
        (proj2 (bytes_zero_false _ wf_testimony0) E2) by lia. done.
Qed.

(** ** Transcripts *)
Definition semantic_code (a : laplace_world_admission_record) : list Z :=
  source_profile_id a ++ selected_boundary_fingerprint a ++ source_profile_receipt_id a ++
  recipe_receipt_id a ++ evidence_lineage_receipt_id a ++ evidence_testimony_receipt_id a ++
  readback_fingerprint a ++ store_le 8 (profile_occurrence_count a) ++
  store_le 8 (composition_occurrence_count a) ++ store_le 8 (profile_claim_count a) ++
  store_le 8 (evidence_node_count a) ++ store_le 8 (testimony_count a) ++
  store_le 8 (profile_bound_testimony_count a) ++
  store_le 8 (recipe_bound_testimony_count a) ++
  store_le 8 (lineage_bound_testimony_count a) ++ store_le 8 (closure_subject_count a) ++
  store_le 8 (closed_subject_count a) ++ store_le 4 (reconstruction_class a) ++
  store_le 4 (flags a).

Definition record_code (a : laplace_world_admission_record) : list Z :=
  source_profile_id a ++ selected_boundary_fingerprint a ++ source_profile_receipt_id a ++
  recipe_receipt_id a ++ composition_working_set_receipt_id a ++
  composition_presence_receipt_id a ++ composition_producer_receipt_id a ++
  composition_stream_receipt_id a ++ evidence_lineage_receipt_id a ++
  evidence_testimony_receipt_id a ++
  readback_fingerprint a ++ store_le 8 (profile_occurrence_count a) ++
  store_le 8 (composition_occurrence_count a) ++ store_le 8 (profile_claim_count a) ++
  store_le 8 (evidence_node_count a) ++ store_le 8 (testimony_count a) ++
  store_le 8 (profile_bound_testimony_count a) ++
  store_le 8 (recipe_bound_testimony_count a) ++
  store_le 8 (lineage_bound_testimony_count a) ++ store_le 8 (closure_subject_count a) ++
  store_le 8 (closed_subject_count a) ++ store_le 4 (reconstruction_class a) ++
  store_le 4 (flags a).

Definition identity_transcript (a : laplace_world_admission_record) : list Z :=
  domain_bytes "laplace-world-admission-v1" ++ record_code a.

Definition semantic_transcript (a : laplace_world_admission_record) : list Z :=
  domain_bytes "laplace-world-admission-semantic-projection-v1" ++ semantic_code a ++
  store_le 4 1 ++ store_le 4 0.

Definition input_transcript (l : list laplace_world_admission_record) : list Z :=
  domain_bytes "laplace-world-admission-input-v1" ++
  counted (fun a => admission_id a ++ record_code a) l.

Definition output_transcript (l : list laplace_world_admission_record) : list Z :=
  domain_bytes "laplace-world-admission-output-v1" ++
  counted (fun a => admission_id a ++ readback_fingerprint a) l.

Definition receipt_transcript (r : laplace_world_admission_receipt) : list Z :=
  domain_bytes "laplace-world-admission-receipt-v1" ++ receipt_boundary_fingerprint r ++
  input_fingerprint r ++ output_fingerprint r ++ store_le 8 (admission_count r) ++
  store_le 8 (occurrence_count r) ++ store_le 8 (claim_count r) ++
  store_le 8 (receipt_evidence_node_count r) ++ store_le 8 (receipt_testimony_count r) ++
  store_le 8 (receipt_closure_subject_count r) ++ store_le 4 (version r) ++
  store_le 4 (receipt_status r).

(** An admission that closes and carries its own identity. *)
Definition admissible {B : Blake3} (a : laplace_world_admission_record) : Prop :=
  admission_complete a /\ admission_id a = blake3 (identity_transcript a).

(** The world state of an admission: what remains when its identity and the
    receipts of the physical composition are blanked out. *)
Definition world_state (a : laplace_world_admission_record) : laplace_world_admission_record :=
  mk_record [] (source_profile_id a) (selected_boundary_fingerprint a)
    (source_profile_receipt_id a) (recipe_receipt_id a) [] [] [] []
    (evidence_lineage_receipt_id a) (evidence_testimony_receipt_id a) (readback_fingerprint a)
    (profile_occurrence_count a) (composition_occurrence_count a) (profile_claim_count a)
    (evidence_node_count a) (testimony_count a) (profile_bound_testimony_count a)
    (recipe_bound_testimony_count a) (lineage_bound_testimony_count a)
    (closure_subject_count a) (closed_subject_count a) (reconstruction_class a) (flags a).

Section Transcripts.
Context {B : Blake3} {L : Blake3Laws B}.

Lemma absorbs_admission h m a :
  absorbs h m -> absorbs (hash_record h a false) (m ++ record_code a).
Proof. intros. unfold hash_record, record_code. absorb. Qed.

Lemma absorbs_admission_with_id h m a :
  absorbs h m -> absorbs (hash_record h a true) (m ++ admission_id a ++ record_code a).
Proof. intros. unfold hash_record, record_code. absorb. Qed.

Lemma absorbs_semantics h m a :
  absorbs h m -> absorbs (hash_semantic_projection h a) (m ++ semantic_code a).
Proof. intros. unfold hash_semantic_projection, semantic_code. absorb. Qed.

Lemma semantic_code_state a b : world_state a = world_state b -> semantic_code a = semantic_code b.
Proof. intros H. by change (semantic_code (world_state a) = semantic_code (world_state b));
  rewrite H. Qed.

Lemma semantic_code_binds a b x y :
  admission_wf a -> admission_wf b -> semantic_code a ++ x = semantic_code b ++ y ->
  world_state a = world_state b /\ x = y.
Proof.
  intros [] [] H. unfold semantic_code in H. peel H. split; [|done].
  unfold world_state. f_equal; assumption.
Qed.

Lemma admission_identify_spec a out :
  (validate_record a).1 = LAPLACE_WORLD_ADMISSION_OK ->
  laplace_world_admission_identify (Some a) (Some out) =
  (LAPLACE_WORLD_ADMISSION_OK, Some (blake3 (identity_transcript a))).
Proof.
  intros H. unfold laplace_world_admission_identify.
  destruct (validate_record a) as [s f]. simpl in H. subst s. cbn [store].
  do 2 f_equal. apply absorbs_finalize. unfold identity_transcript.
  apply absorbs_admission. absorb.
Qed.

Lemma identity_mismatch_spec a :
  (validate_record a).1 = LAPLACE_WORLD_ADMISSION_OK ->
  identity_mismatch a = negb (bytes_equal (blake3 (identity_transcript a)) (admission_id a)).
Proof. intros H. unfold identity_mismatch. by rewrite admission_identify_spec. Qed.

(** The two checks made of each record decide [admissible]. *)
Lemma admissible_spec a :
  admission_wf a ->
  admissible a <-> (validate_record a).1 = LAPLACE_WORLD_ADMISSION_OK /\
                   identity_mismatch a = false.
Proof.
  intros Hwf. unfold admissible. rewrite <- validate_record_complete by done.
  split; intros [Hv Hi]; (split; [done|]).
  - rewrite identity_mismatch_spec by done. apply negb_false_iff, bytes_equal_spec. congruence.
  - rewrite identity_mismatch_spec in Hi by done.
    apply negb_false_iff, bytes_equal_spec in Hi. congruence.
Qed.
End Transcripts.

(** a semantic projection is world state and nothing else.  It exists
    exactly for admissions that close and carry their own identity; it then
    repeats every semantic field, and its fingerprint is the digest of a
    transcript that two admissions share if and only if they have the same
    world state, whatever the receipts of their physical composition.  In
    every other case the projection stays cleared, marked with the failure. *)
Theorem semantic_projection_exact {B : Blake3} {L : Blake3Laws B} a b out :
  admission_wf a -> admission_wf b ->
  let '(status, projection) :=
    laplace_world_admission_project_semantics (Some a) (Some out) in
  (status = LAPLACE_WORLD_ADMISSION_OK <-> admissible a) /\
  projection = Some (if decide (status = LAPLACE_WORLD_ADMISSION_OK)
                     then projected (blake3 (semantic_transcript a)) a
                     else empty_projection status) /\
  (semantic_transcript a = semantic_transcript b <-> world_state a = world_state b).
Proof.
  intros Ha Hb.
  assert (Hs : semantic_transcript a = semantic_transcript b <-> world_state a = world_state b).
  { unfold semantic_transcript. split.
    - intros H%app_inv_head. by apply semantic_code_binds in H as [H _].
    - intros H. by rewrite (semantic_code_state a b H). }
  unfold laplace_world_admission_project_semantics.
  pose proof (admissible_spec a Ha) as Hadm.
  destruct (validate_record a) as [s f]. cbn [fst] in Hadm.
  destruct (decide (s = LAPLACE_WORLD_ADMISSION_OK)) as [->|Hne].
  - destruct (identity_mismatch a).
    + split; [|done]. rewrite Hadm. split; [done|]. by intros [].
    + split; [|split; [|done]]; [by rewrite Hadm|]. rewrite decide_True by done.
      do 2 f_equal. apply absorbs_finalize. unfold semantic_transcript.
      rewrite !app_assoc. apply absorbs_u32, absorbs_u32, absorbs_semantics. absorb.
  - assert (~ admissible a) by (rewrite Hadm; by intros []).
    destruct s; done.
Qed.

(** ** The batch *)
(** The five aggregates of a batch fit a word. *)
Definition totals_fit (l : list laplace_world_admission_record) : Prop :=
  sum_of profile_occurrence_count l <= UINT64_MAX /\
  sum_of profile_claim_count l <= UINT64_MAX /\
  sum_of evidence_node_count l <= UINT64_MAX /\
  sum_of testimony_count l <= UINT64_MAX /\
  sum_of closure_subject_count l <= UINT64_MAX.

(** What a batch must satisfy to be closed. *)
Record admissions_accepted {B : Blake3} (l : list laplace_world_admission_record) : Prop := {
  accepted_records : Forall admissible l;
  accepted_order : StronglySorted (fun a b => memcmp (admission_id a) (admission_id b) = Lt) l;
  accepted_boundary : homogeneous selected_boundary_fingerprint l;
  accepted_totals : totals_fit l }.

(** The receipt of an accepted batch. *)
Definition receipt_of {B : Blake3} (l : list laplace_world_admission_record)
    (r : laplace_world_admission_receipt) : Prop :=
  receipt_id r = blake3 (receipt_transcript r) /\
  Forall (fun a => selected_boundary_fingerprint a = receipt_boundary_fingerprint r) l /\
  input_fingerprint r = blake3 (input_transcript l) /\
  output_fingerprint r = blake3 (output_transcript l) /\
  admission_count r = Z.of_nat (length l) /\
  occurrence_count r = sum_of profile_occurrence_count l /\
  claim_count r = sum_of profile_claim_count l /\
  receipt_evidence_node_count r = sum_of evidence_node_count l /\
  receipt_testimony_count r = sum_of testimony_count l /\
  receipt_closure_subject_count r = sum_of closure_subject_count l /\
  version r = LAPLACE_WORLD_ADMISSION_VERSION /\ receipt_status r = 0.

Section Batch.
Context {B : Blake3} {L : Blake3Laws B}.
Implicit Types (a first : laplace_world_admission_record)
  (p l : list laplace_world_admission_record).

(** The receipt that holds the totals of a prefix. *)
Definition totals_of p : laplace_world_admission_receipt :=
  set_totals empty_receipt (sum_of profile_occurrence_count p) (sum_of profile_claim_count p)
    (sum_of evidence_node_count p) (sum_of testimony_count p)
    (sum_of closure_subject_count p).

Lemma add_u64_spec t v :
  add_u64 t v = if decide (t + v <= UINT64_MAX) then (true, t + v) else (false, t).
Proof. unfold add_u64. case_decide; casec; done || lia. Qed.

Lemma add_totals_spec p a :
  (totals_fit (p ++ [a]) -> add_totals (totals_of p) a = (true, totals_of (p ++ [a]))) /\
  (~ totals_fit (p ++ [a]) -> exists r, add_totals (totals_of p) a = (false, r) /\
     receipt_id r = zeros 32 /\ admission_count r = 0).
Proof.
  unfold totals_fit, add_totals, totals_of. rewrite !sum_of_snoc, !add_u64_spec.
  cbn [set_totals occurrence_count claim_count receipt_evidence_node_count
    receipt_testimony_count receipt_closure_subject_count].
  split.
  - intros (H1 & H2 & H3 & H4 & H5).
    repeat (rewrite decide_True by done; cbn [negb]; rewrite ?add_u64_spec). done.
  - intros Hno.
    repeat (rewrite ?add_u64_spec; case_decide; cbn [negb]; [|by eexists; split_and!]).
    exfalso. apply Hno. split_and!; done.
Qed.

Lemma admissions_accepted_nil : admissions_accepted [].
Proof.
  split; [constructor..| |].
  - intros a b Ha. by apply not_elem_of_nil in Ha.
  - by vm_compute.
Qed.

Lemma check_admission_spec first p a :
  admission_wf a -> admissions_accepted p -> head (p ++ [a]) = Some first ->
  ((check_admission first (last p) a).1 = LAPLACE_WORLD_ADMISSION_OK /\
   totals_fit (p ++ [a]) <-> admissions_accepted (p ++ [a])).
Proof.
  intros Hwf [Hr Ho Hb Ht] Hf.
  assert (Hcheck : (check_admission first (last p) a).1 = LAPLACE_WORLD_ADMISSION_OK <->
    admissible a /\
    StronglySorted (fun a b => memcmp (admission_id a) (admission_id b) = Lt) (p ++ [a]) /\
    homogeneous selected_boundary_fingerprint (p ++ [a])).
  { rewrite (admissible_spec a Hwf), (homogeneous_extend _ p a first Hb Hf).
    rewrite (StronglySorted_extend
      (fun a b => memcmp (admission_id a) (admission_id b) = Lt) p a Ho).
    unfold check_admission. destruct (validate_record a) as [s f]. cbn [fst].
    destruct (decide (s = LAPLACE_WORLD_ADMISSION_OK)) as [->|Hne].
    2:{ destruct s; by split; [|intros [[] _]]. }
    destruct (identity_mismatch a); [by split; [|intros [[] _]]|].
    destruct p as [|q p _] using rev_ind.
    - simpl in Hf |- *. injection Hf as ->. done.
    - rewrite last_snoc. destruct (memcmp (admission_id q) (admission_id a)) eqn:E;
        [by split; [|intros (_ & ? & _)].. | | by split; [|intros (_ & ? & _)]].
      destruct (bytes_equal _ _) eqn:Eb; cbn [negb fst].
      + apply bytes_equal_spec in Eb. done.
      + apply bytes_equal_false in Eb. by split; [|intros (_ & _ & ?)]. }
  rewrite Hcheck. split.
  - intros [(Ha & Ho' & Hb') Ht']. split; [|done..].
    apply Forall_app. split; [done|by apply Forall_singleton].
  - intros [Hr' Ho' Hb' Ht']. apply Forall_app in Hr' as [_ Hr'].
    by apply Forall_cons in Hr' as [Ha _].
Qed.

Lemma admissions_accepted_prefix p l :
  Forall admission_wf (p ++ l) -> admissions_accepted (p ++ l) -> admissions_accepted p.
Proof.
  intros Hwf [Hr Ho Hb Ht]. apply Forall_app in Hwf as [_ Hwf].
  assert (Hsum : forall f, (forall a, admission_wf a -> 0 <= f a) ->
    sum_of f p <= sum_of f (p ++ l)).
  { intros f Hf. rewrite sum_of_app. pose proof (sum_of_nonneg f l) as Hn.
    assert (0 <= sum_of f l); [|lia]. apply Hn. eapply Forall_impl; [exact Hwf|done]. }
  split.
  - by apply Forall_app in Hr as [? _].
  - clear -Ho. induction p as [|x p IH]; simpl in *; [constructor|].
    apply StronglySorted_inv in Ho as [Ho Hx]. apply Forall_app in Hx as [Hx _].
    constructor; auto.
  - intros a b Ha Hb'. apply Hb; set_solver.
  - destruct Ht as (H1 & H2 & H3 & H4 & H5).
    split_and!; (etrans; [apply Hsum; intros ? []; lia|done]).
Qed.

(** The loop's state after an accepted prefix. *)
Definition closed_over n p : closing :=
  let s0 := initial_closing n in
  mk_closing (foldl (fun h a => hash_record h a true) (input_hasher s0) p)
    (foldl (fun h a => blake3_hasher_update (blake3_hasher_update h (admission_id a))
                         (readback_fingerprint a)) (output_hasher s0) p)
    (totals_of p).

(** The loop closes a batch or stops at the first record that breaks it. *)
Lemma close_loop_spec first n l : forall p i,
  Forall admission_wf (p ++ l) ->
  admissions_accepted p -> head (p ++ l) = Some first -> i = Z.of_nat (length p) ->
  let '(status, error, s) := close_loop first (last p) l i (closed_over n p) in
  if decide (status = LAPLACE_WORLD_ADMISSION_OK)
  then admissions_accepted (p ++ l) /\ s = closed_over n (p ++ l)
  else receipt_id (totals s) = zeros 32 /\ admission_count (totals s) = 0 /\
       exists k, admission_index error = Z.of_nat k /\ (k < length (p ++ l))%nat /\
       admissions_accepted (take k (p ++ l)) /\
       ~ admissions_accepted (take (S k) (p ++ l)).
Proof.
  induction l as [|a l IH]; intros p i Hwf Hp Hf Hi; cbn [close_loop].
  { rewrite decide_True by done. by rewrite app_nil_r. }
  assert (Hwa : admission_wf a).
  { apply Forall_app in Hwf as [_ Hwf]. by apply Forall_cons in Hwf as [? _]. }
  assert (Hfa : head (p ++ [a]) = Some first) by (destruct p; done).
  pose proof (check_admission_spec first p a Hwa Hp Hfa) as Hc.
  assert (Hstop : ~ admissions_accepted (p ++ [a]) ->
    exists k, i = Z.of_nat k /\ (k < length (p ++ a :: l))%nat /\
      admissions_accepted (take k (p ++ a :: l)) /\
      ~ admissions_accepted (take (S k) (p ++ a :: l))).
  { intros Hno. exists (length p). rewrite length_app, take_app_length, take_snoc.
    split_and!; [done | simpl; lia | done | done]. }
  destruct (check_admission first (last p) a) as [st f].
  destruct (decide (st = LAPLACE_WORLD_ADMISSION_OK)) as [->|Hne].
  - destruct (add_totals_spec p a) as [Hfit Hno]. change (totals (closed_over n p)) with (totals_of p).
    destruct (decide (totals_fit (p ++ [a]))) as [Ht|Ht].
    + rewrite (Hfit Ht). specialize (IH (p ++ [a]) (i + 1)).
      rewrite <- !app_assoc, last_snoc in IH.
      assert (E : closed_over n (p ++ [a]) =
                  absorb_admission (closed_over n p) a (totals_of (p ++ [a])))
        by (unfold closed_over; by rewrite !foldl_snoc).
      rewrite E in IH. apply IH; [done|by apply Hc|done|].
      rewrite length_app. simpl. lia.
    + destruct (Hno Ht) as (r & -> & Hid & Hcount). rewrite decide_False by done.
      split_and!; [done..|]. apply Hstop. intros H%Hc. by destruct H.
  - assert (Hno : ~ admissions_accepted (p ++ [a])) by (intros H%Hc; by destruct H).
    destruct st; [done|..]; rewrite decide_False by done; (split_and!; [done..|]);
      by apply Hstop.
Qed.

Lemma closed_over_hashers n p :
  absorbs (input_hasher (closed_over n p))
    (domain_bytes "laplace-world-admission-input-v1" ++ store_le 8 n ++
     concat (map (fun a => admission_id a ++ record_code a) p)) /\
  absorbs (output_hasher (closed_over n p))
    (domain_bytes "laplace-world-admission-output-v1" ++ store_le 8 n ++
     concat (map (fun a => admission_id a ++ readback_fingerprint a) p)).
Proof.
  unfold closed_over, initial_closing. cbn [input_hasher output_hasher].
  rewrite !app_assoc. split; apply absorbs_fold.
  - intros. by apply absorbs_admission_with_id.
  - absorb.
  - intros. absorb.
  - absorb.
Qed.

Lemma closed_receipt_spec first l :
  homogeneous selected_boundary_fingerprint l -> head l = Some first ->
  receipt_of l (final_receipt (selected_boundary_fingerprint first) (Z.of_nat (length l))
    (closed_over (Z.of_nat (length l)) l)).
Proof.
  intros Hb Hf. destruct (closed_over_hashers (Z.of_nat (length l)) l) as [Hi Ho].
  unfold receipt_of, final_receipt, closed_over, totals_of in *.
  cbn [receipt_id receipt_boundary_fingerprint set_totals empty_receipt
    input_fingerprint output_fingerprint admission_count occurrence_count claim_count
    receipt_evidence_node_count receipt_testimony_count receipt_closure_subject_count
    version receipt_status totals input_hasher output_hasher status_code] in *.
  split_and!; [|..|done|done|done|done|done|done|done|done]; try done.
  - apply absorbs_finalize. unfold hash_receipt, receipt_transcript.
    cbn [receipt_boundary_fingerprint input_fingerprint output_fingerprint admission_count
      occurrence_count claim_count receipt_evidence_node_count receipt_testimony_count
      receipt_closure_subject_count version receipt_status]. absorb.
  - apply Forall_forall. intros a Ha. apply Hb; [done|].
    destruct l; [done|]. simpl in Hf. injection Hf as ->. left.
  - by apply absorbs_finalize.
  - by apply absorbs_finalize.
Qed.
End Batch.

(** C21: closing a batch of admissions is exact.  A batch closes if and only if
    every record is closed over its evidence and carries its own identity,
    identities increase strictly, one selected boundary holds throughout and
    the five aggregates fit 64-bit words; the receipt then fingerprints the
    records and carries the aggregates.  Otherwise the receipt stays unsealed
    and the error index is that of the first record that breaks the batch. *)
Theorem close_batch_exact {B : Blake3} {L : Blake3Laws B} l n receipt err :
  n = Z.of_nat (length l) -> 1 <= n -> Forall admission_wf l ->
  let '(status, receipt', error') :=
    laplace_world_admission_close_batch (Some l) n (Some receipt) (Some err) in
  (status = LAPLACE_WORLD_ADMISSION_OK <-> admissions_accepted l) /\
  (status = LAPLACE_WORLD_ADMISSION_OK ->
     error' = Some (mk_error UINT64_MAX 0 0) /\ exists r, receipt' = Some r /\ receipt_of l r) /\
  (status <> LAPLACE_WORLD_ADMISSION_OK ->
     (exists r, receipt' = Some r /\ receipt_id r = zeros 32 /\ admission_count r = 0) /\
     exists e k, error' = Some e /\ admission_index e = Z.of_nat k /\ (k < length l)%nat /\
       admissions_accepted (take k l) /\ ~ admissions_accepted (take (S k) l)).
Proof.
  intros -> Hn Hwf. unfold laplace_world_admission_close_batch. ptrs.
  rewrite (proj2 (Z.eqb_neq _ _)) by lia. cbn [orb]. rewrite cells_all by done.
  destruct l as [|first l]; [simpl in Hn; lia|].
  set (all := first :: l) in *. set (len := Z.of_nat (length all)).
  pose proof (close_loop_spec first len all [] 0 Hwf admissions_accepted_nil
    eq_refl eq_refl) as H.
  change (closed_over len []) with (initial_closing len) in H.
  change (last []) with (@None laplace_world_admission_record) in H.
  change ([] ++ all) with all in H.
  destruct (close_loop first None all 0 (initial_closing len)) as [[status e] s].
  case_decide as Hst.
  - subst status. destruct H as [Hacc ->]. cbn [store]. split; [done|]. split; [|done].
    intros _. split; [done|]. eexists. split; [done|]. apply closed_receipt_spec; [|done].
    by apply Hacc.
  - destruct H as (Hid & Hcount & k & Hk & Hlt & Hpre & Hno).
    assert (Hnot : ~ admissions_accepted all).
    { intros Hacc. apply Hno. apply (admissions_accepted_prefix _ (drop (S k) all));
        by rewrite take_drop. }
    destruct status; [done|..]; cbn [store]; (split; [by split|]); (split; [done|]);
      (intros _; split; [by eexists|]); by exists e, k.
Qed.

(** ** A batch of two admissions, one of them without claims *)
Definition draft_admission (physical claims : Z) : laplace_world_admission_record :=
  let evidence := if claims =? 0 then zeros 32 else replicate 32 7 in
  mk_record (zeros 32) (replicate 32 1) (replicate 32 2) (replicate 32 3) (replicate 32 4)
    (replicate 32 physical) (replicate 32 physical) (replicate 32 physical)
    (replicate 32 physical) evidence evidence (replicate 32 9) 5 5 claims claims claims claims
    claims claims 6 6 1 0.
Definition identified (a : laplace_world_admission_record) : laplace_world_admission_record :=
  mk_record
    (default [] (laplace_world_admission_identify (B := checksum_blake3) (Some a)
                   (Some (zeros 32))).2)
    (source_profile_id a) (selected_boundary_fingerprint a) (source_profile_receipt_id a)
    (recipe_receipt_id a) (composition_working_set_receipt_id a)
    (composition_presence_receipt_id a) (composition_producer_receipt_id a)
    (composition_stream_receipt_id a) (evidence_lineage_receipt_id a)
    (evidence_testimony_receipt_id a) (readback_fingerprint a) (profile_occurrence_count a)
    (composition_occurrence_count a) (profile_claim_count a) (evidence_node_count a)
    (testimony_count a) (profile_bound_testimony_count a) (recipe_bound_testimony_count a)
    (lineage_bound_testimony_count a) (closure_subject_count a) (closed_subject_count a)
    (reconstruction_class a) (flags a).
Definition sample_admissions : list laplace_world_admission_record :=
  [identified (draft_admission 5 3); identified (draft_admission 6 0)].

Lemma draft_wf id physical claims :
  is_u8 physical -> is_u64 claims ->
  admission_wf (let a := draft_admission physical claims in
    mk_record id (source_profile_id a) (selected_boundary_fingerprint a)
      (source_profile_receipt_id a)
      (recipe_receipt_id a) (composition_working_set_receipt_id a)
      (composition_presence_receipt_id a) (composition_producer_receipt_id a)
      (composition_stream_receipt_id a) (evidence_lineage_receipt_id a)
      (evidence_testimony_receipt_id a) (readback_fingerprint a) (profile_occurrence_count a)
      (composition_occurrence_count a) (profile_claim_count a) (evidence_node_count a)
      (testimony_count a) (profile_bound_testimony_count a) (recipe_bound_testimony_count a)
      (lineage_bound_testimony_count a) (closure_subject_count a) (closed_subject_count a)
      (reconstruction_class a) (flags a)).
Proof.
  intros Hp Hc.
  assert (Hb : bytes 32 (replicate 32 physical)) by (split; [done|]; by apply Forall_replicate).
  assert (He : bytes 32 (if claims =? 0 then zeros 32 else replicate 32 7))
    by (destruct (claims =? 0); check).
  split; cbn; done || lia || check.
Qed.

Lemma sample_admissions_ok :
  (laplace_world_admission_close_batch (B := checksum_blake3) (Some sample_admissions) 2
     (Some empty_receipt) (Some (mk_error 0 0 0))).1.1 = LAPLACE_WORLD_ADMISSION_OK.
Proof. vm_compute. reflexivity. Qed.

Lemma close_batch_exact_witness :
  let '(status, receipt, error) :=
    laplace_world_admission_close_batch (B := checksum_blake3) (Some sample_admissions) 2
      (Some empty_receipt) (Some (mk_error 0 0 0)) in
  status = LAPLACE_WORLD_ADMISSION_OK /\ error = Some (mk_error UINT64_MAX 0 0) /\
  (occurrence_count <$> receipt) = Some 10 /\ (claim_count <$> receipt) = Some 3.
Proof.
  pose proof (close_batch_exact (B := checksum_blake3) (L := checksum_blake3_laws)
    sample_admissions 2 empty_receipt (mk_error 0 0 0) eq_refl ltac:(lia)) as H.
  specialize (H ltac:(apply Forall_cons; split; [apply draft_wf; lia|];
    apply Forall_cons; split; [apply draft_wf; lia|apply Forall_nil; exact I])).
  pose proof sample_admissions_ok as Hok.
  destruct (laplace_world_admission_close_batch _ _ _ _) as [[st r] e].
  cbn [fst snd] in Hok. subst st. destruct H as (_ & H & _).
  destruct (H eq_refl) as (-> & r' & -> & _ & _ & _ & _ & _ & Ho & Hc & _).
  simpl. rewrite Ho, Hc. split_and!; reflexivity.
Defined.

(** Two physical executions of one world state. *)
Lemma semantic_projection_exact_witness :
  semantic_transcript (identified (draft_admission 5 3)) =
  semantic_transcript (identified (draft_admission 6 3)).
Proof.
  pose proof (semantic_projection_exact (B := checksum_blake3) (L := checksum_blake3_laws)
    (identified (draft_admission 5 3)) (identified (draft_admission 6 3))
    (empty_projection LAPLACE_WORLD_ADMISSION_OK)
    (draft_wf _ 5 3 ltac:(lia) ltac:(lia)) (draft_wf _ 6 3 ltac:(lia) ltac:(lia))) as H.
  destruct (laplace_world_admission_project_semantics _ _) as [st p].
  destruct H as (_ & _ & H). apply H. reflexivity.
Defined.
