(* ===== verification/LineageGraph.v ===== *)
(** * The dependence graph of a lineage batch

    Models the graph part of [engine/src/evidence_lineage.c]: the adjacency
    arrays a batch of edges is compiled into (counts, offsets, and the children
    of every node), and the depth-first search that rejects a cycle.

    Nodes are the indices of the batch's node records and an array of [size_t]
    is a list of [nat]; the checked allocation of [EvidenceLineage] bounds every
    index far below [SIZE_MAX], so no index wraps.  [stack] and
    [stack_edge_cursor] are one list of pairs whose head is the cell
    [depth - 1].

    [child_segment] and [parent_segment] say that the arrays list the edges of
    a node, [depth_first_spec] that the search, with one unit of fuel per node
    and per edge, either finds a cycle or shows that every node is strongly
    normalising for dependence, so that there is none. *)
From stdpp Require Import prelude relations sorting.
From Stdlib Require Import ZArith Lia.
From S2P Require Import Prelude.

#[local] Open Scope nat_scope.

(** ** Definitions *)
Record lineage_edge := mk_edge { child : nat; parent : nat }.

#[export] Instance lineage_edge_eq_dec : EqDecision lineage_edge.
Proof. solve_decision. Defined.
#[export] Instance lineage_edge_inhabited : Inhabited lineage_edge :=
  populate (mk_edge 0 0).

(** [++counts[v]]. *)
Definition bump (v : nat) (counts : list nat) : list nat :=
  <[v := S (counts !!! v)]> counts.

(** [offsets[index + 1] = offsets[index] + counts[index]]. *)
Fixpoint offsets (offset : nat) (counts : list nat) : list nat :=
  offset :: match counts with
            | [] => []
            | count :: counts => offsets (offset + count) counts
            end.

(** [children[parent_cursor[edges[index].parent]++] = edges[index].child]. *)
Definition place_child (arrays : list nat * list nat) (e : lineage_edge)
    : list nat * list nat :=
  let '(children, parent_cursor) := arrays in
  (<[parent_cursor !!! parent e := child e]> children, bump (parent e) parent_cursor).

Definition fill_children (edges : list lineage_edge) (parent_offsets : list nat)
    (node_count : nat) : list nat :=
  fst (foldl place_child (replicate (length edges) 0, take node_count parent_offsets) edges).

(** What a search of the graph ends with: the colours of the nodes, or the
    stack and the node found on it a second time. *)
Inductive search :=
  | Coloured (colors : list nat)
  | Repeated (stack : list (nat * nat)) (repeated : nat).

Section Search.
Context (edges : list lineage_edge) (child_offsets : list nat).

Fixpoint search_loop (fuel : nat) (colors : list nat) (stack : list (nat * nat))
    : option search :=
  match stack with
  | [] => Some (Coloured colors)
  | (node, edge_position) :: rest =>
      match fuel with
      | O => None
      | S fuel =>
          let edge_begin := child_offsets !!! node in
          let edge_end := child_offsets !!! (S node) in
          if edge_end <=? edge_begin + edge_position
          then search_loop fuel (<[node := 2]> colors) rest
          else
            let parent := parent (edges !!! (edge_begin + edge_position)) in
            let stack := (node, S edge_position) :: rest in
            if colors !!! parent =? 1 then Some (Repeated stack parent)
            else if colors !!! parent =? 0
            then search_loop fuel (<[parent := 1]> colors) ((parent, 0) :: stack)
            else search_loop fuel colors stack
      end
  end.

Fixpoint search_from (fuel : nat) (starts : list nat) (colors : list nat)
    : option search :=
  match starts with
  | [] => Some (Coloured colors)
  | start :: starts =>
      if negb (colors !!! start =? 0) then search_from fuel starts colors
      else
        match search_loop fuel (<[start := 1]> colors) [(start, 0)] with
        | Some (Coloured colors) => search_from fuel starts colors
        | result => result
        end
  end.

(** One unit of fuel per node and per edge. *)
Definition depth_first (node_count : nat) : option search :=
  search_from (node_count + length edges) (seq 0 node_count) (replicate node_count 0).
End Search.

(** The closed path of a repeated node: the stack from its cell on, and the
    node again. *)
Fixpoint from_repeated (repeated : nat) (stack : list nat) : list nat :=
  match stack with
  | [] => []
  | node :: rest => if node =? repeated then stack else from_repeated repeated rest
  end.

Definition repeated_path (stack : list (nat * nat)) (repeated : nat) : list nat :=
  from_repeated repeated (rev (map fst stack)) ++ [repeated].

(** ** Specification *)
Definition depends (edges : list lineage_edge) (v w : nat) : Prop :=
  mk_edge v w ∈ edges.

(** A walk along a relation: each element is related to the next. *)
Fixpoint walk {A} (R : A -> A -> Prop) (l : list A) : Prop :=
  match l with
  | v :: ((w :: _) as rest) => R v w /\ walk R rest
  | _ => True
  end.

(** A closed walk: at least one step, and it ends where it began. *)
Definition closed_walk {A} (R : A -> A -> Prop) (path : list A) : Prop :=
  exists v between, path = v :: between ++ [v] /\ walk R path.

Definition graph_ok (node_count : nat) (edges : list lineage_edge) : Prop :=
  Forall (fun e => child e < node_count /\ parent e < node_count) edges /\
  StronglySorted (fun e f => child e <= child f) edges.

(** The edges with a given end: those that leave a node for [f] the [child],
    those that enter it for [f] the [parent]. *)
Definition with_end (f : lineage_edge -> nat) (edges : list lineage_edge) (v : nat)
    : list lineage_edge :=
  filter (fun e => f e = v) edges.

(** The counts of the edges by an end of theirs. *)
Definition degrees (f : lineage_edge -> nat) (node_count : nat)
    (edges : list lineage_edge) : list nat :=
  foldl (fun counts e => bump (f e) counts) (replicate node_count 0) edges.

(** ** Counts and offsets *)
Lemma length_bump v counts : length (bump v counts) = length counts.
Proof. apply length_insert. Qed.

Lemma bump_lookup v counts w : v < length counts ->
  bump v counts !!! w = (if decide (v = w) then 1 else 0) + counts !!! w.
Proof.
  intros Hv. unfold bump. case_decide as Hw; [subst w|].
  - by rewrite list_lookup_total_insert_eq.
  - by rewrite list_lookup_total_insert_ne.
Qed.

Section Adjacency.
Context (f : lineage_edge -> nat) (node_count : nat).
Implicit Types (edges : list lineage_edge) (counts : list nat).

Lemma bumps_lookup edges : forall counts v, v < length counts ->
  Forall (fun e => f e < length counts) edges ->
  foldl (fun counts e => bump (f e) counts) counts edges !!! v =
  counts !!! v + length (with_end f edges v).
Proof.
  induction edges as [|e edges IH]; intros counts v Hv He; simpl; [lia|].
  apply Forall_cons in He as [He Hes].
  rewrite IH; [|rewrite length_bump; assumption..]. rewrite bump_lookup by done.
  unfold with_end. rewrite filter_cons. case_decide; simpl; lia.
Qed.

Lemma length_bumps edges : forall counts,
  length (foldl (fun counts e => bump (f e) counts) counts edges) = length counts.
Proof. induction edges; intros; simpl; [done|]. by rewrite IHedges, length_bump. Qed.

Lemma length_degrees edges : length (degrees f node_count edges) = node_count.
Proof. unfold degrees. by rewrite length_bumps, length_replicate. Qed.

Lemma degrees_lookup edges v : v < node_count ->
  Forall (fun e => f e < node_count) edges ->
  degrees f node_count edges !!! v = length (with_end f edges v).
Proof.
  intros Hv He. unfold degrees.
  rewrite bumps_lookup by (rewrite length_replicate; assumption).
  by rewrite lookup_total_replicate_2.
Qed.

Lemma length_offsets counts : forall offset,
  length (offsets offset counts) = S (length counts).
Proof. induction counts; intros; simpl; [done|]. by rewrite IHcounts. Qed.

Lemma offsets_lookup counts : forall offset v, v <= length counts ->
  offsets offset counts !!! v = offset + sum_list (take v counts).
Proof.
  induction counts as [|count counts IH]; intros offset [|v] Hv; simpl in Hv;
    [simpl; lia | lia | cbn; lia |].
  change (offsets offset (count :: counts) !!! S v)
    with (offsets (offset + count) counts !!! v).
  rewrite IH by lia. simpl. unfold id. lia.
Qed.

(** The offset of a node counts the edges whose end is before it. *)
Definition before edges v : nat := length (filter (fun e => f e < v) edges).

Lemma before_S edges v : before edges (S v) = before edges v + length (with_end f edges v).
Proof.
  unfold before, with_end. induction edges as [|e edges IH]; [done|].
  rewrite !filter_cons. repeat case_decide; simpl; lia.
Qed.

Lemma before_mono edges v w : v <= w -> before edges v <= before edges w.
Proof. induction 1; [done|]. rewrite before_S. lia. Qed.

Lemma before_segment edges v w : v < w ->
  before edges v + length (with_end f edges v) <= before edges w.
Proof. intros H. rewrite <- before_S. by apply before_mono. Qed.

Lemma before_all edges v : Forall (fun e => f e < v) edges -> before edges v = length edges.
Proof.
  unfold before. induction 1 as [|e edges He _ IH]; [done|].
  rewrite filter_cons_True by done. simpl. by rewrite IH.
Qed.

Lemma before_le edges v : before edges v <= length edges.
Proof. apply length_filter. Qed.

Lemma offsets_before edges v : v <= node_count ->
  Forall (fun e => f e < node_count) edges ->
  offsets 0 (degrees f node_count edges) !!! v = before edges v.
Proof.
  intros Hv He. rewrite offsets_lookup by (rewrite length_degrees; lia). simpl.
  induction v as [|v IH].
  - simpl. unfold before. clear. induction edges as [|e edges IH]; [done|].
    rewrite filter_cons_False by lia. done.
  - rewrite before_S, <- IH by lia.
    rewrite (take_S_r _ _ (length (with_end f edges v))).
    + rewrite sum_list_with_app. simpl. unfold id. lia.
    + rewrite <- (degrees_lookup edges v) by (done || lia).
      apply list_lookup_lookup_total_lt. rewrite length_degrees. lia.
Qed.
End Adjacency.

(** Sorted edges: those that leave a node are a segment at its offset. *)
Lemma sorted_segments (f : lineage_edge -> nat) edges v :
  StronglySorted (fun e g => f e <= f g) edges ->
  filter (fun e => f e < v) edges ++ with_end f edges v ++
  filter (fun e => v < f e) edges = edges.
Proof.
  unfold with_end. induction 1 as [|e edges _ IH He]; [done|].
  assert (Hnone : forall P `{!forall x, Decision (P x)}, v <= f e ->
    (forall x, P x -> f x < f e) -> filter P edges = []).
  { intros P ? Hv HP. rewrite Forall_forall in He.
    destruct (filter P edges) as [|x l] eqn:E; [done|].
    assert (Hx : x ∈ filter P edges) by (rewrite E; by left).
    apply list_elem_of_filter in Hx as [Hx Hin]. apply HP in Hx. apply He in Hin. lia. }
  rewrite !filter_cons. destruct (lt_eq_lt_dec (f e) v) as [[Hlt|Heq]|Hgt].
  - rewrite decide_True, !decide_False by lia. simpl. by rewrite IH.
  - rewrite (decide_False (P := f e < v)) by lia. rewrite decide_True, decide_False by lia.
    rewrite Hnone in IH |- *; [|lia..]. simpl in *. by rewrite IH.
  - rewrite (decide_False (P := f e < v)) by lia. rewrite decide_False, decide_True by lia.
    rewrite (Hnone (fun x => f x < v)) in IH |- *; [|lia..].
    rewrite (Hnone (fun x => f x = v)) in IH |- *; [|lia..]. simpl in *. by rewrite IH.
Qed.

Lemma sorted_segment (f : lineage_edge -> nat) edges v k :
  StronglySorted (fun e g => f e <= f g) edges -> k < length (with_end f edges v) ->
  edges !! (before f edges v + k) = with_end f edges v !! k.
Proof.
  intros Hs Hk. pose proof (sorted_segments f edges v Hs) as E.
  apply (f_equal (fun l => l !! (before f edges v + k))) in E. rewrite <- E.
  unfold before. rewrite lookup_app_r by lia. rewrite lookup_app_l by lia. f_equal. lia.
Qed.

(** ** The children of a node, by counting sort *)
Lemma with_end_app f l l' v : with_end f (l ++ l') v = with_end f l v ++ with_end f l' v.
Proof. apply filter_app. Qed.

Lemma with_end_single f e v : with_end f [e] v = if decide (f e = v) then [e] else [].
Proof. unfold with_end. rewrite filter_cons. by case_decide. Qed.

Section Children.
Context (node_count : nat) (edges : list lineage_edge).
Hypothesis Hends : Forall (fun e => parent e < node_count) edges.

(** The cell of the [k]-th edge into a node. *)
#[local] Definition cell (w k : nat) : nat := before parent edges w + k.

Lemma cell_inj w k w' k' :
  k < length (with_end parent edges w) -> k' < length (with_end parent edges w') ->
  cell w k = cell w' k' -> w = w' /\ k = k'.
Proof.
  unfold cell. intros Hk Hk' Heq. destruct (lt_eq_lt_dec w w') as [[H|H]|H].
  - pose proof (before_segment parent edges w w' H). lia.
  - subst w'. lia.
  - pose proof (before_segment parent edges w' w H). lia.
Qed.

Lemma cell_bound w k : k < length (with_end parent edges w) -> cell w k < length edges.
Proof.
  unfold cell. intros Hk. pose proof (before_S parent edges w).
  pose proof (before_le parent edges (S w)). lia.
Qed.

(** The arrays after the edges [done]. *)
#[local] Definition filled (done : list lineage_edge) (arrays : list nat * list nat) : Prop :=
  length (fst arrays) = length edges /\
  length (snd arrays) = node_count /\
  (forall w, w < node_count ->
    snd arrays !!! w = cell w (length (with_end parent done w))) /\
  (forall w k e, with_end parent done w !! k = Some e ->
    fst arrays !! cell w k = Some (child e)).

Lemma filled_step done e todo arrays : edges = done ++ e :: todo ->
  filled done arrays -> filled (done ++ [e]) (place_child arrays e).
Proof.
  intros Hedges (Hlc & Hlp & Hcur & Hch). destruct arrays as [children cursor].
  cbn [fst snd] in *. unfold filled, place_child. cbn [fst snd].
  assert (Hp : parent e < node_count).
  { rewrite Forall_forall in Hends. apply Hends. rewrite Hedges. set_solver. }
  assert (Hroom : forall w, length (with_end parent (done ++ [e]) w) <=
                            length (with_end parent edges w)).
  { intros w. replace edges with ((done ++ [e]) ++ todo) by (by rewrite <- app_assoc).
    rewrite (with_end_app _ (done ++ [e])), length_app. lia. }
  split; [by rewrite length_insert|]. split; [by rewrite length_bump|]. split.
  - intros w Hw. rewrite bump_lookup by lia. rewrite Hcur by done.
    rewrite with_end_app, length_app, with_end_single. unfold cell.
    repeat case_decide; simpl; try lia; congruence.
  - intros w k e' Hk. rewrite Hcur by done. rewrite with_end_app in Hk.
    pose proof (Hroom w) as Hw. pose proof (Hroom (parent e)) as He.
    rewrite with_end_app, with_end_single, decide_True, length_app in He by done.
    simpl in He.
    apply lookup_app_Some in Hk as [Hk|[Hk Hk']].
    + pose proof (lookup_lt_Some _ _ _ Hk) as Hlt.
      rewrite list_lookup_insert_ne; [by apply Hch|].
      intros Heq. apply cell_inj in Heq as [<- Heq]; [lia..|].
      rewrite with_end_app, length_app in Hw. lia.
    + rewrite with_end_single in Hk'. case_decide as Hw'; [|done].
      subst w. apply list_lookup_singleton_Some in Hk' as [Hk0 <-].
      replace k with (length (with_end parent done (parent e))) by lia.
      apply list_lookup_insert_eq. rewrite Hlc. apply cell_bound. lia.
Qed.

Lemma filled_all : forall todo done arrays, edges = done ++ todo -> filled done arrays ->
  filled edges (foldl place_child arrays todo).
Proof.
  induction todo as [|e todo IH]; intros done arrays Hedges Hf; simpl.
  - by rewrite app_nil_r in Hedges; subst done.
  - apply (IH (done ++ [e])); [by rewrite <- app_assoc|]. by eapply filled_step.
Qed.

Lemma fill_children_lookup w k e : with_end parent edges w !! k = Some e ->
  fill_children edges (offsets 0 (degrees parent node_count edges)) node_count
    !! (before parent edges w + k) = Some (child e).
Proof.
  unfold fill_children.
  apply (filled_all edges [] _ eq_refl). split; [|split; [|split]].
  - simpl. by rewrite length_replicate.
  - simpl. rewrite length_take, length_offsets, length_degrees. lia.
  - intros v Hv. simpl. rewrite lookup_total_take_lt by done.
    rewrite offsets_before by (lia || done). unfold cell. simpl. lia.
  - simpl. intros v j e' Hj. discriminate.
Qed.
End Children.

(** ** Walks *)
Lemma walk_app {A} (R : A -> A -> Prop) l m : walk R (l ++ m) -> walk R l /\ walk R m.
Proof.
  induction l as [|a [|b l] IH]; simpl in *; [done|by destruct m; naive_solver|naive_solver].
Qed.

Lemma walk_join {A} (R : A -> A -> Prop) l a m :
  walk R (l ++ [a]) -> walk R (a :: m) -> walk R (l ++ a :: m).
Proof.
  induction l as [|b l IH]; intros H1 H2; [done|]. destruct l as [|c l]; simpl in *; naive_solver.
Qed.

Lemma walk_snoc {A} (R : A -> A -> Prop) l a b :
  walk R (l ++ [a]) -> R a b -> walk R (l ++ [a; b]).
Proof. intros H HR. by apply walk_join; simpl. Qed.

Lemma walk_rtc {A} (R : A -> A -> Prop) b l : forall a, walk R (a :: l ++ [b]) -> tc R a b.
Proof.
  induction l as [|c l IH]; intros a [HR Hw].
  - by apply tc_once.
  - by apply tc_l with c, IH.
Qed.

(** A strongly normalising node is on no cycle. *)
Lemma sn_no_cycle {A} (R : A -> A -> Prop) v : sn R v -> ~ tc R v v.
Proof.
  induction 1 as [v _ IH]. unfold flip in IH. intros Hv.
  inversion Hv as [? ? HR|? y ? HR Ht]; subst; [by apply (IH v)|].
  apply (IH y HR). by apply tc_r with v.
Qed.

Lemma closed_walk_cycle {A} (R : A -> A -> Prop) path :
  closed_walk R path -> exists v, v ∈ path /\ tc R v v.
Proof. intros (v & l & -> & Hw). exists v. split; [by left|]. by eapply walk_rtc. Qed.

(** ** The depth-first search *)
Section Depth_first.
Context (node_count : nat) (edges : list lineage_edge).
Hypothesis Hgraph : graph_ok node_count edges.
#[local] Abbreviation child_offsets := (offsets 0 (degrees child node_count edges)).
#[local] Abbreviation degree v := (length (with_end child edges v)).
#[local] Abbreviation step := (depends edges).

(** The edges the loop reads from the offsets of a node. *)
Lemma child_segment v k : v < node_count -> k < degree v ->
  edges !! ((child_offsets !!! v) + k) = with_end child edges v !! k.
Proof.
  destruct Hgraph as [He Hs]. intros Hv Hk. rewrite offsets_before; [|lia|].
  - by apply sorted_segment.
  - eapply Forall_impl; [exact He|]. naive_solver.
Qed.

Lemma child_range v : v < node_count ->
  child_offsets !!! S v = (child_offsets !!! v) + degree v.
Proof.
  destruct Hgraph as [He _]. intros Hv.
  assert (Forall (fun e => child e < node_count) edges)
    by (eapply Forall_impl; [exact He|naive_solver]).
  rewrite !offsets_before by (lia || done). apply before_S.
Qed.

Lemma with_end_depends v k e : with_end child edges v !! k = Some e ->
  step v (parent e) /\ parent e < node_count.
Proof.
  intros Hk. apply list_elem_of_lookup_2, list_elem_of_filter in Hk as [<- Hin].
  destruct Hgraph as [He _]. rewrite Forall_forall in He. apply He in Hin as Hb.
  unfold depends. split; [by destruct e|apply Hb].
Qed.

Lemma depends_with_end v w : step v w ->
  exists k e, with_end child edges v !! k = Some e /\ parent e = w.
Proof.
  intros Hvw. assert (Hin : mk_edge v w ∈ with_end child edges v)
    by (apply list_elem_of_filter; split; done).
  apply list_elem_of_lookup in Hin as [k Hk]. by exists k, (mk_edge v w).
Qed.

(** An entry of the stack has looked at its first edges: they lead to finished
    nodes or to the entry above it. *)
#[local] Fixpoint entries_ok (colors : list nat) (above : option nat)
    (stack : list (nat * nat)) : Prop :=
  match stack with
  | [] => True
  | (v, position) :: rest =>
      (position <= degree v /\
       (forall k e, k < position -> with_end child edges v !! k = Some e ->
          colors !!! parent e = 2 \/ above = Some (parent e)) /\
       match above with Some w => step v w | None => True end) /\
      entries_ok colors (Some v) rest
  end.

Record search_ok (colors : list nat) (stack : list (nat * nat)) : Prop := {
  search_colors : length colors = node_count;
  search_range : Forall (fun c => c <= 2) colors;
  search_nodup : NoDup (map fst stack);
  search_grey v : colors !! v = Some 1 <-> v ∈ map fst stack;
  search_black v : colors !! v = Some 2 -> sn step v;
  search_entries : entries_ok colors None stack }.

(** What is left to do: the white nodes with their edges and the edges not yet
    looked at on the stack. *)
#[local] Definition whites (colors : list nat) : list nat :=
  filter (fun v => colors !! v = Some 0) (seq 0 node_count).
#[local] Definition remaining (colors : list nat) (stack : list (nat * nat)) : nat :=
  sum_list_with (fun v => S (degree v)) (whites colors) +
  sum_list_with (fun '(v, position) => S (degree v) - position) stack.

Lemma elem_of_whites colors v :
  v ∈ whites colors <-> v < node_count /\ colors !! v = Some 0.
Proof. unfold whites. rewrite list_elem_of_filter, elem_of_seq. naive_solver lia. Qed.

Lemma whites_grey colors v : v < node_count -> colors !! v = Some 0 ->
  whites colors ≡ₚ v :: whites (<[v := 1]> colors).
Proof.
  intros Hv Hc. apply NoDup_Permutation.
  - apply NoDup_filter, NoDup_seq.
  - apply NoDup_cons. split; [|apply NoDup_filter, NoDup_seq].
    rewrite elem_of_whites. intros [_ H].
    rewrite list_lookup_insert_eq in H by (by eapply lookup_lt_Some). done.
  - intros w. rewrite elem_of_cons, !elem_of_whites.
    destruct (decide (v = w)) as [->|Hne]; [naive_solver|].
    rewrite list_lookup_insert_ne by done. naive_solver.
Qed.

Lemma whites_black colors v : colors !! v = Some 1 ->
  whites (<[v := 2]> colors) = whites colors.
Proof.
  intros Hc. unfold whites. apply list_filter_iff. intros w.
  destruct (decide (v = w)) as [->|Hne].
  - rewrite list_lookup_insert_eq by (by eapply lookup_lt_Some). naive_solver.
  - by rewrite list_lookup_insert_ne.
Qed.

Lemma whites_bound colors :
  sum_list_with (fun v => S (degree v)) (whites colors) <= node_count + length edges.
Proof.
  assert (Hfilter : forall (P : nat -> Prop) `{!forall v, Decision (P v)} (f : nat -> nat) l,
    sum_list_with f (filter P l) <= sum_list_with f l).
  { intros P ? f l. induction l as [|v l IH]; [done|].
    rewrite filter_cons. case_decide; simpl; lia. }
  etrans; [apply Hfilter|].
  assert (Hsum : forall n, sum_list_with (fun v => S (degree v)) (seq 0 n) =
                           n + before child edges n).
  { induction n as [|n IH].
    - simpl. unfold before. clear. induction edges; [done|].
      rewrite filter_cons_False by lia. done.
    - rewrite seq_S, sum_list_with_app, IH, before_S. simpl. lia. }
  rewrite Hsum, before_all; [done|].
  destruct Hgraph as [He _]. eapply Forall_impl; [exact He|]. naive_solver.
Qed.

(** *** One round of the loop *)
Lemma entries_mono colors colors' : forall stack above above',
  entries_ok colors above stack ->
  (forall w, colors !!! w = 2 -> colors' !!! w = 2) ->
  above' = above \/ above' = None /\ (forall w, above = Some w -> colors' !!! w = 2) ->
  entries_ok colors' above' stack.
Proof.
  induction stack as [|[v position] rest IH]; intros above above' H Hc Ha; [done|].
  destruct H as [(Hp & Hk & Hab) Hrest]. split; [|by apply (IH (Some v)); auto].
  split; [done|]. split.
  - intros k e Hlt He. destruct (Hk k e Hlt He) as [H2|H2]; [by left; apply Hc|].
    destruct Ha as [->|[-> Ha]]; [by right|left; by apply Ha].
  - destruct Ha as [->|[-> _]]; done.
Qed.

Lemma lookup_total_some (l : list nat) i x : l !! i = Some x -> l !!! i = x.
Proof. apply list_lookup_total_correct. Qed.

Lemma colour_some colors stack v : search_ok colors stack -> v < node_count ->
  colors !! v = Some (colors !!! v).
Proof. intros [Hl _ _ _ _ _] Hv. apply list_lookup_lookup_total_lt. lia. Qed.

Lemma top_in_range colors v position rest :
  search_ok colors ((v, position) :: rest) -> colors !! v = Some 1 /\ v < node_count.
Proof.
  intros [Hl _ _ Hg _ _]. assert (Hv : colors !! v = Some 1) by (apply Hg; by left).
  split; [done|]. apply lookup_lt_Some in Hv. lia.
Qed.

Lemma search_pop colors v position rest :
  search_ok colors ((v, position) :: rest) -> degree v <= position ->
  search_ok (<[v := 2]> colors) rest /\
  remaining (<[v := 2]> colors) rest < remaining colors ((v, position) :: rest).
Proof.
  intros H Hdone. pose proof (top_in_range _ _ _ _ H) as [Hv Hlt].
  assert (Hblack : forall w, colors !!! w = 2 -> <[v := 2]> colors !!! w = 2).
  { intros w Hw. rewrite list_lookup_total_insert. case_decide; [done|].  done. }
  pose proof (lookup_lt_Some _ _ _ Hv) as Hvl.
  destruct H as [Hl Hr Hn Hg Hb He]. cbn [entries_ok map fst] in *.
  apply NoDup_cons in Hn as [Hnin Hn]. destruct He as [(Hp & Hk & _) He].
  split; [split|].
  - by rewrite length_insert.
  - apply Forall_insert; [done|lia].
  - done.
  - intros w. destruct (decide (v = w)) as [<-|Hne].
    + rewrite list_lookup_insert_eq by done. naive_solver.
    + rewrite list_lookup_insert_ne by done. rewrite Hg, elem_of_cons. naive_solver.
  - intros w Hw. destruct (decide (v = w)) as [<-|Hne];
      [|rewrite list_lookup_insert_ne in Hw by done; by apply Hb].
    constructor. intros x (k & e & He' & <-)%depends_with_end.
    pose proof (lookup_lt_Some _ _ _ He') as Hkl.
    destruct (Hk k e) as [H2|H2]; [lia|done| |done].
    apply with_end_depends in He' as [_ Hx]. apply Hb.
    rewrite <- H2. apply list_lookup_lookup_total_lt. lia.
  - eapply entries_mono; [exact He|done|]. right. split; [done|].
    intros w [= <-]. by rewrite list_lookup_total_insert_eq.
  - unfold remaining. rewrite whites_black by done. simpl. lia.
Qed.

Lemma search_push colors v position rest e :
  search_ok colors ((v, position) :: rest) ->
  with_end child edges v !! position = Some e -> colors !!! parent e = 0 ->
  search_ok (<[parent e := 1]> colors) ((parent e, 0) :: (v, S position) :: rest) /\
  remaining (<[parent e := 1]> colors) ((parent e, 0) :: (v, S position) :: rest) <
  remaining colors ((v, position) :: rest).
Proof.
  intros H He Hwhite. pose proof (top_in_range _ _ _ _ H) as [Hv Hlt].
  pose proof (with_end_depends _ _ _ He) as [Hstep Hpn].
  pose proof (lookup_lt_Some _ _ _ He) as Hpos.
  pose proof (colour_some _ _ _ H Hpn) as Hpc. rewrite Hwhite in Hpc.
  pose proof (lookup_lt_Some _ _ _ Hpc) as Hpl.
  destruct H as [Hl Hr Hn Hg Hb Hent]. cbn [entries_ok map fst] in *.
  assert (Hblack : forall w, colors !!! w = 2 -> <[parent e := 1]> colors !!! w = 2).
  { intros w Hw. rewrite list_lookup_total_insert_ne; [done|]. intros <-. congruence. }
  split; [split|].
  - by rewrite length_insert.
  - apply Forall_insert; [done|lia].
  - cbn [map fst]. apply NoDup_cons. split; [|done]. intros Hin. apply Hg in Hin. congruence.
  - cbn [map fst]. intros w. rewrite (elem_of_cons _ w (parent e)). destruct (decide (parent e = w)) as [<-|Hne].
    + rewrite list_lookup_insert_eq by done. naive_solver.
    + rewrite list_lookup_insert_ne by done. rewrite Hg. naive_solver.
  - intros w Hw. apply Hb. destruct (decide (parent e = w)) as [<-|Hne].
    + by rewrite list_lookup_insert_eq in Hw.
    + by rewrite list_lookup_insert_ne in Hw.
  - destruct Hent as [(Hp & Hk & _) Hent]. cbn [entries_ok].
    split; [split; [lia|split; [intros; lia|done]]|]. split; [split; [lia|split; [|done]]|].
    + intros k e' Hke He'. destruct (decide (k = position)) as [->|Hne].
      * right. congruence.
      * left. destruct (Hk k e') as [H2|H2]; [lia|done|by apply Hblack|done].
    + eapply entries_mono; [exact Hent|done|by left].
  - unfold remaining. rewrite (whites_grey colors (parent e)) by done. simpl. lia.
Qed.

Lemma search_skip colors v position rest e :
  search_ok colors ((v, position) :: rest) ->
  with_end child edges v !! position = Some e -> colors !!! parent e = 2 ->
  search_ok colors ((v, S position) :: rest) /\
  remaining colors ((v, S position) :: rest) < remaining colors ((v, position) :: rest).
Proof.
  intros [Hl Hr Hn Hg Hb Hent] He H2. pose proof (lookup_lt_Some _ _ _ He) as Hpos.
  split; [split; try done|unfold remaining; simpl; lia].
  destruct Hent as [(Hp & Hk & _) Hent]. cbn [entries_ok]. split; [split; [lia|split; [|done]]|done].
  intros k e' Hke He'. destruct (decide (k = position)) as [->|Hne]; [left; by simplify_eq|].
  destruct (Hk k e') as [H3|H3]; [lia|done|by left|done].
Qed.

Lemma entries_walk colors : forall stack above, entries_ok colors above stack ->
  walk step (rev (map fst stack) ++ match above with Some w => [w] | None => [] end).
Proof.
  induction stack as [|[v position] rest IH]; intros above H; [by destruct above|].
  destruct H as [(_ & _ & Hab) Hrest]. apply IH in Hrest. simpl.
  destruct above as [w|]; [|by rewrite app_nil_r].
  rewrite <- app_assoc. by apply walk_snoc.
Qed.

Lemma from_repeated_split w l : w ∈ l ->
  exists before after, l = before ++ w :: after /\ from_repeated w l = w :: after.
Proof.
  induction l as [|v l IH]; [by intros ?%elem_of_nil|]. simpl.
  destruct (Nat.eqb_spec v w) as [->|Hne].
  - intros _. by exists [], l.
  - intros [->|Hin]%elem_of_cons; [done|]. destruct (IH Hin) as (b & a & -> & ->).
    by exists (v :: b), a.
Qed.

Lemma search_repeated colors v position rest e :
  search_ok colors ((v, position) :: rest) ->
  with_end child edges v !! position = Some e -> colors !!! parent e = 1 ->
  closed_walk step (repeated_path ((v, S position) :: rest) (parent e)) /\
  Forall (fun w => w < node_count) (repeated_path ((v, S position) :: rest) (parent e)).
Proof.
  intros H He H1. pose proof (with_end_depends _ _ _ He) as [Hstep Hpn].
  pose proof (colour_some _ _ _ H Hpn) as Hpc. rewrite H1 in Hpc.
  destruct H as [Hl Hr Hn Hg Hb Hent].
  assert (Hwalk : walk step (rev (map fst ((v, S position) :: rest)) ++ [parent e])).
  { apply (entries_walk colors _ (Some (parent e))). cbn [entries_ok] in *.
    destruct Hent as [(Hp & Hk & _) Hent].
    split; [split; [by apply lookup_lt_Some in He|split; [|done]]|done].
    intros k e' Hke He'. destruct (decide (k = position)) as [->|Hne]; [right; congruence|].
    left. destruct (Hk k e') as [H2|H2]; [lia|done|done|done]. }
  assert (Hin : parent e ∈ rev (map fst ((v, S position) :: rest))).
  { rewrite rev_alt. apply elem_of_reverse. by apply Hg in Hpc. }
  assert (Hall : Forall (fun w => w < node_count) (rev (map fst ((v, S position) :: rest)))).
  { apply Forall_rev, Forall_forall. intros w Hw. apply Hg, lookup_lt_Some in Hw. lia. }
  unfold repeated_path. apply from_repeated_split in Hin as (pre & suf & Hl' & ->).
  rewrite Hl' in Hwalk, Hall. rewrite <- app_assoc in Hwalk.
  apply walk_app in Hwalk as [_ Hwalk]. apply Forall_app in Hall as [_ Hall].
  split.
  - by exists (parent e), suf.
  - apply Forall_app. split; [done|]. by apply Forall_singleton.
Qed.

(** *** The loops *)
#[local] Definition search_result (colors : list nat) (result : option search) : Prop :=
  match result with
  | Some (Coloured colors') =>
      search_ok colors' [] /\ forall v, colors !! v <> Some 0 -> colors' !! v <> Some 0
  | Some (Repeated stack repeated) =>
      closed_walk step (repeated_path stack repeated) /\
      Forall (fun w => w < node_count) (repeated_path stack repeated)
  | None => False
  end.

Lemma search_result_mono colors colors' result :
  (forall v : nat, colors !! v <> Some 0 -> colors' !! v <> Some 0) ->
  search_result colors' result -> search_result colors result.
Proof. intros Hc. destruct result as [[]|]; [|done..]. simpl. naive_solver. Qed.

Lemma insert_not_white (colors : list nat) v c w : c <> 0 ->
  colors !! w <> Some 0 -> <[v := c]> colors !! w <> Some 0.
Proof. intros Hc Hw. rewrite list_lookup_insert. case_decide; [naive_solver|done]. Qed.

Lemma search_loop_spec fuel : forall colors stack,
  search_ok colors stack -> remaining colors stack <= fuel ->
  search_result colors (search_loop edges child_offsets fuel colors stack).
Proof.
  induction fuel as [|fuel IH]; intros colors [|[v position] rest] H Hfuel;
    try (simpl; done).
  - exfalso. pose proof (top_in_range _ _ _ _ H) as [_ Hv].
    destruct H as [_ _ _ _ _ [(Hp & _) _]]. unfold remaining in Hfuel. simpl in Hfuel. lia.
  - pose proof (top_in_range _ _ _ _ H) as [Hv Hlt]. cbn [search_loop].
    rewrite child_range by done.
    destruct (Nat.leb_spec ((child_offsets !!! v) + degree v) ((child_offsets !!! v) + position))
      as [Hend|Hend].
    + destruct (search_pop _ _ _ _ H) as [Hok Hm]; [lia|].
      eapply search_result_mono; [|apply IH; [done|lia]]. intros w. by apply insert_not_white.
    + destruct (lookup_lt_is_Some_2 (with_end child edges v) position) as [e He]; [lia|].
      rewrite (list_lookup_total_correct edges _ e) by (rewrite child_segment by lia; done).
      pose proof (with_end_depends _ _ _ He) as [_ Hpn].
      destruct (Nat.eqb_spec (colors !!! parent e) 1) as [H1|H1];
        [by eapply search_repeated|].
      destruct (Nat.eqb_spec (colors !!! parent e) 0) as [H0|H0].
      * destruct (search_push _ _ _ _ _ H He H0) as [Hok Hm].
        eapply search_result_mono; [|apply IH; [done|lia]]. intros w. by apply insert_not_white.
      * assert (H2 : colors !!! parent e = 2).
        { pose proof (colour_some _ _ _ H Hpn) as Hc. destruct H as [_ Hr _ _ _ _].
          apply list_elem_of_lookup_2 in Hc. rewrite Forall_forall in Hr. apply Hr in Hc. lia. }
        destruct (search_skip _ _ _ _ _ H He H2) as [Hok Hm]. apply IH; [done|lia].
Qed.

Lemma search_white : search_ok (replicate node_count 0) [].
Proof.
  split; [by rewrite length_replicate|by apply Forall_replicate; lia|constructor| | |done];
    intros v; rewrite lookup_replicate; [|naive_solver].
  split; [naive_solver|by intros ?%elem_of_nil].
Qed.

Lemma search_first colors start : search_ok colors [] -> start < node_count ->
  colors !! start = Some 0 -> search_ok (<[start := 1]> colors) [(start, 0)].
Proof.
  intros [Hl Hr Hn Hg Hb He] Hs Hc. split; cbn [map fst].
  - by rewrite length_insert.
  - apply Forall_insert; [done|lia].
  - apply NoDup_singleton.
  - intros v. rewrite list_lookup_insert, list_elem_of_singleton.
    case_decide as Hd; [naive_solver|]. split.
    + intros Hv%Hg. by apply elem_of_nil in Hv.
    + intros ->. destruct Hd. split; [done|lia].
  - intros v Hv. apply Hb. rewrite list_lookup_insert in Hv. by case_decide.
  - cbn. split; [|done]. split; [lia|]. split; [lia|done].
Qed.

Lemma remaining_first colors start : start < node_count -> colors !! start = Some 0 ->
  remaining (<[start := 1]> colors) [(start, 0)] <= node_count + length edges.
Proof.
  intros Hs Hc. pose proof (whites_bound colors) as Hb.
  rewrite (whites_grey colors start) in Hb by done. unfold remaining. simpl in *. lia.
Qed.

Lemma search_from_spec fuel : node_count + length edges <= fuel ->
  forall starts colors, search_ok colors [] -> Forall (fun v => v < node_count) starts ->
  match search_from edges child_offsets fuel starts colors with
  | Some (Coloured colors') =>
      search_ok colors' [] /\
      (forall v, colors !! v <> Some 0 -> colors' !! v <> Some 0) /\
      forall v, v ∈ starts -> colors' !! v <> Some 0
  | Some (Repeated stack repeated) =>
      closed_walk step (repeated_path stack repeated) /\
      Forall (fun w => w < node_count) (repeated_path stack repeated)
  | None => False
  end.
Proof.
  intros Hfuel. induction starts as [|start starts IH]; intros colors H Hs.
  { simpl. split; [done|split; [done|]]. by intros v ?%elem_of_nil. }
  apply Forall_cons in Hs as [Hstart Hs]. cbn [search_from].
  pose proof (colour_some _ _ _ H Hstart) as Hc.
  destruct (Nat.eqb_spec (colors !!! start) 0) as [H0|H0]; cbn [negb].
  - rewrite H0 in Hc. pose proof (search_first colors start H Hstart Hc) as Hok.
    pose proof (search_loop_spec fuel _ _ Hok) as Hl.
    destruct (search_loop _ _ _ _ _) as [[colors'|]|];
      [|apply Hl; pose proof (remaining_first colors start Hstart Hc); lia..].
    destruct Hl as [Hok' Hmono]; [pose proof (remaining_first colors start Hstart Hc); lia|].
    specialize (IH colors' Hok' Hs). destruct (search_from _ _ _ _ _) as [[colors2|]|]; [|done..].
    destruct IH as (Hok2 & Hmono2 & Hall). split; [done|]. split.
    + intros v Hv. by apply Hmono2, Hmono, insert_not_white.
    + intros v [->|Hv]%elem_of_cons; [|by apply Hall]. apply Hmono2, Hmono.
      rewrite list_lookup_insert_eq; [done|by eapply lookup_lt_Some].
  - specialize (IH colors H Hs). destruct (search_from _ _ _ _ _) as [[colors2|]|]; [|done..].
    destruct IH as (Hok2 & Hmono2 & Hall). split; [done|]. split; [done|].
    intros v [->|Hv]%elem_of_cons; [|by apply Hall]. apply Hmono2. congruence.
Qed.

(** The search ends within its fuel; it finds a closed walk, or every node is
    strongly normalising. *)
Lemma depth_first_spec :
  match depth_first edges child_offsets node_count with
  | Some (Coloured _) => forall v, v < node_count -> sn step v
  | Some (Repeated stack repeated) =>
      closed_walk step (repeated_path stack repeated) /\
      Forall (fun w => w < node_count) (repeated_path stack repeated)
  | None => False
  end.
Proof.
  unfold depth_first. pose proof (search_from_spec _ (le_n _) (seq 0 node_count)
    (replicate node_count 0)) as H.
  destruct (search_from _ _ _ _ _) as [[colors|]|];
    [|apply H; [apply search_white|apply Forall_seq; lia]..].
  destruct H as ([Hl Hr Hn Hg Hb _] & _ & Hall); [apply search_white|apply Forall_seq; lia|].
  intros v Hv. destruct (lookup_lt_is_Some_2 colors v) as [c Hc]; [lia|].
  assert (Hc0 : c <> 0) by (intros ->; apply (Hall v); [apply elem_of_seq; lia|done]).
  assert (Hc1 : c <> 1) by (intros ->; apply Hg in Hc; by apply elem_of_nil in Hc).
  apply Hb. rewrite Hc. f_equal. rewrite Forall_lookup in Hr. apply Hr in Hc. lia.
Qed.
End Depth_first.
