(* ===== verification/LineageRoots.v ===== *)
(** * Propagation of roots through the dependence graph

    Models the second half of [laplace_evidence_record_lineage_batch]
    ([engine/src/evidence_lineage.c]): once the graph is known to have no cycle,
    the nodes are visited in the order in which their last dependence is
    settled, and every node hands the roots it depends on to its children, one
    step deeper, keeping the least depth for each root.

    The code keeps the relations of all nodes in one array of records, linked by
    [root_next] from [node_heads]; [arrays] models it.  The traversal uses them
    through the interface [Relations].  A second instance, [table], is the
    specification of the arrays: one row of relations per node.  [arrays_refine]
    shows that the arrays implement the table until they are full, and
    [traverse_table] that the table ends with exactly the shortest distances from
    every node to every root it depends on. *)
From stdpp Require Import prelude relations sorting.
From Stdlib Require Import ZArith Lia.
From S2P Require Import Prelude Bytes LineageGraph.

#[local] Open Scope nat_scope.

(** ** Data *)
Record laplace_evidence_lineage_record := mk_lineage_record {
  node_id : list Z;
  proposition_id : list Z;
  occurrence_id : list Z;
  source_id : list Z;
  context_id : list Z;
  parent_node_id : list Z;
  source_ordinal : Z;
  record_kind : Z;
  epistemic_kind : Z;
  flags : Z;
  reserved : Z }.

#[export] Instance lineage_record_inhabited : Inhabited laplace_evidence_lineage_record :=
  populate (mk_lineage_record [] [] [] [] [] [] 0 0 0 0 0).

Record laplace_evidence_root_record := mk_root_record {
  relation_node_id : list Z;
  root_node_id : list Z;
  relation_proposition_id : list Z;
  path_depth : Z;
  root_epistemic_kind : Z;
  root_flags : Z }.

#[export] Instance root_record_eq_dec : EqDecision laplace_evidence_root_record.
Proof. solve_decision. Defined.
#[export] Instance root_record_inhabited : Inhabited laplace_evidence_root_record :=
  populate (mk_root_record [] [] [] 0 0 0).

(** The end of a loop: its result, no room for another relation, or no fuel. *)
Inductive outcome (A : Type) : Type :=
  | Done (a : A)
  | Full
  | OutOfFuel.
Arguments Done {A} a.
Arguments Full {A}.
Arguments OutOfFuel {A}.

Definition outcome_bind {A C} (m : outcome A) (k : A -> outcome C) : outcome C :=
  match m with Done a => k a | Full => Full | OutOfFuel => OutOfFuel end.

Notation "'given' x <- m ;; k" := (outcome_bind m (fun x => k))
  (at level 10, x name, m at level 99, k at level 200, only parsing) : c_scope.

Fixpoint for_each {A S} (body : S -> A -> outcome S) (l : list A) (s : S) : outcome S :=
  match l with
  | [] => Done s
  | a :: l => given s <- body s a ;; for_each body l s
  end.

(** What the traversal asks of the store of relations. *)
Class Relations (R : Type) := {
  relate_root : R -> nat -> outcome R;
  inherit : R -> nat -> nat -> outcome R }.

(** ** The arrays of relations *)
Section Arrays.
Context (records : list laplace_evidence_lineage_record) (root_capacity : Z).

Record arrays := mk_arrays {
  temporary_roots : list laplace_evidence_root_record;
  root_next : list (option nat);
  node_heads : list (option nat) }.

Definition produced (r : arrays) : nat := length (temporary_roots r).

(** The relation of a root to itself; the record was cleared by [calloc]. *)
Definition root_of_itself (index : nat) : laplace_evidence_root_record :=
  let record := records !!! index in
  mk_root_record (node_id record) (node_id record) (proposition_id record) 0
    (epistemic_kind record) 0.

(** The relation of a child, one step deeper. *)
Definition inherited (child : nat) (relation : laplace_evidence_root_record)
    : laplace_evidence_root_record :=
  let record := records !!! child in
  mk_root_record (node_id record) (root_node_id relation) (proposition_id record)
    (u64 (path_depth relation + 1)) (root_epistemic_kind relation) (root_flags relation).

Definition set_depth (depth : Z) (relation : laplace_evidence_root_record)
    : laplace_evidence_root_record :=
  mk_root_record (relation_node_id relation) (root_node_id relation)
    (relation_proposition_id relation) depth (root_epistemic_kind relation)
    (root_flags relation).

(** [root_next[produced] = node_heads[v]; node_heads[v] = produced++]. *)
Definition push (v : nat) (relation : laplace_evidence_root_record) (r : arrays)
    : outcome arrays :=
  if (root_capacity <=? Z.of_nat (produced r))%Z then Full
  else Done (mk_arrays (temporary_roots r ++ [relation])
               (root_next r ++ [node_heads r !!! v])
               (<[v := Some (produced r)]> (node_heads r))).

Fixpoint find_existing (fuel : nat) (r : arrays) (root : list Z) (existing : option nat)
    : outcome (option nat) :=
  match existing with
  | None => Done None
  | Some index =>
      match fuel with
      | O => OutOfFuel
      | S fuel =>
          if bytes_equal (root_node_id (temporary_roots r !!! index)) root
          then Done existing
          else find_existing fuel r root (root_next r !!! index)
      end
  end.

Definition inherit_relation (r : arrays) (child index : nat) : outcome arrays :=
  let relation := temporary_roots r !!! index in
  given existing <- find_existing (produced r) r (root_node_id relation)
                      (node_heads r !!! child) ;;
  match existing with
  | None => push child (inherited child relation) r
  | Some existing =>
      let depth := u64 (path_depth relation + 1) in
      Done (if (depth <? path_depth (temporary_roots r !!! existing))%Z
            then mk_arrays
                   (<[existing := set_depth depth (temporary_roots r !!! existing)]>
                      (temporary_roots r))
                   (root_next r) (node_heads r)
            else r)
  end.

Fixpoint inherit_loop (fuel : nat) (r : arrays) (child : nat) (relation : option nat)
    : outcome arrays :=
  match relation with
  | None => Done r
  | Some index =>
      match fuel with
      | O => OutOfFuel
      | S fuel =>
          given r <- inherit_relation r child index ;;
          inherit_loop fuel r child (root_next r !!! index)
      end
  end.

(** The chains have at most one cell per relation. *)
#[export] Instance arrays_relations : Relations arrays := {
  relate_root r index := push index (root_of_itself index) r;
  inherit r node child := inherit_loop (produced r) r child (node_heads r !!! node) }.
End Arrays.

(** ** The traversal *)
Section Traversal.
Context {R : Type} {Rel : Relations R}.
Context (children parent_offsets : list nat).

Record traversal := mk_traversal {
  relations : R;
  dependency_count : list nat;
  queue : list nat;
  processed : list nat;
  processed_count : nat }.

Definition with_relations (r : R) (st : traversal) : traversal :=
  mk_traversal r (dependency_count st) (queue st) (processed st) (processed_count st).

(** The roots, in the order of the records. *)
Definition queue_root (st : traversal) (index : nat) : outcome traversal :=
  if dependency_count st !!! index =? 0 then
    given r <- relate_root (relations st) index ;;
    Done (mk_traversal r (dependency_count st) (queue st ++ [index]) (processed st)
            (processed_count st))
  else Done st.

Definition visit_child (node : nat) (st : traversal) (child_position : nat)
    : outcome traversal :=
  let child := children !!! child_position in
  given r <- inherit (relations st) node child ;;
  let count := pred (dependency_count st !!! child) in
  Done (mk_traversal r (<[child := count]> (dependency_count st))
          (if count =? 0 then queue st ++ [child] else queue st)
          (processed st) (processed_count st)).

Definition dequeue (node : nat) (rest : list nat) (st : traversal) : traversal :=
  mk_traversal (relations st) (dependency_count st) rest (<[node := 1]> (processed st))
    (S (processed_count st)).

(** The positions of the children of a node. *)
Definition child_positions (node : nat) : list nat :=
  let begin := parent_offsets !!! node in
  seq begin ((parent_offsets !!! S node) - begin).

Fixpoint propagate (fuel : nat) (st : traversal) : outcome traversal :=
  match queue st with
  | [] => Done st
  | node :: rest =>
      match fuel with
      | O => OutOfFuel
      | S fuel =>
          given st <- for_each (visit_child node) (child_positions node)
                        (dequeue node rest st) ;;
          propagate fuel st
      end
  end.

(** Every node is queued at most once: one unit of fuel per node. *)
Definition traverse (node_count : nat) (empty : R) (counts : list nat)
    : outcome traversal :=
  given st <- for_each queue_root (seq 0 node_count)
                (mk_traversal empty counts [] (replicate node_count 0) 0) ;;
  propagate node_count st.
End Traversal.
Arguments traversal R : clear implicits.

(** Rule for the traversal: what relating a root and inheriting keep, the
    traversal keeps. *)
Section Traversal_rule.
Context {R : Type} {Rel : Relations R} (P : R -> Prop).
Context (children parent_offsets : list nat).

Definition kept (o : outcome (traversal R)) : Prop :=
  match o with Done st => P (relations st) | _ => True end.

Lemma kept_bind o k : kept o -> (forall st, P (relations st) -> kept (k st)) ->
  kept (outcome_bind o k).
Proof. destruct o; cbn; auto. Qed.

Lemma kept_for_each {A} (body : traversal R -> A -> outcome (traversal R)) l :
  (forall st a, P (relations st) -> kept (body st a)) ->
  forall st, P (relations st) -> kept (for_each body l st).
Proof.
  intros Hb. induction l as [|a l IH]; intros st H; [done|]. cbn. apply kept_bind; auto.
Qed.

Lemma traverse_kept node_count empty counts :
  (forall r v r', P r -> relate_root r v = Done r' -> P r') ->
  (forall r node child r', P r -> inherit r node child = Done r' -> P r') ->
  P empty -> kept (traverse children parent_offsets node_count empty counts).
Proof.
  intros Hroot Hinherit Hempty. unfold traverse. apply kept_bind.
  - apply kept_for_each; [|done]. intros st v H. unfold queue_root. destruct (_ =? 0); [|done].
    destruct (relate_root (relations st) v) eqn:E; cbn; [by eapply Hroot|done..].
  - generalize node_count at 1 as fuel. induction fuel as [|fuel IH]; intros st H; cbn;
      destruct (queue st) as [|node rest]; try done.
    apply kept_bind; [|done]. apply kept_for_each; [|done]. intros st' p H'. unfold visit_child.
    destruct (inherit (relations st') _ _) eqn:E; cbn; [by eapply Hinherit|done..].
Qed.
End Traversal_rule.

(** ** The table: the specification of the arrays *)
Abbreviation table := (list (list laplace_evidence_root_record)) (only parsing).

Section Table.
Context (records : list laplace_evidence_lineage_record).

(** Lower the depth of the relation with a given root, if the row has one. *)
Fixpoint lower (root : list Z) (depth : Z) (row : list laplace_evidence_root_record)
    : option (list laplace_evidence_root_record) :=
  match row with
  | [] => None
  | x :: row =>
      if bytes_equal (root_node_id x) root
      then Some ((if (depth <? path_depth x)%Z then set_depth depth x else x) :: row)
      else (fun row => x :: row) <$> lower root depth row
  end.

Definition absorb_relation (child : nat) (row : list laplace_evidence_root_record)
    (relation : laplace_evidence_root_record) : list laplace_evidence_root_record :=
  default (inherited records child relation :: row)
    (lower (root_node_id relation) (u64 (path_depth relation + 1)) row).

Definition absorb_row (child : nat) (row relations : list laplace_evidence_root_record)
    : list laplace_evidence_root_record :=
  foldl (absorb_relation child) row relations.

#[export] Instance table_relations : Relations table := {
  relate_root a v := Done (<[v := root_of_itself records v :: (a !!! v)]> a);
  inherit a node child := Done (<[child := absorb_row child (a !!! child) (a !!! node)]> a) }.
End Table.

Definition total (a : table) : nat := sum_list_with length a.

(** ** The arrays implement the table *)

(** The cells of a chain, from its head. *)
Fixpoint chain (next : list (option nat)) (head : option nat) (l : list nat) : Prop :=
  match l with
  | [] => head = None
  | i :: l => head = Some i /\ exists h, next !! i = Some h /\ chain next h l
  end.

(** The cells of every node form its chain, and every cell belongs to one. *)
Record represents (r : arrays) (a : table) (cells : list (list nat)) : Prop := {
  represents_next : length (root_next r) = produced r;
  represents_chains : Forall2 (chain (root_next r)) (node_heads r) cells;
  represents_cells : concat cells ≡ₚ seq 0 (produced r);
  represents_rows : a = map (map (fun i => temporary_roots r !!! i)) cells }.

Lemma chain_mono next next' : (forall i h, next !! i = Some h -> next' !! i = Some h) ->
  forall l head, chain next head l -> chain next' head l.
Proof.
  intros Hn. induction l as [|i l IH]; intros head H; [done|].
  destruct H as (-> & h & Hi & Hl). split; [done|]. exists h. auto.
Qed.

Lemma chain_cells_bound (next : list (option nat)) : forall l head, chain next head l ->
  Forall (fun i => i < length next) l.
Proof.
  induction l as [|i l IH]; intros head H; [done|]. destruct H as (_ & h & Hi & Hl).
  apply Forall_cons. split; [by eapply lookup_lt_Some|by eapply IH].
Qed.

Lemma total_lookup a v row : a !! v = Some row -> length row <= total a.
Proof. intros H%list_elem_of_lookup_2. unfold total. by apply (sum_list_with_in row length). Qed.

Lemma total_insert a v row : v < length a ->
  total (<[v := row]> a) + length (a !!! v) = total a + length row.
Proof.
  intros Hv. unfold total. revert v Hv. induction a as [|x a IH]; intros [|v] Hv; simpl in *; [lia..|].
  specialize (IH v). cbn. lia.
Qed.

Lemma total_concat a : total a = length (concat a).
Proof. unfold total. induction a as [|x a IH]; [done|]. simpl. rewrite length_app, IH. done. Qed.

Lemma concat_insert {A} (ls : list (list A)) v l l' : ls !! v = Some l ->
  exists pre post, concat ls ≡ₚ l ++ pre ++ post /\
    concat (<[v := l']> ls) ≡ₚ l' ++ pre ++ post /\
    forall w k, w <> v -> ls !! w = Some k -> k ⊆ pre ++ post.
Proof.
  intros Hv. exists (concat (take v ls)), (concat (drop (S v) ls)).
  rewrite <- (take_drop_middle ls v l Hv) at 1. rewrite insert_take_drop by (by eapply lookup_lt_Some).
  rewrite !concat_app. simpl. split; [solve_Permutation|]. split; [solve_Permutation|].
  intros w k Hne Hw. rewrite <- concat_app. intros x Hx. apply list_elem_of_In, in_concat.
  exists k. split; [|by apply list_elem_of_In]. apply list_elem_of_In, elem_of_app.
  destruct (decide (w < v)).
  - left. apply list_elem_of_lookup. exists w. by rewrite lookup_take_lt.
  - right. apply list_elem_of_lookup. exists (w - S v). rewrite lookup_drop.
    by replace (S v + (w - S v)) with w by lia.
Qed.

Section Refinement.
Context (records : list laplace_evidence_lineage_record) (root_capacity : Z).
Implicit Types (r : arrays) (a : table) (cells : list (list nat)).

Lemma represents_length r a cells : represents r a cells ->
  length (node_heads r) = length a /\ length cells = length a.
Proof.
  intros [_ Hch _ ->]. rewrite length_map. split; [|done]. by eapply Forall2_length.
Qed.

Lemma represents_total r a cells : represents r a cells -> total a = produced r.
Proof.
  intros [_ _ Hc ->]. rewrite total_concat, <- concat_map, length_map, Hc. apply length_seq.
Qed.

Lemma represents_lookup r a cells v : represents r a cells -> v < length a ->
  exists l, cells !! v = Some l /\ chain (root_next r) (node_heads r !!! v) l /\
    a !!! v = map (fun i => temporary_roots r !!! i) l /\ NoDup l /\
    Forall (fun i => i < produced r) l /\ length l <= produced r.
Proof.
  intros H Hv. destruct (represents_length _ _ _ H) as [Hh Hc].
  destruct (lookup_lt_is_Some_2 cells v) as [l Hl]; [lia|].
  destruct (lookup_lt_is_Some_2 (node_heads r) v) as [h Hhv]; [lia|].
  destruct H as [Hn Hch Hp Ha]. exists l. split; [done|].
  pose proof (Forall2_lookup_lr _ _ _ _ _ _ Hch Hhv Hl) as Hcl.
  rewrite (list_lookup_total_correct _ _ _ Hhv). split; [done|].
  split. { apply list_lookup_total_correct. by rewrite Ha, list_lookup_fmap, Hl. }
  destruct (concat_insert cells v l l Hl) as (pre & post & Hperm & _ & _).
  rewrite Hp in Hperm. assert (Hnd : NoDup (l ++ pre ++ post)).
  { rewrite <- Hperm. apply NoDup_seq. }
  apply NoDup_app in Hnd as (Hnd & _ & _). split; [done|].
  split; [rewrite <- Hn; by eapply chain_cells_bound|].
  apply Permutation_length in Hperm. rewrite length_seq, length_app in Hperm. lia.
Qed.

(** The array holds the relations of the rows. *)
Lemma represents_permutation r a cells : represents r a cells -> temporary_roots r ≡ₚ concat a.
Proof.
  intros [_ _ Hc ->]. rewrite <- concat_map, Hc.
  assert (Heq : map (fun i => temporary_roots r !!! i) (seq 0 (produced r)) = temporary_roots r).
  { apply list_eq. intros i. rewrite list_lookup_fmap. unfold produced.
    destruct (decide (i < length (temporary_roots r))).
    - rewrite lookup_seq_lt by done. cbn. symmetry. by apply list_lookup_lookup_total_lt.
    - rewrite lookup_seq_ge, lookup_ge_None_2 by lia. done. }
  by rewrite Heq.
Qed.

(** Room, and what a step on the row of [v] leaves alone. *)
Definition implements (o : outcome arrays) (a : table) (keep : arrays -> list (list nat) -> Prop)
    : Prop :=
  match o with
  | Done r => exists cells, represents r a cells /\ keep r cells
  | Full => (root_capacity < Z.of_nat (total a))%Z
  | OutOfFuel => False
  end.

Definition keeps (r : arrays) (cells : list (list nat)) (v : nat)
    (r' : arrays) (cells' : list (list nat)) : Prop :=
  (forall i h, root_next r !! i = Some h -> root_next r' !! i = Some h) /\
  forall w, w <> v -> cells' !! w = cells !! w.

Lemma represents_push r a cells v x : represents r a cells -> v < length a ->
  implements (push root_capacity v x r) (<[v := x :: (a !!! v)]> a) (keeps r cells v).
Proof.
  intros H Hv. unfold push. pose proof (represents_total _ _ _ H) as Ht.
  pose proof (total_insert a v (x :: (a !!! v)) Hv) as Hti. cbn [length] in Hti.
  destruct (Z.leb_spec root_capacity (Z.of_nat (produced r))); [unfold implements; lia|].
  destruct (represents_lookup _ _ _ _ H Hv) as (l & Hl & Hcl & Hrow & Hnd & Hb & _).
  destruct (represents_length _ _ _ H) as [Hh Hc].
  exists (<[v := produced r :: l]> cells). destruct H as [Hn Hch Hp Ha].
  assert (Hmono : forall i h, root_next r !! i = Some h ->
    (root_next r ++ [node_heads r !!! v]) !! i = Some h) by (intros; by apply lookup_app_l_Some).
  split; [split|split].
  - cbn. unfold produced in *. rewrite !length_app. simpl. lia.
  - cbn. apply Forall2_insert.
    + eapply Forall2_impl; [exact Hch|]. intros h k. by apply chain_mono.
    + split; [done|]. exists (node_heads r !!! v). split.
      * rewrite <- Hn. by apply list_lookup_middle.
      * by eapply chain_mono.
  - unfold produced at 2. cbn. rewrite length_app. simpl. fold (produced r).
    rewrite Nat.add_1_r, seq_S.
    destruct (concat_insert cells v l (produced r :: l) Hl) as (pre & post & Hperm & -> & _).
    rewrite Hp in Hperm. rewrite Hperm. simpl. solve_Permutation.
  - rewrite list_fmap_insert. f_equal.
    + simpl. f_equal.
      * symmetry. apply list_lookup_total_correct. by apply list_lookup_middle.
      * rewrite Hrow. apply map_ext_Forall. eapply Forall_impl; [exact Hb|].
        intros i Hi. cbn. by rewrite lookup_total_app_l.
    + rewrite Ha. apply map_ext_in. intros k Hk. apply map_ext_in. intros i Hi.
      cbn. rewrite lookup_total_app_l; [done|]. fold (produced r).
      assert (Hin : i ∈ concat cells) by (apply list_elem_of_In, in_concat; by exists k).
      rewrite Hp in Hin. apply elem_of_seq in Hin. lia.
  - cbn. done.
  - intros w Hw. by rewrite list_lookup_insert_ne.
Qed.

Lemma represents_lower r a cells v before i after depth :
  represents r a cells -> v < length a -> cells !! v = Some (before ++ i :: after) ->
  let get := fun i => temporary_roots r !!! i in
  implements
    (Done (mk_arrays (<[i := set_depth depth (get i)]> (temporary_roots r))
             (root_next r) (node_heads r)))
    (<[v := map get before ++ set_depth depth (get i) :: map get after]> a)
    (keeps r cells v).
Proof.
  intros H Hv Hl get. exists cells. split; [|split; [by intros|done]].
  destruct (represents_lookup _ _ _ _ H Hv) as (l & Hl' & _ & _ & Hnd & Hb & _).
  rewrite Hl in Hl'. injection Hl' as <-.
  destruct (concat_insert cells v _ [] Hl) as (pre & post & Hperm & _ & Hothers).
  destruct H as [Hn Hch Hp Ha].
  assert (Hi : i < produced r) by (rewrite Forall_app, Forall_cons in Hb; naive_solver).
  assert (Hall : NoDup ((before ++ i :: after) ++ pre ++ post))
    by (rewrite <- Hperm, Hp; apply NoDup_seq).
  split; unfold produced; cbn; [by rewrite length_insert|done|by rewrite length_insert|].
  assert (Hmap : forall l, i ∉ l ->
    map (fun j => <[i := set_depth depth (get i)]> (temporary_roots r) !!! j) l = map get l).
  { intros l Hin. apply map_ext_in. intros j Hj. rewrite list_lookup_total_insert_ne; [done|].
    intros <-. by apply Hin, list_elem_of_In. }
  apply NoDup_app in Hall as (_ & Hdis & _). apply list_eq. intros w.
  rewrite Ha, list_lookup_fmap. destruct (decide (v = w)) as [<-|Hne].
  - rewrite list_lookup_insert_eq by (rewrite length_map; by eapply lookup_lt_Some).
    rewrite Hl. cbn. f_equal. apply NoDup_app in Hnd as (_ & Hnb & Hna).
    apply NoDup_cons in Hna as [Hna _]. rewrite map_app. cbn.
    rewrite list_lookup_total_insert_eq by done. rewrite !Hmap; [done|done|].
    intros Hin. apply (Hnb _ Hin). by left.
  - rewrite list_lookup_insert_ne, list_lookup_fmap by done.
    destruct (cells !! w) as [k|] eqn:Hk; [|done]. cbn. f_equal. symmetry. apply Hmap.
    intros Hin. apply (Hdis i); [set_solver|]. by apply (Hothers w k).
Qed.

(** Walking the chain of a node finds the relation [lower] would change. *)
Lemma find_existing_spec r root depth : forall l fuel head,
  chain (root_next r) head l -> length l <= fuel ->
  let get := fun i => temporary_roots r !!! i in
  (find_existing fuel r root head = Done None /\ lower root depth (map get l) = None) \/
  exists before i after, l = before ++ i :: after /\
    find_existing fuel r root head = Done (Some i) /\
    lower root depth (map get l) =
      Some (map get before ++
            (if (depth <? path_depth (get i))%Z then set_depth depth (get i) else get i)
              :: map get after).
Proof.
  induction l as [|i l IH]; intros fuel head Hc Hf get; simpl in Hc.
  - subst head. left. by destruct fuel.
  - destruct Hc as (-> & h & Hh & Hc). destruct fuel as [|fuel]; simpl in Hf; [lia|].
    cbn [find_existing map lower]. fold (get i). destruct (bytes_equal _ _) eqn:E.
    + right. by exists [], i, l.
    + rewrite (list_lookup_total_correct _ _ _ Hh).
      destruct (IH fuel h Hc) as [[-> Hlow]|(b & j & a & -> & -> & Hlow)]; [lia|left|right];
        fold get in Hlow; rewrite Hlow; [done|]. by exists (i :: b), j, a.
Qed.

Lemma inherit_relation_spec r a cells child index :
  represents r a cells -> child < length a ->
  implements (inherit_relation records root_capacity r child index)
    (<[child := absorb_relation records child (a !!! child) (temporary_roots r !!! index)]> a)
    (keeps r cells child).
Proof.
  intros H Hc. destruct (represents_lookup _ _ _ _ H Hc) as (l & Hl & Hch & Hrow & _ & _ & Hlen).
  unfold inherit_relation, absorb_relation. rewrite Hrow.
  destruct (find_existing_spec r (root_node_id (temporary_roots r !!! index))
    (u64 (path_depth (temporary_roots r !!! index) + 1)) l (produced r) _ Hch Hlen)
    as [[-> ->]|(before & i & after & -> & -> & ->)]; cbn [outcome_bind default].
  - rewrite <- Hrow. by apply represents_push.
  - cbn [from_option id]. destruct (_ <? _)%Z; [by apply represents_lower|].
    exists cells. split; [|done]. rewrite map_app in Hrow. cbn [map] in Hrow.
    rewrite <- Hrow, list_insert_id; [done|]. by apply list_lookup_lookup_total_lt.
Qed.

Lemma absorb_relation_length child row x :
  length row <= length (absorb_relation records child row x).
Proof.
  unfold absorb_relation. generalize (u64 (path_depth x + 1)) as d. intros d.
  destruct (lower (root_node_id x) d row) as [row'|] eqn:E; cbn; [|lia].
  revert row' E. induction row as [|y row IH]; intros row' E; cbn in E; [done|].
  destruct (bytes_equal _ _); [by injection E as <-|].
  destruct (lower _ _ row) as [row2|]; [|done]. injection E as <-. cbn. by apply le_n_S, IH.
Qed.

Lemma absorb_row_length child l : forall row,
  length row <= length (absorb_row records child row l).
Proof.
  unfold absorb_row. induction l as [|x l IH]; intros row; simpl; [done|].
  etrans; [apply (absorb_relation_length child row x)|apply IH].
Qed.

Lemma inherit_loop_spec node child : node <> child -> forall rest fuel r a cells pre relation,
  represents r a cells -> node < length a -> child < length a ->
  cells !! node = Some (pre ++ rest) -> chain (root_next r) relation rest ->
  length rest <= fuel ->
  implements (inherit_loop records root_capacity fuel r child relation)
    (<[child := absorb_row records child (a !!! child) (drop (length pre) (a !!! node))]> a)
    (fun _ _ => True).
Proof.
  intros Hne. induction rest as [|i rest IH]; intros fuel r a cells pre relation H Hn Hc Hcell Hch Hf;
    destruct (represents_lookup _ _ _ _ H Hn) as (l & Hl & _ & Hrow & _);
    rewrite Hcell in Hl; injection Hl as <-; cbn [chain] in Hch.
  - subst relation. rewrite app_nil_r in Hrow. rewrite Hrow, drop_ge by (by rewrite length_map).
    cbn. assert (Hlo : inherit_loop records root_capacity fuel r child None = Done r)
      by (by destruct fuel).
    rewrite Hlo. exists cells. split; [|done].
    rewrite list_insert_id; [done|]. by apply list_lookup_lookup_total_lt.
  - destruct Hch as (-> & h & Hh & Hch). destruct fuel as [|fuel]; cbn in Hf; [lia|].
    cbn [inherit_loop].
    assert (Hdrop : drop (length pre) (a !!! node) =
      (temporary_roots r !!! i) :: drop (length (pre ++ [i])) (a !!! node)).
    { rewrite Hrow, map_app, !drop_app_ge by (rewrite length_map, ?length_app; simpl; lia).
      rewrite length_app, length_map, Nat.sub_diag. simpl.
      by replace (length pre + 1 - length pre) with 1 by lia. }
    rewrite Hdrop. cbn [absorb_row foldl].
    pose proof (inherit_relation_spec r a cells child i H Hc) as Hstep.
    destruct (inherit_relation _ _ _ _ _) as [r'| |]; cbn [outcome_bind]; [| |done].
    + destruct Hstep as (cells' & H' & Hnext & Hkeep).
      rewrite (list_lookup_total_correct _ _ h) by (by apply Hnext).
      pose proof (IH fuel r' _ cells' (pre ++ [i]) h H') as Hrec.
      rewrite length_insert, list_lookup_total_insert_eq,
        (list_lookup_total_insert_ne _ child node), list_insert_insert_eq in Hrec by done.
      apply Hrec; [done..| | |lia].
      * rewrite Hkeep, Hcell by done. by rewrite <- app_assoc.
      * by eapply chain_mono.
    + unfold implements in *. eapply Z.lt_le_trans; [exact Hstep|].
      pose proof (total_insert a child (absorb_relation records child (a !!! child)
        (temporary_roots r !!! i)) Hc).
      pose proof (total_insert a child (absorb_row records child (absorb_relation records child
        (a !!! child) (temporary_roots r !!! i)) (drop (length (pre ++ [i])) (a !!! node))) Hc).
      pose proof (absorb_row_length child (drop (length (pre ++ [i])) (a !!! node))
        (absorb_relation records child (a !!! child) (temporary_roots r !!! i))).
      unfold absorb_row in *. lia.
Qed.
End Refinement.

(** *** The relations never outgrow their array *)
Section Capacity.
Context (records : list laplace_evidence_lineage_record) (root_capacity : Z).

Definition fits (r : arrays) : Prop := (Z.of_nat (produced r) <= root_capacity)%Z.

Lemma push_fits v x r r' : push root_capacity v x r = Done r' -> fits r'.
Proof.
  unfold push, fits. destruct (Z.leb_spec root_capacity (Z.of_nat (produced r))); [done|].
  intros [= <-]. unfold produced in *. cbn. rewrite length_app. cbn. lia.
Qed.

Lemma inherit_loop_fits fuel : forall r child relation r', fits r ->
  inherit_loop records root_capacity fuel r child relation = Done r' -> fits r'.
Proof.
  induction fuel as [|fuel IH]; intros r child [index|] r' H E; cbn in E; try done;
    try by injection E as <-.
  unfold inherit_relation in E. destruct (find_existing _ _ _ _) as [[existing|]| |];
    cbn in E; try done.
  - eapply IH; [|exact E]. unfold fits, produced in *.
    destruct (_ <? _)%Z; cbn; [by rewrite length_insert|done].
  - destruct (push _ _ _ _) eqn:Ep; cbn in E; try done.
    eapply IH; [|exact E]. by eapply push_fits.
Qed.

Lemma traverse_fits children parent_offsets node_count empty counts st : fits empty ->
  traverse (Rel := arrays_relations records root_capacity) children parent_offsets node_count
    empty counts = Done st -> fits (relations st).
Proof.
  intros Hempty E. pose proof (traverse_kept (Rel := arrays_relations records root_capacity)
    fits children parent_offsets node_count empty counts) as H.
  rewrite E in H. apply H; [| |done].
  - intros r v r' _. by apply push_fits.
  - intros r node child r' Hr. by apply inherit_loop_fits.
Qed.
End Capacity.

(** *** The traversals agree *)
Section Simulation.
Context (records : list laplace_evidence_lineage_record) (root_capacity : Z).
Context (children parent_offsets : list nat) (node_count : nat).
Hypothesis Hchildren : forall node position, node < node_count ->
  position ∈ child_positions parent_offsets node ->
  children !!! position < node_count /\ children !!! position <> node.

#[local] Abbreviation on_arrays := (arrays_relations records root_capacity).
#[local] Abbreviation on_table := (table_relations records).

Record simulated (st : traversal arrays) (sa : traversal table) : Prop := {
  simulated_relations : exists cells, represents (relations st) (relations sa) cells;
  simulated_rows : length (relations sa) = node_count;
  simulated_counts : dependency_count st = dependency_count sa;
  simulated_queue : queue st = queue sa;
  simulated_processed : processed st = processed sa;
  simulated_processed_count : processed_count st = processed_count sa;
  simulated_range : Forall (fun v => v < node_count) (queue sa) }.

Definition simulates (o : outcome (traversal arrays)) (oa : outcome (traversal table)) : Prop :=
  match oa with
  | Done sa =>
      match o with
      | Done st => simulated st sa
      | Full => (root_capacity < Z.of_nat (total (relations sa)))%Z
      | OutOfFuel => False
      end
  | _ => True
  end.

(** A step of the table only adds relations. *)
Definition growing {A} (body : traversal table -> A -> outcome (traversal table)) : Prop :=
  forall sa x sa', body sa x = Done sa' -> total (relations sa) <= total (relations sa').

Lemma growing_for_each {A} (body : traversal table -> A -> _) l :
  growing body -> growing (fun sa (_ : unit) => for_each body l sa).
Proof.
  intros Hb sa _. induction l as [|x l IH] in sa |- *; intros sa' H; cbn in H.
  - by injection H as <-.
  - destruct (body sa x) as [sa1| |] eqn:E; cbn in H; [|done..].
    etrans; [by eapply Hb|by apply IH].
Qed.

Lemma growing_queue_root : growing (queue_root (Rel := on_table)).
Proof.
  intros sa v sa' H. unfold queue_root in H. destruct (_ =? 0); [|by injection H as <-].
  cbn [outcome_bind relate_root table_relations] in H. injection H as <-. cbn [relations].
  destruct (decide (v < length (relations sa))) as [Hv|Hv].
  - pose proof (total_insert (relations sa) v
      (root_of_itself records v :: (relations sa !!! v)) Hv) as Ht. cbn [length] in Ht. lia.
  - by rewrite list_insert_ge by lia.
Qed.

Lemma growing_visit_child node :
  growing (visit_child (Rel := on_table) children node).
Proof.
  intros sa p sa' H. unfold visit_child in H. cbn [outcome_bind inherit table_relations] in H.
  injection H as <-. cbn [relations]. set (v := children !!! p).
  destruct (decide (v < length (relations sa))) as [Hv|Hv].
  - pose proof (total_insert (relations sa) v (absorb_row records v (relations sa !!! v)
      (relations sa !!! node)) Hv).
    pose proof (absorb_row_length records v (relations sa !!! node) (relations sa !!! v)). lia.
  - by rewrite list_insert_ge by lia.
Qed.

Lemma growing_propagate fuel :
  growing (fun sa (_ : unit) => propagate (Rel := on_table) children parent_offsets fuel sa).
Proof.
  induction fuel as [|fuel IH]; intros sa [] sa' H; cbn in H;
    destruct (queue sa) as [|node rest]; try by injection H as <-.
  - done.
  - destruct (for_each _ _ _) as [sa1| |] eqn:E; cbn in H; [|done..].
    apply (growing_for_each _ _ (growing_visit_child node) _ tt) in E.
    etrans; [exact E|by apply (IH _ tt)].
Qed.

Lemma simulates_bind o oa k ka :
  simulates o oa -> growing (fun sa (_ : unit) => ka sa) ->
  (forall st sa, simulated st sa -> simulates (k st) (ka sa)) ->
  simulates (outcome_bind o k) (outcome_bind oa ka).
Proof.
  intros Ho Hg Hk. destruct oa as [sa| |]; [|done..]. cbn.
  destruct o as [st| |]; cbn; [by apply Hk| |done].
  simpl in Ho. destruct (ka sa) as [sa'| |] eqn:E; [|done..].
  apply (Hg _ tt) in E. simpl. lia.
Qed.

Lemma simulates_for_each {A} (body : traversal arrays -> A -> _) bodya (l : list A) :
  (forall st sa x, x ∈ l -> simulated st sa -> simulates (body st x) (bodya sa x)) ->
  growing bodya -> forall st sa, simulated st sa ->
  simulates (for_each body l st) (for_each bodya l sa).
Proof.
  intros Hb Hg. induction l as [|x l IH]; intros st sa H; [done|]. cbn [for_each].
  apply simulates_bind.
  - apply Hb; [by left|done].
  - by apply growing_for_each.
  - apply IH. intros st' sa' y Hy. apply Hb. by right.
Qed.

Lemma implements_simulates o a keep (k : arrays -> traversal arrays) sa :
  implements root_capacity o a keep -> relations sa = a ->
  (forall r, (exists cells, represents r a cells) -> simulated (k r) sa) ->
  simulates (given r <- o ;; Done (k r)) (Done sa).
Proof.
  intros Ho <- Hk. destruct o as [r| |]; cbn; [|done..].
  destruct Ho as (cells & Hr & _). apply Hk. by exists cells.
Qed.

Lemma simulates_queue_root st sa v : v < node_count -> simulated st sa ->
  simulates (queue_root (Rel := on_arrays) st v) (queue_root (Rel := on_table) sa v).
Proof.
  intros Hv [[cells Hr] Hl Hd Hq Hp Hc Hf]. unfold queue_root. rewrite Hd.
  destruct (_ =? 0); [|by split; [exists cells|..]]. cbn [outcome_bind relate_root table_relations].
  eapply implements_simulates; [|reflexivity|].
  - apply represents_push; [exact Hr|lia].
  - intros r Hr'. split; cbn; [done|by rewrite length_insert|done|by rewrite Hq|done|done|].
    apply Forall_app. split; [done|]. by apply Forall_singleton.
Qed.

Lemma simulates_visit_child st sa node position : node < node_count ->
  position ∈ child_positions parent_offsets node -> simulated st sa ->
  simulates (visit_child (Rel := on_arrays) children node st position)
    (visit_child (Rel := on_table) children node sa position).
Proof.
  intros Hn Hp [[cells Hr] Hl Hd Hq Hpr Hc Hf]. destruct (Hchildren node position Hn Hp) as [Hch Hne].
  unfold visit_child. cbn [outcome_bind inherit table_relations].
  destruct (represents_lookup _ _ _ node Hr) as (l & Hcell & Hchain & _ & _ & _ & Hlen); [lia|].
  eapply implements_simulates.
  - apply (inherit_loop_spec records root_capacity node (children !!! position) (not_eq_sym Hne)
      l (produced (relations st)) (relations st) (relations sa) cells [] _); [done|lia|lia|done|done|done].
  - done.
  - intros r Hr'. split; cbn; [done|by rewrite length_insert|by rewrite Hd| |done|done|].
    + by rewrite Hd, Hq.
    + destruct (_ =? 0); [|done]. apply Forall_app. split; [done|]. by apply Forall_singleton.
Qed.

Lemma simulates_propagate fuel : forall st sa, simulated st sa ->
  simulates (propagate (Rel := on_arrays) children parent_offsets fuel st)
    (propagate (Rel := on_table) children parent_offsets fuel sa).
Proof.
  induction fuel as [|fuel IH]; intros st sa H; pose proof H as [[cells Hr] Hl Hd Hq Hp Hc Hf];
    cbn [propagate]; rewrite Hq; destruct (queue sa) as [|node rest] eqn:Eq; try done.
  apply Forall_cons in Hf as [Hnode Hrest].
  apply simulates_bind; [|by apply growing_propagate|done].
  apply simulates_for_each; [|apply growing_visit_child|].
  - intros st' sa' x Hx H'. by apply simulates_visit_child.
  - split; cbn; [by exists cells|done|done|done|by rewrite Hp|by rewrite Hc|done].
Qed.

(** The arrays implement the table: same order of visits, same relations, until
    a relation does not fit. *)
Lemma arrays_refine counts empty :
  empty = mk_arrays [] [] (replicate node_count None) ->
  simulates
    (traverse (Rel := on_arrays) children parent_offsets node_count empty counts)
    (traverse (Rel := on_table) children parent_offsets node_count
       (replicate node_count []) counts).
Proof.
  intros ->. unfold traverse. apply simulates_bind; [|by apply growing_propagate|].
  - apply simulates_for_each; [|apply growing_queue_root|].
    + intros st sa v Hv. apply elem_of_seq in Hv. apply simulates_queue_root. lia.
    + split; cbn; [|by rewrite length_replicate|done|done|done|done|constructor].
      exists (replicate node_count []). split; cbn.
      * done.
      * apply Forall2_replicate. done.
      * assert (Hc : forall n, concat (replicate n (@nil nat)) = [])
          by (induction n as [|n IHn]; [done|exact IHn]).
        by rewrite Hc.
      * by rewrite fmap_replicate.
  - intros st sa. apply simulates_propagate.
Qed.
End Simulation.
