(* ===== verification/LineageShortest.v ===== *)
(** * The propagation computes shortest distances

    The table of [LineageRoots], traversed over the children arrays of
    [LineageGraph], ends with exactly one relation for every node and every root
    the node depends on, and its depth is the length of a shortest path between
    them ([engine/src/evidence_lineage.c]: the queue loop of
    [laplace_evidence_record_lineage_batch]).

    The invariant [settled] ranges over the nodes taken off the queue and the
    edges already followed.  A row is read by [depth_of]; one inheritance is the
    pointwise minimum [lesser] of two rows ([absorb_row_depth]). *)
From stdpp Require Import prelude relations sorting.
From Stdlib Require Import ZArith Lia.
From S2P Require Import Prelude Bytes LineageGraph LineageRoots.

#[local] Open Scope nat_scope.

(** ** Distances *)
Definition shortest {A} (R : A -> A -> Prop) (d : nat) (v w : A) : Prop :=
  nsteps R d v w /\ forall d', nsteps R d' v w -> d <= d'.

Lemma NoDup_bounded (n : nat) l : NoDup l -> Forall (fun v => v < n) l -> length l <= n.
Proof.
  intros Hnd Hb. etrans; [apply submseteq_length|by rewrite (length_seq n 0)].
  apply NoDup_submseteq; [done|]. intros v Hv. rewrite Forall_forall in Hb. apply elem_of_seq. apply Hb in Hv. lia.
Qed.

(** A path without a cycle is shorter than the number of nodes. *)
Lemma acyclic_path_bound (R : nat -> nat -> Prop) n d v w :
  (forall x, x < n -> sn R x) -> (forall x y, R x y -> y < n) -> v < n ->
  nsteps R d v w -> d < n.
Proof.
  intros Hsn Hr Hv (l & Hlen & Hh & _ & Hl)%nsteps_list.
  assert (Hb : forall i x, l !! i = Some x -> x < n).
  { intros [|i] x Hx; [rewrite <- head_lookup, Hh in Hx; naive_solver|].
    destruct (lookup_lt_is_Some_2 l i) as [y Hy]; [apply lookup_lt_Some in Hx; lia|].
    by eapply Hr, Hl. }
  assert (Htc : forall j i x y, l !! i = Some x -> l !! (S i + j) = Some y -> tc R x y).
  { induction j as [|j IH]; intros i x y Hx Hy.
    - rewrite Nat.add_0_r in Hy. apply tc_once. by eapply Hl.
    - destruct (lookup_lt_is_Some_2 l (S i + j)) as [z Hz]; [apply lookup_lt_Some in Hy; lia|].
      apply tc_r with z; [by eapply IH|]. eapply Hl; [exact Hz|].
      by replace (S (S i + j)) with (S i + S j) by lia. }
  assert (Hnd : NoDup l).
  { apply NoDup_alt. intros i j x Hi Hj. destruct (lt_eq_lt_dec i j) as [[H|H]|H]; [|done|];
      exfalso; apply (sn_no_cycle R x (Hsn x (Hb _ _ Hi))).
    - apply (Htc (j - S i) i x x Hi). by replace (S i + (j - S i)) with j by lia.
    - apply (Htc (i - S j) j x x Hj). by replace (S j + (i - S j)) with i by lia. }
  apply NoDup_bounded with (n := n) in Hnd; [lia|]. apply Forall_lookup. exact Hb.
Qed.

(** ** Rows *)
Section Shortest.
Context (records : list laplace_evidence_lineage_record) (node_count : nat).
Context (edges : list lineage_edge).
#[local] Abbreviation id v := (node_id (records !!! v)).
#[local] Abbreviation step := (depends edges).

Hypothesis Hids : forall v w, v < node_count -> w < node_count -> id v = id w -> v = w.
Hypothesis Hcount : (Z.of_nat node_count <= UINT64_MAX)%Z.

(** The relation of node [v] to root [w] at depth [d]. *)
Definition relation_at (v w : nat) (d : Z) : laplace_evidence_root_record :=
  mk_root_record (id v) (id w) (proposition_id (records !!! v)) d
    (epistemic_kind (records !!! w)) 0.

Definition row_ok (v : nat) (row : list laplace_evidence_root_record) : Prop :=
  NoDup (map root_node_id row) /\
  Forall (fun x => exists w d, w < node_count /\ (0 <= d < Z.of_nat node_count)%Z /\
                     x = relation_at v w d) row.

Fixpoint depth_of (row : list laplace_evidence_root_record) (w : nat) : option Z :=
  match row with
  | [] => None
  | x :: row => if decide (root_node_id x = id w) then Some (path_depth x) else depth_of row w
  end.

Definition lesser (a b : option Z) : option Z :=
  match a, b with
  | Some x, Some y => Some (Z.min x y)
  | None, _ => b
  | _, None => a
  end.

Lemma depth_of_none row w : depth_of row w = None <-> id w ∉ map root_node_id row.
Proof.
  induction row as [|x row IH]; cbn; [split; [intros _; apply not_elem_of_nil|done]|].
  rewrite not_elem_of_cons. case_decide; naive_solver.
Qed.

Lemma depth_of_range v row w d : row_ok v row -> depth_of row w = Some d ->
  (0 <= d < Z.of_nat node_count)%Z.
Proof.
  intros [_ Hf]. induction Hf as [|x row (u & e & _ & He & ->) _ IH]; cbn; [done|].
  case_decide; [|apply IH]. by intros [= <-].
Qed.

Lemma row_elem v row w d : row_ok v row -> w < node_count ->
  relation_at v w d ∈ row <-> depth_of row w = Some d.
Proof.
  intros [Hnd Hf] Hw. induction row as [|x row IH]; cbn.
  { split; [by intros ?%elem_of_nil|done]. }
  apply Forall_cons in Hf as [(u & e & Hu & He & ->) Hf]. cbn in Hnd.
  apply NoDup_cons in Hnd as [Hnin Hnd]. specialize (IH Hnd Hf).
  rewrite elem_of_cons, IH. cbn. case_decide as Hd.
  - apply Hids in Hd as ->; [|done..]. split.
    + intros [Heq|Hs]; [apply (f_equal path_depth) in Heq; cbn in Heq; by subst|].
      apply depth_of_none in Hnin. congruence.
    + intros [= <-]. by left.
  - split; [|by right]. intros [Heq|Hs]; [|done]. destruct Hd.
    by apply (f_equal root_node_id) in Heq.
Qed.

Lemma lower_row v w d : (0 <= d < Z.of_nat node_count)%Z -> w < node_count ->
  forall row row', row_ok v row -> lower (id w) d row = Some row' ->
  row_ok v row' /\ map root_node_id row' = map root_node_id row /\
  forall u, u < node_count ->
    depth_of row' u = if decide (u = w) then lesser (depth_of row w) (Some d) else depth_of row u.
Proof.
  intros Hd Hw. induction row as [|x row IH]; intros row' [Hnd Hf] Hl; cbn in Hl; [done|].
  pose proof Hf as Hall. apply Forall_cons in Hf as [(u & e & Hu & He & ->) Hf].
  cbn in Hnd. apply NoDup_cons in Hnd as [Hnin Hnd].
  destruct (bytes_equal _ _) eqn:E.
  - injection Hl as <-. apply bytes_equal_spec in E. cbn in E. apply Hids in E as ->; [|done..].
    assert (Hx : (if (d <? e)%Z then set_depth d (relation_at v w e) else relation_at v w e) =
                 relation_at v w (Z.min e d)).
    { destruct (Z.ltb_spec d e); [by rewrite Z.min_r by lia|by rewrite Z.min_l by lia]. }
    cbn [path_depth relation_at]. fold (relation_at v w e). rewrite Hx. split; [split|split].
    + cbn. by apply NoDup_cons.
    + apply Forall_cons. split; [|done]. exists w, (Z.min e d). split; [done|]. split; [lia|done].
    + done.
    + intros z Hz. cbn. rewrite (decide_True (P := id w = id w)) by done.
      case_decide as H1; case_decide as H2; try done.
      * apply Hids in H1; [|done..]. by subst.
      * by subst.
  - destruct (lower (id w) d row) as [row2|] eqn:El; [|done]. injection Hl as <-.
    apply bytes_equal_false in E. cbn in E.
    destruct (IH row2 (conj Hnd Hf) eq_refl) as ([Hnd2 Hf2] & Hm & Hdep). split; [split|split].
    + cbn. apply NoDup_cons. by rewrite Hm.
    + apply Forall_cons. split; [by exists u, e|done].
    + cbn. by rewrite Hm.
    + intros z Hz. cbn. rewrite (decide_False (P := id u = id w)) by done.
      case_decide as H1; [|by apply Hdep]. case_decide as H2; [by subst|done].
Qed.

Lemma lower_none root d row : lower root d row = None <-> root ∉ map root_node_id row.
Proof.
  induction row as [|x row IH]; cbn; [split; [intros _; apply not_elem_of_nil|done]|].
  rewrite not_elem_of_cons. destruct (bytes_equal _ _) eqn:E.
  - apply bytes_equal_spec in E. naive_solver.
  - apply bytes_equal_false in E. destruct (lower root d row); naive_solver.
Qed.

Lemma absorb_relation_depth child v row w d :
  row_ok child row -> w < node_count -> (0 <= d)%Z -> (d + 1 < Z.of_nat node_count)%Z ->
  let row' := absorb_relation records child row (relation_at v w d) in
  row_ok child row' /\
  forall u, u < node_count ->
    depth_of row' u =
    if decide (u = w) then lesser (depth_of row w) (Some (d + 1)%Z) else depth_of row u.
Proof.
  intros Hrow Hw Hd Hd1. cbn zeta. unfold absorb_relation.
  cbn [path_depth root_node_id relation_at]. rewrite u64_small by lia.
  destruct (lower (id w) (d + 1)%Z row) as [row'|] eqn:E; cbn [default].
  - destruct (lower_row child w (d + 1)%Z) with (row := row) (row' := row') as (H1 & _ & H2);
      [lia|done..|]. done.
  - apply lower_none in E as Hnin. apply depth_of_none in Hnin as Hnone.
    assert (Hx : inherited records child (relation_at v w d) = relation_at child w (d + 1)%Z).
    { unfold inherited, relation_at. cbn. by rewrite u64_small by lia. }
    destruct Hrow as [Hnd Hf]. cbn [from_option]. rewrite Hx. split; [split|].
    + cbn. by apply NoDup_cons.
    + apply Forall_cons. split; [|done]. exists w, (d + 1)%Z. split; [done|]. split; [lia|done].
    + intros u Hu. cbn. rewrite Hnone. case_decide as H1; case_decide as H2; try done.
      * apply Hids in H1; [|done..]. by subst.
      * by subst.
Qed.

(** One inheritance is a pointwise minimum. *)
Lemma absorb_row_depth child v : forall l row,
  row_ok child row -> row_ok v l ->
  Forall (fun x => (path_depth x + 1 < Z.of_nat node_count)%Z) l ->
  row_ok child (absorb_row records child row l) /\
  forall u, u < node_count ->
    depth_of (absorb_row records child row l) u =
    lesser (depth_of row u) (Z.succ <$> depth_of l u).
Proof.
  unfold absorb_row. induction l as [|x l IH]; intros row Hrow [Hnd Hf] Hb; cbn [foldl].
  - split; [done|]. intros u _. cbn. by destruct (depth_of row u).
  - apply Forall_cons in Hf as [(w & d & Hw & Hd & ->) Hf]. apply Forall_cons in Hb as [Hb1 Hb].
    cbn in Hnd, Hb1. apply NoDup_cons in Hnd as [Hnin Hnd].
    destruct (absorb_relation_depth child v row w d) as [Hrow' Hdep]; [done|done|lia|done|].
    destruct (IH _ Hrow' (conj Hnd Hf) Hb) as [Hok Hall]. split; [done|].
    intros u Hu. rewrite Hall, Hdep by done. cbn [depth_of root_node_id path_depth relation_at].
    apply depth_of_none in Hnin. case_decide as H1.
    + subst u. rewrite Hnin, decide_True by done. cbn. by destruct (depth_of row w).
    + rewrite decide_False; [done|]. intros H2. apply Hids in H2; [|done..]. by subst.
Qed.

Lemma lesser_decreases a b d : a = Some d -> exists d', lesser a b = Some d' /\ (d' <= d)%Z.
Proof. intros ->. destruct b as [y|]; cbn; eexists; split; [done|lia|done|lia]. Qed.

(** ** The traversal *)
Hypothesis Hgraph : graph_ok node_count edges.
Hypothesis Hnodup : NoDup edges.
Hypothesis Hsn : forall v, v < node_count -> sn step v.

#[local] Abbreviation counts := (degrees child node_count edges).
#[local] Abbreviation parent_offsets := (offsets 0 (degrees parent node_count edges)).
#[local] Abbreviation children := (fill_children edges parent_offsets node_count).
#[local] Abbreviation on_table := (table_relations records).
#[local] Abbreviation degree v := (length (with_end child edges v)).

(** A root has no dependence. *)
Definition terminal (v : nat) : Prop := forall w, ~ step v w.

Lemma ends_in_range f : f = child \/ f = parent -> Forall (fun e => f e < node_count) edges.
Proof.
  destruct Hgraph as [He _]. intros Hf. eapply Forall_impl; [exact He|].
  intros e [? ?]. by destruct Hf as [-> | ->].
Qed.

Lemma edge_range e : e ∈ edges -> child e < node_count /\ parent e < node_count.
Proof. destruct Hgraph as [He _]. rewrite Forall_forall in He. apply He. Qed.

Lemma step_edge e : e ∈ edges -> step (child e) (parent e).
Proof. unfold depends. by destruct e. Qed.

Lemma elem_of_with_end (f : lineage_edge -> nat) l v e : e ∈ with_end f l v <-> f e = v /\ e ∈ l.
Proof. unfold with_end. by rewrite list_elem_of_filter. Qed.

Lemma NoDup_with_end f l v : NoDup l -> NoDup (with_end f l v).
Proof. apply NoDup_filter. Qed.

Lemma terminal_degree v : terminal v <-> degree v = 0.
Proof.
  split.
  - intros Ht. destruct (with_end child edges v) as [|e l] eqn:E; [done|]. exfalso.
    assert (He : e ∈ with_end child edges v) by (rewrite E; by left).
    apply elem_of_with_end in He as [<- He]. by apply (Ht (parent e)), step_edge.
  - intros H%length_zero_iff_nil w Hw.
    assert (He : mk_edge v w ∈ with_end child edges v) by by apply elem_of_with_end.
    rewrite H in He. by apply elem_of_nil in He.
Qed.

Lemma child_positions_seq node : node < node_count ->
  child_positions parent_offsets node =
  seq (before parent edges node) (length (with_end parent edges node)).
Proof.
  intros Hn. unfold child_positions.
  rewrite !offsets_before by (lia || apply ends_in_range; by right).
  rewrite before_S. f_equal. lia.
Qed.

Lemma children_of node : node < node_count ->
  map (fun p => children !!! p) (child_positions parent_offsets node) =
  map child (with_end parent edges node).
Proof.
  intros Hn. rewrite child_positions_seq by done. apply list_eq. intros k.
  rewrite !list_lookup_fmap. destruct (with_end parent edges node !! k) as [e|] eqn:Hk.
  - rewrite lookup_seq_lt by (by eapply lookup_lt_Some). cbn. f_equal.
    apply list_lookup_total_correct.
    apply fill_children_lookup; [apply ends_in_range; by right|done].
  - rewrite lookup_seq_ge by (by apply lookup_ge_None). done.
Qed.

Lemma no_self_edge e : e ∈ edges -> child e <> parent e.
Proof.
  intros He Heq. apply edge_range in He as Hr. apply (sn_no_cycle step (child e)).
  - apply Hsn, Hr.
  - apply tc_once. rewrite Heq at 2. by apply step_edge.
Qed.

Lemma children_in_range node position : node < node_count ->
  position ∈ child_positions parent_offsets node ->
  children !!! position < node_count /\ children !!! position <> node.
Proof.
  intros Hn Hp. assert (Hin : children !!! position ∈
    map (fun p => children !!! p) (child_positions parent_offsets node)).
  { apply list_elem_of_In, (in_map (fun p => children !!! p)), list_elem_of_In, Hp. }
  rewrite children_of in Hin by done. apply list_elem_of_fmap in Hin as (e & -> & He).
  apply elem_of_with_end in He as [<- He]. split; [by apply edge_range|by apply no_self_edge].
Qed.

(** Follow one edge: the child inherits the row of the parent. *)
Definition follow (sa : traversal table) (e : lineage_edge) : traversal table :=
  let rows := relations sa in
  let count := pred (dependency_count sa !!! child e) in
  mk_traversal
    (<[child e := absorb_row records (child e) (rows !!! child e) (rows !!! parent e)]> rows)
    (<[child e := count]> (dependency_count sa))
    (if count =? 0 then queue sa ++ [child e] else queue sa)
    (processed sa) (processed_count sa).

Lemma for_each_follow node : forall es positions sa,
  map (fun p => children !!! p) positions = map child es ->
  Forall (fun e => parent e = node) es ->
  for_each (visit_child (Rel := on_table) children node) positions sa = Done (foldl follow sa es).
Proof.
  induction es as [|e es IH]; intros [|p positions] sa Hm Hp; try done.
  injection Hm as He Hm. apply Forall_cons in Hp as [<- Hp].
  cbn [for_each foldl]. unfold visit_child at 1. cbn [outcome_bind inherit table_relations].
  rewrite He. by apply IH.
Qed.

(** *** The invariant
    [taken] are the nodes that have left the queue, [followed] the edges whose
    inheritance is done. *)
Record settled (taken : list nat) (followed : list lineage_edge) (sa : traversal table)
    : Prop := {
  settled_rows : length (relations sa) = node_count;
  settled_counts : length (dependency_count sa) = node_count;
  settled_ok v : v < node_count -> row_ok v (relations sa !!! v);
  settled_nodup : NoDup (queue sa ++ taken);
  settled_ready v : v ∈ queue sa ++ taken <->
    v < node_count /\ dependency_count sa !!! v = 0;
  settled_followed_nodup : NoDup followed;
  settled_followed : followed ⊆ edges;
  settled_remaining v : v < node_count ->
    (dependency_count sa !!! v) + length (with_end child followed v) = degree v;
  settled_taken e : e ∈ followed -> parent e ∈ taken;
  settled_sound v w d : v < node_count -> w < node_count ->
    depth_of (relations sa !!! v) w = Some d -> nsteps step (Z.to_nat d) v w /\ terminal w;
  settled_terminal v : v < node_count -> terminal v ->
    exists d, depth_of (relations sa !!! v) v = Some d /\ (d <= 0)%Z;
  settled_complete e w d : e ∈ followed -> w < node_count ->
    depth_of (relations sa !!! parent e) w = Some d ->
    exists d', depth_of (relations sa !!! child e) w = Some d' /\ (d' <= d + 1)%Z;
  settled_count : processed_count sa = length taken }.

Lemma followed_room taken followed sa e : settled taken followed sa ->
  e ∈ edges -> e ∉ followed -> length (with_end child followed (child e)) < degree (child e).
Proof.
  intros H He Hnew. apply (submseteq_length (e :: with_end child followed (child e))).
  apply NoDup_submseteq.
  - apply NoDup_cons. split; [rewrite elem_of_with_end; naive_solver|].
    apply NoDup_with_end. apply H.
  - intros f [->|Hf]%elem_of_cons; [by apply elem_of_with_end|].
    apply elem_of_with_end in Hf as [Hc Hf]. apply elem_of_with_end. split; [done|].
    by apply (settled_followed _ _ _ H).
Qed.

Lemma followed_all taken followed sa v : settled taken followed sa -> v < node_count ->
  (forall e, e ∈ edges -> child e = v -> e ∈ followed) -> v ∈ queue sa ++ taken.
Proof.
  intros H Hv Hall. apply (settled_ready _ _ _ H). split; [done|].
  pose proof (settled_remaining _ _ _ H v Hv) as Hr.
  assert (Hle : degree v <= length (with_end child followed v)); [|lia].
  apply submseteq_length, NoDup_submseteq; [by apply NoDup_with_end|].
  intros e [Hc He]%elem_of_with_end. apply elem_of_with_end. auto.
Qed.

(** A path never has [node_count] steps, so a child's depth is in range. *)
Lemma depth_of_parent taken followed sa e w d : settled taken followed sa -> e ∈ edges ->
  w < node_count -> depth_of (relations sa !!! parent e) w = Some d ->
  nsteps step (S (Z.to_nat d)) (child e) w /\ (d + 1 < Z.of_nat node_count)%Z.
Proof.
  intros H He Hw Hd. apply edge_range in He as Hr. destruct Hr as [Hc Hp].
  pose proof (depth_of_range _ _ _ _ (settled_ok _ _ _ H _ Hp) Hd) as Hr.
  destruct (settled_sound _ _ _ H _ _ _ Hp Hw Hd) as [Hn _].
  assert (Hs : nsteps step (S (Z.to_nat d)) (child e) w)
    by (eapply nsteps_l; [by apply step_edge|done]).
  split; [done|]. apply acyclic_path_bound with (n := node_count) in Hs; [lia|done| |done].
  intros x y Hxy. by apply edge_range in Hxy as [_ ?].
Qed.

(** The row of the child after an edge is followed. *)
Lemma follow_row taken followed sa e : settled taken followed sa -> e ∈ edges ->
  let row := relations (follow sa e) !!! child e in
  row_ok (child e) row /\
  forall u, u < node_count ->
    depth_of row u = lesser (depth_of (relations sa !!! child e) u)
                            (Z.succ <$> depth_of (relations sa !!! parent e) u).
Proof.
  intros H He. apply edge_range in He as Hr. destruct Hr as [Hc Hp]. cbn zeta.
  unfold follow. cbn [relations].
  rewrite list_lookup_total_insert_eq by (rewrite (settled_rows _ _ _ H); done).
  pose proof (settled_ok _ _ _ H _ Hp) as Hrow.
  apply absorb_row_depth with (v := parent e); [by apply (settled_ok _ _ _ H)|done|].
  apply Forall_forall. intros x Hx. pose proof Hrow as [_ Hf]. rewrite Forall_forall in Hf.
  destruct (Hf x Hx) as (w & d & Hw & _ & ->). apply row_elem in Hx; [|done..].
  by apply (depth_of_parent taken followed sa e w d).
Qed.

Lemma follow_settled taken followed sa e : settled taken followed sa ->
  e ∈ edges -> e ∉ followed -> parent e ∈ taken -> settled taken (e :: followed) (follow sa e).
Proof.
  intros H He Hnew Hp. pose proof (follow_row _ _ _ _ H He) as [Hrow Hdep].
  pose proof (followed_room _ _ _ _ H He Hnew) as Hroom.
  apply edge_range in He as Hr. destruct Hr as [Hc Hpn].
  pose proof (settled_remaining _ _ _ H _ Hc) as Hcount_c.
  assert (Hpositive : dependency_count sa !!! child e <> 0) by lia.
  assert (Hother : forall v, v <> child e ->
    relations (follow sa e) !!! v = relations sa !!! v)
    by (intros; by apply list_lookup_total_insert_ne).
  assert (Hcounts : forall v, v < node_count -> dependency_count (follow sa e) !!! v =
    if decide (child e = v) then pred (dependency_count sa !!! v) else dependency_count sa !!! v).
  { intros v Hv. cbn. case_decide as Hcv; [subst v|by apply list_lookup_total_insert_ne].
    apply list_lookup_total_insert_eq. by rewrite (settled_counts _ _ _ H). }
  assert (Hfresh : child e ∉ queue sa ++ taken) by (rewrite (settled_ready _ _ _ H); naive_solver).
  assert (Hlower : forall v u d, v < node_count -> u < node_count ->
    depth_of (relations sa !!! v) u = Some d ->
    exists d', depth_of (relations (follow sa e) !!! v) u = Some d' /\ (d' <= d)%Z).
  { intros v u d Hv Hu Hd. destruct (decide (v = child e)) as [->|Hne].
    - rewrite Hdep by done. by apply lesser_decreases.
    - rewrite Hother by done. by exists d. }
  assert (Hparents : forall f, f ∈ e :: followed -> parent f <> child e).
  { intros f [->|Hf]%elem_of_cons Heq; [by apply (no_self_edge e)|].
    apply Hfresh. rewrite <- Heq. apply elem_of_app. right. by apply (settled_taken _ _ _ H). }
  split.
  - cbn. rewrite length_insert. apply H.
  - cbn. rewrite length_insert. apply H.
  - intros v Hv. destruct (decide (v = child e)) as [->|Hne]; [done|].
    rewrite Hother by done. by apply H.
  - cbn [queue follow]. destruct (_ =? 0); [|apply H]. rewrite <- app_assoc. cbn.
    rewrite <- Permutation_middle. apply NoDup_cons. split; [done|apply H].
  - intros v. pose proof (settled_ready _ _ _ H v) as Hv.
    assert (Hq : v ∈ queue (follow sa e) ++ taken <->
      v ∈ queue sa ++ taken \/ v = child e /\ pred (dependency_count sa !!! child e) = 0).
    { cbn [queue follow]. destruct (Nat.eqb_spec (pred (dependency_count sa !!! child e)) 0);
        rewrite ?elem_of_app, ?list_elem_of_singleton; naive_solver. }
    rewrite Hq, Hv. split.
    + intros [[Hvn Hz]|[-> Hz]]; (split; [done|]); rewrite Hcounts by done; case_decide; naive_solver.
    + intros [Hvn Hz]. rewrite Hcounts in Hz by done. case_decide; naive_solver.
  - apply NoDup_cons. split; [done|apply H].
  - intros f [->|Hf]%elem_of_cons; [done|by apply (settled_followed _ _ _ H)].
  - intros v Hv. rewrite Hcounts by done. pose proof (settled_remaining _ _ _ H v Hv) as Hr.
    unfold with_end at 1. rewrite filter_cons. fold (with_end child followed v).
    case_decide as Hcv; [subst v; cbn; lia|done].
  - intros f [->|Hf]%elem_of_cons; [done|by apply (settled_taken _ _ _ H)].
  - intros v w d Hv Hw Hd. destruct (decide (v = child e)) as [->|Hne];
      [|rewrite Hother in Hd by done; by apply (settled_sound _ _ _ H)].
    rewrite Hdep in Hd by done.
    destruct (depth_of (relations sa !!! parent e) w) as [dp|] eqn:Ep.
    + destruct (depth_of_parent _ _ _ _ _ _ H He Hw Ep) as [Hn _].
      pose proof (depth_of_range _ _ _ _ (settled_ok _ _ _ H _ Hpn) Ep) as Hr.
      destruct (settled_sound _ _ _ H _ _ _ Hpn Hw Ep) as [_ Ht].
      destruct (depth_of (relations sa !!! child e) w) as [dc|] eqn:Ec; cbn in Hd; injection Hd as <-.
      * destruct (Z.min_spec dc (Z.succ dp)) as [[_ ->]|[_ ->]].
        -- by apply (settled_sound _ _ _ H).
        -- replace (Z.to_nat (Z.succ dp)) with (S (Z.to_nat dp)) by lia. done.
      * replace (Z.to_nat (Z.succ dp)) with (S (Z.to_nat dp)) by lia. done.
    + destruct (depth_of (relations sa !!! child e) w) eqn:Ec; [|done].
      injection Hd as <-. by apply (settled_sound _ _ _ H).
  - intros v Hv Ht. destruct (settled_terminal _ _ _ H v Hv Ht) as (d & Hd & Hz).
    destruct (Hlower v v d Hv Hv Hd) as (d' & Hd' & Hz'). exists d'. split; [done|lia].
  - intros f w d Hf Hw Hd. rewrite Hother in Hd by (by apply Hparents).
    apply elem_of_cons in Hf as [->|Hf].
    + rewrite Hdep, Hd by done. destruct (depth_of (relations sa !!! child e) w); cbn;
        eexists; split; [done|lia|done|lia].
    + destruct (settled_complete _ _ _ H f w d Hf Hw Hd) as (d1 & Hd1 & Hz).
      assert (Hfe : f ∈ edges) by (by apply (settled_followed _ _ _ H)).
      apply edge_range in Hfe as [Hfc _].
      destruct (Hlower _ _ _ Hfc Hw Hd1) as (d2 & Hd2 & Hz2). exists d2. split; [done|lia].
  - apply H.
Qed.

Lemma follow_all taken : forall es followed sa, settled taken followed sa ->
  NoDup es -> es ⊆ edges -> (forall e, e ∈ es -> e ∉ followed /\ parent e ∈ taken) ->
  exists followed', settled taken followed' (foldl follow sa es) /\
    forall e, e ∈ followed' <-> e ∈ es \/ e ∈ followed.
Proof.
  induction es as [|e es IH]; intros followed sa H Hnd Hsub Hes; cbn [foldl].
  { exists followed. split; [done|]. intros e. rewrite elem_of_nil. tauto. }
  apply NoDup_cons in Hnd as [Hnin Hnd]. destruct (Hes e) as [Hnew Hp]; [by left|].
  destruct (IH (e :: followed) (follow sa e)) as (followed' & H' & Hall).
  - apply follow_settled; [done|apply Hsub; by left|done|done].
  - done.
  - intros f Hf. apply Hsub. by right.
  - intros f Hf. destruct (Hes f) as [Hf1 Hf2]; [by right|]. split; [|done].
    intros [->|?]%elem_of_cons; done.
  - exists followed'. split; [done|]. intros f. rewrite Hall, !elem_of_cons. tauto.
Qed.

Lemma dequeue_settled taken followed sa node rest :
  settled taken followed sa -> queue sa = node :: rest ->
  settled (node :: taken) followed (dequeue node rest sa).
Proof.
  intros H Hq. assert (Hperm : rest ++ node :: taken ≡ₚ queue sa ++ taken)
    by (rewrite Hq; solve_Permutation).
  split; cbn [relations dependency_count queue processed_count dequeue];
    try (by apply H).
  - rewrite Hperm. apply H.
  - intros v. rewrite Hperm. apply H.
  - intros e He. right. by apply (settled_taken _ _ _ H).
  - cbn. f_equal. apply H.
Qed.

(** Between two visits every edge into a taken node is followed. *)
Definition closed (taken : list nat) (followed : list lineage_edge) : Prop :=
  forall e, e ∈ edges -> parent e ∈ taken -> e ∈ followed.

Lemma visit_settled taken followed sa node rest :
  settled taken followed sa -> closed taken followed -> queue sa = node :: rest ->
  exists sa' followed',
    for_each (visit_child (Rel := on_table) children node)
      (child_positions parent_offsets node) (dequeue node rest sa) = Done sa' /\
    settled (node :: taken) followed' sa' /\ closed (node :: taken) followed'.
Proof.
  intros H Hcl Hq. assert (Hready : node ∈ queue sa ++ taken) by (rewrite Hq; by left).
  apply (settled_ready _ _ _ H) in Hready as Hn. destruct Hn as [Hn _].
  assert (Hfresh : node ∉ taken).
  { pose proof (settled_nodup _ _ _ H) as Hnd. rewrite Hq in Hnd. cbn in Hnd.
    apply NoDup_cons in Hnd as [Hnd _]. rewrite elem_of_app in Hnd. tauto. }
  destruct (follow_all (node :: taken) (with_end parent edges node) followed
    (dequeue node rest sa)) as (followed' & H' & Hall).
  - by apply dequeue_settled.
  - by apply NoDup_with_end.
  - intros e [_ He]%elem_of_with_end. done.
  - intros e [He Hin]%elem_of_with_end. split; [|rewrite He; by left].
    intros Hf. apply Hfresh. rewrite <- He. by apply (settled_taken _ _ _ H).
  - exists (foldl follow (dequeue node rest sa) (with_end parent edges node)), followed'.
    split; [|split; [done|]].
    + apply for_each_follow; [by apply children_of|].
      apply Forall_forall. by intros e [He _]%elem_of_with_end.
    + intros e He [Hp|Hp]%elem_of_cons; apply Hall; [left; by apply elem_of_with_end|].
      right. by apply Hcl.
Qed.

Lemma taken_bound taken followed sa : settled taken followed sa ->
  length (queue sa ++ taken) <= node_count.
Proof.
  intros H. apply NoDup_bounded; [apply H|]. apply Forall_forall. intros v Hv.
  by apply (settled_ready _ _ _ H) in Hv as [? _].
Qed.

Lemma propagate_settled : forall fuel taken followed sa,
  settled taken followed sa -> closed taken followed -> node_count <= length taken + fuel ->
  exists sa' taken' followed',
    propagate (Rel := on_table) children parent_offsets fuel sa = Done sa' /\
    settled taken' followed' sa' /\ closed taken' followed' /\ queue sa' = [].
Proof.
  induction fuel as [|fuel IH]; intros taken followed sa H Hcl Hf; cbn [propagate];
    destruct (queue sa) as [|node rest] eqn:Hq; try by exists sa, taken, followed.
  - pose proof (taken_bound _ _ _ H) as Hb. rewrite Hq, length_app in Hb. cbn in Hb. lia.
  - destruct (visit_settled _ _ _ _ _ H Hcl Hq) as (sa1 & followed1 & -> & H1 & Hcl1).
    cbn [outcome_bind]. apply (IH (node :: taken) followed1 sa1); [done..|]. cbn. lia.
Qed.

(** *** The roots *)
Lemma for_each_app {A S} (body : S -> A -> outcome S) l l' : forall s,
  for_each body (l ++ l') s = outcome_bind (for_each body l s) (for_each body l').
Proof.
  induction l as [|a l IH]; intros s; cbn; [done|].
  destruct (body s a); cbn; [apply IH|done..].
Qed.

#[local] Definition first_row (k v : nat) : list laplace_evidence_root_record :=
  if decide (v < k /\ counts !!! v = 0) then [root_of_itself records v] else [].

Lemma queue_roots k : k <= node_count ->
  exists sa, for_each (queue_root (Rel := on_table)) (seq 0 k)
    (mk_traversal (replicate node_count []) counts [] (replicate node_count 0) 0) = Done sa /\
  length (relations sa) = node_count /\ dependency_count sa = counts /\
  processed_count sa = 0 /\
  queue sa = filter (fun v => counts !!! v = 0) (seq 0 k) /\
  forall v, v < node_count -> relations sa !!! v = first_row k v.
Proof.
  induction k as [|k IH]; intros Hk.
  - eexists. split; [done|]. cbn. rewrite length_replicate. split_and!; try done.
    intros v Hv. rewrite lookup_total_replicate_2 by done. unfold first_row.
    by rewrite decide_False by lia.
  - destruct IH as (sa & He & Hl & Hd & Hc & Hq & Hrows); [lia|].
    rewrite seq_S, for_each_app, He. cbn [outcome_bind for_each]. unfold queue_root. rewrite Hd.
    assert (Hrow : first_row k k = []) by (unfold first_row; by rewrite decide_False by lia).
    rewrite filter_app, filter_cons. cbn [Nat.add].
    destruct (Nat.eqb_spec (counts !!! k) 0) as [H0|H0].
    + cbn [outcome_bind relate_root table_relations]. eexists. split; [done|].
      cbn [relations dependency_count processed_count queue].
      rewrite length_insert, Hq, decide_True by done. split_and!; try done.
      intros v Hv. destruct (decide (k = v)) as [<-|Hne].
      * rewrite list_lookup_total_insert_eq, Hrows, Hrow by lia.
        unfold first_row. by rewrite decide_True by lia.
      * rewrite list_lookup_total_insert_ne, Hrows by done. unfold first_row.
        apply decide_ext. lia.
    + cbn [outcome_bind]. exists sa. rewrite decide_False, app_nil_r by done.
      split_and!; try done. intros v Hv. rewrite Hrows by done. unfold first_row.
      apply decide_ext. destruct (decide (v = k)) as [->|]; lia.
Qed.

Lemma counts_degree v : v < node_count -> counts !!! v = degree v.
Proof. intros Hv. apply degrees_lookup; [done|]. apply ends_in_range. by left. Qed.

Lemma root_row v : v < node_count -> row_ok v [root_of_itself records v].
Proof.
  intros Hv. split; [apply NoDup_singleton|]. apply Forall_singleton.
  exists v, 0%Z. split; [done|]. split; [lia|done].
Qed.

Lemma first_settled sa : length (relations sa) = node_count -> dependency_count sa = counts ->
  processed_count sa = 0 -> queue sa = filter (fun v => counts !!! v = 0) (seq 0 node_count) ->
  (forall v, v < node_count -> relations sa !!! v = first_row node_count v) ->
  settled [] [] sa.
Proof.
  intros Hl Hd Hc Hq Hrows.
  assert (Hrow : forall v, v < node_count -> relations sa !!! v =
    if decide (degree v = 0) then [root_of_itself records v] else []).
  { intros v Hv. rewrite Hrows by done. unfold first_row. rewrite counts_degree by done.
    apply decide_ext. tauto. }
  split; try (by intros ? ?%elem_of_nil); try done.
  - rewrite Hd. apply length_degrees.
  - intros v Hv. rewrite Hrow by done. case_decide; [by apply root_row|].
    split; constructor.
  - rewrite app_nil_r, Hq. apply NoDup_filter, NoDup_seq.
  - intros v. rewrite app_nil_r, Hq, Hd, list_elem_of_filter, elem_of_seq. naive_solver lia.
  - constructor.
  - intros v Hv. rewrite Hd, counts_degree by done. cbn. lia.
  - intros v w d Hv Hw Hdep. rewrite Hrow in Hdep by done. case_decide as H0; [|done].
    cbn in Hdep. case_decide as Hid; [|done]. injection Hdep as <-.
    apply Hids in Hid as ->; [|done..]. split; [constructor|]. by apply terminal_degree.
  - intros v Hv Ht%terminal_degree. exists 0%Z. split; [|done].
    rewrite Hrow, decide_True by done. cbn. by rewrite decide_True.
  - intros e w d He. by apply elem_of_nil in He.
Qed.

(** *** The result *)
Lemma all_taken taken followed sa : settled taken followed sa -> closed taken followed ->
  queue sa = [] -> forall v, v < node_count -> v ∈ taken.
Proof.
  intros H Hcl Hq v Hv. induction (Hsn v Hv) as [v _ IH]. unfold flip in IH.
  pose proof (followed_all _ _ _ v H Hv) as Hall. rewrite Hq in Hall. apply Hall.
  intros e He <-. apply Hcl; [done|]. apply IH; [by apply step_edge|by apply edge_range].
Qed.

Lemma settled_path taken followed sa : settled taken followed sa ->
  (forall e, e ∈ edges -> e ∈ followed) ->
  forall d v w, v < node_count -> nsteps step d v w -> terminal w ->
  exists d', depth_of (relations sa !!! v) w = Some d' /\ (d' <= Z.of_nat d)%Z.
Proof.
  intros H Hall. induction d as [|d IH]; intros v w Hv Hp Ht.
  - inversion Hp; subst. by apply (settled_terminal _ _ _ H).
  - inversion Hp as [|? ? x ? Hvx Hxw]; subst. apply edge_range in Hvx as Hx.
    destruct Hx as [_ Hx]. cbn in Hx. destruct (IH x w Hx Hxw Ht) as (d1 & Hd1 & Hz).
    assert (Hw : w < node_count).
    { clear -Hx Hxw Hgraph. induction Hxw as [|d x y z Hxy _ IHn]; [done|].
      apply edge_range in Hxy as [_ Hy]. by apply IHn. }
    destruct (settled_complete _ _ _ H (mk_edge v x) w d1) as (d2 & Hd2 & Hz2);
      [by apply Hall|done|done|]. exists d2. split; [done|]. lia.
Qed.

(** The traversal of the table always ends, has visited every node, and the rows
    hold the shortest distances to the terminal nodes. *)
Lemma traverse_table :
  exists st, traverse (Rel := on_table) children parent_offsets node_count
    (replicate node_count []) counts = Done st /\
  processed_count st = node_count /\ length (relations st) = node_count /\
  forall v, v < node_count ->
    row_ok v (relations st !!! v) /\
    forall w d, w < node_count ->
      depth_of (relations st !!! v) w = Some d <->
      (0 <= d)%Z /\ shortest step (Z.to_nat d) v w /\ terminal w.
Proof.
  unfold traverse. destruct (queue_roots node_count (le_n _)) as (s0 & -> & Hl & Hd & Hc & Hq & Hr).
  cbn [outcome_bind]. pose proof (first_settled s0 Hl Hd Hc Hq Hr) as H0.
  destruct (propagate_settled node_count [] [] s0 H0) as (sa & taken & followed & -> & H & Hcl & Hqe);
    [by intros e _ ?%elem_of_nil|lia|].
  pose proof (all_taken _ _ _ H Hcl Hqe) as Htaken.
  assert (Hall : forall e, e ∈ edges -> e ∈ followed)
    by (intros e He; apply Hcl; [done|]; by apply Htaken, edge_range).
  exists sa. split; [done|]. split; [|split; [apply H|]].
  - rewrite (settled_count _ _ _ H). apply Nat.le_antisymm.
    + pose proof (taken_bound _ _ _ H) as Hb. rewrite Hqe in Hb. done.
    + rewrite <- (length_seq node_count 0) at 1. apply submseteq_length, NoDup_submseteq;
        [apply NoDup_seq|]. intros v Hv. apply elem_of_seq in Hv. apply Htaken. lia.
  - intros v Hv. pose proof (settled_ok _ _ _ H v Hv) as Hrow. split; [done|].
    intros w d Hw. split.
    + intros Hdep. pose proof (depth_of_range _ _ _ _ Hrow Hdep) as Hrange.
      destruct (settled_sound _ _ _ H _ _ _ Hv Hw Hdep) as [Hp Ht].
      split; [lia|]. split; [split; [done|]|done]. intros d' Hp'.
      destruct (settled_path _ _ _ H Hall d' v w Hv Hp' Ht) as (d2 & Hd2 & Hz).
      rewrite Hdep in Hd2. injection Hd2 as <-. lia.
    + intros (Hz & [Hp Hmin] & Ht).
      destruct (settled_path _ _ _ H Hall _ v w Hv Hp Ht) as (d2 & Hd2 & Hz2).
      pose proof (depth_of_range _ _ _ _ Hrow Hd2) as Hrange.
      destruct (settled_sound _ _ _ H _ _ _ Hv Hw Hd2) as [Hp2 _].
      apply Hmin in Hp2. rewrite Hd2. f_equal. lia.
Qed.
End Shortest.
