(* ===== verification/EvidenceLineage.v ===== *)
(** * Evidence lineage: from a batch of nodes and dependences to their roots

    Models [engine/src/evidence_lineage.c] and
    [engine/include/laplace/evidence_lineage.h]: the identity of an evidence
    node, and the batch routine that checks an ordered batch of node records
    followed by dependence edges, rejects a cyclic batch with the path of the
    cycle, and otherwise returns, for every node, the roots it depends on with
    the length of a shortest path to each, in canonical order and with a
    receipt.

    The graph and its search are in [LineageGraph], the propagation of roots in
    [LineageRoots] and [LineageShortest]; this file adds the records, the checks
    and the outputs, and states what a caller gets.  [SIZE_MAX] as an index is
    [None]; the sizes of the allocated arrays are those of a 64-bit machine, and
    the outcome of [calloc] and [malloc] is an argument. *)
From stdpp Require Import prelude relations strings sorting.
From Stdlib Require Import ZArith Lia.
From S2P Require Import Prelude Bytes Sorting Hash LineageGraph LineageRoots LineageShortest.

(** ** Contract constants ([contracts/evidence-lineage.json]) *)
Abbreviation LAPLACE_EVIDENCE_LINEAGE_VERSION := 1 (only parsing).
Abbreviation LAPLACE_EVIDENCE_RECORD_NODE := 1 (only parsing).
Abbreviation LAPLACE_EVIDENCE_RECORD_DEPENDENCE_EDGE := 2 (only parsing).
Abbreviation LAPLACE_EVIDENCE_KIND_OBSERVED := 1 (only parsing).
Abbreviation LAPLACE_EVIDENCE_KIND_CONTRADICTION := 7 (only parsing).
Abbreviation LAPLACE_EVIDENCE_FLAGS_NONE := 0 (only parsing).
Definition LAPLACE_EVIDENCE_NODE_DOMAIN : list Z := domain_bytes "laplace-evidence-node-v1".
Definition LAPLACE_EVIDENCE_RECEIPT_DOMAIN : list Z :=
  domain_bytes "laplace-evidence-lineage-receipt-v1".

(** ** Data *)
Record laplace_evidence_lineage_error := mk_lineage_error {
  cycle_path : ptr (list (list Z));
  cycle_path_capacity : Z;
  cycle_path_count : Z;
  record_index : Z }.

Record laplace_evidence_lineage_receipt := mk_lineage_receipt {
  receipt_id : list Z;
  input_fingerprint : list Z;
  output_fingerprint : list Z;
  input_record_count : Z;
  receipt_node_count : Z;
  receipt_edge_count : Z;
  root_relation_count : Z;
  version : Z;
  receipt_status : Z }.

Inductive laplace_evidence_lineage_status :=
| LAPLACE_EVIDENCE_LINEAGE_OK
| LAPLACE_EVIDENCE_LINEAGE_INVALID_ARGUMENT
| LAPLACE_EVIDENCE_LINEAGE_RECORD_INVALID
| LAPLACE_EVIDENCE_LINEAGE_ORDER_INVALID
| LAPLACE_EVIDENCE_LINEAGE_IDENTITY_MISMATCH
| LAPLACE_EVIDENCE_LINEAGE_REFERENCE_MISSING
| LAPLACE_EVIDENCE_LINEAGE_CYCLE
| LAPLACE_EVIDENCE_LINEAGE_CAPACITY_INSUFFICIENT
| LAPLACE_EVIDENCE_LINEAGE_RESOURCE_INSUFFICIENT
| LAPLACE_EVIDENCE_LINEAGE_OVERFLOW.

#[export] Instance lineage_status_eq_dec : EqDecision laplace_evidence_lineage_status.
Proof. solve_decision. Defined.

Definition status_code (s : laplace_evidence_lineage_status) : Z :=
  match s with
  | LAPLACE_EVIDENCE_LINEAGE_OK => 0
  | LAPLACE_EVIDENCE_LINEAGE_INVALID_ARGUMENT => 1
  | LAPLACE_EVIDENCE_LINEAGE_RECORD_INVALID => 2
  | LAPLACE_EVIDENCE_LINEAGE_ORDER_INVALID => 3
  | LAPLACE_EVIDENCE_LINEAGE_IDENTITY_MISMATCH => 4
  | LAPLACE_EVIDENCE_LINEAGE_REFERENCE_MISSING => 5
  | LAPLACE_EVIDENCE_LINEAGE_CYCLE => 6
  | LAPLACE_EVIDENCE_LINEAGE_CAPACITY_INSUFFICIENT => 7
  | LAPLACE_EVIDENCE_LINEAGE_RESOURCE_INSUFFICIENT => 8
  | LAPLACE_EVIDENCE_LINEAGE_OVERFLOW => 9
  end.

Definition epistemic_kind_valid (kind : Z) : bool :=
  (LAPLACE_EVIDENCE_KIND_OBSERVED <=? kind) && (kind <=? LAPLACE_EVIDENCE_KIND_CONTRADICTION).

(** ** Identity and fingerprints *)
Section Hashing.
Context {B : Blake3}.

Definition laplace_evidence_node_identify (node : ptr laplace_evidence_lineage_record)
    (node_id : ptr (list Z)) : laplace_evidence_lineage_status * ptr (list Z) :=
  match node with
  | None => (LAPLACE_EVIDENCE_LINEAGE_RECORD_INVALID, node_id)
  | Some node =>
      return_when is_null node_id ||
          negb (record_kind node =? LAPLACE_EVIDENCE_RECORD_NODE) ||
          negb (epistemic_kind_valid (epistemic_kind node)) ||
          (source_ordinal node =? 0) || negb (flags node =? LAPLACE_EVIDENCE_FLAGS_NONE) ||
          negb (reserved node =? 0) || negb (bytes_zero (parent_node_id node))
        with (LAPLACE_EVIDENCE_LINEAGE_RECORD_INVALID, node_id) ;;
      let hasher := blake3_hasher_update blake3_hasher_init LAPLACE_EVIDENCE_NODE_DOMAIN in
      let hasher := blake3_hasher_update hasher (proposition_id node) in
      let hasher := blake3_hasher_update hasher (occurrence_id node) in
      let hasher := blake3_hasher_update hasher (source_id node) in
      let hasher := blake3_hasher_update hasher (context_id node) in
      let hasher := hash_u64 hasher (source_ordinal node) in
      let hasher := hash_u32 hasher (epistemic_kind node) in
      let hasher := hash_u32 hasher (flags node) in
      (LAPLACE_EVIDENCE_LINEAGE_OK, store node_id (blake3_hasher_finalize hasher))
  end.

Definition hash_input_record (hasher : blake3_hasher) (record : laplace_evidence_lineage_record)
    : blake3_hasher :=
  let hasher := blake3_hasher_update hasher (node_id record) in
  let hasher := blake3_hasher_update hasher (proposition_id record) in
  let hasher := blake3_hasher_update hasher (occurrence_id record) in
  let hasher := blake3_hasher_update hasher (source_id record) in
  let hasher := blake3_hasher_update hasher (context_id record) in
  let hasher := blake3_hasher_update hasher (parent_node_id record) in
  let hasher := hash_u64 hasher (source_ordinal record) in
  let hasher := hash_u32 hasher (record_kind record) in
  let hasher := hash_u32 hasher (epistemic_kind record) in
  let hasher := hash_u32 hasher (flags record) in
  hash_u32 hasher (reserved record).

Definition hash_inputs (records : list laplace_evidence_lineage_record) : list Z :=
  let hasher := blake3_hasher_update blake3_hasher_init
                  (domain_bytes "laplace-evidence-lineage-input-v1") in
  let hasher := hash_u64 hasher (Z.of_nat (length records)) in
  blake3_hasher_finalize (foldl hash_input_record hasher records).

Definition hash_output_record (hasher : blake3_hasher) (root : laplace_evidence_root_record)
    : blake3_hasher :=
  let hasher := blake3_hasher_update hasher (relation_node_id root) in
  let hasher := blake3_hasher_update hasher (root_node_id root) in
  let hasher := blake3_hasher_update hasher (relation_proposition_id root) in
  let hasher := hash_u64 hasher (path_depth root) in
  let hasher := hash_u32 hasher (root_epistemic_kind root) in
  hash_u32 hasher (root_flags root).

Definition hash_outputs (roots : list laplace_evidence_root_record) : list Z :=
  let hasher := blake3_hasher_update blake3_hasher_init
                  (domain_bytes "laplace-evidence-lineage-output-v1") in
  let hasher := hash_u64 hasher (Z.of_nat (length roots)) in
  blake3_hasher_finalize (foldl hash_output_record hasher roots).

Definition finish_receipt (receipt : laplace_evidence_lineage_receipt)
    : laplace_evidence_lineage_receipt :=
  let hasher := blake3_hasher_update blake3_hasher_init LAPLACE_EVIDENCE_RECEIPT_DOMAIN in
  let hasher := blake3_hasher_update hasher (input_fingerprint receipt) in
  let hasher := blake3_hasher_update hasher (output_fingerprint receipt) in
  let hasher := hash_u64 hasher (input_record_count receipt) in
  let hasher := hash_u64 hasher (receipt_node_count receipt) in
  let hasher := hash_u64 hasher (receipt_edge_count receipt) in
  let hasher := hash_u64 hasher (root_relation_count receipt) in
  let hasher := hash_u32 hasher (version receipt) in
  let hasher := hash_u32 hasher (receipt_status receipt) in
  mk_lineage_receipt (blake3_hasher_finalize hasher) (input_fingerprint receipt)
    (output_fingerprint receipt) (input_record_count receipt) (receipt_node_count receipt)
    (receipt_edge_count receipt) (root_relation_count receipt) (version receipt)
    (receipt_status receipt).
End Hashing.

(** ** Searching, ordering, sizes *)
Definition digest_before (records : list laplace_evidence_lineage_record) (key : list Z)
    (middle : Z) : bool :=
  match memcmp (node_id (records !!! Z.to_nat middle)) key with Lt => true | _ => false end.

Definition find_node (records : list laplace_evidence_lineage_record) (node_count : nat)
    (key : list Z) : option nat :=
  let low := Z.to_nat (lower_bound node_count (digest_before records key) 0
                         (Z.of_nat node_count)) in
  if (low <? node_count)%nat && bytes_equal (node_id (records !!! low)) key
  then Some low else None.

Definition root_record_compare : laplace_evidence_root_record ->
    laplace_evidence_root_record -> comparison :=
  cmp_then (cmp_on relation_node_id memcmp) (cmp_on root_node_id memcmp).

Definition checked_add_size (total : option Z) (array : Z * Z) : option Z :=
  let '(count, element_size) := array in
  match total with
  | None => None
  | Some total =>
      return_when negb (count =? 0) && (SIZE_MAX / count <? element_size) with None ;;
      return_when SIZE_MAX - count * element_size <? total with None ;;
      Some (total + count * element_size)
  end.

(** The arrays in the order in which the code adds them: [lineage_edge] has 16
    bytes, a root record 96, [size_t] 8. *)
Definition allocation_bytes (node_count edge_count root_capacity : Z) : option Z :=
  foldl checked_add_size (Some 0)
    [(edge_count, 16); (node_count, 8); (u64 (node_count + 1), 8); (node_count, 8);
     (u64 (node_count + 1), 8); (node_count, 8); (edge_count, 8); (node_count, 8);
     (node_count, 1); (node_count, 8); (root_capacity, 8); (root_capacity, 96);
     (node_count, 1); (node_count, 8); (node_count, 8)].

(** ** Errors *)
Definition set_error (index : nat) (error : laplace_evidence_lineage_error)
    : laplace_evidence_lineage_error :=
  mk_lineage_error (cycle_path error) (cycle_path_capacity error) (cycle_path_count error)
    (Z.of_nat index).

(** The count of the path is always reported, the path where it fits. *)
Definition write_cycle_path (path : list (list Z)) (error : laplace_evidence_lineage_error)
    : laplace_evidence_lineage_error :=
  let count := Z.of_nat (length path) in
  mk_lineage_error
    (if negb (is_null (cycle_path error)) && (count <=? cycle_path_capacity error)
     then (fun buffer => path ++ drop (length path) buffer) <$> cycle_path error
     else cycle_path error)
    (cycle_path_capacity error) count (record_index error).

Definition copy_cycle_path (records : list laplace_evidence_lineage_record)
    (stack : list (nat * nat)) (repeated : nat) : laplace_evidence_lineage_error ->
    laplace_evidence_lineage_error :=
  write_cycle_path (map (fun index => node_id (records !!! index)) (repeated_path stack repeated)).

(** ** The checks of the records *)
Section Checks.
Context {B : Blake3}.

Definition check_node (previous : option laplace_evidence_lineage_record)
    (node : laplace_evidence_lineage_record) : laplace_evidence_lineage_status :=
  match laplace_evidence_node_identify (Some node) (Some []) with
  | (LAPLACE_EVIDENCE_LINEAGE_OK, expected) =>
      return_when negb (bytes_equal (default [] expected) (node_id node))
        with LAPLACE_EVIDENCE_LINEAGE_IDENTITY_MISMATCH ;;
      return_when match previous with
                  | Some previous =>
                      match memcmp (node_id previous) (node_id node) with Lt => false | _ => true end
                  | None => false
                  end
        with LAPLACE_EVIDENCE_LINEAGE_ORDER_INVALID ;;
      LAPLACE_EVIDENCE_LINEAGE_OK
  | _ => LAPLACE_EVIDENCE_LINEAGE_RECORD_INVALID
  end.

(** The length of the prefix of node records, or the first one at fault. *)
Fixpoint node_prefix (previous : option laplace_evidence_lineage_record) (node_count : nat)
    (rest : list laplace_evidence_lineage_record)
    : nat + laplace_evidence_lineage_status * nat :=
  match rest with
  | [] => inl node_count
  | node :: rest =>
      if negb (record_kind node =? LAPLACE_EVIDENCE_RECORD_NODE) then inl node_count
      else
        match check_node previous node with
        | LAPLACE_EVIDENCE_LINEAGE_OK => node_prefix (Some node) (S node_count) rest
        | status => inr (status, node_count)
        end
  end.

Definition edge_fields_invalid (edge : laplace_evidence_lineage_record) : bool :=
  negb (record_kind edge =? LAPLACE_EVIDENCE_RECORD_DEPENDENCE_EDGE) ||
  negb (epistemic_kind edge =? 0) || negb (source_ordinal edge =? 0) ||
  negb (flags edge =? 0) || negb (reserved edge =? 0) ||
  negb (bytes_zero (proposition_id edge)) || negb (bytes_zero (occurrence_id edge)) ||
  negb (bytes_zero (source_id edge)) || negb (bytes_zero (context_id edge)).

(** The edge is not after the previous one. *)
Definition edge_order_invalid (previous : option laplace_evidence_lineage_record)
    (edge : laplace_evidence_lineage_record) : bool :=
  match previous with
  | None => false
  | Some previous =>
      match memcmp (node_id previous) (node_id edge) with
      | Gt => true
      | Eq => match memcmp (parent_node_id previous) (parent_node_id edge) with
              | Lt => false
              | _ => true
              end
      | Lt => false
      end
  end.

(** An edge between two different nodes, or the status of the batch and, for an
    edge from a node to itself, the path of the cycle. *)
Definition check_edge (nodes : list laplace_evidence_lineage_record)
    (previous : option laplace_evidence_lineage_record) (edge : laplace_evidence_lineage_record)
    : lineage_edge + laplace_evidence_lineage_status * option (list (list Z)) :=
  let child := find_node nodes (length nodes) (node_id edge) in
  let parent := find_node nodes (length nodes) (parent_node_id edge) in
  if edge_fields_invalid edge then inr (LAPLACE_EVIDENCE_LINEAGE_RECORD_INVALID, None)
  else
    match child, parent with
    | Some child, Some parent =>
        if (child =? parent)%nat
        then inr (LAPLACE_EVIDENCE_LINEAGE_CYCLE, Some [node_id edge; node_id edge])
        else if edge_order_invalid previous edge
        then inr (LAPLACE_EVIDENCE_LINEAGE_ORDER_INVALID, None)
        else inl (mk_edge child parent)
    | _, _ => inr (LAPLACE_EVIDENCE_LINEAGE_REFERENCE_MISSING, None)
    end.

Record compiled := mk_compiled {
  compiled_edges : list lineage_edge;
  child_counts : list nat;
  parent_counts : list nat }.

Fixpoint compile_edges (nodes : list laplace_evidence_lineage_record)
    (previous : option laplace_evidence_lineage_record) (index : nat)
    (rest : list laplace_evidence_lineage_record) (c : compiled)
    : compiled + laplace_evidence_lineage_status *
                 (laplace_evidence_lineage_error -> laplace_evidence_lineage_error) :=
  match rest with
  | [] => inl c
  | edge :: rest =>
      match check_edge nodes previous edge with
      | inr (status, path) =>
          inr (status, fun error =>
            let error := set_error index error in
            match path with Some path => write_cycle_path path error | None => error end)
      | inl e =>
          compile_edges nodes (Some edge) (S index) rest
            (mk_compiled (compiled_edges c ++ [e]) (bump (child e) (child_counts c))
               (bump (parent e) (parent_counts c)))
      end
  end.
End Checks.

(** ** The batch *)
Definition cleared_receipt : laplace_evidence_lineage_receipt :=
  mk_lineage_receipt (zeros 32) (zeros 32) (zeros 32) 0 0 0 0 LAPLACE_EVIDENCE_LINEAGE_VERSION 0.

Definition set_status (status : laplace_evidence_lineage_status)
    (r : laplace_evidence_lineage_receipt) : laplace_evidence_lineage_receipt :=
  mk_lineage_receipt (receipt_id r) (input_fingerprint r) (output_fingerprint r)
    (input_record_count r) (receipt_node_count r) (receipt_edge_count r)
    (root_relation_count r) (version r) (status_code status).

Definition reset_error (error : laplace_evidence_lineage_error) : laplace_evidence_lineage_error :=
  mk_lineage_error (cycle_path error) (cycle_path_capacity error) 0 UINT64_MAX.

(** What the caller finds in its buffers after the call. *)
Record lineage_outputs := mk_outputs {
  out_roots : ptr (list laplace_evidence_root_record);
  out_root_count : ptr Z;
  out_receipt : ptr laplace_evidence_lineage_receipt;
  out_error : ptr laplace_evidence_lineage_error }.

Section Batch.
Context {B : Blake3}.

(** The graph phase: sort of the edges by their ends, search for a cycle,
    propagation of the roots. *)
Definition resolve_roots (nodes : list laplace_evidence_lineage_record) (root_capacity : Z)
    (c : compiled) : option (list laplace_evidence_root_record +
      laplace_evidence_lineage_status *
      (laplace_evidence_lineage_error -> laplace_evidence_lineage_error)) :=
  let node_count := length nodes in
  let child_offsets := offsets 0 (child_counts c) in
  let parent_offsets := offsets 0 (parent_counts c) in
  let children := fill_children (compiled_edges c) parent_offsets node_count in
  match depth_first (compiled_edges c) child_offsets node_count with
  | None => None
  | Some (Repeated stack repeated) =>
      Some (inr (LAPLACE_EVIDENCE_LINEAGE_CYCLE, copy_cycle_path nodes stack repeated))
  | Some (Coloured _) =>
      match traverse (Rel := arrays_relations nodes root_capacity) children parent_offsets
              node_count (mk_arrays [] [] (replicate node_count None)) (child_counts c) with
      | OutOfFuel => None
      | Full => Some (inr (LAPLACE_EVIDENCE_LINEAGE_CAPACITY_INSUFFICIENT, id))
      | Done st =>
          if negb (processed_count st =? node_count)%nat
          then Some (inr (LAPLACE_EVIDENCE_LINEAGE_RECORD_INVALID, id))
          else Some (inl (qsort root_record_compare (temporary_roots (relations st))))
      end
  end.

Definition completed_receipt (records : list laplace_evidence_lineage_record) (node_count : nat)
    (roots : list laplace_evidence_root_record) : laplace_evidence_lineage_receipt :=
  finish_receipt
    (mk_lineage_receipt (zeros 32) (hash_inputs records) (hash_outputs roots)
       (Z.of_nat (length records)) (Z.of_nat node_count)
       (Z.of_nat (length records - node_count)) (Z.of_nat (length roots))
       LAPLACE_EVIDENCE_LINEAGE_VERSION (status_code LAPLACE_EVIDENCE_LINEAGE_OK)).

Definition laplace_evidence_record_lineage_batch
    (records : ptr (list laplace_evidence_lineage_record)) (record_count : Z)
    (memory_limit_bytes : Z) (roots : ptr (list laplace_evidence_root_record))
    (root_capacity : Z) (root_count : ptr Z) (receipt : ptr laplace_evidence_lineage_receipt)
    (error : ptr laplace_evidence_lineage_error) (allocated : bool)
    : option (laplace_evidence_lineage_status * lineage_outputs) :=
  let root_count := store root_count 0 in
  let receipt := store receipt cleared_receipt in
  let error := reset_error <$> error in
  let refuse status error := Some (status, mk_outputs roots root_count receipt error) in
  let cleanup status error :=
    Some (status, mk_outputs roots root_count (set_status status <$> receipt) error) in
  return_when is_null records || (record_count =? 0) || is_null roots ||
      (root_capacity =? 0) || is_null root_count || is_null receipt
    with refuse LAPLACE_EVIDENCE_LINEAGE_INVALID_ARGUMENT error ;;
  let records := cells records record_count in
  match node_prefix None 0 records with
  | inr (status, index) => refuse status (set_error index <$> error)
  | inl node_count =>
      return_when (node_count =? 0)%nat
        with refuse LAPLACE_EVIDENCE_LINEAGE_RECORD_INVALID error ;;
      let nodes := take node_count records in
      let edge_count := (length records - node_count)%nat in
      match allocation_bytes (Z.of_nat node_count) (Z.of_nat edge_count) root_capacity with
      | None => refuse LAPLACE_EVIDENCE_LINEAGE_OVERFLOW error
      | Some bytes =>
          return_when memory_limit_bytes <? bytes
            with refuse LAPLACE_EVIDENCE_LINEAGE_RESOURCE_INSUFFICIENT error ;;
          return_when negb allocated
            with cleanup LAPLACE_EVIDENCE_LINEAGE_RESOURCE_INSUFFICIENT error ;;
          match compile_edges nodes None node_count (drop node_count records)
                  (mk_compiled [] (replicate node_count 0%nat) (replicate node_count 0%nat)) with
          | inr (status, report) => cleanup status (report <$> error)
          | inl c =>
              match resolve_roots nodes root_capacity c with
              | None => None
              | Some (inr (status, report)) => cleanup status (report <$> error)
              | Some (inl sorted) =>
                  Some (LAPLACE_EVIDENCE_LINEAGE_OK,
                    mk_outputs ((fun buffer => sorted ++ drop (length sorted) buffer) <$> roots)
                      (store root_count (Z.of_nat (length sorted)))
                      (store receipt (completed_receipt records node_count sorted)) error)
              end
          end
      end
  end.
End Batch.

(** ** Specification *)
Definition edge_compare : laplace_evidence_lineage_record ->
    laplace_evidence_lineage_record -> comparison :=
  cmp_then (cmp_on node_id memcmp) (cmp_on parent_node_id memcmp).

(** The dependences a list of edge records states between identities. *)
Definition depends_on (edges : list laplace_evidence_lineage_record) (a b : list Z) : Prop :=
  Exists (fun e => node_id e = a /\ parent_node_id e = b) edges.

Definition acyclic (edges : list laplace_evidence_lineage_record) : Prop :=
  forall a, ~ tc (depends_on edges) a a.

Definition node_transcript (node : laplace_evidence_lineage_record) : list Z :=
  LAPLACE_EVIDENCE_NODE_DOMAIN ++ proposition_id node ++ occurrence_id node ++
  source_id node ++ context_id node ++ store_le 8 (source_ordinal node) ++
  store_le 4 (epistemic_kind node) ++ store_le 4 (flags node).

Definition node_ok {B : Blake3} (node : laplace_evidence_lineage_record) : Prop :=
  record_kind node = LAPLACE_EVIDENCE_RECORD_NODE /\
  (LAPLACE_EVIDENCE_KIND_OBSERVED <= epistemic_kind node <= LAPLACE_EVIDENCE_KIND_CONTRADICTION) /\
  source_ordinal node <> 0 /\ flags node = LAPLACE_EVIDENCE_FLAGS_NONE /\ reserved node = 0 /\
  bytes_zero (parent_node_id node) = true /\ node_id node = blake3 (node_transcript node).

Definition edge_ok (nodes : list laplace_evidence_lineage_record)
    (edge : laplace_evidence_lineage_record) : Prop :=
  edge_fields_invalid edge = false /\
  node_id edge ∈ map node_id nodes /\ parent_node_id edge ∈ map node_id nodes.

(** A batch whose records are well formed and in order. *)
Record lineage_law {B : Blake3} (nodes edges : list laplace_evidence_lineage_record) : Prop := {
  law_nonempty : nodes <> [];
  law_nodes : Forall node_ok nodes;
  law_node_order : StronglySorted (fun a b => memcmp (node_id a) (node_id b) = Lt) nodes;
  law_edges : Forall (edge_ok nodes) edges;
  law_edge_order : StronglySorted (fun a b => edge_compare a b = Lt) edges }.

(** The relation of a node to a root it depends on, at the length of a shortest
    path of dependences. *)
Definition root_relation (nodes edges : list laplace_evidence_lineage_record)
    (x : laplace_evidence_root_record) : Prop :=
  exists v w d, v ∈ nodes /\ w ∈ nodes /\
    shortest (depends_on edges) d (node_id v) (node_id w) /\
    (forall b, ~ depends_on edges (node_id w) b) /\
    x = mk_root_record (node_id v) (node_id w) (proposition_id v) (Z.of_nat d)
          (epistemic_kind w) 0.

(** The roots of a batch: all relations, once, in canonical order. *)
Definition lineage_roots (nodes edges : list laplace_evidence_lineage_record)
    (roots : list laplace_evidence_root_record) : Prop :=
  StronglySorted (fun a b => root_record_compare a b = Lt) roots /\
  forall x, x ∈ roots <-> root_relation nodes edges x.

(** The bytes a record and a relation contribute to the fingerprints. *)
Definition record_bytes (r : laplace_evidence_lineage_record) : list Z :=
  node_id r ++ proposition_id r ++ occurrence_id r ++ source_id r ++ context_id r ++
  parent_node_id r ++ store_le 8 (source_ordinal r) ++ store_le 4 (record_kind r) ++
  store_le 4 (epistemic_kind r) ++ store_le 4 (flags r) ++ store_le 4 (reserved r).

Definition root_bytes (x : laplace_evidence_root_record) : list Z :=
  relation_node_id x ++ root_node_id x ++ relation_proposition_id x ++
  store_le 8 (path_depth x) ++ store_le 4 (root_epistemic_kind x) ++ store_le 4 (root_flags x).

Definition receipt_bytes (r : laplace_evidence_lineage_receipt) : list Z :=
  LAPLACE_EVIDENCE_RECEIPT_DOMAIN ++ input_fingerprint r ++ output_fingerprint r ++
  store_le 8 (input_record_count r) ++ store_le 8 (receipt_node_count r) ++
  store_le 8 (receipt_edge_count r) ++ store_le 8 (root_relation_count r) ++
  store_le 4 (version r) ++ store_le 4 (receipt_status r).

(** The receipt of a resolved batch. *)
Record lineage_receipt_of {B : Blake3} (nodes edges : list laplace_evidence_lineage_record)
    (roots : list laplace_evidence_root_record) (r : laplace_evidence_lineage_receipt) : Prop := {
  receipt_of_inputs : input_fingerprint r =
    blake3 (domain_bytes "laplace-evidence-lineage-input-v1" ++ counted record_bytes (nodes ++ edges));
  receipt_of_outputs : output_fingerprint r =
    blake3 (domain_bytes "laplace-evidence-lineage-output-v1" ++ counted root_bytes roots);
  receipt_of_records : input_record_count r = Z.of_nat (length (nodes ++ edges));
  receipt_of_nodes : receipt_node_count r = Z.of_nat (length nodes);
  receipt_of_edges : receipt_edge_count r = Z.of_nat (length edges);
  receipt_of_roots : root_relation_count r = Z.of_nat (length roots);
  receipt_of_version : version r = LAPLACE_EVIDENCE_LINEAGE_VERSION;
  receipt_of_status : receipt_status r = 0;
  receipt_of_id : receipt_id r = blake3 (receipt_bytes r) }.

(** ** Strict orders *)
Lemma cmp_lt_trans {A} (cmp : A -> A -> comparison) `{!CmpLaws cmp} a b c :
  cmp a b = Lt -> cmp b c = Lt -> cmp a c = Lt.
Proof.
  intros Hab Hbc. pose proof (@cmp_le_trans _ cmp _ a b c) as Hle. unfold cmp_le in *.
  destruct (cmp a c) eqn:Hac; [|done|exfalso; apply Hle; congruence].
  exfalso. pose proof (@cmp_le_trans _ cmp _ c a b) as Hcb. unfold cmp_le in Hcb.
  rewrite (cmp_antisym cmp b c), Hbc in Hcb. cbn in Hcb.
  apply Hcb; [|congruence|done]. by rewrite (cmp_antisym cmp a c), Hac.
Qed.

Lemma Sorted_strict {A} (cmp : A -> A -> comparison) `{!CmpLaws cmp} l :
  Sorted (fun a b => cmp a b = Lt) l -> StronglySorted (fun a b => cmp a b = Lt) l.
Proof. apply Sorted_StronglySorted. intros a b c. apply cmp_lt_trans. done. Qed.

#[export] Instance edge_compare_laws : CmpLaws edge_compare.
Proof. unfold edge_compare. apply _. Qed.

(** A strictly sorted list, extended by the element checked against its last. *)
Definition follows {A} (R : A -> A -> Prop) (previous : option A) (l : list A) : Prop :=
  Sorted R (from_option (fun p => [p]) [] previous ++ l).

Lemma follows_cons {A} (R : A -> A -> Prop) previous x l :
  follows R previous (x :: l) <->
  (forall p, previous = Some p -> R p x) /\ follows R (Some x) l.
Proof.
  unfold follows. destruct previous as [p|]; cbn.
  - split.
    + intros H. inversion H as [|? ? Hs Hr]; subst. inversion Hr; subst. naive_solver.
    + intros [Hp Hs]. constructor; [done|]. constructor. by apply Hp.
  - naive_solver.
Qed.

Lemma follows_nil {A} (R : A -> A -> Prop) previous : follows R previous [].
Proof. unfold follows. destruct previous; cbn; repeat constructor. Qed.

(** ** The receipt *)
Section Nodes.
Context {B : Blake3} {L : Blake3Laws B}.

Lemma completed_receipt_spec nodes edges roots :
  lineage_receipt_of nodes edges roots (completed_receipt (nodes ++ edges) (length nodes) roots).
Proof.
  split; unfold completed_receipt, finish_receipt; cbn [input_fingerprint output_fingerprint
    input_record_count receipt_node_count receipt_edge_count root_relation_count version
    receipt_status receipt_id status_code]; try done.
  - unfold hash_inputs, counted. apply absorbs_finalize. rewrite app_assoc.
    apply (absorbs_fold _ record_bytes); [|absorb].
    intros h m r Hm. unfold hash_input_record, record_bytes. absorb.
  - unfold hash_outputs, counted. apply absorbs_finalize. rewrite app_assoc.
    apply (absorbs_fold _ root_bytes); [|absorb].
    intros h m r Hm. unfold hash_output_record, root_bytes. absorb.
  - rewrite length_app. f_equal. lia.
  - apply absorbs_finalize. unfold receipt_bytes. absorb.
Qed.

(** ** The prefix of nodes *)

Lemma check_node_spec previous node : record_kind node = LAPLACE_EVIDENCE_RECORD_NODE ->
  check_node previous node = LAPLACE_EVIDENCE_LINEAGE_OK <->
  node_ok node /\
  (forall p, previous = Some p -> memcmp (node_id p) (node_id node) = Lt).
Proof.
  intros Hk. unfold check_node, laplace_evidence_node_identify. ptrs.
  set (digest := blake3_hasher_finalize _).
  assert (Hd : digest = blake3 (node_transcript node)).
  { apply absorbs_finalize. unfold node_transcript. absorb. }
  unfold node_ok, epistemic_kind_valid in *. rewrite Hk. destruct (_ || _) eqn:Hg.
  - split; [done|]. intros [(_ & Hr & Ho & Hf & Hres & Hz & _) _]. exfalso.
    rewrite Hf, Hres, Hz in Hg. cbn in Hg.
    repeat (apply orb_prop in Hg as [Hg|Hg]); try done.
    + apply negb_true_iff, andb_false_iff in Hg as [Hg|Hg]; apply Z.leb_gt in Hg; lia.
    + by apply Z.eqb_eq in Hg.
  - bools. cbn [store default]. rewrite Hd. destruct (bytes_equal _ _) eqn:He; cbn [negb].
    + apply bytes_equal_spec in He.
      destruct previous as [p|]; [destruct (memcmp (node_id p) (node_id node)) eqn:Hm|];
        (split; [try done|intros [_ Hp]; try done]).
      * specialize (Hp p eq_refl). congruence.
      * intros _. split; [split_and!; auto; lia|]. by intros ? [= <-].
      * specialize (Hp p eq_refl). congruence.
    + apply bytes_equal_false in He. split; [done|]. intros [(_ & _ & _ & _ & _ & _ & Hid) _].
      by destruct He.
Qed.

Definition no_more_nodes (edges : list laplace_evidence_lineage_record) : Prop :=
  match edges with
  | [] => True
  | edge :: _ => record_kind edge <> LAPLACE_EVIDENCE_RECORD_NODE
  end.

#[local] Abbreviation node_lt := (fun a b => memcmp (node_id a) (node_id b) = Lt).

Lemma node_prefix_sound : forall rest previous k m, node_prefix previous k rest = inl m ->
  exists nodes edges, rest = nodes ++ edges /\ m = (k + length nodes)%nat /\
    Forall node_ok nodes /\ follows node_lt previous nodes /\ no_more_nodes edges.
Proof.
  induction rest as [|node rest IH]; intros previous k m H; cbn in H.
  - injection H as <-. exists [], []. split_and!; [done|cbn; lia|constructor|apply follows_nil|done].
  - destruct (Z.eqb_spec (record_kind node) LAPLACE_EVIDENCE_RECORD_NODE) as [Hk|Hk]; cbn [negb] in H.
    + destruct (check_node previous node) eqn:Hc; try done.
      apply check_node_spec in Hc as [Hok Hp]; [|done].
      apply IH in H as (nodes & edges & -> & -> & Hn & Hf & He).
      exists (node :: nodes), edges. split_and!; [done|cbn; lia|by constructor| |done].
      by apply follows_cons.
    + injection H as <-. exists [], (node :: rest).
      split_and!; [done|cbn; lia|constructor|apply follows_nil|done].
Qed.

Lemma node_prefix_complete edges : no_more_nodes edges -> forall nodes previous k,
  Forall node_ok nodes -> follows node_lt previous nodes ->
  node_prefix previous k (nodes ++ edges) = inl (k + length nodes)%nat.
Proof.
  intros He. induction nodes as [|node nodes IH]; intros previous k Hn Hf.
  - cbn. rewrite Nat.add_0_r. destruct edges as [|edge edges]; [done|]. cbn in *.
    by rewrite (proj2 (Z.eqb_neq _ _) He).
  - apply Forall_cons in Hn as [Hok Hn]. apply follows_cons in Hf as [Hp Hf].
    destruct Hok as [Hk Hok]. cbn [app node_prefix]. rewrite (proj2 (Z.eqb_eq _ _) Hk). cbn [negb].
    rewrite (proj2 (check_node_spec previous node Hk)) by (split; [by split|done]).
    rewrite IH by done. f_equal. cbn. lia.
Qed.

Lemma node_prefix_status : forall rest previous k status m,
  node_prefix previous k rest = inr (status, m) -> status <> LAPLACE_EVIDENCE_LINEAGE_OK /\
  status <> LAPLACE_EVIDENCE_LINEAGE_CYCLE.
Proof.
  induction rest as [|node rest IH]; intros previous k status m H; cbn in H; [done|].
  destruct (_ =? _); cbn [negb] in H; [|done].
  destruct (check_node previous node) eqn:Hc; try by injection H as <-.
  - by eapply IH.
  - exfalso. clear -Hc. unfold check_node in Hc.
    destruct (laplace_evidence_node_identify _ _) as [[] ?]; try done.
    destruct (negb _); [done|]. destruct previous; [destruct (memcmp _ _)|]; done.
Qed.
End Nodes.

(** ** The edges between the nodes *)
Section Edges.
Context (nodes : list laplace_evidence_lineage_record).
Hypothesis Hsorted : StronglySorted (fun a b => memcmp (node_id a) (node_id b) = Lt) nodes.
#[local] Abbreviation id v := (node_id (nodes !!! v)).
#[local] Abbreviation count := (length nodes).

Lemma nodes_ordered v w : (v < w < count)%nat -> memcmp (id v) (id w) = Lt.
Proof.
  intros Hvw. destruct (lookup_lt_is_Some_2 nodes v) as [a Ha]; [lia|].
  destruct (lookup_lt_is_Some_2 nodes w) as [b Hb]; [lia|].
  rewrite (list_lookup_total_correct _ _ _ Ha), (list_lookup_total_correct _ _ _ Hb).
  rewrite <- (take_drop (S v) nodes) in Hsorted.
  refine (StronglySorted_app_1_elem_of _ _ _ _ _ Hsorted _ _).
  - apply list_elem_of_lookup. exists v. rewrite lookup_take_lt by lia. done.
  - apply list_elem_of_lookup. exists (w - S v)%nat. rewrite lookup_drop.
    by replace (S v + (w - S v))%nat with w by lia.
Qed.

Lemma nodes_order v w : (v < count)%nat -> (w < count)%nat ->
  memcmp (id v) (id w) = Nat.compare v w.
Proof.
  intros Hv Hw. destruct (Nat.compare_spec v w) as [->|H|H].
  - apply memcmp_refl.
  - by apply nodes_ordered.
  - rewrite memcmp_antisym, nodes_ordered by lia. done.
Qed.

Lemma nodes_injective v w : (v < count)%nat -> (w < count)%nat -> id v = id w -> v = w.
Proof.
  intros Hv Hw Heq. apply Nat.compare_eq. rewrite <- nodes_order, Heq by done. apply memcmp_refl.
Qed.

Lemma elem_of_ids key : key ∈ map node_id nodes <-> exists v, (v < count)%nat /\ id v = key.
Proof.
  rewrite list_elem_of_fmap. split.
  - intros (r & -> & Hr). apply list_elem_of_lookup in Hr as [v Hv]. exists v.
    split; [by eapply lookup_lt_Some|]. by rewrite (list_lookup_total_correct _ _ _ Hv).
  - intros (v & Hv & <-). exists (nodes !!! v). split; [done|]. by apply list_elem_of_lookup_total_2.
Qed.

Lemma find_node_sound key v : find_node nodes count key = Some v -> (v < count)%nat /\ id v = key.
Proof.
  unfold find_node. set (low := Z.to_nat _). destruct (_ && _) eqn:E; [|done]. intros [= <-].
  apply andb_true_iff in E as [Hl He]. apply Nat.ltb_lt in Hl. by apply bytes_equal_spec in He.
Qed.

Lemma find_node_complete v : (v < count)%nat -> find_node nodes count (id v) = Some v.
Proof.
  intros Hv. assert (Hbefore : forall i, 0 <= i < Z.of_nat count ->
    digest_before nodes (id v) i = (i <? Z.of_nat v)).
  { intros i Hi. unfold digest_before. rewrite nodes_order by lia.
    destruct (Nat.compare_spec (Z.to_nat i) v), (Z.ltb_spec i (Z.of_nat v)); try done; lia. }
  unfold find_node.
  destruct (lower_bound_spec (digest_before nodes (id v)) count 0 (Z.of_nat count))
    as (Hr & Hb & Ha); [lia|lia| |].
  { intros i j Hij Hj. rewrite !Hbefore by lia. intros H%Z.ltb_lt. apply Z.ltb_lt. lia. }
  set (r := lower_bound _ _ _ _) in *.
  assert (r = Z.of_nat v) as Heq.
  { destruct (Z.lt_trichotomy r (Z.of_nat v)) as [H|[H|H]]; [|done|].
    - specialize (Ha r). rewrite Hbefore in Ha by lia. apply Z.ltb_ge in Ha; lia.
    - specialize (Hb (Z.of_nat v)). rewrite Hbefore in Hb by lia. apply Z.ltb_lt in Hb; lia. }
  rewrite Heq, Nat2Z.id. rewrite (proj2 (Nat.ltb_lt _ _) Hv). cbn [andb].
  by rewrite (proj2 (bytes_equal_spec _ _) eq_refl).
Qed.

(** An edge record and the edge between indices it is compiled to. *)
Definition resolves (edge : laplace_evidence_lineage_record) (e : lineage_edge) : Prop :=
  (child e < count)%nat /\ (parent e < count)%nat /\ child e <> parent e /\
  id (child e) = node_id edge /\ id (parent e) = parent_node_id edge.

#[local] Abbreviation edge_lt := (fun a b => edge_compare a b = Lt).

Lemma edge_order_spec previous edge : edge_order_invalid previous edge = false <->
  forall p, previous = Some p -> edge_compare p edge = Lt.
Proof.
  unfold edge_order_invalid, edge_compare, cmp_then, cmp_on.
  destruct previous as [p|]; [|by split].
  assert (Hsome : forall P : laplace_evidence_lineage_record -> Prop,
    (forall q, Some p = Some q -> P q) <-> P p) by naive_solver.
  rewrite Hsome. by destruct (memcmp (node_id p) (node_id edge)); [destruct (memcmp _ _)|..].
Qed.

Lemma check_edge_sound previous edge e : check_edge nodes previous edge = inl e ->
  edge_ok nodes edge /\ resolves edge e /\
  forall p, previous = Some p -> edge_compare p edge = Lt.
Proof.
  unfold check_edge. destruct (edge_fields_invalid edge) eqn:Hf; [done|].
  destruct (find_node nodes count (node_id edge)) as [c|] eqn:Hc; [|done].
  destruct (find_node nodes count (parent_node_id edge)) as [p|] eqn:Hp; [|done].
  destruct (Nat.eqb_spec c p); [done|].
  destruct (edge_order_invalid previous edge) eqn:Ho; [done|]. intros [= <-].
  apply find_node_sound in Hc as [Hc Hci], Hp as [Hp Hpi].
  split; [|split; [split_and!; done|by apply edge_order_spec]].
  split; [done|]. rewrite !elem_of_ids. split; [by exists c|by exists p].
Qed.

Lemma check_edge_complete previous edge : edge_ok nodes edge ->
  node_id edge <> parent_node_id edge ->
  (forall p, previous = Some p -> edge_compare p edge = Lt) ->
  exists e, check_edge nodes previous edge = inl e.
Proof.
  intros (Hf & (c & Hc & Hci)%elem_of_ids & (p & Hp & Hpi)%elem_of_ids) Hne Ho%edge_order_spec.
  unfold check_edge. rewrite Hf, <- Hci, <- Hpi, !find_node_complete, Ho by done.
  destruct (Nat.eqb_spec c p); [|by eexists]. subst p. congruence.
Qed.

Lemma check_edge_status previous edge status path :
  check_edge nodes previous edge = inr (status, path) ->
  status <> LAPLACE_EVIDENCE_LINEAGE_OK /\
  (status = LAPLACE_EVIDENCE_LINEAGE_CYCLE ->
     node_id edge = parent_node_id edge /\ path = Some [node_id edge; node_id edge]) /\
  (status <> LAPLACE_EVIDENCE_LINEAGE_CYCLE -> path = None /\
     ~ (edge_ok nodes edge /\ forall p, previous = Some p -> edge_compare p edge = Lt)).
Proof.
  unfold check_edge. destruct (edge_fields_invalid edge) eqn:Hf.
  { intros [= <- <-]. split; [done|]. split; [done|]. intros _. split; [done|].
    intros [[H _] _]. congruence. }
  destruct (find_node nodes count (node_id edge)) as [c|] eqn:Hc;
    [destruct (find_node nodes count (parent_node_id edge)) as [p|] eqn:Hp;
      [destruct (Nat.eqb_spec c p);
        [|destruct (edge_order_invalid previous edge) eqn:Ho; [|done]]|]|]; intros [= <- <-];
    (split; [done|]); (split; [try done|]).
  - intros _. subst p. apply find_node_sound in Hc as [_ Hc], Hp as [_ Hp]. split; congruence.
  - done.
  - intros _. split; [done|]. intros [_ H%edge_order_spec]. congruence.
  - intros _. split; [done|]. intros [(_ & _ & (v & Hv & Hi)%elem_of_ids) _].
    rewrite <- Hi, find_node_complete in Hp by done. done.
  - intros _. split; [done|]. intros [(_ & (v & Hv & Hi)%elem_of_ids & _) _].
    rewrite <- Hi, find_node_complete in Hc by done. done.
Qed.

Lemma compile_edges_sound : forall rest previous index c c',
  compile_edges nodes previous index rest c = inl c' ->
  Forall (edge_ok nodes) rest /\ follows edge_lt previous rest /\
  exists es, Forall2 resolves rest es /\
    c' = mk_compiled (compiled_edges c ++ es)
           (foldl (fun counts e => bump (child e) counts) (child_counts c) es)
           (foldl (fun counts e => bump (parent e) counts) (parent_counts c) es).
Proof.
  induction rest as [|edge rest IH]; intros previous index c c' H; cbn in H.
  - injection H as <-. split; [done|]. split; [apply follows_nil|]. exists [].
    split; [done|]. cbn. rewrite app_nil_r. by destruct c.
  - destruct (check_edge nodes previous edge) as [e|[status path]] eqn:Hc; [|done].
    apply check_edge_sound in Hc as (Hok & Hr & Hp).
    apply IH in H as (Hrest & Hf & es & Hes & ->). split; [by constructor|].
    split; [by apply follows_cons|]. exists (e :: es). split; [by constructor|].
    cbn. by rewrite <- app_assoc.
Qed.

Lemma compile_edges_complete : forall rest previous index c,
  Forall (edge_ok nodes) rest -> Forall (fun e => node_id e <> parent_node_id e) rest ->
  follows edge_lt previous rest -> exists c', compile_edges nodes previous index rest c = inl c'.
Proof.
  induction rest as [|edge rest IH]; intros previous index c Hok Hne Hf; cbn; [by eexists|].
  apply Forall_cons in Hok as [Hok1 Hok], Hne as [Hne1 Hne]. apply follows_cons in Hf as [Hp Hf].
  destruct (check_edge_complete previous edge Hok1 Hne1 Hp) as [e ->]. by apply IH.
Qed.

Lemma compile_edges_status : forall rest previous index c status report,
  compile_edges nodes previous index rest c = inr (status, report) ->
  status <> LAPLACE_EVIDENCE_LINEAGE_OK /\
  (status = LAPLACE_EVIDENCE_LINEAGE_CYCLE ->
     exists edge k, edge ∈ rest /\ node_id edge = parent_node_id edge /\
       report = fun error => write_cycle_path [node_id edge; node_id edge] (set_error k error)) /\
  (status <> LAPLACE_EVIDENCE_LINEAGE_CYCLE ->
     ~ (Forall (edge_ok nodes) rest /\ follows edge_lt previous rest)).
Proof.
  induction rest as [|edge rest IH]; intros previous index c status report H; cbn in H; [done|].
  destruct (check_edge nodes previous edge) as [e|[st path]] eqn:Hc.
  - apply IH in H as (Hne & Hcyc & Hbad). split; [done|]. split.
    + intros Hs. destruct (Hcyc Hs) as (edge' & k & Hin & He & Hr). exists edge', k.
      split; [by right|done].
    + intros Hs [Hall Hf]. apply (Hbad Hs). apply Forall_cons in Hall as [_ Hall].
      by apply follows_cons in Hf as [_ Hf].
  - injection H as <- <-. apply check_edge_status in Hc as (Hne & Hcyc & Hbad). split; [done|]. split.
    + intros Hs. destruct (Hcyc Hs) as [He ->]. exists edge, index. split; [by left|done].
    + intros Hs [Hall Hf]. destruct (Hbad Hs) as [_ Hbad']. apply Hbad'.
      apply Forall_cons in Hall as [Hok _]. by apply follows_cons in Hf as [Hp _].
Qed.

(** *** The compiled graph is the graph of the records *)
Section Graph.
Context (edges : list laplace_evidence_lineage_record) (es : list lineage_edge).
Hypothesis Hes : Forall2 resolves edges es.

Lemma resolved_sorted : StronglySorted edge_lt edges ->
  StronglySorted (fun e f => (child e <= child f)%nat /\ e <> f) es.
Proof.
  pose proof Hes as H. clear Hes. induction H as [|edge e edges' es' He Hrest IH]; [constructor|].
  intros Hs. apply StronglySorted_cons in Hs as [Hall Hs]. apply StronglySorted_cons.
  split; [|by apply IH]. clear IH Hs. induction Hrest as [|edge2 e2 edges2 es2 He2 _ IH]; [done|].
  apply Forall_cons in Hall as [Hlt Hall]. constructor; [|by apply IH].
  destruct He as (Hc & Hp & _ & Hci & Hpi), He2 as (Hc2 & Hp2 & _ & Hci2 & Hpi2).
  unfold edge_compare, cmp_then, cmp_on in Hlt. rewrite <- Hci, <- Hpi, <- Hci2, <- Hpi2 in Hlt.
  rewrite !nodes_order in Hlt by done.
  destruct (Nat.compare_spec (child e) (child e2)); [|by split; [lia|intros ->; lia]|done].
  split; [lia|]. intros ->. by rewrite Nat.compare_refl in Hlt.
Qed.

Lemma resolved_graph : StronglySorted edge_lt edges -> graph_ok count es /\ NoDup es.
Proof.
  intros Hs. pose proof (resolved_sorted Hs) as Hse. split; [split|].
  - apply Forall_lookup. intros k e Hk.
    by destruct (Forall2_lookup_r _ _ _ _ _ Hes Hk) as (edge & _ & Hc & Hp & _).
  - clear -Hse. induction Hse as [|e es' _ IH Hall]; [constructor|].
    apply StronglySorted_cons. split; [|done]. eapply Forall_impl; [exact Hall|]. by intros f [? _].
  - clear -Hse. induction Hse as [|e es' _ IH Hall]; [constructor|].
    apply NoDup_cons. split; [|done]. intros Hin. rewrite Forall_forall in Hall.
    by apply Hall in Hin as [_ ?].
Qed.

Lemma depends_resolved v w : depends es v w -> depends_on edges (id v) (id w).
Proof.
  unfold depends, depends_on. intros Hin. apply list_elem_of_lookup in Hin as [k Hk].
  destruct (Forall2_lookup_r _ _ _ _ _ Hes Hk) as (edge & Hedge & _ & _ & _ & Hc & Hp).
  apply Exists_exists. exists edge. split; [by eapply list_elem_of_lookup_2|done].
Qed.

Lemma resolved_depends a b : depends_on edges a b -> exists v w,
  (v < count)%nat /\ (w < count)%nat /\ id v = a /\ id w = b /\ depends es v w.
Proof.
  intros (edge & Hin & <- & <-)%Exists_exists. apply list_elem_of_lookup in Hin as [k Hk].
  destruct (Forall2_lookup_l _ _ _ _ _ Hes Hk) as (e & He & Hc & Hp & _ & Hci & Hpi).
  exists (child e), (parent e). split_and!; [done..|]. unfold depends.
  apply list_elem_of_lookup. exists k. by destruct e.
Qed.

Lemma nsteps_resolved d v w : nsteps (depends es) d v w ->
  nsteps (depends_on edges) d (id v) (id w).
Proof. apply (nsteps_congruence (fun v => id v)). apply depends_resolved. Qed.

Lemma resolved_nsteps d : forall v b, (v < count)%nat -> nsteps (depends_on edges) d (id v) b ->
  exists w, (w < count)%nat /\ id w = b /\ nsteps (depends es) d v w.
Proof.
  induction d as [|d IH]; intros v b Hv H; inversion H as [|? ? x ? Hx Hs]; subst.
  - exists v. split_and!; [done|done|constructor].
  - apply resolved_depends in Hx as (v' & w & Hv' & Hw & Hi & <- & Hvw).
    apply nodes_injective in Hi as ->; [|done..].
    apply IH in Hs as (u & Hu & Hi & Hn); [|done]. exists u. split_and!; [done..|].
    by apply nsteps_l with w.
Qed.

Lemma shortest_resolved d v w : (v < count)%nat -> (w < count)%nat ->
  shortest (depends es) d v w <-> shortest (depends_on edges) d (id v) (id w).
Proof.
  intros Hv Hw. assert (Hiff : forall n, nsteps (depends es) n v w <->
    nsteps (depends_on edges) n (id v) (id w)).
  { intros n. split; [apply nsteps_resolved|]. intros H.
    apply resolved_nsteps in H as (u & Hu & Hi & Hn); [|done].
    by apply nodes_injective in Hi as ->. }
  unfold shortest. rewrite Hiff. split; intros [H1 H2]; (split; [done|]);
    intros n Hn; apply H2; by apply Hiff.
Qed.

Lemma terminal_resolved v : (v < count)%nat ->
  terminal es v <-> forall b, ~ depends_on edges (id v) b.
Proof.
  intros Hv. split.
  - intros Ht b (v' & w & Hv' & _ & Hi & _ & Hvw)%resolved_depends.
    apply nodes_injective in Hi as ->; [|done..]. by apply (Ht w).
  - intros Ht w Hvw. by apply (Ht (id w)), depends_resolved.
Qed.

Lemma sn_acyclic : (forall v, (v < count)%nat -> sn (depends es) v) -> acyclic edges.
Proof.
  intros Hsn a Ha. assert (Htc : forall a b, tc (depends_on edges) a b -> exists v w,
    (v < count)%nat /\ (w < count)%nat /\ id v = a /\ id w = b /\ tc (depends es) v w).
  { induction 1 as [x y Hxy|x y z Hxy _ (v & w & Hv & Hw & Hvi & Hwi & Hvw)];
      apply resolved_depends in Hxy as (v' & w' & Hv' & Hw' & Hvi' & Hwi' & Hvw').
    - exists v', w'. split_and!; [done..|by apply tc_once].
    - exists v', w. split_and!; [done..|]. apply tc_l with v; [|done].
      replace v with w'; [done|]. apply nodes_injective; [done..|congruence]. }
  apply Htc in Ha as (v & w & Hv & Hw & Hvi & Hwi & Hvw).
  replace w with v in Hvw by (apply nodes_injective; [done..|congruence]).
  by apply (sn_no_cycle _ v (Hsn v Hv)).
Qed.

Lemma walk_map {A C} (R : A -> A -> Prop) (S : C -> C -> Prop) (f : A -> C) l :
  (forall a b, R a b -> S (f a) (f b)) -> walk R l -> walk S (map f l).
Proof.
  intros Hf. induction l as [|a [|b l] IH]; [done|done|]. intros [HR Hw].
  split; [by apply Hf|by apply IH].
Qed.

Lemma closed_walk_resolved path : closed_walk (depends es) path ->
  closed_walk (depends_on edges) (map (fun v => id v) path).
Proof.
  intros (v & between & -> & Hw). exists (id v), (map (fun v => id v) between). split.
  - cbn. by rewrite map_app.
  - by eapply walk_map; [apply depends_resolved|].
Qed.
End Graph.
End Edges.

(** ** The roots *)
#[export] Instance root_record_compare_laws : CmpLaws root_record_compare.
Proof. unfold root_record_compare. apply _. Qed.

Lemma sorted_strict {A} (cmp : A -> A -> comparison) l :
  StronglySorted (cmp_le cmp) l -> NoDup l ->
  (forall a b, a ∈ l -> b ∈ l -> cmp a b = Eq -> a = b) ->
  StronglySorted (fun a b => cmp a b = Lt) l.
Proof.
  induction 1 as [|x l _ IH Hall]; intros Hnd Hsep; [constructor|].
  apply NoDup_cons in Hnd as [Hnin Hnd]. apply StronglySorted_cons. split.
  - apply Forall_forall. intros y Hy. rewrite Forall_forall in Hall. specialize (Hall y Hy).
    unfold cmp_le in Hall. destruct (cmp x y) eqn:E; [|done|done].
    apply Hsep in E as ->; [done|by left|by right].
  - apply IH; [done|]. intros a b Ha Hb. apply Hsep; by right.
Qed.

Lemma NoDup_rows {A} (rows : list (list A)) :
  (forall v row, rows !! v = Some row -> NoDup row) ->
  (forall v w rv rw x, rows !! v = Some rv -> rows !! w = Some rw -> x ∈ rv -> x ∈ rw -> v = w) ->
  NoDup (concat rows).
Proof.
  induction rows as [|row rows IH]; intros Hnd Hdis; cbn; [constructor|].
  apply NoDup_app. split; [by apply (Hnd 0%nat)|]. split.
  - intros x Hx Hin. apply list_elem_of_In, in_concat in Hin as (rw & Hrw & Hxw).
    apply list_elem_of_In in Hrw, Hxw. apply list_elem_of_lookup in Hrw as [w Hw].
    by specialize (Hdis 0%nat (S w) row rw x eq_refl Hw Hx Hxw).
  - apply IH; [intros v; apply (Hnd (S v))|].
    intros v w rv rw x Hv Hw Hx Hxw. by injection (Hdis (S v) (S w) rv rw x Hv Hw Hx Hxw).
Qed.

Section Resolve.
Context (nodes edges : list laplace_evidence_lineage_record) (es : list lineage_edge).
Hypothesis Hsorted : StronglySorted (fun a b => memcmp (node_id a) (node_id b) = Lt) nodes.
Hypothesis Hedges : StronglySorted (fun a b => edge_compare a b = Lt) edges.
Hypothesis Hes : Forall2 (resolves nodes) edges es.
#[local] Abbreviation id v := (node_id (nodes !!! v)).
#[local] Abbreviation count := (length nodes).

(** The rows of the shortest distances list the relations of the batch. *)
Definition rows_complete (rows : list (list laplace_evidence_root_record)) : Prop :=
  length rows = count /\
  forall v, (v < count)%nat ->
    row_ok nodes count v (rows !!! v) /\
    forall w d, (w < count)%nat ->
      depth_of nodes (rows !!! v) w = Some d <->
      0 <= d /\ shortest (depends es) (Z.to_nat d) v w /\ terminal es w.

Lemma rows_elem rows v x : rows_complete rows -> (v < count)%nat ->
  x ∈ rows !!! v <-> exists w d, (w < count)%nat /\ shortest (depends es) d v w /\
    terminal es w /\ x = relation_at nodes v w (Z.of_nat d).
Proof.
  intros [_ Hrows] Hv. destruct (Hrows v Hv) as [Hrow Hdep].
  pose proof (row_elem nodes count (nodes_injective nodes Hsorted)) as Helem. split.
  - intros Hx. pose proof Hrow as [_ Hf]. rewrite Forall_forall in Hf.
    destruct (Hf x Hx) as (w & d & Hw & Hd & ->). apply (Helem _ _ _ _ Hrow Hw) in Hx.
    apply Hdep in Hx as (Hz & Hs & Ht); [|done]. exists w, (Z.to_nat d).
    split_and!; [done..|]. by rewrite Z2Nat.id by lia.
  - intros (w & d & Hw & Hs & Ht & ->). apply (Helem _ _ _ _ Hrow Hw), Hdep; [done|].
    rewrite Nat2Z.id. split_and!; [lia|done|done].
Qed.

Lemma elem_of_nodes r : r ∈ nodes <-> exists v, (v < count)%nat /\ nodes !!! v = r.
Proof.
  rewrite list_elem_of_lookup. split.
  - intros [v Hv]. exists v. split; [by eapply lookup_lt_Some|by apply list_lookup_total_correct].
  - intros (v & Hv & <-). exists v. by apply list_lookup_lookup_total_lt.
Qed.

Lemma rows_relations rows x : rows_complete rows ->
  x ∈ concat rows <-> root_relation nodes edges x.
Proof.
  intros Hrows. pose proof Hrows as [Hlen _].
  assert (Hconcat : x ∈ concat rows <-> exists v, (v < count)%nat /\ x ∈ rows !!! v).
  { rewrite list_elem_of_In, in_concat. split.
    - intros (row & Hr & Hx). apply list_elem_of_In in Hr, Hx.
      apply list_elem_of_lookup in Hr as [v Hv]. exists v. split.
      + apply lookup_lt_Some in Hv. lia.
      + by rewrite (list_lookup_total_correct _ _ _ Hv).
    - intros (v & Hv & Hx). exists (rows !!! v). split; apply list_elem_of_In; [|done].
      apply list_elem_of_lookup_total_2. lia. }
  rewrite Hconcat. split.
  - intros (v & Hv & Hx). apply rows_elem in Hx as (w & d & Hw & Hs & Ht & ->); [|done..].
    exists (nodes !!! v), (nodes !!! w), d. rewrite !elem_of_nodes.
    split_and!; [by exists v|by exists w| | |done].
    + by apply (shortest_resolved nodes Hsorted edges es Hes).
    + by apply (terminal_resolved nodes Hsorted edges es Hes).
  - intros (rv & rw & d & (v & Hv & <-)%elem_of_nodes & (w & Hw & <-)%elem_of_nodes & Hs & Ht & ->).
    exists v. split; [done|]. apply rows_elem; [done..|]. exists w, d. split_and!; [done| | |done].
    + by apply (shortest_resolved nodes Hsorted edges es Hes).
    + by apply (terminal_resolved nodes Hsorted edges es Hes).
Qed.

Lemma rows_nodup rows : rows_complete rows -> NoDup (concat rows).
Proof.
  intros Hrows. pose proof Hrows as [Hlen Hall]. apply NoDup_rows.
  - intros v row Hv. pose proof (lookup_lt_Some _ _ _ Hv) as Hlt. rewrite Hlen in Hlt.
    destruct (Hall v Hlt) as [[Hnd _] _]. rewrite (list_lookup_total_correct _ _ _ Hv) in Hnd.
    by apply (NoDup_fmap_1 root_node_id).
  - intros v w rv rw x Hv Hw Hx Hxw.
    pose proof (lookup_lt_Some _ _ _ Hv) as Hvl. pose proof (lookup_lt_Some _ _ _ Hw) as Hwl.
    rewrite Hlen in Hvl, Hwl.
    rewrite <- (list_lookup_total_correct _ _ _ Hv) in Hx.
    rewrite <- (list_lookup_total_correct _ _ _ Hw) in Hxw.
    apply rows_elem in Hx as (u & d & _ & _ & _ & Hx), Hxw as (u' & d' & _ & _ & _ & Hxw); [|done..].
    apply (nodes_injective nodes Hsorted); [done..|].
    rewrite Hx in Hxw. by apply (f_equal relation_node_id) in Hxw.
Qed.

(** A relation is determined by its two ends. *)
Lemma root_relation_unique x y : root_relation nodes edges x -> root_relation nodes edges y ->
  root_record_compare x y = Eq -> x = y.
Proof.
  intros (v & w & d & Hv & Hw & [Hs Hmin] & _ & ->) (v' & w' & d' & Hv' & Hw' & [Hs' Hmin'] & _ & ->).
  unfold root_record_compare, cmp_then, cmp_on. cbn.
  destruct (memcmp (node_id v) (node_id v')) eqn:E; [|done|done]. intros E'.
  apply memcmp_eq in E, E'. apply elem_of_nodes in Hv as (i & Hi & <-), Hv' as (i' & Hi' & <-),
    Hw as (j & Hj & <-), Hw' as (j' & Hj' & <-).
  apply (nodes_injective nodes Hsorted) in E as ->, E' as ->; [|done..].
  assert (d = d') as -> by (apply Nat.le_antisymm; auto). done.
Qed.

Lemma sorted_relations rows l : rows_complete rows -> l ≡ₚ concat rows ->
  lineage_roots nodes edges (qsort root_record_compare l).
Proof.
  intros Hrows Hl. assert (Helem : forall x, x ∈ qsort root_record_compare l <->
    root_relation nodes edges x).
  { intros x. rewrite qsort_perm, Hl. by apply rows_relations. }
  split; [|done]. apply sorted_strict.
  - apply qsort_sorted. apply _.
  - rewrite qsort_perm, Hl. by apply rows_nodup.
  - intros a b Ha%Helem Hb%Helem. by apply root_relation_unique.
Qed.

(** The outcome of the graph phase on a well-formed batch. *)
Lemma resolve_roots_spec root_capacity :
  Z.of_nat count <= UINT64_MAX -> 0 <= root_capacity ->
  match resolve_roots nodes root_capacity
          (mk_compiled es (degrees child count es) (degrees parent count es)) with
  | Some (inl roots) =>
      acyclic edges /\ lineage_roots nodes edges roots /\
      Z.of_nat (length roots) <= root_capacity
  | Some (inr (status, report)) =>
      status = LAPLACE_EVIDENCE_LINEAGE_CYCLE /\
      (exists path, closed_walk (depends_on edges) path /\ report = write_cycle_path path) \/
      status = LAPLACE_EVIDENCE_LINEAGE_CAPACITY_INSUFFICIENT /\ report = Datatypes.id /\
      acyclic edges /\
      exists roots, lineage_roots nodes edges roots /\ root_capacity < Z.of_nat (length roots)
  | None => False
  end.
Proof.
  intros Hcount Hcap. destruct (resolved_graph nodes Hsorted edges es Hes Hedges) as [Hgraph Hnodup].
  unfold resolve_roots. cbn [compiled_edges child_counts parent_counts].
  pose proof (depth_first_spec count es Hgraph) as Hdfs.
  destruct (depth_first es _ count) as [[colors|stack repeated]|]; [|left|done].
  2: { split; [done|]. destruct Hdfs as [Hw _].
       eexists. split; [by eapply closed_walk_resolved|done]. }
  pose proof (sn_acyclic nodes Hsorted edges es Hes Hdfs) as Hacyclic.
  destruct (traverse_table nodes count es (nodes_injective nodes Hsorted) Hcount Hgraph Hnodup Hdfs)
    as (sa & Hsa & Hpc & Hlen & Hrows).
  pose proof (arrays_refine nodes root_capacity _ _ count
    (children_in_range count es Hgraph Hdfs) (degrees child count es)
    (mk_arrays [] [] (replicate count None)) eq_refl) as Hsim.
  rewrite Hsa in Hsim. unfold simulates in Hsim.
  destruct (traverse (Rel := arrays_relations nodes root_capacity) _ _ _ _ _)
    as [st| |] eqn:Hst; [| |done].
  - assert (Hempty : fits root_capacity (mk_arrays [] [] (replicate count None))) by exact Hcap.
    pose proof (traverse_fits nodes root_capacity _ _ _ _ _ _ Hempty Hst) as Hfits.
    destruct Hsim as [[cells Hrep] _ _ _ _ Hcountst _].
    rewrite Hcountst, Hpc, Nat.eqb_refl. cbn [negb]. split; [done|]. split.
    + apply (sorted_relations (relations sa)); [by split|]. by eapply represents_permutation.
    + unfold fits, produced in Hfits. by rewrite length_qsort.
  - right. split_and!; [done..|]. exists (qsort root_record_compare (concat (relations sa))).
    split; [by apply (sorted_relations (relations sa))|].
    rewrite length_qsort, <- total_concat. done.
Qed.
End Resolve.

(** ** Memory *)
Definition bytes_of (arrays : list (Z * Z)) : Z := sum_of (fun a => a.1 * a.2) arrays.

Lemma checked_add_size_exact total count size :
  0 <= total <= SIZE_MAX -> 0 <= count -> 0 < size ->
  checked_add_size (Some total) (count, size) =
  if total + count * size <=? SIZE_MAX then Some (total + count * size) else None.
Proof.
  intros Ht Hc Hs. unfold checked_add_size.
  destruct (Z.leb_spec (total + count * size) SIZE_MAX) as [Hle|Hgt].
  - destruct (Z.eqb_spec count 0) as [->|Hn]; cbn [negb andb].
    + rewrite (proj2 (Z.ltb_ge _ _)) by lia. done.
    + rewrite (proj2 (Z.ltb_ge _ _)) by (apply Z.div_le_lower_bound; lia).
      rewrite (proj2 (Z.ltb_ge _ _)) by lia. done.
  - destruct (Z.eqb_spec count 0) as [->|Hn]; [lia|]. cbn [negb andb].
    destruct (Z.ltb_spec (SIZE_MAX / count) size); [done|].
    by rewrite (proj2 (Z.ltb_lt _ _)) by lia.
Qed.

Lemma checked_add_sizes arrays : Forall (fun a => 0 <= a.1 /\ 0 < a.2) arrays ->
  forall total, 0 <= total <= SIZE_MAX ->
  foldl checked_add_size (Some total) arrays =
  if total + bytes_of arrays <=? SIZE_MAX then Some (total + bytes_of arrays) else None.
Proof.
  unfold bytes_of. induction 1 as [|[count size] arrays [Hc Hs] Hall IH]; intros total Ht; cbn [foldl].
  - cbn. rewrite Z.add_0_r. by rewrite (proj2 (Z.leb_le _ _)) by lia.
  - cbn [fst snd] in *. rewrite checked_add_size_exact by done. cbn [sum_of foldr fst snd].
    assert (Hrest : 0 <= sum_of (fun a => a.1 * a.2) arrays).
    { apply sum_of_nonneg. eapply Forall_impl; [exact Hall|]. cbn. intros a. nia. }
    unfold sum_of in *. destruct (Z.leb_spec (total + count * size) SIZE_MAX).
    + rewrite IH by nia. by rewrite Z.add_assoc.
    + assert (Hnone : forall l, foldl checked_add_size None l = None)
        by (induction l as [|[] l IHl]; [done|exact IHl]).
      rewrite Hnone. by rewrite (proj2 (Z.leb_gt _ _)) by lia.
Qed.

(** The memory a batch needs, when its counts are far from wrapping. *)
Definition lineage_bytes (node_count edge_count root_capacity : Z) : Z :=
  74 * node_count + 24 * edge_count + 104 * root_capacity + 16.

Lemma allocation_bytes_exact n e c : 0 <= n < UINT64_MAX -> 0 <= e -> 0 <= c ->
  allocation_bytes n e c =
  if lineage_bytes n e c <=? SIZE_MAX then Some (lineage_bytes n e c) else None.
Proof.
  intros Hn He Hc. unfold allocation_bytes. rewrite u64_small by lia.
  rewrite checked_add_sizes; [|repeat (constructor; [cbn; lia|]); constructor|lia].
  unfold bytes_of, lineage_bytes. cbn [sum_of foldr fst snd].
  match goal with |- (if ?a <=? _ then _ else _) = _ =>
    replace a with (74 * n + 24 * e + 104 * c + 16) by lia end. done.
Qed.

Lemma allocation_bytes_count n e c bytes : 0 <= n -> 0 <= e -> 0 <= c ->
  allocation_bytes n e c = Some bytes -> n < UINT64_MAX.
Proof.
  intros Hn He Hc. unfold allocation_bytes. pose proof (u64_range (n + 1)) as Hu.
  rewrite checked_add_sizes; [|repeat (constructor; [cbn; lia|]); constructor|lia].
  unfold bytes_of. cbn [sum_of foldr fst snd].
  match goal with |- context [?a <=? ?m] => destruct (Z.leb_spec a m); [lia|done] end.
Qed.

(** ** The batch *)
Section Batch_theorems.
Context {B : Blake3} {L : Blake3Laws B}.

#[local] Abbreviation first_counts n := (mk_compiled [] (replicate n 0%nat) (replicate n 0%nat)).
#[local] Abbreviation node_lt := (fun a b => memcmp (node_id a) (node_id b) = Lt).

(** What the two checking phases establish. *)
Lemma nodes_checked records n : node_prefix None 0 records = inl n ->
  let nodes := take n records in
  records = nodes ++ drop n records /\ length nodes = n /\ Forall node_ok nodes /\
  StronglySorted node_lt nodes /\ (length records - n = length (drop n records))%nat.
Proof.
  intros H. apply node_prefix_sound in H as (nodes & edges & -> & -> & Hn & Hf & _). cbn zeta.
  cbn [Nat.add]. rewrite take_app_length, drop_app_length, length_app.
  split_and!; [done..| |lia]. by apply (Sorted_strict (cmp_on node_id memcmp)).
Qed.

Lemma edges_checked nodes edges n k c : length nodes = n ->
  compile_edges nodes None k edges (first_counts n) = inl c ->
  Forall (edge_ok nodes) edges /\ StronglySorted (fun a b => edge_compare a b = Lt) edges /\
  exists es, Forall2 (resolves nodes) edges es /\
    c = mk_compiled es (degrees child (length nodes) es) (degrees parent (length nodes) es).
Proof.
  intros <- H. apply compile_edges_sound in H as (Hok & Hf & es & Hes & ->).
  split; [done|]. split; [by apply (Sorted_strict edge_compare)|]. by exists es.
Qed.

Lemma lawful_prefix nodes edges : lineage_law nodes edges ->
  node_prefix None 0 (nodes ++ edges) = inl (length nodes).
Proof.
  intros [_ Hn Ho He _]. apply node_prefix_complete; [|done|].
  - destruct edges as [|edge edges]; [done|]. apply Forall_cons in He as [[Hf _] _].
    unfold edge_fields_invalid in Hf. bools. cbn. congruence.
  - by apply StronglySorted_Sorted.
Qed.

(** The bounds of the counts of a batch that fits in memory. *)
Lemma resolved records n c root_capacity bytes : is_u64 root_capacity ->
  node_prefix None 0 records = inl n ->
  allocation_bytes (Z.of_nat n) (Z.of_nat (length records - n)) root_capacity = Some bytes ->
  compile_edges (take n records) None n (drop n records) (first_counts n) = inl c ->
  let nodes := take n records in let edges := drop n records in
  Forall (edge_ok nodes) edges /\ StronglySorted (fun a b => edge_compare a b = Lt) edges /\
  match resolve_roots nodes root_capacity c with
  | Some (inl roots) =>
      acyclic edges /\ lineage_roots nodes edges roots /\
      Z.of_nat (length roots) <= root_capacity
  | Some (inr (status, report)) =>
      status = LAPLACE_EVIDENCE_LINEAGE_CYCLE /\
      (exists path, closed_walk (depends_on edges) path /\ report = write_cycle_path path) \/
      status = LAPLACE_EVIDENCE_LINEAGE_CAPACITY_INSUFFICIENT /\ report = Datatypes.id /\
      acyclic edges /\
      exists roots, lineage_roots nodes edges roots /\ root_capacity < Z.of_nat (length roots)
  | None => False
  end.
Proof.
  intros Hcap Hn Hb Hc. destruct (nodes_checked records n Hn) as (Hrec & Hlen & _ & Hs & _).
  cbn zeta. apply allocation_bytes_count in Hb; [|lia..].
  apply edges_checked in Hc as (Hok & Hse & es & Hes & ->); [|done].
  split; [done|]. split; [done|]. by apply resolve_roots_spec; [..|lia|lia].
Qed.

(** A call with every required pointer. *)
Section Call.
Context (records : list laplace_evidence_lineage_record) (limit root_capacity : Z).
Context (old_roots : list laplace_evidence_root_record) (old_count : Z).
Context (old_receipt : laplace_evidence_lineage_receipt).
Context (error : ptr laplace_evidence_lineage_error) (allocated : bool).
Hypothesis Hcapacity : 0 < root_capacity <= SIZE_MAX.

#[local] Abbreviation run := (laplace_evidence_record_lineage_batch (Some records)
  (Z.of_nat (length records)) limit (Some old_roots) root_capacity (Some old_count)
  (Some old_receipt) error allocated).

Lemma lawful_run nodes edges : records = nodes ++ edges -> lineage_law nodes edges ->
  lineage_bytes (Z.of_nat (length nodes)) (Z.of_nat (length edges)) root_capacity <= limit ->
  limit <= SIZE_MAX -> allocated = true ->
  let failed status report := Some (status,
    mk_outputs (Some old_roots) (Some 0) (Some (set_status status cleared_receipt))
      (report <$> (reset_error <$> error))) in
  (exists path report, run = failed LAPLACE_EVIDENCE_LINEAGE_CYCLE report /\
     closed_walk (depends_on edges) path) \/
  acyclic edges /\ exists roots r, lineage_roots nodes edges roots /\
    lineage_receipt_of nodes edges roots r /\
    run = if root_capacity <? Z.of_nat (length roots)
          then failed LAPLACE_EVIDENCE_LINEAGE_CAPACITY_INSUFFICIENT Datatypes.id
          else Some (LAPLACE_EVIDENCE_LINEAGE_OK,
            mk_outputs (Some (roots ++ drop (length roots) old_roots))
              (Some (Z.of_nat (length roots)))
              (Some r) (reset_error <$> error)).
Proof.
  intros Hrec Hlaw Hbytes Hlimit -> failed. pose proof (lawful_prefix _ _ Hlaw) as Hprefix.
  rewrite <- Hrec in Hprefix. destruct Hlaw as [Hne _ Ho He Heo].
  assert (Hn : (0 < length nodes)%nat) by (destruct nodes; [done|cbn; lia]).
  assert (Hlen : length records = (length nodes + length edges)%nat)
    by (by rewrite Hrec, length_app).
  assert (Htake : take (length nodes) records = nodes) by (rewrite Hrec; apply take_app_length).
  assert (Hdrop : drop (length nodes) records = edges) by (rewrite Hrec; apply drop_app_length).
  assert (Hsize : (length records - length nodes)%nat = length edges) by lia.
  unfold laplace_evidence_record_lineage_batch. cbn [store]. ptrs.
  rewrite (proj2 (Z.eqb_neq _ _)) by lia. rewrite (proj2 (Z.eqb_neq root_capacity 0)) by lia.
  cbn [orb]. rewrite cells_all, Hprefix by done.
  rewrite (proj2 (Nat.eqb_neq _ _)) by lia.
  assert (Hsum : allocation_bytes (Z.of_nat (length nodes)) (Z.of_nat (length edges)) root_capacity =
    Some (lineage_bytes (Z.of_nat (length nodes)) (Z.of_nat (length edges)) root_capacity)).
  { assert (Hnn : 0 <= lineage_bytes (Z.of_nat (length nodes)) (Z.of_nat (length edges)) root_capacity)
      by (unfold lineage_bytes; lia).
    rewrite allocation_bytes_exact; [|unfold lineage_bytes in *; lia|lia|lia].
    by rewrite (proj2 (Z.leb_le _ _)) by lia. }
  rewrite Hsize, Hsum. rewrite (proj2 (Z.ltb_ge _ _)) by done. cbn [negb].
  pose proof (fun c bytes => resolved records (length nodes) c root_capacity bytes
    ltac:(lia) Hprefix) as Hres.
  rewrite Hsize, Htake, Hdrop in Hres. rewrite Htake, Hdrop.
  destruct (compile_edges nodes None (length nodes) edges _) as [c|[status report]] eqn:Hc.
  - destruct (Hres c _ Hsum eq_refl) as (_ & _ & Hr). clear Hres.
    destruct (resolve_roots nodes root_capacity c) as [[roots|[status report]]|]; [|..|done].
    + destruct Hr as (Hac & Hroots & Hfit). right. split; [done|].
      exists roots, (completed_receipt records (length nodes) roots). split; [done|].
      split; [rewrite Hrec; apply completed_receipt_spec|].
      by rewrite (proj2 (Z.ltb_ge _ _)) by done.
    + destruct Hr as [(-> & path & Hw & Hrep)|(-> & -> & Hac & roots & Hroots & Hfit)].
      * left. exists path, report. done.
      * right. split; [done|].
        exists roots, (completed_receipt records (length nodes) roots). split; [done|].
        split; [rewrite Hrec; apply completed_receipt_spec|].
        by rewrite (proj2 (Z.ltb_lt _ _)) by done.
  - left. apply compile_edges_status in Hc as (_ & Hcyc & Hbad); [|done].
    destruct (decide (status = LAPLACE_EVIDENCE_LINEAGE_CYCLE)) as [->|Hs].
    + destruct (Hcyc eq_refl) as (edge & k & Hin & Heq & Hrep).
      exists [node_id edge; node_id edge], report. split; [done|].
      exists (node_id edge), []. split; [done|]. cbn. split; [|done].
      apply Exists_exists. by exists edge.
    + exfalso. apply (Hbad Hs). split; [done|]. unfold follows. cbn.
      by apply StronglySorted_Sorted.
Qed.

(** A run that succeeds went through every phase. *)
Lemma ok_phases outputs : run = Some (LAPLACE_EVIDENCE_LINEAGE_OK, outputs) ->
  exists n c roots bytes, node_prefix None 0 records = inl n /\ n <> 0%nat /\
    allocation_bytes (Z.of_nat n) (Z.of_nat (length records - n)) root_capacity = Some bytes /\
    compile_edges (take n records) None n (drop n records)
      (mk_compiled [] (replicate n 0%nat) (replicate n 0%nat)) = inl c /\
    resolve_roots (take n records) root_capacity c = Some (inl roots).
Proof.
  unfold laplace_evidence_record_lineage_batch. destruct (_ || _); [done|].
  rewrite cells_all by done.
  destruct (node_prefix None 0 records) as [n|[status index]] eqn:Hn.
  2: { intros [= -> _]. by apply node_prefix_status in Hn as [? _]. }
  destruct (Nat.eqb_spec n 0); [done|].
  destruct (allocation_bytes _ _ _) as [bytes|] eqn:Hb; [|done].
  destruct (limit <? bytes); [done|]. destruct (negb allocated); [done|].
  destruct (compile_edges _ _ _ _ _) as [c|[status report]] eqn:Hc.
  2: { intros [= -> _]. apply compile_edges_status in Hc as [? _]; [done|].
       by apply nodes_checked in Hn as (_ & _ & _ & ? & _). }
  pose proof (resolved records n c root_capacity bytes ltac:(lia) Hn Hb Hc) as (_ & _ & Hres).
  destruct (resolve_roots _ _ _) as [[sorted|[status report]]|] eqn:Hr; [|..|done].
  - intros _. by exists n, c, sorted, bytes.
  - destruct Hres as [(-> & _)|(-> & _)]; done.
Qed.

(** C10: A well-formed batch without a cycle whose arrays fit the memory limit
    always has one list of relations, in canonical order, in which every node
    appears with every root it depends on, at the length of a shortest path of
    dependences; the batch returns exactly that list, its count and its receipt,
    or reports insufficient capacity and leaves the output alone when the list
    is longer than the output.  Conversely a batch that succeeds was well formed
    and had no cycle. *)
Theorem lineage_batch_exact :
  (forall nodes edges, records = nodes ++ edges -> lineage_law nodes edges -> acyclic edges ->
     lineage_bytes (Z.of_nat (length nodes)) (Z.of_nat (length edges)) root_capacity <= limit ->
     limit <= SIZE_MAX -> allocated = true ->
     exists roots r, lineage_roots nodes edges roots /\ lineage_receipt_of nodes edges roots r /\
     run = if root_capacity <? Z.of_nat (length roots)
           then Some (LAPLACE_EVIDENCE_LINEAGE_CAPACITY_INSUFFICIENT,
             mk_outputs (Some old_roots) (Some 0)
               (Some (set_status LAPLACE_EVIDENCE_LINEAGE_CAPACITY_INSUFFICIENT cleared_receipt))
               (reset_error <$> error))
           else Some (LAPLACE_EVIDENCE_LINEAGE_OK,
             mk_outputs (Some (roots ++ drop (length roots) old_roots))
               (Some (Z.of_nat (length roots)))
               (Some r) (reset_error <$> error))) /\
  (forall outputs, run = Some (LAPLACE_EVIDENCE_LINEAGE_OK, outputs) ->
     exists nodes edges, records = nodes ++ edges /\ lineage_law nodes edges /\ acyclic edges).
Proof.
  split.
  - intros nodes edges Hrec Hlaw Hac Hb Hl Ha.
    destruct (lawful_run nodes edges Hrec Hlaw Hb Hl Ha)
      as [(path & report & _ & Hw)|(_ & roots & r & Hroots & Hr & Hrun)].
    + destruct (closed_walk_cycle _ _ Hw) as (v & _ & Hv). by destruct (Hac v).
    + exists roots, r. split; [done|]. split; [done|]. rewrite Hrun. by destruct error.
  - intros outputs Hrun. apply ok_phases in Hrun as (n & c & roots & bytes & Hn & Hn0 & Hb & Hc & Hr).
    exists (take n records), (drop n records).
    destruct (nodes_checked records n Hn) as (Hrec & Hlen & Hnodes & Hs & _).
    pose proof (resolved records n c root_capacity bytes ltac:(lia) Hn Hb Hc) as (Hok & Hse & Hres).
    rewrite Hr in Hres. destruct Hres as (Hac & _ & _).
    split; [done|]. split; [|done]. split; [|done..]. intros Hnil. rewrite Hnil in Hlen. by subst n.
Qed.

(** A run that reports a cycle found one among the edges of the batch. *)
Lemma cycle_phases outputs : run = Some (LAPLACE_EVIDENCE_LINEAGE_CYCLE, outputs) ->
  exists nodes edges path index, records = nodes ++ edges /\
    closed_walk (depends_on edges) path /\
    out_error outputs =
      (fun e => write_cycle_path path
         (mk_lineage_error (cycle_path e) (cycle_path_capacity e) 0 index)) <$> error.
Proof.
  unfold laplace_evidence_record_lineage_batch. destruct (_ || _); [done|].
  rewrite cells_all by done.
  destruct (node_prefix None 0 records) as [n|[status index]] eqn:Hn.
  2: { intros [= -> _]. by apply node_prefix_status in Hn as [_ ?]. }
  destruct (Nat.eqb_spec n 0); [done|].
  destruct (allocation_bytes _ _ _) as [bytes|] eqn:Hb; [|done].
  destruct (limit <? bytes); [done|]. destruct (negb allocated); [done|].
  pose proof (nodes_checked records n Hn) as (Hrec & _ & _ & Hs & _).
  destruct (compile_edges _ _ _ _ _) as [c|[status report]] eqn:Hc.
  - pose proof (resolved records n c root_capacity bytes ltac:(lia) Hn Hb Hc) as (_ & _ & Hres).
    destruct (resolve_roots _ _ _) as [[sorted|[status report]]|] eqn:Hr; [done|..|done].
    intros [= -> <-]. destruct Hres as [(_ & path & Hw & ->)|(? & _)]; [|done].
    exists (take n records), (drop n records), path, UINT64_MAX. split_and!; [done..|].
    cbn. by destruct error.
  - intros [= -> <-]. apply compile_edges_status in Hc as (_ & Hcyc & _); [|done].
    destruct (Hcyc eq_refl) as (edge & k & Hin & Heq & ->).
    exists (take n records), (drop n records), [node_id edge; node_id edge], (Z.of_nat k).
    split; [done|]. split; [|cbn; by destruct error].
    exists (node_id edge), []. split; [done|]. cbn. split; [|done].
    apply Exists_exists. by exists edge.
Qed.

(** C15: When a cycle is reported, the path written to the caller is a closed walk
    along the dependences of the batch, its length is reported, and it is stored
    exactly when the caller's buffer has room; and every well-formed batch with a
    cycle that fits in memory is rejected with that status. *)
Theorem lineage_cycle_reported :
  (forall outputs e, error = Some e -> run = Some (LAPLACE_EVIDENCE_LINEAGE_CYCLE, outputs) ->
     exists nodes edges path e', records = nodes ++ edges /\
       closed_walk (depends_on edges) path /\ out_error outputs = Some e' /\
       cycle_path_count e' = Z.of_nat (length path) /\
       forall buffer, cycle_path e = Some buffer ->
         cycle_path e' = Some (if Z.of_nat (length path) <=? cycle_path_capacity e
                               then path ++ drop (length path) buffer else buffer)) /\
  (forall nodes edges, records = nodes ++ edges -> lineage_law nodes edges ->
     lineage_bytes (Z.of_nat (length nodes)) (Z.of_nat (length edges)) root_capacity <= limit ->
     limit <= SIZE_MAX -> allocated = true -> ~ acyclic edges ->
     exists outputs, run = Some (LAPLACE_EVIDENCE_LINEAGE_CYCLE, outputs)).
Proof.
  split.
  - intros outputs e He Hrun.
    apply cycle_phases in Hrun as (nodes & edges & path & index & Hrec & Hw & Hout).
    rewrite He in Hout. cbn [fmap option_fmap option_map] in Hout.
    exists nodes, edges, path. eexists. split_and!; [done|done|exact Hout|done|].
    intros buffer Hbuf. cbn. rewrite Hbuf. cbn. by destruct (_ <=? _).
  - intros nodes edges Hrec Hlaw Hb Hl Ha Hcyc.
    destruct (lawful_run nodes edges Hrec Hlaw Hb Hl Ha)
      as [(path & report & Hrun & _)|(Hac & _)]; [|done].
    by eexists.
Qed.
End Call.

(** C16: The batch routine returns for every input, malformed or not: the search
    needs one round per node and per edge, the propagation one per node, the
    walks of the chains one per relation.  When it does not succeed the output
    records are untouched, their count is zero and the receipt holds nothing but
    its version and at most the status. *)
Theorem lineage_batch_terminates records record_count limit roots root_capacity root_count receipt
    error allocated : is_u64 root_capacity ->
  exists status outputs,
    laplace_evidence_record_lineage_batch records record_count limit roots root_capacity root_count
      receipt error allocated = Some (status, outputs) /\
    (status <> LAPLACE_EVIDENCE_LINEAGE_OK ->
       out_roots outputs = roots /\ out_root_count outputs = store root_count 0 /\
       (out_receipt outputs = store receipt cleared_receipt \/
        out_receipt outputs = set_status status <$> store receipt cleared_receipt)).
Proof.
  intros Hcap. unfold laplace_evidence_record_lineage_batch.
  assert (Hrefuse : forall status e, exists status' outputs,
    Some (status, mk_outputs roots (store root_count 0) (store receipt cleared_receipt) e) =
      Some (status', outputs) /\
    (status' <> LAPLACE_EVIDENCE_LINEAGE_OK ->
       out_roots outputs = roots /\ out_root_count outputs = store root_count 0 /\
       (out_receipt outputs = store receipt cleared_receipt \/
        out_receipt outputs = set_status status' <$> store receipt cleared_receipt))).
  { intros status e. eexists _, _. split; [done|]. cbn. auto. }
  assert (Hcleanup : forall status e, exists status' outputs,
    Some (status, mk_outputs roots (store root_count 0)
      (set_status status <$> store receipt cleared_receipt) e) = Some (status', outputs) /\
    (status' <> LAPLACE_EVIDENCE_LINEAGE_OK ->
       out_roots outputs = roots /\ out_root_count outputs = store root_count 0 /\
       (out_receipt outputs = store receipt cleared_receipt \/
        out_receipt outputs = set_status status' <$> store receipt cleared_receipt))).
  { intros status e. eexists _, _. split; [done|]. cbn. auto. }
  destruct (_ || _); [apply Hrefuse|]. set (all := cells records record_count).
  destruct (node_prefix None 0 all) as [n|[status index]] eqn:Hn; [|apply Hrefuse].
  destruct (n =? 0)%nat; [apply Hrefuse|].
  destruct (allocation_bytes _ _ _) as [bytes|] eqn:Hb; [|apply Hrefuse].
  destruct (limit <? bytes); [apply Hrefuse|]. destruct (negb allocated); [apply Hcleanup|].
  destruct (compile_edges _ _ _ _ _) as [c|[status report]] eqn:Hc; [|apply Hcleanup].
  pose proof (resolved all n c root_capacity bytes Hcap Hn Hb Hc) as (_ & _ & Hres).
  destruct (resolve_roots _ _ _) as [[sorted|[status report]]|]; [|apply Hcleanup|done].
  eexists _, _. split; [done|]. done.
Qed.
End Batch_theorems.

(** ** A diamond and a ring *)
Definition draft_node (k kind : Z) : laplace_evidence_lineage_record :=
  mk_lineage_record [] (replicate 16 k) (replicate 32 k) (replicate 32 2) (replicate 32 3)
    (zeros 32) k LAPLACE_EVIDENCE_RECORD_NODE kind 0 0.
Definition sample_node (k kind : Z) : laplace_evidence_lineage_record :=
  let node := draft_node k kind in
  mk_lineage_record
    (default [] (laplace_evidence_node_identify (B := checksum_blake3) (Some node)
                   (Some (zeros 32))).2)
    (proposition_id node) (occurrence_id node) (source_id node) (context_id node)
    (parent_node_id node) k LAPLACE_EVIDENCE_RECORD_NODE kind 0 0.
Definition sample_edge (child parent : Z * Z) : laplace_evidence_lineage_record :=
  mk_lineage_record (node_id (sample_node child.1 child.2)) (zeros 16) (zeros 32) (zeros 32)
    (zeros 32) (node_id (sample_node parent.1 parent.2)) 0
    LAPLACE_EVIDENCE_RECORD_DEPENDENCE_EDGE 0 0 0.
Definition sample_batch (nodes : list (Z * Z)) (edges : list ((Z * Z) * (Z * Z)))
    : list laplace_evidence_lineage_record :=
  qsort (cmp_on node_id memcmp) (map (fun n => sample_node n.1 n.2) nodes) ++
  qsort edge_compare (map (fun e => sample_edge e.1 e.2) edges).

(** [4] depends on [2] and [3], which depend on the root [1]; [5] on [4] and
    directly on [1]. *)
Definition diamond : list laplace_evidence_lineage_record :=
  sample_batch [(1, 1); (2, 3); (3, 3); (4, 4); (5, 5)]
    [((2, 3), (1, 1)); ((3, 3), (1, 1)); ((4, 4), (2, 3)); ((4, 4), (3, 3)); ((5, 5), (4, 4));
     ((5, 5), (1, 1))].
Definition ring : list laplace_evidence_lineage_record :=
  sample_batch [(1, 1); (2, 3); (3, 3)]
    [((1, 1), (2, 3)); ((2, 3), (3, 3)); ((3, 3), (1, 1))].

#[local] Abbreviation sample_run records := (laplace_evidence_record_lineage_batch
  (B := checksum_blake3) (Some records) (Z.of_nat (length records)) 100000
  (Some (replicate 8 inhabitant)) 8 (Some 7) (Some cleared_receipt)
  (Some (mk_lineage_error (Some (replicate 4 [])) 4 9 9)) true).
Definition depths (roots : ptr (list laplace_evidence_root_record)) (n : Z) : list Z :=
  qsort Z.compare (map path_depth (cells roots n)).

Lemma diamond_ok :
  match sample_run diamond with
  | Some (LAPLACE_EVIDENCE_LINEAGE_OK, o) => (out_root_count o, depths (out_roots o) 5)
  | _ => (None, [])
  end = (Some 5, [0; 1; 1; 1; 2]).
Proof. vm_compute. reflexivity. Qed.

Lemma ring_ok :
  match sample_run ring with
  | Some (LAPLACE_EVIDENCE_LINEAGE_CYCLE, o) => cycle_path_count <$> out_error o
  | _ => None
  end = Some 4.
Proof. vm_compute. reflexivity. Qed.

Lemma diamond_length : length diamond = 11%nat.
Proof. vm_compute. reflexivity. Qed.

Lemma sample_bytes (nodes edges : list laplace_evidence_lineage_record) : length (nodes ++ edges) = 11%nat ->
  lineage_bytes (Z.of_nat (length nodes)) (Z.of_nat (length edges)) 8 <= 100000.
Proof. rewrite length_app. unfold lineage_bytes. lia. Qed.

Lemma lineage_batch_exact_witness :
  exists nodes edges roots r, diamond = nodes ++ edges /\ acyclic edges /\
    lineage_roots nodes edges roots /\ lineage_receipt_of (B := checksum_blake3) nodes edges roots r /\
    length roots = 5%nat.
Proof.
  pose proof diamond_ok as Hok.
  destruct (sample_run diamond) as [[s o]|] eqn:Hrun; [|discriminate Hok].
  destruct s; try discriminate Hok. injection Hok as Hcount _.
  destruct (lineage_batch_exact (B := checksum_blake3) (L := checksum_blake3_laws) diamond 100000 8
    (replicate 8 inhabitant) 7 cleared_receipt (Some (mk_lineage_error (Some (replicate 4 [])) 4 9 9))
    true ltac:(lia)) as [Hrun' Hlawful].
  destruct (Hlawful o Hrun) as (nodes & edges & Hrec & Hlaw & Hac).
  pose proof diamond_length as Hlen. rewrite Hrec in Hlen.
  destruct (Hrun' nodes edges Hrec Hlaw Hac (sample_bytes nodes edges Hlen) ltac:(lia) eq_refl)
    as (roots & r & Hroots & Hr & Heq).
  exists nodes, edges, roots, r. split; [exact Hrec|]. split; [exact Hac|]. split; [exact Hroots|].
  split; [exact Hr|].
  rewrite Hrun in Heq. destruct (8 <? Z.of_nat (length roots)); [discriminate Heq|].
  injection Heq as ->. cbn [out_root_count] in Hcount. injection Hcount as Hcount. lia.
Defined.

Lemma lineage_cycle_reported_witness :
  exists nodes edges path, ring = nodes ++ edges /\ closed_walk (depends_on edges) path /\
    length path = 4%nat.
Proof.
  pose proof ring_ok as Hok.
  destruct (sample_run ring) as [[s o]|] eqn:Hrun; [|discriminate Hok].
  destruct s; try discriminate Hok.
  destruct (lineage_cycle_reported (B := checksum_blake3) (L := checksum_blake3_laws) ring 100000 8
    (replicate 8 inhabitant) 7 cleared_receipt (Some (mk_lineage_error (Some (replicate 4 [])) 4 9 9))
    true ltac:(lia)) as [Hcycle _].
  destruct (Hcycle o _ eq_refl Hrun) as (nodes & edges & path & e' & Hrec & Hw & Hout & Hcount & _).
  exists nodes, edges, path. split; [exact Hrec|]. split; [exact Hw|].
  rewrite Hout in Hok. injection Hok as Hok. rewrite Hcount in Hok. lia.
Defined.

Lemma lineage_batch_terminates_witness :
  exists status outputs, sample_run ring = Some (status, outputs).
Proof.
  destruct (lineage_batch_terminates (B := checksum_blake3) (L := checksum_blake3_laws)
    (Some ring) (Z.of_nat (length ring)) 100000 (Some (replicate 8 inhabitant)) 8 (Some 7)
    (Some cleared_receipt) (Some (mk_lineage_error (Some (replicate 4 [])) 4 9 9)) true
    ltac:(lia)) as (status & outputs & Hrun & _).
  exists status, outputs. exact Hrun.
Defined.
