(* ===== verification/SourceProfile.v ===== *)
(** * Source profiles: what a source declares about itself, and batches of it

    Models [engine/src/source_profile.c] and
    [engine/include/laplace/source_profile.h]: the closure law of one manifest
    (its highway coordinate, its fingerprints, its denominators with the mask of
    those that do not apply, its dispositions), the identity of a manifest, and
    the validation of an ordered batch of one selected boundary, whose receipt
    is accumulated in place and stays partly filled when a profile fails. *)
From stdpp Require Import prelude strings sorting.
From Stdlib Require Import ZArith Lia.
From S2P Require Import Prelude Bytes Sorting Hash Identity Framework Highway.

(** ** Contract constants ([contracts/source-profile-execution.json]; the kind
    from [contracts/highway.json]) *)
Abbreviation LAPLACE_SOURCE_PROFILE_VERSION := 1 (only parsing).
Abbreviation LAPLACE_SOURCE_PROFILE_DENOMINATOR_COUNT := 17 (only parsing).
Abbreviation LAPLACE_SOURCE_PROFILE_RECONSTRUCTION_EXACT := 1 (only parsing).
Abbreviation LAPLACE_SOURCE_PROFILE_RECONSTRUCTION_SEMANTIC := 2 (only parsing).
Abbreviation LAPLACE_SOURCE_PROFILE_RECONSTRUCTION_NONE := 3 (only parsing).
Abbreviation LAPLACE_SOURCE_PROFILE_EPISTEMIC_CLASS_SHIFT := 0 (only parsing).
Abbreviation LAPLACE_SOURCE_PROFILE_EPISTEMIC_CLASS_MASK := 15 (only parsing).
Abbreviation LAPLACE_SOURCE_PROFILE_EPISTEMIC_UNSPECIFIED := 0 (only parsing).
Abbreviation LAPLACE_SOURCE_PROFILE_EPISTEMIC_OBSERVATION := 2 (only parsing).
Abbreviation LAPLACE_SOURCE_PROFILE_EPISTEMIC_MAX := 4 (only parsing).
Abbreviation LAPLACE_SOURCE_PROFILE_EVIDENCE_SOURCE_TYPE_SHIFT := 4 (only parsing).
Abbreviation LAPLACE_SOURCE_PROFILE_EVIDENCE_SOURCE_TYPE_MASK := 240 (only parsing).
Abbreviation LAPLACE_SOURCE_PROFILE_EVIDENCE_UNSPECIFIED := 0 (only parsing).
Abbreviation LAPLACE_SOURCE_PROFILE_EVIDENCE_MAX := 8 (only parsing).
Abbreviation LAPLACE_SOURCE_PROFILE_FLAGS_KNOWN_MASK := 255 (only parsing).
Abbreviation LAPLACE_HIGHWAY_KIND_SOURCE_PROFILE := 17 (only parsing).

(** The fields an error may name. *)
Abbreviation SOURCE_PROFILE_FIELD_NONE := 0 (only parsing).
Abbreviation SOURCE_PROFILE_FIELD_FINGERPRINT := 2 (only parsing).
Abbreviation SOURCE_PROFILE_FIELD_FLAGS := 6 (only parsing).
Abbreviation SOURCE_PROFILE_FIELD_IDENTITY := 7 (only parsing).
Abbreviation SOURCE_PROFILE_FIELD_ORDER := 8 (only parsing).
Abbreviation SOURCE_PROFILE_FIELD_SELECTED_BOUNDARY := 9 (only parsing).
Abbreviation SOURCE_PROFILE_FIELD_AGGREGATE := 10 (only parsing).

(** ** Data *)
Record laplace_source_profile_manifest := mk_manifest {
  profile_id : laplace_digest256;
  coordinate : laplace_highway_key;
  authority_release_fingerprint : laplace_digest256;
  license_fingerprint : laplace_digest256;
  artifact_graph_fingerprint : laplace_digest256;
  syntax_authority_fingerprint : laplace_digest256;
  recipe_program_fingerprint : laplace_digest256;
  universal_ast_mapping_fingerprint : laplace_digest256;
  highway_references_fingerprint : laplace_digest256;
  epistemic_witnessing_fingerprint : laplace_digest256;
  denominator_declaration_fingerprint : laplace_digest256;
  conformance_fingerprint : laplace_digest256;
  completion_law_fingerprint : laplace_digest256;
  selected_boundary_fingerprint : laplace_digest256;
  byte_count : Z;
  container_count : Z;
  member_count : Z;
  file_count : Z;
  record_count : Z;
  field_count : Z;
  syntax_node_count : Z;
  span_count : Z;
  edge_count : Z;
  reference_count : Z;
  occurrence_count : Z;
  claim_count : Z;
  mapping_count : Z;
  error_count : Z;
  unknown_count : Z;
  transformation_count : Z;
  output_count : Z;
  closure_subject_count : Z;
  accepted_count : Z;
  rejected_count : Z;
  duplicate_count : Z;
  reused_count : Z;
  transformed_count : Z;
  lossy_count : Z;
  unsupported_count : Z;
  malformed_count : Z;
  unresolved_count : Z;
  persisted_count : Z;
  derived_count : Z;
  not_applicable_mask : Z;
  reconstruction_class : Z;
  flags : Z }.

Record laplace_source_profile_receipt := mk_receipt {
  receipt_id : laplace_digest256;
  receipt_boundary_fingerprint : laplace_digest256;
  input_fingerprint : laplace_digest256;
  output_fingerprint : laplace_digest256;
  receipt_profile_count : Z;
  receipt_closure_subject_count : Z;
  receipt_persisted_count : Z;
  negative_count : Z;
  exact_reconstruction_count : Z;
  semantic_reconstruction_count : Z;
  no_reconstruction_count : Z;
  version : Z;
  receipt_status : Z }.

Record laplace_source_profile_error := mk_error {
  profile_index : Z;
  field : Z;
  reserved : Z }.

Inductive laplace_source_profile_status :=
| LAPLACE_SOURCE_PROFILE_OK
| LAPLACE_SOURCE_PROFILE_INVALID_ARGUMENT
| LAPLACE_SOURCE_PROFILE_COORDINATE_INVALID
| LAPLACE_SOURCE_PROFILE_FINGERPRINT_MISSING
| LAPLACE_SOURCE_PROFILE_DENOMINATOR_INVALID
| LAPLACE_SOURCE_PROFILE_DISPOSITION_INVALID
| LAPLACE_SOURCE_PROFILE_IDENTITY_MISMATCH
| LAPLACE_SOURCE_PROFILE_ORDER_INVALID
| LAPLACE_SOURCE_PROFILE_BOUNDARY_MISMATCH
| LAPLACE_SOURCE_PROFILE_OVERFLOW
| LAPLACE_SOURCE_PROFILE_RECONSTRUCTION_INVALID.

#[export] Instance source_profile_status_eq_dec : EqDecision laplace_source_profile_status.
Proof. solve_decision. Defined.

(** ** Flags *)
Definition LAPLACE_SOURCE_PROFILE_GET_EPISTEMIC_CLASS (flags : Z) : Z :=
  Z.shiftr (Z.land flags LAPLACE_SOURCE_PROFILE_EPISTEMIC_CLASS_MASK)
    LAPLACE_SOURCE_PROFILE_EPISTEMIC_CLASS_SHIFT.

Definition LAPLACE_SOURCE_PROFILE_GET_EVIDENCE_SOURCE_TYPE (flags : Z) : Z :=
  Z.shiftr (Z.land flags LAPLACE_SOURCE_PROFILE_EVIDENCE_SOURCE_TYPE_MASK)
    LAPLACE_SOURCE_PROFILE_EVIDENCE_SOURCE_TYPE_SHIFT.

Definition laplace_source_profile_epistemic_class (profile : ptr laplace_source_profile_manifest)
    : Z :=
  match profile with
  | None => LAPLACE_SOURCE_PROFILE_EPISTEMIC_UNSPECIFIED
  | Some p => LAPLACE_SOURCE_PROFILE_GET_EPISTEMIC_CLASS (flags p)
  end.

Definition laplace_source_profile_evidence_source_type
    (profile : ptr laplace_source_profile_manifest) : Z :=
  match profile with
  | None => LAPLACE_SOURCE_PROFILE_EVIDENCE_UNSPECIFIED
  | Some p => LAPLACE_SOURCE_PROFILE_GET_EVIDENCE_SOURCE_TYPE (flags p)
  end.

Definition flags_valid (flags : Z) : bool :=
  let epistemic_class := LAPLACE_SOURCE_PROFILE_GET_EPISTEMIC_CLASS flags in
  let evidence_source_type := LAPLACE_SOURCE_PROFILE_GET_EVIDENCE_SOURCE_TYPE flags in
  (Z.land flags (Z.lxor UINT32_MAX LAPLACE_SOURCE_PROFILE_FLAGS_KNOWN_MASK) =? 0) &&
  (epistemic_class <=? LAPLACE_SOURCE_PROFILE_EPISTEMIC_MAX) &&
  (evidence_source_type <=? LAPLACE_SOURCE_PROFILE_EVIDENCE_MAX).

(** ** The fields of a manifest, in the order of the code *)
Definition fingerprints (p : laplace_source_profile_manifest) : list laplace_digest256 :=
  [authority_release_fingerprint p; license_fingerprint p; artifact_graph_fingerprint p;
   syntax_authority_fingerprint p; recipe_program_fingerprint p;
   universal_ast_mapping_fingerprint p; highway_references_fingerprint p;
   epistemic_witnessing_fingerprint p; denominator_declaration_fingerprint p;
   conformance_fingerprint p; completion_law_fingerprint p; selected_boundary_fingerprint p].

Definition denominators (p : laplace_source_profile_manifest) : list Z :=
  [byte_count p; container_count p; member_count p; file_count p; record_count p;
   field_count p; syntax_node_count p; span_count p; edge_count p; reference_count p;
   occurrence_count p; claim_count p; mapping_count p; error_count p; unknown_count p;
   transformation_count p; output_count p].

Definition dispositions (p : laplace_source_profile_manifest) : list Z :=
  [accepted_count p; rejected_count p; duplicate_count p; reused_count p;
   transformed_count p; lossy_count p; unsupported_count p; malformed_count p;
   unresolved_count p; persisted_count p; derived_count p].

(** [add_u64]: the new total, or [None] where the function returns 0 and
    leaves the total alone. *)
Definition add_u64 (total value : Z) : option Z :=
  if UINT64_MAX - total <? value then None else Some (total + value).

(** ** Validity of one manifest *)
Definition fingerprints_valid (p : laplace_source_profile_manifest) : bool :=
  forallb (fun f => negb (bytes_zero f)) (fingerprints p).

Definition raw_observation_mask : Z := Z.lor (Z.shiftl 1 4) (Z.shiftl 1 5).

Definition raw_observation (p : laplace_source_profile_manifest) : bool :=
  (LAPLACE_SOURCE_PROFILE_GET_EPISTEMIC_CLASS (flags p) =?
     LAPLACE_SOURCE_PROFILE_EPISTEMIC_OBSERVATION) &&
  (record_count p =? 0) && (field_count p =? 0) && (claim_count p =? 0) &&
  (Z.land (not_applicable_mask p) raw_observation_mask =? raw_observation_mask).

Definition required_mask (p : laplace_source_profile_manifest) : Z :=
  Z.land
    (foldl Z.lor 0 (map (Z.shiftl 1) [0; 3; 4; 5; 6; 7; 10; 16]))
    (if raw_observation p then Z.lxor UINT64_MAX raw_observation_mask else UINT64_MAX).

(** The loop over [values]: no denominator that is marked not applicable is
    non-zero. *)
Fixpoint not_applicable_loop (mask : Z) (values : list Z) (index : Z) : bool :=
  match values with
  | [] => true
  | value :: rest =>
      return_when negb (Z.land mask (Z.shiftl 1 index) =? 0) && negb (value =? 0) with false ;;
      not_applicable_loop mask rest (index + 1)
  end.

Definition denominators_valid (p : laplace_source_profile_manifest) : bool :=
  return_when
    negb (Z.shiftr (not_applicable_mask p) LAPLACE_SOURCE_PROFILE_DENOMINATOR_COUNT =? 0) ||
    negb (Z.land (not_applicable_mask p) (required_mask p) =? 0)
    with false ;;
  return_when negb (not_applicable_loop (not_applicable_mask p) (denominators p) 0)
    with false ;;
  negb (byte_count p =? 0) && negb (file_count p =? 0) &&
  (raw_observation p || (negb (record_count p =? 0) && negb (field_count p =? 0))) &&
  negb (syntax_node_count p =? 0) && negb (span_count p =? 0) &&
  negb (occurrence_count p =? 0) && negb (output_count p =? 0).

Fixpoint add_loop (total : Z) (values : list Z) : option Z :=
  match values with
  | [] => Some total
  | value :: rest =>
      match add_u64 total value with
      | None => None
      | Some total => add_loop total rest
      end
  end.

Definition dispositions_validate (p : laplace_source_profile_manifest)
    : laplace_source_profile_status :=
  return_when closure_subject_count p =? 0
    with LAPLACE_SOURCE_PROFILE_DISPOSITION_INVALID ;;
  match add_loop 0 (dispositions p) with
  | None => LAPLACE_SOURCE_PROFILE_OVERFLOW
  | Some total =>
      return_when negb (total =? closure_subject_count p) ||
        ((reconstruction_class p =? LAPLACE_SOURCE_PROFILE_RECONSTRUCTION_EXACT) &&
         negb (lossy_count p =? 0))
        with LAPLACE_SOURCE_PROFILE_DISPOSITION_INVALID ;;
      LAPLACE_SOURCE_PROFILE_OK
  end.

Section Profiles.
Context {B : Blake3}.
Variable kinds : list laplace_highway_kind_contract_row.

(** ** Identity *)
Definition hash_key (hasher : blake3_hasher) (key : laplace_highway_key) : blake3_hasher :=
  let hasher := hash_u32 hasher (key_kind key) in
  let hasher := blake3_hasher_update hasher (authority key) in
  let hasher := blake3_hasher_update hasher (release key) in
  let hasher := blake3_hasher_update hasher (name_space key) in
  let hasher := blake3_hasher_update hasher (local_identifier key) in
  hash_u64 hasher (key_version key).

Definition hash_fingerprints (hasher : blake3_hasher) (p : laplace_source_profile_manifest)
    : blake3_hasher :=
  foldl blake3_hasher_update hasher (fingerprints p).

Definition hash_denominators (hasher : blake3_hasher) (p : laplace_source_profile_manifest)
    : blake3_hasher :=
  foldl hash_u64 hasher (denominators p).

Definition hash_dispositions (hasher : blake3_hasher) (p : laplace_source_profile_manifest)
    : blake3_hasher :=
  let hasher := hash_u64 hasher (closure_subject_count p) in
  let hasher := foldl hash_u64 hasher (dispositions p) in
  let hasher := hash_u64 hasher (not_applicable_mask p) in
  let hasher := hash_u32 hasher (reconstruction_class p) in
  hash_u32 hasher (flags p).

Definition hash_profile (hasher : blake3_hasher) (p : laplace_source_profile_manifest)
    (include_identity : bool) : blake3_hasher :=
  let hasher :=
    if include_identity then blake3_hasher_update hasher (profile_id p) else hasher in
  let hasher := hash_key hasher (coordinate p) in
  let hasher := hash_fingerprints hasher p in
  let hasher := hash_denominators hasher p in
  hash_dispositions hasher p.

Definition laplace_source_profile_identify (profile : ptr laplace_source_profile_manifest)
    (id : ptr laplace_digest256)
    : laplace_source_profile_status * ptr laplace_digest256 :=
  match profile, id with
  | Some p, Some _ =>
      return_when negb (key_kind (coordinate p) =? LAPLACE_HIGHWAY_KIND_SOURCE_PROFILE) ||
        match laplace_highway_coordinate_calculate kinds (Some (coordinate p))
                (Some zero_coordinate) with
        | (LAPLACE_HIGHWAY_OK, _) => false
        | _ => true
        end
        with (LAPLACE_SOURCE_PROFILE_COORDINATE_INVALID, id) ;;
      return_when negb (fingerprints_valid p)
        with (LAPLACE_SOURCE_PROFILE_FINGERPRINT_MISSING, id) ;;
      return_when negb (denominators_valid p)
        with (LAPLACE_SOURCE_PROFILE_DENOMINATOR_INVALID, id) ;;
      return_when
        (reconstruction_class p <? LAPLACE_SOURCE_PROFILE_RECONSTRUCTION_EXACT) ||
        (LAPLACE_SOURCE_PROFILE_RECONSTRUCTION_NONE <? reconstruction_class p)
        with (LAPLACE_SOURCE_PROFILE_RECONSTRUCTION_INVALID, id) ;;
      return_when negb (flags_valid (flags p))
        with (LAPLACE_SOURCE_PROFILE_INVALID_ARGUMENT, id) ;;
      match dispositions_validate p with
      | LAPLACE_SOURCE_PROFILE_OK =>
          let hasher := blake3_hasher_update blake3_hasher_init
                          (domain_bytes "laplace-source-profile-v1") in
          (LAPLACE_SOURCE_PROFILE_OK,
           store id (blake3_hasher_finalize (hash_profile hasher p false)))
      | disposition_status => (disposition_status, id)
      end
  | _, _ => (LAPLACE_SOURCE_PROFILE_INVALID_ARGUMENT, id)
  end.

(** ** Batches *)
Definition empty_receipt : laplace_source_profile_receipt :=
  mk_receipt (zeros 32) (zeros 32) (zeros 32) (zeros 32) 0 0 0 0 0 0 0
    LAPLACE_SOURCE_PROFILE_VERSION 0.

(** The counts of the receipt, replaced one at a time. *)
Definition set_counts (r : laplace_source_profile_receipt)
    (closure persisted negative exact semantic no : Z) : laplace_source_profile_receipt :=
  mk_receipt (receipt_id r) (receipt_boundary_fingerprint r) (input_fingerprint r)
    (output_fingerprint r) (receipt_profile_count r) closure persisted negative exact semantic
    no (version r) (receipt_status r).

Definition add_closure (r : laplace_source_profile_receipt) (value : Z)
    : option laplace_source_profile_receipt :=
  (fun t => set_counts r t (receipt_persisted_count r) (negative_count r)
     (exact_reconstruction_count r) (semantic_reconstruction_count r)
     (no_reconstruction_count r)) <$> add_u64 (receipt_closure_subject_count r) value.

Definition add_persisted (r : laplace_source_profile_receipt) (value : Z)
    : option laplace_source_profile_receipt :=
  (fun t => set_counts r (receipt_closure_subject_count r) t (negative_count r)
     (exact_reconstruction_count r) (semantic_reconstruction_count r)
     (no_reconstruction_count r)) <$> add_u64 (receipt_persisted_count r) value.

Definition add_negative (r : laplace_source_profile_receipt) (value : Z)
    : option laplace_source_profile_receipt :=
  (fun t => set_counts r (receipt_closure_subject_count r) (receipt_persisted_count r) t
     (exact_reconstruction_count r) (semantic_reconstruction_count r)
     (no_reconstruction_count r)) <$> add_u64 (negative_count r) value.

(** [!add(...) || !add(...) || ...]: the additions up to the first that fails;
    those before it stay in the receipt. *)
Fixpoint add_each (r : laplace_source_profile_receipt)
    (additions : list (laplace_source_profile_receipt -> option laplace_source_profile_receipt))
    : bool * laplace_source_profile_receipt :=
  match additions with
  | [] => (true, r)
  | add :: rest =>
      match add r with
      | None => (false, r)
      | Some r => add_each r rest
      end
  end.

Definition aggregate (r : laplace_source_profile_receipt) (p : laplace_source_profile_manifest)
    : bool * laplace_source_profile_receipt :=
  add_each r
    [fun r => add_closure r (closure_subject_count p);
     fun r => add_persisted r (persisted_count p);
     fun r => add_negative r (rejected_count p);
     fun r => add_negative r (lossy_count p);
     fun r => add_negative r (unsupported_count p);
     fun r => add_negative r (malformed_count p);
     fun r => add_negative r (unresolved_count p)].

(** The [switch] on the reconstruction class; [None] is its default case. *)
Definition count_reconstruction (r : laplace_source_profile_receipt) (class : Z)
    : option laplace_source_profile_receipt :=
  let set := set_counts r (receipt_closure_subject_count r) (receipt_persisted_count r)
               (negative_count r) in
  if class =? LAPLACE_SOURCE_PROFILE_RECONSTRUCTION_EXACT then
    Some (set (u64 (exact_reconstruction_count r + 1)) (semantic_reconstruction_count r)
            (no_reconstruction_count r))
  else if class =? LAPLACE_SOURCE_PROFILE_RECONSTRUCTION_SEMANTIC then
    Some (set (exact_reconstruction_count r) (u64 (semantic_reconstruction_count r + 1))
            (no_reconstruction_count r))
  else if class =? LAPLACE_SOURCE_PROFILE_RECONSTRUCTION_NONE then
    Some (set (exact_reconstruction_count r) (semantic_reconstruction_count r)
            (u64 (no_reconstruction_count r + 1)))
  else None.

Record batch_state := mk_state {
  input_hasher : blake3_hasher;
  output_hasher : blake3_hasher;
  receipt : laplace_source_profile_receipt }.

(** The checks of one iteration before the receipt is touched, with the field
    the error names; [previous] is the profile before, if any. *)
Definition check_profile (first : laplace_source_profile_manifest)
    (previous : option laplace_source_profile_manifest) (p : laplace_source_profile_manifest)
    : laplace_source_profile_status * Z :=
  match laplace_source_profile_identify (Some p) (Some (zeros 32)) with
  | (LAPLACE_SOURCE_PROFILE_OK, expected) =>
      return_when negb (bytes_equal (default [] expected) (profile_id p))
        with (LAPLACE_SOURCE_PROFILE_IDENTITY_MISMATCH, SOURCE_PROFILE_FIELD_IDENTITY) ;;
      return_when match previous with
                  | None => false
                  | Some q => match memcmp (profile_id q) (profile_id p) with
                              | Lt => false
                              | _ => true
                              end
                  end
        with (LAPLACE_SOURCE_PROFILE_ORDER_INVALID, SOURCE_PROFILE_FIELD_ORDER) ;;
      return_when match previous with
                  | None => false
                  | Some _ => negb (bytes_equal (selected_boundary_fingerprint first)
                                      (selected_boundary_fingerprint p))
                  end
        with (LAPLACE_SOURCE_PROFILE_BOUNDARY_MISMATCH,
              SOURCE_PROFILE_FIELD_SELECTED_BOUNDARY) ;;
      (LAPLACE_SOURCE_PROFILE_OK, SOURCE_PROFILE_FIELD_NONE)
  | (LAPLACE_SOURCE_PROFILE_INVALID_ARGUMENT as failed, _) =>
      (failed, SOURCE_PROFILE_FIELD_FLAGS)
  | (failed, _) => (failed, SOURCE_PROFILE_FIELD_FINGERPRINT)
  end.

(** One iteration: the status, the error it writes (if it writes one) and the
    state it leaves. *)
Definition profile_step (first : laplace_source_profile_manifest)
    (previous : option laplace_source_profile_manifest) (p : laplace_source_profile_manifest)
    (index : Z) (state : batch_state)
    : laplace_source_profile_status * option laplace_source_profile_error * batch_state :=
  match check_profile first previous p with
  | (LAPLACE_SOURCE_PROFILE_OK, _) =>
      let '(added, r) := aggregate (receipt state) p in
      return_when negb added
        with (LAPLACE_SOURCE_PROFILE_OVERFLOW,
              Some (mk_error index SOURCE_PROFILE_FIELD_AGGREGATE 0),
              mk_state (input_hasher state) (output_hasher state) r) ;;
      match count_reconstruction r (reconstruction_class p) with
      | None =>
          (LAPLACE_SOURCE_PROFILE_RECONSTRUCTION_INVALID, None,
           mk_state (input_hasher state) (output_hasher state) r)
      | Some r =>
          (LAPLACE_SOURCE_PROFILE_OK, None,
           mk_state (hash_profile (input_hasher state) p true)
             (blake3_hasher_update (output_hasher state) (profile_id p)) r)
      end
  | (failed, f) => (failed, Some (mk_error index f 0), state)
  end.

Definition no_error : laplace_source_profile_error :=
  mk_error UINT64_MAX SOURCE_PROFILE_FIELD_NONE 0.

Fixpoint profile_loop (first : laplace_source_profile_manifest)
    (previous : option laplace_source_profile_manifest)
    (profiles : list laplace_source_profile_manifest) (index : Z) (state : batch_state)
    : laplace_source_profile_status * laplace_source_profile_error * batch_state :=
  match profiles with
  | [] => (LAPLACE_SOURCE_PROFILE_OK, no_error, state)
  | p :: rest =>
      match profile_step first previous p index state with
      | (LAPLACE_SOURCE_PROFILE_OK, _, state) =>
          profile_loop first (Some p) rest (index + 1) state
      | (failed, error, state) => (failed, default no_error error, state)
      end
  end.

Definition initial_state (profile_count : Z) : batch_state := {|
  input_hasher := hash_u64 (blake3_hasher_update blake3_hasher_init
    (domain_bytes "laplace-source-profile-input-v1")) profile_count;
  output_hasher := hash_u64 (blake3_hasher_update blake3_hasher_init
    (domain_bytes "laplace-source-profile-output-v1")) profile_count;
  receipt := empty_receipt |}.

Definition hash_receipt (r : laplace_source_profile_receipt) : blake3_hasher :=
  let hasher := blake3_hasher_update blake3_hasher_init
                  (domain_bytes "laplace-source-profile-receipt-v1") in
  let hasher := blake3_hasher_update hasher (receipt_boundary_fingerprint r) in
  let hasher := blake3_hasher_update hasher (input_fingerprint r) in
  let hasher := blake3_hasher_update hasher (output_fingerprint r) in
  let hasher := hash_u64 hasher (receipt_profile_count r) in
  let hasher := hash_u64 hasher (receipt_closure_subject_count r) in
  let hasher := hash_u64 hasher (receipt_persisted_count r) in
  let hasher := hash_u64 hasher (negative_count r) in
  let hasher := hash_u64 hasher (exact_reconstruction_count r) in
  let hasher := hash_u64 hasher (semantic_reconstruction_count r) in
  let hasher := hash_u64 hasher (no_reconstruction_count r) in
  let hasher := hash_u32 hasher (version r) in
  hash_u32 hasher (receipt_status r).

(** The receipt after the loop: boundary, count, fingerprints, status, then the
    identity over all of them. *)
Definition with_id (id : laplace_digest256) (r : laplace_source_profile_receipt)
    : laplace_source_profile_receipt :=
  mk_receipt id (receipt_boundary_fingerprint r) (input_fingerprint r) (output_fingerprint r)
    (receipt_profile_count r) (receipt_closure_subject_count r) (receipt_persisted_count r)
    (negative_count r) (exact_reconstruction_count r) (semantic_reconstruction_count r)
    (no_reconstruction_count r) (version r) (receipt_status r).

Definition finish_receipt (first : laplace_source_profile_manifest) (profile_count : Z)
    (state : batch_state) : laplace_source_profile_receipt :=
  let r := receipt state in
  let body :=
    mk_receipt (receipt_id r) (selected_boundary_fingerprint first)
      (blake3_hasher_finalize (input_hasher state))
      (blake3_hasher_finalize (output_hasher state)) profile_count
      (receipt_closure_subject_count r) (receipt_persisted_count r) (negative_count r)
      (exact_reconstruction_count r) (semantic_reconstruction_count r)
      (no_reconstruction_count r) (version r) 0 in
  with_id (blake3_hasher_finalize (hash_receipt body)) body.

Definition laplace_source_profile_validate_batch
    (profiles : ptr (list laplace_source_profile_manifest)) (profile_count : Z)
    (receipt_out : ptr laplace_source_profile_receipt)
    (error : ptr laplace_source_profile_error)
    : laplace_source_profile_status * ptr laplace_source_profile_receipt *
      ptr laplace_source_profile_error :=
  return_when is_null profiles || (profile_count =? 0) || is_null receipt_out
    with (LAPLACE_SOURCE_PROFILE_INVALID_ARGUMENT, store receipt_out empty_receipt,
          store error no_error) ;;
  match cells profiles profile_count with
  | [] => (* not reached: the array holds [profile_count] > 0 profiles *)
      (LAPLACE_SOURCE_PROFILE_INVALID_ARGUMENT, store receipt_out empty_receipt,
       store error no_error)
  | (first :: _) as all =>
      match profile_loop first None all 0 (initial_state profile_count) with
      | (LAPLACE_SOURCE_PROFILE_OK, _, state) =>
          (LAPLACE_SOURCE_PROFILE_OK,
           store receipt_out (finish_receipt first profile_count state), store error no_error)
      | (failed, e, state) => (failed, store receipt_out (receipt state), store error e)
      end
  end.
End Profiles.

(** ** The closure law of a manifest *)
(** Denominator [i] is declared not applicable. *)
Definition not_applicable (p : laplace_source_profile_manifest) (i : nat) : Prop :=
  Z.testbit (not_applicable_mask p) (Z.of_nat i) = true.

(** A raw observation: no records, fields or claims, the first two declared so. *)
Definition is_raw_observation (p : laplace_source_profile_manifest) : Prop :=
  LAPLACE_SOURCE_PROFILE_GET_EPISTEMIC_CLASS (flags p) =
    LAPLACE_SOURCE_PROFILE_EPISTEMIC_OBSERVATION /\
  record_count p = 0 /\ field_count p = 0 /\ claim_count p = 0 /\
  not_applicable p 4 /\ not_applicable p 5.

Record denominators_lawful (p : laplace_source_profile_manifest) : Prop := {
  mask_known : 0 <= not_applicable_mask p < 2 ^ 17;
  absent_zero : forall i v, denominators p !! i = Some v -> not_applicable p i -> v = 0;
  required_present : Forall (fun v => v <> 0)
    [byte_count p; file_count p; syntax_node_count p; span_count p; occurrence_count p;
     output_count p];
  records_present : is_raw_observation p \/ (record_count p <> 0 /\ field_count p <> 0) }.

Record dispositions_lawful (p : laplace_source_profile_manifest) : Prop := {
  subjects_present : closure_subject_count p <> 0;
  subjects_closed : sum_of id (dispositions p) = closure_subject_count p;
  exact_lossless : reconstruction_class p = LAPLACE_SOURCE_PROFILE_RECONSTRUCTION_EXACT ->
    lossy_count p = 0 }.

Lemma land_disjoint m r :
  Z.land m r = 0 <-> (forall i, 0 <= i -> Z.testbit r i = true -> Z.testbit m i = false).
Proof.
  split.
  - intros H i Hi Hr. apply (f_equal (fun z => Z.testbit z i)) in H.
    by rewrite Z.land_spec, Hr, andb_true_r, Z.bits_0 in H.
  - intros H. apply Z.bits_inj'. intros i Hi. rewrite Z.land_spec, Z.bits_0.
    destruct (Z.testbit r i) eqn:E; [by rewrite H | apply andb_false_r].
Qed.

Lemma land_covers m r :
  Z.land m r = r <-> (forall i, 0 <= i -> Z.testbit r i = true -> Z.testbit m i = true).
Proof.
  split.
  - intros H i Hi Hr. apply (f_equal (fun z => Z.testbit z i)) in H.
    by rewrite Z.land_spec, Hr, andb_true_r in H.
  - intros H. apply Z.bits_inj'. intros i Hi. rewrite Z.land_spec.
    destruct (Z.testbit r i) eqn:E; [by rewrite H | apply andb_false_r].
Qed.

(** The bits of the masks the code builds are those it lists. *)
Lemma testbit_listed l : Forall (fun i => 0 <= i) l -> forall i, 0 <= i ->
  Z.testbit (foldl Z.lor 0 (map (Z.shiftl 1) l)) i = true <-> i ∈ l.
Proof.
  intros Hl i Hi.
  enough (forall acc, Z.testbit (foldl Z.lor acc (map (Z.shiftl 1) l)) i = true <->
                      Z.testbit acc i = true \/ i ∈ l) as H.
  { rewrite H, Z.bits_0. naive_solver. }
  induction Hl as [|j l Hj Hl IH]; intros acc; simpl; [set_solver|].
  rewrite IH, Z.lor_spec, orb_true_iff, Z.shiftl_1_l, elem_of_cons.
  rewrite (Z.pow2_bits_eqb j) by done. rewrite Z.eqb_eq. naive_solver.
Qed.

Lemma raw_observation_bits i : 0 <= i ->
  Z.testbit raw_observation_mask i = true <-> i = 4 \/ i = 5.
Proof.
  intros Hi. change raw_observation_mask with (foldl Z.lor 0 (map (Z.shiftl 1) [4; 5])).
  rewrite testbit_listed by (try done; repeat constructor; lia). set_solver.
Qed.

Lemma raw_observation_spec p : raw_observation p = true <-> is_raw_observation p.
Proof.
  unfold raw_observation, is_raw_observation, not_applicable.
  rewrite !andb_true_iff, !Z.eqb_eq, land_covers.
  assert ((forall i, 0 <= i -> Z.testbit raw_observation_mask i = true ->
             Z.testbit (not_applicable_mask p) i = true) <->
          Z.testbit (not_applicable_mask p) (Z.of_nat 4) = true /\
          Z.testbit (not_applicable_mask p) (Z.of_nat 5) = true) as ->; [|tauto].
  split.
  - intros H. split; apply H; try lia; done.
  - intros [H4 H5] i Hi [->| ->]%raw_observation_bits; done.
Qed.

Lemma required_bits p i : 0 <= i -> Z.testbit (required_mask p) i = true <->
  i ∈ [0; 3; 6; 7; 10; 16] \/ (raw_observation p = false /\ (i = 4 \/ i = 5)).
Proof.
  intros Hi. unfold required_mask. rewrite Z.land_spec, andb_true_iff.
  rewrite testbit_listed by (try done; repeat constructor; lia).
  assert (Hmax : Z.testbit UINT64_MAX i = true <-> i < 64).
  { change UINT64_MAX with (Z.ones 64). destruct (Z.lt_ge_cases i 64).
    - rewrite Z.ones_spec_low by lia. done.
    - rewrite Z.ones_spec_high by lia. split; [done|lia]. }
  destruct (raw_observation p).
  - rewrite Z.lxor_spec. pose proof (raw_observation_bits i Hi) as Hraw.
    destruct (Z.testbit UINT64_MAX i), (Z.testbit raw_observation_mask i); simpl.
    all: rewrite !elem_of_cons, elem_of_nil in *; split; [intros [H1 H2]|intros H]; try done.
    all: try (assert (i < 64) by lia); try (exfalso; naive_solver lia); naive_solver lia.
  - rewrite Hmax, !elem_of_cons, !elem_of_nil. naive_solver lia.
Qed.

Lemma not_applicable_loop_spec mask values : forall index, 0 <= index ->
  not_applicable_loop mask values index = true <->
  (forall i v, values !! i = Some v -> Z.testbit mask (index + Z.of_nat i) = true -> v = 0).
Proof.
  induction values as [|value values IH]; intros index Hi; cbn [not_applicable_loop].
  { split; [intros _ i v H; by rewrite lookup_nil in H | done]. }
  pose proof (land_single_bit mask index Hi) as Hbit.
  destruct (Z.eqb_spec (Z.land mask (Z.shiftl 1 index)) 0) as [E|E];
    destruct (Z.eqb_spec value 0) as [Ev|Ev]; cbn [negb andb].
  3: rewrite IH by lia.
  1,2: rewrite IH by lia.
  4: { split; [done|]. intros H. destruct (Z.testbit mask index) eqn:Et; [|tauto].
       contradict Ev. apply (H 0%nat value); [done|]. by rewrite Z.add_0_r. }
  all: (split; intros H;
    [ intros [|i] v Hv Ht; simpl in Hv;
      [ injection Hv as <-; rewrite Z.add_0_r in Ht; tauto || (apply Hbit in E; congruence)
      | apply (H i v Hv); rewrite <- Ht; f_equal; lia ]
    | intros i v Hv Ht; apply (H (S i) v Hv); rewrite <- Ht; f_equal; lia ]).
Qed.

(** The mask arithmetic of the code decides the law of the denominators. *)
Lemma denominators_valid_spec p :
  is_u64 (not_applicable_mask p) -> denominators_valid p = true <-> denominators_lawful p.
Proof.
  intros Hm. unfold denominators_valid. rewrite Z.shiftr_div_pow2 by lia.
  set (m := not_applicable_mask p) in *.
  pose proof (not_applicable_loop_spec m (denominators p) 0 ltac:(lia)) as Hloop.
  pose proof (raw_observation_spec p) as Hraw.
  destruct (Z.eqb_spec (m / 2 ^ 17) 0) as [Eq|Eq]; cbn [negb orb].
  2:{ split; [done|]. intros [Hk _ _ _]. contradict Eq. apply Z.div_small. apply Hk. }
  assert (Hk : 0 <= m < 2 ^ 17).
  { pose proof (Z.div_mod m (2 ^ 17)). pose proof (Z.mod_pos_bound m (2 ^ 17)). lia. }
  destruct (Z.eqb_spec (Z.land m (required_mask p)) 0) as [Er|Er]; cbn [negb].
  2:{ split; [done|]. intros [_ Ha Hr Hrec]. contradict Er. apply land_disjoint.
      intros i Hi Hb%required_bits; [|done].
      destruct (Z.testbit m i) eqn:Et; [exfalso|done].
      assert (Hv : forall n v, denominators p !! n = Some v -> i = Z.of_nat n -> v = 0).
      { intros n v Hn ->. exact (Ha n v Hn Et). }
      repeat apply Forall_cons in Hr as [? Hr].
      destruct Hb as [Hb|[Hn Hb]].
      - rewrite !elem_of_cons, elem_of_nil in Hb.
        destruct Hb as [->|[->|[->|[->|[->|[->|[]]]]]]];
          [ apply H, (Hv 0%nat) | apply H0, (Hv 3%nat) | apply H1, (Hv 6%nat)
          | apply H2, (Hv 7%nat) | apply H3, (Hv 10%nat) | apply H4, (Hv 16%nat) ];
          done.
      - destruct Hrec as [Hrec|[Hr1 Hr2]]; [apply Hraw in Hrec; congruence|].
        destruct Hb as [->| ->]; [apply Hr1, (Hv 4%nat)|apply Hr2, (Hv 5%nat)]; done. }
  destruct (not_applicable_loop m (denominators p) 0); cbn [negb].
  2:{ split; [done|]. intros [_ Ha _ _]. apply Hloop. exact Ha. }
  rewrite !andb_true_iff, orb_true_iff, andb_true_iff, !negb_true_iff, !Z.eqb_neq, Hraw.
  split.
  - intros H. split; [done|by apply Hloop| |tauto]. repeat constructor; tauto.
  - intros [_ _ Hr Hrec]. repeat apply Forall_cons in Hr as [? Hr]. tauto.
Qed.

Lemma add_loop_spec values : forall total,
  Forall (fun v => 0 <= v) values -> is_u64 total ->
  add_loop total values =
  (if UINT64_MAX <? total + sum_of id values then None else Some (total + sum_of id values)).
Proof.
  induction values as [|v values IH]; intros total Hv Ht; cbn [add_loop].
  { change (sum_of id []) with 0. rewrite Z.add_0_r.
    by rewrite (proj2 (Z.ltb_ge _ _)) by lia. }
  apply Forall_cons in Hv as [Hv Hvs]. pose proof (sum_of_nonneg id values Hvs) as Hs.
  change (sum_of id (v :: values)) with (v + sum_of id values).
  unfold add_u64. destruct (Z.ltb_spec (UINT64_MAX - total) v).
  - by rewrite (proj2 (Z.ltb_lt _ _)) by lia.
  - rewrite IH by (done || lia). by rewrite Z.add_assoc.
Qed.

(** The dispositions are accepted exactly when they close over the subjects;
    only a sum beyond 64 bits is reported as an overflow. *)
Lemma dispositions_validate_spec p :
  Forall (fun v => 0 <= v) (dispositions p) -> is_u64 (closure_subject_count p) ->
  (dispositions_validate p = LAPLACE_SOURCE_PROFILE_OK <-> dispositions_lawful p) /\
  (dispositions_validate p = LAPLACE_SOURCE_PROFILE_OVERFLOW <->
   closure_subject_count p <> 0 /\ UINT64_MAX < sum_of id (dispositions p)) /\
  dispositions_validate p ∈ [LAPLACE_SOURCE_PROFILE_OK; LAPLACE_SOURCE_PROFILE_OVERFLOW;
                             LAPLACE_SOURCE_PROFILE_DISPOSITION_INVALID].
Proof.
  intros Hd Hc. unfold dispositions_validate.
  destruct (Z.eqb_spec (closure_subject_count p) 0) as [E|E].
  { split_and!; [split; [done|]; by intros [? _ _] | split; [done|]; by intros [? _]
                |set_solver]. }
  rewrite add_loop_spec by (done || lia). rewrite Z.add_0_l.
  destruct (Z.ltb_spec UINT64_MAX (sum_of id (dispositions p))) as [Ho|Ho].
  { split_and!; [split; [done|]; intros [_ H _]; lia | split; [|done]; by split
                |set_solver]. }
  destruct (Z.eqb_spec (sum_of id (dispositions p)) (closure_subject_count p)) as [Es|Es];
    cbn [negb orb].
  2:{ split_and!; [split; [done|]; by intros [_ H _] | split; [done|]; intros [_ H]; lia
                  |set_solver]. }
  destruct (Z.eqb_spec (reconstruction_class p) 1) as [Ec|Ec];
    destruct (Z.eqb_spec (lossy_count p) 0) as [El|El]; cbn [negb andb].
  all: split_and!; [|split; [done|]; intros [_ H]; lia|set_solver].
  all: (split; intros H; [first [done | by split] | try done]).
  destruct H as [_ _ H]. by specialize (H Ec).
Qed.

(** The known flags are two nibbles: the epistemic class, the source type. *)
Lemma flags_valid_spec f :
  is_u32 f -> flags_valid f = true <-> f < 256 /\ f mod 16 <= 4 /\ f / 16 <= 8.
Proof.
  intros Hf. unfold flags_valid, LAPLACE_SOURCE_PROFILE_GET_EPISTEMIC_CLASS,
    LAPLACE_SOURCE_PROFILE_GET_EVIDENCE_SOURCE_TYPE.
  rewrite Z.shiftr_0_r, Z.shiftr_land. change (Z.shiftr 240 4) with (Z.ones 4).
  change (Z.land f 15) with (Z.land f (Z.ones 4)).
  rewrite !Z.land_ones, Z.shiftr_div_pow2 by lia. change (2 ^ 4) with 16.
  rewrite !andb_true_iff, Z.eqb_eq, !Z.leb_le, land_disjoint.
  change (Z.lxor UINT32_MAX 255) with (Z.shiftl (Z.ones 24) 8).
  assert ((forall i, 0 <= i -> Z.testbit (Z.shiftl (Z.ones 24) 8) i = true ->
             Z.testbit f i = false) <-> f < 256) as ->.
  - split.
    + intros H. destruct (Z.lt_ge_cases f 256) as [|Hge]; [done|exfalso].
      assert (8 <= Z.log2 f < 32) as Hlog.
      { split; [by apply (Z.log2_le_mono 256)|]. apply Z.log2_lt_pow2; lia. }
      specialize (H (Z.log2 f) ltac:(lia)).
      rewrite Z.shiftl_spec, Z.ones_spec_low, Z.bit_log2 in H by lia. by specialize (H eq_refl).
    + intros Hlt i Hi. rewrite Z.shiftl_spec by lia. intros Hb.
      destruct (Z.lt_ge_cases i 8); [by rewrite Z.testbit_neg_r in Hb by lia|].
      rewrite <- (Z.mod_small f (2 ^ 8)) by lia. by apply Z.mod_pow2_bits_high.
  - split; [intros [[? ?] ?]|intros (? & ? & ?)]; split_and?; try lia.
    + rewrite (Z.mod_small (f / 16)) in * by
        (split; [apply Z.div_pos; lia | apply Z.div_lt_upper_bound; lia]). done.
    + rewrite Z.mod_small; [done|].
      split; [apply Z.div_pos; lia | apply Z.div_lt_upper_bound; lia].
Qed.

(** ** The law as the ordered clauses the code tests *)
Record profile_wf (p : laplace_source_profile_manifest) : Prop := {
  wf_coordinate : key_wf (coordinate p);
  wf_fingerprints : Forall (bytes 32) (fingerprints p);
  wf_denominators : Forall (fun v => is_u64 v) (denominators p);
  wf_closure : is_u64 (closure_subject_count p);
  wf_dispositions : Forall (fun v => is_u64 v) (dispositions p);
  wf_mask : is_u64 (not_applicable_mask p);
  wf_class : is_u32 (reconstruction_class p);
  wf_flags : is_u32 (flags p) }.

Section Law.
Context {B : Blake3}.
Variable kinds : list laplace_highway_kind_contract_row.

Definition coordinate_lawful (key : laplace_highway_key) : Prop :=
  key_kind key = LAPLACE_HIGHWAY_KIND_SOURCE_PROFILE /\
  validate_key kinds (Some key) = LAPLACE_HIGHWAY_OK /\
  take 16 (blake3 (key_transcript "laplace-highway-coordinate-v1" key)) <> zeros 16.

(** Each clause with the status that reports it broken. *)
Definition closure_law (p : laplace_source_profile_manifest)
    : list (Prop * laplace_source_profile_status) :=
  [(coordinate_lawful (coordinate p), LAPLACE_SOURCE_PROFILE_COORDINATE_INVALID);
   (Forall (fun f => f <> zeros 32) (fingerprints p),
    LAPLACE_SOURCE_PROFILE_FINGERPRINT_MISSING);
   (denominators_lawful p, LAPLACE_SOURCE_PROFILE_DENOMINATOR_INVALID);
   (1 <= reconstruction_class p <= 3, LAPLACE_SOURCE_PROFILE_RECONSTRUCTION_INVALID);
   (flags p < 256 /\ flags p mod 16 <= 4 /\ flags p / 16 <= 8,
    LAPLACE_SOURCE_PROFILE_INVALID_ARGUMENT);
   (closure_subject_count p <> 0, LAPLACE_SOURCE_PROFILE_DISPOSITION_INVALID);
   (sum_of id (dispositions p) <= UINT64_MAX, LAPLACE_SOURCE_PROFILE_OVERFLOW);
   (dispositions_lawful p, LAPLACE_SOURCE_PROFILE_DISPOSITION_INVALID)].

Definition profile_lawful (p : laplace_source_profile_manifest) : Prop :=
  Forall fst (closure_law p).
End Law.

(** The status is that of the first broken clause. *)
Fixpoint verdict (law : list (Prop * laplace_source_profile_status))
    (status : laplace_source_profile_status) : Prop :=
  match law with
  | [] => status = LAPLACE_SOURCE_PROFILE_OK
  | (clause, broken) :: rest => (clause /\ verdict rest status) \/ (~ clause /\ status = broken)
  end.

(** One early return of a chain of checks. *)
Lemma verdict_guard {A} (Q : laplace_source_profile_status -> A -> Prop) clause broken rest
    (b : bool) out (k : laplace_source_profile_status * A) :
  (b = false <-> clause) -> Q broken out ->
  (let '(status, result) := k in verdict rest status /\ Q status result) ->
  let '(status, result) := if b then (broken, out) else k in
  verdict ((clause, broken) :: rest) status /\ Q status result.
Proof.
  intros Hb Hq Hk. cbn [verdict]. destruct b.
  - split; [|done]. right. split; [by intros H%Hb | done].
  - destruct k as [status result]. destruct Hk as [Hv ?].
    split; [|done]. left. split; [by apply Hb | done].
Qed.

Lemma verdict_ok law status :
  Forall (fun c => c.2 <> LAPLACE_SOURCE_PROFILE_OK) law -> verdict law status ->
  status = LAPLACE_SOURCE_PROFILE_OK <-> Forall fst law.
Proof.
  induction 1 as [|[clause broken] law Hb _ IH]; cbn [verdict]; [naive_solver|].
  rewrite Forall_cons. cbn [fst snd] in *. naive_solver.
Qed.

(** What a manifest declares: every field but its identity. *)
Definition declaration (p : laplace_source_profile_manifest) :=
  (coordinate p, fingerprints p, denominators p, closure_subject_count p, dispositions p,
   not_applicable_mask p, reconstruction_class p, flags p).

Definition key_code (key : laplace_highway_key) : list Z :=
  store_le 4 (key_kind key) ++ authority key ++ release key ++ name_space key ++
  local_identifier key ++ store_le 8 (key_version key).

Definition profile_code (p : laplace_source_profile_manifest) : list Z :=
  key_code (coordinate p) ++ concat (map id (fingerprints p)) ++
  concat (map (store_le 8) (denominators p)) ++ store_le 8 (closure_subject_count p) ++
  concat (map (store_le 8) (dispositions p)) ++ store_le 8 (not_applicable_mask p) ++
  store_le 4 (reconstruction_class p) ++ store_le 4 (flags p).

Definition identity_transcript (p : laplace_source_profile_manifest) : list Z :=
  domain_bytes "laplace-source-profile-v1" ++ profile_code p.

Lemma words_code : prefix_code (fun v => is_u64 v) (store_le 8).
Proof. intros v w x y Hv Hw H. by apply app_u64_inj in H. Qed.

Lemma digests_code : prefix_code (bytes 32) id.
Proof. intros v w x y Hv Hw H. by apply (app_bytes_inj 32) in H. Qed.

Lemma key_code_prefix : prefix_code (fun k => key_wf k /\ key_reserved k = 0) key_code.
Proof.
  intros v w x y [[] Hrv] [[] Hrw] H. unfold key_code in H. peel H. split; [|done].
  destruct v, w; simpl in *; congruence.
Qed.

Section Identification.
Context {B : Blake3} {L : Blake3Laws B}.
Variable kinds : list laplace_highway_kind_contract_row.
Implicit Types (p v w : laplace_source_profile_manifest).

Lemma absorbs_profile h m p :
  absorbs h m -> absorbs (hash_profile h p false) (m ++ profile_code p).
Proof.
  intros Hm. unfold hash_profile, hash_dispositions, hash_denominators, hash_fingerprints,
    hash_key, profile_code, key_code. rewrite !app_assoc.
  apply absorbs_u32, absorbs_u32, absorbs_u64, absorbs_fold; [by apply absorbs_u64|].
  apply absorbs_u64, absorbs_fold; [by apply absorbs_u64|].
  apply absorbs_fold; [apply absorbs_update|]. absorb.
Qed.

Lemma absorbs_profile_with_id h m p :
  absorbs h m -> absorbs (hash_profile h p true) (m ++ profile_id p ++ profile_code p).
Proof.
  intros Hm. rewrite app_assoc. apply (absorbs_profile _ _ p). by apply absorbs_update.
Qed.

Lemma coordinate_guard p :
  negb (negb (key_kind (coordinate p) =? LAPLACE_HIGHWAY_KIND_SOURCE_PROFILE) ||
    match laplace_highway_coordinate_calculate kinds (Some (coordinate p))
            (Some zero_coordinate) with
    | (LAPLACE_HIGHWAY_OK, _) => false
    | _ => true
    end) = true <-> coordinate_lawful kinds (coordinate p).
Proof.
  unfold coordinate_lawful, laplace_highway_coordinate_calculate. cbn [is_null].
  rewrite <- key_digest_transcript.
  assert (Hz : bytes_zero (take 16 (key_digest "laplace-highway-coordinate-v1"
                (coordinate p))) = true <->
          take 16 (key_digest "laplace-highway-coordinate-v1" (coordinate p)) = zeros 16).
  { apply bytes_zero_zeros, (bytes_take 32); [|lia]. rewrite key_digest_transcript.
    apply blake3_bytes. }
  destruct (Z.eqb_spec (key_kind (coordinate p)) 17) as [Ek|Ek]; cbn [negb orb];
    [|naive_solver].
  destruct (validate_key kinds (Some (coordinate p))) eqn:Ev;
    try (split; [done | by intros (_ & H & _)]).
  destruct (bytes_zero (take 16 _)); simpl.
  - split; [done|]. intros (_ & _ & H). destruct H. by apply Hz.
  - split; [|done]. intros _. split_and!; [done|done|]. by intros H%Hz.
Qed.

Lemma fingerprints_valid_spec p :
  Forall (bytes 32) (fingerprints p) ->
  fingerprints_valid p = true <-> Forall (fun f => f <> zeros 32) (fingerprints p).
Proof.
  intros Hb. unfold fingerprints_valid.
  induction Hb as [|f fs Hf Hfs IH]; simpl; [split; [constructor|done]|].
  rewrite andb_true_iff, IH, Forall_cons, negb_true_iff.
  rewrite <- not_true_iff_false, (bytes_zero_zeros 32) by done. done.
Qed.

(** Identification reports the first broken clause, and digests a manifest that
    breaks none. *)
Lemma profile_identify_spec p out :
  profile_wf p ->
  let '(status, id) := laplace_source_profile_identify kinds (Some p) (Some out) in
  verdict (closure_law kinds p) status /\
  id = if decide (status = LAPLACE_SOURCE_PROFILE_OK)
       then Some (blake3 (identity_transcript p)) else Some out.
Proof.
  intros [Hk Hf Hd Hc Hs Hm Hcl Hfl].
  assert (Hs' : Forall (fun n => 0 <= n) (dispositions p)).
  { eapply Forall_impl; [exact Hs|]. cbv beta. intros; lia. }
  set (Q := fun st id => id = if decide (st = LAPLACE_SOURCE_PROFILE_OK)
       then Some (blake3 (identity_transcript p)) else Some out).
  destruct (dispositions_validate_spec p Hs' Hc) as (Hok & Hov & Hin).
  unfold laplace_source_profile_identify, closure_law.
  apply (verdict_guard Q); [rewrite <- negb_true_iff; apply coordinate_guard | done |].
  apply (verdict_guard Q); [rewrite negb_false_iff; by apply fingerprints_valid_spec | done |].
  apply (verdict_guard Q); [rewrite negb_false_iff; by apply denominators_valid_spec | done |].
  apply (verdict_guard Q); [rewrite orb_false_iff, !Z.ltb_ge; lia | done |].
  apply (verdict_guard Q); [rewrite negb_false_iff; by apply flags_valid_spec | done |].
  destruct (dispositions_validate p) eqn:E; try (exfalso; revert Hin; check).
  - destruct (proj1 Hok eq_refl) as [Hp Hsum Hl].
    split; [|unfold Q; rewrite decide_True by done; cbn [store]; f_equal; apply absorbs_finalize;
             apply absorbs_profile; absorb].
    left. split; [done|]. left. split; [lia|]. left. by split.
  - split; [|done]. destruct (Z.eq_dec (closure_subject_count p) 0); [right; split; [tauto|done]|].
    left. split; [done|]. left. split.
    { apply Z.nlt_ge. intros Hlt. by assert (LAPLACE_SOURCE_PROFILE_DISPOSITION_INVALID =
        LAPLACE_SOURCE_PROFILE_OVERFLOW) by (apply Hov; split; done). }
    right. split; [|done]. intros H. by apply Hok in H.
  - split; [|done]. destruct (proj1 Hov eq_refl) as [Hne Hlt].
    left. split; [done|]. right. split; [lia|done].
Qed.

(** The identification law of a manifest known to be lawful or not. *)
Lemma lawful_identify p out :
  profile_wf p -> profile_lawful kinds p ->
  laplace_source_profile_identify kinds (Some p) (Some out) =
  (LAPLACE_SOURCE_PROFILE_OK, Some (blake3 (identity_transcript p))).
Proof.
  intros Hwf Hl. pose proof (profile_identify_spec p out Hwf) as H.
  destruct (laplace_source_profile_identify _ _ _) as [st o]. destruct H as [Hv ->].
  apply verdict_ok in Hv; [|by repeat constructor].
  apply Hv in Hl as ->. by rewrite decide_True.
Qed.

Lemma unlawful_identify p out :
  profile_wf p -> ~ profile_lawful kinds p ->
  exists st, laplace_source_profile_identify kinds (Some p) (Some out) = (st, Some out) /\
    st <> LAPLACE_SOURCE_PROFILE_OK.
Proof.
  intros Hwf Hl. pose proof (profile_identify_spec p out Hwf) as H.
  destruct (laplace_source_profile_identify _ _ _) as [st o]. destruct H as [Hv ->].
  apply verdict_ok in Hv; [|by repeat constructor].
  assert (st <> LAPLACE_SOURCE_PROFILE_OK) by (intros ->; by apply Hl, Hv).
  exists st. by rewrite decide_False.
Qed.

Lemma lawful_reserved p : profile_lawful kinds p -> key_reserved (coordinate p) = 0.
Proof.
  intros [(_ & H & _) _]%Forall_cons. unfold validate_key in H.
  destruct (Z.eqb_spec (key_reserved (coordinate p)) 0); [done|discriminate].
Qed.

Lemma profile_code_inj v w :
  profile_wf v -> profile_wf w -> profile_lawful kinds v -> profile_lawful kinds w ->
  profile_code v = profile_code w -> declaration v = declaration w.
Proof.
  intros Hv Hw Hlv%lawful_reserved Hlw%lawful_reserved H.
  destruct Hv as [Hk Hf Hd Hc Hs Hm Hcl Hfl], Hw as [Hk' Hf' Hd' Hc' Hs' Hm' Hcl' Hfl'].
  rewrite <- (app_nil_r (profile_code v)), <- (app_nil_r (profile_code w)) in H.
  unfold profile_code in H. rewrite <- !app_assoc in H.
  apply key_code_prefix in H as [E1 H]; [|done..].
  apply (prefix_code_list (bytes 32) id digests_code) in H as [E2 H]; [|done..].
  apply (prefix_code_list _ _ words_code) in H as [E3 H]; [|done..].
  apply app_u64_inj in H as [E4 H]; [|done..].
  apply (prefix_code_list _ _ words_code) in H as [E5 H]; [|done..].
  apply app_u64_inj in H as [E6 H]; [|done..].
  apply app_u32_inj in H as [E7 H]; [|done..].
  apply app_u32_inj in H as [E8 _]; [|done..].
  unfold declaration. congruence.
Qed.
End Identification.

(** ** The batch *)
Definition negative_of (p : laplace_source_profile_manifest) : Z :=
  rejected_count p + lossy_count p + unsupported_count p + malformed_count p +
  unresolved_count p.

Definition class_count (class : Z) (ps : list laplace_source_profile_manifest) : Z :=
  Z.of_nat (length (filter (fun p => reconstruction_class p = class) ps)).

(** The receipt once the profiles [ps] have been counted into it. *)
Definition receipt_after (ps : list laplace_source_profile_manifest)
    : laplace_source_profile_receipt :=
  mk_receipt (zeros 32) (zeros 32) (zeros 32) (zeros 32) 0
    (sum_of closure_subject_count ps) (sum_of persisted_count ps) (sum_of negative_of ps)
    (class_count LAPLACE_SOURCE_PROFILE_RECONSTRUCTION_EXACT ps)
    (class_count LAPLACE_SOURCE_PROFILE_RECONSTRUCTION_SEMANTIC ps)
    (class_count LAPLACE_SOURCE_PROFILE_RECONSTRUCTION_NONE ps)
    LAPLACE_SOURCE_PROFILE_VERSION 0.

Section BatchLaw.
Context {B : Blake3}.
Variable kinds : list laplace_highway_kind_contract_row.

(** What one more profile must satisfy after the profiles [ps]. *)
Definition extension_law (ps : list laplace_source_profile_manifest)
    (p : laplace_source_profile_manifest) : list (Prop * laplace_source_profile_status) :=
  closure_law kinds p ++
  [(profile_id p = blake3 (identity_transcript p), LAPLACE_SOURCE_PROFILE_IDENTITY_MISMATCH);
   (match last ps with
    | None => True
    | Some q => memcmp (profile_id q) (profile_id p) = Lt
    end, LAPLACE_SOURCE_PROFILE_ORDER_INVALID);
   (match head ps with
    | None => True
    | Some q => selected_boundary_fingerprint q = selected_boundary_fingerprint p
    end, LAPLACE_SOURCE_PROFILE_BOUNDARY_MISMATCH);
   (sum_of closure_subject_count (ps ++ [p]) <= UINT64_MAX, LAPLACE_SOURCE_PROFILE_OVERFLOW)].

(** What a batch must satisfy to be validated. *)
Record profiles_accepted (ps : list laplace_source_profile_manifest) : Prop := {
  accepted_profiles : Forall (fun p => profile_lawful kinds p /\
    profile_id p = blake3 (identity_transcript p)) ps;
  accepted_order : StronglySorted (fun a b => memcmp (profile_id a) (profile_id b) = Lt) ps;
  accepted_boundary : homogeneous selected_boundary_fingerprint ps;
  accepted_subjects : sum_of closure_subject_count ps <= UINT64_MAX }.

Lemma extension_law_reported ps p :
  Forall (fun c => c.2 <> LAPLACE_SOURCE_PROFILE_OK) (extension_law ps p).
Proof. repeat constructor; done. Qed.

Lemma profiles_accepted_nil : profiles_accepted [].
Proof. split; [constructor..| |done]. intros a b Ha. by apply not_elem_of_nil in Ha. Qed.

(** The clauses extend an accepted batch exactly. *)
Lemma extension_law_spec ps p :
  profiles_accepted ps -> Forall fst (extension_law ps p) <-> profiles_accepted (ps ++ [p]).
Proof.
  intros [Hid Ho Hb Hs]. unfold extension_law. rewrite Forall_app.
  fold (profile_lawful kinds p). rewrite !Forall_cons, Forall_nil. cbn [fst].
  pose proof (StronglySorted_extend
    (fun a b => memcmp (profile_id a) (profile_id b) = Lt) ps p Ho) as Horder.
  assert (Hbound : homogeneous selected_boundary_fingerprint (ps ++ [p]) <->
    match head ps with
    | None => True
    | Some q => selected_boundary_fingerprint q = selected_boundary_fingerprint p
    end).
  { destruct ps as [|q ps]; simpl.
    - split; [done|]. intros _ a b Ha%list_elem_of_singleton Hb'%list_elem_of_singleton.
      congruence.
    - by apply (homogeneous_extend _ (q :: ps)). }
  cbv beta in Horder. rewrite <- Horder, <- Hbound. split.
  - intros (Hl & Hi & Hord & Hbd & Hsum & _). split; [|done..].
    apply Forall_app. split; [done|]. by apply Forall_singleton.
  - intros [Hall Hord Hbd Hsum]. apply Forall_app in Hall as [_ Hall].
    apply Forall_cons in Hall as [[Hl Hi] _]. done.
Qed.

Lemma profiles_accepted_prefix ps qs :
  Forall profile_wf (ps ++ qs) -> profiles_accepted (ps ++ qs) -> profiles_accepted ps.
Proof.
  intros [_ Hwf]%Forall_app [Hid Ho Hb Hs]. split.
  - by apply Forall_app in Hid as [? _].
  - clear -Ho. induction ps as [|x ps IH]; simpl in *; [constructor|].
    apply StronglySorted_inv in Ho as [Ho Hx]. apply Forall_app in Hx as [Hx _].
    constructor; auto.
  - intros a b Ha Hb'. apply Hb; set_solver.
  - rewrite sum_of_app in Hs. pose proof (sum_of_nonneg closure_subject_count qs) as Hn.
    assert (0 <= sum_of closure_subject_count qs); [|lia].
    apply Hn. eapply Forall_impl; [exact Hwf|]. intros q [? ? ? Hc ? ? ? ?]. lia.
Qed.
End BatchLaw.

Lemma verdict_app l1 l2 st st' :
  Forall (fun c => c.2 <> LAPLACE_SOURCE_PROFILE_OK) l1 -> verdict l1 st' ->
  (st' = LAPLACE_SOURCE_PROFILE_OK -> verdict l2 st) ->
  (st' <> LAPLACE_SOURCE_PROFILE_OK -> st = st') -> verdict (l1 ++ l2) st.
Proof.
  induction 1 as [|[clause broken] l1 Hb _ IH]; cbn [verdict app]; [naive_solver|].
  cbn [snd] in Hb. intros [[Hc Hv]|[Hc ->]] H1 H2; [left; auto|].
  right. split; [done|]. by apply H2.
Qed.

(** ** The receipt is balanced *)
Lemma sum_of_le {A} (f g : A -> Z) l :
  Forall (fun a => f a <= g a) l -> sum_of f l <= sum_of g l.
Proof. induction 1; unfold sum_of in *; simpl; lia. Qed.

Lemma lawful_balanced {B : Blake3} kinds p :
  profile_wf p -> profile_lawful kinds p ->
  0 <= persisted_count p /\ 0 <= negative_of p /\
  Forall (fun n => 0 <= n) [rejected_count p; lossy_count p; unsupported_count p;
                            malformed_count p; unresolved_count p] /\
  persisted_count p + negative_of p <= closure_subject_count p.
Proof.
  intros [_ _ _ _ Hd _ _ _] Hl. unfold profile_lawful, closure_law in Hl.
  do 7 apply Forall_cons in Hl as [_ Hl]. apply Forall_cons in Hl as [[_ Hsum _] _].
  unfold dispositions in *. unfold sum_of in Hsum. cbn [foldr] in Hsum. unfold id in Hsum.
  repeat (apply Forall_cons in Hd as [? Hd]). unfold negative_of. split_and!; try lia.
  repeat constructor; lia.
Qed.

Lemma accepted_balanced {B : Blake3} kinds ps :
  Forall profile_wf ps -> profiles_accepted kinds ps ->
  0 <= sum_of persisted_count ps /\ 0 <= sum_of negative_of ps /\
  sum_of persisted_count ps + sum_of negative_of ps <= sum_of closure_subject_count ps.
Proof.
  intros Hwf [Hid _ _ _].
  assert (H : Forall (fun p => 0 <= persisted_count p /\ 0 <= negative_of p /\
    persisted_count p + negative_of p <= closure_subject_count p) ps).
  { rewrite Forall_forall in *. intros p Hp.
    destruct (lawful_balanced kinds p (Hwf p Hp) (proj1 (Hid p Hp))) as (? & ? & _ & ?). done. }
  clear -H. induction H as [|p ps Hp _ IH]; unfold sum_of in *; simpl; lia.
Qed.

Lemma class_count_snoc class ps p :
  class_count class (ps ++ [p]) =
  class_count class ps + (if decide (reconstruction_class p = class) then 1 else 0).
Proof.
  unfold class_count. rewrite filter_app, length_app, Nat2Z.inj_add. f_equal.
  rewrite filter_cons, filter_nil. by destruct (decide _).
Qed.

Lemma class_count_le class ps : 0 <= class_count class ps <= Z.of_nat (length ps).
Proof. unfold class_count. pose proof (length_filter (fun p => reconstruction_class p = class) ps). lia. Qed.

(** ** The loop *)
Section Batch.
Context {B : Blake3} {L : Blake3Laws B}.
Variable kinds : list laplace_highway_kind_contract_row.
Implicit Types (p first : laplace_source_profile_manifest)
  (ps : list laplace_source_profile_manifest).

Lemma add_u64_fits total value : total + value <= UINT64_MAX ->
  add_u64 total value = Some (total + value).
Proof. intros H. unfold add_u64. by rewrite (proj2 (Z.ltb_ge _ _)) by lia. Qed.

Lemma add_each_cons r add additions :
  add_each r (add :: additions) =
  match add r with None => (false, r) | Some r => add_each r additions end.
Proof. done. Qed.

Lemma add_negatives_fit i b x y n c pe e s no v st values : forall ne,
  Forall (fun value => 0 <= value) values -> ne + sum_of id values <= UINT64_MAX ->
  add_each (mk_receipt i b x y n c pe ne e s no v st)
    (map (fun value r => add_negative r value) values) =
  (true, mk_receipt i b x y n c pe (ne + sum_of id values) e s no v st).
Proof.
  induction values as [|value values IH]; intros ne Hv Hn; cbn [map add_each].
  { change (sum_of id []) with 0. by rewrite Z.add_0_r. }
  apply Forall_cons in Hv as [Hv0 Hv]. pose proof (sum_of_nonneg id values Hv).
  change (sum_of id (value :: values)) with (value + sum_of id values) in *.
  assert (add_negative (mk_receipt i b x y n c pe ne e s no v st) value =
    Some (mk_receipt i b x y n c pe (ne + value) e s no v st)) as ->.
  { unfold add_negative. cbn [negative_count]. by rewrite add_u64_fits by lia. }
  rewrite IH by (done || lia). by rewrite Z.add_assoc.
Qed.

(** As the dispositions of every profile close over its subjects, only the sum
    of the subjects can overflow, and then nothing has been added. *)
Lemma aggregate_spec ps p :
  profile_wf p -> profile_lawful kinds p -> Forall profile_wf ps -> profiles_accepted kinds ps ->
  aggregate (receipt_after ps) p =
  if UINT64_MAX <? sum_of closure_subject_count (ps ++ [p]) then (false, receipt_after ps)
  else (true, set_counts (receipt_after ps) (sum_of closure_subject_count (ps ++ [p]))
                (sum_of persisted_count (ps ++ [p])) (sum_of negative_of (ps ++ [p]))
                (exact_reconstruction_count (receipt_after ps))
                (semantic_reconstruction_count (receipt_after ps))
                (no_reconstruction_count (receipt_after ps))).
Proof.
  intros Hp Hl Hps Hacc.
  destruct (lawful_balanced kinds p Hp Hl) as (Hp0 & Hng & Hn & Hbal).
  destruct (accepted_balanced kinds ps Hps Hacc) as (Hs0 & Hn0 & Hsum).
  assert (Hneg : sum_of id [rejected_count p; lossy_count p; unsupported_count p;
    malformed_count p; unresolved_count p] = negative_of p).
  { unfold sum_of, negative_of, id. simpl. lia. }
  rewrite !sum_of_snoc. unfold aggregate, receipt_after.
  generalize (class_count 1 ps), (class_count 2 ps), (class_count 3 ps). intros e s no.
  rewrite add_each_cons. unfold add_closure at 1. cbn [receipt_closure_subject_count].
  unfold add_u64 at 1.
  destruct (Z.ltb_spec (UINT64_MAX - sum_of closure_subject_count ps)
    (closure_subject_count p)) as [Ho|Ho].
  { rewrite (proj2 (Z.ltb_lt _ _)) by lia. done. }
  rewrite (proj2 (Z.ltb_ge _ _)) by lia. cbn [fmap option_fmap option_map].
  rewrite add_each_cons. unfold add_persisted, set_counts.
  cbn [fmap option_fmap option_map receipt_id receipt_boundary_fingerprint input_fingerprint output_fingerprint
    receipt_profile_count receipt_closure_subject_count receipt_persisted_count negative_count
    exact_reconstruction_count semantic_reconstruction_count no_reconstruction_count version
    receipt_status].
  rewrite add_u64_fits by lia. cbn [fmap option_fmap option_map receipt_id receipt_boundary_fingerprint input_fingerprint output_fingerprint
    receipt_profile_count receipt_closure_subject_count receipt_persisted_count negative_count
    exact_reconstruction_count semantic_reconstruction_count no_reconstruction_count version
    receipt_status].
  rewrite <- Hneg. apply (add_negatives_fit _ _ _ _ _ _ _ _ _ _ _ _
    [rejected_count p; lossy_count p; unsupported_count p; malformed_count p;
     unresolved_count p]); [done|]. rewrite Hneg. lia.
Qed.

(** Counting the class of a lawful profile into its receipt. *)
Lemma count_reconstruction_spec ps p closure persisted negative :
  1 <= reconstruction_class p <= 3 -> Z.of_nat (length (ps ++ [p])) <= UINT64_MAX ->
  closure = sum_of closure_subject_count (ps ++ [p]) ->
  persisted = sum_of persisted_count (ps ++ [p]) ->
  negative = sum_of negative_of (ps ++ [p]) ->
  count_reconstruction
    (set_counts (receipt_after ps) closure persisted negative
       (exact_reconstruction_count (receipt_after ps))
       (semantic_reconstruction_count (receipt_after ps))
       (no_reconstruction_count (receipt_after ps))) (reconstruction_class p) =
  Some (receipt_after (ps ++ [p])).
Proof.
  intros Hc Hlen -> -> ->. rewrite length_app in Hlen. simpl in Hlen.
  unfold count_reconstruction, receipt_after. rewrite !class_count_snoc.
  pose proof (class_count_le 1 ps). pose proof (class_count_le 2 ps).
  pose proof (class_count_le 3 ps). cbn.
  destruct (Z.eqb_spec (reconstruction_class p) 1) as [E1|];
    [|destruct (Z.eqb_spec (reconstruction_class p) 2) as [E2|];
      [|destruct (Z.eqb_spec (reconstruction_class p) 3) as [E3|]; [|lia]]].
  all: repeat case_decide; try lia; rewrite u64_small, ?Z.add_0_r by lia; done.
Qed.

(** The checks of an iteration report the first broken clause of the law but
    the last. *)
Definition check_law ps p : list (Prop * laplace_source_profile_status) :=
  take 11 (extension_law kinds ps p).

Lemma check_profile_spec first ps p :
  profile_wf p -> head (ps ++ [p]) = Some first ->
  let '(status, f) := check_profile kinds first (last ps) p in
  verdict (check_law ps p) status /\
  (status <> LAPLACE_SOURCE_PROFILE_OK -> f ∈ [2; 6; 7; 8; 9]).
Proof.
  intros Hwf Hf. unfold check_profile.
  pose proof (profile_identify_spec kinds p (zeros 32) Hwf) as Hid.
  destruct (laplace_source_profile_identify kinds (Some p) (Some (zeros 32))) as [st out].
  destruct Hid as [Hv Hout].
  assert (Hfail : st <> LAPLACE_SOURCE_PROFILE_OK -> verdict (check_law ps p) st).
  { intros Hst. refine (verdict_app (closure_law kinds p) _ st st _ Hv _ _);
      [repeat constructor; done | done | done]. }
  destruct (decide (st = LAPLACE_SOURCE_PROFILE_OK)) as [->|Hne].
  2:{ destruct st; try done; (split; [by apply Hfail | intros _; check]). }
  subst out. cbn [default].
  set (Q := fun (st : laplace_source_profile_status) (f : Z) =>
              st <> LAPLACE_SOURCE_PROFILE_OK -> f ∈ [2; 6; 7; 8; 9]).
  match goal with |- let '(_, _) := ?k in _ =>
    assert (H : let '(st, f) := k in verdict
      (drop 8 (check_law ps p)) st /\ Q st f) end.
  - apply (verdict_guard Q); [|intros _; check|].
    { rewrite negb_false_iff, bytes_equal_spec. split; intros E; by symmetry. }
    apply (verdict_guard Q); [|intros _; check|].
    { destruct (last ps); [|done]. by destruct (memcmp _ _). }
    apply (verdict_guard Q); [|intros _; check|].
    { destruct ps as [|q ps _] using rev_ind; [done|]. rewrite last_snoc.
      assert (head (ps ++ [q]) = Some first) as ->.
      { rewrite <- Hf, <- app_assoc. by destruct ps. }
      by rewrite negb_false_iff, bytes_equal_spec. }
    split; [done|]. by intros [].
  - destruct (if negb _ then _ else _) as [st f]. destruct H as [H HQ]. split; [|done].
    refine (verdict_app (closure_law kinds p) (drop 8 (check_law ps p)) st _ _ Hv _ _);
      [repeat constructor; done | done | done].
Qed.

(** The state once the profiles [ps] of a batch of [n] have been read. *)
Definition state_after (n : Z) ps : batch_state :=
  mk_state (foldl (fun h p => hash_profile h p true) (input_hasher (initial_state n)) ps)
    (foldl (fun h p => blake3_hasher_update h (profile_id p)) (output_hasher (initial_state n))
       ps) (receipt_after ps).

Lemma profile_step_spec first n ps p i :
  Forall profile_wf (ps ++ [p]) -> profiles_accepted kinds ps ->
  head (ps ++ [p]) = Some first -> Z.of_nat (length (ps ++ [p])) <= UINT64_MAX ->
  let '(status, e, state) := profile_step kinds first (last ps) p i (state_after n ps) in
  verdict (extension_law kinds ps p) status /\
  (status = LAPLACE_SOURCE_PROFILE_OK -> state = state_after n (ps ++ [p])) /\
  (status <> LAPLACE_SOURCE_PROFILE_OK -> receipt state = receipt_after ps /\
     exists f, e = Some (mk_error i f 0) /\ f ∈ [2; 6; 7; 8; 9; 10]).
Proof.
  intros [Hwf Hp]%Forall_app Hacc Hf Hlen. apply Forall_cons in Hp as [Hp _].
  unfold profile_step. pose proof (check_profile_spec first ps p Hp Hf) as Hc.
  destruct (check_profile kinds first (last ps) p) as [st f]. destruct Hc as [Hv Hfield].
  assert (Hrep : Forall (fun c => c.2 <> LAPLACE_SOURCE_PROFILE_OK) (check_law ps p))
    by (repeat constructor; done).
  assert (Hsplit : extension_law kinds ps p = check_law ps p ++
    [(sum_of closure_subject_count (ps ++ [p]) <= UINT64_MAX, LAPLACE_SOURCE_PROFILE_OVERFLOW)])
    by done.
  destruct (decide (st = LAPLACE_SOURCE_PROFILE_OK)) as [->|Hne].
  2:{ assert (Hin : f ∈ [2; 6; 7; 8; 9; 10]) by (apply (elem_of_app [2; 6; 7; 8; 9] [10]); left; by apply Hfield).
      assert (Hv' : verdict (extension_law kinds ps p) st).
      { rewrite Hsplit. by apply (verdict_app _ _ st st). }
      destruct st; [done|..]; (split; [done|]; split; [done|]; intros _; split; [done|]);
        by exists f. }
  assert (Hl : profile_lawful kinds p).
  { apply verdict_ok in Hv; [|done]. destruct Hv as [Hv _]. specialize (Hv eq_refl).
    unfold check_law, extension_law in Hv. by apply (Forall_app _ (closure_law kinds p)) in Hv as [Hv _]. }
  cbn [receipt state_after]. rewrite aggregate_spec by done.
  destruct (Z.ltb_spec UINT64_MAX (sum_of closure_subject_count (ps ++ [p]))) as [Ho|Ho];
    cbn [negb].
  - split; [|split; [done|]; intros _; split; [done|]; exists 10; split; [done|check]].
    rewrite Hsplit. apply (verdict_app _ _ _ _ Hrep Hv); [|done].
    intros _. right. split; [lia|done].
  - rewrite count_reconstruction_spec; try done.
    2:{ unfold profile_lawful, closure_law in Hl.
        do 3 apply Forall_cons in Hl as [_ Hl]. by apply Forall_cons in Hl as [Hl _]. }
    split; [|split; [|done]].
    + rewrite Hsplit. apply (verdict_app _ _ _ _ Hrep Hv); [|done]. intros _. by left.
    + intros _. unfold state_after. by rewrite !foldl_snoc.
Qed.

(** The loop accepts a batch or stops at the first profile that breaks it, with
    the status of the clause broken and the profiles before it in the receipt. *)
Lemma profile_loop_spec first n qs : forall ps i,
  Forall profile_wf (ps ++ qs) -> profiles_accepted kinds ps ->
  head (ps ++ qs) = Some first -> i = Z.of_nat (length ps) ->
  Z.of_nat (length (ps ++ qs)) <= UINT64_MAX ->
  let '(status, e, state) := profile_loop kinds first (last ps) qs i (state_after n ps) in
  if decide (status = LAPLACE_SOURCE_PROFILE_OK)
  then profiles_accepted kinds (ps ++ qs) /\ state = state_after n (ps ++ qs)
  else exists k p f, (ps ++ qs) !! k = Some p /\ profiles_accepted kinds (take k (ps ++ qs)) /\
       ~ profiles_accepted kinds (take (S k) (ps ++ qs)) /\
       verdict (extension_law kinds (take k (ps ++ qs)) p) status /\
       receipt state = receipt_after (take k (ps ++ qs)) /\
       e = mk_error (Z.of_nat k) f 0 /\ f ∈ [2; 6; 7; 8; 9; 10].
Proof.
  induction qs as [|p qs IH]; intros ps i Hwf Hacc Hf Hi Hlen; cbn [profile_loop].
  { rewrite decide_True by done. by rewrite app_nil_r. }
  rewrite (cons_middle p ps qs), app_assoc in Hwf, Hf, Hlen.
  assert (Hwf1 : Forall profile_wf (ps ++ [p])) by (by apply Forall_app in Hwf as [? _]).
  assert (Hf1 : head (ps ++ [p]) = Some first) by (destruct ps; done).
  assert (Hlen1 : Z.of_nat (length (ps ++ [p])) <= UINT64_MAX)
    by (rewrite length_app in Hlen; lia).
  pose proof (profile_step_spec first n ps p i Hwf1 Hacc Hf1 Hlen1) as Hstep.
  destruct (profile_step kinds first (last ps) p i (state_after n ps)) as [[st e] state].
  destruct Hstep as (Hv & Hok & Hbad).
  pose proof (verdict_ok _ _ (extension_law_reported kinds ps p) Hv) as Hiff.
  rewrite (extension_law_spec kinds ps p Hacc) in Hiff.
  destruct (decide (st = LAPLACE_SOURCE_PROFILE_OK)) as [->|Hne].
  - rewrite (Hok eq_refl). specialize (IH (ps ++ [p]) (i + 1)). rewrite last_snoc in IH.
    rewrite (cons_middle p ps qs), app_assoc. apply IH; try done.
    + by apply Hiff.
    + rewrite length_app. simpl. lia.
  - destruct (Hbad Hne) as (Hr & f & -> & Hin). destruct st; [done|..];
      rewrite decide_False by done; exists (length ps), p, f; cbn [default];
      rewrite take_app_length, take_snoc, Hi;
      (split_and!; [by apply list_lookup_middle | done | by rewrite <- Hiff | done..]).
Qed.

(** ** The receipt of a whole batch *)
Definition receipt_transcript (r : laplace_source_profile_receipt) : list Z :=
  domain_bytes "laplace-source-profile-receipt-v1" ++ receipt_boundary_fingerprint r ++
  input_fingerprint r ++ output_fingerprint r ++ store_le 8 (receipt_profile_count r) ++
  store_le 8 (receipt_closure_subject_count r) ++ store_le 8 (receipt_persisted_count r) ++
  store_le 8 (negative_count r) ++ store_le 8 (exact_reconstruction_count r) ++
  store_le 8 (semantic_reconstruction_count r) ++ store_le 8 (no_reconstruction_count r) ++
  store_le 4 (version r) ++ store_le 4 (receipt_status r).

(** What the receipt of the profiles [ps] states of them. *)
Record receipt_of ps (r : laplace_source_profile_receipt) : Prop := {
  of_id : receipt_id r = blake3 (receipt_transcript r);
  of_boundary : Forall (fun p => selected_boundary_fingerprint p =
    receipt_boundary_fingerprint r) ps;
  of_input : input_fingerprint r =
    blake3 (domain_bytes "laplace-source-profile-input-v1" ++
            counted (fun p => profile_id p ++ profile_code p) ps);
  of_output : output_fingerprint r =
    blake3 (domain_bytes "laplace-source-profile-output-v1" ++ counted profile_id ps);
  of_count : receipt_profile_count r = Z.of_nat (length ps);
  of_subjects : receipt_closure_subject_count r = sum_of closure_subject_count ps;
  of_persisted : receipt_persisted_count r = sum_of persisted_count ps;
  of_negative : negative_count r = sum_of negative_of ps;
  of_exact : exact_reconstruction_count r = class_count 1 ps;
  of_semantic : semantic_reconstruction_count r = class_count 2 ps;
  of_none : no_reconstruction_count r = class_count 3 ps;
  of_version : version r = LAPLACE_SOURCE_PROFILE_VERSION /\ receipt_status r = 0 }.

Lemma finish_receipt_spec first ps :
  homogeneous selected_boundary_fingerprint ps -> head ps = Some first ->
  receipt_of ps (finish_receipt first (Z.of_nat (length ps))
                   (state_after (Z.of_nat (length ps)) ps)).
Proof.
  intros Hb Hf. unfold finish_receipt, state_after.
  split; cbn [with_id receipt receipt_after receipt_id receipt_boundary_fingerprint
    input_fingerprint output_fingerprint receipt_profile_count receipt_closure_subject_count
    receipt_persisted_count negative_count exact_reconstruction_count
    semantic_reconstruction_count no_reconstruction_count version receipt_status
    input_hasher output_hasher]; try done.
  - apply absorbs_finalize. unfold hash_receipt, receipt_transcript.
    cbn [with_id receipt receipt_after receipt_boundary_fingerprint
      input_fingerprint output_fingerprint receipt_profile_count receipt_closure_subject_count
      receipt_persisted_count negative_count exact_reconstruction_count
      semantic_reconstruction_count no_reconstruction_count version receipt_status].
    absorb.
  - apply Forall_forall. intros p Hp. apply Hb; [done|]. destruct ps; [done|].
    injection Hf as ->. left.
  - apply absorbs_finalize. unfold counted. rewrite app_assoc.
    apply (absorbs_fold (fun h p => hash_profile h p true)); 
      [intros; by apply absorbs_profile_with_id|]. cbn [initial_state input_hasher]. absorb.
  - apply absorbs_finalize. unfold counted. rewrite app_assoc.
    apply (absorbs_fold (fun h p => blake3_hasher_update h (profile_id p)));
      [intros; by apply absorbs_update|]. cbn [initial_state output_hasher]. absorb.
Qed.
End Batch.

Lemma accepted_classes {B : Blake3} kinds ps :
  profiles_accepted kinds ps ->
  class_count 1 ps + class_count 2 ps + class_count 3 ps = Z.of_nat (length ps).
Proof.
  intros [Hid _ _ _]. induction ps as [|p ps IH] using rev_ind; [done|].
  apply Forall_app in Hid as [Hps%IH Hid]. apply Forall_cons in Hid as [[Hl _] _].
  unfold profile_lawful, closure_law in Hl. do 3 apply Forall_cons in Hl as [_ Hl].
  apply Forall_cons in Hl as [Hl _]. cbn [fst] in Hl.
  rewrite !class_count_snoc, length_app. simpl. repeat case_decide; lia.
Qed.

(** Every call on a well-formed batch ends in one of two ways. *)
Lemma batch_outcome {B : Blake3} {L : Blake3Laws B} kinds ps r0 e0 :
  1 <= Z.of_nat (length ps) <= UINT64_MAX -> Forall profile_wf ps ->
  let run := laplace_source_profile_validate_batch kinds (Some ps) (Z.of_nat (length ps))
               (Some r0) (Some e0) in
  (exists r, profiles_accepted kinds ps /\ receipt_of ps r /\
     run = (LAPLACE_SOURCE_PROFILE_OK, Some r, Some no_error)) \/
  (exists status k p f, status <> LAPLACE_SOURCE_PROFILE_OK /\ ps !! k = Some p /\
     profiles_accepted kinds (take k ps) /\ ~ profiles_accepted kinds (take (S k) ps) /\
     ~ profiles_accepted kinds ps /\ verdict (extension_law kinds (take k ps) p) status /\
     f ∈ [2; 6; 7; 8; 9; 10] /\
     run = (status, Some (receipt_after (take k ps)), Some (mk_error (Z.of_nat k) f 0))).
Proof.
  intros Hn Hwf. unfold laplace_source_profile_validate_batch. ptrs.
  rewrite (proj2 (Z.eqb_neq _ _)) by lia. cbn [orb]. rewrite cells_all by done.
  destruct ps as [|first rest]; [simpl in Hn; lia|].
  set (all := first :: rest) in *. set (len := Z.of_nat (length all)) in *.
  pose proof (profile_loop_spec kinds first len all [] 0 Hwf (profiles_accepted_nil kinds)
    eq_refl eq_refl (proj2 Hn)) as H.
  change (state_after len []) with (initial_state len) in H.
  change (last []) with (@None laplace_source_profile_manifest) in H.
  change ([] ++ all) with all in H.
  destruct (profile_loop kinds first None all 0 (initial_state len)) as [[status e] state].
  case_decide as Hst.
  - subst status. destruct H as [Hacc ->]. left. eexists. split; [exact Hacc|].
    split; [|done]. apply finish_receipt_spec; [apply Hacc | done].
  - destruct H as (k & p & f & Hk & Hpre & Hno & Hv & Hr & -> & Hf). right.
    exists status, k, p, f. split_and!; try done.
    + intros Hacc. apply Hno. apply (profiles_accepted_prefix _ _ (drop (S k) all));
        by rewrite take_drop.
    + subst all. cbn [store]. rewrite <- Hr. by destruct status.
Qed.

(** a profile is identified by everything it declares.  Identification
    reports the first broken clause of the closure law (coordinate of the right
    kind, no fingerprint missing, denominators and mask consistent, a known
    reconstruction class, known flags, subjects present, disposition counts that
    fit 64 bits, sum to the subjects and lose nothing under exact
    reconstruction) and writes nothing, or digests the profile; the digested
    transcript is shared by exactly the lawful profiles that declare the same. *)
Theorem profile_identity {B : Blake3} {L : Blake3Laws B} kinds v w out :
  profile_wf v -> profile_wf w ->
  (let '(status, id) := laplace_source_profile_identify kinds (Some v) (Some out) in
   verdict (closure_law kinds v) status /\
   (status = LAPLACE_SOURCE_PROFILE_OK <-> profile_lawful kinds v) /\
   id = if decide (status = LAPLACE_SOURCE_PROFILE_OK)
        then Some (blake3 (identity_transcript v)) else Some out) /\
  (profile_lawful kinds v -> profile_lawful kinds w ->
   (identity_transcript v = identity_transcript w <-> declaration v = declaration w)).
Proof.
  intros Hv Hw. split.
  - pose proof (profile_identify_spec kinds v out Hv) as H.
    destruct (laplace_source_profile_identify _ _ _) as [st o]. destruct H as [H ->].
    split_and!; [done| |done]. apply (verdict_ok (closure_law kinds v)); [|done].
    repeat constructor; done.
  - intros Hlv Hlw. unfold identity_transcript. split.
    + intros H%app_inv_head. by apply (profile_code_inj kinds).
    + unfold declaration, profile_code. intros H. congruence.
Qed.

(** C23: validating source profiles is exact.  A batch is validated if and only if
    every profile is lawful and carries its own identity, identities increase
    strictly, all profiles share one selected boundary and their closure
    subjects sum to a 64-bit word; the receipt then fingerprints the profiles
    and their identities and counts subjects, persisted and negative
    dispositions and reconstruction classes.  Otherwise the error names the
    first profile at fault, the status is that of the first clause it breaks,
    and the receipt holds the counts of the profiles before it and no
    identity. *)
Theorem profile_batch_exact {B : Blake3} {L : Blake3Laws B} kinds ps n r0 e0 :
  n = Z.of_nat (length ps) -> 1 <= n <= UINT64_MAX -> Forall profile_wf ps ->
  let '(status, receipt', error') :=
    laplace_source_profile_validate_batch kinds (Some ps) n (Some r0) (Some e0) in
  (status = LAPLACE_SOURCE_PROFILE_OK <-> profiles_accepted kinds ps) /\
  (status = LAPLACE_SOURCE_PROFILE_OK ->
     error' = Some no_error /\ exists r, receipt' = Some r /\ receipt_of ps r) /\
  (status <> LAPLACE_SOURCE_PROFILE_OK ->
     exists k p f, ps !! k = Some p /\ profiles_accepted kinds (take k ps) /\
       ~ profiles_accepted kinds (take (S k) ps) /\
       verdict (extension_law kinds (take k ps) p) status /\
       receipt' = Some (receipt_after (take k ps)) /\
       error' = Some (mk_error (Z.of_nat k) f 0) /\ f ∈ [2; 6; 7; 8; 9; 10]).
Proof.
  intros -> Hn Hwf.
  destruct (batch_outcome kinds ps r0 e0 Hn Hwf)
    as [(r & Hacc & Hr & ->) | (st & k & p & f & Hst & Hk & Hpre & Hno & Hnot & Hv & Hf & ->)].
  - split; [done|]. split; [|done]. intros _. split; [done|]. by exists r.
  - split; [by split|]. split; [done|]. intros _. by exists k, p, f.
Qed.

(** the counts of a validation are balanced.  Whatever the batch, the receipt
    left by a validation counts no more persisted and negative dispositions
    than closure subjects, all within 64 bits, and after success every profile
    falls into exactly one reconstruction class; only a receipt of a successful
    call carries a profile count and fingerprints. *)
Theorem profile_receipt_balanced {B : Blake3} {L : Blake3Laws B} kinds ps n r0 e0 r status e :
  n = Z.of_nat (length ps) -> 1 <= n <= UINT64_MAX -> Forall profile_wf ps ->
  laplace_source_profile_validate_batch kinds (Some ps) n (Some r0) (Some e0) =
    (status, Some r, e) ->
  0 <= receipt_persisted_count r /\ 0 <= negative_count r /\
  receipt_persisted_count r + negative_count r <= receipt_closure_subject_count r /\
  receipt_closure_subject_count r <= UINT64_MAX /\
  exact_reconstruction_count r + semantic_reconstruction_count r +
    no_reconstruction_count r =
  (if decide (status = LAPLACE_SOURCE_PROFILE_OK) then n
   else match e with Some e => profile_index e | None => 0 end) /\
  (status <> LAPLACE_SOURCE_PROFILE_OK ->
   receipt_id r = zeros 32 /\ input_fingerprint r = zeros 32 /\
   output_fingerprint r = zeros 32 /\ receipt_profile_count r = 0).
Proof.
  intros -> Hn Hwf Hrun.
  destruct (batch_outcome kinds ps r0 e0 Hn Hwf)
    as [(r' & Hacc & [_ _ _ _ _ Hc Hp Hng H1 H2 H3 _] & E)
       |(st & k & p & f & Hst & Hk & Hpre & _ & _ & _ & _ & E)];
    rewrite Hrun in E; injection E as -> -> ->.
  - destruct (accepted_balanced kinds ps Hwf Hacc) as (? & ? & ?).
    rewrite decide_True by done. rewrite Hc, Hp, Hng, H1, H2, H3.
    rewrite (accepted_classes kinds ps Hacc). split_and!; try done; apply Hacc.
  - assert (Hwf' : Forall profile_wf (take k ps)) by by apply Forall_take.
    destruct (accepted_balanced kinds (take k ps) Hwf' Hpre) as (? & ? & ?).
    rewrite decide_False by done. cbn [receipt_after receipt_persisted_count negative_count
      receipt_closure_subject_count exact_reconstruction_count semantic_reconstruction_count
      no_reconstruction_count profile_index].
    rewrite (accepted_classes kinds (take k ps) Hpre), length_take_le
      by (apply lookup_lt_Some in Hk; lia).
    split_and!; try done; apply Hpre.
Qed.

(** ** A batch of a raw observation and a curated profile *)
Definition profile_kinds : list laplace_highway_kind_contract_row :=
  [mk_kind_row 17 (domain_bytes "source-profile") 2 0].
Definition profile_key (release : Z) : laplace_highway_key :=
  mk_key 17 0 (replicate 16 1) (replicate 16 release) (replicate 16 3) (replicate 16 4) 1.

(** The profile with a declared number of records and fields. *)
Definition draft_profile (id : laplace_digest256) (release records mask class flags : Z)
    : laplace_source_profile_manifest :=
  mk_manifest id (profile_key release) (replicate 32 1) (replicate 32 2) (replicate 32 3)
    (replicate 32 4) (replicate 32 5) (replicate 32 6) (replicate 32 7) (replicate 32 8)
    (replicate 32 9) (replicate 32 10) (replicate 32 11) (replicate 32 12)
    10 0 0 1 records records 3 3 0 0 2 0 0 0 0 0 2 5 0 1 0 0 0 0 0 0 0 4 0 mask class flags.

Definition identified (p : laplace_source_profile_manifest) : laplace_digest256 :=
  default [] (laplace_source_profile_identify (B := checksum_blake3) profile_kinds (Some p)
                (Some (zeros 32))).2.

(** A raw observation (flags 0x42, mask of records and fields) and a profile of
    a curated dataset with two records. *)
Definition raw_profile : laplace_source_profile_manifest :=
  draft_profile (identified (draft_profile (zeros 32) 2 0 48 1 66)) 2 0 48 1 66.
Definition curated_profile : laplace_source_profile_manifest :=
  draft_profile (identified (draft_profile (zeros 32) 9 2 0 2 33)) 9 2 0 2 33.
Definition sample_profiles : list laplace_source_profile_manifest :=
  [curated_profile; raw_profile].
Local Abbreviation sample_run := (laplace_source_profile_validate_batch (B := checksum_blake3)
  profile_kinds (Some sample_profiles) 2 (Some empty_receipt) (Some no_error)).

Lemma draft_profile_wf id release records mask class flags :
  is_u8 release -> is_u8 records -> is_u8 mask -> is_u8 class -> is_u8 flags ->
  profile_wf (draft_profile id release records mask class flags).
Proof.
  intros. split; repeat constructor; simpl; lia.
Qed.

Lemma raw_profile_wf : profile_wf raw_profile.
Proof. apply draft_profile_wf; lia. Qed.

Lemma curated_profile_wf : profile_wf curated_profile.
Proof. apply draft_profile_wf; lia. Qed.

Lemma sample_profiles_wf : Forall profile_wf sample_profiles.
Proof.
  apply Forall_cons. split; [apply curated_profile_wf|].
  apply Forall_cons. split; [apply raw_profile_wf | apply Forall_nil_2].
Qed.

Lemma sample_profiles_run_ok : sample_run.1.1 = LAPLACE_SOURCE_PROFILE_OK.
Proof. vm_compute. reflexivity. Qed.

Lemma raw_profile_status :
  (laplace_source_profile_identify (B := checksum_blake3) profile_kinds (Some raw_profile)
     (Some (zeros 32))).1 = LAPLACE_SOURCE_PROFILE_OK.
Proof. vm_compute. reflexivity. Qed.

Lemma profile_identity_witness :
  profile_lawful (B := checksum_blake3) profile_kinds raw_profile /\
  identity_transcript raw_profile <> identity_transcript curated_profile.
Proof.
  destruct (profile_identity (B := checksum_blake3) (L := checksum_blake3_laws) profile_kinds
    raw_profile curated_profile (zeros 32) raw_profile_wf curated_profile_wf) as [Hid _].
  pose proof raw_profile_status as Hok.
  destruct (laplace_source_profile_identify _ _ _) as [st o]. cbn [fst] in Hok. subst st.
  split; [by apply Hid|]. intros H. by vm_compute in H.
Defined.

Lemma profile_batch_exact_witness :
  exists r, sample_run = (LAPLACE_SOURCE_PROFILE_OK, Some r, Some no_error) /\
  receipt_closure_subject_count r = 10 /\ negative_count r = 2 /\
  exact_reconstruction_count r = 1.
Proof.
  pose proof (profile_batch_exact (B := checksum_blake3) (L := checksum_blake3_laws)
    profile_kinds sample_profiles 2 empty_receipt no_error eq_refl ltac:(lia)
    sample_profiles_wf) as H.
  pose proof sample_profiles_run_ok as Hok.
  destruct sample_run as [[st r] e]. cbn [fst snd] in Hok. subst st.
  destruct H as (_ & H & _). destruct (H eq_refl) as (-> & r' & -> & Hr).
  exists r'. split; [reflexivity|]. destruct Hr as [_ _ _ _ _ -> _ -> -> _ _ _].
  split_and!; vm_compute; reflexivity.
Defined.

Lemma profile_receipt_balanced_witness :
  exists r, sample_run = (LAPLACE_SOURCE_PROFILE_OK, Some r, Some no_error) /\
  receipt_persisted_count r + negative_count r <= receipt_closure_subject_count r.
Proof.
  assert (Hrun : exists r, sample_run = (LAPLACE_SOURCE_PROFILE_OK, Some r, Some no_error)).
  { eexists. vm_compute. reflexivity. }
  destruct Hrun as [r Hrun]. exists r. split; [exact Hrun|].
  destruct (profile_receipt_balanced (B := checksum_blake3) (L := checksum_blake3_laws)
    profile_kinds sample_profiles 2 empty_receipt no_error r _ _ eq_refl ltac:(lia)
    sample_profiles_wf Hrun) as (_ & _ & H & _). exact H.
Defined.
