(* ===== verification/StockRecipe.v ===== *)
(** * Stock recipes: catalogs of recipes and of their derived planes

    Models [engine/src/stock_recipe.c] and
    [engine/include/laplace/stock_recipe.h]: the identities of recipes and of
    perfcache planes, and the compilation of a catalog, which sorts copies of
    the caller's arrays, searches parents by [bsearch], and fingerprints the
    ordered identities.  Each of the four calls of [malloc] may fail; [malloc]
    says which succeed, by the array allocated and its size. *)
From stdpp Require Import prelude strings sorting.
From Stdlib Require Import ZArith Lia.
From S2P Require Import Prelude Bytes Sorting Hash Identity.

(** ** Contract constants ([contracts/stock-recipe.json]) *)
Abbreviation LAPLACE_STOCK_VERSION := 1 (only parsing).
Abbreviation LAPLACE_STOCK_SCOPE_SOURCE := 1 (only parsing).
Abbreviation LAPLACE_STOCK_SCOPE_SEMANTIC_CONSTRUCTION := 6 (only parsing).
Abbreviation LAPLACE_STOCK_ITEM_RECIPE := 1 (only parsing).
Abbreviation LAPLACE_STOCK_ITEM_PERFCACHE_PLANE := 2 (only parsing).
Abbreviation LAPLACE_STOCK_FLAGS_NONE := 0 (only parsing).
(** [sizeof] of the two structs, which have no padding. *)
Abbreviation SIZEOF_RECIPE := 408 (only parsing).
Abbreviation SIZEOF_PLANE := 296 (only parsing).

(** ** Data *)
Record laplace_stock_recipe := mk_recipe {
  recipe_id : laplace_digest256;
  parent_recipe_id : laplace_digest256;
  source_profile_id : laplace_digest256;
  source_artifact_id : laplace_digest256;
  grammar_provider_id : laplace_digest256;
  codec_provider_id : laplace_digest256;
  lowering_program_id : laplace_digest256;
  recomposition_program_id : laplace_digest256;
  semantic_segmentation_law_id : laplace_digest256;
  conformance_id : laplace_digest256;
  loss_policy_id : laplace_digest256;
  correction_epoch_id : laplace_digest256;
  sibling_ordinal : Z;
  scope_kind : Z;
  modality_kind : Z;
  recipe_version : Z;
  recipe_flags : Z }.

Record laplace_stock_perfcache_plane := mk_plane {
  plane_id : laplace_digest256;
  plane_recipe_id : laplace_digest256;
  key_kind_id : laplace_digest256;
  value_kind_id : laplace_digest256;
  dependency_epoch_id : laplace_digest256;
  generation_program_id : laplace_digest256;
  semantic_verifier_id : laplace_digest256;
  invalidation_law_id : laplace_digest256;
  rebuild_law_id : laplace_digest256;
  plane_version : Z;
  plane_flags : Z }.

Record laplace_stock_catalog_item := mk_item {
  recipe : laplace_stock_recipe;
  perfcache_plane : laplace_stock_perfcache_plane;
  item_kind : Z;
  item_flags : Z }.

Record laplace_stock_catalog_receipt := mk_receipt {
  catalog_id : laplace_digest256;
  recipe_set_fingerprint : laplace_digest256;
  perfcache_set_fingerprint : laplace_digest256;
  recipe_count : Z;
  source_count : Z;
  perfcache_plane_count : Z;
  maximum_scope_kind : Z;
  version : Z;
  receipt_status : Z;
  receipt_flags : Z }.

Inductive laplace_stock_recipe_status :=
| LAPLACE_STOCK_RECIPE_OK
| LAPLACE_STOCK_RECIPE_INVALID_ARGUMENT
| LAPLACE_STOCK_RECIPE_INVALID
| LAPLACE_STOCK_RECIPE_IDENTITY_MISMATCH
| LAPLACE_STOCK_RECIPE_DUPLICATE
| LAPLACE_STOCK_RECIPE_PARENT_MISSING
| LAPLACE_STOCK_RECIPE_HIERARCHY_INVALID
| LAPLACE_STOCK_RECIPE_SIBLING_DUPLICATE
| LAPLACE_STOCK_PERFCACHE_INVALID
| LAPLACE_STOCK_PERFCACHE_IDENTITY_MISMATCH
| LAPLACE_STOCK_PERFCACHE_DUPLICATE
| LAPLACE_STOCK_PERFCACHE_RECIPE_MISSING
| LAPLACE_STOCK_RECIPE_RESOURCE_INSUFFICIENT
| LAPLACE_STOCK_RECIPE_OVERFLOW
| LAPLACE_STOCK_RECIPE_SEGMENTATION_LAW_MISMATCH.

#[export] Instance stock_status_eq_dec : EqDecision laplace_stock_recipe_status.
Proof. solve_decision. Defined.

Record laplace_stock_recipe_error := mk_error {
  recipe_index : Z;
  perfcache_index : Z;
  error_status : laplace_stock_recipe_status;
  error_reserved : Z }.

(** ** Shapes *)
(** The digests of a recipe that must not be zero, whatever its scope. *)
Definition recipe_references (r : laplace_stock_recipe) : list laplace_digest256 :=
  [source_profile_id r; source_artifact_id r; grammar_provider_id r; codec_provider_id r;
   lowering_program_id r; recomposition_program_id r; semantic_segmentation_law_id r;
   conformance_id r; loss_policy_id r; correction_epoch_id r].

Definition recipe_shape_valid (r : laplace_stock_recipe) : bool :=
  let source := scope_kind r =? LAPLACE_STOCK_SCOPE_SOURCE in
  (if source then bytes_zero (parent_recipe_id r)
   else negb (bytes_zero (parent_recipe_id r))) &&
  forallb (fun digest => negb (bytes_zero digest)) (recipe_references r) &&
  (0 <? sibling_ordinal r) &&
  (LAPLACE_STOCK_SCOPE_SOURCE <=? scope_kind r) &&
  (scope_kind r <=? LAPLACE_STOCK_SCOPE_SEMANTIC_CONSTRUCTION) &&
  (0 <? modality_kind r) && (recipe_version r =? LAPLACE_STOCK_VERSION) &&
  (recipe_flags r =? LAPLACE_STOCK_FLAGS_NONE).

Definition plane_references (p : laplace_stock_perfcache_plane) : list laplace_digest256 :=
  [plane_recipe_id p; key_kind_id p; value_kind_id p; dependency_epoch_id p;
   generation_program_id p; semantic_verifier_id p; invalidation_law_id p; rebuild_law_id p].

Definition plane_shape_valid (p : laplace_stock_perfcache_plane) : bool :=
  forallb (fun digest => negb (bytes_zero digest)) (plane_references p) &&
  (plane_version p =? LAPLACE_STOCK_VERSION) &&
  (plane_flags p =? LAPLACE_STOCK_FLAGS_NONE).

(** The bytes of a struct in memory, which [compile_catalog_items] tests. *)
Definition recipe_memory (r : laplace_stock_recipe) : list Z :=
  recipe_id r ++ parent_recipe_id r ++ concat (recipe_references r) ++
  store_le 8 (sibling_ordinal r) ++ store_le 4 (scope_kind r) ++
  store_le 4 (modality_kind r) ++ store_le 4 (recipe_version r) ++
  store_le 4 (recipe_flags r).

Definition plane_memory (p : laplace_stock_perfcache_plane) : list Z :=
  plane_id p ++ concat (plane_references p) ++ store_le 4 (plane_version p) ++
  store_le 4 (plane_flags p).

(** ** Order and search *)
Definition compare_recipe : laplace_stock_recipe -> laplace_stock_recipe -> comparison :=
  cmp_on recipe_id memcmp.

Definition compare_plane
    : laplace_stock_perfcache_plane -> laplace_stock_perfcache_plane -> comparison :=
  cmp_on plane_id memcmp.

Definition find_recipe (recipes : list laplace_stock_recipe) (id : laplace_digest256)
    : ptr laplace_stock_recipe :=
  bsearch (fun r => memcmp id (recipe_id r)) recipes.

Definition fail (error : ptr laplace_stock_recipe_error)
    (status : laplace_stock_recipe_status) (recipe_index plane_index : Z)
    : ptr laplace_stock_recipe_error :=
  match error with
  | None => None
  | Some e => Some (mk_error recipe_index plane_index status (error_reserved e))
  end.

Definition zero_error : laplace_stock_recipe_error := mk_error 0 0 LAPLACE_STOCK_RECIPE_OK 0.

(** The arrays allocated: two by the compilation, two by the splitting of items. *)
Inductive allocation := ordered_recipes | ordered_planes | item_recipes | item_planes.

Section Catalog.
Context {B : Blake3}.
Variable malloc : allocation -> Z -> bool.

(** ** Identities *)
Definition laplace_stock_recipe_identify (recipe : ptr laplace_stock_recipe)
    (id : ptr laplace_digest256) : laplace_stock_recipe_status * ptr laplace_digest256 :=
  match recipe, id with
  | Some r, Some _ =>
      return_when negb (recipe_shape_valid r) with (LAPLACE_STOCK_RECIPE_INVALID, id) ;;
      let hasher := blake3_hasher_update blake3_hasher_init
                      (domain_bytes "laplace.stock-recipe.v1") in
      let hasher := blake3_hasher_update hasher (parent_recipe_id r) in
      let hasher := foldl blake3_hasher_update hasher (recipe_references r) in
      let hasher := hash_u64 hasher (sibling_ordinal r) in
      let hasher := hash_u32 hasher (scope_kind r) in
      let hasher := hash_u32 hasher (modality_kind r) in
      let hasher := hash_u32 hasher (recipe_version r) in
      let hasher := hash_u32 hasher (recipe_flags r) in
      (LAPLACE_STOCK_RECIPE_OK, store id (blake3_hasher_finalize hasher))
  | _, _ => (LAPLACE_STOCK_RECIPE_INVALID, id)
  end.

Definition laplace_stock_perfcache_plane_identify
    (plane : ptr laplace_stock_perfcache_plane) (id : ptr laplace_digest256)
    : laplace_stock_recipe_status * ptr laplace_digest256 :=
  match plane, id with
  | Some p, Some _ =>
      return_when negb (plane_shape_valid p) with (LAPLACE_STOCK_PERFCACHE_INVALID, id) ;;
      let hasher := blake3_hasher_update blake3_hasher_init
                      (domain_bytes "laplace.stock-recipe.perfcache-plane.v1") in
      let hasher := foldl blake3_hasher_update hasher (plane_references p) in
      let hasher := hash_u32 hasher (plane_version p) in
      let hasher := hash_u32 hasher (plane_flags p) in
      (LAPLACE_STOCK_RECIPE_OK, store id (blake3_hasher_finalize hasher))
  | _, _ => (LAPLACE_STOCK_PERFCACHE_INVALID, id)
  end.

Definition check_recipe_identity (r : laplace_stock_recipe) : laplace_stock_recipe_status :=
  match laplace_stock_recipe_identify (Some r) (Some (zeros 32)) with
  | (LAPLACE_STOCK_RECIPE_OK, identity) =>
      return_when negb (bytes_equal (default [] identity) (recipe_id r))
        with LAPLACE_STOCK_RECIPE_IDENTITY_MISMATCH ;;
      LAPLACE_STOCK_RECIPE_OK
  | (failed, _) => failed
  end.

Definition check_plane_identity (p : laplace_stock_perfcache_plane)
    : laplace_stock_recipe_status :=
  match laplace_stock_perfcache_plane_identify (Some p) (Some (zeros 32)) with
  | (LAPLACE_STOCK_RECIPE_OK, identity) =>
      return_when negb (bytes_equal (default [] identity) (plane_id p))
        with LAPLACE_STOCK_PERFCACHE_IDENTITY_MISMATCH ;;
      LAPLACE_STOCK_RECIPE_OK
  | (failed, _) => failed
  end.

(** The loops over the unsorted copies: the first failing status, with its index. *)
Fixpoint identity_loop {A} (check : A -> laplace_stock_recipe_status) (l : list A) (index : Z)
    : option (laplace_stock_recipe_status * Z) :=
  match l with
  | [] => None
  | x :: rest =>
      match check x with
      | LAPLACE_STOCK_RECIPE_OK => identity_loop check rest (index + 1)
      | failed => Some (failed, index)
      end
  end.

(** ** The hierarchy *)
Record hierarchy := mk_hierarchy {
  recipe_hasher : blake3_hasher;
  sources : Z;
  maximum_scope : Z }.

(** The checks of one recipe of the sorted array [all]; [previous] is the one
    before it, if any. *)
Definition check_recipe (all : list laplace_stock_recipe) (first : laplace_stock_recipe)
    (previous : option laplace_stock_recipe) (r : laplace_stock_recipe)
    : laplace_stock_recipe_status :=
  return_when match previous with
              | None => false
              | Some q => bytes_equal (recipe_id r) (recipe_id q)
              end
    with LAPLACE_STOCK_RECIPE_DUPLICATE ;;
  return_when negb (bytes_equal (semantic_segmentation_law_id r)
                      (semantic_segmentation_law_id first))
    with LAPLACE_STOCK_RECIPE_SEGMENTATION_LAW_MISMATCH ;;
  if scope_kind r =? LAPLACE_STOCK_SCOPE_SOURCE then LAPLACE_STOCK_RECIPE_OK
  else
    match find_recipe all (parent_recipe_id r) with
    | None => LAPLACE_STOCK_RECIPE_PARENT_MISSING
    | Some parent =>
        return_when negb (bytes_equal (source_profile_id parent) (source_profile_id r)) ||
                    (scope_kind r <=? scope_kind parent)
          with LAPLACE_STOCK_RECIPE_HIERARCHY_INVALID ;;
        LAPLACE_STOCK_RECIPE_OK
    end.

Definition count_recipe (h : hierarchy) (r : laplace_stock_recipe) : hierarchy := {|
  recipe_hasher := blake3_hasher_update (recipe_hasher h) (recipe_id r);
  sources := if scope_kind r =? LAPLACE_STOCK_SCOPE_SOURCE then u64 (sources h + 1)
             else sources h;
  maximum_scope := if maximum_scope h <? scope_kind r then scope_kind r
                   else maximum_scope h |}.

Fixpoint recipe_loop (all : list laplace_stock_recipe) (first : laplace_stock_recipe)
    (previous : option laplace_stock_recipe) (recipes : list laplace_stock_recipe) (index : Z)
    (h : hierarchy) : hierarchy + (laplace_stock_recipe_status * Z) :=
  match recipes with
  | [] => inl h
  | r :: rest =>
      match check_recipe all first previous r with
      | LAPLACE_STOCK_RECIPE_OK =>
          recipe_loop all first (Some r) rest (index + 1) (count_recipe h r)
      | failed => inr (failed, index)
      end
  end.

(** The two loops over pairs: the index of the second of two siblings with one
    ordinal. *)
Definition sibling_clash (a b : laplace_stock_recipe) : bool :=
  (sibling_ordinal a =? sibling_ordinal b) &&
  bytes_equal (parent_recipe_id a) (parent_recipe_id b) &&
  bytes_equal (source_profile_id a) (source_profile_id b).

Fixpoint other_loop (r : laplace_stock_recipe) (others : list laplace_stock_recipe) (other : Z)
    : option Z :=
  match others with
  | [] => None
  | o :: rest => if sibling_clash r o then Some other else other_loop r rest (other + 1)
  end.

Fixpoint sibling_loop (recipes : list laplace_stock_recipe) (index : Z) : option Z :=
  match recipes with
  | [] => None
  | r :: rest =>
      match other_loop r rest (index + 1) with
      | Some other => Some other
      | None => sibling_loop rest (index + 1)
      end
  end.

(** ** The planes *)
Fixpoint plane_loop (recipes : list laplace_stock_recipe)
    (previous : option laplace_stock_perfcache_plane)
    (planes : list laplace_stock_perfcache_plane) (index : Z) (hasher : blake3_hasher)
    : blake3_hasher + (laplace_stock_recipe_status * Z) :=
  match planes with
  | [] => inl hasher
  | p :: rest =>
      let duplicate := match previous with
                       | None => false
                       | Some q => bytes_equal (plane_id p) (plane_id q)
                       end in
      return_when duplicate || is_null (find_recipe recipes (plane_recipe_id p))
        with inr (if duplicate then LAPLACE_STOCK_PERFCACHE_DUPLICATE
                  else LAPLACE_STOCK_PERFCACHE_RECIPE_MISSING, index) ;;
      plane_loop recipes (Some p) rest (index + 1) (blake3_hasher_update hasher (plane_id p))
  end.

Definition compile_planes (recipes : list laplace_stock_recipe)
    (planes : list laplace_stock_perfcache_plane) (plane_count : Z)
    : blake3_hasher + (laplace_stock_recipe_status * Z) :=
  return_when plane_count =? 0 with inl blake3_hasher_init ;;
  return_when negb (malloc ordered_planes (plane_count * SIZEOF_PLANE))
    with inr (LAPLACE_STOCK_RECIPE_RESOURCE_INSUFFICIENT, 0) ;;
  match identity_loop check_plane_identity planes 0 with
  | Some failed => inr failed
  | None => plane_loop recipes None (qsort compare_plane planes) 0 blake3_hasher_init
  end.

(** ** The catalog *)
Definition catalog_receipt (h : hierarchy) (plane_hasher : blake3_hasher)
    (recipe_count plane_count : Z) : laplace_stock_catalog_receipt :=
  let recipe_set := blake3_hasher_finalize (recipe_hasher h) in
  let plane_set := blake3_hasher_finalize plane_hasher in
  let hasher := blake3_hasher_update blake3_hasher_init
                  (domain_bytes "laplace.stock-recipe.catalog.v1") in
  let hasher := blake3_hasher_update hasher recipe_set in
  let hasher := blake3_hasher_update hasher plane_set in
  let hasher := hash_u64 hasher recipe_count in
  let hasher := hash_u64 hasher (sources h) in
  let hasher := hash_u64 hasher plane_count in
  let hasher := hash_u32 hasher (maximum_scope h) in
  let hasher := hash_u32 hasher LAPLACE_STOCK_VERSION in
  mk_receipt (blake3_hasher_finalize hasher) recipe_set plane_set recipe_count (sources h)
    plane_count (maximum_scope h) LAPLACE_STOCK_VERSION 0 LAPLACE_STOCK_FLAGS_NONE.

(** The compilation of sorted copies, from the hierarchy on: the receipt, or the
    status with the two indices of the error. *)
Definition compile_ordered (ordered : list laplace_stock_recipe) (recipe_count : Z)
    (planes : list laplace_stock_perfcache_plane) (plane_count : Z)
    : laplace_stock_catalog_receipt + (laplace_stock_recipe_status * Z * Z) :=
  match ordered with
  | [] => (* not reached: [recipe_count] > 0 *)
      inr (LAPLACE_STOCK_RECIPE_INVALID_ARGUMENT, 0, 0)
  | first :: _ =>
      match recipe_loop ordered first None ordered 0 (mk_hierarchy blake3_hasher_init 0 0) with
      | inr (failed, index) => inr (failed, index, 0)
      | inl h =>
          match sibling_loop ordered 0 with
          | Some other => inr (LAPLACE_STOCK_RECIPE_SIBLING_DUPLICATE, other, 0)
          | None =>
              return_when sources h =? 0
                with inr (LAPLACE_STOCK_RECIPE_HIERARCHY_INVALID, 0, 0) ;;
              match compile_planes ordered planes plane_count with
              | inr (failed, index) => inr (failed, 0, index)
              | inl plane_hasher =>
                  inl (catalog_receipt h plane_hasher recipe_count plane_count)
              end
          end
      end
  end.

Definition compile_copies (recipes : list laplace_stock_recipe) (recipe_count : Z)
    (planes : list laplace_stock_perfcache_plane) (plane_count : Z)
    : laplace_stock_catalog_receipt + (laplace_stock_recipe_status * Z * Z) :=
  return_when negb (malloc ordered_recipes (recipe_count * SIZEOF_RECIPE))
    with inr (LAPLACE_STOCK_RECIPE_RESOURCE_INSUFFICIENT, 0, 0) ;;
  match identity_loop check_recipe_identity recipes 0 with
  | Some (failed, index) => inr (failed, index, 0)
  | None => compile_ordered (qsort compare_recipe recipes) recipe_count planes plane_count
  end.

Definition laplace_stock_recipe_compile_catalog (recipes : ptr (list laplace_stock_recipe))
    (recipe_count : Z) (planes : ptr (list laplace_stock_perfcache_plane)) (plane_count : Z)
    (receipt : ptr laplace_stock_catalog_receipt) (error : ptr laplace_stock_recipe_error)
    : laplace_stock_recipe_status * ptr laplace_stock_catalog_receipt *
      ptr laplace_stock_recipe_error :=
  return_when is_null recipes || (recipe_count =? 0) || is_null receipt ||
              (negb (plane_count =? 0) && is_null planes)
    with (LAPLACE_STOCK_RECIPE_INVALID_ARGUMENT, receipt,
          fail error LAPLACE_STOCK_RECIPE_INVALID_ARGUMENT 0 0) ;;
  return_when (SIZE_MAX / SIZEOF_RECIPE <? recipe_count) ||
              (SIZE_MAX / SIZEOF_PLANE <? plane_count)
    with (LAPLACE_STOCK_RECIPE_OVERFLOW, receipt,
          fail error LAPLACE_STOCK_RECIPE_OVERFLOW 0 0) ;;
  match compile_copies (cells recipes recipe_count) recipe_count (cells planes plane_count)
          plane_count with
  | inr (failed, recipe_index, plane_index) =>
      (failed, receipt, fail error failed recipe_index plane_index)
  | inl r => (LAPLACE_STOCK_RECIPE_OK, store receipt r, store error zero_error)
  end.

(** ** Catalogs given as items *)
(** The loop that splits the items; [inr] is the index of an item it refuses. *)
Fixpoint split_items (items : list laplace_stock_catalog_item) (index : Z)
    (recipes : list laplace_stock_recipe) (planes : list laplace_stock_perfcache_plane)
    : (list laplace_stock_recipe * list laplace_stock_perfcache_plane) + Z :=
  match items with
  | [] => inl (recipes, planes)
  | i :: rest =>
      return_when negb (item_flags i =? LAPLACE_STOCK_FLAGS_NONE) with inr index ;;
      if (item_kind i =? LAPLACE_STOCK_ITEM_RECIPE) &&
         bytes_zero (plane_memory (perfcache_plane i)) then
        split_items rest (index + 1) (recipes ++ [recipe i]) planes
      else if (item_kind i =? LAPLACE_STOCK_ITEM_PERFCACHE_PLANE) &&
              bytes_zero (recipe_memory (recipe i)) then
        split_items rest (index + 1) recipes (planes ++ [perfcache_plane i])
      else inr index
  end.

Definition laplace_stock_recipe_compile_catalog_items
    (items : ptr (list laplace_stock_catalog_item)) (item_count : Z)
    (receipt : ptr laplace_stock_catalog_receipt) (error : ptr laplace_stock_recipe_error)
    : laplace_stock_recipe_status * ptr laplace_stock_catalog_receipt *
      ptr laplace_stock_recipe_error :=
  return_when is_null items || (item_count =? 0) || is_null receipt ||
              (SIZE_MAX / SIZEOF_RECIPE <? item_count) ||
              (SIZE_MAX / SIZEOF_PLANE <? item_count)
    with (LAPLACE_STOCK_RECIPE_INVALID_ARGUMENT, receipt,
          fail error LAPLACE_STOCK_RECIPE_INVALID_ARGUMENT 0 0) ;;
  return_when negb (malloc item_recipes (item_count * SIZEOF_RECIPE)) ||
              negb (malloc item_planes (item_count * SIZEOF_PLANE))
    with (LAPLACE_STOCK_RECIPE_RESOURCE_INSUFFICIENT, receipt,
          fail error LAPLACE_STOCK_RECIPE_RESOURCE_INSUFFICIENT 0 0) ;;
  match split_items (cells items item_count) 0 [] [] with
  | inr index =>
      (LAPLACE_STOCK_RECIPE_INVALID, receipt,
       fail error LAPLACE_STOCK_RECIPE_INVALID index index)
  | inl (recipes, planes) =>
      laplace_stock_recipe_compile_catalog (Some recipes) (Z.of_nat (length recipes))
        (Some planes) (Z.of_nat (length planes)) receipt error
  end.
End Catalog.

(** ** The law of a catalog *)
Record recipe_wf (r : laplace_stock_recipe) : Prop := {
  wf_recipe_id : bytes 32 (recipe_id r);
  wf_parent : bytes 32 (parent_recipe_id r);
  wf_references : Forall (bytes 32) (recipe_references r);
  wf_ordinal : is_u64 (sibling_ordinal r);
  wf_scope : is_u32 (scope_kind r);
  wf_modality : is_u32 (modality_kind r);
  wf_version : is_u32 (recipe_version r);
  wf_flags : is_u32 (recipe_flags r) }.

Record plane_wf (p : laplace_stock_perfcache_plane) : Prop := {
  wf_plane_id : bytes 32 (plane_id p);
  wf_plane_references : Forall (bytes 32) (plane_references p);
  wf_plane_version : is_u32 (plane_version p);
  wf_plane_flags : is_u32 (plane_flags p) }.

(** A recipe of the right shape: exactly sources have no parent, and every
    reference is present. *)
Record recipe_shaped (r : laplace_stock_recipe) : Prop := {
  shaped_parent : parent_recipe_id r = zeros 32 <-> scope_kind r = LAPLACE_STOCK_SCOPE_SOURCE;
  shaped_references : Forall (fun digest => digest <> zeros 32) (recipe_references r);
  shaped_ordinal : 0 < sibling_ordinal r;
  shaped_scope : 1 <= scope_kind r <= 6;
  shaped_modality : 0 < modality_kind r;
  shaped_version : recipe_version r = LAPLACE_STOCK_VERSION;
  shaped_flags : recipe_flags r = LAPLACE_STOCK_FLAGS_NONE }.

Record plane_shaped (p : laplace_stock_perfcache_plane) : Prop := {
  shaped_plane_references : Forall (fun digest => digest <> zeros 32) (plane_references p);
  shaped_plane_version : plane_version p = LAPLACE_STOCK_VERSION;
  shaped_plane_flags : plane_flags p = LAPLACE_STOCK_FLAGS_NONE }.

Definition recipe_code (r : laplace_stock_recipe) : list Z :=
  parent_recipe_id r ++ concat (map id (recipe_references r)) ++
  store_le 8 (sibling_ordinal r) ++ store_le 4 (scope_kind r) ++
  store_le 4 (modality_kind r) ++ store_le 4 (recipe_version r) ++
  store_le 4 (recipe_flags r).

Definition recipe_transcript (r : laplace_stock_recipe) : list Z :=
  domain_bytes "laplace.stock-recipe.v1" ++ recipe_code r.

Definition plane_code (p : laplace_stock_perfcache_plane) : list Z :=
  concat (map id (plane_references p)) ++ store_le 4 (plane_version p) ++
  store_le 4 (plane_flags p).

Definition plane_transcript (p : laplace_stock_perfcache_plane) : list Z :=
  domain_bytes "laplace.stock-recipe.perfcache-plane.v1" ++ plane_code p.

(** [parent] may own [r]: same source profile, an earlier scope. *)
Definition owns (parent r : laplace_stock_recipe) : Prop :=
  recipe_id parent = parent_recipe_id r /\ source_profile_id parent = source_profile_id r /\
  scope_kind parent < scope_kind r.

Definition parented (recipes : list laplace_stock_recipe) (r : laplace_stock_recipe) : Prop :=
  scope_kind r = LAPLACE_STOCK_SCOPE_SOURCE \/ exists parent, parent ∈ recipes /\ owns parent r.

Definition siblings (a b : laplace_stock_recipe) : Prop :=
  sibling_ordinal a = sibling_ordinal b /\ parent_recipe_id a = parent_recipe_id b /\
  source_profile_id a = source_profile_id b.

Record recipes_lawful {B : Blake3} (recipes : list laplace_stock_recipe) : Prop := {
  lawful_recipes : Forall (fun r => recipe_shaped r /\
    recipe_id r = blake3 (recipe_transcript r)) recipes;
  lawful_distinct : NoDup (map recipe_id recipes);
  lawful_segmentation : homogeneous semantic_segmentation_law_id recipes;
  lawful_parents : Forall (parented recipes) recipes;
  lawful_siblings : forall a b, a ∈ recipes -> b ∈ recipes -> siblings a b -> a = b;
  lawful_source : exists s, s ∈ recipes /\ scope_kind s = LAPLACE_STOCK_SCOPE_SOURCE }.

Record planes_lawful {B : Blake3} (recipes : list laplace_stock_recipe)
    (planes : list laplace_stock_perfcache_plane) : Prop := {
  lawful_planes : Forall (fun p => plane_shaped p /\
    plane_id p = blake3 (plane_transcript p)) planes;
  lawful_planes_distinct : NoDup (map plane_id planes);
  lawful_owners : Forall (fun p => plane_recipe_id p ∈ map recipe_id recipes) planes }.

Definition catalog_lawful {B : Blake3} recipes planes : Prop :=
  recipes_lawful recipes /\ planes_lawful recipes planes.

(** ** Identities *)
Section Identities.
Context {B : Blake3} {L : Blake3Laws B}.

Lemma nonzero_digests ds : Forall (bytes 32) ds ->
  forallb (fun digest => negb (bytes_zero digest)) ds = true <->
  Forall (fun digest => digest <> zeros 32) ds.
Proof.
  induction 1 as [|d ds Hd _ IH]; cbn [forallb]; [split; [constructor|done]|].
  rewrite andb_true_iff, IH, Forall_cons, negb_true_iff, <- not_true_iff_false.
  by rewrite (bytes_zero_zeros 32).
Qed.

Lemma recipe_shape_valid_spec r : recipe_wf r -> recipe_shape_valid r = true <-> recipe_shaped r.
Proof.
  intros [_ Hp Hr Ho Hs Hm Hv Hf]. unfold recipe_shape_valid.
  pose proof (bytes_zero_zeros 32 (parent_recipe_id r) Hp) as Hz.
  rewrite !andb_true_iff, nonzero_digests, !Z.ltb_lt, !Z.leb_le, !Z.eqb_eq by done. split.
  - intros (((((((H1 & ?) & ?) & ?) & ?) & ?) & ?) & ?). split; try done. rewrite <- Hz.
    destruct (Z.eqb_spec (scope_kind r) 1); [done|]. apply negb_true_iff in H1.
    by rewrite H1.
  - intros [H1 ? ? ? ? ? ?]. rewrite <- Hz in H1. split_and!; try done; try lia.
    destruct (Z.eqb_spec (scope_kind r) 1) as [E|E]; [by apply H1|].
    apply negb_true_iff, not_true_iff_false. by rewrite H1.
Qed.

Lemma plane_shape_valid_spec p : plane_wf p -> plane_shape_valid p = true <-> plane_shaped p.
Proof.
  intros [_ Hr _ _]. unfold plane_shape_valid.
  rewrite !andb_true_iff, nonzero_digests, !Z.eqb_eq by done. split.
  - intros ((? & ?) & ?). by split.
  - by intros [? ? ?].
Qed.

Lemma recipe_identify_valid r out : recipe_shape_valid r = true ->
  laplace_stock_recipe_identify (Some r) (Some out) =
  (LAPLACE_STOCK_RECIPE_OK, Some (blake3 (recipe_transcript r))).
Proof.
  intros H. unfold laplace_stock_recipe_identify. rewrite H. cbn [negb store]. do 2 f_equal.
  apply absorbs_finalize. unfold recipe_transcript, recipe_code. rewrite !app_assoc.
  apply absorbs_u32, absorbs_u32, absorbs_u32, absorbs_u32, absorbs_u64, absorbs_fold;
    [apply absorbs_update|]. absorb.
Qed.

Lemma plane_identify_valid p out : plane_shape_valid p = true ->
  laplace_stock_perfcache_plane_identify (Some p) (Some out) =
  (LAPLACE_STOCK_RECIPE_OK, Some (blake3 (plane_transcript p))).
Proof.
  intros H. unfold laplace_stock_perfcache_plane_identify. rewrite H. cbn [negb store].
  do 2 f_equal. apply absorbs_finalize. unfold plane_transcript, plane_code.
  rewrite !app_assoc. apply absorbs_u32, absorbs_u32, absorbs_fold; [apply absorbs_update|].
  absorb.
Qed.

Lemma check_recipe_identity_spec r : recipe_wf r ->
  check_recipe_identity r = LAPLACE_STOCK_RECIPE_OK <->
  recipe_shaped r /\ recipe_id r = blake3 (recipe_transcript r).
Proof.
  intros Hwf. rewrite <- recipe_shape_valid_spec by done. unfold check_recipe_identity.
  destruct (recipe_shape_valid r) eqn:E.
  - rewrite recipe_identify_valid by done. cbn [default].
    destruct (bytes_equal _ _) eqn:Eb; cbn [negb].
    + apply bytes_equal_spec in Eb. done.
    + apply bytes_equal_false in Eb. split; [done|]. intros [_ H]. by symmetry in H.
  - unfold laplace_stock_recipe_identify. rewrite E. split; [done|]. by intros [? _].
Qed.

Lemma check_plane_identity_spec p : plane_wf p ->
  check_plane_identity p = LAPLACE_STOCK_RECIPE_OK <->
  plane_shaped p /\ plane_id p = blake3 (plane_transcript p).
Proof.
  intros Hwf. rewrite <- plane_shape_valid_spec by done. unfold check_plane_identity.
  destruct (plane_shape_valid p) eqn:E.
  - rewrite plane_identify_valid by done. cbn [default].
    destruct (bytes_equal _ _) eqn:Eb; cbn [negb].
    + apply bytes_equal_spec in Eb. done.
    + apply bytes_equal_false in Eb. split; [done|]. intros [_ H]. by symmetry in H.
  - unfold laplace_stock_perfcache_plane_identify. rewrite E. split; [done|]. by intros [? _].
Qed.

Lemma identity_loop_none {A} check (P : A -> Prop) l : forall index,
  Forall (fun x => check x = LAPLACE_STOCK_RECIPE_OK <-> P x) l ->
  identity_loop check l index = None <-> Forall P l.
Proof.
  induction l as [|x l IH]; intros index Hl; cbn [identity_loop]; [done|].
  apply Forall_cons in Hl as [Hx Hl]. rewrite Forall_cons, <- Hx, <- (IH (index + 1) Hl).
  destruct (check x); (split; [intros H; by split | by intros [? ?]]) || naive_solver.
Qed.
End Identities.

(** ** What each status blames *)
Inductive recipe_fault {B : Blake3} (recipes : list laplace_stock_recipe)
    : laplace_stock_recipe_status -> Prop :=
| fault_shape r : r ∈ recipes -> ~ recipe_shaped r ->
    recipe_fault recipes LAPLACE_STOCK_RECIPE_INVALID
| fault_identity r : r ∈ recipes -> recipe_id r <> blake3 (recipe_transcript r) ->
    recipe_fault recipes LAPLACE_STOCK_RECIPE_IDENTITY_MISMATCH
| fault_duplicate : ~ NoDup (map recipe_id recipes) ->
    recipe_fault recipes LAPLACE_STOCK_RECIPE_DUPLICATE
| fault_segmentation a b : a ∈ recipes -> b ∈ recipes ->
    semantic_segmentation_law_id a <> semantic_segmentation_law_id b ->
    recipe_fault recipes LAPLACE_STOCK_RECIPE_SEGMENTATION_LAW_MISMATCH
| fault_parent r : r ∈ recipes -> scope_kind r <> LAPLACE_STOCK_SCOPE_SOURCE ->
    (forall p, p ∈ recipes -> recipe_id p <> parent_recipe_id r) ->
    recipe_fault recipes LAPLACE_STOCK_RECIPE_PARENT_MISSING
| fault_hierarchy r p : r ∈ recipes -> p ∈ recipes ->
    scope_kind r <> LAPLACE_STOCK_SCOPE_SOURCE -> recipe_id p = parent_recipe_id r ->
    ~ owns p r -> recipe_fault recipes LAPLACE_STOCK_RECIPE_HIERARCHY_INVALID
| fault_rootless :
    (forall r, r ∈ recipes -> scope_kind r <> LAPLACE_STOCK_SCOPE_SOURCE) ->
    recipe_fault recipes LAPLACE_STOCK_RECIPE_HIERARCHY_INVALID
| fault_siblings a b : a ∈ recipes -> b ∈ recipes -> a <> b -> siblings a b ->
    recipe_fault recipes LAPLACE_STOCK_RECIPE_SIBLING_DUPLICATE.

Inductive plane_fault {B : Blake3} (recipes : list laplace_stock_recipe)
    (planes : list laplace_stock_perfcache_plane) : laplace_stock_recipe_status -> Prop :=
| fault_plane_shape p : p ∈ planes -> ~ plane_shaped p ->
    plane_fault recipes planes LAPLACE_STOCK_PERFCACHE_INVALID
| fault_plane_identity p : p ∈ planes -> plane_id p <> blake3 (plane_transcript p) ->
    plane_fault recipes planes LAPLACE_STOCK_PERFCACHE_IDENTITY_MISMATCH
| fault_plane_duplicate : ~ NoDup (map plane_id planes) ->
    plane_fault recipes planes LAPLACE_STOCK_PERFCACHE_DUPLICATE
| fault_owner p : p ∈ planes -> plane_recipe_id p ∉ map recipe_id recipes ->
    plane_fault recipes planes LAPLACE_STOCK_PERFCACHE_RECIPE_MISSING.

Lemma same_id recipes a b :
  NoDup (map recipe_id recipes) -> a ∈ recipes -> b ∈ recipes -> recipe_id a = recipe_id b ->
  a = b.
Proof.
  induction recipes as [|r recipes IH]; intros Hnd Ha Hb E; [by apply not_elem_of_nil in Ha|].
  apply NoDup_cons in Hnd as [Hr Hnd].
  apply elem_of_cons in Ha as [->|Ha], Hb as [->|Hb]; auto.
  - contradict Hr. rewrite E. apply list_elem_of_fmap. by exists b.
  - contradict Hr. rewrite <- E. apply list_elem_of_fmap. by exists a.
Qed.

Lemma recipe_fault_unlawful {B : Blake3} recipes status :
  recipe_fault recipes status ->
  status <> LAPLACE_STOCK_RECIPE_OK /\ ~ recipes_lawful recipes.
Proof.
  intros Hf. split; [by destruct Hf|]. intros [Hall Hnd Hseg Hpar Hsib (s & Hs & Hsc)].
  rewrite Forall_forall in Hall, Hpar.
  destruct Hf as [r Hr H|r Hr H|H|a b Ha Hb H|r Hr Hns H|r p Hr Hp Hns Hid H|H|a b Ha Hb Hne H].
  - by apply H, Hall.
  - by apply H, Hall.
  - done.
  - by apply H, Hseg.
  - destruct (Hpar r Hr) as [|(p & Hp & Ho)]; [done|]. by apply (H p Hp), Ho.
  - destruct (Hpar r Hr) as [|(p' & Hp' & Ho)]; [done|]. apply H.
    rewrite (same_id recipes p p' Hnd Hp Hp'); [done|]. rewrite Hid. by symmetry; apply Ho.
  - by apply (H s).
  - by apply Hne, Hsib.
Qed.

Lemma plane_fault_unlawful {B : Blake3} recipes planes status :
  plane_fault recipes planes status ->
  status <> LAPLACE_STOCK_RECIPE_OK /\ ~ planes_lawful recipes planes.
Proof.
  intros Hf. split; [by destruct Hf|]. intros [Hall Hnd Hown].
  rewrite Forall_forall in Hall, Hown.
  destruct Hf as [p Hp H|p Hp H|H|p Hp H]; [by apply H, Hall..|done|by apply H, Hown].
Qed.

(** Faults do not depend on the order of the catalog. *)
Lemma recipe_fault_perm {B : Blake3} l l' status :
  l ≡ₚ l' -> recipe_fault l status -> recipe_fault l' status.
Proof.
  intros Hp Hf.
  assert (Hin : forall r, r ∈ l <-> r ∈ l') by (intros r; by rewrite Hp).
  assert (Hnd : NoDup (map recipe_id l) <-> NoDup (map recipe_id l'))
    by (by rewrite (Permutation_map recipe_id Hp)).
  destruct Hf; rewrite ?Hnd in *; repeat match goal with H : _ ∈ l |- _ => apply Hin in H end.
  - by eapply fault_shape.
  - by eapply fault_identity.
  - by eapply fault_duplicate.
  - by eapply (fault_segmentation _ a b).
  - eapply (fault_parent _ r); [done..|]. intros p Hp'%Hin. auto.
  - by eapply (fault_hierarchy _ r p).
  - eapply fault_rootless. intros r Hr%Hin. auto.
  - by eapply (fault_siblings _ a b).
Qed.

(** Neither does the law. *)
Lemma catalog_lawful_perm {B : Blake3} recipes planes recipes' planes' :
  recipes ≡ₚ recipes' -> planes ≡ₚ planes' ->
  catalog_lawful recipes planes -> catalog_lawful recipes' planes'.
Proof.
  intros Hp Hpp [[H1 H2 H3 H4 H5 (s & Hs & Hsc)] [P1 P2 P3]].
  assert (Hin : forall r, r ∈ recipes' -> r ∈ recipes) by (intros r; by rewrite Hp).
  split; split.
  - by rewrite <- Hp.
  - by rewrite <- (Permutation_map recipe_id Hp).
  - intros a b Ha%Hin Hb%Hin. auto.
  - rewrite Forall_forall in H4. apply Forall_forall. intros r Hr%Hin.
    destruct (H4 r Hr) as [?|(p & Hpar & Ho)]; [by left|right]. exists p. by rewrite <- Hp.
  - intros a b Ha%Hin Hb%Hin. auto.
  - exists s. by rewrite <- Hp.
  - by rewrite <- Hpp.
  - by rewrite <- (Permutation_map plane_id Hpp).
  - rewrite <- Hpp. eapply Forall_impl; [exact P3|]. intros p. cbv beta.
    by rewrite (Permutation_map recipe_id Hp).
Qed.

(** ** Runs of the loops over the sorted recipes *)
Local Abbreviation id_le := (cmp_le (cmp_on recipe_id memcmp)).
Local Abbreviation id_lt := (fun a b => memcmp (recipe_id a) (recipe_id b) = Lt).

Section Hierarchy.
Context {B : Blake3}.
Implicit Types (r first : laplace_stock_recipe) (all ps rest : list laplace_stock_recipe).

Lemma find_recipe_spec all id : StronglySorted id_le all ->
  match find_recipe all id with
  | Some p => p ∈ all /\ recipe_id p = id
  | None => forall p, p ∈ all -> recipe_id p <> id
  end.
Proof. intros Hs. by apply (bsearch_spec recipe_id id all). Qed.

(** One iteration either extends the increasing, uniform, parented prefix or
    blames a fault of the catalog. *)
Lemma check_recipe_spec all first ps r rest :
  all = ps ++ r :: rest -> StronglySorted id_le all -> head all = Some first ->
  StronglySorted id_lt ps ->
  let status := check_recipe all first (last ps) r in
  if decide (status = LAPLACE_STOCK_RECIPE_OK)
  then StronglySorted id_lt (ps ++ [r]) /\
       semantic_segmentation_law_id r = semantic_segmentation_law_id first /\ parented all r
  else recipe_fault all status.
Proof.
  intros Hall Hs Hf Hlt. unfold check_recipe. cbv zeta.
  assert (Hr : r ∈ all) by (rewrite Hall; apply elem_of_app; right; left).
  assert (Hfirst : first ∈ all) by (destruct all; [done|]; injection Hf as ->; left).
  pose proof (sorted_extend recipe_id all ps r rest Hall Hs Hlt) as Hnext.
  destruct (match last ps with None => false | Some _ => _ end).
  { rewrite decide_False by done. by apply fault_duplicate. }
  destruct (bytes_equal (semantic_segmentation_law_id r) _) eqn:Eg; cbn [negb].
  2:{ rewrite decide_False by done. apply (fault_segmentation _ r first); [done..|].
      by apply bytes_equal_false. }
  apply bytes_equal_spec in Eg.
  destruct (Z.eqb_spec (scope_kind r) 1) as [Esc|Esc].
  { rewrite decide_True by done. split_and!; [done | done | by left]. }
  pose proof (find_recipe_spec all (parent_recipe_id r) Hs) as Hfind.
  destruct (find_recipe all (parent_recipe_id r)) as [p|].
  2:{ rewrite decide_False by done. by apply (fault_parent _ r). }
  destruct Hfind as [Hp Hid].
  destruct (bytes_equal (source_profile_id p) (source_profile_id r)) eqn:Ep; cbn [negb orb].
  2:{ rewrite decide_False by done. apply (fault_hierarchy _ r p); [done..|].
      intros (_ & H & _). by apply bytes_equal_false in Ep. }
  apply bytes_equal_spec in Ep. destruct (Z.leb_spec (scope_kind r) (scope_kind p)).
  { rewrite decide_False by done. apply (fault_hierarchy _ r p); [done..|].
    intros (_ & _ & ?). lia. }
  rewrite decide_True by done. split_and!; [done | done |].
  right. exists p. by split.
Qed.

Lemma recipe_loop_spec all first h0 rest : forall ps i,
  all = ps ++ rest -> StronglySorted id_le all -> head all = Some first ->
  StronglySorted id_lt ps ->
  Forall (fun r => semantic_segmentation_law_id r = semantic_segmentation_law_id first /\
                   parented all r) ps ->
  match recipe_loop all first (last ps) rest i (foldl count_recipe h0 ps) with
  | inl h => h = foldl count_recipe h0 all /\ StronglySorted id_lt all /\
      Forall (fun r => semantic_segmentation_law_id r = semantic_segmentation_law_id first /\
                       parented all r) all
  | inr (status, _) => recipe_fault all status
  end.
Proof.
  induction rest as [|r rest IH]; intros ps i Hall Hs Hf Hlt Hps; cbn [recipe_loop].
  { rewrite app_nil_r in Hall. by subst. }
  pose proof (check_recipe_spec all first ps r rest Hall Hs Hf Hlt) as Hc. cbv zeta in Hc.
  destruct (check_recipe all first (last ps) r); try (by rewrite decide_False in Hc by done).
  rewrite decide_True in Hc by done. destruct Hc as (H1 & H2 & H3).
  specialize (IH (ps ++ [r]) (i + 1)). rewrite last_snoc, foldl_snoc in IH.
  apply IH; [by rewrite <- app_assoc | done..|]. apply Forall_app. split; [done|].
  by apply Forall_singleton.
Qed.

Lemma sibling_clash_spec a b : sibling_clash a b = true <-> siblings a b.
Proof.
  unfold sibling_clash, siblings. rewrite !andb_true_iff, Z.eqb_eq, !bytes_equal_spec. tauto.
Qed.

Lemma other_loop_spec r others : forall i,
  match other_loop r others i with
  | Some _ => exists o, o ∈ others /\ siblings r o
  | None => Forall (fun o => ~ siblings r o) others
  end.
Proof.
  induction others as [|o others IH]; intros i; cbn [other_loop]; [constructor|].
  pose proof (sibling_clash_spec r o) as Hc. destruct (sibling_clash r o).
  - exists o. split; [left | by apply Hc].
  - specialize (IH (i + 1)). destruct (other_loop r others (i + 1)).
    + destruct IH as (x & Hx & H). exists x. split; [by right | done].
    + constructor; [by intros H%Hc | done].
Qed.

Lemma sibling_loop_spec all : forall i, StronglySorted id_lt all ->
  match sibling_loop all i with
  | Some _ => exists a b, a ∈ all /\ b ∈ all /\ a <> b /\ siblings a b
  | None => forall a b, a ∈ all -> b ∈ all -> siblings a b -> a = b
  end.
Proof.
  induction all as [|r all IH]; intros i Hs; cbn [sibling_loop].
  { intros a b Ha. by apply not_elem_of_nil in Ha. }
  apply StronglySorted_inv in Hs as [Hs Hr].
  pose proof (other_loop_spec r all (i + 1)) as Ho.
  destruct (other_loop r all (i + 1)) as [o|].
  { destruct Ho as (x & Hx & H). exists r, x. split_and!; [left | by right | | done].
    intros ->. rewrite Forall_forall in Hr. specialize (Hr x Hx).
    by rewrite memcmp_refl in Hr. }
  specialize (IH (i + 1) Hs). destruct (sibling_loop all (i + 1)) as [o|].
  { destruct IH as (a & b & Ha & Hb & H). exists a, b. split_and!; [by right..|apply H|apply H]. }
  rewrite Forall_forall in Ho. intros a b [->|Ha]%elem_of_cons [->|Hb]%elem_of_cons H; auto.
  - by apply Ho in H.
  - destruct H as (? & ? & ?). by destruct (Ho a Ha).
Qed.
End Hierarchy.

(** ** Runs over the sorted planes *)
Local Abbreviation plane_le := (cmp_le (cmp_on plane_id memcmp)).
Local Abbreviation plane_lt := (fun a b => memcmp (plane_id a) (plane_id b) = Lt).

Section Planes.
Context {B : Blake3} {L : Blake3Laws B}.

Lemma plane_loop_spec recipes all rest : forall ps i h,
  StronglySorted id_le recipes ->
  all = ps ++ rest -> StronglySorted plane_le all -> StronglySorted plane_lt ps ->
  Forall (fun p => plane_recipe_id p ∈ map recipe_id recipes) ps ->
  absorbs h (concat (map plane_id ps)) ->
  match plane_loop recipes (last ps) rest i h with
  | inl h' => absorbs h' (concat (map plane_id all)) /\ StronglySorted plane_lt all /\
      Forall (fun p => plane_recipe_id p ∈ map recipe_id recipes) all
  | inr (status, _) =>
      (status = LAPLACE_STOCK_PERFCACHE_DUPLICATE /\ ~ NoDup (map plane_id all)) \/
      (status = LAPLACE_STOCK_PERFCACHE_RECIPE_MISSING /\
       exists p, p ∈ all /\ plane_recipe_id p ∉ map recipe_id recipes)
  end.
Proof.
  induction rest as [|p rest IH]; intros ps i h Hsr Hall Hs Hlt Hown Hh; cbn [plane_loop].
  { rewrite app_nil_r in Hall. by subst. }
  pose proof (sorted_extend plane_id all ps p rest Hall Hs Hlt) as Hext.
  destruct (match last ps with None => false | Some q => _ end); cbn [orb]; [by left|].
  pose proof (find_recipe_spec recipes (plane_recipe_id p) Hsr) as Hfind.
  destruct (find_recipe recipes (plane_recipe_id p)) as [r|]; cbn [is_null];
    [destruct Hfind as [Hr Hid]|].
  2:{ right. split; [done|]. exists p. split; [rewrite Hall; apply elem_of_app; right; left|].
      intros (r & E & Hr)%list_elem_of_fmap. by apply (Hfind r Hr). }
  specialize (IH (ps ++ [p]) (i + 1) (blake3_hasher_update h (plane_id p))).
  rewrite last_snoc in IH. apply IH; [done|by rewrite <- app_assoc|done|done|..].
  - apply Forall_app. split; [done|]. apply Forall_singleton. apply list_elem_of_fmap.
    by exists r.
  - rewrite map_app, concat_app. simpl. rewrite app_nil_r. by apply absorbs_update.
Qed.

Lemma identity_loop_some {A} (check : A -> laplace_stock_recipe_status) l : forall index s i,
  identity_loop check l index = Some (s, i) ->
  s <> LAPLACE_STOCK_RECIPE_OK /\ exists x, x ∈ l /\ check x = s.
Proof.
  induction l as [|x l IH]; intros index s i; cbn [identity_loop]; [done|].
  destruct (check x) eqn:E; try (intros [= <- _]; split; [done|]; exists x; split; [left|done]).
  intros (Hs & y & Hy & Hc)%IH. split; [done|]. exists y. split; [by right|done].
Qed.

Lemma check_recipe_fault r : recipe_wf r ->
  check_recipe_identity r <> LAPLACE_STOCK_RECIPE_OK ->
  (check_recipe_identity r = LAPLACE_STOCK_RECIPE_INVALID /\ ~ recipe_shaped r) \/
  (check_recipe_identity r = LAPLACE_STOCK_RECIPE_IDENTITY_MISMATCH /\
   recipe_id r <> blake3 (recipe_transcript r)).
Proof.
  intros Hwf. pose proof (recipe_shape_valid_spec r Hwf) as Hsh. unfold check_recipe_identity.
  destruct (recipe_shape_valid r) eqn:E.
  - rewrite recipe_identify_valid by done. cbn [default].
    destruct (bytes_equal _ _) eqn:Eb; cbn [negb]; [done|]. intros _. right.
    apply bytes_equal_false in Eb. split; [done|]. intros H. by symmetry in H.
  - unfold laplace_stock_recipe_identify. rewrite E. cbn [negb]. intros _. left.
    split; [done|]. by intros H%Hsh.
Qed.

Lemma check_plane_fault p : plane_wf p ->
  check_plane_identity p <> LAPLACE_STOCK_RECIPE_OK ->
  (check_plane_identity p = LAPLACE_STOCK_PERFCACHE_INVALID /\ ~ plane_shaped p) \/
  (check_plane_identity p = LAPLACE_STOCK_PERFCACHE_IDENTITY_MISMATCH /\
   plane_id p <> blake3 (plane_transcript p)).
Proof.
  intros Hwf. pose proof (plane_shape_valid_spec p Hwf) as Hsh. unfold check_plane_identity.
  destruct (plane_shape_valid p) eqn:E.
  - rewrite plane_identify_valid by done. cbn [default].
    destruct (bytes_equal _ _) eqn:Eb; cbn [negb]; [done|]. intros _. right.
    apply bytes_equal_false in Eb. split; [done|]. intros H. by symmetry in H.
  - unfold laplace_stock_perfcache_plane_identify. rewrite E. cbn [negb]. intros _. left.
    split; [done|]. by intros H%Hsh.
Qed.

(** Compiling the planes: their hasher, or a fault. *)
Lemma compile_planes_spec malloc recipes planes n :
  StronglySorted id_le recipes -> Forall plane_wf planes -> n = Z.of_nat (length planes) ->
  match compile_planes malloc recipes planes n with
  | inl h => planes_lawful recipes planes /\ StronglySorted plane_lt (qsort compare_plane planes)
      /\ absorbs h (concat (map plane_id (qsort compare_plane planes))) /\
      ~ (n <> 0 /\ malloc ordered_planes (n * SIZEOF_PLANE) = false)
  | inr (status, _) => plane_fault recipes planes status \/
      (status = LAPLACE_STOCK_RECIPE_RESOURCE_INSUFFICIENT /\
       n <> 0 /\ malloc ordered_planes (n * SIZEOF_PLANE) = false)
  end.
Proof.
  intros Hsr Hwf ->. unfold compile_planes.
  destruct (Z.eqb_spec (Z.of_nat (length planes)) 0) as [E|E].
  { destruct planes; [|simpl in E; lia].
    split_and!; [split; constructor | constructor | apply absorbs_init | by intros [? _]]. }
  destruct (malloc ordered_planes _); cbn [negb]; [|by right].
  destruct (identity_loop check_plane_identity planes 0) as [[s i]|] eqn:Ei.
  { apply identity_loop_some in Ei as (Hne & p & Hp & <-). left.
    rewrite Forall_forall in Hwf.
    destruct (check_plane_fault p (Hwf p Hp) Hne) as [[-> H]|[-> H]];
      [by apply (fault_plane_shape _ _ p) | by apply (fault_plane_identity _ _ p)]. }
  apply (identity_loop_none _ (fun p => plane_shaped p /\ plane_id p = blake3 (plane_transcript p)))
    in Ei; [|eapply Forall_impl; [exact Hwf|]; intros p ?; by apply check_plane_identity_spec].
  pose proof (plane_loop_spec recipes (qsort compare_plane planes) (qsort compare_plane planes)
    [] 0 blake3_hasher_init Hsr eq_refl (qsort_sorted _ _) ltac:(constructor)
    ltac:(constructor) absorbs_init) as H.
  change (last []) with (@None laplace_stock_perfcache_plane) in H.
  assert (Hp : qsort compare_plane planes ≡ₚ planes) by apply qsort_perm.
  destruct (plane_loop _ _ _ _ _) as [h|[s i]].
  - destruct H as (Hh & Hlt & Hown). split_and!; [|done|done|by intros [_ ?]]. split; [done| |].
    + rewrite <- (Permutation_map plane_id Hp). by apply strictly_sorted_distinct.
    + by rewrite <- Hp.
  - left. destruct H as [[-> H]|[-> (p & Hin & H)]].
    + apply fault_plane_duplicate. by rewrite <- (Permutation_map plane_id Hp).
    + apply (fault_owner _ _ p); [by rewrite <- Hp | done].
Qed.
End Planes.

(** ** The receipt of a catalog *)
Definition source_recipes (recipes : list laplace_stock_recipe) : list laplace_stock_recipe :=
  filter (fun r => scope_kind r = LAPLACE_STOCK_SCOPE_SOURCE) recipes.

Definition catalog_transcript (r : laplace_stock_catalog_receipt) : list Z :=
  domain_bytes "laplace.stock-recipe.catalog.v1" ++ recipe_set_fingerprint r ++
  perfcache_set_fingerprint r ++ store_le 8 (recipe_count r) ++ store_le 8 (source_count r) ++
  store_le 8 (perfcache_plane_count r) ++ store_le 4 (maximum_scope_kind r) ++
  store_le 4 (version r).

(** [set] fingerprints the identities of [l] in increasing order. *)
Definition set_fingerprint {B : Blake3} {A} (f : A -> laplace_digest256) (l : list A)
    (set : laplace_digest256) : Prop :=
  exists ordered, ordered ≡ₚ l /\
    StronglySorted (fun a b => memcmp (f a) (f b) = Lt) ordered /\
    set = blake3 (concat (map f ordered)).

(** What the receipt of a catalog states of it. *)
Record catalog_receipt_of {B : Blake3} (recipes : list laplace_stock_recipe)
    (planes : list laplace_stock_perfcache_plane) (r : laplace_stock_catalog_receipt)
    : Prop := {
  of_catalog : catalog_id r = blake3 (catalog_transcript r);
  of_recipes : set_fingerprint recipe_id recipes (recipe_set_fingerprint r);
  of_planes : set_fingerprint plane_id planes (perfcache_set_fingerprint r);
  of_recipe_count : recipe_count r = Z.of_nat (length recipes);
  of_source_count : source_count r = Z.of_nat (length (source_recipes recipes));
  of_plane_count : perfcache_plane_count r = Z.of_nat (length planes);
  of_scope_bound : Forall (fun x => scope_kind x <= maximum_scope_kind r) recipes;
  of_scope_reached : exists x, x ∈ recipes /\ scope_kind x = maximum_scope_kind r;
  of_rest : version r = LAPLACE_STOCK_VERSION /\ receipt_status r = 0 /\
    receipt_flags r = LAPLACE_STOCK_FLAGS_NONE }.

Lemma set_fingerprint_perm {B : Blake3} {A} (f : A -> laplace_digest256) l l' set set' :
  l ≡ₚ l' -> set_fingerprint f l set -> set_fingerprint f l' set' -> set = set'.
Proof.
  intros Hp (o & Ho & Hs & ->) (o' & Ho' & Hs' & ->).
  assert (Hle : forall k, StronglySorted (fun a b => memcmp (f a) (f b) = Lt) k ->
                StronglySorted (cmp_le (cmp_on f memcmp)) k).
  { intros k Hk. rewrite <- (map_id k). eapply StronglySorted_map; [exact Hk|].
    intros a b _ _ Hab. unfold cmp_le, cmp_on. simpl. by rewrite Hab. }
  rewrite (sorted_permutation_unique (cmp_on f memcmp) o o'); auto.
  - by rewrite Ho, Ho'.
  - intros a b Ha Hb E. apply memcmp_eq in E.
    destruct (StronglySorted_trichotomy _ o a b Hs Ha Hb) as [|[H|H]]; [done|..];
      rewrite E, memcmp_refl in H; done.
Qed.

(** The receipt depends on the set of recipes and planes, not on their order. *)
Lemma catalog_receipt_perm {B : Blake3} recipes recipes' planes planes' r r' :
  recipes ≡ₚ recipes' -> planes ≡ₚ planes' ->
  catalog_receipt_of recipes planes r -> catalog_receipt_of recipes' planes' r' -> r = r'.
Proof.
  intros Hr Hp [Hc Hrs Hps Hrc Hsc Hpc Hb (x & Hx & Hxs) (Hv & Hst & Hfl)]
    [Hc' Hrs' Hps' Hrc' Hsc' Hpc' Hb' (x' & Hx' & Hxs') (Hv' & Hst' & Hfl')].
  pose proof (set_fingerprint_perm recipe_id _ _ _ _ Hr Hrs Hrs').
  pose proof (set_fingerprint_perm plane_id _ _ _ _ Hp Hps Hps').
  assert (recipe_count r = recipe_count r') by (by rewrite Hrc, Hrc', Hr).
  assert (perfcache_plane_count r = perfcache_plane_count r') by (by rewrite Hpc, Hpc', Hp).
  assert (source_count r = source_count r').
  { rewrite Hsc, Hsc'. unfold source_recipes. by rewrite Hr. }
  assert (maximum_scope_kind r = maximum_scope_kind r').
  { rewrite Forall_forall in Hb, Hb'. rewrite Hr in Hx. rewrite <- Hr in Hx'.
    apply Hb' in Hx. apply Hb in Hx'. lia. }
  assert (catalog_id r = catalog_id r') by (rewrite Hc, Hc'; unfold catalog_transcript; congruence).
  destruct r, r'; simpl in *; congruence.
Qed.

Section Compilation.
Context {B : Blake3} {L : Blake3Laws B}.

Local Abbreviation counted_recipes l :=
  (foldl count_recipe (mk_hierarchy blake3_hasher_init 0 0) l).

Lemma counted_recipes_spec all : Z.of_nat (length all) <= UINT64_MAX ->
  Forall (fun r => 0 <= scope_kind r) all ->
  absorbs (recipe_hasher (counted_recipes all)) (concat (map recipe_id all)) /\
  sources (counted_recipes all) = Z.of_nat (length (source_recipes all)) /\
  Forall (fun r => scope_kind r <= maximum_scope (counted_recipes all)) all /\
  (all = [] /\ maximum_scope (counted_recipes all) = 0 \/
   exists r, r ∈ all /\ scope_kind r = maximum_scope (counted_recipes all)) /\
  0 <= maximum_scope (counted_recipes all).
Proof.
  induction all as [|r all IH] using rev_ind; intros Hlen Hsc.
  { split_and!; [apply absorbs_init | done | constructor | by left | done]. }
  rewrite length_app in Hlen. simpl in Hlen. apply Forall_app in Hsc as [Hsc Hr].
  apply Forall_cons in Hr as [Hr _].
  destruct IH as (Hh & Hs & Hb & Hm & Hpos); [lia|done|].
  rewrite !foldl_snoc. set (h := counted_recipes all) in *.
  assert (Hcnt : Z.of_nat (length (source_recipes (all ++ [r]))) =
    Z.of_nat (length (source_recipes all)) + (if scope_kind r =? 1 then 1 else 0)).
  { unfold source_recipes. rewrite filter_app, length_app, Nat2Z.inj_add. f_equal.
    rewrite filter_cons, filter_nil. by destruct (Z.eqb_spec (scope_kind r) 1); case_decide. }
  assert (Hle : Z.of_nat (length (source_recipes all)) <= Z.of_nat (length all)).
  { unfold source_recipes. pose proof (length_filter (fun x => scope_kind x = 1) all). lia. }
  cbn [count_recipe recipe_hasher sources maximum_scope]. split_and!.
  - rewrite map_app, concat_app. simpl. rewrite app_nil_r. by apply absorbs_update.
  - rewrite Hcnt, Hs. destruct (scope_kind r =? 1); [apply u64_small; lia | lia].
  - destruct (Z.ltb_spec (maximum_scope h) (scope_kind r)); apply Forall_app; split.
    + eapply Forall_impl; [exact Hb|]. cbv beta. lia.
    + by apply Forall_singleton.
    + done.
    + by apply Forall_singleton.
  - right. destruct (Z.ltb_spec (maximum_scope h) (scope_kind r)).
    + exists r. split; [apply elem_of_app; right; left | done].
    + destruct Hm as [[-> Hm]|(x & Hx & E)].
      * exists r. split; [left|]. lia.
      * exists x. split; [apply elem_of_app; by left | done].
  - destruct (Z.ltb_spec (maximum_scope h) (scope_kind r)); lia.
Qed.

Lemma catalog_receipt_spec recipes planes ordered ordered_ps ph :
  Z.of_nat (length recipes) <= UINT64_MAX -> Forall recipe_wf recipes -> recipes <> [] ->
  ordered ≡ₚ recipes -> StronglySorted id_lt ordered ->
  ordered_ps ≡ₚ planes -> StronglySorted plane_lt ordered_ps ->
  absorbs ph (concat (map plane_id ordered_ps)) ->
  catalog_receipt_of recipes planes
    (catalog_receipt (counted_recipes ordered) ph (Z.of_nat (length recipes))
       (Z.of_nat (length planes))).
Proof.
  intros Hlen Hwf Hne Hp Hs Hpp Hps Hph.
  destruct (counted_recipes_spec ordered) as (Hh & Hsrc & Hb & Hm & _).
  { by rewrite Hp. }
  { rewrite Hp. eapply Forall_impl; [exact Hwf|]. intros r [? ? ? ? H ? ? ?]. lia. }
  unfold catalog_receipt.
  split; cbn [catalog_id recipe_set_fingerprint perfcache_set_fingerprint recipe_count
    source_count perfcache_plane_count maximum_scope_kind version receipt_status receipt_flags];
    try done.
  - apply absorbs_finalize. unfold catalog_transcript.
    cbn [recipe_set_fingerprint perfcache_set_fingerprint recipe_count
      source_count perfcache_plane_count maximum_scope_kind version]. absorb.
  - exists ordered. split_and!; [done|done|]. by apply absorbs_finalize.
  - exists ordered_ps. split_and!; [done|done|]. by apply absorbs_finalize.
  - rewrite Hsrc. unfold source_recipes. by rewrite Hp.
  - by rewrite Hp in Hb.
  - destruct Hm as [[-> _]|(x & Hx & E)].
    + by apply Permutation_nil_l in Hp.
    + exists x. split; [by rewrite <- Hp | done].
Qed.

(** An allocation the compilation asks for fails. *)
Definition out_of_memory (malloc : allocation -> Z -> bool) (recipe_count plane_count : Z)
    : Prop :=
  malloc ordered_recipes (recipe_count * SIZEOF_RECIPE) = false \/
  (plane_count <> 0 /\ malloc ordered_planes (plane_count * SIZEOF_PLANE) = false).

(** Compilation returns the receipt of a lawful catalog, or a fault. *)
Lemma compile_copies_spec malloc recipes planes :
  recipes <> [] -> Z.of_nat (length recipes) <= UINT64_MAX ->
  Forall recipe_wf recipes -> Forall plane_wf planes ->
  match compile_copies malloc recipes (Z.of_nat (length recipes)) planes
          (Z.of_nat (length planes)) with
  | inl r => catalog_lawful recipes planes /\ catalog_receipt_of recipes planes r /\
      ~ out_of_memory malloc (Z.of_nat (length recipes)) (Z.of_nat (length planes))
  | inr (status, _, _) => recipe_fault recipes status \/ plane_fault recipes planes status \/
      (status = LAPLACE_STOCK_RECIPE_RESOURCE_INSUFFICIENT /\
       out_of_memory malloc (Z.of_nat (length recipes)) (Z.of_nat (length planes)))
  end.
Proof.
  intros Hne Hlen Hwf Hwfp. unfold compile_copies, out_of_memory.
  destruct (malloc ordered_recipes _); cbn [negb]; [|by right; right; split; [|left]].
  destruct (identity_loop check_recipe_identity recipes 0) as [[s i]|] eqn:Ei.
  { apply identity_loop_some in Ei as (Hns & r & Hr & <-). left.
    pose proof Hwf as Hwf'. rewrite Forall_forall in Hwf'.
    destruct (check_recipe_fault r (Hwf' r Hr) Hns) as [[-> H]|[-> H]];
      [by apply (fault_shape _ r) | by apply (fault_identity _ r)]. }
  apply (identity_loop_none _
    (fun r => recipe_shaped r /\ recipe_id r = blake3 (recipe_transcript r))) in Ei;
    [|eapply Forall_impl; [exact Hwf|]; intros r ?; by apply check_recipe_identity_spec].
  assert (Hp : qsort compare_recipe recipes ≡ₚ recipes) by apply qsort_perm.
  assert (Hs : StronglySorted id_le (qsort compare_recipe recipes)) by apply qsort_sorted, _.
  set (ordered := qsort compare_recipe recipes) in *. unfold compile_ordered.
  destruct ordered as [|first rest] eqn:Eo; [by apply Permutation_nil_l in Hp|].
  rewrite <- Eo in *. clearbody ordered.
  pose proof (recipe_loop_spec ordered first (mk_hierarchy blake3_hasher_init 0 0) ordered [] 0
    eq_refl Hs ltac:(by rewrite Eo) ltac:(constructor) ltac:(constructor)) as Hloop.
  change (last []) with (@None laplace_stock_recipe) in Hloop. cbn [foldl] in Hloop.
  destruct (recipe_loop _ _ _ _ _ _) as [h|[s i]].
  2:{ left. by apply (recipe_fault_perm ordered). }
  destruct Hloop as (-> & Hlt & Hall).
  pose proof (sibling_loop_spec ordered 0 Hlt) as Hsib.
  destruct (sibling_loop ordered 0) as [o|].
  { destruct Hsib as (a & b & Ha & Hb & Hab & H). left. rewrite Hp in Ha, Hb.
    by apply (fault_siblings _ a b). }
  destruct (counted_recipes_spec ordered) as (_ & Hsrc & _).
  { by rewrite Hp. }
  { rewrite Hp. eapply Forall_impl; [exact Hwf|]. intros r [? ? ? ? H ? ? ?]. lia. }
  assert (Hroot : Z.of_nat (length (source_recipes recipes)) = sources (counted_recipes ordered)).
  { rewrite Hsrc. unfold source_recipes. by rewrite Hp. }
  destruct (Z.eqb_spec (sources (counted_recipes ordered)) 0) as [Ez|Ez].
  { left. apply fault_rootless. intros r Hr Hsc. rewrite Ez in Hroot.
    assert (Hin : r ∈ source_recipes recipes) by (by apply list_elem_of_filter).
    destruct (source_recipes recipes); [by apply not_elem_of_nil in Hin | simpl in Hroot; lia]. }
  assert (Hnd : NoDup (map recipe_id recipes)).
  { rewrite <- (Permutation_map recipe_id Hp). by apply strictly_sorted_distinct. }
  assert (Hlaw : recipes_lawful recipes).
  { rewrite Forall_forall in Hall. split; [done|done|..].
    - intros a b Ha Hb. rewrite <- Hp in Ha, Hb.
      destruct (Hall a Ha) as [-> _], (Hall b Hb) as [-> _]. done.
    - apply Forall_forall. intros r Hr. rewrite <- Hp in Hr.
      destruct (Hall r Hr) as [_ [H|(p & Hin & H)]]; [by left|right].
      exists p. by rewrite <- Hp.
    - intros a b Ha Hb. rewrite <- Hp in Ha, Hb. by apply Hsib.
    - destruct (source_recipes recipes) as [|s l] eqn:Es; [simpl in Hroot; lia|].
      assert (Hin : s ∈ source_recipes recipes) by (rewrite Es; left).
      apply list_elem_of_filter in Hin as [H1 H2]. by exists s. }
  pose proof (compile_planes_spec malloc ordered planes _ Hs Hwfp eq_refl) as Hpl.
  assert (Hids : forall id, id ∈ map recipe_id ordered <-> id ∈ map recipe_id recipes)
    by (intros id; by rewrite (Permutation_map recipe_id Hp)).
  destruct (compile_planes malloc ordered planes _) as [ph|[s i]].
  - destruct Hpl as ([H1 H2 H3] & Hps & Hph & Hmem).
    split_and!; [| |by intros [?|?]].
    + split; [done|]. split; [done|done|]. eapply Forall_impl; [exact H3|]. intros p. apply Hids.
    + apply (catalog_receipt_spec _ _ _ (qsort compare_plane planes)); try done. apply qsort_perm.
  - right. destruct Hpl as [Hf|[-> Hm]]; [left|by right; split; [|right]].
    destruct Hf as [p ? ?|p ? ?|?|p Hin H]; [by eapply fault_plane_shape
      |by eapply fault_plane_identity|by eapply fault_plane_duplicate|].
    apply (fault_owner _ _ p); [done|]. by rewrite <- Hids.
Qed.
End Compilation.

(** ** Calls *)
Section Calls.
Context {B : Blake3} {L : Blake3Laws B}.

(** A call in range returns the receipt of a lawful catalog, or leaves the
    receipt alone and blames a fault. *)
Lemma compile_catalog_outcome malloc recipes planes r0 e0 :
  1 <= Z.of_nat (length recipes) <= SIZE_MAX / SIZEOF_RECIPE ->
  Z.of_nat (length planes) <= SIZE_MAX / SIZEOF_PLANE ->
  Forall recipe_wf recipes -> Forall plane_wf planes ->
  let run := laplace_stock_recipe_compile_catalog malloc (Some recipes)
               (Z.of_nat (length recipes)) (Some planes) (Z.of_nat (length planes))
               (Some r0) (Some e0) in
  (exists r, catalog_lawful recipes planes /\ catalog_receipt_of recipes planes r /\
     ~ out_of_memory malloc (Z.of_nat (length recipes)) (Z.of_nat (length planes)) /\
     run = (LAPLACE_STOCK_RECIPE_OK, Some r, Some zero_error)) \/
  (exists status i j, status <> LAPLACE_STOCK_RECIPE_OK /\
     (((recipe_fault recipes status \/ plane_fault recipes planes status) /\
       ~ catalog_lawful recipes planes) \/
      (status = LAPLACE_STOCK_RECIPE_RESOURCE_INSUFFICIENT /\
       out_of_memory malloc (Z.of_nat (length recipes)) (Z.of_nat (length planes)))) /\
     run = (status, Some r0, Some (mk_error i j status (error_reserved e0)))).
Proof.
  change (SIZE_MAX / SIZEOF_RECIPE) with 45212608023797920.
  change (SIZE_MAX / SIZEOF_PLANE) with 62320081330099836. intros Hn Hm Hwf Hwfp.
  unfold laplace_stock_recipe_compile_catalog. ptrs.
  rewrite (proj2 (Z.eqb_neq (Z.of_nat (length recipes)) 0)) by lia. cbn [orb].
  rewrite andb_false_r.
  change (SIZE_MAX / SIZEOF_RECIPE) with 45212608023797920.
  change (SIZE_MAX / SIZEOF_PLANE) with 62320081330099836.
  rewrite !(proj2 (Z.ltb_ge _ _)) by lia. cbn [orb]. rewrite !cells_all by done.
  assert (Hne : recipes <> []) by (intros ->; simpl in Hn; lia).
  pose proof (compile_copies_spec malloc recipes planes Hne ltac:(lia) Hwf Hwfp) as H.
  destruct (compile_copies _ _ _ _ _) as [r|[[s i] j]].
  - left. exists r. by destruct H as (? & ? & ?).
  - right. exists s, i, j. destruct H as [H|[H|[-> H]]].
    + destruct (recipe_fault_unlawful _ _ H) as [Hs Hno]. split_and!; [done| |done].
      left. split; [by left|]. by intros [? _].
    + destruct (plane_fault_unlawful _ _ _ H) as [Hs Hno]. split_and!; [done| |done].
      left. split; [by right|]. by intros [_ ?].
    + split_and!; [done| |done]. by right.
Qed.
End Calls.


(** A catalog is what it contains.  Two calls on the same recipes and planes
    in any order both succeed or both fail, and successful calls return the
    same receipt, catalog identity included. *)
Theorem catalog_order_invariant {B : Blake3} {L : Blake3Laws B} malloc
    recipes recipes' planes planes' r0 e0 :
  1 <= Z.of_nat (length recipes) <= SIZE_MAX / SIZEOF_RECIPE ->
  Z.of_nat (length planes) <= SIZE_MAX / SIZEOF_PLANE ->
  Forall recipe_wf recipes -> Forall plane_wf planes ->
  recipes' ≡ₚ recipes -> planes' ≡ₚ planes ->
  let run := fun rs ps => laplace_stock_recipe_compile_catalog malloc (Some rs)
    (Z.of_nat (length recipes)) (Some ps) (Z.of_nat (length planes)) (Some r0) (Some e0) in
  ((run recipes planes).1.1 = LAPLACE_STOCK_RECIPE_OK <->
   (run recipes' planes').1.1 = LAPLACE_STOCK_RECIPE_OK) /\
  ((run recipes planes).1.1 = LAPLACE_STOCK_RECIPE_OK ->
   run recipes' planes' = run recipes planes).
Proof.
  intros Hn Hm Hwf Hwfp Hp Hpp. cbv zeta.
  pose proof (compile_catalog_outcome malloc recipes planes r0 e0 Hn Hm Hwf Hwfp) as H.
  pose proof (compile_catalog_outcome malloc recipes' planes' r0 e0) as H'.
  rewrite (Permutation_length Hp), (Permutation_length Hpp) in H'.
  rewrite <- Hp in Hwf. rewrite <- Hpp in Hwfp. specialize (H' Hn Hm Hwf Hwfp).
  cbv zeta in H, H'.
  destruct H as [(r & Hl & Hr & Hmem & ->) | (s & i & j & Hs & Hf & ->)],
    H' as [(r' & Hl' & Hr' & Hmem' & ->) | (s' & i' & j' & Hs' & Hf' & ->)]; cbn [fst].
  - split; [done|]. intros _. by rewrite (catalog_receipt_perm recipes' recipes planes' planes r' r).
  - exfalso. destruct Hf' as [[_ Hno]|[_ ?]]; [|done]. by apply Hno, (catalog_lawful_perm recipes planes).
  - exfalso. destruct Hf as [[_ Hno]|[_ ?]]; [|done]. by apply Hno, (catalog_lawful_perm recipes' planes').
  - done.
Qed.

(** ** Ancestry *)
(** The chain of parents of a recipe, up to a source. *)
Inductive ancestry (recipes : list laplace_stock_recipe)
    : laplace_stock_recipe -> list laplace_stock_recipe -> Prop :=
| ancestry_source r : scope_kind r = LAPLACE_STOCK_SCOPE_SOURCE -> ancestry recipes r []
| ancestry_parent r p chain : p ∈ recipes -> owns p r -> ancestry recipes p chain ->
    ancestry recipes r (p :: chain).

Section Ancestry.
Context {B : Blake3}.
Variable recipes : list laplace_stock_recipe.
Hypothesis lawful : recipes_lawful recipes.

Lemma lawful_scope r : r ∈ recipes -> 1 <= scope_kind r <= 6.
Proof.
  destruct lawful as [Hall _ _ _ _ _]. rewrite Forall_forall in Hall.
  intros Hr. apply Hall, Hr.
Qed.

Lemma ancestry_exists n : forall r, r ∈ recipes -> scope_kind r <= Z.of_nat n ->
  exists chain, ancestry recipes r chain /\ Z.of_nat (length chain) < scope_kind r.
Proof.
  pose proof lawful_scope as Hsc. destruct lawful as [_ _ _ Hpar _ _].
  rewrite Forall_forall in Hpar.
  induction n as [|n IH]; intros r Hr Hn; [specialize (Hsc r Hr); lia|].
  destruct (Hpar r Hr) as [H|(p & Hp & Ho)].
  - exists []. split; [by constructor|]. rewrite H. done.
  - pose proof Ho as (_ & _ & Hlt). destruct (IH p Hp ltac:(lia)) as (chain & Hc & Hl).
    exists (p :: chain). split; [by apply ancestry_parent|]. simpl. lia.
Qed.

Lemma ancestry_unique r chain chain' :
  r ∈ recipes -> ancestry recipes r chain -> ancestry recipes r chain' -> chain = chain'.
Proof.
  intros Hr Ha. revert Hr chain'. induction Ha as [r Hs|r p chain Hp Ho Ha IH];
    intros Hr chain' Ha'; inversion Ha' as [? Hs'|? p' chain'' Hp' Ho' Ha'']; subst; [done|..].
  - destruct Ho' as (_ & _ & ?). pose proof (lawful_scope p' Hp'). lia.
  - destruct Ho as (_ & _ & ?). pose proof (lawful_scope p Hp). lia.
  - assert (p' = p) as ->.
    { destruct lawful as [_ Hnd _ _ _ _]. apply (same_id recipes); [done..|].
      destruct Ho as [-> _], Ho' as [-> _]. done. }
    f_equal. by apply IH.
Qed.

(** The chain ends in a source of the recipe's own profile. *)
Lemma ancestry_root r chain : r ∈ recipes -> ancestry recipes r chain ->
  exists s, last (r :: chain) = Some s /\ s ∈ recipes /\
    scope_kind s = LAPLACE_STOCK_SCOPE_SOURCE /\ parent_recipe_id s = zeros 32 /\
    source_profile_id s = source_profile_id r /\ Forall (fun p => p ∈ recipes) chain.
Proof.
  intros Hr Ha. revert Hr. induction Ha as [r Hs|r p chain Hp Ho Ha IH]; intros Hr.
  - exists r. destruct lawful as [Hall _ _ _ _ _]. rewrite Forall_forall in Hall.
    destruct (Hall r Hr) as [[Hz _ _ _ _ _ _] _]. split_and!; try done. by apply Hz.
  - destruct (IH Hp) as (s & Hl & Hs & Hsc & Hpz & Hprof & Hf). exists s.
    destruct Ho as (_ & Ho & _). split_and!; try done; [congruence|]. by constructor.
Qed.
End Ancestry.

(** An accepted catalog is a forest rooted in its sources.  Every recipe has
    exactly one chain of parents inside the catalog; it has fewer links than the
    recipe's scope, at most five, and ends in a source of the same source
    profile. *)
Theorem catalog_rooted {B : Blake3} {L : Blake3Laws B} malloc recipes planes r0 e0 r :
  1 <= Z.of_nat (length recipes) <= SIZE_MAX / SIZEOF_RECIPE ->
  Z.of_nat (length planes) <= SIZE_MAX / SIZEOF_PLANE ->
  Forall recipe_wf recipes -> Forall plane_wf planes ->
  (laplace_stock_recipe_compile_catalog malloc (Some recipes) (Z.of_nat (length recipes))
     (Some planes) (Z.of_nat (length planes)) (Some r0) (Some e0)).1.1 =
    LAPLACE_STOCK_RECIPE_OK ->
  r ∈ recipes ->
  exists chain s, ancestry recipes r chain /\
    (forall chain', ancestry recipes r chain' -> chain' = chain) /\
    Z.of_nat (length chain) < scope_kind r <= 6 /\
    last (r :: chain) = Some s /\ s ∈ recipes /\
    scope_kind s = LAPLACE_STOCK_SCOPE_SOURCE /\ parent_recipe_id s = zeros 32 /\
    source_profile_id s = source_profile_id r /\ Forall (fun p => p ∈ recipes) chain.
Proof.
  intros Hn Hm Hwf Hwfp Hok Hr.
  destruct (compile_catalog_outcome malloc recipes planes r0 e0 Hn Hm Hwf Hwfp)
    as [(r' & [Hl _] & _) | (s & i & j & Hs & _ & E)]; [|by rewrite E in Hok].
  pose proof (lawful_scope recipes Hl r Hr) as Hsc.
  destruct (ancestry_exists recipes Hl (Z.to_nat (scope_kind r)) r Hr ltac:(lia))
    as (chain & Hc & Hlen).
  destruct (ancestry_root recipes Hl r chain Hr Hc) as (s & H).
  exists chain, s. split; [done|]. split; [|split; [lia|done]].
  intros chain' Hc'. by apply (ancestry_unique recipes Hl r).
Qed.

(** ** Catalogs given as items *)
Definition item_wf (i : laplace_stock_catalog_item) : Prop :=
  recipe_wf (recipe i) /\ plane_wf (perfcache_plane i).

Definition is_recipe_item (i : laplace_stock_catalog_item) : Prop :=
  item_flags i = LAPLACE_STOCK_FLAGS_NONE /\ item_kind i = LAPLACE_STOCK_ITEM_RECIPE /\
  bytes_zero (plane_memory (perfcache_plane i)) = true.
Definition is_plane_item (i : laplace_stock_catalog_item) : Prop :=
  item_flags i = LAPLACE_STOCK_FLAGS_NONE /\
  item_kind i = LAPLACE_STOCK_ITEM_PERFCACHE_PLANE /\
  bytes_zero (recipe_memory (recipe i)) = true.

#[export] Instance is_recipe_item_dec i : Decision (is_recipe_item i).
Proof. unfold is_recipe_item. apply _. Defined.
#[export] Instance is_plane_item_dec i : Decision (is_plane_item i).
Proof. unfold is_plane_item. apply _. Defined.

Lemma split_items_spec items : forall index recipes planes,
  match split_items items index recipes planes with
  | inl (rs, ps) =>
      Forall (fun i => is_recipe_item i \/ is_plane_item i) items /\
      rs = recipes ++ map recipe (filter is_recipe_item items) /\
      ps = planes ++ map perfcache_plane (filter is_plane_item items)
  | inr bad => exists k i, bad = index + Z.of_nat k /\ items !! k = Some i /\
      ~ is_recipe_item i /\ ~ is_plane_item i /\
      Forall (fun i => is_recipe_item i \/ is_plane_item i) (take k items)
  end.
Proof.
  induction items as [|i items IH]; intros index recipes planes; cbn [split_items].
  { split_and!; [constructor | by rewrite app_nil_r..]. }
  assert (Hrec : (item_flags i =? 0) && ((item_kind i =? 1) &&
     bytes_zero (plane_memory (perfcache_plane i))) = true <-> is_recipe_item i).
  { unfold is_recipe_item. rewrite !andb_true_iff, !Z.eqb_eq. tauto. }
  assert (Hpl : (item_flags i =? 0) && ((item_kind i =? 2) &&
     bytes_zero (recipe_memory (recipe i))) = true <-> is_plane_item i).
  { unfold is_plane_item. rewrite !andb_true_iff, !Z.eqb_eq. tauto. }
  assert (Hdisj : is_recipe_item i -> ~ is_plane_item i).
  { intros (_ & H1 & _) (_ & H2 & _). congruence. }
  rewrite !filter_cons.
  destruct (item_flags i =? 0); cbn [negb andb] in *.
  2:{ exists 0%nat, i. split_and!; [lia|done| | |constructor]; naive_solver. }
  destruct ((item_kind i =? 1) && _).
  - assert (Hi : is_recipe_item i) by (by apply Hrec).
    rewrite (decide_True _ _ Hi), (decide_False _ _ (Hdisj Hi)).
    specialize (IH (index + 1) (recipes ++ [recipe i]) planes).
    destruct (split_items items _ _ _) as [[rs ps]|bad].
    + destruct IH as (H & -> & ->). split_and!; [constructor; auto | by rewrite <- app_assoc | done].
    + destruct IH as (k & i' & Hk & Hl & H1 & H2 & H). exists (S k), i'.
      split_and!; [lia | done..|]. simpl. constructor; auto.
  - destruct ((item_kind i =? 2) && _).
    + assert (Hi : is_plane_item i) by (by apply Hpl).
      assert (Hno : ~ is_recipe_item i) by (intros Hr; by apply (Hdisj Hr)).
      rewrite (decide_True _ _ Hi), (decide_False _ _ Hno).
      specialize (IH (index + 1) recipes (planes ++ [perfcache_plane i])).
      destruct (split_items items _ _ _) as [[rs ps]|bad].
      * destruct IH as (H & -> & ->). split_and!; [constructor; auto | done | by rewrite <- app_assoc].
      * destruct IH as (k & i' & Hk & Hl & H1 & H2 & H). exists (S k), i'.
        split_and!; [lia | done..|]. simpl. constructor; auto.
    + exists 0%nat, i. split_and!; [lia|done| | |constructor]; naive_solver.
Qed.

(** A catalog of items is the catalog of its recipes and its planes; the first
    item that is neither is reported under both indices. *)
Theorem catalog_items_exact {B : Blake3} malloc items receipt error :
  1 <= Z.of_nat (length items) <= SIZE_MAX / SIZEOF_RECIPE ->
  malloc item_recipes (Z.of_nat (length items) * SIZEOF_RECIPE) = true ->
  malloc item_planes (Z.of_nat (length items) * SIZEOF_PLANE) = true ->
  let run := laplace_stock_recipe_compile_catalog_items malloc (Some items)
    (Z.of_nat (length items)) (Some receipt) error in
  let recipes := map recipe (filter is_recipe_item items) in
  let planes := map perfcache_plane (filter is_plane_item items) in
  (Forall (fun i => is_recipe_item i \/ is_plane_item i) items /\
   run = laplace_stock_recipe_compile_catalog malloc (Some recipes)
           (Z.of_nat (length recipes)) (Some planes) (Z.of_nat (length planes))
           (Some receipt) error) \/
  (exists k i, items !! k = Some i /\ ~ is_recipe_item i /\ ~ is_plane_item i /\
     Forall (fun i => is_recipe_item i \/ is_plane_item i) (take k items) /\
     run = (LAPLACE_STOCK_RECIPE_INVALID, Some receipt,
            fail error LAPLACE_STOCK_RECIPE_INVALID (Z.of_nat k) (Z.of_nat k))).
Proof.
  assert (Hle : SIZE_MAX / SIZEOF_RECIPE <= SIZE_MAX / SIZEOF_PLANE) by (vm_compute; discriminate).
  intros Hn H1 H2. cbv zeta. unfold laplace_stock_recipe_compile_catalog_items. ptrs.
  rewrite (proj2 (Z.eqb_neq (Z.of_nat (length items)) 0)) by lia. cbn [orb].
  rewrite !(proj2 (Z.ltb_ge _ _)) by (eapply Z.le_trans; [apply Hn|done] || apply Hn).
  rewrite H1, H2. cbn [orb negb]. rewrite cells_all by done.
  pose proof (split_items_spec items 0 [] []) as H.
  destruct (split_items items 0 [] []) as [[rs ps]|bad].
  - left. by destruct H as (Hall & -> & ->).
  - right. destruct H as (k & i & -> & Hk & Hr & Hp & Hall). by exists k, i.
Qed.

(** ** A source with two children and a plane *)
Definition draft_recipe (id parent : laplace_digest256) (ordinal scope : Z)
    : laplace_stock_recipe :=
  mk_recipe id parent (replicate 32 1) (replicate 32 2) (replicate 32 3) (replicate 32 4)
    (replicate 32 5) (replicate 32 6) (replicate 32 7) (replicate 32 8) (replicate 32 9)
    (replicate 32 10) ordinal scope 1 1 0.
Definition sample_recipe (parent : laplace_digest256) (ordinal scope : Z)
    : laplace_stock_recipe :=
  draft_recipe
    (checksum (recipe_transcript (draft_recipe (zeros 32) parent ordinal scope)))
    parent ordinal scope.
Definition source_recipe : laplace_stock_recipe := sample_recipe (zeros 32) 1 1.
Definition sample_recipes : list laplace_stock_recipe :=
  [sample_recipe (recipe_id source_recipe) 2 3; source_recipe;
   sample_recipe (recipe_id source_recipe) 1 2].
Definition draft_plane (id : laplace_digest256) : laplace_stock_perfcache_plane :=
  mk_plane id (recipe_id source_recipe) (replicate 32 1) (replicate 32 2) (replicate 32 3)
    (replicate 32 4) (replicate 32 5) (replicate 32 6) (replicate 32 7) 1 0.
Definition sample_planes : list laplace_stock_perfcache_plane :=
  [draft_plane (checksum (plane_transcript (draft_plane (zeros 32))))].
Definition zero_receipt : laplace_stock_catalog_receipt :=
  mk_receipt (zeros 32) (zeros 32) (zeros 32) 0 0 0 0 0 0 0.
Definition plenty (_ : allocation) (_ : Z) : bool := true.
Local Abbreviation sample_run rs ps := (laplace_stock_recipe_compile_catalog
  (B := checksum_blake3) plenty (Some rs) 3 (Some ps) 1 (Some zero_receipt)
  (Some zero_error)).

Lemma checksum_bytes m : bytes 32 (checksum m).
Proof. apply (bytes_app 16 16); apply store_le_bytes. Qed.

Lemma sample_recipe_wf parent ordinal scope :
  bytes 32 parent -> is_u8 ordinal -> is_u8 scope ->
  recipe_wf (sample_recipe parent ordinal scope).
Proof.
  intros Hp Ho Hs. split; try done; try (cbn; lia); [apply checksum_bytes|].
  cbn [recipe_references sample_recipe draft_recipe]. check.
Qed.

Lemma sample_recipes_wf : Forall recipe_wf sample_recipes.
Proof.
  apply Forall_cons. split; [apply sample_recipe_wf; [apply checksum_bytes|lia..]|].
  apply Forall_cons. split; [apply sample_recipe_wf; [apply bytes_zeros|lia..]|].
  apply Forall_cons. split; [apply sample_recipe_wf; [apply checksum_bytes|lia..]|].
  apply Forall_nil_2.
Qed.

Lemma sample_planes_wf : Forall plane_wf sample_planes.
Proof.
  apply Forall_cons. split; [|apply Forall_nil_2].
  split; [apply checksum_bytes | | cbn; lia..]. check.
Qed.

Lemma sample_catalog_ok :
  (sample_run sample_recipes sample_planes).1.1 = LAPLACE_STOCK_RECIPE_OK.
Proof. vm_compute. reflexivity. Qed.


Lemma catalog_order_invariant_witness :
  sample_run (reverse sample_recipes) sample_planes = sample_run sample_recipes sample_planes.
Proof.
  apply (catalog_order_invariant (B := checksum_blake3) (L := checksum_blake3_laws) plenty
    sample_recipes (reverse sample_recipes) sample_planes sample_planes zero_receipt zero_error).
  - vm_compute. split; discriminate.
  - vm_compute. discriminate.
  - apply sample_recipes_wf.
  - apply sample_planes_wf.
  - apply reverse_Permutation.
  - reflexivity.
  - apply sample_catalog_ok.
Defined.

Lemma catalog_rooted_witness :
  exists chain s, ancestry sample_recipes (sample_recipe (recipe_id source_recipe) 2 3) chain /\
  last (sample_recipe (recipe_id source_recipe) 2 3 :: chain) = Some s /\ scope_kind s = 1.
Proof.
  destruct (catalog_rooted (B := checksum_blake3) (L := checksum_blake3_laws) plenty
    sample_recipes sample_planes zero_receipt zero_error
    (sample_recipe (recipe_id source_recipe) 2 3)
    ltac:(vm_compute; split; discriminate) ltac:(vm_compute; discriminate)
    sample_recipes_wf sample_planes_wf sample_catalog_ok ltac:(left))
    as (chain & s & Hc & _ & _ & Hl & _ & Hs & _).
  exists chain, s. split; [exact Hc|]. split; [exact Hl | exact Hs].
Defined.
