(* ===== verification/Binary64.v ===== *)
(** * Binary64 numbers as bit patterns

    The C files that compute with [double] are compiled with contraction off,
    so every operation is the IEEE 754 operation in round-to-nearest-even.  A
    [double] is its 64-bit pattern, as the code itself reads it with [memcpy];
    an operation decodes its arguments, applies the operation of [SpecFloat],
    and encodes the result.  [SpecFloat] has one NaN, encoded as the default
    quiet NaN; no routine lets the bits of a NaN reach an output. *)
From stdpp Require Import prelude.
From Stdlib Require Import ZArith Lia SpecFloat.
From S2P Require Import Prelude.

(** The bit pattern of a binary64 number. *)
Definition double : Type := Z.

(** ** Binary64 arithmetic on bit patterns *)
Definition to_spec_float (bits : double) : spec_float :=
  let negative := Z.testbit bits 63 in
  let exponent := Z.land (Z.shiftr bits 52) 0x7ff in
  let fraction := Z.land bits 0x000fffffffffffff in
  if exponent =? 0x7ff then
    if fraction =? 0 then S754_infinity negative else S754_nan
  else if exponent =? 0 then
    match fraction with Zpos m => S754_finite negative m (-1074) | _ => S754_zero negative end
  else
    match fraction + 0x0010000000000000 with
    | Zpos m => S754_finite negative m (exponent - 1075)
    | _ => S754_nan
    end.

Definition of_spec_float (f : spec_float) : double :=
  let signed (negative : bool) (bits : Z) :=
    if negative then bits + 0x8000000000000000 else bits in
  match f with
  | S754_zero negative => signed negative 0
  | S754_infinity negative => signed negative 0x7ff0000000000000
  | S754_nan => 0x7ff8000000000000
  | S754_finite negative m e =>
      signed negative
        (if Zpos m <? 0x0010000000000000 then Zpos m
         else (e + 1075) * 0x0010000000000000 + (Zpos m - 0x0010000000000000))
  end.

Definition double_multiply (a b : double) : double :=
  of_spec_float (SFmul 53 1024 (to_spec_float a) (to_spec_float b)).
Definition double_add (a b : double) : double :=
  of_spec_float (SFadd 53 1024 (to_spec_float a) (to_spec_float b)).
Definition double_sqrt (a : double) : double :=
  of_spec_float (SFsqrt 53 1024 (to_spec_float a)).
Definition double_subtract (a b : double) : double :=
  of_spec_float (SFsub 53 1024 (to_spec_float a) (to_spec_float b)).
Definition double_divide (a b : double) : double :=
  of_spec_float (SFdiv 53 1024 (to_spec_float a) (to_spec_float b)).
Definition double_opposite (a : double) : double := of_spec_float (SFopp (to_spec_float a)).
Definition double_fabs (a : double) : double := of_spec_float (SFabs (to_spec_float a)).

(** The conversion of an unsigned integer. *)
Definition double_of_u64 (value : Z) : double :=
  of_spec_float (binary_normalize 53 1024 value 0 false).

(** ** Classification and order: a comparison with a NaN is false *)
Definition isfinite (value : double) : bool :=
  negb (Z.land (Z.shiftr value 52) 0x7ff =? 0x7ff).
Definition double_eq (a b : double) : bool := SFeqb (to_spec_float a) (to_spec_float b).
Definition double_lt (a b : double) : bool := SFltb (to_spec_float a) (to_spec_float b).
Definition double_le (a b : double) : bool := SFleb (to_spec_float a) (to_spec_float b).
