(* ===== verification/BigUint.v ===== *)
(** * Fixed-width natural numbers of 36 limbs

    Models the [big_*] routines of [engine/src/geometry.c]: a number is an
    array of 32-bit limbs, least significant first.  [big_value] is the number
    an array stands for; every routine is proved against it for arrays of any
    length, with the carry out of the top limb accounted for. *)
From stdpp Require Import prelude.
From Stdlib Require Import ZArith Lia.
From S2P Require Import Prelude Bytes.

Abbreviation LAPLACE_GEOMETRY_ACCUMULATOR_LIMBS := 36%nat (only parsing).
Abbreviation limb_base := 4294967296 (only parsing).

(** ** Definitions *)
Definition laplace_biguint : Type := list Z.

Definition big_zero : laplace_biguint := replicate LAPLACE_GEOMETRY_ACCUMULATOR_LIMBS 0.

Definition big_is_zero (value : laplace_biguint) : bool := forallb (fun limb => limb =? 0) value.

(** From the most significant limb down. *)
Fixpoint compare_limbs (left right : list Z) : comparison :=
  match left, right with
  | l :: lefts, r :: rights =>
      if l <? r then Lt else if r <? l then Gt else compare_limbs lefts rights
  | _, _ => Eq
  end.

Definition big_compare (left right : laplace_biguint) : comparison :=
  compare_limbs (rev left) (rev right).

Fixpoint add_limbs (target addend : list Z) (carry : Z) : list Z * Z :=
  match target, addend with
  | t :: target, a :: addend =>
      let total := u64 (t + a + carry) in
      let '(rest, carry) := add_limbs target addend (Z.shiftr total 32) in
      (u32 total :: rest, carry)
  | _, _ => ([], carry)
  end.

(** The sum and whether it fits. *)
Definition big_add (target addend : laplace_biguint) : bool * laplace_biguint :=
  let '(result, carry) := add_limbs target addend 0 in (carry =? 0, result).

Fixpoint subtract_limbs (target subtrahend : list Z) (borrow : Z) : list Z :=
  match target, subtrahend with
  | t :: target, s :: subtrahend =>
      let subtrahend_value := u64 (s + borrow) in
      u32 (u64 (t - subtrahend_value)) ::
      subtract_limbs target subtrahend (if t <? subtrahend_value then 1 else 0)
  | _, _ => []
  end.

Definition big_subtract (target subtrahend : laplace_biguint) : laplace_biguint :=
  subtract_limbs target subtrahend 0.

(** [while ((limb & (1 << bit)) == 0) --bit;] on a limb that is not zero. *)
Fixpoint limb_high_bit (bit : nat) (limb : Z) : Z :=
  if Z.land limb (Z.shiftl 1 (Z.of_nat bit)) =? 0
  then match bit with O => -1 | S bit => limb_high_bit bit limb end
  else Z.of_nat bit.

Fixpoint high_bit_below (index : nat) (value : list Z) : Z :=
  match index with
  | O => -1
  | S index =>
      let limb := nth index value 0 in
      return_when limb =? 0 with high_bit_below index value ;;
      Z.of_nat index * 32 + limb_high_bit 31 limb
  end.

Definition big_high_bit (value : laplace_biguint) : Z := high_bit_below (length value) value.

Fixpoint shift_limbs_one (source : list Z) (carry : Z) : list Z * Z :=
  match source with
  | [] => ([], carry)
  | s :: source =>
      let '(rest, out) := shift_limbs_one source (Z.shiftr s 31) in
      (Z.lor (u32 (Z.shiftl s 1)) carry :: rest, out)
  end.

Definition big_shift_left_one (source : laplace_biguint) : bool * laplace_biguint :=
  let '(result, carry) := shift_limbs_one source 0 in (carry =? 0, result).

(** One step of the schoolbook product: the state is the array and the carry. *)
Definition multiply_step (left_limb : Z) (right_part : list Z) (left_index : nat)
    (state : list Z * Z) (right_index : nat) : list Z * Z :=
  let '(product, carry) := state in
  let index := (left_index + right_index)%nat in
  let total := u64 (left_limb * nth right_index right_part 0 + nth index product 0 + carry) in
  (<[index := u32 total]> product, Z.shiftr total 32).

(** [while (carry != 0)]: [None] when the carry leaves the five limbs. *)
Fixpoint carry_loop (fuel : nat) (product : list Z) (index : nat) (carry : Z)
    : option (list Z) :=
  match fuel with
  | O => None
  | S fuel =>
      return_when carry =? 0 with Some product ;;
      let total := u64 (nth index product 0 + carry) in
      let product := <[index := u32 total]> product in
      let carry := Z.shiftr total 32 in
      return_when (S index =? 5)%nat && negb (carry =? 0) with None ;;
      carry_loop fuel product (S index) carry
  end.

Definition multiply_row (left_limb : Z) (right_part : list Z) (left_index : nat)
    (product : list Z) : option (list Z) :=
  let '(product, carry) :=
    foldl (multiply_step left_limb right_part left_index) (product, 0) (seq 0 2) in
  carry_loop 6 product (left_index + 2) carry.

(** One step of the shift of the five product limbs into the result. *)
Definition shift_step (product : list Z) (word_shift bit_shift : Z)
    (state : option (laplace_biguint * Z)) (product_index : nat)
    : option (laplace_biguint * Z) :=
  match state with
  | None => None
  | Some (result, carry) =>
      let output_index := word_shift + Z.of_nat product_index in
      let shifted := Z.lor (u64 (Z.shiftl (nth product_index product 0) bit_shift)) carry in
      if Z.of_nat LAPLACE_GEOMETRY_ACCUMULATOR_LIMBS <=? output_index then
        if negb (shifted =? 0) then None else Some (result, Z.shiftr shifted 32)
      else Some (<[Z.to_nat output_index := u32 shifted]> result, Z.shiftr shifted 32)
  end.

Definition shift_product (product : list Z) (shift : Z) : option laplace_biguint :=
  let word_shift := shift / 32 in
  let bit_shift := shift mod 32 in
  match foldl (shift_step product word_shift bit_shift) (Some (big_zero, 0)) (seq 0 5) with
  | None => None
  | Some (result, carry) =>
      return_when carry =? 0 with Some result ;;
      let output_index := word_shift + 5 in
      return_when Z.of_nat LAPLACE_GEOMETRY_ACCUMULATOR_LIMBS <=? output_index with None ;;
      Some (<[Z.to_nat output_index := u32 carry]> result)
  end.

(** [left * right << shift]; [None] when the routine reports failure (what it
    has then written to the result is used by no caller). *)
Definition big_multiply_shift (left right shift : Z) : option laplace_biguint :=
  let right_part := [u32 right; u32 (Z.shiftr right 32)] in
  match multiply_row (u32 left) right_part 0 [0; 0; 0; 0; 0] with
  | None => None
  | Some product =>
      match multiply_row (u32 (Z.shiftr left 32)) right_part 1 product with
      | None => None
      | Some product => shift_product product shift
      end
  end.

(** ** The number an array stands for *)
Definition big_value (value : list Z) : Z := foldr (fun limb v => limb + limb_base * v) 0 value.

Definition limbs (n : nat) (l : list Z) : Prop :=
  length l = n /\ Forall (fun limb => 0 <= limb < limb_base) l.

Definition base_power (n : nat) : Z := limb_base ^ Z.of_nat n.

Lemma base_power_0 : base_power 0 = 1.
Proof. done. Qed.

Lemma base_power_S n : base_power (S n) = limb_base * base_power n.
Proof. unfold base_power. rewrite Nat2Z.inj_succ, Z.pow_succ_r by lia. done. Qed.

Lemma base_power_pos n : 0 < base_power n.
Proof. apply Z.pow_pos_nonneg; lia. Qed.

Lemma base_power_add n k : base_power (n + k) = base_power n * base_power k.
Proof. unfold base_power. rewrite Nat2Z.inj_add, Z.pow_add_r by lia. done. Qed.

Lemma base_power_two n : base_power n = 2 ^ (32 * Z.of_nat n).
Proof. unfold base_power. change limb_base with (2 ^ 32). rewrite <- Z.pow_mul_r by lia. done. Qed.

Lemma limbs_cons n a l : limbs (S n) (a :: l) <-> 0 <= a < limb_base /\ limbs n l.
Proof.
  unfold limbs. simpl. rewrite Forall_cons. intuition lia.
Qed.

Lemma big_value_bound n l : limbs n l -> 0 <= big_value l < base_power n.
Proof.
  revert n. induction l as [|a l IH]; intros n Hl.
  { destruct Hl as [<- _]. simpl. pose proof (base_power_pos 0). rewrite base_power_0. lia. }
  destruct n as [|n]; [by destruct Hl|]. apply limbs_cons in Hl as [Ha Hl].
  apply IH in Hl. rewrite base_power_S. simpl. lia.
Qed.

Lemma big_value_inj n l r :
  limbs n l -> limbs n r -> big_value l = big_value r -> l = r.
Proof.
  revert n r. induction l as [|a l IH]; intros n [|b r] [Hl1 Hl] [Hr1 Hr] H;
    simpl in *; try lia; [done|].
  apply Forall_cons in Hl as [Ha Hl], Hr as [Hb Hr].
  assert (big_value l = big_value r /\ a = b) as [E ->] by lia.
  f_equal. by apply (IH (length l)); [split| split; [lia|] |].
Qed.

Lemma big_value_zero n l : limbs n l -> big_is_zero l = true <-> big_value l = 0.
Proof.
  revert n. induction l as [|a l IH]; intros n Hl; [done|].
  destruct n as [|n]; [by destruct Hl|]. apply limbs_cons in Hl as [Ha Hl].
  pose proof (big_value_bound n l Hl). unfold big_is_zero in *. simpl.
  rewrite andb_true_iff, (IH n Hl), Z.eqb_eq. lia.
Qed.

Lemma big_value_replicate n : big_value (replicate n 0) = 0.
Proof. induction n as [|n IH]; simpl; [done|]. by rewrite IH. Qed.

Lemma limbs_zero : limbs 36 big_zero.
Proof. split; [done|]. by apply Forall_replicate. Qed.

Lemma big_value_app l r : big_value (l ++ r) = big_value l + base_power (length l) * big_value r.
Proof.
  induction l as [|a l IH]; simpl; [rewrite base_power_0; lia|].
  rewrite IH, base_power_S. lia.
Qed.

Lemma limbs_app n k l r : limbs n l -> limbs k r -> limbs (n + k) (l ++ r).
Proof. intros [<- Hl] [<- Hr]. split; [apply length_app | by apply Forall_app]. Qed.

Lemma limb_nth n l i : limbs n l -> 0 <= nth i l 0 < limb_base.
Proof.
  intros [_ Hl]. revert i. induction Hl as [|a l Ha Hl IH]; intros [|i]; simpl; done || lia.
Qed.

Lemma big_value_insert n l i v :
  limbs n l -> (i < n)%nat -> 0 <= v < limb_base ->
  limbs n (<[i := v]> l) /\
  big_value (<[i := v]> l) = big_value l + (v - nth i l 0) * base_power i.
Proof.
  revert n i. induction l as [|a l IH]; intros n i Hl Hi Hv; [by destruct Hl; simpl in *; lia|].
  destruct n as [|n]; [by destruct Hl|]. apply limbs_cons in Hl as [Ha Hl].
  destruct i as [|i]; simpl.
  - rewrite limbs_cons, base_power_0. split; [done|]. lia.
  - destruct (IH n i Hl ltac:(lia) Hv) as [Hlen Hval].
    rewrite limbs_cons, Hval, base_power_S. split; [done|]. lia.
Qed.

(** ** Comparison, addition, subtraction *)
Lemma big_compare_value l : forall n r,
  limbs n l -> limbs n r -> big_compare l r = (big_value l ?= big_value r).
Proof.
  unfold big_compare. induction l as [|a l IH] using rev_ind; intros n r [Hll Hl] [Hlr Hr].
  { destruct r; [done|]. simpl in *. lia. }
  destruct r as [|b r _] using rev_ind; [rewrite length_app in Hll; simpl in *; lia|].
  rewrite !length_app in *. simpl in Hll, Hlr.
  apply Forall_app in Hl as [Hl Ha%Forall_singleton], Hr as [Hr Hb%Forall_singleton].
  rewrite !rev_app_distr, !big_value_app. simpl.
  assert (length l = length r) as Hlen by lia. rewrite <- Hlen.
  assert (Hvl : limbs (length l) l) by done.
  assert (Hvr : limbs (length l) r) by done.
  pose proof (big_value_bound _ _ Hvl). pose proof (big_value_bound _ _ Hvr).
  pose proof (base_power_pos (length l)).
  destruct (Z.ltb_spec a b); [symmetry; apply Z.compare_lt_iff; nia|].
  destruct (Z.ltb_spec b a); [symmetry; apply Z.compare_gt_iff; nia|].
  assert (a = b) as -> by lia. rewrite (IH (length l)) by done.
  destruct (Z.compare_spec (big_value l) (big_value r)); symmetry;
    [apply Z.compare_eq_iff | apply Z.compare_lt_iff | apply Z.compare_gt_iff]; lia.
Qed.

Lemma low_high v : v = u32 v + limb_base * Z.shiftr v 32.
Proof.
  unfold u32. rewrite Z.shiftr_div_pow2 by lia. change (2 ^ 32) with limb_base.
  pose proof (Z.div_mod v limb_base). lia.
Qed.

Lemma u32_limb v : 0 <= u32 v < limb_base.
Proof. pose proof (u32_range v). lia. Qed.

Lemma high_range v k : 0 <= v < k * limb_base -> 0 <= Z.shiftr v 32 < k.
Proof.
  intros Hv. rewrite Z.shiftr_div_pow2 by lia. change (2 ^ 32) with limb_base.
  pose proof (Z.div_pos v limb_base). pose proof (Z.div_lt_upper_bound v limb_base k). lia.
Qed.

Lemma add_limbs_value t : forall n a carry,
  limbs n t -> limbs n a -> 0 <= carry <= 1 ->
  let '(r, out) := add_limbs t a carry in
  limbs n r /\ 0 <= out <= 1 /\
  big_value r + base_power n * out = big_value t + big_value a + carry.
Proof.
  induction t as [|x t IH]; intros n [|y a] carry [Hlt Ht] [Hla Ha] Hc; simpl in *; try lia.
  { subst n. rewrite base_power_0. split; [done|]. lia. }
  destruct n as [|n]; [lia|]. apply Forall_cons in Ht as [Hx Ht], Ha as [Hy Ha].
  assert (Hu : u64 (x + y + carry) = x + y + carry) by (apply u64_small; lia).
  rewrite Hu. pose proof (low_high (x + y + carry)). pose proof (high_range (x + y + carry) 2).
  specialize (IH n a (Z.shiftr (x + y + carry) 32)).
  destruct (add_limbs t a _) as [r out].
  destruct IH as (Hr & Ho & Hv); [by split; [lia|]|by split; [lia|]|lia|].
  split; [apply limbs_cons; split; [apply u32_limb|done]|]. split; [done|].
  simpl. rewrite base_power_S. lia.
Qed.

Lemma big_add_value n t a :
  limbs n t -> limbs n a ->
  let '(ok, r) := big_add t a in
  limbs n r /\ (ok = true <-> big_value t + big_value a < base_power n) /\
  (ok = true -> big_value r = big_value t + big_value a).
Proof.
  intros Ht Ha. unfold big_add. pose proof (add_limbs_value t n a 0 Ht Ha ltac:(lia)) as H.
  destruct (add_limbs t a 0) as [r out]. destruct H as (Hr & Ho & Hv).
  pose proof (big_value_bound n r Hr). rewrite Z.eqb_eq. split; [done|].
  assert (out = 0 \/ out = 1) as [->| ->] by lia; lia.
Qed.

Lemma subtract_limbs_value t : forall n s borrow,
  limbs n t -> limbs n s -> 0 <= borrow <= 1 ->
  limbs n (subtract_limbs t s borrow) /\
  exists out, 0 <= out <= 1 /\
  big_value (subtract_limbs t s borrow) =
    big_value t - big_value s - borrow + base_power n * out.
Proof.
  induction t as [|x t IH]; intros n [|y s] borrow [Hlt Ht] [Hls Hs] Hb; simpl in *; try lia.
  { subst n. rewrite base_power_0. split; [by split|]. exists borrow. lia. }
  destruct n as [|n]; [lia|]. apply Forall_cons in Ht as [Hx Ht], Hs as [Hy Hs].
  assert (Hu : u64 (y + borrow) = y + borrow) by (apply u64_small; lia). rewrite Hu.
  set (out1 := if x <? y + borrow then 1 else 0).
  assert (Hlimb : u32 (u64 (x - (y + borrow))) = x - (y + borrow) + limb_base * out1).
  { unfold u32, u64. subst out1. rewrite Z.mod_mod_divide by by exists limb_base.
    destruct (Z.ltb_spec x (y + borrow)).
    - rewrite <- (Z.mod_add _ 1) by lia. rewrite Z.mod_small; lia.
    - rewrite Z.mod_small; lia. }
  assert (Ho1 : 0 <= out1 <= 1) by (subst out1; destruct (x <? y + borrow); lia).
  destruct (IH n s out1) as (Hr & out & Hout & Hv); [by split; [lia|]..|done|].
  split; [apply limbs_cons; split; [apply u32_limb|done]|].
  exists out. split; [done|]. rewrite Hlimb, Hv, base_power_S. lia.
Qed.

Lemma big_subtract_value n t s :
  limbs n t -> limbs n s -> big_value s <= big_value t ->
  limbs n (big_subtract t s) /\ big_value (big_subtract t s) = big_value t - big_value s.
Proof.
  intros Ht Hs Hle. destruct (subtract_limbs_value t n s 0 Ht Hs) as (Hr & out & Ho & Hv); [lia|].
  unfold big_subtract. split; [done|].
  pose proof (big_value_bound _ _ Hr). pose proof (big_value_bound _ _ Ht).
  pose proof (big_value_bound _ _ Hs). assert (out = 0 \/ out = 1) as [->| ->] by lia; lia.
Qed.

(** ** The top bit and doubling *)
Lemma land_bit v k : 0 <= k ->
  (Z.land v (Z.shiftl 1 k) =? 0) = negb (Z.testbit v k).
Proof.
  intros Hk. rewrite Z.shiftl_1_l. destruct (Z.testbit v k) eqn:E; simpl.
  - apply Z.eqb_neq. intros H. apply (f_equal (fun w => Z.testbit w k)) in H.
    by rewrite Z.land_spec, E, Z.pow2_bits_true, Z.bits_0 in H by lia.
  - apply Z.eqb_eq, Z.bits_inj'. intros i Hi. rewrite Z.land_spec, Z.bits_0.
    destruct (Z.eq_dec k i) as [<-|Hne]; [by rewrite E|].
    rewrite Z.pow2_bits_false by done. apply andb_false_r.
Qed.

Lemma limb_high_bit_log2 bit v :
  0 < v < 2 ^ (Z.of_nat bit + 1) -> limb_high_bit bit v = Z.log2 v.
Proof.
  intros [Hpos Hlt]. induction bit as [|bit IH]; cbn [limb_high_bit]; rewrite land_bit by lia.
  { change (2 ^ (Z.of_nat 0 + 1)) with 2 in Hlt. assert (v = 1) as -> by lia. done. }
  destruct (Z.testbit v (Z.of_nat (S bit))) eqn:E; simpl negb; cbv iota.
  - symmetry. apply Z.log2_unique; [lia|]. split; [|by rewrite Z.add_1_r in Hlt].
    destruct (Z.lt_ge_cases v (2 ^ Z.of_nat (S bit))) as [Hl|]; [|lia].
    rewrite Z.bits_above_log2 in E; [done|lia|]. apply Z.log2_lt_pow2; lia.
  - apply IH. rewrite Nat2Z.inj_succ in *.
    destruct (Z.lt_ge_cases v (2 ^ (Z.of_nat bit + 1))) as [|Hge]; [done|].
    replace (Z.succ (Z.of_nat bit)) with (Z.of_nat bit + 1) in * by lia.
    assert (Hlog : Z.log2 v = Z.of_nat bit + 1)
      by (apply Z.log2_unique; [lia|]; by rewrite <- Z.add_1_r).
    rewrite <- Hlog, Z.bit_log2 in E by lia. done.
Qed.

Lemma limb_lookup (l : list Z) i : (i < length l)%nat -> l !! i = Some (nth i l 0).
Proof. intros Hi. destruct (lookup_lt_is_Some_2 l i Hi) as [v Hv]. by rewrite nth_lookup, Hv. Qed.

Lemma high_bit_below_log2 n l : forall k,
  limbs n l -> (k <= n)%nat -> 0 < big_value (take k l) ->
  high_bit_below k l = Z.log2 (big_value (take k l)).
Proof.
  intros k Hl. induction k as [|k IH]; intros Hk Hpos; [simpl in Hpos; lia|]. cbn [high_bit_below].
  assert (Ht : limbs k (take k l)).
  { destruct Hl as [Hlen Hf]. split; [rewrite length_take; lia | by apply Forall_take]. }
  assert (E : big_value (take (S k) l) = big_value (take k l) + base_power k * nth k l 0).
  { rewrite (take_S_r l k (nth k l 0)).
    - rewrite big_value_app. destruct Ht as [-> _]. simpl. lia.
    - destruct Hl as [Hlen _]. apply limb_lookup. lia. }
  rewrite E in *. pose proof (limb_nth n l k Hl) as Hlimb.
  destruct (Z.eqb_spec (nth k l 0) 0) as [Hz|Hnz].
  { rewrite Hz, Z.mul_0_r, Z.add_0_r in *. apply IH; [lia|done]. }
  rewrite limb_high_bit_log2 by (change (2 ^ (Z.of_nat 31 + 1)) with limb_base; lia).
  symmetry. apply Z.log2_unique; [pose proof (Z.log2_nonneg (nth k l 0)); lia|].
  pose proof (big_value_bound _ _ Ht) as Hb. rewrite base_power_two in *.
  pose proof (Z.log2_nonneg (nth k l 0)).
  destruct (Z.log2_spec (nth k l 0)) as [Hlo Hhi]; [lia|].
  replace (Z.of_nat k * 32) with (32 * Z.of_nat k) by lia.
  rewrite <- Z.add_succ_r, !Z.pow_add_r by lia.
  pose proof (Z.pow_pos_nonneg 2 (32 * Z.of_nat k)). nia.
Qed.

Lemma big_high_bit_value n l :
  limbs n l -> 0 < big_value l -> big_high_bit l = Z.log2 (big_value l).
Proof.
  intros Hl Hpos. pose proof Hl as [Hlen _]. unfold big_high_bit. rewrite Hlen.
  rewrite (high_bit_below_log2 n l n Hl), take_ge by (rewrite ?take_ge; done || lia).
  done.
Qed.

Lemma double_limb v c : 0 <= v < limb_base -> 0 <= c <= 1 ->
  Z.lor (u32 (Z.shiftl v 1)) c = 2 * v - limb_base * Z.shiftr v 31 + c.
Proof.
  intros Hv Hc. rewrite Z.shiftr_div_pow2, Z.shiftl_mul_pow2 by lia.
  change (2 ^ 31) with 2147483648. change (2 ^ 1) with 2.
  assert (E : u32 (v * 2) = 2 * (v mod 2147483648)).
  { unfold u32. rewrite (Z.mul_comm v). apply (Z.mul_mod_distr_l v 2147483648 2); lia. }
  rewrite E, Z.lor_comm.
  pose proof (lor_shiftl_add c 1 (v mod 2147483648)) as Hl.
  rewrite Z.shiftl_mul_pow2 in Hl by lia. change (2 ^ 1) with 2 in Hl.
  pose proof (Z.mod_pos_bound v 2147483648). pose proof (Z.div_mod v 2147483648).
  rewrite (Z.mul_comm 2). rewrite Hl by lia. lia.
Qed.

Lemma shift_limbs_one_value s : forall n carry,
  limbs n s -> 0 <= carry <= 1 ->
  let '(r, out) := shift_limbs_one s carry in
  limbs n r /\ 0 <= out <= 1 /\ big_value r + base_power n * out = 2 * big_value s + carry.
Proof.
  induction s as [|x s IH]; intros n carry [Hlen Hs] Hc; simpl in *.
  { subst n. rewrite base_power_0. split; [done|]. lia. }
  destruct n as [|n]; [lia|]. apply Forall_cons in Hs as [Hx Hs].
  assert (Hsh : 0 <= Z.shiftr x 31 <= 1 /\ 0 <= x - 2147483648 * Z.shiftr x 31 < 2147483648).
  { rewrite Z.shiftr_div_pow2 by lia. change (2 ^ 31) with 2147483648.
    pose proof (Z.mod_pos_bound x 2147483648). pose proof (Z.div_mod x 2147483648). lia. }
  specialize (IH n (Z.shiftr x 31)). destruct (shift_limbs_one s _) as [r out].
  destruct IH as (Hr & Ho & Hv); [by split; [lia|]|lia|].
  rewrite double_limb by lia.
  split; [apply limbs_cons; split; [lia|done]|]. split; [done|].
  simpl. rewrite base_power_S. lia.
Qed.

Lemma big_shift_left_one_value n s :
  limbs n s -> 2 * big_value s < base_power n ->
  exists r, big_shift_left_one s = (true, r) /\ limbs n r /\ big_value r = 2 * big_value s.
Proof.
  intros Hs Hlt. unfold big_shift_left_one.
  pose proof (shift_limbs_one_value s n 0 Hs ltac:(lia)) as H.
  destruct (shift_limbs_one s 0) as [r out]. destruct H as (Hr & Ho & Hv).
  pose proof (big_value_bound n r Hr). assert (out = 0) as -> by nia.
  exists r. split; [done|]. split; [done|]. lia.
Qed.

(** ** The product of two words *)
Lemma multiply_step_value l rp li p carry ri :
  limbs 5 p -> 0 <= l < limb_base -> Forall (fun r => 0 <= r < limb_base) rp ->
  0 <= carry < limb_base -> (li + ri < 5)%nat ->
  let '(p', carry') := multiply_step l rp li (p, carry) ri in
  limbs 5 p' /\ 0 <= carry' < limb_base /\
  big_value p' + carry' * base_power (S (li + ri)) =
    big_value p + (l * nth ri rp 0 + carry) * base_power (li + ri).
Proof.
  intros Hp Hl Hrp Hc Hi. unfold multiply_step. set (i := (li + ri)%nat) in *.
  pose proof (limb_nth 5 p i Hp) as Hpi.
  assert (Hr : 0 <= nth ri rp 0 < limb_base) by by apply (limb_nth (length rp)).
  set (r := nth ri rp 0) in *. set (v := nth i p 0) in *.
  assert (Hmul : l * r <= (limb_base - 1) * (limb_base - 1)) by (apply Z.mul_le_mono_nonneg; lia).
  assert (0 <= l * r) by lia.
  rewrite u64_small by lia. set (total := l * r + v + carry).
  destruct (big_value_insert 5 p i (u32 total) Hp Hi (u32_limb total)) as [Hlen Hval].
  split; [done|]. split; [apply high_range; subst total; lia|].
  rewrite Hval, base_power_S. fold v. pose proof (low_high total). subst total. nia.
Qed.

Lemma carry_loop_value fuel : forall p i carry,
  limbs 5 p -> 0 <= carry < limb_base -> (i <= 5)%nat -> (5 - i < fuel)%nat ->
  big_value p + carry * base_power i < base_power 5 ->
  exists p', carry_loop fuel p i carry = Some p' /\ limbs 5 p' /\
    big_value p' = big_value p + carry * base_power i.
Proof.
  induction fuel as [|fuel IH]; intros p i carry Hp Hc Hi Hfuel Hlt; [lia|].
  cbn [carry_loop]. destruct (Z.eqb_spec carry 0) as [->|Hnz].
  { exists p. split; [done|]. split; [done|]. lia. }
  pose proof (big_value_bound 5 p Hp). pose proof (base_power_pos i).
  assert (Hi' : (i < 5)%nat).
  { destruct (decide (i = 5%nat)) as [->|]; [nia|lia]. }
  pose proof (limb_nth 5 p i Hp) as Hpi. rewrite u64_small by lia.
  set (total := nth i p 0 + carry). assert (Htotal : total = nth i p 0 + carry) by done.
  destruct (big_value_insert 5 p i (u32 total) Hp Hi' (u32_limb total)) as [Hlen Hval].
  assert (Hval' : big_value (<[i:=u32 total]> p) + Z.shiftr total 32 * base_power (S i) =
                  big_value p + carry * base_power i).
  { rewrite Hval, base_power_S. pose proof (low_high total). nia. }
  assert (Hc' : 0 <= Z.shiftr total 32 < limb_base).
  { pose proof (high_range total 2). lia. }
  pose proof (big_value_bound 5 _ Hlen).
  destruct (Nat.eqb_spec (S i) 5) as [E|E]; cbn [andb].
  - assert (Hz : Z.shiftr total 32 = 0) by (rewrite E in Hval'; pose proof (base_power_pos 5); nia).
    rewrite Hz. cbn [Z.eqb negb].
    destruct (IH (<[i:=u32 total]> p) (S i) 0) as (p' & Hp' & Hl' & Hv'); [done|lia..|].
    exists p'. split; [done|]. split; [done|]. rewrite Hz in Hval'. lia.
  - destruct (IH (<[i:=u32 total]> p) (S i) (Z.shiftr total 32)) as (p' & Hp' & Hl' & Hv');
      [done|done|lia..|]. exists p'. split; [done|]. split; [done|]. lia.
Qed.

Lemma multiply_row_value l r0 r1 li p :
  limbs 5 p -> 0 <= l < limb_base -> 0 <= r0 < limb_base -> 0 <= r1 < limb_base ->
  (li <= 2)%nat -> big_value p + l * (r0 + limb_base * r1) * base_power li < base_power 5 ->
  exists p', multiply_row l [r0; r1] li p = Some p' /\ limbs 5 p' /\
    big_value p' = big_value p + l * (r0 + limb_base * r1) * base_power li.
Proof.
  intros Hp Hl Hr0 Hr1 Hli Hlt. unfold multiply_row. cbn [seq foldl].
  assert (Hrp : Forall (fun r => 0 <= r < limb_base) [r0; r1])
    by (apply Forall_cons; split; [done|]; by apply Forall_singleton).
  pose proof (multiply_step_value l [r0; r1] li p 0 0 Hp Hl Hrp ltac:(lia) ltac:(lia)) as H1.
  destruct (multiply_step l [r0; r1] li (p, 0) 0) as [p1 c1]. destruct H1 as (Hp1 & Hc1 & H1).
  pose proof (multiply_step_value l [r0; r1] li p1 c1 1 Hp1 Hl Hrp Hc1 ltac:(lia)) as H2.
  destruct (multiply_step l [r0; r1] li (p1, c1) 1) as [p2 c2]. destruct H2 as (Hp2 & Hc2 & H2).
  cbn [nth] in H1, H2. rewrite Nat.add_0_r in H1.
  rewrite (Nat.add_1_r li) in H2. replace (li + 2)%nat with (S (S li)) by lia.
  assert (Hsum : big_value p2 + c2 * base_power (S (S li)) =
                 big_value p + l * (r0 + limb_base * r1) * base_power li).
  { rewrite (base_power_S li) in *. nia. }
  destruct (carry_loop_value 6 p2 (S (S li)) c2) as (p' & Hp' & Hlen & Hv);
    [done|done|lia|lia|lia|]. exists p'. split; [done|]. split; [done|]. lia.
Qed.

(** ** The shift of a product into the result *)
Lemma nth_insert_other (l : list Z) i j v : i <> j -> nth j (<[i := v]> l) 0 = nth j l 0.
Proof. intros Hij. by rewrite !nth_lookup, list_lookup_insert_ne. Qed.

Lemma nth_replicate_zero n j : nth j (replicate n 0) 0 = 0.
Proof. revert j. induction n as [|n IH]; intros [|j]; simpl; done. Qed.

(** What the shift has done after [k] product limbs. *)
Definition shift_state (product : list Z) (shift : Z) (k : nat)
    (state : option (laplace_biguint * Z)) : Prop :=
  match state with
  | None => base_power 36 <= big_value (take k product) * 2 ^ shift
  | Some (r, c) =>
      limbs 36 r /\ 0 <= c < 2 ^ (shift mod 32) /\
      (forall j, (Z.to_nat (shift / 32) + k <= j)%nat -> nth j r 0 = 0) /\
      big_value r + c * base_power (Z.to_nat (shift / 32) + k) =
        big_value (take k product) * 2 ^ shift
  end.

Lemma take_limb (p : list Z) k : (k < length p)%nat ->
  big_value (take (S k) p) = big_value (take k p) + base_power k * nth k p 0.
Proof.
  intros Hk. rewrite (take_S_r p k (nth k p 0)) by by apply limb_lookup.
  rewrite big_value_app, length_take, Nat.min_l by lia. simpl. lia.
Qed.

Lemma shift_split shift : 0 <= shift ->
  2 ^ shift = base_power (Z.to_nat (shift / 32)) * 2 ^ (shift mod 32).
Proof.
  intros Hs. rewrite base_power_two, Z2Nat.id by (apply Z.div_pos; lia).
  pose proof (Z.mod_pos_bound shift 32). pose proof (Z.div_pos shift 32).
  rewrite <- Z.pow_add_r by lia. f_equal. pose proof (Z.div_mod shift 32). lia.
Qed.

Lemma shift_step_value product shift k state :
  limbs 5 product -> 0 <= shift -> (k < 5)%nat -> shift_state product shift k state ->
  shift_state product shift (S k) (shift_step product (shift / 32) (shift mod 32) state k).
Proof.
  intros Hp Hs Hk. pose proof Hp as [Hlen _].
  pose proof (limb_nth 5 product k Hp) as Hpk. pose proof (take_limb product k ltac:(lia)) as Ht.
  pose proof (Z.mod_pos_bound shift 32 ltac:(lia)) as Hbs.
  pose proof (Z.pow_pos_nonneg 2 (shift mod 32) ltac:(lia) ltac:(lia)) as Hb0.
  assert (Hb1 : 2 ^ (shift mod 32) <= 2 ^ 31) by (apply Z.pow_le_mono_r; lia).
  change (2 ^ 31) with 2147483648 in Hb1.
  pose proof (shift_split shift Hs) as Hsplit. set (w := Z.to_nat (shift / 32)) in *.
  assert (Hw : shift / 32 = Z.of_nat w) by (subst w; pose proof (Z.div_pos shift 32); lia).
  pose proof (base_power_pos k). pose proof (base_power_pos w).
  set (bs := 2 ^ (shift mod 32)) in *. set (pk := nth k product 0) in *.
  assert (Hscale : base_power k * pk * 2 ^ shift = pk * bs * base_power (w + k))
    by (rewrite Hsplit, base_power_add; lia).
  destruct state as [[r c]|]; cbn [shift_step shift_state]; fold w bs.
  2:{ intros Hnone. rewrite Ht. nia. }
  intros (Hr & Hc & Hzero & Hv). fold pk.
  assert (Hshifted : Z.lor (u64 (Z.shiftl pk (shift mod 32))) c = pk * bs + c).
  { rewrite Z.shiftl_mul_pow2 by lia. fold bs. rewrite u64_small by nia.
    rewrite Z.lor_comm. pose proof (lor_shiftl_add c (shift mod 32) pk) as H1.
    rewrite Z.shiftl_mul_pow2 in H1 by lia. fold bs in H1. rewrite H1 by lia. lia. }
  rewrite Hshifted. set (shifted := pk * bs + c) in *.
  assert (Hsr : 0 <= shifted < bs * limb_base) by (subst shifted; nia).
  assert (Hnext : big_value r + shifted * base_power (w + k) =
                  big_value (take (S k) product) * 2 ^ shift) by (rewrite Ht; nia).
  pose proof (low_high shifted) as Hlh. pose proof (high_range shifted bs Hsr) as Hhr.
  destruct (Z.leb_spec (Z.of_nat 36) (shift / 32 + Z.of_nat k)) as [Hout|Hin].
  - destruct (Z.eqb_spec shifted 0) as [Hz|Hnz]; cbn [negb].
    + rewrite Hz in *. change (Z.shiftr 0 32) with 0. split; [done|]. split; [lia|].
      split; [intros j Hj; apply Hzero; lia|]. lia.
    + cbn [shift_state]. pose proof (big_value_bound _ _ Hr).
      assert (base_power 36 <= base_power (w + k)).
      { unfold base_power. apply Z.pow_le_mono_r; lia. }
      nia.
  - replace (Z.to_nat (shift / 32 + Z.of_nat k)) with (w + k)%nat by lia.
    destruct (big_value_insert 36 r (w + k) (u32 shifted) Hr ltac:(lia) (u32_limb shifted))
      as [Hlr Hvr]. rewrite (Hzero (w + k)%nat ltac:(lia)) in Hvr.
    cbn [shift_state]. fold w bs. split; [done|]. split; [done|]. split.
    + intros j Hj. rewrite nth_insert_other by lia. apply Hzero. lia.
    + unfold laplace_biguint in *. rewrite Hvr, Nat.add_succ_r, base_power_S. nia.
Qed.

Lemma shift_product_value product shift :
  limbs 5 product -> 0 <= shift ->
  match shift_product product shift with
  | Some v => limbs 36 v /\ big_value v = big_value product * 2 ^ shift
  | None => base_power 36 <= big_value product * 2 ^ shift
  end.
Proof.
  intros Hp Hs. pose proof Hp as [Hlen _].
  assert (Hfold : forall k, (k <= 5)%nat -> shift_state product shift k
    (foldl (shift_step product (shift / 32) (shift mod 32)) (Some (big_zero, 0)) (seq 0 k))).
  { induction k as [|k IH]; intros Hk.
    - cbn [seq foldl shift_state]. split; [apply limbs_zero|].
      split; [pose proof (Z.pow_pos_nonneg 2 (shift mod 32)); pose proof (Z.mod_pos_bound shift 32); lia|].
      split; [|done].
      intros j _. apply nth_replicate_zero.
    - rewrite seq_S, foldl_app. cbn [foldl]. apply shift_step_value; [done..|lia|].
      apply IH. lia. }
  specialize (Hfold 5%nat ltac:(lia)). unfold shift_product.
  destruct (foldl _ _ _) as [[r c]|]; cbn [shift_state] in Hfold;
    rewrite take_ge in Hfold by lia; [|done].
  destruct Hfold as (Hr & Hc & Hzero & Hv). destruct (Z.eqb_spec c 0) as [->|Hnz].
  { split; [done|]. lia. }
  pose proof (Z.div_pos shift 32). pose proof (Z.mod_pos_bound shift 32).
  assert (Hc32 : 2 ^ (shift mod 32) <= 2 ^ 31) by (apply Z.pow_le_mono_r; lia).
  change (2 ^ 31) with 2147483648 in Hc32. pose proof (big_value_bound _ _ Hr).
  destruct (Z.leb_spec (Z.of_nat 36) (shift / 32 + 5)) as [Hout|Hin].
  - assert (base_power 36 <= base_power (Z.to_nat (shift / 32) + 5)).
    { unfold base_power. apply Z.pow_le_mono_r; lia. }
    nia.
  - replace (Z.to_nat (shift / 32 + 5)) with (Z.to_nat (shift / 32) + 5)%nat by lia.
    destruct (big_value_insert 36 r (Z.to_nat (shift / 32) + 5) (u32 c) Hr ltac:(lia) (u32_limb c))
      as [Hlr Hvr]. split; [done|]. unfold laplace_biguint in *. rewrite Hvr, Hzero, u32_small by lia. lia.
Qed.

(** The shifted product is exact whenever it fits. *)
Lemma big_multiply_shift_value left right shift :
  is_u64 left -> is_u64 right -> 0 <= shift ->
  match big_multiply_shift left right shift with
  | Some v => limbs 36 v /\ big_value v = left * right * 2 ^ shift
  | None => base_power 36 <= left * right * 2 ^ shift
  end.
Proof.
  intros Hl Hr Hs. unfold big_multiply_shift.
  pose proof (low_high left) as El. pose proof (low_high right) as Er.
  pose proof (u32_limb left). pose proof (u32_limb right).
  assert (Hhl : 0 <= Z.shiftr left 32 < limb_base) by (apply high_range; lia).
  assert (Hhr : 0 <= Z.shiftr right 32 < limb_base) by (apply high_range; lia).
  rewrite (u32_small (Z.shiftr left 32)), (u32_small (Z.shiftr right 32)) by lia.
  set (l0 := u32 left) in *. set (l1 := Z.shiftr left 32) in *.
  set (r0 := u32 right) in *. set (r1 := Z.shiftr right 32) in *.
  assert (Hz : limbs 5 [0; 0; 0; 0; 0]) by (split; [done|]; by apply (Forall_replicate _ 5)).
  assert (Hb5 : base_power 5 = limb_base * limb_base * limb_base * limb_base * limb_base) by done.
  destruct (multiply_row_value l0 r0 r1 0 [0; 0; 0; 0; 0]) as (p1 & -> & Hp1 & Hv1);
    [done|done|done|done|lia|rewrite <- Er, base_power_0, Hb5; simpl; nia|].
  change (big_value [0; 0; 0; 0; 0]) with 0 in Hv1. rewrite base_power_0, <- Er in Hv1.
  assert (E1 : base_power 1 = limb_base) by done.
  destruct (multiply_row_value l1 r0 r1 1 p1) as (p2 & -> & Hp2 & Hv2);
    [done|done|done|done|lia|rewrite <- Er, Hv1, E1, Hb5; nia|].
  rewrite Hv1, E1, <- Er in Hv2. assert (Hv : big_value p2 = left * right) by nia.
  pose proof (shift_product_value p2 shift Hp2 Hs) as H'. by rewrite Hv in H'.
Qed.
