(* ===== verification/Geometry.v ===== *)
(** * Geometry: exact centroids of weighted points

    Models [engine/src/geometry.c] and [engine/include/laplace/geometry.h]: the
    accumulator that sums binary64 coordinates exactly in 1152-bit integers,
    its merge, and the correctly rounded mean.  A [double] is its 64-bit
    pattern, as the code reads it with [memcpy]; the products, sums and square
    root of the radius are IEEE binary64 operations in round-to-nearest-even
    (the build forbids contraction), taken from [SpecFloat].  The search of
    [big_quotient_bounded] runs with fuel 65: it halves an interval of at most
    2^53 quotients. *)
From stdpp Require Import prelude.
From Stdlib Require Import ZArith Lia Zeven SpecFloat.
From S2P Require Import Prelude Bytes Sorting Binary64 BigUint.

Abbreviation LAPLACE_GEOMETRY_COMPONENTS := 4%nat (only parsing).

(** ** Data *)
Record laplace_point4d := mk_point { component : list double }.

Record laplace_exact_component := mk_component {
  magnitude : laplace_biguint;
  sign : Z }.

Record laplace_geometry_accumulator := mk_accumulator {
  sum : list laplace_exact_component;
  logical_count : Z }.

Record laplace_geometry_summary := mk_summary {
  centroid : laplace_point4d;
  radius : double;
  summary_logical_count : Z }.

Inductive laplace_geometry_status :=
| LAPLACE_GEOMETRY_OK
| LAPLACE_GEOMETRY_INVALID_ARGUMENT
| LAPLACE_GEOMETRY_EMPTY
| LAPLACE_GEOMETRY_ZERO_MULTIPLICITY
| LAPLACE_GEOMETRY_COUNT_OVERFLOW
| LAPLACE_GEOMETRY_COORDINATE_OUT_OF_RANGE
| LAPLACE_GEOMETRY_ACCUMULATOR_OVERFLOW.

#[export] Instance geometry_status_eq_dec : EqDecision laplace_geometry_status.
Proof. solve_decision. Defined.

(** ** Exact components *)
Definition exact_component_valid (c : laplace_exact_component) : bool :=
  return_when (sign c <? -1) || (1 <? sign c) with false ;;
  return_when sign c =? 0 with big_is_zero (magnitude c) ;;
  negb (big_is_zero (magnitude c)).

Definition exact_component_add (target : laplace_exact_component) (m : laplace_biguint)
    (s : Z) : bool * laplace_exact_component :=
  return_when big_is_zero m with (true, target) ;;
  let comparison := big_compare (magnitude target) m in
  return_when sign target =? 0 with (true, mk_component m s) ;;
  return_when sign target =? s
    with (let '(ok, total) := big_add (magnitude target) m in
          if ok then (true, mk_component total (sign target)) else (false, target)) ;;
  match comparison with
  | Eq => (true, mk_component big_zero 0)
  | Gt => (true, mk_component (big_subtract (magnitude target) m) (sign target))
  | Lt => (true, mk_component (big_subtract m (magnitude target)) s)
  end.

(** The exact product of a coordinate and its multiplicity, in units of the
    least subnormal, or the status of the failure. *)
Definition point_term (value : double) (multiplicity : Z)
    : laplace_geometry_status + laplace_biguint * Z :=
  let bits := value in
  let fraction := Z.land bits 0x000fffffffffffff in
  let exponent := u32 (Z.land (Z.shiftr bits 52) 0x7ff) in
  let s := if Z.shiftr bits 63 =? 0 then 1 else -1 in
  return_when exponent =? 0x7ff with inl LAPLACE_GEOMETRY_COORDINATE_OUT_OF_RANGE ;;
  return_when (1023 <? exponent) || ((exponent =? 1023) && negb (fraction =? 0))
    with inl LAPLACE_GEOMETRY_COORDINATE_OUT_OF_RANGE ;;
  let '(significand, shift) :=
    if exponent =? 0 then (fraction, 0)
    else (Z.lor 0x0010000000000000 fraction, u32 (exponent - 1)) in
  return_when significand =? 0 with inr (big_zero, 0) ;;
  match big_multiply_shift significand multiplicity shift with
  | None => inl LAPLACE_GEOMETRY_ACCUMULATOR_OVERFLOW
  | Some m => inr (m, s)
  end.

(** ** Division *)
Fixpoint quotient_search (fuel : nat) (numerator : laplace_biguint) (divisor shift low high : Z)
    : Z :=
  match fuel with
  | O => low
  | S fuel =>
      if low <? high then
        let midpoint := low + (high - low) / 2 + 1 in
        let at_most :=
          match big_multiply_shift divisor midpoint shift with
          | Some product => match big_compare product numerator with Gt => false | _ => true end
          | None => false
          end in
        if at_most then quotient_search fuel numerator divisor shift midpoint high
        else quotient_search fuel numerator divisor shift low (midpoint - 1)
      else low
  end.

Definition big_quotient_bounded (numerator : laplace_biguint) (divisor shift lower upper : Z)
    : Z := quotient_search 65 numerator divisor shift lower upper.

(** [while (value != 0) { value >>= 1; ++bit; }]: 64 steps clear a word. *)
Fixpoint high_bit_loop (fuel : nat) (value bit : Z) : Z :=
  match fuel with
  | O => bit
  | S fuel => if value =? 0 then bit else high_bit_loop fuel (Z.shiftr value 1) (bit + 1)
  end.

Definition uint64_high_bit (value : Z) : Z := high_bit_loop 65 value (-1).

Definition rounded_quotient (numerator : laplace_biguint) (divisor shift lower upper : Z) : Z :=
  let quotient := big_quotient_bounded numerator divisor shift lower upper in
  let midpoint_multiplier := u64 (quotient * 2 + 1) in
  match big_shift_left_one numerator, big_multiply_shift divisor midpoint_multiplier shift with
  | (true, twice_numerator), Some midpoint =>
      match big_compare twice_numerator midpoint with
      | Gt => u64 (quotient + 1)
      | Eq => if negb (Z.land quotient 1 =? 0) then u64 (quotient + 1) else quotient
      | Lt => quotient
      end
  | _, _ => quotient
  end.

(** The branch below the least normal number. *)
Definition subnormal_bits (numerator : laplace_biguint) (count : Z) : Z :=
  let significand := rounded_quotient numerator count 0 0 0x0010000000000000 in
  return_when significand =? 0 with 0 ;;
  return_when significand =? 0x0010000000000000 with 0x0010000000000000 ;;
  significand.

(** The branch of normal results; [None] where it gives up and returns 0.0. *)
Definition normal_bits (numerator : laplace_biguint) (count : Z) : option Z :=
  let ratio_high_bit := big_high_bit numerator - uint64_high_bit count in
  match big_multiply_shift count 1 (u32 ratio_high_bit) with
  | None => None
  | Some threshold =>
      let ratio_high_bit :=
        match big_compare numerator threshold with
        | Lt => ratio_high_bit - 1
        | _ => ratio_high_bit
        end in
      let shift := u32 (ratio_high_bit - 52) in
      let significand :=
        rounded_quotient numerator count shift 0x0010000000000000 0x001fffffffffffff in
      let '(significand, ratio_high_bit) :=
        if significand =? 0x0020000000000000 then (0x0010000000000000, ratio_high_bit + 1)
        else (significand, ratio_high_bit) in
      let exponent_bits := u64 (ratio_high_bit - 51) in
      Some (Z.lor (u64 (Z.shiftl exponent_bits 52)) (u64 (significand - 0x0010000000000000)))
  end.

Definition exact_component_mean (c : laplace_exact_component) (count : Z) : double :=
  let numerator := magnitude c in
  return_when sign c =? 0 with 0 ;;
  match big_multiply_shift count 1 52 with
  | None => 0
  | Some minimum_normal =>
      match
        match big_compare numerator minimum_normal with
        | Lt => Some (subnormal_bits numerator count)
        | _ => normal_bits numerator count
        end
      with
      | None => 0
      | Some result_bits =>
          if (sign c <? 0) && negb (result_bits =? 0)
          then Z.lor result_bits 0x8000000000000000
          else result_bits
      end
  end.

(** ** The accumulator *)
Definition zero_component : laplace_exact_component := mk_component big_zero 0.

Definition empty_accumulator : laplace_geometry_accumulator :=
  mk_accumulator (replicate LAPLACE_GEOMETRY_COMPONENTS zero_component) 0.

Definition laplace_geometry_accumulator_init (accumulator : ptr laplace_geometry_accumulator)
    : ptr laplace_geometry_accumulator := store accumulator empty_accumulator.

(** The first loop of the addition: the terms, and the check of each sum. *)
Fixpoint point_terms (values : list double) (sums : list laplace_exact_component)
    (multiplicity : Z) : laplace_geometry_status + list (laplace_biguint * Z) :=
  match values, sums with
  | value :: values, s :: sums =>
      match point_term value multiplicity with
      | inl failed => inl failed
      | inr term =>
          return_when negb (exact_component_valid s)
            with inl LAPLACE_GEOMETRY_INVALID_ARGUMENT ;;
          match point_terms values sums multiplicity with
          | inl failed => inl failed
          | inr terms => inr (term :: terms)
          end
      end
  | _, _ => inr []
  end.

(** The second loop: [None] when a sum overflows. *)
Fixpoint add_terms (sums : list laplace_exact_component) (terms : list (laplace_biguint * Z))
    : option (list laplace_exact_component) :=
  match sums, terms with
  | s :: sums, (m, sg) :: terms =>
      match exact_component_add s m sg with
      | (false, _) => None
      | (true, s) =>
          match add_terms sums terms with
          | None => None
          | Some sums => Some (s :: sums)
          end
      end
  | _, _ => Some []
  end.

Definition laplace_geometry_accumulator_add (accumulator : ptr laplace_geometry_accumulator)
    (point : ptr laplace_point4d) (multiplicity : Z)
    : laplace_geometry_status * ptr laplace_geometry_accumulator :=
  match accumulator, point with
  | Some a, Some p =>
      return_when multiplicity =? 0 with (LAPLACE_GEOMETRY_ZERO_MULTIPLICITY, accumulator) ;;
      return_when UINT64_MAX - logical_count a <? multiplicity
        with (LAPLACE_GEOMETRY_COUNT_OVERFLOW, accumulator) ;;
      match point_terms (component p) (sum a) multiplicity with
      | inl failed => (failed, accumulator)
      | inr terms =>
          match add_terms (sum a) terms with
          | None => (LAPLACE_GEOMETRY_ACCUMULATOR_OVERFLOW, accumulator)
          | Some sums =>
              (LAPLACE_GEOMETRY_OK, Some (mk_accumulator sums (logical_count a + multiplicity)))
          end
      end
  | _, _ => (LAPLACE_GEOMETRY_INVALID_ARGUMENT, accumulator)
  end.

Fixpoint merge_sums (sums sources : list laplace_exact_component)
    : laplace_geometry_status + list laplace_exact_component :=
  match sums, sources with
  | s :: sums, source :: sources =>
      return_when negb (exact_component_valid s) || negb (exact_component_valid source)
        with inl LAPLACE_GEOMETRY_INVALID_ARGUMENT ;;
      match exact_component_add s (magnitude source) (sign source) with
      | (false, _) => inl LAPLACE_GEOMETRY_ACCUMULATOR_OVERFLOW
      | (true, s) =>
          match merge_sums sums sources with
          | inl failed => inl failed
          | inr sums => inr (s :: sums)
          end
      end
  | _, _ => inr []
  end.

Definition laplace_geometry_accumulator_merge (accumulator : ptr laplace_geometry_accumulator)
    (source : ptr laplace_geometry_accumulator)
    : laplace_geometry_status * ptr laplace_geometry_accumulator :=
  match accumulator, source with
  | Some a, Some b =>
      return_when UINT64_MAX - logical_count a <? logical_count b
        with (LAPLACE_GEOMETRY_COUNT_OVERFLOW, accumulator) ;;
      match merge_sums (sum a) (sum b) with
      | inl failed => (failed, accumulator)
      | inr sums =>
          (LAPLACE_GEOMETRY_OK, Some (mk_accumulator sums (logical_count a + logical_count b)))
      end
  | _, _ => (LAPLACE_GEOMETRY_INVALID_ARGUMENT, accumulator)
  end.

(** The centroid, unless some sum is not canonical. *)
Fixpoint component_means (sums : list laplace_exact_component) (count : Z)
    : option (list double) :=
  match sums with
  | [] => Some []
  | s :: sums =>
      return_when negb (exact_component_valid s) with None ;;
      match component_means sums count with
      | None => None
      | Some means => Some (exact_component_mean s count :: means)
      end
  end.

(** [sqrt(c0 * c0 + c1 * c1 + c2 * c2 + c3 * c3)]. *)
Definition centroid_radius (means : list double) : double :=
  let square i := double_multiply (nth i means 0) (nth i means 0) in
  double_sqrt (double_add (double_add (double_add (square 0%nat) (square 1%nat)) (square 2%nat))
                 (square 3%nat)).

Definition laplace_geometry_accumulator_finish (accumulator : ptr laplace_geometry_accumulator)
    (summary : ptr laplace_geometry_summary)
    : laplace_geometry_status * ptr laplace_geometry_summary :=
  match accumulator, summary with
  | Some a, Some _ =>
      return_when logical_count a =? 0 with (LAPLACE_GEOMETRY_EMPTY, summary) ;;
      match component_means (sum a) (logical_count a) with
      | None => (LAPLACE_GEOMETRY_INVALID_ARGUMENT, summary)
      | Some means =>
          (LAPLACE_GEOMETRY_OK,
           Some (mk_summary (mk_point means) (centroid_radius means) (logical_count a)))
      end
  | _, _ => (LAPLACE_GEOMETRY_INVALID_ARGUMENT, summary)
  end.

(** ** What a component, a coordinate and an accumulator stand for
    All values are counted in units of the least positive subnormal. *)
Definition component_value (c : laplace_exact_component) : Z := sign c * big_value (magnitude c).

Record component_wf (c : laplace_exact_component) : Prop := {
  wf_magnitude : limbs 36 (magnitude c);
  wf_sign : -1 <= sign c <= 1;
  wf_canonical : sign c = 0 <-> big_value (magnitude c) = 0 }.

(** The magnitude of a pattern without its sign bit. *)
Definition unit_magnitude (m : Z) : Z :=
  let exponent := m / 2 ^ 52 in
  let fraction := m mod 2 ^ 52 in
  if exponent =? 0 then fraction else (2 ^ 52 + fraction) * 2 ^ (exponent - 1).

(** The value of a finite double. *)
Definition unit_value (bits : double) : Z :=
  if bits <? 2 ^ 63 then unit_magnitude bits else - unit_magnitude (bits - 2 ^ 63).

(** The coordinates of the unit cube: finite and at most one in magnitude. *)
Definition in_cube (bits : double) : Prop :=
  is_u64 bits /\ - 2 ^ 1074 <= unit_value bits <= 2 ^ 1074 /\
  (bits mod 2 ^ 63) / 2 ^ 52 < 2047.

Lemma exact_component_valid_wf c :
  limbs 36 (magnitude c) -> exact_component_valid c = true <-> component_wf c.
Proof.
  intros Hm. unfold exact_component_valid. pose proof (big_value_zero 36 _ Hm) as Hz. split.
  - intros H. casec_in H; [done|]. destruct (Z.eqb_spec (sign c) 0) as [E|E].
    + apply Hz in H. split; [done|lia|]. by split.
    + apply negb_true_iff in H. split; [done|lia|]. split; [done|].
      intros H'. apply Hz in H'. congruence.
  - intros [_ Hs Hc]. rewrite (proj2 (Z.ltb_ge _ _)), (proj2 (Z.ltb_ge _ _)) by lia. cbn [orb].
    destruct (Z.eqb_spec (sign c) 0) as [E|E]; [by apply Hz, Hc|].
    apply negb_true_iff. destruct (big_is_zero _) eqn:Eb; [|done].
    exfalso. by apply E, Hc, Hz.
Qed.

Lemma component_value_inj c d :
  component_wf c -> component_wf d -> component_value c = component_value d -> c = d.
Proof.
  destruct c as [m s], d as [n t]. unfold component_value.
  intros [Hm Hs Hc] [Hn Ht Hd] H. simpl in *.
  pose proof (big_value_bound _ _ Hm). pose proof (big_value_bound _ _ Hn).
  assert (s = t /\ big_value m = big_value n) as [-> E].
  { assert (s = -1 \/ s = 0 \/ s = 1) as [->|[->| ->]] by lia;
      assert (t = -1 \/ t = 0 \/ t = 1) as [->|[->| ->]] by lia; lia. }
  f_equal. by apply (big_value_inj 36).
Qed.

Lemma component_eta c : mk_component (magnitude c) (sign c) = c.
Proof. by destruct c. Qed.

(** Addition of signed magnitudes is addition of integers. *)
Lemma exact_component_add_value c m s :
  component_wf c -> component_wf (mk_component m s) ->
  - base_power 36 < component_value c + s * big_value m < base_power 36 ->
  exists c', exact_component_add c m s = (true, c') /\ component_wf c' /\
    component_value c' = component_value c + s * big_value m.
Proof.
  intros [Hm Hs Hc] [Hn Ht Hd] Hb. simpl in Hn, Ht, Hd.
  pose proof (big_value_bound _ _ Hm). pose proof (big_value_bound _ _ Hn).
  unfold exact_component_add, component_value in *.
  pose proof (big_value_zero 36 m Hn) as Hz.
  destruct (big_is_zero m).
  { exists c. split; [done|]. assert (big_value m = 0) as -> by by apply Hz.
    split; [done|]. lia. }
  assert (Hnz : big_value m <> 0) by (intros E; by apply Hz in E). clear Hz.
  destruct (Z.eqb_spec (sign c) 0) as [E|E].
  { exists (mk_component m s). split; [done|]. split; [done|]. simpl. rewrite E. lia. }
  assert (Hs' : sign c = -1 \/ sign c = 1) by lia.
  assert (Ht' : s = -1 \/ s = 1) by lia.
  destruct (Z.eqb_spec (sign c) s) as [<-|Hne].
  { pose proof (big_add_value 36 _ _ Hm Hn) as Ha. destruct (big_add _ _) as [ok r].
    destruct Ha as (Hr & Hok & Hv).
    assert (ok = true) as -> by (apply Hok; destruct Hs' as [Es|Es]; rewrite Es in Hb; lia).
    specialize (Hv eq_refl). exists (mk_component r (sign c)). split; [done|].
    split; [split; simpl; [done|lia|lia]|]. simpl. rewrite Hv. lia. }
  assert (sign c = - s) as Es by lia.
  rewrite (big_compare_value _ 36) by done.
  destruct (Z.compare_spec (big_value (magnitude c)) (big_value m)) as [Eq|Hlt|Hgt].
  - exists (mk_component big_zero 0). split; [done|].
    split; [split; simpl; [apply limbs_zero|lia|done]|]. simpl. rewrite Es, Eq. lia.
  - destruct (big_subtract_value 36 m (magnitude c)) as [Hr Hv]; [done|done|lia|].
    eexists. split; [done|]. split; [split; simpl; [done|lia|lia]|]. simpl. rewrite Hv, Es. lia.
  - destruct (big_subtract_value 36 (magnitude c) m) as [Hr Hv]; [done|done|lia|].
    eexists. split; [done|]. split; [split; simpl; [done|lia|lia]|]. simpl. rewrite Hv, Es. lia.
Qed.

(** ** Coordinates *)
Lemma fraction_mod bits : Z.land bits 0x000fffffffffffff = bits mod 2 ^ 52.
Proof. apply (Z.land_ones bits 52). lia. Qed.

Lemma exponent_div bits : is_u64 bits ->
  u32 (Z.land (Z.shiftr bits 52) 0x7ff) = (bits mod 2 ^ 63) / 2 ^ 52.
Proof.
  intros Hb. change 0x7ff with (Z.ones 11). rewrite Z.land_ones, Z.shiftr_div_pow2 by lia.
  change (2 ^ 11) with 2048. change (2 ^ 52) with 4503599627370496.
  change (2 ^ 63) with 9223372036854775808.
  rewrite u32_small; [|pose proof (Z.mod_pos_bound (bits / 4503599627370496) 2048); lia].
  Z.div_mod_to_equations. lia.
Qed.

Lemma sign_bit bits : is_u64 bits -> (Z.shiftr bits 63 =? 0) = (bits <? 2 ^ 63).
Proof.
  intros Hb. rewrite Z.shiftr_div_pow2 by lia. change (2 ^ 63) with 9223372036854775808.
  destruct (Z.ltb_spec bits 9223372036854775808).
  - apply Z.eqb_eq, Z.div_small. lia.
  - apply Z.eqb_neq. Z.div_mod_to_equations. lia.
Qed.

Lemma unit_magnitude_bound m : 0 <= m -> 0 <= unit_magnitude m.
Proof.
  intros Hm. unfold unit_magnitude. pose proof (Z.mod_pos_bound m (2 ^ 52) ltac:(lia)).
  destruct (_ =? 0); [lia|]. apply Z.mul_nonneg_nonneg; [lia|]. apply Z.pow_nonneg. lia.
Qed.

(** The magnitude of a double in its two parts. *)
Lemma magnitude_parts bits : is_u64 bits ->
  unit_value bits =
    (if bits <? 2 ^ 63 then 1 else -1) * unit_magnitude (bits mod 2 ^ 63) /\
  (bits mod 2 ^ 63) mod 2 ^ 52 = bits mod 2 ^ 52 /\
  0 <= (bits mod 2 ^ 63) / 2 ^ 52 <= 2047.
Proof.
  intros Hb. unfold unit_value. change (2 ^ 63) with 9223372036854775808.
  change (2 ^ 52) with 4503599627370496. split_and!.
  - destruct (Z.ltb_spec bits 9223372036854775808).
    + rewrite Z.mod_small by lia. lia.
    + assert (bits - 9223372036854775808 = bits mod 9223372036854775808) as ->
        by (Z.div_mod_to_equations; lia). lia.
  - Z.div_mod_to_equations. lia.
  - Z.div_mod_to_equations. lia.
  - Z.div_mod_to_equations. lia.
Qed.

Lemma unit_magnitude_normal m :
  0 < m / 2 ^ 52 -> unit_magnitude m = (2 ^ 52 + m mod 2 ^ 52) * 2 ^ (m / 2 ^ 52 - 1).
Proof. intros H. unfold unit_magnitude. by rewrite (proj2 (Z.eqb_neq _ _)) by lia. Qed.

Lemma unit_magnitude_subnormal m : m / 2 ^ 52 = 0 -> unit_magnitude m = m mod 2 ^ 52.
Proof. intros H. unfold unit_magnitude. by rewrite H. Qed.

(** The range test of the code is membership in the unit cube. *)
Lemma in_cube_exponent bits : is_u64 bits ->
  let exponent := (bits mod 2 ^ 63) / 2 ^ 52 in
  in_cube bits <-> exponent < 1023 \/ (exponent = 1023 /\ bits mod 2 ^ 52 = 0).
Proof.
  intros Hb exponent. destruct (magnitude_parts bits Hb) as (Hv & Hf & He).
  fold exponent in He. set (m := bits mod 2 ^ 63) in *. unfold in_cube. fold m exponent.
  assert (Hsign : - 2 ^ 1074 <= unit_value bits <= 2 ^ 1074 <-> unit_magnitude m <= 2 ^ 1074).
  { rewrite Hv. pose proof (unit_magnitude_bound m) as H0.
    assert (0 <= m) by (apply Z.mod_pos_bound; lia). destruct (bits <? 2 ^ 63); lia. }
  rewrite Hsign. clear Hsign Hv.
  pose proof (Z.mod_pos_bound bits (2 ^ 52) ltac:(lia)) as Hfb.
  assert (Hle : unit_magnitude m <= 2 ^ 1074 <->
                exponent < 1023 \/ exponent = 1023 /\ bits mod 2 ^ 52 = 0).
  { destruct (Z.eq_dec exponent 0) as [E|E].
    - rewrite unit_magnitude_subnormal, Hf by done.
      assert (2 ^ 52 <= 2 ^ 1074) by (apply Z.pow_le_mono_r; lia). split; [left|]; lia.
    - rewrite unit_magnitude_normal, Hf by (fold exponent; lia). fold exponent.
      assert (E1074 : 2 ^ 1074 = 2 ^ 52 * 2 ^ 1022) by (rewrite <- Z.pow_add_r; [done|lia..]).
      rewrite E1074. assert (0 < 2 ^ 1022) by (apply Z.pow_pos_nonneg; lia).
      destruct (Z.lt_trichotomy exponent 1023) as [Hlt|[Heq|Hgt]].
      + split; [by left|]. intros _.
        assert (2 ^ (exponent - 1) <= 2 ^ 1021) by (apply Z.pow_le_mono_r; lia).
        assert (0 < 2 ^ (exponent - 1)) by (apply Z.pow_pos_nonneg; lia).
        assert (2 ^ 1022 = 2 * 2 ^ 1021) by (rewrite <- Z.pow_succ_r; [done|lia]). nia.
      + rewrite Heq. change (1023 - 1) with 1022. split; [intros Hu; right; split; [done|]; nia|].
        intros [Hu|[_ ->]]; lia.
      + assert (2 ^ 1023 <= 2 ^ (exponent - 1)) by (apply Z.pow_le_mono_r; lia).
        assert (2 ^ 1023 = 2 * 2 ^ 1022) by (rewrite <- Z.pow_succ_r; [done|lia]).
        split; [intros Hu; nia | lia]. }
  rewrite Hle. split; [tauto|]. intros H. split; [done|]. split; [done|]. lia.
Qed.

Lemma term_fits significand m e :
  0 <= significand < 2 ^ 53 -> 0 <= m <= UINT64_MAX -> 0 <= e <= 1022 ->
  significand * m * 2 ^ e < base_power 36.
Proof.
  intros Hs Hm He. rewrite base_power_two. change (32 * Z.of_nat 36) with 1152.
  assert (E : 2 ^ 1152 = 2 ^ 53 * 2 ^ 64 * 2 ^ 1035)
    by (rewrite <- !Z.pow_add_r by lia; done). rewrite E.
  assert (Hp : 0 < 2 ^ e) by (apply Z.pow_pos_nonneg; lia).
  assert (2 ^ e <= 2 ^ 1035) by (apply Z.pow_le_mono_r; lia).
  assert (Hsm : significand * m < 2 ^ 53 * 2 ^ 64).
  { change (2 ^ 64) with 18446744073709551616. nia. }
  assert (0 <= significand * m) by lia.
  apply Z.mul_lt_mono_nonneg; [done|done|lia|]. 
  apply Z.le_lt_trans with (2 ^ 1022); [apply Z.pow_le_mono_r; lia|].
  apply Z.pow_lt_mono_r; lia.
Qed.

(** A coordinate of the cube contributes exactly its multiple. *)
Lemma point_term_value value m :
  is_u64 value -> 0 < m <= UINT64_MAX ->
  match point_term value m with
  | inr (t, s) => in_cube value /\ component_wf (mk_component t s) /\
                  s * big_value t = m * unit_value value
  | inl failed => failed = LAPLACE_GEOMETRY_COORDINATE_OUT_OF_RANGE /\ ~ in_cube value
  end.
Proof.
  intros Hb Hm. pose proof (in_cube_exponent value Hb) as Hcube. cbv zeta in Hcube.
  destruct (magnitude_parts value Hb) as (Hv & Hf & He).
  unfold point_term. rewrite exponent_div, fraction_mod, sign_bit by done.
  set (e := (value mod 2 ^ 63) / 2 ^ 52) in *. set (f := value mod 2 ^ 52) in *.
  assert (Hfb : 0 <= f < 2 ^ 52) by (apply Z.mod_pos_bound; lia).
  destruct (Z.eqb_spec e 2047); [split; [done|]; intros Hc%Hcube; lia|].
  destruct ((1023 <? e) || ((e =? 1023) && negb (f =? 0))) eqn:Eout.
  { split; [done|]. intros Hc%Hcube. apply orb_true_iff in Eout as [Eo|Eo]; bools; lia. }
  assert (Hin : in_cube value).
  { apply Hcube. bools. destruct (Z.eqb_spec e 1023); simpl in *; bools; lia. }
  set (sg := if value <? 2 ^ 63 then 1 else -1) in *.
  assert (Hsg : sg = 1 \/ sg = -1) by (subst sg; destruct (value <? 2 ^ 63); lia).
  assert (Hsig : exists significand shift,
    (if e =? 0 then (f, 0) else (Z.lor 4503599627370496 f, u32 (e - 1))) = (significand, shift) /\
    0 <= significand < 2 ^ 53 /\ 0 <= shift <= 1022 /\
    unit_magnitude (value mod 2 ^ 63) = significand * 2 ^ shift).
  { apply Hcube in Hin. destruct (Z.eqb_spec e 0) as [E|E].
    - exists f, 0. rewrite unit_magnitude_subnormal, Hf by done.
      assert (2 ^ 52 < 2 ^ 53) by (apply Z.pow_lt_mono_r; lia).
      split; [done|]. split; [lia|]. split; [lia|]. fold f. lia.
    - exists (2 ^ 52 + f), (e - 1). rewrite unit_magnitude_normal, Hf by (fold e; lia).
      pose proof (lor_shiftl_add f 52 1 ltac:(lia) Hfb ltac:(lia)) as Hlor.
      change (Z.shiftl 1 52) with 4503599627370496 in Hlor.
      rewrite Z.lor_comm, Hlor, u32_small by lia.
      change (2 ^ 53) with (2 * 2 ^ 52).
      split; [f_equal; lia|]. split; [lia|]. split; [lia|]. done. }
  destruct Hsig as (significand & shift & -> & Hs & Hsh & Hmag). rewrite Hmag in Hv.
  assert (Hpow : 0 < 2 ^ shift) by (apply Z.pow_pos_nonneg; lia).
  destruct (Z.eqb_spec significand 0) as [->|Hnz].
  { split; [done|]. split; [split; simpl; [apply limbs_zero|lia|done]|]. rewrite Hv. lia. }
  pose proof (big_multiply_shift_value significand m shift) as Hmul.
  pose proof (term_fits significand m shift Hs ltac:(lia) Hsh).
  destruct (big_multiply_shift significand m shift) as [t|].
  - destruct Hmul as [Ht Hval]; [change (2 ^ 53) with 9007199254740992 in Hs; lia|lia|lia|].
    split; [done|]. split.
    + split; simpl; [done|lia|]. rewrite Hval. split; [lia|]. intros H0.
      exfalso. assert (0 < significand * m * 2 ^ shift); [|lia].
      apply Z.mul_pos_pos; [apply Z.mul_pos_pos; lia|done].
    + rewrite Hval, Hv. lia.
  - exfalso. assert (base_power 36 <= significand * m * 2 ^ shift); [|lia].
    apply Hmul; [change (2 ^ 53) with 9007199254740992 in Hs; lia|lia|lia].
Qed.

(** ** Accumulators *)
Definition sums_of (a : laplace_geometry_accumulator) : list Z := map component_value (sum a).

Definition sum_bounded (n : Z) (c : laplace_exact_component) : Prop :=
  - (n * 2 ^ 1074) <= component_value c <= n * 2 ^ 1074.

(** Four canonical sums of at most [logical_count] coordinates of the cube. *)
Record accumulator_wf (a : laplace_geometry_accumulator) : Prop := {
  wf_components : length (sum a) = LAPLACE_GEOMETRY_COMPONENTS;
  wf_sums : Forall component_wf (sum a);
  wf_count : is_u64 (logical_count a);
  wf_bounds : Forall (sum_bounded (logical_count a)) (sum a) }.

(** A point whose coordinates are doubles. *)
Definition point_wf (p : laplace_point4d) : Prop :=
  length (component p) = LAPLACE_GEOMETRY_COMPONENTS /\
  Forall (fun v => is_u64 v) (component p).

(** The sums after a point of some multiplicity. *)
Definition plus_point (s : list Z) (p : laplace_point4d) (m : Z) : list Z :=
  zip_with (fun x v => x + m * unit_value v) s (component p).

Lemma count_fits n : 0 <= n <= UINT64_MAX -> n * 2 ^ 1074 < base_power 36.
Proof.
  intros Hn. rewrite base_power_two. change (32 * Z.of_nat 36) with (64 + 1088).
  rewrite Z.pow_add_r by lia. change (2 ^ 64) with 18446744073709551616.
  assert (0 < 2 ^ 1074) by (apply Z.pow_pos_nonneg; lia).
  assert (2 ^ 1074 <= 2 ^ 1088) by (apply Z.pow_le_mono_r; lia). nia.
Qed.

Lemma sums_valid s : component_wf s -> exact_component_valid s = true.
Proof. intros Hs. by apply exact_component_valid_wf; [apply Hs|]. Qed.

Lemma point_terms_value m vs : forall ss,
  Forall (fun v => is_u64 v) vs -> Forall component_wf ss -> length vs = length ss ->
  0 < m <= UINT64_MAX ->
  match point_terms vs ss m with
  | inr terms =>
      Forall in_cube vs /\
      Forall2 (fun t v => component_wf (mk_component t.1 t.2) /\
                          t.2 * big_value t.1 = m * unit_value v) terms vs
  | inl failed => failed = LAPLACE_GEOMETRY_COORDINATE_OUT_OF_RANGE /\ ~ Forall in_cube vs
  end.
Proof.
  induction vs as [|v vs IH]; intros [|s ss] Hv Hs Hlen Hm; simpl in Hlen; try lia.
  { simpl. by split; constructor. }
  apply Forall_cons in Hv as [Hv Hvs], Hs as [Hs Hss]. cbn [point_terms].
  pose proof (point_term_value v m Hv Hm) as Ht. destruct (point_term v m) as [st|[t sg]].
  { destruct Ht as [-> Hno]. split; [done|]. intros H. by apply Forall_cons in H as [? _]. }
  destruct Ht as (Hin & Hwf & Hval). rewrite sums_valid by done. cbn [negb].
  specialize (IH ss Hvs Hss ltac:(lia) Hm). destruct (point_terms vs ss m) as [st|terms].
  - destruct IH as [-> Hno]. split; [done|]. intros H. by apply Forall_cons in H as [_ ?].
  - destruct IH as [Hins Hterms]. split; [by constructor|]. by constructor.
Qed.

Lemma add_terms_value n m ss : forall terms vs,
  Forall component_wf ss -> Forall (sum_bounded n) ss -> length ss = length vs ->
  0 <= n -> 0 < m -> n + m <= UINT64_MAX -> Forall in_cube vs ->
  Forall2 (fun t v => component_wf (mk_component t.1 t.2) /\
                      t.2 * big_value t.1 = m * unit_value v) terms vs ->
  exists ss', add_terms ss terms = Some ss' /\ length ss' = length ss /\
    Forall component_wf ss' /\ Forall (sum_bounded (n + m)) ss' /\
    map component_value ss' =
      zip_with (fun x v => x + m * unit_value v) (map component_value ss) vs.
Proof.
  induction ss as [|s ss IH]; intros terms [|v vs] Hwf Hb Hlen Hn Hm Hnm Hin Ht;
    simpl in Hlen; try lia.
  { exists []. destruct terms; [by repeat constructor|by inversion Ht]. }
  inversion Ht as [|[t sg] ? terms' ? [Htw Htv] Ht']; subst. simpl in Htw, Htv.
  apply Forall_cons in Hwf as [Hs Hss], Hb as [Hbs Hbss], Hin as [Hv Hvs].
  cbn [add_terms]. pose proof (count_fits (n + m) ltac:(lia)) as Hfit.
  unfold sum_bounded in Hbs. destruct Hv as (_ & Hv & _).
  assert (HU : 0 < 2 ^ 1074) by (apply Z.pow_pos_nonneg; lia). set (U := 2 ^ 1074) in *.
  assert (Hnew : - ((n + m) * U) <= component_value s + sg * big_value t <= (n + m) * U).
  { rewrite Htv. nia. }
  destruct (exact_component_add_value s t sg Hs Htw) as (s' & -> & Hs' & Hval); [lia|].
  destruct (IH terms' vs) as (ss' & -> & Hl & Hw' & Hb' & Hv');
    [done|done|lia|lia|lia|lia|done|done|].
  eexists. split; [done|]. split; [simpl; lia|]. split; [by constructor|]. split.
  - constructor; [|done]. unfold sum_bounded. fold U. lia.
  - simpl. f_equal; [lia|done].
Qed.

(** accumulation is exact.  Adding a point to a well-formed accumulator
    succeeds if and only if the multiplicity is positive, the count does not
    overflow and every coordinate lies in the cube [-1, 1]; then every sum is
    increased by exactly the multiple of its coordinate, without rounding, the
    accumulator stays well formed and the 1152-bit sums never overflow.
    Otherwise the accumulator is unchanged. *)
Theorem accumulator_add_exact a p m :
  accumulator_wf a -> point_wf p -> is_u64 m ->
  let '(status, a') := laplace_geometry_accumulator_add (Some a) (Some p) m in
  (status = LAPLACE_GEOMETRY_OK <->
     0 < m /\ logical_count a + m <= UINT64_MAX /\ Forall in_cube (component p)) /\
  (status = LAPLACE_GEOMETRY_OK -> exists r, a' = Some r /\ accumulator_wf r /\
     logical_count r = logical_count a + m /\ sums_of r = plus_point (sums_of a) p m) /\
  (status <> LAPLACE_GEOMETRY_OK ->
     a' = Some a /\ status <> LAPLACE_GEOMETRY_ACCUMULATOR_OVERFLOW).
Proof.
  intros [Hlen Hwf Hc Hb] [Hpl Hp] Hm. unfold laplace_geometry_accumulator_add.
  destruct (Z.eqb_spec m 0) as [->|Hm0].
  { split; [|done]. split; [done|]. lia. }
  destruct (Z.ltb_spec (UINT64_MAX - logical_count a) m).
  { split; [|done]. split; [done|]. lia. }
  pose proof (point_terms_value m (component p) (sum a) Hp Hwf
    (eq_trans Hpl (eq_sym Hlen)) ltac:(lia)) as Ht.
  destruct (point_terms _ _ m) as [st|terms].
  { destruct Ht as [-> Hno]. split; [|done]. split; [done|]. by intros (_ & _ & ?). }
  destruct Ht as [Hin Hterms].
  destruct (add_terms_value (logical_count a) m (sum a) terms (component p))
    as (ss & -> & Hl & Hw & Hbd & Hv); [done|done|exact (eq_trans Hlen (eq_sym Hpl))|lia|lia|lia|done|done|].
  split; [split; [intros _; split; [lia|]; split; [lia|done]|done]|]. split; [|done].
  intros _. eexists. split; [done|]. split; [|by split].
  split; simpl; [lia|done|lia|done].
Qed.

(** ** Merging, and independence of order and grouping *)
Lemma merge_sums_value n m ss : forall ts,
  Forall component_wf ss -> Forall (sum_bounded n) ss ->
  Forall component_wf ts -> Forall (sum_bounded m) ts -> length ss = length ts ->
  0 <= n -> 0 <= m -> n + m <= UINT64_MAX ->
  exists rs, merge_sums ss ts = inr rs /\ length rs = length ss /\
    Forall component_wf rs /\ Forall (sum_bounded (n + m)) rs /\
    map component_value rs = zip_with Z.add (map component_value ss) (map component_value ts).
Proof.
  induction ss as [|s ss IH]; intros [|t ts] Hwf Hb Hwt Hbt Hlen Hn Hm Hnm;
    simpl in Hlen; try lia.
  { exists []. by repeat constructor. }
  apply Forall_cons in Hwf as [Hs Hss], Hb as [Hbs Hbss], Hwt as [Ht Hts], Hbt as [Hbt Hbts].
  cbn [merge_sums]. rewrite !sums_valid by done. cbn [orb negb].
  pose proof (count_fits (n + m) ltac:(lia)) as Hfit. unfold sum_bounded in Hbs, Hbt.
  assert (HU : 0 < 2 ^ 1074) by (apply Z.pow_pos_nonneg; lia). set (U := 2 ^ 1074) in *.
  assert (Hnew : - ((n + m) * U) <= component_value s + component_value t <= (n + m) * U)
    by nia.
  destruct (exact_component_add_value s (magnitude t) (sign t)) as (s' & -> & Hs' & Hval);
    [done|by rewrite component_eta|fold (component_value t); lia|].
  destruct (IH ts) as (rs & -> & Hl & Hw' & Hb' & Hv'); [done|done|done|done|lia|lia|lia|lia|].
  eexists. split; [done|]. split; [simpl; lia|]. split; [by constructor|]. split.
  - constructor; [|done]. unfold sum_bounded. fold U. fold (component_value t) in Hval. lia.
  - simpl. f_equal; [done|done].
Qed.

(** A weighted point, and what a list of them adds up to. *)
Definition weighted : Type := laplace_point4d * Z.

Definition contribution (i : nat) (w : weighted) : Z :=
  w.2 * unit_value (nth i (component w.1) 0).

Definition totals (pts : list weighted) : list Z :=
  map (fun i => sum_of (contribution i) pts) (seq 0 4).

(** Points an accumulator can take, in any order. *)
Definition accumulable (pts : list weighted) : Prop :=
  Forall (fun w => point_wf w.1 /\ Forall in_cube (component w.1) /\ 0 < w.2) pts /\
  sum_of snd pts <= UINT64_MAX.

(** An accumulator that holds the exact sums of some points. *)
Definition represents (a : laplace_geometry_accumulator) (pts : list weighted) : Prop :=
  accumulator_wf a /\ logical_count a = sum_of snd pts /\ sums_of a = totals pts.

(** A client that adds points one by one and stops at the first failure. *)
Fixpoint accumulate (a : laplace_geometry_accumulator) (pts : list weighted)
    : laplace_geometry_status * laplace_geometry_accumulator :=
  match pts with
  | [] => (LAPLACE_GEOMETRY_OK, a)
  | (p, m) :: rest =>
      match laplace_geometry_accumulator_add (Some a) (Some p) m with
      | (LAPLACE_GEOMETRY_OK, Some a') => accumulate a' rest
      | (failed, _) => (failed, a)
      end
  end.

Lemma sum_of_perm {A} (f : A -> Z) l l' : l ≡ₚ l' -> sum_of f l = sum_of f l'.
Proof. unfold sum_of. induction 1; simpl; lia. Qed.

Lemma totals_perm pts pts' : pts ≡ₚ pts' -> totals pts = totals pts'.
Proof. intros Hp. unfold totals. apply map_ext. intros i. by apply sum_of_perm. Qed.

Lemma represents_unique a b pts pts' :
  represents a pts -> represents b pts' -> pts ≡ₚ pts' -> a = b.
Proof.
  intros (Ha & Hca & Hsa) (Hb & Hcb & Hsb) Hp.
  assert (Hs : sums_of a = sums_of b) by (rewrite Hsa, Hsb; by apply totals_perm).
  assert (Hc : logical_count a = logical_count b) by (rewrite Hca, Hcb; by apply sum_of_perm).
  destruct Ha as [_ Ha _ _], Hb as [_ Hb _ _]. destruct a as [sa ca], b as [sb cb].
  unfold sums_of in Hs. simpl in *. f_equal; [|done]. clear -Ha Hb Hs.
  revert sb Hb Hs. induction sa as [|x sa IH]; intros [|y sb] Hb Hs; simpl in *; try done.
  apply Forall_cons in Ha as [Hx Ha], Hb as [Hy Hb]. injection Hs as Hxy Hs.
  f_equal; [by apply component_value_inj | by apply IH].
Qed.

Lemma list_of_four {A} (l : list A) : length l = 4%nat -> exists a b c d, l = [a; b; c; d].
Proof. destruct l as [|a [|b [|c [|d [|? ?]]]]]; try done. eauto. Qed.

Lemma totals_snoc pts p m : point_wf p -> totals (pts ++ [(p, m)]) = plus_point (totals pts) p m.
Proof.
  intros [Hl _]. destruct p as [l]. simpl in Hl.
  destruct (list_of_four l Hl) as (v0 & v1 & v2 & v3 & ->).
  unfold totals, plus_point. cbn [seq map]. by rewrite !sum_of_snoc.
Qed.

Lemma totals_app xs ys : totals (xs ++ ys) = zip_with Z.add (totals xs) (totals ys).
Proof. unfold totals. cbn [seq map]. by rewrite !sum_of_app. Qed.

Lemma represents_empty : represents empty_accumulator [].
Proof.
  split; [|done]. split; [done| |done|].
  - apply Forall_replicate. split; [apply limbs_zero|simpl; lia|done].
  - apply Forall_replicate. unfold sum_bounded, component_value. simpl. lia.
Qed.

Lemma accumulate_represents pts : forall a done_pts,
  represents a done_pts -> accumulable (done_pts ++ pts) ->
  exists r, accumulate a pts = (LAPLACE_GEOMETRY_OK, r) /\ represents r (done_pts ++ pts).
Proof.
  induction pts as [|[p m] pts IH]; intros a before Ha Hacc.
  { exists a. by rewrite app_nil_r. }
  pose proof Hacc as [Hpts Hsum]. apply Forall_app in Hpts as [_ Hpts].
  apply Forall_cons in Hpts as [(Hp & Hin & Hm) Hpts]. simpl in Hp, Hin, Hm.
  assert (Hrest : 0 <= sum_of snd pts).
  { apply sum_of_nonneg. eapply Forall_impl; [exact Hpts|]. simpl. intros w (_ & _ & ?). lia. }
  destruct Ha as (Hwf & Hc & Hs). pose proof (wf_count a Hwf).
  rewrite sum_of_app in Hsum. change (sum_of snd ((p, m) :: pts)) with (m + sum_of snd pts) in Hsum.
  pose proof (accumulator_add_exact a p m Hwf Hp ltac:(lia)) as Hadd.
  cbn [accumulate]. destruct (laplace_geometry_accumulator_add _ _ _) as [st a'].
  destruct Hadd as (Hok & Hres & _).
  assert (st = LAPLACE_GEOMETRY_OK) as -> by (apply Hok; split; [lia|]; split; [lia|done]).
  destruct (Hres eq_refl) as (r & -> & Hwr & Hcr & Hsr).
  destruct (IH r (before ++ [(p, m)])) as (f & -> & Hf).
  - split; [done|]. rewrite sum_of_snoc, totals_snoc by done. rewrite <- Hs. simpl. split; [lia|done].
  - by rewrite <- app_assoc.
  - exists f. by rewrite <- app_assoc in Hf.
Qed.

Lemma merge_represents a b xs ys :
  represents a xs -> represents b ys -> sum_of snd xs + sum_of snd ys <= UINT64_MAX ->
  exists c, laplace_geometry_accumulator_merge (Some a) (Some b) =
    (LAPLACE_GEOMETRY_OK, Some c) /\ represents c (xs ++ ys).
Proof.
  intros ([Hla Hwa Hca Hba] & Hna & Hsa) ([Hlb Hwb Hcb Hbb] & Hnb & Hsb) Hsum.
  unfold laplace_geometry_accumulator_merge. rewrite (proj2 (Z.ltb_ge _ _)) by lia.
  destruct (merge_sums_value (logical_count a) (logical_count b) (sum a) (sum b))
    as (rs & -> & Hl & Hw & Hb & Hv); [done|done|done|done|lia|lia|lia|lia|].
  eexists. split; [done|]. split; [|split].
  - split; simpl; [lia|done|lia|done].
  - simpl. rewrite sum_of_app. lia.
  - unfold sums_of in *. simpl. by rewrite Hv, Hsa, Hsb, totals_app.
Qed.

Lemma accumulable_perm pts pts' : pts ≡ₚ pts' -> accumulable pts -> accumulable pts'.
Proof. intros Hp [H1 H2]. split; [by rewrite <- Hp|]. by rewrite <- (sum_of_perm snd _ _ Hp). Qed.

(** C37: an accumulator does not depend on how it was computed.  However a
    multiset of weighted points is split in two and ordered, accumulating the
    parts separately and merging succeeds and gives, limb for limb, the
    accumulator of all points in any other order: the canonical representation
    of their exact sums and of their count. *)
Theorem accumulation_order_independent pts xs ys :
  pts ≡ₚ xs ++ ys -> accumulable pts ->
  exists a b c,
    accumulate empty_accumulator xs = (LAPLACE_GEOMETRY_OK, a) /\
    accumulate empty_accumulator ys = (LAPLACE_GEOMETRY_OK, b) /\
    laplace_geometry_accumulator_merge (Some a) (Some b) = (LAPLACE_GEOMETRY_OK, Some c) /\
    accumulate empty_accumulator pts = (LAPLACE_GEOMETRY_OK, c) /\
    sums_of c = totals pts /\ logical_count c = sum_of snd pts.
Proof.
  intros Hp Hpts. pose proof (accumulable_perm _ _ Hp Hpts) as [Hall Hsum].
  pose proof Hall as [Hx Hy]%Forall_app.
  assert (Hn : forall l : list weighted,
    Forall (fun w => point_wf w.1 /\ Forall in_cube (component w.1) /\ 0 < w.2) l ->
    0 <= sum_of snd l).
  { intros l Hl. apply sum_of_nonneg. eapply Forall_impl; [exact Hl|].
    simpl. intros w (_ & _ & ?). lia. }
  pose proof (Hn _ Hx). pose proof (Hn _ Hy). rewrite sum_of_app in Hsum.
  destruct (accumulate_represents xs empty_accumulator [] represents_empty)
    as (a & Ha & Hra); [split; [done|simpl; lia]|].
  destruct (accumulate_represents ys empty_accumulator [] represents_empty)
    as (b & Hb & Hrb); [split; [done|simpl; lia]|].
  destruct (merge_represents a b xs ys Hra Hrb) as (c & Hc & Hrc); [lia|].
  destruct (accumulate_represents pts empty_accumulator [] represents_empty Hpts)
    as (d & Hd & Hrd). simpl in Hrd.
  assert (d = c) as -> by (by apply (represents_unique d c pts (xs ++ ys))).
  destruct Hrd as (_ & Hcount & Hsums). exists a, b, c. by split_and!.
Qed.

(** ** Division and rounding *)
Lemma at_most_spec N numerator divisor midpoint shift :
  limbs 36 numerator -> big_value numerator = N -> is_u64 divisor -> is_u64 midpoint ->
  0 <= shift ->
  match big_multiply_shift divisor midpoint shift with
  | Some product => match big_compare product numerator with Gt => false | _ => true end
  | None => false
  end = (midpoint * (divisor * 2 ^ shift) <=? N).
Proof.
  intros Hn HN Hd Hm Hs. pose proof (big_multiply_shift_value divisor midpoint shift Hd Hm Hs) as H.
  pose proof (big_value_bound _ _ Hn).
  replace (midpoint * (divisor * 2 ^ shift)) with (divisor * midpoint * 2 ^ shift) by lia.
  destruct (big_multiply_shift divisor midpoint shift) as [product|].
  - destruct H as [Hp Hv]. rewrite (big_compare_value _ 36), Hv, HN by done.
    unfold Z.leb. by destruct (_ ?= _).
  - symmetry. apply Z.leb_gt. lia.
Qed.

(** With fuel for the logarithm of the interval the search ends at the last
    quotient whose product does not exceed the numerator. *)
Lemma quotient_search_spec N numerator divisor shift fuel : forall low high,
  limbs 36 numerator -> big_value numerator = N -> 0 < divisor <= UINT64_MAX -> 0 <= shift ->
  0 <= low <= high -> high <= UINT64_MAX -> high - low < 2 ^ Z.of_nat fuel ->
  low * (divisor * 2 ^ shift) <= N < (high + 1) * (divisor * 2 ^ shift) ->
  let q := quotient_search fuel numerator divisor shift low high in
  low <= q <= high /\ q * (divisor * 2 ^ shift) <= N < (q + 1) * (divisor * 2 ^ shift).
Proof.
  induction fuel as [|fuel IH]; intros low high Hn HN Hd Hs Hlow Hhigh Hfuel Hq;
    cbn [quotient_search].
  { change (2 ^ Z.of_nat 0) with 1 in Hfuel. assert (high = low) as -> by lia. cbv zeta. lia. }
  destruct (Z.ltb_spec low high) as [Hlt|Hge].
  2:{ assert (high = low) as -> by lia. cbv zeta. lia. }
  rewrite Nat2Z.inj_succ, Z.pow_succ_r in Hfuel by lia.
  assert (Hmid : low < low + (high - low) / 2 + 1 <= high /\
                 high - (low + (high - low) / 2 + 1) < 2 ^ Z.of_nat fuel /\
                 (high - low) / 2 < 2 ^ Z.of_nat fuel) by (Z.div_mod_to_equations; lia).
  set (midpoint := low + (high - low) / 2 + 1) in *. cbv zeta.
  rewrite (at_most_spec N) by (done || lia).
  destruct (Z.leb_spec (midpoint * (divisor * 2 ^ shift)) N).
  - destruct (IH midpoint high) as [Hr1 Hr2]; [done|done|done|done|lia|lia|lia|lia|].
    split; [lia|done].
  - destruct (IH low (midpoint - 1)) as [Hr1 Hr2];
      [done|done|done|done|lia|lia|subst midpoint; lia| |].
    + replace (midpoint - 1 + 1) with midpoint by lia. lia.
    + split; [lia|done].
Qed.

(** [r] is [n / d] rounded to the nearest integer, ties to even. *)
Definition nearest (n d r : Z) : Prop :=
  - d <= 2 * (n - r * d) <= d /\
  (2 * (n - r * d) = d \/ 2 * (n - r * d) = - d -> Z.even r = true).

Lemma land_one_even q : negb (Z.land q 1 =? 0) = negb (Z.even q).
Proof.
  f_equal. change (Z.land q 1) with (Z.land q (Z.ones 1)). rewrite Z.land_ones by lia.
  change (2 ^ 1) with 2. rewrite Zmod_even.
  by destruct (Z.even q).
Qed.

Lemma rounded_quotient_nearest numerator divisor shift lower upper :
  let N := big_value numerator in
  let D := divisor * 2 ^ shift in
  limbs 36 numerator -> 0 < divisor <= UINT64_MAX -> 0 <= shift ->
  0 <= lower <= upper -> upper <= 2 ^ 53 -> lower * D <= N < (upper + 1) * D ->
  2 * N + D < base_power 36 ->
  let r := rounded_quotient numerator divisor shift lower upper in
  nearest N D r /\ lower <= r <= upper + 1 /\ (r <= upper \/ upper * D <= N).
Proof.
  intros N D Hn Hd Hs Hlow Hup Hq Hfit. cbv zeta. unfold rounded_quotient, big_quotient_bounded.
  change (2 ^ 53) with 9007199254740992 in Hup.
  assert (HD : 0 < D) by (apply Z.mul_pos_pos; [lia|apply Z.pow_pos_nonneg; lia]).
  pose proof (quotient_search_spec N numerator divisor shift 65 lower upper Hn eq_refl Hd Hs
    Hlow ltac:(lia)) as Hq'. fold D in Hq'.
  destruct Hq' as [Hr Hfloor]; [change (2 ^ Z.of_nat 65) with 36893488147419103232; lia|done|].
  set (q := quotient_search 65 numerator divisor shift lower upper) in *. cbv zeta.
  pose proof (big_value_bound _ _ Hn).
  destruct (big_shift_left_one_value 36 numerator Hn) as (twice & -> & Htw & Htv); [fold N; lia|].
  rewrite (u64_small (q * 2 + 1)) by lia.
  pose proof (big_multiply_shift_value divisor (q * 2 + 1) shift ltac:(lia) ltac:(lia) Hs) as Hm.
  assert (Hmid : divisor * (q * 2 + 1) * 2 ^ shift = (2 * q + 1) * D) by (unfold D; lia).
  rewrite Hmid in Hm. destruct (big_multiply_shift divisor (q * 2 + 1) shift) as [mid|].
  2:{ exfalso. lia. }
  destruct Hm as [Hml Hmv]. rewrite (big_compare_value _ 36), Htv, Hmv by done. fold N.
  rewrite land_one_even, (u64_small (q + 1)) by lia. unfold nearest.
  destruct (Z.compare_spec (2 * N) ((2 * q + 1) * D)) as [Heq|Hlt|Hgt].
  - destruct (Z.even q) eqn:Ev; cbn [negb].
    + split; [split; [lia|done]|]. split; [lia|left; lia].
    + split; [split; [lia|]|split; [lia|]].
      * intros _. by rewrite Z.even_add, Ev.
      * destruct (Z.eq_dec q upper) as [->|]; [right|left]; lia.
  - split; [split; [lia|intros; exfalso; lia]|]. split; [lia|left; lia].
  - split; [split; [lia|intros; exfalso; lia]|]. split; [lia|].
    destruct (Z.eq_dec q upper) as [->|]; [right|left]; lia.
Qed.

(** A nearest integer is at least as close as any other, and a tie is even. *)
Lemma nearest_best n d r k :
  0 < d -> nearest n d r ->
  Z.abs (n - r * d) <= Z.abs (n - k * d) /\
  (Z.abs (n - r * d) = Z.abs (n - k * d) -> k <> r -> Z.even r = true).
Proof.
  intros Hd [Hr Heven].
  destruct (Z.lt_trichotomy k r) as [H|[->|H]]; [|split; [lia|done]|].
  - assert (n - r * d + d <= n - k * d) by nia. split; [lia|].
    intros Ht _. apply Heven. lia.
  - assert (n - k * d <= n - r * d - d) by nia. split; [lia|].
    intros Ht _. apply Heven. lia.
Qed.

(** ** The mean *)
Definition double_finite (b : double) : Prop := is_u64 b /\ (b mod 2 ^ 63) / 2 ^ 52 < 2047.

(** [b] is [v / n] correctly rounded: no finite double is closer, and the
    significand is even where another double is as close. *)
Definition correctly_rounded (v n : Z) (b : double) : Prop :=
  in_cube b /\
  forall b', double_finite b' ->
    Z.abs (v - n * unit_value b) <= Z.abs (v - n * unit_value b') /\
    (Z.abs (v - n * unit_value b) = Z.abs (v - n * unit_value b') ->
     unit_value b' <> unit_value b -> Z.even b = true).

(** The same for magnitudes. *)
Definition magnitude_rounded (v n m : Z) : Prop :=
  0 <= m < 2047 * 2 ^ 52 /\
  forall m', 0 <= m' < 2047 * 2 ^ 52 ->
    Z.abs (v - n * unit_magnitude m) <= Z.abs (v - n * unit_magnitude m') /\
    (Z.abs (v - n * unit_magnitude m) = Z.abs (v - n * unit_magnitude m') ->
     unit_magnitude m' <> unit_magnitude m -> Z.even m = true).

Lemma high_bit_loop_log2 fuel : forall v b,
  0 < v < 2 ^ Z.of_nat fuel -> high_bit_loop (S fuel) v b = b + Z.log2 v + 1.
Proof.
  induction fuel as [|fuel IH]; intros v b Hv; [change (2 ^ Z.of_nat 0) with 1 in Hv; lia|].
  change (high_bit_loop (S (S fuel)) v b) with
    (if v =? 0 then b else high_bit_loop (S fuel) (Z.shiftr v 1) (b + 1)).
  rewrite (proj2 (Z.eqb_neq v 0)) by lia.
  rewrite Nat2Z.inj_succ, Z.pow_succ_r in Hv by lia.
  assert (Hsh : Z.shiftr v 1 = v / 2) by (rewrite Z.shiftr_div_pow2 by lia; done).
  destruct (Z.eq_dec v 1) as [->|Hv1].
  { change (Z.shiftr 1 1) with 0. simpl. lia. }
  rewrite IH by (rewrite Hsh; Z.div_mod_to_equations; lia).
  rewrite Z.log2_shiftr by lia. pose proof (Z.log2_le_mono 2 v ltac:(lia)) as Hl.
  change (Z.log2 2) with 1 in Hl. lia.
Qed.

Lemma uint64_high_bit_log2 v : 0 < v <= UINT64_MAX -> uint64_high_bit v = Z.log2 v.
Proof.
  intros Hv. unfold uint64_high_bit. rewrite high_bit_loop_log2; [lia|].
  change (2 ^ Z.of_nat 64) with 18446744073709551616. lia.
Qed.

(** Doubles lie on the grid of their binade and of all finer ones. *)
Lemma double_grid m s :
  0 <= m -> 0 <= s ->
  (exists k, unit_magnitude m = k * 2 ^ s) \/ unit_magnitude m < 2 ^ 52 * 2 ^ s.
Proof.
  intros Hm Hs. pose proof (Z.mod_pos_bound m (2 ^ 52) ltac:(lia)) as Hf.
  pose proof (Z.div_pos m (2 ^ 52) Hm ltac:(lia)) as He.
  assert (Hps : 0 < 2 ^ s) by (apply Z.pow_pos_nonneg; lia).
  destruct (Z.eq_dec (m / 2 ^ 52) 0) as [E|E].
  { right. rewrite unit_magnitude_subnormal by done. nia. }
  rewrite unit_magnitude_normal by lia. set (e := m / 2 ^ 52) in *.
  destruct (Z.le_gt_cases s (e - 1)) as [Hse|Hse].
  - left. exists ((2 ^ 52 + m mod 2 ^ 52) * 2 ^ (e - 1 - s)).
    rewrite <- Z.mul_assoc, <- Z.pow_add_r by lia. do 2 f_equal. lia.
  - right. assert (2 * 2 ^ (e - 1) <= 2 ^ s).
    { rewrite <- Z.pow_succ_r by lia. apply Z.pow_le_mono_r; lia. }
    assert (0 < 2 ^ (e - 1)) by (apply Z.pow_pos_nonneg; lia). nia.
Qed.

(** Rounding below the least normal number. *)
Lemma subnormal_rounded v n r :
  0 < n -> nearest v n r -> 0 <= r <= 2 ^ 52 -> magnitude_rounded v n r.
Proof.
  intros Hn Hr Hb.
  assert (Hu : unit_magnitude r = r).
  { destruct (Z.eq_dec r (2 ^ 52)) as [->|]; [done|].
    rewrite unit_magnitude_subnormal by (apply Z.div_small; lia). apply Z.mod_small. lia. }
  split; [lia|]. intros m' Hm'. rewrite Hu.
  destruct (nearest_best v n r (unit_magnitude m') Hn Hr) as [H1 H2].
  rewrite (Z.mul_comm n r), (Z.mul_comm n (unit_magnitude m')).
  split; [done|]. intros Ht Hne. by apply H2.
Qed.

(** Rounding in a binade: [m] is the pattern of [r * 2^s]. *)
Lemma normal_rounded v n s r m :
  0 < n -> 0 <= s -> nearest v (n * 2 ^ s) r ->
  2 ^ 52 * (n * 2 ^ s) <= v -> 0 <= m < 2047 * 2 ^ 52 ->
  unit_magnitude m = r * 2 ^ s -> Z.even m = Z.even r -> magnitude_rounded v n m.
Proof.
  intros Hn Hs Hr Hv Hm Hu Heven. split; [done|]. intros m' Hm'. rewrite Hu, Heven.
  assert (Hps : 0 < 2 ^ s) by (apply Z.pow_pos_nonneg; lia).
  assert (HD : 0 < n * 2 ^ s) by lia.
  replace (n * (r * 2 ^ s)) with (r * (n * 2 ^ s)) by lia.
  destruct (double_grid m' s) as [[k Hk]|Hsmall]; [lia|done| |].
  - rewrite Hk. replace (n * (k * 2 ^ s)) with (k * (n * 2 ^ s)) by lia.
    destruct (nearest_best v _ r k HD Hr) as [H1 H2]. split; [done|].
    intros Ht Hne. apply H2; [done|]. intros ->. by apply Hne.
  - destruct (nearest_best v _ r (2 ^ 52) HD Hr) as [H1 _].
    assert (n * unit_magnitude m' < 2 ^ 52 * (n * 2 ^ s)) by nia. split; lia.
Qed.

Lemma pattern_normal e f :
  0 < e -> 0 <= f < 2 ^ 52 ->
  (e * 2 ^ 52 + f) / 2 ^ 52 = e /\
  unit_magnitude (e * 2 ^ 52 + f) = (2 ^ 52 + f) * 2 ^ (e - 1) /\
  Z.even (e * 2 ^ 52 + f) = Z.even f.
Proof.
  intros He Hf. assert (Hd : (e * 2 ^ 52 + f) / 2 ^ 52 = e).
  { rewrite Z.div_add_l, (Z.div_small f) by lia. lia. }
  split; [done|]. split.
  - rewrite unit_magnitude_normal by lia. rewrite Hd.
    rewrite (Z.add_comm (e * 2 ^ 52) f), Z.mod_add, Z.mod_small by lia. done.
  - rewrite Z.even_add, Z.even_mul. change (Z.even (2 ^ 52)) with true.
    rewrite orb_true_r. by destruct (Z.even f).
Qed.

(** The sign is that of the component; the magnitude decides the rest. *)
Lemma signed_rounded sg N n m b :
  b = (if (sg <? 0) && negb (m =? 0) then Z.lor m 0x8000000000000000 else m) ->
  (sg = 1 \/ sg = -1) -> 0 < N <= n * 2 ^ 1074 -> 0 < n -> magnitude_rounded N n m ->
  correctly_rounded (sg * N) n b.
Proof.
  intros Hdef Hsg HN Hn [Hm Hbest].
  assert (Hm63 : m < 2 ^ 63).
  { change (2 ^ 63) with (2048 * 2 ^ 52). lia. }
  assert (Hb : is_u64 b /\ unit_value b = sg * unit_magnitude m /\ b mod 2 ^ 63 = m /\
               Z.even b = Z.even m).
  { rewrite Hdef. clear Hdef b. change (2 ^ 63) with 9223372036854775808 in *. unfold unit_value.
    change (2 ^ 63) with 9223372036854775808.
    destruct Hsg as [-> | ->]; cbn [Z.ltb Z.compare andb].
    - rewrite (proj2 (Z.ltb_lt m _)), Z.mod_small by lia.
      split; [lia|]. split; [lia|]. done.
    - destruct (Z.eqb_spec m 0) as [->|Hm0]; cbn [negb].
      + split; [lia|]. split; [done|]. done.
      + pose proof (lor_shiftl_add m 63 1 ltac:(lia) ltac:(change (2 ^ 63) with 9223372036854775808; lia) ltac:(lia)) as Hl.
        change (Z.shiftl 1 63) with 9223372036854775808 in Hl.
        change (1 * 2 ^ 63) with 9223372036854775808 in Hl. rewrite Hl.
        rewrite (proj2 (Z.ltb_ge _ _)) by lia.
        split; [lia|]. split; [rewrite Z.add_simpl_r; lia|].
        split; [rewrite <- (Z.mul_1_l 9223372036854775808) at 1;
                rewrite Z.mod_add, Z.mod_small by lia; done|].
        rewrite Z.even_add. change (Z.even 9223372036854775808) with true.
        by destruct (Z.even m). }
  destruct Hb as (Hb64 & Hub & Hbm & Hbe). clear Hdef.
  assert (Hum : 0 <= unit_magnitude m) by (apply unit_magnitude_bound; lia).
  assert (Hdist : Z.abs (sg * N - n * unit_value b) = Z.abs (N - n * unit_magnitude m)).
  { rewrite Hub. destruct Hsg as [-> | ->]; lia. }
  split.
  - split; [done|]. rewrite Hbm. split.
    + destruct (Hbest (1023 * 2 ^ 52)) as [H1 _]; [lia|].
      assert (Hone : unit_magnitude (1023 * 2 ^ 52) = 2 ^ 1074).
      { destruct (pattern_normal 1023 0) as (_ & H & _); [lia|lia|].
        rewrite Z.add_0_r, Z.add_0_r in H. rewrite H, <- Z.pow_add_r by lia. done. }
      rewrite Hone in H1. set (U := 2 ^ 1074) in *.
      assert (unit_magnitude m <= U) by nia. rewrite Hub. destruct Hsg as [-> | ->]; lia.
    + apply Z.div_lt_upper_bound; lia.
  - intros b' [Hb' He']. rewrite Hdist, Hbe.
    destruct (magnitude_parts b' Hb') as (Hv' & _ & _).
    set (m' := b' mod 2 ^ 63) in *.
    assert (Hm' : 0 <= m' < 2047 * 2 ^ 52).
    { split; [apply Z.mod_pos_bound; lia|].
      pose proof (Z.div_mod m' (2 ^ 52) ltac:(lia)).
      pose proof (Z.mod_pos_bound m' (2 ^ 52) ltac:(lia)). lia. }
    pose proof (unit_magnitude_bound m' ltac:(lia)) as Hum'.
    destruct (Z.eq_dec (sg * unit_value b') (unit_magnitude m')) as [Es|Es].
    + destruct (Hbest m' Hm') as [H1 H2].
      assert (Z.abs (sg * N - n * unit_value b') = Z.abs (N - n * unit_magnitude m')) as ->.
      { rewrite <- Es. destruct Hsg as [-> | ->]; lia. }
      split; [done|]. intros Ht Hne. apply H2; [done|]. intros E. apply Hne.
      rewrite Hub. destruct Hsg as [-> | ->]; lia.
    + destruct (Hbest 0) as [H1 _]; [lia|].
      change (unit_magnitude 0) with 0 in H1.
      assert (sg * unit_value b' = - unit_magnitude m' /\ 0 < unit_magnitude m') as [Es' Hpos].
      { rewrite Hv' in *. destruct (b' <? 2 ^ 63); destruct Hsg as [-> | ->]; lia. }
      assert (Z.abs (sg * N - n * unit_value b') = N + n * unit_magnitude m').
      { assert (0 < n * unit_magnitude m') by lia.
        replace (N + n * unit_magnitude m') with (N - n * (sg * unit_value b')) by lia.
        destruct Hsg as [-> | ->]; lia. }
      assert (0 < n * unit_magnitude m') by lia. split; lia.
Qed.

Lemma minimum_normal_made n : 0 < n <= UINT64_MAX ->
  exists t, big_multiply_shift n 1 52 = Some t /\ limbs 36 t /\ big_value t = n * 2 ^ 52.
Proof.
  intros Hn. pose proof (big_multiply_shift_value n 1 52 ltac:(lia) ltac:(lia) ltac:(lia)) as H.
  destruct (big_multiply_shift n 1 52) as [t|].
  - exists t. destruct H as [Hl Hv]. split; [done|]. split; [done|]. lia.
  - exfalso. pose proof (term_fits 1 n 52 ltac:(lia) ltac:(lia) ltac:(lia)). lia.
Qed.

(** The binade of [N / n]: the code's estimate from the top bits, corrected by
    one comparison. *)
Lemma binade N n h :
  0 < n -> n * 2 ^ 52 <= N ->
  h = Z.log2 N - Z.log2 n ->
  let h' := if N <? n * 2 ^ h then h - 1 else h in
  52 <= h' /\ 0 <= h /\ n * 2 ^ h' <= N < n * 2 ^ (h' + 1).
Proof.
  intros Hn HN Hh. cbv zeta.
  pose proof (Z.log2_spec n Hn) as [Hn1 Hn2].
  destruct (Z.log2_spec N ltac:(lia)) as [HN1 HN2].
  pose proof (Z.log2_nonneg n) as Hn0. pose proof (Z.log2_nonneg N) as HN0.
  assert (Hlog : Z.log2 n + 52 <= Z.log2 N).
  { apply Z.log2_le_pow2; [lia|]. rewrite Z.pow_add_r by lia. nia. }
  assert (EN : 2 ^ Z.log2 N = 2 ^ Z.log2 n * 2 ^ h) by (rewrite <- Z.pow_add_r by lia; f_equal; lia).
  rewrite !Z.pow_succ_r in * by lia. set (P := 2 ^ h) in *.
  assert (HP : 0 < P) by (apply Z.pow_pos_nonneg; lia).
  set (Q := 2 ^ Z.log2 n) in *.
  assert (Hup : N < n * (2 * P)) by nia.
  destruct (Z.ltb_spec N (n * P)) as [Hlt|Hge].
  - assert (h <> 52).
    { intros E. subst P. rewrite E in Hlt. lia. }
    assert (EP : P = 2 * 2 ^ (h - 1)) by (rewrite <- Z.pow_succ_r by lia; subst P; f_equal; lia).
    split; [lia|]. split; [lia|]. rewrite Z.sub_add. fold P.
    split; [|done]. nia.
  - split; [lia|]. split; [lia|]. rewrite Z.add_1_r, Z.pow_succ_r by lia. fold P. lia.
Qed.

Lemma unit_range_fits N n D :
  0 < n <= UINT64_MAX -> 0 < N <= n * 2 ^ 1074 -> D <= Z.max N (n * 2 ^ 52) ->
  2 * N + D < base_power 36.
Proof.
  intros Hn HN HD. rewrite base_power_two. change (32 * Z.of_nat 36) with (64 + (1074 + 14)).
  rewrite !Z.pow_add_r by lia. change (2 ^ 64) with 18446744073709551616.
  change (2 ^ 14) with 16384. assert (2 ^ 52 <= 2 ^ 1074) by (apply Z.pow_le_mono_r; lia).
  set (U := 2 ^ 1074) in *. clearbody U. nia.
Qed.

(** The pattern the code assembles for a normal result. *)
Lemma normal_pattern h s :
  52 <= h <= 1074 -> 2 ^ 52 <= s <= 2 ^ 53 ->
  exists m,
    (let '(significand, ratio_high_bit) :=
       if s =? 0x0020000000000000 then (0x0010000000000000, h + 1) else (s, h) in
     Some (Z.lor (u64 (Z.shiftl (u64 (ratio_high_bit - 51)) 52))
                 (u64 (significand - 0x0010000000000000)))) = Some m /\
    0 < m < 2047 * 2 ^ 52 /\ unit_magnitude m = s * 2 ^ (h - 52) /\ Z.even m = Z.even s.
Proof.
  intros Hh Hs. change (2 ^ 53) with 9007199254740992 in Hs.
  assert (Hgen : forall e f, 0 < e <= 1100 -> 0 <= f < 2 ^ 52 ->
    Z.lor (u64 (Z.shiftl (u64 e) 52)) (u64 f) = e * 2 ^ 52 + f).
  { intros e f He Hf. change (2 ^ 52) with 4503599627370496 in *.
    rewrite (u64_small e), (u64_small f), Z.shiftl_mul_pow2 by lia.
    change (2 ^ 52) with 4503599627370496. rewrite u64_small by lia.
    rewrite Z.lor_comm. pose proof (lor_shiftl_add f 52 e) as Hl.
    rewrite Z.shiftl_mul_pow2 in Hl by lia. change (2 ^ 52) with 4503599627370496 in Hl.
    rewrite Hl by lia. lia. }
  destruct (Z.eqb_spec s 9007199254740992) as [->|Hne].
  - rewrite Hgen by (change (2 ^ 52) with 4503599627370496; lia). eexists. split; [reflexivity|].
    destruct (pattern_normal (h + 1 - 51) 0) as (_ & Hu & He); [lia|lia|].
    change (4503599627370496 - 4503599627370496) with 0. split; [lia|]. split.
    + rewrite Hu, Z.add_0_r. change 9007199254740992 with (2 ^ 53).
      rewrite <- !Z.pow_add_r by lia. f_equal. lia.
    + by rewrite He.
  - change (2 ^ 52) with 4503599627370496 in Hs.
    rewrite Hgen by (change (2 ^ 52) with 4503599627370496; lia). eexists. split; [reflexivity|].
    destruct (pattern_normal (h - 51) (s - 4503599627370496)) as (_ & Hu & He);
      [lia|change (2 ^ 52) with 4503599627370496; lia|].
    split; [lia|]. split.
    + rewrite Hu. f_equal; [change (2 ^ 52) with 4503599627370496; lia|f_equal; lia].
    + rewrite He, Z.even_sub. change (Z.even 4503599627370496) with true.
      by destruct (Z.even s).
Qed.


Lemma subnormal_bits_rounded num n :
  limbs 36 num -> 0 < n <= UINT64_MAX -> 0 < big_value num < n * 2 ^ 52 ->
  big_value num <= n * 2 ^ 1074 -> magnitude_rounded (big_value num) n (subnormal_bits num n).
Proof.
  intros Hm Hn [HN Hlt] HNU. set (N := big_value num) in *.
  destruct (rounded_quotient_nearest num n 0 0 (2 ^ 52)) as (Hr & Hr1 & Hr2);
    [done|lia|lia|lia|lia|fold N; change (2 ^ 0) with 1; lia
    |fold N; apply (unit_range_fits N n); lia|].
  fold N in Hr, Hr2. change (2 ^ 0) with 1 in *. rewrite Z.mul_1_r in *.
  unfold subnormal_bits. change 4503599627370496 with (2 ^ 52) in *. cbv zeta.
  set (r := rounded_quotient num n 0 0 (2 ^ 52)) in *.
  assert (Hres : (if r =? 0 then 0 else if r =? 2 ^ 52 then 2 ^ 52 else r) = r).
  { destruct (Z.eqb_spec r 0) as [->|]; [done|].
    by destruct (Z.eqb_spec r (2 ^ 52)) as [->|]. }
  rewrite Hres. apply subnormal_rounded; [lia|done|]. lia.
Qed.

Lemma normal_bits_rounded num n :
  limbs 36 num -> 0 < n <= UINT64_MAX -> n * 2 ^ 52 <= big_value num <= n * 2 ^ 1074 ->
  exists m, normal_bits num n = Some m /\ magnitude_rounded (big_value num) n m.
Proof.
  intros Hm Hn [Hge HNU]. pose proof (big_value_bound _ _ Hm) as Hbound.
  unfold normal_bits. rewrite (big_high_bit_value 36), uint64_high_bit_log2 by (done || lia).
  set (N := big_value num) in *.
  pose proof (binade N n _ ltac:(lia) Hge eq_refl) as Hbin. cbv zeta in Hbin.
  set (h := Z.log2 N - Z.log2 n) in *. destruct Hbin as (H52 & Hh & Hlo & Hhi).
  assert (HN1152 : Z.log2 N < 1152).
  { apply Z.log2_lt_pow2; [lia|]. rewrite base_power_two in Hbound. apply Hbound. }
  pose proof (Z.log2_nonneg n). rewrite (u32_small h) by lia. cbv zeta.
  set (h' := if N <? n * 2 ^ h then h - 1 else h) in *.
  pose proof (unit_range_fits N n N ltac:(lia) ltac:(lia) ltac:(lia)) as Hfit.
  assert (Hh1074 : h' <= 1074).
  { apply (Z.pow_le_mono_r_iff 2); [lia|lia|]. nia. }
  pose proof (big_multiply_shift_value n 1 h ltac:(lia) ltac:(lia) Hh) as Hthr.
  rewrite Z.mul_1_r in Hthr. destruct (big_multiply_shift n 1 h) as [threshold|].
  2:{ exfalso. subst h'. destruct (Z.ltb_spec N (n * 2 ^ h)); [|lia].
      assert (2 ^ h = 2 * 2 ^ (h - 1)) by (rewrite <- Z.pow_succ_r by lia; f_equal; lia). lia. }
  destruct Hthr as [Htl Htv]. rewrite (big_compare_value _ 36), Htv by done. fold N.
  assert (Hcmp : match N ?= n * 2 ^ h with Lt => h - 1 | _ => h end = h').
  { subst h'. unfold Z.ltb. by destruct (N ?= n * 2 ^ h). }
  rewrite Hcmp. rewrite (u32_small (h' - 52)) by lia.
  assert (HD : n * 2 ^ h' = 2 ^ 52 * (n * 2 ^ (h' - 52))).
  { replace h' with (52 + (h' - 52)) at 1 by lia. rewrite Z.pow_add_r by lia. lia. }
  assert (HD' : n * 2 ^ (h' + 1) = 2 ^ 53 * (n * 2 ^ (h' - 52))).
  { replace (h' + 1) with (53 + (h' - 52)) by lia. rewrite Z.pow_add_r by lia. lia. }
  assert (HDp : 0 < n * 2 ^ (h' - 52)).
  { apply Z.mul_pos_pos; [lia|]. apply Z.pow_pos_nonneg; lia. }
  rewrite HD in Hlo. rewrite HD' in Hhi.
  destruct (rounded_quotient_nearest num n (h' - 52) (2 ^ 52) (2 ^ 53 - 1)) as (Hr & Hr1 & _);
    [done|lia|lia|lia|lia|fold N; lia|fold N; lia|]. fold N in Hr.
  change 4503599627370496 with (2 ^ 52). change 9007199254740991 with (2 ^ 53 - 1).
  set (r := rounded_quotient num n (h' - 52) (2 ^ 52) (2 ^ 53 - 1)) in *.
  destruct (normal_pattern h' r) as (m & Hm' & Hmr & Hu & He); [lia|lia|].
  exists m. split.
  - rewrite <- Hm'. change 9007199254740992 with (2 ^ 53). by destruct (r =? 2 ^ 53).
  - apply (normal_rounded N n (h' - 52) r m); [lia|lia|done|lia|lia|done|done].
Qed.

(** The mean of one component is correctly rounded. *)
Lemma exact_component_mean_rounded c n :
  component_wf c -> 0 < n <= UINT64_MAX -> sum_bounded n c ->
  correctly_rounded (component_value c) n (exact_component_mean c n).
Proof.
  intros [Hm Hs Hc] Hn Hb. unfold sum_bounded, component_value in *.
  pose proof (big_value_bound _ _ Hm) as HN0. unfold exact_component_mean.
  destruct (Z.eqb_spec (sign c) 0) as [E|E].
  { rewrite E. split; [by vm_compute|]. intros b' _. change (unit_value 0) with 0. split; [lia|].
    intros Ht Hne. exfalso. assert (n * unit_value b' <> 0) by nia. lia. }
  assert (HN : 0 < big_value (magnitude c)) by lia.
  assert (HNU : big_value (magnitude c) <= n * 2 ^ 1074).
  { set (U := n * 2 ^ 1074) in *. clearbody U.
    assert (sign c = 1 \/ sign c = -1) as [Es|Es] by lia; rewrite Es in Hb; lia. }
  destruct (minimum_normal_made n Hn) as (low & -> & Hlow & Hlv). cbv zeta.
  rewrite (big_compare_value _ 36), Hlv by done.
  assert (Hbits : exists m, match big_value (magnitude c) ?= n * 2 ^ 52 with
                            | Lt => Some (subnormal_bits (magnitude c) n)
                            | _ => normal_bits (magnitude c) n
                            end = Some m /\ magnitude_rounded (big_value (magnitude c)) n m).
  { destruct (Z.compare_spec (big_value (magnitude c)) (n * 2 ^ 52)).
    - apply normal_bits_rounded; [done|lia|lia].
    - eexists. split; [done|]. apply subnormal_bits_rounded; [done|lia|lia|lia].
    - apply normal_bits_rounded; [done|lia|lia]. }
  destruct Hbits as (m & -> & Hr). apply (signed_rounded _ _ n m); [done|lia|lia|lia|done].
Qed.

(** C9: the centroid is correctly rounded.  Finishing an accumulator that holds
    the exact sums of some points fails only when there are none; otherwise
    each coordinate of the centroid is a double of the cube [-1, 1] to which no
    finite double, subnormal or of another binade, is closer to the exact mean,
    with ties to even; the summary carries the exact count and the radius of
    that centroid, which is not normalized onto the sphere. *)
Theorem centroid_correctly_rounded a pts out :
  represents a pts ->
  let '(status, summary) := laplace_geometry_accumulator_finish (Some a) (Some out) in
  (status = LAPLACE_GEOMETRY_OK <-> 0 < sum_of snd pts) /\
  (status <> LAPLACE_GEOMETRY_OK -> status = LAPLACE_GEOMETRY_EMPTY /\ summary = Some out) /\
  (status = LAPLACE_GEOMETRY_OK -> exists means,
     summary = Some (mk_summary (mk_point means) (centroid_radius means) (sum_of snd pts)) /\
     Forall2 (fun total b => correctly_rounded total (sum_of snd pts) b) (totals pts) means).
Proof.
  intros ([Hlen Hwf Hc Hb] & Hcount & Hsums). unfold laplace_geometry_accumulator_finish.
  rewrite <- Hcount. destruct (Z.eqb_spec (logical_count a) 0) as [E|E].
  { split; [|done]. split; [done|]. lia. }
  assert (Hmeans : forall ss, Forall component_wf ss -> Forall (sum_bounded (logical_count a)) ss ->
    exists means, component_means ss (logical_count a) = Some means /\
      Forall2 (fun total b => correctly_rounded total (logical_count a) b)
        (map component_value ss) means).
  { induction ss as [|s ss IH]; intros Hw Hbd; [by exists []|].
    apply Forall_cons in Hw as [Hs Hw], Hbd as [Hbs Hbd].
    destruct (IH Hw Hbd) as (means & Hm & Hr). cbn [component_means].
    rewrite sums_valid, Hm by done. eexists. split; [done|]. constructor; [|done].
    apply exact_component_mean_rounded; [done|lia|done]. }
  destruct (Hmeans (sum a) Hwf Hb) as (means & -> & Hr).
  split; [split; [lia|done]|]. split; [done|]. intros _. exists means. split; [done|].
  unfold sums_of in Hsums. by rewrite <- Hsums.
Qed.

(** ** Two weighted points *)
Abbreviation double_one := 0x3ff0000000000000 (only parsing).
Abbreviation double_half := 0x3fe0000000000000 (only parsing).
Abbreviation double_minus_one := 0xbff0000000000000 (only parsing).

Definition sample_point : laplace_point4d :=
  mk_point [double_one; double_half; 0; double_minus_one].
Definition sample_other : laplace_point4d :=
  mk_point [double_half; double_half; 1; double_half].
Definition sample_points : list weighted := [(sample_point, 1); (sample_other, 2)].

Lemma sample_coordinate v : is_u64 v -> (v mod 2 ^ 63) / 2 ^ 52 < 1023 \/
  ((v mod 2 ^ 63) / 2 ^ 52 = 1023 /\ v mod 2 ^ 52 = 0) -> in_cube v.
Proof. intros Hv H. by apply in_cube_exponent. Qed.

Lemma sample_accumulable : accumulable sample_points.
Proof.
  split; [|vm_compute; discriminate].
  repeat (apply Forall_cons; split);
    [split; [split; [done|]; repeat (apply Forall_cons; split); [lia..|by apply Forall_nil]
            |split; [|simpl; lia]]..|by apply Forall_nil];
    repeat (apply Forall_cons; split); try (by apply Forall_nil);
    (apply sample_coordinate; [lia|]); vm_compute; auto.
Qed.

Lemma empty_accumulator_wf : accumulator_wf empty_accumulator.
Proof. apply represents_empty. Qed.

Lemma accumulator_add_exact_witness :
  (laplace_geometry_accumulator_add (Some empty_accumulator) (Some sample_point) 3).1 =
  LAPLACE_GEOMETRY_OK.
Proof.
  destruct sample_accumulable as [H _]. apply Forall_cons in H as [(Hp & Hin & _) _].
  pose proof (accumulator_add_exact empty_accumulator sample_point 3 empty_accumulator_wf Hp
    ltac:(lia)) as Hadd.
  destruct (laplace_geometry_accumulator_add _ _ _) as [st a']. destruct Hadd as [Hok _].
  apply Hok. split; [reflexivity|]. split; [vm_compute; discriminate | exact Hin].
Defined.

Lemma accumulation_order_independent_witness :
  exists a b c,
    accumulate empty_accumulator [(sample_other, 2)] = (LAPLACE_GEOMETRY_OK, a) /\
    accumulate empty_accumulator [(sample_point, 1)] = (LAPLACE_GEOMETRY_OK, b) /\
    laplace_geometry_accumulator_merge (Some a) (Some b) = (LAPLACE_GEOMETRY_OK, Some c) /\
    accumulate empty_accumulator sample_points = (LAPLACE_GEOMETRY_OK, c).
Proof.
  destruct (accumulation_order_independent sample_points [(sample_other, 2)]
    [(sample_point, 1)]) as (a & b & c & Ha & Hb & Hc & Hd & _).
  - apply Permutation_swap.
  - exact sample_accumulable.
  - exists a, b, c. split; [exact Ha|]. split; [exact Hb|]. split; [exact Hc|exact Hd].
Defined.

Lemma centroid_correctly_rounded_witness :
  exists a, accumulate empty_accumulator sample_points = (LAPLACE_GEOMETRY_OK, a) /\
    (laplace_geometry_accumulator_finish (Some a)
       (Some (mk_summary (mk_point []) 0 0))).1 = LAPLACE_GEOMETRY_OK.
Proof.
  destruct (accumulate_represents sample_points empty_accumulator [] represents_empty
    sample_accumulable) as (a & Ha & Hr).
  exists a. split; [exact Ha|].
  pose proof (centroid_correctly_rounded a _ (mk_summary (mk_point []) 0 0) Hr) as H.
  destruct (laplace_geometry_accumulator_finish _ _) as [st s]. destruct H as [H _].
  apply H. reflexivity.
Defined.
