(* ===== verification/Perfcache.v ===== *)
(** * Perfcache artifacts: layout, validation and lookup

    Models [engine/src/perfcache.c] and [engine/include/laplace/perfcache.h]:
    the 352-byte header and its digest, the measuring, sealing and writing of an
    artifact, its validation into a view, the projection of its digest onto a
    reference epoch, and the lookup of keys.  A byte pointer is the list of
    bytes from it to the end of its buffer.  The binary search runs with one
    unit of fuel per record, which [lower_bound_spec] proves sufficient. *)
From stdpp Require Import prelude strings sorting.
From Stdlib Require Import ZArith Lia.
From S2P Require Import Prelude Bytes Layout Sorting Hash Identity.

(** ** Contract constants ([contracts/perfcache.json]) *)
Abbreviation LAPLACE_PERFCACHE_FORMAT_VERSION := 3 (only parsing).
Abbreviation LAPLACE_PERFCACHE_HEADER_BYTES := 352 (only parsing).
Abbreviation LAPLACE_PERFCACHE_DIGEST_BYTES := 32 (only parsing).
Abbreviation LAPLACE_PERFCACHE_ACCESS_SORTED_UNIQUE_FIXED := 1 (only parsing).
Abbreviation LAPLACE_PERFCACHE_ACCESS_DENSE_U32_ZERO_BASED := 2 (only parsing).
Abbreviation LAPLACE_PERFCACHE_ACCESS_MODULE_DEFINED := 3 (only parsing).

(** ** Header offsets *)
Abbreviation OFFSET_VERSION := 8 (only parsing).
Abbreviation OFFSET_HEADER_BYTES := 12 (only parsing).
Abbreviation OFFSET_FLAGS := 16 (only parsing).
Abbreviation OFFSET_MODULE_ID := 24 (only parsing).
Abbreviation OFFSET_KEY_SCHEMA_ID := 40 (only parsing).
Abbreviation OFFSET_VALUE_SCHEMA_ID := 56 (only parsing).
Abbreviation OFFSET_ACTIVATION_EPOCH_ID := 72 (only parsing).
Abbreviation OFFSET_ACTIVATION_EPOCH_FINGERPRINT := 88 (only parsing).
Abbreviation OFFSET_MODULE_CONTRACT_FINGERPRINT := 120 (only parsing).
Abbreviation OFFSET_SOURCE_FINGERPRINT := 152 (only parsing).
Abbreviation OFFSET_RECIPE_FINGERPRINT := 184 (only parsing).
Abbreviation OFFSET_DEPENDENCY_FINGERPRINT := 216 (only parsing).
Abbreviation OFFSET_RECORD_COUNT := 248 (only parsing).
Abbreviation OFFSET_KEY_BYTES := 256 (only parsing).
Abbreviation OFFSET_VALUE_BYTES := 260 (only parsing).
Abbreviation OFFSET_RECORD_STRIDE := 264 (only parsing).
Abbreviation OFFSET_ACCESS_LAW := 268 (only parsing).
Abbreviation OFFSET_RECORDS := 272 (only parsing).
Abbreviation OFFSET_RECORDS_BYTES := 280 (only parsing).
Abbreviation OFFSET_METADATA := 288 (only parsing).
Abbreviation OFFSET_METADATA_BYTES := 296 (only parsing).
Abbreviation OFFSET_DIGEST := 304 (only parsing).
Abbreviation OFFSET_RESERVED := 312 (only parsing).

(** ["LAPCACHE"]. *)
Definition laplace_perfcache_magic : list Z := domain_bytes "LAPCACHE".

(** ** Data *)
Record laplace_perfcache_contract := mk_contract {
  module_id : laplace_id128;
  key_schema_id : laplace_id128;
  value_schema_id : laplace_id128;
  activation_epoch_id : laplace_id128;
  activation_epoch_fingerprint : laplace_digest256;
  module_contract_fingerprint : laplace_digest256;
  source_fingerprint : laplace_digest256;
  recipe_fingerprint : laplace_digest256;
  dependency_fingerprint : laplace_digest256;
  key_bytes : Z;
  value_bytes : Z;
  access_law : Z;
  flags : Z }.

Record laplace_perfcache_spec := mk_spec {
  spec_contract : laplace_perfcache_contract;
  spec_records : ptr (list Z);
  spec_record_count : Z;
  spec_metadata : ptr (list Z);
  spec_metadata_bytes : Z }.

Record laplace_perfcache_view := mk_view {
  contract : laplace_perfcache_contract;
  artifact : list Z;
  artifact_bytes : Z;
  records : list Z;
  record_count : Z;
  record_stride : Z;
  metadata : list Z;
  metadata_bytes : Z;
  artifact_digest : laplace_digest256 }.

Inductive laplace_perfcache_status :=
| LAPLACE_PERFCACHE_OK
| LAPLACE_PERFCACHE_INVALID_ARGUMENT
| LAPLACE_PERFCACHE_SIZE_OVERFLOW
| LAPLACE_PERFCACHE_BUFFER_TOO_SMALL
| LAPLACE_PERFCACHE_BAD_MAGIC
| LAPLACE_PERFCACHE_UNSUPPORTED_VERSION
| LAPLACE_PERFCACHE_HEADER_INVALID
| LAPLACE_PERFCACHE_SECTION_INVALID
| LAPLACE_PERFCACHE_DIGEST_MISMATCH
| LAPLACE_PERFCACHE_CONTRACT_MISMATCH
| LAPLACE_PERFCACHE_KEYS_NOT_SORTED_UNIQUE
| LAPLACE_PERFCACHE_KEY_NOT_FOUND
| LAPLACE_PERFCACHE_SEMANTIC_MISMATCH
| LAPLACE_PERFCACHE_FILE_OPEN_FAILED
| LAPLACE_PERFCACHE_FILE_IO_FAILED
| LAPLACE_PERFCACHE_FILE_TYPE_INVALID
| LAPLACE_PERFCACHE_FILE_MAPPING_FAILED
| LAPLACE_PERFCACHE_FILE_SYNC_FAILED
| LAPLACE_PERFCACHE_FILE_RENAME_FAILED
| LAPLACE_PERFCACHE_DENSE_KEY_MISMATCH
| LAPLACE_PERFCACHE_LOOKUP_UNSUPPORTED
| LAPLACE_PERFCACHE_ARTIFACT_CONFLICT.

#[export] Instance perfcache_status_eq_dec : EqDecision laplace_perfcache_status.
Proof. solve_decision. Defined.

(** ** Little-endian fields *)
Definition write_u32_le (destination : list Z) (offset value : Z) : list Z :=
  put offset (store_le 4 value) destination.
Definition write_u64_le (destination : list Z) (offset value : Z) : list Z :=
  put offset (store_le 8 value) destination.
Definition read_u32_le (source : list Z) (offset : Z) : Z := load_le (slice offset 4 source).
Definition read_u64_le (source : list Z) (offset : Z) : Z := load_le (slice offset 8 source).

(** ** Contracts *)
Definition contract_valid (c : laplace_perfcache_contract) : bool :=
  let stride := key_bytes c + value_bytes c in
  return_when (value_bytes c =? 0) || (stride =? 0) || (UINT32_MAX <? stride) ||
              negb (flags c =? 0)
    with false ;;
  return_when
    ((access_law c =? LAPLACE_PERFCACHE_ACCESS_SORTED_UNIQUE_FIXED) && (key_bytes c =? 0)) ||
    ((access_law c =? LAPLACE_PERFCACHE_ACCESS_DENSE_U32_ZERO_BASED) &&
     negb (key_bytes c =? 4)) ||
    (negb (access_law c =? LAPLACE_PERFCACHE_ACCESS_SORTED_UNIQUE_FIXED) &&
     negb (access_law c =? LAPLACE_PERFCACHE_ACCESS_DENSE_U32_ZERO_BASED) &&
     negb (access_law c =? LAPLACE_PERFCACHE_ACCESS_MODULE_DEFINED))
    with false ;;
  true.

Definition contract_equal (l r : laplace_perfcache_contract) : bool :=
  bytes_equal (module_id l) (module_id r) &&
  bytes_equal (key_schema_id l) (key_schema_id r) &&
  bytes_equal (value_schema_id l) (value_schema_id r) &&
  bytes_equal (activation_epoch_id l) (activation_epoch_id r) &&
  bytes_equal (activation_epoch_fingerprint l) (activation_epoch_fingerprint r) &&
  bytes_equal (module_contract_fingerprint l) (module_contract_fingerprint r) &&
  bytes_equal (source_fingerprint l) (source_fingerprint r) &&
  bytes_equal (recipe_fingerprint l) (recipe_fingerprint r) &&
  bytes_equal (dependency_fingerprint l) (dependency_fingerprint r) &&
  (key_bytes l =? key_bytes r) && (value_bytes l =? value_bytes r) &&
  (access_law l =? access_law r) && (flags l =? flags r).

(** ** Access laws *)
(** The first [bytes] bytes of record [index]. *)
Definition record_key (records : list Z) (stride bytes index : Z) : list Z :=
  slice (index * stride) bytes records.

Definition records_sorted_unique (records : list Z) (count key_bytes stride : Z) : bool :=
  forallb (fun index =>
    match memcmp (record_key records stride key_bytes (Z.of_nat index - 1))
                 (record_key records stride key_bytes (Z.of_nat index)) with
    | Lt => true
    | _ => false
    end) (seq 1 (Z.to_nat count - 1)).

Definition dense_u32_zero_based_keys (records : list Z) (count stride : Z) : bool :=
  return_when UINT32_MAX + 1 <? count with false ;;
  forallb (fun index => read_u32_le records (Z.of_nat index * stride) =? u32 (Z.of_nat index))
    (seq 0 (Z.to_nat count)).

Definition records_access_law_valid (records : list Z) (count : Z)
    (c : laplace_perfcache_contract) (stride : Z) : laplace_perfcache_status :=
  return_when count =? 0 with LAPLACE_PERFCACHE_OK ;;
  if access_law c =? LAPLACE_PERFCACHE_ACCESS_SORTED_UNIQUE_FIXED then
    if records_sorted_unique records count (key_bytes c) stride
    then LAPLACE_PERFCACHE_OK else LAPLACE_PERFCACHE_KEYS_NOT_SORTED_UNIQUE
  else if access_law c =? LAPLACE_PERFCACHE_ACCESS_DENSE_U32_ZERO_BASED then
    if dense_u32_zero_based_keys records count stride
    then LAPLACE_PERFCACHE_OK else LAPLACE_PERFCACHE_DENSE_KEY_MISMATCH
  else if access_law c =? LAPLACE_PERFCACHE_ACCESS_MODULE_DEFINED then LAPLACE_PERFCACHE_OK
  else LAPLACE_PERFCACHE_INVALID_ARGUMENT.

(** ** Measuring *)
(** The stride, the bytes of all records and the size of the artifact. *)
Definition measure_layout_internal (contract : ptr laplace_perfcache_contract)
    (record_count metadata_bytes : Z) : laplace_perfcache_status + Z * Z * Z :=
  match contract with
  | None => inl LAPLACE_PERFCACHE_INVALID_ARGUMENT
  | Some c =>
      return_when negb (contract_valid c) with inl LAPLACE_PERFCACHE_INVALID_ARGUMENT ;;
      let stride := key_bytes c + value_bytes c in
      return_when UINT64_MAX / stride <? record_count
        with inl LAPLACE_PERFCACHE_SIZE_OVERFLOW ;;
      let records_bytes := u64 (record_count * stride) in
      let size := LAPLACE_PERFCACHE_HEADER_BYTES in
      return_when UINT64_MAX - size <? records_bytes with inl LAPLACE_PERFCACHE_SIZE_OVERFLOW ;;
      let size := size + records_bytes in
      return_when UINT64_MAX - size <? metadata_bytes with inl LAPLACE_PERFCACHE_SIZE_OVERFLOW ;;
      let size := size + metadata_bytes in
      return_when UINT64_MAX - size <? LAPLACE_PERFCACHE_DIGEST_BYTES
        with inl LAPLACE_PERFCACHE_SIZE_OVERFLOW ;;
      let size := size + LAPLACE_PERFCACHE_DIGEST_BYTES in
      return_when SIZE_MAX <? size with inl LAPLACE_PERFCACHE_SIZE_OVERFLOW ;;
      inr (stride, records_bytes, size)
  end.

Definition measure_internal (spec : ptr laplace_perfcache_spec)
    : laplace_perfcache_status + Z * Z * Z :=
  match spec with
  | None => inl LAPLACE_PERFCACHE_INVALID_ARGUMENT
  | Some s =>
      return_when
        (negb (spec_record_count s =? 0) && is_null (spec_records s)) ||
        (negb (spec_metadata_bytes s =? 0) && is_null (spec_metadata s))
        with inl LAPLACE_PERFCACHE_INVALID_ARGUMENT ;;
      measure_layout_internal (Some (spec_contract s)) (spec_record_count s)
        (spec_metadata_bytes s)
  end.

(** What a measuring routine reports and stores. *)
Definition report_measure (artifact_bytes : ptr Z) (result : laplace_perfcache_status + Z * Z * Z)
    : laplace_perfcache_status * ptr Z :=
  return_when is_null artifact_bytes with (LAPLACE_PERFCACHE_INVALID_ARGUMENT, artifact_bytes) ;;
  match result with
  | inl failed => (failed, artifact_bytes)
  | inr (_, _, measured) => (LAPLACE_PERFCACHE_OK, store artifact_bytes measured)
  end.

Definition laplace_perfcache_measure (spec : ptr laplace_perfcache_spec) (artifact_bytes : ptr Z)
    : laplace_perfcache_status * ptr Z :=
  report_measure artifact_bytes (measure_internal spec).

Definition laplace_perfcache_layout_measure (contract : ptr laplace_perfcache_contract)
    (record_count metadata_bytes : Z) (artifact_bytes : ptr Z)
    : laplace_perfcache_status * ptr Z :=
  report_measure artifact_bytes (measure_layout_internal contract record_count metadata_bytes).

Section Artifacts.
Context {B : Blake3}.

(** ** Sealing and writing *)
(** The header fields, in the order in which they are written over the
    cleared header. *)
Definition header_writes (c : laplace_perfcache_contract)
    (count stride records_bytes metadata_bytes metadata_offset digest_offset : Z)
    : list (Z * list Z) :=
  [(0, laplace_perfcache_magic);
   (OFFSET_VERSION, store_le 4 LAPLACE_PERFCACHE_FORMAT_VERSION);
   (OFFSET_HEADER_BYTES, store_le 4 LAPLACE_PERFCACHE_HEADER_BYTES);
   (OFFSET_FLAGS, store_le 8 (flags c));
   (OFFSET_MODULE_ID, module_id c);
   (OFFSET_KEY_SCHEMA_ID, key_schema_id c);
   (OFFSET_VALUE_SCHEMA_ID, value_schema_id c);
   (OFFSET_ACTIVATION_EPOCH_ID, activation_epoch_id c);
   (OFFSET_ACTIVATION_EPOCH_FINGERPRINT, activation_epoch_fingerprint c);
   (OFFSET_MODULE_CONTRACT_FINGERPRINT, module_contract_fingerprint c);
   (OFFSET_SOURCE_FINGERPRINT, source_fingerprint c);
   (OFFSET_RECIPE_FINGERPRINT, recipe_fingerprint c);
   (OFFSET_DEPENDENCY_FINGERPRINT, dependency_fingerprint c);
   (OFFSET_RECORD_COUNT, store_le 8 count);
   (OFFSET_KEY_BYTES, store_le 4 (key_bytes c));
   (OFFSET_VALUE_BYTES, store_le 4 (value_bytes c));
   (OFFSET_RECORD_STRIDE, store_le 4 (u32 stride));
   (OFFSET_ACCESS_LAW, store_le 4 (access_law c));
   (OFFSET_RECORDS, store_le 8 LAPLACE_PERFCACHE_HEADER_BYTES);
   (OFFSET_RECORDS_BYTES, store_le 8 records_bytes);
   (OFFSET_METADATA, store_le 8 metadata_offset);
   (OFFSET_METADATA_BYTES, store_le 8 metadata_bytes);
   (OFFSET_DIGEST, store_le 8 digest_offset)].

(** [memset(artifact, 0, ...)] and the writes of the header. *)
Definition write_header (c : laplace_perfcache_contract)
    (count stride records_bytes metadata_bytes metadata_offset digest_offset : Z)
    (artifact : list Z) : list Z :=
  foldl (fun a w => put w.1 w.2 a)
    (put 0 (zeros (Z.to_nat LAPLACE_PERFCACHE_HEADER_BYTES)) artifact)
    (header_writes c count stride records_bytes metadata_bytes metadata_offset digest_offset).

Definition laplace_perfcache_layout_seal (contract : ptr laplace_perfcache_contract)
    (record_count metadata_bytes : Z) (artifact : ptr (list Z)) (artifact_capacity : Z)
    (artifact_bytes : ptr Z) (artifact_digest : ptr laplace_digest256)
    : laplace_perfcache_status * ptr (list Z) * ptr Z * ptr laplace_digest256 :=
  return_when is_null artifact_bytes || is_null artifact_digest
    with (LAPLACE_PERFCACHE_INVALID_ARGUMENT, artifact, artifact_bytes, artifact_digest) ;;
  match contract, measure_layout_internal contract record_count metadata_bytes with
  | Some c, inr (stride, records_bytes, measured) =>
      let artifact_bytes := store artifact_bytes measured in
      match artifact with
      | None => (LAPLACE_PERFCACHE_BUFFER_TOO_SMALL, artifact, artifact_bytes, artifact_digest)
      | Some a =>
          return_when artifact_capacity <? measured
            with (LAPLACE_PERFCACHE_BUFFER_TOO_SMALL, artifact, artifact_bytes,
                  artifact_digest) ;;
          match records_access_law_valid (drop (Z.to_nat LAPLACE_PERFCACHE_HEADER_BYTES) a)
                  record_count c (u32 stride) with
          | LAPLACE_PERFCACHE_OK =>
              let metadata_offset := LAPLACE_PERFCACHE_HEADER_BYTES + records_bytes in
              let digest_offset := metadata_offset + metadata_bytes in
              let a := write_header c record_count stride records_bytes metadata_bytes
                         metadata_offset digest_offset a in
              let hasher := blake3_hasher_update blake3_hasher_init (slice 0 digest_offset a) in
              let a := put digest_offset (blake3_hasher_finalize hasher) a in
              (LAPLACE_PERFCACHE_OK, Some a, artifact_bytes,
               store artifact_digest (slice digest_offset LAPLACE_PERFCACHE_DIGEST_BYTES a))
          | failed => (failed, artifact, artifact_bytes, artifact_digest)
          end
      end
  | _, inl failed => (failed, artifact, artifact_bytes, artifact_digest)
  | None, inr _ => (LAPLACE_PERFCACHE_INVALID_ARGUMENT, artifact, artifact_bytes,
                    artifact_digest)
  end.

Definition laplace_perfcache_write (spec : ptr laplace_perfcache_spec)
    (artifact : ptr (list Z)) (artifact_capacity : Z) (artifact_bytes : ptr Z)
    : laplace_perfcache_status * ptr (list Z) * ptr Z :=
  return_when is_null artifact_bytes
    with (LAPLACE_PERFCACHE_INVALID_ARGUMENT, artifact, artifact_bytes) ;;
  match spec, measure_internal spec with
  | Some s, inr (stride, records_bytes, measured) =>
      let artifact_bytes := store artifact_bytes measured in
      match artifact with
      | None => (LAPLACE_PERFCACHE_BUFFER_TOO_SMALL, artifact, artifact_bytes)
      | Some a =>
          return_when artifact_capacity <? measured
            with (LAPLACE_PERFCACHE_BUFFER_TOO_SMALL, artifact, artifact_bytes) ;;
          match records_access_law_valid (default [] (spec_records s)) (spec_record_count s)
                  (spec_contract s) (u32 stride) with
          | LAPLACE_PERFCACHE_OK =>
              let metadata_offset := LAPLACE_PERFCACHE_HEADER_BYTES + records_bytes in
              let a := put 0 (zeros (Z.to_nat measured)) a in
              let a := if records_bytes =? 0 then a
                       else put LAPLACE_PERFCACHE_HEADER_BYTES
                              (slice 0 records_bytes (default [] (spec_records s))) a in
              let a := if spec_metadata_bytes s =? 0 then a
                       else put metadata_offset
                              (slice 0 (spec_metadata_bytes s) (default [] (spec_metadata s)))
                              a in
              let '(status, sealed, artifact_bytes, _) :=
                laplace_perfcache_layout_seal (Some (spec_contract s)) (spec_record_count s)
                  (spec_metadata_bytes s) (Some a) artifact_capacity artifact_bytes
                  (Some (zeros 32)) in
              (status, sealed, artifact_bytes)
          | failed => (failed, artifact, artifact_bytes)
          end
      end
  | _, inl failed => (failed, artifact, artifact_bytes)
  | None, inr _ => (LAPLACE_PERFCACHE_INVALID_ARGUMENT, artifact, artifact_bytes)
  end.

(** ** Validation *)
Definition read_contract (artifact : list Z) : laplace_perfcache_contract := {|
  module_id := slice OFFSET_MODULE_ID 16 artifact;
  key_schema_id := slice OFFSET_KEY_SCHEMA_ID 16 artifact;
  value_schema_id := slice OFFSET_VALUE_SCHEMA_ID 16 artifact;
  activation_epoch_id := slice OFFSET_ACTIVATION_EPOCH_ID 16 artifact;
  activation_epoch_fingerprint := slice OFFSET_ACTIVATION_EPOCH_FINGERPRINT 32 artifact;
  module_contract_fingerprint := slice OFFSET_MODULE_CONTRACT_FINGERPRINT 32 artifact;
  source_fingerprint := slice OFFSET_SOURCE_FINGERPRINT 32 artifact;
  recipe_fingerprint := slice OFFSET_RECIPE_FINGERPRINT 32 artifact;
  dependency_fingerprint := slice OFFSET_DEPENDENCY_FINGERPRINT 32 artifact;
  key_bytes := read_u32_le artifact OFFSET_KEY_BYTES;
  value_bytes := read_u32_le artifact OFFSET_VALUE_BYTES;
  access_law := read_u32_le artifact OFFSET_ACCESS_LAW;
  flags := read_u64_le artifact OFFSET_FLAGS |}.

Definition laplace_perfcache_validate (artifact : ptr (list Z)) (artifact_bytes : Z)
    (expected_contract : ptr laplace_perfcache_contract) (view : ptr laplace_perfcache_view)
    : laplace_perfcache_status * ptr laplace_perfcache_view :=
  match artifact, expected_contract, view with
  | Some a, Some expected, Some _ =>
      return_when negb (contract_valid expected)
        with (LAPLACE_PERFCACHE_INVALID_ARGUMENT, view) ;;
      return_when artifact_bytes <? LAPLACE_PERFCACHE_HEADER_BYTES + LAPLACE_PERFCACHE_DIGEST_BYTES
        with (LAPLACE_PERFCACHE_SECTION_INVALID, view) ;;
      return_when negb (bytes_equal (slice 0 8 a) laplace_perfcache_magic)
        with (LAPLACE_PERFCACHE_BAD_MAGIC, view) ;;
      return_when negb (read_u32_le a OFFSET_VERSION =? LAPLACE_PERFCACHE_FORMAT_VERSION)
        with (LAPLACE_PERFCACHE_UNSUPPORTED_VERSION, view) ;;
      return_when
        negb (read_u32_le a OFFSET_HEADER_BYTES =? LAPLACE_PERFCACHE_HEADER_BYTES) ||
        negb (bytes_zero (slice OFFSET_RESERVED
                            (LAPLACE_PERFCACHE_HEADER_BYTES - OFFSET_RESERVED) a))
        with (LAPLACE_PERFCACHE_HEADER_INVALID, view) ;;
      let actual := read_contract a in
      return_when negb (contract_valid actual) with (LAPLACE_PERFCACHE_HEADER_INVALID, view) ;;
      return_when negb (contract_equal actual expected)
        with (LAPLACE_PERFCACHE_CONTRACT_MISMATCH, view) ;;
      let record_count := read_u64_le a OFFSET_RECORD_COUNT in
      let record_stride := read_u32_le a OFFSET_RECORD_STRIDE in
      let records_offset := read_u64_le a OFFSET_RECORDS in
      let records_bytes := read_u64_le a OFFSET_RECORDS_BYTES in
      let metadata_offset := read_u64_le a OFFSET_METADATA in
      let metadata_bytes := read_u64_le a OFFSET_METADATA_BYTES in
      let digest_offset := read_u64_le a OFFSET_DIGEST in
      return_when negb (record_stride =? u32 (key_bytes actual + value_bytes actual)) ||
                  (UINT64_MAX / record_stride <? record_count)
        with (LAPLACE_PERFCACHE_SECTION_INVALID, view) ;;
      let expected_records_bytes := u64 (record_count * record_stride) in
      return_when UINT64_MAX - LAPLACE_PERFCACHE_HEADER_BYTES <? expected_records_bytes
        with (LAPLACE_PERFCACHE_SECTION_INVALID, view) ;;
      let expected_metadata_offset := LAPLACE_PERFCACHE_HEADER_BYTES + expected_records_bytes in
      return_when UINT64_MAX - expected_metadata_offset <? metadata_bytes
        with (LAPLACE_PERFCACHE_SECTION_INVALID, view) ;;
      let expected_digest_offset := expected_metadata_offset + metadata_bytes in
      return_when
        (UINT64_MAX - expected_digest_offset <? LAPLACE_PERFCACHE_DIGEST_BYTES) ||
        negb (expected_digest_offset + LAPLACE_PERFCACHE_DIGEST_BYTES =? artifact_bytes) ||
        negb (records_offset =? LAPLACE_PERFCACHE_HEADER_BYTES) ||
        negb (records_bytes =? expected_records_bytes) ||
        negb (metadata_offset =? expected_metadata_offset) ||
        negb (digest_offset =? expected_digest_offset)
        with (LAPLACE_PERFCACHE_SECTION_INVALID, view) ;;
      let digest := blake3_hasher_finalize
                      (blake3_hasher_update blake3_hasher_init (slice 0 digest_offset a)) in
      return_when
        negb (bytes_equal digest (slice digest_offset LAPLACE_PERFCACHE_DIGEST_BYTES a))
        with (LAPLACE_PERFCACHE_DIGEST_MISMATCH, view) ;;
      match records_access_law_valid (drop (Z.to_nat records_offset) a) record_count actual
              record_stride with
      | LAPLACE_PERFCACHE_OK =>
          (LAPLACE_PERFCACHE_OK,
           Some (mk_view actual a artifact_bytes (drop (Z.to_nat records_offset) a) record_count
                   record_stride (drop (Z.to_nat metadata_offset) a) metadata_bytes
                   (slice digest_offset LAPLACE_PERFCACHE_DIGEST_BYTES a)))
      | failed => (failed, view)
      end
  | _, _, _ => (LAPLACE_PERFCACHE_INVALID_ARGUMENT, view)
  end.

(** The cleared view a caller starts from. *)
Definition empty_view : laplace_perfcache_view :=
  mk_view (mk_contract [] [] [] [] [] [] [] [] [] 0 0 0 0) [] 0 [] 0 0 [] 0 [].

Definition laplace_perfcache_reference_epoch_digest (artifact : ptr (list Z))
    (artifact_bytes : Z) (expected_contract : ptr laplace_perfcache_contract)
    (reference_epoch_id : ptr laplace_id128)
    (reference_epoch_fingerprint reference_dependency_fingerprint : ptr laplace_digest256)
    (reference_digest : ptr laplace_digest256)
    : laplace_perfcache_status * ptr laplace_digest256 :=
  let reference_digest := store reference_digest (zeros 32) in
  match artifact, expected_contract, reference_epoch_id, reference_epoch_fingerprint,
        reference_dependency_fingerprint, reference_digest with
  | Some a, Some _, Some epoch, Some fingerprint, Some dependency, Some _ =>
      match laplace_perfcache_validate artifact artifact_bytes expected_contract
              (Some empty_view) with
      | (LAPLACE_PERFCACHE_OK, _) =>
          let header := slice 0 LAPLACE_PERFCACHE_HEADER_BYTES a in
          let header := put OFFSET_ACTIVATION_EPOCH_ID epoch header in
          let header := put OFFSET_ACTIVATION_EPOCH_FINGERPRINT fingerprint header in
          let header := put OFFSET_DEPENDENCY_FINGERPRINT dependency header in
          let body_bytes :=
            artifact_bytes - LAPLACE_PERFCACHE_HEADER_BYTES - LAPLACE_PERFCACHE_DIGEST_BYTES in
          let hasher := blake3_hasher_update blake3_hasher_init header in
          let hasher :=
            blake3_hasher_update hasher (slice LAPLACE_PERFCACHE_HEADER_BYTES body_bytes a) in
          (LAPLACE_PERFCACHE_OK, store reference_digest (blake3_hasher_finalize hasher))
      | (failed, _) => (failed, reference_digest)
      end
  | _, _, _, _, _, _ => (LAPLACE_PERFCACHE_INVALID_ARGUMENT, reference_digest)
  end.
End Artifacts.

(** ** Lookup *)
(** The lookup of one key: found flag and index; [None] where the loop gives
    up on an access law it does not know. *)
Definition lookup_key (view : laplace_perfcache_view) (key : list Z) : option (Z * Z) :=
  let c := contract view in
  if access_law c =? LAPLACE_PERFCACHE_ACCESS_DENSE_U32_ZERO_BASED then
    let index := read_u32_le key 0 in
    Some (if index <? record_count view then (1, index) else (0, UINT64_MAX))
  else
    return_when negb (access_law c =? LAPLACE_PERFCACHE_ACCESS_SORTED_UNIQUE_FIXED) with None ;;
    let record i := record_key (records view) (record_stride view) (key_bytes c) i in
    let key := slice 0 (key_bytes c) key in
    let low := lower_bound (Z.to_nat (record_count view))
                 (fun middle => match memcmp key (record middle) with Gt => true | _ => false end)
                 0 (record_count view) in
    Some (if (low <? record_count view) && bytes_equal key (record low)
          then (1, low) else (0, UINT64_MAX)).

(** The loop over the keys, up to the first it gives up on. *)
Fixpoint lookup_loop (view : laplace_perfcache_view) (keys : list (list Z))
    : laplace_perfcache_status * list (Z * Z) :=
  match keys with
  | [] => (LAPLACE_PERFCACHE_OK, [])
  | key :: keys =>
      match lookup_key view key with
      | None => (LAPLACE_PERFCACHE_INVALID_ARGUMENT, [])
      | Some result =>
          let '(status, results) := lookup_loop view keys in (status, result :: results)
      end
  end.

Definition laplace_perfcache_lookup_batch (view : ptr laplace_perfcache_view)
    (keys : ptr (list Z)) (key_count : Z) (record_indexes found : ptr (list Z))
    : laplace_perfcache_status * ptr (list Z) * ptr (list Z) :=
  match view with
  | None => (LAPLACE_PERFCACHE_INVALID_ARGUMENT, record_indexes, found)
  | Some v =>
      let c := contract v in
      return_when negb (key_count =? 0) &&
                  (is_null keys || is_null record_indexes || is_null found)
        with (LAPLACE_PERFCACHE_INVALID_ARGUMENT, record_indexes, found) ;;
      return_when negb (contract_valid c) ||
                  negb (record_stride v =? u32 (key_bytes c + value_bytes c))
        with (LAPLACE_PERFCACHE_INVALID_ARGUMENT, record_indexes, found) ;;
      return_when access_law c =? LAPLACE_PERFCACHE_ACCESS_MODULE_DEFINED
        with (LAPLACE_PERFCACHE_LOOKUP_UNSUPPORTED, record_indexes, found) ;;
      return_when negb (key_count =? 0) && (SIZE_MAX / key_bytes c <? key_count)
        with (LAPLACE_PERFCACHE_INVALID_ARGUMENT, record_indexes, found) ;;
      let key i := drop (i * Z.to_nat (key_bytes c)) (default [] keys) in
      let '(status, results) := lookup_loop v (map key (seq 0 (Z.to_nat key_count))) in
      let write (p : ptr (list Z)) (values : list Z) :=
        match p with
        | Some l => Some (values ++ drop (length values) l)
        | None => None
        end in
      (status, write record_indexes (map snd results), write found (map fst results))
  end.

(** ** Record validation *)
(** The validator is a callback with a context it may change. *)
Fixpoint validate_records_loop {C : Type}
    (validator : C -> Z -> list Z -> Z -> laplace_perfcache_status * C)
    (view : laplace_perfcache_view) (context : C) (indexes : list nat)
    : laplace_perfcache_status * Z * C :=
  match indexes with
  | [] => (LAPLACE_PERFCACHE_OK, UINT64_MAX, context)
  | index :: indexes =>
      let i := Z.of_nat index in
      let record := drop (Z.to_nat (i * record_stride view)) (records view) in
      match validator context i record (record_stride view) with
      | (LAPLACE_PERFCACHE_OK, context) => validate_records_loop validator view context indexes
      | (failed, context) => (failed, i, context)
      end
  end.

Definition laplace_perfcache_validate_records {C : Type} (view : ptr laplace_perfcache_view)
    (validator : ptr (C -> Z -> list Z -> Z -> laplace_perfcache_status * C)) (context : C)
    (invalid_record_index : ptr Z) : laplace_perfcache_status * ptr Z * C :=
  match view, validator, invalid_record_index with
  | Some v, Some f, Some _ =>
      return_when negb (contract_valid (contract v)) ||
                  negb (record_stride v =? u32 (key_bytes (contract v) + value_bytes (contract v)))
        with (LAPLACE_PERFCACHE_INVALID_ARGUMENT, invalid_record_index, context) ;;
      let '(status, index, context) :=
        validate_records_loop f v context (seq 0 (Z.to_nat (record_count v))) in
      (status, Some index, context)
  | _, _, _ => (LAPLACE_PERFCACHE_INVALID_ARGUMENT, invalid_record_index, context)
  end.

(** ** The canonical artifact *)
Record contract_wf (c : laplace_perfcache_contract) : Prop := {
  wf_module : bytes 16 (module_id c);
  wf_key_schema : bytes 16 (key_schema_id c);
  wf_value_schema : bytes 16 (value_schema_id c);
  wf_epoch : bytes 16 (activation_epoch_id c);
  wf_epoch_fingerprint : bytes 32 (activation_epoch_fingerprint c);
  wf_module_contract : bytes 32 (module_contract_fingerprint c);
  wf_source : bytes 32 (source_fingerprint c);
  wf_recipe : bytes 32 (recipe_fingerprint c);
  wf_dependency : bytes 32 (dependency_fingerprint c);
  wf_key_bytes : is_u32 (key_bytes c);
  wf_value_bytes : is_u32 (value_bytes c);
  wf_access_law : is_u32 (access_law c);
  wf_flags : is_u64 (flags c) }.

Definition stride_of (c : laplace_perfcache_contract) : Z := key_bytes c + value_bytes c.

(** The fields of the header and its reserved tail. *)
Definition header_pieces (c : laplace_perfcache_contract) (count metadata_bytes : Z)
    : list (list Z) :=
  let records_bytes := count * stride_of c in
  let metadata_offset := LAPLACE_PERFCACHE_HEADER_BYTES + records_bytes in
  map snd (header_writes c count (stride_of c) records_bytes metadata_bytes metadata_offset
             (metadata_offset + metadata_bytes)) ++ [zeros 40].

Definition artifact_body (c : laplace_perfcache_contract) (count : Z) (recs meta : list Z)
    : list Z :=
  concat (header_pieces c count (Z.of_nat (length meta))) ++ recs ++ meta.

(** Header, records, metadata, and the digest of all of them. *)
Definition canonical_artifact {B : Blake3} (c : laplace_perfcache_contract) (count : Z)
    (recs meta : list Z) : list Z :=
  artifact_body c count recs meta ++ blake3 (artifact_body c count recs meta).

(** What an artifact may hold. *)
Record content_valid (c : laplace_perfcache_contract) (count : Z) (recs meta : list Z) : Prop := {
  valid_contract : contract_valid c = true;
  valid_count : 0 <= count;
  valid_records : Z.of_nat (length recs) = count * stride_of c;
  valid_size : 352 + Z.of_nat (length recs) + Z.of_nat (length meta) + 32 <= UINT64_MAX;
  valid_law : records_access_law_valid recs count c (stride_of c) = LAPLACE_PERFCACHE_OK }.

(** The view of an artifact. *)
Definition view_of {B : Blake3} (c : laplace_perfcache_contract) (count : Z) (recs meta : list Z)
    : laplace_perfcache_view :=
  let digest := blake3 (artifact_body c count recs meta) in
  mk_view c (canonical_artifact c count recs meta)
    (384 + Z.of_nat (length recs) + Z.of_nat (length meta)) (recs ++ meta ++ digest) count
    (stride_of c) (meta ++ digest) (Z.of_nat (length meta)) digest.

Lemma contract_valid_stride c : contract_valid c = true -> contract_wf c ->
  0 < value_bytes c /\ 0 < stride_of c <= UINT32_MAX /\ flags c = 0 /\
  (access_law c = 1 /\ 0 < key_bytes c \/ access_law c = 2 /\ key_bytes c = 4 \/
   access_law c = 3).
Proof.
  intros H []. unfold contract_valid, stride_of in *. casec_in H; [done|].
  destruct (Z.eqb_spec (access_law c) 1), (Z.eqb_spec (access_law c) 2),
    (Z.eqb_spec (access_law c) 3), (Z.eqb_spec (key_bytes c) 0), (Z.eqb_spec (key_bytes c) 4);
    cbn in H; try done; lia.
Qed.

(** ** Writing the header *)
Fixpoint contiguous (offset : Z) (writes : list (Z * list Z)) : Prop :=
  match writes with
  | [] => True
  | w :: writes => w.1 = offset /\ contiguous (offset + Z.of_nat (length w.2)) writes
  end.

Lemma puts_contiguous writes : forall h rest,
  contiguous (Z.of_nat (length h)) writes ->
  foldl (fun a w => put w.1 w.2 a) (h ++ rest) writes =
  h ++ concat (map snd writes) ++ drop (length (concat (map snd writes))) rest.
Proof.
  induction writes as [|[off d] writes IH]; intros h rest Hc; simpl in *; [by rewrite drop_0|].
  destruct Hc as [-> Hc]. rewrite put_next.
  rewrite <- Nat2Z.inj_add, <- length_app in Hc. rewrite (IH (h ++ d)) by done.
  rewrite drop_drop, length_app, <- !app_assoc. do 3 f_equal.
Qed.

Lemma header_lengths c count stride rb mb mo do_ : contract_wf c ->
  map (fun w => length w.2) (header_writes c count stride rb mb mo do_) =
  [8; 4; 4; 8; 16; 16; 16; 16; 32; 32; 32; 32; 32; 8; 4; 4; 4; 4; 8; 8; 8; 8; 8]%nat.
Proof.
  intros [[? _] [? _] [? _] [? _] [? _] [? _] [? _] [? _] [? _] _ _ _ _].
  unfold header_writes. cbn [map snd]. rewrite !length_store_le.
  repeat match goal with H : length _ = _ |- _ => rewrite H; clear H end. done.
Qed.

Lemma header_contiguous c count stride rb mb mo do_ : contract_wf c ->
  contiguous 0 (header_writes c count stride rb mb mo do_).
Proof.
  intros Hwf. pose proof (header_lengths c count stride rb mb mo do_ Hwf) as Hl.
  unfold header_writes in *. cbn [map snd] in Hl. injection Hl as Hl.
  cbn [contiguous fst snd].
  repeat match goal with H : length _ = _ |- _ => rewrite H; clear H end.
  repeat (split; [reflexivity|]). exact I.
Qed.

Definition header_piece_lengths : list nat :=
  [8; 4; 4; 8; 16; 16; 16; 16; 32; 32; 32; 32; 32; 8; 4; 4; 4; 4; 8; 8; 8; 8; 8; 40]%nat.

Lemma header_pieces_lengths c count mb : contract_wf c ->
  map length (header_pieces c count mb) = header_piece_lengths.
Proof.
  intros Hwf. unfold header_pieces. rewrite map_app, map_map.
  by rewrite header_lengths.
Qed.

Lemma header_length c count mb : contract_wf c ->
  length (concat (header_pieces c count mb)) = 352%nat.
Proof. intros Hwf. by rewrite length_concat_pieces, header_pieces_lengths. Qed.

Lemma write_header_pieces c count mb a : contract_wf c -> (352 <= length a)%nat ->
  let rb := count * stride_of c in
  write_header c count (stride_of c) rb mb (352 + rb) (352 + rb + mb) a =
  concat (header_pieces c count mb) ++ drop 352 a.
Proof.
  intros Hwf Ha. cbv zeta. unfold write_header.
  change (Z.to_nat 352) with 352%nat.
  assert (E : put 0 (zeros 352) a = [] ++ (zeros 352 ++ drop 352 a))
    by (apply (put_next [] (zeros 352) a)).
  rewrite E, puts_contiguous by by apply header_contiguous.
  unfold header_pieces. rewrite concat_app. cbn [app]. rewrite <- !app_assoc. f_equal.
  rewrite length_concat_pieces, map_map, header_lengths by done.
  change (sum_list _) with 312%nat. cbn [concat]. rewrite app_nil_r.
  unfold zeros. change 352%nat with (312 + 40)%nat at 1. rewrite replicate_add, <- app_assoc.
  by rewrite drop_app_length' by by rewrite length_replicate.
Qed.

(** ** Reading the header *)
(** A piece of the header is the slice at the sum of the lengths before it. *)
Lemma header_slice c count mb i p rest offset len : contract_wf c ->
  header_pieces c count mb !! i = Some p ->
  offset = Z.of_nat (sum_list (take i header_piece_lengths)) -> len = Z.of_nat (length p) ->
  slice offset len (concat (header_pieces c count mb) ++ rest) = p.
Proof.
  intros Hwf Hi -> ->. eapply slice_pieces; [done| |done].
  by rewrite <- (header_pieces_lengths c count mb Hwf), <- firstn_map.
Qed.

Lemma read_u32_slice a off : bytes (length a) a -> 0 <= off -> off + 4 <= Z.of_nat (length a) ->
  store_le 4 (read_u32_le a off) = slice off 4 a /\ is_u32 (read_u32_le a off).
Proof.
  intros Ha Ho Hl. assert (Hs : bytes 4 (slice off 4 a)).
  { apply (slice_bytes 4); [done|lia|lia]. }
  split; [by apply store_load_le|]. pose proof (load_le_bound 4 _ Hs) as Hb.
  change (256 ^ Z.of_nat 4) with 4294967296 in Hb. unfold read_u32_le. lia.
Qed.

Lemma read_u64_slice a off : bytes (length a) a -> 0 <= off -> off + 8 <= Z.of_nat (length a) ->
  store_le 8 (read_u64_le a off) = slice off 8 a /\ is_u64 (read_u64_le a off).
Proof.
  intros Ha Ho Hl. assert (Hs : bytes 8 (slice off 8 a)).
  { apply (slice_bytes 8); [done|lia|lia]. }
  split; [by apply store_load_le|]. pose proof (load_le_bound 8 _ Hs) as Hb.
  change (256 ^ Z.of_nat 8) with 18446744073709551616 in Hb. unfold read_u64_le. lia.
Qed.

Lemma read_contract_wf a : bytes (length a) a -> (352 <= length a)%nat ->
  contract_wf (read_contract a).
Proof.
  intros Ha Hl. split; cbn [read_contract module_id key_schema_id value_schema_id
    activation_epoch_id activation_epoch_fingerprint module_contract_fingerprint
    source_fingerprint recipe_fingerprint dependency_fingerprint key_bytes value_bytes
    access_law flags].
  1-4: apply (slice_bytes 16); [done|lia|lia].
  1-5: apply (slice_bytes 32); [done|lia|lia].
  1-3: apply read_u32_slice; [done|lia|lia].
  apply read_u64_slice; [done|lia|lia].
Qed.

(** A header whose fixed fields have the required values is the canonical
    header of what is read from it. *)
Lemma header_canonical a :
  bytes (length a) a -> (352 <= length a)%nat ->
  let c := read_contract a in
  let count := read_u64_le a 248 in
  let mb := read_u64_le a 296 in
  let rb := count * stride_of c in
  slice 0 8 a = laplace_perfcache_magic -> read_u32_le a 8 = 3 -> read_u32_le a 12 = 352 ->
  bytes_zero (slice 312 40 a) = true -> is_u32 (stride_of c) ->
  read_u32_le a 264 = stride_of c -> read_u64_le a 272 = 352 -> read_u64_le a 280 = rb ->
  read_u64_le a 288 = 352 + rb -> read_u64_le a 304 = 352 + rb + mb ->
  slice 0 352 a = concat (header_pieces c count mb).
Proof.
  intros Ha Hl c count mb rb Hmagic Hver Hhead Hres Hst Hstride Hro Hrb Hmo Hdo.
  assert (R4 : forall off v, 0 <= off <= 348 -> read_u32_le a off = v -> slice off 4 a = store_le 4 v).
  { intros off v Hoff <-. symmetry. apply read_u32_slice; [done|lia|lia]. }
  assert (R8 : forall off v, 0 <= off <= 344 -> read_u64_le a off = v -> slice off 8 a = store_le 8 v).
  { intros off v Hoff <-. symmetry. apply read_u64_slice; [done|lia|lia]. }
  pose proof (concat_cuts header_piece_lengths 0 a ltac:(lia)) as Hcuts.
  change (Z.of_nat (sum_list header_piece_lengths)) with 352 in Hcuts. rewrite <- Hcuts.
  f_equal. unfold header_pieces, header_writes. fold rb.
  change (cuts 0 header_piece_lengths a) with
    [slice 0 8 a; slice 8 4 a; slice 12 4 a; slice 16 8 a; slice 24 16 a; slice 40 16 a;
     slice 56 16 a; slice 72 16 a; slice 88 32 a; slice 120 32 a; slice 152 32 a;
     slice 184 32 a; slice 216 32 a; slice 248 8 a; slice 256 4 a; slice 260 4 a;
     slice 264 4 a; slice 268 4 a; slice 272 8 a; slice 280 8 a; slice 288 8 a;
     slice 296 8 a; slice 304 8 a; slice 312 40 a].
  rewrite Hmagic, (R4 8 3), (R4 12 352), (R4 264 _ ltac:(lia) Hstride), (R8 272 352),
    (R8 280 rb), (R8 288 (352 + rb)), (R8 304 (352 + rb + mb)) by (done || lia).
  rewrite (R8 16 (flags c)), (R8 248 count), (R4 256 (key_bytes c)), (R4 260 (value_bytes c)),
    (R4 268 (access_law c)), (R8 296 mb) by (done || lia).
  rewrite u32_small by done.
  apply (bytes_zero_zeros 40) in Hres; [|apply (slice_bytes 40); [done|lia|lia]].
  rewrite Hres. reflexivity.
Qed.

(** Conversely, the fields read from the canonical header. *)
Record header_reads (a : list Z) (c : laplace_perfcache_contract) (count mb : Z) : Prop := {
  reads_magic : slice 0 8 a = laplace_perfcache_magic;
  reads_version : read_u32_le a 8 = 3;
  reads_header : read_u32_le a 12 = 352;
  reads_reserved : bytes_zero (slice 312 40 a) = true;
  reads_contract : read_contract a = c;
  reads_count : read_u64_le a 248 = count;
  reads_stride : read_u32_le a 264 = stride_of c;
  reads_records : read_u64_le a 272 = 352;
  reads_records_bytes : read_u64_le a 280 = count * stride_of c;
  reads_metadata : read_u64_le a 288 = 352 + count * stride_of c;
  reads_metadata_bytes : read_u64_le a 296 = mb;
  reads_digest : read_u64_le a 304 = 352 + count * stride_of c + mb }.

Lemma canonical_header_reads c count mb rest :
  contract_wf c -> is_u32 (stride_of c) -> is_u64 count -> 0 <= mb ->
  0 <= count * stride_of c -> 352 + count * stride_of c + mb <= UINT64_MAX ->
  header_reads (concat (header_pieces c count mb) ++ rest) c count mb.
Proof.
  intros Hwf Hst Hcount Hmb Hrb Hsize. pose proof Hwf as [].
  assert (R : forall i p offset len, header_pieces c count mb !! i = Some p ->
    offset = Z.of_nat (sum_list (take i header_piece_lengths)) -> len = Z.of_nat (length p) ->
    slice offset len (concat (header_pieces c count mb) ++ rest) = p)
    by (intros; by eapply header_slice).
  set (a := concat (header_pieces c count mb) ++ rest) in *.
  assert (R4 : forall i v offset, header_pieces c count mb !! i = Some (store_le 4 v) ->
    offset = Z.of_nat (sum_list (take i header_piece_lengths)) -> is_u32 v ->
    read_u32_le a offset = v).
  { intros i v offset Hi Ho Hv. unfold read_u32_le.
    rewrite (R i (store_le 4 v)) by (done || by rewrite length_store_le).
    rewrite load_store_le. apply Z.mod_small. change (256 ^ Z.of_nat 4) with 4294967296. lia. }
  assert (R8 : forall i v offset, header_pieces c count mb !! i = Some (store_le 8 v) ->
    offset = Z.of_nat (sum_list (take i header_piece_lengths)) -> is_u64 v ->
    read_u64_le a offset = v).
  { intros i v offset Hi Ho Hv. unfold read_u64_le.
    rewrite (R i (store_le 8 v)) by (done || by rewrite length_store_le).
    rewrite load_store_le. apply Z.mod_small.
    change (256 ^ Z.of_nat 8) with 18446744073709551616. lia. }
  split.
  - by apply (R 0%nat).
  - by apply (R4 1%nat).
  - by apply (R4 2%nat).
  - rewrite (R 23%nat (zeros 40)) by done. by apply (bytes_zero_zeros 40); [apply bytes_zeros|].
  - unfold read_contract.
    rewrite (R 4%nat (module_id c)), (R 5%nat (key_schema_id c)), (R 6%nat (value_schema_id c)),
      (R 7%nat (activation_epoch_id c)), (R 8%nat (activation_epoch_fingerprint c)),
      (R 9%nat (module_contract_fingerprint c)), (R 10%nat (source_fingerprint c)),
      (R 11%nat (recipe_fingerprint c)), (R 12%nat (dependency_fingerprint c))
      by (reflexivity || (symmetry; erewrite bytes_length by eassumption; reflexivity)
          || (erewrite bytes_length by eassumption; reflexivity)).
    rewrite (R4 14%nat (key_bytes c)), (R4 15%nat (value_bytes c)), (R4 17%nat (access_law c)),
      (R8 3%nat (flags c)) by done. by destruct c.
  - by apply (R8 13%nat).
  - apply (R4 16%nat); [|done|done]. unfold header_pieces, header_writes.
    rewrite u32_small by done. done.
  - by apply (R8 18%nat).
  - apply (R8 19%nat); [done|done|lia].
  - apply (R8 20%nat); [done|done|lia].
  - apply (R8 21%nat); [done|done|lia].
  - apply (R8 22%nat); [done|done|lia].
Qed.

(** ** The access laws read the records only *)
Lemma record_key_app recs rest stride n i count :
  0 <= i < count -> 0 <= n <= stride -> Z.of_nat (length recs) = count * stride ->
  record_key (recs ++ rest) stride n i = record_key recs stride n i.
Proof. intros Hi Hn Hl. unfold record_key. apply slice_app_l; nia. Qed.

Lemma forallb_ext_in {A} (f g : A -> bool) l :
  (forall x, x ∈ l -> f x = g x) -> forallb f l = forallb g l.
Proof.
  induction l as [|x l IH]; intros H; simpl; [done|].
  rewrite H by left. f_equal. apply IH. intros y Hy. apply H. by right.
Qed.

Lemma access_law_app c recs rest count :
  contract_wf c -> contract_valid c = true -> 0 <= count ->
  Z.of_nat (length recs) = count * stride_of c ->
  records_access_law_valid (recs ++ rest) count c (stride_of c) =
  records_access_law_valid recs count c (stride_of c).
Proof.
  intros Hwf Hv Hc Hl. pose proof (contract_valid_stride c Hv Hwf) as (Hval & Hst & _ & Hlaw).
  destruct Hwf. unfold records_access_law_valid.
  assert (Hk : key_bytes c <= stride_of c) by (unfold stride_of; lia).
  assert (Hsorted : records_sorted_unique (recs ++ rest) count (key_bytes c) (stride_of c) =
                    records_sorted_unique recs count (key_bytes c) (stride_of c)).
  { unfold records_sorted_unique. apply forallb_ext_in. intros i Hi%elem_of_seq.
    by rewrite !(record_key_app recs rest _ _ _ count) by lia. }
  rewrite Hsorted. destruct (access_law c =? 1); [done|].
  destruct (Z.eqb_spec (access_law c) 2) as [E|E]; [|done].
  assert (Hdense : dense_u32_zero_based_keys (recs ++ rest) count (stride_of c) =
                   dense_u32_zero_based_keys recs count (stride_of c)).
  { unfold dense_u32_zero_based_keys. casec; [done|]. apply forallb_ext_in.
    intros i Hi%elem_of_seq. f_equal. unfold read_u32_le. f_equal. apply slice_app_l; nia. }
  by rewrite Hdense.
Qed.

(** ** Validation accepts the canonical artifacts *)
Lemma body_length c count recs meta : contract_wf c ->
  Z.of_nat (length (artifact_body c count recs meta)) =
  352 + Z.of_nat (length recs) + Z.of_nat (length meta).
Proof. intros Hwf. unfold artifact_body. rewrite !length_app, header_length by done. lia. Qed.

Lemma contract_equal_spec l r : contract_equal l r = true <-> l = r.
Proof.
  unfold contract_equal. rewrite !andb_true_iff, !bytes_equal_spec, !Z.eqb_eq.
  split; [|intros ->; tauto]. destruct l, r; simpl.
  intros [[[[[[[[[[[[-> ->] ->] ->] ->] ->] ->] ->] ->] ->] ->] ->] ->]. done.
Qed.

Section Validation.
Context {B : Blake3} {L : Blake3Laws B}.

Lemma canonical_length c count recs meta : contract_wf c ->
  Z.of_nat (length (canonical_artifact c count recs meta)) =
  384 + Z.of_nat (length recs) + Z.of_nat (length meta).
Proof.
  intros Hwf. unfold canonical_artifact. rewrite length_app, Nat2Z.inj_add, body_length by done.
  rewrite blake3_length. lia.
Qed.

Lemma hash_of_prefix m : blake3_hasher_finalize (blake3_hasher_update blake3_hasher_init m) = blake3 m.
Proof. done. Qed.

Lemma validate_canonical c count recs meta out :
  contract_wf c -> content_valid c count recs meta ->
  laplace_perfcache_validate (Some (canonical_artifact c count recs meta))
    (Z.of_nat (length (canonical_artifact c count recs meta))) (Some c) (Some out) =
  (LAPLACE_PERFCACHE_OK, Some (view_of c count recs meta)).
Proof.
  intros Hwf [Hv Hcount Hl Hsize Hlaw].
  pose proof (contract_valid_stride c Hv Hwf) as (_ & Hst & _).
  set (mb := Z.of_nat (length meta)) in *.
  assert (Hrb : 0 <= count * stride_of c) by lia.
  assert (Hc64 : is_u64 count) by nia.
  assert (Hreads : header_reads (canonical_artifact c count recs meta) c count mb).
  { unfold canonical_artifact, artifact_body. rewrite <- !app_assoc. fold mb.
    apply canonical_header_reads; [done|lia|done|lia|lia|lia]. }
  pose proof (canonical_length c count recs meta Hwf) as Hlen.
  pose proof (body_length c count recs meta Hwf) as Hblen.
  pose proof (header_length c count mb Hwf) as Hhlen.
  assert (Hbody : slice 0 (352 + count * stride_of c + mb) (canonical_artifact c count recs meta)
                  = artifact_body c count recs meta).
  { unfold canonical_artifact. rewrite slice_app_l by lia. apply slice_all. lia. }
  assert (Hdigest : slice (352 + count * stride_of c + mb) 32
                      (canonical_artifact c count recs meta) =
                    blake3 (artifact_body c count recs meta)).
  { unfold canonical_artifact. rewrite slice_app_r by lia.
    rewrite Hblen. replace (_ - _) with 0 by lia. apply slice_all. rewrite blake3_length. lia. }
  assert (Hrecs : drop (Z.to_nat 352) (canonical_artifact c count recs meta) =
                  recs ++ meta ++ blake3 (artifact_body c count recs meta)).
  { unfold canonical_artifact, artifact_body. rewrite <- !app_assoc. fold mb.
    by rewrite drop_app_length' by (rewrite Hhlen; done). }
  assert (Hmeta : drop (Z.to_nat (352 + count * stride_of c))
                    (canonical_artifact c count recs meta) =
                  meta ++ blake3 (artifact_body c count recs meta)).
  { replace (Z.to_nat (352 + count * stride_of c)) with (Z.to_nat 352 + length recs)%nat by lia.
    by rewrite <- drop_drop, Hrecs, drop_app_length. }
  unfold view_of. rewrite Hlen. fold mb.
  set (a := canonical_artifact c count recs meta) in *. clearbody a.
  destruct Hreads. unfold laplace_perfcache_validate.
  rewrite Hv, reads_magic0, reads_version0, reads_header0, reads_contract0, reads_count0,
    reads_stride0, reads_records0, reads_records_bytes0, reads_metadata0, reads_metadata_bytes0,
    reads_digest0. change (352 - 312) with 40. rewrite reads_reserved0, Hv.
  rewrite (proj2 (bytes_equal_spec _ _)), (proj2 (contract_equal_spec _ _)) by done.
  fold (stride_of c). rewrite u32_small, Hbody, Hdigest, Hrecs, Hmeta by lia. cbv zeta.
  rewrite (proj2 (Z.ltb_ge _ (352 + 32))) by lia.
  assert (Hdiv : count <= UINT64_MAX / stride_of c) by (apply Z.div_le_lower_bound; lia).
  rewrite (proj2 (Z.ltb_ge (UINT64_MAX / stride_of c) _)) by done.
  rewrite u64_small, !Z.eqb_refl by lia.
  rewrite (proj2 (Z.ltb_ge (UINT64_MAX - 352) _)), (proj2 (Z.ltb_ge _ mb)),
    (proj2 (Z.ltb_ge _ 32)), (proj2 (Z.eqb_eq _ (384 + _ + mb))) by lia.
  cbn [negb orb]. rewrite hash_of_prefix, (proj2 (bytes_equal_spec _ _)) by done. cbn [negb].
  rewrite (access_law_app c recs _ count Hwf Hv Hcount Hl), Hlaw. reflexivity.
Qed.

(** The parts of an artifact are the slices between its offsets. *)
Lemma artifact_split a n m k :
  0 <= n -> 0 <= m -> 0 <= k -> n + m + k + 32 = Z.of_nat (length a) ->
  a = (slice 0 n a ++ slice n m a ++ slice (n + m) k a) ++ slice (n + m + k) 32 a /\
  slice 0 (n + m + k) a = slice 0 n a ++ slice n m a ++ slice (n + m) k a /\
  length (slice n m a) = Z.to_nat m /\ length (slice (n + m) k a) = Z.to_nat k.
Proof.
  intros Hn Hm Hk Hl.
  assert (E3 : slice 0 (n + m + k) a = slice 0 n a ++ slice n m a ++ slice (n + m) k a).
  { rewrite slice_split by lia. rewrite (slice_split n m) by lia. by rewrite <- app_assoc. }
  split; [|split; [done|split; apply length_slice; lia]].
  rewrite <- E3, <- slice_split by lia. symmetry. apply slice_all. lia.
Qed.

Lemma validate_sound a c out view' :
  bytes (length a) a -> contract_wf c ->
  laplace_perfcache_validate (Some a) (Z.of_nat (length a)) (Some c) (Some out) =
    (LAPLACE_PERFCACHE_OK, view') ->
  exists count recs meta, content_valid c count recs meta /\
    a = canonical_artifact c count recs meta.
Proof.
  intros Ha Hwf H. unfold laplace_perfcache_validate in H. cbv zeta in H.
  destruct (contract_valid c) eqn:Hcv; cbn [negb] in H; [|done].
  destruct (Z.ltb_spec (Z.of_nat (length a)) (352 + 32)) as [|Hsize]; [done|].
  destruct (bytes_equal (slice 0 8 a) _) eqn:Hmagic; cbn [negb] in H; [|done].
  apply bytes_equal_spec in Hmagic.
  destruct (Z.eqb_spec (read_u32_le a 8) 3) as [Hver|]; cbn [negb] in H; [|done].
  destruct (Z.eqb_spec (read_u32_le a 12) 352) as [Hhead|]; cbn [negb orb] in H; [|done].
  change (352 - 312) with 40 in H.
  destruct (bytes_zero (slice 312 40 a)) eqn:Hres; cbn [negb] in H; [|done].
  destruct (contract_valid (read_contract a)) eqn:Hav; cbn [negb] in H; [|done].
  destruct (contract_equal (read_contract a) c) eqn:Heq; cbn [negb] in H; [|done].
  apply contract_equal_spec in Heq. rewrite Heq in H.
  pose proof (contract_valid_stride c Hcv Hwf) as (_ & Hst & _).
  fold (stride_of c) in H. rewrite (u32_small (stride_of c)) in H by lia.
  destruct (Z.eqb_spec (read_u32_le a 264) (stride_of c)) as [Hstride|]; cbn [negb orb] in H; [|done].
  rewrite Hstride in H.
  destruct (Z.ltb_spec (UINT64_MAX / stride_of c) (read_u64_le a 248)) as [|Hcount]; [done|].
  destruct (read_u64_slice a 248 Ha ltac:(lia) ltac:(lia)) as [_ Hc64].
  destruct (read_u64_slice a 296 Ha ltac:(lia) ltac:(lia)) as [_ Hm64].
  assert (Hrb : 0 <= read_u64_le a 248 * stride_of c <= UINT64_MAX).
  { pose proof (Z.mul_div_le UINT64_MAX (stride_of c) ltac:(lia)). nia. }
  rewrite u64_small in H by done.
  set (count := read_u64_le a 248) in *. set (rb := count * stride_of c) in *.
  set (mb := read_u64_le a 296) in *.
  destruct (Z.ltb_spec (UINT64_MAX - 352) rb) as [|Hover]; [done|].
  destruct (Z.ltb_spec (UINT64_MAX - (352 + rb)) mb) as [|Hover2]; [done|].
  destruct (Z.ltb_spec (UINT64_MAX - (352 + rb + mb)) 32) as [|Hover3]; cbn [orb] in H; [done|].
  destruct (Z.eqb_spec (352 + rb + mb + 32) (Z.of_nat (length a))) as [Hlen|];
    cbn [negb orb] in H; [|done].
  destruct (Z.eqb_spec (read_u64_le a 272) 352) as [Hro|]; cbn [negb orb] in H; [|done].
  destruct (Z.eqb_spec (read_u64_le a 280) rb) as [Hrbytes|]; cbn [negb orb] in H; [|done].
  destruct (Z.eqb_spec (read_u64_le a 288) (352 + rb)) as [Hmo|]; cbn [negb orb] in H; [|done].
  destruct (Z.eqb_spec (read_u64_le a 304) (352 + rb + mb)) as [Hdo|]; cbn [negb orb] in H; [|done].
  rewrite Hro, Hdo, hash_of_prefix in H.
  destruct (bytes_equal _ (slice (352 + rb + mb) 32 a)) eqn:Hdig; cbn [negb] in H; [|done].
  apply bytes_equal_spec in Hdig.
  pose proof (header_canonical a Ha ltac:(lia)) as Hheader. cbv zeta in Hheader.
  rewrite Heq in Hheader. fold count mb rb in Hheader.
  specialize (Hheader Hmagic Hver Hhead Hres ltac:(lia) Hstride Hro Hrbytes Hmo Hdo).
  destruct (artifact_split a 352 rb mb ltac:(lia) ltac:(lia) ltac:(lia) Hlen)
    as (Hsplit & Hbody & Hlr & Hlm).
  exists count, (slice 352 rb a), (slice (352 + rb) mb a).
  assert (Habody : artifact_body c count (slice 352 rb a) (slice (352 + rb) mb a) =
                   slice 0 (352 + rb + mb) a).
  { unfold artifact_body. rewrite Hlm, Z2Nat.id, Hbody, Hheader by lia. done. }
  split.
  - split; [done|lia|lia|lia|].
    rewrite <- (access_law_app c _ (slice (352 + rb) mb a ++ slice (352 + rb + mb) 32 a)) by (done || lia).
    assert (Hdrop : drop (Z.to_nat 352) a =
      slice 352 rb a ++ slice (352 + rb) mb a ++ slice (352 + rb + mb) 32 a).
    { rewrite Hsplit at 1. rewrite <- !app_assoc, drop_app_length'; [done|].
      rewrite length_slice; lia. }
    rewrite <- Hdrop. destruct (records_access_law_valid _ _ _ _); done.
  - unfold canonical_artifact. rewrite Habody, Hdig, Hbody. exact Hsplit.
Qed.
End Validation.

(** C1: validation is exact.  An artifact is accepted for a valid contract if
    and only if it is the canonical artifact of some records and metadata:
    header, sections and digest leave no other byte free, the sections tile
    the artifact without overflow, the keys obey the contract's access law.
    The view then holds exactly that content, inside the artifact; a rejected
    artifact leaves the view untouched. *)
Theorem validate_exact {B : Blake3} {L : Blake3Laws B} a c out :
  bytes (length a) a -> contract_wf c ->
  let '(status, view) :=
    laplace_perfcache_validate (Some a) (Z.of_nat (length a)) (Some c) (Some out) in
  (status = LAPLACE_PERFCACHE_OK <->
     exists count recs meta, content_valid c count recs meta /\
       a = canonical_artifact c count recs meta) /\
  (forall count recs meta, content_valid c count recs meta ->
     a = canonical_artifact c count recs meta -> view = Some (view_of c count recs meta)) /\
  (status <> LAPLACE_PERFCACHE_OK -> view = Some out).
Proof.
  intros Ha Hwf.
  assert (Hcanon : forall count recs meta, content_valid c count recs meta ->
    a = canonical_artifact c count recs meta ->
    laplace_perfcache_validate (Some a) (Z.of_nat (length a)) (Some c) (Some out) =
    (LAPLACE_PERFCACHE_OK, Some (view_of c count recs meta))).
  { intros count recs meta Hvalid ->. by apply validate_canonical. }
  pose proof (validate_sound a c out) as Hsound.
  assert (Hkeep : forall status view,
    laplace_perfcache_validate (Some a) (Z.of_nat (length a)) (Some c) (Some out) = (status, view) ->
    status <> LAPLACE_PERFCACHE_OK -> view = Some out).
  { intros status view Hval Hne. unfold laplace_perfcache_validate in Hval. cbv zeta in Hval.
    repeat (casec_in Hval; [congruence|]).
    destruct (records_access_law_valid _ _ _ _); congruence. }
  destruct (laplace_perfcache_validate _ _ _ _) as [status view]. split; [|split].
  - split; [intros ->; by apply (Hsound view)|].
    intros (count & recs & meta & Hvalid & Heq). specialize (Hcanon _ _ _ Hvalid Heq). congruence.
  - intros count recs meta Hvalid Heq. specialize (Hcanon _ _ _ Hvalid Heq). congruence.
  - by apply Hkeep.
Qed.

(** ** Writing produces the canonical artifact *)
Definition artifact_size (c : laplace_perfcache_contract) (count mb : Z) : Z :=
  384 + count * stride_of c + mb.

Lemma measure_spec c count mb :
  contract_wf c -> is_u64 count -> is_u64 mb ->
  measure_layout_internal (Some c) count mb =
  if contract_valid c then
    if artifact_size c count mb <=? UINT64_MAX
    then inr (stride_of c, count * stride_of c, artifact_size c count mb)
    else inl LAPLACE_PERFCACHE_SIZE_OVERFLOW
  else inl LAPLACE_PERFCACHE_INVALID_ARGUMENT.
Proof.
  intros Hwf Hc Hm. unfold measure_layout_internal, artifact_size.
  destruct (contract_valid c) eqn:Hv; cbn [negb]; [|done].
  pose proof (contract_valid_stride c Hv Hwf) as (_ & Hst & _). fold (stride_of c).
  set (st := stride_of c) in *. clearbody st. cbv zeta.
  destruct (Z.ltb_spec (UINT64_MAX / st) count) as [Hov|Hfit].
  { rewrite (proj2 (Z.leb_gt _ _)); [done|].
    pose proof (Z.mul_succ_div_gt UINT64_MAX st ltac:(lia)). nia. }
  assert (Hrb : 0 <= count * st <= UINT64_MAX).
  { pose proof (Z.mul_div_le UINT64_MAX st ltac:(lia)). nia. }
  rewrite u64_small by done. set (rb := count * st) in *. clearbody rb.
  repeat (casec; [rewrite (proj2 (Z.leb_gt _ _)) by lia; done|]).
  rewrite (proj2 (Z.leb_le _ _)) by lia. do 2 f_equal. lia.
Qed.

Section Writing.
Context {B : Blake3} {L : Blake3Laws B}.

(** Sealing a buffer that already holds records and metadata in place. *)
Lemma seal_canonical c count recs meta h t cap n0 d0 :
  contract_wf c -> content_valid c count recs meta ->
  length h = 352%nat -> (32 <= length t)%nat ->
  artifact_size c count (Z.of_nat (length meta)) <= cap ->
  laplace_perfcache_layout_seal (Some c) count (Z.of_nat (length meta))
    (Some (h ++ recs ++ meta ++ t)) cap (Some n0) (Some d0) =
  (LAPLACE_PERFCACHE_OK, Some (canonical_artifact c count recs meta ++ drop 32 t),
   Some (artifact_size c count (Z.of_nat (length meta))),
   Some (blake3 (artifact_body c count recs meta))).
Proof.
  intros Hwf [Hv Hcount Hl Hsize Hlaw] Hh Ht Hcap. unfold laplace_perfcache_layout_seal. ptrs.
  pose proof (contract_valid_stride c Hv Hwf) as (_ & Hst & _).
  set (mb := Z.of_nat (length meta)) in *.
  rewrite measure_spec, Hv by (done || nia).
  assert (Hsz : artifact_size c count mb <= UINT64_MAX) by (unfold artifact_size; lia).
  rewrite (proj2 (Z.leb_le _ _)) by done. cbn [store].
  rewrite (proj2 (Z.ltb_ge _ _)) by done. rewrite u32_small by lia.
  change (Z.to_nat 352) with 352%nat. rewrite drop_app_length' by done.
  rewrite access_law_app, Hlaw by done. cbv zeta.
  rewrite write_header_pieces, drop_app_length' by (done || (rewrite length_app; lia)).
  pose proof (header_length c count mb Hwf) as Hhlen.
  pose proof (body_length c count recs meta Hwf) as Hblen.
  assert (Ea : concat (header_pieces c count mb) ++ recs ++ meta ++ t =
               artifact_body c count recs meta ++ t).
  { unfold artifact_body. fold mb. by rewrite <- !app_assoc. }
  rewrite Ea. rewrite slice_app_l, slice_all, hash_of_prefix by lia.
  replace (352 + count * stride_of c + mb) with (Z.of_nat (length (artifact_body c count recs meta)))
    by lia. rewrite put_next, blake3_length. fold (canonical_artifact c count recs meta).
  do 2 f_equal. unfold canonical_artifact. rewrite <- app_assoc, slice_app_r by lia.
  rewrite Z.sub_diag, slice_app_l, slice_all by (rewrite ?blake3_length; lia). done.
Qed.

Lemma drop_zeros n (l : list Z) : drop n (zeros n ++ l) = l.
Proof. apply drop_app_length'. unfold zeros. by rewrite length_replicate. Qed.

(** The buffer the writer hands to the sealer. *)
Lemma staged_buffer recs meta a measured :
  measured = 384 + Z.of_nat (length recs) + Z.of_nat (length meta) ->
  measured <= Z.of_nat (length a) ->
  (let b := put 0 (zeros (Z.to_nat measured)) a in
   let b := if Z.of_nat (length recs) =? 0 then b else put 352 recs b in
   if Z.of_nat (length meta) =? 0 then b
   else put (352 + Z.of_nat (length recs)) meta b) =
  zeros 352 ++ recs ++ meta ++ zeros 32 ++ drop (Z.to_nat measured) a.
Proof.
  intros Hm Ha. cbv zeta.
  assert (E0 : put 0 (zeros (Z.to_nat measured)) a =
    zeros 352 ++ zeros (length recs) ++ zeros (length meta) ++ zeros 32 ++
    drop (Z.to_nat measured) a).
  { unfold put. simpl. unfold zeros. rewrite length_replicate.
    replace (Z.to_nat measured) with (352 + (length recs + (length meta + 32)))%nat at 1 by lia.
    rewrite !replicate_add, <- !app_assoc. done. }
  rewrite E0. set (t := zeros 32 ++ drop (Z.to_nat measured) a). clearbody t. clear E0.
  assert (E1 : (if Z.of_nat (length recs) =? 0
    then zeros 352 ++ zeros (length recs) ++ zeros (length meta) ++ t
    else put 352 recs (zeros 352 ++ zeros (length recs) ++ zeros (length meta) ++ t)) =
    (zeros 352 ++ recs) ++ zeros (length meta) ++ t).
  { destruct (Z.eqb_spec (Z.of_nat (length recs)) 0) as [Hz|].
    - destruct recs; [by rewrite <- app_assoc|simpl in Hz; lia].
    - change 352 with (Z.of_nat (length (zeros 352))). rewrite put_next.
      by rewrite drop_zeros. }
  rewrite E1. destruct (Z.eqb_spec (Z.of_nat (length meta)) 0) as [Hz|].
  - destruct meta; [by rewrite <- app_assoc|simpl in Hz; lia].
  - replace (352 + Z.of_nat (length recs)) with (Z.of_nat (length (zeros 352 ++ recs)))
      by (rewrite length_app, Nat2Z.inj_add; done).
    rewrite put_next, drop_zeros. by rewrite <- !app_assoc.
Qed.
End Writing.

(** C24: writing and validating are inverse.  For well-formed inputs writing
    succeeds if and only if the contract is valid, the size fits 64 bits and
    the buffer, and the keys obey the access law; the buffer then starts with
    an artifact of the measured size, and validating that artifact against the
    contract returns the records, the metadata and the count that were written.
    When writing fails the buffer is untouched. *)
Theorem write_validate_roundtrip {B : Blake3} {L : Blake3Laws B} c l count ml mb a n0 :
  contract_wf c -> is_u64 count -> is_u64 mb ->
  count * stride_of c <= Z.of_nat (length l) -> mb <= Z.of_nat (length ml) ->
  let recs := slice 0 (count * stride_of c) l in
  let meta := slice 0 mb ml in
  let size := artifact_size c count mb in
  let '(status, a', n) :=
    laplace_perfcache_write (Some (mk_spec c (Some l) count (Some ml) mb)) (Some a)
      (Z.of_nat (length a)) (Some n0) in
  (status = LAPLACE_PERFCACHE_OK <->
     contract_valid c = true /\ size <= UINT64_MAX /\ size <= Z.of_nat (length a) /\
     records_access_law_valid recs count c (stride_of c) = LAPLACE_PERFCACHE_OK) /\
  (status = LAPLACE_PERFCACHE_OK -> n = Some size /\ exists r, a' = Some r /\
     forall out, laplace_perfcache_validate (Some (take (Z.to_nat size) r)) size (Some c)
       (Some out) = (LAPLACE_PERFCACHE_OK, Some (view_of c count recs meta))) /\
  (status <> LAPLACE_PERFCACHE_OK -> a' = Some a).
Proof.
  intros Hwf Hcount Hmb Hl Hml. cbv zeta.
  unfold laplace_perfcache_write, measure_internal. ptrs.
  cbn [spec_contract spec_records spec_record_count spec_metadata spec_metadata_bytes is_null
    store]. change (default [] (Some l)) with l. change (default [] (Some ml)) with ml.
  rewrite !andb_false_r. cbn [orb].
  rewrite measure_spec by done. destruct (contract_valid c) eqn:Hv.
  2:{ split; [|done]. split; [done|]. by intros []. }
  destruct (Z.leb_spec (artifact_size c count mb) UINT64_MAX) as [Hsz|Hsz].
  2:{ split; [|done]. split; [done|]. intros (_ & ? & _). lia. }
  destruct (Z.ltb_spec (Z.of_nat (length a)) (artifact_size c count mb)) as [Hcap|Hcap].
  { split; [|done]. split; [done|]. intros (_ & _ & ? & _). lia. }
  pose proof (contract_valid_stride c Hv Hwf) as (_ & Hst & _). rewrite u32_small by lia.
  assert (Hrb : 0 <= count * stride_of c) by lia.
  set (recs := slice 0 (count * stride_of c) l). set (meta := slice 0 mb ml).
  assert (Hlr : Z.of_nat (length recs) = count * stride_of c)
    by (subst recs; rewrite length_slice; lia).
  assert (Hlm : Z.of_nat (length meta) = mb) by (subst meta; rewrite length_slice; lia).
  assert (Hlaw : records_access_law_valid l count c (stride_of c) =
                 records_access_law_valid recs count c (stride_of c)).
  { rewrite <- (take_drop (length recs) l) at 1.
    assert (Hrecs : take (length recs) l = recs).
    { subst recs. unfold slice at 2. simpl. f_equal. lia. }
    rewrite Hrecs. apply access_law_app; done || lia. }
  rewrite Hlaw.
  destruct (decide (records_access_law_valid recs count c (stride_of c) = LAPLACE_PERFCACHE_OK))
    as [Hok|Hno].
  2:{ assert (Hn : ~ (true = true /\ artifact_size c count mb <= UINT64_MAX /\
        artifact_size c count mb <= Z.of_nat (length a) /\
        records_access_law_valid recs count c (stride_of c) = LAPLACE_PERFCACHE_OK))
        by (intros (_ & _ & _ & ?); done).
      destruct (records_access_law_valid recs count c (stride_of c)); done. }
  assert (Hvalid : content_valid c count recs meta).
  { split; [done|lia|done|unfold artifact_size in Hsz; lia|done]. }
  rewrite Hok. cbv zeta. fold recs meta.
  assert (Hfit : artifact_size c count mb = 384 + Z.of_nat (length recs) + Z.of_nat (length meta))
    by (unfold artifact_size; lia).
  pose proof (staged_buffer recs meta a (artifact_size c count mb) Hfit Hcap) as Hstage.
  cbv zeta in Hstage. rewrite Hlr, Hlm in Hstage. rewrite Hstage.
  assert (Ht : (32 <= length (zeros 32 ++ drop (Z.to_nat (artifact_size c count mb)) a))%nat)
    by (rewrite length_app; simpl; lia).
  pose proof (seal_canonical c count recs meta (zeros 352) _ (Z.of_nat (length a))
    (artifact_size c count mb) (zeros 32) Hwf Hvalid eq_refl Ht) as Hseal.
  rewrite Hlm in Hseal. rewrite (Hseal Hcap).
  split; [|split; [|done]].
  - split; [|done]. intros _. done.
  - intros _. split; [done|]. eexists. split; [done|]. intros out.
    pose proof (canonical_length c count recs meta Hwf) as Hlen.
    assert (Hsize : artifact_size c count mb =
                    Z.of_nat (length (canonical_artifact c count recs meta)))
      by (unfold artifact_size; lia).
    rewrite Hsize, Nat2Z.id, take_app_length. by apply validate_canonical.
Qed.

(** ** Lookup *)
(** The key of record [i]. *)
Definition key_of (c : laplace_perfcache_contract) (recs : list Z) (i : Z) : list Z :=
  record_key recs (stride_of c) (key_bytes c) i.

Lemma sorted_keys c count recs :
  records_access_law_valid recs count c (stride_of c) = LAPLACE_PERFCACHE_OK ->
  access_law c = 1 -> forall i j, 0 <= i < j -> j < count ->
  memcmp (key_of c recs i) (key_of c recs j) = Lt.
Proof.
  intros Hlaw Hc i j Hij Hj. unfold records_access_law_valid in Hlaw.
  rewrite (proj2 (Z.eqb_neq count 0)), Hc in Hlaw by lia. cbn [Z.eqb Pos.eqb] in Hlaw.
  destruct (records_sorted_unique _ _ _ _) eqn:Hs; [|done].
  assert (Hstep : forall k, 0 <= k -> k + 1 < count ->
    memcmp (key_of c recs k) (key_of c recs (k + 1)) = Lt).
  { intros k Hk Hk1. unfold records_sorted_unique in Hs.
    rewrite forallb_forall in Hs. specialize (Hs (Z.to_nat (k + 1))).
    rewrite Z2Nat.id, Z.add_simpl_r in Hs by lia. unfold key_of.
    destruct (memcmp _ _); [|done|]; (assert (false = true); [|done]); apply Hs, in_seq; lia. }
  destruct Hij as [Hi Hlt]. replace j with (i + 1 + Z.of_nat (Z.to_nat (j - i - 1))) in * by lia.
  induction (Z.to_nat (j - i - 1)) as [|n IH].
  { rewrite Z.add_0_r in *. by apply Hstep. }
  eapply memcmp_lt_trans; [apply IH; lia|].
  replace (i + 1 + Z.of_nat (S n)) with (i + 1 + Z.of_nat n + 1) by lia. apply Hstep; lia.
Qed.

Lemma dense_keys c count recs :
  records_access_law_valid recs count c (stride_of c) = LAPLACE_PERFCACHE_OK ->
  access_law c = 2 -> key_bytes c = 4 -> 0 < count ->
  count <= UINT32_MAX + 1 /\
  forall i, 0 <= i < count -> load_le (key_of c recs i) = i.
Proof.
  intros Hlaw Hc Hk Hpos. unfold records_access_law_valid in Hlaw.
  rewrite (proj2 (Z.eqb_neq count 0)), Hc in Hlaw by lia. cbn [Z.eqb Pos.eqb] in Hlaw.
  destruct (dense_u32_zero_based_keys _ _ _) eqn:Hd; [|done].
  unfold dense_u32_zero_based_keys in Hd. casec_in Hd; [done|]. split; [lia|].
  intros i Hi. rewrite forallb_forall in Hd. specialize (Hd (Z.to_nat i)).
  rewrite Z2Nat.id in Hd by lia. rewrite u32_small in Hd by lia.
  unfold key_of, record_key. rewrite Hk. apply Z.eqb_eq, Hd, in_seq. lia.
Qed.

(** The answer to one key. *)
Definition answers (c : laplace_perfcache_contract) (count : Z) (recs key : list Z)
    (r : Z * Z) : Prop :=
  (r.1 = 1 /\ 0 <= r.2 < count /\ key_of c recs r.2 = key /\
   forall j, 0 <= j < count -> key_of c recs j = key -> j = r.2) \/
  (r = (0, UINT64_MAX) /\ forall j, 0 <= j < count -> key_of c recs j <> key).

Section Lookup.
Context {B : Blake3} {L : Blake3Laws B}.
Context (c : laplace_perfcache_contract) (count : Z) (recs meta : list Z).
Context (Hwf : contract_wf c) (Hvalid : content_valid c count recs meta).
Local Abbreviation view := (view_of c count recs meta).

Lemma view_key i : 0 <= i < count ->
  record_key (records view) (stride_of c) (key_bytes c) i = key_of c recs i.
Proof.
  intros Hi. destruct Hvalid, Hwf. apply (record_key_app _ _ _ _ _ count); [done| |done].
  unfold stride_of. lia.
Qed.

Lemma lookup_sorted key tail :
  access_law c = 1 -> Z.of_nat (length key) = key_bytes c ->
  exists r, lookup_key view (key ++ tail) = Some r /\ answers c count recs key r.
Proof.
  intros Hlaw Hlen. pose proof Hvalid as [Hv Hcount Hl Hsize Hok].
  pose proof (sorted_keys c count recs Hok Hlaw) as Hsorted.
  unfold lookup_key. cbn [contract view_of record_count record_stride]. rewrite Hlaw.
  cbn [Z.eqb Pos.eqb negb]. rewrite slice_app_l, slice_all by (destruct Hwf; lia).
  set (rec := fun i => record_key (records view) (stride_of c) (key_bytes c) i).
  set (before := fun middle => match memcmp key (rec middle) with Gt => true | _ => false end).
  assert (Hrec : forall i, 0 <= i < count -> rec i = key_of c recs i) by apply view_key.
  destruct (lower_bound_spec before (Z.to_nat count) 0 count) as (Hr & Hbelow & Habove);
    [lia|lia| |].
  { intros i j Hij Hj Hb. unfold before in *. destruct (Z.eq_dec i j) as [->|]; [done|].
    pose proof (Hsorted i j ltac:(lia) Hj) as Hlt. rewrite Hrec in * by lia.
    assert (Hji : memcmp (key_of c recs j) key = Lt).
    { rewrite memcmp_antisym. by destruct (memcmp key (key_of c recs j)). }
    rewrite memcmp_antisym. by rewrite (memcmp_lt_trans _ _ _ Hlt Hji). }
  set (low := lower_bound (Z.to_nat count) before 0 count) in *.
  assert (Hbefore : forall i, before i = true <-> memcmp key (rec i) = Gt)
    by (intros i; unfold before; by destruct (memcmp key (rec i))).
  exists (if (low <? count) && bytes_equal key (rec low) then (1, low) else (0, UINT64_MAX)).
  split; [reflexivity|].
  destruct (Z.ltb_spec low count) as [Hlow|Hlow]; cbn [andb].
  2:{ right. split; [done|]. intros j Hj Hkey. specialize (Hbelow j ltac:(lia)).
      apply Hbefore in Hbelow. rewrite Hrec, Hkey, memcmp_refl in Hbelow by done. done. }
  destruct (bytes_equal key (rec low)) eqn:Heq.
  - apply bytes_equal_spec in Heq. rewrite Hrec in Heq by lia. left. simpl.
    split; [done|]. split; [lia|]. split; [done|]. intros j Hj Hkey.
    destruct (Z.lt_trichotomy j low) as [H|[H|H]]; [|done|].
    + pose proof (Hsorted j low ltac:(lia) Hlow) as Hs.
      rewrite Hkey, <- Heq, memcmp_refl in Hs. done.
    + pose proof (Hsorted low j ltac:(lia) ltac:(lia)) as Hs.
      rewrite Hkey, <- Heq, memcmp_refl in Hs. done.
  - apply bytes_equal_false in Heq. right. split; [done|]. intros j Hj Hkey.
    destruct (Z.lt_trichotomy j low) as [H|[H|H]].
    + specialize (Hbelow j ltac:(lia)). apply Hbefore in Hbelow.
      rewrite Hrec, Hkey, memcmp_refl in Hbelow by done. done.
    + apply Heq. by rewrite Hrec, <- H by lia.
    + pose proof (Hsorted low j ltac:(lia) ltac:(lia)) as Hs. rewrite Hkey in Hs.
      assert (before low = true); [|rewrite Habove in *; done || lia].
      apply Hbefore. rewrite memcmp_antisym, Hrec by lia. by rewrite Hs.
Qed.

Lemma lookup_dense key tail :
  access_law c = 2 -> bytes 4 key -> bytes (length recs) recs ->
  exists r, lookup_key view (key ++ tail) = Some r /\ answers c count recs key r.
Proof.
  intros Hlaw Hkey Hrecs. pose proof Hvalid as [Hv Hcount Hl Hsize Hok].
  pose proof (contract_valid_stride c Hv Hwf) as (_ & Hst & _ & Hk).
  assert (Hkb : key_bytes c = 4) by lia. pose proof Hkey as [Hlen _].
  unfold lookup_key. cbn [contract view_of record_count]. rewrite Hlaw. cbn [Z.eqb Pos.eqb].
  unfold read_u32_le. rewrite slice_app_l, slice_all by lia.
  pose proof (load_le_bound 4 key Hkey) as Hb.
  eexists. split; [reflexivity|].
  assert (Hcode : forall i, 0 <= i < count -> key_of c recs i = key <-> load_le key = i).
  { intros i Hi. destruct (dense_keys c count recs Hok Hlaw Hkb ltac:(lia)) as [_ Hd].
    specialize (Hd i Hi). split; [by intros <-|]. intros Heq.
    assert (Hs : bytes 4 (key_of c recs i)).
    { unfold key_of, record_key. rewrite Hkb. apply (slice_bytes 4); [done|lia|].
      unfold stride_of in *. destruct Hwf. nia. }
    rewrite <- (store_load_le 4 _ Hs), <- (store_load_le 4 _ Hkey). congruence. }
  destruct (Z.ltb_spec (load_le key) count).
  - left. simpl. split; [done|]. split; [lia|]. split; [by apply Hcode; [lia|]|].
    intros j Hj Hj'. symmetry. by apply Hcode.
  - right. split; [done|]. intros j Hj Hj'. apply Hcode in Hj'; lia.
Qed.
End Lookup.

(** C26: lookup is exact and total.  On a validated view every batch of keys is
    answered: a key that some record carries is found at the index of the only
    such record, whether by binary search or by its dense position, and every
    other key is reported absent with the index UINT64_MAX; nothing beyond the
    answers is written.  A view of a module-defined law is refused. *)
Theorem lookup_exact {B : Blake3} {L : Blake3Laws B} c count recs meta keys n ri fd :
  contract_wf c -> content_valid c count recs meta -> bytes (length recs) recs ->
  bytes (length keys) keys -> 0 < n -> n * key_bytes c <= Z.of_nat (length keys) <= SIZE_MAX ->
  let '(status, ri', fd') :=
    laplace_perfcache_lookup_batch (Some (view_of c count recs meta)) (Some keys) n
      (Some ri) (Some fd) in
  if decide (access_law c = LAPLACE_PERFCACHE_ACCESS_MODULE_DEFINED)
  then status = LAPLACE_PERFCACHE_LOOKUP_UNSUPPORTED /\ ri' = Some ri /\ fd' = Some fd
  else status = LAPLACE_PERFCACHE_OK /\ exists results,
    Forall2 (fun i r => answers c count recs (slice (Z.of_nat i * key_bytes c) (key_bytes c) keys) r)
      (seq 0 (Z.to_nat n)) results /\
    ri' = Some (map snd results ++ drop (Z.to_nat n) ri) /\
    fd' = Some (map fst results ++ drop (Z.to_nat n) fd).
Proof.
  intros Hwf Hvalid Hrecs Hkeys Hn Hlen. pose proof Hvalid as [Hv Hcount Hl Hsize Hok].
  pose proof (contract_valid_stride c Hv Hwf) as (_ & Hst & _ & Hlaw).
  unfold laplace_perfcache_lookup_batch. ptrs. cbn [contract view_of record_stride].
  rewrite !andb_false_r, Hv. fold (stride_of c). rewrite u32_small, Z.eqb_refl by lia.
  cbn [negb orb]. case_decide as Hmod; [by rewrite Hmod|].
  rewrite (proj2 (Z.eqb_neq (access_law c) 3)) by done.
  assert (Hkb : 0 < key_bytes c) by lia.
  assert (n <= SIZE_MAX / key_bytes c) by (apply Z.div_le_lower_bound; lia).
  rewrite (proj2 (Z.ltb_ge _ n)) by done. rewrite andb_false_r.
  change (default [] (Some keys)) with keys.
  set (key := fun i => drop (i * Z.to_nat (key_bytes c)) keys).
  assert (Hone : forall i, (i < Z.to_nat n)%nat -> exists r,
    lookup_key (view_of c count recs meta) (key i) = Some r /\
    answers c count recs (slice (Z.of_nat i * key_bytes c) (key_bytes c) keys) r).
  { intros i Hi. set (k := slice (Z.of_nat i * key_bytes c) (key_bytes c) keys).
    assert (Hki : key i = k ++ drop (Z.to_nat (key_bytes c)) (key i)).
    { subst k key. unfold slice. cbv beta.
      replace (Z.to_nat (Z.of_nat i * key_bytes c)) with (i * Z.to_nat (key_bytes c))%nat by lia.
      by rewrite take_drop. }
    assert (Hin : Z.of_nat i * key_bytes c + key_bytes c <= Z.of_nat (length keys)) by nia.
    rewrite Hki. assert (access_law c = 1 \/ access_law c = 2) as [E|E] by lia.
    - apply lookup_sorted; [done|done|done|]. subst k. rewrite length_slice; lia.
    - assert (Hk4 : key_bytes c = 4) by lia. apply lookup_dense; [done|done|done| |done].
      subst k. rewrite Hk4 in *. apply (slice_bytes 4); [done|lia|lia]. }
  assert (Hloop : forall idx, (forall i, i ∈ idx -> (i < Z.to_nat n)%nat) -> exists results,
    lookup_loop (view_of c count recs meta) (map key idx) = (LAPLACE_PERFCACHE_OK, results) /\
    Forall2 (fun i r => answers c count recs (slice (Z.of_nat i * key_bytes c) (key_bytes c) keys) r)
      idx results).
  { induction idx as [|i idx IH]; intros His; [by exists []|]. cbn [map lookup_loop].
    destruct (Hone i) as (r & -> & Hr); [apply His; left|].
    destruct IH as (results & -> & Hrs); [intros j Hj; apply His; by right|].
    eexists. split; [done|]. by constructor. }
  destruct (Hloop (seq 0 (Z.to_nat n))) as (results & -> & Hres).
  { intros i Hi%elem_of_seq. lia. }
  split; [done|]. exists results. split; [done|].
  apply Forall2_length in Hres. rewrite length_seq in Hres. rewrite !length_map, Hres. done.
Qed.

(** ** The reference epoch *)
(** The contract of the same module in another epoch. *)
Definition in_epoch (c : laplace_perfcache_contract) (epoch fingerprint dependency : list Z)
    : laplace_perfcache_contract :=
  mk_contract (module_id c) (key_schema_id c) (value_schema_id c) epoch fingerprint
    (module_contract_fingerprint c) (source_fingerprint c) (recipe_fingerprint c) dependency
    (key_bytes c) (value_bytes c) (access_law c) (flags c).

Lemma put_piece pieces : forall i p d off,
  pieces !! i = Some p -> length d = length p ->
  off = Z.of_nat (sum_list (map length (take i pieces))) ->
  put off d (concat pieces) = concat (<[i := d]> pieces).
Proof.
  intros i p d off Hi Hd ->. unfold put. rewrite Nat2Z.id, Hd.
  revert i Hi. induction pieces as [|q pieces IH]; intros [|i] Hi; simpl in *; try done.
  - injection Hi as ->. by rewrite drop_app_length.
  - rewrite take_app_ge, drop_app_ge by lia. rewrite <- (IH i Hi), <- app_assoc. f_equal.
    replace (length q + sum_list (map length (take i pieces)) - length q)%nat
      with (sum_list (map length (take i pieces))) by lia.
    by replace (length q + sum_list (map length (take i pieces)) + length p - length q)%nat
      with (sum_list (map length (take i pieces)) + length p)%nat by lia.
Qed.

Lemma header_in_epoch c count mb epoch fingerprint dependency :
  contract_wf c -> length epoch = 16%nat -> length fingerprint = 32%nat ->
  length dependency = 32%nat ->
  put 216 dependency (put 88 fingerprint (put 72 epoch (concat (header_pieces c count mb)))) =
  concat (header_pieces (in_epoch c epoch fingerprint dependency) count mb).
Proof.
  intros Hwf He Hf Hd. pose proof (header_pieces_lengths c count mb Hwf) as Hl.
  destruct Hwf as [_ _ _ [Hep _] [Hfp _] _ _ _ [Hdp _] _ _ _ _].
  rewrite (put_piece _ 7 (activation_epoch_id c));
    [|done|congruence|by rewrite <- firstn_map, Hl].
  rewrite (put_piece _ 8 (activation_epoch_fingerprint c)); [|done|congruence|].
  2:{ unfold header_pieces, header_writes in *. cbn [map app snd take insert list_insert] in *.
      injection Hl as Hl. cbn [sum_list map]. rewrite He. repeat match goal with H : length _ = _ |- _ => rewrite H; clear H end. reflexivity. }
  rewrite (put_piece _ 12 (dependency_fingerprint c)); [done|done|congruence|].
  unfold header_pieces, header_writes in *. cbn [map app snd take insert list_insert] in *.
  injection Hl as Hl. cbn [sum_list map]. rewrite He, Hf. repeat match goal with H : length _ = _ |- _ => rewrite H; clear H end. reflexivity.
Qed.

(** the reference projection is the digest the same content would have.
    It is computed exactly for artifacts that validate, and equals the artifact
    digest of the same records, metadata and count under the contract that
    differs only in epoch, epoch fingerprint and dependency fingerprint; a
    failure publishes the zero digest. *)
Theorem reference_epoch_digest_exact {B : Blake3} {L : Blake3Laws B} a c epoch fp dep out :
  bytes (length a) a -> contract_wf c ->
  length epoch = 16%nat -> length fp = 32%nat -> length dep = 32%nat ->
  let '(status, digest) :=
    laplace_perfcache_reference_epoch_digest (Some a) (Z.of_nat (length a)) (Some c)
      (Some epoch) (Some fp) (Some dep) (Some out) in
  (status = LAPLACE_PERFCACHE_OK <->
     exists count recs meta, content_valid c count recs meta /\
       a = canonical_artifact c count recs meta) /\
  (forall count recs meta, content_valid c count recs meta ->
     a = canonical_artifact c count recs meta ->
     digest = Some (artifact_digest (view_of (in_epoch c epoch fp dep) count recs meta))) /\
  (status <> LAPLACE_PERFCACHE_OK -> digest = Some (zeros 32)).
Proof.
  intros Ha Hwf He Hf Hd. unfold laplace_perfcache_reference_epoch_digest. cbn [store].
  pose proof (validate_sound a c empty_view) as Hsound.
  assert (Hcanon : forall count recs meta, content_valid c count recs meta ->
    a = canonical_artifact c count recs meta ->
    laplace_perfcache_validate (Some a) (Z.of_nat (length a)) (Some c) (Some empty_view) =
    (LAPLACE_PERFCACHE_OK, Some (view_of c count recs meta))).
  { intros count recs meta Hvalid ->. by apply validate_canonical. }
  assert (Hdigest : forall count recs meta, content_valid c count recs meta ->
    a = canonical_artifact c count recs meta ->
    blake3_hasher_finalize
      (blake3_hasher_update
        (blake3_hasher_update blake3_hasher_init (put 216 dep (put 88 fp (put 72 epoch (slice 0 352 a)))))
        (slice 352 (Z.of_nat (length a) - 352 - 32) a)) =
    blake3 (artifact_body (in_epoch c epoch fp dep) count recs meta)).
  { intros count recs meta Hvalid ->. rewrite canonical_length by done.
    unfold canonical_artifact, artifact_body. rewrite <- !app_assoc.
    set (mb := Z.of_nat (length meta)).
    pose proof (header_length c count mb Hwf) as Hhl.
    rewrite (slice_app_l 0), slice_all by lia. rewrite slice_app_r by lia. rewrite Hhl.
    change (352 - Z.of_nat 352) with 0. rewrite header_in_epoch by done.
    rewrite (app_assoc recs), slice_app_l, slice_all
      by (rewrite ?length_app, ?Nat2Z.inj_add; lia).
    apply absorbs_finalize. eapply absorbs_update, absorbs_first. }
  destruct (laplace_perfcache_validate _ _ _ _) as [status view].
  destruct (decide (status = LAPLACE_PERFCACHE_OK)) as [->|Hne].
  - split; [split; [intros _; by apply (Hsound view)|done]|]. split; [|done].
    intros count recs meta Hvalid Heq. f_equal. by apply Hdigest.
  - assert (Hno : ~ exists count recs meta, content_valid c count recs meta /\
      a = canonical_artifact c count recs meta).
    { intros (count & recs & meta & Hvalid & Heq). specialize (Hcanon _ _ _ Hvalid Heq).
      congruence. }
    destruct status; [done|..]; (split; [by split|]); (split; [|done]);
      intros count recs meta Hvalid Heq; exfalso; apply Hno; by exists count, recs, meta.
Qed.

(** ** Record validation
    With a validator that only looks at the record, the first rejected record
    decides status and index. *)
Lemma validate_records_first v (p : Z -> list Z -> laplace_perfcache_status) i0 :
  contract_valid (contract v) = true ->
  record_stride v = u32 (key_bytes (contract v) + value_bytes (contract v)) ->
  0 <= record_count v ->
  let record i := drop (Z.to_nat (i * record_stride v)) (records v) in
  let '(status, index, _) :=
    laplace_perfcache_validate_records (Some v) (Some (fun (u : unit) i r _ => (p i r, u))) tt
      (Some i0) in
  (status = LAPLACE_PERFCACHE_OK /\ index = Some UINT64_MAX /\
   forall i, 0 <= i < record_count v -> p i (record i) = LAPLACE_PERFCACHE_OK) \/
  (status <> LAPLACE_PERFCACHE_OK /\ exists k, index = Some k /\ 0 <= k < record_count v /\
   p k (record k) = status /\ forall i, 0 <= i < k -> p i (record i) = LAPLACE_PERFCACHE_OK).
Proof.
  intros Hv Hs Hc record. unfold laplace_perfcache_validate_records.
  rewrite Hv, <- Hs, Z.eqb_refl. cbn [negb orb].
  assert (Hloop : forall n b,
    let '(status, index, _) := validate_records_loop (fun (u : unit) i r _ => (p i r, u)) v tt
      (seq b n) in
    (status = LAPLACE_PERFCACHE_OK /\ index = UINT64_MAX /\
     forall i, Z.of_nat b <= i < Z.of_nat (b + n) -> p i (record i) = LAPLACE_PERFCACHE_OK) \/
    (status <> LAPLACE_PERFCACHE_OK /\ Z.of_nat b <= index < Z.of_nat (b + n) /\
     p index (record index) = status /\
     forall i, Z.of_nat b <= i < index -> p i (record i) = LAPLACE_PERFCACHE_OK)).
  { induction n as [|n IH]; intros b; cbn [seq validate_records_loop].
    { left. split; [done|]. split; [done|]. intros; lia. }
    fold (record (Z.of_nat b)). destruct (p (Z.of_nat b) (record (Z.of_nat b))) eqn:E.
    2-22: right; (split; [done|]); (split; [lia|]); (split; [done|]); intros; lia.
    specialize (IH (S b)). destruct (validate_records_loop _ _ _ _) as [[st idx] u].
    destruct IH as [(H1 & H2 & H3)|(H1 & H2 & H3 & H4)]; [left|right].
    - split; [done|]. split; [done|]. intros i Hi.
      destruct (Z.eq_dec i (Z.of_nat b)) as [->|]; [done|]. apply H3. lia.
    - split; [done|]. split; [lia|]. split; [done|]. intros i Hi.
      destruct (Z.eq_dec i (Z.of_nat b)) as [->|]; [done|]. apply H4. lia. }
  specialize (Hloop (Z.to_nat (record_count v)) 0%nat).
  destruct (validate_records_loop _ _ _ _) as [[st idx] u].
  destruct Hloop as [(H1 & H2 & H3)|(H1 & H2 & H3 & H4)]; [left|right].
  - split; [done|]. split; [by f_equal|]. intros i Hi. apply H3. lia.
  - split; [done|]. exists idx. split; [done|]. split; [lia|]. split; [done|]. intros i Hi.
    apply H4. lia.
Qed.

(** ** A two-record artifact *)
Definition sample_contract : laplace_perfcache_contract :=
  mk_contract (replicate 16 1) (replicate 16 2) (replicate 16 3) (replicate 16 4)
    (replicate 32 5) (replicate 32 6) (replicate 32 7) (replicate 32 8) (replicate 32 9)
    2 1 1 0.
Definition sample_records : list Z := [1; 2; 9; 3; 4; 8].
Definition sample_metadata : list Z := [7].
Definition sample_artifact : list Z :=
  canonical_artifact (B := checksum_blake3) sample_contract 2 sample_records sample_metadata.

Lemma sample_contract_wf : contract_wf sample_contract.
Proof. split; cbn; lia || check. Qed.

Lemma sample_content : content_valid sample_contract 2 sample_records sample_metadata.
Proof. split; [reflexivity|lia|reflexivity|vm_compute; discriminate|reflexivity]. Qed.

Lemma sample_artifact_bytes : bytes (length sample_artifact) sample_artifact.
Proof. check. Qed.

Lemma validate_exact_witness :
  (laplace_perfcache_validate (B := checksum_blake3) (Some sample_artifact)
     (Z.of_nat (length sample_artifact)) (Some sample_contract) (Some empty_view)).1 =
  LAPLACE_PERFCACHE_OK.
Proof.
  pose proof (validate_exact (B := checksum_blake3) (L := checksum_blake3_laws)
    sample_artifact sample_contract empty_view sample_artifact_bytes sample_contract_wf) as H.
  destruct (laplace_perfcache_validate _ _ _ _) as [status view]. destruct H as [H _].
  apply H. exists 2, sample_records, sample_metadata. split; [exact sample_content|reflexivity].
Defined.

Lemma write_validate_roundtrip_witness :
  (laplace_perfcache_write (B := checksum_blake3)
     (Some (mk_spec sample_contract (Some sample_records) 2 (Some sample_metadata) 1))
     (Some (zeros 400)) (Z.of_nat (length (zeros 400))) (Some 0)).1.1 = LAPLACE_PERFCACHE_OK.
Proof.
  pose proof (write_validate_roundtrip (B := checksum_blake3) (L := checksum_blake3_laws)
    sample_contract sample_records 2 sample_metadata 1 (zeros 400) 0 sample_contract_wf
    ltac:(lia) ltac:(lia) ltac:(vm_compute; discriminate) ltac:(vm_compute; discriminate)) as H.
  cbv zeta in H. destruct (laplace_perfcache_write _ _ _ _) as [[status a] n].
  destruct H as [H _]. apply H.
  split; [reflexivity|]. split; [vm_compute; discriminate|].
  split; [vm_compute; discriminate|reflexivity].
Defined.

Lemma sample_records_bytes : bytes (length sample_records) sample_records.
Proof. check. Qed.

Lemma sample_keys_bytes : bytes (length [3; 4; 3; 5]) [3; 4; 3; 5].
Proof. check. Qed.

Lemma lookup_exact_witness :
  (laplace_perfcache_lookup_batch
     (Some (view_of (B := checksum_blake3) sample_contract 2 sample_records sample_metadata))
     (Some [3; 4; 3; 5]) 2 (Some [0; 0]) (Some [0; 0])).1.1 = LAPLACE_PERFCACHE_OK.
Proof.
  pose proof (lookup_exact (B := checksum_blake3) (L := checksum_blake3_laws)
    sample_contract 2 sample_records sample_metadata [3; 4; 3; 5] 2 [0; 0] [0; 0]
    sample_contract_wf sample_content sample_records_bytes sample_keys_bytes
    ltac:(lia) ltac:(vm_compute; split; discriminate)) as H.
  destruct (laplace_perfcache_lookup_batch _ _ _ _ _) as [[status ri] fd].
  rewrite decide_False in H by discriminate. destruct H as [H _]. exact H.
Defined.

Lemma reference_epoch_digest_exact_witness :
  (laplace_perfcache_reference_epoch_digest (B := checksum_blake3) (Some sample_artifact)
     (Z.of_nat (length sample_artifact)) (Some sample_contract) (Some (replicate 16 0))
     (Some (replicate 32 0)) (Some (replicate 32 0)) (Some [])).1 = LAPLACE_PERFCACHE_OK.
Proof.
  pose proof (reference_epoch_digest_exact (B := checksum_blake3) (L := checksum_blake3_laws)
    sample_artifact sample_contract (replicate 16 0) (replicate 32 0) (replicate 32 0) []
    sample_artifact_bytes sample_contract_wf eq_refl eq_refl eq_refl) as H.
  destruct (laplace_perfcache_reference_epoch_digest _ _ _ _ _ _ _) as [status digest].
  destruct H as [H _]. apply H. exists 2, sample_records, sample_metadata.
  split; [exact sample_content|reflexivity].
Defined.
