(* ===== verification/PersistenceFrames.v ===== *)
(** * Persistence frames: the byte form of the records of a deposit

    Models the first part of [engine/src/persistence.c], up to
    [laplace_persistence_frame_decode], and [engine/include/laplace/persistence.h]:
    the frame of each record kind, the validity of its scalars, its identity,
    its encoder and its decoder, and the fingerprints of trajectories and of the
    plan sequence.  The union of a decoded record is a sum type.  A payload is
    the list of its fields in the order of the [memcpy]s of the encoder, and is
    read back field by field; a [double] is its bit pattern. *)
From stdpp Require Import prelude strings.
From Stdlib Require Import ZArith Lia SpecFloat.
From S2P Require Import Prelude Bytes Sorting Hash Identity Trajectory Binary64 Geometry.

(** ** Contract constants ([contracts/persistence.json]) *)
Abbreviation LAPLACE_PERSISTENCE_STREAM_RECORD_TYPE := 262145 (only parsing).
Abbreviation LAPLACE_PERSISTENCE_FRAME_VERSION := 1 (only parsing).
Abbreviation FRAME_HEADER_BYTES := 8 (only parsing).
Abbreviation LAPLACE_PERSISTENCE_RECORD_ENTITY := 1 (only parsing).
Abbreviation LAPLACE_PERSISTENCE_RECORD_PHYSICALITY := 2 (only parsing).
Abbreviation LAPLACE_PERSISTENCE_RECORD_PHYSICALITY_TRAJECTORY_SEGMENT := 3 (only parsing).
Abbreviation LAPLACE_PERSISTENCE_RECORD_ATTESTATION := 4 (only parsing).
Abbreviation LAPLACE_PERSISTENCE_RECORD_CONSENSUS := 5 (only parsing).
Abbreviation LAPLACE_PERSISTENCE_ENTITY_PAYLOAD_BYTES := 48 (only parsing).
Abbreviation LAPLACE_PERSISTENCE_PHYSICALITY_PAYLOAD_BYTES := 224 (only parsing).
Abbreviation LAPLACE_PERSISTENCE_PHYSICALITY_TRAJECTORY_SEGMENT_PAYLOAD_BYTES := 72
  (only parsing).
Abbreviation LAPLACE_PERSISTENCE_ATTESTATION_PAYLOAD_BYTES := 160 (only parsing).
Abbreviation LAPLACE_PERSISTENCE_CONSENSUS_PAYLOAD_BYTES := 176 (only parsing).
Abbreviation LAPLACE_PERSISTENCE_PHYSICALITY_COMPOSITION := 1 (only parsing).
Abbreviation LAPLACE_PERSISTENCE_PHYSICALITY_ATOMIC_POINT := 2 (only parsing).
Abbreviation LAPLACE_PERSISTENCE_VERTEX_NONE := 0 (only parsing).
Abbreviation LAPLACE_PERSISTENCE_VERTEX_TRAJECTORY_CARRIER := 1 (only parsing).
Abbreviation LAPLACE_PERSISTENCE_STRUCTURAL_ORDERED_COMPOSITION := 1 (only parsing).
Abbreviation LAPLACE_PERSISTENCE_STRUCTURAL_ATOMIC_POINT := 2 (only parsing).
Abbreviation LAPLACE_PERSISTENCE_PHYSICALITY_FLAGS_NONE := 0 (only parsing).
Abbreviation LAPLACE_PERSISTENCE_ATTESTATION_HAS_PHYSICALITY := 1 (only parsing).
Abbreviation LAPLACE_PERSISTENCE_ATTESTATION_OBSERVED_OCCURRENCE := 1 (only parsing).
Abbreviation LAPLACE_PERSISTENCE_ATTESTATION_DERIVED_CLAIM := 4 (only parsing).
Abbreviation LAPLACE_PERSISTENCE_PG_PLAN_COUNT := 11 (only parsing).

Definition PHYSICALITY_DOMAIN : list Z := domain_bytes "laplace-physicality-record-v1".
Definition TRAJECTORY_DOMAIN : list Z := domain_bytes "laplace-composition-trajectory-v1".
Definition ATTESTATION_DOMAIN : list Z := domain_bytes "laplace-attestation-record-v1".
Definition CONSENSUS_DOMAIN : list Z := domain_bytes "laplace-consensus-record-v1".
Definition PLAN_SEQUENCE_DOMAIN : list Z :=
  domain_bytes "laplace-postgresql-persistence-plan-sequence-v1".
Definition PLAN_MANIFEST : list Z := domain_bytes (
  "01:reference-preflight/set-v2;02:entity-insert/set-v2;03:entity-exact-verify/set-v2;" ++
  "04:physicality-with-trajectory-insert/set-v2;" ++
  "05:physicality-with-trajectory-exact-verify/set-v2;" ++
  "06:attestation-insert/set-v2;07:attestation-exact-verify/set-v2;" ++
  "08:consensus-insert/set-v2;09:consensus-exact-verify/set-v2;" ++
  "10:receipt-attestation-insert/set-v2;11:receipt-attestation-exact-verify/set-v2").

(** ** Data *)
Record laplace_persistence_physicality_record := mk_physicality {
  physicality_id : laplace_digest256;
  physicality_entity_id : laplace_id128;
  physicality_type : Z;
  vertex_class : Z;
  recipe_version : Z;
  structural_form : Z;
  dimension_count : Z;
  physicality_flags : Z;
  physicality_recipe_fingerprint : laplace_digest256;
  geometry_epoch : laplace_digest256;
  trajectory_fingerprint : laplace_digest256;
  physicality_centroid : laplace_point4d;
  physicality_radius : double;
  physicality_logical_count : Z;
  vertex_count : Z }.

Record laplace_persistence_entity_record := mk_entity {
  record_entity_id : laplace_id128;
  identity_witness : laplace_digest256 }.

Record laplace_persistence_trajectory_segment_record := mk_segment {
  segment_physicality_id : laplace_digest256;
  vertex_index : Z;
  carrier : laplace_trajectory_carrier;
  occurrence : laplace_composition_occurrence }.

Record laplace_persistence_attestation_record := mk_attestation {
  attestation_id : laplace_digest256;
  attestation_entity_id : laplace_id128;
  attestation_physicality_id : laplace_digest256;
  source_fingerprint : laplace_digest256;
  context_fingerprint : laplace_digest256;
  source_ordinal : Z;
  attestation_flags : Z;
  attestation_kind : Z }.

Record laplace_persistence_consensus_record := mk_consensus {
  consensus_id : laplace_digest256;
  proposition_entity_id : laplace_id128;
  epoch_id : laplace_digest256;
  evidence_boundary : laplace_digest256;
  consensus_recipe_fingerprint : laplace_digest256;
  observation_count : Z;
  independent_root_count : Z;
  disposition : Z;
  consensus_flags : Z;
  standing : double }.

(** The union of a record, tagged by its kind. *)
Inductive laplace_persistence_value :=
| value_entity (e : laplace_persistence_entity_record)
| value_physicality (p : laplace_persistence_physicality_record)
| value_trajectory_segment (s : laplace_persistence_trajectory_segment_record)
| value_attestation (a : laplace_persistence_attestation_record)
| value_consensus (c : laplace_persistence_consensus_record).

Record laplace_persistence_record := mk_record {
  kind : Z;
  version : Z;
  frame_bytes : Z;
  value : laplace_persistence_value }.

Inductive laplace_persistence_status :=
| LAPLACE_PERSISTENCE_OK
| LAPLACE_PERSISTENCE_INVALID_ARGUMENT
| LAPLACE_PERSISTENCE_CAPACITY_INSUFFICIENT
| LAPLACE_PERSISTENCE_FRAME_INVALID
| LAPLACE_PERSISTENCE_RECORD_INVALID
| LAPLACE_PERSISTENCE_IDENTITY_MISMATCH
| LAPLACE_PERSISTENCE_ORDER_INVALID
| LAPLACE_PERSISTENCE_TRAJECTORY_INVALID
| LAPLACE_PERSISTENCE_REFERENCE_INVALID
| LAPLACE_PERSISTENCE_OVERFLOW.

#[export] Instance persistence_status_eq_dec : EqDecision laplace_persistence_status.
Proof. solve_decision. Defined.

(** ** Helpers *)
(** The digest and identity fields admit every bit pattern in this build. *)
Definition reject_zero_identity_field (_ : list Z) : bool := false.
Definition reject_zero_digest_field (_ : list Z) : bool := false.

Abbreviation minus_one := 0xbff0000000000000 (only parsing).
Abbreviation plus_one := 0x3ff0000000000000 (only parsing).

(** [memcpy(field, payload + offset, n); offset += n], and the loads: the
    field and the rest of the payload. *)
Definition read_bytes (n : nat) (payload : list Z) : list Z * list Z :=
  (take n payload, drop n payload).
Definition read_u32 (payload : list Z) : Z * list Z :=
  (load_le (take 4 payload), drop 4 payload).
Definition read_u64 (payload : list Z) : Z * list Z :=
  (load_le (take 8 payload), drop 8 payload).

(** The loops that load [n] doubles. *)
Fixpoint read_doubles (n : nat) (payload : list Z) : list double * list Z :=
  match n with
  | O => ([], payload)
  | S n =>
      let '(value, payload) := read_u64 payload in
      let '(values, payload) := read_doubles n payload in
      (value :: values, payload)
  end.

Definition store_doubles (values : list double) : list Z := concat (map (store_le 8) values).

Definition laplace_persistence_frame_bytes (kind : Z) : Z :=
  if kind =? LAPLACE_PERSISTENCE_RECORD_ENTITY then
    FRAME_HEADER_BYTES + LAPLACE_PERSISTENCE_ENTITY_PAYLOAD_BYTES
  else if kind =? LAPLACE_PERSISTENCE_RECORD_PHYSICALITY then
    FRAME_HEADER_BYTES + LAPLACE_PERSISTENCE_PHYSICALITY_PAYLOAD_BYTES
  else if kind =? LAPLACE_PERSISTENCE_RECORD_PHYSICALITY_TRAJECTORY_SEGMENT then
    FRAME_HEADER_BYTES + LAPLACE_PERSISTENCE_PHYSICALITY_TRAJECTORY_SEGMENT_PAYLOAD_BYTES
  else if kind =? LAPLACE_PERSISTENCE_RECORD_ATTESTATION then
    FRAME_HEADER_BYTES + LAPLACE_PERSISTENCE_ATTESTATION_PAYLOAD_BYTES
  else if kind =? LAPLACE_PERSISTENCE_RECORD_CONSENSUS then
    FRAME_HEADER_BYTES + LAPLACE_PERSISTENCE_CONSENSUS_PAYLOAD_BYTES
  else 0.

Definition frame_header (kind : Z) (output : ptr (list Z)) (output_capacity : Z)
    (output_bytes : ptr Z) : laplace_persistence_status * ptr (list Z) * ptr Z :=
  let frame_bytes := laplace_persistence_frame_bytes kind in
  return_when is_null output || is_null output_bytes || (frame_bytes =? 0)
    with (LAPLACE_PERSISTENCE_INVALID_ARGUMENT, output, output_bytes) ;;
  return_when output_capacity <? frame_bytes
    with (LAPLACE_PERSISTENCE_CAPACITY_INSUFFICIENT, output, output_bytes) ;;
  let output := put 0 (zeros (Z.to_nat frame_bytes)) <$> output in
  let output := put 0 (store_le 4 frame_bytes) <$> output in
  let output := put 4 (store_le 2 kind) <$> output in
  let output := put 6 (store_le 2 LAPLACE_PERSISTENCE_FRAME_VERSION) <$> output in
  (LAPLACE_PERSISTENCE_OK, output, store output_bytes frame_bytes).

Definition carrier_store (carrier : laplace_trajectory_carrier) : list Z :=
  store_doubles (slots carrier).

Definition carrier_load (payload : list Z) : laplace_trajectory_carrier :=
  mk_carrier (fst (read_doubles LAPLACE_TRAJECTORY_SLOT_COUNT payload)).

Section Fingerprints.
Context {B : Blake3}.

Definition trajectory_hash_begin : blake3_hasher :=
  blake3_hasher_update blake3_hasher_init TRAJECTORY_DOMAIN.

Definition laplace_persistence_trajectory_bytes_fingerprint (bytes : ptr (list Z))
    (byte_count : Z) (fingerprint : ptr laplace_digest256)
    : laplace_persistence_status * ptr laplace_digest256 :=
  return_when is_null bytes || (byte_count =? 0) || negb (byte_count mod 32 =? 0) ||
              is_null fingerprint
    with (LAPLACE_PERSISTENCE_INVALID_ARGUMENT, fingerprint) ;;
  let hasher := blake3_hasher_update trajectory_hash_begin (cells bytes byte_count) in
  (LAPLACE_PERSISTENCE_OK, store fingerprint (blake3_hasher_finalize hasher)).

Definition laplace_persistence_trajectory_fingerprint
    (carriers : ptr (list laplace_trajectory_carrier)) (carrier_count : Z)
    (fingerprint : ptr laplace_digest256)
    : laplace_persistence_status * ptr laplace_digest256 :=
  return_when is_null carriers || (carrier_count =? 0) || is_null fingerprint
    with (LAPLACE_PERSISTENCE_INVALID_ARGUMENT, fingerprint) ;;
  let hasher := foldl (fun hasher carrier => blake3_hasher_update hasher (carrier_store carrier))
                  trajectory_hash_begin (cells carriers carrier_count) in
  (LAPLACE_PERSISTENCE_OK, store fingerprint (blake3_hasher_finalize hasher)).

Definition expected_plan_ids : list Z := [1; 2; 3; 4; 5; 6; 7; 8; 9; 10; 11].

(** The loop over the plans; [None] where it returns. *)
Fixpoint plan_sequence_loop (hasher : blake3_hasher) (plan_ids expected : list Z)
    : option blake3_hasher :=
  match plan_ids, expected with
  | plan :: plan_ids, wanted :: expected =>
      return_when negb (plan =? wanted) with None ;;
      plan_sequence_loop (blake3_hasher_update hasher (store_le 4 plan)) plan_ids expected
  | _, _ => Some hasher
  end.

Definition laplace_persistence_plan_sequence_fingerprint (plan_ids : ptr (list Z))
    (plan_count : Z) (fingerprint : ptr laplace_digest256)
    : laplace_persistence_status * ptr laplace_digest256 :=
  return_when is_null plan_ids || negb (plan_count =? LAPLACE_PERSISTENCE_PG_PLAN_COUNT) ||
              is_null fingerprint
    with (LAPLACE_PERSISTENCE_INVALID_ARGUMENT, fingerprint) ;;
  let hasher := blake3_hasher_update blake3_hasher_init PLAN_SEQUENCE_DOMAIN in
  let hasher := blake3_hasher_update hasher PLAN_MANIFEST in
  match plan_sequence_loop hasher (cells plan_ids plan_count) expected_plan_ids with
  | None => (LAPLACE_PERSISTENCE_RECORD_INVALID, fingerprint)
  | Some hasher => (LAPLACE_PERSISTENCE_OK, store fingerprint (blake3_hasher_finalize hasher))
  end.
End Fingerprints.

(** ** Physicalities *)
Definition physicality_scalars_valid (physicality : laplace_persistence_physicality_record)
    : bool :=
  return_when
    (recipe_version physicality =? 0) ||
    negb (dimension_count physicality =? Z.of_nat LAPLACE_GEOMETRY_COMPONENTS) ||
    negb (physicality_flags physicality =? LAPLACE_PERSISTENCE_PHYSICALITY_FLAGS_NONE) ||
    reject_zero_digest_field (physicality_entity_id physicality) ||
    reject_zero_digest_field (physicality_recipe_fingerprint physicality) ||
    reject_zero_digest_field (geometry_epoch physicality) ||
    negb (isfinite (physicality_radius physicality)) with false ;;
  return_when existsb (fun value => negb (isfinite value) || double_lt value minus_one ||
                                    double_lt plus_one value)
                (component (physicality_centroid physicality)) with false ;;
  if physicality_type physicality =? LAPLACE_PERSISTENCE_PHYSICALITY_COMPOSITION then
    (vertex_class physicality =? LAPLACE_PERSISTENCE_VERTEX_TRAJECTORY_CARRIER) &&
    (structural_form physicality =? LAPLACE_PERSISTENCE_STRUCTURAL_ORDERED_COMPOSITION) &&
    negb (physicality_logical_count physicality =? 0) &&
    negb (vertex_count physicality =? 0) &&
    double_le 0 (physicality_radius physicality) &&
    double_le (physicality_radius physicality) plus_one
  else if physicality_type physicality =? LAPLACE_PERSISTENCE_PHYSICALITY_ATOMIC_POINT then
    (vertex_class physicality =? LAPLACE_PERSISTENCE_VERTEX_NONE) &&
    (structural_form physicality =? LAPLACE_PERSISTENCE_STRUCTURAL_ATOMIC_POINT) &&
    (physicality_logical_count physicality =? 1) &&
    (vertex_count physicality =? 0) && (physicality_radius physicality =? 0) &&
    bytes_zero (trajectory_fingerprint physicality)
  else false.

Definition physicality_payload (physicality : laplace_persistence_physicality_record) : list Z :=
  physicality_id physicality ++
  physicality_entity_id physicality ++
  store_le 4 (physicality_type physicality) ++
  store_le 4 (vertex_class physicality) ++
  store_le 4 (recipe_version physicality) ++
  store_le 4 (structural_form physicality) ++
  store_le 4 (dimension_count physicality) ++
  store_le 4 (physicality_flags physicality) ++
  physicality_recipe_fingerprint physicality ++
  geometry_epoch physicality ++
  trajectory_fingerprint physicality ++
  store_doubles (component (physicality_centroid physicality)) ++
  store_le 8 (physicality_radius physicality) ++
  store_le 8 (physicality_logical_count physicality) ++
  store_le 8 (vertex_count physicality).

Section Identities.
Context {B : Blake3}.

(** [blake3(domain || payload + 32)]: a record's identity is not part of what
    it is the identity of. *)
Definition payload_digest (domain payload : list Z) : laplace_digest256 :=
  blake3_hasher_finalize
    (blake3_hasher_update (blake3_hasher_update blake3_hasher_init domain) (drop 32 payload)).

Definition laplace_persistence_physicality_identify
    (physicality : ptr laplace_persistence_physicality_record)
    (id : ptr laplace_digest256) : laplace_persistence_status * ptr laplace_digest256 :=
  match physicality, id with
  | Some physicality, Some _ =>
      return_when negb (physicality_scalars_valid physicality)
        with (LAPLACE_PERSISTENCE_RECORD_INVALID, id) ;;
      (LAPLACE_PERSISTENCE_OK,
       store id (payload_digest PHYSICALITY_DOMAIN (physicality_payload physicality)))
  | _, _ => (LAPLACE_PERSISTENCE_RECORD_INVALID, id)
  end.

Definition laplace_persistence_atomic_point_physicality (entity_id : ptr laplace_id128)
    (recipe_version : Z) (recipe_fingerprint geometry_epoch : ptr laplace_digest256)
    (point : ptr laplace_point4d) (physicality : ptr laplace_persistence_physicality_record)
    : laplace_persistence_status * ptr laplace_persistence_physicality_record :=
  match entity_id, recipe_fingerprint, geometry_epoch, point, physicality with
  | Some entity_id, Some recipe_fingerprint, Some geometry_epoch, Some point, Some _ =>
      let created id := {|
        physicality_id := id;
        physicality_entity_id := entity_id;
        physicality_type := LAPLACE_PERSISTENCE_PHYSICALITY_ATOMIC_POINT;
        vertex_class := LAPLACE_PERSISTENCE_VERTEX_NONE;
        PersistenceFrames.recipe_version := recipe_version;
        structural_form := LAPLACE_PERSISTENCE_STRUCTURAL_ATOMIC_POINT;
        dimension_count := Z.of_nat LAPLACE_GEOMETRY_COMPONENTS;
        physicality_flags := LAPLACE_PERSISTENCE_PHYSICALITY_FLAGS_NONE;
        physicality_recipe_fingerprint := recipe_fingerprint;
        PersistenceFrames.geometry_epoch := geometry_epoch;
        trajectory_fingerprint := zeros 32;
        physicality_centroid := point;
        physicality_radius := 0;
        physicality_logical_count := 1;
        vertex_count := 0 |} in
      match laplace_persistence_physicality_identify (Some (created (zeros 32)))
              (Some (zeros 32)) with
      | (LAPLACE_PERSISTENCE_OK, id) =>
          (LAPLACE_PERSISTENCE_OK, store physicality (created (default [] id)))
      | (status, _) => (status, physicality)
      end
  | _, _, _, _, _ => (LAPLACE_PERSISTENCE_INVALID_ARGUMENT, physicality)
  end.

(** ** Attestations *)
Definition attestation_scalars_valid (attestation : laplace_persistence_attestation_record)
    : bool :=
  let known_flags := LAPLACE_PERSISTENCE_ATTESTATION_HAS_PHYSICALITY in
  let has_physicality :=
    negb (Z.land (attestation_flags attestation)
            LAPLACE_PERSISTENCE_ATTESTATION_HAS_PHYSICALITY =? 0) in
  return_when
    negb (Z.land (attestation_flags attestation) (u32 (Z.lnot known_flags)) =? 0) ||
    (attestation_kind attestation <? LAPLACE_PERSISTENCE_ATTESTATION_OBSERVED_OCCURRENCE) ||
    (LAPLACE_PERSISTENCE_ATTESTATION_DERIVED_CLAIM <? attestation_kind attestation) ||
    (source_ordinal attestation =? 0) ||
    reject_zero_digest_field (attestation_entity_id attestation) ||
    reject_zero_digest_field (source_fingerprint attestation) ||
    reject_zero_digest_field (context_fingerprint attestation) ||
    (has_physicality && reject_zero_digest_field (attestation_physicality_id attestation)) ||
    (negb has_physicality && negb (bytes_zero (attestation_physicality_id attestation)))
    with false ;;
  true.

Definition attestation_payload (attestation : laplace_persistence_attestation_record)
    : list Z :=
  attestation_id attestation ++
  attestation_entity_id attestation ++
  attestation_physicality_id attestation ++
  source_fingerprint attestation ++
  context_fingerprint attestation ++
  store_le 8 (source_ordinal attestation) ++
  store_le 4 (attestation_flags attestation) ++
  store_le 4 (attestation_kind attestation).

Definition laplace_persistence_attestation_identify
    (attestation : ptr laplace_persistence_attestation_record)
    (id : ptr laplace_digest256) : laplace_persistence_status * ptr laplace_digest256 :=
  match attestation, id with
  | Some attestation, Some _ =>
      return_when negb (attestation_scalars_valid attestation)
        with (LAPLACE_PERSISTENCE_RECORD_INVALID, id) ;;
      (LAPLACE_PERSISTENCE_OK,
       store id (payload_digest ATTESTATION_DOMAIN (attestation_payload attestation)))
  | _, _ => (LAPLACE_PERSISTENCE_RECORD_INVALID, id)
  end.

(** ** Consensus records *)
Definition consensus_scalars_valid (consensus : laplace_persistence_consensus_record) : bool :=
  negb (observation_count consensus =? 0) &&
  (independent_root_count consensus <=? observation_count consensus) &&
  negb (disposition consensus =? 0) && (consensus_flags consensus =? 0) &&
  isfinite (standing consensus) &&
  negb (reject_zero_digest_field (proposition_entity_id consensus)) &&
  negb (reject_zero_digest_field (epoch_id consensus)) &&
  negb (reject_zero_digest_field (evidence_boundary consensus)) &&
  negb (reject_zero_digest_field (consensus_recipe_fingerprint consensus)).

Definition consensus_payload (consensus : laplace_persistence_consensus_record) : list Z :=
  consensus_id consensus ++
  proposition_entity_id consensus ++
  epoch_id consensus ++
  evidence_boundary consensus ++
  consensus_recipe_fingerprint consensus ++
  store_le 8 (observation_count consensus) ++
  store_le 8 (independent_root_count consensus) ++
  store_le 4 (disposition consensus) ++
  store_le 4 (consensus_flags consensus) ++
  store_le 8 (standing consensus).

Definition laplace_persistence_consensus_identify
    (consensus : ptr laplace_persistence_consensus_record)
    (id : ptr laplace_digest256) : laplace_persistence_status * ptr laplace_digest256 :=
  match consensus, id with
  | Some consensus, Some _ =>
      return_when negb (consensus_scalars_valid consensus)
        with (LAPLACE_PERSISTENCE_RECORD_INVALID, id) ;;
      (LAPLACE_PERSISTENCE_OK,
       store id (payload_digest CONSENSUS_DOMAIN (consensus_payload consensus)))
  | _, _ => (LAPLACE_PERSISTENCE_RECORD_INVALID, id)
  end.

(** [identify(record, &expected) == OK && digest_equal(&expected, &id)]. *)
Definition identity_matches (identified : laplace_persistence_status * ptr laplace_digest256)
    (id : laplace_digest256) : bool :=
  match identified with
  | (LAPLACE_PERSISTENCE_OK, Some expected) => bytes_equal expected id
  | _ => false
  end.

(** ** Encoders
    [frame_header], and after it the payload at [output + FRAME_HEADER_BYTES]. *)
Definition write_frame (kind : Z) (payload : list Z) (output : ptr (list Z))
    (output_capacity : Z) (output_bytes : ptr Z)
    : laplace_persistence_status * ptr (list Z) * ptr Z :=
  match frame_header kind output output_capacity output_bytes with
  | (LAPLACE_PERSISTENCE_OK, output, output_bytes) =>
      (LAPLACE_PERSISTENCE_OK, put FRAME_HEADER_BYTES payload <$> output, output_bytes)
  | failed => failed
  end.

Definition laplace_persistence_frame_encode_entity (entity : ptr laplace_id128)
    (identity_witness : ptr laplace_digest256) (output : ptr (list Z))
    (output_capacity : Z) (output_bytes : ptr Z)
    : laplace_persistence_status * ptr (list Z) * ptr Z :=
  match entity, identity_witness with
  | Some entity, Some identity_witness =>
      return_when reject_zero_identity_field entity ||
                  reject_zero_identity_field identity_witness ||
                  negb (bytes_equal entity (take 16 identity_witness))
        with (LAPLACE_PERSISTENCE_RECORD_INVALID, output, output_bytes) ;;
      write_frame LAPLACE_PERSISTENCE_RECORD_ENTITY (entity ++ identity_witness)
        output output_capacity output_bytes
  | _, _ => (LAPLACE_PERSISTENCE_RECORD_INVALID, output, output_bytes)
  end.

Definition laplace_persistence_frame_encode_physicality
    (physicality : ptr laplace_persistence_physicality_record) (output : ptr (list Z))
    (output_capacity : Z) (output_bytes : ptr Z)
    : laplace_persistence_status * ptr (list Z) * ptr Z :=
  match physicality with
  | Some p =>
      return_when negb (identity_matches
                          (laplace_persistence_physicality_identify physicality
                             (Some (zeros 32))) (physicality_id p))
        with (LAPLACE_PERSISTENCE_IDENTITY_MISMATCH, output, output_bytes) ;;
      write_frame LAPLACE_PERSISTENCE_RECORD_PHYSICALITY (physicality_payload p)
        output output_capacity output_bytes
  | None => (LAPLACE_PERSISTENCE_IDENTITY_MISMATCH, output, output_bytes)
  end.

(** [laplace_trajectory_carrier_decode(carrier, &payload) == OK]. *)
Definition carrier_decodes (carrier : laplace_trajectory_carrier) : bool :=
  match laplace_trajectory_carrier_decode (Some carrier) (Some (mk_payload [] 0 0 0)) with
  | (LAPLACE_TRAJECTORY_OK, _) => true
  | _ => false
  end.

Definition laplace_persistence_frame_encode_trajectory_segment
    (physicality_id : ptr laplace_digest256) (vertex_index : Z)
    (carrier : ptr laplace_trajectory_carrier) (output : ptr (list Z))
    (output_capacity : Z) (output_bytes : ptr Z)
    : laplace_persistence_status * ptr (list Z) * ptr Z :=
  match physicality_id, carrier with
  | Some physicality_id, Some carrier =>
      return_when reject_zero_digest_field physicality_id || negb (carrier_decodes carrier)
        with (LAPLACE_PERSISTENCE_TRAJECTORY_INVALID, output, output_bytes) ;;
      write_frame LAPLACE_PERSISTENCE_RECORD_PHYSICALITY_TRAJECTORY_SEGMENT
        (physicality_id ++ store_le 8 vertex_index ++ carrier_store carrier)
        output output_capacity output_bytes
  | _, _ => (LAPLACE_PERSISTENCE_TRAJECTORY_INVALID, output, output_bytes)
  end.

Definition laplace_persistence_frame_encode_attestation
    (attestation : ptr laplace_persistence_attestation_record) (output : ptr (list Z))
    (output_capacity : Z) (output_bytes : ptr Z)
    : laplace_persistence_status * ptr (list Z) * ptr Z :=
  match attestation with
  | Some a =>
      return_when negb (identity_matches
                          (laplace_persistence_attestation_identify attestation
                             (Some (zeros 32))) (attestation_id a))
        with (LAPLACE_PERSISTENCE_IDENTITY_MISMATCH, output, output_bytes) ;;
      write_frame LAPLACE_PERSISTENCE_RECORD_ATTESTATION (attestation_payload a)
        output output_capacity output_bytes
  | None => (LAPLACE_PERSISTENCE_IDENTITY_MISMATCH, output, output_bytes)
  end.

Definition laplace_persistence_frame_encode_consensus
    (consensus : ptr laplace_persistence_consensus_record) (output : ptr (list Z))
    (output_capacity : Z) (output_bytes : ptr Z)
    : laplace_persistence_status * ptr (list Z) * ptr Z :=
  match consensus with
  | Some c =>
      return_when negb (identity_matches
                          (laplace_persistence_consensus_identify consensus
                             (Some (zeros 32))) (consensus_id c))
        with (LAPLACE_PERSISTENCE_IDENTITY_MISMATCH, output, output_bytes) ;;
      write_frame LAPLACE_PERSISTENCE_RECORD_CONSENSUS (consensus_payload c)
        output output_capacity output_bytes
  | None => (LAPLACE_PERSISTENCE_IDENTITY_MISMATCH, output, output_bytes)
  end.

(** ** Decoders *)
Definition load_physicality (payload : list Z)
    : laplace_persistence_physicality_record :=
  let '(physicality_id, payload) := read_bytes 32 payload in
  let '(entity_id, payload) := read_bytes 16 payload in
  let '(physicality_type, payload) := read_u32 payload in
  let '(vertex_class, payload) := read_u32 payload in
  let '(recipe_version, payload) := read_u32 payload in
  let '(structural_form, payload) := read_u32 payload in
  let '(dimension_count, payload) := read_u32 payload in
  let '(flags, payload) := read_u32 payload in
  let '(recipe_fingerprint, payload) := read_bytes 32 payload in
  let '(geometry_epoch, payload) := read_bytes 32 payload in
  let '(trajectory_fingerprint, payload) := read_bytes 32 payload in
  let '(centroid, payload) := read_doubles LAPLACE_GEOMETRY_COMPONENTS payload in
  let '(radius, payload) := read_u64 payload in
  let '(logical_count, payload) := read_u64 payload in
  let '(vertex_count, payload) := read_u64 payload in
  mk_physicality physicality_id entity_id physicality_type vertex_class recipe_version
    structural_form dimension_count flags recipe_fingerprint geometry_epoch
    trajectory_fingerprint (mk_point centroid) radius logical_count vertex_count.

Definition decode_physicality (payload : list Z)
    : laplace_persistence_status * option laplace_persistence_physicality_record :=
  let decoded := load_physicality payload in
  return_when negb (identity_matches
                      (laplace_persistence_physicality_identify (Some decoded)
                         (Some (zeros 32))) (physicality_id decoded))
    with (LAPLACE_PERSISTENCE_IDENTITY_MISMATCH, None) ;;
  (LAPLACE_PERSISTENCE_OK, Some decoded).

Definition load_attestation (payload : list Z)
    : laplace_persistence_attestation_record :=
  let '(attestation_id, payload) := read_bytes 32 payload in
  let '(entity_id, payload) := read_bytes 16 payload in
  let '(physicality_id, payload) := read_bytes 32 payload in
  let '(source_fingerprint, payload) := read_bytes 32 payload in
  let '(context_fingerprint, payload) := read_bytes 32 payload in
  let '(source_ordinal, payload) := read_u64 payload in
  let '(flags, payload) := read_u32 payload in
  let '(attestation_kind, payload) := read_u32 payload in
  mk_attestation attestation_id entity_id physicality_id source_fingerprint
    context_fingerprint source_ordinal flags attestation_kind.

Definition decode_attestation (payload : list Z)
    : laplace_persistence_status * option laplace_persistence_attestation_record :=
  let decoded := load_attestation payload in
  return_when negb (identity_matches
                      (laplace_persistence_attestation_identify (Some decoded)
                         (Some (zeros 32))) (attestation_id decoded))
    with (LAPLACE_PERSISTENCE_IDENTITY_MISMATCH, None) ;;
  (LAPLACE_PERSISTENCE_OK, Some decoded).

Definition load_consensus (payload : list Z)
    : laplace_persistence_consensus_record :=
  let '(consensus_id, payload) := read_bytes 32 payload in
  let '(proposition_entity_id, payload) := read_bytes 16 payload in
  let '(epoch_id, payload) := read_bytes 32 payload in
  let '(evidence_boundary, payload) := read_bytes 32 payload in
  let '(recipe_fingerprint, payload) := read_bytes 32 payload in
  let '(observation_count, payload) := read_u64 payload in
  let '(independent_root_count, payload) := read_u64 payload in
  let '(disposition, payload) := read_u32 payload in
  let '(flags, payload) := read_u32 payload in
  let '(standing, payload) := read_u64 payload in
  mk_consensus consensus_id proposition_entity_id epoch_id evidence_boundary
    recipe_fingerprint observation_count independent_root_count disposition flags standing.

Definition decode_consensus (payload : list Z)
    : laplace_persistence_status * option laplace_persistence_consensus_record :=
  let decoded := load_consensus payload in
  return_when negb (identity_matches
                      (laplace_persistence_consensus_identify (Some decoded)
                         (Some (zeros 32))) (consensus_id decoded))
    with (LAPLACE_PERSISTENCE_IDENTITY_MISMATCH, None) ;;
  (LAPLACE_PERSISTENCE_OK, Some decoded).

(** The cases of an entity and of a trajectory segment, in the switch of the
    decoder. *)
Definition decode_entity (payload : list Z)
    : laplace_persistence_status * option laplace_persistence_entity_record :=
  let '(entity_id, payload) := read_bytes 16 payload in
  let '(identity_witness, payload) := read_bytes 32 payload in
  return_when reject_zero_identity_field entity_id ||
              reject_zero_identity_field identity_witness ||
              negb (bytes_equal entity_id (take 16 identity_witness))
    with (LAPLACE_PERSISTENCE_RECORD_INVALID, None) ;;
  (LAPLACE_PERSISTENCE_OK, Some (mk_entity entity_id identity_witness)).

(** The cleared occurrence of a decoded segment. *)
Definition zero_occurrence : laplace_composition_occurrence :=
  mk_occurrence (zeros 16) 0 0 0 0 0 0 0 0.

Definition decode_trajectory_segment (payload : list Z)
    : laplace_persistence_status * option laplace_persistence_trajectory_segment_record :=
  let '(physicality_id, payload) := read_bytes 32 payload in
  let '(vertex_index, payload) := read_u64 payload in
  let carrier := carrier_load payload in
  return_when reject_zero_digest_field physicality_id
    with (LAPLACE_PERSISTENCE_REFERENCE_INVALID, None) ;;
  return_when negb (carrier_decodes carrier)
    with (LAPLACE_PERSISTENCE_TRAJECTORY_INVALID, None) ;;
  (LAPLACE_PERSISTENCE_OK, Some (mk_segment physicality_id vertex_index carrier zero_occurrence)).

(** The union of the decoded record. *)
Definition into_union {A} (inject : A -> laplace_persistence_value)
    (decoded : laplace_persistence_status * option A)
    : laplace_persistence_status * option laplace_persistence_value :=
  (decoded.1, inject <$> decoded.2).

Definition decode_value (kind : Z) (payload : list Z)
    : laplace_persistence_status * option laplace_persistence_value :=
  if kind =? LAPLACE_PERSISTENCE_RECORD_ENTITY then
    into_union value_entity (decode_entity payload)
  else if kind =? LAPLACE_PERSISTENCE_RECORD_PHYSICALITY then
    into_union value_physicality (decode_physicality payload)
  else if kind =? LAPLACE_PERSISTENCE_RECORD_PHYSICALITY_TRAJECTORY_SEGMENT then
    into_union value_trajectory_segment (decode_trajectory_segment payload)
  else if kind =? LAPLACE_PERSISTENCE_RECORD_ATTESTATION then
    into_union value_attestation (decode_attestation payload)
  else if kind =? LAPLACE_PERSISTENCE_RECORD_CONSENSUS then
    into_union value_consensus (decode_consensus payload)
  else (LAPLACE_PERSISTENCE_FRAME_INVALID, None).

(** The memory at [frame] is at least [available_bytes] long. *)
Definition laplace_persistence_frame_decode (frame : ptr (list Z)) (available_bytes : Z)
    (record : ptr laplace_persistence_record) (consumed_bytes : ptr Z)
    : laplace_persistence_status * ptr laplace_persistence_record * ptr Z :=
  match frame with
  | Some frame =>
      return_when is_null record || is_null consumed_bytes ||
                  (available_bytes <? FRAME_HEADER_BYTES)
        with (LAPLACE_PERSISTENCE_INVALID_ARGUMENT, record, consumed_bytes) ;;
      let frame_bytes := load_le (slice 0 4 frame) in
      let kind := load_le (slice 4 2 frame) in
      let version := load_le (slice 6 2 frame) in
      let expected_bytes := laplace_persistence_frame_bytes kind in
      return_when (expected_bytes =? 0) || negb (frame_bytes =? expected_bytes) ||
                  (available_bytes <? frame_bytes) ||
                  negb (version =? LAPLACE_PERSISTENCE_FRAME_VERSION)
        with (LAPLACE_PERSISTENCE_FRAME_INVALID, record, consumed_bytes) ;;
      match decode_value kind (drop (Z.to_nat FRAME_HEADER_BYTES) frame) with
      | (LAPLACE_PERSISTENCE_OK, Some value) =>
          (LAPLACE_PERSISTENCE_OK, store record (mk_record kind version frame_bytes value),
           store consumed_bytes frame_bytes)
      | (status, _) => (status, record, consumed_bytes)
      end
  | None => (LAPLACE_PERSISTENCE_INVALID_ARGUMENT, record, consumed_bytes)
  end.
End Identities.

(** ** Fields
    A fixed-width field: what its reader does after its writer, and that every
    string of its width is written by some value. *)
Class Field {A} (wf : A -> Prop) (size : nat) (write : A -> list Z)
    (read : list Z -> A * list Z) : Prop := {
  field_bytes a : wf a -> bytes size (write a);
  field_read a rest : wf a -> read (write a ++ rest) = (a, rest);
  field_onto l : bytes size l -> exists a, wf a /\ write a = l }.
Arguments field_bytes {A wf size write read} F : rename.
Arguments field_read {A wf size write read} F : rename.
Arguments field_onto {A wf size write read} F : rename.

#[export] Instance field_string n : Field (bytes n) n (fun l => l) (read_bytes n).
Proof.
  split; [done| |by eauto]. intros l rest [Hl _]. unfold read_bytes.
  by rewrite take_app_length', drop_app_length'.
Qed.

Lemma read_string n l rest : bytes n l -> read_bytes n (l ++ rest) = (l, rest).
Proof. apply (field_read (field_string n)). Qed.

Lemma field_word n read max :
  (forall l, read l = (load_le (take n l), drop n l)) -> max + 1 = 256 ^ Z.of_nat n ->
  Field (fun v => 0 <= v <= max) n (store_le n) read.
Proof.
  intros Hread Hmax. split.
  - intros v _. apply store_le_bytes.
  - intros v rest Hv. rewrite Hread, take_app_length', drop_app_length' by (symmetry; apply length_store_le).
    rewrite load_store_le, Z.mod_small by lia. done.
  - intros l Hl. exists (load_le l). split; [|by apply store_load_le].
    pose proof (load_le_bound n l Hl). lia.
Qed.

#[export] Instance field_u32 : Field (fun v => is_u32 v) 4 (store_le 4) read_u32.
Proof. by apply field_word. Qed.
#[export] Instance field_u64 : Field (fun v => is_u64 v) 8 (store_le 8) read_u64.
Proof. by apply field_word. Qed.

Lemma bytes_split n m l :
  bytes (n + m) l -> exists a rest, l = a ++ rest /\ bytes n a /\ bytes m rest.
Proof.
  intros Hl. exists (take n l), (drop n l). rewrite take_drop. split_and!; [done|..].
  - apply (bytes_take (n + m)); [done|lia].
  - replace m with (n + m - n)%nat by lia. apply bytes_drop; [done|lia].
Qed.

(** The field at the front of a longer string. *)
Lemma field_split {A} {wf : A -> Prop} {size write read} (F : Field wf size write read) m l :
  bytes (size + m) l -> exists a rest, wf a /\ l = write a ++ rest /\ bytes m rest.
Proof.
  intros (a & rest & -> & (v & Hv & <-)%(field_onto F) & Hr)%bytes_split. by exists v, rest.
Qed.

Definition doubles_wf (n : nat) (values : list double) : Prop :=
  length values = n /\ Forall (fun v => is_u64 v) values.

#[export] Instance field_doubles n : Field (doubles_wf n) (n * 8) store_doubles (read_doubles n).
Proof.
  unfold store_doubles. split.
  - intros values [<- Hv]. induction Hv as [|v values Hv _ IH]; [split; [done|constructor]|].
    cbn [length map concat]. apply (bytes_app 8); [apply store_le_bytes | apply IH].
  - intros values rest [<- Hv]. induction Hv as [|v values Hv _ IH]; [done|].
    cbn [length map concat read_doubles]. rewrite <- app_assoc.
    rewrite (field_read field_u64) by done. by rewrite IH.
  - induction n as [|n IH]; intros l Hl.
    + exists []. destruct l; [done | by destruct Hl].
    + destruct (field_split field_u64 (n * 8) l Hl) as (v & rest & Hv & -> & Hr).
      destruct (IH rest Hr) as (values & [Hn Hvs] & <-). exists (v :: values). split; [|done].
      split; [simpl; lia | by constructor].
Qed.

(** Fields are read by their laws from here on. *)
#[local] Arguments read_bytes : simpl never.
#[local] Arguments read_u32 : simpl never.
#[local] Arguments read_u64 : simpl never.
#[local] Arguments read_doubles : simpl never.
#[local] Arguments store_doubles : simpl never.

(** ** Records of C values *)
Definition physicality_wf (p : laplace_persistence_physicality_record) : Prop :=
  bytes 32 (physicality_id p) /\ bytes 16 (physicality_entity_id p) /\
  is_u32 (physicality_type p) /\ is_u32 (vertex_class p) /\ is_u32 (recipe_version p) /\
  is_u32 (structural_form p) /\ is_u32 (dimension_count p) /\ is_u32 (physicality_flags p) /\
  bytes 32 (physicality_recipe_fingerprint p) /\ bytes 32 (geometry_epoch p) /\
  bytes 32 (trajectory_fingerprint p) /\ doubles_wf 4 (component (physicality_centroid p)) /\
  is_u64 (physicality_radius p) /\ is_u64 (physicality_logical_count p) /\
  is_u64 (vertex_count p).

Definition entity_wf (e : laplace_persistence_entity_record) : Prop :=
  bytes 16 (record_entity_id e) /\ bytes 32 (identity_witness e).

(** A segment as the decoder leaves it: its occurrence is not computed yet. *)
Definition segment_wf (s : laplace_persistence_trajectory_segment_record) : Prop :=
  bytes 32 (segment_physicality_id s) /\ is_u64 (vertex_index s) /\
  doubles_wf 4 (slots (carrier s)) /\ occurrence s = zero_occurrence.

Definition attestation_wf (a : laplace_persistence_attestation_record) : Prop :=
  bytes 32 (attestation_id a) /\ bytes 16 (attestation_entity_id a) /\
  bytes 32 (attestation_physicality_id a) /\ bytes 32 (source_fingerprint a) /\
  bytes 32 (context_fingerprint a) /\ is_u64 (source_ordinal a) /\
  is_u32 (attestation_flags a) /\ is_u32 (attestation_kind a).

Definition consensus_wf (c : laplace_persistence_consensus_record) : Prop :=
  bytes 32 (consensus_id c) /\ bytes 16 (proposition_entity_id c) /\
  bytes 32 (epoch_id c) /\ bytes 32 (evidence_boundary c) /\
  bytes 32 (consensus_recipe_fingerprint c) /\ is_u64 (observation_count c) /\
  is_u64 (independent_root_count c) /\ is_u32 (disposition c) /\
  is_u32 (consensus_flags c) /\ is_u64 (standing c).

(** The payload of a record, and the load that inverts it. *)
Definition entity_payload (e : laplace_persistence_entity_record) : list Z :=
  record_entity_id e ++ identity_witness e.
Definition segment_payload (s : laplace_persistence_trajectory_segment_record) : list Z :=
  segment_physicality_id s ++ store_le 8 (vertex_index s) ++ carrier_store (carrier s).

Definition load_entity (payload : list Z) : laplace_persistence_entity_record :=
  let '(id, payload) := read_bytes 16 payload in
  let '(witness, payload) := read_bytes 32 payload in
  mk_entity id witness.
Definition load_segment (payload : list Z) : laplace_persistence_trajectory_segment_record :=
  let '(id, payload) := read_bytes 32 payload in
  let '(index, payload) := read_u64 payload in
  mk_segment id index (carrier_load payload) zero_occurrence.

(** A payload of [size] bytes is the fields of exactly one record. *)
Class Codec {A} (wf : A -> Prop) (size : nat) (write : A -> list Z) (load : list Z -> A)
    : Prop := {
  codec_bytes a : wf a -> bytes size (write a);
  codec_load a rest : wf a -> load (write a ++ rest) = a;
  codec_onto l : bytes size l -> exists a, wf a /\ write a = l }.
Arguments codec_bytes {A wf size write load} C : rename.
Arguments codec_load {A wf size write load} C : rename.
Arguments codec_onto {A wf size write load} C : rename.

(** The bytes of a concatenation of well-formed fields. *)
Ltac field_sizes :=
  first [ assumption | apply store_le_bytes | by apply (field_bytes (field_doubles 4)) ].
Ltac codec_sizes :=
  repeat match goal with
  | |- bytes ?n (?a ++ ?b) =>
      first [ eapply (bytes_app 32); [field_sizes|] | eapply (bytes_app 16); [field_sizes|]
            | eapply (bytes_app 4); [field_sizes|] | eapply (bytes_app 8); [field_sizes|] ]
  end; try field_sizes.

(** Read the fields of a payload one after the other. *)
Ltac read_fields :=
  repeat (cbn beta iota;
    first [ rewrite read_string by assumption
          | rewrite (field_read field_u32) by assumption
          | rewrite (field_read field_u64) by assumption
          | rewrite (field_read (field_doubles 4)) by assumption ]).

#[export] Instance entity_codec : Codec entity_wf 48 entity_payload load_entity.
Proof.
  unfold entity_payload, load_entity. split.
  - intros [id w] (? & ?). cbn. codec_sizes.
  - intros [id w] rest (? & ?). cbn in *. rewrite <- !app_assoc. by read_fields.
  - intros l (id & l1 & ? & -> & ?)%(field_split (field_string 16) 32).
    by exists (mk_entity id l1).
Qed.

#[export] Instance segment_codec : Codec segment_wf 72 segment_payload load_segment.
Proof.
  unfold segment_payload, load_segment, carrier_store, carrier_load. split.
  - intros [id index [ss] o] (? & ? & ? & ?). cbn. codec_sizes.
  - intros [id index [ss] o] rest (? & ? & ? & ?). cbn in *. subst o.
    rewrite <- !app_assoc. by read_fields.
  - intros l (id & l1 & ? & -> & Hl)%(field_split (field_string 32) 40).
    apply (field_split field_u64 32) in Hl as (index & l2 & ? & -> & Hl).
    apply (field_onto (field_doubles 4)) in Hl as (ss & ? & <-).
    by exists (mk_segment id index (mk_carrier ss) zero_occurrence).
Qed.

(** Peel the next field off a payload. *)
Ltac next_string n m H v := apply (field_split (field_string n) m) in H as (v & ? & ? & -> & H).
Ltac next_u32 m H v := apply (field_split field_u32 m) in H as (v & ? & ? & -> & H).
Ltac next_u64 m H v := apply (field_split field_u64 m) in H as (v & ? & ? & -> & H).

#[export] Instance attestation_codec :
  Codec attestation_wf 160 attestation_payload load_attestation.
Proof.
  unfold attestation_payload, load_attestation. split.
  - intros [] (? & ? & ? & ? & ? & ? & ? & ?). cbn. codec_sizes.
  - intros [] rest (? & ? & ? & ? & ? & ? & ? & ?). cbn in *. rewrite <- !app_assoc.
    by read_fields.
  - intros l H. next_string 32%nat 128%nat H i1. next_string 16%nat 112%nat H i2.
    next_string 32%nat 80%nat H i3. next_string 32%nat 48%nat H i4. next_string 32%nat 16%nat H i5.
    next_u64 8%nat H n6. next_u32 4%nat H n7. apply (field_onto field_u32) in H as (n8 & ? & <-).
    by exists (mk_attestation i1 i2 i3 i4 i5 n6 n7 n8).
Qed.

#[export] Instance consensus_codec : Codec consensus_wf 176 consensus_payload load_consensus.
Proof.
  unfold consensus_payload, load_consensus. split.
  - intros [] (? & ? & ? & ? & ? & ? & ? & ? & ? & ?). cbn. codec_sizes.
  - intros [] rest (? & ? & ? & ? & ? & ? & ? & ? & ? & ?). cbn in *.
    rewrite <- !app_assoc. by read_fields.
  - intros l H. next_string 32%nat 144%nat H i1. next_string 16%nat 128%nat H i2.
    next_string 32%nat 96%nat H i3. next_string 32%nat 64%nat H i4. next_string 32%nat 32%nat H i5.
    next_u64 24%nat H n6. next_u64 16%nat H n7. next_u32 12%nat H n8. next_u32 8%nat H n9.
    apply (field_onto field_u64) in H as (n10 & ? & <-).
    by exists (mk_consensus i1 i2 i3 i4 i5 n6 n7 n8 n9 n10).
Qed.

#[export] Instance physicality_codec :
  Codec physicality_wf 224 physicality_payload load_physicality.
Proof.
  unfold physicality_payload, load_physicality. split.
  - intros [? ? ? ? ? ? ? ? ? ? ? []] (? & ? & ? & ? & ? & ? & ? & ? & ? & ? & ? & ? & ? & ? & ?).
    cbn. codec_sizes.
  - intros [? ? ? ? ? ? ? ? ? ? ? []] rest
      (? & ? & ? & ? & ? & ? & ? & ? & ? & ? & ? & ? & ? & ? & ?).
    cbn in *. rewrite <- !app_assoc. by read_fields.
  - intros l H. next_string 32%nat 192%nat H i1. next_string 16%nat 176%nat H i2.
    next_u32 172%nat H n3. next_u32 168%nat H n4. next_u32 164%nat H n5. next_u32 160%nat H n6.
    next_u32 156%nat H n7. next_u32 152%nat H n8. next_string 32%nat 120%nat H i9.
    next_string 32%nat 88%nat H i10. next_string 32%nat 56%nat H i11.
    apply (field_split (field_doubles 4) 24) in H as (c & ? & ? & -> & H).
    next_u64 16%nat H n13. next_u64 8%nat H n14.
    apply (field_onto field_u64) in H as (n15 & ? & <-).
    by exists (mk_physicality i1 i2 n3 n4 n5 n6 n7 n8 i9 i10 i11 (mk_point c) n13 n14 n15).
Qed.

(** ** The frame of a record *)
Definition value_kind (v : laplace_persistence_value) : Z :=
  match v with
  | value_entity _ => LAPLACE_PERSISTENCE_RECORD_ENTITY
  | value_physicality _ => LAPLACE_PERSISTENCE_RECORD_PHYSICALITY
  | value_trajectory_segment _ => LAPLACE_PERSISTENCE_RECORD_PHYSICALITY_TRAJECTORY_SEGMENT
  | value_attestation _ => LAPLACE_PERSISTENCE_RECORD_ATTESTATION
  | value_consensus _ => LAPLACE_PERSISTENCE_RECORD_CONSENSUS
  end.

Definition value_wf (v : laplace_persistence_value) : Prop :=
  match v with
  | value_entity e => entity_wf e
  | value_physicality p => physicality_wf p
  | value_trajectory_segment s => segment_wf s
  | value_attestation a => attestation_wf a
  | value_consensus c => consensus_wf c
  end.

Definition value_payload (v : laplace_persistence_value) : list Z :=
  match v with
  | value_entity e => entity_payload e
  | value_physicality p => physicality_payload p
  | value_trajectory_segment s => segment_payload s
  | value_attestation a => attestation_payload a
  | value_consensus c => consensus_payload c
  end.

Definition value_bytes (v : laplace_persistence_value) : Z :=
  laplace_persistence_frame_bytes (value_kind v).

(** Length, kind and version, then the payload. *)
Definition frame_of (v : laplace_persistence_value) : list Z :=
  store_le 4 (value_bytes v) ++ store_le 2 (value_kind v) ++
  store_le 2 LAPLACE_PERSISTENCE_FRAME_VERSION ++ value_payload v.

Definition record_of (v : laplace_persistence_value) : laplace_persistence_record :=
  mk_record (value_kind v) LAPLACE_PERSISTENCE_FRAME_VERSION (value_bytes v) v.

Lemma value_payload_bytes v : value_wf v -> bytes (Z.to_nat (value_bytes v - 8)) (value_payload v).
Proof.
  destruct v as [e|p|g|a|c]; [apply (codec_bytes entity_codec e)
  | apply (codec_bytes physicality_codec p) | apply (codec_bytes segment_codec g)
  | apply (codec_bytes attestation_codec a) | apply (codec_bytes consensus_codec c)].
Qed.

Lemma frame_of_bytes v : value_wf v -> bytes (Z.to_nat (value_bytes v)) (frame_of v).
Proof.
  intros Hv%value_payload_bytes. unfold frame_of.
  replace (Z.to_nat (value_bytes v)) with (4 + (2 + (2 + Z.to_nat (value_bytes v - 8))))%nat
    by by destruct v.
  repeat (apply bytes_app; [apply store_le_bytes|]). done.
Qed.

Lemma value_bytes_bounds v : 56 <= value_bytes v <= 232.
Proof. by destruct v. Qed.

Lemma frame_of_length v : value_wf v -> Z.of_nat (length (frame_of v)) = value_bytes v.
Proof.
  intros [-> _]%frame_of_bytes. pose proof (value_bytes_bounds v). lia.
Qed.

(** The kinds are those that have a frame. *)
Lemma frame_bytes_kind k : laplace_persistence_frame_bytes k <> 0 <-> 1 <= k <= 5.
Proof. unfold laplace_persistence_frame_bytes. repeat casec; lia. Qed.

Section Records.
Context {B : Blake3} {L : Blake3Laws B}.

(** The law of a record: its scalars are valid, and its identity is the digest
    of the rest of its payload. *)
Definition identity_of (domain payload : list Z) : laplace_digest256 :=
  blake3 (domain ++ drop 32 payload).

Definition value_valid (v : laplace_persistence_value) : Prop :=
  match v with
  | value_entity e => record_entity_id e = take 16 (identity_witness e)
  | value_physicality p =>
      physicality_scalars_valid p = true /\
      physicality_id p = identity_of PHYSICALITY_DOMAIN (physicality_payload p)
  | value_trajectory_segment s => carrier_decodes (carrier s) = true
  | value_attestation a =>
      attestation_scalars_valid a = true /\
      attestation_id a = identity_of ATTESTATION_DOMAIN (attestation_payload a)
  | value_consensus c =>
      consensus_scalars_valid c = true /\
      consensus_id c = identity_of CONSENSUS_DOMAIN (consensus_payload c)
  end.

(** How a record that breaks its law is refused. *)
Definition refusal (v : laplace_persistence_value) : laplace_persistence_status :=
  match v with
  | value_entity _ => LAPLACE_PERSISTENCE_RECORD_INVALID
  | value_trajectory_segment _ => LAPLACE_PERSISTENCE_TRAJECTORY_INVALID
  | _ => LAPLACE_PERSISTENCE_IDENTITY_MISMATCH
  end.

#[export] Instance value_valid_dec v : Decision (value_valid v).
Proof. destruct v; apply _. Defined.

Lemma payload_digest_eq domain payload :
  payload_digest domain payload = identity_of domain payload.
Proof. unfold payload_digest, identity_of. apply absorbs_finalize. absorb. Qed.

(** The test of each encoder and decoder, per kind. *)
Lemma physicality_matches p :
  identity_matches (laplace_persistence_physicality_identify (Some p) (Some (zeros 32)))
    (physicality_id p) = bool_decide (value_valid (value_physicality p)).
Proof.
  apply eq_iff_eq_true. rewrite bool_decide_eq_true. cbn [value_valid].
  unfold laplace_persistence_physicality_identify. rewrite payload_digest_eq.
  destruct (physicality_scalars_valid p); cbn; [rewrite bytes_equal_spec|]; naive_solver.
Qed.

Lemma attestation_matches a :
  identity_matches (laplace_persistence_attestation_identify (Some a) (Some (zeros 32)))
    (attestation_id a) = bool_decide (value_valid (value_attestation a)).
Proof.
  apply eq_iff_eq_true. rewrite bool_decide_eq_true. cbn [value_valid].
  unfold laplace_persistence_attestation_identify. rewrite payload_digest_eq.
  destruct (attestation_scalars_valid a); cbn; [rewrite bytes_equal_spec|]; naive_solver.
Qed.

Lemma consensus_matches c :
  identity_matches (laplace_persistence_consensus_identify (Some c) (Some (zeros 32)))
    (consensus_id c) = bool_decide (value_valid (value_consensus c)).
Proof.
  apply eq_iff_eq_true. rewrite bool_decide_eq_true. cbn [value_valid].
  unfold laplace_persistence_consensus_identify. rewrite payload_digest_eq.
  destruct (consensus_scalars_valid c); cbn; [rewrite bytes_equal_spec|]; naive_solver.
Qed.

Lemma entity_matches e :
  bytes_equal (record_entity_id e) (take 16 (identity_witness e)) =
  bool_decide (value_valid (value_entity e)).
Proof. apply eq_iff_eq_true. by rewrite bool_decide_eq_true, bytes_equal_spec. Qed.

Lemma segment_matches s :
  carrier_decodes (carrier s) = bool_decide (value_valid (value_trajectory_segment s)).
Proof. apply eq_iff_eq_true. by rewrite bool_decide_eq_true. Qed.

(** ** Encoding
    The encoder of each kind. *)
Definition encode_value (v : laplace_persistence_value) (output : ptr (list Z))
    (output_capacity : Z) (output_bytes : ptr Z)
    : laplace_persistence_status * ptr (list Z) * ptr Z :=
  match v with
  | value_entity e =>
      laplace_persistence_frame_encode_entity (Some (record_entity_id e))
        (Some (identity_witness e)) output output_capacity output_bytes
  | value_physicality p =>
      laplace_persistence_frame_encode_physicality (Some p) output output_capacity output_bytes
  | value_trajectory_segment s =>
      laplace_persistence_frame_encode_trajectory_segment (Some (segment_physicality_id s))
        (vertex_index s) (Some (carrier s)) output output_capacity output_bytes
  | value_attestation a =>
      laplace_persistence_frame_encode_attestation (Some a) output output_capacity output_bytes
  | value_consensus c =>
      laplace_persistence_frame_encode_consensus (Some c) output output_capacity output_bytes
  end.

Lemma put_front data l : put 0 data l = data ++ drop (length data) l.
Proof. reflexivity. Qed.

Lemma put_next_at offset h data rest :
  offset = Z.of_nat (length h) ->
  put offset data (h ++ rest) = (h ++ data) ++ drop (length data) rest.
Proof. intros ->. apply put_next. Qed.

Lemma write_frame_spec v out capacity count :
  value_wf v -> capacity <= Z.of_nat (length out) ->
  write_frame (value_kind v) (value_payload v) (Some out) capacity (Some count) =
  if capacity <? value_bytes v then
    (LAPLACE_PERSISTENCE_CAPACITY_INSUFFICIENT, Some out, Some count)
  else (LAPLACE_PERSISTENCE_OK, Some (frame_of v ++ drop (Z.to_nat (value_bytes v)) out),
        Some (value_bytes v)).
Proof.
  intros Hv Hc. pose proof (value_bytes_bounds v) as Hb.
  destruct (value_payload_bytes v Hv) as [Hl _].
  unfold write_frame, frame_header. fold (value_bytes v). ptrs.
  rewrite (proj2 (Z.eqb_neq (value_bytes v) 0)) by lia.
  destruct (Z.ltb_spec capacity (value_bytes v)); [done|]. do 2 f_equal. cbn [fmap option_fmap option_map].
  f_equal. set (m := put 0 (zeros _) out). rewrite (put_front _ m), length_store_le.
  rewrite (put_next_at 4), (put_next_at 6), (put_next_at 8)
    by (rewrite ?length_app, ?length_store_le; lia).
  unfold frame_of. rewrite !length_store_le, !drop_drop, Hl, <- !app_assoc. do 4 f_equal.
  unfold m. rewrite put_front. unfold zeros. rewrite length_replicate.
  rewrite drop_app_ge by (rewrite length_replicate; lia). rewrite length_replicate, drop_drop.
  f_equal. lia.
Qed.

Lemma encode_value_spec v output capacity count :
  value_wf v -> capacity <= Z.of_nat (length (default [] output)) ->
  encode_value v output capacity count =
  if bool_decide (value_valid v) then
    match output, count with
    | Some out, Some _ =>
        if capacity <? value_bytes v then
          (LAPLACE_PERSISTENCE_CAPACITY_INSUFFICIENT, output, count)
        else (LAPLACE_PERSISTENCE_OK,
              Some (frame_of v ++ drop (Z.to_nat (value_bytes v)) out), Some (value_bytes v))
    | _, _ => (LAPLACE_PERSISTENCE_INVALID_ARGUMENT, output, count)
    end
  else (refusal v, output, count).
Proof.
  intros Hv Hc.
  assert (Hw : write_frame (value_kind v) (value_payload v) output capacity count =
    match output, count with
    | Some out, Some _ =>
        if capacity <? value_bytes v then
          (LAPLACE_PERSISTENCE_CAPACITY_INSUFFICIENT, output, count)
        else (LAPLACE_PERSISTENCE_OK,
              Some (frame_of v ++ drop (Z.to_nat (value_bytes v)) out), Some (value_bytes v))
    | _, _ => (LAPLACE_PERSISTENCE_INVALID_ARGUMENT, output, count)
    end).
  { destruct output as [out|], count as [count|]; [by apply write_frame_spec|done..]. }
  rewrite <- Hw. clear Hw. destruct v as [e|p|g|a|c]; cbn [encode_value value_kind value_payload refusal].
  - unfold laplace_persistence_frame_encode_entity. cbn [reject_zero_identity_field orb].
    rewrite entity_matches. by destruct (bool_decide _).
  - unfold laplace_persistence_frame_encode_physicality. rewrite physicality_matches.
    by destruct (bool_decide _).
  - unfold laplace_persistence_frame_encode_trajectory_segment.
    rewrite segment_matches. by destruct (bool_decide _).
  - unfold laplace_persistence_frame_encode_attestation. rewrite attestation_matches.
    by destruct (bool_decide _).
  - unfold laplace_persistence_frame_encode_consensus. rewrite consensus_matches.
    by destruct (bool_decide _).
Qed.

(** ** Decoding *)
Lemma decode_value_spec v rest :
  value_wf v ->
  decode_value (value_kind v) (value_payload v ++ rest) =
  if bool_decide (value_valid v) then (LAPLACE_PERSISTENCE_OK, Some v) else (refusal v, None).
Proof.
  intros Hv. destruct v as [e|p|g|a|c]; cbn [value_kind value_payload value_wf] in *;
    unfold decode_value; cbn [Z.eqb Pos.eqb].
  - unfold decode_entity. destruct e as [id w], Hv as [Hid Hw]. unfold entity_payload.
    cbn [record_entity_id identity_witness] in *. rewrite <- app_assoc. read_fields.
    cbn [reject_zero_identity_field orb]. rewrite <- entity_matches.
    cbn [record_entity_id identity_witness refusal]. by destruct (bytes_equal _ _).
  - unfold decode_physicality. rewrite (codec_load physicality_codec) by done.
    rewrite physicality_matches. by destruct (bool_decide _).
  - unfold decode_trajectory_segment. pose proof (codec_load segment_codec g rest Hv) as Hl.
    unfold load_segment in Hl. destruct (read_bytes 32 _) as [id payload].
    destruct (read_u64 payload) as [index payload']. cbn [reject_zero_digest_field].
    rewrite <- Hl, <- segment_matches. cbn [carrier refusal]. by destruct (carrier_decodes _).
  - unfold decode_attestation. rewrite (codec_load attestation_codec) by done.
    rewrite attestation_matches. by destruct (bool_decide _).
  - unfold decode_consensus. rewrite (codec_load consensus_codec) by done.
    rewrite consensus_matches. by destruct (bool_decide _).
Qed.

Lemma value_onto k l :
  1 <= k <= 5 -> bytes (Z.to_nat (laplace_persistence_frame_bytes k - 8)) l ->
  exists v, value_wf v /\ value_kind v = k /\ value_payload v = l.
Proof.
  intros Hk Hl. assert (k = 1 \/ k = 2 \/ k = 3 \/ k = 4 \/ k = 5) as Hks by lia.
  destruct Hks as [->|[->|[->|[->| ->]]]].
  - apply (codec_onto entity_codec) in Hl as (e & ? & <-). by exists (value_entity e).
  - apply (codec_onto physicality_codec) in Hl as (e & ? & <-). by exists (value_physicality e).
  - apply (codec_onto segment_codec) in Hl as (e & ? & <-). by exists (value_trajectory_segment e).
  - apply (codec_onto attestation_codec) in Hl as (e & ? & <-). by exists (value_attestation e).
  - apply (codec_onto consensus_codec) in Hl as (e & ? & <-). by exists (value_consensus e).
Qed.

(** The header of a frame, read back. *)
Lemma load_header n k version rest :
  is_u32 n -> is_u16 k -> is_u16 version ->
  let frame := store_le 4 n ++ store_le 2 k ++ store_le 2 version ++ rest in
  load_le (slice 0 4 frame) = n /\ load_le (slice 4 2 frame) = k /\
  load_le (slice 6 2 frame) = version /\ drop 8 frame = rest.
Proof.
  intros Hn Hk Hv. cbn zeta.
  set (pieces := [store_le 4 n; store_le 2 k; store_le 2 version]).
  replace (store_le 4 n ++ store_le 2 k ++ store_le 2 version ++ rest) with (concat pieces ++ rest)
    by (cbn [concat pieces]; by rewrite app_nil_r, <- !app_assoc).
  split_and!.
  - rewrite (slice_pieces pieces 0 (store_le 4 n)) by (cbn; by rewrite ?length_store_le).
    rewrite load_store_le. apply Z.mod_small. change (256 ^ Z.of_nat 4) with 4294967296. lia.
  - rewrite (slice_pieces pieces 1 (store_le 2 k)) by (cbn; by rewrite ?length_store_le).
    rewrite load_store_le. apply Z.mod_small. change (256 ^ Z.of_nat 2) with 65536. lia.
  - rewrite (slice_pieces pieces 2 (store_le 2 version)) by (cbn; by rewrite ?length_store_le).
    rewrite load_store_le. apply Z.mod_small. change (256 ^ Z.of_nat 2) with 65536. lia.
  - apply drop_app_length'. cbn [concat pieces].
    by rewrite app_nil_r, !length_app, !length_store_le.
Qed.

Lemma header_onto frame :
  Forall (fun b => is_u8 b) frame -> 8 <= Z.of_nat (length frame) ->
  exists n k version rest, is_u32 n /\ is_u16 k /\ is_u16 version /\
    frame = store_le 4 n ++ store_le 2 k ++ store_le 2 version ++ rest /\
    Forall (fun b => is_u8 b) rest.
Proof.
  intros Hf Hl. pose (m := (length frame - 8)%nat).
  assert (H : bytes (4 + (2 + (2 + m))) frame) by (split; [lia|done]).
  apply (field_split field_u32) in H as (n & rest & Hn & -> & H).
  apply (field_split (field_word 2 (fun l => (load_le (take 2 l), drop 2 l)) UINT16_MAX
    (fun _ => eq_refl) eq_refl)) in H as (k & rest' & Hk & -> & H).
  apply (field_split (field_word 2 (fun l => (load_le (take 2 l), drop 2 l)) UINT16_MAX
    (fun _ => eq_refl) eq_refl)) in H as (v & rest'' & Hv & -> & [_ H]).
  by exists n, k, v, rest''.
Qed.

(** The frame of a well-formed record, with anything after it. *)
Lemma decode_frame v rest available r c :
  value_wf v -> value_bytes v <= available ->
  laplace_persistence_frame_decode (Some (frame_of v ++ rest)) available (Some r) (Some c) =
  if bool_decide (value_valid v) then
    (LAPLACE_PERSISTENCE_OK, Some (record_of v), Some (value_bytes v))
  else (refusal v, Some r, Some c).
Proof.
  intros Hv Ha. pose proof (value_bytes_bounds v) as Hb.
  assert (Hk : 1 <= value_kind v <= 5) by (destruct v; cbn; lia).
  unfold frame_of. rewrite <- !app_assoc.
  destruct (load_header (value_bytes v) (value_kind v) 1 (value_payload v ++ rest))
    as (H1 & H2 & H3 & H4); [lia..|].
  unfold laplace_persistence_frame_decode. rewrite H1, H2, H3. ptrs.
  change (Z.to_nat 8) with 8%nat. rewrite H4. fold (value_bytes v).
  rewrite (proj2 (Z.ltb_ge available 8)), (proj2 (Z.eqb_neq (value_bytes v) 0)),
    Z.eqb_refl, (proj2 (Z.ltb_ge available (value_bytes v))) by lia.
  cbn [orb negb Z.eqb Pos.eqb]. rewrite decode_value_spec by done.
  destruct (bool_decide (value_valid v)); [done|]. by destruct v.
Qed.

(** The decoder's answer when no record has its frame at the front. *)
Definition frame_refusal (available : Z) : laplace_persistence_status :=
  if available <? FRAME_HEADER_BYTES then LAPLACE_PERSISTENCE_INVALID_ARGUMENT
  else LAPLACE_PERSISTENCE_FRAME_INVALID.

(** The available bytes start with no frame of a record, valid or not. *)
Definition no_frame (frame : list Z) (available : Z) : Prop :=
  forall v rest, value_wf v -> frame = frame_of v ++ rest -> available < value_bytes v.

(** What the decoder meets: the frame of a record, valid or not, or no frame. *)
Lemma decode_outcome frame available r c :
  Forall (fun b => is_u8 b) frame -> available <= Z.of_nat (length frame) ->
  (exists v rest, value_wf v /\ frame = frame_of v ++ rest /\ value_bytes v <= available) \/
  (no_frame frame available /\
   laplace_persistence_frame_decode (Some frame) available (Some r) (Some c) =
     (frame_refusal available, Some r, Some c)).
Proof.
  intros Hf Ha. unfold frame_refusal. destruct (Z.ltb_spec available 8) as [Hlt|Hge].
  { right. split.
    - intros v rest _ _. pose proof (value_bytes_bounds v). lia.
    - unfold laplace_persistence_frame_decode. ptrs. by rewrite (proj2 (Z.ltb_lt available 8)). }
  destruct (header_onto frame Hf) as (n & k & version & rest & Hn & Hk & Hver & -> & Hrest);
    [lia|].
  destruct (load_header n k version rest Hn Hk Hver) as (H1 & H2 & H3 & H4).
  destruct (decide (laplace_persistence_frame_bytes k <> 0 /\ n = laplace_persistence_frame_bytes k
    /\ n <= available /\ version = 1)) as [(Hkind & En & Hna & ->)|Hbad].
  - left. rewrite !length_app, !length_store_le in Ha.
    destruct (bytes_split (Z.to_nat (n - 8)) (length rest - Z.to_nat (n - 8)) rest)
      as (payload & rest' & -> & Hp & _); [split; [lia|done]|].
    apply frame_bytes_kind in Hkind as Hkr.
    destruct (value_onto k payload Hkr) as (v & Hv & <- & <-); [by rewrite <- En|].
    exists v, rest'. unfold frame_of, value_bytes. rewrite <- En, <- !app_assoc. by split_and!.
  - right. split.
    + intros v rest' Hv E. destruct (Z.lt_ge_cases available (value_bytes v)) as [?|Hva]; [done|].
      destruct Hbad. pose proof (value_bytes_bounds v).
      destruct (load_header (value_bytes v) (value_kind v) 1 (value_payload v ++ rest'))
        as (E1 & E2 & E3 & _); [lia|destruct v; cbn; lia|lia|].
      unfold frame_of in E. rewrite <- !app_assoc in E.
      rewrite E, E1 in H1. rewrite E, E2 in H2. rewrite E, E3 in H3. subst n k version.
      fold (value_bytes v). split_and!; [lia|done|done|done].
    + unfold laplace_persistence_frame_decode. rewrite H1, H2, H3. ptrs.
      rewrite (proj2 (Z.ltb_ge available 8)) by lia.
      destruct (_ || _ || _ || _) eqn:E; [done|]. bools. by destruct Hbad.
Qed.

(** The decoder's two answers. *)
Lemma decode_cases frame available r c :
  Forall (fun b => is_u8 b) frame -> available <= Z.of_nat (length frame) ->
  (exists v rest, value_wf v /\ value_valid v /\ frame = frame_of v ++ rest /\
     value_bytes v <= available /\
     laplace_persistence_frame_decode (Some frame) available (Some r) (Some c) =
       (LAPLACE_PERSISTENCE_OK, Some (record_of v), Some (value_bytes v))) \/
  (exists status, status <> LAPLACE_PERSISTENCE_OK /\
     laplace_persistence_frame_decode (Some frame) available (Some r) (Some c) =
       (status, Some r, Some c) /\
     forall v rest, value_wf v -> value_valid v -> frame = frame_of v ++ rest ->
       available < value_bytes v).
Proof.
  intros Hf Ha. destruct (decode_outcome frame available r c Hf Ha)
    as [(v & rest & Hv & -> & Hva)|[Hno E]].
  - pose proof (decode_frame v rest available r c Hv Hva) as D.
    destruct (bool_decide (value_valid v)) eqn:Ev.
    + apply bool_decide_eq_true in Ev. left. by exists v, rest.
    + apply bool_decide_eq_false in Ev. right. exists (refusal v). split_and!; [by destruct v|done|].
      intros w rest' Hw Hval E. destruct (Z.lt_ge_cases available (value_bytes w)); [done|].
      pose proof (decode_frame w rest' available r c Hw ltac:(lia)) as D2.
      rewrite bool_decide_true in D2 by done. rewrite E, D2 in D. by destruct v.
  - right. exists (frame_refusal available). split_and!; [|done|].
    + unfold frame_refusal. by destruct (_ <? _).
    + intros w rest' Hw _. by apply Hno.
Qed.

(** Frames of valid records are a prefix code. *)
Lemma frame_of_inj v w x y :
  value_wf v -> value_valid v -> value_wf w -> value_valid w ->
  frame_of v ++ x = frame_of w ++ y -> v = w /\ x = y.
Proof.
  intros Hv Hvv Hw Hwv E.
  pose proof (decode_frame v x (value_bytes v + value_bytes w) (record_of v) 0 Hv) as D1.
  pose proof (decode_frame w y (value_bytes v + value_bytes w) (record_of v) 0 Hw) as D2.
  pose proof (value_bytes_bounds v). pose proof (value_bytes_bounds w).
  rewrite bool_decide_true in D1, D2 by done. rewrite E, D2 in D1 by lia.
  specialize (D1 ltac:(lia)).
  assert (Hv' : Some w = Some v).
  { exact (f_equal (fun result : laplace_persistence_status * ptr laplace_persistence_record * ptr Z =>
      match result.1.2 with Some record => Some (value record) | None => None end) D1). }
  injection Hv' as ->. split; [done|]. by apply app_inv_head in E.
Qed.
End Records.

Section FrameProperties.
Context {B : Blake3} {L : Blake3Laws B}.

(** C27: the decoder meets one of four cases, which exclude each other, and its
    answer tells them apart.  When the available bytes start with the frame of a
    valid record (scalars valid, identity the digest of the payload), it returns
    that record and the length of its frame.  In the other cases it writes
    nothing, and the status is the first thing that is wrong: too few bytes for a
    header is [INVALID_ARGUMENT]; a header and the bytes behind it that are no
    frame of any record (unknown kind, wrong length or version, too short) are
    [FRAME_INVALID]; the frame of a record that breaks the law of its kind is
    [RECORD_INVALID] for an entity, [TRAJECTORY_INVALID] for a vertex and
    [IDENTITY_MISMATCH] for the other kinds. *)
Theorem frame_decode_exact frame available r c :
  Forall (fun b => is_u8 b) frame -> available <= Z.of_nat (length frame) ->
  let decoded := laplace_persistence_frame_decode (Some frame) available (Some r) (Some c) in
  (exists v rest, value_wf v /\ frame = frame_of v ++ rest /\ value_bytes v <= available /\
     ((value_valid v /\
       decoded = (LAPLACE_PERSISTENCE_OK, Some (record_of v), Some (value_bytes v))) \/
      (~ value_valid v /\
       decoded =
         (match v with
          | value_entity _ => LAPLACE_PERSISTENCE_RECORD_INVALID
          | value_trajectory_segment _ => LAPLACE_PERSISTENCE_TRAJECTORY_INVALID
          | value_physicality _ | value_attestation _ | value_consensus _ =>
              LAPLACE_PERSISTENCE_IDENTITY_MISMATCH
          end, Some r, Some c)))) \/
  (no_frame frame available /\
   ((available < FRAME_HEADER_BYTES /\
     decoded = (LAPLACE_PERSISTENCE_INVALID_ARGUMENT, Some r, Some c)) \/
    (FRAME_HEADER_BYTES <= available /\
     decoded = (LAPLACE_PERSISTENCE_FRAME_INVALID, Some r, Some c)))).
Proof.
  intros Hf Ha. cbn zeta. destruct (decode_outcome frame available r c Hf Ha)
    as [(v & rest & Hv & -> & Hva)|[Hno ->]].
  - left. exists v, rest. split_and!; [done..|]. rewrite decode_frame by done.
    destruct (bool_decide (value_valid v)) eqn:Ev.
    + left. by apply bool_decide_eq_true in Ev.
    + right. apply bool_decide_eq_false in Ev. by destruct v.
  - right. split; [done|]. unfold frame_refusal. destruct (Z.ltb_spec available 8); [by left|by right].
Qed.

(** a record that its encoder accepts is decoded back, whatever the buffer
    held behind the frame: encoding a well-formed record into a buffer with room
    for it succeeds exactly when the record is valid, writes its frame and
    nothing else, and the decoder returns the record and the length of the
    frame; otherwise the buffer is left alone. *)
Theorem frame_roundtrip v out capacity n r c :
  value_wf v -> value_bytes v <= capacity <= Z.of_nat (length out) ->
  (value_valid v /\ exists out',
     encode_value v (Some out) capacity (Some n) =
       (LAPLACE_PERSISTENCE_OK, Some out', Some (value_bytes v)) /\
     length out' = length out /\
     drop (Z.to_nat (value_bytes v)) out' = drop (Z.to_nat (value_bytes v)) out /\
     laplace_persistence_frame_decode (Some out') capacity (Some r) (Some c) =
       (LAPLACE_PERSISTENCE_OK, Some (record_of v), Some (value_bytes v))) \/
  (~ value_valid v /\
   encode_value v (Some out) capacity (Some n) = (refusal v, Some out, Some n)).
Proof.
  intros Hv Hc. pose proof (value_bytes_bounds v) as Hb.
  rewrite encode_value_spec by (done || cbn; lia).
  destruct (frame_of_bytes v Hv) as [Hl _].
  destruct (bool_decide (value_valid v)) eqn:Ev.
  - left. apply bool_decide_eq_true in Ev. split; [done|].
    rewrite (proj2 (Z.ltb_ge capacity _)) by lia. eexists. split; [done|]. split_and!.
    + rewrite length_app, length_drop, Hl. lia.
    + by rewrite drop_app_length'.
    + rewrite decode_frame by (done || lia). by rewrite bool_decide_true.
  - right. by apply bool_decide_eq_false in Ev.
Qed.

(** The calculation on carriers is the one on their bytes. *)
Lemma carriers_absorbed carriers h m :
  absorbs h m ->
  absorbs (foldl (fun h c => blake3_hasher_update h (carrier_store c)) h carriers)
    (m ++ concat (map carrier_store carriers)).
Proof. apply (absorbs_fold _ carrier_store). intros. by apply absorbs_update. Qed.

Lemma trajectory_fingerprint_eq carriers n out :
  carriers <> [] -> n = Z.of_nat (length carriers) ->
  laplace_persistence_trajectory_fingerprint (Some carriers) n (Some out) =
  (LAPLACE_PERSISTENCE_OK,
   Some (blake3 (TRAJECTORY_DOMAIN ++ concat (map carrier_store carriers)))).
Proof.
  intros Hne Hn. unfold laplace_persistence_trajectory_fingerprint. ptrs.
  rewrite (proj2 (Z.eqb_neq n 0)) by (destruct carriers; [done|subst n; cbn [length]; lia]).
  ptrs. rewrite cells_all by done. cbn [store]. do 2 f_equal.
  apply absorbs_finalize, carriers_absorbed. unfold trajectory_hash_begin. absorb.
Qed.

Lemma carriers_bytes_length carriers :
  Forall (fun c => doubles_wf 4 (slots c)) carriers ->
  length (concat (map carrier_store carriers)) = (32 * length carriers)%nat.
Proof.
  induction 1 as [|c carriers Hc _ IH]; [done|]. cbn [map concat length].
  destruct (field_bytes (field_doubles 4) (slots c) Hc) as [Hl _].
  rewrite length_app, IH. unfold carrier_store. rewrite Hl. lia.
Qed.

(** the fingerprint of a trajectory computed from its carriers is the one
    computed from their serialized bytes, and neither is accepted when empty. *)
Theorem trajectory_fingerprints_agree carriers n out :
  Forall (fun c => doubles_wf 4 (slots c)) carriers -> n = Z.of_nat (length carriers) ->
  laplace_persistence_trajectory_fingerprint (Some carriers) n (Some out) =
  laplace_persistence_trajectory_bytes_fingerprint
    (Some (concat (map carrier_store carriers))) (32 * n) (Some out).
Proof.
  intros Hc Hn. pose proof (carriers_bytes_length carriers Hc) as Hl.
  unfold laplace_persistence_trajectory_bytes_fingerprint. ptrs.
  destruct carriers as [|c carriers]; [by subst n|].
  rewrite trajectory_fingerprint_eq by done.
  rewrite (proj2 (Z.eqb_neq (32 * n) 0)) by (subst n; cbn [length]; lia).
  replace ((32 * n) mod 32) with 0 by (rewrite Z.mul_comm; symmetry; apply Z_mod_mult).
  cbn [orb negb Z.eqb]. rewrite cells_all by (rewrite Hl, Hn; lia). cbn [store].
  do 2 f_equal. symmetry. apply absorbs_finalize. unfold trajectory_hash_begin. absorb.
Qed.

Lemma payload_tail h (tail : list Z) : bytes 32 h -> drop 32 (h ++ tail) = tail.
Proof. intros [? _]. by apply drop_app_length'. Qed.

(** A coordinate that a physicality may have. *)
Definition coordinate_valid (value : double) : bool :=
  isfinite value && negb (double_lt value minus_one) && negb (double_lt plus_one value).

Lemma coordinates_scan values :
  existsb (fun value => negb (isfinite value) || double_lt value minus_one ||
                        double_lt plus_one value) values = negb (forallb coordinate_valid values).
Proof.
  induction values as [|v values IH]; [done|]. cbn [existsb forallb]. rewrite IH.
  unfold coordinate_valid. by destruct (isfinite v), (double_lt v _), (double_lt _ v).
Qed.

(** The physicality of an atomic point, by its identity. *)
Definition atomic_point_as (x id : list Z) (version : Z) (recipe epoch : list Z) (point : laplace_point4d)
    : laplace_persistence_physicality_record :=
  mk_physicality x id 2 0 version 2 4 0 recipe epoch (zeros 32) point 0 1 0.
Definition atomic_point_identity (id : list Z) (version : Z) (recipe epoch : list Z)
    (point : laplace_point4d) : laplace_digest256 :=
  identity_of PHYSICALITY_DOMAIN (physicality_payload (atomic_point_as (zeros 32) id version recipe epoch point)).

Lemma atomic_point_scalars x id version recipe epoch point :
  physicality_scalars_valid (atomic_point_as x id version recipe epoch point) =
  negb (version =? 0) && forallb coordinate_valid (component point).
Proof.
  unfold physicality_scalars_valid.
  cbn [atomic_point_as recipe_version dimension_count physicality_flags physicality_radius
       physicality_centroid physicality_type vertex_class structural_form
       physicality_logical_count vertex_count trajectory_fingerprint].
  rewrite coordinates_scan. by destruct (version =? 0), (forallb _ _).
Qed.

Lemma atomic_point_eq id version recipe epoch point p :
  laplace_persistence_atomic_point_physicality (Some id) version (Some recipe) (Some epoch)
    (Some point) (Some p) =
  if negb (version =? 0) && forallb coordinate_valid (component point)
  then (LAPLACE_PERSISTENCE_OK,
        Some (atomic_point_as (atomic_point_identity id version recipe epoch point) id version recipe epoch point))
  else (LAPLACE_PERSISTENCE_RECORD_INVALID, Some p).
Proof.
  unfold laplace_persistence_atomic_point_physicality. cbv zeta.
  change (Z.of_nat LAPLACE_GEOMETRY_COMPONENTS) with 4.
  unfold laplace_persistence_physicality_identify.
  lazymatch goal with |- context [physicality_scalars_valid ?q] =>
    change q with (atomic_point_as (zeros 32) id version recipe epoch point) end.
  rewrite atomic_point_scalars. destruct (negb (version =? 0) && _); [|done].
  cbn [negb store from_option]. by rewrite payload_digest_eq.
Qed.

(** the physicality of an atomic point is refused exactly when its recipe
    version is zero or a coordinate is not a number in [-1, 1], and otherwise
    is a valid record, so that it can be framed, with the given identity, recipe
    and coordinates, one logical occurrence, no trajectory and no radius. *)
Theorem atomic_point_valid id version recipe epoch point p :
  bytes 16 id -> is_u32 version -> bytes 32 recipe -> bytes 32 epoch ->
  doubles_wf 4 (component point) ->
  let '(status, result) :=
    laplace_persistence_atomic_point_physicality (Some id) version (Some recipe) (Some epoch)
      (Some point) (Some p) in
  if negb (version =? 0) && forallb coordinate_valid (component point) then
    status = LAPLACE_PERSISTENCE_OK /\ exists created, result = Some created /\
      value_wf (value_physicality created) /\ value_valid (value_physicality created) /\
      physicality_entity_id created = id /\ recipe_version created = version /\
      physicality_recipe_fingerprint created = recipe /\ geometry_epoch created = epoch /\
      physicality_centroid created = point /\ physicality_radius created = 0 /\
      physicality_logical_count created = 1 /\ vertex_count created = 0
  else status = LAPLACE_PERSISTENCE_RECORD_INVALID /\ result = Some p.
Proof.
  intros Hid Hver Hrec Hep Hpt. rewrite atomic_point_eq.
  destruct (negb (version =? 0) && _) eqn:E; [|done]. split; [done|]. eexists. split; [done|].
  split_and!; try done.
  - unfold value_wf, physicality_wf. cbn. split_and!; try done; try lia;
      [apply blake3_bytes | apply bytes_zeros].
  - split; [by rewrite atomic_point_scalars|]. unfold atomic_point_identity, identity_of. cbn [physicality_id].
    do 2 f_equal. unfold physicality_payload. cbn [physicality_id].
    by rewrite !payload_tail by (apply bytes_zeros || apply blake3_bytes).
Qed.

(** the fingerprint of a plan sequence is issued for the contract's eleven
    plans in their order and for nothing else. *)
Theorem plan_sequence_exact plan_ids plan_count out :
  plan_count = Z.of_nat (length plan_ids) ->
  laplace_persistence_plan_sequence_fingerprint (Some plan_ids) plan_count (Some out) =
  if bool_decide (plan_ids = expected_plan_ids) then
    (LAPLACE_PERSISTENCE_OK,
     Some (blake3 (PLAN_SEQUENCE_DOMAIN ++ PLAN_MANIFEST ++
                   concat (map (store_le 4) expected_plan_ids))))
  else (if plan_count =? LAPLACE_PERSISTENCE_PG_PLAN_COUNT then LAPLACE_PERSISTENCE_RECORD_INVALID
        else LAPLACE_PERSISTENCE_INVALID_ARGUMENT, Some out).
Proof.
  intros Hn.
  assert (Hloop : forall ids wanted h m, length ids = length wanted -> absorbs h m ->
    match plan_sequence_loop h ids wanted with
    | None => ids <> wanted
    | Some h' => ids = wanted /\ absorbs h' (m ++ concat (map (store_le 4) wanted))
    end).
  { induction ids as [|i ids IH]; intros [|w wanted] h m Hl Hh; try done; cbn.
    { by rewrite app_nil_r. }
    destruct (Z.eqb_spec i w) as [->|Hne]; cbn; [|congruence].
    specialize (IH wanted (blake3_hasher_update h (store_le 4 w)) (m ++ store_le 4 w)
      ltac:(by injection Hl) ltac:(absorb)).
    destruct (plan_sequence_loop _ ids wanted); [|congruence].
    destruct IH as [-> IH]. split; [done|]. by rewrite <- app_assoc in IH. }
  unfold laplace_persistence_plan_sequence_fingerprint. ptrs.
  destruct (Z.eqb_spec plan_count 11) as [->|Hne]; cbn [negb orb].
  - rewrite cells_all by done.
    specialize (Hloop plan_ids expected_plan_ids
      (blake3_hasher_update (blake3_hasher_update blake3_hasher_init PLAN_SEQUENCE_DOMAIN)
         PLAN_MANIFEST) (PLAN_SEQUENCE_DOMAIN ++ PLAN_MANIFEST) ltac:(cbn; lia) ltac:(absorb)).
    destruct (plan_sequence_loop _ _ _) as [h|].
    + destruct Hloop as [-> Hh]. rewrite bool_decide_true by done. cbn [store]. do 2 f_equal.
      rewrite <- app_assoc in Hh. by apply absorbs_finalize.
    + by rewrite bool_decide_false.
  - rewrite bool_decide_false; [done|]. intros ->. by apply Hne.
Qed.
End FrameProperties.

(** ** Concrete records *)
Section Samples.
#[local] Existing Instance checksum_blake3.

Definition sample_id (b : Z) : list Z := replicate 16 b.
Definition sample_digest (b : Z) : list Z := replicate 32 b.
Definition sample_point : laplace_point4d := mk_point [plus_one; minus_one; 0; 0x3fe0000000000000].

Definition empty_physicality : laplace_persistence_physicality_record :=
  mk_physicality (zeros 32) (zeros 16) 0 0 0 0 0 0 (zeros 32) (zeros 32) (zeros 32)
    (mk_point [0; 0; 0; 0]) 0 0 0.

Definition sample_atomic : laplace_persistence_physicality_record :=
  default empty_physicality
    (laplace_persistence_atomic_point_physicality (Some (sample_id 7)) 3 (Some (sample_digest 1))
       (Some (sample_digest 2)) (Some sample_point) (Some empty_physicality)).2.

Definition sample_entity : laplace_persistence_value :=
  value_entity (mk_entity (sample_id 7) (sample_digest 7)).

(** An entity whose witness is the digest of something else. *)
Definition sample_foreign_entity : laplace_persistence_value :=
  value_entity (mk_entity (sample_id 7) (sample_digest 8)).

Definition sample_carrier (start run : Z) : laplace_trajectory_carrier :=
  default (mk_carrier [0; 0; 0; 0])
    (laplace_trajectory_composition_encode (Some (sample_id 7)) start run 0
       (Some (mk_carrier [0; 0; 0; 0]))).2.

Lemma sample_atomic_framed :
  value_wf (value_physicality sample_atomic) /\ value_valid (value_physicality sample_atomic).
Proof. split; [|check]. unfold value_wf, physicality_wf, doubles_wf. split_and!; check. Qed.

Lemma sample_frame_bytes :
  Forall (fun b => is_u8 b) (frame_of sample_entity ++ [1; 2; 3]).
Proof. check. Qed.
End Samples.

Definition decoded_status
    (d : laplace_persistence_status * ptr laplace_persistence_record * ptr Z) := d.1.1.

(** The sample entity is read back, one whose witness is foreign is refused as a
    record, and nothing but its header is no frame. *)
Lemma frame_decode_exact_witness :
  (exists v rest, frame_of sample_entity ++ [1; 2; 3] = frame_of v ++ rest /\
     value_valid (B := checksum_blake3) v /\
     laplace_persistence_frame_decode (B := checksum_blake3)
       (Some (frame_of sample_entity ++ [1; 2; 3])) 59 (Some (record_of sample_entity)) (Some 0) =
     (LAPLACE_PERSISTENCE_OK, Some (record_of v), Some (value_bytes v))) /\
  no_frame (frame_of sample_entity) 8.
Proof.
  split.
  - destruct (frame_decode_exact (B := checksum_blake3) (L := checksum_blake3_laws)
      (frame_of sample_entity ++ [1; 2; 3]) 59 (record_of sample_entity) 0 sample_frame_bytes)
      as [(v & rest & _ & E & _ & [[Hv D]|[_ D]])|[_ [[_ D]|[_ D]]]]; [check|..].
    + exists v, rest. split; [exact E|]. split; [exact Hv|exact D].
    + apply (f_equal decoded_status) in D. vm_compute in D. by destruct v.
    + apply (f_equal decoded_status) in D. vm_compute in D. discriminate D.
    + apply (f_equal decoded_status) in D. vm_compute in D. discriminate D.
  - intros v rest _ _. pose proof (value_bytes_bounds v). lia.
Defined.

Lemma frame_roundtrip_witness :
  (value_valid (B := checksum_blake3) (value_physicality sample_atomic) /\ exists out',
     encode_value (B := checksum_blake3) (value_physicality sample_atomic)
       (Some (replicate 300 9)) 300 (Some 0) =
       (LAPLACE_PERSISTENCE_OK, Some out', Some 232) /\
     length out' = length (replicate 300 9) /\
     drop (Z.to_nat 232) out' = drop (Z.to_nat 232) (replicate 300 9) /\
     laplace_persistence_frame_decode (B := checksum_blake3) (Some out') 300
       (Some (record_of sample_entity)) (Some 0) =
       (LAPLACE_PERSISTENCE_OK, Some (record_of (value_physicality sample_atomic)), Some 232)) \/
  (~ value_valid (B := checksum_blake3) (value_physicality sample_atomic) /\
   encode_value (B := checksum_blake3) (value_physicality sample_atomic)
     (Some (replicate 300 9)) 300 (Some 0) =
     (refusal (value_physicality sample_atomic), Some (replicate 300 9), Some 0)).
Proof.
  apply (frame_roundtrip (B := checksum_blake3) (L := checksum_blake3_laws)
    (value_physicality sample_atomic) (replicate 300 9) 300 0 (record_of sample_entity) 0).
  - exact (proj1 sample_atomic_framed).
  - split; check.
Defined.

Definition sample_carriers : list laplace_trajectory_carrier :=
  [sample_carrier 1 3; sample_carrier 4 2].

Lemma sample_carriers_wf : Forall (fun c => doubles_wf 4 (slots c)) sample_carriers.
Proof. unfold doubles_wf. check. Qed.

Lemma trajectory_fingerprints_agree_witness :
  laplace_persistence_trajectory_fingerprint (B := checksum_blake3) (Some sample_carriers) 2
    (Some (zeros 32)) =
  laplace_persistence_trajectory_bytes_fingerprint (B := checksum_blake3)
    (Some (concat (map carrier_store sample_carriers))) (32 * 2) (Some (zeros 32)).
Proof.
  apply (trajectory_fingerprints_agree (B := checksum_blake3) (L := checksum_blake3_laws)).
  - exact sample_carriers_wf.
  - reflexivity.
Defined.

Lemma sample_point_wf : doubles_wf 4 (component sample_point).
Proof. unfold doubles_wf. check. Qed.

Lemma atomic_point_valid_witness :
  exists created,
    laplace_persistence_atomic_point_physicality (B := checksum_blake3) (Some (sample_id 7)) 3
      (Some (sample_digest 1)) (Some (sample_digest 2)) (Some sample_point)
      (Some empty_physicality) = (LAPLACE_PERSISTENCE_OK, Some created) /\
    value_valid (B := checksum_blake3) (value_physicality created).
Proof.
  pose proof (atomic_point_valid (B := checksum_blake3) (L := checksum_blake3_laws)
    (sample_id 7) 3 (sample_digest 1) (sample_digest 2) sample_point empty_physicality
    ltac:(check) ltac:(split; discriminate) ltac:(check) ltac:(check) sample_point_wf) as H.
  destruct (laplace_persistence_atomic_point_physicality _ _ _ _ _ _) as [status result].
  assert (E : negb (3 =? 0) && forallb coordinate_valid (component sample_point) = true)
    by (vm_compute; reflexivity).
  rewrite E in H. destruct H as [-> (created & -> & _ & Hv & _)]. by exists created.
Defined.

Lemma plan_sequence_exact_witness :
  laplace_persistence_plan_sequence_fingerprint (B := checksum_blake3)
    (Some [2; 1; 3; 4; 5; 6; 7; 8; 9; 10; 11]) 11 (Some (zeros 32)) =
  (LAPLACE_PERSISTENCE_RECORD_INVALID, Some (zeros 32)).
Proof.
  rewrite (plan_sequence_exact (B := checksum_blake3) (L := checksum_blake3_laws)) by reflexivity.
  by rewrite bool_decide_false.
Defined.
