(* ===== verification/PersistenceStream.v ===== *)
(** * Persistence streams: the validation of a deposit

    Models the second part of [engine/src/persistence.c], from
    [validation_state] on: the machine that reads the frames of a stream of
    canonical batches one after the other, checks the order of the record
    families and the trajectory of each physicality, and counts.  The loop over
    the frames of a batch runs with one unit of fuel per byte; a frame has at
    least 56 bytes, and [PersistenceLaw.frames_exact] shows that it never runs
    out. *)
From stdpp Require Import prelude sorting.
From Stdlib Require Import ZArith Lia.
From S2P Require Import Prelude Bytes Sorting Hash Identity Trajectory Binary64 Geometry Framework.
From S2P Require Import PersistenceFrames.

(** ** Data *)
Record laplace_persistence_summary := mk_summary {
  entity_count : Z;
  physicality_count : Z;
  trajectory_segment_count : Z;
  attestation_count : Z;
  consensus_count : Z;
  logical_occurrence_count : Z;
  frame_count : Z;
  summary_byte_count : Z }.

Section Validation.
Context {B : Blake3}.

Record validation_state := mk_state {
  summary : laplace_persistence_summary;
  phase : Z;
  have_entity : bool;
  have_physicality : bool;
  have_attestation : bool;
  have_consensus : bool;
  previous_entity : laplace_id128;
  previous_physicality : laplace_digest256;
  previous_attestation : laplace_digest256;
  previous_consensus : laplace_digest256;
  current_physicality : laplace_persistence_physicality_record;
  current_vertices : Z;
  current_logical_count : Z;
  trajectory_hasher : blake3_hasher;
  current_open : bool }.

(** [memset(&state, 0, sizeof(state))]; the hasher is initialised before it is
    used. *)
Definition initial_state : validation_state := {|
  summary := mk_summary 0 0 0 0 0 0 0 0;
  phase := 0;
  have_entity := false;
  have_physicality := false;
  have_attestation := false;
  have_consensus := false;
  previous_entity := zeros 16;
  previous_physicality := zeros 32;
  previous_attestation := zeros 32;
  previous_consensus := zeros 32;
  current_physicality := empty_physicality;
  current_vertices := 0;
  current_logical_count := 0;
  trajectory_hasher := blake3_hasher_init;
  current_open := false |}.

(** Assignments to single fields. *)
Definition set_open (state : validation_state) (open : bool) : validation_state :=
  mk_state (summary state) (phase state) (have_entity state) (have_physicality state)
    (have_attestation state) (have_consensus state) (previous_entity state)
    (previous_physicality state) (previous_attestation state) (previous_consensus state)
    (current_physicality state) (current_vertices state) (current_logical_count state)
    (trajectory_hasher state) open.

Definition set_summary (state : validation_state) (total : laplace_persistence_summary)
    : validation_state :=
  mk_state total (phase state) (have_entity state) (have_physicality state)
    (have_attestation state) (have_consensus state) (previous_entity state)
    (previous_physicality state) (previous_attestation state) (previous_consensus state)
    (current_physicality state) (current_vertices state) (current_logical_count state)
    (trajectory_hasher state) (current_open state).

Definition close_physicality (state : validation_state)
    : laplace_persistence_status * validation_state :=
  return_when negb (current_open state) with (LAPLACE_PERSISTENCE_OK, state) ;;
  if physicality_type (current_physicality state) =?
     LAPLACE_PERSISTENCE_PHYSICALITY_ATOMIC_POINT then
    return_when negb (current_vertices state =? 0) || negb (current_logical_count state =? 0)
      with (LAPLACE_PERSISTENCE_TRAJECTORY_INVALID, state) ;;
    (LAPLACE_PERSISTENCE_OK, set_open state false)
  else
    let trajectory := blake3_hasher_finalize (trajectory_hasher state) in
    return_when negb (current_vertices state =? vertex_count (current_physicality state)) ||
                negb (current_logical_count state =?
                      physicality_logical_count (current_physicality state)) ||
                negb (bytes_equal trajectory
                        (trajectory_fingerprint (current_physicality state)))
      with (LAPLACE_PERSISTENCE_TRAJECTORY_INVALID, state) ;;
    (LAPLACE_PERSISTENCE_OK, set_open state false).

(** [comparison = have ? memcmp(previous, id) : -1], tested for [>= 0]. *)
Definition not_after (have : bool) (previous id : list Z) : bool :=
  match (if have then memcmp previous id else Lt) with Lt => false | _ => true end.

(** The switch of [validate_record], by case. *)
Definition validate_entity (state : validation_state)
    (record : laplace_persistence_entity_record)
    : laplace_persistence_status * validation_state :=
  return_when LAPLACE_PERSISTENCE_RECORD_ENTITY <? phase state
    with (LAPLACE_PERSISTENCE_ORDER_INVALID, state) ;;
  return_when not_after (have_entity state) (previous_entity state) (record_entity_id record)
    with (LAPLACE_PERSISTENCE_ORDER_INVALID, state) ;;
  let total := summary state in
  (LAPLACE_PERSISTENCE_OK,
   {| summary :=
        mk_summary (u64 (entity_count total + 1)) (physicality_count total)
          (trajectory_segment_count total) (attestation_count total) (consensus_count total)
          (logical_occurrence_count total) (frame_count total) (summary_byte_count total);
      phase := LAPLACE_PERSISTENCE_RECORD_ENTITY;
      have_entity := true;
      have_physicality := have_physicality state;
      have_attestation := have_attestation state;
      have_consensus := have_consensus state;
      previous_entity := record_entity_id record;
      previous_physicality := previous_physicality state;
      previous_attestation := previous_attestation state;
      previous_consensus := previous_consensus state;
      current_physicality := current_physicality state;
      current_vertices := current_vertices state;
      current_logical_count := current_logical_count state;
      trajectory_hasher := trajectory_hasher state;
      current_open := current_open state |}).

Definition validate_physicality (state : validation_state)
    (record : laplace_persistence_physicality_record)
    : laplace_persistence_status * validation_state :=
  return_when LAPLACE_PERSISTENCE_RECORD_ATTESTATION <=? phase state
    with (LAPLACE_PERSISTENCE_ORDER_INVALID, state) ;;
  match close_physicality state with
  | (LAPLACE_PERSISTENCE_OK, state) =>
      return_when not_after (have_physicality state) (previous_physicality state)
                    (physicality_id record)
        with (LAPLACE_PERSISTENCE_ORDER_INVALID, state) ;;
      let total := summary state in
      (LAPLACE_PERSISTENCE_OK,
       {| summary :=
            mk_summary (entity_count total) (u64 (physicality_count total + 1))
              (trajectory_segment_count total) (attestation_count total)
              (consensus_count total) (logical_occurrence_count total) (frame_count total)
              (summary_byte_count total);
          phase := LAPLACE_PERSISTENCE_RECORD_PHYSICALITY;
          have_entity := have_entity state;
          have_physicality := true;
          have_attestation := have_attestation state;
          have_consensus := have_consensus state;
          previous_entity := previous_entity state;
          previous_physicality := physicality_id record;
          previous_attestation := previous_attestation state;
          previous_consensus := previous_consensus state;
          current_physicality := record;
          current_vertices := 0;
          current_logical_count := 0;
          trajectory_hasher := blake3_hasher_update blake3_hasher_init TRAJECTORY_DOMAIN;
          current_open := true |})
  | failed => failed
  end.

(** The occurrence that the code then writes to its local record is not read
    again. *)
Definition validate_trajectory_segment (state : validation_state)
    (record : laplace_persistence_trajectory_segment_record) (frame : list Z)
    : laplace_persistence_status * validation_state :=
  let logical_ordinal := u64 (current_logical_count state + 1) in
  return_when
    negb (current_open state) ||
    negb (physicality_type (current_physicality state) =?
          LAPLACE_PERSISTENCE_PHYSICALITY_COMPOSITION) ||
    negb (bytes_equal (physicality_id (current_physicality state))
            (segment_physicality_id record)) ||
    negb (vertex_index record =? current_vertices state)
    with (LAPLACE_PERSISTENCE_TRAJECTORY_INVALID, state) ;;
  match laplace_trajectory_composition_decode_one (Some (carrier record)) logical_ordinal
          (Some empty_occurrence) with
  | (LAPLACE_TRAJECTORY_OK, Some occurrence) =>
      return_when UINT64_MAX - current_logical_count state <? occurrence_run_length occurrence
        with (LAPLACE_PERSISTENCE_TRAJECTORY_INVALID, state) ;;
      let total := summary state in
      (LAPLACE_PERSISTENCE_OK,
       {| summary :=
            mk_summary (entity_count total) (physicality_count total)
              (u64 (trajectory_segment_count total + 1)) (attestation_count total)
              (consensus_count total)
              (u64 (logical_occurrence_count total + occurrence_run_length occurrence))
              (frame_count total) (summary_byte_count total);
          phase := phase state;
          have_entity := have_entity state;
          have_physicality := have_physicality state;
          have_attestation := have_attestation state;
          have_consensus := have_consensus state;
          previous_entity := previous_entity state;
          previous_physicality := previous_physicality state;
          previous_attestation := previous_attestation state;
          previous_consensus := previous_consensus state;
          current_physicality := current_physicality state;
          current_vertices := u64 (current_vertices state + 1);
          current_logical_count :=
            u64 (current_logical_count state + occurrence_run_length occurrence);
          trajectory_hasher :=
            blake3_hasher_update (trajectory_hasher state)
              (slice (FRAME_HEADER_BYTES + 40) 32 frame);
          current_open := current_open state |})
  | _ => (LAPLACE_PERSISTENCE_TRAJECTORY_INVALID, state)
  end.

Definition validate_attestation (state : validation_state)
    (record : laplace_persistence_attestation_record)
    : laplace_persistence_status * validation_state :=
  match close_physicality state with
  | (LAPLACE_PERSISTENCE_OK, state) =>
      return_when not_after (have_attestation state) (previous_attestation state)
                    (attestation_id record)
        with (LAPLACE_PERSISTENCE_ORDER_INVALID, state) ;;
      let total := summary state in
      (LAPLACE_PERSISTENCE_OK,
       {| summary :=
            mk_summary (entity_count total) (physicality_count total)
              (trajectory_segment_count total) (u64 (attestation_count total + 1))
              (consensus_count total) (logical_occurrence_count total) (frame_count total)
              (summary_byte_count total);
          phase := LAPLACE_PERSISTENCE_RECORD_ATTESTATION;
          have_entity := have_entity state;
          have_physicality := have_physicality state;
          have_attestation := true;
          have_consensus := have_consensus state;
          previous_entity := previous_entity state;
          previous_physicality := previous_physicality state;
          previous_attestation := attestation_id record;
          previous_consensus := previous_consensus state;
          current_physicality := current_physicality state;
          current_vertices := current_vertices state;
          current_logical_count := current_logical_count state;
          trajectory_hasher := trajectory_hasher state;
          current_open := current_open state |})
  | (_, state) => (LAPLACE_PERSISTENCE_TRAJECTORY_INVALID, state)
  end.

Definition validate_consensus (state : validation_state)
    (record : laplace_persistence_consensus_record)
    : laplace_persistence_status * validation_state :=
  match close_physicality state with
  | (LAPLACE_PERSISTENCE_OK, state) =>
      return_when not_after (have_consensus state) (previous_consensus state)
                    (consensus_id record)
        with (LAPLACE_PERSISTENCE_ORDER_INVALID, state) ;;
      let total := summary state in
      (LAPLACE_PERSISTENCE_OK,
       {| summary :=
            mk_summary (entity_count total) (physicality_count total)
              (trajectory_segment_count total) (attestation_count total)
              (u64 (consensus_count total + 1)) (logical_occurrence_count total)
              (frame_count total) (summary_byte_count total);
          phase := LAPLACE_PERSISTENCE_RECORD_CONSENSUS;
          have_entity := have_entity state;
          have_physicality := have_physicality state;
          have_attestation := have_attestation state;
          have_consensus := true;
          previous_entity := previous_entity state;
          previous_physicality := previous_physicality state;
          previous_attestation := previous_attestation state;
          previous_consensus := consensus_id record;
          current_physicality := current_physicality state;
          current_vertices := current_vertices state;
          current_logical_count := current_logical_count state;
          trajectory_hasher := trajectory_hasher state;
          current_open := current_open state |})
  | (_, state) => (LAPLACE_PERSISTENCE_TRAJECTORY_INVALID, state)
  end.

(** [state->summary.frame_count += 1u]. *)
Definition count_frame (state : validation_state) : validation_state :=
  let total := summary state in
  set_summary state
    (mk_summary (entity_count total) (physicality_count total) (trajectory_segment_count total)
       (attestation_count total) (consensus_count total) (logical_occurrence_count total)
       (u64 (frame_count total + 1)) (summary_byte_count total)).

Definition validate_record (state : validation_state) (record : laplace_persistence_record)
    (frame : list Z) : laplace_persistence_status * validation_state :=
  match
    match value record with
    | value_entity e => validate_entity state e
    | value_physicality p => validate_physicality state p
    | value_trajectory_segment s => validate_trajectory_segment state s frame
    | value_attestation a => validate_attestation state a
    | value_consensus c => validate_consensus state c
    end
  with
  | (LAPLACE_PERSISTENCE_OK, state) => (LAPLACE_PERSISTENCE_OK, count_frame state)
  | failed => failed
  end.

(** The uninitialised record of the loop. *)
Definition empty_record : laplace_persistence_record :=
  mk_record 0 0 0 (value_physicality empty_physicality).

(** [while (offset < batch->byte_count)]; [None] without fuel. *)
Fixpoint validate_frames (fuel : nat) (canonical_bytes : list Z) (byte_count offset records : Z)
    (state : validation_state)
    : option (laplace_persistence_status * validation_state * Z) :=
  match fuel with
  | O => None
  | S fuel =>
      if offset <? byte_count then
        let frame := drop (Z.to_nat offset) canonical_bytes in
        match laplace_persistence_frame_decode (Some frame) (byte_count - offset)
                (Some empty_record) (Some 0) with
        | (LAPLACE_PERSISTENCE_OK, Some record, Some consumed) =>
            match validate_record state record frame with
            | (LAPLACE_PERSISTENCE_OK, state) =>
                validate_frames fuel canonical_bytes byte_count (offset + consumed)
                  (u64 (records + 1)) state
            | (status, state) => Some (status, state, records)
            end
        | (status, _, _) => Some (status, state, records)
        end
      else Some (LAPLACE_PERSISTENCE_OK, state, records)
  end.

(** [state.summary.byte_count += batch->byte_count]. *)
Definition count_bytes (state : validation_state) (byte_count : Z) : validation_state :=
  let total := summary state in
  set_summary state
    (mk_summary (entity_count total) (physicality_count total) (trajectory_segment_count total)
       (attestation_count total) (consensus_count total) (logical_occurrence_count total)
       (frame_count total) (u64 (summary_byte_count total + byte_count))).

Fixpoint validate_batches (batches : list laplace_framework_canonical_batch)
    (state : validation_state) : option (laplace_persistence_status * validation_state) :=
  match batches with
  | [] => Some (LAPLACE_PERSISTENCE_OK, state)
  | batch :: batches =>
      return_when is_null (canonical_bytes batch) || (byte_count batch =? 0) ||
                  (SIZE_MAX <? byte_count batch) || (record_count batch =? 0) ||
                  negb (batch_record_type batch =? LAPLACE_PERSISTENCE_STREAM_RECORD_TYPE) ||
                  negb (batch_flags batch =? 0)
        with Some (LAPLACE_PERSISTENCE_RECORD_INVALID, state) ;;
      match validate_frames (S (Z.to_nat (byte_count batch))) (default [] (canonical_bytes batch))
              (byte_count batch) 0 0 state with
      | Some (LAPLACE_PERSISTENCE_OK, state, records) =>
          return_when negb (records =? record_count batch) ||
                      (UINT64_MAX - summary_byte_count (summary state) <? byte_count batch)
            with Some (LAPLACE_PERSISTENCE_RECORD_INVALID, state) ;;
          validate_batches batches (count_bytes state (byte_count batch))
      | Some (status, state, _) => Some (status, state)
      | None => None
      end
  end.

Definition laplace_persistence_validate_stream
    (batches : ptr (list laplace_framework_canonical_batch)) (batch_count : Z)
    (total : ptr laplace_persistence_summary)
    : option (laplace_persistence_status * ptr laplace_persistence_summary) :=
  return_when is_null batches || (batch_count =? 0) || is_null total
    with Some (LAPLACE_PERSISTENCE_INVALID_ARGUMENT, total) ;;
  match validate_batches (cells batches batch_count) initial_state with
  | Some (LAPLACE_PERSISTENCE_OK, state) =>
      match close_physicality state with
      | (LAPLACE_PERSISTENCE_OK, state) =>
          return_when frame_count (summary state) =? 0
            with Some (LAPLACE_PERSISTENCE_RECORD_INVALID, total) ;;
          Some (LAPLACE_PERSISTENCE_OK, store total (summary state))
      | (status, _) => Some (status, total)
      end
  | Some (status, _) => Some (status, total)
  | None => None
  end.
End Validation.
