(* ===== verification/PersistenceLaw.v ===== *)
(** * The law of a deposit, and the validator's refinement of it

    [contracts/persistence.json] promises that the batches of a stream hold the
    records of a deposit: entities, then physicalities each followed by the
    vertices of its trajectory, then attestations, then consensus records
    ([deposit_law]).  [PersistenceStream] models the machine that checks it; here a
    deposit grows record by record ([push]), a representation relation ties the
    machine's state to the deposit read so far, and every step of the machine is
    shown to accept exactly what keeps [accepted_law].  That is the law of the
    contract but for the order of the last two families, which the code does not
    check: [stream_exact] tells the three outcomes apart, and
    [attestation_after_consensus_accepted] evaluates one that breaks the
    contract. *)
From stdpp Require Import prelude sorting.
From Stdlib Require Import ZArith Lia.
From S2P Require Import Prelude Bytes Sorting Hash Identity Trajectory Binary64 Geometry Framework.
From S2P Require Import PersistenceFrames PersistenceStream.

(** ** Deposits *)
(** A physicality and the vertices that follow it. *)
Record group := mk_group {
  head : laplace_persistence_physicality_record;
  vertices : list laplace_persistence_trajectory_segment_record }.

Record deposit := mk_deposit {
  entities : list laplace_persistence_entity_record;
  groups : list group;
  tail : list laplace_persistence_value }.

Definition group_values (g : group) : list laplace_persistence_value :=
  value_physicality (head g) :: map value_trajectory_segment (vertices g).

Definition deposit_values (d : deposit) : list laplace_persistence_value :=
  map value_entity (entities d) ++ concat (map group_values (groups d)) ++ tail d.

Definition attestation_of (v : laplace_persistence_value)
    : option laplace_persistence_attestation_record :=
  match v with value_attestation a => Some a | _ => None end.
Definition consensus_of (v : laplace_persistence_value)
    : option laplace_persistence_consensus_record :=
  match v with value_consensus c => Some c | _ => None end.

Definition attestations (d : deposit) : list laplace_persistence_attestation_record :=
  omap attestation_of (tail d).
Definition consensuses (d : deposit) : list laplace_persistence_consensus_record :=
  omap consensus_of (tail d).

Definition in_tail (v : laplace_persistence_value) : Prop :=
  match v with value_attestation _ | value_consensus _ => True | _ => False end.

(** ** The law *)
(** Identities in strictly increasing order. *)
Definition ascending (ids : list (list Z)) : Prop :=
  StronglySorted (fun a b => memcmp a b = Lt) ids.

(** The occurrences of consecutive vertices, the first at [start]. *)
Fixpoint decode_vertices (segments : list laplace_persistence_trajectory_segment_record)
    (start : Z) : option (list laplace_composition_occurrence) :=
  match segments with
  | [] => Some []
  | s :: segments =>
      match laplace_trajectory_composition_decode_one (Some (carrier s)) start
              (Some empty_occurrence) with
      | (LAPLACE_TRAJECTORY_OK, Some o) =>
          cons o <$> decode_vertices segments (start + occurrence_run_length o)
      | _ => None
      end
  end.

Definition group_occurrences (g : group) : list laplace_composition_occurrence :=
  default [] (decode_vertices (vertices g) 1).
Definition group_total (g : group) : Z := occurrences_total (group_occurrences g).

(** A physicality whose vertices may still be arriving: only a composition has
    vertices; they are numbered from zero, name the physicality, and decode one
    after the other to occurrences whose count fits a word. *)
Definition open_law (g : group) : Prop :=
  (vertices g <> [] -> physicality_type (head g) = LAPLACE_PERSISTENCE_PHYSICALITY_COMPOSITION) /\
  (forall i s, vertices g !! i = Some s ->
     vertex_index s = Z.of_nat i /\ segment_physicality_id s = physicality_id (head g)) /\
  is_Some (decode_vertices (vertices g) 1) /\
  group_total g <= UINT64_MAX.

Definition carriers_bytes (g : group) : list Z :=
  concat (map (fun s => carrier_store (carrier s)) (vertices g)).

Section Law.
Context {B : Blake3}.

(** A complete physicality: an atomic point has no vertices; otherwise the
    counts and the fingerprint of the record are those of its vertices. *)
Definition group_law (g : group) : Prop :=
  open_law g /\
  if physicality_type (head g) =? LAPLACE_PERSISTENCE_PHYSICALITY_ATOMIC_POINT then
    vertices g = []
  else
    Z.of_nat (length (vertices g)) = vertex_count (head g) /\
    group_total g = physicality_logical_count (head g) /\
    trajectory_fingerprint (head g) = blake3 (TRAJECTORY_DOMAIN ++ carriers_bytes g).

Definition families_ordered (d : deposit) : Prop :=
  ascending (map record_entity_id (entities d)) /\
  ascending (map (fun g => physicality_id (head g)) (groups d)) /\
  Forall in_tail (tail d) /\
  ascending (map attestation_id (attestations d)) /\
  ascending (map consensus_id (consensuses d)).

(** What the validator checks: the order inside each family and, of the order
    between families, all but that of the last two. *)
Definition accepted_law (d : deposit) : Prop :=
  families_ordered d /\ Forall group_law (groups d).

(** The order that [contracts/persistence.json] lays down for the last two
    families: attestations, then consensus records. *)
Definition attestations_first (d : deposit) : Prop :=
  tail d = map value_attestation (attestations d) ++ map value_consensus (consensuses d).

(** The law of the contract. *)
Definition deposit_law (d : deposit) : Prop := accepted_law d /\ attestations_first d.

(** An attestation comes after a consensus record. *)
Definition attestation_late (d : deposit) : Prop :=
  exists before c between a after,
    tail d = before ++ value_consensus c :: between ++ value_attestation a :: after.

(** The law of what has been read so far: before the tail begins, the last
    physicality may be incomplete. *)
Definition prefix_law (d : deposit) : Prop :=
  families_ordered d /\
  match tail d with
  | [] => forall closed g, groups d = closed ++ [g] -> Forall group_law closed /\ open_law g
  | _ => Forall group_law (groups d)
  end.

(** The counts of a deposit of [byte_count] bytes. *)
Definition deposit_summary (d : deposit) (byte_count : Z) : laplace_persistence_summary :=
  mk_summary (Z.of_nat (length (entities d))) (Z.of_nat (length (groups d)))
    (sum_of (fun g => Z.of_nat (length (vertices g))) (groups d))
    (Z.of_nat (length (attestations d))) (Z.of_nat (length (consensuses d)))
    (u64 (sum_of group_total (groups d)))
    (Z.of_nat (length (deposit_values d))) byte_count.

(** The last two families are in order or an attestation is late, never both. *)
Lemma late_not_first d : attestation_late d -> ~ attestations_first d.
Proof.
  unfold attestations_first. intros (before & c & between & a & after & ->).
  generalize (attestations d), (consensuses d). intros As Cs. revert As.
  induction before as [|v before IH]; intros [|x As]; cbn; try done.
  - destruct Cs as [|y Cs]; [done|]. cbn. intros [= _ E].
    assert (Hin : In (value_attestation a) (map value_consensus Cs))
      by (rewrite <- E; apply in_or_app; right; by left).
    apply in_map_iff in Hin as (? & ? & _). done.
  - destruct Cs as [|y Cs]; [done|]. cbn. intros [= _ E].
    assert (Hin : In (value_attestation a) (map value_consensus Cs)).
    { rewrite <- E. apply in_or_app. right. right. apply in_or_app. right. by left. }
    apply in_map_iff in Hin as (? & ? & _). done.
  - intros [= _ E]. by apply (IH As).
Qed.

Lemma tail_order d : accepted_law d -> attestations_first d \/ attestation_late d.
Proof.
  intros [(_ & _ & Ht & _) _]. unfold attestations_first, attestation_late, attestations, consensuses.
  destruct d as [es gs tl]. cbn [tail] in *.
  induction Ht as [|v tl Hv Ht [IH|(b & c & m & a & e & ->)]].
  - by left.
  - destruct v as [| | |a|c]; try done; cbn; [left; by rewrite <- IH|].
    destruct (omap attestation_of tl) as [|a As] eqn:Ea; cbn in IH |- *; [left; by rewrite <- IH|].
    right. rewrite IH. by exists [], c, [], a, (map value_attestation As ++ map value_consensus (omap consensus_of tl)).
  - right. by exists (v :: b), c, m, a, e.
Qed.

(** ** Growing a deposit *)
Definition push (d : deposit) (v : laplace_persistence_value) : option deposit :=
  match v with
  | value_entity e =>
      match groups d, tail d with
      | [], [] => Some (mk_deposit (entities d ++ [e]) [] [])
      | _, _ => None
      end
  | value_physicality p =>
      match tail d with
      | [] => Some (mk_deposit (entities d) (groups d ++ [mk_group p []]) [])
      | _ => None
      end
  | value_trajectory_segment s =>
      match last (groups d), tail d with
      | Some g, [] =>
          Some (mk_deposit (entities d)
                  (removelast (groups d) ++ [mk_group (head g) (vertices g ++ [s])]) [])
      | _, _ => None
      end
  | v => Some (mk_deposit (entities d) (groups d) (tail d ++ [v]))
  end.

Fixpoint push_all (d : deposit) (vs : list laplace_persistence_value) : option deposit :=
  match vs with
  | [] => Some d
  | v :: vs => match push d v with Some d => push_all d vs | None => None end
  end.

Definition empty_deposit : deposit := mk_deposit [] [] [].

Lemma last_removelast {A} (l : list A) x : last l = Some x -> l = removelast l ++ [x].
Proof.
  destruct l as [|y l _] using rev_ind; [done|]. rewrite last_snoc. intros [= ->].
  by rewrite removelast_last.
Qed.

Lemma push_values d v d' :
  push d v = Some d' -> deposit_values d' = deposit_values d ++ [v].
Proof.
  destruct d as [es gs tl]. unfold deposit_values. destruct v as [e|p|s|a|c]; cbn.
  - destruct gs, tl; try done. intros [= <-]. cbn. by rewrite map_app, !app_nil_r.
  - destruct tl; [|done]. intros [= <-]. cbn. by rewrite map_app, concat_app, !app_nil_r, <- !app_assoc.
  - destruct (last gs) as [g|] eqn:El, tl; try done. intros [= <-]. cbn.
    apply last_removelast in El. rewrite El at 2. rewrite !map_app, !concat_app, !app_nil_r.
    cbn. unfold group_values. cbn. by rewrite map_app, !app_nil_r, <- !app_assoc.
  - intros [= <-]. cbn. by rewrite !app_assoc.
  - intros [= <-]. cbn. by rewrite !app_assoc.
Qed.

Lemma push_all_values vs : forall d d',
  push_all d vs = Some d' -> deposit_values d' = deposit_values d ++ vs.
Proof.
  induction vs as [|v vs IH]; intros d d' H; cbn in H.
  { injection H as <-. by rewrite app_nil_r. }
  destruct (push d v) as [d1|] eqn:E; [|done]. apply push_values in E.
  apply IH in H. by rewrite H, E, <- app_assoc.
Qed.

Lemma push_all_app d vs ws :
  push_all d (vs ++ ws) =
  match push_all d vs with Some d' => push_all d' ws | None => None end.
Proof.
  revert d. induction vs as [|v vs IH]; intros d; [done|]. cbn. by destruct (push d v).
Qed.

(** Every deposit grows record by record. *)
Lemma push_all_complete d :
  Forall in_tail (tail d) -> push_all empty_deposit (deposit_values d) = Some d.
Proof.
  destruct d as [es gs tl]. unfold deposit_values. cbn [entities groups tail]. intros Htl.
  assert (Hes : forall es, push_all empty_deposit (map value_entity es) = Some (mk_deposit es [] [])).
  { clear. induction es as [|e es IH] using rev_ind; [done|].
    rewrite map_app, push_all_app, IH. done. }
  assert (Hss : forall ss es gs p, push_all (mk_deposit es (gs ++ [mk_group p []]) [])
      (map value_trajectory_segment ss) = Some (mk_deposit es (gs ++ [mk_group p ss]) [])).
  { clear. induction ss as [|s ss IH] using rev_ind; intros; [done|].
    rewrite map_app, push_all_app, IH. cbn. by rewrite last_snoc, removelast_last. }
  assert (Hgs : forall gs es, push_all (mk_deposit es [] []) (concat (map group_values gs)) =
      Some (mk_deposit es gs [])).
  { clear -Hss. induction gs as [|[p ss] gs IH] using rev_ind; intros; [done|].
    rewrite map_app, concat_app, push_all_app, IH. cbn [map concat]. rewrite app_nil_r.
    cbn [group_values push_all push head vertices tail entities groups]. apply Hss. }
  rewrite push_all_app, Hes, push_all_app, Hgs. clear -Htl.
  induction tl as [|v tl IH] using rev_ind; [done|].
  apply Forall_app in Htl as [Htl Hv]. rewrite push_all_app, IH by done.
  apply Forall_cons in Hv as [Hv _]. by destruct v.
Qed.

(** ** The law of a growing deposit *)
Lemma ascending_snoc ids id :
  ascending (ids ++ [id]) <->
  ascending ids /\ match last ids with None => True | Some previous => memcmp previous id = Lt end.
Proof.
  unfold ascending. split.
  - intros H. assert (Hs : StronglySorted (fun a b : list Z => memcmp a b = Lt) ids)
      by by apply StronglySorted_snoc in H as [? _].
    split; [done|]. by apply (StronglySorted_extend _ (Transitive0 := memcmp_lt_transitive (fun x => x))) in H.
  - intros [Hs Hl].
    by apply (StronglySorted_extend _ (Transitive0 := memcmp_lt_transitive (fun x => x))).
Qed.

Lemma decode_vertices_snoc ss s : forall start,
  decode_vertices (ss ++ [s]) start =
  match decode_vertices ss start with
  | None => None
  | Some os =>
      match laplace_trajectory_composition_decode_one (Some (carrier s))
              (start + occurrences_total os) (Some empty_occurrence) with
      | (LAPLACE_TRAJECTORY_OK, Some o) => Some (os ++ [o])
      | _ => None
      end
  end.
Proof.
  induction ss as [|s' ss IH]; intros start; cbn [app decode_vertices].
  { cbn. rewrite Z.add_0_r. by destruct (laplace_trajectory_composition_decode_one _ _ _) as [[] [o|]]. }
  destruct (laplace_trajectory_composition_decode_one (Some (carrier s')) _ _) as [[] [o|]]; try done.
  rewrite IH. destruct (decode_vertices ss _) as [os|]; [|done]. cbn.
  rewrite Z.add_assoc. by destruct (laplace_trajectory_composition_decode_one _ _ _) as [[] [o'|]].
Qed.

Lemma occurrences_total_app os os' :
  occurrences_total (os ++ os') = occurrences_total os + occurrences_total os'.
Proof. induction os as [|o os IH]; [done|]. cbn. unfold occurrences_total in *. rewrite IH. lia. Qed.

(** A decoded run is positive and 16 bits wide. *)
Lemma decode_one_run c start o :
  laplace_trajectory_composition_decode_one (Some c) start (Some empty_occurrence) =
    (LAPLACE_TRAJECTORY_OK, Some o) -> 1 <= occurrence_run_length o <= UINT16_MAX.
Proof. by intros (p & _ & _ & _ & ? & _)%decode_one_inv. Qed.

Lemma decode_vertices_runs ss : forall start os,
  decode_vertices ss start = Some os ->
  length os = length ss /\ Forall (fun o => 1 <= occurrence_run_length o <= UINT16_MAX) os.
Proof.
  induction ss as [|s ss IH]; intros start os; cbn [decode_vertices]; [by intros [= <-]|].
  destruct (laplace_trajectory_composition_decode_one _ _ _) as [[] [o|]] eqn:Eo; try done.
  destruct (decode_vertices ss _) as [os'|] eqn:E; [|done]. intros [= <-].
  apply IH in E as [El E]. split; [cbn; lia|]. constructor; [by apply decode_one_run in Eo|done].
Qed.

Lemma group_total_nonneg g : 0 <= group_total g.
Proof.
  unfold group_total, group_occurrences.
  destruct (decode_vertices (vertices g) 1) as [os|] eqn:E; [|done].
  apply decode_vertices_runs in E as [_ E]. cbn.
  induction E as [|o os Ho _ IH]; [done|]. cbn. unfold occurrences_total in IH. lia.
Qed.

Lemma group_total_decoded g os :
  decode_vertices (vertices g) 1 = Some os -> group_total g = occurrences_total os.
Proof. unfold group_total, group_occurrences. by intros ->. Qed.

Lemma group_total_snoc p ss s o :
  is_Some (decode_vertices ss 1) ->
  laplace_trajectory_composition_decode_one (Some (carrier s))
    (1 + group_total (mk_group p ss)) (Some empty_occurrence) = (LAPLACE_TRAJECTORY_OK, Some o) ->
  decode_vertices (ss ++ [s]) 1 = Some (group_occurrences (mk_group p ss) ++ [o]) /\
  group_total (mk_group p (ss ++ [s])) = group_total (mk_group p ss) + occurrence_run_length o.
Proof.
  intros [os Eos] Eo. pose proof (group_total_decoded (mk_group p ss) os Eos) as Ht.
  assert (E : decode_vertices (ss ++ [s]) 1 = Some (os ++ [o])).
  { rewrite Ht in Eo. by rewrite decode_vertices_snoc, Eos, Eo. }
  rewrite (group_total_decoded (mk_group p (ss ++ [s])) _ E), Ht, E, occurrences_total_app.
  unfold group_occurrences. cbn [vertices]. rewrite Eos. split; [done|]. cbn. lia.
Qed.

Lemma open_law_snoc p ss s :
  open_law (mk_group p (ss ++ [s])) <->
  open_law (mk_group p ss) /\ physicality_type p = LAPLACE_PERSISTENCE_PHYSICALITY_COMPOSITION /\
  vertex_index s = Z.of_nat (length ss) /\ segment_physicality_id s = physicality_id p /\
  exists o, laplace_trajectory_composition_decode_one (Some (carrier s))
      (1 + group_total (mk_group p ss)) (Some empty_occurrence) = (LAPLACE_TRAJECTORY_OK, Some o) /\
    group_total (mk_group p ss) + occurrence_run_length o <= UINT64_MAX.
Proof.
  unfold open_law. cbn [head vertices]. split.
  - intros (Htype & Hidx & Hos & Hmax). rewrite decode_vertices_snoc in Hos.
    destruct (decode_vertices ss 1) as [os|] eqn:Eos; [|by destruct Hos].
    pose proof (group_total_decoded (mk_group p ss) os Eos) as Ht.
    destruct (laplace_trajectory_composition_decode_one _ _ _) as [[] [o|]] eqn:Eo;
      try by destruct Hos.
    rewrite <- Ht in Eo. pose proof (decode_one_run _ _ _ Eo).
    destruct (group_total_snoc p ss s o (ex_intro _ os Eos) Eo) as [_ Ht']. rewrite Ht' in Hmax.
    assert (Hne : ss ++ [s] <> []) by by destruct ss.
    destruct (Hidx (length ss) s) as [Hi Hid]; [by apply list_lookup_middle|].
    specialize (Htype Hne). split_and!; try (done || lia); [|by exists o].
    intros i s' Hi'. by apply Hidx, lookup_app_l_Some.
  - intros ((Htype & Hidx & Hos & Hmax) & Hp & Hi & Hid & o & Eo & Hm).
    destruct (group_total_snoc p ss s o Hos Eo) as [E Ht]. rewrite Ht, E.
    split_and!; [done| | by eexists | lia].
    intros i s' [Hs|[Hge Hs]]%lookup_app_Some; [by apply Hidx|].
    destruct (i - length ss)%nat as [|k] eqn:Ek; [|done]. cbn in Hs. injection Hs as <-.
    split; [rewrite Hi; lia | done].
Qed.

Lemma push_law d v d' : push d v = Some d' -> prefix_law d' -> prefix_law d.
Proof.
  destruct d as [es gs tl]. unfold prefix_law, families_ordered.
  destruct v as [e|p|s|a|c]; cbn [push entities groups tail].
  - destruct gs, tl; try done. intros [= <-]. cbn [entities groups tail attestations consensuses].
    intros [(He & Hr) _]. rewrite map_app in He. apply ascending_snoc in He as [He _].
    split; [by split|]. by intros [].
  - destruct tl; [|done]. intros [= <-]. cbn [entities groups tail].
    intros [(He & Hg & Ht) Hc]. rewrite map_app in Hg. apply ascending_snoc in Hg as [Hg _].
    destruct (Hc gs _ eq_refl) as [Hgs _]. split; [done|]. intros closed g ->.
    apply Forall_app in Hgs as [? Hlast]. apply Forall_cons in Hlast as [[? _] _]. done.
  - destruct (last gs) as [g|] eqn:El, tl; try done. intros [= <-]. cbn [entities groups tail].
    apply last_removelast in El. revert El. generalize (removelast gs) as cl. intros cl ->.
    intros [(He & Hg & Ht) Hc]. rewrite !map_app in *. split; [done|]. intros closed g' [-> [= ->]]%app_inj_tail.
    destruct (Hc _ _ eq_refl) as [Hcl Ho]. split; [done|]. destruct g' as [p ss].
    by apply open_law_snoc in Ho as [Ho _].
  - intros [= <-]. unfold attestations, consensuses. cbn [entities groups tail].
    rewrite !omap_app, !map_app. cbn. rewrite !app_nil_r.
    intros [(He & Hg & [Ht _]%Forall_app & [Ha _]%ascending_snoc & Hc) Hl].
    split; [done|]. destruct tl; [|done]. cbn in Hl. intros closed g ->.
    apply Forall_app in Hl as [? Hlast]. by apply Forall_cons in Hlast as [[? _] _].
  - intros [= <-]. unfold attestations, consensuses. cbn [entities groups tail].
    rewrite !omap_app, !map_app. cbn. rewrite !app_nil_r.
    intros [(He & Hg & [Ht _]%Forall_app & Ha & [Hc _]%ascending_snoc) Hl].
    split; [done|]. destruct tl; [|done]. cbn in Hl. intros closed g ->.
    apply Forall_app in Hl as [? Hlast]. by apply Forall_cons in Hlast as [[? _] _].
Qed.

Lemma push_all_law vs : forall d d',
  push_all d vs = Some d' -> prefix_law d' -> prefix_law d.
Proof.
  induction vs as [|v vs IH]; intros d d' H Hl; cbn in H; [by injection H as ->|].
  destruct (push d v) as [d1|] eqn:E; [|done]. eapply push_law; [done|]. by eapply IH.
Qed.

(** ** The machine's state represents what has been read *)
(** [have] and [previous] hold the last identity of a family. *)
Definition remembered (have : bool) (previous : list Z) (ids : list (list Z)) : Prop :=
  match last ids with None => have = false | Some id => have = true /\ previous = id end.

Lemma not_after_spec have previous ids id :
  remembered have previous ids -> ascending ids ->
  not_after have previous id = false <-> ascending (ids ++ [id]).
Proof.
  unfold remembered, not_after. intros Hr Ha. rewrite ascending_snoc.
  destruct (last ids) as [x|]; [destruct Hr as [-> ->]|subst have; naive_solver].
  destruct (memcmp x id); naive_solver.
Qed.

Lemma remembered_snoc ids id : remembered true id (ids ++ [id]).
Proof. unfold remembered. by rewrite last_snoc. Qed.

Definition phase_of (d : deposit) (phase : Z) : Prop :=
  match groups d, tail d with
  | _, _ :: _ => 4 <= phase
  | _ :: _, [] => phase = LAPLACE_PERSISTENCE_RECORD_PHYSICALITY
  | [], [] => 0 <= phase <= LAPLACE_PERSISTENCE_RECORD_ENTITY
  end.

Record counted (d : deposit) (b : Z) (st : validation_state) : Prop := {
  counted_summary : summary st = deposit_summary d b;
  counted_phase : phase_of d (phase st);
  counted_entity : remembered (have_entity st) (previous_entity st)
                     (map record_entity_id (entities d));
  counted_physicality : remembered (have_physicality st) (previous_physicality st)
                          (map (fun g => physicality_id (head g)) (groups d));
  counted_attestation : remembered (have_attestation st) (previous_attestation st)
                          (map attestation_id (attestations d));
  counted_consensus : remembered (have_consensus st) (previous_consensus st)
                        (map consensus_id (consensuses d)) }.

(** The physicality whose vertices are arriving. *)
Definition opened (d : deposit) (st : validation_state) : Prop :=
  if current_open st then
    tail d = [] /\ exists closed g, groups d = closed ++ [g] /\
      current_physicality st = head g /\
      current_vertices st = Z.of_nat (length (vertices g)) /\
      current_logical_count st = group_total g /\
      absorbs (trajectory_hasher st) (TRAJECTORY_DOMAIN ++ carriers_bytes g)
  else groups d = [] \/ tail d <> [].

Definition represents (d : deposit) (b : Z) (st : validation_state) : Prop :=
  prefix_law d /\ counted d b st /\ opened d st.

Lemma initial_represents : represents empty_deposit 0 initial_state.
Proof.
  split; [split; [split_and!; constructor | by intros []]|].
  split; [by constructor | by left].
Qed.

Lemma counted_set_open d b st open : counted d b st -> counted d b (set_open st open).
Proof. intros []. by constructor. Qed.

Lemma prefix_law_closed d :
  prefix_law d -> groups d = [] \/ tail d <> [] -> Forall group_law (groups d).
Proof.
  intros [_ H] [E|Ht]; [by rewrite E|]. by destruct (tail d).
Qed.

Lemma counts_close vertices logical digest p :
  negb (vertices =? vertex_count p) || negb (logical =? physicality_logical_count p) ||
  negb (bytes_equal digest (trajectory_fingerprint p)) = false <->
  vertices = vertex_count p /\ logical = physicality_logical_count p /\
  trajectory_fingerprint p = digest.
Proof.
  rewrite !orb_false_iff, !negb_false_iff, !Z.eqb_eq, bytes_equal_spec. naive_solver.
Qed.

Context {L : Blake3Laws B}.

(** Closing succeeds exactly when every physicality read so far is complete. *)
Lemma close_spec d b st :
  represents d b st ->
  (Forall group_law (groups d) /\
   close_physicality st = (LAPLACE_PERSISTENCE_OK, set_open st false)) \/
  (~ Forall group_law (groups d) /\
   close_physicality st = (LAPLACE_PERSISTENCE_TRAJECTORY_INVALID, st)).
Proof.
  intros (Hp & _ & Ho). unfold opened in Ho. unfold close_physicality.
  destruct (current_open st) eqn:Eopen; cbn [negb].
  2:{ left. split; [by apply prefix_law_closed|]. by destruct st; cbn in *; subst. }
  destruct Ho as (Htl & closed & g & Eg & -> & -> & -> & Hh).
  destruct Hp as [_ Hlaw]. rewrite Htl in Hlaw. destruct (Hlaw closed g Eg) as [Hclosed Hopen].
  assert (Hiff : Forall group_law (groups d) <-> group_law g).
  { rewrite Eg, Forall_app, Forall_cons. naive_solver. }
  rewrite Hiff. unfold group_law.
  destruct (physicality_type (head g) =? 2) eqn:Etype.
  - destruct (vertices g) as [|s ss] eqn:Ev; cbn [length].
    + left. split; [done|]. unfold group_total, group_occurrences. by rewrite Ev.
    + right. split; [by intros [_ ?]|]. by rewrite (proj2 (Z.eqb_neq _ _)) by lia.
  - rewrite (absorbs_finalize _ _ Hh).
    destruct (_ || _ || _) eqn:E.
    + right. split; [|done]. intros [_ H]. apply counts_close in H. congruence.
    + left. split; [|done]. by apply counts_close in E.
Qed.

(** What a step owes: it accepts a record exactly when the deposit with the
    record is lawful, and then represents it. *)
Definition step_exact (d : deposit) (b : Z) (v : laplace_persistence_value)
    (result : laplace_persistence_status * validation_state) : Prop :=
  match push d v with
  | Some d' =>
      (prefix_law d' /\ exists st, result = (LAPLACE_PERSISTENCE_OK, st) /\
         represents d' b (count_frame st)) \/
      (~ prefix_law d' /\ result.1 <> LAPLACE_PERSISTENCE_OK)
  | None => result.1 <> LAPLACE_PERSISTENCE_OK
  end.

Lemma u64_succ n : 0 <= n < UINT64_MAX -> u64 (n + 1) = n + 1.
Proof. intros ?. apply u64_small. lia. Qed.

Lemma entity_step d b st e :
  represents d b st -> Z.of_nat (length (deposit_values d)) < UINT64_MAX ->
  step_exact d b (value_entity e) (validate_entity st e).
Proof.
  intros (Hlaw & [Hs Hph He Hp Ha Hc] & Ho) Hlen. unfold step_exact, validate_entity.
  destruct (push d (value_entity e)) as [d'|] eqn:Epush.
  - pose proof (push_values _ _ _ Epush) as Hv.
    destruct d as [es [|g gs] [|t tl]]; try done. injection Epush as <-.
    unfold phase_of in Hph. cbn [groups tail entities] in *.
    rewrite (proj2 (Z.ltb_ge 1 (phase st))) by lia.
    destruct Hlaw as [(Hes & Hrest) _].
    pose proof (not_after_spec _ _ _ (record_entity_id e) He Hes) as Hna.
    destruct (not_after _ _ _) eqn:En.
    + right. split; [|done]. intros [(H & _) _]. cbn in H. rewrite map_app in H.
      by apply Hna in H.
    + left. apply proj1 in Hna. specialize (Hna eq_refl).
      assert (Hl : prefix_law (mk_deposit (es ++ [e]) [] [])).
      { split; [split; [cbn; by rewrite map_app|done]|]. by intros []. }
      split; [done|]. eexists. split; [done|]. split; [done|]. split.
      * constructor; cbn; try done; [|by rewrite map_app; apply remembered_snoc].
        rewrite Hs. unfold deposit_summary. rewrite Hv.
        cbn [entity_count physicality_count trajectory_segment_count attestation_count
          consensus_count logical_occurrence_count frame_count summary_byte_count entities groups
          tail attestations consensuses].
        rewrite !length_app. cbn [length].
        assert (Hel : (length es <= length (deposit_values (mk_deposit es [] [])))%nat)
          by (unfold deposit_values; cbn; rewrite length_app, length_map; lia).
        rewrite !u64_succ by lia. f_equal; lia.
      * unfold opened in *. cbn. destruct (current_open st); [|by left].
        by destruct Ho as (_ & [] & g & ? & _).
  - destruct d as [es gs tl]. unfold phase_of in Hph. cbn in Epush, Hph.
    rewrite (proj2 (Z.ltb_lt 1 (phase st))); [done|]. destruct gs, tl; try done; lia.
Qed.

Lemma deposit_sizes d :
  Z.of_nat (length (deposit_values d)) =
    Z.of_nat (length (entities d)) + Z.of_nat (length (groups d)) +
    sum_of (fun g => Z.of_nat (length (vertices g))) (groups d) + Z.of_nat (length (tail d)) /\
  0 <= sum_of (fun g => Z.of_nat (length (vertices g))) (groups d) /\
  Z.of_nat (length (attestations d)) <= Z.of_nat (length (tail d)) /\
  Z.of_nat (length (consensuses d)) <= Z.of_nat (length (tail d)).
Proof.
  destruct d as [es gs tl]. unfold deposit_values, attestations, consensuses. cbn.
  rewrite !length_app, length_map. split_and!.
  - induction gs as [|g gs IH]; cbn; [lia|].
    rewrite length_app, length_map. unfold sum_of in IH. lia.
  - apply sum_of_nonneg, Forall_true. lia.
  - induction tl as [|v tl IH]; [done|]. destruct v; cbn; lia.
  - induction tl as [|v tl IH]; [done|]. destruct v; cbn; lia.
Qed.

Lemma open_law_nil p : open_law (mk_group p []).
Proof. split_and!; [done | by intros [] ? | by eexists | done]. Qed.

(** The projections of the counts. *)
Ltac counts :=
  cbn [entity_count physicality_count trajectory_segment_count attestation_count
       consensus_count logical_occurrence_count frame_count summary_byte_count entities groups
       tail summary count_frame set_summary set_open].

Lemma physicality_step d b st p :
  represents d b st -> Z.of_nat (length (deposit_values d)) < UINT64_MAX ->
  step_exact d b (value_physicality p) (validate_physicality st p).
Proof.
  intros Hrep Hlen. pose proof (close_spec d b st Hrep) as Hclose.
  destruct Hrep as (Hlaw & [Hs Hph He Hp Ha Hc] & Ho). unfold step_exact, validate_physicality.
  destruct (push d (value_physicality p)) as [d'|] eqn:Epush.
  2:{ destruct d as [es gs [|t tl]]; [done|]. unfold phase_of in Hph. cbn [groups tail] in Hph.
      rewrite (proj2 (Z.leb_le 4 (phase st))); [done | by destruct gs]. }
  pose proof (push_values _ _ _ Epush) as Hv. pose proof (deposit_sizes d) as Hsz.
  destruct d as [es gs [|t tl]]; [|done]. injection Epush as <-.
  cbn [groups tail entities] in *.
  rewrite (proj2 (Z.leb_gt 4 (phase st)))
    by (unfold phase_of in Hph; cbn [groups tail] in Hph; destruct gs; lia).
  destruct Hlaw as [(Hes & Hgs & Hrest) _].
  assert (Hiff : prefix_law (mk_deposit es (gs ++ [mk_group p []]) []) <->
    Forall group_law gs /\ ascending (map (fun g => physicality_id (head g)) gs ++ [physicality_id p])).
  { unfold prefix_law, families_ordered. cbn [groups tail entities]. rewrite map_app. cbn [map head].
    split; [intros [(_ & Hid & _) Hg]; by destruct (Hg gs _ eq_refl)|].
    intros [Hg Hi]. split; [done|]. intros closed g [-> <-]%app_inj_tail.
    split; [done | apply open_law_nil]. }
  destruct Hclose as [[Hg ->]|[Hg ->]]; [|right; split; [by intros [? _]%Hiff|done]].
  pose proof (not_after_spec _ _ _ (physicality_id p) Hp Hgs) as Hna.
  cbn [set_open have_physicality previous_physicality].
  destruct (not_after _ _ _) eqn:En.
  { right. split; [|done]. by intros [_ ?%Hna]%Hiff. }
  left. apply proj1 in Hna. specialize (Hna eq_refl). rewrite Hiff. split; [done|].
  eexists. split; [done|]. split; [by apply Hiff|]. split.
  - constructor; cbn; try done; [ | by destruct gs | by rewrite map_app; apply remembered_snoc].
    rewrite Hs. unfold deposit_summary. rewrite Hv. counts.
    rewrite !length_app, !sum_of_snoc. cbn [length vertices].
    change (group_total (mk_group p [])) with 0. rewrite !Z.add_0_r, !u64_succ by lia. f_equal; lia.
  - unfold opened. cbn [current_open trajectory_hasher count_frame set_summary]. split; [done|]. exists gs, (mk_group p []). split_and!; try done.
    change (carriers_bytes (mk_group p [])) with (@nil Z). rewrite app_nil_r. absorb.
Qed.

(** The carrier inside the frame of a segment. *)
Lemma segment_carrier s rest :
  segment_wf s ->
  slice (FRAME_HEADER_BYTES + 40) 32 (frame_of (value_trajectory_segment s) ++ rest) =
  carrier_store (carrier s).
Proof.
  intros (Hid & _ & Hc & _). destruct (field_bytes (field_doubles 4) _ Hc) as [Hl _].
  pose (pieces := [store_le 4 (value_bytes (value_trajectory_segment s));
    store_le 2 (value_kind (value_trajectory_segment s)); store_le 2 1;
    segment_physicality_id s; store_le 8 (vertex_index s); carrier_store (carrier s)]).
  replace (frame_of _ ++ rest) with (concat pieces ++ rest)
    by (unfold frame_of, value_payload, segment_payload; cbn [concat pieces];
        by rewrite app_nil_r, <- !app_assoc).
  destruct Hid as [Hid _]. change (8 + 40) with 48.
  apply (slice_pieces pieces 5); [done| |unfold carrier_store; by rewrite Hl].
  cbn. by rewrite !length_store_le, Hid.
Qed.

(** Appending a vertex to the last physicality. *)
Lemma segment_law es closed p ss s :
  prefix_law (mk_deposit es (closed ++ [mk_group p ss]) []) ->
  prefix_law (mk_deposit es (closed ++ [mk_group p (ss ++ [s])]) []) <->
  open_law (mk_group p (ss ++ [s])).
Proof.
  unfold prefix_law, families_ordered. cbn [groups tail entities]. rewrite !map_app.
  cbn [map head]. intros [Hfam Hlast]. destruct (Hlast closed _ eq_refl) as [Hclosed _].
  split; [intros [_ H]; by destruct (H closed _ eq_refl)|].
  intros Hop. split; [done|]. by intros cl g [-> <-]%app_inj_tail.
Qed.

Lemma push_segment es closed p ss s :
  push (mk_deposit es (closed ++ [mk_group p ss]) []) (value_trajectory_segment s) =
  Some (mk_deposit es (closed ++ [mk_group p (ss ++ [s])]) []).
Proof. cbn [push groups tail entities]. by rewrite last_snoc, removelast_last. Qed.

(** The counts of a deposit after one more vertex. *)
Lemma segment_summary es closed p ss s b n :
  Z.of_nat (length (deposit_values (mk_deposit es (closed ++ [mk_group p ss]) []))) < UINT64_MAX ->
  group_total (mk_group p (ss ++ [s])) = group_total (mk_group p ss) + n ->
  let total := deposit_summary (mk_deposit es (closed ++ [mk_group p ss]) []) b in
  mk_summary (entity_count total) (physicality_count total)
    (u64 (trajectory_segment_count total + 1)) (attestation_count total) (consensus_count total)
    (u64 (logical_occurrence_count total + n)) (u64 (frame_count total + 1))
    (summary_byte_count total) =
  deposit_summary (mk_deposit es (closed ++ [mk_group p (ss ++ [s])]) []) b.
Proof.
  intros Hlen Ht. pose proof (deposit_sizes (mk_deposit es (closed ++ [mk_group p ss]) [])) as Hsz.
  pose proof (push_values _ _ _ (push_segment es closed p ss s)) as Hv.
  cbn zeta. unfold deposit_summary. rewrite Hv. counts. cbn [groups entities tail] in Hsz.
  rewrite !sum_of_snoc in *. rewrite Ht, !length_app in *. cbn [vertices length] in *.
  rewrite length_app, !u64_succ by lia. f_equal; try (cbn [length]; lia).
  unfold u64. rewrite Zplus_mod_idemp_l. f_equal. lia.
Qed.

(** The decoding of one more vertex after [t] occurrences: the machine's
    ordinal is the law's, or both refuse. *)
Lemma next_vertex c t :
  0 <= t <= UINT64_MAX ->
  (exists o, laplace_trajectory_composition_decode_one (Some c) (1 + t) (Some empty_occurrence) =
       (LAPLACE_TRAJECTORY_OK, Some o) /\ t + occurrence_run_length o <= UINT64_MAX /\
     laplace_trajectory_composition_decode_one (Some c) (u64 (t + 1)) (Some empty_occurrence) =
       (LAPLACE_TRAJECTORY_OK, Some o)) \/
  ((forall o, laplace_trajectory_composition_decode_one (Some c) (1 + t) (Some empty_occurrence) =
       (LAPLACE_TRAJECTORY_OK, Some o) -> UINT64_MAX < t + occurrence_run_length o) /\
   (forall o, laplace_trajectory_composition_decode_one (Some c) (u64 (t + 1))
       (Some empty_occurrence) = (LAPLACE_TRAJECTORY_OK, Some o) ->
     UINT64_MAX < t + occurrence_run_length o)).
Proof.
  intros Ht. destruct (decide (t = UINT64_MAX)) as [->|Hne].
  - right. split; intros o Ho; pose proof (decode_one_run _ _ _ Ho); lia.
  - rewrite u64_succ, (Z.add_comm t 1) by lia.
    destruct (laplace_trajectory_composition_decode_one _ _ _) as [[] [o|]]; try (right; done).
    destruct (Z.le_gt_cases (t + occurrence_run_length o) UINT64_MAX).
    + left. by exists o.
    + right. split; intros o' [= <-]; lia.
Qed.

Lemma last_group_size es closed p ss :
  (length ss <= length (deposit_values (mk_deposit es (closed ++ [mk_group p ss]) [])))%nat.
Proof.
  unfold deposit_values. cbn [groups tail entities]. rewrite map_app, concat_app, !length_app.
  cbn. rewrite !length_app, !length_map. lia.
Qed.

Lemma segment_step d b st s rest :
  segment_wf s ->
  represents d b st -> Z.of_nat (length (deposit_values d)) < UINT64_MAX ->
  step_exact d b (value_trajectory_segment s)
    (validate_trajectory_segment st s (frame_of (value_trajectory_segment s) ++ rest)).
Proof.
  intros Hwf (Hlaw & [Hs Hph He Hp Ha Hc] & Ho) Hlen.
  unfold step_exact, validate_trajectory_segment. unfold opened in Ho.
  destruct (current_open st) eqn:Eopen; cbn [negb orb].
  2:{ destruct (push d _) as [d'|] eqn:Epush; [|done]. cbn in Epush.
      destruct Ho as [Eg|Ht]; [by rewrite Eg in Epush|]. by destruct (last _), (tail d). }
  destruct Ho as (Htl & closed & [p ss] & Eg & Ecur & Ev & El & Hh).
  destruct d as [es gs tl]. cbn [groups tail entities head vertices] in *. subst gs tl.
  rewrite push_segment, segment_law, open_law_snoc, Ecur, Ev, El by done.
  destruct Hlaw as [Hfam Hlast]. destruct (Hlast closed _ eq_refl) as [Hclosed Hopen].
  pose proof (group_total_nonneg (mk_group p ss)) as Ht0.
  set (t := group_total (mk_group p ss)) in *.
  destruct (_ || _ || _) eqn:Eguard; [right; split; [|done]|].
  { intros (_ & Htype & Hi & Hid & _). rewrite Htype, Hi, Hid, !Z.eqb_refl in Eguard.
    by rewrite (proj2 (bytes_equal_spec _ _)) in Eguard. }
  bools. apply bytes_equal_spec in H1.
  destruct (next_vertex (carrier s) t ltac:(split; [done|apply Hopen]))
    as [(o & Eo & Hmax & ->)|[Hno Hno']].
  - rewrite (proj2 (Z.ltb_ge _ _)) by lia. left.
    pose proof (decode_one_run _ _ _ Eo) as Hrun.
    destruct (group_total_snoc p ss s o (proj1 (proj2 (proj2 Hopen))) Eo) as [_ Ht].
    assert (Hl : open_law (mk_group p (ss ++ [s]))) by (apply open_law_snoc; naive_solver).
    split; [by apply open_law_snoc in Hl|]. eexists. split; [done|].
    split; [by apply (segment_law es closed)|]. split.
    + constructor; cbn in *; try done; [|by destruct closed|by rewrite map_app in *].
      rewrite Hs. by apply segment_summary.
    + unfold opened. cbn [current_open trajectory_hasher current_physicality current_vertices
        current_logical_count count_frame set_summary].
      split; [done|]. exists closed, (mk_group p (ss ++ [s])).
      cbn [head vertices current_physicality current_vertices current_logical_count].
      rewrite length_app. cbn [length].
      pose proof (last_group_size es closed p ss).
      split_and!; try done; [rewrite u64_succ; lia | rewrite Ht; apply u64_small; lia |].
      unfold carriers_bytes in *. cbn [vertices] in *.
      rewrite map_app, concat_app, app_assoc, segment_carrier by done. cbn [map concat].
      rewrite app_nil_r. by apply absorbs_update.
  - assert (Hbad : ~ (exists o, laplace_trajectory_composition_decode_one (Some (carrier s)) (1 + t)
        (Some empty_occurrence) = (LAPLACE_TRAJECTORY_OK, Some o) /\
        t + occurrence_run_length o <= UINT64_MAX)).
    { intros (o & Eo & Hm). apply Hno in Eo. lia. }
    right. split; [by intros (_ & _ & _ & _ & ?)|].
    destruct (laplace_trajectory_composition_decode_one _ (u64 _) _) as [[] [o|]]; try done.
    rewrite (proj2 (Z.ltb_lt _ _)); [done|]. specialize (Hno' o eq_refl). lia.
Qed.

(** Appending to the tail. *)
Definition with_tail (d : deposit) (v : laplace_persistence_value) : deposit :=
  mk_deposit (entities d) (groups d) (tail d ++ [v]).

Lemma tail_law d v :
  prefix_law d -> in_tail v ->
  prefix_law (with_tail d v) <->
  Forall group_law (groups d) /\ ascending (map attestation_id (attestations (with_tail d v))) /\
  ascending (map consensus_id (consensuses (with_tail d v))).
Proof.
  intros [(He & Hg & Ht & _ & _) Hl] Hv. unfold prefix_law, families_ordered.
  cbn [with_tail groups tail entities].
  assert (Hm : forall X Y : Prop, match tail d ++ [v] with [] => X | _ => Y end = Y)
    by (intros; by destruct (tail d)).
  rewrite Hm. split; [naive_solver|]. intros (Hall & Ha & Hc).
  split; [|done]. split_and!; try done. apply Forall_app. by split; [|constructor].
Qed.

Lemma attestations_with_tail d v :
  attestations (with_tail d v) = attestations d ++ match attestation_of v with Some a => [a] | None => [] end.
Proof. unfold attestations. cbn. rewrite omap_app. by destruct v. Qed.

Lemma consensuses_with_tail d v :
  consensuses (with_tail d v) = consensuses d ++ match consensus_of v with Some c => [c] | None => [] end.
Proof. unfold consensuses. cbn. rewrite omap_app. by destruct v. Qed.

Lemma phase_with_tail d v phase : 4 <= phase -> phase_of (with_tail d v) phase.
Proof. unfold phase_of. cbn. by destruct (groups d), (tail d). Qed.

(** A step that closes the last physicality and then appends to the tail. *)
Lemma tail_step d b v st' :
  prefix_law (with_tail d v) -> summary st' = deposit_summary (with_tail d v) b ->
  4 <= phase st' -> current_open st' = false ->
  remembered (have_entity st') (previous_entity st') (map record_entity_id (entities d)) ->
  remembered (have_physicality st') (previous_physicality st')
    (map (fun g => physicality_id (head g)) (groups d)) ->
  remembered (have_attestation st') (previous_attestation st')
    (map attestation_id (attestations (with_tail d v))) ->
  remembered (have_consensus st') (previous_consensus st')
    (map consensus_id (consensuses (with_tail d v))) ->
  represents (with_tail d v) b st'.
Proof.
  intros Hl Hs Hph Hopen He Hp Ha Hc. split; [done|]. split.
  - constructor; try done. by apply phase_with_tail.
  - unfold opened. rewrite Hopen. right. cbn. by destruct (tail d).
Qed.

Lemma tail_sizes d v :
  deposit_values (with_tail d v) = deposit_values d ++ [v].
Proof. unfold deposit_values. cbn. by rewrite !app_assoc. Qed.

Lemma attestation_step d b st a :
  represents d b st -> Z.of_nat (length (deposit_values d)) < UINT64_MAX ->
  step_exact d b (value_attestation a) (validate_attestation st a).
Proof.
  intros Hrep Hlen. pose proof (close_spec d b st Hrep) as Hclose.
  destruct Hrep as (Hlaw & [Hs Hph He Hp Ha Hc] & Ho). unfold step_exact, validate_attestation.
  change (push d (value_attestation a)) with (Some (with_tail d (value_attestation a))). cbn iota.
  pose proof (tail_law d (value_attestation a) Hlaw I) as Hiff.
  rewrite attestations_with_tail, consensuses_with_tail, map_app in Hiff.
  cbn [attestation_of consensus_of map] in Hiff. rewrite app_nil_r in Hiff.
  destruct Hclose as [[Hg ->]|[Hg ->]]; [|right; split; [by intros [? _]%Hiff|done]].
  pose proof Hlaw as [(_ & _ & _ & Hatt & Hcon) _].
  pose proof (not_after_spec _ _ _ (attestation_id a) Ha Hatt) as Hna.
  cbn [set_open have_attestation previous_attestation].
  destruct (not_after _ _ _) eqn:En.
  { right. split; [|done]. by intros (_ & H%Hna & _)%Hiff. }
  left. apply proj1 in Hna. specialize (Hna eq_refl).
  assert (Hl : prefix_law (with_tail d (value_attestation a))) by by apply Hiff.
  split; [done|]. eexists. split; [done|]. pose proof (deposit_sizes d).
  apply tail_step; cbn [summary phase current_open have_entity previous_entity have_physicality
    previous_physicality have_attestation previous_attestation have_consensus previous_consensus
    count_frame set_summary set_open]; try done.
  - rewrite Hs. unfold deposit_summary.
    rewrite tail_sizes, attestations_with_tail, consensuses_with_tail. counts.
    rewrite !length_app. cbn [with_tail groups entities attestation_of consensus_of length].
    rewrite !u64_succ by lia. f_equal; lia.
  - rewrite attestations_with_tail, map_app. apply remembered_snoc.
  - rewrite consensuses_with_tail. cbn. by rewrite app_nil_r.
Qed.

Lemma consensus_step d b st c :
  represents d b st -> Z.of_nat (length (deposit_values d)) < UINT64_MAX ->
  step_exact d b (value_consensus c) (validate_consensus st c).
Proof.
  intros Hrep Hlen. pose proof (close_spec d b st Hrep) as Hclose.
  destruct Hrep as (Hlaw & [Hs Hph He Hp Ha Hc] & Ho). unfold step_exact, validate_consensus.
  change (push d (value_consensus c)) with (Some (with_tail d (value_consensus c))). cbn iota.
  pose proof (tail_law d (value_consensus c) Hlaw I) as Hiff.
  rewrite attestations_with_tail, consensuses_with_tail, (map_app consensus_id) in Hiff.
  cbn [attestation_of consensus_of map] in Hiff. rewrite app_nil_r in Hiff.
  destruct Hclose as [[Hg ->]|[Hg ->]]; [|right; split; [by intros [? _]%Hiff|done]].
  pose proof Hlaw as [(_ & _ & _ & Hatt & Hcon) _].
  pose proof (not_after_spec _ _ _ (consensus_id c) Hc Hcon) as Hna.
  cbn [set_open have_consensus previous_consensus].
  destruct (not_after _ _ _) eqn:En.
  { right. split; [|done]. by intros (_ & _ & H%Hna)%Hiff. }
  left. apply proj1 in Hna. specialize (Hna eq_refl).
  assert (Hl : prefix_law (with_tail d (value_consensus c))) by by apply Hiff.
  split; [done|]. eexists. split; [done|]. pose proof (deposit_sizes d).
  apply tail_step; cbn [summary phase current_open have_entity previous_entity have_physicality
    previous_physicality have_attestation previous_attestation have_consensus previous_consensus
    count_frame set_summary set_open]; try done.
  - rewrite Hs. unfold deposit_summary.
    rewrite tail_sizes, attestations_with_tail, consensuses_with_tail. counts.
    rewrite !length_app. cbn [with_tail groups entities attestation_of consensus_of length].
    rewrite !u64_succ by lia. f_equal; lia.
  - rewrite attestations_with_tail. cbn. by rewrite app_nil_r.
  - rewrite consensuses_with_tail, map_app. apply remembered_snoc.
Qed.

(** ** Frames
    One record: accepted and represented, or refused. *)
Definition framed (v : laplace_persistence_value) : Prop := value_wf v /\ value_valid v.

Lemma record_step d b st v rest :
  value_wf v -> represents d b st -> Z.of_nat (length (deposit_values d)) < UINT64_MAX ->
  (exists d' st', push d v = Some d' /\ prefix_law d' /\ represents d' b st' /\
     validate_record st (record_of v) (frame_of v ++ rest) = (LAPLACE_PERSISTENCE_OK, st')) \/
  ((forall d', push d v = Some d' -> ~ prefix_law d') /\
   exists status st', status <> LAPLACE_PERSISTENCE_OK /\
     validate_record st (record_of v) (frame_of v ++ rest) = (status, st')).
Proof.
  intros Hv Hrep Hlen. unfold validate_record. cbn [record_of value].
  set (result := match v with value_entity _ => _ | _ => _ end).
  assert (H : step_exact d b v result).
  { destruct v; [by apply entity_step|by apply physicality_step|by apply segment_step
    |by apply attestation_step|by apply consensus_step]. }
  clearbody result. unfold step_exact in H. destruct result as [status st'].
  destruct (push d v) as [d'|].
  - destruct H as [(Hl & st2 & [= -> ->] & Hr)|[Hl Hne]].
    + left. by exists d', (count_frame st2).
    + right. split; [congruence|]. exists status, st'. split; [done|]. by destruct status.
  - right. split; [done|]. exists status, st'. split; [done|]. by destruct status.
Qed.

Definition frames (vs : list laplace_persistence_value) : list Z := concat (map frame_of vs).

Lemma frames_inj vs : forall ws,
  Forall framed vs -> Forall framed ws -> frames vs = frames ws -> vs = ws.
Proof.
  assert (Hnil : forall v vs, framed v -> [] <> frames (v :: vs)).
  { intros v vs' [Hv _] E. pose proof (frame_of_length v Hv) as Hl.
    pose proof (value_bytes_bounds v). apply (f_equal length) in E.
    cbn in E. rewrite length_app in E. lia. }
  induction vs as [|v vs IH]; intros [|w ws] Hvs Hws E; [done|..].
  - apply Forall_cons in Hws as [Hw _]. by apply Hnil in E.
  - apply Forall_cons in Hvs as [Hv _]. symmetry in E. by apply Hnil in E.
  - apply Forall_cons in Hvs as [[? ?] Hvs]. apply Forall_cons in Hws as [[? ?] Hws].
    apply (frame_of_inj v w (frames vs) (frames ws)) in E as [-> E]; try done.
    f_equal. by apply IH.
Qed.

(** The frames left in a batch, from [offset] on. *)
Definition region (l : list Z) (n offset : Z) : list Z :=
  take (Z.to_nat (n - offset)) (drop (Z.to_nat offset) l).

Lemma region_frame l n offset v rest :
  value_wf v -> 0 <= offset -> value_bytes v <= n - offset ->
  drop (Z.to_nat offset) l = frame_of v ++ rest ->
  region l n offset = frame_of v ++ region l n (offset + value_bytes v).
Proof.
  intros Hv Ho Hle E. destruct (frame_of_bytes v Hv) as [Hl _].
  pose proof (value_bytes_bounds v). unfold region.
  replace (Z.to_nat (offset + value_bytes v))
    with (Z.to_nat offset + Z.to_nat (value_bytes v))%nat by lia.
  rewrite <- drop_drop, E, drop_app_length' by done.
  rewrite take_app_ge by lia. do 2 f_equal. lia.
Qed.

(** A region that is frames starts with one. *)
Lemma region_frames l n offset vs :
  Forall framed vs -> 0 <= offset < n -> n <= Z.of_nat (length l) ->
  region l n offset = frames vs ->
  exists v ws rest, vs = v :: ws /\ value_bytes v <= n - offset /\
    drop (Z.to_nat offset) l = frame_of v ++ rest /\
    region l n (offset + value_bytes v) = frames ws.
Proof.
  intros Hvs Ho Hn Er.
  assert (Hlen : length (region l n offset) = Z.to_nat (n - offset)).
  { unfold region. rewrite length_take, length_drop. lia. }
  destruct vs as [|v ws]; [exfalso; rewrite Er in Hlen; cbn in Hlen; lia|].
  apply Forall_cons in Hvs as [[Hv _] _]. destruct (frame_of_bytes v Hv) as [Hl _].
  assert (Hle : value_bytes v <= n - offset).
  { rewrite Er in Hlen. unfold frames in Hlen. cbn in Hlen. rewrite length_app in Hlen. lia. }
  pose proof (value_bytes_bounds v).
  assert (E : drop (Z.to_nat offset) l =
    frame_of v ++ drop (Z.to_nat (value_bytes v)) (drop (Z.to_nat offset) l)).
  { rewrite <- (take_drop (Z.to_nat (value_bytes v)) (drop (Z.to_nat offset) l)) at 1. f_equal.
    apply (f_equal (take (Z.to_nat (value_bytes v)))) in Er. revert Er. unfold region, frames.
    cbn. rewrite take_take, Nat.min_l, take_app_length' by lia. done. }
  eexists v, ws, _. split_and!; [done|done|exact E|].
  rewrite (region_frame l n offset v _ Hv (proj1 Ho) Hle E) in Er. by apply app_inv_head in Er.
Qed.

Lemma frames_exact fuel : forall l n offset records d b st,
  Forall (fun x => is_u8 x) l -> n <= Z.of_nat (length l) -> 0 <= offset <= n ->
  n - offset < Z.of_nat fuel -> n <= UINT64_MAX -> 0 <= b <= UINT64_MAX ->
  represents d b st -> 56 * Z.of_nat (length (deposit_values d)) <= b + offset ->
  0 <= records -> 56 * records <= offset ->
  (exists vs d' st', Forall framed vs /\ region l n offset = frames vs /\
     push_all d vs = Some d' /\ represents d' b st' /\
     56 * Z.of_nat (length (deposit_values d')) <= b + n /\
     validate_frames fuel l n offset records st =
       Some (LAPLACE_PERSISTENCE_OK, st', records + Z.of_nat (length vs))) \/
  (exists status st' r, status <> LAPLACE_PERSISTENCE_OK /\
     validate_frames fuel l n offset records st = Some (status, st', r) /\
     forall vs d', Forall framed vs -> region l n offset = frames vs ->
       push_all d vs = Some d' -> ~ prefix_law d').
Proof.
  induction fuel as [|fuel IH]; intros l n offset records d b st Hl Hn Ho Hf Hnm Hb Hrep Hlen Hr Hro;
    [lia|]. cbn [validate_frames]. destruct (Z.ltb_spec offset n) as [Hlt|Hge].
  2:{ left. exists [], d, st. assert (offset = n) as -> by lia. cbn [length].
      rewrite Z.add_0_r. split_and!; try done. unfold region. by rewrite Z.sub_diag. }
  destruct (decode_cases (drop (Z.to_nat offset) l) (n - offset) empty_record 0)
    as [(v & rest & Hv & Hval & E & Hle & ->)|(status & Hne & -> & Hno)];
    [by apply Forall_drop | rewrite length_drop; lia |..].
  2:{ right. exists status, st, records. split; [done|]. split; [by destruct status|].
      intros vs d' Hvs (v & ws & rest & -> & Hle & E & _)%region_frames; [|done|lia|done].
      apply Forall_cons in Hvs as [[Hv Hval] _]. specialize (Hno v rest Hv Hval E). lia. }
  pose proof (value_bytes_bounds v) as Hvb.
  pose proof (region_frame l n offset v rest Hv (proj1 Ho) Hle E) as Ereg. rewrite E.
  assert (Hother : forall vs, Forall framed vs -> region l n offset = frames vs ->
    exists ws, vs = v :: ws /\ Forall framed ws /\
      region l n (offset + value_bytes v) = frames ws).
  { intros vs Hvs Er. destruct (region_frames l n offset vs Hvs) as (w & ws & rest' & -> & Hw & E' & Er');
      [lia|done..|]. apply Forall_cons in Hvs as [[Hw1 Hw2] Hws].
    rewrite E in E'. apply frame_of_inj in E' as [-> _]; [|done..]. by exists ws. }
  destruct (record_step d b st v rest Hv Hrep) as
    [(d1 & st1 & Epush & Hl1 & Hrep1 & ->)|(Hno & status & st1 & Hne & ->)]; [lia|..].
  2:{ right. exists status, st1, records. split; [done|]. split; [by destruct status|].
      intros vs d' Hvs (ws & -> & Hws & _)%Hother; [|done]. cbn.
      destruct (push d v) as [d1|]; [|done]. intros Hp Hl'.
      by apply (Hno d1 eq_refl), (push_all_law ws d1 d'). }
  rewrite u64_succ by lia. apply push_values in Epush as Hv1.
  destruct (IH l n (offset + value_bytes v) (records + 1) d1 b st1)
    as [(vs & d' & st' & Hvs & Er & Hp & Hrep' & Hlen' & ->)|(status & st' & r & Hne & -> & Hno)];
    try (done || lia).
  { rewrite Hv1, length_app. cbn [length]. lia. }
  - left. exists (v :: vs), d', st'. split_and!; try done.
    + by constructor.
    + by rewrite Ereg, Er.
    + cbn. by rewrite Epush.
    + do 2 f_equal. cbn [length]. lia.
  - right. exists status, st', r. split_and!; try done.
    intros vs d' Hvs (ws & -> & Hws & Er)%Hother; [|done]. cbn. rewrite Epush.
    by apply Hno.
Qed.

(** ** Batches *)
(** The memory of a batch is as long as it says. *)
Definition readable (batch : laplace_framework_canonical_batch) : Prop :=
  is_u64 (byte_count batch) /\
  forall l, canonical_bytes batch = Some l ->
    Forall (fun x => is_u8 x) l /\ byte_count batch <= Z.of_nat (length l).

(** A batch of the frames of [vs]. *)
Definition batch_holds (batch : laplace_framework_canonical_batch)
    (vs : list laplace_persistence_value) : Prop :=
  Forall framed vs /\ vs <> [] /\
  (exists l, canonical_bytes batch = Some l /\ take (Z.to_nat (byte_count batch)) l = frames vs) /\
  record_count batch = Z.of_nat (length vs) /\
  batch_record_type batch = LAPLACE_PERSISTENCE_STREAM_RECORD_TYPE /\ batch_flags batch = 0.

(** The batches hold the records of [d], and their bytes fit the counter. *)
Definition stream_holds (batches : list laplace_framework_canonical_batch) (d : deposit) : Prop :=
  batches <> [] /\ sum_of byte_count batches <= UINT64_MAX /\
  exists vss, Forall2 batch_holds batches vss /\ deposit_values d = concat vss.

Lemma batch_holds_unique batch vs ws : batch_holds batch vs -> batch_holds batch ws -> vs = ws.
Proof.
  intros (Hv & _ & (l & El & E) & _) (Hw & _ & (l' & El' & E') & _).
  apply frames_inj; [done..|congruence].
Qed.

Lemma batch_holds_bytes batch vs :
  batch_holds batch vs -> readable batch -> byte_count batch <> 0.
Proof.
  intros (Hv & Hne & (l & El & E) & _) _ Hz. rewrite Hz in E. cbn in E. apply Hne.
  by apply (frames_inj [] vs) in E as <-.
Qed.

Lemma represents_count_bytes d b st n :
  represents d b st -> 0 <= b -> 0 <= n -> b + n <= UINT64_MAX ->
  represents d (b + n) (count_bytes st n).
Proof.
  intros (Hl & [Hs Hph He Hp Ha Hc] & Ho) Hb Hn Hm. split; [done|]. split; [|done].
  constructor; try done. cbn. rewrite Hs. unfold deposit_summary. counts.
  by rewrite (u64_small (b + n)) by lia.
Qed.

(** The checks before the frames of a batch. *)
Definition batch_refused (batch : laplace_framework_canonical_batch) : bool :=
  is_null (canonical_bytes batch) || (byte_count batch =? 0) ||
  (SIZE_MAX <? byte_count batch) || (record_count batch =? 0) ||
  negb (batch_record_type batch =? LAPLACE_PERSISTENCE_STREAM_RECORD_TYPE) ||
  negb (batch_flags batch =? 0).

Lemma batch_holds_checked batch vs :
  readable batch -> batch_holds batch vs -> batch_refused batch = false.
Proof.
  intros Hread Hb. pose proof (batch_holds_bytes batch vs Hb Hread).
  destruct Hread as [Hbc _], Hb as (_ & Hne & (l & El & _) & Hrc & Hty & Hfl).
  unfold batch_refused. rewrite El, Hty, Hfl. cbn [is_null orb].
  rewrite (proj2 (Z.eqb_neq (byte_count batch) 0)), (proj2 (Z.ltb_ge _ (byte_count batch))),
    (proj2 (Z.eqb_neq (record_count batch) 0)); [done|..|done]; [|lia].
  destruct vs; [done|]. cbn [length] in Hrc. lia.
Qed.

Lemma batches_exact batches : forall d b st,
  Forall readable batches -> represents d b st ->
  56 * Z.of_nat (length (deposit_values d)) <= b <= UINT64_MAX ->
  (exists vss d' st', Forall2 batch_holds batches vss /\ b + sum_of byte_count batches <= UINT64_MAX /\
     push_all d (concat vss) = Some d' /\ represents d' (b + sum_of byte_count batches) st' /\
     validate_batches batches st = Some (LAPLACE_PERSISTENCE_OK, st')) \/
  (exists status st', status <> LAPLACE_PERSISTENCE_OK /\
     validate_batches batches st = Some (status, st') /\
     forall vss d', Forall2 batch_holds batches vss ->
       b + sum_of byte_count batches <= UINT64_MAX ->
       push_all d (concat vss) = Some d' -> ~ prefix_law d').
Proof.
  induction batches as [|batch batches IH]; intros d b st Hread Hrep Hlen.
  { left. exists [], d, st. cbn. rewrite Z.add_0_r. split_and!; try done. lia. }
  apply Forall_cons in Hread as [[Hbc Hmem] Hread]. cbn [validate_batches sum_of foldr].
  assert (Hsum : 0 <= sum_of byte_count batches).
  { apply sum_of_nonneg. eapply Forall_impl; [exact Hread|]. intros x [? _]. lia. }
  fold (batch_refused batch). destruct (batch_refused batch) eqn:Eguard.
  { right. exists LAPLACE_PERSISTENCE_RECORD_INVALID, st. split_and!; try done.
    intros vss d' Hvss _ _. apply Forall2_cons_inv_l in Hvss as (vs & vss' & Hb & _ & ->).
    by rewrite (batch_holds_checked batch vs (conj Hbc Hmem) Hb) in Eguard. }
  unfold batch_refused in Eguard. bools. destruct (canonical_bytes batch) as [l|] eqn:El; [|done].
  destruct (Hmem l eq_refl) as [Hl8 Hln]. change (default [] (Some l)) with l.
  assert (Hreg : region l (byte_count batch) 0 = take (Z.to_nat (byte_count batch)) l)
    by (unfold region; by rewrite Z.sub_0_r, drop_0).
  destruct (frames_exact (S (Z.to_nat (byte_count batch))) l (byte_count batch) 0 0 d b st)
    as [(vs & d1 & st1 & Hvs & Er & Hpush & Hrep1 & Hlen1 & ->)|(status & st1 & r & Hne & -> & Hno)];
    try (done || lia).
  2:{ right. exists status, st1. split_and!; [done|by destruct status|].
      intros vss d' Hvss _. apply Forall2_cons_inv_l in Hvss as (vs & vss' & Hb & _ & ->).
      destruct Hb as (Hvs & _ & (l' & El' & Er) & _). rewrite El in El'. injection El' as <-.
      cbn. rewrite push_all_app. destruct (push_all d vs) as [d1|] eqn:Ep; [|done].
      intros Hp Hl. apply (Hno vs d1 Hvs); [by rewrite Hreg|done|].
      by apply (push_all_law (concat vss') d1 d'). }
  rewrite Hreg in Er.
  assert (Hown : forall ws, batch_holds batch ws -> ws = vs).
  { intros ws (Hws & _ & (l' & El' & Er') & _). rewrite El in El'. injection El' as <-.
    apply frames_inj; [done..|congruence]. }
  assert (Hbytes : summary_byte_count (summary st1) = b).
  { destruct Hrep1 as (_ & [-> _ _ _ _ _] & _). done. }
  rewrite Hbytes. destruct (_ || _) eqn:Echk.
  - right. exists LAPLACE_PERSISTENCE_RECORD_INVALID, st1. split_and!; try done.
    intros vss d' Hvss Hmax _ _. apply Forall2_cons_inv_l in Hvss as (ws & vss' & Hb & _ & ->).
    assert (ws = vs) as -> by by apply Hown. destruct Hb as (_ & _ & _ & Hrc & _).
    unfold sum_of in *. apply orb_true_iff in Echk as [E%negb_true_iff%Z.eqb_neq|E%Z.ltb_lt]; lia.
  - bools. assert (Hb : batch_holds batch vs).
    { split_and!; [done| |by exists l|lia|done|done]. intros ->. cbn in *. lia. }
    destruct (IH d1 (b + byte_count batch) (count_bytes st1 (byte_count batch)) Hread)
      as [(vss & d' & st' & Hvss & Hmax & Hp & Hrep' & ->)|(status & st' & Hne & -> & Hno)].
    + apply represents_count_bytes; [done|lia..].
    + lia.
    + left. exists (vs :: vss), d', st'. rewrite Z.add_assoc. split_and!; try done.
      * by constructor.
      * cbn. by rewrite push_all_app, Hpush.
    + right. exists status, st'. split_and!; try done.
      intros vss d' Hvss Hmax. apply Forall2_cons_inv_l in Hvss as (ws & vss' & Hb' & Hvss' & ->).
      assert (ws = vs) as -> by by apply Hown. cbn. rewrite push_all_app, Hpush.
      apply Hno; [done|]. unfold sum_of in *. cbn in Hmax. lia.
Qed.

Lemma accepted_law_prefix d : accepted_law d -> prefix_law d.
Proof.
  intros [Hf Hg]. split; [done|]. destruct (tail d); [|done]. intros closed g E.
  rewrite E in Hg. apply Forall_app in Hg as [? Hlast].
  by apply Forall_cons in Hlast as [[? _] _].
Qed.

Lemma stream_holds_push batches d :
  accepted_law d -> stream_holds batches d ->
  exists vss, Forall2 batch_holds batches vss /\ push_all empty_deposit (concat vss) = Some d.
Proof.
  intros [(_ & _ & Ht & _) _] (_ & _ & vss & Hvss & E). exists vss. split; [done|].
  rewrite <- E. by apply push_all_complete.
Qed.

Lemma stream_nonempty batches vss :
  batches <> [] -> Forall2 batch_holds batches vss -> concat vss <> [].
Proof.
  intros Hne Hvss. destruct Hvss as [|batch vs batches vss Hb _]; [done|].
  destruct Hb as (_ & Hvs & _). by destruct vs.
Qed.

Lemma stream_values_unique batches vss : forall wss,
  Forall2 batch_holds batches vss -> Forall2 batch_holds batches wss -> vss = wss.
Proof.
  intros wss Hv. revert wss. induction Hv as [|b vs bs vss Hb _ IH];
    intros wss Hw; inversion Hw; subst; [done|]. f_equal; [|by apply IH].
  by eapply batch_holds_unique.
Qed.

(** A stream holds the records of at most one deposit. *)
Lemma stream_holds_unique batches d d' :
  accepted_law d -> accepted_law d' -> stream_holds batches d -> stream_holds batches d' -> d = d'.
Proof.
  intros Hl Hl' Hh Hh'. destruct (stream_holds_push _ _ Hl Hh) as (vss & Hv & Hp).
  destruct (stream_holds_push _ _ Hl' Hh') as (vss' & Hv' & Hp').
  rewrite (stream_values_unique _ _ _ Hv Hv') in Hp. congruence.
Qed.

(** The validator's two answers. *)
Lemma stream_outcome batches n total :
  Forall readable batches -> n = Z.of_nat (length batches) ->
  (exists d, accepted_law d /\ stream_holds batches d /\
     laplace_persistence_validate_stream (Some batches) n (Some total) =
       Some (LAPLACE_PERSISTENCE_OK, Some (deposit_summary d (sum_of byte_count batches)))) \/
  (exists status, status <> LAPLACE_PERSISTENCE_OK /\
     laplace_persistence_validate_stream (Some batches) n (Some total) =
       Some (status, Some total) /\
     forall d, accepted_law d -> ~ stream_holds batches d).
Proof.
  intros Hread Hn. unfold laplace_persistence_validate_stream. ptrs.
  destruct (Z.eqb_spec n 0) as [->|Hnz].
  { right. exists LAPLACE_PERSISTENCE_INVALID_ARGUMENT. split_and!; try done.
    intros d _ [Hne _]. by destruct batches. }
  rewrite cells_all by done. assert (Hne : batches <> []) by (intros ->; by subst n).
  destruct (batches_exact batches empty_deposit 0 initial_state Hread initial_represents)
    as [(vss & d & st & Hvss & Hmax & Hp & Hrep & ->)|(status & st & Hs & -> & Hno)]; [cbn; lia|..].
  2:{ right. exists status. split_and!; [done|by destruct status|].
      intros d Hl Hh. pose proof Hh as (_ & Hmax & _).
      destruct (stream_holds_push batches d Hl Hh) as (vss & Hvss & Hp).
      apply (Hno vss d Hvss Hmax Hp). by apply accepted_law_prefix. }
  pose proof (push_all_values _ _ _ Hp) as Hv. change (deposit_values empty_deposit) with
    (@nil laplace_persistence_value) in Hv. cbn [app] in Hv.
  destruct (close_spec d _ st Hrep) as [[Hg ->]|[Hg ->]].
  - left. exists d. destruct Hrep as ([Hf _] & [Hs _ _ _ _ _] & _).
    split; [done|]. split; [split_and!; [done|done|by exists vss]|]. cbn [set_open summary].
    rewrite Hs. counts. cbn [deposit_summary frame_count]. rewrite Hv.
    pose proof (stream_nonempty batches vss Hne Hvss) as Hcat.
    rewrite (proj2 (Z.eqb_neq _ 0)) by (destruct (concat vss); [done|cbn [length]; lia]).
    unfold deposit_summary. rewrite Hv. done.
  - right. exists LAPLACE_PERSISTENCE_TRAJECTORY_INVALID. split_and!; [done..|].
    intros d' Hl Hh. destruct (stream_holds_push batches d' Hl Hh) as (vss' & Hvss' & Hp').
    rewrite (stream_values_unique _ _ _ Hvss' Hvss), Hp in Hp'. injection Hp' as <-.
    by destruct Hl.
Qed.
End Law.

Section StreamProperties.
Context {B : Blake3} {L : Blake3Laws B}.

(** C2: let the contract's law be that entities come in increasing identity
    order, then physicalities in increasing order each followed by the vertices
    that its record counts and fingerprints, then attestations and then consensus
    records, each in increasing order ([contracts/persistence.json]).  Every
    stream whose batches hold, frame after frame, the records of a lawful deposit
    is accepted and summarized by the counts of the deposit.  Apart from these
    the validator accepts the streams of one more kind, which break the contract
    and nothing else in it: those that obey the law except that an attestation
    comes after a consensus record, because the ATTESTATION case of
    [validate_record] does not test the phase.  Every other stream fails and
    leaves the summary alone. *)
Theorem stream_exact batches n total :
  Forall readable batches -> n = Z.of_nat (length batches) ->
  (exists d, deposit_law d /\ stream_holds batches d /\
     laplace_persistence_validate_stream (Some batches) n (Some total) =
       Some (LAPLACE_PERSISTENCE_OK, Some (deposit_summary d (sum_of byte_count batches)))) \/
  (exists d, accepted_law d /\ attestation_late d /\ stream_holds batches d /\
     (forall d', deposit_law d' -> ~ stream_holds batches d') /\
     laplace_persistence_validate_stream (Some batches) n (Some total) =
       Some (LAPLACE_PERSISTENCE_OK, Some (deposit_summary d (sum_of byte_count batches)))) \/
  ((forall d, accepted_law d -> ~ stream_holds batches d) /\
   (forall d, deposit_law d -> ~ stream_holds batches d) /\
   exists status, status <> LAPLACE_PERSISTENCE_OK /\
     laplace_persistence_validate_stream (Some batches) n (Some total) =
       Some (status, Some total)).
Proof.
  intros Hread Hn.
  destruct (stream_outcome batches n total Hread Hn) as [(d & Hl & Hh & E)|(status & ? & ? & Hno)].
  - destruct (tail_order d Hl) as [Hf|Hlate]; [by left; exists d|].
    right; left. exists d. split_and!; [done..| |done]. intros d' [Hl' Hf] Hh'.
    rewrite (stream_holds_unique batches d' d Hl' Hl Hh' Hh) in Hf.
    by apply (late_not_first d).
  - right; right. split_and!; [done|by intros d [? _]; apply Hno|]. by exists status.
Qed.

(** What the trajectory component makes of the vertices of a lawful physicality. *)
Lemma decode_vertices_validate ss : forall start os,
  1 <= start -> decode_vertices ss start = Some os ->
  start + occurrences_total os <= UINT64_MAX ->
  validate_composition_from (map carrier ss) start =
    (LAPLACE_TRAJECTORY_OK, start - 1 + occurrences_total os).
Proof.
  induction ss as [|s ss IH]; intros start os Hs; cbn [decode_vertices map validate_composition_from].
  { intros [= <-] _. cbn. f_equal. lia. }
  destruct (laplace_trajectory_composition_decode_one _ _ _) as [[] [o|]] eqn:Eo; try done.
  destruct (decode_vertices ss _) as [os'|] eqn:E; [|done]. intros [= <-] Hm.
  change (occurrences_total (o :: os')) with (occurrence_run_length o + occurrences_total os') in *.
  pose proof (decode_one_run _ _ _ Eo).
  assert (0 <= occurrences_total os').
  { pose proof (group_total_nonneg (mk_group empty_physicality ss)) as _.
    apply decode_vertices_runs in E as [_ E]. clear -E.
    induction E as [|o os Ho _ IH]; [done|].
    change (occurrences_total (o :: os)) with (occurrence_run_length o + occurrences_total os). lia. }
  rewrite (proj2 (Z.ltb_ge _ _)) by lia. rewrite (IH _ os') by (done || lia). f_equal. lia.
Qed.

(** The vertices of a lawful composition, as the stream validator accepts
    them one by one, are a composition to the batch decoder of trajectories: with
    room for them it succeeds, writes contiguous occurrences and returns the
    logical count that the record declares (short of the largest 64-bit count,
    which only the streaming validator admits). *)
Theorem lawful_vertices_decode g occs :
  group_law g -> physicality_type (head g) = LAPLACE_PERSISTENCE_PHYSICALITY_COMPOSITION ->
  physicality_logical_count (head g) < UINT64_MAX -> length occs = length (vertices g) ->
  exists os,
    laplace_trajectory_composition_decode (Some (map carrier (vertices g)))
      (vertex_count (head g)) (Some occs) (vertex_count (head g)) (Some 0) =
    (LAPLACE_TRAJECTORY_OK, Some os, Some (physicality_logical_count (head g))) /\
    contiguous 1 os /\ length os = length (vertices g) /\
    occurrences_total os = physicality_logical_count (head g).
Proof.
  intros [(_ & _ & [os Eos] & _) Hclose] Htype Hmax Hlen. rewrite Htype in Hclose.
  cbn [Z.eqb Pos.eqb] in Hclose. destruct Hclose as (Hcount & Htotal & _).
  pose proof (group_total_decoded g os Eos) as Ht.
  pose proof (decode_vertices_validate (vertices g) 1 os ltac:(done) Eos ltac:(lia)) as Hval.
  destruct (decode_loops_agree (map carrier (vertices g)) 1 _ 0 occs Hval)
    as (os' & Hd & Hl & Hc & Htot & _); [lia | rewrite length_map; lia |].
  rewrite length_map in *.
  unfold laplace_trajectory_composition_decode, validate_composition. ptrs.
  rewrite Z.ltb_irrefl, cells_all by (rewrite length_map; lia). rewrite Hval.
  change (default [] (Some occs)) with occs. rewrite Hd. exists os'.
  rewrite drop_ge by lia. cbn [take app store]. rewrite app_nil_r.
  split_and!; [do 2 f_equal; lia | done | done | lia].
Qed.

(** The code: an attestation may follow a consensus record.  A batch of a valid
    consensus record and then a valid attestation is accepted, although the
    contract orders attestations before consensus records. *)
Theorem attestation_after_consensus_accepted c a l total :
  framed (value_consensus c) -> framed (value_attestation a) ->
  l = frames [value_consensus c; value_attestation a] ->
  laplace_persistence_validate_stream
    (Some [mk_batch (Some l) (Z.of_nat (length l)) 2 0 LAPLACE_PERSISTENCE_STREAM_RECORD_TYPE 0]) 1
    (Some total) =
  Some (LAPLACE_PERSISTENCE_OK, Some (mk_summary 0 0 0 1 1 0 2 (Z.of_nat (length l)))).
Proof.
  intros Hc Ha El. set (batch := mk_batch _ _ _ _ _ _).
  pose (d := mk_deposit [] [] [value_consensus c; value_attestation a]).
  assert (Hd : accepted_law d) by (split; [split_and!; repeat constructor | constructor]).
  assert (Hbytes : bytes (184 + 168) l).
  { subst l. unfold frames. cbn [map concat]. rewrite app_nil_r.
    apply (bytes_app 184); apply frame_of_bytes; [apply Hc|apply Ha]. }
  assert (Hh : stream_holds [batch] d).
  { split_and!; [done| |].
    - cbn. destruct Hbytes as [-> _]. done.
    - exists [tail d]. split; [|done]. constructor; [|constructor].
      split_and!; [|done| |done..].
      { apply Forall_cons. split; [done|]. apply Forall_cons. by split. }
      exists l. split; [done|]. cbn. by rewrite Nat2Z.id, take_ge. }
  destruct (stream_outcome [batch] 1 total) as [(d' & Hl & Hh' & ->)|(_ & _ & _ & Hno)];
    [ | done | | by apply Hno in Hh].
  { constructor; [|constructor]. destruct Hbytes as [Hlen Hu8]. split; [cbn; lia|].
    intros l' [= <-]. split; [done | cbn; lia]. }
  rewrite (stream_holds_unique [batch] d' d Hl Hd Hh' Hh). cbn. by rewrite Z.add_0_r.
Qed.
End StreamProperties.

(** ** A concrete deposit *)
Section Samples.
#[local] Existing Instance checksum_blake3.

(** A composition of three and two occurrences. *)
Definition sample_composition_with (id fingerprint : list Z)
    : laplace_persistence_physicality_record :=
  mk_physicality id (sample_id 9) LAPLACE_PERSISTENCE_PHYSICALITY_COMPOSITION
    LAPLACE_PERSISTENCE_VERTEX_TRAJECTORY_CARRIER 3
    LAPLACE_PERSISTENCE_STRUCTURAL_ORDERED_COMPOSITION 4 0 (sample_digest 1) (sample_digest 2)
    fingerprint sample_point 0x3fe0000000000000 5 2.

Definition sample_fingerprint : list Z :=
  default [] (laplace_persistence_trajectory_fingerprint (Some sample_carriers) 2
                (Some (zeros 32))).2.

Definition sample_composition : laplace_persistence_physicality_record :=
  sample_composition_with
    (default [] (laplace_persistence_physicality_identify
       (Some (sample_composition_with (zeros 32) sample_fingerprint)) (Some (zeros 32))).2)
    sample_fingerprint.

Definition sample_segments : list laplace_persistence_trajectory_segment_record :=
  [mk_segment (physicality_id sample_composition) 0 (sample_carrier 1 3) zero_occurrence;
   mk_segment (physicality_id sample_composition) 1 (sample_carrier 4 2) zero_occurrence].

Definition sample_group : group := mk_group sample_composition sample_segments.

Definition sample_attestation_with (id : list Z) : laplace_persistence_attestation_record :=
  mk_attestation id (sample_id 9) (zeros 32) (sample_digest 3) (sample_digest 4) 1 0 2.
Definition sample_attestation : laplace_persistence_attestation_record :=
  sample_attestation_with
    (default [] (laplace_persistence_attestation_identify
       (Some (sample_attestation_with (zeros 32))) (Some (zeros 32))).2).

Definition sample_values : list laplace_persistence_value :=
  sample_entity :: group_values sample_group ++ [value_attestation sample_attestation].

Definition sample_stream : list laplace_framework_canonical_batch :=
  let l := frames sample_values in
  [mk_batch (Some l) (Z.of_nat (length l)) 5 0 LAPLACE_PERSISTENCE_STREAM_RECORD_TYPE 0].

Lemma sample_stream_accepted :
  laplace_persistence_validate_stream (Some sample_stream) 1 (Some (mk_summary 0 0 0 0 0 0 0 0)) =
  Some (LAPLACE_PERSISTENCE_OK, Some (mk_summary 1 1 2 1 0 5 5 616)).
Proof. vm_compute. reflexivity. Qed.

Lemma sample_stream_readable : Forall readable sample_stream.
Proof.
  constructor; [|constructor]. split; [split; check|]. intros l [= <-].
  split; [check | check].
Qed.

Lemma sample_group_lawful : group_law sample_group.
Proof.
  split; [split_and!|].
  - intros _. reflexivity.
  - intros [|[|i]] s; intros [= <-]; by split.
  - eexists. vm_compute. reflexivity.
  - check.
  - cbn [physicality_type head sample_group sample_composition sample_composition_with Z.eqb Pos.eqb].
    split_and!; [done | check | check].
Qed.
End Samples.

Definition sample_result (r : option (laplace_persistence_status * ptr laplace_persistence_summary))
    : laplace_persistence_summary :=
  match r with Some (_, Some s) => s | _ => mk_summary 0 0 0 0 0 0 0 0 end.

Lemma stream_exact_witness :
  exists d, accepted_law (B := checksum_blake3) d /\
    stream_holds (B := checksum_blake3) sample_stream d /\
    (deposit_law (B := checksum_blake3) d \/ attestation_late d) /\
    deposit_summary d (sum_of byte_count sample_stream) = mk_summary 1 1 2 1 0 5 5 616.
Proof.
  destruct (stream_exact (B := checksum_blake3) (L := checksum_blake3_laws) sample_stream 1
    (mk_summary 0 0 0 0 0 0 0 0) sample_stream_readable eq_refl)
    as [(d & Hl & Hh & E)|[(d & Hl & Hlate & Hh & _ & E)|(_ & _ & status & Hne & E)]];
    rewrite sample_stream_accepted in E.
  - exists d. split; [exact (proj1 Hl)|]. split; [exact Hh|]. split; [by left|].
    symmetry. exact (f_equal sample_result E).
  - exists d. split; [exact Hl|]. split; [exact Hh|]. split; [by right|].
    symmetry. exact (f_equal sample_result E).
  - injection E as <-. by destruct Hne.
Defined.

Lemma lawful_vertices_decode_witness :
  exists os,
    laplace_trajectory_composition_decode (Some (map carrier sample_segments)) 2
      (Some [empty_occurrence; empty_occurrence]) 2 (Some 0) =
    (LAPLACE_TRAJECTORY_OK, Some os, Some 5) /\
    contiguous 1 os /\ length os = 2%nat /\ occurrences_total os = 5.
Proof.
  apply (lawful_vertices_decode (B := checksum_blake3) sample_group
    [empty_occurrence; empty_occurrence] sample_group_lawful); reflexivity.
Defined.
