(* ===== verification/UnicodeFields.v ===== *)
(** * Unicode property fields: the payload grammars of an atom record

    Models the payload validators of [engine/src/unicode_root.c], from
    [ascii_token_valid] to [field_shape_valid].  A pointer into the payload with
    the number of bytes left behind it is the list of those bytes, so that
    [bytes + offset] is the rest of a list and [byte_count - offset] its length.
    The counted containers share one loop, [entry_loop], over their entries; it
    runs with one unit of fuel per byte left.

    The typed values of the fourteen payload kinds and their encodings follow.
    [field_shape_exact] shows that a field is accepted exactly when its payload
    is the encoding of a value of the expected kind as the contract describes it,
    or one of the two forms that the code takes beyond the contract. *)
From stdpp Require Import prelude.
From Stdlib Require Import ZArith Lia.
From S2P Require Import Prelude Bytes.

Abbreviation LAPLACE_UNICODE_ROOT_POPULATION := 1114112 (only parsing).
Abbreviation LAPLACE_UNICODE_ATOM_FIELD_COUNT := 26%nat (only parsing).
Abbreviation LAPLACE_UNICODE_PAYLOAD_ASCII_PROPERTY := 1 (only parsing).
Abbreviation LAPLACE_UNICODE_PAYLOAD_U8 := 2 (only parsing).
Abbreviation LAPLACE_UNICODE_PAYLOAD_OPTIONAL_POSITION_AND_ASCII_TYPE := 3 (only parsing).
Abbreviation LAPLACE_UNICODE_PAYLOAD_OPTIONAL_POSITION := 4 (only parsing).
Abbreviation LAPLACE_UNICODE_PAYLOAD_POSITION_SEQUENCE := 5 (only parsing).
Abbreviation LAPLACE_UNICODE_PAYLOAD_TAGGED_POSITION_SEQUENCE := 6 (only parsing).
Abbreviation LAPLACE_UNICODE_PAYLOAD_ASCII_RATIONAL := 7 (only parsing).
Abbreviation LAPLACE_UNICODE_PAYLOAD_SORTED_TAGGED_POSITIONS := 8 (only parsing).
Abbreviation LAPLACE_UNICODE_PAYLOAD_FULL_CASE_MAPPINGS := 9 (only parsing).
Abbreviation LAPLACE_UNICODE_PAYLOAD_CASE_FOLDING := 10 (only parsing).
Abbreviation LAPLACE_UNICODE_PAYLOAD_SORTED_ASCII_SET := 11 (only parsing).
Abbreviation LAPLACE_UNICODE_PAYLOAD_SORTED_ASCII_KEY_VALUE_SET := 12 (only parsing).
Abbreviation LAPLACE_UNICODE_PAYLOAD_BOOLEAN := 13 (only parsing).
Abbreviation LAPLACE_UNICODE_PAYLOAD_NORMALIZATION_PROPERTIES := 14 (only parsing).
Abbreviation LAPLACE_UNICODE_NORMALIZATION_BINARY_TRUE := 1 (only parsing).
Abbreviation LAPLACE_UNICODE_NORMALIZATION_ASCII_PROPERTY_VALUE := 2 (only parsing).
Abbreviation LAPLACE_UNICODE_NORMALIZATION_POSITION_SEQUENCE := 3 (only parsing).
Abbreviation LAPLACE_UNICODE_NORMALIZATION_EMPTY_POSITION_SEQUENCE := 4 (only parsing).

(** The characters that the grammars name. *)
Abbreviation CHAR_HYPHEN := 45 (only parsing).
Abbreviation CHAR_SLASH := 47 (only parsing).
Abbreviation CHAR_0 := 48 (only parsing).
Abbreviation CHAR_9 := 57 (only parsing).
Abbreviation CHAR_UPPER_A := 65 (only parsing).
Abbreviation CHAR_UPPER_C := 67 (only parsing).
Abbreviation CHAR_UPPER_F := 70 (only parsing).
Abbreviation CHAR_UPPER_S := 83 (only parsing).
Abbreviation CHAR_UPPER_T := 84 (only parsing).
Abbreviation CHAR_UPPER_Z := 90 (only parsing).
Abbreviation CHAR_UNDERSCORE := 95 (only parsing).
Abbreviation CHAR_LOWER_A := 97 (only parsing).
Abbreviation CHAR_LOWER_Z := 122 (only parsing).

Inductive laplace_unicode_status :=
| LAPLACE_UNICODE_OK
| LAPLACE_UNICODE_INVALID_ARGUMENT
| LAPLACE_UNICODE_POSITION_OUT_OF_RANGE
| LAPLACE_UNICODE_RECORD_INVALID
| LAPLACE_UNICODE_IDENTITY_MISMATCH
| LAPLACE_UNICODE_FIELD_INVALID
| LAPLACE_UNICODE_BUFFER_TOO_SMALL
| LAPLACE_UNICODE_SIZE_OVERFLOW
| LAPLACE_UNICODE_NUMERIC_OUT_OF_RANGE
| LAPLACE_UNICODE_PROVIDER_UNAVAILABLE
| LAPLACE_UNICODE_PROVIDER_FAILURE
| LAPLACE_UNICODE_SOURCE_ROOT_INVALID
| LAPLACE_UNICODE_SOURCE_FILE_INVALID
| LAPLACE_UNICODE_SOURCE_DIGEST_MISMATCH
| LAPLACE_UNICODE_SOURCE_VERSION_MISMATCH
| LAPLACE_UNICODE_SOURCE_MEMORY_FAILURE
| LAPLACE_UNICODE_STREAM_STATE_INVALID
| LAPLACE_UNICODE_STREAM_ORDER_INVALID
| LAPLACE_UNICODE_STREAM_MANIFEST_MISMATCH
| LAPLACE_UNICODE_STREAM_INCOMPLETE
| LAPLACE_UNICODE_SOURCE_SYNTAX_INVALID
| LAPLACE_UNICODE_SOURCE_CONFLICT
| LAPLACE_UNICODE_SOURCE_INCOMPLETE.

#[export] Instance unicode_status_eq_dec : EqDecision laplace_unicode_status.
Proof. solve_decision. Defined.

Record laplace_unicode_atom_field := mk_field {
  payload : ptr (list Z);
  payload_bytes : Z;
  field_id : Z;
  payload_kind : Z;
  field_flags : Z }.

Definition expected_payload_kind : list Z :=
  [1; 2; 1; 3; 4; 5; 6; 7; 8; 9; 10; 1; 1;
   1; 11; 11; 11; 14; 13; 1; 1; 1; 1; 1; 13; 1].

(** ** Reading *)
Definition read_u16le (bytes : list Z) : Z := load_le (take 2 bytes).
Definition read_u32le (bytes : list Z) : Z := load_le (take 4 bytes).
Definition read_u64le (bytes : list Z) : Z := load_le (take 8 bytes).

(** The bytes left behind a pointer, and the pointer advanced. *)
Definition left (bytes : list Z) : Z := Z.of_nat (length bytes).
Definition advance (count : Z) (bytes : list Z) : list Z := drop (Z.to_nat count) bytes.

(** ** Tokens, rationals and sequences *)
Definition ascii_char (allow_hyphen : bool) (value : Z) : bool :=
  ((CHAR_UPPER_A <=? value) && (value <=? CHAR_UPPER_Z)) ||
  ((CHAR_LOWER_A <=? value) && (value <=? CHAR_LOWER_Z)) ||
  ((CHAR_0 <=? value) && (value <=? CHAR_9)) ||
  (value =? CHAR_UNDERSCORE) ||
  (allow_hyphen && (value =? CHAR_HYPHEN)).

Definition ascii_token_valid (bytes : ptr (list Z)) (byte_count : Z) (allow_hyphen : bool) : bool :=
  return_when is_null bytes || (byte_count =? 0) with false ;;
  forallb (ascii_char allow_hyphen) (cells bytes byte_count).

Definition bytes_compare (l r : list Z) : comparison :=
  let common := (if left l <? left r then length l else length r) in
  match memcmp (take common l) (take common r) with
  | Eq => return_when left l <? left r with Lt ;; if left r <? left l then Gt else Eq
  | c => c
  end.

Definition is_digit (value : Z) : bool := (CHAR_0 <=? value) && (value <=? CHAR_9).

(** [while (offset < byte_count && is_digit(bytes[offset])) ++offset]: the digits
    passed and the bytes behind them. *)
Fixpoint skip_digits (bytes : list Z) : list Z * list Z :=
  match bytes with
  | value :: rest =>
      if is_digit value then
        let '(digits, rest) := skip_digits rest in (value :: digits, rest)
      else ([], bytes)
  | [] => ([], [])
  end.

Definition ascii_rational_valid (bytes : ptr (list Z)) (byte_count : Z) : bool :=
  return_when byte_count =? 0 with true ;;
  return_when is_null bytes with false ;;
  let bytes := cells bytes byte_count in
  let bytes := if bytes !!! 0%nat =? CHAR_HYPHEN then drop 1 bytes else bytes in
  let '(numerator, rest) := skip_digits bytes in
  return_when (left numerator =? 0) ||
              ((1 <? left numerator) && (numerator !!! 0%nat =? CHAR_0)) with false ;;
  return_when left rest =? 0 with true ;;
  return_when negb (rest !!! 0%nat =? CHAR_SLASH) with false ;;
  let '(denominator, rest) := skip_digits (drop 1 rest) in
  (left rest =? 0) && negb (left denominator =? 0) &&
  negb ((1 <? left denominator) && (denominator !!! 0%nat =? CHAR_0)) &&
  negb ((left denominator =? 1) && (denominator !!! 0%nat =? CHAR_0)).

(** [for (offset = 0; offset < byte_count; offset += 4)]. *)
Fixpoint positions_loop (bytes : list Z) : bool :=
  match bytes with
  | a :: b :: c :: d :: rest =>
      return_when LAPLACE_UNICODE_ROOT_POPULATION <=? read_u32le [a; b; c; d] with false ;;
      positions_loop rest
  | _ => true
  end.

Definition position_sequence_valid (bytes : ptr (list Z)) (byte_count : Z) : bool :=
  return_when negb (byte_count mod 4 =? 0) || (is_null bytes && negb (byte_count =? 0))
    with false ;;
  positions_loop (cells bytes byte_count).

Definition tagged_position_sequence_valid (bytes : ptr (list Z)) (byte_count : Z) : bool :=
  return_when byte_count =? 0 with true ;;
  return_when is_null bytes || (byte_count <? 8) with false ;;
  let bytes := cells bytes byte_count in
  let tag_bytes := read_u16le bytes in
  let position_count := read_u32le (drop 4 bytes) in
  let required := 8 + tag_bytes + position_count * 4 in
  (read_u16le (drop 2 bytes) =? 0) && negb (tag_bytes =? 0) && negb (position_count =? 0) &&
  (required =? byte_count) && ascii_token_valid (Some (drop 8 bytes)) tag_bytes true &&
  position_sequence_valid (Some (advance tag_bytes (drop 8 bytes))) (position_count * 4).

(** ** Counted entries
    [for (index = 0; index < count; ++index)]: a step reads an entry at the
    front of the bytes left, after the previous one, or rejects. *)
Fixpoint entry_loop {P} (step : P -> list Z -> option (P * list Z)) (fuel : nat)
    (index count : Z) (prior : P) (bytes : list Z) : option (list Z) :=
  if index <? count then
    match fuel with
    | O => None
    | S fuel =>
        match step prior bytes with
        | Some (prior, bytes) => entry_loop step fuel (index + 1) count prior bytes
        | None => None
        end
    end
  else Some bytes.

(** The entries behind their count, up to the last byte. *)
Definition counted_entries {P} (step : P -> list Z -> option (P * list Z)) (first : P)
    (bytes : ptr (list Z)) (byte_count : Z) : bool :=
  return_when byte_count =? 0 with true ;;
  return_when is_null bytes || (byte_count <? 4) with false ;;
  let bytes := cells bytes byte_count in
  let count := read_u32le bytes in
  return_when count =? 0 with false ;;
  match entry_loop step (S (length bytes)) 0 count first (drop 4 bytes) with
  | Some [] => true
  | _ => false
  end.

(** [prior != NULL && bytes_compare(prior, key) >= 0]. *)
Definition not_ascending (prior : option (list Z)) (key : list Z) : bool :=
  match prior with
  | Some prior => match bytes_compare prior key with Lt => false | _ => true end
  | None => false
  end.

(** *** Simple case mappings *)
Definition tagged_position_step (prior_tag : Z) (entry : list Z) : option (Z * list Z) :=
  let tag := entry !!! 0%nat in
  return_when (tag <? 1) || (3 <? tag) || (tag <=? prior_tag) || negb (entry !!! 1%nat =? 0) ||
              negb (entry !!! 2%nat =? 0) || negb (entry !!! 3%nat =? 0) ||
              (LAPLACE_UNICODE_ROOT_POPULATION <=? read_u32le (drop 4 entry))
    with None ;;
  Some (tag, drop 8 entry).

Definition tagged_positions_valid (bytes : ptr (list Z)) (byte_count : Z) : bool :=
  return_when byte_count =? 0 with true ;;
  return_when is_null bytes || (byte_count <? 4) || negb ((byte_count - 4) mod 8 =? 0)
    with false ;;
  let bytes := cells bytes byte_count in
  let count := read_u32le bytes in
  return_when (count =? 0) || negb (count * 8 + 4 =? byte_count) with false ;;
  match entry_loop tagged_position_step (S (length bytes)) 0 count 0 (drop 4 bytes) with
  | Some _ => true
  | None => false
  end.

(** *** Sets of tokens, and of pairs of tokens *)
Definition set_step (key_value : bool) (prior : option (list Z)) (bytes : list Z)
    : option (option (list Z) * list Z) :=
  return_when left bytes <? 2 with None ;;
  let key_bytes := read_u16le bytes in
  let bytes := drop 2 bytes in
  return_when key_value && (left bytes <? 2) with None ;;
  let value_bytes := if key_value then read_u16le bytes else 0 in
  let bytes := if key_value then drop 2 bytes else bytes in
  return_when (key_bytes =? 0) || (left bytes <? key_bytes + value_bytes) with None ;;
  let key := take (Z.to_nat key_bytes) bytes in
  return_when negb (ascii_token_valid (Some bytes) key_bytes true) || not_ascending prior key
    with None ;;
  let bytes := advance key_bytes bytes in
  return_when key_value && ((value_bytes =? 0) ||
                            negb (ascii_token_valid (Some bytes) value_bytes true))
    with None ;;
  Some (Some key, advance value_bytes bytes).

Definition ascii_set_valid (bytes : ptr (list Z)) (byte_count : Z) (key_value : bool) : bool :=
  counted_entries (set_step key_value) None bytes byte_count.

(** *** Case folding *)
Definition case_folding_step (prior_status : Z) (bytes : list Z) : option (Z * list Z) :=
  return_when left bytes <? 8 with None ;;
  let status := bytes !!! 0%nat in
  let position_count := read_u32le (drop 4 bytes) in
  let positions_bytes := position_count * 4 in
  return_when
    (negb (status =? CHAR_UPPER_C) && negb (status =? CHAR_UPPER_F) &&
     negb (status =? CHAR_UPPER_S) && negb (status =? CHAR_UPPER_T)) ||
    (status <=? prior_status) || negb (bytes !!! 1%nat =? 0) ||
    negb (bytes !!! 2%nat =? 0) || negb (bytes !!! 3%nat =? 0) ||
    (position_count =? 0) || (left bytes - 8 <? positions_bytes) ||
    negb (position_sequence_valid (Some (drop 8 bytes)) positions_bytes)
    with None ;;
  Some (status, advance positions_bytes (drop 8 bytes)).

Definition case_folding_valid (bytes : ptr (list Z)) (byte_count : Z) : bool :=
  counted_entries case_folding_step 0 bytes byte_count.

(** *** Normalization properties *)
(** The bytes of the value of an entry, or its rejection. *)
Definition normalization_value (value_kind value_count : Z) (bytes : list Z) : option Z :=
  if (value_kind =? LAPLACE_UNICODE_NORMALIZATION_BINARY_TRUE) ||
     (value_kind =? LAPLACE_UNICODE_NORMALIZATION_EMPTY_POSITION_SEQUENCE) then
    return_when negb (value_count =? 0) with None ;;
    Some 0
  else if value_kind =? LAPLACE_UNICODE_NORMALIZATION_ASCII_PROPERTY_VALUE then
    let value_bytes := value_count in
    return_when (value_count =? 0) || (left bytes <? value_bytes) ||
                negb (ascii_token_valid (Some bytes) value_count true) with None ;;
    Some value_bytes
  else if value_kind =? LAPLACE_UNICODE_NORMALIZATION_POSITION_SEQUENCE then
    let value_bytes := value_count * 4 in
    return_when (value_count =? 0) || (left bytes <? value_bytes) ||
                negb (position_sequence_valid (Some bytes) value_bytes) with None ;;
    Some value_bytes
  else None.

Definition normalization_step (prior : option (list Z)) (bytes : list Z)
    : option (option (list Z) * list Z) :=
  return_when left bytes <? 8 with None ;;
  let key_bytes := read_u16le bytes in
  let value_kind := bytes !!! 2%nat in
  let value_count := read_u32le (drop 4 bytes) in
  return_when (key_bytes =? 0) || negb (bytes !!! 3%nat =? 0) || (left bytes - 8 <? key_bytes)
    with None ;;
  let bytes := drop 8 bytes in
  let key := take (Z.to_nat key_bytes) bytes in
  return_when negb (ascii_token_valid (Some bytes) key_bytes true) || not_ascending prior key
    with None ;;
  let bytes := advance key_bytes bytes in
  match normalization_value value_kind value_count bytes with
  | None => None
  | Some value_bytes => Some (Some key, advance value_bytes bytes)
  end.

Definition normalization_properties_valid (bytes : ptr (list Z)) (byte_count : Z) : bool :=
  counted_entries normalization_step None bytes byte_count.

(** *** Full case mappings *)
Definition condition_step (prior : option (list Z)) (bytes : list Z)
    : option (option (list Z) * list Z) :=
  return_when left bytes <? 2 with None ;;
  let condition_bytes := read_u16le bytes in
  let bytes := drop 2 bytes in
  return_when (condition_bytes =? 0) || (left bytes <? condition_bytes) with None ;;
  let value := take (Z.to_nat condition_bytes) bytes in
  return_when negb (ascii_token_valid (Some bytes) condition_bytes true) ||
              not_ascending prior value with None ;;
  Some (Some value, advance condition_bytes bytes).

Definition case_mapping_step (prior : option (list Z)) (entry_start : list Z)
    : option (option (list Z) * list Z) :=
  return_when left entry_start <? 16 with None ;;
  let condition_count := read_u16le entry_start in
  let lower_count := read_u32le (drop 4 entry_start) in
  let title_count := read_u32le (drop 8 entry_start) in
  let upper_count := read_u32le (drop 12 entry_start) in
  let mapping_bytes := (lower_count + title_count + upper_count) * 4 in
  return_when negb (read_u16le (drop 2 entry_start) =? 0) ||
              (left entry_start - 16 <? mapping_bytes) with None ;;
  let bytes := drop 16 entry_start in
  return_when negb (position_sequence_valid (Some bytes) mapping_bytes) with None ;;
  let bytes := advance mapping_bytes bytes in
  match entry_loop condition_step (S (length bytes)) 0 condition_count None bytes with
  | None => None
  | Some bytes =>
      let entry := take (length entry_start - length bytes) entry_start in
      return_when not_ascending prior entry with None ;;
      Some (Some entry, bytes)
  end.

Definition full_case_mappings_valid (bytes : ptr (list Z)) (byte_count : Z) : bool :=
  counted_entries case_mapping_step None bytes byte_count.

(** ** Fields *)
Definition field_payload_valid (field : laplace_unicode_atom_field) : bool :=
  let kind := payload_kind field in
  let pointed := default [] (payload field) in
  let count := payload_bytes field in
  if kind =? LAPLACE_UNICODE_PAYLOAD_ASCII_PROPERTY then ascii_token_valid (payload field) count true
  else if kind =? LAPLACE_UNICODE_PAYLOAD_U8 then count =? 1
  else if kind =? LAPLACE_UNICODE_PAYLOAD_OPTIONAL_POSITION_AND_ASCII_TYPE then
    (count =? 0) ||
    ((count =? 5) && (read_u32le pointed <? LAPLACE_UNICODE_ROOT_POPULATION) &&
     ascii_token_valid (Some (drop 4 pointed)) 1 false)
  else if kind =? LAPLACE_UNICODE_PAYLOAD_OPTIONAL_POSITION then
    (count =? 0) || ((count =? 4) && (read_u32le pointed <? LAPLACE_UNICODE_ROOT_POPULATION))
  else if kind =? LAPLACE_UNICODE_PAYLOAD_POSITION_SEQUENCE then
    position_sequence_valid (payload field) count
  else if kind =? LAPLACE_UNICODE_PAYLOAD_TAGGED_POSITION_SEQUENCE then
    tagged_position_sequence_valid (payload field) count
  else if kind =? LAPLACE_UNICODE_PAYLOAD_ASCII_RATIONAL then
    ascii_rational_valid (payload field) count
  else if kind =? LAPLACE_UNICODE_PAYLOAD_SORTED_TAGGED_POSITIONS then
    tagged_positions_valid (payload field) count
  else if kind =? LAPLACE_UNICODE_PAYLOAD_FULL_CASE_MAPPINGS then
    full_case_mappings_valid (payload field) count
  else if kind =? LAPLACE_UNICODE_PAYLOAD_CASE_FOLDING then
    case_folding_valid (payload field) count
  else if kind =? LAPLACE_UNICODE_PAYLOAD_SORTED_ASCII_SET then
    ascii_set_valid (payload field) count false
  else if kind =? LAPLACE_UNICODE_PAYLOAD_SORTED_ASCII_KEY_VALUE_SET then
    ascii_set_valid (payload field) count true
  else if kind =? LAPLACE_UNICODE_PAYLOAD_BOOLEAN then
    (count =? 1) && (pointed !!! 0%nat <=? 1)
  else if kind =? LAPLACE_UNICODE_PAYLOAD_NORMALIZATION_PROPERTIES then
    normalization_properties_valid (payload field) count
  else false.

Definition field_shape_valid (field : laplace_unicode_atom_field) (index : nat) : bool :=
  return_when negb (field_id field =? Z.of_nat index + 1) ||
              negb (payload_kind field =? expected_payload_kind !!! index) ||
              negb (field_flags field =? 0) ||
              (is_null (payload field) && negb (payload_bytes field =? 0)) with false ;;
  field_payload_valid field.


Definition laplace_unicode_atom_field_payload_kind (field_id : Z) (kind : ptr Z)
    : laplace_unicode_status * ptr Z :=
  return_when is_null kind with (LAPLACE_UNICODE_INVALID_ARGUMENT, kind) ;;
  let kind := store kind 0 in
  return_when (field_id =? 0) || (Z.of_nat LAPLACE_UNICODE_ATOM_FIELD_COUNT <? field_id)
    with (LAPLACE_UNICODE_FIELD_INVALID, kind) ;;
  (LAPLACE_UNICODE_OK, store kind (expected_payload_kind !!! Z.to_nat (field_id - 1))).

(** ** Entries and their encodings
    What a step promises: it accepts exactly the encodings of the well-formed
    entries that may follow the previous one. *)
Class Entry {P A} (step : P -> list Z -> option (P * list Z)) (enc : A -> list Z)
    (wf : A -> Prop) (after : P -> A -> Prop) (next : A -> P) : Prop := {
  entry_exact prior l prior' rest : Forall (fun b => is_u8 b) l ->
    step prior l = Some (prior', rest) <->
    exists a, wf a /\ after prior a /\ l = enc a ++ rest /\ prior' = next a;
  entry_nonempty a : wf a -> enc a <> [] }.
Arguments entry_exact {P A step enc wf after next} E : rename.
Arguments entry_nonempty {P A step enc wf after next} E : rename.

(** Every entry may follow the one before it. *)
Fixpoint chained {P A} (after : P -> A -> Prop) (next : A -> P) (prior : P) (l : list A) : Prop :=
  match l with
  | [] => True
  | a :: l => after prior a /\ chained after next (next a) l
  end.

Definition encode_all {A} (enc : A -> list Z) (l : list A) : list Z := concat (map enc l).

Section Entries.
Context {P A : Type} {step : P -> list Z -> option (P * list Z)} {enc : A -> list Z}
  {wf : A -> Prop} {after : P -> A -> Prop} {next : A -> P} (E : Entry step enc wf after next).

Lemma entry_loop_exact fuel index count prior l rest :
  (length l < fuel)%nat -> index <= count -> Forall (fun b => is_u8 b) l ->
  entry_loop step fuel index count prior l = Some rest <->
  exists es, Z.of_nat (length es) = count - index /\ Forall wf es /\ chained after next prior es /\
    l = encode_all enc es ++ rest.
Proof.
  revert index prior l. induction fuel as [|fuel IH]; intros index prior l Hf Hi Hl; [lia|].
  cbn [entry_loop]. destruct (Z.ltb_spec index count) as [Hlt|Hge].
  2: { split.
       - intros [= ->]. exists []. repeat split; [cbn; lia|constructor].
       - intros ([|e es] & Hn & _ & _ & ->); [done|]. cbn in Hn. lia. }
  assert (Hback : forall b es, wf b -> after prior b -> l = encode_all enc (b :: es) ++ rest ->
            step prior l = Some (next b, encode_all enc es ++ rest)).
  { intros b es Hb Haf ->. apply (entry_exact E); [done|]. exists b.
    split; [done|]. split; [done|]. split; [symmetry; apply app_assoc|done]. }
  destruct (step prior l) as [[prior' l']|] eqn:Es.
  - apply (entry_exact E) in Es as (a & Ha & Haf & El & ->); [|done].
    assert (Hl' : Forall (fun b => is_u8 b) l') by (rewrite El in Hl; by apply Forall_app in Hl as [_ ?]).
    assert (length l' < fuel)%nat.
    { pose proof (entry_nonempty E a Ha). rewrite El, length_app in Hf.
      destruct (enc a); [done|cbn in Hf; lia]. }
    rewrite IH by (done || lia). split.
    + intros (es & Hn & Hw & Hc & ->). exists (a :: es). cbn [length chained].
      split; [lia|]. split; [by constructor|]. split; [done|]. rewrite El. apply app_assoc.
    + intros ([|b es] & Hn & Hw & Hc & Heq); [cbn in Hn; lia|].
      apply Forall_cons in Hw as [Hb Hw]. destruct Hc as [Hb' Hc].
      injection (Hback b es Hb Hb' Heq) as Hnext ->. exists es. cbn [length] in Hn.
      split; [lia|]. split; [done|]. split; [by rewrite Hnext|done].
  - split; [done|]. intros ([|b es] & Hn & Hw & Hc & Heq); [cbn in Hn; lia|].
    apply Forall_cons in Hw as [Hb Hw]. destruct Hc as [Hb' Hc].
    discriminate (Hback b es Hb Hb' Heq).
Qed.
End Entries.

(** ** Reading what was written *)
Local Abbreviation octets := (Forall (fun b => is_u8 b)) (only parsing).

Lemma left_nil l : left l = 0 <-> l = [].
Proof. unfold left. destruct l; cbn; split; (done || lia). Qed.
Lemma left_app l r : left (l ++ r) = left l + left r.
Proof. unfold left. rewrite length_app. lia. Qed.
Lemma left_store n v : left (store_le n v) = Z.of_nat n.
Proof. unfold left. by rewrite length_store_le. Qed.
Lemma left_nonneg l : 0 <= left l.
Proof. unfold left. lia. Qed.
Lemma left_cons b l : left (b :: l) = 1 + left l.
Proof. unfold left. cbn. lia. Qed.

Lemma read_u16_store v rest : is_u16 v -> read_u16le (store_le 2 v ++ rest) = v.
Proof.
  intros Hv. unfold read_u16le. rewrite take_app_length' by (symmetry; apply length_store_le).
  rewrite load_store_le. apply Z.mod_small. change (256 ^ Z.of_nat 2) with 65536. lia.
Qed.
Lemma read_u32_store v rest : is_u32 v -> read_u32le (store_le 4 v ++ rest) = v.
Proof.
  intros Hv. unfold read_u32le. rewrite take_app_length' by (symmetry; apply length_store_le).
  rewrite load_store_le. apply Z.mod_small. change (256 ^ Z.of_nat 4) with 4294967296. lia.
Qed.
Lemma drop_store n v rest : drop n (store_le n v ++ rest) = rest.
Proof. apply drop_app_length'. symmetry. apply length_store_le. Qed.
Lemma drop_bytes n (l rest : list Z) : length l = n -> drop n (l ++ rest) = rest.
Proof. intros <-. by rewrite drop_app_length. Qed.
Lemma advance_app l rest : advance (left l) (l ++ rest) = rest.
Proof. unfold advance, left. by rewrite Nat2Z.id, drop_app_length. Qed.
Lemma take_left l rest : take (Z.to_nat (left l)) (l ++ rest) = l.
Proof. unfold left. by rewrite Nat2Z.id, take_app_length. Qed.

(** A word at the front of a string that is long enough. *)
Lemma front n l : octets l -> Z.of_nat n <= left l ->
  l = store_le n (load_le (take n l)) ++ drop n l /\ 0 <= load_le (take n l) < 256 ^ Z.of_nat n.
Proof.
  intros Hl Hn. unfold left in Hn.
  assert (Hb : bytes n (take n l)) by (split; [rewrite length_take; lia|by apply Forall_take]).
  rewrite store_load_le by done. rewrite take_drop. split; [done|by apply load_le_bound].
Qed.
Lemma front_u16 l : octets l -> 2 <= left l ->
  exists v rest, l = store_le 2 v ++ rest /\ is_u16 v /\ octets rest.
Proof.
  intros Hl Hn. destruct (front 2 l Hl Hn) as [E Hv]. eexists _, _. split; [exact E|].
  change (256 ^ Z.of_nat 2) with 65536 in Hv. split; [lia|by apply Forall_drop].
Qed.
Lemma front_u32 l : octets l -> 4 <= left l ->
  exists v rest, l = store_le 4 v ++ rest /\ is_u32 v /\ octets rest.
Proof.
  intros Hl Hn. destruct (front 4 l Hl Hn) as [E Hv]. eexists _, _. split; [exact E|].
  change (256 ^ Z.of_nat 4) with 4294967296 in Hv. split; [lia|by apply Forall_drop].
Qed.
Lemma front_string n l : octets l -> 0 <= n <= left l ->
  exists t rest, l = t ++ rest /\ left t = n /\ octets t /\ octets rest.
Proof.
  intros Hl Hn. exists (take (Z.to_nat n) l), (advance n l). unfold advance.
  rewrite take_drop. split; [done|]. unfold left in *. rewrite length_take.
  split; [lia|]. split; [by apply Forall_take|by apply Forall_drop].
Qed.
Lemma front_bytes l : octets l -> 4 <= left l ->
  exists a b c d rest, l = a :: b :: c :: d :: rest /\ octets [a; b; c; d] /\ octets rest.
Proof.
  intros Hl Hn. unfold left in Hn. do 4 (destruct l as [|? l]; [cbn in Hn; lia|]).
  do 5 eexists. split; [reflexivity|]. apply (Forall_app _ [_; _; _; _]) in Hl. done.
Qed.

(** [l] is what the [n] bytes at a pointer hold. *)
Definition points (p : ptr (list Z)) (n : Z) (l : list Z) : Prop :=
  cells p n = l /\ left l = n /\ octets l.

Lemma points_front l rest : octets l -> points (Some (l ++ rest)) (left l) l.
Proof. intros Hl. split; [|done]. apply cells_app. done. Qed.
Lemma points_null n l : points None n l -> l = [] /\ n = 0.
Proof.
  intros (H1 & H2 & _). unfold cells in H1. cbn in H1. rewrite take_nil in H1. by subst.
Qed.

(** ** The values of the grammars *)
Definition position (p : Z) : Prop := 0 <= p < LAPLACE_UNICODE_ROOT_POPULATION.
Definition token (allow_hyphen : bool) (t : list Z) : Prop :=
  t <> [] /\ Forall (fun c => ascii_char allow_hyphen c = true) t.
Definition encode_positions (ps : list Z) : list Z := concat (map (store_le 4) ps).

Lemma token_exact p n l h : points p n l -> ascii_token_valid p n h = true <-> token h l.
Proof.
  intros Hp. unfold ascii_token_valid, token. destruct p as [m|].
  - destruct Hp as (-> & <- & _). ptrs. destruct (Z.eqb_spec (left l) 0) as [E|E].
    + apply left_nil in E. naive_solver.
    + rewrite forallb_forall, List.Forall_forall. split; [intros H; split; [|done]|tauto].
      intros ->. by apply E.
  - destruct (points_null n l Hp) as [-> ->]. naive_solver.
Qed.

Lemma length_positions ps : left (encode_positions ps) = 4 * Z.of_nat (length ps).
Proof.
  induction ps as [|p ps IH]; [done|]. unfold encode_positions in *. cbn [map concat length].
  rewrite left_app, left_store, IH. lia.
Qed.

Lemma octets_store n v : octets (store_le n v).
Proof. apply store_le_bytes. Qed.

Lemma octets_positions ps : octets (encode_positions ps).
Proof.
  unfold encode_positions. induction ps; [constructor|]. apply Forall_app. split; [apply octets_store|done].
Qed.

Lemma encode_positions_cons p ps : encode_positions (p :: ps) = store_le 4 p ++ encode_positions ps.
Proof. reflexivity. Qed.

Lemma four_bytes l : octets l -> left l mod 4 = 0 -> l <> [] ->
  exists v rest, l = store_le 4 v ++ rest /\ is_u32 v /\ octets rest /\ left rest mod 4 = 0.
Proof.
  intros Hl Hm Hne. assert (4 <= left l).
  { pose proof (left_nonneg l). assert (left l <> 0) by (by intros ?%left_nil). Z.div_mod_to_equations; lia. }
  destruct (front_u32 l Hl) as (v & rest & -> & Hv & Hr); [done|]. exists v, rest.
  split; [done|]. split; [done|]. split; [done|]. rewrite left_app, left_store in Hm.
  Z.div_mod_to_equations; lia.
Qed.

Lemma positions_loop_store v rest :
  positions_loop (store_le 4 v ++ rest) =
  if LAPLACE_UNICODE_ROOT_POPULATION <=? read_u32le (store_le 4 v) then false else positions_loop rest.
Proof.
  pose proof (length_store_le 4 v) as Hl.
  destruct (store_le 4 v) as [|a [|b [|c [|d [|]]]]]; try discriminate Hl. reflexivity.
Qed.

Lemma positions_loop_exact n l : left l <= Z.of_nat n -> octets l -> left l mod 4 = 0 ->
  positions_loop l = true <-> exists ps, Forall position ps /\ l = encode_positions ps.
Proof.
  revert l. induction n as [|n IH]; intros l Hn Hl Hm.
  { pose proof (left_nonneg l). assert (l = []) as -> by (apply left_nil; lia).
    split; [|done]. intros _. exists []. split; [constructor|done]. }
  destruct (decide (l = [])) as [->|Hne].
  { split; [|done]. intros _. exists []. split; [constructor|done]. }
  destruct (four_bytes l Hl Hm Hne) as (v & rest & -> & Hv & Hr & Hrm).
  rewrite left_app, left_store in Hn. rewrite positions_loop_store.
  rewrite <- (app_nil_r (store_le 4 v)), read_u32_store, app_nil_r by done.
  destruct (Z.leb_spec LAPLACE_UNICODE_ROOT_POPULATION v) as [Hbig|Hsmall].
  - split; [done|]. intros ([|p ps] & Hps & Heq).
    + apply (f_equal left) in Heq. rewrite left_app, left_store in Heq. cbn in Heq.
      pose proof (left_nonneg rest). unfold left in *. cbn in Heq. lia.
    + apply Forall_cons in Hps as [Hp Hps]. rewrite encode_positions_cons in Heq.
      apply (f_equal read_u32le) in Heq. unfold position in Hp.
      rewrite !read_u32_store in Heq by lia. lia.
  - rewrite IH by (done || lia). split.
    + intros (ps & Hps & ->). exists (v :: ps). split; [constructor; [unfold position; lia|done]|done].
    + intros ([|p ps] & Hps & Heq).
      * apply (f_equal left) in Heq. rewrite left_app, left_store in Heq.
        pose proof (left_nonneg rest). unfold left in *. cbn in Heq. lia.
      * apply Forall_cons in Hps as [Hp Hps]. rewrite encode_positions_cons in Heq.
        apply (f_equal (drop 4)) in Heq. rewrite !drop_store in Heq. eauto.
Qed.

Lemma positions_exact p n l : points p n l ->
  position_sequence_valid p n = true <-> exists ps, Forall position ps /\ l = encode_positions ps.
Proof.
  intros Hp. unfold position_sequence_valid. destruct p as [m|].
  - destruct Hp as (-> & <- & Ho). ptrs. rewrite orb_false_r.
    destruct (Z.eqb_spec (left l mod 4) 0) as [E|E]; cbn [negb].
    + apply (positions_loop_exact (length l)); [unfold left; lia|done|done].
    + split; [done|]. intros (ps & _ & ->). rewrite length_positions in E.
      exfalso. apply E. rewrite Z.mul_comm. apply Z.mod_mul. lia.
  - destruct (points_null n l Hp) as [-> ->]. split; [|done]. intros _. exists [].
    split; [constructor|done].
Qed.

(** ** Orders *)
Lemma memcmp_take l r :
  memcmp l r = match memcmp (take (length l `min` length r) l) (take (length l `min` length r) r) with
               | Eq => (length l ?= length r)%nat
               | c => c
               end.
Proof.
  revert r. induction l as [|a l IH]; intros [|b r]; try done. cbn [length Nat.min take memcmp].
  rewrite IH. by destruct (a ?= b).
Qed.

Lemma bytes_compare_memcmp l r : bytes_compare l r = memcmp l r.
Proof.
  rewrite memcmp_take. unfold bytes_compare, left.
  replace (if Z.of_nat (length l) <? Z.of_nat (length r) then length l else length r)
    with (length l `min` length r)%nat by (destruct (Z.ltb_spec (Z.of_nat (length l)) (Z.of_nat (length r))); lia).
  destruct (memcmp _ _); try done.
  destruct (Nat.compare_spec (length l) (length r)), (Z.ltb_spec (Z.of_nat (length l)) (Z.of_nat (length r))),
    (Z.ltb_spec (Z.of_nat (length r)) (Z.of_nat (length l))); (done || lia).
Qed.

(** A key after the previous one, if there is one. *)
Definition ascends (prior : option (list Z)) (key : list Z) : Prop :=
  match prior with Some prior => memcmp prior key = Lt | None => True end.

Lemma not_ascending_spec prior key : not_ascending prior key = false <-> ascends prior key.
Proof.
  destruct prior as [prior|]; [|done]. cbn. rewrite bytes_compare_memcmp.
  by destruct (memcmp prior key).
Qed.

(** ** Tokens behind their lengths *)
Definition encode_token (t : list Z) : list Z := store_le 2 (left t) ++ t.
Definition token_wf (t : list Z) : Prop := token true t /\ left t <= UINT16_MAX.

Lemma token_octets h t : token h t -> octets t.
Proof.
  intros [_ H]. eapply Forall_impl; [exact H|]. intros c Hc. unfold ascii_char in Hc.
  rewrite !orb_true_iff, !andb_true_iff, !Z.leb_le, !Z.eqb_eq in Hc. lia.
Qed.

Lemma token_left h t : token h t -> 0 < left t.
Proof.
  intros [Hne _]. pose proof (left_nonneg t). assert (left t <> 0) by (by intros ?%left_nil). lia.
Qed.

(** A token at a pointer, by its length. *)
Lemma token_front t rest h :
  octets t -> ascii_token_valid (Some (t ++ rest)) (left t) h = true <-> token h t.
Proof. intros Ht. apply token_exact. by apply points_front. Qed.

#[local] Arguments left : simpl never.
#[local] Arguments advance : simpl never.
#[local] Arguments ascii_token_valid : simpl never.
#[local] Arguments read_u16le : simpl never.
#[local] Arguments read_u32le : simpl never.

Lemma condition_step_exact prior l prior' rest : octets l ->
  condition_step prior l = Some (prior', rest) <->
  exists t, token_wf t /\ ascends prior t /\ l = encode_token t ++ rest /\ prior' = Some t.
Proof.
  intros Hl. unfold condition_step. cbv zeta. split.
  - intros H. casec_in H; [done|].
    destruct (front_u16 l Hl) as (v & r & -> & Hv & Hr); [done|].
    rewrite read_u16_store, drop_store in H by done.
    casec_in H; [done|]. destruct (front_string v r Hr) as (t & r' & -> & Ht & Hot & Hor); [lia|].
    subst v. rewrite take_left, advance_app in H. casec_in H; [done|].
    injection H as <- <-. bools. exists t. rewrite token_front in * by done.
    split; [split; [done|lia]|]. split; [by apply not_ascending_spec|]. split; [|done].
    unfold encode_token. by rewrite app_assoc.
  - intros (t & [Ht Hmax] & Ha & -> & ->). pose proof (token_left true t Ht). pose proof (left_nonneg rest).
    unfold encode_token. rewrite <- app_assoc, left_app, left_store, left_app.
    rewrite (proj2 (Z.ltb_ge _ _)) by lia. rewrite read_u16_store, drop_store, left_app by lia.
    rewrite (proj2 (Z.eqb_neq _ _)), (proj2 (Z.ltb_ge _ _)) by lia. cbn [orb].
    rewrite take_left, advance_app, (proj2 (token_front t rest true (token_octets _ _ Ht))) by done.
    by rewrite (proj2 (not_ascending_spec _ _)).
Qed.

#[export] Instance condition_entry : Entry condition_step encode_token token_wf ascends Some.
Proof.
  split; [apply condition_step_exact|]. intros t _. unfold encode_token.
  pose proof (length_store_le 2 (left t)). by destruct (store_le 2 (left t)).
Qed.

(** A set of tokens is read as a list of conditions is. *)
Lemma set_step_tokens prior l : set_step false prior l = condition_step prior l.
Proof.
  unfold set_step, condition_step. cbv zeta. cbn [andb]. rewrite Z.add_0_r. unfold advance. by rewrite drop_0.
Qed.

#[export] Instance set_entry : Entry (set_step false) encode_token token_wf ascends Some.
Proof.
  split; [|apply (entry_nonempty condition_entry)]. intros prior l prior' rest Hl.
  rewrite set_step_tokens. by apply condition_step_exact.
Qed.

(** ** Pairs of tokens *)
Definition encode_pair (e : list Z * list Z) : list Z :=
  store_le 2 (left e.1) ++ store_le 2 (left e.2) ++ e.1 ++ e.2.
Definition pair_wf (e : list Z * list Z) : Prop := token_wf e.1 /\ token_wf e.2.

Lemma pair_step_exact prior l prior' rest : octets l ->
  set_step true prior l = Some (prior', rest) <->
  exists e, pair_wf e /\ ascends prior e.1 /\ l = encode_pair e ++ rest /\ prior' = Some e.1.
Proof.
  intros Hl. unfold set_step. cbv zeta. cbn [andb]. split.
  - intros H. casec_in H; [done|].
    destruct (front_u16 l Hl) as (v & r & -> & Hv & Hr); [done|].
    rewrite read_u16_store, drop_store in H by done. casec_in H; [done|].
    destruct (front_u16 r Hr) as (w & r' & -> & Hw & Hr'); [done|].
    rewrite read_u16_store, drop_store in H by done. casec_in H; [done|].
    destruct (front_string v r' Hr') as (k & r'' & -> & Hk & Hok & Hr''); [lia|].
    rewrite left_app in *. destruct (front_string w r'' Hr'') as (t & r3 & -> & Ht & Hot & Hor); [lia|].
    subst v w. rewrite take_left, !advance_app in H. casec_in H; [done|]. casec_in H; [done|].
    injection H as <- <-. bools. exists (k, t). unfold encode_pair. cbn.
    rewrite !token_front in * by done.
    split; [split; (split; [done|cbn; lia])|]. split; [by apply not_ascending_spec|]. split; [|done].
    by rewrite !app_assoc.
  - intros ([k t] & [[Hk Hmk] [Ht Hmt]] & Ha & -> & ->). cbn in *. pose proof (token_left true k Hk).
    pose proof (token_left true t Ht). pose proof (left_nonneg rest).
    unfold encode_pair. cbn. rewrite <- !app_assoc, !left_app, !left_store.
    rewrite (proj2 (Z.ltb_ge _ 2)) by lia. rewrite read_u16_store, drop_store, !left_app, !left_store by lia.
    rewrite (proj2 (Z.ltb_ge _ 2)) by lia. rewrite read_u16_store, drop_store, !left_app by lia.
    rewrite (proj2 (Z.eqb_neq (left k) 0)), (proj2 (Z.ltb_ge _ (_ + left t))) by lia. cbn [orb].
    rewrite take_left, !advance_app, (proj2 (token_front k _ true (token_octets _ _ Hk))) by done.
    rewrite (proj2 (not_ascending_spec _ _)) by done. cbn [negb orb].
    rewrite (proj2 (Z.eqb_neq (left t) 0)) by lia.
    by rewrite (proj2 (token_front t _ true (token_octets _ _ Ht))).
Qed.

#[export] Instance pair_entry :
  Entry (set_step true) encode_pair pair_wf (fun prior e => ascends prior e.1) (fun e => Some e.1).
Proof.
  split; [apply pair_step_exact|]. intros e _. unfold encode_pair.
  pose proof (length_store_le 2 (left e.1)). by destruct (store_le 2 (left e.1)).
Qed.

(** ** Positions behind a tag *)
Definition encode_tagged (e : Z * Z) : list Z := [e.1; 0; 0; 0] ++ store_le 4 e.2.
Definition tagged_wf (e : Z * Z) : Prop := 1 <= e.1 <= 3 /\ position e.2.

(** The step reads eight bytes that its caller has counted: here with the test. *)
Definition tested_tagged_step (prior : Z) (entry : list Z) : option (Z * list Z) :=
  if left entry <? 8 then None else tagged_position_step prior entry.

#[export] Instance tagged_entry :
  Entry tested_tagged_step encode_tagged tagged_wf (fun prior e => prior < e.1) fst.
Proof.
  split; [|by intros [t p]]. intros prior l prior' rest Hl.
  unfold tested_tagged_step, tagged_position_step. cbv zeta. split.
  - intros H. casec_in H; [done|]. casec_in H; [done|].
    destruct (front_bytes l Hl) as (b0 & b1 & b2 & b3 & r0 & -> & Hb & Hr0); [lia|].
    rewrite !left_cons in *. destruct (front_u32 r0 Hr0) as (v & r & -> & Hv & Hr); [lia|].
    cbn [lookup_total list_lookup_total drop] in *. rewrite (drop_store 4) in H.
    injection H as <- <-. rewrite drop_0, read_u32_store in * by done. bools. exists (b0, v).
    unfold encode_tagged, tagged_wf, position. cbn in *. subst. split; [lia|]. split; [lia|done].
  - intros ([t p] & [Ht Hp] & Ha & -> & ->). unfold encode_tagged, position in *.
    cbn [fst snd app lookup_total list_lookup_total drop] in *. pose proof (left_nonneg rest).
    rewrite ?drop_0, !left_cons, left_app, left_store, drop_store, read_u32_store by lia.
    rewrite (proj2 (Z.ltb_ge _ 8)), (proj2 (Z.ltb_ge t 1)), (proj2 (Z.ltb_ge 3 t)),
      (proj2 (Z.leb_gt t prior)), (proj2 (Z.leb_gt _ p)) by lia. done.
Qed.

Lemma tagged_loop_tested fuel index count prior l :
  left l = 8 * (count - index) ->
  entry_loop tagged_position_step fuel index count prior l =
  entry_loop tested_tagged_step fuel index count prior l.
Proof.
  revert index prior l. induction fuel as [|fuel IH]; intros index prior l Hl; [done|].
  cbn [entry_loop]. destruct (Z.ltb_spec index count); [|done].
  unfold tested_tagged_step at 1. rewrite (proj2 (Z.ltb_ge _ 8)) by lia.
  destruct (tagged_position_step prior l) as [[p l']|] eqn:E; [|done]. apply IH.
  unfold tagged_position_step in E. cbv zeta in E. casec_in E; [done|]. injection E as _ <-.
  unfold left in *. rewrite length_drop. lia.
Qed.

(** ** Case foldings *)
Definition encode_folding (e : Z * list Z) : list Z :=
  [e.1; 0; 0; 0] ++ store_le 4 (Z.of_nat (length e.2)) ++ encode_positions e.2.
Definition folding_wf (e : Z * list Z) : Prop :=
  e.1 ∈ [CHAR_UPPER_C; CHAR_UPPER_F; CHAR_UPPER_S; CHAR_UPPER_T] /\ e.2 <> [] /\
  Z.of_nat (length e.2) <= UINT32_MAX /\ Forall position e.2.

(** A sequence of positions at a pointer, by its length. *)
Lemma positions_front l rest : octets l ->
  position_sequence_valid (Some (l ++ rest)) (left l) = true <->
  exists ps, Forall position ps /\ l = encode_positions ps.
Proof. intros Hl. apply positions_exact. by apply points_front. Qed.

Lemma positions_front_encoded ps rest : Forall position ps ->
  position_sequence_valid (Some (encode_positions ps ++ rest)) (Z.of_nat (length ps) * 4) = true.
Proof.
  intros Hps. replace (Z.of_nat (length ps) * 4) with (left (encode_positions ps))
    by (rewrite length_positions; lia).
  apply positions_front; [apply octets_positions|by exists ps].
Qed.

Lemma advance_positions ps rest :
  advance (Z.of_nat (length ps) * 4) (encode_positions ps ++ rest) = rest.
Proof.
  replace (Z.of_nat (length ps) * 4) with (left (encode_positions ps))
    by (rewrite length_positions; lia). apply advance_app.
Qed.

#[local] Arguments position_sequence_valid : simpl never.

(** Positions of a given number at the front of a string. *)
Lemma front_positions n l : octets l -> 0 <= n -> n * 4 <= left l ->
  position_sequence_valid (Some l) (n * 4) = true <->
  exists ps rest, Forall position ps /\ Z.of_nat (length ps) = n /\ l = encode_positions ps ++ rest /\
    octets rest.
Proof.
  intros Hl Hn Hle. destruct (front_string (n * 4) l Hl) as (t & r & -> & Ht & Hot & Hr); [lia|].
  rewrite <- Ht, positions_front by done. split.
  - intros (ps & Hps & ->). rewrite length_positions in Ht. exists ps, r.
    split; [done|]. split; [lia|done].
  - intros (ps & rest & Hps & Hlen & Heq & _). exists ps. split; [done|].
    apply app_inj_1 in Heq; [tauto|]. pose proof (length_positions ps). unfold left in *. lia.
Qed.

Lemma folding_status s :
  negb (s =? CHAR_UPPER_C) && negb (s =? CHAR_UPPER_F) &&
  negb (s =? CHAR_UPPER_S) && negb (s =? CHAR_UPPER_T) = false <->
  s ∈ [CHAR_UPPER_C; CHAR_UPPER_F; CHAR_UPPER_S; CHAR_UPPER_T].
Proof.
  rewrite !andb_false_iff, !negb_false_iff, !Z.eqb_eq, !elem_of_cons, elem_of_nil. tauto.
Qed.

#[export] Instance folding_entry :
  Entry case_folding_step encode_folding folding_wf (fun prior e => prior < e.1) fst.
Proof.
  split; [|by intros [t p]]. intros prior l prior' rest Hl. unfold case_folding_step. cbv zeta. split.
  - intros H. casec_in H; [done|]. casec_in H; [done|].
    destruct (front_bytes l Hl) as (b0 & b1 & b2 & b3 & r0 & -> & Hb & Hr0); [lia|].
    rewrite !left_cons in *. destruct (front_u32 r0 Hr0) as (v & r & -> & Hv & Hr); [lia|].
    cbn [lookup_total list_lookup_total drop] in *. rewrite (drop_store 4) in *.
    rewrite ?drop_0, left_app, left_store, read_u32_store in * by done. bools.
    match goal with Hp : position_sequence_valid _ _ = true |- _ =>
      apply front_positions in Hp as (ps & r' & Hps & Hlen & -> & Hr'); [|done|lia|lia] end.
    rewrite <- Hlen, advance_positions in H. injection H as <- <-. exists (b0, ps).
    unfold encode_folding, folding_wf. cbn in *. subst.
    split; [|by rewrite <- app_assoc]. split; [by apply folding_status|].
    split; [by intros ->|]. split; [lia|done].
  - intros ([t ps] & (Ht & Hne & Hmax & Hps) & Ha & -> & ->). unfold encode_folding.
    cbn [fst snd app lookup_total list_lookup_total drop] in *. pose proof (left_nonneg rest).
    rewrite <- !app_assoc, ?drop_0, !left_cons, !left_app, left_store, drop_store, read_u32_store by lia.
    pose proof (left_nonneg (encode_positions ps)). pose proof (length_positions ps).
    assert (length ps <> 0)%nat by (by destruct ps).
    rewrite (proj2 (folding_status t)), positions_front_encoded, advance_positions by done.
    rewrite (proj2 (Z.ltb_ge _ 8)), (proj2 (Z.leb_gt t prior)), (proj2 (Z.eqb_neq (Z.of_nat (length ps)) 0)),
      (proj2 (Z.ltb_ge _ (_ * 4))) by lia. done.
Qed.

(** ** Normalization properties *)
Inductive normalization_datum :=
| binary_true
| property_value (t : list Z)
| position_values (ps : list Z)
| empty_positions.

Definition datum_kind (d : normalization_datum) : Z :=
  match d with
  | binary_true => LAPLACE_UNICODE_NORMALIZATION_BINARY_TRUE
  | property_value _ => LAPLACE_UNICODE_NORMALIZATION_ASCII_PROPERTY_VALUE
  | position_values _ => LAPLACE_UNICODE_NORMALIZATION_POSITION_SEQUENCE
  | empty_positions => LAPLACE_UNICODE_NORMALIZATION_EMPTY_POSITION_SEQUENCE
  end.
Definition datum_count (d : normalization_datum) : Z :=
  match d with
  | property_value t => left t
  | position_values ps => Z.of_nat (length ps)
  | _ => 0
  end.
Definition datum_bytes (d : normalization_datum) : list Z :=
  match d with
  | property_value t => t
  | position_values ps => encode_positions ps
  | _ => []
  end.
Definition datum_wf (d : normalization_datum) : Prop :=
  datum_count d <= UINT32_MAX /\
  match d with
  | property_value t => token true t
  | position_values ps => ps <> [] /\ Forall position ps
  | _ => True
  end.

Lemma normalization_value_encoded d rest : datum_wf d ->
  normalization_value (datum_kind d) (datum_count d) (datum_bytes d ++ rest) =
  Some (left (datum_bytes d)).
Proof.
  unfold normalization_value. destruct d as [|t|ps|]; intros [Hmax Hd]; try done; cbn in *.
  - pose proof (token_left true t Hd). pose proof (left_nonneg rest).
    rewrite left_app, (proj2 (token_front t rest true (token_octets _ _ Hd))) by done.
    by rewrite (proj2 (Z.eqb_neq (left t) 0)), (proj2 (Z.ltb_ge _ _)) by lia.
  - destruct Hd as [Hne Hps]. pose proof (left_nonneg rest). pose proof (length_positions ps) as Hl.
    assert (length ps <> 0)%nat by (by destruct ps).
    rewrite left_app, positions_front_encoded by done.
    rewrite (proj2 (Z.eqb_neq (Z.of_nat (length ps)) 0)), (proj2 (Z.ltb_ge _ _)) by lia.
    cbn [orb negb]. f_equal. lia.
Qed.

Lemma normalization_value_exact kind count l n : octets l -> is_u32 count ->
  normalization_value kind count l = Some n ->
  exists d rest, datum_wf d /\ kind = datum_kind d /\ count = datum_count d /\
    l = datum_bytes d ++ rest /\ n = left (datum_bytes d).
Proof.
  intros Hl Hc H. unfold normalization_value in H. cbv zeta in H.
  destruct ((kind =? 1) || (kind =? 4)) eqn:Ek.
  - casec_in H; [done|]. injection H as <-. subst count.
    apply orb_true_iff in Ek as [->%Z.eqb_eq | ->%Z.eqb_eq].
    + exists binary_true, l. repeat split; done.
    + exists empty_positions, l. repeat split; done.
  - destruct (Z.eqb_spec kind 2) as [->|].
    + casec_in H; [done|]. injection H as <-.
      destruct (front_string count l Hl) as (t & r & -> & <- & Ht & Hr); [lia|].
      rewrite token_front in * by done. exists (property_value t), r.
      split; [split; [cbn; lia|done]|done].
    + destruct (Z.eqb_spec kind 3) as [->|]; [|done].
      casec_in H; [done|]. injection H as <-.
      match goal with Hp : position_sequence_valid _ _ = true |- _ =>
        apply front_positions in Hp as (ps & r' & Hps & <- & -> & Hr'); [|done|lia|lia] end.
      exists (position_values ps), r'. pose proof (length_positions ps).
      split; [split; [cbn; lia|split; [by intros ->|done]]|].
      repeat split; cbn; lia.
Qed.

Definition encode_normalization (e : list Z * normalization_datum) : list Z :=
  store_le 2 (left e.1) ++ [datum_kind e.2; 0] ++ store_le 4 (datum_count e.2) ++
  e.1 ++ datum_bytes e.2.
Definition normalization_wf (e : list Z * normalization_datum) : Prop :=
  token_wf e.1 /\ datum_wf e.2.

(** The offsets of an entry's header. *)
Lemma header_offsets v kind zero c rest :
  let l := store_le 2 v ++ [kind; zero] ++ store_le 4 c ++ rest in
  l !!! 2%nat = kind /\ l !!! 3%nat = zero /\ drop 4 l = store_le 4 c ++ rest /\ drop 8 l = rest /\
  left l = 8 + left rest.
Proof.
  pose proof (length_store_le 2 v) as H2. pose proof (length_store_le 4 c) as H4. unfold left.
  destruct (store_le 2 v) as [|? [|? [|]]]; try discriminate H2.
  destruct (store_le 4 c) as [|? [|? [|? [|? [|]]]]]; try discriminate H4.
  repeat split. cbn. lia.
Qed.

#[export] Instance normalization_entry :
  Entry normalization_step encode_normalization normalization_wf
    (fun prior e => ascends prior e.1) (fun e => Some e.1).
Proof.
  split.
  2: { intros e _. unfold encode_normalization. pose proof (length_store_le 2 (left e.1)).
       by destruct (store_le 2 (left e.1)). }
  intros prior l prior' rest Hl. unfold normalization_step. cbv zeta. split.
  - intros H. casec_in H; [done|].
    destruct (front_u16 l Hl) as (v & r & -> & Hv & Hr); [lia|].
    rewrite left_app, left_store in *.
    destruct (front_string 2 r Hr) as (h & r1 & -> & Hh & Hoh & Hr1); [lia|].
    destruct h as [|kind [|zero [|]]]; try (unfold left in Hh; cbn in Hh; lia).
    rewrite left_app, Hh in *. destruct (front_u32 r1 Hr1) as (c & r2 & -> & Hc & Hr2); [lia|].
    destruct (header_offsets v kind zero c r2) as (E2 & E3 & E4 & E8 & El).
    rewrite read_u16_store, E2, E3, E4, E8, read_u32_store in H by done.
    casec_in H; [done|]. rewrite !left_app, !left_store in *.
    destruct (front_string v r2 Hr2) as (k & r3 & -> & Hk & Hok & Hr3); [lia|].
    subst v. rewrite take_left, !advance_app in H. casec_in H; [done|].
    destruct (normalization_value kind c r3) as [n|] eqn:En; [|done].
    apply normalization_value_exact in En as (d & r4 & Hd & -> & -> & -> & ->); [|done..].
    rewrite advance_app in H. injection H as <- <-. bools. subst zero. exists (k, d).
    unfold encode_normalization. cbn [fst snd]. rewrite token_front in * by done.
    split; [split; [split; [done|cbn; lia]|done]|]. split; [by apply not_ascending_spec|].
    split; [|done]. by rewrite <- !app_assoc.
  - intros ([k d] & [[Hk Hmk] Hd] & Ha & -> & ->). unfold encode_normalization. cbn [fst snd] in *.
    pose proof (token_left true k Hk). pose proof (left_nonneg (datum_bytes d)).
    pose proof (left_nonneg rest). assert (Hc : is_u32 (datum_count d)).
    { split; [|apply Hd]. destruct d; cbn; (lia || apply left_nonneg). }
    rewrite <- !app_assoc.
    destruct (header_offsets (left k) (datum_kind d) 0 (datum_count d) (k ++ datum_bytes d ++ rest))
      as (E2 & E3 & E4 & E8 & El).
    rewrite read_u16_store, E2, E3, E4, E8, El, read_u32_store, !left_app by lia.
    rewrite (proj2 (Z.ltb_ge _ 8)), (proj2 (Z.eqb_neq (left k) 0)), (proj2 (Z.ltb_ge _ (left k))) by lia.
    rewrite take_left, !advance_app, (proj2 (token_front k _ true (token_octets _ _ Hk))) by done.
    rewrite (proj2 (not_ascending_spec _ _)) by done. cbn [negb orb Z.eqb].
    by rewrite normalization_value_encoded, advance_app by done.
Qed.

(** ** Full case mappings *)
Record case_mapping := mk_mapping {
  lower : list Z; title : list Z; upper : list Z; conditions : list (list Z) }.

Definition mapping_header (conditions zero lower title upper : Z) : list Z :=
  store_le 2 conditions ++ store_le 2 zero ++ store_le 4 lower ++ store_le 4 title ++ store_le 4 upper.

Definition encode_mapping (m : case_mapping) : list Z :=
  mapping_header (Z.of_nat (length (conditions m))) 0 (Z.of_nat (length (lower m)))
    (Z.of_nat (length (title m))) (Z.of_nat (length (upper m))) ++
  encode_positions (lower m ++ title m ++ upper m) ++ encode_all encode_token (conditions m).

Definition mapping_wf (m : case_mapping) : Prop :=
  Forall (fun ps => Z.of_nat (length ps) <= UINT32_MAX /\ Forall position ps)
    [lower m; title m; upper m] /\
  Z.of_nat (length (conditions m)) <= UINT16_MAX /\ Forall token_wf (conditions m) /\
  chained ascends Some None (conditions m).

#[local] Ltac split_word n v :=
  let H := fresh in pose proof (length_store_le n v) as H;
  destruct (store_le n v) as [|? [|? [|? [|? [|]]]]]; try discriminate H; clear H.

Lemma mapping_offsets n z a b c rest :
  is_u16 n -> is_u16 z -> is_u32 a -> is_u32 b -> is_u32 c ->
  let l := mapping_header n z a b c ++ rest in
  read_u16le l = n /\ read_u16le (drop 2 l) = z /\ read_u32le (drop 4 l) = a /\
  read_u32le (drop 8 l) = b /\ read_u32le (drop 12 l) = c /\ drop 16 l = rest /\ left l = 16 + left rest.
Proof.
  intros Hn Hz Ha Hb Hc. unfold mapping_header. cbv zeta. rewrite <- !app_assoc, !left_app, !left_store.
  pose proof (fun x => read_u16_store n x Hn) as Rn. pose proof (fun x => read_u16_store z x Hz) as Rz.
  pose proof (fun x => read_u32_store a x Ha) as Ra. pose proof (fun x => read_u32_store b x Hb) as Rb.
  pose proof (fun x => read_u32_store c x Hc) as Rc.
  split_word 2%nat n. split_word 2%nat z. split_word 4%nat a. split_word 4%nat b. split_word 4%nat c.
  split; [apply Rn|]. split; [apply Rz|]. split; [apply Ra|]. split; [apply Rb|]. split; [apply Rc|].
  split; [reflexivity|lia].
Qed.

Lemma front_mapping l : octets l -> 16 <= left l ->
  exists n z a b c rest, l = mapping_header n z a b c ++ rest /\
    is_u16 n /\ is_u16 z /\ is_u32 a /\ is_u32 b /\ is_u32 c /\ octets rest.
Proof.
  intros Hl Hn. destruct (front_u16 l Hl) as (n & l1 & -> & ? & O1); [lia|].
  rewrite left_app, left_store in Hn. destruct (front_u16 l1 O1) as (z & l2 & -> & ? & O2); [lia|].
  rewrite left_app, left_store in Hn. destruct (front_u32 l2 O2) as (a & l3 & -> & ? & O3); [lia|].
  rewrite left_app, left_store in Hn. destruct (front_u32 l3 O3) as (b & l4 & -> & ? & O4); [lia|].
  rewrite left_app, left_store in Hn. destruct (front_u32 l4 O4) as (c & l5 & -> & ? & O5); [lia|].
  exists n, z, a, b, c, l5. unfold mapping_header. rewrite <- !app_assoc. done.
Qed.

Lemma split_three (ps : list Z) a b c : Z.of_nat (length ps) = a + b + c -> 0 <= a -> 0 <= b -> 0 <= c ->
  exists x y z, ps = x ++ y ++ z /\ Z.of_nat (length x) = a /\ Z.of_nat (length y) = b /\
    Z.of_nat (length z) = c.
Proof.
  intros Hl Ha Hb Hc. exists (take (Z.to_nat a) ps), (take (Z.to_nat b) (drop (Z.to_nat a) ps)),
    (drop (Z.to_nat b) (drop (Z.to_nat a) ps)).
  rewrite !take_drop. rewrite !length_take, !length_drop. repeat split; lia.
Qed.

#[export] Instance mapping_entry :
  Entry case_mapping_step encode_mapping mapping_wf
    (fun prior m => ascends prior (encode_mapping m)) (fun m => Some (encode_mapping m)).
Proof.
  split.
  2: { intros m _. unfold encode_mapping, mapping_header.
       pose proof (length_store_le 2 (Z.of_nat (length (conditions m)))) as H. by destruct (store_le 2 _). }
  intros prior l prior' rest Hl. unfold case_mapping_step. cbv zeta. split.
  - intros H. casec_in H; [done|].
    destruct (front_mapping l Hl) as (n & z & a & b & c & r & -> & Hn & Hz & Ha & Hb & Hc & Hr); [lia|].
    destruct (mapping_offsets n z a b c r) as (E0 & E2 & E4 & E8 & E12 & E16 & El); [done..|].
    rewrite E0, E2, E4, E8, E12, E16, El in H. casec_in H; [done|]. casec_in H; [done|].
    match goal with Hp : position_sequence_valid _ _ = true |- _ =>
      apply front_positions in Hp as (ps & r' & Hps & Hlen & -> & Hr'); [|done|lia|lia] end.
    rewrite <- Hlen, advance_positions in H.
    destruct (entry_loop _ _ _ _ _ _) as [r''|] eqn:Eloop; [|done].
    apply (entry_loop_exact condition_entry) in Eloop as (es & Hes & Hwes & Hces & ->); [|lia|lia|done].
    rewrite Z.sub_0_r in Hes.
    destruct (split_three ps a b c Hlen) as (x & y & w & -> & Hx & Hy & Hw); [lia..|].
    bools. subst z. set (m := mk_mapping x y w es).
    assert (Em : mapping_header n 0 a b c ++ encode_positions (x ++ y ++ w) ++ encode_all encode_token es ++ r'' =
                 encode_mapping m ++ r'').
    { unfold encode_mapping, m. cbn. by rewrite Hes, Hx, Hy, Hw, <- !app_assoc. }
    rewrite Em in *. rewrite length_app, Nat.add_sub, take_app_length in H. casec_in H; [done|].
    injection H as <- <-. exists m. apply Forall_app in Hps as [? [? ?]%Forall_app].
    split; [|split; [by apply not_ascending_spec|done]].
    split; [|split; [cbn; lia|done]].
    repeat (apply Forall_cons; split; [split; [cbn; lia|done]|]). constructor.
  - intros (m & (Hm & Hmax & Hwes & Hces) & Ha & -> & ->).
    repeat apply Forall_cons in Hm as [[? ?] Hm].
    destruct (mapping_offsets (Z.of_nat (length (conditions m))) 0 (Z.of_nat (length (lower m)))
      (Z.of_nat (length (title m))) (Z.of_nat (length (upper m)))
      (encode_positions (lower m ++ title m ++ upper m) ++
       encode_all encode_token (conditions m) ++ rest)) as (E0 & E2 & E4 & E8 & E12 & E16 & El); [lia..|].
    assert (Em : encode_mapping m ++ rest =
      mapping_header (Z.of_nat (length (conditions m))) 0 (Z.of_nat (length (lower m)))
        (Z.of_nat (length (title m))) (Z.of_nat (length (upper m))) ++
      encode_positions (lower m ++ title m ++ upper m) ++
      encode_all encode_token (conditions m) ++ rest)
      by (unfold encode_mapping; by rewrite <- !app_assoc).
    rewrite <- Em in E0, E2, E4, E8, E12, E16, El. rewrite E0, E2, E4, E8, E12, E16, El.
    assert (Hps : Forall position (lower m ++ title m ++ upper m)) by (by repeat apply Forall_app_2).
    replace ((Z.of_nat (length (lower m)) + Z.of_nat (length (title m)) + Z.of_nat (length (upper m))) * 4)
      with (Z.of_nat (length (lower m ++ title m ++ upper m)) * 4) by (rewrite !length_app; lia).
    rewrite positions_front_encoded, advance_positions by done.
    assert (Hloop : forall fuel, (length (encode_all encode_token (conditions m) ++ rest) < fuel)%nat ->
      entry_loop condition_step fuel 0 (Z.of_nat (length (conditions m))) None
        (encode_all encode_token (conditions m) ++ rest) = Some rest).
    { intros fuel Hf. apply (entry_loop_exact condition_entry); [done|lia| |].
      - rewrite Em in Hl. by apply Forall_app in Hl as [_ [_ Hl]%Forall_app].
      - exists (conditions m). split; [lia|done]. }
    rewrite Hloop by lia. rewrite (length_app (encode_mapping m) rest), Nat.add_sub, take_app_length.
    rewrite (proj2 (not_ascending_spec _ _)) by done.
    pose proof (left_nonneg (encode_all encode_token (conditions m) ++ rest)).
    rewrite left_app, length_positions.
    rewrite (proj2 (Z.ltb_ge _ 16)), (proj2 (Z.ltb_ge _ (_ * 4))) by lia. done.
Qed.

(** ** Counted containers *)
Definition encode_counted {A} (enc : A -> list Z) (es : list A) : list Z :=
  match es with
  | [] => []
  | _ => store_le 4 (Z.of_nat (length es)) ++ encode_all enc es
  end.

(** The entries of a container: few enough for their count, well-formed and in
    their order. *)
Definition container {P A} (wf : A -> Prop) (after : P -> A -> Prop) (next : A -> P) (first : P)
    (es : list A) : Prop :=
  Z.of_nat (length es) <= UINT32_MAX /\ Forall wf es /\ chained after next first es.

Lemma encode_counted_cons {A} (enc : A -> list Z) es : es <> [] ->
  encode_counted enc es = store_le 4 (Z.of_nat (length es)) ++ encode_all enc es.
Proof. by destruct es. Qed.

Lemma counted_nil {A} (enc : A -> list Z) es : encode_counted enc es = [] -> es = [].
Proof.
  destruct es as [|a es]; [done|]. intros H. apply (f_equal left) in H.
  rewrite encode_counted_cons, left_app, left_store in H by done.
  pose proof (left_nonneg (encode_all enc (a :: es))). unfold left in *. cbn in H. lia.
Qed.

(** The common part of the container readers: the count and the entries. *)
Lemma counted_loop_exact {P A} {step : P -> list Z -> option (P * list Z)} {enc : A -> list Z}
    {wf after next} (E : Entry step enc wf after next) first l fuel :
  octets l -> 4 <= left l -> read_u32le l <> 0 -> (length l < fuel)%nat ->
  entry_loop step fuel 0 (read_u32le l) first (drop 4 l) = Some [] <->
  exists es, container wf after next first es /\ l = encode_counted enc es.
Proof.
  intros Hl H4 Hnz Hf. destruct (front_u32 l Hl H4) as (v & r & -> & Hv & Hr).
  rewrite read_u32_store in * by done. rewrite drop_store.
  rewrite (entry_loop_exact E) by (rewrite ?length_app in Hf; (done || lia)).
  rewrite Z.sub_0_r. split.
  - intros (es & Hn & Hw & Hc & ->). rewrite app_nil_r. exists es. split; [split; [lia|done]|].
    rewrite encode_counted_cons by (intros ->; cbn in Hn; lia). by rewrite Hn.
  - intros (es & (Hm & Hw & Hc) & Heq). exists es. rewrite app_nil_r.
    destruct (decide (es = [])) as [->|Hne].
    { apply (f_equal left) in Heq. rewrite left_app, left_store in Heq.
      pose proof (left_nonneg r). unfold left in *. cbn in Heq. lia. }
    rewrite encode_counted_cons in Heq by done.
    apply app_inj_1 in Heq as [Hhead ->]; [|by rewrite !length_store_le].
    apply (f_equal load_le) in Hhead. rewrite !load_store_le in Hhead.
    change (256 ^ Z.of_nat 4) with 4294967296 in Hhead. rewrite !Z.mod_small in Hhead by lia. done.
Qed.

Lemma counted_exact {P A} {step : P -> list Z -> option (P * list Z)} {enc : A -> list Z}
    {wf after next} (E : Entry step enc wf after next) first p n l : points p n l ->
  counted_entries step first p n = true <->
  exists es, container wf after next first es /\ l = encode_counted enc es.
Proof.
  intros Hp. unfold counted_entries. cbv zeta.
  destruct (Z.eqb_spec n 0) as [->|Hn].
  { destruct Hp as (_ & ->%left_nil & _). split; [|done]. intros _. exists [].
    split; [split; [cbn; lia|split; [constructor|done]]|done]. }
  destruct p as [m|]; [|by destruct (points_null n l Hp)]. ptrs. destruct Hp as (-> & <- & Ho).
  assert (Hempty : forall es, l = encode_counted enc es -> es <> []).
  { intros es -> ->. by apply Hn. }
  destruct (Z.ltb_spec (left l) 4) as [Hlt|H4].
  { split; [done|]. intros (es & _ & Heq). pose proof (Hempty es Heq) as Hne. exfalso.
    rewrite Heq, encode_counted_cons, left_app, left_store in Hlt by done.
    pose proof (left_nonneg (encode_all enc es)). lia. }
  destruct (Z.eqb_spec (read_u32le l) 0) as [Hz|Hnz].
  { split; [done|]. intros (es & (Hm & _) & Heq). pose proof (Hempty es Heq) as Hne. exfalso.
    rewrite Heq, encode_counted_cons, read_u32_store in Hz by (done || lia).
    destruct es; [done|cbn in Hz; lia]. }
  rewrite <- (counted_loop_exact E first l (S (length l))) by (done || lia).
  destruct (entry_loop _ _ _ _ _ _) as [[|]|]; split; done.
Qed.

Lemma length_encode_tagged es : left (encode_all encode_tagged es) = 8 * Z.of_nat (length es).
Proof.
  induction es as [|e es IH]; [done|]. unfold encode_all in *. cbn [map concat length].
  rewrite left_app, IH. unfold encode_tagged. rewrite left_app, left_store. unfold left. cbn. lia.
Qed.

Lemma tagged_positions_exact p n l : points p n l ->
  tagged_positions_valid p n = true <->
  exists es, container tagged_wf (fun prior e => prior < e.1) fst 0 es /\
    l = encode_counted encode_tagged es.
Proof.
  intros Hp. unfold tagged_positions_valid. cbv zeta.
  destruct (Z.eqb_spec n 0) as [->|Hn].
  { destruct Hp as (_ & ->%left_nil & _). split; [|done]. intros _. exists [].
    split; [split; [cbn; lia|split; [constructor|done]]|done]. }
  destruct p as [m|]; [|by destruct (points_null n l Hp)]. ptrs. destruct Hp as (-> & <- & Ho).
  (* an encoding passes the arithmetic tests *)
  assert (Hsize : forall es, container tagged_wf (fun prior e => prior < e.1) fst 0 es ->
    l = encode_counted encode_tagged es ->
    read_u32le l = Z.of_nat (length es) /\ left l = 4 + 8 * Z.of_nat (length es) /\ es <> []).
  { intros es (Hm & _) ->. assert (es <> []) as Hne by (intros ->; by apply Hn).
    rewrite encode_counted_cons, read_u32_store, left_app, left_store, length_encode_tagged by (done || lia).
    split; [done|]. split; [lia|done]. }
  destruct ((left l <? 4) || negb ((left l - 4) mod 8 =? 0)) eqn:Eg.
  { split; [done|]. intros (es & Hes & Heq). destruct (Hsize es Hes Heq) as (_ & El & Hne).
    rewrite El in Eg. replace (4 + 8 * Z.of_nat (length es) - 4) with (Z.of_nat (length es) * 8) in Eg by lia.
    rewrite Z.mod_mul in Eg by lia. cbn in Eg. rewrite orb_false_r in Eg. bools. lia. }
  destruct ((read_u32le l =? 0) || negb (read_u32le l * 8 + 4 =? left l)) eqn:Ec.
  { split; [done|]. intros (es & Hes & Heq). destruct (Hsize es Hes Heq) as (Er & El & Hne).
    rewrite Er, El in Ec. apply orb_true_iff in Ec as [Ec|Ec]; bools; [|lia].
    destruct es; [done|cbn in Ec; lia]. }
  bools. destruct (front_u32 l Ho) as (v & r & -> & Hv & Hr); [lia|].
  rewrite tagged_loop_tested, <- (counted_loop_exact tagged_entry 0 _ (S (length (store_le 4 v ++ r))))
    by (done || lia || (rewrite drop_store, read_u32_store, left_app, left_store in * by done; lia)).
  split; [|by intros ->]. destruct (entry_loop _ _ _ _ _ _) as [rest|] eqn:El; [|done]. intros _.
  f_equal. apply left_nil. rewrite drop_store in El.
  apply (entry_loop_exact tagged_entry) in El as (es & Hes & _ & _ & ->);
    [|rewrite length_app; lia|rewrite read_u32_store by done; lia|done].
  rewrite read_u32_store, left_app, left_store, left_app, length_encode_tagged in * by done. lia.
Qed.

(** ** Rationals *)
Definition digits (ds : list Z) : Prop := Forall (fun c => is_digit c = true) ds.
(** A number without leading zeroes. *)
Definition canonical (ds : list Z) : Prop :=
  ds <> [] /\ digits ds /\ (1 < left ds -> ds !!! 0%nat <> CHAR_0).

Record rational := mk_rational {
  negative : bool; numerator : list Z; denominator : option (list Z) }.

Definition rational_wf (q : rational) : Prop :=
  canonical (numerator q) /\
  match denominator q with Some ds => canonical ds /\ ds <> [CHAR_0] | None => True end.

Definition encode_rational (q : rational) : list Z :=
  (if negative q then [CHAR_HYPHEN] else []) ++ numerator q ++
  match denominator q with Some ds => CHAR_SLASH :: ds | None => [] end.

Lemma skip_digits_split l :
  l = (skip_digits l).1 ++ (skip_digits l).2 /\ digits (skip_digits l).1.
Proof.
  unfold digits. induction l as [|c l [IH1 IH2]]; [split; [done|constructor]|].
  cbn [skip_digits]. destruct (is_digit c) eqn:Ec; [|split; [done|constructor]].
  destruct (skip_digits l) as [ds r]. cbn in *. split; [by rewrite IH1|by constructor].
Qed.

Lemma skip_digits_app ds r : digits ds ->
  match r with [] => True | c :: _ => is_digit c = false end -> skip_digits (ds ++ r) = (ds, r).
Proof.
  intros Hds Hr. induction Hds as [|c ds Hc Hds IH]; cbn [app skip_digits].
  - destruct r as [|c r]; [done|]. cbn. by rewrite Hr.
  - by rewrite Hc, IH.
Qed.

Lemma canonical_test ds : digits ds ->
  (left ds =? 0) || ((1 <? left ds) && (ds !!! 0%nat =? CHAR_0)) = false <-> canonical ds.
Proof.
  intros Hds. unfold canonical. rewrite orb_false_iff, Z.eqb_neq, left_nil, andb_false_iff, Z.ltb_ge, Z.eqb_neq.
  split; [intros [H1 H2]; split; [done|]; split; [done|lia]|].
  intros (H1 & _ & H2). split; [done|]. destruct (Z.le_gt_cases (left ds) 1); [by left|right; apply H2; lia].
Qed.

(** The part behind the sign. *)
Lemma unsigned_exact l :
  (let '(num, rest) := skip_digits l in
   return_when (left num =? 0) || ((1 <? left num) && (num !!! 0%nat =? CHAR_0)) with false ;;
   return_when left rest =? 0 with true ;;
   return_when negb (rest !!! 0%nat =? CHAR_SLASH) with false ;;
   let '(den, rest) := skip_digits (drop 1 rest) in
   (left rest =? 0) && negb (left den =? 0) && negb ((1 <? left den) && (den !!! 0%nat =? CHAR_0)) &&
   negb ((left den =? 1) && (den !!! 0%nat =? CHAR_0))) = true <->
  exists num den, rational_wf (mk_rational false num den) /\
    l = encode_rational (mk_rational false num den).
Proof.
  assert (Hslash : is_digit CHAR_SLASH = false) by done. unfold rational_wf, encode_rational. cbn [negative numerator denominator app]. split.
  - destruct (skip_digits_split l) as [El Hd]. destruct (skip_digits l) as [num rest]. cbn [fst snd] in *.
    intros H. destruct (_ || _) eqn:Hguard in H; [done|]. apply canonical_test in Hguard; [|done].
    destruct (Z.eqb_spec (left rest) 0) as [->%left_nil|Hne].
    { exists num, None. split; [done|]. done. }
    destruct rest as [|c rest]; [done|]. cbn [lookup_total list_lookup_total drop] in H.
    destruct (Z.eqb_spec c CHAR_SLASH) as [->|]; [|done]. cbn [negb] in H. rewrite drop_0 in H.
    destruct (skip_digits_split rest) as [Er Hd']. destruct (skip_digits rest) as [den r]. cbn [fst snd] in *.
    rewrite !andb_true_iff, !negb_true_iff in H. destruct H as [[[H1 H2] H3] H4].
    apply Z.eqb_eq, left_nil in H1 as ->. rewrite app_nil_r in Er. subst rest.
    exists num, (Some den). split; [split; [done|]|done]. split.
    + apply canonical_test; [done|]. by rewrite H2, H3.
    + intros ->. done.
  - intros (num & den & [Hn Hden] & ->). pose proof (proj1 (proj2 Hn)) as Hd.
    rewrite skip_digits_app by (done || by destruct den).
    rewrite (proj2 (canonical_test num Hd) Hn). destruct den as [ds|]; [|done].
    destruct Hden as [Hc Hz]. pose proof (proj1 (proj2 Hc)) as Hds.
    rewrite left_cons. pose proof (left_nonneg ds).
    rewrite (proj2 (Z.eqb_neq _ 0)) by lia. cbn [lookup_total list_lookup_total drop Z.eqb Pos.eqb negb].
    rewrite drop_0, <- (app_nil_r ds), skip_digits_app by done.
    apply canonical_test in Hc; [|done]. apply orb_false_iff in Hc as [H1 H2]. rewrite H1, H2. cbn.
    destruct ds as [|d [|d' ds]]; [done| |]; rewrite !left_cons in *.
    + cbn in Hz |- *. destruct (Z.eqb_spec d CHAR_0) as [->|]; [done|by rewrite andb_false_r].
    + pose proof (left_nonneg ds). rewrite (proj2 (Z.eqb_neq (1 + (1 + left ds)) 1)) by lia. done.
Qed.

Lemma digit_octet c : is_digit c = true -> is_u8 c /\ c <> CHAR_HYPHEN.
Proof. unfold is_digit. rewrite andb_true_iff, !Z.leb_le. lia. Qed.

Lemma ascii_rational_exact p n l : points p n l ->
  ascii_rational_valid p n = true <->
  l = [] \/ exists q, rational_wf q /\ l = encode_rational q.
Proof.
  intros Hp. unfold ascii_rational_valid. cbv zeta.
  destruct (Z.eqb_spec n 0) as [->|Hn].
  { destruct Hp as (_ & ->%left_nil & _). split; [by left|done]. }
  destruct p as [m|]; [|by destruct (points_null n l Hp)]. ptrs. destruct Hp as (-> & <- & _).
  rewrite unsigned_exact. split.
  - intros (num & den & Hw & Heq). right. destruct l as [|c l]; [done|].
    cbn [lookup_total list_lookup_total drop] in Heq. destruct (Z.eqb_spec c CHAR_HYPHEN) as [->|].
    + rewrite drop_0 in Heq. subst l. exists (mk_rational true num den). done.
    + rewrite Heq. by exists (mk_rational false num den).
  - intros [->|([neg num den] & Hw & ->)]; [done|]. exists num, den. split; [done|].
    destruct neg; [done|]. unfold encode_rational. cbn [negative numerator denominator app].
    destruct Hw as [(Hne & Hd & _) _]. destruct num as [|c num]; [done|]. cbn [app lookup_total list_lookup_total].
    apply Forall_cons in Hd as [Hc _]. apply digit_octet in Hc as [_ Hc].
    by rewrite (proj2 (Z.eqb_neq c CHAR_HYPHEN)).
Qed.

(** ** Sequences behind a tag *)
Definition encode_tagged_sequence (e : list Z * list Z) : list Z :=
  store_le 2 (left e.1) ++ store_le 2 0 ++ store_le 4 (Z.of_nat (length e.2)) ++ e.1 ++
  encode_positions e.2.
Definition tagged_sequence_wf (e : list Z * list Z) : Prop :=
  token_wf e.1 /\ e.2 <> [] /\ Z.of_nat (length e.2) <= UINT32_MAX /\ Forall position e.2.

Lemma sequence_offsets v z c rest : is_u16 v -> is_u16 z -> is_u32 c ->
  let l := store_le 2 v ++ store_le 2 z ++ store_le 4 c ++ rest in
  read_u16le l = v /\ read_u16le (drop 2 l) = z /\ read_u32le (drop 4 l) = c /\ drop 8 l = rest /\
  left l = 8 + left rest.
Proof.
  intros Hv Hz Hc. cbv zeta. rewrite !left_app, !left_store.
  pose proof (fun x => read_u16_store v x Hv) as Rv. pose proof (fun x => read_u16_store z x Hz) as Rz.
  pose proof (fun x => read_u32_store c x Hc) as Rc.
  split_word 2%nat v. split_word 2%nat z. split_word 4%nat c.
  split; [apply Rv|]. split; [apply Rz|]. split; [apply Rc|]. split; [reflexivity|lia].
Qed.

Lemma tagged_sequence_exact p n l : points p n l ->
  tagged_position_sequence_valid p n = true <->
  l = [] \/ exists e, tagged_sequence_wf e /\ l = encode_tagged_sequence e.
Proof.
  intros Hp. unfold tagged_position_sequence_valid. cbv zeta.
  destruct (Z.eqb_spec n 0) as [->|Hn].
  { destruct Hp as (_ & ->%left_nil & _). split; [by left|done]. }
  destruct p as [m|]; [|by destruct (points_null n l Hp)]. ptrs. destruct Hp as (-> & <- & Ho).
  split.
  - intros H. destruct (Z.ltb_spec (left l) 8) as [|Hguard]; [done|]. right.
    destruct (front_u16 l Ho) as (v & r1 & -> & Hv & H1); [lia|]. rewrite left_app, left_store in Hguard.
    destruct (front_u16 r1 H1) as (z & r2 & -> & Hz & H2); [lia|]. rewrite left_app, left_store in Hguard.
    destruct (front_u32 r2 H2) as (c & r & -> & Hc & Hr); [lia|].
    destruct (sequence_offsets v z c r) as (E0 & E2 & E4 & E8 & El); [done..|].
    rewrite E0, E2, E4, E8, El, !andb_true_iff, !negb_true_iff, !Z.eqb_eq, !Z.eqb_neq in H.
    destruct H as [[[[[-> Hv0] Hc0] Hreq] Ht] Hps].
    destruct (front_string v r Hr) as (t & r' & -> & <- & Hot & Hr'); [lia|].
    rewrite token_front, advance_app in * by done. rewrite left_app in Hreq.
    apply front_positions in Hps as (ps & r'' & Hps & Hlen & -> & _); [|done|lia|lia].
    rewrite left_app, length_positions in Hreq. assert (r'' = []) as -> by (apply left_nil; lia).
    exists (t, ps). unfold encode_tagged_sequence. cbn. rewrite Hlen, app_nil_r. split; [|done].
    split; [split; [done|cbn; lia]|]. cbn. split; [by intros ->|]. split; [lia|done].
  - intros [->|([t ps] & ([Ht Hmt] & Hne & Hmax & Hps) & ->)]; [done|]. cbn in *.
    pose proof (token_left true t Ht). unfold encode_tagged_sequence. cbn [fst snd].
    destruct (sequence_offsets (left t) 0 (Z.of_nat (length ps)) (t ++ encode_positions ps))
      as (E0 & E2 & E4 & E8 & El); [lia..|].
    rewrite E0, E2, E4, E8, El, left_app, length_positions, advance_app.
    rewrite (proj2 (token_front t _ true (token_octets _ _ Ht))) by done.
    rewrite <- (app_nil_r (encode_positions ps)), positions_front_encoded by done.
    assert (length ps <> 0)%nat by (by destruct ps).
    rewrite (proj2 (Z.ltb_ge _ 8)), (proj2 (Z.eqb_neq (left t) 0)),
      (proj2 (Z.eqb_neq (Z.of_nat (length ps)) 0)), (proj2 (Z.eqb_eq _ (8 + _))) by lia. done.
Qed.

(** ** Payloads *)
Inductive payload_value :=
| ascii_property (t : list Z)
| unsigned_byte (b : Z)
| bracket (value : option (Z * Z))
| optional_position (value : option Z)
| positions (ps : list Z)
| tagged_sequence (value : option (list Z * list Z))
| ascii_rational (value : option rational)
| simple_mappings (es : list (Z * Z))
| full_mappings (es : list case_mapping)
| foldings (es : list (Z * list Z))
| token_set (es : list (list Z))
| token_pairs (es : list (list Z * list Z))
| boolean (b : bool)
| normalizations (es : list (list Z * normalization_datum)).

Definition value_kind (v : payload_value) : Z :=
  match v with
  | ascii_property _ => LAPLACE_UNICODE_PAYLOAD_ASCII_PROPERTY
  | unsigned_byte _ => LAPLACE_UNICODE_PAYLOAD_U8
  | bracket _ => LAPLACE_UNICODE_PAYLOAD_OPTIONAL_POSITION_AND_ASCII_TYPE
  | optional_position _ => LAPLACE_UNICODE_PAYLOAD_OPTIONAL_POSITION
  | positions _ => LAPLACE_UNICODE_PAYLOAD_POSITION_SEQUENCE
  | tagged_sequence _ => LAPLACE_UNICODE_PAYLOAD_TAGGED_POSITION_SEQUENCE
  | ascii_rational _ => LAPLACE_UNICODE_PAYLOAD_ASCII_RATIONAL
  | simple_mappings _ => LAPLACE_UNICODE_PAYLOAD_SORTED_TAGGED_POSITIONS
  | full_mappings _ => LAPLACE_UNICODE_PAYLOAD_FULL_CASE_MAPPINGS
  | foldings _ => LAPLACE_UNICODE_PAYLOAD_CASE_FOLDING
  | token_set _ => LAPLACE_UNICODE_PAYLOAD_SORTED_ASCII_SET
  | token_pairs _ => LAPLACE_UNICODE_PAYLOAD_SORTED_ASCII_KEY_VALUE_SET
  | boolean _ => LAPLACE_UNICODE_PAYLOAD_BOOLEAN
  | normalizations _ => LAPLACE_UNICODE_PAYLOAD_NORMALIZATION_PROPERTIES
  end.

Definition value_wf (v : payload_value) : Prop :=
  match v with
  | ascii_property t => token true t
  | unsigned_byte b => is_u8 b
  | bracket (Some (p, c)) => position p /\ ascii_char false c = true
  | optional_position (Some p) => position p
  | positions ps => Forall position ps
  | tagged_sequence (Some e) => tagged_sequence_wf e
  | ascii_rational (Some q) => rational_wf q
  | bracket None | optional_position None | tagged_sequence None | ascii_rational None => True
  | simple_mappings es => container tagged_wf (fun prior e => prior < e.1) fst 0 es
  | full_mappings es =>
      container mapping_wf (fun prior m => ascends prior (encode_mapping m))
        (fun m => Some (encode_mapping m)) None es
  | foldings es => container folding_wf (fun prior e => prior < e.1) fst 0 es
  | token_set es => container token_wf ascends Some None es
  | token_pairs es =>
      container pair_wf (fun prior e => ascends prior e.1) (fun e => Some e.1) None es
  | boolean _ => True
  | normalizations es =>
      container normalization_wf (fun prior e => ascends prior e.1) (fun e => Some e.1) None es
  end.

Definition encode_value (v : payload_value) : list Z :=
  match v with
  | ascii_property t => t
  | unsigned_byte b => [b]
  | bracket (Some (p, c)) => store_le 4 p ++ [c]
  | optional_position (Some p) => store_le 4 p
  | positions ps => encode_positions ps
  | tagged_sequence (Some e) => encode_tagged_sequence e
  | ascii_rational (Some q) => encode_rational q
  | bracket None | optional_position None | tagged_sequence None | ascii_rational None => []
  | simple_mappings es => encode_counted encode_tagged es
  | full_mappings es => encode_counted encode_mapping es
  | foldings es => encode_counted encode_folding es
  | token_set es => encode_counted encode_token es
  | token_pairs es => encode_counted encode_pair es
  | boolean b => [if b then 1 else 0]
  | normalizations es => encode_counted encode_normalization es
  end.

(** The bytes [l] are the payload of some value of a kind. *)
Definition payload_of (kind : Z) (l : list Z) : Prop :=
  exists v, value_kind v = kind /\ value_wf v /\ l = encode_value v.

(** A field whose pointer is NULL or points at its payload. *)
Definition field_content (f : laplace_unicode_atom_field) : list Z :=
  cells (payload f) (payload_bytes f).
Definition field_wf (f : laplace_unicode_atom_field) : Prop :=
  is_u32 (payload_bytes f) /\ octets (field_content f) /\
  match payload f with Some m => payload_bytes f <= left m | None => True end.

(** One constructor per kind. *)
Lemma payload_of_kind {A} (kind : Z) (inject : A -> payload_value) l :
  (forall v, value_kind v = kind <-> exists a, v = inject a) ->
  payload_of kind l <-> exists a, value_wf (inject a) /\ l = encode_value (inject a).
Proof.
  intros Hk. unfold payload_of. split.
  - intros (v & [a ->]%Hk & Hw & ->). eauto.
  - intros (a & Hw & ->). exists (inject a). split; [apply Hk; eauto|done].
Qed.

Lemma option_exists {A} (P : option A -> Prop) : (exists a, P a) <-> P None \/ exists a, P (Some a).
Proof. split; [intros [[a|] H]; eauto|intros [H|[a H]]; eauto]. Qed.

#[local] Ltac of_kind c :=
  rewrite (payload_of_kind _ c) by
    (intros []; (cbn; split;
     [intros H; first [discriminate H | by eauto]
     |intros [? H]; first [discriminate H | reflexivity]]));
  cbn [value_wf encode_value].

(** A position, alone or with a character behind it. *)
Lemma one_position m l n : points (Some m) n l -> 4 <= n ->
  exists v rest, l = store_le 4 v ++ rest /\ m = l ++ drop (length l) m /\ is_u32 v /\ octets rest /\
    n = 4 + left rest /\ read_u32le m = v.
Proof.
  intros (Hc & <- & Ho) Hn. unfold cells in Hc. cbn in Hc.
  destruct (front_u32 l Ho Hn) as (v & r & El & Hv & Hr). exists v, r.
  assert (Hm : m = l ++ drop (length l) m).
  { unfold left in Hc. rewrite Nat2Z.id in Hc. rewrite <- Hc at 1. by rewrite take_drop. }
  split; [done|]. split; [done|]. split; [done|]. split; [done|].
  split; [rewrite El, left_app, left_store; lia|]. rewrite Hm, El, <- app_assoc. by apply read_u32_store.
Qed.

Lemma optional_position_exact p n l : points p n l ->
  (n =? 0) || ((n =? 4) && (read_u32le (default [] p) <? LAPLACE_UNICODE_ROOT_POPULATION)) = true <->
  l = [] \/ exists q, position q /\ l = store_le 4 q.
Proof.
  intros Hp. destruct (Z.eqb_spec n 0) as [->|Hn].
  { destruct Hp as (_ & ->%left_nil & _). split; [by left|done]. }
  assert (Hne : l <> []) by (intros ->; destruct Hp as (_ & <- & _); by apply Hn).
  cbn [orb]. destruct (Z.eqb_spec n 4) as [->|H4]; cbn [andb].
  - destruct p as [m|]; [|by destruct (points_null _ l Hp)].
    destruct (one_position m l 4 Hp) as (v & r & -> & _ & Hv & _ & Hr & E); [lia|].
    assert (r = []) as -> by (apply left_nil; lia). rewrite app_nil_r in *. change (default [] (Some m)) with m.
    rewrite E, Z.ltb_lt.
    unfold position. split; [intros H; right; exists v; split; [lia|done]|].
    intros [?|(q & Hq & Eq)]; [done|]. apply (f_equal read_u32le) in Eq.
    rewrite <- (app_nil_r (store_le 4 v)), <- (app_nil_r (store_le 4 q)), !read_u32_store in Eq by lia. lia.
  - split; [done|]. intros [?|(q & _ & ->)]; [done|]. destruct Hp as (_ & <- & _).
    by rewrite left_store in H4.
Qed.

Lemma bracket_exact p n l : points p n l ->
  (n =? 0) || ((n =? 5) && (read_u32le (default [] p) <? LAPLACE_UNICODE_ROOT_POPULATION) &&
               ascii_token_valid (Some (drop 4 (default [] p))) 1 false) = true <->
  l = [] \/ exists e, (position e.1 /\ ascii_char false e.2 = true) /\ l = store_le 4 e.1 ++ [e.2].
Proof.
  intros Hp. destruct (Z.eqb_spec n 0) as [->|Hn].
  { destruct Hp as (_ & ->%left_nil & _). split; [by left|done]. }
  assert (Hne : l <> []) by (intros ->; destruct Hp as (_ & <- & _); by apply Hn).
  cbn [orb]. destruct (Z.eqb_spec n 5) as [->|H5]; cbn [andb].
  - destruct p as [m|]; [|by destruct (points_null _ l Hp)].
    destruct (one_position m l 5 Hp) as (v & r & -> & Em & Hv & Hr & Hlen & E); [lia|].
    destruct r as [|c [|]]; try (unfold left in Hlen; cbn in Hlen; lia).
    change (default [] (Some m)) with m. rewrite E. rewrite Em, <- app_assoc, drop_store.
    change 1 with (left [c]) at 1. rewrite andb_true_iff, token_front, Z.ltb_lt by done.
    unfold position, token. split.
    + intros [Hlt [_ Hc]]. apply Forall_cons in Hc as [Hc _]. right. exists (v, c). cbn. split; [split; [lia|done]|done].
    + intros [?|([q d] & [Hq Hd] & Eq)]; [done|]. cbn in *.
      apply app_inj_1 in Eq as [Eq [= ->]]; [|by rewrite !length_store_le].
      apply (f_equal read_u32le) in Eq.
      rewrite <- (app_nil_r (store_le 4 v)), <- (app_nil_r (store_le 4 q)), !read_u32_store in Eq by lia.
      split; [lia|]. split; [done|by constructor].
  - split; [done|]. intros [?|(e & _ & ->)]; [done|]. destruct Hp as (_ & <- & _).
    by rewrite left_app, left_store in H5.
Qed.

Lemma single_byte p n l : points p n l ->
  n = 1 <-> exists b, is_u8 b /\ l = [b] /\ default [] p !!! 0%nat = b.
Proof.
  intros Hp. split.
  - intros ->. destruct p as [m|]; [|by destruct (points_null _ l Hp)]. destruct Hp as (Hc & Hl & Ho).
    destruct l as [|b [|]]; try (unfold left in Hl; cbn in Hl; lia). apply Forall_cons in Ho as [Hb _].
    exists b. split; [done|]. split; [done|]. unfold cells in Hc. cbn in *. destruct m; [done|]. by injection Hc as ->.
  - intros (b & _ & -> & _). by destruct Hp as (_ & <- & _).
Qed.

Lemma field_payload_exact f : field_wf f -> (payload f = None -> payload_bytes f = 0) ->
  field_payload_valid f = true <-> payload_of (payload_kind f) (field_content f).
Proof.
  intros (Hn & Ho & Hm) Hnull.
  assert (Hp : points (payload f) (payload_bytes f) (field_content f)).
  { split; [done|]. split; [|done]. unfold field_content in *. destruct (payload f) as [m|].
    - unfold cells, left in *. cbn. rewrite length_take. lia.
    - rewrite Hnull by done. done. }
  unfold field_payload_valid. cbv zeta. set (l := field_content f) in *. clearbody l.
  set (k := payload_kind f). clearbody k.
  destruct (Z.eqb_spec k 1) as [->|]; [of_kind ascii_property; rewrite (token_exact _ _ l) by done; naive_solver|].
  destruct (Z.eqb_spec k 2) as [->|].
  { of_kind unsigned_byte. rewrite Z.eqb_eq, (single_byte _ _ l) by done. split; [naive_solver|].
    intros (b & Hb & ->). destruct (proj1 (single_byte _ _ _ Hp)) as (b' & ? & [= ->] & ?); [by destruct Hp as (_ & <- & _)|eauto]. }
  destruct (Z.eqb_spec k 3) as [->|].
  { of_kind bracket. rewrite (bracket_exact _ _ l) by done. rewrite option_exists.
    split; [intros [->|([p c] & H & ->)]; [by left|right; by exists (p, c)]|
            intros [[_ ->]|([p c] & H & ->)]; [by left|right; by exists (p, c)]]. }
  destruct (Z.eqb_spec k 4) as [->|].
  { of_kind optional_position. rewrite (optional_position_exact _ _ l) by done. rewrite option_exists. naive_solver. }
  destruct (Z.eqb_spec k 5) as [->|]; [of_kind positions; by apply positions_exact|].
  destruct (Z.eqb_spec k 6) as [->|].
  { of_kind tagged_sequence. rewrite (tagged_sequence_exact _ _ l) by done. rewrite option_exists. naive_solver. }
  destruct (Z.eqb_spec k 7) as [->|].
  { of_kind ascii_rational. rewrite (ascii_rational_exact _ _ l) by done. rewrite option_exists. naive_solver. }
  destruct (Z.eqb_spec k 8) as [->|]; [of_kind simple_mappings; by apply tagged_positions_exact|].
  destruct (Z.eqb_spec k 9) as [->|]; [of_kind full_mappings; by apply (counted_exact mapping_entry)|].
  destruct (Z.eqb_spec k 10) as [->|]; [of_kind foldings; by apply (counted_exact folding_entry)|].
  destruct (Z.eqb_spec k 11) as [->|]; [of_kind token_set; by apply (counted_exact set_entry)|].
  destruct (Z.eqb_spec k 12) as [->|]; [of_kind token_pairs; by apply (counted_exact pair_entry)|].
  destruct (Z.eqb_spec k 13) as [->|].
  { of_kind boolean. rewrite andb_true_iff, Z.eqb_eq, Z.leb_le, (single_byte _ _ l) by done. split.
    - intros [(b & Hb & -> & Eb) Hle]. rewrite Eb in Hle.
      exists (b =? 1). split; [done|]. destruct (Z.eqb_spec b 1) as [->|]; [done|]. f_equal. lia.
    - intros (b & _ & ->). assert (payload_bytes f = 1) as E by (by destruct Hp as (_ & <- & _)).
      destruct (proj1 (single_byte _ _ _ Hp) E) as (b' & Hb' & [= <-] & Eb).
      split; [exists (if b then 1 else 0); split; [destruct b; lia|done]|]. rewrite Eb. destruct b; lia. }
  destruct (Z.eqb_spec k 14) as [->|]; [of_kind normalizations; by apply (counted_exact normalization_entry)|].
  split; [done|]. intros ([] & Hk & _); cbn in Hk; congruence.
Qed.

(** ** What a field accepts *)
(** The field of the place [i]. *)
Definition field_good (i : nat) (f : laplace_unicode_atom_field) : Prop :=
  field_id f = Z.of_nat i + 1 /\ payload_kind f = expected_payload_kind !!! i /\ field_flags f = 0 /\
  (payload f = None -> payload_bytes f = 0) /\
  payload_of (expected_payload_kind !!! i) (field_content f).

Lemma field_shape_good f i : field_wf f -> field_shape_valid f i = true <-> field_good i f.
Proof.
  intros Hf. unfold field_shape_valid, field_good.
  destruct (Z.eqb_spec (field_id f) (Z.of_nat i + 1)) as [Hid|Hid]; cbn [negb orb]; [|naive_solver].
  destruct (Z.eqb_spec (payload_kind f) (expected_payload_kind !!! i)) as [Hk|Hk]; cbn [negb orb]; [|naive_solver].
  destruct (Z.eqb_spec (field_flags f) 0) as [Hz|Hz]; cbn [negb orb]; [|naive_solver].
  assert (Hnull : is_null (payload f) && negb (payload_bytes f =? 0) = false <->
                  (payload f = None -> payload_bytes f = 0)).
  { destruct (payload f) as [m|]; cbn; [by split|]. rewrite negb_false_iff, Z.eqb_eq. naive_solver. }
  destruct (is_null (payload f) && _).
  - split; [done|]. intros (_ & _ & _ & H%Hnull & _). done.
  - rewrite field_payload_exact by (done || by apply Hnull). rewrite Hk. split; [|tauto].
    intros H. repeat split; try done. by apply Hnull.
Qed.

(** ** The grammars of the contract
    [contracts/unicode-atom-record.json] is narrower than the code in two places:
    the type behind a bracket's position is one ASCII letter, and the integers of
    a rational are canonical, so that zero has no sign. *)
Definition letter (c : Z) : Prop :=
  CHAR_UPPER_A <= c <= CHAR_UPPER_Z \/ CHAR_LOWER_A <= c <= CHAR_LOWER_Z.
Definition negative_zero (q : rational) : Prop := negative q = true /\ numerator q = [CHAR_0].

Definition contract_value (v : payload_value) : Prop :=
  value_wf v /\
  match v with
  | bracket (Some (_, c)) => letter c
  | ascii_rational (Some q) => ~ negative_zero q
  | _ => True
  end.

(** The bytes [l] are the payload that the contract describes. *)
Definition contract_payload (kind : Z) (l : list Z) : Prop :=
  exists v, value_kind v = kind /\ contract_value v /\ l = encode_value v.

(** The payloads that the code takes beyond the contract: a bracket whose type is
    a digit or the underscore, and a rational that starts with minus zero. *)
Definition tolerated_payload (kind : Z) (l : list Z) : Prop :=
  (kind = LAPLACE_UNICODE_PAYLOAD_OPTIONAL_POSITION_AND_ASCII_TYPE /\
   exists p c, position p /\ (is_digit c = true \/ c = CHAR_UNDERSCORE) /\ l = store_le 4 p ++ [c]) \/
  (kind = LAPLACE_UNICODE_PAYLOAD_ASCII_RATIONAL /\
   exists q, rational_wf q /\ negative_zero q /\ l = encode_rational q).

Lemma ascii_char_cases c :
  ascii_char false c = true <-> letter c \/ is_digit c = true \/ c = CHAR_UNDERSCORE.
Proof.
  unfold ascii_char, letter, is_digit. cbn [andb]. rewrite orb_false_r.
  rewrite !orb_true_iff, !andb_true_iff, !Z.leb_le, Z.eqb_eq. tauto.
Qed.

Lemma payload_cases kind l :
  payload_of kind l <-> contract_payload kind l \/ tolerated_payload kind l.
Proof.
  split.
  - intros (v & Hk & Hw & ->).
    destruct v as [t|b|[[p c]|]|o|ps|o|[q|]|es|es|es|es|es|b|es];
      try (left; eexists; split; [exact Hk|split; [split; [exact Hw|exact I]|reflexivity]]).
    + destruct Hw as [Hp [Hl|Hc]%ascii_char_cases].
      * left. exists (bracket (Some (p, c))). split; [done|]. split; [|done]. split; [|done].
        split; [done|]. apply ascii_char_cases. by left.
      * right. left. split; [by rewrite <- Hk|]. by exists p, c.
    + destruct (decide (negative q = true /\ numerator q = [CHAR_0])) as [Hz|Hz].
      * right. right. split; [by rewrite <- Hk|]. by exists q.
      * left. by exists (ascii_rational (Some q)).
  - intros [(v & Hk & [Hw _] & ->)|[(-> & p & c & Hp & Hc & ->)|(-> & q & Hq & _ & ->)]].
    + by exists v.
    + exists (bracket (Some (p, c))). split; [done|]. split; [|done]. split; [done|].
      apply ascii_char_cases. by right.
    + by exists (ascii_rational (Some q)).
Qed.

Lemma negative_zero_encoding q r :
  rational_wf q -> rational_wf r -> encode_rational q = encode_rational r ->
  negative_zero r -> negative_zero q.
Proof.
  intros [(Hne & Hd & Hlead) _] _ E [Hneg Hnum]. unfold encode_rational in E.
  rewrite Hneg, Hnum in E. destruct (numerator q) as [|c cs] eqn:En; [done|].
  apply Forall_cons in Hd as [Hc _]. apply digit_octet in Hc as [_ Hc].
  destruct (negative q) eqn:Eneg; cbn [app] in E; [|by injection E].
  injection E as -> E. split; [done|]. rewrite En. destruct cs as [|d cs]; [done|]. exfalso.
  apply Hlead; [|done]. rewrite !left_cons. pose proof (left_nonneg cs). lia.
Qed.

Lemma payload_exclusive kind l : contract_payload kind l -> ~ tolerated_payload kind l.
Proof.
  intros (v & Hk & [Hw Hc] & ->) [(-> & p & c & _ & Htype & E)|(-> & q & Hq & Hz & E)].
  - destruct v as [| |[[p' c']|]| | | | | | | | | | |]; try discriminate Hk; cbn [encode_value] in E.
    + apply app_inj_2 in E as [_ [= ->]]; [|done]. unfold letter, is_digit in *.
      rewrite andb_true_iff, !Z.leb_le in Htype. lia.
    + by apply (f_equal length) in E; rewrite length_app, length_store_le in E.
  - destruct v as [| | | | | |[r|]| | | | | | |]; try discriminate Hk; cbn [encode_value] in E.
    + by apply Hc, (negative_zero_encoding r q).
    + unfold encode_rational in E. destruct Hz as [Hneg _]. by rewrite Hneg in E.
Qed.

(** C31: a field is accepted in its place exactly when it carries the identifier
    and the payload kind of that place and no flags, is not a NULL pointer to
    some bytes, and has a payload of the kind.  Such a payload either is what
    [contracts/unicode-atom-record.json] describes, the encoding of a value of
    the kind (tokens of the alphabet, positions of the code space, canonical
    rationals, containers whose entries are strictly in order, whose counts are
    exact and whose last entry ends the payload), or one of the two things the
    code takes beyond the contract, which are never also described by it: a
    paired bracket whose type is a digit or the underscore instead of a letter,
    and a rational whose integer is minus zero. *)
Theorem field_shape_exact f i : field_wf f -> (i < LAPLACE_UNICODE_ATOM_FIELD_COUNT)%nat ->
  let kind := expected_payload_kind !!! i in
  (field_shape_valid f i = true <->
   field_id f = Z.of_nat i + 1 /\ payload_kind f = kind /\ field_flags f = 0 /\
   (payload f = None -> payload_bytes f = 0) /\
   (contract_payload kind (field_content f) \/ tolerated_payload kind (field_content f))) /\
  ~ (contract_payload kind (field_content f) /\ tolerated_payload kind (field_content f)).
Proof.
  intros Hf _. cbn zeta. split.
  - rewrite field_shape_good by done. unfold field_good. by rewrite payload_cases.
  - intros [Hc Ht]. by apply payload_exclusive in Hc.
Qed.

(** The case folding of U+0041 in its place, the eleventh. *)
Definition sample_folding : list Z :=
  [1; 0; 0; 0; CHAR_UPPER_C; 0; 0; 0; 1; 0; 0; 0; 97; 0; 0; 0].
Definition sample_field : laplace_unicode_atom_field :=
  mk_field (Some sample_folding) 16 11 LAPLACE_UNICODE_PAYLOAD_CASE_FOLDING 0.

Lemma sample_field_wf : field_wf sample_field.
Proof. split; [cbn; lia|]. split; [check|]. vm_compute. discriminate. Qed.

Lemma sample_place : (10 < LAPLACE_UNICODE_ATOM_FIELD_COUNT)%nat.
Proof. lia. Qed.

(** The folding is in the contract. *)
Lemma field_shape_exact_witness :
  field_shape_valid sample_field 10 = true /\
  contract_payload LAPLACE_UNICODE_PAYLOAD_CASE_FOLDING sample_folding.
Proof.
  pose proof (field_shape_exact sample_field 10 sample_field_wf sample_place) as [H _].
  assert (E : field_shape_valid sample_field 10 = true) by (vm_compute; reflexivity).
  split; [exact E|]. apply proj1 in H. destruct (H E) as (_ & _ & _ & _ & [Hc|[[Hk _]|[Hk _]]]).
  - exact Hc.
  - vm_compute in Hk. discriminate Hk.
  - vm_compute in Hk. discriminate Hk.
Defined.

(** A decimal digit is accepted as the type of a paired bracket, and a negative
    zero as a rational. *)
Example digit_bracket_accepted :
  field_payload_valid (mk_field (Some [40; 0; 0; 0; CHAR_0]) 5 4
    LAPLACE_UNICODE_PAYLOAD_OPTIONAL_POSITION_AND_ASCII_TYPE 0) = true.
Proof. vm_compute. reflexivity. Qed.

Example negative_zero_accepted :
  field_payload_valid (mk_field (Some [CHAR_HYPHEN; CHAR_0]) 2 8
    LAPLACE_UNICODE_PAYLOAD_ASCII_RATIONAL 0) = true.
Proof. vm_compute. reflexivity. Qed.
