(* ===== verification/UnicodeNumeric.v ===== *)
(** * Unicode coordinates: quantization and the Hilbert key

    Models the end of [engine/src/unicode_root.c]: the exact rounding of a
    coordinate in [-1, 1] to 32 bits, by products in 96 bits, and the 128-bit
    key of four such coordinates on the four-dimensional Hilbert curve.  The
    loops of the curve run over the powers 2^31 ... 2^1 and the bits 31 ... 0. *)
From stdpp Require Import prelude.
From Stdlib Require Import ZArith Lia SpecFloat.
From S2P Require Import Prelude Bytes Trajectory Binary64 Geometry PersistenceFrames UnicodeFields.

Abbreviation LAPLACE_UNICODE_HILBERT_KEY_BYTES := 16 (only parsing).

(** ** Quantization *)
Record laplace_u96 := mk_u96 { low : Z; high : Z }.

Definition multiply_u53_u32 (left right : Z) : laplace_u96 :=
  let low_product := u64 (Z.land left 0xffffffff * right) in
  let high_product := u64 (Z.shiftr left 32 * right) in
  let shifted := shl64 high_product 32 in
  let low := u64 (low_product + shifted) in
  mk_u96 low (u32 (u32 (Z.shiftr high_product 32) + (if low <? low_product then 1 else 0))).

Definition u96_shift_right (value : laplace_u96) (shift : Z) : Z :=
  if shift <? 64 then
    u32 (Z.lor (Z.shiftr (low value) shift) (shl64 (high value) (64 - shift)))
  else Z.shiftr (high value) (shift - 64).

Definition u96_remainder_zero (value : laplace_u96) (shift : Z) : bool :=
  if shift <? 64 then Z.land (low value) (u64 (shl64 1 shift - 1)) =? 0
  else
    return_when negb (low value =? 0) with false ;;
    Z.land (high value) (u32 (u32 (Z.shiftl 1 (shift - 64)) - 1)) =? 0.

(** The rounding of the exact quotient, towards the even neighbour of a tie. *)
Definition rounded_base (negative : bool) (quotient : Z) (remainder_zero : bool) : Z :=
  if negative then
    let base := u32 (2147483647 - quotient) in
    if remainder_zero && negb (Z.land base 1 =? 0) then u32 (base + 1) else base
  else
    let base := u32 (2147483647 + quotient) in
    if negb remainder_zero || negb (Z.land base 1 =? 0) then u32 (base + 1) else base.

Definition laplace_unicode_quantize_component_u32 (component : double) (quantized : ptr Z)
    : laplace_unicode_status * ptr Z :=
  let negative := Z.testbit component 63 in
  return_when is_null quantized with (LAPLACE_UNICODE_INVALID_ARGUMENT, quantized) ;;
  let bits := component in
  let fraction := Z.land bits 0x000fffffffffffff in
  let exponent := u32 (Z.land (Z.shiftr bits 52) 0x7ff) in
  return_when (exponent =? 0x7ff) || double_lt component minus_one ||
              double_lt plus_one component
    with (LAPLACE_UNICODE_NUMERIC_OUT_OF_RANGE, quantized) ;;
  return_when Z.land bits 0x7fffffffffffffff =? 0
    with (LAPLACE_UNICODE_OK, store quantized 2147483648) ;;
  let '(significand, denominator_shift) :=
    if exponent =? 0 then (fraction, 1075)
    else (Z.lor 0x0010000000000000 fraction, u32 (1076 - exponent)) in
  return_when 86 <=? denominator_shift
    with (LAPLACE_UNICODE_OK, store quantized (if negative then 2147483647 else 2147483648)) ;;
  let product := multiply_u53_u32 significand 4294967295 in
  let quotient := u96_shift_right product denominator_shift in
  let remainder_zero := u96_remainder_zero product denominator_shift in
  (LAPLACE_UNICODE_OK, store quantized (rounded_base negative quotient remainder_zero)).

(** ** The Hilbert key *)
(** [for (q = 0x80000000; q > 1; q >>= 1)]. *)
Definition hilbert_powers : list Z := map (fun k => 2 ^ Z.of_nat (31 - k)) (seq 0 31).

Definition hilbert_axis (q : Z) (transformed : list Z) (axis : nat) : list Z :=
  let p := q - 1 in
  if negb (Z.land (transformed !!! axis) q =? 0) then
    <[0%nat := Z.lxor (transformed !!! 0%nat) p]> transformed
  else
    let t := Z.land (Z.lxor (transformed !!! 0%nat) (transformed !!! axis)) p in
    let transformed := <[0%nat := Z.lxor (transformed !!! 0%nat) t]> transformed in
    <[axis := Z.lxor (transformed !!! axis) t]> transformed.

Definition hilbert_rotate (transformed : list Z) : list Z :=
  foldl (fun transformed q => foldl (hilbert_axis q) transformed [0; 1; 2; 3]%nat)
    transformed hilbert_powers.

(** [transformed[axis] ^= transformed[axis - 1]]. *)
Definition hilbert_gray (transformed : list Z) : list Z :=
  foldl (fun transformed axis =>
           <[axis := Z.lxor (transformed !!! axis) (transformed !!! (axis - 1)%nat)]> transformed)
    transformed [1; 2; 3]%nat.

(** The mask of the bits that the last axis flips below each of its own. *)
Definition hilbert_mask (last_axis : Z) : Z :=
  foldl (fun t q => if negb (Z.land last_axis q =? 0) then Z.lxor t (q - 1) else t)
    0 hilbert_powers.

Definition hilbert_transform (axes : list Z) : list Z :=
  let transformed := hilbert_gray (hilbert_rotate axes) in
  let t := hilbert_mask (transformed !!! 3%nat) in
  map (fun value => Z.lxor value t) transformed.

(** The bits in the order in which they are emitted. *)
Definition emitted_bits (transformed : list Z) : list Z :=
  concat (map (fun bit => map (fun value => Z.land (Z.shiftr value (31 - Z.of_nat bit)) 1) transformed)
            (seq 0 32)).

(** The accumulator, the bits in it, and the bytes written. *)
Definition emit_bit (state : Z * Z * list Z) (emitted_bit : Z) : Z * Z * list Z :=
  let '(accumulator, accumulated_bits, key) := state in
  let accumulator := u8 (Z.lor (u32 (Z.shiftl accumulator 1)) emitted_bit) in
  let accumulated_bits := accumulated_bits + 1 in
  if accumulated_bits =? 8 then (0, 0, key ++ [accumulator])
  else (accumulator, accumulated_bits, key).

Definition laplace_unicode_hilbert4_encode (axes : ptr (list Z)) (key : ptr (list Z))
    : laplace_unicode_status * ptr (list Z) :=
  match axes, key with
  | Some axes, Some old =>
      let '(_, _, bytes) := foldl emit_bit (0, 0, []) (emitted_bits (hilbert_transform axes)) in
      (if Z.of_nat (length bytes) =? LAPLACE_UNICODE_HILBERT_KEY_BYTES then LAPLACE_UNICODE_OK
       else LAPLACE_UNICODE_PROVIDER_FAILURE,
       Some (bytes ++ drop (length bytes) old))
  | _, _ => (LAPLACE_UNICODE_INVALID_ARGUMENT, key)
  end.

(** ** The inverse curve *)
(** A reference decoder: bits back to words, the mask and the Gray code undone,
    and the rotations in the opposite order. *)
Fixpoint word_of_bits (acc : Z) (bits : list Z) : Z :=
  match bits with [] => acc | b :: bits => word_of_bits (2 * acc + b) bits end.

Definition byte_bits (b : Z) : list Z := map (fun k => Z.land (Z.shiftr b (7 - Z.of_nat k)) 1) (seq 0 8).

(** Split a sequence of bits into those of the four axes. *)
Fixpoint deinterleave (bits : list Z) : list (list Z) :=
  match bits with
  | a :: b :: c :: d :: bits =>
      match deinterleave bits with
      | [A; B; C; D] => [a :: A; b :: B; c :: C; d :: D]
      | other => other
      end
  | _ => [[]; []; []; []]
  end.

Definition hilbert_ungray (transformed : list Z) : list Z :=
  foldl (fun transformed axis =>
           <[axis := Z.lxor (transformed !!! axis) (transformed !!! (axis - 1)%nat)]> transformed)
    transformed [3; 2; 1]%nat.

Definition hilbert_unrotate (transformed : list Z) : list Z :=
  foldl (fun transformed q => foldl (hilbert_axis q) transformed [3; 2; 1; 0]%nat)
    transformed (rev hilbert_powers).

Definition hilbert_inverse (transformed : list Z) : list Z :=
  let t := Z.shiftr (transformed !!! 3%nat) 1 in
  hilbert_unrotate (hilbert_ungray (map (fun value => Z.lxor value t) transformed)).

Definition hilbert4_decode (key : list Z) : list Z :=
  hilbert_inverse (map (word_of_bits 0) (deinterleave (concat (map byte_bits key)))).

(** The bits of an [n]-bit word, the most significant one first. *)
Definition bits_of (n : nat) (w : Z) : list Z :=
  map (fun k => Z.land (Z.shiftr w (Z.of_nat n - 1 - Z.of_nat k)) 1) (seq 0 n).

Fixpoint interleave (A B C D : list Z) : list Z :=
  match A, B, C, D with
  | a :: A, b :: B, c :: C, d :: D => a :: b :: c :: d :: interleave A B C D
  | _, _, _, _ => []
  end.

(** Four 32-bit coordinates. *)
Definition axes_wf (axes : list Z) : Prop := length axes = 4%nat /\ Forall (fun x => is_u32 x) axes.

Local Abbreviation is_bit := (fun b => b = 0 \/ b = 1).

(** ** Bits and words *)
Lemma bits_of_S n w : bits_of (S n) w = bits_of n (w / 2) ++ [w mod 2].
Proof.
  unfold bits_of. rewrite seq_S, map_app. f_equal.
  - apply map_ext_in. intros k Hk%in_seq. f_equal.
    change (w / 2) with (w / 2 ^ 1). rewrite <- (Z.shiftr_div_pow2 w 1) by lia. rewrite Z.shiftr_shiftr by lia. f_equal. lia.
  - cbn [map]. replace (Z.of_nat (S n) - 1 - Z.of_nat (0 + n)) with 0 by lia.
    rewrite Z.shiftr_0_r. f_equal. apply (Z.land_ones w 1). lia.
Qed.

Lemma length_bits_of n w : length (bits_of n w) = n.
Proof. unfold bits_of. by rewrite length_map, length_seq. Qed.

Lemma bits_of_bits n w : Forall is_bit (bits_of n w).
Proof.
  revert w. induction n as [|n IH]; intros w; [constructor|].
  rewrite bits_of_S. apply Forall_app. split; [apply IH|].
  constructor; [|constructor]. pose proof (Z.mod_pos_bound w 2). lia.
Qed.

Lemma word_of_bits_snoc bits b acc :
  word_of_bits acc (bits ++ [b]) = 2 * word_of_bits acc bits + b.
Proof. revert acc. induction bits as [|x bits IH]; intros acc; [done|]. apply IH. Qed.

Lemma word_bits_word n w : 0 <= w < 2 ^ Z.of_nat n -> word_of_bits 0 (bits_of n w) = w.
Proof.
  revert w. induction n as [|n IH]; intros w Hw; [change (2 ^ _) with 1 in Hw; cbn; lia|].
  rewrite Nat2Z.inj_succ, Z.pow_succ_r in Hw by lia.
  rewrite bits_of_S, word_of_bits_snoc, IH.
  - symmetry. apply Z.div_mod. lia.
  - split; [apply Z.div_pos; lia|apply Z.div_lt_upper_bound; lia].
Qed.

Lemma u32_bits_word w : is_u32 w -> word_of_bits 0 (bits_of 32 w) = w.
Proof. intros Hw. apply word_bits_word. change (2 ^ Z.of_nat 32) with 4294967296. lia. Qed.

Lemma word_of_bits_range bits :
  Forall is_bit bits -> 0 <= word_of_bits 0 bits < 2 ^ Z.of_nat (length bits).
Proof.
  induction bits as [|b bits IH] using rev_ind; [by vm_compute|].
  intros [Hb Hl]%Forall_app. apply Forall_cons in Hl as [Hl _]. specialize (IH Hb).
  rewrite word_of_bits_snoc, length_app, Nat.add_1_r, Nat2Z.inj_succ, Z.pow_succ_r; lia.
Qed.

Lemma bits_word_bits bits : Forall is_bit bits -> bits_of (length bits) (word_of_bits 0 bits) = bits.
Proof.
  induction bits as [|b bits IH] using rev_ind; [done|].
  intros [Hb Hl]%Forall_app. apply Forall_cons in Hl as [Hl _].
  rewrite length_app, Nat.add_1_r, bits_of_S, word_of_bits_snoc.
  replace ((2 * word_of_bits 0 bits + b) / 2) with (word_of_bits 0 bits)
    by (apply Z.div_unique with b; lia).
  rewrite IH by done. f_equal. f_equal. rewrite Z.add_comm, Z.mul_comm, Z.mod_add by lia.
  apply Z.mod_small. lia.
Qed.

(** ** Bits and bytes *)
Fixpoint bytes_of_bits (bits : list Z) : list Z :=
  match bits with
  | a :: b :: c :: d :: e :: f :: g :: h :: bits =>
      word_of_bits 0 [a; b; c; d; e; f; g; h] :: bytes_of_bits bits
  | _ => []
  end.

Lemma eight_bits n (bits : list Z) : length bits = (8 * S n)%nat ->
  exists a b c d e f g h rest,
    bits = a :: b :: c :: d :: e :: f :: g :: h :: rest /\ length rest = (8 * n)%nat.
Proof.
  intros H. replace (8 * S n)%nat with (S (S (S (S (S (S (S (S (8 * n)))))))))%nat in H by lia.
  do 8 (destruct bits as [|? bits]; [discriminate H|]).
  do 9 eexists. split; [reflexivity|]. cbn [length] in H. lia.
Qed.

(** Eight bits are emitted as one byte. *)
Lemma emit_byte key a b c d e f g h :
  Forall is_bit [a; b; c; d; e; f; g; h] ->
  foldl emit_bit (0, 0, key) [a; b; c; d; e; f; g; h] =
    (0, 0, key ++ [word_of_bits 0 [a; b; c; d; e; f; g; h]]).
Proof.
  intros H. repeat apply Forall_cons in H as [[-> | ->] H]; reflexivity.
Qed.

Lemma emit_bytes n bits key : length bits = (8 * n)%nat -> Forall is_bit bits ->
  foldl emit_bit (0, 0, key) bits = (0, 0, key ++ bytes_of_bits bits).
Proof.
  revert bits key. induction n as [|n IH]; intros bits key Hl Hb.
  - destruct bits; [|discriminate Hl]. cbn. by rewrite app_nil_r.
  - destruct (eight_bits n bits Hl) as (a & b & c & d & e & f & g & h & rest & -> & Hr).
    change (a :: b :: c :: d :: e :: f :: g :: h :: rest)
      with ([a; b; c; d; e; f; g; h] ++ rest) in *.
    apply Forall_app in Hb as [Hb Hb']. rewrite foldl_app, emit_byte, IH by done.
    by rewrite <-app_assoc.
Qed.

Lemma byte_bits_of b : byte_bits b = bits_of 8 b.
Proof. reflexivity. Qed.

Lemma bytes_bits n bits : length bits = (8 * n)%nat -> Forall is_bit bits ->
  concat (map byte_bits (bytes_of_bits bits)) = bits /\ bytes n (bytes_of_bits bits).
Proof.
  revert bits. induction n as [|n IH]; intros bits Hl Hb.
  - destruct bits; [|discriminate Hl]. repeat split; constructor.
  - destruct (eight_bits n bits Hl) as (a & b & c & d & e & f & g & h & rest & -> & Hr).
    change (a :: b :: c :: d :: e :: f :: g :: h :: rest)
      with ([a; b; c; d; e; f; g; h] ++ rest) in *.
    apply Forall_app in Hb as [Hb Hb']. destruct (IH rest Hr Hb') as [IH1 IH2].
    cbn [bytes_of_bits app map concat]. rewrite IH1, byte_bits_of. split.
    + pose proof (bits_word_bits [a; b; c; d; e; f; g; h] Hb) as Hw.
      change (length _) with 8%nat in Hw. by rewrite Hw.
    + apply bytes_cons; [|done].
      pose proof (word_of_bits_range [a; b; c; d; e; f; g; h] Hb) as Hw.
      change (2 ^ Z.of_nat (length _)) with 256 in Hw. lia.
Qed.

Lemma bits_bytes n key : bytes n key ->
  bytes_of_bits (concat (map byte_bits key)) = key /\
  Forall is_bit (concat (map byte_bits key)) /\ length (concat (map byte_bits key)) = (8 * n)%nat.
Proof.
  intros [Hl Hk]. revert n Hl. induction Hk as [|b key Hb Hk IH]; intros n Hl.
  - subst n. repeat split; constructor.
  - destruct n as [|n]; [discriminate Hl|]. injection Hl as Hl.
    destruct (IH n Hl) as (IH1 & IH2 & IH3). cbn [map concat]. rewrite byte_bits_of. split; [|split].
    + pose proof (word_bits_word 8 b) as Hw. unfold bits_of in *. cbn [map seq app bytes_of_bits] in *.
      rewrite IH1, Hw; [done|]. change (2 ^ Z.of_nat 8) with 256. lia.
    + apply Forall_app. split; [apply bits_of_bits|done].
    + rewrite length_app, length_bits_of, IH3. lia.
Qed.

(** ** Interleaving *)
Lemma deinterleave_interleave A B C D :
  length B = length A -> length C = length A -> length D = length A ->
  deinterleave (interleave A B C D) = [A; B; C; D].
Proof.
  revert B C D. induction A as [|a A IH]; intros [|b B] [|c C] [|d D] HB HC HD; try done.
  cbn. cbn in HB, HC, HD. rewrite IH by lia. done.
Qed.

Lemma interleave_deinterleave n bits : length bits = (4 * n)%nat -> Forall is_bit bits ->
  exists A B C D, deinterleave bits = [A; B; C; D] /\ interleave A B C D = bits /\
    Forall (fun X => length X = n /\ Forall is_bit X) [A; B; C; D].
Proof.
  revert bits. induction n as [|n IH]; intros bits Hl Hb.
  - destruct bits; [|discriminate Hl]. exists [], [], [], []. repeat split; repeat constructor.
  - replace (4 * S n)%nat with (S (S (S (S (4 * n)))))%nat in Hl by lia.
    do 4 (destruct bits as [|? bits]; [discriminate Hl|]).
    do 4 apply Forall_cons in Hb as [? Hb].
    destruct (IH bits) as (A & B & C & D & HD & HI & HF); [cbn in Hl; lia|done|].
    cbn [deinterleave]. rewrite HD. eexists _, _, _, _. split; [reflexivity|]. cbn [interleave].
    rewrite HI. split; [done|].
    repeat apply Forall_cons in HF as [[? ?] HF].
    repeat (apply Forall_cons; split; [split; [cbn; lia|by constructor]|]). constructor.
Qed.

Lemma emitted_interleave a b c d :
  emitted_bits [a; b; c; d] = interleave (bits_of 32 a) (bits_of 32 b) (bits_of 32 c) (bits_of 32 d).
Proof. reflexivity. Qed.

Lemma length_interleave A B C D n :
  length A = n -> length B = n -> length C = n -> length D = n ->
  length (interleave A B C D) = (4 * n)%nat.
Proof.
  revert B C D n. induction A as [|a A IH]; intros [|b B] [|c C] [|d D] n HA HB HC HD;
    cbn in HA, HB, HC, HD; try lia; subst; [done|]. cbn. rewrite (IH B C D (length A)); lia.
Qed.

Lemma interleave_bits A B C D :
  Forall is_bit A -> Forall is_bit B -> Forall is_bit C -> Forall is_bit D ->
  Forall is_bit (interleave A B C D).
Proof.
  intros HA. revert B C D. induction HA as [|a A Ha HA IH]; intros B C D HB HC HD; [constructor|].
  destruct HB, HC, HD; cbn [interleave]; try apply Forall_nil_2.
  do 4 (apply Forall_cons; split; [done|]). auto.
Qed.

(** The key of four words, and the four words of a key. *)
Lemma pack_words a b c d : Forall (fun x => is_u32 x) [a; b; c; d] ->
  let key := bytes_of_bits (emitted_bits [a; b; c; d]) in
  foldl emit_bit (0, 0, []) (emitted_bits [a; b; c; d]) = (0, 0, key) /\
  bytes 16 key /\ map (word_of_bits 0) (deinterleave (concat (map byte_bits key))) = [a; b; c; d].
Proof.
  intros HF key. pose proof (length_bits_of 32) as HL. pose proof (bits_of_bits 32) as HB.
  assert (Hl : length (emitted_bits [a; b; c; d]) = (8 * 16)%nat)
    by (rewrite emitted_interleave; apply (length_interleave _ _ _ _ 32); done).
  assert (Hb : Forall is_bit (emitted_bits [a; b; c; d]))
    by (rewrite emitted_interleave; apply interleave_bits; done).
  destruct (bytes_bits 16 _ Hl Hb) as [H1 H2]. split; [by apply (emit_bytes 16)|]. split; [done|].
  unfold key. rewrite H1, emitted_interleave, deinterleave_interleave by (rewrite !HL; reflexivity).
  repeat apply Forall_cons in HF as [? HF]. cbn [map]. by rewrite !u32_bits_word by done.
Qed.

Lemma unpack_words key : bytes 16 key ->
  exists a b c d, map (word_of_bits 0) (deinterleave (concat (map byte_bits key))) = [a; b; c; d] /\
    Forall (fun x => is_u32 x) [a; b; c; d] /\ bytes_of_bits (emitted_bits [a; b; c; d]) = key.
Proof.
  intros Hk. destruct (bits_bytes 16 key Hk) as (H1 & H2 & H3).
  destruct (interleave_deinterleave 32 _ H3 H2) as (A & B & C & D & HD & HI & HF).
  rewrite HD. eexists _, _, _, _. split; [reflexivity|].
  repeat apply Forall_cons in HF as [[? ?] HF].
  assert (Hw : forall X, length X = 32%nat -> Forall is_bit X ->
            is_u32 (word_of_bits 0 X) /\ bits_of 32 (word_of_bits 0 X) = X).
  { intros X HX HXb. pose proof (word_of_bits_range X HXb) as Hr. pose proof (bits_word_bits X HXb) as He.
    rewrite HX in Hr, He. change (2 ^ Z.of_nat 32) with 4294967296 in Hr. split; [lia|done]. }
  split; [repeat (apply Forall_cons; split; [by apply Hw|]); constructor|].
  rewrite emitted_interleave. rewrite !(fun X H1 H2 => proj2 (Hw X H1 H2)) by done. by rewrite HI.
Qed.

(** ** The curve is undone *)
Lemma foldl_undo {A B} (f g : A -> B -> A) (P : A -> Prop) xs s :
  (forall s x, x ∈ xs -> P s -> P (f s x) /\ g (f s x) x = s) -> P s ->
  P (foldl f s xs) /\ foldl g (foldl f s xs) (rev xs) = s.
Proof.
  intros Hstep. revert s. induction xs as [|x xs IH]; intros s Hs; [done|].
  destruct (Hstep s x) as [HP Hg]; [left|done|].
  destruct (IH (fun s x H => Hstep s x (list_elem_of_further _ _ _ H)) _ HP) as [IH1 IH2].
  split; [done|]. change (foldl f s (x :: xs)) with (foldl f (f s x) xs).
  cbn [rev]. rewrite foldl_app, IH2. done.
Qed.

Lemma lxor_lxor x y : Z.lxor (Z.lxor x y) y = x.
Proof. by rewrite Z.lxor_assoc, Z.lxor_nilpotent, Z.lxor_0_r. Qed.

Lemma u32_log2 x : is_u32 x <-> 0 <= x /\ Z.log2 x < 32.
Proof.
  destruct (Z.lt_trichotomy x 0) as [Hx|[->|Hpos]]; [lia|by vm_compute|].
  pose proof (Z.log2_lt_pow2 x 32 Hpos) as H. change (2 ^ 32) with 4294967296 in H. lia.
Qed.

Lemma lxor_u32 x y : is_u32 x -> is_u32 y -> is_u32 (Z.lxor x y).
Proof.
  rewrite !u32_log2, Z.lxor_nonneg. pose proof (Z.log2_lxor x y). lia.
Qed.

Lemma land_u32 x y : is_u32 x -> is_u32 y -> is_u32 (Z.land x y).
Proof.
  rewrite !u32_log2, Z.land_nonneg. pose proof (Z.log2_land x y). lia.
Qed.

(** The test of bit [k] is not changed by flipping bits below it. *)
Lemma low_flip x y k : 0 <= k ->
  Z.land (Z.lxor x (Z.land y (2 ^ k - 1))) (2 ^ k) = Z.land x (2 ^ k).
Proof.
  intros Hk. apply Z.bits_inj'. intros n Hn.
  rewrite !Z.land_spec, Z.lxor_spec, Z.land_spec, Z.sub_1_r, <-Z.ones_equiv.
  rewrite (Z.pow2_bits_eqb k n) by lia. destruct (Z.eqb_spec k n) as [->|]; [|by rewrite !andb_false_r].
  rewrite Z.ones_spec_high by lia. by rewrite andb_false_r, xorb_false_r.
Qed.

Lemma same_low x y m :
  Z.land (Z.lxor (Z.lxor x (Z.land (Z.lxor x y) m)) (Z.lxor y (Z.land (Z.lxor x y) m))) m =
  Z.land (Z.lxor x y) m.
Proof.
  f_equal. apply Z.bits_inj'. intros n Hn. rewrite !Z.lxor_spec.
  by destruct (Z.testbit x n), (Z.testbit y n), (Z.testbit (Z.land _ m) n).
Qed.

#[local] Ltac flip_axis :=
  match goal with |- context [Z.land ?x (2 ^ ?k) =? 0] =>
    destruct (Z.land x (2 ^ k) =? 0) eqn:E; cbn;
    [rewrite low_flip, E by lia; cbn; rewrite same_low, !lxor_lxor;
     auto 8 using lxor_u32, land_u32
    |rewrite E; cbn; rewrite lxor_lxor; auto using lxor_u32] end.

Lemma axis_undone k s axis : 0 <= k < 32 -> (axis < 4)%nat -> axes_wf s ->
  axes_wf (hilbert_axis (2 ^ k) s axis) /\
  hilbert_axis (2 ^ k) (hilbert_axis (2 ^ k) s axis) axis = s.
Proof.
  intros Hk Ha [Hl HF]. assert (Hp : is_u32 (2 ^ k - 1)).
  { pose proof (Z.pow_lt_mono_r 2 k 32). pose proof (Z.pow_pos_nonneg 2 k).
    change (2 ^ 32) with 4294967296 in *. lia. }
  do 5 (destruct s as [|? s]; try discriminate Hl).
  repeat apply Forall_cons in HF as [? HF].
  assert (Haxes : forall a b c d, is_u32 a -> is_u32 b -> is_u32 c -> is_u32 d -> axes_wf [a; b; c; d])
    by (intros; split; [done|]; repeat (apply Forall_cons; split; [done|]); constructor).
  pose proof (low_flip z (-1) k) as Hself. rewrite Z.land_m1_l in Hself.
  destruct axis as [|[|[|[|]]]]; [..|lia]; unfold hilbert_axis; cbn.
  1: { destruct (Z.land z (2 ^ k) =? 0) eqn:E; cbn.
       - rewrite Z.lxor_nilpotent, Z.land_0_l, !Z.lxor_0_r, E. cbn.
         rewrite Z.lxor_nilpotent, Z.land_0_l, !Z.lxor_0_r. auto.
       - rewrite Hself, E by lia. cbn. rewrite lxor_lxor. auto using lxor_u32. }
  all: flip_axis.
Qed.

Lemma hilbert_powers_pow q : q ∈ hilbert_powers -> exists k, q = 2 ^ k /\ 0 <= k < 32.
Proof.
  unfold hilbert_powers. intros (k & <- & Hk%in_seq)%list_elem_of_In%in_map_iff. eexists. split; [done|lia].
Qed.

Lemma rotation_undone s : axes_wf s ->
  axes_wf (hilbert_rotate s) /\ hilbert_unrotate (hilbert_rotate s) = s.
Proof.
  intros Hs. unfold hilbert_rotate, hilbert_unrotate. apply (foldl_undo _ _ axes_wf); [|done].
  intros l q (k & -> & Hk)%hilbert_powers_pow Hl.
  apply (foldl_undo (hilbert_axis (2 ^ k)) (hilbert_axis (2 ^ k)) axes_wf [0; 1; 2; 3]%nat); [|done].
  intros l' axis Ha Hl'. apply axis_undone; [done| |done].
  apply list_elem_of_In in Ha. cbn in Ha. lia.
Qed.

Lemma rotation_redone s : axes_wf s ->
  axes_wf (hilbert_unrotate s) /\ hilbert_rotate (hilbert_unrotate s) = s.
Proof.
  intros Hs. unfold hilbert_rotate, hilbert_unrotate.
  rewrite <- (rev_involutive hilbert_powers) at 3. apply (foldl_undo _ _ axes_wf); [|done].
  intros l q Hq Hl. apply list_elem_of_In, in_rev, list_elem_of_In, hilbert_powers_pow in Hq as (k & -> & Hk).
  apply (foldl_undo (hilbert_axis (2 ^ k)) (hilbert_axis (2 ^ k)) axes_wf [3; 2; 1; 0]%nat); [|done].
  intros l' axis Ha Hl'. apply axis_undone; [done| |done].
  apply list_elem_of_In in Ha. cbn in Ha. lia.
Qed.

(** Bit [j] of the mask is the parity of the bits above [j]. *)
Lemma mask_bits w j : 0 <= j ->
  Z.testbit (hilbert_mask w) j =
    foldl (fun p k => xorb p (Z.testbit w k && (j <? k))) false
      (map (fun k => 31 - Z.of_nat k) (seq 0 31)).
Proof.
  intros Hj. unfold hilbert_mask, hilbert_powers.
  assert (H : forall ks t p, Forall (fun k => (k < 32)%nat) ks -> Z.testbit t j = p ->
    Z.testbit (foldl (fun t q => if negb (Z.land w q =? 0) then Z.lxor t (q - 1) else t) t
                 (map (fun k => 2 ^ Z.of_nat (31 - k)) ks)) j =
    foldl (fun p k => xorb p (Z.testbit w k && (j <? k))) p (map (fun k => 31 - Z.of_nat k) ks)).
  { induction ks as [|k ks IH]; intros t p Hks Ht; [done|]. apply Forall_cons in Hks as [Hk Hks].
    cbn [map foldl]. apply IH; [done|]. replace (Z.of_nat (31 - k)) with (31 - Z.of_nat k) by lia.
    set (i := 31 - Z.of_nat k) in *. assert (0 <= i) by lia.
    assert (Z.land w (2 ^ i) =? 0 = negb (Z.testbit w i)) as ->.
    { destruct (Z.testbit w i) eqn:E.
      - apply Z.eqb_neq. intros H0. apply (f_equal (fun z => Z.testbit z i)) in H0.
        by rewrite Z.land_spec, E, Z.pow2_bits_true, Z.bits_0 in H0.
      - apply Z.eqb_eq, Z.bits_inj'. intros n Hn. rewrite Z.land_spec, Z.pow2_bits_eqb, Z.bits_0 by done.
        destruct (Z.eqb_spec i n) as [<-|]; [by rewrite E|by rewrite andb_false_r]. }
    rewrite negb_involutive. destruct (Z.testbit w i); cbn [andb].
    - rewrite Z.lxor_spec, Ht, Z.sub_1_r, <-Z.ones_equiv. f_equal.
      destruct (Z.ltb_spec j i); [apply Z.ones_spec_low|apply Z.ones_spec_high]; lia.
    - by rewrite xorb_false_r. }
  apply (H (seq 0 31)); [|apply Z.bits_0].
  apply Forall_forall. intros k Hk%list_elem_of_In%in_seq. lia.
Qed.

Lemma foldl_skip {A B} (f : A -> B -> A) p xs :
  (forall p x, x ∈ xs -> f p x = p) -> foldl f p xs = p.
Proof.
  intros Hf. induction xs as [|x xs IH]; [done|]. cbn. rewrite Hf by left.
  apply IH. intros q y Hy. apply Hf. by right.
Qed.

Lemma foldl_ext {A B} (f g : A -> B -> A) p xs :
  (forall p x, x ∈ xs -> f p x = g p x) -> foldl f p xs = foldl g p xs.
Proof.
  revert p. induction xs as [|x xs IH]; intros p Hf; [done|]. cbn. rewrite Hf by left.
  apply IH. intros q y Hy. apply Hf. by right.
Qed.

Lemma mask_low w j : 0 <= j < 31 ->
  Z.testbit (hilbert_mask w) j = xorb (Z.testbit w (j + 1)) (Z.testbit (hilbert_mask w) (j + 1)).
Proof.
  intros Hj. rewrite !mask_bits by lia. set (n := Z.to_nat j).
  replace (seq 0 31) with (seq 0 (30 - n) ++ (30 - n)%nat :: seq (31 - n) n).
  2: { change ((30 - n)%nat :: seq (31 - n) n) with ([(30 - n)%nat] ++ seq (31 - n) n).
       replace 31%nat with ((30 - n) + (1 + n))%nat at 2 by (unfold n; lia).
       rewrite (seq_app (30 - n)). cbn. repeat f_equal. unfold n; lia. }
  rewrite !map_app, !foldl_app. cbn [map foldl].
  rewrite !(foldl_skip _ _ (map _ (seq (31 - n) n))).
  - rewrite (foldl_ext _ (fun p k => xorb p (Z.testbit w k && (j + 1 <? k)))).
    + replace (31 - Z.of_nat (30 - n)) with (j + 1) by (unfold n; lia).
      replace (j <? j + 1) with true by (symmetry; apply Z.ltb_lt; lia).
      rewrite Z.ltb_irrefl, andb_true_r, andb_false_r, xorb_false_r. apply xorb_comm.
    + intros p k (x & <- & Hx%in_seq)%list_elem_of_In%in_map_iff. f_equal. f_equal.
      transitivity true; [apply Z.ltb_lt|symmetry; apply Z.ltb_lt]; unfold n in *; lia.
  - intros p k (x & <- & Hx%in_seq)%list_elem_of_In%in_map_iff.
    replace (j + 1 <? 31 - Z.of_nat x) with false by (symmetry; apply Z.ltb_ge; unfold n in *; lia).
    by rewrite andb_false_r, xorb_false_r.
  - intros p k (x & <- & Hx%in_seq)%list_elem_of_In%in_map_iff.
    replace (j <? 31 - Z.of_nat x) with false by (symmetry; apply Z.ltb_ge; unfold n in *; lia).
    by rewrite andb_false_r, xorb_false_r.
Qed.

Lemma mask_high w j : 31 <= j -> Z.testbit (hilbert_mask w) j = false.
Proof.
  intros Hj. rewrite mask_bits by lia. apply foldl_skip.
  intros p k (x & <- & Hx%in_seq)%list_elem_of_In%in_map_iff.
  replace (j <? 31 - Z.of_nat x) with false by (symmetry; apply Z.ltb_ge; lia).
  by rewrite andb_false_r, xorb_false_r.
Qed.

Lemma mask_u32 w : is_u32 (hilbert_mask w).
Proof.
  assert (H : hilbert_mask w = hilbert_mask w mod 2 ^ 32).
  { apply Z.bits_inj'. intros n Hn. rewrite Z.testbit_mod_pow2 by lia.
    destruct (Z.ltb_spec n 32); [done|]. by rewrite mask_high by lia. }
  pose proof (Z.mod_pos_bound (hilbert_mask w) (2 ^ 32)). rewrite H.
  change (2 ^ 32) with 4294967296 in *. lia.
Qed.

Lemma u32_bit_high w j : is_u32 w -> 32 <= j -> Z.testbit w j = false.
Proof.
  intros [H1 H2]%u32_log2 Hj. apply Z.bits_above_log2; lia.
Qed.

(** The mask of a word is the masked word without its lowest bit, ... *)
Lemma mask_shift w : is_u32 w -> Z.shiftr (Z.lxor w (hilbert_mask w)) 1 = hilbert_mask w.
Proof.
  intros Hw. apply Z.bits_inj'. intros j Hj. rewrite Z.shiftr_spec, Z.lxor_spec by done.
  destruct (Z.lt_ge_cases j 31) as [Hlt|Hge]; [by rewrite (mask_low w j) by lia|].
  rewrite !mask_high, (u32_bit_high w) by (done || lia). done.
Qed.

(** ... and every word is its own mask shifted, once unmasked. *)
Lemma shift_mask z : is_u32 z -> hilbert_mask (Z.lxor z (Z.shiftr z 1)) = Z.shiftr z 1.
Proof.
  intros Hz. apply Z.bits_inj'. intros j Hj.
  destruct (Z.lt_ge_cases j 32) as [Hlt|Hge].
  2: { rewrite mask_high, Z.shiftr_spec, u32_bit_high by (done || lia). done. }
  assert (H : exists n, j = 31 - Z.of_nat n /\ (n <= 31)%nat) by (exists (Z.to_nat (31 - j)); lia).
  destruct H as (n & -> & Hn). clear Hj Hlt. induction n as [|n IH].
  - rewrite mask_high, Z.shiftr_spec, u32_bit_high by (done || lia). done.
  - rewrite mask_low by lia. replace (31 - Z.of_nat (S n) + 1) with (31 - Z.of_nat n) by lia.
    rewrite IH, !Z.lxor_spec, !Z.shiftr_spec by lia.
    rewrite xorb_assoc, xorb_nilpotent, xorb_false_r. f_equal. lia.
Qed.

Lemma gray_undone s : axes_wf s ->
  axes_wf (hilbert_gray s) /\ hilbert_ungray (hilbert_gray s) = s.
Proof.
  intros [Hl HF]. do 5 (destruct s as [|? s]; try discriminate Hl).
  repeat apply Forall_cons in HF as [? HF]. unfold hilbert_gray, hilbert_ungray. cbn.
  rewrite !lxor_lxor. split; [|done]. split; [done|].
  repeat (apply Forall_cons; split; [auto using lxor_u32|]). constructor.
Qed.

Lemma gray_redone s : axes_wf s ->
  axes_wf (hilbert_ungray s) /\ hilbert_gray (hilbert_ungray s) = s.
Proof.
  intros [Hl HF]. do 5 (destruct s as [|? s]; try discriminate Hl).
  repeat apply Forall_cons in HF as [? HF]. unfold hilbert_gray, hilbert_ungray. cbn.
  rewrite !lxor_lxor. split; [|done]. split; [done|].
  repeat (apply Forall_cons; split; [auto using lxor_u32|]). constructor.
Qed.

Lemma flip_all t s : axes_wf s -> is_u32 t ->
  axes_wf (map (fun x => Z.lxor x t) s) /\
  map (fun x => Z.lxor x t) (map (fun x => Z.lxor x t) s) = s /\
  map (fun x => Z.lxor x t) s !!! 3%nat = Z.lxor (s !!! 3%nat) t /\ is_u32 (s !!! 3%nat).
Proof.
  intros [Hl HF] Ht. do 5 (destruct s as [|? s]; try discriminate Hl).
  repeat apply Forall_cons in HF as [? HF]. cbn. rewrite !lxor_lxor. repeat split; try done; try lia.
  repeat (apply Forall_cons; split; [auto using lxor_u32|]). constructor.
Qed.

Lemma transform_undone axes : axes_wf axes ->
  axes_wf (hilbert_transform axes) /\ hilbert_inverse (hilbert_transform axes) = axes.
Proof.
  intros H. unfold hilbert_transform, hilbert_inverse.
  destruct (rotation_undone axes H) as [Hr Er]. destruct (gray_undone _ Hr) as [Hg Eg].
  set (g := hilbert_gray _) in *. set (t := hilbert_mask (g !!! 3%nat)).
  destruct (flip_all t g Hg (mask_u32 _)) as (Hf & Ef & El & Hu). split; [done|].
  rewrite El. unfold t at 2. rewrite mask_shift by done. fold t. by rewrite Ef, Eg, Er.
Qed.

Lemma transform_redone z : axes_wf z ->
  axes_wf (hilbert_inverse z) /\ hilbert_transform (hilbert_inverse z) = z.
Proof.
  intros H. unfold hilbert_transform, hilbert_inverse. set (t := Z.shiftr (z !!! 3%nat) 1).
  assert (Hz : is_u32 (z !!! 3%nat)) by apply (flip_all 0 z H ltac:(lia)).
  assert (Ht : is_u32 t).
  { unfold t. rewrite Z.shiftr_div_pow2 by lia. change (2 ^ 1) with 2.
    split; [apply Z.div_pos; lia|apply Z.div_le_upper_bound; lia]. }
  destruct (flip_all t z H Ht) as (Hf & Ef & El & _).
  destruct (gray_redone _ Hf) as [Hg Eg]. destruct (rotation_redone _ Hg) as [Hr Er].
  split; [done|]. rewrite Er, Eg, El. fold t. unfold t at 2. rewrite shift_mask by done. fold t. apply Ef.
Qed.

(** ** The key is a bijection *)
(** C8: Encoding four 32-bit coordinates fills the sixteen bytes of the key,
    whatever the buffer held, and decoding it gives the coordinates back; and
    every key of sixteen bytes is the encoding of the coordinates that it
    decodes to.  So the curve visits every cell of the grid exactly once, and
    distinct cells have distinct keys. *)
Theorem hilbert4_bijective axes old key :
  axes_wf axes -> bytes 16 old -> bytes 16 key ->
  (exists k, laplace_unicode_hilbert4_encode (Some axes) (Some old) = (LAPLACE_UNICODE_OK, Some k) /\
     bytes 16 k /\ hilbert4_decode k = axes) /\
  axes_wf (hilbert4_decode key) /\
  laplace_unicode_hilbert4_encode (Some (hilbert4_decode key)) (Some old) =
    (LAPLACE_UNICODE_OK, Some key).
Proof.
  intros Ha Ho Hk.
  assert (Henc : forall x, axes_wf x -> exists a b c d, hilbert_transform x = [a; b; c; d] /\
    laplace_unicode_hilbert4_encode (Some x) (Some old) =
      (LAPLACE_UNICODE_OK, Some (bytes_of_bits (emitted_bits [a; b; c; d]))) /\
    bytes 16 (bytes_of_bits (emitted_bits [a; b; c; d])) /\
    hilbert4_decode (bytes_of_bits (emitted_bits [a; b; c; d])) = hilbert_inverse [a; b; c; d]).
  { intros x Hx. destruct (transform_undone x Hx) as [[Hl HF] _].
    destruct (hilbert_transform x) as [|a [|b [|c [|d [|]]]]] eqn:E; try discriminate Hl.
    destruct (pack_words a b c d HF) as (H1 & H2 & H3). exists a, b, c, d. split; [done|].
    unfold laplace_unicode_hilbert4_encode, hilbert4_decode. rewrite E, H1, H3.
    destruct H2 as [H2 H2']. rewrite H2, drop_ge, app_nil_r by (rewrite (bytes_length 16); done). done. }
  split.
  - destruct (Henc axes Ha) as (a & b & c & d & E & H1 & H2 & H3). eexists. split; [exact H1|].
    split; [done|]. rewrite H3, <-E. by apply transform_undone.
  - destruct (unpack_words key Hk) as (a & b & c & d & E & HF & Hkey).
    unfold hilbert4_decode. rewrite E. destruct (transform_redone [a; b; c; d]) as [Hw Et]; [done|].
    split; [done|]. destruct (Henc _ Hw) as (a' & b' & c' & d' & E' & H1 & _).
    rewrite H1. rewrite Et in E'. injection E' as <- <- <- <-. by rewrite Hkey.
Qed.

Lemma hilbert4_bijective_witness :
  (exists k, laplace_unicode_hilbert4_encode (Some [1; 2; 3; 0xffffffff]) (Some (zeros 16)) =
     (LAPLACE_UNICODE_OK, Some k) /\ bytes 16 k /\ hilbert4_decode k = [1; 2; 3; 0xffffffff]) /\
  axes_wf (hilbert4_decode (zeros 16)) /\
  laplace_unicode_hilbert4_encode (Some (hilbert4_decode (zeros 16))) (Some (zeros 16)) =
    (LAPLACE_UNICODE_OK, Some (zeros 16)).
Proof.
  apply hilbert4_bijective; [|apply bytes_zeros|apply bytes_zeros].
  split; [reflexivity|]. repeat (apply Forall_cons; split; [lia|]). constructor.
Defined.

(** ** Quantization is correctly rounded *)
Section Products.
Local Abbreviation product v := (low v + high v * 2 ^ 64) (only parsing).

Lemma multiply_u53_u32_exact left right : 0 <= left < 2 ^ 53 -> is_u32 right ->
  is_u64 (low (multiply_u53_u32 left right)) /\ 0 <= high (multiply_u53_u32 left right) < 2 ^ 21 /\
  product (multiply_u53_u32 left right) = left * right.
Proof.
  intros Hl Hr. unfold multiply_u53_u32, shl64.
  change 0xffffffff with (Z.ones 32). rewrite Z.land_ones, Z.shiftl_mul_pow2,
    !Z.shiftr_div_pow2 by lia.
  change (2 ^ 32) with 4294967296. change (2 ^ 53) with 9007199254740992 in Hl.
  change (2 ^ 21) with 2097152. change (2 ^ 64) with 18446744073709551616.
  set (a := left mod 4294967296). set (b := left / 4294967296).
  assert (Hab : left = b * 4294967296 + a /\ 0 <= a < 4294967296 /\ 0 <= b < 2097152)
    by (unfold a, b; Z.div_mod_to_equations; lia).
  clearbody a b. destruct Hab as (-> & Ha & Hb).
  assert (0 <= a * right < 18446744073709551616) by nia.
  assert (0 <= b * right < 9007199254740992) by nia.
  rewrite !(u64_small (a * right)), !(u64_small (b * right)) by lia.
  set (p := a * right) in *. set (h := b * right) in *. cbn [low high].
  assert (E : (b * 4294967296 + a) * right = h * 4294967296 + p) by (unfold h, p; lia).
  assert (h * 4294967296 + p < 9007199254740992 * 4294967296) by (rewrite <- E; nia).
  rewrite E. clearbody p h. unfold u64, u32.
  destruct (Z.ltb_spec ((p + (h * 4294967296) mod 18446744073709551616) mod 18446744073709551616) p);
    Z.div_mod_to_equations; lia.
Qed.

Context (value : laplace_u96) (Hlow : is_u64 (low value)) (Hhigh : 0 <= high value < 2 ^ 21).

Lemma high_bits shift : 0 <= shift <= 64 ->
  product value / 2 ^ shift = low value / 2 ^ shift + high value * 2 ^ (64 - shift) /\
  product value mod 2 ^ shift = low value mod 2 ^ shift.
Proof.
  intros Hs. assert (0 < 2 ^ shift) by (apply Z.pow_pos_nonneg; lia).
  assert (E : 2 ^ 64 = 2 ^ (64 - shift) * 2 ^ shift)
    by (rewrite <- Z.pow_add_r by lia; f_equal; lia).
  rewrite E, Z.mul_assoc, Z.div_add, Z.mod_add by lia. done.
Qed.

(** A shift of the high half alone. *)
Lemma whole_high shift : 64 <= shift -> product value / 2 ^ shift = high value / 2 ^ (shift - 64) /\
  (product value mod 2 ^ shift = 0 <-> low value = 0 /\ high value mod 2 ^ (shift - 64) = 0).
Proof.
  intros Hs. assert (0 < 2 ^ (shift - 64)) by (apply Z.pow_pos_nonneg; lia).
  assert (E : 2 ^ shift = 2 ^ 64 * 2 ^ (shift - 64))
    by (rewrite <- Z.pow_add_r by lia; f_equal; lia).
  assert (Hq : product value / 2 ^ 64 = high value /\ product value mod 2 ^ 64 = low value).
  { change (2 ^ 64) with 18446744073709551616. split; Z.div_mod_to_equations; lia. }
  destruct Hq as [Hq Hm]. split; [rewrite E, <-Z.div_div by lia; by rewrite Hq|].
  rewrite E, Z.rem_mul_r, Hq, Hm by lia.
  pose proof (Z.mod_pos_bound (high value) (2 ^ (shift - 64))).
  change (2 ^ 64) with 18446744073709551616. lia.
Qed.

Lemma u96_shift_right_exact shift : 53 <= shift < 86 ->
  product value / 2 ^ shift < 2 ^ 32 -> u96_shift_right value shift = product value / 2 ^ shift.
Proof.
  intros Hs Hfit. change (2 ^ 32) with 4294967296 in Hfit. unfold u96_shift_right.
  assert (Hpos : 0 <= product value / 2 ^ shift).
  { apply Z.div_pos; [|apply Z.pow_pos_nonneg; lia]. change (2 ^ 64) with 18446744073709551616. lia. }
  destruct (Z.ltb_spec shift 64) as [Hlt|Hge].
  - destruct (high_bits shift) as [E _]; [lia|]. rewrite Z.shiftr_div_pow2, E in * by lia.
    assert (Hp : 2 ^ (64 - shift) <= 2 ^ 11) by (apply Z.pow_le_mono_r; lia).
    assert (0 < 2 ^ (64 - shift)) by (apply Z.pow_pos_nonneg; lia).
    unfold shl64. rewrite Z.shiftl_mul_pow2, u64_small by
      (change (2 ^ 11) with 2048 in Hp; change (2 ^ 21) with 2097152 in Hhigh; nia || lia).
    rewrite <- (Z.shiftl_mul_pow2 (high value)), lor_shiftl_add, Z.shiftl_mul_pow2; try lia.
    + apply u32_small. lia.
    + split; [apply Z.div_pos; [lia|apply Z.pow_pos_nonneg; lia]|].
      apply Z.div_lt_upper_bound; [apply Z.pow_pos_nonneg; lia|].
      rewrite <- Z.pow_add_r by lia. replace (shift + (64 - shift)) with 64 by lia.
      change (2 ^ 64) with 18446744073709551616. lia.
  - destruct (whole_high shift) as [E _]; [lia|]. rewrite Z.shiftr_div_pow2, E by lia. done.
Qed.

Lemma u96_remainder_zero_exact shift : 53 <= shift < 86 ->
  u96_remainder_zero value shift = (product value mod 2 ^ shift =? 0).
Proof.
  intros Hs. unfold u96_remainder_zero, shl64.
  destruct (Z.ltb_spec shift 64) as [Hlt|Hge].
  - assert (2 ^ shift <= 2 ^ 63) by (apply Z.pow_le_mono_r; lia).
    assert (0 < 2 ^ shift) by (apply Z.pow_pos_nonneg; lia).
    change (2 ^ 63) with 9223372036854775808 in *.
    rewrite Z.shiftl_mul_pow2, Z.mul_1_l by lia.
    rewrite (u64_small (2 ^ shift)), u64_small, Z.sub_1_r, <-Z.ones_equiv, Z.land_ones by lia.
    by rewrite (proj2 (high_bits shift ltac:(lia))).
  - assert (2 ^ (shift - 64) <= 2 ^ 22) by (apply Z.pow_le_mono_r; lia).
    assert (0 < 2 ^ (shift - 64)) by (apply Z.pow_pos_nonneg; lia).
    change (2 ^ 22) with 4194304 in *.
    rewrite Z.shiftl_mul_pow2, Z.mul_1_l by lia.
    rewrite (u32_small (2 ^ (shift - 64))), u32_small, Z.sub_1_r, <-Z.ones_equiv, Z.land_ones by lia.
    destruct (whole_high shift) as [_ E]; [lia|].
    destruct (Z.eqb_spec (low value) 0) as [Hz|Hz]; cbn [negb].
    + destruct (Z.eqb_spec (product value mod 2 ^ shift) 0) as [Hm|Hm].
      * apply Z.eqb_eq. tauto.
      * apply Z.eqb_neq. tauto.
    + symmetry. apply Z.eqb_neq. tauto.
Qed.
End Products.

Lemma mantissa_compare f m p : 0 <= f -> f + Zpos p = Zpos m ->
  Pos.compare_cont Eq m p = (if f =? 0 then Eq else Gt) /\
  Pos.compare_cont Eq p m = (if f =? 0 then Eq else Lt).
Proof.
  intros Hf Hm. change (Pos.compare_cont Eq m p) with (Pos.compare m p).
  change (Pos.compare_cont Eq p m) with (Pos.compare p m).
  destruct (Z.eqb_spec f 0).
  - assert (m = p) as -> by lia. by rewrite Pos.compare_refl.
  - rewrite Pos.compare_gt_iff, Pos.compare_lt_iff. lia.
Qed.

(** Comparison with one, on the parts of the pattern. *)
Lemma one_comparison v : is_u64 v ->
  let exponent := (v mod 2 ^ 63) / 2 ^ 52 in
  exponent < 2047 ->
  double_lt v minus_one || double_lt plus_one v =
    bool_decide (1023 < exponent \/ exponent = 1023 /\ v mod 2 ^ 52 <> 0).
Proof.
  intros Hv exponent Hfinite. unfold double_lt.
  change (to_spec_float minus_one) with (S754_finite true 4503599627370496 (-52)).
  change (to_spec_float plus_one) with (S754_finite false 4503599627370496 (-52)).
  pose proof (exponent_div v Hv) as He. fold exponent in He.
  assert (Hr : 0 <= exponent < 2047) by
    (split; [apply Z.div_pos; [apply Z.mod_pos_bound|]; lia|done]).
  rewrite u32_small in He.
  2: { change 0x7ff with (Z.ones 11). rewrite Z.land_ones by lia.
       pose proof (Z.mod_pos_bound (Z.shiftr v 52) (2 ^ 11)). change (2 ^ 11) with 2048 in *. lia. }
  unfold to_spec_float. rewrite He, fraction_mod. set (f := v mod 2 ^ 52) in *.
  assert (Hf : 0 <= f < 2 ^ 52) by (apply Z.mod_pos_bound; lia).
  change (2 ^ 52) with 4503599627370496 in Hf. clearbody exponent f.
  rewrite (proj2 (Z.eqb_neq exponent 0x7ff)) by lia.
  destruct (Z.eqb_spec exponent 0) as [->|Hne].
  { rewrite bool_decide_eq_false_2 by lia. destruct f, (Z.testbit v 63); first [reflexivity | exfalso; lia]. }
  destruct (f + 4503599627370496) as [|m|m] eqn:Em; [lia| |lia].
  assert (Hc : Z.compare (exponent - 1075) (-52) = Z.compare exponent 1023)
    by (destruct (Z.compare_spec exponent 1023), (Z.compare_spec (exponent - 1075) (-52)); first [reflexivity | exfalso; lia]).
  destruct (mantissa_compare f m 4503599627370496) as [Hp Hp']; [lia|done|].
  unfold SFltb, SFcompare. rewrite (Z.compare_antisym (exponent - 1075) (-52)), Hc, Hp, Hp'.
  destruct (Z.compare_spec exponent 1023), (Z.testbit v 63), (Z.eqb_spec f 0);
    cbn; symmetry; (apply bool_decide_eq_true_2; lia) || (apply bool_decide_eq_false_2; lia).
Qed.

(** Twice the exact position of a coordinate among the levels, in the units of
    [unit_value], and the level nearest to it, ties to even. *)
Definition scaled_twice (v : double) : Z := UINT32_MAX * (2 ^ 1074 + unit_value v).

Definition rounded_level (v : double) (q : Z) : Prop :=
  is_u32 q /\ Z.abs (2 * 2 ^ 1074 * q - scaled_twice v) <= 2 ^ 1074 /\
  (Z.abs (2 * 2 ^ 1074 * q - scaled_twice v) = 2 ^ 1074 -> Z.even q = true).

Lemma land_1_even x : negb (Z.land x 1 =? 0) = negb (Z.even x).
Proof.
  change (Z.land x 1) with (Z.land x (Z.ones 1)). rewrite Z.land_ones by lia. change (2 ^ 1) with 2.
  rewrite Zmod_even. by destruct (Z.even x).
Qed.

(** The rounding of an exact position, given by its quotient. *)
Lemma rounded_base_exact s d (negative : bool) (X : Z) v :
  0 < s -> 0 <= d -> 0 <= X -> 2 * X <= UINT32_MAX * s -> s * d = 2 ^ 1074 ->
  unit_value v * UINT32_MAX = 2 * (if negative then - X else X) * d ->
  rounded_level v (rounded_base negative (X / s) (X mod s =? 0)).
Proof.
  intros Hs Hd HX Hmax HU Hv. set (Q := X / s). set (r := X mod s).
  assert (HQ : X = Q * s + r /\ 0 <= r < s /\ 0 <= Q <= 2147483647)
    by (unfold Q, r; pose proof (Z.div_mod X s); pose proof (Z.mod_pos_bound X s);
        pose proof (Z.div_pos X s); split; [nia|]; split; [lia|]; split; [lia|nia]).
  destruct HQ as (HXe & Hr & HQ). clearbody Q r.
  set (B := if negative then 2147483647 - Q else 2147483647 + Q).
  set (x := if negative then s - 2 * r else s + 2 * r).
  assert (HB : 0 <= B <= 4294967294) by (unfold B; destruct negative; lia).
  assert (HT : scaled_twice v = (2 * B * s + x) * d).
  { unfold scaled_twice. rewrite Z.mul_add_distr_l, <-HU, (Z.mul_comm _ (unit_value v)), Hv, HXe.
    unfold B, x. destruct negative; ring. }
  (* the candidates are [B] and its successor, [x] away and [2 s - x] away *)
  assert (Hcand : forall k, (k = 0 \/ k = 1) -> Z.abs (2 * k * s - x) <= s ->
            (Z.abs (2 * k * s - x) = s -> Z.even (B + k) = true) -> rounded_level v (B + k)).
  { intros k Hk Hle Heq. unfold rounded_level. rewrite HT, <-HU.
    replace (2 * (s * d) * (B + k) - (2 * B * s + x) * d) with ((2 * k * s - x) * d) by ring.
    rewrite Z.abs_mul, (Z.abs_eq d) by done. split; [lia|]. split; [by apply Z.mul_le_mono_nonneg_r|].
    intros E. apply Heq. assert (0 < 2 ^ 1074) by (apply Z.pow_pos_nonneg; lia). nia. }
  assert (Hbase : rounded_base negative Q (r =? 0) =
     B + if negative then if (r =? 0) && negb (Z.even B) then 1 else 0
         else if negb (r =? 0) || negb (Z.even B) then 1 else 0).
  { unfold rounded_base, B. destruct negative.
    - rewrite (u32_small (_ - _)), land_1_even by lia.
      destruct (_ && _); [apply u32_small|]; lia.
    - rewrite (u32_small (_ + Q)), land_1_even by lia.
      destruct (_ || _); [apply u32_small|]; lia. }
  rewrite Hbase. apply Hcand; unfold x;
    destruct negative, (Z.eqb_spec r 0) as [Hr0|Hr0], (Z.even B) eqn:E; cbn [andb orb negb];
    rewrite ?Z.add_0_r, ?Z.even_add, ?E; try lia; done || lia.
Qed.

(** The body below the range test. *)
Definition quantized_level (v : double) : Z :=
  let e := (v mod 2 ^ 63) / 2 ^ 52 in
  let f := v mod 2 ^ 52 in
  if Z.land v 0x7fffffffffffffff =? 0 then 2147483648
  else
    let '(significand, shift) :=
      if e =? 0 then (f, 1075) else (Z.lor 0x0010000000000000 f, u32 (1076 - e)) in
    if 86 <=? shift then if Z.testbit v 63 then 2147483647 else 2147483648
    else
      let product := multiply_u53_u32 significand 4294967295 in
      rounded_base (Z.testbit v 63) (u96_shift_right product shift) (u96_remainder_zero product shift).

(** The significand and the shift of an accepted coordinate. *)
Lemma decomposed v : in_cube v ->
  let e := (v mod 2 ^ 63) / 2 ^ 52 in
  let f := v mod 2 ^ 52 in
  exists significand shift,
    (if e =? 0 then (f, 1075) else (Z.lor 0x0010000000000000 f, u32 (1076 - e))) =
      (significand, shift) /\
    0 <= significand < 2 ^ 53 /\ 53 <= shift <= 1075 /\
    unit_magnitude (v mod 2 ^ 63) * 2 ^ shift = significand * 2 ^ 1075 /\
    2 * significand <= 2 ^ shift.
Proof.
  intros Hin e f. pose proof (proj1 Hin) as Hv.
  apply (in_cube_exponent v Hv) in Hin. cbv zeta in Hin. fold e f in Hin.
  destruct (magnitude_parts v Hv) as (_ & Hf & He). fold e f in Hf, He.
  assert (Hfb : 0 <= f < 2 ^ 52) by (apply Z.mod_pos_bound; lia).
  assert (Hmono : forall a b, 0 <= a <= b -> 2 ^ a <= 2 ^ b) by (intros; apply Z.pow_le_mono_r; lia).
  destruct (Z.eqb_spec e 0) as [E|E].
  - exists f, 1075. rewrite unit_magnitude_subnormal, Hf by done. fold f.
    pose proof (Hmono 53 1075). change (2 ^ 53) with (2 * 2 ^ 52) in *.
    split; [done|]. split; [lia|]. split; [lia|]. split; lia.
  - exists (2 ^ 52 + f), (1076 - e). rewrite unit_magnitude_normal, Hf by (fold e; lia). fold e f.
    pose proof (lor_shiftl_add f 52 1 ltac:(lia) Hfb ltac:(lia)) as Hlor.
    change (Z.shiftl 1 52) with 4503599627370496 in Hlor.
    rewrite Z.lor_comm, Hlor, u32_small by lia. change (2 ^ 53) with (2 * 2 ^ 52).
    split; [f_equal; lia|]. split; [lia|]. split; [lia|]. split.
    + rewrite <- Z.mul_assoc, <-Z.pow_add_r by lia. do 2 f_equal. lia.
    + destruct Hin as [Hlt|[-> Hz]].
      * pose proof (Hmono 54 (1076 - e)). change (2 ^ 54) with (2 * (2 * 2 ^ 52)) in *. lia.
      * change (2 ^ (1076 - 1023)) with (2 * 2 ^ 52). lia.
Qed.

(** The sign of an accepted coordinate. *)
Lemma signed_value v : is_u64 v ->
  unit_value v = (if Z.testbit v 63 then -1 else 1) * unit_magnitude (v mod 2 ^ 63).
Proof.
  intros Hv. destruct (magnitude_parts v Hv) as (-> & _ & _).
  replace (Z.testbit v 63) with (negb (v <? 2 ^ 63)); [by destruct (v <? 2 ^ 63)|].
  rewrite Z.testbit_eqb, <-sign_bit, Z.shiftr_div_pow2 by (done || lia).
  change (2 ^ 63) with 9223372036854775808.
  assert (v / 9223372036854775808 = 0 \/ v / 9223372036854775808 = 1) as [-> | ->]; [|done|done].
  Z.div_mod_to_equations. lia.
Qed.

Lemma unit_magnitude_pos m : 0 <= m -> m <> 0 -> 0 < unit_magnitude m.
Proof.
  intros Hm Hnz. destruct (Z.eq_dec (m / 2 ^ 52) 0) as [E|E].
  - rewrite unit_magnitude_subnormal by done. rewrite Z.mod_eq, E by lia. lia.
  - assert (0 <= m / 2 ^ 52) by (apply Z.div_pos; lia).
    rewrite unit_magnitude_normal by lia. apply Z.mul_pos_pos; [|apply Z.pow_pos_nonneg; lia].
    pose proof (Z.mod_pos_bound m (2 ^ 52)). lia.
Qed.

(** A coordinate less than half a level away from zero. *)
Lemma tiny_level v u : unit_value v = (if Z.testbit v 63 then -1 else 1) * u ->
  0 < u -> UINT32_MAX * u < 2 ^ 1074 ->
  rounded_level v (if Z.testbit v 63 then 2147483647 else 2147483648).
Proof.
  intros Hv Hu Hs. unfold rounded_level, scaled_twice. rewrite Hv.
  assert (0 < 2 ^ 1074) by (apply Z.pow_pos_nonneg; lia). set (U := 2 ^ 1074) in *. clearbody U.
  destruct (Z.testbit v 63); split; lia || (split; [lia|]; try done; intros; lia).
Qed.

Lemma quantized_level_rounded v : in_cube v -> rounded_level v (quantized_level v).
Proof.
  intros Hin. pose proof (proj1 Hin) as Hv. pose proof (signed_value v Hv) as Hval.
  destruct (decomposed v Hin) as (significand & shift & Hd & Hsig & Hshift & Hmag & Hhalf).
  unfold quantized_level. rewrite Hd. clear Hd.
  change 0x7fffffffffffffff with (Z.ones 63). rewrite Z.land_ones by lia.
  set (u := unit_magnitude (v mod 2 ^ 63)) in *.
  destruct (Z.eqb_spec (v mod 2 ^ 63) 0) as [Ez|Ez].
  { assert (u = 0) as Hu by (unfold u; by rewrite Ez). rewrite Hu, Z.mul_0_r in Hval.
    split; [lia|]. unfold scaled_twice. rewrite Hval.
    assert (0 < 2 ^ 1074) by (apply Z.pow_pos_nonneg; lia). split; [lia|done]. }
  assert (Hpos : 0 < 2 ^ shift) by (apply Z.pow_pos_nonneg; lia).
  destruct (Z.leb_spec 86 shift) as [Hbig|Hsmall].
  - apply (tiny_level v u Hval).
    + apply unit_magnitude_pos; [apply Z.mod_pos_bound; lia|done].
    + assert (E1 : 2 ^ 53 * 2 ^ 1075 = 2 ^ 86 * 2 ^ 1042) by (rewrite <- !Z.pow_add_r by lia; done).
      assert (E2 : 2 ^ 1074 = 2 ^ 32 * 2 ^ 1042) by (rewrite <- Z.pow_add_r by lia; done).
      assert (2 ^ 86 <= 2 ^ shift) by (apply Z.pow_le_mono_r; lia).
      assert (0 < 2 ^ 1042) by (apply Z.pow_pos_nonneg; lia).
      assert (0 < 2 ^ 1075) by (apply Z.pow_pos_nonneg; lia).
      rewrite E2. change (2 ^ 32) with 4294967296. enough (u < 2 ^ 1042) by lia.
      apply Z.nle_gt. intros Hle. nia.
  - destruct (multiply_u53_u32_exact significand 4294967295 Hsig ltac:(lia)) as (Hl & Hh & Hp).
    set (product := multiply_u53_u32 significand 4294967295) in *.
    assert (Hq : significand * 4294967295 / 2 ^ shift < 2 ^ 32)
      by (apply Z.div_lt_upper_bound; [done|]; change (2 ^ 32) with 4294967296; nia).
    rewrite u96_shift_right_exact, u96_remainder_zero_exact, Hp by (rewrite ?Hp; done || lia).
    assert (HU : 2 ^ shift * 2 ^ (1074 - shift) = 2 ^ 1074)
      by (rewrite <- Z.pow_add_r by lia; f_equal; lia).
    apply (rounded_base_exact (2 ^ shift) (2 ^ (1074 - shift)) (Z.testbit v 63));
      [done|apply Z.pow_nonneg; lia|lia|lia|done|].
    rewrite Hval. assert (u = 2 * significand * 2 ^ (1074 - shift)) as ->.
    { apply (Z.mul_reg_r _ _ (2 ^ shift)); [lia|]. rewrite Hmag.
      change 1075 with (1 + 1074). rewrite Z.pow_add_r, <-HU by lia. change (2 ^ 1) with 2. ring. }
    destruct (Z.testbit v 63); ring.
Qed.

(** C34: Quantization accepts exactly the finite coordinates of [-1, 1], reports
    [NUMERIC_OUT_OF_RANGE] for every other double and then leaves the result
    alone; for an accepted coordinate it returns the one of the 2^32 levels that
    is nearest to [(2^32 - 1) * (1 + coordinate) / 2], the even one of a tie. *)
Theorem quantize_correctly_rounded v old : is_u64 v ->
  let '(status, quantized) := laplace_unicode_quantize_component_u32 v (Some old) in
  (status = LAPLACE_UNICODE_OK <-> in_cube v) /\
  (in_cube v -> exists q, quantized = Some q /\ rounded_level v q) /\
  (~ in_cube v -> status = LAPLACE_UNICODE_NUMERIC_OUT_OF_RANGE /\ quantized = Some old).
Proof.
  intros Hv. pose proof (in_cube_exponent v Hv) as Hcube. cbv zeta in Hcube.
  destruct (magnitude_parts v Hv) as (Hval & Hf & He).
  unfold laplace_unicode_quantize_component_u32. cbn [is_null store].
  rewrite exponent_div, fraction_mod by done.
  set (e := (v mod 2 ^ 63) / 2 ^ 52) in *. set (f := v mod 2 ^ 52) in *.
  destruct ((e =? 0x7ff) || double_lt v minus_one || double_lt plus_one v) eqn:Erange.
  { assert (Hout : ~ in_cube v).
    { rewrite Hcube. destruct (Z.eqb_spec e 0x7ff) as [E|E]; [lia|].
      cbn [orb] in Erange. rewrite one_comparison, bool_decide_eq_true in Erange by (done || (fold e; lia)).
      fold e f in Erange. lia. }
    split; [split; [discriminate|tauto]|]. tauto. }
  assert (Hin : in_cube v).
  { rewrite Hcube. rewrite <- orb_assoc in Erange. apply orb_false_iff in Erange as [E%Z.eqb_neq Erange].
    rewrite one_comparison, bool_decide_eq_false in Erange by (done || (fold e; lia)). fold e f in Erange. lia. }
  enough (H : exists q, _ = (LAPLACE_UNICODE_OK, Some q) /\ rounded_level v q)
    by (destruct H as (q & -> & Hq); split; [tauto|]; split; [eauto|tauto]).
  exists (quantized_level v). split; [|by apply quantized_level_rounded].
  unfold quantized_level. fold e f. destruct (_ =? 0); [done|].
  destruct (if e =? 0 then _ else _) as [significand shift]. by destruct (86 <=? shift).
Qed.

Lemma quantize_correctly_rounded_witness :
  laplace_unicode_quantize_component_u32 0x3fe0000000000000 (Some 0) =
    (LAPLACE_UNICODE_OK, Some 3221225471) /\ in_cube 0x3fe0000000000000.
Proof.
  pose proof (quantize_correctly_rounded 0x3fe0000000000000 0 ltac:(lia)) as H.
  assert (E : laplace_unicode_quantize_component_u32 0x3fe0000000000000 (Some 0) =
    (LAPLACE_UNICODE_OK, Some 3221225471)) by (vm_compute; reflexivity).
  rewrite E in H. destruct H as [H _]. split; [exact E|]. apply H. reflexivity.
Defined.

(** The levels are in the order of the coordinates, so the key's cells are too. *)
Lemma rounded_level_monotone v w p q :
  rounded_level v p -> rounded_level w q -> unit_value v <= unit_value w -> p <= q.
Proof.
  intros (_ & Hp & Ep) (_ & Hq & Eq) Hle. unfold scaled_twice in *.
  assert (0 < 2 ^ 1074) by (apply Z.pow_pos_nonneg; lia). set (U := 2 ^ 1074) in *. clearbody U.
  apply Z.nlt_ge. intros Hlt.
  assert (p = q + 1) as -> by nia.
  assert (Hpe : Z.even (q + 1) = true) by (apply Ep; nia).
  assert (Hqe : Z.even q = true) by (apply Eq; nia).
  rewrite Z.even_add, Hqe in Hpe. discriminate.
Qed.
