(* ===== verification/UnicodeCollation.v ===== *)
(** * Unicode collation, composition and manifest records

    Models the records of a Unicode root stream other than the atoms, in
    [engine/src/unicode_root.c]: the collation elements, the DUCET position and
    contraction records that hold them, the normalization compositions and the
    root manifest.  A pointer is the memory from the pointed byte on; an encoder
    clears its output and stores the fields at their offsets, an opener checks
    the fields of a buffer and leaves a view into it.

    For each record, [*_bytes] is its canonical encoding; the encoder writes it
    and the opener accepts the buffers that start with the encoding of a valid
    record, and no others. *)
From stdpp Require Import prelude strings.
From Stdlib Require Import ZArith Lia.
From S2P Require Import Prelude Bytes Layout Hash Identity UnicodeFields.

Abbreviation LAPLACE_UNICODE_DUCET_POSITION_VERSION := 1 (only parsing).
Abbreviation LAPLACE_UNICODE_DUCET_POSITION_HEADER_BYTES := 32 (only parsing).
Abbreviation LAPLACE_UNICODE_COLLATION_ELEMENT_BYTES := 8 (only parsing).
Abbreviation LAPLACE_UNICODE_DUCET_CONTRACTION_VERSION := 1 (only parsing).
Abbreviation LAPLACE_UNICODE_DUCET_CONTRACTION_HEADER_BYTES := 32 (only parsing).
Abbreviation LAPLACE_UNICODE_NORMALIZATION_COMPOSITION_VERSION := 1 (only parsing).
Abbreviation LAPLACE_UNICODE_NORMALIZATION_COMPOSITION_BYTES := 32 (only parsing).
Abbreviation LAPLACE_UNICODE_ROOT_MANIFEST_VERSION := 2 (only parsing).
Abbreviation LAPLACE_UNICODE_ROOT_MANIFEST_BYTES := 512 (only parsing).
Abbreviation LAPLACE_UNICODE_ATOMIC_PHYSICALITY_RECIPE_VERSION := 1 (only parsing).
Abbreviation LAPLACE_UNICODE_DUCET_EXPLICIT := 1 (only parsing).
Abbreviation LAPLACE_UNICODE_DUCET_LUP_SURROGATE_EXTENSION := 4 (only parsing).

(** The four characters at the front of each record. *)
Definition LUDP : list Z := domain_bytes "LUDP".
Definition LUCR : list Z := domain_bytes "LUCR".
Definition LUNC : list Z := domain_bytes "LUNC".
Definition LURM : list Z := domain_bytes "LURM".

Definition unicode_root_physicality_recipe_version_valid (version : Z) : bool :=
  version =? LAPLACE_UNICODE_ATOMIC_PHYSICALITY_RECIPE_VERSION.

(** ** Collation elements *)
Record laplace_unicode_collation_element := mk_element {
  primary : Z;
  secondary : Z;
  tertiary : Z;
  variable : Z;
  element_reserved : Z }.

Definition zero_element : laplace_unicode_collation_element := mk_element 0 0 0 0 0.

Definition read_u16be (bytes : list Z) : Z := u16 (Z.lor (Z.shiftl (bytes !!! 0%nat) 8) (bytes !!! 1%nat)).
Definition write_u16be (value : Z) : list Z := [u8 (Z.shiftr value 8); u8 value].

Definition ducet_provenance_valid (provenance : Z) : bool :=
  (LAPLACE_UNICODE_DUCET_EXPLICIT <=? provenance) &&
  (provenance <=? LAPLACE_UNICODE_DUCET_LUP_SURROGATE_EXTENSION).

Definition collation_element_valid (element : ptr laplace_unicode_collation_element) : bool :=
  match element with
  | Some element => (variable element <=? 1) && (element_reserved element =? 0)
  | None => false
  end.

(** The eight bytes that are stored. *)
Definition collation_element_encode (element : laplace_unicode_collation_element) : list Z :=
  [variable element; 0] ++ write_u16be (primary element) ++ write_u16be (secondary element) ++
  write_u16be (tertiary element).

Definition collation_element_open (encoded : ptr (list Z))
    (element : ptr laplace_unicode_collation_element)
    : laplace_unicode_status * ptr laplace_unicode_collation_element :=
  match encoded, element with
  | Some encoded, Some _ =>
      return_when (1 <? u8_at 0 encoded) || negb (u8_at 1 encoded =? 0)
        with (LAPLACE_UNICODE_RECORD_INVALID, element) ;;
      (LAPLACE_UNICODE_OK, Some {|
         primary := read_u16be (drop 2 encoded);
         secondary := read_u16be (drop 4 encoded);
         tertiary := read_u16be (drop 6 encoded);
         variable := u8_at 0 encoded;
         element_reserved := u8_at 1 encoded |})
  | _, _ => (LAPLACE_UNICODE_INVALID_ARGUMENT, element)
  end.

(** The elements stored from an offset on, and the offset behind them. *)
Definition store_elements (elements : list laplace_unicode_collation_element)
    (state : Z * list Z) : Z * list Z :=
  foldl (fun '(offset, output) element =>
           (offset + LAPLACE_UNICODE_COLLATION_ELEMENT_BYTES,
            put offset (collation_element_encode element) output)) state elements.

(** ** DUCET positions *)
Record laplace_unicode_ducet_position_record := mk_ducet_position {
  elements : ptr (list laplace_unicode_collation_element);
  equivalence_key : ptr (list Z);
  codepoint_position : Z;
  element_count : Z;
  equivalence_key_bytes : Z;
  provenance : Z;
  reserved : list Z }.

Record laplace_unicode_ducet_position_view := mk_ducet_position_view {
  encoded_elements : ptr (list Z);
  view_equivalence_key : ptr (list Z);
  encoded_record : ptr (list Z);
  view_codepoint_position : Z;
  view_element_count : Z;
  view_equivalence_key_bytes : Z;
  encoded_bytes : Z;
  view_provenance : Z }.

Definition zero_ducet_position_view : laplace_unicode_ducet_position_view :=
  mk_ducet_position_view None None None 0 0 0 0 0.

Definition laplace_unicode_ducet_position_measure
    (record : ptr laplace_unicode_ducet_position_record) (encoded_bytes : ptr Z)
    : laplace_unicode_status * ptr Z :=
  match record, encoded_bytes with
  | Some record, Some _ =>
      return_when (LAPLACE_UNICODE_ROOT_POPULATION <=? codepoint_position record) ||
                  negb (ducet_provenance_valid (provenance record)) ||
                  negb (reserved record !!! 0%nat =? 0) || negb (reserved record !!! 1%nat =? 0) ||
                  negb (reserved record !!! 2%nat =? 0) || is_null (elements record) ||
                  (element_count record =? 0) || is_null (equivalence_key record) ||
                  (equivalence_key_bytes record =? 0)
        with (LAPLACE_UNICODE_RECORD_INVALID, encoded_bytes) ;;
      return_when negb (forallb (fun element => collation_element_valid (Some element))
                          (cells (elements record) (element_count record)))
        with (LAPLACE_UNICODE_RECORD_INVALID, encoded_bytes) ;;
      let required := LAPLACE_UNICODE_DUCET_POSITION_HEADER_BYTES +
        element_count record * LAPLACE_UNICODE_COLLATION_ELEMENT_BYTES +
        equivalence_key_bytes record in
      return_when UINT32_MAX <? required with (LAPLACE_UNICODE_SIZE_OVERFLOW, encoded_bytes) ;;
      (LAPLACE_UNICODE_OK, store encoded_bytes required)
  | _, _ => (LAPLACE_UNICODE_INVALID_ARGUMENT, encoded_bytes)
  end.

Definition laplace_unicode_ducet_position_encode
    (record : ptr laplace_unicode_ducet_position_record) (output : ptr (list Z))
    (output_capacity : Z) (encoded_bytes : ptr Z)
    : laplace_unicode_status * ptr (list Z) * ptr Z :=
  match record, output, encoded_bytes with
  | Some r, Some memory, Some _ =>
      match laplace_unicode_ducet_position_measure record (Some 0) with
      | (LAPLACE_UNICODE_OK, measured) =>
          let required := default 0 measured in
          return_when output_capacity <? required
            with (LAPLACE_UNICODE_BUFFER_TOO_SMALL, output, store encoded_bytes required) ;;
          let memory := puts
            [(0, LUDP);
             (4, store_le 2 LAPLACE_UNICODE_DUCET_POSITION_VERSION);
             (6, store_le 2 LAPLACE_UNICODE_DUCET_POSITION_HEADER_BYTES);
             (8, store_le 4 (u32 required));
             (12, store_le 4 (codepoint_position r));
             (16, [provenance r]);
             (20, store_le 4 (element_count r));
             (24, store_le 4 (equivalence_key_bytes r))]
            (put 0 (zeros (Z.to_nat required)) memory) in
          let '(offset, memory) := store_elements (cells (elements r) (element_count r))
            (LAPLACE_UNICODE_DUCET_POSITION_HEADER_BYTES, memory) in
          let memory := put offset (cells (equivalence_key r) (equivalence_key_bytes r)) memory in
          (LAPLACE_UNICODE_OK, Some memory, store encoded_bytes required)
      | (status, _) => (status, output, encoded_bytes)
      end
  | _, _, _ => (LAPLACE_UNICODE_INVALID_ARGUMENT, output, encoded_bytes)
  end.

Definition laplace_unicode_ducet_position_element
    (view : ptr laplace_unicode_ducet_position_view) (element_index : Z)
    (element : ptr laplace_unicode_collation_element)
    : laplace_unicode_status * ptr laplace_unicode_collation_element :=
  match view, element with
  | Some view, Some _ =>
      return_when is_null (encoded_elements view) || (view_element_count view <=? element_index)
        with (LAPLACE_UNICODE_INVALID_ARGUMENT, element) ;;
      collation_element_open
        (advance (element_index * LAPLACE_UNICODE_COLLATION_ELEMENT_BYTES) <$> encoded_elements view)
        element
  | _, _ => (LAPLACE_UNICODE_INVALID_ARGUMENT, element)
  end.

Definition unicode_ok {A} (result : laplace_unicode_status * A) : bool :=
  match result with (LAPLACE_UNICODE_OK, _) => true | _ => false end.

(** [for (index = 0u; index < count; ++index)] with a return on the first
    failure. *)
Definition every_index (count : Z) (open : Z -> bool) : bool :=
  forallb (fun index => open (Z.of_nat index)) (seq 0 (Z.to_nat count)).

Definition laplace_unicode_ducet_position_open (encoded : ptr (list Z)) (available_bytes : Z)
    (view : ptr laplace_unicode_ducet_position_view) (consumed_bytes : ptr Z)
    : laplace_unicode_status * ptr laplace_unicode_ducet_position_view * ptr Z :=
  match encoded, view, consumed_bytes with
  | Some m, Some _, Some _ =>
      return_when (available_bytes <? LAPLACE_UNICODE_DUCET_POSITION_HEADER_BYTES) ||
                  negb (bytes_equal (slice 0 4 m) LUDP) ||
                  negb (u16_at 4 m =? LAPLACE_UNICODE_DUCET_POSITION_VERSION) ||
                  negb (u16_at 6 m =? LAPLACE_UNICODE_DUCET_POSITION_HEADER_BYTES) ||
                  negb (u8_at 17 m =? 0) || negb (u8_at 18 m =? 0) || negb (u8_at 19 m =? 0) ||
                  negb (u32_at 28 m =? 0)
        with (LAPLACE_UNICODE_RECORD_INVALID, view, consumed_bytes) ;;
      let record_bytes := u32_at 8 m in
      let element_count := u32_at 20 m in
      let key_bytes := u32_at 24 m in
      return_when (element_count =? 0) || (key_bytes =? 0)
        with (LAPLACE_UNICODE_RECORD_INVALID, view, consumed_bytes) ;;
      let element_bytes := element_count * LAPLACE_UNICODE_COLLATION_ELEMENT_BYTES in
      let required := LAPLACE_UNICODE_DUCET_POSITION_HEADER_BYTES + element_bytes + key_bytes in
      return_when (UINT32_MAX <? required) || negb (record_bytes =? required) ||
                  (available_bytes <? record_bytes) ||
                  (LAPLACE_UNICODE_ROOT_POPULATION <=? u32_at 12 m) ||
                  negb (ducet_provenance_valid (u8_at 16 m))
        with (LAPLACE_UNICODE_RECORD_INVALID, view, consumed_bytes) ;;
      let first := drop 32 m in
      let opened := {|
        encoded_elements := Some first;
        view_equivalence_key := Some (advance element_bytes first);
        encoded_record := encoded;
        view_codepoint_position := u32_at 12 m;
        view_element_count := element_count;
        view_equivalence_key_bytes := key_bytes;
        encoded_bytes := record_bytes;
        view_provenance := u8_at 16 m |} in
      return_when negb (every_index element_count (fun index =>
                    unicode_ok (laplace_unicode_ducet_position_element (Some opened) index
                                  (Some zero_element))))
        with (LAPLACE_UNICODE_RECORD_INVALID, Some opened, consumed_bytes) ;;
      (LAPLACE_UNICODE_OK, Some opened, store consumed_bytes record_bytes)
  | _, _, _ => (LAPLACE_UNICODE_INVALID_ARGUMENT, view, consumed_bytes)
  end.

(** ** Normalization compositions *)
Record laplace_unicode_normalization_composition := mk_composition {
  starter_position : Z;
  combining_position : Z;
  composite_position : Z }.

Definition laplace_unicode_normalization_composition_encode
    (record : ptr laplace_unicode_normalization_composition) (output : ptr (list Z))
    : laplace_unicode_status * ptr (list Z) :=
  match record, output with
  | Some r, Some memory =>
      return_when (LAPLACE_UNICODE_ROOT_POPULATION <=? starter_position r) ||
                  (LAPLACE_UNICODE_ROOT_POPULATION <=? combining_position r) ||
                  (LAPLACE_UNICODE_ROOT_POPULATION <=? composite_position r)
        with (LAPLACE_UNICODE_RECORD_INVALID, output) ;;
      (LAPLACE_UNICODE_OK, Some (puts
         [(0, LUNC);
          (4, store_le 2 LAPLACE_UNICODE_NORMALIZATION_COMPOSITION_VERSION);
          (6, store_le 2 LAPLACE_UNICODE_NORMALIZATION_COMPOSITION_BYTES);
          (8, store_le 4 LAPLACE_UNICODE_NORMALIZATION_COMPOSITION_BYTES);
          (12, store_le 4 (starter_position r));
          (16, store_le 4 (combining_position r));
          (20, store_le 4 (composite_position r))]
         (put 0 (zeros 32) memory)))
  | _, _ => (LAPLACE_UNICODE_RECORD_INVALID, output)
  end.

Definition laplace_unicode_normalization_composition_open (encoded : ptr (list Z))
    (available_bytes : Z) (record : ptr laplace_unicode_normalization_composition)
    (consumed_bytes : ptr Z)
    : laplace_unicode_status * ptr laplace_unicode_normalization_composition * ptr Z :=
  match encoded, record, consumed_bytes with
  | Some m, Some _, Some _ =>
      return_when (available_bytes <? LAPLACE_UNICODE_NORMALIZATION_COMPOSITION_BYTES) ||
                  negb (bytes_equal (slice 0 4 m) LUNC) ||
                  negb (u16_at 4 m =? LAPLACE_UNICODE_NORMALIZATION_COMPOSITION_VERSION) ||
                  negb (u16_at 6 m =? LAPLACE_UNICODE_NORMALIZATION_COMPOSITION_BYTES) ||
                  negb (u32_at 8 m =? LAPLACE_UNICODE_NORMALIZATION_COMPOSITION_BYTES) ||
                  negb (u32_at 24 m =? 0) || negb (u32_at 28 m =? 0)
        with (LAPLACE_UNICODE_RECORD_INVALID, record, consumed_bytes) ;;
      let decoded := mk_composition (u32_at 12 m) (u32_at 16 m) (u32_at 20 m) in
      return_when (LAPLACE_UNICODE_ROOT_POPULATION <=? starter_position decoded) ||
                  (LAPLACE_UNICODE_ROOT_POPULATION <=? combining_position decoded) ||
                  (LAPLACE_UNICODE_ROOT_POPULATION <=? composite_position decoded)
        with (LAPLACE_UNICODE_RECORD_INVALID, record, consumed_bytes) ;;
      (LAPLACE_UNICODE_OK, Some decoded,
       store consumed_bytes LAPLACE_UNICODE_NORMALIZATION_COMPOSITION_BYTES)
  | _, _, _ => (LAPLACE_UNICODE_INVALID_ARGUMENT, record, consumed_bytes)
  end.

(** ** DUCET contractions *)
Record laplace_unicode_ducet_contraction_record := mk_ducet_contraction {
  sequence : ptr (list Z);
  contraction_elements : ptr (list laplace_unicode_collation_element);
  source_line_ordinal : Z;
  sequence_count : Z;
  contraction_element_count : Z }.

Record laplace_unicode_ducet_contraction_view := mk_ducet_contraction_view {
  encoded_sequence : ptr (list Z);
  contraction_encoded_elements : ptr (list Z);
  contraction_encoded_record : ptr (list Z);
  view_source_line_ordinal : Z;
  view_sequence_count : Z;
  view_contraction_element_count : Z;
  contraction_encoded_bytes : Z }.

Definition zero_ducet_contraction_view : laplace_unicode_ducet_contraction_view :=
  mk_ducet_contraction_view None None None 0 0 0 0.

Definition laplace_unicode_ducet_contraction_measure
    (record : ptr laplace_unicode_ducet_contraction_record) (encoded_bytes : ptr Z)
    : laplace_unicode_status * ptr Z :=
  match record, encoded_bytes with
  | Some record, Some _ =>
      return_when (source_line_ordinal record =? 0) || is_null (sequence record) ||
                  (sequence_count record <? 2) || is_null (contraction_elements record) ||
                  (contraction_element_count record =? 0)
        with (LAPLACE_UNICODE_RECORD_INVALID, encoded_bytes) ;;
      return_when negb (forallb (fun position => position <? LAPLACE_UNICODE_ROOT_POPULATION)
                          (cells (sequence record) (sequence_count record)))
        with (LAPLACE_UNICODE_RECORD_INVALID, encoded_bytes) ;;
      return_when negb (forallb (fun element => collation_element_valid (Some element))
                          (cells (contraction_elements record) (contraction_element_count record)))
        with (LAPLACE_UNICODE_RECORD_INVALID, encoded_bytes) ;;
      let sequence_bytes := sequence_count record * 4 in
      let element_bytes :=
        contraction_element_count record * LAPLACE_UNICODE_COLLATION_ELEMENT_BYTES in
      let required :=
        LAPLACE_UNICODE_DUCET_CONTRACTION_HEADER_BYTES + sequence_bytes + element_bytes in
      return_when UINT32_MAX <? required with (LAPLACE_UNICODE_SIZE_OVERFLOW, encoded_bytes) ;;
      (LAPLACE_UNICODE_OK, store encoded_bytes required)
  | _, _ => (LAPLACE_UNICODE_INVALID_ARGUMENT, encoded_bytes)
  end.

Definition store_sequence (positions : list Z) (state : Z * list Z) : Z * list Z :=
  foldl (fun '(offset, output) position => (offset + 4, put offset (store_le 4 position) output))
    state positions.

Definition laplace_unicode_ducet_contraction_encode
    (record : ptr laplace_unicode_ducet_contraction_record) (output : ptr (list Z))
    (output_capacity : Z) (encoded_bytes : ptr Z)
    : laplace_unicode_status * ptr (list Z) * ptr Z :=
  match record, output, encoded_bytes with
  | Some r, Some memory, Some _ =>
      match laplace_unicode_ducet_contraction_measure record (Some 0) with
      | (LAPLACE_UNICODE_OK, measured) =>
          let required := default 0 measured in
          return_when output_capacity <? required
            with (LAPLACE_UNICODE_BUFFER_TOO_SMALL, output, store encoded_bytes required) ;;
          let memory := puts
            [(0, LUCR);
             (4, store_le 2 LAPLACE_UNICODE_DUCET_CONTRACTION_VERSION);
             (6, store_le 2 LAPLACE_UNICODE_DUCET_CONTRACTION_HEADER_BYTES);
             (8, store_le 4 (u32 required));
             (12, store_le 4 (source_line_ordinal r));
             (16, store_le 4 (sequence_count r));
             (20, store_le 4 (contraction_element_count r))]
            (put 0 (zeros (Z.to_nat required)) memory) in
          let state := store_sequence (cells (sequence r) (sequence_count r))
            (LAPLACE_UNICODE_DUCET_CONTRACTION_HEADER_BYTES, memory) in
          let '(_, memory) := store_elements
            (cells (contraction_elements r) (contraction_element_count r)) state in
          (LAPLACE_UNICODE_OK, Some memory, store encoded_bytes required)
      | (status, _) => (status, output, encoded_bytes)
      end
  | _, _, _ => (LAPLACE_UNICODE_INVALID_ARGUMENT, output, encoded_bytes)
  end.

Definition laplace_unicode_ducet_contraction_position
    (view : ptr laplace_unicode_ducet_contraction_view) (position_index : Z)
    (codepoint_position : ptr Z) : laplace_unicode_status * ptr Z :=
  match view, codepoint_position with
  | Some view, Some _ =>
      return_when is_null (encoded_sequence view) || (view_sequence_count view <=? position_index)
        with (LAPLACE_UNICODE_INVALID_ARGUMENT, codepoint_position) ;;
      let decoded := read_u32le (advance (position_index * 4) (default [] (encoded_sequence view))) in
      return_when LAPLACE_UNICODE_ROOT_POPULATION <=? decoded
        with (LAPLACE_UNICODE_RECORD_INVALID, codepoint_position) ;;
      (LAPLACE_UNICODE_OK, Some decoded)
  | _, _ => (LAPLACE_UNICODE_INVALID_ARGUMENT, codepoint_position)
  end.

Definition laplace_unicode_ducet_contraction_element
    (view : ptr laplace_unicode_ducet_contraction_view) (element_index : Z)
    (element : ptr laplace_unicode_collation_element)
    : laplace_unicode_status * ptr laplace_unicode_collation_element :=
  match view, element with
  | Some view, Some _ =>
      return_when is_null (contraction_encoded_elements view) ||
                  (view_contraction_element_count view <=? element_index)
        with (LAPLACE_UNICODE_INVALID_ARGUMENT, element) ;;
      collation_element_open
        (advance (element_index * LAPLACE_UNICODE_COLLATION_ELEMENT_BYTES) <$>
           contraction_encoded_elements view) element
  | _, _ => (LAPLACE_UNICODE_INVALID_ARGUMENT, element)
  end.

Definition laplace_unicode_ducet_contraction_open (encoded : ptr (list Z)) (available_bytes : Z)
    (view : ptr laplace_unicode_ducet_contraction_view) (consumed_bytes : ptr Z)
    : laplace_unicode_status * ptr laplace_unicode_ducet_contraction_view * ptr Z :=
  match encoded, view, consumed_bytes with
  | Some m, Some _, Some _ =>
      return_when (available_bytes <? LAPLACE_UNICODE_DUCET_CONTRACTION_HEADER_BYTES) ||
                  negb (bytes_equal (slice 0 4 m) LUCR) ||
                  negb (u16_at 4 m =? LAPLACE_UNICODE_DUCET_CONTRACTION_VERSION) ||
                  negb (u16_at 6 m =? LAPLACE_UNICODE_DUCET_CONTRACTION_HEADER_BYTES) ||
                  (u32_at 12 m =? 0) || negb (u32_at 24 m =? 0) || negb (u32_at 28 m =? 0)
        with (LAPLACE_UNICODE_RECORD_INVALID, view, consumed_bytes) ;;
      let record_bytes := u32_at 8 m in
      let sequence_count := u32_at 16 m in
      let element_count := u32_at 20 m in
      return_when (sequence_count <? 2) || (element_count =? 0)
        with (LAPLACE_UNICODE_RECORD_INVALID, view, consumed_bytes) ;;
      let sequence_bytes := sequence_count * 4 in
      let element_bytes := element_count * LAPLACE_UNICODE_COLLATION_ELEMENT_BYTES in
      let required :=
        LAPLACE_UNICODE_DUCET_CONTRACTION_HEADER_BYTES + sequence_bytes + element_bytes in
      return_when (UINT32_MAX <? required) || negb (record_bytes =? required) ||
                  (available_bytes <? record_bytes)
        with (LAPLACE_UNICODE_RECORD_INVALID, view, consumed_bytes) ;;
      let first := drop 32 m in
      let opened := {|
        encoded_sequence := Some first;
        contraction_encoded_elements := Some (advance sequence_bytes first);
        contraction_encoded_record := encoded;
        view_source_line_ordinal := u32_at 12 m;
        view_sequence_count := sequence_count;
        view_contraction_element_count := element_count;
        contraction_encoded_bytes := record_bytes |} in
      return_when negb (every_index sequence_count (fun index =>
                    unicode_ok (laplace_unicode_ducet_contraction_position (Some opened) index
                                  (Some 0))))
        with (LAPLACE_UNICODE_RECORD_INVALID, Some opened, consumed_bytes) ;;
      return_when negb (every_index element_count (fun index =>
                    unicode_ok (laplace_unicode_ducet_contraction_element (Some opened) index
                                  (Some zero_element))))
        with (LAPLACE_UNICODE_RECORD_INVALID, Some opened, consumed_bytes) ;;
      (LAPLACE_UNICODE_OK, Some opened, store consumed_bytes record_bytes)
  | _, _, _ => (LAPLACE_UNICODE_INVALID_ARGUMENT, view, consumed_bytes)
  end.

(** ** The root manifest *)
Record laplace_unicode_root_manifest := mk_manifest {
  atom_count : Z;
  ducet_position_count : Z;
  ducet_contraction_count : Z;
  normalization_composition_count : Z;
  total_frame_count : Z;
  source_fingerprint : laplace_digest256;
  recipe_fingerprint : laplace_digest256;
  numeric_provider_receipt : laplace_digest256;
  stream_contract_fingerprint : laplace_digest256;
  atom_section_fingerprint : laplace_digest256;
  ducet_position_section_fingerprint : laplace_digest256;
  ducet_contraction_section_fingerprint : laplace_digest256;
  normalization_composition_section_fingerprint : laplace_digest256;
  algorithmic_hangul_rule_fingerprint : laplace_digest256;
  atom_record_contract_fingerprint : laplace_digest256;
  physicality_recipe_fingerprint : laplace_digest256;
  placement_rank_permutation_fingerprint : laplace_digest256;
  coordinate_table_fingerprint : laplace_digest256;
  geometry_epoch : laplace_digest256;
  physicality_recipe_version : Z;
  manifest_reserved : Z }.

(** The fourteen digests in the order of the record. *)
Definition fingerprints (manifest : laplace_unicode_root_manifest) : list laplace_digest256 :=
  [source_fingerprint manifest;
   recipe_fingerprint manifest;
   numeric_provider_receipt manifest;
   stream_contract_fingerprint manifest;
   atom_section_fingerprint manifest;
   ducet_position_section_fingerprint manifest;
   ducet_contraction_section_fingerprint manifest;
   normalization_composition_section_fingerprint manifest;
   algorithmic_hangul_rule_fingerprint manifest;
   atom_record_contract_fingerprint manifest;
   physicality_recipe_fingerprint manifest;
   placement_rank_permutation_fingerprint manifest;
   coordinate_table_fingerprint manifest;
   geometry_epoch manifest].

Definition root_manifest_counts_valid (manifest : laplace_unicode_root_manifest) : bool :=
  return_when negb (atom_count manifest =? LAPLACE_UNICODE_ROOT_POPULATION) ||
              negb (ducet_position_count manifest =? LAPLACE_UNICODE_ROOT_POPULATION) with false ;;
  return_when u64 (UINT64_MAX - atom_count manifest) <? ducet_position_count manifest with false ;;
  let total := u64 (atom_count manifest + ducet_position_count manifest) in
  return_when u64 (UINT64_MAX - total) <? ducet_contraction_count manifest with false ;;
  let total := u64 (total + ducet_contraction_count manifest) in
  return_when (u64 (UINT64_MAX - total) <? normalization_composition_count manifest) ||
              (u64 (u64 (UINT64_MAX - total) - normalization_composition_count manifest) <? 1)
    with false ;;
  let total := u64 (total + u64 (normalization_composition_count manifest + 1)) in
  total_frame_count manifest =? total.

Definition laplace_unicode_root_manifest_encode (manifest : ptr laplace_unicode_root_manifest)
    (output : ptr (list Z)) : laplace_unicode_status * ptr (list Z) :=
  match manifest, output with
  | Some r, Some memory =>
      return_when negb (unicode_root_physicality_recipe_version_valid (physicality_recipe_version r)) ||
                  negb (manifest_reserved r =? 0) || negb (root_manifest_counts_valid r)
        with (LAPLACE_UNICODE_RECORD_INVALID, output) ;;
      let memory := puts
        [(0, LURM);
         (4, store_le 2 LAPLACE_UNICODE_ROOT_MANIFEST_VERSION);
         (6, store_le 2 LAPLACE_UNICODE_ROOT_MANIFEST_BYTES);
         (8, store_le 4 LAPLACE_UNICODE_ROOT_MANIFEST_BYTES);
         (12, store_le 4 (physicality_recipe_version r));
         (16, store_le 8 (atom_count r));
         (24, store_le 8 (ducet_position_count r));
         (32, store_le 8 (ducet_contraction_count r));
         (40, store_le 8 (normalization_composition_count r));
         (48, store_le 8 (total_frame_count r))]
        (put 0 (zeros 512) memory) in
      let '(offset, memory) :=
        foldl (fun '(offset, memory) digest => (offset + 32, put offset digest memory))
          (56, memory) (fingerprints r) in
      (if offset =? 504 then LAPLACE_UNICODE_OK else LAPLACE_UNICODE_PROVIDER_FAILURE, Some memory)
  | _, _ => (LAPLACE_UNICODE_RECORD_INVALID, output)
  end.

Definition load_manifest (m : list Z) : laplace_unicode_root_manifest :=
  let digest index := slice (56 + index * 32) 32 m in
  {| atom_count := u64_at 16 m;
     ducet_position_count := u64_at 24 m;
     ducet_contraction_count := u64_at 32 m;
     normalization_composition_count := u64_at 40 m;
     total_frame_count := u64_at 48 m;
     source_fingerprint := digest 0;
     recipe_fingerprint := digest 1;
     numeric_provider_receipt := digest 2;
     stream_contract_fingerprint := digest 3;
     atom_section_fingerprint := digest 4;
     ducet_position_section_fingerprint := digest 5;
     ducet_contraction_section_fingerprint := digest 6;
     normalization_composition_section_fingerprint := digest 7;
     algorithmic_hangul_rule_fingerprint := digest 8;
     atom_record_contract_fingerprint := digest 9;
     physicality_recipe_fingerprint := digest 10;
     placement_rank_permutation_fingerprint := digest 11;
     coordinate_table_fingerprint := digest 12;
     geometry_epoch := digest 13;
     physicality_recipe_version := u32_at 12 m;
     manifest_reserved := 0 |}.

Definition laplace_unicode_root_manifest_open (encoded : ptr (list Z)) (available_bytes : Z)
    (manifest : ptr laplace_unicode_root_manifest) (consumed_bytes : ptr Z)
    : laplace_unicode_status * ptr laplace_unicode_root_manifest * ptr Z :=
  match encoded, manifest, consumed_bytes with
  | Some m, Some _, Some _ =>
      return_when (available_bytes <? LAPLACE_UNICODE_ROOT_MANIFEST_BYTES) ||
                  negb (bytes_equal (slice 0 4 m) LURM) ||
                  negb (u16_at 4 m =? LAPLACE_UNICODE_ROOT_MANIFEST_VERSION) ||
                  negb (u16_at 6 m =? LAPLACE_UNICODE_ROOT_MANIFEST_BYTES) ||
                  negb (u32_at 8 m =? LAPLACE_UNICODE_ROOT_MANIFEST_BYTES) ||
                  negb (unicode_root_physicality_recipe_version_valid (u32_at 12 m)) ||
                  negb (u64_at 504 m =? 0)
        with (LAPLACE_UNICODE_RECORD_INVALID, manifest, consumed_bytes) ;;
      let decoded := load_manifest m in
      return_when negb (root_manifest_counts_valid decoded)
        with (LAPLACE_UNICODE_RECORD_INVALID, manifest, consumed_bytes) ;;
      (LAPLACE_UNICODE_OK, Some decoded, store consumed_bytes LAPLACE_UNICODE_ROOT_MANIFEST_BYTES)
  | _, _, _ => (LAPLACE_UNICODE_INVALID_ARGUMENT, manifest, consumed_bytes)
  end.

(** ** What the records promise *)
Local Abbreviation octets := (Forall (fun b => is_u8 b)) (only parsing).

(** An opener accepts the buffers that start with the encoding of a well-formed
    record within the bytes available, and no others, and leaves its view. *)
Class Opener {R V}
    (open : ptr (list Z) -> Z -> ptr V -> ptr Z -> laplace_unicode_status * ptr V * ptr Z)
    (enc : R -> list Z) (wf : R -> Prop) (view : list Z -> R -> V) : Prop :=
  opener_exact m available v0 c0 v c : octets m -> available <= left m ->
    open (Some m) available (Some v0) (Some c0) = (LAPLACE_UNICODE_OK, v, c) <->
    exists r rest, wf r /\ m = enc r ++ rest /\ left (enc r) <= available /\
      v = Some (view m r) /\ c = Some (left (enc r)).

(** An encoder writes the encoding of a well-formed record, when it fits. *)
Definition encoded {R} (enc : R -> list Z) (r : R) (output : list Z) (capacity : Z)
    : laplace_unicode_status * ptr (list Z) * ptr Z :=
  if capacity <? left (enc r)
  then (LAPLACE_UNICODE_BUFFER_TOO_SMALL, Some output, Some (left (enc r)))
  else (LAPLACE_UNICODE_OK, Some (enc r ++ drop (length (enc r)) output), Some (left (enc r))).

Class Encoder {R}
    (encode : ptr R -> ptr (list Z) -> Z -> ptr Z -> laplace_unicode_status * ptr (list Z) * ptr Z)
    (enc : R -> list Z) (wf : R -> Prop) : Prop :=
  encoder_exact r output capacity n : wf r ->
    encode (Some r) (Some output) capacity (Some n) = encoded enc r output capacity.

(** ** Elements *)
Definition element_wf (e : laplace_unicode_collation_element) : Prop :=
  is_u16 (primary e) /\ is_u16 (secondary e) /\ is_u16 (tertiary e) /\
  0 <= variable e <= 1 /\ element_reserved e = 0.

Lemma read_u16be_value a b rest : is_u8 a -> is_u8 b -> read_u16be (a :: b :: rest) = a * 256 + b.
Proof.
  intros Ha Hb. unfold read_u16be. cbn [lookup_total list_lookup_total].
  rewrite Z.lor_comm, lor_shiftl_add by lia. rewrite u16_small; lia.
Qed.

Lemma read_write_u16be v rest : is_u16 v -> read_u16be (write_u16be v ++ rest) = v.
Proof.
  intros Hv. unfold write_u16be. cbn [app]. rewrite read_u16be_value by apply u8_range.
  unfold u8. rewrite Z.shiftr_div_pow2 by lia. change (2 ^ 8) with 256. Z.div_mod_to_equations; lia.
Qed.

Lemma write_read_u16be a b rest : is_u8 a -> is_u8 b -> write_u16be (read_u16be (a :: b :: rest)) = [a; b].
Proof.
  intros Ha Hb. rewrite read_u16be_value by done. unfold write_u16be, u8.
  rewrite Z.shiftr_div_pow2 by lia. change (2 ^ 8) with 256. f_equal; [|f_equal]; Z.div_mod_to_equations; lia.
Qed.

Lemma write_u16be_octets v : octets (write_u16be v).
Proof. repeat constructor; apply u8_range. Qed.

Lemma read_u16be_range l : is_u16 (read_u16be l).
Proof. apply u16_range. Qed.

Lemma length_element e : length (collation_element_encode e) = 8%nat.
Proof. reflexivity. Qed.

Lemma element_octets e : element_wf e -> octets (collation_element_encode e).
Proof.
  intros (_ & _ & _ & Hv & _). unfold collation_element_encode. cbn.
  repeat (constructor; [lia || apply u8_range|]). constructor.
Qed.

Lemma collation_element_open_exact l e0 e : octets l -> (8 <= length l)%nat ->
  collation_element_open (Some l) (Some e0) = (LAPLACE_UNICODE_OK, e) <->
  exists r, element_wf r /\ take 8 l = collation_element_encode r /\ e = Some r.
Proof.
  intros Hl Hn. do 8 (destruct l as [|? l]; [cbn in Hn; lia|]).
  repeat (apply Forall_cons in Hl as [? Hl]). unfold collation_element_open, u8_at.
  change (Z.to_nat 0) with 0%nat. change (Z.to_nat 1) with 1%nat.
  cbn [lookup_total list_lookup_total drop take]. split.
  - intros H'. casec_in H'; [done|]. injection H' as <-. eexists. split; [|split; [|reflexivity]].
    + split; [apply read_u16be_range|]. split; [apply read_u16be_range|]. split; [apply read_u16be_range|].
      cbn. lia.
    + unfold collation_element_encode. cbn [variable primary secondary tertiary].
      rewrite !write_read_u16be by done. cbn. do 2 f_equal. lia.
  - intros (r & (Hp & Hs & Ht & Hv & Hr) & E & ->). unfold collation_element_encode in E.
    rewrite take_0 in E. injection E as -> -> -> -> -> -> -> ->.
    rewrite (proj2 (Z.ltb_ge 1 (variable r))) by lia. cbn [orb negb Z.eqb].
    f_equal. f_equal. destruct r as [p s t v z]. cbn in *. subst z. f_equal.
    + apply (read_write_u16be p); done.
    + apply (read_write_u16be s); done.
    + apply (read_write_u16be t); done.
Qed.

Definition encode_elements (es : list laplace_unicode_collation_element) : list Z :=
  concat (map collation_element_encode es).

Lemma left_elements es : left (encode_elements es) = Z.of_nat (length es) * 8.
Proof.
  induction es as [|e es IH]; [done|]. unfold encode_elements in *. cbn [map concat length].
  rewrite left_app, IH. unfold left. rewrite length_element. lia.
Qed.

Lemma elements_octets es : Forall element_wf es -> octets (encode_elements es).
Proof.
  induction 1 as [|e es He _ IH]; [constructor|]. apply Forall_app. split; [by apply element_octets|done].
Qed.

Lemma every_index_ext count f g : (forall i, 0 <= i < count -> f i = g i) ->
  every_index count f = every_index count g.
Proof.
  intros H. unfold every_index. assert (Hi : Forall (fun i => (i < Z.to_nat count)%nat) (seq 0 (Z.to_nat count))).
  { apply Forall_seq. lia. }
  induction Hi as [|i l Hi _ IH]; [done|]. cbn [forallb]. rewrite IH, H by lia. done.
Qed.

Lemma unicode_ok_some {A} (r : laplace_unicode_status * A) :
  unicode_ok r = true <-> exists a, r = (LAPLACE_UNICODE_OK, a).
Proof. split; [destruct r as [[] a]; try discriminate; eauto|by intros [a ->]]. Qed.

(** The elements at a pointer. *)
Lemma elements_at p count : octets p -> 0 <= count -> count * 8 <= left p ->
  every_index count (fun index => unicode_ok
    (collation_element_open (Some (advance (index * 8) p)) (Some zero_element))) = true <->
  exists es, Z.of_nat (length es) = count /\ Forall element_wf es /\
    take (Z.to_nat (count * 8)) p = encode_elements es.
Proof.
  intros Hp Hc Hl. unfold left in Hl.
  pose proof (strided_exact 8 (fun l => unicode_ok (collation_element_open (Some l) (Some zero_element)))
    collation_element_encode element_wf (fun e _ => length_element e)) as H.
  assert (E : every_index count (fun index => unicode_ok
      (collation_element_open (Some (advance (index * 8) p)) (Some zero_element))) =
    forallb (fun i => unicode_ok (collation_element_open (Some (drop (i * 8) p)) (Some zero_element)))
      (seq 0 (Z.to_nat count))).
  { unfold every_index, advance. generalize (seq 0 (Z.to_nat count)). induction l as [|i l IH]; [done|].
    cbn [forallb]. rewrite IH. by replace (Z.to_nat (Z.of_nat i * 8)) with (i * 8)%nat by lia. }
  rewrite E, H; [|..|done|lia]. 2: { intros l Ho Hn. rewrite unicode_ok_some. split.
    - intros (e & (r & Hr & Er & _)%(collation_element_open_exact l zero_element e Ho Hn)). eauto.
    - intros (r & Hr & Er). exists (Some r). apply collation_element_open_exact; eauto. }
  replace (Z.to_nat (count * 8)) with (Z.to_nat count * 8)%nat by lia.
  split; intros (es & Hlen & Hes); exists es; (split; [lia|done]).
Qed.

(** ** Positions *)
Definition ducet_pieces (r : laplace_unicode_ducet_position_record) (total : Z) : list piece :=
  [stored LUDP; stored (store_le 2 1); stored (store_le 2 32); stored (store_le 4 total);
   stored (store_le 4 (codepoint_position r)); stored [provenance r]; gap 1; gap 1; gap 1;
   stored (store_le 4 (element_count r)); stored (store_le 4 (equivalence_key_bytes r)); gap 4].
Definition ducet_sizes : list nat := [4; 2; 2; 4; 4; 1; 1; 1; 1; 4; 4; 4]%nat.

Definition ducet_total (r : laplace_unicode_ducet_position_record) : Z :=
  32 + element_count r * 8 + equivalence_key_bytes r.
Definition ducet_bytes (r : laplace_unicode_ducet_position_record) : list Z :=
  layout (ducet_pieces r (ducet_total r)) ++
  encode_elements (cells (elements r) (element_count r)) ++
  cells (equivalence_key r) (equivalence_key_bytes r).

(** An array that holds the number of items said. *)
Definition holds {A} (p : ptr (list A)) (count : Z) (wf : A -> Prop) : Prop :=
  match p with
  | Some items => count <= Z.of_nat (length items) /\ Forall wf (cells p count)
  | None => False
  end.

Definition ducet_wf (r : laplace_unicode_ducet_position_record) : Prop :=
  position (codepoint_position r) /\ 1 <= provenance r <= 4 /\ reserved r = [0; 0; 0] /\
  1 <= element_count r <= UINT32_MAX /\ holds (elements r) (element_count r) element_wf /\
  1 <= equivalence_key_bytes r <= UINT32_MAX /\
  holds (equivalence_key r) (equivalence_key_bytes r) (fun b => is_u8 b) /\
  ducet_total r <= UINT32_MAX.

Definition ducet_view (m : list Z) (r : laplace_unicode_ducet_position_record)
    : laplace_unicode_ducet_position_view := {|
  encoded_elements := Some (drop 32 m);
  view_equivalence_key := Some (advance (element_count r * 8) (drop 32 m));
  encoded_record := Some m;
  view_codepoint_position := codepoint_position r;
  view_element_count := element_count r;
  view_equivalence_key_bytes := equivalence_key_bytes r;
  encoded_bytes := ducet_total r;
  view_provenance := provenance r |}.

Lemma holds_cells {A} (p : ptr (list A)) count wf : 0 <= count -> holds p count wf ->
  Z.of_nat (length (cells p count)) = count /\ Forall wf (cells p count).
Proof.
  intros Hc. destruct p as [l|]; [|done]. intros [Hl Hw]. split; [|done].
  unfold cells. cbn. rewrite length_take. lia.
Qed.

Lemma left_layout sizes ps : map (fun p => length (piece_bytes p)) ps = sizes ->
  left (layout ps) = Z.of_nat (sum_list sizes).
Proof. intros <-. unfold left, layout. by rewrite length_concat_pieces, map_map. Qed.

Lemma ducet_layout r total : left (layout (ducet_pieces r total)) = 32.
Proof. by apply (left_layout ducet_sizes). Qed.

Lemma left_ducet_bytes r : ducet_wf r -> left (ducet_bytes r) = ducet_total r.
Proof.
  intros (_ & _ & _ & Hn & He & Hk & Hkey & _). unfold ducet_bytes.
  rewrite !left_app, ducet_layout, left_elements.
  apply holds_cells in He as [-> _]; [|lia]. apply holds_cells in Hkey as [Hl _]; [|lia].
  unfold left. rewrite Hl. unfold ducet_total. lia.
Qed.

Lemma octets_length l : octets l -> bytes (length l) l.
Proof. done. Qed.

(** An array of bytes split off the front of a buffer. *)
Lemma front_split n l : 0 <= n <= left l -> l = take (Z.to_nat n) l ++ advance n l /\ left (take (Z.to_nat n) l) = n.
Proof. intros Hn. unfold advance, left in *. rewrite take_drop, length_take. split; [done|lia]. Qed.

Lemma holds_self {A} (l : list A) count (wf : A -> Prop) : Z.of_nat (length l) = count -> Forall wf l ->
  holds (Some l) count wf /\ cells (Some l) count = l.
Proof.
  intros Hl Hw. rewrite cells_all by done. split; [|done]. split; [lia|]. by rewrite cells_all.
Qed.

Lemma ducet_header_read m r total rest : octets m -> ducet_wf r -> is_u32 total ->
  m = layout (ducet_pieces r total) ++ rest ->
  slice 0 4 m = LUDP /\ u16_at 4 m = 1 /\ u16_at 6 m = 32 /\ u32_at 8 m = total /\
  u32_at 12 m = codepoint_position r /\ u8_at 16 m = provenance r /\ u8_at 17 m = 0 /\
  u8_at 18 m = 0 /\ u8_at 19 m = 0 /\ u32_at 20 m = element_count r /\
  u32_at 24 m = equivalence_key_bytes r /\ u32_at 28 m = 0.
Proof.
  intros Hm (Hcp & Hpr & _ & Hn & _ & Hk & _) Ht E. unfold position in Hcp.
  apply (cuts_record ducet_sizes) in E; [|done]. unfold ducet_sizes in E. slices_in E.
  injection E as E0 E1 E2 E3 E4 E5 E6 E7 E8 E9 E10 E11.
  split_and!; first [done | by apply u8_at_stored | apply u16_at_stored; done || lia
                    | apply u32_at_stored; done || lia].
Qed.

Lemma ducet_header_written m r : octets m -> 32 <= left m -> slice 0 4 m = LUDP ->
  u16_at 4 m = 1 -> u16_at 6 m = 32 -> u8_at 17 m = 0 -> u8_at 18 m = 0 -> u8_at 19 m = 0 ->
  u32_at 28 m = 0 -> u32_at 12 m = codepoint_position r -> u8_at 16 m = provenance r ->
  u32_at 20 m = element_count r -> u32_at 24 m = equivalence_key_bytes r ->
  m = layout (ducet_pieces r (u32_at 8 m)) ++ drop 32 m.
Proof.
  intros Hm Hl H0 H4 H6 H17 H18 H19 H28 H12 H16 H20 H24. unfold left in Hl.
  apply (pieces_split ducet_sizes). unfold ducet_sizes. slices. cbn [ducet_pieces map piece_bytes].
  rewrite H0, !slice_u16, !slice_u32, !slice_one by (done || lia).
  by rewrite H4, H6, H12, H16, H17, H18, H19, H20, H24, H28.
Qed.

Lemma elements_of_view v p count : encoded_elements v = Some p -> view_element_count v = count ->
  every_index count (fun index => unicode_ok (laplace_unicode_ducet_position_element (Some v) index
    (Some zero_element))) =
  every_index count (fun index => unicode_ok
    (collation_element_open (Some (advance (index * 8) p)) (Some zero_element))).
Proof.
  intros Hp Hc. apply every_index_ext. intros i Hi. unfold laplace_unicode_ducet_position_element.
  rewrite Hp, Hc. by rewrite (proj2 (Z.leb_gt count i)) by lia.
Qed.

Lemma ducet_open_only m available v0 c0 v c : octets m -> available <= left m ->
  laplace_unicode_ducet_position_open (Some m) available (Some v0) (Some c0) =
    (LAPLACE_UNICODE_OK, v, c) ->
  exists r rest, ducet_wf r /\ m = ducet_bytes r ++ rest /\ left (ducet_bytes r) <= available /\
    v = Some (ducet_view m r) /\ c = Some (left (ducet_bytes r)).
Proof.
  intros Hm Hav. unfold laplace_unicode_ducet_position_open. cbv zeta.
  set (first := drop 32 m). assert (Hf : octets first) by by apply Forall_drop.
  intros H. casec_in H; [done|]. casec_in H; [done|]. casec_in H; [done|].
  erewrite elements_of_view in H by reflexivity. casec_in H; [done|]. injection H as <- <-.
  assert (Hlen : 32 <= left m) by lia. pose proof (octets_length m Hm) as Hb.
  assert (Hlf : left first = left m - 32) by (unfold first, left in *; rewrite length_drop; lia).
  pose proof Hlen as Hlen'. unfold left in Hlen'.
  pose proof (u32_at_range m 12 Hb). pose proof (u32_at_range m 20 Hb). pose proof (u32_at_range m 24 Hb).
  lazymatch goal with H : every_index _ _ = true |- _ => apply elements_at in H as (es & Hn & He & Ees) end;
    [|done|lia|lia].
  destruct (front_split (u32_at 20 m * 8) first) as [Efirst _]; [lia|]. rewrite Ees in Efirst.
  set (second := advance (u32_at 20 m * 8) first) in *.
  assert (left second = left first - u32_at 20 m * 8).
  { pose proof (f_equal left Efirst) as E. rewrite left_app, left_elements in E. lia. }
  destruct (front_split (u32_at 24 m) second) as [Esecond Hkey]; [lia|].
  set (key := take (Z.to_nat (u32_at 24 m)) second) in *.
  assert (Hk8 : octets key) by (unfold key, second, advance; by apply Forall_take, Forall_drop).
  destruct (holds_self es (u32_at 20 m) element_wf Hn He) as [Hhe Hce].
  destruct (holds_self key (u32_at 24 m) (fun b => is_u8 b) Hkey Hk8) as [Hhk Hck].
  set (r := mk_ducet_position (Some es) (Some key) (u32_at 12 m) (u32_at 20 m) (u32_at 24 m)
    (u8_at 16 m) [0; 0; 0]).
  unfold ducet_provenance_valid in *. bools.
  assert (Ht : ducet_total r = u32_at 8 m) by (unfold ducet_total; cbn; lia).
  assert (Hw : ducet_wf r) by (unfold ducet_wf, position; rewrite Ht;
    cbn [r codepoint_position provenance reserved element_count equivalence_key_bytes elements equivalence_key];
    split_and!; (done || lia)).
  exists r, (advance (u32_at 24 m) second). split; [done|]. rewrite left_ducet_bytes, Ht by done.
  split; [|split; [lia|split; [|done]]].
  + unfold ducet_bytes. rewrite Ht. cbn [r elements element_count equivalence_key equivalence_key_bytes].
    rewrite Hce, Hck, <- !app_assoc, <- Esecond, <- Efirst.
    simple apply ducet_header_written; try assumption; try lia; try done. by apply bytes_equal_spec.
  + unfold ducet_view. by rewrite Ht.
Qed.

Lemma ducet_open_ok m available v0 c0 r rest : octets m -> available <= left m ->
  ducet_wf r -> m = ducet_bytes r ++ rest -> left (ducet_bytes r) <= available ->
  laplace_unicode_ducet_position_open (Some m) available (Some v0) (Some c0) =
    (LAPLACE_UNICODE_OK, Some (ducet_view m r), Some (left (ducet_bytes r))).
Proof.
  intros Hm Hav Hw E Hle. unfold laplace_unicode_ducet_position_open. cbv zeta.
  set (first := drop 32 m). assert (Hf : octets first) by by apply Forall_drop.
  rewrite left_ducet_bytes in * by done.
  pose proof Hw as (Hcp & Hpr & _ & Hn & Hel & Hk & _ & Ht). unfold position in Hcp.
  assert (is_u32 (ducet_total r)) as Hu by (unfold ducet_total in *; lia).
  unfold ducet_bytes in E. rewrite <- !app_assoc in E.
  destruct (ducet_header_read m r (ducet_total r) _ Hm Hw Hu E)
    as (-> & -> & -> & E8 & E12 & E16 & -> & -> & -> & E20 & E24 & ->).
  assert (bytes_equal LUDP LUDP = true) as -> by by apply bytes_equal_spec.
  rewrite E8, E12, E16, E20, E24. unfold ducet_provenance_valid, ducet_total in *. cbn [negb orb Z.eqb Pos.eqb].
  destruct (holds_cells (elements r) (element_count r) element_wf) as [Hce Hwe]; [lia|done|].
  casec; [lia|]. casec; [lia|]. casec; [lia|]. erewrite elements_of_view by reflexivity.
  assert (Ef : first = encode_elements (cells (elements r) (element_count r)) ++
                       cells (equivalence_key r) (equivalence_key_bytes r) ++ rest).
  { unfold first. rewrite E. apply drop_app_length'. pose proof (ducet_layout r (ducet_total r)) as H'.
    unfold left, ducet_total in H'. lia. }
  rewrite (proj2 (elements_at first (element_count r) Hf ltac:(lia) ltac:(unfold first, left in *; rewrite length_drop; lia))).
  + done.
  + exists (cells (elements r) (element_count r)). split; [done|]. split; [done|]. rewrite Ef.
    replace (Z.to_nat (element_count r * 8)) with
      (Z.to_nat (left (encode_elements (cells (elements r) (element_count r)))))
      by (rewrite left_elements, Hce; done).
    apply take_left.
Qed.

#[export] Instance ducet_position_opener :
  Opener laplace_unicode_ducet_position_open ducet_bytes ducet_wf ducet_view.
Proof.
  intros m available v0 c0 v c Hm Hav. split; [by apply ducet_open_only|].
  intros (r & rest & Hw & E & Hle & -> & ->). by apply (ducet_open_ok _ _ _ _ r rest).
Qed.

Lemma elements_valid es : Forall element_wf es ->
  forallb (fun element => collation_element_valid (Some element)) es = true.
Proof.
  induction 1 as [|e es (_ & _ & _ & Hv & Hr) _ IH]; [done|]. cbn [forallb]. rewrite IH.
  cbn. rewrite Hr, (proj2 (Z.leb_le _ 1)) by lia. done.
Qed.

Lemma ducet_measured r n : ducet_wf r ->
  laplace_unicode_ducet_position_measure (Some r) (Some n) = (LAPLACE_UNICODE_OK, Some (ducet_total r)).
Proof.
  intros (Hcp & Hpr & Hres & Hn & Hel & Hk & Hkey & Ht). unfold position in Hcp.
  destruct (holds_cells (elements r) (element_count r) element_wf) as [_ Hwe]; [lia|done|].
  unfold laplace_unicode_ducet_position_measure. cbv beta iota zeta.
  rewrite Hres. rewrite elements_valid by done.
  destruct (elements r); [|done]. destruct (equivalence_key r); [|done].
  unfold ducet_provenance_valid, ducet_total in *. cbn [lookup_total list_lookup_total is_null].
  casec; [lia|]. cbn [negb]. casec; [lia|done].
Qed.

(** The elements stored into cleared memory. *)
Lemma store_elements_spec es h n t : (length es * 8 <= n)%nat ->
  store_elements es (Z.of_nat (length h), h ++ zeros n ++ t) =
  (Z.of_nat (length (h ++ encode_elements es)),
   (h ++ encode_elements es) ++ zeros (n - length es * 8) ++ t).
Proof.
  intros Hn. apply (store_all 8 8 collation_element_encode); [done| |done].
  apply Forall_forall. intros e _. apply length_element.
Qed.

#[export] Instance ducet_position_encoder :
  Encoder laplace_unicode_ducet_position_encode ducet_bytes ducet_wf.
Proof.
  intros r output capacity n Hw. unfold laplace_unicode_ducet_position_encode, encoded.
  rewrite ducet_measured, left_ducet_bytes by done. 
  change (default 0 (Some (ducet_total r))) with (ducet_total r). cbn [store]. casec; [done|].
  pose proof Hw as (_ & _ & _ & Hn & Hel & Hk & Hkey & Ht).
  apply holds_cells in Hel as [Hle _]; [|lia]. apply holds_cells in Hkey as [Hlk _]; [|lia].
  rewrite u32_small by (unfold ducet_total in *; lia).
  set (pieces := ducet_pieces r (ducet_total r)).
  assert (Hl : Z.of_nat (length (layout pieces)) = 32) by apply ducet_layout.
  match goal with |- context [puts ?w] => change w with (writes_at 0 ducet_sizes pieces) end.
  assert (Hsum : (sum_list ducet_sizes <= Z.to_nat (ducet_total r))%nat)
    by (unfold ducet_total; cbn; lia).
  rewrite (puts_record ducet_sizes pieces) by done. rewrite <- Hl at 1.
  assert (Hroom : (Z.to_nat (ducet_total r) - sum_list ducet_sizes =
    length (cells (elements r) (element_count r)) * 8 +
    length (cells (equivalence_key r) (equivalence_key_bytes r)))%nat)
    by (unfold ducet_total; cbn; lia).
  rewrite store_elements_spec, put_cleared by lia.
  match goal with |- context [zeros (?a - ?b)] => replace (a - b)%nat with 0%nat by lia end.
  replace (length (ducet_bytes r)) with (Z.to_nat (ducet_total r))
    by (pose proof (left_ducet_bytes r Hw) as E; unfold left in E; lia).
  unfold ducet_bytes. fold pieces. cbn [zeros replicate app]. by rewrite <- !app_assoc.
Qed.

(** ** Compositions *)
Definition composition_pieces (r : laplace_unicode_normalization_composition) : list piece :=
  [stored LUNC; stored (store_le 2 1); stored (store_le 2 32); stored (store_le 4 32);
   stored (store_le 4 (starter_position r)); stored (store_le 4 (combining_position r));
   stored (store_le 4 (composite_position r)); gap 4; gap 4].
Definition composition_sizes : list nat := [4; 2; 2; 4; 4; 4; 4; 4; 4]%nat.
Definition composition_bytes (r : laplace_unicode_normalization_composition) : list Z :=
  layout (composition_pieces r).

Definition composition_wf (r : laplace_unicode_normalization_composition) : Prop :=
  position (starter_position r) /\ position (combining_position r) /\ position (composite_position r).

Lemma left_composition_bytes r : left (composition_bytes r) = 32.
Proof. by apply (left_layout composition_sizes). Qed.

#[export] Instance composition_opener :
  Opener laplace_unicode_normalization_composition_open composition_bytes composition_wf (fun _ r => r).
Proof.
  intros m available v0 c0 v c Hm Hav. unfold laplace_unicode_normalization_composition_open. cbv zeta.
  cbn [starter_position combining_position composite_position]. split.
  - intros H. casec_in H; [done|]. casec_in H; [done|]. injection H as <- <-.
    assert (Hlen : 32 <= Z.of_nat (length m)) by (unfold left in *; lia).
    pose proof (u32_at_range m 12 (octets_length m Hm)). pose proof (u32_at_range m 16 (octets_length m Hm)).
    pose proof (u32_at_range m 20 (octets_length m Hm)).
    exists (mk_composition (u32_at 12 m) (u32_at 16 m) (u32_at 20 m)), (drop 32 m).
    rewrite left_composition_bytes. unfold composition_wf, position.
    cbn [starter_position combining_position composite_position].
    split; [lia|]. split; [|done]. unfold composition_bytes.
    apply (pieces_split composition_sizes). unfold composition_sizes.
    slices. cbn [composition_pieces map piece_bytes].
    lazymatch goal with H : bytes_equal _ _ = true |- _ => apply bytes_equal_spec in H as -> end.
    rewrite !slice_u16, !slice_u32 by (done || lia). cbn [starter_position combining_position composite_position].
    by repeat match goal with H : _ = _ |- _ => rewrite H; clear H end.
  - intros (r & rest & (Ha & Hb & Hc) & E & Hle & -> & ->). rewrite left_composition_bytes in *.
    unfold position in *. apply (cuts_record composition_sizes) in E; [|done].
    unfold composition_sizes in E. slices_in E. injection E as -> E1 E2 E3 E4 E5 E6 E7 E8.
    apply u16_at_stored in E1 as ->, E2 as ->; [|lia..].
    apply u32_at_stored in E3 as ->, E4 as ->, E5 as ->, E6 as ->; [|lia..].
    apply (u32_at_stored _ _ 0) in E7 as ->, E8 as ->; [|lia..].
    assert (bytes_equal LUNC LUNC = true) as -> by by apply bytes_equal_spec.
    casec; [lia|]. casec; [lia|]. by destruct r.
Qed.

Lemma composition_encode_exact r output :
  is_u32 (starter_position r) -> is_u32 (combining_position r) -> is_u32 (composite_position r) ->
  let result := laplace_unicode_normalization_composition_encode (Some r) (Some output) in
  (composition_wf r -> result = (LAPLACE_UNICODE_OK, Some (composition_bytes r ++ drop 32 output))) /\
  (~ composition_wf r -> result = (LAPLACE_UNICODE_RECORD_INVALID, Some output)).
Proof.
  intros Ha Hb Hc. unfold laplace_unicode_normalization_composition_encode, composition_wf, position.
  cbv zeta. casec; [split; [lia|done]|]. split; [intros _|lia].
  match goal with |- context [puts ?w] => change w with (writes_at 0 composition_sizes (composition_pieces r)) end.
  by rewrite (puts_record composition_sizes).
Qed.

(** ** Contractions *)
Definition contraction_pieces (r : laplace_unicode_ducet_contraction_record) (total : Z) : list piece :=
  [stored LUCR; stored (store_le 2 1); stored (store_le 2 32); stored (store_le 4 total);
   stored (store_le 4 (source_line_ordinal r)); stored (store_le 4 (sequence_count r));
   stored (store_le 4 (contraction_element_count r)); gap 4; gap 4].

Definition contraction_total (r : laplace_unicode_ducet_contraction_record) : Z :=
  32 + sequence_count r * 4 + contraction_element_count r * 8.
Definition contraction_bytes (r : laplace_unicode_ducet_contraction_record) : list Z :=
  layout (contraction_pieces r (contraction_total r)) ++
  encode_positions (cells (sequence r) (sequence_count r)) ++
  encode_elements (cells (contraction_elements r) (contraction_element_count r)).

Definition contraction_wf (r : laplace_unicode_ducet_contraction_record) : Prop :=
  1 <= source_line_ordinal r <= UINT32_MAX /\
  2 <= sequence_count r <= UINT32_MAX /\ holds (sequence r) (sequence_count r) position /\
  1 <= contraction_element_count r <= UINT32_MAX /\
  holds (contraction_elements r) (contraction_element_count r) element_wf /\
  contraction_total r <= UINT32_MAX.

Definition contraction_view (m : list Z) (r : laplace_unicode_ducet_contraction_record)
    : laplace_unicode_ducet_contraction_view := {|
  encoded_sequence := Some (drop 32 m);
  contraction_encoded_elements := Some (advance (sequence_count r * 4) (drop 32 m));
  contraction_encoded_record := Some m;
  view_source_line_ordinal := source_line_ordinal r;
  view_sequence_count := sequence_count r;
  view_contraction_element_count := contraction_element_count r;
  contraction_encoded_bytes := contraction_total r |}.

Lemma contraction_layout r total : left (layout (contraction_pieces r total)) = 32.
Proof. by apply (left_layout composition_sizes). Qed.

Lemma left_contraction_bytes r : contraction_wf r -> left (contraction_bytes r) = contraction_total r.
Proof.
  intros (_ & Hs & Hp & Hn & He & _). unfold contraction_bytes.
  rewrite !left_app, contraction_layout, left_elements, length_positions.
  apply holds_cells in He as [-> _]; [|lia]. apply holds_cells in Hp as [-> _]; [|lia].
  unfold contraction_total. lia.
Qed.

Lemma contraction_header_read m r total rest : octets m -> contraction_wf r -> is_u32 total ->
  m = layout (contraction_pieces r total) ++ rest ->
  slice 0 4 m = LUCR /\ u16_at 4 m = 1 /\ u16_at 6 m = 32 /\ u32_at 8 m = total /\
  u32_at 12 m = source_line_ordinal r /\ u32_at 16 m = sequence_count r /\
  u32_at 20 m = contraction_element_count r /\ u32_at 24 m = 0 /\ u32_at 28 m = 0.
Proof.
  intros Hm (Hl & Hs & _ & Hn & _) Ht E.
  apply (cuts_record composition_sizes) in E; [|done]. unfold composition_sizes in E. slices_in E.
  injection E as E0 E1 E2 E3 E4 E5 E6 E7 E8.
  split_and!; first [done | apply u16_at_stored; done || lia | apply u32_at_stored; done || lia].
Qed.

Lemma contraction_header_written m r : octets m -> 32 <= left m -> slice 0 4 m = LUCR ->
  u16_at 4 m = 1 -> u16_at 6 m = 32 -> u32_at 24 m = 0 -> u32_at 28 m = 0 ->
  u32_at 12 m = source_line_ordinal r -> u32_at 16 m = sequence_count r ->
  u32_at 20 m = contraction_element_count r ->
  m = layout (contraction_pieces r (u32_at 8 m)) ++ drop 32 m.
Proof.
  intros Hm Hl H0 H4 H6 H24 H28 H12 H16 H20. unfold left in Hl.
  apply (pieces_split composition_sizes). unfold composition_sizes. slices.
  cbn [contraction_pieces map piece_bytes].
  rewrite H0, !slice_u16, !slice_u32 by (done || lia). by rewrite H4, H6, H12, H16, H20, H24, H28.
Qed.

(** The positions at a pointer. *)
Lemma positions_at p count : octets p -> 0 <= count -> count * 4 <= left p ->
  every_index count (fun index => negb
    (LAPLACE_UNICODE_ROOT_POPULATION <=? read_u32le (advance (index * 4) p))) = true <->
  exists ps, Z.of_nat (length ps) = count /\ Forall position ps /\
    take (Z.to_nat (count * 4)) p = encode_positions ps.
Proof.
  intros Hp Hc Hl. unfold left in Hl.
  pose proof (strided_exact 4 (fun l => negb (LAPLACE_UNICODE_ROOT_POPULATION <=? read_u32le l))
    (store_le 4) position (fun v _ => length_store_le 4 v)) as H.
  assert (E : every_index count (fun index => negb
      (LAPLACE_UNICODE_ROOT_POPULATION <=? read_u32le (advance (index * 4) p))) =
    forallb (fun i => negb (LAPLACE_UNICODE_ROOT_POPULATION <=? read_u32le (drop (i * 4) p)))
      (seq 0 (Z.to_nat count))).
  { unfold every_index, advance. generalize (seq 0 (Z.to_nat count)). induction l as [|i l IH]; [done|].
    cbn [forallb]. rewrite IH. by replace (Z.to_nat (Z.of_nat i * 4)) with (i * 4)%nat by lia. }
  rewrite E, H; [|..|done|lia]. 2: { intros l Ho Hn. rewrite negb_true_iff, Z.leb_gt. unfold position.
    pose proof (load_le_bound 4 (take 4 l)) as Hb. change (256 ^ Z.of_nat 4) with 4294967296 in Hb.
    assert (Ht : bytes 4 (take 4 l)) by (split; [rewrite length_take; lia|by apply Forall_take]).
    specialize (Hb Ht). unfold read_u32le. split.
    - intros Hlt. exists (load_le (take 4 l)). split; [lia|]. symmetry. by apply store_load_le.
    - intros (v & Hv & Ev). rewrite Ev, load_store_le. change (256 ^ Z.of_nat 4) with 4294967296.
      rewrite Z.mod_small; lia. }
  replace (Z.to_nat (count * 4)) with (Z.to_nat count * 4)%nat by lia.
  split; intros (ps & Hlen & Hps); exists ps; (split; [lia|done]).
Qed.

Lemma sequence_of_view v p count : encoded_sequence v = Some p -> view_sequence_count v = count ->
  every_index count (fun index => unicode_ok (laplace_unicode_ducet_contraction_position (Some v) index
    (Some 0))) =
  every_index count (fun index => negb
    (LAPLACE_UNICODE_ROOT_POPULATION <=? read_u32le (advance (index * 4) p))).
Proof.
  intros Hp Hc. apply every_index_ext. intros i Hi. unfold laplace_unicode_ducet_contraction_position.
  rewrite Hp, Hc. rewrite (proj2 (Z.leb_gt count i)) by lia. cbn [is_null orb default from_option].
  change (id p) with p. cbv zeta. by destruct (LAPLACE_UNICODE_ROOT_POPULATION <=? _).
Qed.

Lemma contraction_elements_of_view v p count :
  contraction_encoded_elements v = Some p -> view_contraction_element_count v = count ->
  every_index count (fun index => unicode_ok (laplace_unicode_ducet_contraction_element (Some v) index
    (Some zero_element))) =
  every_index count (fun index => unicode_ok
    (collation_element_open (Some (advance (index * 8) p)) (Some zero_element))).
Proof.
  intros Hp Hc. apply every_index_ext. intros i Hi. unfold laplace_unicode_ducet_contraction_element.
  rewrite Hp, Hc. by rewrite (proj2 (Z.leb_gt count i)) by lia.
Qed.

Lemma contraction_open_only m available v0 c0 v c : octets m -> available <= left m ->
  laplace_unicode_ducet_contraction_open (Some m) available (Some v0) (Some c0) =
    (LAPLACE_UNICODE_OK, v, c) ->
  exists r rest, contraction_wf r /\ m = contraction_bytes r ++ rest /\ left (contraction_bytes r) <= available /\
    v = Some (contraction_view m r) /\ c = Some (left (contraction_bytes r)).
Proof.
  intros Hm Hav. unfold laplace_unicode_ducet_contraction_open. cbv zeta.
  set (first := drop 32 m). assert (Hf : octets first) by by apply Forall_drop.
  intros H. casec_in H; [done|]. casec_in H; [done|]. casec_in H; [done|].
  erewrite sequence_of_view in H by reflexivity. casec_in H; [done|].
  erewrite contraction_elements_of_view in H by reflexivity. casec_in H; [done|]. injection H as <- <-.
  assert (Hlen : 32 <= left m) by lia. pose proof (octets_length m Hm) as Hb.
  assert (Hlf : left first = left m - 32) by (unfold first, left in *; rewrite length_drop; lia).
  pose proof Hlen as Hlen'. unfold left in Hlen'.
  pose proof (u32_at_range m 12 Hb). pose proof (u32_at_range m 16 Hb). pose proof (u32_at_range m 20 Hb).
  lazymatch goal with H : every_index (u32_at 16 m) _ = true |- _ => apply positions_at in H as (ps & Hs & Hp & Eps) end;
    [|done|lia|lia].
  destruct (front_split (u32_at 16 m * 4) first) as [Efirst _]; [lia|]. rewrite Eps in Efirst.
  set (second := advance (u32_at 16 m * 4) first) in *.
  assert (left second = left first - u32_at 16 m * 4).
  { pose proof (f_equal left Efirst) as E. rewrite left_app, length_positions in E. lia. }
  assert (Hos : octets second) by by apply Forall_drop.
  lazymatch goal with H : every_index _ _ = true |- _ => apply elements_at in H as (es & Hn & He & Ees) end;
    [|done|lia|lia].
  destruct (front_split (u32_at 20 m * 8) second) as [Esecond _]; [lia|]. rewrite Ees in Esecond.
  destruct (holds_self ps (u32_at 16 m) position Hs Hp) as [Hhp Hcp].
  destruct (holds_self es (u32_at 20 m) element_wf Hn He) as [Hhe Hce].
  set (r := mk_ducet_contraction (Some ps) (Some es) (u32_at 12 m) (u32_at 16 m) (u32_at 20 m)).
  bools.
  assert (Ht : contraction_total r = u32_at 8 m) by (unfold contraction_total; cbn; lia).
  assert (Hw : contraction_wf r) by (unfold contraction_wf; rewrite Ht;
    cbn [r sequence contraction_elements source_line_ordinal sequence_count contraction_element_count];
    split_and!; (done || lia)).
  exists r, (advance (u32_at 20 m * 8) second). split; [done|]. rewrite left_contraction_bytes, Ht by done.
  split; [|split; [lia|split; [|done]]].
  + unfold contraction_bytes. rewrite Ht.
    cbn [r sequence contraction_elements source_line_ordinal sequence_count contraction_element_count].
    rewrite Hce, Hcp, <- !app_assoc, <- Esecond, <- Efirst.
    simple apply contraction_header_written; try assumption; try lia; try done. by apply bytes_equal_spec.
  + unfold contraction_view. by rewrite Ht.
Qed.

Lemma contraction_open_ok m available v0 c0 r rest : octets m -> available <= left m ->
  contraction_wf r -> m = contraction_bytes r ++ rest -> left (contraction_bytes r) <= available ->
  laplace_unicode_ducet_contraction_open (Some m) available (Some v0) (Some c0) =
    (LAPLACE_UNICODE_OK, Some (contraction_view m r), Some (left (contraction_bytes r))).
Proof.
  intros Hm Hav Hw E Hle. unfold laplace_unicode_ducet_contraction_open. cbv zeta.
  set (first := drop 32 m). assert (Hf : octets first) by by apply Forall_drop.
  rewrite left_contraction_bytes in * by done.
  pose proof Hw as (Hl & Hs & Hps & Hn & Hel & Ht).
  assert (is_u32 (contraction_total r)) as Hu by (unfold contraction_total in *; lia).
  unfold contraction_bytes in E. rewrite <- !app_assoc in E.
  destruct (contraction_header_read m r (contraction_total r) _ Hm Hw Hu E)
    as (-> & -> & -> & E8 & E12 & E16 & E20 & -> & ->).
  assert (bytes_equal LUCR LUCR = true) as -> by by apply bytes_equal_spec.
  rewrite E8, E12, E16, E20. unfold contraction_total in *. cbn [negb orb Z.eqb Pos.eqb].
  destruct (holds_cells (contraction_elements r) (contraction_element_count r) element_wf) as [Hce Hwe]; [lia|done|].
  destruct (holds_cells (sequence r) (sequence_count r) position) as [Hcp Hwp]; [lia|done|].
  casec; [lia|]. casec; [lia|]. casec; [lia|]. erewrite sequence_of_view by reflexivity.
  assert (Ef : first = encode_positions (cells (sequence r) (sequence_count r)) ++
    encode_elements (cells (contraction_elements r) (contraction_element_count r)) ++ rest).
  { unfold first. rewrite E. apply drop_app_length'. pose proof (contraction_layout r (contraction_total r)) as H'.
    unfold left, contraction_total in H'. lia. }
  assert (Hlf : left first = left m - 32).
  { unfold first, left in *. rewrite length_drop. lia. }
  set (ps := cells (sequence r) (sequence_count r)) in *.
  assert (Hlps : left (encode_positions ps) = sequence_count r * 4) by (rewrite length_positions; lia).
  rewrite (proj2 (positions_at first (sequence_count r) Hf ltac:(lia) ltac:(lia))).
  2: { exists ps. split; [done|]. split; [done|]. rewrite Ef, <- Hlps. apply take_left. }
  erewrite contraction_elements_of_view by reflexivity.
  assert (Esec : advance (sequence_count r * 4) first =
    encode_elements (cells (contraction_elements r) (contraction_element_count r)) ++ rest)
    by (rewrite Ef, <- Hlps; apply advance_app).
  rewrite Esec. set (es := cells (contraction_elements r) (contraction_element_count r)) in *.
  assert (Hles : left (encode_elements es) = contraction_element_count r * 8) by (rewrite left_elements; lia).
  pose proof (left_nonneg rest).
  assert (Hos : octets (encode_elements es ++ rest)) by (rewrite <- Esec; by apply Forall_drop).
  assert (Hrl : contraction_element_count r * 8 <= left (encode_elements es ++ rest))
    by (rewrite left_app, Hles; lia).
  rewrite (proj2 (elements_at _ (contraction_element_count r) Hos ltac:(lia) Hrl)).
  + cbn [negb]. unfold contraction_view. fold first. by rewrite Esec.
  + exists es. split; [done|]. split; [done|]. rewrite <- Hles. apply take_left.
Qed.

#[export] Instance ducet_contraction_opener :
  Opener laplace_unicode_ducet_contraction_open contraction_bytes contraction_wf contraction_view.
Proof.
  intros m available v0 c0 v c Hm Hav. split; [by apply contraction_open_only|].
  intros (r & rest & Hw & E & Hle & -> & ->). by apply (contraction_open_ok _ _ _ _ r rest).
Qed.

Lemma positions_valid ps : Forall position ps ->
  forallb (fun position => position <? LAPLACE_UNICODE_ROOT_POPULATION) ps = true.
Proof.
  induction 1 as [|p ps Hp _ IH]; [done|]. cbn [forallb]. unfold position in Hp.
  by rewrite IH, (proj2 (Z.ltb_lt p _)) by lia.
Qed.

Lemma contraction_measured r n : contraction_wf r ->
  laplace_unicode_ducet_contraction_measure (Some r) (Some n) =
    (LAPLACE_UNICODE_OK, Some (contraction_total r)).
Proof.
  intros (Hl & Hs & Hp & Hn & Hel & Ht).
  destruct (holds_cells (sequence r) (sequence_count r) position) as [_ Hwp]; [lia|done|].
  destruct (holds_cells (contraction_elements r) (contraction_element_count r) element_wf) as [_ Hwe]; [lia|done|].
  unfold laplace_unicode_ducet_contraction_measure. cbv beta iota zeta.
  rewrite positions_valid, elements_valid by done. unfold contraction_total in *.
  destruct (sequence r); [|done]. destruct (contraction_elements r); [|done]. cbn [is_null].
  casec; [lia|]. cbn [negb]. casec; [lia|done].
Qed.

Lemma store_sequence_spec ps h n t : (length ps * 4 <= n)%nat ->
  store_sequence ps (Z.of_nat (length h), h ++ zeros n ++ t) =
  (Z.of_nat (length (h ++ encode_positions ps)),
   (h ++ encode_positions ps) ++ zeros (n - length ps * 4) ++ t).
Proof.
  intros Hn. apply (store_all 4 4 (store_le 4)); [done| |done].
  apply Forall_forall. intros p _. apply length_store_le.
Qed.

#[export] Instance ducet_contraction_encoder :
  Encoder laplace_unicode_ducet_contraction_encode contraction_bytes contraction_wf.
Proof.
  intros r output capacity n Hw. unfold laplace_unicode_ducet_contraction_encode, encoded.
  rewrite contraction_measured, left_contraction_bytes by done.
  change (default 0 (Some (contraction_total r))) with (contraction_total r). cbn [store]. casec; [done|].
  pose proof Hw as (_ & Hs & Hp & Hn & Hel & Ht).
  apply holds_cells in Hel as [Hle _]; [|lia]. apply holds_cells in Hp as [Hlp _]; [|lia].
  rewrite u32_small by (unfold contraction_total in *; lia).
  set (pieces := contraction_pieces r (contraction_total r)).
  assert (Hl : Z.of_nat (length (layout pieces)) = 32) by apply contraction_layout.
  match goal with |- context [puts ?w] => change w with (writes_at 0 composition_sizes pieces) end.
  assert (Hsum : (sum_list composition_sizes <= Z.to_nat (contraction_total r))%nat)
    by (unfold contraction_total; cbn; lia).
  rewrite (puts_record composition_sizes pieces) by done. rewrite <- Hl at 1.
  assert (Hroom : (Z.to_nat (contraction_total r) - sum_list composition_sizes =
    length (cells (sequence r) (sequence_count r)) * 4 +
    length (cells (contraction_elements r) (contraction_element_count r)) * 8)%nat)
    by (unfold contraction_total; cbn; lia).
  rewrite store_sequence_spec, store_elements_spec by lia.
  match goal with |- context [zeros (?a - ?b)] => replace (a - b)%nat with 0%nat by lia end.
  replace (length (contraction_bytes r)) with (Z.to_nat (contraction_total r))
    by (pose proof (left_contraction_bytes r Hw) as E; unfold left in E; lia).
  unfold contraction_bytes. fold pieces. cbn [zeros replicate app]. by rewrite <- !app_assoc.
Qed.

(** ** The manifest *)
Definition manifest_pieces (r : laplace_unicode_root_manifest) : list piece :=
  [stored LURM; stored (store_le 2 2); stored (store_le 2 512); stored (store_le 4 512);
   stored (store_le 4 (physicality_recipe_version r)); stored (store_le 8 (atom_count r));
   stored (store_le 8 (ducet_position_count r)); stored (store_le 8 (ducet_contraction_count r));
   stored (store_le 8 (normalization_composition_count r)); stored (store_le 8 (total_frame_count r))].
Definition manifest_sizes : list nat := [4; 2; 2; 4; 4; 8; 8; 8; 8; 8]%nat.
Definition manifest_bytes (r : laplace_unicode_root_manifest) : list Z :=
  layout (manifest_pieces r ++ map stored (fingerprints r) ++ [gap 8]).

(** The counts add up, with the manifest itself, and the digests are digests. *)
Definition manifest_wf (r : laplace_unicode_root_manifest) : Prop :=
  physicality_recipe_version r = 1 /\ manifest_reserved r = 0 /\
  atom_count r = LAPLACE_UNICODE_ROOT_POPULATION /\
  ducet_position_count r = LAPLACE_UNICODE_ROOT_POPULATION /\
  is_u64 (ducet_contraction_count r) /\ is_u64 (normalization_composition_count r) /\
  is_u64 (total_frame_count r) /\
  total_frame_count r = atom_count r + ducet_position_count r + ducet_contraction_count r +
    normalization_composition_count r + 1 /\
  Forall (bytes 32) (fingerprints r).

Lemma counts_exact r : is_u64 (atom_count r) -> is_u64 (ducet_position_count r) ->
  is_u64 (ducet_contraction_count r) -> is_u64 (normalization_composition_count r) ->
  is_u64 (total_frame_count r) ->
  root_manifest_counts_valid r = true <->
  atom_count r = LAPLACE_UNICODE_ROOT_POPULATION /\
  ducet_position_count r = LAPLACE_UNICODE_ROOT_POPULATION /\
  total_frame_count r = atom_count r + ducet_position_count r + ducet_contraction_count r +
    normalization_composition_count r + 1.
Proof.
  intros Ha Hp Hc Hn Ht. unfold root_manifest_counts_valid. casec; [split; [done|lia]|].
  assert (Ea : atom_count r = 1114112) by lia. assert (Ep : ducet_position_count r = 1114112) by lia.
  rewrite Ea, Ep in *. change (u64 (1114112 + 1114112)) with 2228224.
  change (u64 (UINT64_MAX - 2228224)) with 18446744073707323391.
  change (u64 (UINT64_MAX - 1114112) <? 1114112) with false. cbn [negb].
  casec; [split; [done|lia]|]. rewrite (u64_small (2228224 + _)) by lia.
  rewrite (u64_small (UINT64_MAX - _)) by lia.
  destruct (Z.ltb_spec (UINT64_MAX - (2228224 + ducet_contraction_count r)) (normalization_composition_count r));
    cbn [orb]; [split; [done|lia]|].
  rewrite (u64_small (UINT64_MAX - _ - _)) by lia.
  casec; [split; [done|lia]|].
  rewrite !u64_small by (rewrite ?u64_small; lia). rewrite Z.eqb_eq. lia.
Qed.

Definition manifest_all_sizes : list nat := manifest_sizes ++ replicate 14 32%nat ++ [8%nat].

Lemma manifest_piece_sizes r : manifest_wf r ->
  map (fun p => length (piece_bytes p)) (manifest_pieces r ++ map stored (fingerprints r) ++ [gap 8]) =
  manifest_all_sizes.
Proof.
  intros (_ & _ & _ & _ & _ & _ & _ & _ & Hf). unfold fingerprints in Hf.
  repeat (apply Forall_cons in Hf as [[? _] Hf]).
  unfold fingerprints. cbn [manifest_pieces map app piece_bytes]. rewrite !length_store_le, length_zeros.
  repeat match goal with H : length _ = 32%nat |- _ => rewrite H; clear H end. done.
Qed.

Lemma left_manifest_bytes r : manifest_wf r -> left (manifest_bytes r) = 512.
Proof. intros Hw. unfold manifest_bytes. by rewrite (left_layout manifest_all_sizes) by by apply manifest_piece_sizes. Qed.

Lemma manifest_split m : octets m -> 512 <= Z.of_nat (length m) -> slice 0 4 m = LURM ->
  u16_at 4 m = 2 -> u16_at 6 m = 512 -> u32_at 8 m = 512 -> u64_at 504 m = 0 ->
  m = manifest_bytes (load_manifest m) ++ drop 512 m.
Proof.
  intros Hm Hl H0 H4 H6 H8 H504. unfold manifest_bytes.
  apply (pieces_split manifest_all_sizes).
  change manifest_all_sizes with [4; 2; 2; 4; 4; 8; 8; 8; 8; 8; 32; 32; 32; 32; 32; 32; 32; 32; 32; 32; 32;
    32; 32; 32; 8]%nat. slices.
  rewrite H0, !slice_u16, !slice_u32, !slice_u64 by (done || lia). by rewrite H4, H6, H8, H504.
Qed.

Lemma load_manifest_bytes m : octets m -> 512 <= Z.of_nat (length m) ->
  Forall (bytes 32) (fingerprints (load_manifest m)).
Proof.
  intros Hm Hl. unfold fingerprints. cbn [source_fingerprint recipe_fingerprint load_manifest
    numeric_provider_receipt stream_contract_fingerprint atom_section_fingerprint
    ducet_position_section_fingerprint ducet_contraction_section_fingerprint
    normalization_composition_section_fingerprint algorithmic_hangul_rule_fingerprint
    atom_record_contract_fingerprint physicality_recipe_fingerprint
    placement_rank_permutation_fingerprint coordinate_table_fingerprint geometry_epoch].
  repeat (constructor; [apply (slice_bytes 32); (done || lia)|]). constructor.
Qed.

Lemma manifest_open_only m available v0 c0 v c : octets m -> available <= left m ->
  laplace_unicode_root_manifest_open (Some m) available (Some v0) (Some c0) =
    (LAPLACE_UNICODE_OK, v, c) ->
  exists r rest, manifest_wf r /\ m = manifest_bytes r ++ rest /\ left (manifest_bytes r) <= available /\
    v = Some r /\ c = Some (left (manifest_bytes r)).
Proof.
  intros Hm Hav. unfold laplace_unicode_root_manifest_open. cbv zeta. intros H.
  casec_in H; [done|]. casec_in H; [done|]. injection H as <- <-.
  assert (Hlen : 512 <= Z.of_nat (length m)) by (unfold left in *; lia).
  pose proof (octets_length m Hm) as Hb. unfold unicode_root_physicality_recipe_version_valid in *. bools.
  pose proof (u64_at_range m 16 Hb). pose proof (u64_at_range m 24 Hb). pose proof (u64_at_range m 32 Hb).
  pose proof (u64_at_range m 40 Hb). pose proof (u64_at_range m 48 Hb).
  lazymatch goal with H : root_manifest_counts_valid _ = true |- _ =>
    apply counts_exact in H as (Ea & Ep & Et); [|cbn; lia..] end.
  assert (Hw : manifest_wf (load_manifest m)).
  { unfold manifest_wf. split_and!; try done; try (cbn; lia). by apply load_manifest_bytes. }
  exists (load_manifest m), (drop 512 m). rewrite left_manifest_bytes by done.
  split; [done|]. split; [|done]. apply manifest_split; try done. by apply bytes_equal_spec.
Qed.

Lemma manifest_header_read m r rest : manifest_wf r -> m = manifest_bytes r ++ rest ->
  slice 0 4 m = LURM /\ u16_at 4 m = 2 /\ u16_at 6 m = 512 /\ u32_at 8 m = 512 /\ u32_at 12 m = 1 /\
  u64_at 504 m = 0 /\ load_manifest m = r.
Proof.
  intros Hw E. pose proof (manifest_piece_sizes r Hw) as Hs. rewrite <- map_map in Hs.
  destruct Hw as (Hv & Hz & Ha & Hp & Hc & Hn & Ht & _).
  apply (cuts_record _ _ _ _ Hs) in E.
  change manifest_all_sizes with [4; 2; 2; 4; 4; 8; 8; 8; 8; 8; 32; 32; 32; 32; 32; 32; 32; 32; 32; 32; 32;
    32; 32; 32; 8]%nat in E. slices_in E. unfold fingerprints in E.
  cbn [manifest_pieces map app piece_bytes] in E.
  injection E as E0 E1 E2 E3 E4 E5 E6 E7 E8 E9 F0 F1 F2 F3 F4 F5 F6 F7 F8 F9 F10 F11 F12 F13 E10.
  apply u16_at_stored in E1, E2; [|lia..]. apply u32_at_stored in E3, E4; [|lia..].
  apply u64_at_stored in E5, E6, E7, E8, E9; [|lia..]. apply (u64_at_stored _ _ 0) in E10; [|lia].
  rewrite Hv in E4. split_and!; try done.
  destruct r. cbn in *. unfold load_manifest. subst. by f_equal.
Qed.

Lemma manifest_wf_counts r : manifest_wf r -> root_manifest_counts_valid r = true.
Proof.
  intros (_ & _ & Ha & Hp & Hc & Hn & Ht & Hs & _). apply counts_exact; try done; lia.
Qed.

#[export] Instance manifest_opener :
  Opener laplace_unicode_root_manifest_open manifest_bytes manifest_wf (fun _ r => r).
Proof.
  intros m available v0 c0 v c Hm Hav. split; [by apply manifest_open_only|].
  intros (r & rest & Hw & E & Hle & -> & ->). rewrite left_manifest_bytes in * by done.
  unfold laplace_unicode_root_manifest_open. cbv zeta.
  destruct (manifest_header_read m r rest Hw E) as (-> & -> & -> & -> & -> & -> & ->).
  assert (bytes_equal LURM LURM = true) as -> by by apply bytes_equal_spec.
  rewrite manifest_wf_counts by done. casec; [|done].
  unfold unicode_root_physicality_recipe_version_valid in *. lia.
Qed.

Lemma manifest_encode_exact r output :
  is_u64 (atom_count r) -> is_u64 (ducet_position_count r) ->
  is_u64 (ducet_contraction_count r) -> is_u64 (normalization_composition_count r) ->
  is_u64 (total_frame_count r) -> Forall (bytes 32) (fingerprints r) ->
  let result := laplace_unicode_root_manifest_encode (Some r) (Some output) in
  (manifest_wf r -> result = (LAPLACE_UNICODE_OK, Some (manifest_bytes r ++ drop 512 output))) /\
  (~ manifest_wf r -> result = (LAPLACE_UNICODE_RECORD_INVALID, Some output)).
Proof.
  intros Ha Hp Hc Hn Ht Hf. unfold laplace_unicode_root_manifest_encode,
    unicode_root_physicality_recipe_version_valid. cbv beta iota zeta. split.
  - intros Hw. rewrite manifest_wf_counts by done. pose proof Hw as (Hv & Hz & _). casec; [lia|].
    set (pieces := manifest_pieces r).
    match goal with |- context [puts ?w] => change w with (writes_at 0 manifest_sizes pieces) end.
    rewrite (puts_record manifest_sizes pieces 512) by (done || cbn; lia).
    assert (Hl : Z.of_nat (length (layout pieces)) = 56) by by apply (left_layout manifest_sizes).
    rewrite <- Hl at 1.
    rewrite (store_all 32 32 (fun digest => digest)); [|done| |cbn; lia].
    2: { eapply Forall_impl; [exact Hf|]. by intros d [? _]. }
    rewrite map_id.
    assert (Hd : length (concat (fingerprints r)) = 448%nat).
    { rewrite length_concat_pieces. unfold fingerprints in *.
      repeat (apply Forall_cons in Hf as [[? _] Hf]). cbn [map].
      repeat match goal with H : length _ = 32%nat |- _ => rewrite H; clear H end. done. }
    rewrite length_app, Nat2Z.inj_add, Hl, Hd. change (56 + Z.of_nat 448 =? 504) with true.
    unfold manifest_bytes, layout. fold pieces. rewrite !map_app, !concat_app, map_map, map_id.
    cbn [map concat piece_bytes]. change (512 - sum_list manifest_sizes - _)%nat with 8%nat.
    by rewrite <- !app_assoc.
  - intros Hw. casec; [done|]. exfalso. apply Hw. bools. unfold manifest_wf.
    lazymatch goal with H : root_manifest_counts_valid _ = true |- _ =>
      apply counts_exact in H as (Ea & Ep & Et); [|lia..] end.
    split_and!; (done || lia).
Qed.
