(* ===== verification/UnicodeAtoms.v ===== *)
(** * Unicode atom records and root frames

    Models the two outer layers of a Unicode root stream in
    [engine/src/unicode_root.c]: the atom record, a header of 196 bytes behind
    which the 26 property fields follow one another, and the frame that carries
    one record of any kind.  The identity of an atom is recomputed from its
    position; a coordinate is the bit pattern of its components.

    [frame_open_exact] shows that a buffer opens exactly when it starts with the
    canonical bytes of a well-formed frame, [atom_roundtrip] that what is encoded
    opens to the same record. *)
From stdpp Require Import prelude strings.
From Stdlib Require Import ZArith Lia.
From S2P Require Import Prelude Bytes Layout Hash Identity Trajectory Binary64 Geometry PersistenceFrames.
From S2P Require Import UnicodeFields UnicodeCollation.

Abbreviation LAPLACE_UNICODE_ATOM_RECORD_VERSION := 2 (only parsing).
Abbreviation LAPLACE_UNICODE_ATOM_HEADER_BYTES := 196 (only parsing).
Abbreviation LAPLACE_UNICODE_ATOM_FIELD_HEADER_BYTES := 8 (only parsing).
Abbreviation LAPLACE_UNICODE_ROOT_FRAME_VERSION := 2 (only parsing).
Abbreviation LAPLACE_UNICODE_ROOT_FRAME_HEADER_BYTES := 32 (only parsing).
Abbreviation LAPLACE_UNICODE_SURROGATE_LUP_ADDRESS := 4 (only parsing).
Abbreviation LAPLACE_UNICODE_ROOT_FRAME_ATOM := 1 (only parsing).
Abbreviation LAPLACE_UNICODE_ROOT_FRAME_DUCET_POSITION := 2 (only parsing).
Abbreviation LAPLACE_UNICODE_ROOT_FRAME_DUCET_CONTRACTION := 3 (only parsing).
Abbreviation LAPLACE_UNICODE_ROOT_FRAME_NORMALIZATION_COMPOSITION := 4 (only parsing).
Abbreviation LAPLACE_UNICODE_ROOT_FRAME_MANIFEST := 5 (only parsing).

Definition LUAR : list Z := domain_bytes "LUAR".
Definition LURF : list Z := domain_bytes "LURF".

(** ** Atoms *)
Record laplace_unicode_atom_record := mk_atom {
  atom_position : Z;
  placement_rank : Z;
  position_class : Z;
  lup_v1_length : Z;
  lup_v1_bytes : list Z;
  content_id : laplace_id128;
  identity_preimage_fingerprint : laplace_digest256;
  coordinate : laplace_point4d;
  hilbert_key : list Z;
  atom_geometry_epoch : laplace_digest256;
  atom_physicality_id : laplace_digest256;
  fields : list laplace_unicode_atom_field }.

Record laplace_unicode_atom_record_view := mk_atom_view {
  atom_value : laplace_unicode_atom_record;
  atom_encoded_record : ptr (list Z);
  atom_encoded_bytes : Z }.

Definition zero_field : laplace_unicode_atom_field := mk_field None 0 0 0 0.
#[export] Instance field_inhabited : Inhabited laplace_unicode_atom_field := populate zero_field.

Definition zero_atom : laplace_unicode_atom_record :=
  mk_atom 0 0 0 0 (zeros 4) (zeros 16) (zeros 32) (mk_point [0; 0; 0; 0]) (zeros 16) (zeros 32)
    (zeros 32) (replicate 26 zero_field).
Definition zero_atom_view : laplace_unicode_atom_record_view := mk_atom_view zero_atom None 0.

Section Records.
Context {B : Blake3}.

Definition identity_fields_match (record : laplace_unicode_atom_record)
    (expected_id : laplace_id128) (expected_witness : laplace_digest256) : bool :=
  bytes_equal expected_id (content_id record) &&
  bytes_equal expected_witness (identity_preimage_fingerprint record).

(** The encoded position and the identity of the record are those of its
    position. *)
Definition lup_matches (record : laplace_unicode_atom_record) : bool :=
  match laplace_unicode_position_encode (atom_position record) (Some (zeros 4)) (Some 0) with
  | (LAPLACE_IDENTITY_OK, Some expected_lup, Some expected_length) =>
      (expected_length =? lup_v1_length record) && bytes_equal expected_lup (lup_v1_bytes record)
  | _ => false
  end.
Definition identity_matches (record : laplace_unicode_atom_record) : bool :=
  match laplace_identity_codepoint_witness (atom_position record) (Some (zeros 16)) (Some (zeros 32)) with
  | (LAPLACE_IDENTITY_OK, Some expected_id, Some expected_witness) =>
      identity_fields_match record expected_id expected_witness
  | _ => false
  end.

Definition fixed_record_valid (record : laplace_unicode_atom_record) : bool :=
  let surrogate := (0xd800 <=? atom_position record) && (atom_position record <=? 0xdfff) in
  return_when (LAPLACE_UNICODE_ROOT_POPULATION <=? atom_position record) ||
              (LAPLACE_UNICODE_ROOT_POPULATION <=? placement_rank record) ||
              (LAPLACE_UNICODE_SURROGATE_LUP_ADDRESS <? position_class record) ||
              negb (Bool.eqb (position_class record =? LAPLACE_UNICODE_SURROGATE_LUP_ADDRESS) surrogate) ||
              negb (lup_matches record) || negb (identity_matches record) with false ;;
  return_when existsb (fun component => negb (isfinite component) || double_lt component minus_one ||
                                        double_lt plus_one component)
                (component (coordinate record)) with false ;;
  forallb (fun field => field_shape_valid (fields record !!! field) field)
    (seq 0 LAPLACE_UNICODE_ATOM_FIELD_COUNT).

Fixpoint measure_fields (total : Z) (fields : list laplace_unicode_atom_field) : option Z :=
  match fields with
  | [] => Some total
  | field :: fields =>
      let addition := LAPLACE_UNICODE_ATOM_FIELD_HEADER_BYTES + payload_bytes field in
      return_when SIZE_MAX - total <? addition with None ;;
      measure_fields (total + addition) fields
  end.

Definition laplace_unicode_atom_record_measure (record : ptr laplace_unicode_atom_record)
    (encoded_bytes : ptr Z) : laplace_unicode_status * ptr Z :=
  match record, encoded_bytes with
  | Some record, Some _ =>
      return_when negb (fixed_record_valid record)
        with (LAPLACE_UNICODE_RECORD_INVALID, encoded_bytes) ;;
      match measure_fields LAPLACE_UNICODE_ATOM_HEADER_BYTES (fields record) with
      | Some total =>
          return_when UINT32_MAX <? total with (LAPLACE_UNICODE_SIZE_OVERFLOW, encoded_bytes) ;;
          (LAPLACE_UNICODE_OK, store encoded_bytes total)
      | None => (LAPLACE_UNICODE_SIZE_OVERFLOW, encoded_bytes)
      end
  | _, _ => (LAPLACE_UNICODE_INVALID_ARGUMENT, encoded_bytes)
  end.

(** One field stored at an offset, and the offset behind it. *)
Definition store_field (state : Z * list Z) (value : laplace_unicode_atom_field) : Z * list Z :=
  let '(offset, output) := state in
  let output := puts
    [(offset, store_le 2 (field_id value));
     (offset + 2, [payload_kind value]);
     (offset + 3, [field_flags value]);
     (offset + 4, store_le 4 (payload_bytes value))] output in
  let output :=
    if payload_bytes value =? 0 then output
    else put (offset + 8) (cells (payload value) (payload_bytes value)) output in
  (offset + (8 + payload_bytes value), output).

Definition laplace_unicode_atom_record_encode (record : ptr laplace_unicode_atom_record)
    (output : ptr (list Z)) (output_capacity : Z) (encoded_bytes : ptr Z)
    : laplace_unicode_status * ptr (list Z) * ptr Z :=
  match record, output, encoded_bytes with
  | Some r, Some memory, Some _ =>
      match laplace_unicode_atom_record_measure record (Some 0) with
      | (LAPLACE_UNICODE_OK, measured) =>
          let required := default 0 measured in
          return_when output_capacity <? required
            with (LAPLACE_UNICODE_BUFFER_TOO_SMALL, output, store encoded_bytes required) ;;
          let axis index := store_le 8 (component (coordinate r) !!! index) in
          let memory := puts
            [(0, LUAR);
             (4, store_le 2 LAPLACE_UNICODE_ATOM_RECORD_VERSION);
             (6, store_le 2 LAPLACE_UNICODE_ATOM_HEADER_BYTES);
             (8, store_le 4 (u32 required));
             (12, store_le 4 (atom_position r));
             (16, store_le 4 (placement_rank r));
             (20, [position_class r]);
             (21, [lup_v1_length r]);
             (24, lup_v1_bytes r);
             (28, content_id r);
             (44, identity_preimage_fingerprint r);
             (76, axis 0%nat); (84, axis 1%nat); (92, axis 2%nat); (100, axis 3%nat);
             (108, hilbert_key r);
             (124, store_le 2 (Z.of_nat LAPLACE_UNICODE_ATOM_FIELD_COUNT));
             (128, store_le 4 (u32 (required - LAPLACE_UNICODE_ATOM_HEADER_BYTES)));
             (132, atom_geometry_epoch r);
             (164, atom_physicality_id r)]
            (put 0 (zeros (Z.to_nat required)) memory) in
          let '(_, memory) :=
            foldl store_field (LAPLACE_UNICODE_ATOM_HEADER_BYTES, memory) (fields r) in
          (LAPLACE_UNICODE_OK, Some memory, store encoded_bytes required)
      | (status, _) => (status, output, encoded_bytes)
      end
  | _, _, _ => (LAPLACE_UNICODE_INVALID_ARGUMENT, output, encoded_bytes)
  end.

(** The fields from an offset on, into the cells of the view: whether they all
    fit, the offset reached and the cells. *)
Fixpoint open_fields (m : list Z) (record_bytes offset : Z)
    (fields : list laplace_unicode_atom_field) : bool * Z * list laplace_unicode_atom_field :=
  match fields with
  | [] => (true, offset, [])
  | value :: rest =>
      return_when (record_bytes <? offset) || (record_bytes - offset <? 8)
        with (false, offset, value :: rest) ;;
      let id := u16_at offset m in
      let kind := u8_at (offset + 2) m in
      let flags := u8_at (offset + 3) m in
      let bytes := u32_at (offset + 4) m in
      return_when record_bytes - offset - 8 <? bytes
        with (false, offset,
              mk_field (payload value) (payload_bytes value) id kind flags :: rest) ;;
      let pointer := (if bytes =? 0 then None else Some (advance (offset + 8) m)) in
      let '(complete, offset, rest) := open_fields m record_bytes (offset + (8 + bytes)) rest in
      (complete, offset, mk_field pointer bytes id kind flags :: rest)
  end.

(** The header of a record, read into a cleared view. *)
Definition load_atom (m : list Z) (fields : list laplace_unicode_atom_field)
    : laplace_unicode_atom_record := {|
  atom_position := u32_at 12 m;
  placement_rank := u32_at 16 m;
  position_class := u8_at 20 m;
  lup_v1_length := u8_at 21 m;
  lup_v1_bytes := slice 24 4 m;
  content_id := slice 28 16 m;
  identity_preimage_fingerprint := slice 44 32 m;
  coordinate := mk_point [u64_at 76 m; u64_at 84 m; u64_at 92 m; u64_at 100 m];
  hilbert_key := slice 108 16 m;
  atom_geometry_epoch := slice 132 32 m;
  atom_physicality_id := slice 164 32 m;
  fields := fields |}.

Definition laplace_unicode_atom_record_open (encoded : ptr (list Z)) (available_bytes : Z)
    (view : ptr laplace_unicode_atom_record_view) (consumed_bytes : ptr Z)
    : laplace_unicode_status * ptr laplace_unicode_atom_record_view * ptr Z :=
  match encoded, view, consumed_bytes with
  | Some m, Some _, Some _ =>
      return_when (available_bytes <? LAPLACE_UNICODE_ATOM_HEADER_BYTES) ||
                  negb (bytes_equal (slice 0 4 m) LUAR) ||
                  negb (u16_at 4 m =? LAPLACE_UNICODE_ATOM_RECORD_VERSION) ||
                  negb (u16_at 6 m =? LAPLACE_UNICODE_ATOM_HEADER_BYTES) ||
                  negb (u16_at 22 m =? 0) ||
                  negb (u16_at 124 m =? Z.of_nat LAPLACE_UNICODE_ATOM_FIELD_COUNT) ||
                  negb (u16_at 126 m =? 0)
        with (LAPLACE_UNICODE_RECORD_INVALID, view, consumed_bytes) ;;
      let record_bytes := u32_at 8 m in
      let variable_bytes := u32_at 128 m in
      return_when (record_bytes <? LAPLACE_UNICODE_ATOM_HEADER_BYTES) ||
                  (available_bytes <? record_bytes) ||
                  negb (variable_bytes =? record_bytes - LAPLACE_UNICODE_ATOM_HEADER_BYTES)
        with (LAPLACE_UNICODE_RECORD_INVALID, view, consumed_bytes) ;;
      let '(complete, offset, fields) :=
        open_fields m record_bytes LAPLACE_UNICODE_ATOM_HEADER_BYTES
          (replicate LAPLACE_UNICODE_ATOM_FIELD_COUNT zero_field) in
      let value := load_atom m fields in
      return_when negb complete || negb (offset =? record_bytes) || negb (fixed_record_valid value)
        with (LAPLACE_UNICODE_RECORD_INVALID, Some (mk_atom_view value None 0), consumed_bytes) ;;
      (LAPLACE_UNICODE_OK, Some (mk_atom_view value encoded record_bytes),
       store consumed_bytes record_bytes)
  | _, _, _ => (LAPLACE_UNICODE_INVALID_ARGUMENT, view, consumed_bytes)
  end.

(** ** Frames *)
Record laplace_unicode_root_frame := mk_frame {
  frame_payload : ptr (list Z);
  section_ordinal : Z;
  frame_payload_bytes : Z;
  frame_kind : Z;
  frame_flags : Z }.

Record laplace_unicode_root_frame_view := mk_frame_view {
  frame_value : laplace_unicode_root_frame;
  encoded_frame : ptr (list Z);
  frame_encoded_bytes : Z }.

Definition zero_frame_view : laplace_unicode_root_frame_view :=
  mk_frame_view (mk_frame None 0 0 0 0) None 0.

Definition root_frame_kind_valid (kind : Z) : bool :=
  (LAPLACE_UNICODE_ROOT_FRAME_ATOM <=? kind) && (kind <=? LAPLACE_UNICODE_ROOT_FRAME_MANIFEST).

(** The payload opens, its bytes are all consumed, and the test on the view. *)
Definition opens_all {V}
    (result : laplace_unicode_status * ptr V * ptr Z) (payload_bytes : Z) (test : V -> bool) : bool :=
  match result with
  | (LAPLACE_UNICODE_OK, Some view, Some consumed) => (consumed =? payload_bytes) && test view
  | _ => false
  end.

Definition root_frame_payload_valid (kind section_ordinal : Z) (payload : ptr (list Z))
    (payload_bytes : Z) : bool :=
  return_when negb (root_frame_kind_valid kind) || is_null payload || (payload_bytes =? 0) with false ;;
  if kind =? LAPLACE_UNICODE_ROOT_FRAME_ATOM then
    (section_ordinal <? LAPLACE_UNICODE_ROOT_POPULATION) &&
    opens_all (laplace_unicode_atom_record_open payload payload_bytes (Some zero_atom_view) (Some 0))
      payload_bytes (fun atom => atom_position (atom_value atom) =? section_ordinal)
  else if kind =? LAPLACE_UNICODE_ROOT_FRAME_DUCET_POSITION then
    (section_ordinal <? LAPLACE_UNICODE_ROOT_POPULATION) &&
    opens_all (laplace_unicode_ducet_position_open payload payload_bytes
                 (Some zero_ducet_position_view) (Some 0))
      payload_bytes (fun position => view_codepoint_position position =? section_ordinal)
  else if kind =? LAPLACE_UNICODE_ROOT_FRAME_DUCET_CONTRACTION then
    opens_all (laplace_unicode_ducet_contraction_open payload payload_bytes
                 (Some zero_ducet_contraction_view) (Some 0))
      payload_bytes (fun _ => true)
  else if kind =? LAPLACE_UNICODE_ROOT_FRAME_NORMALIZATION_COMPOSITION then
    opens_all (laplace_unicode_normalization_composition_open payload payload_bytes
                 (Some (mk_composition 0 0 0)) (Some 0))
      payload_bytes (fun _ => true)
  else if kind =? LAPLACE_UNICODE_ROOT_FRAME_MANIFEST then
    (section_ordinal =? 0) &&
    opens_all (laplace_unicode_root_manifest_open payload payload_bytes
                 (Some (load_manifest (zeros 512))) (Some 0))
      payload_bytes (fun _ => true)
  else true.

Definition laplace_unicode_root_frame_measure (frame : ptr laplace_unicode_root_frame)
    (encoded_bytes : ptr Z) : laplace_unicode_status * ptr Z :=
  match frame, encoded_bytes with
  | Some frame, Some _ =>
      return_when negb (frame_flags frame =? 0) ||
                  negb (root_frame_payload_valid (frame_kind frame) (section_ordinal frame)
                          (frame_payload frame) (frame_payload_bytes frame))
        with (LAPLACE_UNICODE_RECORD_INVALID, encoded_bytes) ;;
      let required := LAPLACE_UNICODE_ROOT_FRAME_HEADER_BYTES + frame_payload_bytes frame in
      return_when UINT32_MAX <? required with (LAPLACE_UNICODE_SIZE_OVERFLOW, encoded_bytes) ;;
      (LAPLACE_UNICODE_OK, store encoded_bytes required)
  | _, _ => (LAPLACE_UNICODE_INVALID_ARGUMENT, encoded_bytes)
  end.

Definition laplace_unicode_root_frame_encode (frame : ptr laplace_unicode_root_frame)
    (output : ptr (list Z)) (output_capacity : Z) (encoded_bytes : ptr Z)
    : laplace_unicode_status * ptr (list Z) * ptr Z :=
  match frame, output, encoded_bytes with
  | Some f, Some memory, Some _ =>
      match laplace_unicode_root_frame_measure frame (Some 0) with
      | (LAPLACE_UNICODE_OK, measured) =>
          let required := default 0 measured in
          return_when output_capacity <? required
            with (LAPLACE_UNICODE_BUFFER_TOO_SMALL, output, store encoded_bytes required) ;;
          let memory := puts
            [(0, LURF);
             (4, store_le 2 LAPLACE_UNICODE_ROOT_FRAME_VERSION);
             (6, store_le 2 LAPLACE_UNICODE_ROOT_FRAME_HEADER_BYTES);
             (8, store_le 4 (u32 required));
             (12, store_le 2 (frame_kind f));
             (14, store_le 2 (frame_flags f));
             (16, store_le 8 (section_ordinal f));
             (24, store_le 4 (frame_payload_bytes f))]
            (put 0 (zeros (Z.to_nat required)) memory) in
          let memory := put LAPLACE_UNICODE_ROOT_FRAME_HEADER_BYTES
            (cells (frame_payload f) (frame_payload_bytes f)) memory in
          (LAPLACE_UNICODE_OK, Some memory, store encoded_bytes required)
      | (status, _) => (status, output, encoded_bytes)
      end
  | _, _, _ => (LAPLACE_UNICODE_INVALID_ARGUMENT, output, encoded_bytes)
  end.

Definition laplace_unicode_root_frame_open (encoded : ptr (list Z)) (available_bytes : Z)
    (view : ptr laplace_unicode_root_frame_view) (consumed_bytes : ptr Z)
    : laplace_unicode_status * ptr laplace_unicode_root_frame_view * ptr Z :=
  match encoded, view, consumed_bytes with
  | Some m, Some _, Some _ =>
      return_when (available_bytes <? LAPLACE_UNICODE_ROOT_FRAME_HEADER_BYTES) ||
                  negb (bytes_equal (slice 0 4 m) LURF) ||
                  negb (u16_at 4 m =? LAPLACE_UNICODE_ROOT_FRAME_VERSION) ||
                  negb (u16_at 6 m =? LAPLACE_UNICODE_ROOT_FRAME_HEADER_BYTES) ||
                  negb (u32_at 28 m =? 0)
        with (LAPLACE_UNICODE_RECORD_INVALID, view, consumed_bytes) ;;
      let frame_bytes := u32_at 8 m in
      let kind := u16_at 12 m in
      let flags := u16_at 14 m in
      let section_ordinal := u64_at 16 m in
      let payload_bytes := u32_at 24 m in
      return_when (frame_bytes <? LAPLACE_UNICODE_ROOT_FRAME_HEADER_BYTES) ||
                  (available_bytes <? frame_bytes) ||
                  negb (payload_bytes =? frame_bytes - LAPLACE_UNICODE_ROOT_FRAME_HEADER_BYTES) ||
                  negb (flags =? 0)
        with (LAPLACE_UNICODE_RECORD_INVALID, view, consumed_bytes) ;;
      return_when negb (root_frame_payload_valid kind section_ordinal (Some (drop 32 m)) payload_bytes)
        with (LAPLACE_UNICODE_RECORD_INVALID, view, consumed_bytes) ;;
      (LAPLACE_UNICODE_OK,
       Some (mk_frame_view (mk_frame (Some (drop 32 m)) section_ordinal payload_bytes kind flags)
               encoded frame_bytes),
       store consumed_bytes frame_bytes)
  | _, _, _ => (LAPLACE_UNICODE_INVALID_ARGUMENT, view, consumed_bytes)
  end.
End Records.

Local Abbreviation octets := (Forall (fun b => is_u8 b)) (only parsing).

(** ** Fields in a record *)
Definition field_bytes (f : laplace_unicode_atom_field) : list Z :=
  store_le 2 (field_id f) ++ [payload_kind f] ++ [field_flags f] ++ store_le 4 (payload_bytes f) ++
  field_content f.
Definition fields_bytes (fs : list laplace_unicode_atom_field) : list Z := concat (map field_bytes fs).
Definition fields_total (fs : list laplace_unicode_atom_field) : Z :=
  foldr (fun f total => 8 + payload_bytes f + total) 0 fs.

(** The types of a field's members, and a pointer that holds its payload. *)
Definition field_typed (f : laplace_unicode_atom_field) : Prop :=
  is_u16 (field_id f) /\ is_u8 (payload_kind f) /\ is_u8 (field_flags f) /\ field_wf f /\
  (payload f = None -> payload_bytes f = 0).

(** The fields of a record opened from an offset on point into it. *)
Fixpoint repoint (m : list Z) (offset : Z) (fs : list laplace_unicode_atom_field)
    : list laplace_unicode_atom_field :=
  match fs with
  | [] => []
  | f :: fs =>
      mk_field (if payload_bytes f =? 0 then None else Some (advance (offset + 8) m))
        (payload_bytes f) (field_id f) (payload_kind f) (field_flags f) ::
      repoint m (offset + (8 + payload_bytes f)) fs
  end.

Lemma left_content f : field_typed f -> left (field_content f) = payload_bytes f.
Proof.
  intros (_ & _ & _ & (Hn & _ & Hp) & Hnull). unfold field_content, cells, left in *.
  destruct (payload f) as [m|]; [|rewrite Hnull by done; done]. cbn. rewrite length_take. lia.
Qed.

Lemma left_field_bytes f : field_typed f -> left (field_bytes f) = 8 + payload_bytes f.
Proof.
  intros Hf. unfold field_bytes. rewrite !left_app, !left_store, !left_cons, (left_content f Hf).
  change (left []) with 0. lia.
Qed.

Lemma left_fields fs : Forall field_typed fs -> left (fields_bytes fs) = fields_total fs.
Proof.
  induction 1 as [|f fs Hf _ IH]; [done|]. unfold fields_bytes in *. cbn [map concat fields_total foldr].
  rewrite left_app, (left_field_bytes f Hf), IH. unfold fields_total. lia.
Qed.

Lemma fields_total_nonneg fs : Forall field_typed fs -> 0 <= fields_total fs.
Proof. intros Hf. rewrite <- left_fields by done. apply left_nonneg. Qed.

Lemma slice_advance a n off m : 0 <= off -> 0 <= a -> slice a n (advance off m) = slice (off + a) n m.
Proof. intros Ho Ha. unfold slice, advance. rewrite drop_drop. do 2 f_equal. lia. Qed.

Lemma advance_advance a b m : 0 <= a -> 0 <= b -> advance a (advance b m) = advance (b + a) m.
Proof. intros Ha Hb. unfold advance. rewrite drop_drop. f_equal. lia. Qed.

Lemma left_advance off m : 0 <= off <= left m -> left (advance off m) = left m - off.
Proof. intros Ho. unfold left, advance in *. rewrite length_drop. lia. Qed.

(** The header of a field at an offset. *)
Lemma field_header m off : octets m -> 0 <= off -> off + 8 <= left m ->
  advance off m = store_le 2 (u16_at off m) ++ [u8_at (off + 2) m] ++ [u8_at (off + 3) m] ++
    store_le 4 (u32_at (off + 4) m) ++ advance (off + 8) m.
Proof.
  intros Hm Ho Hl. unfold left in Hl. pose proof (octets_length m Hm) as Hb.
  rewrite <- slice_u16, <- !slice_one, <- slice_u32 by (done || lia).
  pose proof (pieces_split [2; 1; 1; 4]%nat _ (advance off m) eq_refl) as E.
  slices_in E. rewrite !slice_advance in E by lia.
  change (drop (sum_list [2; 1; 1; 4]%nat) (advance off m)) with (advance 8 (advance off m)) in E.
  rewrite advance_advance, Z.add_0_r in E by lia. etransitivity; [exact E|].
  cbn [concat]. by rewrite app_nil_r, <- !app_assoc.
Qed.

Lemma field_header_read m off f rest : field_typed f -> 0 <= off ->
  advance off m = field_bytes f ++ rest ->
  u16_at off m = field_id f /\ u8_at (off + 2) m = payload_kind f /\ u8_at (off + 3) m = field_flags f /\
  u32_at (off + 4) m = payload_bytes f /\ advance (off + 8) m = field_content f ++ rest.
Proof.
  intros (Hi & Hk & Hf & (Hn & _) & _) Ho E.
  assert (E' : advance off m = concat [store_le 2 (field_id f); [payload_kind f]; [field_flags f];
    store_le 4 (payload_bytes f)] ++ field_content f ++ rest).
  { rewrite E. unfold field_bytes. cbn [concat]. by rewrite app_nil_r, <- !app_assoc. }
  pose proof E' as C. apply (cuts_record [2; 1; 1; 4]%nat) in C; [|cbn [map]; by rewrite !length_store_le].
  slices_in C. rewrite !slice_advance, Z.add_0_r in C by lia. injection C as C1 C2 C3 C4.
  split; [by apply u16_at_stored|]. split; [by apply u8_at_stored|]. split; [by apply u8_at_stored|].
  split; [by apply u32_at_stored|]. rewrite <- (advance_advance 8) by lia. rewrite E'.
  unfold advance. apply drop_app_length'. cbn [concat]. rewrite !length_app, !length_store_le. done.
Qed.

Lemma open_fields_only m record_bytes : octets m -> record_bytes <= left m ->
  forall cells off off' fs, 0 <= off -> off <= record_bytes ->
  open_fields m record_bytes off cells = (true, off', fs) ->
  length fs = length cells /\ Forall field_typed fs /\ fs = repoint m off fs /\
  off' = off + fields_total fs /\ off' <= record_bytes /\
  advance off m = fields_bytes fs ++ advance off' m.
Proof.
  intros Hm Hr. induction cells as [|old cells IH]; intros off off' fs Ho Hle H.
  { injection H as <- <-. cbn. rewrite Z.add_0_r. by repeat split. }
  cbn [open_fields] in H. casec_in H; [done|]. casec_in H; [done|].
  destruct (open_fields m record_bytes _ cells) as [[complete o] rest] eqn:E. injection H as -> -> <-.
  set (n := u32_at (off + 4) m) in *. pose proof (octets_length m Hm) as Hb.
  assert (is_u32 n) as Hn by (apply u32_at_range; unfold left in *; (done || lia)).
  apply IH in E as (Hlen & Ht & Hrep & -> & Hend & Hbytes); [|lia|lia].
  set (f := mk_field _ _ _ _ _).
  assert (Hc : field_content f = take (Z.to_nat n) (advance (off + 8) m)).
  { unfold field_content. cbn [f payload payload_bytes]. destruct (Z.eqb_spec n 0) as [->|]; [by rewrite take_0|done]. }
  assert (Hf : field_typed f).
  { split; [apply u16_at_range; unfold left in *; (done || lia)|].
    split; [apply u8_at_octet; unfold left in *; (done || lia)|].
    split; [apply u8_at_octet; unfold left in *; (done || lia)|].
    split; [split; [done|]; split|].
    - rewrite Hc. unfold advance. by apply Forall_take, Forall_drop.
    - cbn [f payload payload_bytes]. destruct (n =? 0); [done|]. rewrite left_advance; lia.
    - cbn [f payload payload_bytes]. destruct (Z.eqb_spec n 0); done. }
  cbn [length fields_total foldr repoint f payload_bytes field_id payload_kind field_flags].
  fold f. fold n. split; [by f_equal|]. split; [by constructor|]. split; [by f_equal|].
  split; [unfold fields_total; lia|]. split; [done|].
  unfold fields_bytes in *. cbn [map concat]. rewrite <- app_assoc, <- Hbytes, (field_header m off) by (done || lia).
  unfold field_bytes. rewrite Hc. cbn [f field_id payload_kind field_flags payload_bytes]. fold n.
  rewrite <- !app_assoc. do 4 f_equal.
  destruct (front_split n (advance (off + 8) m)) as [E _]; [rewrite left_advance; lia|].
  rewrite E at 1. f_equal. rewrite advance_advance by lia. f_equal. lia.
Qed.

Lemma open_fields_ok m record_bytes : forall fs cells off rest,
  0 <= off -> Forall field_typed fs -> length cells = length fs ->
  advance off m = fields_bytes fs ++ rest -> off + fields_total fs <= record_bytes ->
  open_fields m record_bytes off cells = (true, off + fields_total fs, repoint m off fs).
Proof.
  induction fs as [|f fs IH]; intros [|old cells] off rest Ho Ht Hlen E Hle; try done.
  { cbn. by rewrite Z.add_0_r. }
  apply Forall_cons in Ht as [Hf Ht]. unfold fields_bytes in *. cbn [map concat] in E. rewrite <- app_assoc in E.
  destruct (field_header_read m off f _ Hf Ho E) as (E1 & E2 & E3 & E4 & E5).
  cbn [open_fields fields_total foldr repoint] in *. rewrite E1, E2, E3, E4.
  pose proof (fields_total_nonneg fs Ht). unfold fields_total in *.
  pose proof Hf as (_ & _ & _ & (Hn & _) & _).
  casec; [lia|]. casec; [lia|].
  rewrite (IH cells _ rest); [|lia|done|by injection Hlen| |lia].
  - f_equal. f_equal. lia.
  - replace (off + (8 + payload_bytes f)) with (off + 8 + payload_bytes f) by lia.
    rewrite <- (advance_advance (payload_bytes f)) by lia. rewrite E5, <- (left_content f Hf). apply advance_app.
Qed.

Section Laws.
Context {B : Blake3}.

(** ** Valid atoms *)
(** The types of a record's members. *)
Definition atom_typed (r : laplace_unicode_atom_record) : Prop :=
  is_u32 (atom_position r) /\ is_u32 (placement_rank r) /\ is_u8 (position_class r) /\
  is_u8 (lup_v1_length r) /\ bytes 4 (lup_v1_bytes r) /\ bytes 16 (content_id r) /\
  bytes 32 (identity_preimage_fingerprint r) /\ doubles_wf 4 (component (coordinate r)) /\
  bytes 16 (hilbert_key r) /\ bytes 32 (atom_geometry_epoch r) /\ bytes 32 (atom_physicality_id r) /\
  length (fields r) = LAPLACE_UNICODE_ATOM_FIELD_COUNT /\ Forall field_wf (fields r).

(** What a valid record says: it is the identity of its position, its class
    separates the surrogates, its coordinate is in the cube and its fields are
    the fields of their places. *)
Definition atom_valid (r : laplace_unicode_atom_record) : Prop :=
  let p := atom_position r in
  position p /\ position (placement_rank r) /\ position_class r <= 4 /\
  (position_class r = 4 <-> 0xd800 <= p <= 0xdfff) /\
  lup_v1_length r = Z.of_nat (length (Identity.position_bytes p)) /\
  lup_v1_bytes r = overwrite (zeros 4) (Identity.position_bytes p) /\
  content_id r = take 16 (blake3 (Identity.position_bytes p)) /\
  identity_preimage_fingerprint r = blake3 (Identity.position_bytes p) /\
  forallb coordinate_valid (component (coordinate r)) = true /\
  forall i, (i < LAPLACE_UNICODE_ATOM_FIELD_COUNT)%nat -> field_good i (fields r !!! i).

Lemma lup_exact r : position (atom_position r) -> lup_matches r = true <->
  lup_v1_length r = Z.of_nat (length (Identity.position_bytes (atom_position r))) /\
  lup_v1_bytes r = overwrite (zeros 4) (Identity.position_bytes (atom_position r)).
Proof.
  intros Hp. unfold lup_matches, position in *. rewrite position_encode_ok by lia.
  rewrite andb_true_iff, Z.eqb_eq, bytes_equal_spec. split; intros [? ?]; by split.
Qed.

Lemma identity_exact r : position (atom_position r) -> identity_matches r = true <->
  content_id r = take 16 (blake3 (Identity.position_bytes (atom_position r))) /\
  identity_preimage_fingerprint r = blake3 (Identity.position_bytes (atom_position r)).
Proof.
  intros Hp. unfold identity_matches, identity_fields_match, position in *. rewrite codepoint_witness_ok by lia.
  rewrite andb_true_iff, !bytes_equal_spec. split; intros [? ?]; by split.
Qed.

Lemma fields_exact fs : length fs = LAPLACE_UNICODE_ATOM_FIELD_COUNT -> Forall field_wf fs ->
  forallb (fun i => field_shape_valid (fs !!! i) i) (seq 0 LAPLACE_UNICODE_ATOM_FIELD_COUNT) = true <->
  forall i, (i < LAPLACE_UNICODE_ATOM_FIELD_COUNT)%nat -> field_good i (fs !!! i).
Proof.
  intros Hl Hw. rewrite forallb_forall.
  assert (Hi : forall i, (i < LAPLACE_UNICODE_ATOM_FIELD_COUNT)%nat -> field_wf (fs !!! i)).
  { intros i Hlt. destruct (lookup_lt_is_Some_2 fs i) as [f Hf]; [lia|].
    rewrite (list_lookup_total_correct _ _ _ Hf). by apply (Forall_lookup_1 _ _ _ _ Hw Hf). }
  split; intros H i Hlt.
  - apply field_shape_good; [by apply Hi|]. apply H, in_seq. lia.
  - apply in_seq in Hlt. apply field_shape_good; [apply Hi; lia|]. apply H. lia.
Qed.

Lemma surrogate_exact class p :
  Bool.eqb (class =? 4) ((0xd800 <=? p) && (p <=? 0xdfff)) = true <-> (class = 4 <-> 0xd800 <= p <= 0xdfff).
Proof.
  rewrite Bool.eqb_true_iff. destruct (Z.eqb_spec class 4), (Z.leb_spec 0xd800 p), (Z.leb_spec p 0xdfff);
    cbn [andb]; split; (done || lia).
Qed.

Lemma fixed_record_exact r : atom_typed r -> fixed_record_valid r = true <-> atom_valid r.
Proof.
  intros (Hp & Hr & Hc & _ & _ & _ & _ & _ & _ & _ & _ & Hlen & Hw).
  unfold fixed_record_valid, atom_valid. cbv zeta. rewrite coordinates_scan.
  destruct (Z.leb_spec LAPLACE_UNICODE_ROOT_POPULATION (atom_position r)).
  { cbn [orb]. split; [done|]. unfold position. intros [? _]. lia. }
  assert (position (atom_position r)) as Hpos by (unfold position; lia).
  pose proof (lup_exact r Hpos) as Hlup. pose proof (identity_exact r Hpos) as Hid.
  pose proof (fields_exact (fields r) Hlen Hw) as Hf.
  pose proof (surrogate_exact (position_class r) (atom_position r)) as Hs.
  cbn [orb].
  match goal with |- (if ?g then _ else _) = true <-> _ => assert (G : g = false <->
    position (placement_rank r) /\ position_class r <= 4 /\
    (position_class r = 4 <-> 0xd800 <= atom_position r <= 0xdfff) /\
    lup_matches r = true /\ identity_matches r = true) end.
  { rewrite !orb_false_iff, Z.leb_gt, Z.ltb_ge, !negb_false_iff, Hs. unfold position. intuition lia. }
  rewrite Hlup, Hid in G. destruct (_ || _) in G |- *.
  { split; [done|]. intros (_ & H1 & H2 & H3 & H4 & H5 & H6 & H7 & _). by assert (true = false) by (apply G; tauto). }
  destruct (proj1 G eq_refl) as (H1 & H2 & H3 & [H4 H5] & [H6 H7]).
  destruct (forallb coordinate_valid _); cbn [negb]; [|split; [done|by intros (_ & _ & _ & _ & _ & _ & _ & _ & ? & _)]].
  rewrite Hf. tauto.
Qed.

(** ** The bytes of an atom *)
Definition atom_pieces (r : laplace_unicode_atom_record) (total : Z) : list piece :=
  [stored LUAR; stored (store_le 2 2); stored (store_le 2 196); stored (store_le 4 total);
   stored (store_le 4 (atom_position r)); stored (store_le 4 (placement_rank r));
   stored [position_class r]; stored [lup_v1_length r]; gap 2; stored (lup_v1_bytes r);
   stored (content_id r); stored (identity_preimage_fingerprint r);
   stored (store_le 8 (component (coordinate r) !!! 0%nat));
   stored (store_le 8 (component (coordinate r) !!! 1%nat));
   stored (store_le 8 (component (coordinate r) !!! 2%nat));
   stored (store_le 8 (component (coordinate r) !!! 3%nat)); stored (hilbert_key r);
   stored (store_le 2 26); gap 2; stored (store_le 4 (total - 196));
   stored (atom_geometry_epoch r); stored (atom_physicality_id r)].
Definition atom_sizes : list nat :=
  [4; 2; 2; 4; 4; 4; 1; 1; 2; 4; 16; 32; 8; 8; 8; 8; 16; 2; 2; 4; 32; 32]%nat.

Definition atom_total (r : laplace_unicode_atom_record) : Z := 196 + fields_total (fields r).
Definition atom_bytes (r : laplace_unicode_atom_record) : list Z :=
  layout (atom_pieces r (atom_total r)) ++ fields_bytes (fields r).

Definition atom_wf (r : laplace_unicode_atom_record) : Prop :=
  atom_typed r /\ atom_valid r /\ atom_total r <= UINT32_MAX.

(** The view of an atom in a buffer: its fields point into it. *)
Definition pointed_at (m : list Z) (r : laplace_unicode_atom_record) : laplace_unicode_atom_record :=
  mk_atom (atom_position r) (placement_rank r) (position_class r) (lup_v1_length r) (lup_v1_bytes r)
    (content_id r) (identity_preimage_fingerprint r) (coordinate r) (hilbert_key r)
    (atom_geometry_epoch r) (atom_physicality_id r) (repoint m 196 (fields r)).
Definition atom_view (m : list Z) (r : laplace_unicode_atom_record) : laplace_unicode_atom_record_view :=
  mk_atom_view (pointed_at m r) (Some m) (atom_total r).

Lemma atom_piece_sizes r total : atom_typed r ->
  map (fun p => length (piece_bytes p)) (atom_pieces r total) = atom_sizes.
Proof.
  intros (_ & _ & _ & _ & [H1 _] & [H2 _] & [H3 _] & _ & [H4 _] & [H5 _] & [H6 _] & _).
  cbn [atom_pieces map piece_bytes]. by rewrite !length_store_le, !length_zeros, H1, H2, H3, H4, H5, H6.
Qed.

Lemma good_typed i f : field_wf f -> (i < 26)%nat -> field_good i f -> field_typed f.
Proof.
  intros Hw Hi (H1 & H2 & H3 & H4 & _). unfold field_typed. rewrite H1, H2, H3.
  split; [lia|]. split; [|split; [lia|by split]].
  do 26 (destruct i as [|i]; [cbn; lia|]). lia.
Qed.

Lemma valid_fields_typed r : atom_typed r -> atom_valid r -> Forall field_typed (fields r).
Proof.
  intros (_ & _ & _ & _ & _ & _ & _ & _ & _ & _ & _ & Hlen & Hw) (_ & _ & _ & _ & _ & _ & _ & _ & _ & Hg).
  apply Forall_lookup. intros i f Hf. pose proof (lookup_lt_Some _ _ _ Hf) as Hlt. rewrite Hlen in Hlt.
  apply (good_typed i); [by apply (Forall_lookup_1 _ _ _ _ Hw Hf)|done|].
  rewrite <- (list_lookup_total_correct _ _ _ Hf). by apply Hg.
Qed.

Lemma left_atom_bytes r : atom_typed r -> atom_valid r -> left (atom_bytes r) = atom_total r.
Proof.
  intros Ht Hv. unfold atom_bytes. rewrite left_app, (left_layout atom_sizes) by by apply atom_piece_sizes.
  rewrite left_fields by by apply valid_fields_typed. done.
Qed.

(** ** Reading an atom *)
Lemma atom_header_written m : octets m -> 196 <= left m -> slice 0 4 m = LUAR ->
  u16_at 4 m = 2 -> u16_at 6 m = 196 -> u16_at 22 m = 0 -> u16_at 124 m = 26 -> u16_at 126 m = 0 ->
  u32_at 128 m = u32_at 8 m - 196 -> forall fs,
  m = layout (atom_pieces (load_atom m fs) (u32_at 8 m)) ++ drop 196 m.
Proof.
  intros Hm Hl H0 H4 H6 H22 H124 H126 H128 fs. unfold left in Hl.
  apply (pieces_split atom_sizes). unfold atom_sizes. slices.
  rewrite H0, !slice_u16, !slice_one, !slice_u64, (slice_u32 m 8), (slice_u32 m 12), (slice_u32 m 16),
    (slice_u32 m 128) by (done || lia).
  by rewrite H4, H6, H22, H124, H126, H128.
Qed.

Lemma atom_header_read m r total rest : atom_typed r -> 196 <= total <= UINT32_MAX ->
  m = layout (atom_pieces r total) ++ rest ->
  slice 0 4 m = LUAR /\ u16_at 4 m = 2 /\ u16_at 6 m = 196 /\ u16_at 22 m = 0 /\ u16_at 124 m = 26 /\
  u16_at 126 m = 0 /\ u32_at 8 m = total /\ u32_at 128 m = total - 196 /\
  forall fs, load_atom m fs = mk_atom (atom_position r) (placement_rank r) (position_class r)
    (lup_v1_length r) (lup_v1_bytes r) (content_id r) (identity_preimage_fingerprint r) (coordinate r)
    (hilbert_key r) (atom_geometry_epoch r) (atom_physicality_id r) fs.
Proof.
  intros Hty Ht E. apply (cuts_record atom_sizes) in E.
  2: { rewrite map_map. by apply atom_piece_sizes. }
  unfold atom_sizes in E. slices_in E. cbn [atom_pieces map piece_bytes] in E.
  injection E as E0 E1 E2 E3 E4 E5 E6 E7 E8 E9 E10 E11 E12 E13 E14 E15 E16 E17 E18 E19 E20 E21.
  destruct Hty as (Hp & Hr & Hc & Hn & _ & _ & _ & [Hd Hds] & _).
  apply (u16_at_stored _ _ 0) in E8, E18; [|lia..]. apply u16_at_stored in E1, E2, E17; [|lia..].
  apply u32_at_stored in E3, E4, E5, E19; [|lia..]. apply u8_at_stored in E6, E7.
  split_and!; try done. intros fs. unfold load_atom. rewrite E4, E5, E6, E7, E9, E10, E11, E16, E20, E21.
  destruct (coordinate r) as [ds]. cbn [component] in *.
  destruct ds as [|d0 [|d1 [|d2 [|d3 [|]]]]]; try discriminate Hd.
  repeat (apply Forall_cons in Hds as [? Hds]). cbn [lookup_total list_lookup_total] in *.
  apply u64_at_stored in E12, E13, E14, E15; [|done..]. by rewrite E12, E13, E14, E15.
Qed.

Lemma load_atom_typed m fs : octets m -> 196 <= left m -> length fs = 26%nat -> Forall field_wf fs ->
  atom_typed (load_atom m fs).
Proof.
  intros Hm Hl Hn Hf. unfold left in Hl. pose proof (octets_length m Hm) as Hb. unfold atom_typed.
  cbn [load_atom atom_position placement_rank position_class lup_v1_length lup_v1_bytes content_id
    identity_preimage_fingerprint coordinate component hilbert_key atom_geometry_epoch
    atom_physicality_id fields].
  split_and!; try done; try (apply u32_at_range; (done || lia)); try (apply u8_at_octet; (done || lia)).
  - apply (slice_bytes 4); (done || lia).
  - apply (slice_bytes 16); (done || lia).
  - apply (slice_bytes 32); (done || lia).
  - split; [done|]. repeat (constructor; [apply u64_at_range; (done || lia)|]). constructor.
  - apply (slice_bytes 16); (done || lia).
  - apply (slice_bytes 32); (done || lia).
  - apply (slice_bytes 32); (done || lia).
Qed.

Lemma atom_open_only m available v0 c0 v c : octets m -> available <= left m ->
  laplace_unicode_atom_record_open (Some m) available (Some v0) (Some c0) = (LAPLACE_UNICODE_OK, v, c) ->
  exists r rest, atom_wf r /\ m = atom_bytes r ++ rest /\ left (atom_bytes r) <= available /\
    v = Some (atom_view m r) /\ c = Some (left (atom_bytes r)).
Proof.
  intros Hm Hav. unfold laplace_unicode_atom_record_open. cbv zeta. intros H.
  casec_in H; [done|]. casec_in H; [done|].
  destruct (open_fields _ _ _ _) as [[complete offset] fs] eqn:Eo.
  casec_in H; [done|]. injection H as <- <-. subst.
  apply open_fields_only in Eo as (Hlen & Hft & Hrep & Etotal & _ & Hbytes); [|done|lia|lia|lia].
  rewrite length_replicate in Hlen.
  assert (Hty : atom_typed (load_atom m fs)).
  { apply load_atom_typed; [done|lia|done|]. eapply Forall_impl; [exact Hft|]. by intros f (_ & _ & _ & ? & _). }
  assert (Hv : atom_valid (load_atom m fs)) by by apply fixed_record_exact.
  assert (Et : atom_total (load_atom m fs) = u32_at 8 m) by done.
  assert (Hw : atom_wf (load_atom m fs)).
  { split; [done|]. split; [done|]. rewrite Et.
    pose proof (u32_at_range m 8 (octets_length m Hm)). unfold left in *. lia. }
  exists (load_atom m fs), (advance (u32_at 8 m) m). split; [done|].
  rewrite left_atom_bytes, Et by done. split; [|split; [lia|split; [|done]]].
  - unfold atom_bytes. rewrite Et, <- app_assoc. cbn [load_atom fields]. rewrite <- Hbytes.
    apply atom_header_written; try done; try lia. by apply bytes_equal_spec.
  - unfold atom_view. rewrite Et. unfold pointed_at. cbn [fields load_atom]. by rewrite <- Hrep.
Qed.

(** A field is good wherever its payload is. *)
Lemma repoint_good m : forall fs off rest, 0 <= off -> Forall field_typed fs ->
  advance off m = fields_bytes fs ++ rest -> octets m ->
  length (repoint m off fs) = length fs /\ Forall field_wf (repoint m off fs) /\
  map field_content (repoint m off fs) = map field_content fs /\
  forall i k, (i < length fs)%nat -> field_good k (fs !!! i) -> field_good k (repoint m off fs !!! i).
Proof.
  induction fs as [|f fs IH]; intros off rest Ho Ht E Hm.
  { split; [done|]. split; [constructor|]. split; [done|]. intros i k Hi. cbn in Hi. lia. }
  apply Forall_cons in Ht as [Hf Ht]. unfold fields_bytes in *. cbn [map concat] in E. rewrite <- app_assoc in E.
  destruct (field_header_read m off f _ Hf Ho E) as (_ & _ & _ & _ & E5).
  pose proof Hf as (_ & _ & _ & (Hn & Ho' & Hp) & Hnull).
  destruct (IH (off + (8 + payload_bytes f)) rest) as (IH1 & IH2 & IHc & IH3); [lia|done| |done|].
  { replace (off + (8 + payload_bytes f)) with (off + 8 + payload_bytes f) by lia.
    rewrite <- (advance_advance (payload_bytes f)) by lia. rewrite E5, <- (left_content f Hf). apply advance_app. }
  cbn [repoint length]. set (g := mk_field _ _ _ _ _).
  assert (Hc : field_content g = field_content f).
  { unfold field_content at 1. cbn [g payload payload_bytes].
    pose proof (left_content f Hf) as Hl. destruct (Z.eqb_spec (payload_bytes f) 0) as [E0|].
    - rewrite E0 in Hl. apply left_nil in Hl as ->. rewrite E0. done.
    - rewrite E5, <- Hl. apply take_left. }
  split; [by f_equal|]. split.
  - constructor; [|done]. split; [done|]. rewrite Hc. split; [done|]. cbn [g payload payload_bytes].
    destruct (payload_bytes f =? 0); [done|]. rewrite E5, left_app, left_content by done.
    match goal with |- context [left ?l] => pose proof (left_nonneg l) end. lia.
  - split; [cbn [map]; by rewrite Hc, IHc|]. intros [|i] k Hi Hg; cbn [lookup_total list_lookup_total] in *; [|apply IH3; [lia|done]].
    destruct Hg as (H1 & H2 & H3 & _ & H5). split; [done|]. split; [done|]. split; [done|].
    rewrite Hc. split; [|done]. cbn [g payload payload_bytes]. by destruct (Z.eqb_spec (payload_bytes f) 0).
Qed.

Lemma atom_fields_at m r rest : atom_typed r -> m = atom_bytes r ++ rest ->
  advance 196 m = fields_bytes (fields r) ++ rest.
Proof.
  intros Hty ->. unfold atom_bytes. rewrite <- app_assoc. unfold advance. apply drop_app_length'.
  pose proof (left_layout atom_sizes _ (atom_piece_sizes r (atom_total r) Hty)) as Hl.
  unfold left in Hl. change (Z.of_nat (sum_list atom_sizes)) with 196 in Hl. lia.
Qed.

Lemma repoint_total m : forall fs off, fields_total (repoint m off fs) = fields_total fs.
Proof.
  induction fs as [|f fs IH]; intros off; [done|]. unfold fields_total in *.
  cbn [repoint foldr payload_bytes]. by rewrite IH.
Qed.

Lemma pointed_wf m r rest : octets m -> atom_wf r -> m = atom_bytes r ++ rest -> atom_wf (pointed_at m r).
Proof.
  intros Hm (Hty & Hv & Ht) E. pose proof (valid_fields_typed r Hty Hv) as Hft.
  pose proof (atom_fields_at m r rest Hty E) as Ea.
  destruct (repoint_good m (fields r) 196 rest) as (H1 & H2 & _ & H3); [lia|done|done|done|].
  destruct Hty as (T1 & T2 & T3 & T4 & T5 & T6 & T7 & T8 & T9 & T10 & T11 & T12 & T13).
  destruct Hv as (V1 & V2 & V3 & V4 & V5 & V6 & V7 & V8 & V9 & V10).
  split; [exact (conj T1 (conj T2 (conj T3 (conj T4 (conj T5 (conj T6 (conj T7 (conj T8 (conj T9 (conj T10
      (conj T11 (conj (eq_trans H1 T12) H2))))))))))))|].
  split; [|unfold atom_total; cbn [pointed_at fields]; by rewrite repoint_total].
  refine (conj V1 (conj V2 (conj V3 (conj V4 (conj V5 (conj V6 (conj V7 (conj V8 (conj V9 _))))))))).
  intros i Hi. apply H3; [rewrite T12; lia|]. by apply V10.
Qed.

Lemma pointed_valid m r rest : octets m -> atom_wf r -> m = atom_bytes r ++ rest ->
  fixed_record_valid (pointed_at m r) = true.
Proof. intros Hm Hw E. destruct (pointed_wf m r rest Hm Hw E) as (? & ? & _). by apply fixed_record_exact. Qed.

#[export] Instance atom_opener :
  Opener laplace_unicode_atom_record_open atom_bytes atom_wf atom_view.
Proof.
  intros m available v0 c0 v c Hm Hav. split; [by apply atom_open_only|].
  intros (r & rest & Hw & E & Hle & -> & ->). pose proof (pointed_valid m r rest Hm Hw E) as Hvalid.
  destruct Hw as (Hty & Hv & Ht). pose proof (valid_fields_typed r Hty Hv) as Hft.
  rewrite left_atom_bytes in * by done. pose proof (fields_total_nonneg _ Hft) as Hn.
  pose proof E as E'. unfold atom_bytes in E'. rewrite <- app_assoc in E'.
  destruct (atom_header_read m r (atom_total r) _ Hty ltac:(unfold atom_total in *; lia) E')
    as (H0 & H4 & H6 & H22 & H124 & H126 & H8 & H128 & Hload).
  unfold laplace_unicode_atom_record_open. cbv zeta. rewrite H0, H4, H6, H22, H124, H126, H8, H128.
  assert (bytes_equal LUAR LUAR = true) as -> by by apply bytes_equal_spec.
  rewrite (open_fields_ok m (atom_total r) (fields r) _ 196 rest); [|lia|done| | |unfold atom_total; lia].
  - rewrite Hload. fold (pointed_at m r). rewrite Hvalid. unfold atom_total in *.
    change (Z.of_nat LAPLACE_UNICODE_ATOM_FIELD_COUNT) with 26. casec; [lia|]. casec; [lia|]. rewrite Z.eqb_refl. done.
  - rewrite length_replicate. symmetry. apply Hty.
  - by apply atom_fields_at.
Qed.

(** ** Writing an atom *)
Lemma measured_fields fs : Forall field_typed fs -> forall t, 0 <= t -> t + fields_total fs <= SIZE_MAX ->
  measure_fields t fs = Some (t + fields_total fs).
Proof.
  induction 1 as [|f fs Hf Hfs IH]; intros t Ht Hs; cbn [measure_fields fields_total foldr] in *;
    [by rewrite Z.add_0_r|].
  pose proof Hf as (_ & _ & _ & (Hn & _) & _). pose proof (fields_total_nonneg fs Hfs).
  unfold fields_total in *. casec; [lia|]. rewrite IH by lia. f_equal. lia.
Qed.

Lemma fields_total_bound fs : Forall field_typed fs ->
  fields_total fs <= Z.of_nat (length fs) * (8 + UINT32_MAX).
Proof.
  induction 1 as [|f fs Hf _ IH]; [done|]. cbn [fields_total foldr length] in *.
  pose proof Hf as (_ & _ & _ & (Hn & _) & _). unfold fields_total in *. lia.
Qed.

Lemma atom_measure_exact r n : atom_typed r ->
  laplace_unicode_atom_record_measure (Some r) (Some n) =
  if fixed_record_valid r then
    if UINT32_MAX <? atom_total r then (LAPLACE_UNICODE_SIZE_OVERFLOW, Some n)
    else (LAPLACE_UNICODE_OK, Some (atom_total r))
  else (LAPLACE_UNICODE_RECORD_INVALID, Some n).
Proof.
  intros Hty. unfold laplace_unicode_atom_record_measure. destruct (fixed_record_valid r) eqn:Ev; [|done].
  pose proof (valid_fields_typed r Hty (proj1 (fixed_record_exact r Hty) Ev)) as Hft.
  pose proof (fields_total_bound _ Hft) as Hb. pose proof Hty as (_ & _ & _ & _ & _ & _ & _ & _ & _ & _ & _ & Hlen & _).
  rewrite Hlen in Hb. cbn [negb]. rewrite measured_fields by (done || lia). done.
Qed.

Lemma store_field_spec f h n t : field_typed f -> (Z.to_nat (8 + payload_bytes f) <= n)%nat ->
  store_field (Z.of_nat (length h), h ++ zeros n ++ t) f =
  (Z.of_nat (length (h ++ field_bytes f)),
   (h ++ field_bytes f) ++ zeros (n - Z.to_nat (8 + payload_bytes f)) ++ t).
Proof.
  intros Hf Hn. pose proof (left_content f Hf) as Hc. pose proof (left_field_bytes f Hf) as Hl.
  pose proof Hf as (_ & _ & _ & (Hp & _) & _). unfold left in Hc, Hl.
  unfold store_field. cbv zeta.
  set (ps := [stored (store_le 2 (field_id f)); stored [payload_kind f]; stored [field_flags f];
    stored (store_le 4 (payload_bytes f))]).
  replace (Z.of_nat (length h) + 4) with (Z.of_nat (length h) + 2 + 1 + 1) by lia.
  replace (Z.of_nat (length h) + 3) with (Z.of_nat (length h) + 2 + 1) by lia.
  match goal with |- context [puts ?w] => change w with (writes_at (Z.of_nat (length h)) [2; 1; 1; 4]%nat ps) end.
  rewrite (puts_layout [2; 1; 1; 4]%nat ps) by (done || cbn; lia).
  assert (Hps : length (layout ps) = 8%nat) by done.
  assert (Hb : field_bytes f = layout ps ++ field_content f).
  { unfold field_bytes, layout. cbn [ps map piece_bytes concat]. by rewrite app_nil_r, <- !app_assoc. }
  f_equal; [rewrite length_app; lia|]. rewrite Hb.
  replace (Z.of_nat (length h) + 8) with (Z.of_nat (length (h ++ layout ps))) by (rewrite length_app; lia).
  fold (field_content f). rewrite (app_assoc h (layout ps)).
  destruct (Z.eqb_spec (payload_bytes f) 0) as [E|E].
  - rewrite E in *. destruct (field_content f); [|by cbn in Hc]. by rewrite app_nil_r, !app_assoc.
  - rewrite put_cleared by (cbn; lia). rewrite <- !app_assoc. do 4 f_equal. f_equal. cbn. lia.
Qed.

Lemma store_fields_spec fs : Forall field_typed fs -> forall h n t, (Z.to_nat (fields_total fs) <= n)%nat ->
  foldl store_field (Z.of_nat (length h), h ++ zeros n ++ t) fs =
  (Z.of_nat (length (h ++ fields_bytes fs)),
   (h ++ fields_bytes fs) ++ zeros (n - Z.to_nat (fields_total fs)) ++ t).
Proof.
  induction 1 as [|f fs Hf Hfs IH]; intros h n t Hn.
  { unfold fields_bytes. cbn. by rewrite app_nil_r, Nat.sub_0_r. }
  pose proof (fields_total_nonneg fs Hfs). pose proof Hf as (_ & _ & _ & (Hp & _) & _).
  unfold fields_bytes in *. cbn [foldl map concat fields_total foldr] in *. unfold fields_total in *.
  rewrite store_field_spec by (done || lia). rewrite IH by lia. rewrite !app_assoc. do 4 f_equal. lia.
Qed.

#[export] Instance atom_encoder : Encoder laplace_unicode_atom_record_encode atom_bytes atom_wf.
Proof.
  intros r output capacity n (Hty & Hv & Ht). pose proof (valid_fields_typed r Hty Hv) as Hft.
  unfold laplace_unicode_atom_record_encode, encoded.
  rewrite atom_measure_exact, (proj2 (fixed_record_exact r Hty) Hv), (proj2 (Z.ltb_ge _ _)) by done.
  change (default 0 (Some (atom_total r))) with (atom_total r). cbn [store].
  rewrite left_atom_bytes by done. casec; [done|].
  pose proof (fields_total_nonneg _ Hft) as Hn. unfold atom_total in Ht.
  rewrite !u32_small by (unfold atom_total; lia).
  set (pieces := atom_pieces r (atom_total r)).
  match goal with |- context [puts ?w] => change w with (writes_at 0 atom_sizes pieces) end.
  pose proof (atom_piece_sizes r (atom_total r) Hty) as Hs.
  assert (Hsum : (sum_list atom_sizes <= Z.to_nat (atom_total r))%nat) by (unfold atom_total; cbn; lia).
  rewrite (puts_record atom_sizes pieces) by done.
  assert (Hl : Z.of_nat (length (layout pieces)) = 196) by (pose proof (left_layout _ _ Hs); done).
  rewrite <- Hl at 1. rewrite store_fields_spec by (done || unfold atom_total; cbn; lia).
  match goal with |- context [zeros (?a - ?b)] => replace (a - b)%nat with 0%nat by (unfold atom_total; cbn; lia) end.
  replace (length (atom_bytes r)) with (Z.to_nat (atom_total r))
    by (pose proof (left_atom_bytes r Hty Hv) as E; unfold left in E; lia).
  unfold atom_bytes. fold pieces. cbn [zeros replicate app]. by rewrite <- !app_assoc.
Qed.

(** ** Records of any kind *)
Inductive root_record :=
| record_atom (r : laplace_unicode_atom_record)
| record_position (r : laplace_unicode_ducet_position_record)
| record_contraction (r : laplace_unicode_ducet_contraction_record)
| record_composition (r : laplace_unicode_normalization_composition)
| record_manifest (r : laplace_unicode_root_manifest).

Definition record_kind (v : root_record) : Z :=
  match v with
  | record_atom _ => 1 | record_position _ => 2 | record_contraction _ => 3
  | record_composition _ => 4 | record_manifest _ => 5
  end.
Definition record_bytes (v : root_record) : list Z :=
  match v with
  | record_atom r => atom_bytes r | record_position r => ducet_bytes r
  | record_contraction r => contraction_bytes r | record_composition r => composition_bytes r
  | record_manifest r => manifest_bytes r
  end.
Definition record_wf (v : root_record) : Prop :=
  match v with
  | record_atom r => atom_wf r | record_position r => ducet_wf r
  | record_contraction r => contraction_wf r | record_composition r => composition_wf r
  | record_manifest r => manifest_wf r
  end.
(** The ordinal of a record in its section: that of a position is the position,
    the manifest is alone. *)
Definition record_at (v : root_record) (ordinal : Z) : Prop :=
  match v with
  | record_atom r => ordinal = atom_position r
  | record_position r => ordinal = codepoint_position r
  | record_contraction _ | record_composition _ => True
  | record_manifest _ => ordinal = 0
  end.

Lemma opens_all_exact {R V} open (enc : R -> list Z) wf (view : list Z -> R -> V)
    (O : Opener open enc wf view) m n v0 c0 test : octets m -> n <= left m ->
  opens_all (open (Some m) n (Some v0) (Some c0)) n test = true <->
  exists r, wf r /\ left (enc r) = n /\ cells (Some m) n = enc r /\ test (view m r) = true.
Proof.
  intros Hm Hn. split.
  - intros H. destruct (open (Some m) n (Some v0) (Some c0)) as [[[] [v|]] [c|]] eqn:E; try discriminate H.
    apply O in E as (r & rest & Hw & Em & _ & [= ->] & [= ->]); [|done|done].
    cbn [opens_all] in H. apply andb_true_iff in H as [Hc%Z.eqb_eq Ht].
    exists r. split; [done|]. split; [done|]. split; [|done]. rewrite Em. by apply cells_app.
  - intros (r & Hw & Hl & Hc & Ht).
    assert (E : open (Some m) n (Some v0) (Some c0) =
      (LAPLACE_UNICODE_OK, Some (view m r), Some (left (enc r)))).
    { apply O; [done|done|]. exists r, (drop (Z.to_nat n) m). split; [done|].
      split; [|split; [lia|done]]. rewrite <- Hc. symmetry. apply take_drop. }
    rewrite E. cbn [opens_all]. by rewrite Hl, Z.eqb_refl, Ht.
Qed.

Lemma atom_total_positive r : atom_wf r -> 196 <= left (atom_bytes r).
Proof.
  intros (Hty & Hv & _). rewrite left_atom_bytes by done. unfold atom_total.
  pose proof (fields_total_nonneg _ (valid_fields_typed r Hty Hv)). lia.
Qed.

Lemma record_nonempty v : record_wf v -> 0 < left (record_bytes v).
Proof.
  destruct v as [r|r|r|r|r]; cbn [record_wf record_bytes]; intros Hw.
  - pose proof (atom_total_positive r Hw). lia.
  - rewrite left_ducet_bytes by done. destruct Hw as (_ & _ & _ & ? & _ & ? & _). unfold ducet_total. lia.
  - rewrite left_contraction_bytes by done. destruct Hw as (_ & ? & _ & ? & _). unfold contraction_total. lia.
  - by rewrite left_composition_bytes.
  - by rewrite left_manifest_bytes.
Qed.

#[local] Ltac each := split; [done|split; [done|split; [done|split; done]]].

(** A payload is accepted when it is, to the last byte, the record of its kind
    in its place. *)
Lemma payload_exact kind ordinal m n : octets m -> 0 <= n <= left m -> 0 <= ordinal ->
  root_frame_payload_valid kind ordinal (Some m) n = true <->
  exists v, record_kind v = kind /\ record_wf v /\ record_at v ordinal /\
    left (record_bytes v) = n /\ cells (Some m) n = record_bytes v.
Proof.
  intros Hm Hn Ho. unfold root_frame_payload_valid, root_frame_kind_valid.
  destruct (Z.eqb_spec n 0) as [->|Hne].
  { rewrite !orb_true_r. split; [done|]. intros (v & _ & Hw & _ & Hl & _). pose proof (record_nonempty v Hw). lia. }
  destruct (Z.eqb_spec kind 1) as [->|]; [|destruct (Z.eqb_spec kind 2) as [->|]; [|
    destruct (Z.eqb_spec kind 3) as [->|]; [|destruct (Z.eqb_spec kind 4) as [->|]; [|
    destruct (Z.eqb_spec kind 5) as [->|]]]]].
  6: { destruct (Z.leb_spec 1 kind), (Z.leb_spec kind 5); cbn; [lia|..];
       (split; [done|]; intros ([] & Hk & _); cbn in Hk; lia). }
  all: cbn [Z.leb Z.compare Pos.compare Pos.compare_cont andb negb orb is_null].
  - rewrite andb_true_iff, Z.ltb_lt, (opens_all_exact _ _ _ _ atom_opener) by (done || lia). split.
    + intros [_ (r & Hw & Hl & Hc & Ht)]. exists (record_atom r). apply Z.eqb_eq in Ht. each.
    + intros ([r| | | |] & Hk & Hw & Hat & Hl & Hc); try discriminate Hk. cbn in *.
      pose proof Hw as (_ & ([_ ?] & _) & _). split; [lia|]. exists r. split; [done|]. split; [done|]. split; [done|].
      by apply Z.eqb_eq.
  - rewrite andb_true_iff, Z.ltb_lt, (opens_all_exact _ _ _ _ ducet_position_opener) by (done || lia). split.
    + intros [_ (r & Hw & Hl & Hc & Ht)]. exists (record_position r). apply Z.eqb_eq in Ht. each.
    + intros ([|r| | |] & Hk & Hw & Hat & Hl & Hc); try discriminate Hk. cbn in *.
      pose proof Hw as ([_ ?] & _). split; [lia|]. exists r. split; [done|]. split; [done|]. split; [done|].
      by apply Z.eqb_eq.
  - rewrite (opens_all_exact _ _ _ _ ducet_contraction_opener) by (done || lia). split.
    + intros (r & Hw & Hl & Hc & _). exists (record_contraction r). each.
    + intros ([| |r| |] & Hk & Hw & Hat & Hl & Hc); try discriminate Hk. by exists r.
  - rewrite (opens_all_exact _ _ _ _ composition_opener) by (done || lia). split.
    + intros (r & Hw & Hl & Hc & _). exists (record_composition r). each.
    + intros ([| | |r|] & Hk & Hw & Hat & Hl & Hc); try discriminate Hk. by exists r.
  - rewrite andb_true_iff, Z.eqb_eq, (opens_all_exact _ _ _ _ manifest_opener) by (done || lia). split.
    + intros [-> (r & Hw & Hl & Hc & _)]. exists (record_manifest r). each.
    + intros ([| | | |r] & Hk & Hw & Hat & Hl & Hc); try discriminate Hk. split; [done|]. by exists r.
Qed.

(** ** The bytes of a frame *)
(** An ordinal in its section and a record. *)
Definition root_frame : Type := Z * root_record.

Definition frame_pieces (kind ordinal payload_bytes : Z) : list piece :=
  [stored LURF; stored (store_le 2 2); stored (store_le 2 32); stored (store_le 4 (32 + payload_bytes));
   stored (store_le 2 kind); stored (store_le 2 0); stored (store_le 8 ordinal);
   stored (store_le 4 payload_bytes); gap 4].
Definition frame_sizes : list nat := [4; 2; 2; 4; 2; 2; 8; 4; 4]%nat.

Definition frame_total (f : root_frame) : Z := 32 + left (record_bytes f.2).
Definition frame_bytes (f : root_frame) : list Z :=
  layout (frame_pieces (record_kind f.2) f.1 (left (record_bytes f.2))) ++ record_bytes f.2.
Definition frame_wf (f : root_frame) : Prop :=
  is_u64 f.1 /\ record_wf f.2 /\ record_at f.2 f.1 /\ frame_total f <= UINT32_MAX.

(** A frame whose payload is at a pointer. *)
Definition frame_at (payload : list Z) (f : root_frame) : laplace_unicode_root_frame :=
  mk_frame (Some payload) f.1 (left (record_bytes f.2)) (record_kind f.2) 0.
Definition frame_view (m : list Z) (f : root_frame) : laplace_unicode_root_frame_view :=
  mk_frame_view (frame_at (drop 32 m) f) (Some m) (frame_total f).

Lemma frame_layout kind ordinal n : left (layout (frame_pieces kind ordinal n)) = 32.
Proof. by apply (left_layout frame_sizes). Qed.

Lemma left_frame_bytes f : left (frame_bytes f) = frame_total f.
Proof. unfold frame_bytes. by rewrite left_app, frame_layout. Qed.

Lemma record_kind_range v : 1 <= record_kind v <= 5.
Proof. destruct v; cbn; lia. Qed.

Lemma frame_header_written m : octets m -> 32 <= left m -> slice 0 4 m = LURF ->
  u16_at 4 m = 2 -> u16_at 6 m = 32 -> u16_at 14 m = 0 -> u32_at 28 m = 0 ->
  u32_at 8 m = 32 + u32_at 24 m ->
  m = layout (frame_pieces (u16_at 12 m) (u64_at 16 m) (u32_at 24 m)) ++ drop 32 m.
Proof.
  intros Hm Hl H0 H4 H6 H14 H28 H8. unfold left in Hl.
  apply (pieces_split frame_sizes). unfold frame_sizes. slices.
  rewrite H0, !slice_u16, !slice_u64, !slice_u32 by (done || lia). by rewrite H4, H6, H8, H14, H28.
Qed.

Lemma frame_header_read m kind ordinal n rest : 0 <= kind <= UINT16_MAX -> is_u64 ordinal -> 0 <= n ->
  32 + n <= UINT32_MAX -> m = layout (frame_pieces kind ordinal n) ++ rest ->
  slice 0 4 m = LURF /\ u16_at 4 m = 2 /\ u16_at 6 m = 32 /\ u16_at 14 m = 0 /\ u32_at 28 m = 0 /\
  u32_at 8 m = 32 + n /\ u16_at 12 m = kind /\ u64_at 16 m = ordinal /\ u32_at 24 m = n.
Proof.
  intros Hk Ho Hn Ht E. apply (cuts_record frame_sizes) in E; [|done]. unfold frame_sizes in E. slices_in E.
  injection E as E0 E1 E2 E3 E4 E5 E6 E7 E8.
  split_and!; first [done | apply u16_at_stored; done || lia | apply u32_at_stored; done || lia
                    | apply u64_at_stored; done || lia].
Qed.

Lemma frame_open_only m available v0 c0 v c : octets m -> available <= left m ->
  laplace_unicode_root_frame_open (Some m) available (Some v0) (Some c0) = (LAPLACE_UNICODE_OK, v, c) ->
  exists f rest, frame_wf f /\ m = frame_bytes f ++ rest /\ left (frame_bytes f) <= available /\
    v = Some (frame_view m f) /\ c = Some (left (frame_bytes f)).
Proof.
  intros Hm Hav. unfold laplace_unicode_root_frame_open. cbv zeta. intros H.
  casec_in H; [done|]. casec_in H; [done|]. casec_in H; [done|]. injection H as <- <-.
  assert (Hlen : 32 <= Z.of_nat (length m)) by (unfold left in *; lia).
  pose proof (octets_length m Hm) as Hb. pose proof (u64_at_range m 16 Hb). pose proof (u32_at_range m 24 Hb).
  assert (Hd : left (drop 32 m) = left m - 32) by (unfold left; rewrite length_drop; lia).
  lazymatch goal with H : root_frame_payload_valid _ _ _ _ = true |- _ =>
    apply payload_exact in H as (r & Hk & Hw & Hat & Hl & Hc) end; [|by apply Forall_drop|lia|lia].
  pose proof (u32_at_range m 8 Hb).
  exists (u64_at 16 m, r), (drop (Z.to_nat (u32_at 24 m)) (drop 32 m)).
  assert (Ht : frame_total (u64_at 16 m, r) = u32_at 8 m) by (unfold frame_total; cbn [snd]; lia).
  rewrite left_frame_bytes, Ht. split; [unfold frame_wf; rewrite Ht; cbn [fst snd]; split_and!; (done || lia)|].
  split; [|split; [lia|split; [|done]]].
  - unfold frame_bytes. cbn [fst snd]. rewrite Hl, Hk, <- app_assoc, <- Hc.
    unfold cells. change (default [] (Some (drop 32 m))) with (drop 32 m). rewrite take_drop.
    apply frame_header_written; try done; try lia. by apply bytes_equal_spec.
  - unfold frame_view, frame_at. cbn [fst snd]. rewrite Ht, Hk, Hl. do 3 f_equal. lia.
Qed.

Lemma frame_open_ok m available v0 c0 f rest : octets m -> available <= left m -> frame_wf f ->
  m = frame_bytes f ++ rest -> left (frame_bytes f) <= available ->
  laplace_unicode_root_frame_open (Some m) available (Some v0) (Some c0) =
    (LAPLACE_UNICODE_OK, Some (frame_view m f), Some (left (frame_bytes f))).
Proof.
  intros Hm Hav (Ho & Hw & Hat & Ht) E Hle. rewrite left_frame_bytes in *.
  pose proof (record_nonempty f.2 Hw) as Hne. pose proof (record_kind_range f.2) as Hk. unfold frame_total in *.
  unfold frame_bytes in E. rewrite <- app_assoc in E.
  destruct (frame_header_read m (record_kind f.2) f.1 (left (record_bytes f.2)) _
    ltac:(lia) Ho ltac:(lia) Ht E) as (H0 & H4 & H6 & H14 & H28 & H8 & H12 & H16 & H24).
  assert (Hd : drop 32 m = record_bytes f.2 ++ rest).
  { rewrite E. apply drop_app_length'. pose proof (frame_layout (record_kind f.2) f.1 (left (record_bytes f.2))) as Hl.
    unfold left in *. lia. }
  unfold laplace_unicode_root_frame_open. cbv zeta. rewrite H0, H4, H6, H14, H28, H8, H12, H16, H24.
  assert (bytes_equal LURF LURF = true) as -> by by apply bytes_equal_spec.
  rewrite (proj2 (payload_exact (record_kind f.2) f.1 (drop 32 m) (left (record_bytes f.2))
    ltac:(by apply Forall_drop) ltac:(rewrite Hd, left_app; pose proof (left_nonneg rest); lia) ltac:(lia))).
  - casec; [lia|]. casec; [lia|]. done.
  - exists f.2. split; [done|]. split; [done|]. split; [done|]. split; [done|]. rewrite Hd. by apply cells_app.
Qed.

(** ** Writing a frame *)
#[export] Instance frame_opener :
  Opener laplace_unicode_root_frame_open frame_bytes frame_wf frame_view.
Proof.
  intros m available v0 c0 v c Hm Hav. split; [by apply frame_open_only|].
  intros (f & rest & Hw & E & Hle & -> & ->). by apply (frame_open_ok _ _ _ _ f rest).
Qed.

Lemma frame_measured payload f n : octets payload -> frame_wf f ->
  cells (Some payload) (left (record_bytes f.2)) = record_bytes f.2 ->
  laplace_unicode_root_frame_measure (Some (frame_at payload f)) (Some n) =
    (LAPLACE_UNICODE_OK, Some (frame_total f)).
Proof.
  intros Hm (Ho & Hw & Hat & Ht) Hc. pose proof (record_nonempty f.2 Hw) as Hne. unfold frame_total in Ht.
  assert (Hl : left (record_bytes f.2) <= left payload).
  { rewrite <- Hc at 1. unfold cells, left. cbn. rewrite length_take. lia. }
  unfold laplace_unicode_root_frame_measure, frame_at. cbv beta iota zeta.
  cbn [frame_flags frame_kind section_ordinal frame_payload frame_payload_bytes].
  rewrite (proj2 (payload_exact (record_kind f.2) f.1 payload (left (record_bytes f.2)) Hm ltac:(lia) ltac:(lia)))
    by by exists f.2.
  cbn [negb orb Z.eqb]. by rewrite (proj2 (Z.ltb_ge _ _)) by lia.
Qed.

Lemma frame_encode_ok payload f output capacity n : octets payload -> frame_wf f ->
  cells (Some payload) (left (record_bytes f.2)) = record_bytes f.2 ->
  laplace_unicode_root_frame_encode (Some (frame_at payload f)) (Some output) capacity (Some n) =
    encoded frame_bytes f output capacity.
Proof.
  intros Hm Hw Hc. unfold laplace_unicode_root_frame_encode, encoded.
  rewrite frame_measured, left_frame_bytes by done.
  change (default 0 (Some (frame_total f))) with (frame_total f). cbn [store]. casec; [done|].
  destruct Hw as (Ho & Hw & Hat & Ht). pose proof (record_nonempty f.2 Hw) as Hne.
  unfold frame_at. cbn [frame_flags frame_kind section_ordinal frame_payload frame_payload_bytes].
  rewrite u32_small by (unfold frame_total in *; lia). rewrite Hc.
  set (pieces := frame_pieces (record_kind f.2) f.1 (left (record_bytes f.2))).
  match goal with |- context [puts ?w] => change w with (writes_at 0 frame_sizes pieces) end.
  assert (Hsum : (sum_list frame_sizes <= Z.to_nat (frame_total f))%nat) by (unfold frame_total; cbn; lia).
  rewrite (puts_record frame_sizes pieces) by done.
  assert (Hl : Z.of_nat (length (layout pieces)) = 32) by apply frame_layout.
  rewrite <- Hl at 1.
  assert (Hroom : (Z.to_nat (frame_total f) - sum_list frame_sizes = length (record_bytes f.2))%nat)
    by (unfold frame_total, left; cbn; lia).
  rewrite put_cleared, Hroom, Nat.sub_diag by lia.
  replace (length (frame_bytes f)) with (Z.to_nat (frame_total f))
    by (pose proof (left_frame_bytes f) as E; unfold left in E; lia).
  unfold frame_bytes. fold pieces. cbn [zeros replicate app]. by rewrite <- !app_assoc.
Qed.

(** ** Properties *)
(** C30: A buffer opens as a frame exactly when it starts, within the bytes
    available, with the canonical bytes of a well-formed frame: an atom or a
    DUCET position at the ordinal of its position, a contraction, a composition,
    or the manifest at ordinal zero, each valid to its last byte.  The view then
    points at that frame, the bytes consumed are its bytes; any other buffer
    is refused and nothing is consumed. *)
Theorem frame_open_exact m available v0 c0 : octets m -> available <= left m ->
  let '(status, v, c) := laplace_unicode_root_frame_open (Some m) available (Some v0) (Some c0) in
  (status = LAPLACE_UNICODE_OK <->
   exists f rest, frame_wf f /\ m = frame_bytes f ++ rest /\ left (frame_bytes f) <= available) /\
  (forall f rest, frame_wf f -> m = frame_bytes f ++ rest -> left (frame_bytes f) <= available ->
     v = Some (frame_view m f) /\ c = Some (left (frame_bytes f))) /\
  (status <> LAPLACE_UNICODE_OK ->
     status = LAPLACE_UNICODE_RECORD_INVALID /\ v = Some v0 /\ c = Some c0).
Proof.
  intros Hm Hav. destruct (laplace_unicode_root_frame_open _ _ _ _) as [[status v] c] eqn:E.
  split; [|split].
  - split.
    + intros ->. apply frame_open_only in E as (f & rest & Hw & Em & Hl & _); [|done|done]. eauto.
    + intros (f & rest & Hw & Em & Hl). rewrite (frame_open_ok m available v0 c0 f rest) in E by done.
      by injection E as <-.
  - intros f rest Hw Em Hl. rewrite (frame_open_ok m available v0 c0 f rest) in E by done.
    by injection E as <- <- <-.
  - intros Hs. unfold laplace_unicode_root_frame_open in E. cbv zeta in E.
    casec_in E; [by injection E as <- <- <-|]. casec_in E; [by injection E as <- <- <-|].
    casec_in E; [by injection E as <- <- <-|]. by injection E as <- <- <-.
Qed.

(** A record read back from its bytes has them. *)
Lemma repoint_bytes m : forall fs off,
  map field_content (repoint m off fs) = map field_content fs ->
  fields_bytes (repoint m off fs) = fields_bytes fs.
Proof.
  induction fs as [|f fs IH]; intros off E; [done|]. cbn [repoint map] in E. injection E as Ef Es.
  specialize (IH _ Es). unfold fields_bytes in *. cbn [repoint map concat].
  rewrite IH. cbn [payload_bytes]. f_equal. unfold field_bytes. by rewrite Ef.
Qed.

Lemma pointed_bytes m r : map field_content (repoint m 196 (fields r)) = map field_content (fields r) ->
  atom_bytes (pointed_at m r) = atom_bytes r.
Proof.
  intros E. unfold atom_bytes, atom_total. cbn [pointed_at fields].
  by rewrite (repoint_bytes m (fields r) 196 E), repoint_total.
Qed.

(** The octets of an atom. *)
Lemma fields_octets fs : Forall field_typed fs -> octets (fields_bytes fs).
Proof.
  induction 1 as [|f fs (Hi & Hk & Hfl & (_ & Ho & _) & _) _ IH]; [constructor|]. unfold fields_bytes in *.
  cbn [map concat]. unfold field_bytes. rewrite !Forall_app. split; [|done].
  split; [apply octets_store|]. split; [by constructor|]. split; [by constructor|].
  split; [apply octets_store|done].
Qed.

Lemma zeros_octets n : octets (zeros n).
Proof. apply bytes_zeros. Qed.

Lemma atom_octets r : atom_wf r -> octets (atom_bytes r).
Proof.
  intros (Hty & Hv & _). unfold atom_bytes. apply Forall_app. split; [|by apply fields_octets, valid_fields_typed].
  destruct Hty as (_ & _ & Hc & Hl & [_ H1] & [_ H2] & [_ H3] & _ & [_ H4] & [_ H5] & [_ H6] & _).
  unfold layout. apply Forall_concat. cbn [atom_pieces map piece_bytes].
  repeat (constructor; [first [apply octets_store | apply zeros_octets | assumption
                              | by (constructor; [assumption|constructor]) | check]|]). constructor.
Qed.

(** An atom record is encoded exactly when it is valid, its fields fit a
    32-bit length and the output has room, and each refusal has its own status
    and leaves the output alone; what is written opens, to its last byte, as the
    same record with the same field contents, so that it would be encoded to the
    same bytes again, and the output behind it is untouched. *)
Theorem atom_roundtrip r output capacity n v0 c0 : atom_typed r ->
  let '(status, out, count) :=
    laplace_unicode_atom_record_encode (Some r) (Some output) capacity (Some n) in
  if negb (fixed_record_valid r)
  then status = LAPLACE_UNICODE_RECORD_INVALID /\ out = Some output /\ count = Some n
  else if UINT32_MAX <? atom_total r
  then status = LAPLACE_UNICODE_SIZE_OVERFLOW /\ out = Some output /\ count = Some n
  else if capacity <? atom_total r
  then status = LAPLACE_UNICODE_BUFFER_TOO_SMALL /\ out = Some output /\ count = Some (atom_total r)
  else status = LAPLACE_UNICODE_OK /\ count = Some (atom_total r) /\
    exists bytes, out = Some (bytes ++ drop (length bytes) output) /\ left bytes = atom_total r /\
      laplace_unicode_atom_record_open (Some bytes) (atom_total r) (Some v0) (Some c0) =
        (LAPLACE_UNICODE_OK, Some (atom_view bytes r), Some (atom_total r)) /\
      map field_content (fields (pointed_at bytes r)) = map field_content (fields r) /\
      atom_bytes (pointed_at bytes r) = bytes.
Proof.
  intros Hty. destruct (laplace_unicode_atom_record_encode _ _ _ _) as [[status out] count] eqn:E.
  destruct (fixed_record_valid r) eqn:Ev; cbn [negb].
  2: { unfold laplace_unicode_atom_record_encode in E. rewrite atom_measure_exact, Ev in E by done.
       by injection E as <- <- <-. }
  destruct (Z.ltb_spec UINT32_MAX (atom_total r)) as [Hbig|Hfit].
  { unfold laplace_unicode_atom_record_encode in E. rewrite atom_measure_exact, Ev in E by done.
    rewrite (proj2 (Z.ltb_lt _ _) Hbig) in E. by injection E as <- <- <-. }
  assert (Hw : atom_wf r) by (split; [done|split; [by apply fixed_record_exact|done]]).
  pose proof (left_atom_bytes r Hty (proj1 (proj2 Hw))) as Hl.
  rewrite (atom_encoder r output capacity n Hw) in E. unfold encoded in E. rewrite Hl in E.
  destruct (capacity <? atom_total r); [by injection E as <- <- <-|]. injection E as <- <- <-.
  split; [done|]. split; [done|]. exists (atom_bytes r). split; [done|]. split; [done|].
  pose proof (atom_octets r Hw) as Ho. pose proof (app_nil_r (atom_bytes r)) as En. symmetry in En.
  pose proof (valid_fields_typed r Hty (proj1 (proj2 Hw))) as Hft.
  destruct (repoint_good (atom_bytes r) (fields r) 196 []) as (_ & _ & Hc & _);
    [lia|done|by apply atom_fields_at|done|].
  split; [|split; [exact Hc|]].
  - apply atom_opener; [done|by rewrite Hl|]. exists r, []. rewrite Hl. by repeat (split; [done|]).
  - by apply pointed_bytes.
Qed.
End Laws.

(** ** Samples *)
(** A shortest payload of each kind. *)
Definition sample_payload (kind : Z) : list Z :=
  if kind =? 1 then [120] else if (kind =? 2) || (kind =? 13) then [0] else [].
Definition sample_atom_field (i : nat) : laplace_unicode_atom_field :=
  let kind := expected_payload_kind !!! i in
  let l := sample_payload kind in
  mk_field (match l with [] => None | _ => Some l end) (left l) (Z.of_nat i + 1) kind 0.
Definition sample_fields : list laplace_unicode_atom_field := map sample_atom_field (seq 0 26).

(** The atom of a position in the code space. *)
Definition sample_atom_at (p rank : Z) : laplace_unicode_atom_record :=
  let witness := blake3 (B := checksum_blake3) (Identity.position_bytes p) in
  mk_atom p rank 0 (Z.of_nat (length (Identity.position_bytes p)))
    (overwrite (zeros 4) (Identity.position_bytes p)) (take 16 witness) witness
    (mk_point [plus_one; minus_one; 0; 0x3fe0000000000000]) (zeros 16) (zeros 32) (zeros 32) sample_fields.
Definition sample_atom : laplace_unicode_atom_record := sample_atom_at 0x41 7.

Lemma sample_fields_wf : Forall field_wf sample_fields.
Proof.
  unfold sample_fields. cbn [map seq].
  repeat (constructor; [split; [vm_compute; split; discriminate|split;
    [vm_compute; repeat (constructor; [split; discriminate|]); constructor
    |vm_compute; first [exact I|discriminate]]]|]). constructor.
Qed.

Lemma sample_atom_typed : atom_typed sample_atom.
Proof.
  unfold atom_typed. do 4 (split; [vm_compute; split; discriminate|]). do 7 (split; [check|]).
  split; [reflexivity|apply sample_fields_wf].
Qed.

Definition sample_atom_bytes : list Z := atom_bytes sample_atom.

(** The sample with the identity of another position, which is refused. *)
Definition mismatched_atom : laplace_unicode_atom_record :=
  let other := sample_atom_at 0x42 7 in
  mk_atom 0x41 7 0 1 (lup_v1_bytes sample_atom) (content_id other)
    (identity_preimage_fingerprint other) (coordinate other) (zeros 16) (zeros 32) (zeros 32) sample_fields.

Example mismatched_refused : fixed_record_valid (B := checksum_blake3) mismatched_atom = false.
Proof. vm_compute. reflexivity. Qed.

Definition sample_frame_memory : list Z := frame_bytes (0x41, record_atom sample_atom) ++ [9; 9].

Lemma sample_frame_octets : octets sample_frame_memory.
Proof. check. Qed.
Lemma sample_frame_left : left sample_frame_memory <= left sample_frame_memory.
Proof. reflexivity. Qed.

Lemma sample_frame_opens : exists v c,
  laplace_unicode_root_frame_open (B := checksum_blake3) (Some sample_frame_memory)
    (left sample_frame_memory) (Some zero_frame_view) (Some 0) = (LAPLACE_UNICODE_OK, v, c).
Proof.
  destruct (laplace_unicode_root_frame_open _ _ _ _) as [[status v] c] eqn:E. exists v, c.
  assert (status = LAPLACE_UNICODE_OK) as ->; [|done].
  change status with (fst (fst (status, v, c))). rewrite <- E. vm_compute. reflexivity.
Qed.

Lemma frame_open_exact_witness :
  Forall (fun b => is_u8 b) sample_frame_memory /\
  exists f rest, frame_wf (B := checksum_blake3) f /\ sample_frame_memory = frame_bytes f ++ rest.
Proof.
  split; [exact sample_frame_octets|].
  pose proof (frame_open_exact (B := checksum_blake3) sample_frame_memory
    (left sample_frame_memory) zero_frame_view 0 sample_frame_octets sample_frame_left) as H.
  destruct sample_frame_opens as (v & c & E). rewrite E in H. destruct H as [[H _] _].
  destruct (H eq_refl) as (f & rest & Hw & Em & _). exists f, rest. split; [exact Hw|exact Em].
Defined.

Lemma sample_atom_valid : fixed_record_valid (B := checksum_blake3) sample_atom = true.
Proof. vm_compute. reflexivity. Qed.
Lemma sample_atom_total : atom_total sample_atom = 418.
Proof. vm_compute. reflexivity. Qed.

Lemma atom_roundtrip_witness :
  atom_typed sample_atom /\ exists bytes, left bytes = 418 /\
    laplace_unicode_atom_record_open (B := checksum_blake3) (Some bytes) 418 (Some zero_atom_view) (Some 0) =
      (LAPLACE_UNICODE_OK, Some (atom_view bytes sample_atom), Some 418).
Proof.
  split; [exact sample_atom_typed|].
  pose proof (atom_roundtrip (B := checksum_blake3) sample_atom (zeros 500) 500 0
    zero_atom_view 0 sample_atom_typed) as H.
  destruct (laplace_unicode_atom_record_encode _ _ _ _) as [[status out] count].
  rewrite sample_atom_valid, sample_atom_total in H.
  destruct H as (_ & _ & bytes & _ & Hl & Ho & _). exists bytes. split; [exact Hl|exact Ho].
Defined.
