(* ===== verification/UnicodePlacement.v ===== *)
(** * Unicode placement: ranks, coordinates and the geometry epoch

    Models the part of [engine/src/unicode_root.c] that binds the placement of
    the atoms: the projection of an atom to its persistence records, the bitmap
    of the ranks seen, the fingerprints of the permutation of the code space and
    of the table of coordinates, and the geometry epoch over both.  [allocated]
    is the outcome of [calloc].

    [placement_permutation_exact] shows that the ranks are accepted exactly when
    they are a permutation of the code space, [coordinate_table_exact] what the
    coordinate fingerprint covers, and [atom_projection_exact] when an atom's
    physicality is the one that its coordinate and the root's recipe give. *)
From stdpp Require Import prelude strings list.
From Stdlib Require Import ZArith Lia.
From S2P Require Import Prelude Bytes Layout Hash Identity Trajectory Binary64 Geometry PersistenceFrames.
From S2P Require Import UnicodeFields UnicodeCollation UnicodeAtoms.

Definition unicode_root_coordinate_table_domain : list Z :=
  domain_bytes "laplace-unicode-atomic-coordinate-table-v1".
Definition unicode_root_placement_rank_permutation_domain : list Z :=
  domain_bytes "laplace-unicode-placement-rank-permutation-v1".
Definition unicode_root_geometry_epoch_domain : list Z :=
  domain_bytes "laplace-unicode-root-geometry-epoch-v1".

Record laplace_unicode_root_stream_expectation := mk_expectation {
  expected_source_fingerprint : laplace_digest256;
  expected_recipe_fingerprint : laplace_digest256;
  expected_numeric_provider_receipt : laplace_digest256;
  expected_stream_contract_fingerprint : laplace_digest256;
  expected_algorithmic_hangul_rule_fingerprint : laplace_digest256;
  expected_atom_record_contract_fingerprint : laplace_digest256;
  expected_physicality_recipe_fingerprint : laplace_digest256;
  expected_placement_rank_permutation_fingerprint : laplace_digest256;
  expected_coordinate_table_fingerprint : laplace_digest256;
  expected_geometry_epoch : laplace_digest256;
  expected_physicality_recipe_version : Z;
  expected_flags : Z;
  expected_reserved : Z }.

Definition unicode_digest_equal (left right : laplace_digest256) : bool := bytes_equal left right.

Definition set_physicality_id (p : laplace_persistence_physicality_record) (id : laplace_digest256)
    : laplace_persistence_physicality_record :=
  mk_physicality id (physicality_entity_id p) (physicality_type p) (vertex_class p) (recipe_version p)
    (structural_form p) (dimension_count p) (physicality_flags p)
    (PersistenceFrames.physicality_recipe_fingerprint p) (PersistenceFrames.geometry_epoch p)
    (trajectory_fingerprint p) (physicality_centroid p) (physicality_radius p)
    (physicality_logical_count p) (vertex_count p).

(** The bytes of the bitmap, [(LAPLACE_UNICODE_ROOT_POPULATION + 7) / 8]. *)
Definition observed_bytes : Z := 139264.

(** The bit of a rank is set, unless it is set already. *)
Definition unicode_root_mark_placement_rank_once (observed_ranks : list Z) (placement_rank : Z)
    : option (list Z) :=
  let byte := Z.to_nat (Z.shiftr placement_rank 3) in
  let bit := u8 (Z.shiftl 1 (Z.land placement_rank 7)) in
  return_when negb (Z.land (observed_ranks !!! byte) bit =? 0) with None ;;
  Some (<[byte := Z.lor (observed_ranks !!! byte) bit]> observed_ranks).

#[export] Instance point_inhabited : Inhabited laplace_point4d := populate (mk_point []).

Section Placement.
Context {B : Blake3}.

Definition laplace_unicode_atom_persistence_project (atom : ptr laplace_unicode_atom_record)
    (root : ptr laplace_unicode_root_stream_expectation)
    (entity : ptr laplace_persistence_entity_record)
    (physicality : ptr laplace_persistence_physicality_record)
    : laplace_unicode_status * ptr laplace_persistence_entity_record *
      ptr laplace_persistence_physicality_record :=
  match atom, root, entity, physicality with
  | Some a, Some root, Some _, Some _ =>
      return_when negb (expected_flags root =? 0) || negb (expected_reserved root =? 0) ||
                  negb (unicode_root_physicality_recipe_version_valid
                          (expected_physicality_recipe_version root)) ||
                  negb (unicode_ok (laplace_unicode_atom_record_measure atom (Some 0))) ||
                  negb (unicode_digest_equal (atom_geometry_epoch a) (expected_geometry_epoch root))
        with (LAPLACE_UNICODE_RECORD_INVALID, entity, physicality) ;;
      match laplace_persistence_atomic_point_physicality (Some (content_id a))
              (expected_physicality_recipe_version root)
              (Some (expected_physicality_recipe_fingerprint root))
              (Some (expected_geometry_epoch root)) (Some (coordinate a)) (Some empty_physicality) with
      | (LAPLACE_PERSISTENCE_OK, Some projected) =>
          return_when negb (unicode_digest_equal (atom_physicality_id a) (physicality_id projected))
            with (LAPLACE_UNICODE_IDENTITY_MISMATCH, entity, physicality) ;;
          (LAPLACE_UNICODE_OK,
           Some (mk_entity (content_id a) (identity_preimage_fingerprint a)),
           Some (set_physicality_id projected (atom_physicality_id a)))
      | _ => (LAPLACE_UNICODE_RECORD_INVALID, entity, physicality)
      end
  | _, _, _, _ => (LAPLACE_UNICODE_INVALID_ARGUMENT, entity, physicality)
  end.

(** ** The permutation of the ranks *)
Definition unicode_root_placement_rank_hasher_initialize : blake3_hasher :=
  blake3_hasher_update blake3_hasher_init unicode_root_placement_rank_permutation_domain.

Definition unicode_root_placement_rank_hasher_update (hasher : blake3_hasher)
    (codepoint_position placement_rank : Z) : blake3_hasher :=
  blake3_hasher_update (blake3_hasher_update hasher (store_le 4 codepoint_position))
    (store_le 4 placement_rank).

Definition unicode_root_placement_rank_hasher_finish (hasher : blake3_hasher) : laplace_digest256 :=
  blake3_hasher_finalize (blake3_hasher_update hasher (store_le 8 LAPLACE_UNICODE_ROOT_POPULATION)).

(** [for (position = 0u; position < position_count; ++position)]. *)
Fixpoint permutation_loop (ranks : list Z) (position position_count : Z) (observed_ranks : list Z)
    (hasher : blake3_hasher) : option blake3_hasher :=
  match ranks with
  | [] => Some hasher
  | rank :: ranks =>
      return_when position_count <=? rank with None ;;
      match unicode_root_mark_placement_rank_once observed_ranks rank with
      | None => None
      | Some observed_ranks =>
          permutation_loop ranks (position + 1) position_count observed_ranks
            (unicode_root_placement_rank_hasher_update hasher position rank)
      end
  end.

Definition laplace_unicode_placement_rank_permutation_identify (placement_ranks : ptr (list Z))
    (position_count : Z) (rank_permutation_fingerprint : ptr laplace_digest256) (allocated : bool)
    : laplace_unicode_status * ptr laplace_digest256 :=
  return_when is_null placement_ranks || is_null rank_permutation_fingerprint ||
              negb (position_count =? LAPLACE_UNICODE_ROOT_POPULATION)
    with (LAPLACE_UNICODE_INVALID_ARGUMENT, rank_permutation_fingerprint) ;;
  return_when negb allocated
    with (LAPLACE_UNICODE_SOURCE_MEMORY_FAILURE, rank_permutation_fingerprint) ;;
  match permutation_loop (cells placement_ranks position_count) 0 position_count
          (zeros (Z.to_nat observed_bytes)) unicode_root_placement_rank_hasher_initialize with
  | None => (LAPLACE_UNICODE_RECORD_INVALID, rank_permutation_fingerprint)
  | Some hasher =>
      (LAPLACE_UNICODE_OK,
       store rank_permutation_fingerprint (unicode_root_placement_rank_hasher_finish hasher))
  end.

(** ** The table of coordinates *)
Definition unicode_root_coordinate_hasher_initialize : blake3_hasher :=
  blake3_hasher_update blake3_hasher_init unicode_root_coordinate_table_domain.

Definition unicode_root_coordinate_hasher_update (hasher : blake3_hasher)
    (codepoint_position placement_rank : Z) (coordinate : laplace_point4d) : blake3_hasher :=
  let hasher := blake3_hasher_update hasher (store_le 4 codepoint_position) in
  let hasher := blake3_hasher_update hasher (store_le 4 placement_rank) in
  foldl (fun hasher axis => blake3_hasher_update hasher (store_le 8 (component coordinate !!! axis)))
    hasher [0; 1; 2; 3]%nat.

Definition unicode_root_coordinate_hasher_finish (hasher : blake3_hasher) : laplace_digest256 :=
  blake3_hasher_finalize (blake3_hasher_update hasher (store_le 8 LAPLACE_UNICODE_ROOT_POPULATION)).

Fixpoint coordinate_loop (ranks : list Z) (coordinates_by_rank : list laplace_point4d)
    (position position_count : Z) (hasher : blake3_hasher) : laplace_unicode_status * blake3_hasher :=
  match ranks with
  | [] => (LAPLACE_UNICODE_OK, hasher)
  | rank :: ranks =>
      return_when position_count <=? rank with (LAPLACE_UNICODE_RECORD_INVALID, hasher) ;;
      let coordinate := coordinates_by_rank !!! Z.to_nat rank in
      return_when existsb (fun component => negb (isfinite component) || double_lt component minus_one ||
                                            double_lt plus_one component) (component coordinate)
        with (LAPLACE_UNICODE_NUMERIC_OUT_OF_RANGE, hasher) ;;
      coordinate_loop ranks coordinates_by_rank (position + 1) position_count
        (unicode_root_coordinate_hasher_update hasher position rank coordinate)
  end.

Definition laplace_unicode_coordinate_table_identify (placement_ranks : ptr (list Z))
    (coordinates_by_rank : ptr (list laplace_point4d)) (position_count : Z)
    (coordinate_table_fingerprint : ptr laplace_digest256) (allocated : bool)
    : laplace_unicode_status * ptr laplace_digest256 :=
  return_when is_null placement_ranks || is_null coordinates_by_rank ||
              is_null coordinate_table_fingerprint ||
              negb (position_count =? LAPLACE_UNICODE_ROOT_POPULATION)
    with (LAPLACE_UNICODE_INVALID_ARGUMENT, coordinate_table_fingerprint) ;;
  match laplace_unicode_placement_rank_permutation_identify placement_ranks position_count
          (Some (zeros 32)) allocated with
  | (LAPLACE_UNICODE_OK, _) =>
      match coordinate_loop (cells placement_ranks position_count)
              (cells coordinates_by_rank position_count) 0 position_count
              unicode_root_coordinate_hasher_initialize with
      | (LAPLACE_UNICODE_OK, hasher) =>
          (LAPLACE_UNICODE_OK,
           store coordinate_table_fingerprint (unicode_root_coordinate_hasher_finish hasher))
      | (status, _) => (status, coordinate_table_fingerprint)
      end
  | (status, _) => (status, coordinate_table_fingerprint)
  end.

Definition laplace_unicode_geometry_epoch_identify
    (physicality_recipe_fingerprint placement_rank_permutation_fingerprint
     coordinate_table_fingerprint geometry_epoch : ptr laplace_digest256)
    : laplace_unicode_status * ptr laplace_digest256 :=
  match physicality_recipe_fingerprint, placement_rank_permutation_fingerprint,
        coordinate_table_fingerprint, geometry_epoch with
  | Some recipe, Some permutation, Some table, Some _ =>
      let hasher := blake3_hasher_update blake3_hasher_init unicode_root_geometry_epoch_domain in
      let hasher := blake3_hasher_update hasher recipe in
      let hasher := blake3_hasher_update hasher permutation in
      let hasher := blake3_hasher_update hasher table in
      (LAPLACE_UNICODE_OK, Some (blake3_hasher_finalize hasher))
  | _, _, _, _ => (LAPLACE_UNICODE_INVALID_ARGUMENT, geometry_epoch)
  end.
End Placement.

(** ** The bitmap of ranks *)
Definition bitmap_wf (observed : list Z) : Prop := bytes (Z.to_nat observed_bytes) observed.
Definition marked (observed : list Z) (rank : Z) : bool :=
  Z.testbit (observed !!! Z.to_nat (rank / 8)) (rank mod 8).

(** The bitmap of a set of ranks. *)
Definition observes (observed : list Z) (ranks : list Z) : Prop :=
  bitmap_wf observed /\ forall r, position r -> marked observed r = bool_decide (r ∈ ranks).

Lemma rank_byte r : position r -> 0 <= r / 8 < observed_bytes /\ 0 <= r mod 8 < 8.
Proof. unfold position, observed_bytes. intros Hr. Z.div_mod_to_equations; lia. Qed.

Lemma rank_split r s : r / 8 = s / 8 -> r mod 8 = s mod 8 -> r = s.
Proof. intros. Z.div_mod_to_equations; lia. Qed.

Lemma u8_bit k : 0 <= k < 8 -> u8 (Z.shiftl 1 k) = Z.shiftl 1 k.
Proof.
  intros Hk. apply u8_small. rewrite Z.shiftl_1_l.
  pose proof (Z.pow_le_mono_r 2 k 7 ltac:(lia) ltac:(lia)) as H. change (2 ^ 7) with 128 in H.
  pose proof (Z.pow_nonneg 2 k ltac:(lia)). lia.
Qed.

Lemma octet_lor a b : is_u8 a -> is_u8 b -> is_u8 (Z.lor a b).
Proof.
  intros Ha Hb. split; [apply Z.lor_nonneg; lia|].
  assert (Z.lor a b < 2 ^ 8); [|lia].
  destruct (Z.eq_dec (Z.lor a b) 0) as [->|Hne]; [lia|].
  assert (0 <= Z.lor a b) by (apply Z.lor_nonneg; lia).
  apply Z.log2_lt_pow2; [lia|]. rewrite Z.log2_lor by lia.
  apply Z.max_lub_lt; (destruct (Z.eq_dec a 0), (Z.eq_dec b 0); subst; try lia; try (cbn; lia);
    try (apply Z.log2_lt_pow2; lia)).
Qed.

Lemma mark_exact observed ranks r : observes observed ranks -> position r ->
  match unicode_root_mark_placement_rank_once observed r with
  | Some observed' => r ∉ ranks /\ observes observed' (r :: ranks)
  | None => r ∈ ranks
  end.
Proof.
  intros [[Hl Ho] Hm] Hr. destruct (rank_byte r Hr) as [Hq Hk].
  unfold unicode_root_mark_placement_rank_once. cbv zeta.
  rewrite Z.shiftr_div_pow2 by lia. change (2 ^ 3) with 8.
  change 7 with (Z.ones 3). rewrite Z.land_ones by lia. change (2 ^ 3) with 8.
  rewrite u8_bit by done. rewrite land_bit_zero, negb_involutive by lia.
  fold (marked observed r). rewrite (Hm r Hr).
  destruct (bool_decide_reflect (r ∈ ranks)) as [Hin|Hnin]; [done|]. split; [done|].
  assert (Hlt : (Z.to_nat (r / 8) < length observed)%nat) by (rewrite Hl; unfold observed_bytes in *; lia).
  destruct (lookup_lt_is_Some_2 _ _ Hlt) as [b Hb].
  rewrite (list_lookup_total_correct _ _ _ Hb).
  assert (is_u8 b) as Hb8 by apply (Forall_lookup_1 _ _ _ _ Ho Hb).
  split.
  - split; [by rewrite length_insert|]. apply Forall_insert; [done|]. apply octet_lor; [done|].
    rewrite <- (u8_bit (r mod 8)) by done. apply u8_range.
  - intros s Hs. destruct (rank_byte s Hs) as [Hqs Hks]. unfold marked.
    destruct (Z.eq_dec (s / 8) (r / 8)) as [E|E].
    + rewrite E, list_lookup_total_insert_eq by done. rewrite Z.lor_spec, Z.shiftl_1_l, Z.pow2_bits_eqb by lia.
      pose proof (Hm s Hs) as Hms. unfold marked in Hms. rewrite E, (list_lookup_total_correct _ _ _ Hb) in Hms.
      rewrite Hms. destruct (Z.eqb_spec (r mod 8) (s mod 8)) as [Ek|Ek].
      * rewrite orb_true_r. symmetry. apply bool_decide_eq_true_2.
        rewrite (rank_split s r) by done. by left.
      * rewrite orb_false_r. apply bool_decide_ext. rewrite elem_of_cons. split; [by right|].
        intros [->|?]; [done|done].
    + rewrite list_lookup_total_insert_ne by lia. fold (marked observed s). rewrite (Hm s Hs).
      apply bool_decide_ext. rewrite elem_of_cons. split; [by right|]. intros [->|?]; done.
Qed.

Lemma empty_observes : observes (zeros (Z.to_nat observed_bytes)) [].
Proof.
  split; [apply bytes_zeros|]. intros r Hr. destruct (rank_byte r Hr) as [Hq _]. unfold marked, zeros.
  rewrite (list_lookup_total_correct _ _ 0) by (apply lookup_replicate_2; lia). rewrite Z.bits_0.
  symmetry. apply bool_decide_eq_false_2. by apply not_elem_of_nil.
Qed.

(** Distinct ranks below their number are all the ranks. *)
Lemma ranks_permutation (n : nat) ranks : length ranks = n -> Forall (fun r => 0 <= r) ranks ->
  Forall (fun r => r < Z.of_nat n) ranks /\ NoDup ranks <-> ranks ≡ₚ seqZ 0 (Z.of_nat n).
Proof.
  intros Hl Hn. split.
  - intros [Hb Hd]. apply submseteq_length_Permutation.
    + apply NoDup_submseteq; [done|]. intros r Hr. apply elem_of_seqZ.
      rewrite Forall_forall in Hn, Hb. specialize (Hn r Hr). specialize (Hb r Hr). lia.
    + rewrite length_seqZ, Hl. lia.
  - intros Hp. split.
    + apply Forall_forall. intros r Hr. rewrite Hp in Hr. apply elem_of_seqZ in Hr. lia.
    + rewrite Hp. apply NoDup_seqZ.
Qed.

(** What a table of ranks says. *)
Fixpoint rank_table (position : Z) (ranks : list Z) : list Z :=
  match ranks with
  | [] => []
  | rank :: ranks => store_le 4 position ++ store_le 4 rank ++ rank_table (position + 1) ranks
  end.

Section Laws.
Context {B : Blake3} {L : Blake3Laws B}.

Lemma absorbs_rank h m p r : absorbs h m ->
  absorbs (unicode_root_placement_rank_hasher_update h p r) (m ++ store_le 4 p ++ store_le 4 r).
Proof. intros Hh. unfold unicode_root_placement_rank_hasher_update. absorb. Qed.

Lemma permutation_loop_exact ranks : forall p n observed h m seen,
  n <= LAPLACE_UNICODE_ROOT_POPULATION -> Forall (fun r => 0 <= r) ranks -> observes observed seen ->
  absorbs h m ->
  match permutation_loop ranks p n observed h with
  | Some h' => Forall (fun r => r < n) ranks /\ NoDup ranks /\ (forall r, r ∈ ranks -> r ∉ seen) /\
      absorbs h' (m ++ rank_table p ranks)
  | None => ~ (Forall (fun r => r < n) ranks /\ NoDup ranks /\ forall r, r ∈ ranks -> r ∉ seen)
  end.
Proof.
  induction ranks as [|r ranks IH]; intros p n observed h m seen Hn Hr Hs Hh; cbn [permutation_loop rank_table].
  { rewrite app_nil_r. split; [constructor|]. split; [constructor|]. split; [|done].
    intros r Hr'. by apply elem_of_nil in Hr'. }
  apply Forall_cons in Hr as [Hr0 Hr]. destruct (Z.leb_spec n r) as [Hle|Hlt].
  { intros (H & _). apply Forall_cons in H as [H _]. lia. }
  pose proof (mark_exact observed seen r Hs) as Hmark.
  destruct (unicode_root_mark_placement_rank_once observed r) as [observed'|].
  - destruct Hmark as [Hnin Hs']; [unfold position; lia|].
    specialize (IH (p + 1) n observed' _ _ (r :: seen) Hn Hr Hs' (absorbs_rank h m p r Hh)).
    destruct (permutation_loop ranks _ _ _ _) as [h'|].
    + destruct IH as (Hb & Hd & Hdis & Ha). split; [by constructor|]. rewrite NoDup_cons.
      split; [split; [intros Hin; by apply (Hdis r Hin), elem_of_cons; left|done]|].
      split; [|by rewrite <- !app_assoc in Ha].
      intros s [->|Hs0]%elem_of_cons; [done|]. intros Hin. apply (Hdis s Hs0). by right.
    + intros (Hb & Hd & Hdis). apply IH. apply Forall_cons in Hb as [_ Hb]. apply NoDup_cons in Hd as [Hd1 Hd2].
      split; [done|]. split; [done|]. intros s Hs0 [->|Hin]%elem_of_cons; [done|].
      apply (Hdis s); [by right|done].
  - intros (_ & _ & Hdis). apply (Hdis r); [by left|]. apply Hmark. unfold position. lia.
Qed.

Definition permutation_digest (ranks : list Z) : laplace_digest256 :=
  blake3 (unicode_root_placement_rank_permutation_domain ++ rank_table 0 ranks ++
          store_le 8 LAPLACE_UNICODE_ROOT_POPULATION).

Lemma permutation_identify_eq ranks fingerprint allocated :
  Z.of_nat (length ranks) = LAPLACE_UNICODE_ROOT_POPULATION -> Forall (fun r => is_u32 r) ranks ->
  laplace_unicode_placement_rank_permutation_identify (Some ranks) LAPLACE_UNICODE_ROOT_POPULATION
    (Some fingerprint) allocated =
  if allocated then
    if decide (ranks ≡ₚ seqZ 0 LAPLACE_UNICODE_ROOT_POPULATION)
    then (LAPLACE_UNICODE_OK, Some (permutation_digest ranks))
    else (LAPLACE_UNICODE_RECORD_INVALID, Some fingerprint)
  else (LAPLACE_UNICODE_SOURCE_MEMORY_FAILURE, Some fingerprint).
Proof.
  intros Hl Hu. unfold laplace_unicode_placement_rank_permutation_identify. rewrite cells_all by done.
  cbn [is_null orb negb Z.eqb Pos.eqb]. destruct allocated; cbn [negb]; [|done].
  pose proof (ranks_permutation (length ranks) ranks eq_refl) as Hp. rewrite Hl in Hp.
  assert (Hn : Forall (fun r => 0 <= r) ranks) by (eapply Forall_impl; [exact Hu|]; cbn; lia).
  specialize (Hp Hn).
  pose proof (permutation_loop_exact ranks 0 LAPLACE_UNICODE_ROOT_POPULATION _
    unicode_root_placement_rank_hasher_initialize unicode_root_placement_rank_permutation_domain []
    ltac:(lia) Hn empty_observes ltac:(unfold unicode_root_placement_rank_hasher_initialize; absorb)) as H.
  destruct (permutation_loop _ _ _ _ _) as [h|].
  - destruct H as (Hb & Hd & _ & Ha). rewrite decide_True by by apply Hp.
    cbn [store]. do 2 f_equal. unfold unicode_root_placement_rank_hasher_finish, permutation_digest.
    rewrite (absorbs_finalize _ _ (absorbs_update _ _ _ Ha)). by rewrite <- app_assoc.
  - rewrite decide_False; [done|]. intros Hperm. apply H.
    apply Hp in Hperm as [Hb Hd]. split; [done|]. split; [done|]. intros r _. by apply not_elem_of_nil.
Qed.

(** What a table of coordinates says: each position, its rank and the
    coordinate of the rank. *)
Fixpoint coordinate_table (position : Z) (ranks : list Z) (coordinates : list laplace_point4d) : list Z :=
  match ranks with
  | [] => []
  | rank :: ranks =>
      store_le 4 position ++ store_le 4 rank ++
      store_doubles (component (coordinates !!! Z.to_nat rank)) ++
      coordinate_table (position + 1) ranks coordinates
  end.

Lemma absorbs_axes h m p r c : length (component c) = 4%nat -> absorbs h m ->
  absorbs (unicode_root_coordinate_hasher_update h p r c)
    (m ++ store_le 4 p ++ store_le 4 r ++ store_doubles (component c)).
Proof.
  intros Hc Hh. unfold unicode_root_coordinate_hasher_update. destruct c as [ds]. cbn [component] in *.
  destruct ds as [|d0 [|d1 [|d2 [|d3 [|]]]]]; try discriminate Hc.
  cbn [foldl lookup_total list_lookup_total store_doubles map concat]. unfold store_doubles. cbn [map concat].
  rewrite app_nil_r. absorb.
Qed.

Lemma coordinate_loop_exact ranks coordinates : forall p n h m,
  Forall (fun r => 0 <= r < n) ranks -> n <= Z.of_nat (length coordinates) ->
  Forall (fun c => length (component c) = 4%nat) coordinates -> absorbs h m ->
  if forallb (fun r => forallb coordinate_valid (component (coordinates !!! Z.to_nat r))) ranks
  then exists h', coordinate_loop ranks coordinates p n h = (LAPLACE_UNICODE_OK, h') /\
    absorbs h' (m ++ coordinate_table p ranks coordinates)
  else (coordinate_loop ranks coordinates p n h).1 = LAPLACE_UNICODE_NUMERIC_OUT_OF_RANGE.
Proof.
  induction ranks as [|r ranks IH]; intros p n h m Hr Hn Hc Hh.
  { cbn. exists h. by rewrite app_nil_r. }
  apply Forall_cons in Hr as [Hr0 Hr]. cbn [forallb coordinate_loop coordinate_table].
  rewrite (proj2 (Z.leb_gt n r)), coordinates_scan by lia.
  destruct (lookup_lt_is_Some_2 coordinates (Z.to_nat r)) as [c Hcr]; [lia|].
  rewrite (list_lookup_total_correct _ _ _ Hcr).
  pose proof (Forall_lookup_1 _ _ _ _ Hc Hcr) as Hlen. cbn in Hlen.
  destruct (forallb coordinate_valid (component c)); cbn [negb andb]; [|done].
  specialize (IH (p + 1) n _ _ Hr Hn Hc (absorbs_axes h m p r c Hlen Hh)).
  destruct (forallb _ ranks); [|done]. destruct IH as (h' & E & Ha). exists h'. split; [done|].
  by rewrite <- !app_assoc in Ha.
Qed.

Definition coordinate_digest (ranks : list Z) (coordinates : list laplace_point4d) : laplace_digest256 :=
  blake3 (unicode_root_coordinate_table_domain ++ coordinate_table 0 ranks coordinates ++
          store_le 8 LAPLACE_UNICODE_ROOT_POPULATION).

(** A test of every coordinate, by rank or in order. *)
Lemma forallb_ranks (n : nat) ranks (coordinates : list laplace_point4d) test :
  ranks ≡ₚ seqZ 0 (Z.of_nat n) -> length coordinates = n ->
  forallb (fun r => test (coordinates !!! Z.to_nat r)) ranks = forallb test coordinates.
Proof.
  intros Hp Hl. apply eq_true_iff_eq. rewrite !forallb_forall. split; intros H.
  - intros c Hc. apply list_elem_of_In, list_elem_of_lookup_1 in Hc as [i Hi].
    pose proof (lookup_lt_Some _ _ _ Hi) as Hlt.
    rewrite <- (list_lookup_total_correct _ _ _ Hi). rewrite <- (Nat2Z.id i). apply H.
    apply list_elem_of_In. rewrite Hp. apply elem_of_seqZ. lia.
  - intros r Hr. apply list_elem_of_In in Hr. rewrite Hp in Hr. apply elem_of_seqZ in Hr.
    destruct (lookup_lt_is_Some_2 coordinates (Z.to_nat r)) as [c Hc]; [lia|].
    rewrite (list_lookup_total_correct _ _ _ Hc). apply H. apply list_elem_of_In.
    by apply list_elem_of_lookup_2 in Hc.
Qed.

(** ** Properties of the placement *)
(** The ranks of the whole code space are accepted exactly when, memory
    allowing, they are a permutation of it, whatever their order; the
    fingerprint is the digest of the positions, each with its rank, and their
    number, and a refusal leaves it alone. *)
Theorem placement_permutation_exact ranks fingerprint allocated :
  Z.of_nat (length ranks) = LAPLACE_UNICODE_ROOT_POPULATION -> Forall (fun r => is_u32 r) ranks ->
  let '(status, out) := laplace_unicode_placement_rank_permutation_identify (Some ranks)
    LAPLACE_UNICODE_ROOT_POPULATION (Some fingerprint) allocated in
  (status = LAPLACE_UNICODE_OK <->
   allocated = true /\ ranks ≡ₚ seqZ 0 LAPLACE_UNICODE_ROOT_POPULATION) /\
  out = Some (if decide (status = LAPLACE_UNICODE_OK)
              then permutation_digest ranks
              else fingerprint).
Proof.
  intros Hl Hu. rewrite permutation_identify_eq by done.
  destruct allocated; [|by split; [split; [|intros []]|]].
  destruct (decide _); (split; [split; [done|by intros []]|done]).
Qed.


(** C33: The table of coordinates is accepted exactly when, memory allowing, the
    ranks are a permutation of the code space and every coordinate is a number
    in the cube, each failure with its own status; the fingerprint then is the
    digest of each position with its rank and the four words of that rank's
    coordinate. *)
Theorem coordinate_table_exact ranks coordinates fingerprint allocated :
  Z.of_nat (length ranks) = LAPLACE_UNICODE_ROOT_POPULATION -> Forall (fun r => is_u32 r) ranks ->
  Z.of_nat (length coordinates) = LAPLACE_UNICODE_ROOT_POPULATION ->
  Forall (fun c => length (component c) = 4%nat) coordinates ->
  laplace_unicode_coordinate_table_identify (Some ranks) (Some coordinates)
    LAPLACE_UNICODE_ROOT_POPULATION (Some fingerprint) allocated =
  if allocated then
    if decide (ranks ≡ₚ seqZ 0 LAPLACE_UNICODE_ROOT_POPULATION) then
      if forallb (fun c => forallb coordinate_valid (component c)) coordinates
      then (LAPLACE_UNICODE_OK, Some (coordinate_digest ranks coordinates))
      else (LAPLACE_UNICODE_NUMERIC_OUT_OF_RANGE, Some fingerprint)
    else (LAPLACE_UNICODE_RECORD_INVALID, Some fingerprint)
  else (LAPLACE_UNICODE_SOURCE_MEMORY_FAILURE, Some fingerprint).
Proof.
  intros Hl Hu Hc H4. unfold laplace_unicode_coordinate_table_identify.
  rewrite permutation_identify_eq, !cells_all by done. cbn [is_null orb negb Z.eqb Pos.eqb].
  destruct allocated; [|done]. destruct (decide _) as [Hp|]; [|done].
  assert (Hb : Forall (fun r => 0 <= r < LAPLACE_UNICODE_ROOT_POPULATION) ranks).
  { apply Forall_forall. intros r Hr. rewrite Hp in Hr. apply elem_of_seqZ in Hr. lia. }
  pose proof (coordinate_loop_exact ranks coordinates 0 LAPLACE_UNICODE_ROOT_POPULATION
    unicode_root_coordinate_hasher_initialize unicode_root_coordinate_table_domain Hb ltac:(lia) H4
    ltac:(unfold unicode_root_coordinate_hasher_initialize; absorb)) as H.
  rewrite <- Hc in Hp.
  rewrite (forallb_ranks (length coordinates) ranks coordinates
    (fun c => forallb coordinate_valid (component c)) Hp eq_refl) in H.
  destruct (forallb _ coordinates).
  - destruct H as (h & E & Ha). rewrite E. cbn [store]. do 2 f_equal.
    unfold unicode_root_coordinate_hasher_finish, coordinate_digest.
    rewrite (absorbs_finalize _ _ (absorbs_update _ _ _ Ha)). by rewrite <- app_assoc.
  - destruct (coordinate_loop _ _ _ _ _) as [status h]. cbn in H. by subst status.
Qed.

(** ** The projection of an atom *)
Definition epoch_digest (recipe permutation table : laplace_digest256) : laplace_digest256 :=
  blake3 (unicode_root_geometry_epoch_domain ++ recipe ++ permutation ++ table).

Lemma geometry_epoch_eq recipe permutation table old :
  laplace_unicode_geometry_epoch_identify (Some recipe) (Some permutation) (Some table) (Some old) =
  (LAPLACE_UNICODE_OK, Some (epoch_digest recipe permutation table)).
Proof.
  unfold laplace_unicode_geometry_epoch_identify, epoch_digest. do 2 f_equal.
  apply absorbs_finalize. rewrite !app_assoc. absorb.
Qed.

(** The root that an atom belongs to. *)
Definition atom_belongs (root : laplace_unicode_root_stream_expectation) (a : laplace_unicode_atom_record)
    : Prop :=
  expected_flags root = 0 /\ expected_reserved root = 0 /\
  expected_physicality_recipe_version root = LAPLACE_UNICODE_ATOMIC_PHYSICALITY_RECIPE_VERSION /\
  atom_geometry_epoch a = expected_geometry_epoch root /\
  atom_physicality_id a = atomic_point_identity (content_id a) LAPLACE_UNICODE_ATOMIC_PHYSICALITY_RECIPE_VERSION
    (expected_physicality_recipe_fingerprint root) (expected_geometry_epoch root) (coordinate a).

Definition projected (root : laplace_unicode_root_stream_expectation) (a : laplace_unicode_atom_record)
    : laplace_persistence_physicality_record :=
  atomic_point_as (atom_physicality_id a) (content_id a) LAPLACE_UNICODE_ATOMIC_PHYSICALITY_RECIPE_VERSION
    (expected_physicality_recipe_fingerprint root) (expected_geometry_epoch root) (coordinate a).

Lemma measure_ok r : atom_typed r ->
  unicode_ok (laplace_unicode_atom_record_measure (Some r) (Some 0)) = true <-> atom_wf r.
Proof.
  intros Hty. rewrite atom_measure_exact by done. pose proof (fixed_record_exact r Hty) as Hv. unfold atom_wf.
  destruct (fixed_record_valid r).
  - destruct (Z.ltb_spec UINT32_MAX (atom_total r)); cbn; [split; [done|lia]|]. split; [|done].
    intros _. split; [done|]. split; [by apply Hv|done].
  - cbn. split; [done|]. intros (_ & Hv' & _). by apply Hv.
Qed.

Lemma project_exact root a e p : atom_typed a ->
  let result := laplace_unicode_atom_persistence_project (Some a) (Some root) (Some e) (Some p) in
  (atom_wf a /\ atom_belongs root a -> result =
     (LAPLACE_UNICODE_OK, Some (mk_entity (content_id a) (identity_preimage_fingerprint a)),
      Some (projected root a))) /\
  (~ (atom_wf a /\ atom_belongs root a) ->
     exists status, result = (status, Some e, Some p) /\
       (status = LAPLACE_UNICODE_RECORD_INVALID \/ status = LAPLACE_UNICODE_IDENTITY_MISMATCH)).
Proof.
  intros Hty. unfold laplace_unicode_atom_persistence_project, unicode_digest_equal,
    unicode_root_physicality_recipe_version_valid, atom_belongs. cbv beta iota zeta.
  pose proof (measure_ok a Hty) as Hm. rewrite atomic_point_eq.
  casec.
  { split; [|eauto]. intros [Hw (H1 & H2 & H3 & H4 & H5)]. apply Hm in Hw. rewrite Hw, H1, H2, H3, H4 in Hguard.
    rewrite (proj2 (bytes_equal_spec _ _)) in Hguard by done. done. }
  bools. lazymatch goal with H : unicode_ok _ = true |- _ => apply Hm in H as Hw end.
  lazymatch goal with H : bytes_equal (atom_geometry_epoch a) _ = true |- _ => apply bytes_equal_spec in H as He end.
  pose proof Hw as (_ & (_ & _ & _ & _ & _ & _ & _ & _ & Hc & _) & _). rewrite Hc.
  replace (expected_physicality_recipe_version root) with 1 by done. cbn [negb andb Z.eqb].
  cbn [physicality_id atomic_point_as]. casec.
  - lazymatch goal with H : bytes_equal _ _ = false |- _ => apply bytes_equal_false in H as Hne end.
    split; [|eauto]. intros [_ (_ & _ & _ & _ & H5)]. done.
  - lazymatch goal with H : bytes_equal (atom_physicality_id a) _ = true |- _ => apply bytes_equal_spec in H as Hp end.
    split; [done|]. intros Hn. exfalso. apply Hn. by repeat (split; [done|]).
Qed.
End Laws.

(** ** Samples *)
(** A code space in the opposite order, each atom at the centre. *)
Definition reversed (n : Z) : list Z := reverse (seqZ 0 n).
Definition centred (n : Z) : list laplace_point4d := replicate (Z.to_nat n) (mk_point [0; 0; 0; 0]).

Lemma reversed_length n : 0 <= n -> Z.of_nat (length (reversed n)) = n.
Proof. intros Hn. unfold reversed. rewrite length_reverse, length_seqZ. lia. Qed.
Lemma reversed_u32 n : n <= UINT32_MAX -> Forall (fun r => is_u32 r) (reversed n).
Proof.
  intros Hn. apply Forall_forall. intros r Hr. unfold reversed in Hr.
  rewrite elem_of_reverse, elem_of_seqZ in Hr. lia.
Qed.
Lemma reversed_permutation n : reversed n ≡ₚ seqZ 0 n.
Proof. apply reverse_Permutation. Qed.
Lemma centred_length n : 0 <= n -> Z.of_nat (length (centred n)) = n.
Proof. intros Hn. unfold centred. rewrite length_replicate. lia. Qed.
Lemma centred_words n : Forall (fun c => length (component c) = 4%nat) (centred n).
Proof. unfold centred. by apply Forall_replicate. Qed.
Lemma centred_valid n : forallb (fun c => forallb coordinate_valid (component c)) (centred n) = true.
Proof.
  apply forallb_forall. intros c Hc. apply list_elem_of_In in Hc. unfold centred in Hc.
  apply elem_of_replicate in Hc as [-> _]. vm_compute. reflexivity.
Qed.

Lemma population_nonneg : 0 <= LAPLACE_UNICODE_ROOT_POPULATION.
Proof. lia. Qed.
Lemma population_u32 : LAPLACE_UNICODE_ROOT_POPULATION <= UINT32_MAX.
Proof. lia. Qed.

Lemma placement_permutation_exact_witness :
  (laplace_unicode_placement_rank_permutation_identify (B := checksum_blake3)
    (Some (reversed LAPLACE_UNICODE_ROOT_POPULATION)) LAPLACE_UNICODE_ROOT_POPULATION
    (Some (zeros 32)) true).1 = LAPLACE_UNICODE_OK.
Proof.
  pose proof (placement_permutation_exact (B := checksum_blake3) (L := checksum_blake3_laws) _
    (zeros 32) true (reversed_length _ population_nonneg) (reversed_u32 _ population_u32)) as H.
  destruct (laplace_unicode_placement_rank_permutation_identify _ _ _ _) as [status out].
  exact (proj2 (proj1 H) (conj eq_refl (reversed_permutation _))).
Defined.

Lemma coordinate_table_exact_witness :
  laplace_unicode_coordinate_table_identify (B := checksum_blake3)
    (Some (reversed LAPLACE_UNICODE_ROOT_POPULATION)) (Some (centred LAPLACE_UNICODE_ROOT_POPULATION))
    LAPLACE_UNICODE_ROOT_POPULATION (Some (zeros 32)) true =
  (LAPLACE_UNICODE_OK, Some (coordinate_digest (B := checksum_blake3)
     (reversed LAPLACE_UNICODE_ROOT_POPULATION) (centred LAPLACE_UNICODE_ROOT_POPULATION))).
Proof.
  rewrite (coordinate_table_exact (B := checksum_blake3) (L := checksum_blake3_laws) _ _
    (zeros 32) true (reversed_length _ population_nonneg) (reversed_u32 _ population_u32)
    (centred_length _ population_nonneg) (centred_words _)).
  rewrite (decide_True _ _ (reversed_permutation _)), centred_valid. exact eq_refl.
Defined.
