(* ===== verification/UnicodeStream.v ===== *)
(** * Unicode root streams: the validator

    Models the stream validator of [engine/src/unicode_root.c], from the section
    hashers to [laplace_unicode_root_stream_validator_destroy]: the machine that
    is fed the frames of a root in batches, keeps their order, counts and
    fingerprints, and compares them with the terminal manifest.  A failure
    poisons it.

    The flags of the validator are booleans.  [realloc] says, by the bytes asked
    for, whether the memory of the previous contraction can grow; [calloc] of the
    validator and of its bitmap have their outcome as an argument.  A batch of
    frames is read by [consume_loop], with one step for each frame said. *)
From stdpp Require Import prelude strings list.
From Stdlib Require Import ZArith Lia.
From S2P Require Import Prelude Bytes Layout Hash Identity Trajectory Binary64 Geometry PersistenceFrames.
From S2P Require Import UnicodeFields UnicodeCollation UnicodeAtoms UnicodePlacement.

Definition unicode_root_section_domain : list Z := domain_bytes "laplace-unicode-root-section-v2".
Definition unicode_root_validation_domain : list Z :=
  domain_bytes "laplace-unicode-root-validation-v2".

(** ** Data *)
Record laplace_unicode_root_stream_summary := mk_stream_summary {
  summary_receipt_id : laplace_digest256;
  summary_manifest : laplace_unicode_root_manifest;
  summary_section_fingerprints : list laplace_digest256;
  summary_section_counts : list Z;
  summary_frame_count : Z;
  summary_encoded_bytes : Z;
  summary_status : laplace_unicode_status }.

Record laplace_unicode_root_stream_section_snapshot := mk_snapshot {
  snapshot_section_fingerprints : list laplace_digest256;
  snapshot_section_counts : list Z;
  snapshot_frame_count : Z;
  snapshot_encoded_bytes : Z;
  snapshot_current_kind : Z;
  snapshot_sections_sealed : bool;
  snapshot_status : laplace_unicode_status }.

Definition zero_manifest : laplace_unicode_root_manifest := load_manifest (zeros 512).
Definition zero_summary : laplace_unicode_root_stream_summary :=
  mk_stream_summary (zeros 32) zero_manifest (replicate 4 (zeros 32)) [0; 0; 0; 0] 0 0 LAPLACE_UNICODE_OK.
Definition zero_snapshot : laplace_unicode_root_stream_section_snapshot :=
  mk_snapshot (replicate 4 (zeros 32)) [0; 0; 0; 0] 0 0 0 false LAPLACE_UNICODE_OK.

Section Validator.
Context {B : Blake3}.

Record laplace_unicode_root_stream_validator := mk_validator {
  expectation : laplace_unicode_root_stream_expectation;
  section_hashers : list blake3_hasher;
  coordinate_table_hasher : blake3_hasher;
  placement_rank_permutation_hasher : blake3_hasher;
  section_counts : list Z;
  validator_frame_count : Z;
  total_encoded_bytes : Z;
  previous_contraction : list Z;
  observed_placement_ranks : list Z;
  previous_contraction_count : Z;
  previous_contraction_capacity : Z;
  previous_normalization : list Z;
  current_kind : Z;
  has_previous_contraction : bool;
  has_previous_normalization : bool;
  manifest_seen : bool;
  finished : bool;
  sections_sealed : bool;
  status : laplace_unicode_status;
  validator_manifest : laplace_unicode_root_manifest;
  section_snapshot : laplace_unicode_root_stream_section_snapshot;
  validator_summary : laplace_unicode_root_stream_summary }.

(** Assignments to fields of the validator. *)
Definition set_status (v : laplace_unicode_root_stream_validator) (s : laplace_unicode_status)
    : laplace_unicode_root_stream_validator :=
  mk_validator (expectation v) (section_hashers v) (coordinate_table_hasher v)
    (placement_rank_permutation_hasher v) (section_counts v) (validator_frame_count v)
    (total_encoded_bytes v) (previous_contraction v) (observed_placement_ranks v)
    (previous_contraction_count v) (previous_contraction_capacity v) (previous_normalization
    v) (current_kind v) (has_previous_contraction v) (has_previous_normalization v)
    (manifest_seen v) (finished v) (sections_sealed v) s (validator_manifest v)
    (section_snapshot v) (validator_summary v).
Definition set_placement (v : laplace_unicode_root_stream_validator) (ranks : list Z) (rank_hasher coordinate_hasher : blake3_hasher)
    : laplace_unicode_root_stream_validator :=
  mk_validator (expectation v) (section_hashers v) coordinate_hasher rank_hasher
    (section_counts v) (validator_frame_count v) (total_encoded_bytes v)
    (previous_contraction v) ranks (previous_contraction_count v)
    (previous_contraction_capacity v) (previous_normalization v) (current_kind v)
    (has_previous_contraction v) (has_previous_normalization v) (manifest_seen v) (finished
    v) (sections_sealed v) (status v) (validator_manifest v) (section_snapshot v)
    (validator_summary v).
Definition set_contraction (v : laplace_unicode_root_stream_validator) (memory : list Z) (count capacity : Z) (has : bool)
    : laplace_unicode_root_stream_validator :=
  mk_validator (expectation v) (section_hashers v) (coordinate_table_hasher v)
    (placement_rank_permutation_hasher v) (section_counts v) (validator_frame_count v)
    (total_encoded_bytes v) memory (observed_placement_ranks v) count capacity
    (previous_normalization v) (current_kind v) has (has_previous_normalization v)
    (manifest_seen v) (finished v) (sections_sealed v) (status v) (validator_manifest v)
    (section_snapshot v) (validator_summary v).
Definition set_normalization (v : laplace_unicode_root_stream_validator) (values : list Z) (has : bool)
    : laplace_unicode_root_stream_validator :=
  mk_validator (expectation v) (section_hashers v) (coordinate_table_hasher v)
    (placement_rank_permutation_hasher v) (section_counts v) (validator_frame_count v)
    (total_encoded_bytes v) (previous_contraction v) (observed_placement_ranks v)
    (previous_contraction_count v) (previous_contraction_capacity v) values (current_kind v)
    (has_previous_contraction v) has (manifest_seen v) (finished v) (sections_sealed v)
    (status v) (validator_manifest v) (section_snapshot v) (validator_summary v).
Definition set_section (v : laplace_unicode_root_stream_validator) (hashers : list blake3_hasher) (counts : list Z) (kind : Z)
    : laplace_unicode_root_stream_validator :=
  mk_validator (expectation v) hashers (coordinate_table_hasher v)
    (placement_rank_permutation_hasher v) counts (validator_frame_count v)
    (total_encoded_bytes v) (previous_contraction v) (observed_placement_ranks v)
    (previous_contraction_count v) (previous_contraction_capacity v) (previous_normalization
    v) kind (has_previous_contraction v) (has_previous_normalization v) (manifest_seen v)
    (finished v) (sections_sealed v) (status v) (validator_manifest v) (section_snapshot v)
    (validator_summary v).
Definition set_sealed (v : laplace_unicode_root_stream_validator) (snapshot : laplace_unicode_root_stream_section_snapshot)
    : laplace_unicode_root_stream_validator :=
  mk_validator (expectation v) (section_hashers v) (coordinate_table_hasher v)
    (placement_rank_permutation_hasher v) (section_counts v) (validator_frame_count v)
    (total_encoded_bytes v) (previous_contraction v) (observed_placement_ranks v)
    (previous_contraction_count v) (previous_contraction_capacity v) (previous_normalization
    v) (current_kind v) (has_previous_contraction v) (has_previous_normalization v)
    (manifest_seen v) (finished v) true (status v) (validator_manifest v) snapshot
    (validator_summary v).
Definition set_manifest (v : laplace_unicode_root_stream_validator) (manifest : laplace_unicode_root_manifest) (kind : Z)
    : laplace_unicode_root_stream_validator :=
  mk_validator (expectation v) (section_hashers v) (coordinate_table_hasher v)
    (placement_rank_permutation_hasher v) (section_counts v) (validator_frame_count v)
    (total_encoded_bytes v) (previous_contraction v) (observed_placement_ranks v)
    (previous_contraction_count v) (previous_contraction_capacity v) (previous_normalization
    v) kind (has_previous_contraction v) (has_previous_normalization v) true (finished v)
    (sections_sealed v) (status v) manifest (section_snapshot v) (validator_summary v).
Definition set_totals (v : laplace_unicode_root_stream_validator) (frames bytes : Z)
    : laplace_unicode_root_stream_validator :=
  mk_validator (expectation v) (section_hashers v) (coordinate_table_hasher v)
    (placement_rank_permutation_hasher v) (section_counts v) frames bytes
    (previous_contraction v) (observed_placement_ranks v) (previous_contraction_count v)
    (previous_contraction_capacity v) (previous_normalization v) (current_kind v)
    (has_previous_contraction v) (has_previous_normalization v) (manifest_seen v) (finished
    v) (sections_sealed v) (status v) (validator_manifest v) (section_snapshot v)
    (validator_summary v).
Definition set_summary (v : laplace_unicode_root_stream_validator) (summary : laplace_unicode_root_stream_summary)
    : laplace_unicode_root_stream_validator :=
  mk_validator (expectation v) (section_hashers v) (coordinate_table_hasher v)
    (placement_rank_permutation_hasher v) (section_counts v) (validator_frame_count v)
    (total_encoded_bytes v) (previous_contraction v) (observed_placement_ranks v)
    (previous_contraction_count v) (previous_contraction_capacity v) (previous_normalization
    v) (current_kind v) (has_previous_contraction v) (has_previous_normalization v)
    (manifest_seen v) (finished v) (sections_sealed v) (status v) (validator_manifest v)
    (section_snapshot v) summary.
Definition set_finished (v : laplace_unicode_root_stream_validator) (summary : laplace_unicode_root_stream_summary)
    : laplace_unicode_root_stream_validator :=
  mk_validator (expectation v) (section_hashers v) (coordinate_table_hasher v)
    (placement_rank_permutation_hasher v) (section_counts v) (validator_frame_count v)
    (total_encoded_bytes v) (previous_contraction v) (observed_placement_ranks v)
    (previous_contraction_count v) (previous_contraction_capacity v) (previous_normalization
    v) (current_kind v) (has_previous_contraction v) (has_previous_normalization v)
    (manifest_seen v) true (sections_sealed v) (status v) (validator_manifest v)
    (section_snapshot v) summary.

(** ** Section hashers *)
Definition unicode_root_section_hasher_initialize (kind : Z) : blake3_hasher :=
  blake3_hasher_update (blake3_hasher_update blake3_hasher_init unicode_root_section_domain)
    (store_le 2 kind).

Definition unicode_root_section_hasher_update (hasher : blake3_hasher) (section_ordinal : Z)
    (payload : ptr (list Z)) (payload_bytes : Z) : blake3_hasher :=
  blake3_hasher_update (blake3_hasher_update hasher (store_le 8 section_ordinal ++ store_le 4 payload_bytes))
    (cells payload payload_bytes).

Definition unicode_root_section_hasher_finish (hasher : blake3_hasher) (section_count : Z)
    : laplace_digest256 :=
  blake3_hasher_finalize (blake3_hasher_update hasher (store_le 8 section_count)).

(** ** Steps of the machine *)
Definition unicode_root_stream_poison (validator : laplace_unicode_root_stream_validator)
    (s : laplace_unicode_status) : laplace_unicode_status * laplace_unicode_root_stream_validator :=
  (s, set_status validator s).

Definition unicode_root_required_sections_complete (validator : laplace_unicode_root_stream_validator)
    (next_kind : Z) : bool :=
  return_when (LAPLACE_UNICODE_ROOT_FRAME_ATOM <? next_kind) &&
              negb (section_counts validator !!! 0%nat =? LAPLACE_UNICODE_ROOT_POPULATION) with false ;;
  return_when (LAPLACE_UNICODE_ROOT_FRAME_DUCET_POSITION <? next_kind) &&
              negb (section_counts validator !!! 1%nat =? LAPLACE_UNICODE_ROOT_POPULATION) with false ;;
  true.

(** The comparison of two sequences over their shared length: [Some] when it
    decides. *)
Fixpoint sequence_before (prior current : list Z) : option bool :=
  match prior, current with
  | p :: prior, c :: current =>
      return_when p <? c with Some true ;;
      return_when c <? p with Some false ;;
      sequence_before prior current
  | _, _ => None
  end.

(** The positions of the contraction in a view. *)
Definition view_sequence (current : laplace_unicode_ducet_contraction_view) : list Z :=
  map (fun index => read_u32le (advance (Z.of_nat index * 4) (default [] (encoded_sequence current))))
    (seq 0 (Z.to_nat (view_sequence_count current))).

Definition unicode_root_contraction_order_valid (validator : laplace_unicode_root_stream_validator)
    (current : laplace_unicode_ducet_contraction_view) : bool :=
  return_when negb (has_previous_contraction validator) with true ;;
  match sequence_before
          (take (Z.to_nat (previous_contraction_count validator)) (previous_contraction validator))
          (view_sequence current) with
  | Some decided => decided
  | None => previous_contraction_count validator <? view_sequence_count current
  end.

(** The tuple of a composition. *)
Definition composition_values (r : laplace_unicode_normalization_composition) : list Z :=
  [starter_position r; combining_position r; composite_position r].

Definition unicode_root_normalization_order_valid (validator : laplace_unicode_root_stream_validator)
    (current : laplace_unicode_normalization_composition) : bool :=
  return_when negb (has_previous_normalization validator) with true ;;
  match sequence_before (previous_normalization validator) (composition_values current) with
  | Some decided => decided
  | None => false
  end.

Definition unicode_root_remember_normalization (validator : laplace_unicode_root_stream_validator)
    (current : laplace_unicode_normalization_composition) : laplace_unicode_root_stream_validator :=
  set_normalization validator (composition_values current) true.

Definition unicode_root_calculate_section_fingerprints (validator : laplace_unicode_root_stream_validator)
    : list laplace_digest256 :=
  zip_with unicode_root_section_hasher_finish (section_hashers validator) (section_counts validator).

Definition unicode_root_seal_sections_impl (validator : laplace_unicode_root_stream_validator)
    : laplace_unicode_status * laplace_unicode_root_stream_validator :=
  return_when sections_sealed validator with (LAPLACE_UNICODE_OK, validator) ;;
  return_when negb (unicode_root_required_sections_complete validator LAPLACE_UNICODE_ROOT_FRAME_MANIFEST)
    with unicode_root_stream_poison validator LAPLACE_UNICODE_STREAM_INCOMPLETE ;;
  (LAPLACE_UNICODE_OK,
   set_sealed validator {|
     snapshot_section_fingerprints := unicode_root_calculate_section_fingerprints validator;
     snapshot_section_counts := section_counts validator;
     snapshot_frame_count := validator_frame_count validator;
     snapshot_encoded_bytes := total_encoded_bytes validator;
     snapshot_current_kind := current_kind validator;
     snapshot_sections_sealed := true;
     snapshot_status := LAPLACE_UNICODE_OK |}).

Definition unicode_root_manifest_matches (validator : laplace_unicode_root_stream_validator)
    (manifest : laplace_unicode_root_manifest) (section_fingerprints : list laplace_digest256) : bool :=
  let expected := expectation validator in
  let counts := section_counts validator in
  let observed_permutation :=
    unicode_root_placement_rank_hasher_finish (placement_rank_permutation_hasher validator) in
  let observed_table := unicode_root_coordinate_hasher_finish (coordinate_table_hasher validator) in
  match laplace_unicode_geometry_epoch_identify (Some (expected_physicality_recipe_fingerprint expected))
          (Some observed_permutation) (Some observed_table) (Some (zeros 32)) with
  | (LAPLACE_UNICODE_OK, Some calculated_geometry_epoch) =>
      (atom_count manifest =? counts !!! 0%nat) &&
      (ducet_position_count manifest =? counts !!! 1%nat) &&
      (ducet_contraction_count manifest =? counts !!! 2%nat) &&
      (normalization_composition_count manifest =? counts !!! 3%nat) &&
      negb (validator_frame_count validator =? UINT64_MAX) &&
      (total_frame_count manifest =? u64 (validator_frame_count validator + 1)) &&
      unicode_digest_equal (source_fingerprint manifest) (expected_source_fingerprint expected) &&
      unicode_digest_equal (recipe_fingerprint manifest) (expected_recipe_fingerprint expected) &&
      unicode_digest_equal (numeric_provider_receipt manifest) (expected_numeric_provider_receipt expected) &&
      unicode_digest_equal (stream_contract_fingerprint manifest)
        (expected_stream_contract_fingerprint expected) &&
      unicode_digest_equal (algorithmic_hangul_rule_fingerprint manifest)
        (expected_algorithmic_hangul_rule_fingerprint expected) &&
      unicode_digest_equal (atom_record_contract_fingerprint manifest)
        (expected_atom_record_contract_fingerprint expected) &&
      (physicality_recipe_version manifest =? expected_physicality_recipe_version expected) &&
      unicode_digest_equal (physicality_recipe_fingerprint manifest)
        (expected_physicality_recipe_fingerprint expected) &&
      unicode_digest_equal (placement_rank_permutation_fingerprint manifest) observed_permutation &&
      unicode_digest_equal (expected_placement_rank_permutation_fingerprint expected) observed_permutation &&
      unicode_digest_equal (coordinate_table_fingerprint manifest) observed_table &&
      unicode_digest_equal (expected_coordinate_table_fingerprint expected) observed_table &&
      unicode_digest_equal (geometry_epoch manifest) calculated_geometry_epoch &&
      unicode_digest_equal (expected_geometry_epoch expected) calculated_geometry_epoch &&
      unicode_digest_equal (atom_section_fingerprint manifest) (section_fingerprints !!! 0%nat) &&
      unicode_digest_equal (ducet_position_section_fingerprint manifest) (section_fingerprints !!! 1%nat) &&
      unicode_digest_equal (ducet_contraction_section_fingerprint manifest)
        (section_fingerprints !!! 2%nat) &&
      unicode_digest_equal (normalization_composition_section_fingerprint manifest)
        (section_fingerprints !!! 3%nat)
  | _ => false
  end.

Definition laplace_unicode_root_stream_validator_create
    (expected : ptr laplace_unicode_root_stream_expectation)
    (validator : ptr (ptr laplace_unicode_root_stream_validator)) (allocated : bool)
    : laplace_unicode_status * ptr (ptr laplace_unicode_root_stream_validator) :=
  match expected, validator with
  | Some expected, Some _ =>
      return_when negb (unicode_root_physicality_recipe_version_valid
                          (expected_physicality_recipe_version expected)) ||
                  negb (expected_flags expected =? 0) || negb (expected_reserved expected =? 0)
        with (LAPLACE_UNICODE_INVALID_ARGUMENT, validator) ;;
      return_when negb allocated with (LAPLACE_UNICODE_SOURCE_MEMORY_FAILURE, Some None) ;;
      (LAPLACE_UNICODE_OK, Some (Some {|
         expectation := expected;
         section_hashers := map unicode_root_section_hasher_initialize [1; 2; 3; 4];
         coordinate_table_hasher := unicode_root_coordinate_hasher_initialize;
         placement_rank_permutation_hasher := unicode_root_placement_rank_hasher_initialize;
         section_counts := [0; 0; 0; 0];
         validator_frame_count := 0;
         total_encoded_bytes := 0;
         previous_contraction := [];
         observed_placement_ranks := zeros (Z.to_nat observed_bytes);
         previous_contraction_count := 0;
         previous_contraction_capacity := 0;
         previous_normalization := [0; 0; 0];
         current_kind := LAPLACE_UNICODE_ROOT_FRAME_ATOM;
         has_previous_contraction := false;
         has_previous_normalization := false;
         manifest_seen := false;
         finished := false;
         sections_sealed := false;
         status := LAPLACE_UNICODE_OK;
         validator_manifest := zero_manifest;
         section_snapshot := zero_snapshot;
         validator_summary := zero_summary |}))
  | _, _ => (LAPLACE_UNICODE_INVALID_ARGUMENT, validator)
  end.

Section Feeding.
Variable realloc : Z -> bool.

(** The memory of the previous contraction grows when it must; its first cells
    are then those of the current one. *)
Definition unicode_root_remember_contraction (validator : laplace_unicode_root_stream_validator)
    (current : laplace_unicode_ducet_contraction_view)
    : laplace_unicode_status * laplace_unicode_root_stream_validator :=
  let count := view_sequence_count current in
  let requested_bytes := u64 (count * 4) in
  let grows := previous_contraction_capacity validator <? count in
  return_when grows && (negb (count =? 0) && negb (requested_bytes / 4 =? count))
    with (LAPLACE_UNICODE_SIZE_OVERFLOW, validator) ;;
  return_when grows && negb (realloc requested_bytes)
    with (LAPLACE_UNICODE_SOURCE_MEMORY_FAILURE, validator) ;;
  let capacity := if grows then count else previous_contraction_capacity validator in
  let sequence := view_sequence current in
  (LAPLACE_UNICODE_OK,
   set_contraction validator (sequence ++ drop (length sequence) (previous_contraction validator))
     count capacity true).

(** The atom in a frame: projected, its rank marked, hashed. *)
Definition consume_atom (validator : laplace_unicode_root_stream_validator)
    (frame : laplace_unicode_root_frame)
    : laplace_unicode_status * laplace_unicode_root_stream_validator :=
  match laplace_unicode_atom_record_open (frame_payload frame) (frame_payload_bytes frame)
          (Some zero_atom_view) (Some 0) with
  | (LAPLACE_UNICODE_OK, Some atom, Some consumed) =>
      let value := atom_value atom in
      let '(projected, _, _) :=
        laplace_unicode_atom_persistence_project (Some value) (Some (expectation validator))
          (Some (mk_entity (zeros 16) (zeros 32))) (Some empty_physicality) in
      return_when negb (consumed =? frame_payload_bytes frame) || negb (unicode_ok (projected, tt))
        with unicode_root_stream_poison validator LAPLACE_UNICODE_IDENTITY_MISMATCH ;;
      match unicode_root_mark_placement_rank_once (observed_placement_ranks validator)
              (placement_rank value) with
      | None => unicode_root_stream_poison validator LAPLACE_UNICODE_STREAM_ORDER_INVALID
      | Some observed =>
          (LAPLACE_UNICODE_OK,
           set_placement validator observed
             (unicode_root_placement_rank_hasher_update (placement_rank_permutation_hasher validator)
                (atom_position value) (placement_rank value))
             (unicode_root_coordinate_hasher_update (coordinate_table_hasher validator)
                (atom_position value) (placement_rank value) (coordinate value)))
      end
  | _ => unicode_root_stream_poison validator LAPLACE_UNICODE_IDENTITY_MISMATCH
  end.

Definition consume_contraction (validator : laplace_unicode_root_stream_validator)
    (frame : laplace_unicode_root_frame)
    : laplace_unicode_status * laplace_unicode_root_stream_validator :=
  match laplace_unicode_ducet_contraction_open (frame_payload frame) (frame_payload_bytes frame)
          (Some zero_ducet_contraction_view) (Some 0) with
  | (LAPLACE_UNICODE_OK, Some contraction, _) =>
      return_when negb (unicode_root_contraction_order_valid validator contraction)
        with unicode_root_stream_poison validator LAPLACE_UNICODE_STREAM_ORDER_INVALID ;;
      match unicode_root_remember_contraction validator contraction with
      | (LAPLACE_UNICODE_OK, validator) => (LAPLACE_UNICODE_OK, validator)
      | (s, validator) => unicode_root_stream_poison validator s
      end
  | _ => unicode_root_stream_poison validator LAPLACE_UNICODE_STREAM_ORDER_INVALID
  end.

Definition consume_composition (validator : laplace_unicode_root_stream_validator)
    (frame : laplace_unicode_root_frame)
    : laplace_unicode_status * laplace_unicode_root_stream_validator :=
  match laplace_unicode_normalization_composition_open (frame_payload frame)
          (frame_payload_bytes frame) (Some (mk_composition 0 0 0)) (Some 0) with
  | (LAPLACE_UNICODE_OK, Some composition, _) =>
      return_when negb (unicode_root_normalization_order_valid validator composition)
        with unicode_root_stream_poison validator LAPLACE_UNICODE_STREAM_ORDER_INVALID ;;
      (LAPLACE_UNICODE_OK, unicode_root_remember_normalization validator composition)
  | _ => unicode_root_stream_poison validator LAPLACE_UNICODE_STREAM_ORDER_INVALID
  end.

(** The branch of a section's kind. *)
Definition consume_record (validator : laplace_unicode_root_stream_validator)
    (frame : laplace_unicode_root_frame)
    : laplace_unicode_status * laplace_unicode_root_stream_validator :=
  if frame_kind frame =? LAPLACE_UNICODE_ROOT_FRAME_ATOM then consume_atom validator frame
  else if frame_kind frame =? LAPLACE_UNICODE_ROOT_FRAME_DUCET_CONTRACTION then
    consume_contraction validator frame
  else if frame_kind frame =? LAPLACE_UNICODE_ROOT_FRAME_NORMALIZATION_COMPOSITION then
    consume_composition validator frame
  else (LAPLACE_UNICODE_OK, validator).

Definition consume_manifest (validator : laplace_unicode_root_stream_validator)
    (frame : laplace_unicode_root_frame)
    : laplace_unicode_status * laplace_unicode_root_stream_validator :=
  match unicode_root_seal_sections_impl validator with
  | (LAPLACE_UNICODE_OK, validator) =>
      match laplace_unicode_root_manifest_open (frame_payload frame) (frame_payload_bytes frame)
              (Some zero_manifest) (Some 0) with
      | (LAPLACE_UNICODE_OK, Some manifest, _) =>
          return_when negb (unicode_root_manifest_matches validator manifest
                              (unicode_root_calculate_section_fingerprints validator))
            with unicode_root_stream_poison validator LAPLACE_UNICODE_STREAM_MANIFEST_MISMATCH ;;
          (LAPLACE_UNICODE_OK, set_manifest validator manifest (frame_kind frame))
      | _ => unicode_root_stream_poison validator LAPLACE_UNICODE_STREAM_MANIFEST_MISMATCH
      end
  | failed => failed
  end.

Definition unicode_root_stream_consume_frame (validator : laplace_unicode_root_stream_validator)
    (view : laplace_unicode_root_frame_view)
    : laplace_unicode_status * laplace_unicode_root_stream_validator :=
  let frame := frame_value view in
  let kind := frame_kind frame in
  return_when manifest_seen validator ||
              (sections_sealed validator && negb (kind =? LAPLACE_UNICODE_ROOT_FRAME_MANIFEST)) ||
              (kind <? current_kind validator) ||
              negb (unicode_root_required_sections_complete validator kind)
    with unicode_root_stream_poison validator LAPLACE_UNICODE_STREAM_ORDER_INVALID ;;
  if negb (kind =? LAPLACE_UNICODE_ROOT_FRAME_MANIFEST) then
    let section_index := Z.to_nat (kind - 1) in
    return_when negb (section_ordinal frame =? section_counts validator !!! section_index)
      with unicode_root_stream_poison validator LAPLACE_UNICODE_STREAM_ORDER_INVALID ;;
    match consume_record validator frame with
    | (LAPLACE_UNICODE_OK, validator) =>
        let hashers := section_hashers validator in
        let counts := section_counts validator in
        let hashers := alter (fun hasher =>
          unicode_root_section_hasher_update hasher (section_ordinal frame) (frame_payload frame)
            (frame_payload_bytes frame)) section_index hashers in
        (LAPLACE_UNICODE_OK,
         set_section validator hashers (alter (fun count => u64 (count + 1)) section_index counts) kind)
    | failed => failed
    end
  else consume_manifest validator frame.

(** [for (frame_index = 0u; frame_index < frame_count; ++frame_index)]; the
    bytes from [offset] on. *)
Fixpoint consume_loop (fuel : nat) (frame_index frame_count : Z) (bytes : list Z) (remaining : Z)
    (validator : laplace_unicode_root_stream_validator)
    : laplace_unicode_status * laplace_unicode_root_stream_validator :=
  if frame_index <? frame_count then
    return_when remaining <=? 0
      with unicode_root_stream_poison validator LAPLACE_UNICODE_STREAM_STATE_INVALID ;;
    match fuel with
    | O => unicode_root_stream_poison validator LAPLACE_UNICODE_STREAM_STATE_INVALID
    | S fuel =>
        match laplace_unicode_root_frame_open (Some bytes) remaining (Some zero_frame_view) (Some 0) with
        | (LAPLACE_UNICODE_OK, Some frame, Some consumed) =>
            return_when (consumed =? 0) || (remaining <? consumed)
              with unicode_root_stream_poison validator LAPLACE_UNICODE_STREAM_STATE_INVALID ;;
            match unicode_root_stream_consume_frame validator frame with
            | (LAPLACE_UNICODE_OK, validator) =>
                return_when (u64 (UINT64_MAX - validator_frame_count validator) <? 1) ||
                            (u64 (UINT64_MAX - total_encoded_bytes validator) <? consumed)
                  with unicode_root_stream_poison validator LAPLACE_UNICODE_SIZE_OVERFLOW ;;
                let validator := set_totals validator (u64 (validator_frame_count validator + 1))
                  (u64 (total_encoded_bytes validator + consumed)) in
                consume_loop fuel (frame_index + 1) frame_count (advance consumed bytes)
                  (remaining - consumed) validator
            | failed => failed
            end
        | _ => unicode_root_stream_poison validator LAPLACE_UNICODE_STREAM_STATE_INVALID
        end
    end
  else
    return_when negb (remaining =? 0)
      with unicode_root_stream_poison validator LAPLACE_UNICODE_STREAM_STATE_INVALID ;;
    (LAPLACE_UNICODE_OK, validator).

Definition laplace_unicode_root_stream_validator_consume
    (validator : ptr laplace_unicode_root_stream_validator) (canonical_bytes : ptr (list Z))
    (byte_count frame_count first_frame_ordinal : Z)
    : laplace_unicode_status * ptr laplace_unicode_root_stream_validator :=
  match validator, canonical_bytes with
  | Some v, Some bytes =>
      return_when (byte_count =? 0) || (frame_count =? 0)
        with (LAPLACE_UNICODE_INVALID_ARGUMENT, validator) ;;
      let '(s, v) :=
        return_when negb (bool_decide (status v = LAPLACE_UNICODE_OK)) || finished v ||
                    negb (first_frame_ordinal =? validator_frame_count v)
          with unicode_root_stream_poison v LAPLACE_UNICODE_STREAM_STATE_INVALID ;;
        consume_loop (S (Z.to_nat byte_count)) 0 frame_count bytes byte_count v in
      (s, Some v)
  | _, _ => (LAPLACE_UNICODE_INVALID_ARGUMENT, validator)
  end.
End Feeding.

Definition laplace_unicode_root_stream_validator_seal_sections
    (validator : ptr laplace_unicode_root_stream_validator)
    (snapshot : ptr laplace_unicode_root_stream_section_snapshot)
    : laplace_unicode_status * ptr laplace_unicode_root_stream_validator *
      ptr laplace_unicode_root_stream_section_snapshot :=
  match validator, snapshot with
  | Some v, Some _ =>
      return_when negb (bool_decide (status v = LAPLACE_UNICODE_OK)) with (status v, validator, snapshot) ;;
      return_when manifest_seen v || finished v
        with (let '(s, v) := unicode_root_stream_poison v LAPLACE_UNICODE_STREAM_STATE_INVALID in
              (s, Some v, snapshot)) ;;
      match unicode_root_seal_sections_impl v with
      | (LAPLACE_UNICODE_OK, v) => (LAPLACE_UNICODE_OK, Some v, store snapshot (section_snapshot v))
      | (_, v) => (status v, Some v, snapshot)
      end
  | _, _ => (LAPLACE_UNICODE_INVALID_ARGUMENT, validator, snapshot)
  end.

(** The receipt over the manifest, the bytes and the sections of a summary. *)
Definition receipt_hasher (manifest_bytes : list Z) (encoded_bytes : Z)
    (fingerprints : list laplace_digest256) : blake3_hasher :=
  let hasher := blake3_hasher_update blake3_hasher_init unicode_root_validation_domain in
  let hasher := blake3_hasher_update hasher manifest_bytes in
  let hasher := blake3_hasher_update hasher (store_le 8 encoded_bytes) in
  foldl blake3_hasher_update hasher fingerprints.

Definition laplace_unicode_root_stream_validator_finish
    (validator : ptr laplace_unicode_root_stream_validator)
    (summary : ptr laplace_unicode_root_stream_summary)
    : laplace_unicode_status * ptr laplace_unicode_root_stream_validator *
      ptr laplace_unicode_root_stream_summary :=
  match validator, summary with
  | Some v, Some _ =>
      return_when finished v with (status v, validator, store summary (validator_summary v)) ;;
      return_when negb (bool_decide (status v = LAPLACE_UNICODE_OK)) with (status v, validator, summary) ;;
      return_when negb (manifest_seen v) ||
                  negb (validator_frame_count v =? total_frame_count (validator_manifest v))
        with (let '(s, v) := unicode_root_stream_poison v LAPLACE_UNICODE_STREAM_INCOMPLETE in
              (s, Some v, summary)) ;;
      let total := {|
        summary_receipt_id := zeros 32;
        summary_manifest := validator_manifest v;
        summary_section_fingerprints := unicode_root_calculate_section_fingerprints v;
        summary_section_counts := section_counts v;
        summary_frame_count := validator_frame_count v;
        summary_encoded_bytes := total_encoded_bytes v;
        summary_status := LAPLACE_UNICODE_OK |} in
      match laplace_unicode_root_manifest_encode (Some (validator_manifest v)) (Some (zeros 512)) with
      | (LAPLACE_UNICODE_OK, Some manifest_bytes) =>
          let receipt := blake3_hasher_finalize
            (receipt_hasher manifest_bytes (total_encoded_bytes v) (summary_section_fingerprints total)) in
          let total := mk_stream_summary receipt (summary_manifest total)
            (summary_section_fingerprints total) (summary_section_counts total)
            (summary_frame_count total) (summary_encoded_bytes total) (summary_status total) in
          (LAPLACE_UNICODE_OK, Some (set_finished v total), Some total)
      | _ =>
          let '(s, v) := unicode_root_stream_poison (set_summary v total)
            LAPLACE_UNICODE_STREAM_MANIFEST_MISMATCH in
          (s, Some v, summary)
      end
  | _, _ => (LAPLACE_UNICODE_INVALID_ARGUMENT, validator, summary)
  end.
End Validator.
