(* ===== verification/UnicodeLaw.v ===== *)
(** * Unicode root streams: what the validator accepts

    The law of a root stream, section by section, and the refinement between it
    and the validator of [UnicodeStream].  A stream is the atoms, the DUCET
    positions, the contractions, the compositions and the manifest that have been
    read; [admissible] says which frame may come next, [grown] what it leads to,
    and [represents] how a validator holds a stream.

    [consume_exact] shows that a batch is accepted exactly when its bytes are
    frames that may come next one after the other, [finish_exact] when a summary
    is issued and what it says, [complete_stream] what a stream with its manifest
    is, and [poisoned_for_good] that a failure is final. *)
From stdpp Require Import prelude strings list.
From Stdlib Require Import ZArith Lia Sorted.
From S2P Require Import Prelude Bytes Layout Hash Identity Trajectory Binary64 Geometry PersistenceFrames.
From S2P Require Import UnicodeFields UnicodeCollation UnicodeAtoms UnicodePlacement UnicodeStream.

Local Abbreviation octets := (Forall (fun b => is_u8 b)) (only parsing).

(** ** Streams *)
Record root_stream := mk_root_stream {
  s_atoms : list laplace_unicode_atom_record;
  s_positions : list laplace_unicode_ducet_position_record;
  s_contractions : list laplace_unicode_ducet_contraction_record;
  s_compositions : list laplace_unicode_normalization_composition;
  s_manifest : option laplace_unicode_root_manifest }.

Definition empty_stream : root_stream := mk_root_stream [] [] [] [] None.

(** The records of a section. *)
Definition section (s : root_stream) (k : nat) : list root_record :=
  match k with
  | 0 => map record_atom (s_atoms s)
  | 1 => map record_position (s_positions s)
  | 2 => map record_contraction (s_contractions s)
  | _ => map record_composition (s_compositions s)
  end%nat.
Definition section_size (s : root_stream) (k : nat) : Z := Z.of_nat (length (section s k)).

(** The records of a stream. *)
Definition records (s : root_stream) : list root_record :=
  section s 0 ++ section s 1 ++ section s 2 ++ section s 3 ++
  match s_manifest s with Some m => [record_manifest m] | None => [] end.
Definition frame_count_of (s : root_stream) : Z := Z.of_nat (length (records s)).

Definition ranks (s : root_stream) : list Z := map placement_rank (s_atoms s).
Definition contraction_sequence (r : laplace_unicode_ducet_contraction_record) : list Z :=
  cells (sequence r) (sequence_count r).

(** Strict lexicographic order. *)
Fixpoint before (a b : list Z) : Prop :=
  match a, b with
  | x :: a, y :: b => x < y \/ x = y /\ before a b
  | [], _ :: _ => True
  | _, [] => False
  end.

(** The last of a section, if any, is before the next. *)
Definition follows {A} (key : A -> list Z) (l : list A) (next : A) : Prop :=
  match last l with Some a => before (key a) (key next) | None => True end.

Definition full (s : root_stream) : Prop :=
  section_size s 0 = LAPLACE_UNICODE_ROOT_POPULATION /\
  section_size s 1 = LAPLACE_UNICODE_ROOT_POPULATION.

Section Law.
Context {B : Blake3}.

(** The bytes of a stream's frames. *)
Definition encoded_total (s : root_stream) : Z :=
  Z.of_nat (sum_list_with (fun v => 32 + length (record_bytes v))%nat (records s)).

(** ** What the fingerprints cover *)
Definition record_entry (ordinal : nat) (v : root_record) : list Z :=
  store_le 8 (Z.of_nat ordinal) ++ store_le 4 (left (record_bytes v)) ++ record_bytes v.
Definition section_transcript (kind : Z) (l : list root_record) : list Z :=
  unicode_root_section_domain ++ store_le 2 kind ++ concat (imap record_entry l).
Definition section_digest (s : root_stream) (k : nat) : laplace_digest256 :=
  blake3 (section_transcript (Z.of_nat k + 1) (section s k) ++ store_le 8 (section_size s k)).

Definition rank_entry (a : laplace_unicode_atom_record) : list Z :=
  store_le 4 (atom_position a) ++ store_le 4 (placement_rank a).
Definition coordinate_entry (a : laplace_unicode_atom_record) : list Z :=
  store_le 4 (atom_position a) ++ store_le 4 (placement_rank a) ++
  store_doubles (component (coordinate a)).
Definition rank_digest (atoms : list laplace_unicode_atom_record) : laplace_digest256 :=
  blake3 (unicode_root_placement_rank_permutation_domain ++ concat (map rank_entry atoms) ++
          store_le 8 LAPLACE_UNICODE_ROOT_POPULATION).
Definition table_digest (atoms : list laplace_unicode_atom_record) : laplace_digest256 :=
  blake3 (unicode_root_coordinate_table_domain ++ concat (map coordinate_entry atoms) ++
          store_le 8 LAPLACE_UNICODE_ROOT_POPULATION).

(** What the manifest of a stream must say: its counts, the bindings that were
    expected, and the fingerprints of what was read. *)
Definition manifest_binds (e : laplace_unicode_root_stream_expectation) (s : root_stream)
    (m : laplace_unicode_root_manifest) : Prop :=
  let permutation := rank_digest (s_atoms s) in
  let table := table_digest (s_atoms s) in
  let epoch := epoch_digest (expected_physicality_recipe_fingerprint e) permutation table in
  atom_count m = section_size s 0 /\ ducet_position_count m = section_size s 1 /\
  ducet_contraction_count m = section_size s 2 /\
  normalization_composition_count m = section_size s 3 /\
  total_frame_count m = frame_count_of s + 1 /\
  source_fingerprint m = expected_source_fingerprint e /\
  recipe_fingerprint m = expected_recipe_fingerprint e /\
  numeric_provider_receipt m = expected_numeric_provider_receipt e /\
  stream_contract_fingerprint m = expected_stream_contract_fingerprint e /\
  algorithmic_hangul_rule_fingerprint m = expected_algorithmic_hangul_rule_fingerprint e /\
  atom_record_contract_fingerprint m = expected_atom_record_contract_fingerprint e /\
  physicality_recipe_version m = expected_physicality_recipe_version e /\
  physicality_recipe_fingerprint m = expected_physicality_recipe_fingerprint e /\
  placement_rank_permutation_fingerprint m = permutation /\
  expected_placement_rank_permutation_fingerprint e = permutation /\
  coordinate_table_fingerprint m = table /\ expected_coordinate_table_fingerprint e = table /\
  geometry_epoch m = epoch /\ expected_geometry_epoch e = epoch /\
  atom_section_fingerprint m = section_digest s 0 /\
  ducet_position_section_fingerprint m = section_digest s 1 /\
  ducet_contraction_section_fingerprint m = section_digest s 2 /\
  normalization_composition_section_fingerprint m = section_digest s 3.

(** ** Which frame may come next *)
Definition admissible (e : laplace_unicode_root_stream_expectation) (s : root_stream) (f : root_frame)
    : Prop :=
  s_manifest s = None /\
  match f.2 with
  | record_atom a =>
      s_positions s = [] /\ s_contractions s = [] /\ s_compositions s = [] /\
      f.1 = section_size s 0 /\ atom_belongs e a /\ placement_rank a ∉ ranks s
  | record_position _ =>
      s_contractions s = [] /\ s_compositions s = [] /\
      section_size s 0 = LAPLACE_UNICODE_ROOT_POPULATION /\ f.1 = section_size s 1
  | record_contraction r =>
      s_compositions s = [] /\ full s /\ f.1 = section_size s 2 /\
      follows contraction_sequence (s_contractions s) r
  | record_composition r =>
      full s /\ f.1 = section_size s 3 /\ follows composition_values (s_compositions s) r
  | record_manifest m => full s /\ manifest_binds e s m
  end.

Definition grown (s : root_stream) (v : root_record) : root_stream :=
  match v with
  | record_atom a =>
      mk_root_stream (s_atoms s ++ [a]) (s_positions s) (s_contractions s) (s_compositions s) (s_manifest s)
  | record_position r =>
      mk_root_stream (s_atoms s) (s_positions s ++ [r]) (s_contractions s) (s_compositions s) (s_manifest s)
  | record_contraction r =>
      mk_root_stream (s_atoms s) (s_positions s) (s_contractions s ++ [r]) (s_compositions s) (s_manifest s)
  | record_composition r =>
      mk_root_stream (s_atoms s) (s_positions s) (s_contractions s) (s_compositions s ++ [r]) (s_manifest s)
  | record_manifest m =>
      mk_root_stream (s_atoms s) (s_positions s) (s_contractions s) (s_compositions s) (Some m)
  end.

(** Once the sections are sealed, only the manifest may come. *)
Definition allowed (e : laplace_unicode_root_stream_expectation) (s : root_stream) (sealed : bool)
    (f : root_frame) : Prop :=
  admissible e s f /\ (sealed = true -> record_kind f.2 = 5).

(** Frames that may come one after the other. *)
Fixpoint all_allowed (e : laplace_unicode_root_stream_expectation) (s : root_stream) (sealed : bool)
    (fs : list root_frame) : Prop :=
  match fs with
  | [] => True
  | f :: fs =>
      frame_wf f /\ allowed e s sealed f /\
      all_allowed e (grown s f.2) (sealed || (record_kind f.2 =? 5)) fs
  end.
Definition sealed_by (sealed : bool) (fs : list root_frame) : bool :=
  foldl (fun sealed f => sealed || (record_kind f.2 =? 5)) sealed fs.
Definition grown_by (s : root_stream) (fs : list root_frame) : root_stream :=
  foldl (fun s f => grown s f.2) s fs.

(** ** How a validator holds a stream *)
(** The kind of the last frame, or that of the first. *)
Definition kind_reached (s : root_stream) : Z :=
  match s_manifest s with
  | Some _ => 5
  | None =>
      match s_compositions s, s_contractions s, s_positions s with
      | _ :: _, _, _ => 4
      | [], _ :: _, _ => 3
      | [], [], _ :: _ => 2
      | [], [], [] => 1
      end
  end.

Definition remembers (has : bool) (memory : list Z) (last : option (list Z)) : Prop :=
  match last with Some key => has = true /\ memory = key | None => has = false end.

Definition sections_hold (s : root_stream) (hashers : list blake3_hasher) (counts : list Z) : Prop :=
  length hashers = 4%nat /\
  (forall k h, hashers !! k = Some h -> absorbs h (section_transcript (Z.of_nat k + 1) (section s k))) /\
  counts = map (section_size s) [0; 1; 2; 3]%nat.

Definition placement_holds (s : root_stream) (observed : list Z)
    (rank_hasher coordinate_hasher : blake3_hasher) : Prop :=
  absorbs rank_hasher
    (unicode_root_placement_rank_permutation_domain ++ concat (map rank_entry (s_atoms s))) /\
  absorbs coordinate_hasher
    (unicode_root_coordinate_table_domain ++ concat (map coordinate_entry (s_atoms s))) /\
  observes observed (ranks s).

Definition contraction_held (s : root_stream) (v : laplace_unicode_root_stream_validator) : Prop :=
  remembers (has_previous_contraction v)
    (take (Z.to_nat (previous_contraction_count v)) (previous_contraction v))
    (contraction_sequence <$> last (s_contractions s)) /\
  (has_previous_contraction v = true ->
   0 <= previous_contraction_count v <= Z.of_nat (length (previous_contraction v))).
Definition composition_held (s : root_stream) (v : laplace_unicode_root_stream_validator) : Prop :=
  remembers (has_previous_normalization v) (previous_normalization v)
    (composition_values <$> last (s_compositions s)).

Definition manifest_held (s : root_stream) (v : laplace_unicode_root_stream_validator) : Prop :=
  match s_manifest s with
  | Some m => manifest_seen v = true /\ validator_manifest v = m
  | None => manifest_seen v = false
  end.

Definition totals_hold (s : root_stream) (v : laplace_unicode_root_stream_validator) : Prop :=
  validator_frame_count v = frame_count_of s /\ total_encoded_bytes v = encoded_total s /\
  encoded_total s <= UINT64_MAX.

Record represents (e : laplace_unicode_root_stream_expectation) (s : root_stream) (sealed : bool)
    (v : laplace_unicode_root_stream_validator) : Prop := {
  held_expectation : expectation v = e;
  held_status : status v = LAPLACE_UNICODE_OK;
  held_finished : finished v = false;
  held_sections : sections_hold s (section_hashers v) (section_counts v);
  held_placement : placement_holds s (observed_placement_ranks v) (placement_rank_permutation_hasher v)
    (coordinate_table_hasher v);
  held_contraction : contraction_held s v;
  held_composition : composition_held s v;
  held_kind : current_kind v = kind_reached s;
  held_manifest : manifest_held s v;
  held_sealed : sections_sealed v = sealed;
  sealed_full : sealed = true -> full s }.
End Law.

Section Laws.
Context {B : Blake3} {L : Blake3Laws B}.

(** ** Order *)
Lemma sequence_before_exact a b :
  match sequence_before a b with
  | Some decided => decided = true <-> before a b
  | None => (length a < length b)%nat <-> before a b
  end.
Proof.
  revert b. induction a as [|x a IH]; intros [|y b]; cbn [sequence_before before length]; try (split; (done || lia)).
  destruct (Z.ltb_spec x y); [split; [by left|done]|].
  destruct (Z.ltb_spec y x); [split; [done|intros [?|[? _]]; lia]|].
  specialize (IH b). assert (x = y) as -> by lia.
  destruct (sequence_before a b) as [d|].
  - rewrite IH. split; [by right|]. intros [?|[_ ?]]; [lia|done].
  - rewrite <- Nat.succ_lt_mono, IH. split; [by right|]. intros [?|[_ ?]]; [lia|done].
Qed.

Definition order_ok (s : root_stream) (kind : Z) : Prop :=
  s_manifest s = None /\ kind_reached s <= kind /\
  (1 < kind -> section_size s 0 = LAPLACE_UNICODE_ROOT_POPULATION) /\
  (2 < kind -> section_size s 1 = LAPLACE_UNICODE_ROOT_POPULATION).

(** What a frame of a kind needs besides its place. *)
Definition record_admissible (e : laplace_unicode_root_stream_expectation) (s : root_stream) (v : root_record)
    : Prop :=
  match v with
  | record_atom a => atom_belongs e a /\ placement_rank a ∉ ranks s
  | record_position _ => True
  | record_contraction r => follows contraction_sequence (s_contractions s) r
  | record_composition r => follows composition_values (s_compositions s) r
  | record_manifest m => manifest_binds e s m
  end.

Lemma kind_reached_le s k : s_manifest s = None -> 1 <= k <= 5 -> kind_reached s <= k <->
  (k < 4 -> s_compositions s = []) /\ (k < 3 -> s_contractions s = []) /\ (k < 2 -> s_positions s = []).
Proof.
  intros Hm Hk. unfold kind_reached. rewrite Hm.
  destruct (s_compositions s), (s_contractions s), (s_positions s);
    (split; [intros ?; split_and!; intros ?; (done || lia)|]); intros (H1 & H2 & H3);
    repeat match goal with H : ?P -> _ :: _ = [] |- _ =>
      assert (~ P) by (intros HP; discriminate (H HP)); clear H end; lia.
Qed.

Lemma admissible_split e s f : admissible e s f <->
  order_ok s (record_kind f.2) /\
  (record_kind f.2 <> 5 -> f.1 = section_size s (Z.to_nat (record_kind f.2 - 1))) /\
  record_admissible e s f.2.
Proof.
  unfold admissible, order_ok. pose proof (record_kind_range f.2) as Hk. split.
  - intros [Hm H]. rewrite kind_reached_le by done.
    destruct f.2; cbn [record_kind record_admissible] in *; unfold full in H.
    + destruct H as (H1 & H2 & H3 & H4 & H5). split_and!; intros; (done || lia || tauto).
    + destruct H as (H1 & H2 & H3 & H4). split_and!; intros; (done || lia || tauto).
    + destruct H as (H1 & [H2 H3] & H4 & H5). split_and!; intros; (done || lia || tauto).
    + destruct H as ([H1 H2] & H3 & H4). split_and!; intros; (done || lia || tauto).
    + destruct H as ([H1 H2] & H3). split_and!; intros; (done || lia).
  - intros ((Hm & Hkr & Ha & Hp) & Ho & Hr). split; [done|]. rewrite kind_reached_le in Hkr by done.
    destruct Hkr as (K4 & K3 & K2).
    destruct f.2; cbn [record_kind record_admissible] in *; unfold full;
      change (Z.to_nat (1 - 1)) with 0%nat in Ho; split_and!; (tauto || (apply Ho; lia) || (apply Ha; lia) ||
      (apply Hp; lia) || (apply K4; lia) || (apply K3; lia) || (apply K2; lia) || done).
Qed.

(** ** The sections *)
Lemma held_count s hs cs k : sections_hold s hs cs -> (k < 4)%nat -> cs !!! k = section_size s k.
Proof. intros (_ & _ & ->) Hk. by destruct k as [|[|[|[|]]]]; try lia. Qed.

Lemma required_exact s v kind : sections_hold s (section_hashers v) (section_counts v) ->
  unicode_root_required_sections_complete v kind = true <->
  (1 < kind -> section_size s 0 = LAPLACE_UNICODE_ROOT_POPULATION) /\
  (2 < kind -> section_size s 1 = LAPLACE_UNICODE_ROOT_POPULATION).
Proof.
  intros Hs. unfold unicode_root_required_sections_complete. rewrite !(held_count _ _ _ _ Hs) by lia.
  casec; [split; [done|lia]|]. casec; [split; [done|lia]|]. split; [lia|done].
Qed.

Lemma section_grown s v k : (k < 4)%nat ->
  section (grown s v) k = section s k ++ (if Z.of_nat k + 1 =? record_kind v then [v] else []).
Proof.
  intros Hk. destruct k as [|[|[|[|]]]]; [..|lia]; destruct v; cbn; by rewrite ?map_app, ?app_nil_r.
Qed.

Lemma size_grown s v k : (k < 4)%nat ->
  section_size (grown s v) k = section_size s k + (if Z.of_nat k + 1 =? record_kind v then 1 else 0).
Proof.
  intros Hk. unfold section_size. rewrite section_grown, length_app by done. case_match; cbn [length]; lia.
Qed.

Lemma transcript_grown kind l v : section_transcript kind (l ++ [v]) =
  section_transcript kind l ++ record_entry (length l) v.
Proof.
  unfold section_transcript. rewrite imap_app, concat_app. cbn [imap concat].
  rewrite app_nil_r, Nat.add_0_r. by rewrite <- !app_assoc.
Qed.

Lemma absorbs_entry h m ordinal payload v : absorbs h m ->
  cells payload (left (record_bytes v)) = record_bytes v ->
  absorbs (unicode_root_section_hasher_update h (Z.of_nat ordinal) payload (left (record_bytes v)))
    (m ++ record_entry ordinal v).
Proof.
  intros Hh Hc. unfold unicode_root_section_hasher_update, record_entry. rewrite Hc.
  rewrite (app_assoc (store_le 8 _)), (app_assoc m). by apply absorbs_update, absorbs_update.
Qed.

Lemma sections_grown s hs cs f payload : sections_hold s hs cs -> record_kind f.2 <> 5 ->
  f.1 = section_size s (Z.to_nat (record_kind f.2 - 1)) -> f.1 < UINT64_MAX ->
  cells payload (left (record_bytes f.2)) = record_bytes f.2 ->
  sections_hold (grown s f.2)
    (alter (fun h => unicode_root_section_hasher_update h f.1 payload (left (record_bytes f.2)))
       (Z.to_nat (record_kind f.2 - 1)) hs)
    (alter (fun count => u64 (count + 1)) (Z.to_nat (record_kind f.2 - 1)) cs).
Proof.
  intros (Hl & Hh & ->) Hk Ho Hb Hc. pose proof (record_kind_range f.2) as Hr.
  set (j := Z.to_nat (record_kind f.2 - 1)) in *. assert (Hj : (j < 4)%nat) by lia.
  split; [by rewrite length_alter|]. split.
  - intros k h Hkh. assert (Hk4 : (k < 4)%nat) by (apply lookup_lt_Some in Hkh; rewrite length_alter in Hkh; lia).
    rewrite section_grown by done. destruct (decide (k = j)) as [->|Hne].
    + rewrite list_lookup_alter_eq in Hkh. destruct (hs !! j) as [h0|] eqn:E; [|done]. injection Hkh as <-.
      rewrite (proj2 (Z.eqb_eq _ _)) by lia. rewrite transcript_grown, Ho. unfold section_size at 1.
      apply absorbs_entry; [by apply Hh|done].
    + rewrite list_lookup_alter_ne in Hkh by done. rewrite (proj2 (Z.eqb_neq _ _)) by lia.
      rewrite app_nil_r. by apply Hh.
  - assert (Hu : forall k, (k < 4)%nat -> section_size (grown s f.2) k =
      if Nat.eqb k j then u64 (section_size s k + 1) else section_size s k).
    { intros k Hk4. rewrite size_grown by done. destruct (Nat.eqb_spec k j) as [->|Hne].
      - rewrite (proj2 (Z.eqb_eq _ _)) by lia. rewrite u64_small; [done|]. unfold section_size in *. lia.
      - rewrite (proj2 (Z.eqb_neq _ _)) by lia. lia. }
    cbn [map]. rewrite !Hu by lia. clearbody j. by destruct j as [|[|[|[|]]]]; try lia.
Qed.

Lemma sections_kept s hs cs m : sections_hold s hs cs -> sections_hold (grown s (record_manifest m)) hs cs.
Proof. done. Qed.

(** ** The records *)
(** A refusal: the machine is poisoned with the status returned. *)
Definition refused (v : laplace_unicode_root_stream_validator)
    (r : laplace_unicode_status * laplace_unicode_root_stream_validator) : Prop :=
  r.1 <> LAPLACE_UNICODE_OK /\ status r.2 = r.1.

Lemma observes_snoc observed r ranks : observes observed (r :: ranks) -> observes observed (ranks ++ [r]).
Proof.
  intros [Hw Hm]. split; [done|]. intros p Hp. rewrite Hm by done. apply bool_decide_ext.
  rewrite elem_of_app, elem_of_cons, list_elem_of_singleton. tauto.
Qed.

Lemma placement_grown s observed rh ch a : atom_wf a ->
  placement_holds s observed rh ch -> placement_rank a ∉ ranks s ->
  exists observed', unicode_root_mark_placement_rank_once observed (placement_rank a) = Some observed' /\
  placement_holds (grown s (record_atom a)) observed'
    (unicode_root_placement_rank_hasher_update rh (atom_position a) (placement_rank a))
    (unicode_root_coordinate_hasher_update ch (atom_position a) (placement_rank a) (coordinate a)).
Proof.
  intros (Hty & (_ & Hr & _) & _) (Hrh & Hch & Ho) Hnin.
  pose proof (mark_exact observed (ranks s) (placement_rank a) Ho Hr) as Hm.
  destruct (unicode_root_mark_placement_rank_once _ _) as [observed'|]; [|done]. destruct Hm as [_ Ho'].
  exists observed'. split; [done|]. destruct Hty as (_ & _ & _ & _ & _ & _ & _ & [H4 _] & _).
  unfold placement_holds, ranks. cbn [grown s_atoms]. rewrite !map_app, !concat_app. cbn [map concat].
  rewrite !app_nil_r. split; [|split].
  - rewrite (app_assoc unicode_root_placement_rank_permutation_domain). by apply absorbs_rank.
  - rewrite (app_assoc unicode_root_coordinate_table_domain). by apply absorbs_axes.
  - by apply observes_snoc.
Qed.

Lemma atom_step e s v a frame p rest : atom_wf a -> octets p -> p = atom_bytes a ++ rest ->
  frame_payload frame = Some p -> frame_payload_bytes frame = left (atom_bytes a) -> expectation v = e ->
  placement_holds s (observed_placement_ranks v) (placement_rank_permutation_hasher v)
    (coordinate_table_hasher v) ->
  (record_admissible e s (record_atom a) /\ exists observed rh ch,
     consume_atom v frame = (LAPLACE_UNICODE_OK, set_placement v observed rh ch) /\
     placement_holds (grown s (record_atom a)) observed rh ch) \/
  (~ record_admissible e s (record_atom a) /\ refused v (consume_atom v frame)).
Proof.
  intros Hw Hp Ep Hpay Hn He Hpl. unfold consume_atom. rewrite Hpay, Hn.
  assert (Hl : left (atom_bytes a) <= left p) by (rewrite Ep, left_app; pose proof (left_nonneg rest); lia).
  rewrite (proj2 (atom_opener p (left (atom_bytes a)) zero_atom_view 0 _ _ Hp Hl)
    (ex_intro _ a (ex_intro _ rest (conj Hw (conj Ep (conj (Z.le_refl _) (conj eq_refl eq_refl))))))).
  cbn [atom_view atom_value]. rewrite He.
  pose proof (pointed_wf p a rest Hp Hw Ep) as Hpw.
  destruct (project_exact e (pointed_at p a) (mk_entity (zeros 16) (zeros 32)) empty_physicality (proj1 Hpw))
    as [Hyes Hno].
  rewrite Z.eqb_refl. cbn [negb orb record_admissible].
  assert (Hdec : atom_belongs e a \/ ~ atom_belongs e a).
  { unfold atom_belongs. destruct (decide (expected_flags e = 0)); [|tauto].
    destruct (decide (expected_reserved e = 0)); [|tauto].
    destruct (decide (expected_physicality_recipe_version e = 1)); [|tauto].
    destruct (decide (atom_geometry_epoch a = expected_geometry_epoch e)); [|tauto].
    match goal with |- context [atom_physicality_id a = ?x] =>
      destruct (decide (atom_physicality_id a = x)); tauto end. }
  destruct Hdec as [Hb|Hb].
  - rewrite Hyes by done. cbn [unicode_ok fst negb].
    change (placement_rank (pointed_at p a)) with (placement_rank a).
    destruct (decide (placement_rank a ∈ ranks s)) as [Hin|Hnin].
    + right. split; [tauto|]. pose proof Hw as (_ & (_ & Hr & _) & _).
      pose proof (mark_exact _ _ _ (proj2 (proj2 Hpl)) Hr) as Hm.
      destruct (unicode_root_mark_placement_rank_once _ _); [tauto|done].
    + left. split; [done|]. destruct (placement_grown s _ _ _ a Hw Hpl Hnin) as (observed & Em & Hg).
      rewrite Em. eexists _, _, _. split; [reflexivity|exact Hg].
  - right. split; [tauto|]. destruct Hno as (st & E & Hst); [intros [_ ?]; done|].
    rewrite E. by destruct Hst as [-> | ->].
Qed.

Lemma read_positions t ps : Forall position ps ->
  map (fun i => read_u32le (advance (Z.of_nat i * 4) (encode_positions ps ++ t))) (seq 0 (length ps)) = ps.
Proof.
  induction 1 as [|x ps Hx _ IH]; [done|]. cbn [length seq map]. rewrite <- seq_shift, map_map.
  unfold encode_positions in *. cbn [map concat]. rewrite <- app_assoc. f_equal.
  - change (advance (Z.of_nat 0 * 4) ?l) with l. unfold read_u32le, position in *.
    rewrite take_app_length' by by rewrite length_store_le. rewrite load_store_le.
    change (256 ^ Z.of_nat 4) with 4294967296. rewrite Z.mod_small; lia.
  - rewrite <- IH at 2. apply map_ext. intros i. unfold advance.
    replace (Z.to_nat (Z.of_nat (S i) * 4)) with (4 + Z.to_nat (Z.of_nat i * 4))%nat by lia.
    rewrite <- drop_drop. by rewrite (drop_app_length' (store_le 4 x)) by by rewrite length_store_le.
Qed.

Lemma contraction_keys r : contraction_wf r ->
  Z.of_nat (length (contraction_sequence r)) = sequence_count r /\ Forall position (contraction_sequence r).
Proof. intros (_ & ? & Hs & _). apply holds_cells; [lia|done]. Qed.

Lemma view_sequence_exact p r rest : contraction_wf r -> p = contraction_bytes r ++ rest ->
  view_sequence (contraction_view p r) = contraction_sequence r.
Proof.
  intros Hw ->. destruct (contraction_keys r Hw) as [Hl Hp].
  unfold view_sequence, contraction_bytes. cbn [contraction_view encoded_sequence view_sequence_count].
  pose proof (contraction_layout r (contraction_total r)) as Hlay. unfold left in Hlay.
  rewrite <- !app_assoc, drop_app_length' by lia. change (default [] (Some ?x)) with x.
  fold (contraction_sequence r). rewrite <- Hl, Nat2Z.id. by apply read_positions.
Qed.

Lemma follows_exact {A} (key : A -> list Z) l next has memory :
  remembers has memory (key <$> last l) ->
  (negb has || match sequence_before memory (key next) with
               | Some decided => decided
               | None => Z.of_nat (length memory) <? Z.of_nat (length (key next))
               end) = true <-> follows key l next.
Proof.
  unfold remembers, follows. destruct (last l) as [a|]; cbn [fmap option_fmap option_map].
  - intros [-> ->]. cbn [negb orb]. pose proof (sequence_before_exact (key a) (key next)) as H.
    destruct (sequence_before _ _); [done|]. rewrite <- H, Z.ltb_lt. lia.
  - intros ->. done.
Qed.

Lemma contraction_order_exact s v view r : contraction_held s v ->
  view_sequence view = contraction_sequence r ->
  view_sequence_count view = Z.of_nat (length (contraction_sequence r)) ->
  unicode_root_contraction_order_valid v view = true <-> follows contraction_sequence (s_contractions s) r.
Proof.
  intros [Hr Hc] Hs Hn. rewrite <- (follows_exact _ _ _ _ _ Hr).
  unfold unicode_root_contraction_order_valid. rewrite Hs, Hn.
  destruct (has_previous_contraction v) eqn:Eh; cbn [negb orb]; [|done]. specialize (Hc eq_refl).
  replace (Z.of_nat (length (take _ (previous_contraction v)))) with (previous_contraction_count v)
    by (rewrite length_take; lia). done.
Qed.

Lemma composition_order_exact s v r : composition_held s v ->
  unicode_root_normalization_order_valid v r = true <-> follows composition_values (s_compositions s) r.
Proof.
  intros Hr. rewrite <- (follows_exact _ _ _ _ _ Hr). unfold unicode_root_normalization_order_valid.
  destruct (has_previous_normalization v) eqn:Eh; cbn [negb orb]; [|done].
  unfold composition_held, remembers in Hr. destruct (last (s_compositions s)) as [a|] eqn:El; [|cbn in Hr; congruence].
  destruct Hr as [_ ->]. cbn [composition_values length]. rewrite Z.ltb_irrefl. by destruct (sequence_before _ _).
Qed.

Lemma composition_step e s v r frame p rest : composition_wf r -> octets p -> p = composition_bytes r ++ rest ->
  frame_payload frame = Some p -> frame_payload_bytes frame = left (composition_bytes r) ->
  composition_held s v ->
  (record_admissible e s (record_composition r) /\
     consume_composition v frame = (LAPLACE_UNICODE_OK, set_normalization v (composition_values r) true)) \/
  (~ record_admissible e s (record_composition r) /\ refused v (consume_composition v frame)).
Proof.
  intros Hw Hp Ep Hpay Hn Hc. unfold consume_composition. rewrite Hpay, Hn.
  assert (Hl : left (composition_bytes r) <= left p) by (rewrite Ep, left_app; pose proof (left_nonneg rest); lia).
  rewrite (proj2 (composition_opener p (left (composition_bytes r)) (mk_composition 0 0 0) 0 _ _ Hp Hl)
    (ex_intro _ r (ex_intro _ rest (conj Hw (conj Ep (conj (Z.le_refl _) (conj eq_refl eq_refl))))))).
  pose proof (composition_order_exact s v r Hc) as Ho. cbn [record_admissible].
  destruct (unicode_root_normalization_order_valid v r); cbn [negb].
  - left. split; [by apply Ho|done].
  - right. split; [intros H; by apply Ho in H|done].
Qed.

Section Memory.
Variable realloc : Z -> bool.

(** A refusal for want of memory. *)
Definition exhausted (r : laplace_unicode_status * laplace_unicode_root_stream_validator) : Prop :=
  r.1 = LAPLACE_UNICODE_SOURCE_MEMORY_FAILURE /\ exists bytes, realloc bytes = false.

Lemma remember_exact v view : 0 <= view_sequence_count view <= UINT32_MAX ->
  let '(st, v') := unicode_root_remember_contraction realloc v view in
  (st = LAPLACE_UNICODE_OK /\ exists capacity, v' = set_contraction v
     (view_sequence view ++ drop (length (view_sequence view)) (previous_contraction v))
     (view_sequence_count view) capacity true) \/
  (st = LAPLACE_UNICODE_SOURCE_MEMORY_FAILURE /\ exists bytes, realloc bytes = false).
Proof.
  intros Hc. unfold unicode_root_remember_contraction. rewrite u64_small by lia. rewrite Z.div_mul by lia.
  rewrite Z.eqb_refl, !andb_false_r. casec; [|left; eauto]. right. split; [done|]. bools. eauto.
Qed.

Lemma contraction_step e s v r frame p rest : contraction_wf r -> octets p -> p = contraction_bytes r ++ rest ->
  frame_payload frame = Some p -> frame_payload_bytes frame = left (contraction_bytes r) ->
  contraction_held s v ->
  let result := consume_contraction realloc v frame in
  (record_admissible e s (record_contraction r) /\ exists memory capacity,
     result = (LAPLACE_UNICODE_OK, set_contraction v memory (sequence_count r) capacity true) /\
     contraction_held (grown s (record_contraction r)) result.2) \/
  ((record_admissible e s (record_contraction r) -> exhausted result) /\ refused v result).
Proof.
  intros Hw Hp Ep Hpay Hn Hc result. subst result. unfold consume_contraction. rewrite Hpay, Hn.
  assert (Hl : left (contraction_bytes r) <= left p) by (rewrite Ep, left_app; pose proof (left_nonneg rest); lia).
  rewrite (proj2 (ducet_contraction_opener p (left (contraction_bytes r)) zero_ducet_contraction_view 0 _ _ Hp Hl)
    (ex_intro _ r (ex_intro _ rest (conj Hw (conj Ep (conj (Z.le_refl _) (conj eq_refl eq_refl))))))).
  pose proof (view_sequence_exact p r rest Hw Ep) as Hs. destruct (contraction_keys r Hw) as [Hk _].
  pose proof (contraction_order_exact s v (contraction_view p r) r Hc Hs (eq_sym Hk)) as Ho.
  cbn [record_admissible]. destruct (unicode_root_contraction_order_valid _ _); cbn [negb].
  2: { right. split; [intros H; by apply Ho in H|done]. }
  pose proof (remember_exact v (contraction_view p r)) as Hr.
  destruct (unicode_root_remember_contraction realloc v _) as [st v'].
  destruct Hr as [[-> [capacity ->]]|[-> Hx]]; [destruct Hw as (_ & ? & _); cbn; lia| |].
  - left. split; [by apply Ho|]. rewrite Hs. cbn [contraction_view view_sequence_count].
    eexists _, capacity. split; [reflexivity|]. cbn [snd]. unfold contraction_held.
    cbn [set_contraction previous_contraction previous_contraction_count has_previous_contraction grown s_contractions].
    rewrite last_snoc. cbn [fmap option_fmap option_map remembers].
    rewrite take_app_length' by lia. split; [done|]. intros _. rewrite length_app. lia.
  - right. split; [by split|done].
Qed.

(** ** The manifest *)
Lemma records_grown s v : s_manifest s = None -> records (grown s v) ≡ₚ v :: records s.
Proof.
  intros Hm. unfold records. destruct v; cbn [grown s_manifest section s_atoms s_positions s_contractions
    s_compositions]; rewrite ?Hm, ?map_app; cbn [map]; rewrite ?app_nil_r; solve_Permutation.
Qed.

Lemma count_grown s v : s_manifest s = None -> frame_count_of (grown s v) = frame_count_of s + 1.
Proof. intros Hm. unfold frame_count_of. rewrite (records_grown s v Hm). cbn [length]. lia. Qed.

Lemma encoded_grown s f : s_manifest s = None ->
  encoded_total (grown s f.2) = encoded_total s + frame_total f.
Proof.
  intros Hm. unfold encoded_total, frame_total, left. rewrite (records_grown s f.2 Hm). cbn [sum_list_with]. lia.
Qed.

Lemma count_bound s : 32 * frame_count_of s <= encoded_total s.
Proof.
  unfold frame_count_of, encoded_total. induction (records s) as [|v l IH]; cbn [length sum_list_with]; lia.
Qed.

Lemma size_bound s k : (k < 4)%nat -> section_size s k <= frame_count_of s.
Proof.
  intros Hk. unfold frame_count_of, section_size, records. rewrite !length_app.
  destruct k as [|[|[|[|]]]]; lia.
Qed.

Lemma fingerprints_exact s v k : sections_hold s (section_hashers v) (section_counts v) -> (k < 4)%nat ->
  unicode_root_calculate_section_fingerprints v !!! k = section_digest s k.
Proof.
  intros Hs Hk. pose proof (held_count _ _ _ k Hs Hk) as Hc. destruct Hs as (Hl & Hh & Hcs).
  destruct (lookup_lt_is_Some_2 (section_hashers v) k) as [h Ek]; [lia|].
  destruct (lookup_lt_is_Some_2 (section_counts v) k) as [c Ec]; [rewrite Hcs; cbn; lia|].
  rewrite (list_lookup_total_correct _ _ _ Ec) in Hc. apply list_lookup_total_correct.
  unfold unicode_root_calculate_section_fingerprints. rewrite lookup_zip_with, Ek. cbn. rewrite Ec. cbn.
  f_equal. unfold unicode_root_section_hasher_finish, section_digest.
  rewrite (absorbs_finalize _ _ (absorbs_update _ _ _ (Hh k h Ek))). by rewrite Hc.
Qed.

Lemma manifest_matches_exact e s v m : expectation v = e ->
  sections_hold s (section_hashers v) (section_counts v) ->
  placement_holds s (observed_placement_ranks v) (placement_rank_permutation_hasher v)
    (coordinate_table_hasher v) ->
  validator_frame_count v = frame_count_of s -> frame_count_of s < UINT64_MAX ->
  unicode_root_manifest_matches v m (unicode_root_calculate_section_fingerprints v) = true <->
  manifest_binds e s m.
Proof.
  intros He Hs (Hr & Hc & _) Hn Hlt. unfold unicode_root_manifest_matches, manifest_binds. cbv zeta.
  unfold unicode_root_placement_rank_hasher_finish, unicode_root_coordinate_hasher_finish.
  rewrite (absorbs_finalize _ _ (absorbs_update _ _ _ Hr)), (absorbs_finalize _ _ (absorbs_update _ _ _ Hc)).
  rewrite geometry_epoch_eq, He, <- !app_assoc. fold (rank_digest (s_atoms s)) (table_digest (s_atoms s)).
  rewrite !(held_count _ _ _ _ Hs), !(fingerprints_exact _ _ _ Hs) by lia. rewrite Hn.
  rewrite u64_small by (unfold frame_count_of in *; lia).
  rewrite (proj2 (Z.eqb_neq _ UINT64_MAX)) by lia. cbn [negb]. unfold unicode_digest_equal.
  rewrite !andb_true_iff, !Z.eqb_eq, !bytes_equal_spec. clear. tauto.
Qed.

Lemma seal_exact s v : sections_hold s (section_hashers v) (section_counts v) -> full s ->
  exists snapshot, unicode_root_seal_sections_impl v =
    (LAPLACE_UNICODE_OK, if sections_sealed v then v else set_sealed v snapshot).
Proof.
  intros Hs [H0 H1]. unfold unicode_root_seal_sections_impl.
  destruct (sections_sealed v); [by eexists zero_snapshot|].
  rewrite (proj2 (required_exact s v LAPLACE_UNICODE_ROOT_FRAME_MANIFEST Hs)) by done.
  cbn [negb]. by eexists.
Qed.

(** ** A frame *)
(** What the record of a frame leaves alone. *)
Definition kept (v v' : laplace_unicode_root_stream_validator) : Prop :=
  expectation v' = expectation v /\ status v' = status v /\ finished v' = finished v /\
  section_hashers v' = section_hashers v /\ section_counts v' = section_counts v /\
  manifest_seen v' = manifest_seen v /\ sections_sealed v' = sections_sealed v /\
  validator_frame_count v' = validator_frame_count v /\ total_encoded_bytes v' = total_encoded_bytes v.

(** What the validator remembers of the records. *)
Definition memories (s : root_stream) (v : laplace_unicode_root_stream_validator) : Prop :=
  placement_holds s (observed_placement_ranks v) (placement_rank_permutation_hasher v)
    (coordinate_table_hasher v) /\
  contraction_held s v /\ composition_held s v.

Lemma kept_record_step e s v r frame p rest : record_wf r -> octets p -> p = record_bytes r ++ rest ->
  record_kind r <> 5 -> frame_kind frame = record_kind r ->
  frame_payload frame = Some p -> frame_payload_bytes frame = left (record_bytes r) ->
  expectation v = e -> memories s v ->
  let result := consume_record realloc v frame in
  (record_admissible e s r /\ exists v', result = (LAPLACE_UNICODE_OK, v') /\ kept v v' /\ memories (grown s r) v') \/
  ((record_admissible e s r -> exhausted result) /\ refused v result).
Proof.
  intros Hw Hp Ep H5 Hk Hpay Hn He (Hpl & Hc & Hco) result. subst result. unfold consume_record. rewrite Hk.
  destruct r as [a|r|r|r|r]; [| | | |done];
    cbn [record_kind record_wf record_bytes Z.eqb Pos.eqb] in *.
  - destruct (atom_step e s v a frame p rest Hw Hp Ep Hpay Hn He Hpl)
      as [(Ha & observed & rh & ch & -> & Hg)|(Hna & Hr)].
    + left. split; [done|]. eexists. split; [reflexivity|]. split; [by repeat split|]. done.
    + right. split; [tauto|done].
  - left. split; [done|]. eexists. split; [reflexivity|]. split; [by repeat split|]. done.
  - destruct (contraction_step e s v r frame p rest Hw Hp Ep Hpay Hn Hc)
      as [(Ha & memory & capacity & E & Hg)|Hr]; [|by right].
    rewrite E in *. left. split; [done|]. eexists. split; [reflexivity|]. split; [by repeat split|]. done.
  - destruct (composition_step e s v r frame p rest Hw Hp Ep Hpay Hn Hco) as [(Ha & ->)|(Hna & Hr)].
    + left. split; [done|]. eexists. split; [reflexivity|]. split; [by repeat split|].
      split; [done|]. split; [done|]. unfold composition_held. cbn [grown s_compositions]. by rewrite last_snoc.
    + right. split; [tauto|done].
Qed.

Lemma gate_exact e s sealed v kind : represents e s sealed v -> 1 <= kind <= 5 ->
  (manifest_seen v || (sections_sealed v && negb (kind =? LAPLACE_UNICODE_ROOT_FRAME_MANIFEST)) ||
   (kind <? current_kind v) || negb (unicode_root_required_sections_complete v kind)) = false <->
  order_ok s kind /\ (sealed = true -> kind = 5).
Proof.
  intros [_ _ _ Hs _ _ _ Hk Hm <- _] Hr. unfold order_ok. pose proof (required_exact s v kind Hs) as Hq.
  rewrite !orb_false_iff, negb_false_iff, Hq, Hk, Z.ltb_ge. unfold manifest_held in Hm.
  destruct (s_manifest s) as [m|].
  - destruct Hm as [-> _]. split; [by intros [[[? _] _] _]|by intros [[? _] _]].
  - rewrite Hm. destruct (sections_sealed v); cbn [andb].
    + rewrite negb_false_iff, Z.eqb_eq. change LAPLACE_UNICODE_ROOT_FRAME_MANIFEST with 5. tauto.
    + split; [intros [[[_ _] ?] ?]; done|]. intros [(_ & ? & ?) _]. done.
Qed.

Lemma kind_grown s f e : admissible e s f -> kind_reached (grown s f.2) = record_kind f.2.
Proof.
  intros [Hm H]. unfold kind_reached. destruct f.2; cbn [grown s_manifest s_compositions s_contractions s_positions
    record_kind] in *; rewrite ?Hm; [..|done].
  - by destruct H as (-> & -> & -> & _).
  - destruct H as (-> & -> & _). by destruct (s_positions s).
  - destruct H as (-> & _). by destruct (s_contractions s).
  - by destruct (s_compositions s).
Qed.

Lemma full_grown s v : record_kind v = 5 -> full (grown s v) <-> full s.
Proof. by destruct v. Qed.

Lemma frame_payload_at m f rest : m = frame_bytes f ++ rest -> drop 32 m = record_bytes f.2 ++ rest.
Proof.
  intros ->. unfold frame_bytes. rewrite <- app_assoc. apply drop_app_length'.
  pose proof (frame_layout (record_kind f.2) f.1 (left (record_bytes f.2))) as Hl. unfold left in *. lia.
Qed.

Definition outcome (e : laplace_unicode_root_stream_expectation) (s : root_stream) (sealed : bool)
    (v : laplace_unicode_root_stream_validator) (f : root_frame)
    (result : laplace_unicode_status * laplace_unicode_root_stream_validator) : Prop :=
  (allowed e s sealed f /\ exists v', result = (LAPLACE_UNICODE_OK, v') /\
     represents e (grown s f.2) (sealed || (record_kind f.2 =? 5)) v' /\
     validator_frame_count v' = validator_frame_count v /\
     total_encoded_bytes v' = total_encoded_bytes v) \/
  ((allowed e s sealed f -> exhausted result) /\ refused v result).

Lemma manifest_step e s sealed v m frame p rest : represents e s sealed v ->
  validator_frame_count v = frame_count_of s -> frame_count_of s < UINT64_MAX ->
  manifest_wf m -> octets p -> p = manifest_bytes m ++ rest -> frame_kind frame = 5 ->
  frame_payload frame = Some p -> frame_payload_bytes frame = left (manifest_bytes m) ->
  order_ok s 5 ->
  outcome e s sealed v (0, record_manifest m) (consume_manifest v frame).
Proof.
  intros Hv Hn Hlt Hw Hp Ep Hk Hpay Hpn Hok. unfold outcome. cbn [fst snd record_kind].
  destruct Hv as [He Hst Hf Hs Hpl Hc Hco Hki Hma Hse Hsf]. pose proof Hok as (Hm & _ & H0 & H1).
  assert (Hfull : full s) by (split; [by apply H0|by apply H1]).
  assert (Hal : allowed e s sealed (0, record_manifest m) <-> manifest_binds e s m).
  { unfold allowed. rewrite admissible_split. cbn [fst snd record_kind record_admissible]. split; [tauto|].
    intros Hb. split; [|done]. split; [done|]. by split. }
  rewrite Hal. unfold consume_manifest. destruct (seal_exact s v Hs Hfull) as [snapshot ->].
  set (w := if sections_sealed v then v else set_sealed v snapshot).
  rewrite Hpay, Hpn.
  assert (Hl : left (manifest_bytes m) <= left p) by (rewrite Ep, left_app; pose proof (left_nonneg rest); lia).
  rewrite (proj2 (manifest_opener p (left (manifest_bytes m)) zero_manifest 0 _ _ Hp Hl)
    (ex_intro _ m (ex_intro _ rest (conj Hw (conj Ep (conj (Z.le_refl _) (conj eq_refl eq_refl))))))).
  assert (Hkept : forall P : laplace_unicode_root_stream_validator -> Prop, P v -> P (set_sealed v snapshot) -> P w)
    by (intros P ? ?; unfold w; by destruct (sections_sealed v)).
  assert (Hx : unicode_root_manifest_matches w m (unicode_root_calculate_section_fingerprints w) = true <->
    manifest_binds e s m)
    by (apply Hkept; by apply manifest_matches_exact).
  destruct (unicode_root_manifest_matches w m _); cbn [negb].
  - left. split; [by apply Hx|]. eexists. split; [reflexivity|]. rewrite Hk. split.
    + rewrite orb_true_r. split; try (apply Hkept; done); [|done].
      unfold w. by destruct (sections_sealed v) eqn:E.
    + apply Hkept; done.
  - right. split; [intros H; by apply Hx in H|done].
Qed.

Lemma frame_step e s sealed v f m rest : represents e s sealed v ->
  validator_frame_count v = frame_count_of s -> frame_count_of s < UINT64_MAX ->
  frame_wf f -> octets m -> m = frame_bytes f ++ rest ->
  outcome e s sealed v f (unicode_root_stream_consume_frame realloc v (frame_view m f)).
Proof.
  intros Hv Hn Hlt Hw Hm Em. pose proof (gate_exact e s sealed v (record_kind f.2) Hv (record_kind_range f.2)) as Hg.
  pose proof (frame_payload_at m f rest Em) as Ep. pose proof Hw as (Ho & Hr & Hat & Ht).
  assert (Hd : octets (drop 32 m)) by by apply Forall_drop.
  unfold unicode_root_stream_consume_frame, frame_view, frame_at. cbv zeta.
  cbn [frame_value frame_kind section_ordinal frame_payload frame_payload_bytes].
  destruct (manifest_seen v || _ || _ || _) eqn:Eg.
  { right. split; [|done]. intros [Ha H5]. apply admissible_split in Ha as [Hok _].
    pose proof (proj2 Hg (conj Hok H5)). congruence. }
  destruct (proj1 Hg eq_refl) as [Hok H5]. destruct (Z.eqb_spec (record_kind f.2) LAPLACE_UNICODE_ROOT_FRAME_MANIFEST) as [E5|E5].
  { cbn [negb]. destruct f as [ordinal [| | | |mf]]; try discriminate E5. cbn [fst snd record_at] in *. subst ordinal.
    by apply (manifest_step _ _ _ _ _ _ (drop 32 m) rest). }
  cbn [negb]. pose proof Hv as [He Hst Hf Hs Hpl Hc Hco Hki Hma Hse Hsf].
  assert (Hk4 : (Z.to_nat (record_kind f.2 - 1) < 4)%nat) by (pose proof (record_kind_range f.2); lia).
  rewrite (held_count _ _ _ _ Hs Hk4). unfold outcome, allowed.
  destruct (Z.eqb_spec f.1 (section_size s (Z.to_nat (record_kind f.2 - 1)))) as [Eo|Eo]; cbn [negb].
  2: { right. split; [|done]. intros [Ha _]. apply admissible_split in Ha as (_ & Ha & _). by rewrite Ha in Eo. }
  destruct (kept_record_step e s v f.2 (mk_frame (Some (drop 32 m)) f.1 (left (record_bytes f.2)) (record_kind f.2) 0)
    _ rest Hr Hd Ep E5 eq_refl eq_refl eq_refl He (conj Hpl (conj Hc Hco)))
    as [(Ha & v' & E & Hkept & Hmem)|(Hx & [H1 H2])].
  2: { right. destruct (consume_record realloc v _) as [st v']. cbn [fst] in H1.
       destruct st; try done; (split; [|done]); intros [Ha%admissible_split _]; tauto. }
  rewrite E. left. assert (Had : admissible e s f) by by apply admissible_split.
  split; [by split|]. eexists. split; [reflexivity|].
  destruct Hkept as (K1 & K2 & K3 & K4 & K5 & K6 & K7 & K8 & K9). destruct Hmem as (M1 & M2 & M3).
  rewrite (proj2 (Z.eqb_neq (record_kind f.2) 5)) by done. rewrite orb_false_r. rewrite K4, K5.
  split; [|done]. constructor; try done.
  - exact (eq_trans K1 He).
  - exact (eq_trans K2 Hst).
  - exact (eq_trans K3 Hf).
  - apply sections_grown; [done|done|done| |cbn [frame_payload]; rewrite Ep; by apply cells_app].
    pose proof (size_bound s _ Hk4). lia.
  - symmetry. by apply (kind_grown s f e).
  - unfold manifest_held. destruct Had as [Hnone _]. unfold manifest_held in Hma. rewrite Hnone in Hma.
    assert (s_manifest (grown s f.2) = None) as -> by (destruct f.2; done). exact (eq_trans K6 Hma).
  - exact (eq_trans K7 Hse).
  - intros Hsealed. by specialize (H5 Hsealed).
Qed.

(** ** A batch *)
Lemma represents_totals e s sealed v frames total : represents e s sealed v ->
  represents e s sealed (set_totals v frames total).
Proof. intros []. by constructor. Qed.

Lemma count_small s v : totals_hold s v -> frame_count_of s < UINT64_MAX.
Proof. intros (_ & _ & Ht). pose proof (count_bound s). unfold frame_count_of in *. lia. Qed.

Lemma frame_total_bounds f : frame_wf f -> 32 < frame_total f <= UINT32_MAX.
Proof. intros (_ & Hw & _ & Ht). pose proof (record_nonempty f.2 Hw). unfold frame_total in *. lia. Qed.

(** The totals after a frame. *)
Lemma totals_grown s v v' f : s_manifest s = None -> totals_hold s v -> frame_wf f ->
  validator_frame_count v' = validator_frame_count v -> total_encoded_bytes v' = total_encoded_bytes v ->
  (u64 (UINT64_MAX - validator_frame_count v') <? 1) ||
    (u64 (UINT64_MAX - total_encoded_bytes v') <? frame_total f) =
    (UINT64_MAX <? encoded_total s + frame_total f) /\
  (encoded_total s + frame_total f <= UINT64_MAX ->
   totals_hold (grown s f.2) (set_totals v' (u64 (validator_frame_count v' + 1))
     (u64 (total_encoded_bytes v' + frame_total f)))).
Proof.
  intros Hm Ht Hw -> ->. pose proof (count_small s v Ht) as Hc. destruct Ht as (-> & -> & Ht).
  pose proof (count_bound s). pose proof (frame_total_bounds f Hw).
  assert (0 <= frame_count_of s) by (unfold frame_count_of; lia).
  assert (0 <= encoded_total s) by (unfold encoded_total; lia).
  rewrite !(u64_small (UINT64_MAX - _)) by lia. split; [lia|]. intros Hle. unfold totals_hold.
  cbn [set_totals validator_frame_count total_encoded_bytes].
  rewrite count_grown, encoded_grown, !u64_small by (done || lia). done.
Qed.

Lemma advance_frame f rest : advance (frame_total f) (frame_bytes f ++ rest) = rest.
Proof. rewrite <- left_frame_bytes. unfold advance, left. rewrite Nat2Z.id. apply drop_app_length. Qed.

Lemma front_frame f rest n : left (frame_bytes f) <= n ->
  take (Z.to_nat n) (frame_bytes f ++ rest) =
  frame_bytes f ++ take (Z.to_nat (n - left (frame_bytes f))) rest.
Proof.
  intros Hn. unfold left in *. rewrite take_app. rewrite take_ge by lia. do 2 f_equal. lia.
Qed.

(** What a batch of frames does to a validator. *)
Definition batch (e : laplace_unicode_root_stream_expectation) (s : root_stream) (sealed : bool)
    (count : Z) (bytes : list Z) (fs : list root_frame) : Prop :=
  Z.of_nat (length fs) = count /\ concat (map frame_bytes fs) = bytes /\ all_allowed e s sealed fs.

Definition taken (e : laplace_unicode_root_stream_expectation) (s : root_stream) (sealed : bool)
    (fs : list root_frame) (v : laplace_unicode_root_stream_validator) : Prop :=
  represents e (grown_by s fs) (sealed_by sealed fs) v /\ totals_hold (grown_by s fs) v.

Lemma loop_done fuel i n bytes remaining v : n <= i ->
  consume_loop realloc fuel i n bytes remaining v =
  if remaining =? 0 then (LAPLACE_UNICODE_OK, v)
  else unicode_root_stream_poison v LAPLACE_UNICODE_STREAM_STATE_INVALID.
Proof.
  intros Hge. destruct fuel; cbn [consume_loop]; rewrite (proj2 (Z.ltb_ge _ _)) by done;
    by destruct (remaining =? 0).
Qed.

Lemma loop_sound e n : forall fuel i bytes remaining v s sealed,
  represents e s sealed v -> totals_hold s v -> octets bytes -> 0 <= remaining <= left bytes -> i <= n ->
  let '(st, v') := consume_loop realloc fuel i n bytes remaining v in
  (st = LAPLACE_UNICODE_OK -> exists fs,
     batch e s sealed (n - i) (take (Z.to_nat remaining) bytes) fs /\ taken e s sealed fs v') /\
  (st <> LAPLACE_UNICODE_OK -> status v' = st).
Proof.
  induction fuel as [|fuel IH]; intros i bytes remaining v s sealed Hv Ht Ho Hr Hi;
    (destruct (Z.le_gt_cases n i) as [Hge|Hlt];
     [rewrite loop_done by done; destruct (Z.eqb_spec remaining 0) as [->|]; [|done]; split; [|done]; intros _;
      exists []; split; [by split; [cbn [length]; lia|]|done]|]);
    cbn [consume_loop]; rewrite (proj2 (Z.ltb_lt i n)) by lia; (casec; [done|]); [done|].
  destruct (laplace_unicode_root_frame_open (Some bytes) remaining _ _) as [[st view] c] eqn:E.
  destruct st; try done. apply frame_opener in E as (f & rest & Hw & Em & Hle & -> & ->); [|done|lia].
  pose proof (frame_total_bounds f Hw) as Hft. rewrite left_frame_bytes in *. casec; [done|].
  pose proof (frame_step e s sealed v f bytes rest Hv (proj1 Ht) (count_small s v Ht) Hw Ho Em)
    as [(Ha & v' & -> & Hv' & Hc & Hb)|(_ & H1 & H2)].
  2: { destruct (unicode_root_stream_consume_frame _ _ _) as [st v']. cbn [fst snd] in *. by destruct st. }
  destruct (totals_grown s v v' f (proj1 (proj1 Ha)) Ht Hw Hc Hb) as [-> Hg].
  destruct (Z.ltb_spec UINT64_MAX (encoded_total s + frame_total f)); [done|].
  pose proof (advance_frame f rest) as Hd. rewrite <- Em in Hd. rewrite Hd. specialize (IH (i + 1) rest (remaining - frame_total f) _ _ _ (represents_totals _ _ _ _ _ _ Hv')
    (Hg ltac:(lia))).
  assert (Hor : octets rest) by (rewrite Em in Ho; by apply Forall_app in Ho as [_ ?]).
  assert (Hlr : left rest = left bytes - frame_total f) by (rewrite Em, left_app, left_frame_bytes; lia).
  specialize (IH Hor ltac:(lia) ltac:(lia)). destruct (consume_loop _ _ _ _ _ _ _) as [st v''].
  destruct IH as [IH1 IH2]. split; [|done]. intros Est. destruct (IH1 Est) as (fs & (Hl & Hcc & Hal) & Htk).
  exists (f :: fs). split; [|done]. split; [cbn [length]; lia|]. split; [|done].
  cbn [map concat]. rewrite Hcc, Em, front_frame; by rewrite left_frame_bytes.
Qed.

Lemma loop_complete e n : (forall bytes, realloc bytes = true) ->
  forall fs fuel i bytes remaining v s sealed,
  represents e s sealed v -> totals_hold s v -> octets bytes -> 0 <= remaining <= left bytes ->
  (Z.to_nat remaining < fuel)%nat -> batch e s sealed (n - i) (take (Z.to_nat remaining) bytes) fs ->
  encoded_total s + remaining <= UINT64_MAX ->
  (consume_loop realloc fuel i n bytes remaining v).1 = LAPLACE_UNICODE_OK.
Proof.
  intros Hmem. induction fs as [|f fs IH]; intros fuel i bytes remaining v s sealed Hv Ht Ho Hr Hf (Hl & Hc & Ha) Hb.
  { rewrite loop_done by (cbn [length] in Hl; lia). cbn in Hc. symmetry in Hc. apply (f_equal length) in Hc.
    rewrite length_take in Hc. cbn [length] in Hc. unfold left in *. by rewrite (proj2 (Z.eqb_eq _ _)) by lia. }
  destruct fuel as [|fuel]; [lia|]. cbn [length map concat all_allowed] in *. destruct Ha as (Hw & Ha & Hal).
  pose proof (frame_total_bounds f Hw) as Hft.
  assert (Hlen : left (take (Z.to_nat remaining) bytes) = remaining)
    by (unfold left in *; rewrite length_take; lia).
  rewrite <- Hc, left_app, left_frame_bytes in Hlen.
  pose proof (left_nonneg (concat (map frame_bytes fs))) as Hn.
  set (rest := concat (map frame_bytes fs) ++ drop (Z.to_nat remaining) bytes).
  assert (Em : bytes = frame_bytes f ++ rest)
    by (unfold rest; rewrite app_assoc, Hc; symmetry; apply take_drop).
  cbn [consume_loop]. rewrite (proj2 (Z.ltb_lt i n)), (proj2 (Z.leb_gt remaining 0)) by lia.
  rewrite (frame_open_ok bytes remaining zero_frame_view 0 f rest Ho) by (done || rewrite ?left_frame_bytes; lia).
  rewrite left_frame_bytes. casec; [lia|].
  pose proof (frame_step e s sealed v f bytes rest Hv (proj1 Ht) (count_small s v Ht) Hw Ho Em)
    as [(_ & v' & -> & Hv' & Hcn & Hbn)|(Hx & _)].
  2: { destruct (Hx Ha) as (_ & b & Hfalse). by rewrite Hmem in Hfalse. }
  destruct (totals_grown s v v' f (proj1 (proj1 Ha)) Ht Hw Hcn Hbn) as [-> Hg].
  rewrite (proj2 (Z.ltb_ge _ _)) by lia.
  pose proof (advance_frame f rest) as Hd. rewrite <- Em in Hd. rewrite Hd. eapply IH.
  - by apply represents_totals.
  - apply Hg. lia.
  - rewrite Em in Ho. by apply Forall_app in Ho as [_ ?].
  - rewrite Em, left_app, left_frame_bytes in Hr. lia.
  - lia.
  - split; [lia|]. split; [|done]. unfold rest. rewrite take_app_length'; [done|]. unfold left in *. lia.
  - rewrite encoded_grown by apply Ha. lia.
Qed.

(** ** Properties *)
(** C3: A validator that holds a stream takes a batch exactly when the bytes are
    the canonical bytes of that many frames, each of which may come after the
    one before it - the atoms of all positions in order, each of the expected
    root and with a rank not seen, the positions of the DUCET in order, the
    contractions and the compositions in strictly rising order, and the manifest
    of what was read - and it then holds the stream grown by them.  A batch in
    its place that fits the count of bytes is refused for want of memory alone,
    and any failure poisons the validator with the status returned. *)
Theorem consume_exact e s sealed v bytes byte_count frame_count first :
  represents e s sealed v -> totals_hold s v -> octets bytes -> 0 < byte_count <= left bytes ->
  0 < frame_count ->
  let '(st, v') := laplace_unicode_root_stream_validator_consume realloc (Some v) (Some bytes)
    byte_count frame_count first in
  let said fs := first = frame_count_of s /\
    batch e s sealed frame_count (take (Z.to_nat byte_count) bytes) fs in
  (st = LAPLACE_UNICODE_OK -> exists fs v'', said fs /\ v' = Some v'' /\ taken e s sealed fs v'') /\
  (forall fs, said fs -> encoded_total s + byte_count <= UINT64_MAX ->
     (forall bytes, realloc bytes = true) -> st = LAPLACE_UNICODE_OK) /\
  (st <> LAPLACE_UNICODE_OK -> exists v'', v' = Some v'' /\ status v'' = st).
Proof.
  intros Hv Ht Ho Hb Hn. unfold laplace_unicode_root_stream_validator_consume.
  casec; [lia|]. rewrite (held_status _ _ _ _ Hv), (held_finished _ _ _ _ Hv), (proj1 Ht).
  rewrite bool_decide_eq_true_2 by done. cbn [negb orb].
  destruct (Z.eqb_spec first (frame_count_of s)) as [Ef|Ef]; cbn [negb].
  2: { split; [done|]. split; [by intros fs [? _]|]. eauto. }
  pose proof (loop_sound e frame_count (S (Z.to_nat byte_count)) 0 bytes byte_count v s sealed Hv Ht Ho
    ltac:(lia) ltac:(lia)) as Hs.
  pose proof (fun Hm fs => loop_complete e frame_count Hm fs (S (Z.to_nat byte_count)) 0 bytes byte_count v s
    sealed Hv Ht Ho ltac:(lia) ltac:(lia)) as Hc. rewrite Z.sub_0_r in *.
  destruct (consume_loop _ _ _ _ _ _ _) as [st v']. destruct Hs as [Hs1 Hs2]. split; [|split].
  - intros Est. destruct (Hs1 Est) as (fs & Hba & Htk). eauto 10.
  - intros fs [_ Hba] Htot Hm. by apply (Hc Hm fs).
  - eauto.
Qed.
End Memory.

(** ** Complete streams *)
(** What the frames of a stream have made of it. *)
Record lawful (e : laplace_unicode_root_stream_expectation) (s : root_stream) : Prop := {
  lawful_atoms : map atom_position (s_atoms s) = seqZ 0 (section_size s 0);
  lawful_positions : map codepoint_position (s_positions s) = seqZ 0 (section_size s 1);
  lawful_ranks : NoDup (ranks s);
  lawful_root : Forall (fun a => atom_wf a /\ atom_belongs e a) (s_atoms s);
  lawful_contractions : Sorted (fun a b => before (contraction_sequence a) (contraction_sequence b))
    (s_contractions s);
  lawful_compositions : Sorted (fun a b => before (composition_values a) (composition_values b))
    (s_compositions s);
  lawful_manifest : forall m, s_manifest s = Some m -> full s /\ manifest_wf m /\ manifest_binds e
    (mk_root_stream (s_atoms s) (s_positions s) (s_contractions s) (s_compositions s) None) m }.

Lemma empty_lawful e : lawful e empty_stream.
Proof. constructor; try done; constructor. Qed.

Lemma sorted_snoc {A} (key : A -> list Z) l a :
  Sorted (fun a b => before (key a) (key b)) l -> follows key l a ->
  Sorted (fun a b => before (key a) (key b)) (l ++ [a]).
Proof.
  unfold follows. induction l as [|x l IH]; intros Hs Hf; [by repeat constructor|].
  apply Sorted_inv in Hs as [Hs Hx]. destruct l as [|y l]; cbn [app].
  - by repeat constructor.
  - constructor; [apply IH; [done|]|].
    + by rewrite last_cons_cons in Hf.
    + constructor. by apply HdRel_inv in Hx.
Qed.

Lemma seqZ_snoc n : 0 <= n -> seqZ 0 (n + 1) = seqZ 0 n ++ [n].
Proof. intros Hn. rewrite seqZ_app by lia. done. Qed.

Lemma lawful_grown e s f : frame_wf f -> admissible e s f -> lawful e s -> lawful e (grown s f.2).
Proof.
  intros (Ho & Hw & Hat & _) [Hm Had] [L1 L2 L3 L4 L5 L6 L7].
  assert (Hsz : forall k, 0 <= section_size s k) by (intros; unfold section_size; lia).
  destruct f as [ordinal r]. cbn [fst snd] in *.
  assert (Hsize : forall k, (k < 4)%nat -> section_size (grown s r) k =
    section_size s k + (if Z.of_nat k + 1 =? record_kind r then 1 else 0)) by (intros; by apply size_grown).
  destruct r as [a|r|r|r|m]; constructor; rewrite ?Hsize by lia;
    cbn [grown s_atoms s_positions s_contractions s_compositions s_manifest record_kind Z.of_nat Z.add Z.eqb
         Pos.eqb Pos.of_succ_nat Pos.succ Pos.add]; rewrite ?Z.add_0_r; try done; try congruence.
  - destruct Had as (_ & _ & _ & -> & _). cbn [Z.of_nat Z.add Z.eqb Pos.eqb].
    rewrite map_app, L1, seqZ_snoc by done. cbn [map]. by rewrite <- Hat.
  - destruct Had as (_ & _ & _ & _ & _ & Hnin). unfold ranks in *. cbn [s_atoms]. rewrite map_app.
    apply NoDup_app. split; [done|]. split; [|apply NoDup_singleton].
    intros x Hx [= ->]%list_elem_of_singleton. done.
  - apply Forall_app. split; [done|]. constructor; [|done]. split; [done|]. by apply Had.
  - destruct Had as (_ & _ & _ & ->). change (Z.of_nat 1 + 1 =? 2) with true. cbn [record_at] in Hat.
    rewrite map_app, L2, seqZ_snoc by done. cbn [map]. by rewrite <- Hat.
  - apply sorted_snoc; [done|]. by apply Had.
  - apply sorted_snoc; [done|]. by apply Had.
  - intros m0 [= <-]. destruct Had as [Hfull Hb]. split; [done|]. split; [done|].
    destruct s as [? ? ? ? manifest]. cbn [s_manifest] in Hm. by subst manifest.
Qed.

Lemma all_lawful e fs : forall s sealed, all_allowed e s sealed fs -> lawful e s -> lawful e (grown_by s fs).
Proof.
  induction fs as [|f fs IH]; intros s sealed Ha Hs; [done|]. cbn [all_allowed] in Ha.
  destruct Ha as (Hw & [Ha _] & Hfs). unfold grown_by in *. cbn [foldl].
  apply (IH _ _ Hfs). by apply lawful_grown.
Qed.

(** The tables that the placement functions hash, from the atoms in order. *)
Lemma rank_entries atoms : forall p, map atom_position atoms = seqZ p (Z.of_nat (length atoms)) ->
  concat (map rank_entry atoms) = rank_table p (map placement_rank atoms).
Proof.
  induction atoms as [|a atoms IH]; intros p Hp; [done|]. cbn [length map concat rank_table] in *.
  rewrite seqZ_cons in Hp by lia. injection Hp as Ha Hp. rewrite (IH (p + 1)).
  - unfold rank_entry. rewrite Ha. by rewrite <- app_assoc.
  - rewrite Hp. f_equal; lia.
Qed.

Lemma coordinate_entries coordinates atoms : forall p,
  map atom_position atoms = seqZ p (Z.of_nat (length atoms)) ->
  Forall (fun a => coordinates !!! Z.to_nat (placement_rank a) = coordinate a) atoms ->
  concat (map coordinate_entry atoms) = coordinate_table p (map placement_rank atoms) coordinates.
Proof.
  induction atoms as [|a atoms IH]; intros p Hp Hc; [done|]. cbn [length map concat coordinate_table] in *.
  rewrite seqZ_cons in Hp by lia. injection Hp as Ha Hp. apply Forall_cons in Hc as [Hc Hcs].
  rewrite (IH (p + 1)), Hc; [|rewrite Hp; f_equal; lia|done].
  unfold coordinate_entry. rewrite Ha. by rewrite <- !app_assoc.
Qed.

Lemma lawful_ranks_below e s : lawful e s -> Forall (fun r => 0 <= r < LAPLACE_UNICODE_ROOT_POPULATION) (ranks s).
Proof.
  intros [_ _ _ Hr _ _ _]. unfold ranks. apply Forall_map. eapply Forall_impl; [exact Hr|].
  intros a [(_ & (_ & Hp & _) & _) _]. exact Hp.
Qed.

Lemma size_length s : section_size s 0 = Z.of_nat (length (s_atoms s)).
Proof. unfold section_size. cbn [section]. by rewrite length_map. Qed.

Lemma full_ranks e s : lawful e s -> full s -> ranks s ≡ₚ seqZ 0 LAPLACE_UNICODE_ROOT_POPULATION.
Proof.
  intros Hl [H0 _]. pose proof (lawful_ranks_below e s Hl) as Hb. rewrite size_length in H0.
  assert (Hlen : length (ranks s) = length (s_atoms s)) by (unfold ranks; by rewrite length_map).
  rewrite <- H0 in *. rewrite <- Hlen in *. apply ranks_permutation; [done| |].
  - eapply Forall_impl; [exact Hb|]. cbn. lia.
  - split; [|apply Hl]. eapply Forall_impl; [exact Hb|]. cbn. lia.
Qed.

Lemma rank_digest_exact e s : lawful e s -> rank_digest (s_atoms s) = permutation_digest (ranks s).
Proof.
  intros Hl. unfold rank_digest, permutation_digest, ranks. pose proof (lawful_atoms e s Hl) as Ha.
  rewrite size_length in Ha. by rewrite (rank_entries _ 0 Ha).
Qed.

Lemma table_digest_exact e s coordinates : lawful e s ->
  Forall (fun a => coordinates !!! Z.to_nat (placement_rank a) = coordinate a) (s_atoms s) ->
  table_digest (s_atoms s) = coordinate_digest (ranks s) coordinates.
Proof.
  intros Hl Hc. unfold table_digest, coordinate_digest, ranks. pose proof (lawful_atoms e s Hl) as Ha.
  rewrite size_length in Ha. by rewrite (coordinate_entries coordinates _ 0 Ha Hc).
Qed.

(** C4: A stream read to its manifest is a whole root: its atoms are those of
    every position of the code space in order, each valid and of the expected
    root, their ranks a permutation of it, the positions of the DUCET the same
    positions, its contractions and compositions in strictly rising order; its
    manifest counts them, and its fingerprint of the ranks, of the table of
    coordinates and of the geometry are those that the placement functions give
    for the atoms read. *)
Theorem complete_stream e fs m coordinates : all_allowed e empty_stream false fs ->
  let s := grown_by empty_stream fs in
  s_manifest s = Some m ->
  Forall (fun a => coordinates !!! Z.to_nat (placement_rank a) = coordinate a) (s_atoms s) ->
  map atom_position (s_atoms s) = seqZ 0 LAPLACE_UNICODE_ROOT_POPULATION /\
  map codepoint_position (s_positions s) = seqZ 0 LAPLACE_UNICODE_ROOT_POPULATION /\
  Forall (fun a => atom_wf a /\ atom_belongs e a) (s_atoms s) /\
  Sorted (fun a b => before (contraction_sequence a) (contraction_sequence b)) (s_contractions s) /\
  Sorted (fun a b => before (composition_values a) (composition_values b)) (s_compositions s) /\
  total_frame_count m = frame_count_of s /\
  laplace_unicode_placement_rank_permutation_identify (Some (ranks s)) LAPLACE_UNICODE_ROOT_POPULATION
    (Some (zeros 32)) true = (LAPLACE_UNICODE_OK, Some (placement_rank_permutation_fingerprint m)) /\
  coordinate_digest (ranks s) coordinates = coordinate_table_fingerprint m /\
  laplace_unicode_geometry_epoch_identify (Some (physicality_recipe_fingerprint m))
    (Some (placement_rank_permutation_fingerprint m)) (Some (coordinate_table_fingerprint m))
    (Some (zeros 32)) = (LAPLACE_UNICODE_OK, Some (geometry_epoch m)) /\
  Forall (fun a => atom_geometry_epoch a = geometry_epoch m) (s_atoms s).
Proof.
  intros Ha s Hm Hc. pose proof (all_lawful e fs _ _ Ha (empty_lawful e)) as Hl. fold s in Hl.
  destruct (lawful_manifest e s Hl m Hm) as (Hfull & Hw & Hb). pose proof (full_ranks e s Hl Hfull) as Hp.
  pose proof (lawful_ranks_below e s Hl) as Hbelow. destruct Hfull as [H0 H1].
  destruct Hb as (_ & _ & _ & _ & Ht & _ & _ & _ & _ & _ & _ & _ & Ere & Epe & _ & Eta & _ & Eep & Exp & _).
  cbn [s_atoms] in *. rewrite (rank_digest_exact e s Hl) in *. rewrite (table_digest_exact e s coordinates Hl Hc) in *.
  rewrite <- H0 at 1. rewrite <- H1 at 1. split; [apply Hl|]. split; [apply Hl|]. split; [apply Hl|].
  split; [apply Hl|]. split; [apply Hl|]. split.
  { rewrite Ht. unfold frame_count_of, records. rewrite Hm.
    cbn [section s_atoms s_positions s_contractions s_compositions s_manifest]. rewrite !length_app. cbn [length]. lia. }
  split.
  { rewrite permutation_identify_eq.
    - by rewrite decide_True, Epe.
    - unfold ranks. by rewrite length_map, <- size_length.
    - eapply Forall_impl; [exact Hbelow|]. cbn. lia. }
  split; [done|]. split; [by rewrite geometry_epoch_eq, Ere, Epe, Eta, Eep|].
  pose proof (lawful_root e s Hl) as Hr. eapply Forall_impl; [exact Hr|].
  intros a [_ (_ & _ & _ & -> & _)]. by rewrite Eep, Exp.
Qed.

(** ** The summary *)
Definition section_digests (s : root_stream) : list laplace_digest256 :=
  map (section_digest s) [0; 1; 2; 3]%nat.
Definition receipt_of (s : root_stream) (m : laplace_unicode_root_manifest) : laplace_digest256 :=
  blake3 (unicode_root_validation_domain ++ manifest_bytes m ++ store_le 8 (encoded_total s) ++
          concat (section_digests s)).
Definition summary_of (s : root_stream) (m : laplace_unicode_root_manifest)
    : laplace_unicode_root_stream_summary := {|
  summary_receipt_id := receipt_of s m;
  summary_manifest := m;
  summary_section_fingerprints := section_digests s;
  summary_section_counts := map (section_size s) [0; 1; 2; 3]%nat;
  summary_frame_count := frame_count_of s;
  summary_encoded_bytes := encoded_total s;
  summary_status := LAPLACE_UNICODE_OK |}.

Lemma fingerprints_list s v : sections_hold s (section_hashers v) (section_counts v) ->
  unicode_root_calculate_section_fingerprints v = section_digests s.
Proof.
  intros Hs. pose proof (fun k => fingerprints_exact s v k Hs) as H. destruct Hs as (Hl & _ & Hc).
  unfold unicode_root_calculate_section_fingerprints in *. rewrite Hc in *.
  destruct (section_hashers v) as [|h0 [|h1 [|h2 [|h3 [|]]]]]; try discriminate Hl.
  unfold section_digests. cbn [map zip_with] in *.
  by rewrite <- (H 0%nat), <- (H 1%nat), <- (H 2%nat), <- (H 3%nat) by lia.
Qed.

Lemma receipt_exact s m : blake3_hasher_finalize
    (receipt_hasher (manifest_bytes m) (encoded_total s) (section_digests s)) = receipt_of s m.
Proof.
  unfold receipt_hasher, receipt_of, section_digests. apply absorbs_finalize.
  cbn [map foldl concat]. rewrite app_nil_r, !app_assoc. absorb.
Qed.

Lemma manifest_encoded m : manifest_wf m ->
  laplace_unicode_root_manifest_encode (Some m) (Some (zeros 512)) =
  (LAPLACE_UNICODE_OK, Some (manifest_bytes m)).
Proof.
  intros Hw. pose proof Hw as (_ & _ & Ha & Hp & Hc & Hn & Ht & _ & Hf).
  destruct (manifest_encode_exact m (zeros 512)) as [H _]; try done; [rewrite Ha; done|rewrite Hp; done|].
  rewrite (H Hw). change (drop 512 (zeros 512)) with (@nil Z). by rewrite app_nil_r.
Qed.

Lemma lawful_total e s m : lawful e s -> s_manifest s = Some m -> total_frame_count m = frame_count_of s.
Proof.
  intros Hl Hm. destruct (lawful_manifest e s Hl m Hm) as (_ & _ & (_ & _ & _ & _ & -> & _)).
  unfold frame_count_of, records. rewrite Hm.
  cbn [section s_atoms s_positions s_contractions s_compositions s_manifest].
  rewrite !length_app. cbn [length]. lia.
Qed.

(** C32: A validator that holds a stream issues a summary exactly when the
    manifest has been read; the summary repeats it with the digests, the counts
    and the bytes of the sections read, under a receipt that is the digest of
    all of them, and the validator then is finished with that summary.  Before
    the manifest it issues none and is poisoned. *)
Theorem finish_exact e s sealed v old : represents e s sealed v -> totals_hold s v -> lawful e s ->
  laplace_unicode_root_stream_validator_finish (Some v) (Some old) =
  match s_manifest s with
  | Some m => (LAPLACE_UNICODE_OK, Some (set_finished v (summary_of s m)), Some (summary_of s m))
  | None =>
      (LAPLACE_UNICODE_STREAM_INCOMPLETE, Some (set_status v LAPLACE_UNICODE_STREAM_INCOMPLETE), Some old)
  end.
Proof.
  intros [He Hst Hf Hs Hpl Hc Hco Hki Hma Hse Hsf] (Hn & Hb & _) Hl.
  unfold laplace_unicode_root_stream_validator_finish. rewrite Hst, Hf, Hn, Hb.
  rewrite bool_decide_eq_true_2 by done. cbn [negb]. unfold manifest_held in Hma.
  destruct (s_manifest s) as [m|] eqn:Em; [|by rewrite Hma]. destruct Hma as [-> ->].
  destruct (lawful_manifest e s Hl m Em) as (_ & Hw & _). rewrite (lawful_total e s m Hl Em), Z.eqb_refl.
  cbn [negb orb]. rewrite manifest_encoded by done. cbv zeta. rewrite (fingerprints_list s v Hs).
  cbn [summary_section_fingerprints summary_manifest summary_section_counts summary_frame_count
       summary_encoded_bytes summary_status].
  rewrite receipt_exact. destruct Hs as (_ & _ & ->). done.
Qed.

(** ** Failure *)
(** The calls of a validator: the status returned and the validator after. *)
Inductive call (v : laplace_unicode_root_stream_validator)
    : laplace_unicode_status -> laplace_unicode_root_stream_validator -> Prop :=
| call_consume realloc bytes byte_count frame_count first st v' :
    laplace_unicode_root_stream_validator_consume realloc (Some v) bytes byte_count frame_count first =
      (st, Some v') -> call v st v'
| call_seal snapshot st v' out :
    laplace_unicode_root_stream_validator_seal_sections (Some v) snapshot = (st, Some v', out) ->
    call v st v'
| call_finish summary st v' out :
    laplace_unicode_root_stream_validator_finish (Some v) summary = (st, Some v', out) ->
    call v st v'.
Definition called (v v' : laplace_unicode_root_stream_validator) : Prop := exists st, call v st v'.

Lemma failed_call v st v' : status v <> LAPLACE_UNICODE_OK -> finished v = false -> call v st v' ->
  st <> LAPLACE_UNICODE_OK /\ status v' <> LAPLACE_UNICODE_OK /\ v' = set_status v (status v').
Proof.
  intros Hst Hf [realloc bytes n frames first st' v'' E|snapshot st' v'' out E|summary st' v'' out E].
  - unfold laplace_unicode_root_stream_validator_consume in E.
    destruct bytes as [bytes|]; [|injection E as <- <-; split; [done|]; split; [done|by destruct v]].
    casec_in E; [injection E as <- <-; split; [done|]; split; [done|by destruct v]|].
    rewrite bool_decide_eq_false_2 in E by done. by injection E as <- <-.
  - unfold laplace_unicode_root_stream_validator_seal_sections in E.
    rewrite bool_decide_eq_false_2 in E by done.
    destruct snapshot; injection E as <- <- <-; (split; [done|]; split; [done|by destruct v]).
  - unfold laplace_unicode_root_stream_validator_finish in E.
    rewrite bool_decide_eq_false_2, Hf in E by done.
    destruct summary; injection E as <- <- <-; (split; [done|]; split; [done|by destruct v]).
Qed.

(** A failure is final: whatever is called on a validator that has failed, no
    call succeeds, its status never is OK again and nothing but the status
    changes. *)
Theorem poisoned_for_good v v' : status v <> LAPLACE_UNICODE_OK -> finished v = false -> rtc called v v' ->
  status v' <> LAPLACE_UNICODE_OK /\ v' = set_status v (status v') /\
  forall st v'', call v' st v'' -> st <> LAPLACE_UNICODE_OK.
Proof.
  intros Hst Hf Hr.
  assert (H : status v' <> LAPLACE_UNICODE_OK /\ v' = set_status v (status v')).
  { revert v' Hr. apply (rtc_ind_r (fun v' => status v' <> LAPLACE_UNICODE_OK /\ v' = set_status v (status v'))).
    - split; [done|by destruct v].
    - intros w w' _ [st Hc] [Hw E]. apply failed_call in Hc as (_ & Hw' & E'); [|done|by rewrite E].
      split; [done|]. rewrite E in E'. exact E'. }
  destruct H as [Hw E]. split; [done|]. split; [done|]. intros st v'' Hc.
  eapply failed_call; [exact Hw|by rewrite E|exact Hc].
Qed.

(** ** From nothing *)
Lemma empty_sections : sections_hold empty_stream (map unicode_root_section_hasher_initialize [1; 2; 3; 4]) [0; 0; 0; 0].
Proof.
  split; [done|]. split; [|done]. intros k h Hk.
  assert (Hin : absorbs (unicode_root_section_hasher_initialize (Z.of_nat k + 1))
    (section_transcript (Z.of_nat k + 1) (section empty_stream k))).
  { unfold unicode_root_section_hasher_initialize, section_transcript.
    replace (section empty_stream k) with (@nil root_record) by by destruct k as [|[|[|]]].
    cbn [imap concat]. rewrite app_nil_r. absorb. }
  destruct k as [|[|[|[|]]]]; simplify_eq/=; exact Hin.
Qed.

Lemma created e : expected_physicality_recipe_version e = 1 -> expected_flags e = 0 -> expected_reserved e = 0 ->
  exists v, laplace_unicode_root_stream_validator_create (Some e) (Some None) true =
    (LAPLACE_UNICODE_OK, Some (Some v)) /\ represents e empty_stream false v /\ totals_hold empty_stream v.
Proof.
  intros Hv Hf Hr. unfold laplace_unicode_root_stream_validator_create,
    unicode_root_physicality_recipe_version_valid. rewrite Hv, Hf, Hr. cbn [negb orb Z.eqb Pos.eqb].
  eexists. split; [exact eq_refl|]. split; [|by split; [|split]].
  constructor; [exact eq_refl|exact eq_refl|exact eq_refl|apply empty_sections| | |exact eq_refl..|intros Hs; discriminate Hs].
  - split; [|split; [|apply empty_observes]]; cbn [placement_rank_permutation_hasher coordinate_table_hasher
      empty_stream s_atoms map concat]; rewrite app_nil_r;
      unfold unicode_root_placement_rank_hasher_initialize, unicode_root_coordinate_hasher_initialize; absorb.
  - split; [exact eq_refl|intros Hs; discriminate Hs].
Qed.

(** A stream whose frames fit the totals can be held. *)
Lemma held_by_frames e fs : forall s sealed v, represents e s sealed v -> totals_hold s v ->
  all_allowed e s sealed fs -> Forall (fun f => octets (frame_bytes f)) fs ->
  encoded_total s + UINT32_MAX * Z.of_nat (length fs) <= UINT64_MAX ->
  exists v', represents e (grown_by s fs) (sealed_by sealed fs) v' /\ totals_hold (grown_by s fs) v'.
Proof.
  induction fs as [|f fs IH]; intros s sealed v Hv Ht Ha Ho Hb; [by exists v|].
  cbn [all_allowed] in Ha. destruct Ha as (Hw & Ha & Hfs). apply Forall_cons in Ho as [Ho Hos].
  unfold grown_by, sealed_by in *. cbn [foldl] in *.
  pose proof (frame_step (fun _ => true) e s sealed v f (frame_bytes f) [] Hv (proj1 Ht) (count_small s v Ht) Hw Ho
    (eq_sym (app_nil_r _))) as [(_ & v' & _ & Hv' & Hc & Hbb)|(Hx & _)].
  2: { destruct (Hx Ha) as (_ & _ & Hfalse). done. }
  destruct (totals_grown s v v' f (proj1 (proj1 Ha)) Ht Hw Hc Hbb) as [_ Hg].
  cbn [length] in Hb. pose proof (frame_total_bounds f Hw) as Hft. 
  eapply IH; [apply represents_totals, Hv'|apply Hg; lia| | |].
  - done.
  - done.
  - rewrite encoded_grown by apply Ha. lia.
Qed.
End Laws.

(** ** Samples: a whole root *)
Section Samples.
Context {B : Blake3} {L : Blake3Laws B}.

(** The atom of a position at the centre, in the opposite order of ranks. *)
Definition rooted_atom (epoch : laplace_digest256) (p : Z) : laplace_unicode_atom_record :=
  let witness := blake3 (Identity.position_bytes p) in
  let centre := mk_point [0; 0; 0; 0] in
  mk_atom p (LAPLACE_UNICODE_ROOT_POPULATION - 1 - p)
    (if (0xd800 <=? p) && (p <=? 0xdfff) then 4 else 0)
    (Z.of_nat (length (Identity.position_bytes p))) (overwrite (zeros 4) (Identity.position_bytes p))
    (take 16 witness) witness centre (zeros 16) epoch
    (atomic_point_identity (take 16 witness) LAPLACE_UNICODE_ATOMIC_PHYSICALITY_RECIPE_VERSION
       (zeros 32) epoch centre) sample_fields.
Definition plain_position (p : Z) : laplace_unicode_ducet_position_record :=
  mk_ducet_position (Some [mk_element 1 1 1 0 0]) (Some [1]) p 1 1 1 [0; 0; 0].

Definition rooted_atoms (epoch : laplace_digest256) (n : Z) : list laplace_unicode_atom_record :=
  map (rooted_atom epoch) (seqZ 0 n).
Definition plain_positions (n : Z) : list laplace_unicode_ducet_position_record :=
  map plain_position (seqZ 0 n).

Definition rooted (epoch : laplace_digest256) (permutation table : laplace_digest256)
    : laplace_unicode_root_stream_expectation :=
  mk_expectation (zeros 32) (zeros 32) (zeros 32) (zeros 32) (zeros 32) (zeros 32) (zeros 32)
    permutation table epoch LAPLACE_UNICODE_ATOMIC_PHYSICALITY_RECIPE_VERSION 0 0.

Lemma position_octets p : octets (Identity.position_bytes p).
Proof. unfold Identity.position_bytes. repeat casec; repeat constructor; apply u8_range. Qed.

Lemma sample_fields_good : forall i, (i < LAPLACE_UNICODE_ATOM_FIELD_COUNT)%nat ->
  field_good i (sample_fields !!! i).
Proof.
  pose proof (proj1 (fixed_record_exact (B := checksum_blake3) sample_atom sample_atom_typed) sample_atom_valid)
    as (_ & _ & _ & _ & _ & _ & _ & _ & _ & H). exact H.
Qed.

Lemma rooted_atom_wf epoch p : position p -> bytes 32 epoch -> atom_wf (rooted_atom epoch p).
Proof.
  intros Hp He. pose proof (length_position_bytes p) as Hl. pose proof (position_octets p) as Ho.
  pose proof (blake3_bytes (Identity.position_bytes p)) as [Hb1 Hb2].
  assert (Hc : bytes 16 (take 16 (blake3 (Identity.position_bytes p))))
    by (split; [rewrite length_take; lia|by apply Forall_take]).
  unfold position in Hp. split; [|split].
  - unfold atom_typed, rooted_atom. cbn [atom_position placement_rank position_class lup_v1_length lup_v1_bytes
      content_id identity_preimage_fingerprint coordinate hilbert_key atom_geometry_epoch atom_physicality_id fields].
    split; [lia|]. split; [lia|]. split; [by destruct (_ && _)|]. split; [lia|]. split.
    { split; [unfold overwrite; rewrite length_app, length_drop; cbn [zeros]; unfold zeros; rewrite length_replicate; lia|].
      apply Forall_app. split; [done|]. apply Forall_drop, zeros_octets. }
    split; [done|]. split; [done|]. split; [check|]. split; [apply bytes_zeros|]. split; [done|].
    split; [unfold atomic_point_identity, identity_of; apply blake3_bytes|]. split; [reflexivity|apply sample_fields_wf].
  - unfold atom_valid, rooted_atom, position. cbn [atom_position placement_rank position_class lup_v1_length
      lup_v1_bytes content_id identity_preimage_fingerprint coordinate fields]. cbv zeta.
    split; [lia|]. split; [lia|]. split; [by destruct (_ && _)|]. split.
    { destruct (Z.leb_spec 0xd800 p), (Z.leb_spec p 0xdfff); cbn; lia. }
    do 4 (split; [done|]). split; [vm_compute; reflexivity|apply sample_fields_good].
  - change (atom_total sample_atom <= UINT32_MAX). rewrite sample_atom_total. lia.
Qed.

Lemma plain_position_wf p : position p -> ducet_wf (plain_position p).
Proof.
  unfold ducet_wf, plain_position. intros Hp.
  cbn [codepoint_position provenance reserved element_count elements equivalence_key_bytes equivalence_key].
  split; [done|]. split; [lia|]. split; [done|]. split; [lia|]. split; [by split; [|repeat constructor]|].
  split; [lia|]. split; [by split; [|repeat constructor]|]. by vm_compute.
Qed.

Lemma all_allowed_app e fs gs : forall s sealed, all_allowed e s sealed (fs ++ gs) <->
  all_allowed e s sealed fs /\ all_allowed e (grown_by s fs) (sealed_by sealed fs) gs.
Proof.
  induction fs as [|f fs IH]; intros s sealed; [cbn; tauto|]. cbn [app all_allowed]. rewrite IH.
  unfold grown_by, sealed_by. cbn [foldl]. tauto.
Qed.
Lemma grown_by_app s fs gs : grown_by s (fs ++ gs) = grown_by (grown_by s fs) gs.
Proof. apply foldl_app. Qed.
Lemma sealed_by_app b fs gs : sealed_by b (fs ++ gs) = sealed_by (sealed_by b fs) gs.
Proof. apply foldl_app. Qed.

Lemma section_of_map {A} (f : Z -> A) n : 0 <= n -> Z.of_nat (length (map f (seqZ 0 n))) = n.
Proof. intros Hn. rewrite length_map, length_seqZ. lia. Qed.

Definition atom_frames (epoch : laplace_digest256) (n : Z) : list root_frame :=
  map (fun p => (p, record_atom (rooted_atom epoch p))) (seqZ 0 n).
Definition position_frames (n : Z) : list root_frame :=
  map (fun p => (p, record_position (plain_position p))) (seqZ 0 n).

Lemma atom_frames_allowed epoch permutation table (n : nat) : bytes 32 epoch ->
  Z.of_nat n <= LAPLACE_UNICODE_ROOT_POPULATION ->
  let e := rooted epoch permutation table in
  let fs := atom_frames epoch (Z.of_nat n) in
  all_allowed e empty_stream false fs /\ sealed_by false fs = false /\
  grown_by empty_stream fs = mk_root_stream (rooted_atoms epoch (Z.of_nat n)) [] [] [] None.
Proof.
  intros He. induction n as [|n IH]; intros Hn; [done|]. cbv zeta in *.
  destruct IH as (IH1 & IH2 & IH3); [lia|]. replace (Z.of_nat (S n)) with (Z.of_nat n + 1) by lia.
  unfold atom_frames, rooted_atoms in *. rewrite seqZ_snoc, !map_app by lia. cbn [map].
  rewrite all_allowed_app, grown_by_app, sealed_by_app, IH2, IH3. split; [|done]. split; [done|].
  cbn [all_allowed]. split; [|split; [|done]].
  - split; [cbn [fst]; lia|]. split; [apply rooted_atom_wf; [unfold position; lia|done]|]. split; [done|].
    unfold frame_total. cbn [snd record_bytes].
    rewrite left_atom_bytes by (apply rooted_atom_wf; [unfold position; lia|done]).
    change (32 + atom_total sample_atom <= UINT32_MAX). rewrite sample_atom_total. lia.
  - split; [|done]. split; [done|]. cbn [snd fst]. do 3 (split; [done|]). split; [|split].
    + rewrite size_length. cbn [s_atoms]. by rewrite section_of_map by lia.
    + by repeat split.
    + unfold ranks. cbn [s_atoms]. rewrite map_map. cbn [rooted_atom placement_rank].
      intros (q & Eq & Hq%elem_of_seqZ)%list_elem_of_fmap. lia.
Qed.

Lemma position_frames_allowed e atoms (n : nat) :
  Z.of_nat (length atoms) = LAPLACE_UNICODE_ROOT_POPULATION ->
  Z.of_nat n <= LAPLACE_UNICODE_ROOT_POPULATION ->
  let s := mk_root_stream atoms [] [] [] None in
  let fs := position_frames (Z.of_nat n) in
  all_allowed e s false fs /\ sealed_by false fs = false /\
  grown_by s fs = mk_root_stream atoms (plain_positions (Z.of_nat n)) [] [] None.
Proof.
  intros He. induction n as [|n IH]; intros Hn; [done|]. cbv zeta in *.
  destruct IH as (IH1 & IH2 & IH3); [lia|]. replace (Z.of_nat (S n)) with (Z.of_nat n + 1) by lia.
  unfold position_frames, plain_positions in *. rewrite seqZ_snoc, !map_app by lia. cbn [map].
  rewrite all_allowed_app, grown_by_app, sealed_by_app, IH2, IH3. split; [|done]. split; [done|].
  cbn [all_allowed]. split; [|split; [|done]].
  - split; [cbn [fst]; lia|]. split; [apply plain_position_wf; unfold position; lia|]. split; [done|].
    unfold frame_total. cbn [snd record_bytes].
    rewrite left_ducet_bytes by (apply plain_position_wf; unfold position; lia). done.
  - split; [|done]. split; [done|]. cbn [snd fst]. do 2 (split; [done|]). split.
    + rewrite size_length. done.
    + unfold section_size. cbn [section s_positions]. rewrite map_map. by rewrite section_of_map by lia.
Qed.

Lemma rank_digest_rooted e1 e2 n : rank_digest (rooted_atoms e1 n) = rank_digest (rooted_atoms e2 n).
Proof. unfold rank_digest, rooted_atoms. by rewrite !map_map. Qed.
Lemma table_digest_rooted e1 e2 n : table_digest (rooted_atoms e1 n) = table_digest (rooted_atoms e2 n).
Proof. unfold table_digest, rooted_atoms. by rewrite !map_map. Qed.

Lemma rooted_length epoch n : 0 <= n -> Z.of_nat (length (rooted_atoms epoch n)) = n.
Proof. apply section_of_map. Qed.

(** The whole root: its expectation, its sections, its manifest, its frames. *)
Definition root_permutation : laplace_digest256 :=
  rank_digest (rooted_atoms (zeros 32) LAPLACE_UNICODE_ROOT_POPULATION).
Definition root_table : laplace_digest256 :=
  table_digest (rooted_atoms (zeros 32) LAPLACE_UNICODE_ROOT_POPULATION).
Lemma root_permutation_at epoch :
  rank_digest (rooted_atoms epoch LAPLACE_UNICODE_ROOT_POPULATION) = root_permutation.
Proof. exact (rank_digest_rooted epoch (zeros 32) LAPLACE_UNICODE_ROOT_POPULATION). Qed.
Lemma root_table_at epoch :
  table_digest (rooted_atoms epoch LAPLACE_UNICODE_ROOT_POPULATION) = root_table.
Proof. exact (table_digest_rooted epoch (zeros 32) LAPLACE_UNICODE_ROOT_POPULATION). Qed.

Definition root_epoch : laplace_digest256 := epoch_digest (zeros 32) root_permutation root_table.
Definition root_expectation : laplace_unicode_root_stream_expectation :=
  rooted root_epoch root_permutation root_table.

Definition manifest_of (e : laplace_unicode_root_stream_expectation) (s : root_stream)
    : laplace_unicode_root_manifest :=
  mk_manifest (section_size s 0) (section_size s 1) (section_size s 2) (section_size s 3)
    (frame_count_of s + 1) (zeros 32) (zeros 32) (zeros 32) (zeros 32)
    (section_digest s 0) (section_digest s 1) (section_digest s 2) (section_digest s 3)
    (zeros 32) (zeros 32) (zeros 32) (expected_placement_rank_permutation_fingerprint e)
    (expected_coordinate_table_fingerprint e) (expected_geometry_epoch e)
    LAPLACE_UNICODE_ATOMIC_PHYSICALITY_RECIPE_VERSION 0.

Definition root_sections (n : Z) : root_stream :=
  mk_root_stream (rooted_atoms root_epoch n) (plain_positions n) [] [] None.
Definition root_manifest (n : Z) : laplace_unicode_root_manifest :=
  manifest_of root_expectation (root_sections n).
Definition root_frames (n : Z) : list root_frame :=
  atom_frames root_epoch n ++ position_frames n ++ [(0, record_manifest (root_manifest n))].
Definition whole_root (n : Z) : root_stream :=
  mk_root_stream (rooted_atoms root_epoch n) (plain_positions n) [] [] (Some (root_manifest n)).

Lemma root_sizes n : 0 <= n -> section_size (root_sections n) 0 = n /\ section_size (root_sections n) 1 = n /\
  section_size (root_sections n) 2 = 0 /\ section_size (root_sections n) 3 = 0 /\
  frame_count_of (root_sections n) = 2 * n.
Proof.
  intros Hn. unfold section_size, frame_count_of, records, root_sections, rooted_atoms, plain_positions.
  cbn [section s_atoms s_positions s_contractions s_compositions s_manifest map length app Z.of_nat].
  rewrite !length_app, !length_map, !length_seqZ. cbn [length]. lia.
Qed.

Lemma root_binds n : rank_digest (rooted_atoms root_epoch n) = root_permutation ->
  table_digest (rooted_atoms root_epoch n) = root_table ->
  manifest_binds root_expectation (root_sections n) (root_manifest n).
Proof.
  intros Hr Ht. unfold manifest_binds. change (s_atoms (root_sections n)) with (rooted_atoms root_epoch n).
  rewrite Hr, Ht. cbv zeta. repeat (split; [exact eq_refl|]). exact eq_refl.
Qed.

Lemma root_manifest_wf n : 0 <= n -> n = LAPLACE_UNICODE_ROOT_POPULATION ->
  manifest_wf (root_manifest n).
Proof.
  intros Hn En. destruct (root_sizes n Hn) as (E0 & E1 & E2 & E3 & Ec). unfold manifest_wf, root_manifest, manifest_of.
  rewrite E0, E1, E2, E3, Ec.
  cbn [physicality_recipe_version manifest_reserved atom_count ducet_position_count ducet_contraction_count
    normalization_composition_count total_frame_count].
  repeat (split; [lia|]). unfold fingerprints. cbn [source_fingerprint recipe_fingerprint numeric_provider_receipt
    stream_contract_fingerprint atom_section_fingerprint ducet_position_section_fingerprint
    ducet_contraction_section_fingerprint normalization_composition_section_fingerprint
    algorithmic_hangul_rule_fingerprint atom_record_contract_fingerprint physicality_recipe_fingerprint
    placement_rank_permutation_fingerprint coordinate_table_fingerprint geometry_epoch root_expectation rooted
    expected_placement_rank_permutation_fingerprint expected_coordinate_table_fingerprint expected_geometry_epoch].
  unfold root_permutation, root_table, root_epoch, rank_digest, table_digest, epoch_digest, section_digest.
  repeat (constructor; [first [apply bytes_zeros | apply blake3_bytes]|]). constructor.
Qed.

Lemma sections_then e fs gs f s1 s2 :
  all_allowed e empty_stream false fs /\ sealed_by false fs = false /\ grown_by empty_stream fs = s1 ->
  all_allowed e s1 false gs /\ sealed_by false gs = false /\ grown_by s1 gs = s2 ->
  frame_wf f -> admissible e s2 f ->
  all_allowed e empty_stream false (fs ++ gs ++ [f]) /\
  grown_by empty_stream (fs ++ gs ++ [f]) = grown s2 f.2 /\
  sealed_by false (fs ++ gs ++ [f]) = (record_kind f.2 =? 5).
Proof.
  intros (A1 & A2 & A3) (P1 & P2 & P3) Hw Ha.
  rewrite !all_allowed_app, !grown_by_app, !sealed_by_app, A2, A3, P2, P3.
  split; [|done]. split; [exact A1|]. split; [exact P1|]. split; [exact Hw|]. by split; [split|].
Qed.

Lemma atoms_first n : 0 <= n <= LAPLACE_UNICODE_ROOT_POPULATION ->
  let fs := atom_frames root_epoch n in
  all_allowed root_expectation empty_stream false fs /\ sealed_by false fs = false /\
  grown_by empty_stream fs = mk_root_stream (rooted_atoms root_epoch n) [] [] [] None.
Proof.
  intros Hn. pose proof (atom_frames_allowed root_epoch root_permutation root_table (Z.to_nat n) (blake3_bytes _)) as H.
  rewrite Z2Nat.id in H by lia. apply H. lia.
Qed.

Lemma positions_next n : 0 <= n -> n = LAPLACE_UNICODE_ROOT_POPULATION ->
  let s := mk_root_stream (rooted_atoms root_epoch n) [] [] [] None in
  let fs := position_frames n in
  all_allowed root_expectation s false fs /\ sealed_by false fs = false /\
  grown_by s fs = root_sections n.
Proof.
  intros H0 En. pose proof (position_frames_allowed root_expectation (rooted_atoms root_epoch n) (Z.to_nat n)) as H.
  rewrite Z2Nat.id in H by lia. apply H; [by rewrite rooted_length|lia].
Qed.

Lemma manifest_last n : 0 <= n -> n = LAPLACE_UNICODE_ROOT_POPULATION ->
  rank_digest (rooted_atoms root_epoch n) = root_permutation ->
  table_digest (rooted_atoms root_epoch n) = root_table ->
  let f := (0, record_manifest (root_manifest n)) in
  frame_wf f /\ admissible root_expectation (root_sections n) f.
Proof.
  intros H0 En Hr Ht. pose proof (root_manifest_wf n H0 En) as Hw. destruct (root_sizes n H0) as (S0 & S1 & _).
  split.
  - split; [done|]. split; [exact Hw|]. split; [done|]. unfold frame_total. cbn [snd record_bytes].
    by rewrite left_manifest_bytes.
  - split; [done|]. cbn [snd]. split; [exact (conj (eq_trans S0 En) (eq_trans S1 En))|exact (root_binds n Hr Ht)].
Qed.

Lemma population_least : 0 <= LAPLACE_UNICODE_ROOT_POPULATION <= LAPLACE_UNICODE_ROOT_POPULATION.
Proof. lia. Qed.

Lemma root_allowed_at n : 0 <= n -> n = LAPLACE_UNICODE_ROOT_POPULATION ->
  rank_digest (rooted_atoms root_epoch n) = root_permutation ->
  table_digest (rooted_atoms root_epoch n) = root_table ->
  all_allowed root_expectation empty_stream false (root_frames n) /\
  grown_by empty_stream (root_frames n) = whole_root n /\ sealed_by false (root_frames n) = true.
Proof.
  intros H0 En Hr Ht. destruct (manifest_last n H0 En Hr Ht) as [Hw Ha].
  exact (sections_then _ _ _ _ _ _ (atoms_first n (conj H0 (Z.eq_le_incl _ _ En))) (positions_next n H0 En) Hw Ha).
Qed.

Lemma root_allowed : let n := LAPLACE_UNICODE_ROOT_POPULATION in
  all_allowed root_expectation empty_stream false (root_frames n) /\
  grown_by empty_stream (root_frames n) = whole_root n /\ sealed_by false (root_frames n) = true.
Proof. exact (root_allowed_at _ (proj1 population_least) eq_refl (root_permutation_at _) (root_table_at _)). Qed.

Lemma frame_octets f : octets (record_bytes f.2) -> octets (frame_bytes f).
Proof.
  intros Hr. unfold frame_bytes. apply Forall_app. split; [|done]. unfold layout. apply Forall_concat.
  cbn [frame_pieces map piece_bytes].
  repeat (constructor; [first [apply octets_store | apply zeros_octets | check]|]). constructor.
Qed.

Lemma root_frame_octets n m : 0 <= n <= LAPLACE_UNICODE_ROOT_POPULATION -> manifest_wf m ->
  Forall (fun f => octets (frame_bytes f))
    (atom_frames root_epoch n ++ position_frames n ++ [(0, record_manifest m)]).
Proof.
  intros Hn (Hv & Hz & _ & _ & _ & _ & _ & _ & Hf). rewrite !Forall_app. unfold atom_frames, position_frames.
  rewrite !Forall_map. split; [|split].
  - apply Forall_forall. intros p Hp%elem_of_seqZ. apply frame_octets. cbn [snd record_bytes].
    apply atom_octets, rooted_atom_wf; [unfold position; lia|apply blake3_bytes].
  - apply Forall_forall. intros p Hp%elem_of_seqZ. apply frame_octets. cbn [snd record_bytes].
    unfold ducet_bytes, layout. apply Forall_app. split; [|check]. apply Forall_concat.
    cbn [ducet_pieces map piece_bytes].
    repeat (constructor; [first [apply octets_store | apply zeros_octets | check]|]). constructor.
  - constructor; [|constructor]. apply frame_octets. cbn [snd record_bytes]. unfold manifest_bytes, layout.
    rewrite !map_app, map_map, map_id, !concat_app, !Forall_app. cbn [map manifest_pieces piece_bytes].
    split; [|split; [|check]].
    + apply Forall_concat. repeat (constructor; [first [apply octets_store | check]|]). constructor.
    + apply Forall_concat. eapply Forall_impl; [exact Hf|]. by intros d [_ ?].
Qed.

Lemma root_frames_length n m : 0 <= n ->
  Z.of_nat (length (atom_frames root_epoch n ++ position_frames n ++ [(0, record_manifest m)])) = 2 * n + 1.
Proof.
  intros Hn. rewrite !length_app. unfold atom_frames, position_frames. rewrite !length_map, !length_seqZ.
  cbn [length]. lia.
Qed.

Lemma rooted_centred epoch n : 0 <= n <= LAPLACE_UNICODE_ROOT_POPULATION ->
  Forall (fun a => centred LAPLACE_UNICODE_ROOT_POPULATION !!! Z.to_nat (placement_rank a) = coordinate a)
    (rooted_atoms epoch n).
Proof.
  intros Hn. unfold rooted_atoms. rewrite Forall_map. apply Forall_forall. intros p Hp%elem_of_seqZ.
  cbn [rooted_atom placement_rank coordinate]. apply list_lookup_total_correct.
  unfold centred. apply lookup_replicate_2. lia.
Qed.

Lemma root_held_at n : 0 <= n <= LAPLACE_UNICODE_ROOT_POPULATION -> manifest_wf (root_manifest n) ->
  all_allowed root_expectation empty_stream false (root_frames n) ->
  grown_by empty_stream (root_frames n) = whole_root n -> sealed_by false (root_frames n) = true ->
  exists v, represents root_expectation (whole_root n) true v /\ totals_hold (whole_root n) v.
Proof.
  intros Hn Hw Ha <- <-. destruct (created root_expectation eq_refl eq_refl eq_refl) as (v & _ & Hv & Ht).
  apply (held_by_frames _ _ _ _ v Hv Ht Ha).
  - by apply root_frame_octets.
  - unfold root_frames. rewrite root_frames_length by lia. change (encoded_total empty_stream) with 0. lia.
Qed.

Lemma root_held : let n := LAPLACE_UNICODE_ROOT_POPULATION in
  exists v, represents root_expectation (whole_root n) true v /\ totals_hold (whole_root n) v.
Proof.
  destruct root_allowed as (Ha & Hg & Hs).
  exact (root_held_at _ population_least (root_manifest_wf _ (proj1 population_least) eq_refl) Ha Hg Hs).
Qed.
End Samples.

(** A batch of two atoms. *)
Definition batch_expectation : laplace_unicode_root_stream_expectation :=
  rooted (zeros 32) (zeros 32) (zeros 32).
Definition two_atoms : list Z :=
  concat (map frame_bytes (atom_frames (B := checksum_blake3) (zeros 32) 2)).

Lemma batch_octets : octets two_atoms.
Proof. check. Qed.
Lemma batch_size : 0 < left two_atoms <= left two_atoms.
Proof. vm_compute. split; [done|]. discriminate. Qed.
Lemma batch_fits : encoded_total empty_stream + left two_atoms <= UINT64_MAX.
Proof. vm_compute. discriminate. Qed.
Lemma batch_frames : batch (B := checksum_blake3) batch_expectation empty_stream false 2
  (take (Z.to_nat (left two_atoms)) two_atoms) (atom_frames (B := checksum_blake3) (zeros 32) 2).
Proof.
  split; [done|]. split; [unfold left; by rewrite Nat2Z.id, firstn_all|].
  by apply (atom_frames_allowed (B := checksum_blake3) (L := checksum_blake3_laws) (zeros 32) _ _ 2 (bytes_zeros 32)).
Qed.

Lemma consume_exact_witness : exists v v' fs,
  represents (B := checksum_blake3) batch_expectation empty_stream false v /\
  laplace_unicode_root_stream_validator_consume (B := checksum_blake3) (fun _ => true) (Some v)
    (Some two_atoms) (left two_atoms) 2 0 = (LAPLACE_UNICODE_OK, Some v') /\
  taken (B := checksum_blake3) batch_expectation empty_stream false fs v'.
Proof.
  destruct (created (B := checksum_blake3) batch_expectation eq_refl eq_refl eq_refl)
    as (v & _ & Hv & Ht).
  pose proof (consume_exact (B := checksum_blake3) (L := checksum_blake3_laws) (fun _ => true) _ _ _ v two_atoms
    (left two_atoms) 2 0 Hv Ht batch_octets batch_size eq_refl) as H.
  destruct (laplace_unicode_root_stream_validator_consume _ _ _ _ _ _) as [st v'] eqn:E.
  destruct H as (H1 & H2 & _).
  pose proof (H2 _ (conj eq_refl batch_frames) batch_fits (fun _ => eq_refl)) as Hst.
  destruct (H1 Hst) as (fs & v'' & _ & Ev & Htk). exists v, v'', fs.
  split; [exact Hv|]. split; [rewrite <- Hst, <- Ev; exact E|exact Htk].
Defined.

Definition whole : root_stream := whole_root (B := checksum_blake3) LAPLACE_UNICODE_ROOT_POPULATION.

Lemma whole_manifest (n : Z) : s_manifest (whole_root (B := checksum_blake3) n) =
  Some (root_manifest (B := checksum_blake3) n).
Proof. reflexivity. Qed.

Lemma complete_stream_witness : map atom_position (s_atoms whole) = seqZ 0 LAPLACE_UNICODE_ROOT_POPULATION.
Proof.
  destruct (root_allowed (B := checksum_blake3) (L := checksum_blake3_laws)) as (Ha & Eg & _).
  pose proof (complete_stream (B := checksum_blake3) (L := checksum_blake3_laws) _ _
    (root_manifest (B := checksum_blake3) LAPLACE_UNICODE_ROOT_POPULATION)
    (centred LAPLACE_UNICODE_ROOT_POPULATION) Ha) as H.
  cbv zeta in H. rewrite Eg in H.
  destruct (H (whole_manifest _) (rooted_centred (B := checksum_blake3) _ _ population_least)) as (Hp & _).
  exact Hp.
Defined.

Lemma whole_lawful : lawful (B := checksum_blake3) (root_expectation (B := checksum_blake3)) whole.
Proof.
  destruct (root_allowed (B := checksum_blake3) (L := checksum_blake3_laws)) as (Ha & Eg & _).
  unfold whole. rewrite <- Eg.
  exact (all_lawful (B := checksum_blake3) _ _ _ _ Ha (empty_lawful _)).
Qed.

Lemma finish_exact_witness : exists v v' summary,
  laplace_unicode_root_stream_validator_finish (B := checksum_blake3) (Some v) (Some zero_summary) =
    (LAPLACE_UNICODE_OK, Some v', Some summary).
Proof.
  destruct (root_held (B := checksum_blake3) (L := checksum_blake3_laws)) as (v & Hv & Ht).
  pose proof (finish_exact (B := checksum_blake3) (L := checksum_blake3_laws) _ _ _ v zero_summary Hv Ht whole_lawful)
    as H.
  rewrite whole_manifest in H. eexists v, _, _. exact H.
Defined.

(** A validator finished too early. *)
Definition early (v : laplace_unicode_root_stream_validator (B := checksum_blake3))
    : laplace_unicode_root_stream_validator (B := checksum_blake3) :=
  set_status v LAPLACE_UNICODE_STREAM_INCOMPLETE.

Lemma poisoned_for_good_witness : exists v v' : laplace_unicode_root_stream_validator (B := checksum_blake3),
  called (early v) v' /\ status v' <> LAPLACE_UNICODE_OK.
Proof.
  destruct (created (B := checksum_blake3) batch_expectation eq_refl eq_refl eq_refl)
    as (v & _ & Hv & _).
  assert (Hf : finished (early v) = false) by exact (held_finished _ _ _ _ Hv).
  assert (Hs : status (early v) <> LAPLACE_UNICODE_OK) by discriminate.
  assert (Hc : called (early v) (early v)).
  { exists LAPLACE_UNICODE_INVALID_ARGUMENT.
    exact (call_finish (early v) None LAPLACE_UNICODE_INVALID_ARGUMENT (early v) None eq_refl). }
  exists v, (early v). split; [exact Hc|].
  exact (proj1 (poisoned_for_good (B := checksum_blake3) (early v) (early v) Hs Hf (rtc_once _ _ Hc))).
Defined.
