(* ===== verification/StandingNumeric.v ===== *)
(** * The arithmetic of a rating period

    Models the numeric half of [engine/src/standing_calculation.c]: the
    Glicko-2 weight, expectation and volatility function over binary64, and
    [solve_volatility], the search for the next volatility by the Illinois
    variant of regula falsi.  [exp] and [log] are functions of the C library,
    which the repository does not hold; they are the parameter [Libm], and no
    theorem assumes anything of them.

    Both loops of the search carry their own limit (100 bracket steps, 100
    iterations), which the code tests before each round; they run with one
    unit of fuel more than the limit, and [bracket_loop_fuel] and
    [illinois_loop_fuel] show that further fuel changes nothing. *)
From stdpp Require Import prelude.
From Stdlib Require Import ZArith Lia.
From S2P Require Import Prelude Binary64.

(** ** Contract constants ([contracts/standing-calculation.json]) *)
(** [0x1.77p+10], that is 1500; [0x1.5b6f837b4a234p+7]; [0x1.921fb54442d18p+1]. *)
Abbreviation LAPLACE_STANDING_SCALE_CENTER := 0x4097700000000000 (only parsing).
Abbreviation LAPLACE_STANDING_SCALE_DIVISOR := 0x4065b6f837b4a234 (only parsing).
Abbreviation LAPLACE_STANDING_PI := 0x400921fb54442d18 (only parsing).
Abbreviation LAPLACE_STANDING_MAX_BRACKET_STEPS := 100 (only parsing).
Abbreviation LAPLACE_STANDING_MAX_ITERATIONS := 100 (only parsing).

(** The literals [0.0], [1.0], [2.0] and [3.0] of the code. *)
Abbreviation zero := 0x0000000000000000 (only parsing).
Abbreviation one := 0x3ff0000000000000 (only parsing).
Abbreviation two := 0x4000000000000000 (only parsing).
Abbreviation three := 0x4008000000000000 (only parsing).

(** The notation of C for the operations on doubles. *)
Declare Scope double_scope.
Delimit Scope double_scope with double.
#[local] Infix "+" := double_add : double_scope.
#[local] Infix "-" := double_subtract : double_scope.
#[local] Infix "*" := double_multiply : double_scope.
#[local] Infix "/" := double_divide : double_scope.
#[local] Notation "- x" := (double_opposite x) : double_scope.

(** ** Data *)
Inductive laplace_standing_status :=
| LAPLACE_STANDING_OK
| LAPLACE_STANDING_INVALID_ARGUMENT
| LAPLACE_STANDING_COORDINATE_INVALID
| LAPLACE_STANDING_STATE_INVALID
| LAPLACE_STANDING_STATE_IDENTITY_MISMATCH
| LAPLACE_STANDING_EVENT_INVALID
| LAPLACE_STANDING_EVENT_IDENTITY_MISMATCH
| LAPLACE_STANDING_ARENA_MISMATCH
| LAPLACE_STANDING_PRIOR_MISMATCH
| LAPLACE_STANDING_DEPENDENCE_ROOT_DUPLICATE
| LAPLACE_STANDING_EVENT_DUPLICATE
| LAPLACE_STANDING_OUTCOME_NOT_RATEABLE
| LAPLACE_STANDING_NUMERIC_INVALID
| LAPLACE_STANDING_CONVERGENCE_FAILED
| LAPLACE_STANDING_RESOURCE_INSUFFICIENT
| LAPLACE_STANDING_OVERFLOW
| LAPLACE_STANDING_RECIPE_INVALID
| LAPLACE_STANDING_RECIPE_IDENTITY_MISMATCH
| LAPLACE_STANDING_OUTCOME_MAPPING_MISMATCH.

#[export] Instance standing_status_eq_dec : EqDecision laplace_standing_status.
Proof. solve_decision. Defined.

(** The functions of [<math.h>] that are not IEEE operations. *)
Class Libm := {
  exp : double -> double;
  log : double -> double }.

(** The local variables of the loop of [solve_volatility]. *)
Record search := mk_search {
  left_end : double;
  right_end : double;
  f_left : double;
  f_right : double;
  iterations : Z }.

Section Numeric.
Context {M : Libm}.
#[local] Open Scope double_scope.

(** ** Weight and expectation *)
Definition g_function (phi : double) : double :=
  let pi_squared := LAPLACE_STANDING_PI * LAPLACE_STANDING_PI in
  one / double_sqrt (one + (three * phi * phi / pi_squared)).

Definition expectation (mu opponent_mu opponent_phi : double) : double :=
  let exponent := - g_function opponent_phi * (mu - opponent_mu) in
  if double_le zero exponent then
    let value := exp (- exponent) in
    value / (one + value)
  else one / (one + exp exponent).

Definition volatility_function
    (value delta_squared phi_squared variance a tau_squared : double) : double :=
  let exponential := exp value in
  let denominator := phi_squared + variance + exponential in
  exponential * (delta_squared - phi_squared - variance - exponential) /
    (two * denominator * denominator) -
  (value - a) / tau_squared.

(** ** The search *)
(** [do { step += 1; ... } while (f(right) < 0.0);] from the value of [step]
    before the body; [None] where the code returns the convergence failure. *)
Fixpoint bracket_loop (fuel : nat) (step : Z) (f : double -> double) (a tau : double)
    : option double :=
  match fuel with
  | O => None
  | S fuel =>
      let step := (step + 1)%Z in
      return_when LAPLACE_STANDING_MAX_BRACKET_STEPS <? step with None ;;
      let right := a - double_of_u64 step * tau in
      if double_lt (f right) zero then bracket_loop fuel step f a tau else Some right
  end.

Definition initial_right (f : double -> double)
    (delta_squared phi_squared variance a tau : double) : option double :=
  if double_lt (phi_squared + variance) delta_squared
  then Some (log (delta_squared - phi_squared - variance))
  else bracket_loop 101 0 f a tau.

(** [fabs(right - left) > epsilon] *)
Definition search_open (epsilon : double) (s : search) : bool :=
  double_lt epsilon (double_fabs (right_end s - left_end s)).

(** The body of the [while] loop: the next variables, or the failure. *)
Definition search_step (f : double -> double) (s : search)
    : search + laplace_standing_status :=
  let divisor := f_right s - f_left s in
  return_when (LAPLACE_STANDING_MAX_ITERATIONS <=? iterations s) || double_eq divisor zero ||
              negb (isfinite divisor)
    with inr LAPLACE_STANDING_CONVERGENCE_FAILED ;;
  let candidate := left_end s + (left_end s - right_end s) * f_left s / divisor in
  let f_candidate := f candidate in
  return_when negb (isfinite candidate) || negb (isfinite f_candidate)
    with inr LAPLACE_STANDING_NUMERIC_INVALID ;;
  let (new_left, new_f_left) :=
    if double_le (f_candidate * f_right s) zero
    then (right_end s, f_right s) else (left_end s, f_left s / two) in
  inl (mk_search new_left candidate new_f_left f_candidate (u32 (iterations s + 1))).

(** The loop: the variables at its end, with the failure if it returned. *)
Fixpoint illinois_loop (fuel : nat) (f : double -> double) (epsilon : double) (s : search)
    : search * laplace_standing_status :=
  match fuel with
  | O => (s, LAPLACE_STANDING_CONVERGENCE_FAILED)
  | S fuel =>
      if search_open epsilon s then
        match search_step f s with
        | inl s' => illinois_loop fuel f epsilon s'
        | inr failed => (s, failed)
        end
      else (s, LAPLACE_STANDING_OK)
  end.

(** The status with [*result] and [*iterations] after the call. *)
Definition solve_volatility (phi volatility variance delta tau epsilon result : double)
    (iteration_count : Z) : laplace_standing_status * double * Z :=
  let a := log (volatility * volatility) in
  let delta_squared := delta * delta in
  let phi_squared := phi * phi in
  let tau_squared := tau * tau in
  let f value := volatility_function value delta_squared phi_squared variance a tau_squared in
  match initial_right f delta_squared phi_squared variance a tau with
  | None => (LAPLACE_STANDING_CONVERGENCE_FAILED, result, iteration_count)
  | Some start =>
      let '(s, status) := illinois_loop 101 f epsilon (mk_search a start (f a) (f start) 0) in
      match status with
      | LAPLACE_STANDING_OK =>
          let result := exp (left_end s / two) in
          (if isfinite result && double_lt zero result then LAPLACE_STANDING_OK
           else LAPLACE_STANDING_NUMERIC_INVALID, result, iterations s)
      | failed => (failed, result, iterations s)
      end
  end.
End Numeric.

(** Nothing below computes with the operations. *)
#[local] Opaque double_add double_subtract double_multiply double_divide double_opposite
  double_sqrt double_fabs double_of_u64 double_eq double_lt double_le isfinite.

(** ** Bracketing *)
Section Search.
Variable f : double -> double.
Variables a tau : double.

(** The [k]-th point tried below [a]. *)
Definition trial (k : Z) : double :=
  double_subtract a (double_multiply (double_of_u64 k) tau).
Definition below (k : Z) : Prop := double_lt (f (trial k)) zero = true.

Lemma bracket_loop_some fuel r : forall step, 0 <= step ->
  bracket_loop fuel step f a tau = Some r ->
  exists k, step < k <= LAPLACE_STANDING_MAX_BRACKET_STEPS /\ r = trial k /\ ~ below k /\
    forall j, step < j < k -> below j.
Proof.
  induction fuel as [|fuel IH]; intros step Hs; cbn [bracket_loop]; [done|].
  casec; [done|]. casec.
  - intros (k & Hk & Hr & Hno & Hall)%IH; [|lia]. exists k. split; [lia|].
    split; [done|]. split; [done|]. intros j Hj.
    destruct (decide (j = step + 1)) as [->|]; [done|]. apply Hall. lia.
  - intros [= <-]. exists (step + 1). split; [lia|]. split; [done|].
    split; [|intros; lia]. unfold below, trial. congruence.
Qed.

Lemma bracket_loop_none fuel : forall step, 0 <= step ->
  LAPLACE_STANDING_MAX_BRACKET_STEPS - step < Z.of_nat fuel ->
  bracket_loop fuel step f a tau = None ->
  forall j, step < j <= LAPLACE_STANDING_MAX_BRACKET_STEPS -> below j.
Proof.
  induction fuel as [|fuel IH]; intros step Hs Hf; cbn [bracket_loop]; [intros; lia|].
  casec; [intros; lia|]. casec; [|done]. intros Hn j Hj.
  destruct (decide (j = step + 1)) as [->|]; [done|]. apply (IH (step + 1)); [lia..|done|lia].
Qed.

(** Fuel beyond the limit of the code changes nothing. *)
Lemma bracket_loop_fuel fuel : forall step more, 0 <= step ->
  LAPLACE_STANDING_MAX_BRACKET_STEPS - step < Z.of_nat fuel ->
  bracket_loop (fuel + more) step f a tau = bracket_loop fuel step f a tau.
Proof.
  induction fuel as [|fuel IH]; intros step more Hs Hf.
  - destruct more; [done|]. cbn [bracket_loop Nat.add].
    by rewrite (proj2 (Z.ltb_lt _ _)) by lia.
  - cbn [bracket_loop Nat.add]. casec; [done|]. casec; [|done]. apply IH; lia.
Qed.

(** ** The iteration *)
Variable epsilon : double.

(** [n] rounds of the loop lead from one setting of the variables to another. *)
Inductive rounds : nat -> search -> search -> Prop :=
| rounds_none s : rounds 0 s s
| rounds_more n s s' t :
    search_open epsilon s = true -> search_step f s = inl s' -> rounds n s' t ->
    rounds (S n) s t.

(** The loop is over in [s]: it has converged, or the body returns. *)
Definition stops (s : search) (status : laplace_standing_status) : Prop :=
  if search_open epsilon s then search_step f s = inr status
  else status = LAPLACE_STANDING_OK.

Definition halved (k : nat) (v : double) : double :=
  Nat.iter k (fun v => double_divide v two) v.

(** The loop keeps the ordinates of its two ends: that of the right end is
    exact, that of a left end kept for [k] rounds is halved [k] times. *)
Definition ordinates (s : search) : Prop :=
  f_right s = f (right_end s) /\ exists k, f_left s = halved k (f (left_end s)).

Lemma search_step_ordinates s s' :
  ordinates s -> search_step f s = inl s' -> ordinates s'.
Proof.
  intros [Hr [k Hl]]. unfold search_step. casec; [done|]. casec; [done|].
  destruct (double_le _ zero); intros [= <-]; (split; [done|]); cbn [f_left left_end].
  - by exists 0%nat.
  - exists (S k). by rewrite Hl.
Qed.

Lemma search_step_iterations s s' :
  0 <= iterations s -> search_step f s = inl s' ->
  iterations s < LAPLACE_STANDING_MAX_ITERATIONS /\ iterations s' = iterations s + 1.
Proof.
  intros Hs. unfold search_step. casec; [done|]. casec; [done|].
  destruct (double_le _ zero); intros [= <-]; cbn [iterations];
    (split; [lia|]); apply u32_small; lia.
Qed.

Lemma search_step_failure s status :
  search_step f s = inr status ->
  status = LAPLACE_STANDING_CONVERGENCE_FAILED \/ status = LAPLACE_STANDING_NUMERIC_INVALID.
Proof.
  unfold search_step. casec; [intros [= <-]; auto|]. casec; [intros [= <-]; auto|].
  by destruct (double_le _ zero).
Qed.

Lemma rounds_facts n s t :
  rounds n s t -> 0 <= iterations s <= LAPLACE_STANDING_MAX_ITERATIONS ->
  iterations t = iterations s + Z.of_nat n /\
  iterations t <= LAPLACE_STANDING_MAX_ITERATIONS /\ (ordinates s -> ordinates t).
Proof.
  induction 1 as [s|n s s' t Ho Hs Hr IH]; intros Hi; [split_and!; [lia..|done]|].
  destruct (search_step_iterations s s') as [Hlt He]; [lia|done|].
  destruct IH as (He' & Hle & Ho'); [lia|]. split; [lia|]. split; [done|].
  intros. eauto using search_step_ordinates.
Qed.

(** The rounds up to a stop are determined by the start. *)
Lemma rounds_deterministic n s t status : rounds n s t -> stops t status ->
  forall m t' status', rounds m s t' -> stops t' status' ->
  n = m /\ t = t' /\ status = status'.
Proof.
  induction 1 as [s|n s s' t Ho Hs Hr IH]; intros Hst m t' status' Hm Hst'.
  - inversion Hm as [|? ? ? ? Ho' Hs']; subst.
    + unfold stops in *. destruct (search_open epsilon t'); split_and!; congruence.
    + unfold stops in Hst. rewrite Ho' in Hst. congruence.
  - inversion Hm as [|m' ? s'' ? Ho' Hs' Hr']; subst.
    + unfold stops in Hst'. rewrite Ho in Hst'. congruence.
    + rewrite Hs in Hs'. injection Hs' as <-.
      destruct (IH Hst _ _ _ Hr' Hst') as (-> & -> & ->). split; [|split]; reflexivity.
Qed.

Lemma illinois_loop_spec fuel : forall s,
  0 <= iterations s <= LAPLACE_STANDING_MAX_ITERATIONS ->
  LAPLACE_STANDING_MAX_ITERATIONS - iterations s < Z.of_nat fuel ->
  let '(t, status) := illinois_loop fuel f epsilon s in
  exists n, rounds n s t /\ stops t status.
Proof.
  induction fuel as [|fuel IH]; intros s Hi Hf; cbn [illinois_loop]; [lia|].
  destruct (search_open epsilon s) eqn:Ho.
  2:{ exists 0%nat. split; [constructor|]. unfold stops. by rewrite Ho. }
  destruct (search_step f s) as [s'|failed] eqn:Hs.
  2:{ exists 0%nat. split; [constructor|]. unfold stops. by rewrite Ho. }
  destruct (search_step_iterations s s') as [Hlt He]; [lia|done|].
  specialize (IH s'). destruct (illinois_loop fuel f epsilon s') as [t status].
  destruct IH as (n & Hr & Hst); [lia..|]. exists (S n). split; [|done].
  by apply (rounds_more n s s').
Qed.

Lemma illinois_loop_fuel s more :
  0 <= iterations s <= LAPLACE_STANDING_MAX_ITERATIONS ->
  illinois_loop (101 + more) f epsilon s = illinois_loop 101 f epsilon s.
Proof.
  intros Hi.
  pose proof (illinois_loop_spec (101 + more) s Hi) as H1.
  pose proof (illinois_loop_spec 101 s Hi) as H2.
  destruct (illinois_loop (101 + more) f epsilon s), (illinois_loop 101 f epsilon s).
  destruct H1 as (n & Hn & Hst); [lia|]. destruct H2 as (m & Hm & Hst'); [lia|].
  destruct (rounds_deterministic _ _ _ _ Hn Hst _ _ _ Hm Hst') as (_ & -> & ->). done.
Qed.
End Search.

(** ** What the search promises *)
Section Settlement.
Context {M : Libm}.
Variables phi volatility variance delta tau epsilon : double.

#[local] Abbreviation delta_squared := (double_multiply delta delta).
#[local] Abbreviation phi_squared := (double_multiply phi phi).
#[local] Abbreviation floor := (double_add phi_squared variance).

(** The logarithm of the variance, where the search starts. *)
Definition origin : double := log (double_multiply volatility volatility).

(** The function whose root is sought. *)
Definition objective (value : double) : double :=
  volatility_function value delta_squared phi_squared variance origin
    (double_multiply tau tau).

(** The other end of the first bracket: the logarithm of the surprise where
    there is one, and otherwise the first point [k] steps of [tau] below the
    origin, [1 <= k <= 100], at which the objective is not negative. *)
Definition bracketed (start : double) : Prop :=
  if double_lt floor delta_squared
  then start = log (double_subtract (double_subtract delta_squared phi_squared) variance)
  else exists k, 1 <= k <= LAPLACE_STANDING_MAX_BRACKET_STEPS /\ start = trial origin tau k /\
       ~ below objective origin tau k /\ forall j, 1 <= j < k -> below objective origin tau j.

Definition unbracketed : Prop :=
  double_lt floor delta_squared = false /\
  forall j, 1 <= j <= LAPLACE_STANDING_MAX_BRACKET_STEPS -> below objective origin tau j.

Definition opening (start : double) : search :=
  mk_search origin start (objective origin) (objective start) 0.

Definition volatility_of (s : search) : double := exp (double_divide (left_end s) two).
Definition usable (value : double) : bool := isfinite value && double_lt zero value.

(** The outcome of the search, by cases. *)
Inductive settles (result : double) (count : Z) : laplace_standing_status * double * Z -> Prop :=
| settles_unbracketed :
    unbracketed ->
    settles result count (LAPLACE_STANDING_CONVERGENCE_FAILED, result, count)
| settles_stopped start n t status :
    bracketed start -> rounds objective epsilon n (opening start) t ->
    stops objective epsilon t status -> status <> LAPLACE_STANDING_OK ->
    settles result count (status, result, Z.of_nat n)
| settles_converged start n t :
    bracketed start -> rounds objective epsilon n (opening start) t ->
    search_open epsilon t = false ->
    settles result count
      (if usable (volatility_of t) then LAPLACE_STANDING_OK
       else LAPLACE_STANDING_NUMERIC_INVALID, volatility_of t, Z.of_nat n).

Lemma initial_right_spec :
  match initial_right objective delta_squared phi_squared variance origin tau with
  | Some start => bracketed start
  | None => unbracketed
  end.
Proof.
  unfold initial_right, bracketed, unbracketed.
  destruct (double_lt floor delta_squared); [done|].
  destruct (bracket_loop 101 0 objective origin tau) as [start|] eqn:E.
  - apply bracket_loop_some in E as (k & Hk & Hr & Hno & Hall); [|lia].
    exists k. split; [lia|]. split; [done|]. split; [done|]. intros. apply Hall. lia.
  - split; [done|]. intros j Hj. eapply (bracket_loop_none _ _ _ 101 0); [lia..|exact E|lia].
Qed.

Lemma solve_volatility_settles result count :
  settles result count (solve_volatility phi volatility variance delta tau epsilon result count).
Proof.
  unfold solve_volatility. pose proof initial_right_spec as Hb.
  fold origin. change (fun value => volatility_function value _ _ _ _ _) with objective.
  destruct (initial_right _ _ _ _ _ _) as [start|]; [|by constructor].
  change (mk_search _ start _ _ 0) with (opening start).
  pose proof (illinois_loop_spec objective epsilon 101 (opening start)) as Hl.
  destruct (illinois_loop 101 objective epsilon (opening start)) as [t status].
  destruct Hl as (n & Hr & Hst); [cbn [iterations opening]; lia..|].
  destruct (rounds_facts objective epsilon n _ t Hr) as (Hi & _ & _);
    [cbn [iterations opening]; lia|]. cbn [iterations opening] in Hi.
  rewrite Z.add_0_l in Hi. cbv beta iota. rewrite Hi.
  destruct (decide (status = LAPLACE_STANDING_OK)) as [->|Hno].
  - apply (settles_converged result count start n t Hb Hr).
    unfold stops in Hst. destruct (search_open epsilon t); [|reflexivity].
    apply search_step_failure in Hst as [|]; discriminate.
  - destruct status; [destruct (Hno eq_refl)|..];
      exact (settles_stopped result count start n t _ Hb Hr Hst Hno).
Qed.

Lemma bracketed_unique start start' : bracketed start -> bracketed start' -> start = start'.
Proof.
  unfold bracketed. destruct (double_lt floor delta_squared); [congruence|].
  intros (k & Hk & -> & Hn & Ha) (k' & Hk' & -> & Hn' & Ha'). f_equal.
  destruct (Z.lt_trichotomy k k') as [H|[H|H]]; [|done|].
  - destruct Hn. apply Ha'. lia.
  - destruct Hn'. apply Ha. lia.
Qed.

Lemma bracketed_not_un start : bracketed start -> ~ unbracketed.
Proof.
  unfold bracketed, unbracketed. intros Hb [E Hall]. rewrite E in Hb.
  destruct Hb as (k & Hk & _ & Hn & _). by apply Hn, Hall.
Qed.

Lemma stops_status t status :
  stops objective epsilon t status -> status <> LAPLACE_STANDING_OK ->
  search_open epsilon t = true.
Proof. unfold stops. by destruct (search_open epsilon t). Qed.

Lemma stops_converged t :
  search_open epsilon t = false -> stops objective epsilon t LAPLACE_STANDING_OK.
Proof. unfold stops. by intros ->. Qed.

Lemma settles_unique result count o1 o2 :
  settles result count o1 -> settles result count o2 -> o1 = o2.
Proof.
  assert (Hone : forall start n t status start' n' t' status',
    bracketed start -> rounds objective epsilon n (opening start) t ->
    stops objective epsilon t status ->
    bracketed start' -> rounds objective epsilon n' (opening start') t' ->
    stops objective epsilon t' status' -> n = n' /\ t = t' /\ status = status').
  { intros * Hb Hr Hst Hb' Hr' Hst'. rewrite <- (bracketed_unique _ _ Hb Hb') in Hr'.
    exact (rounds_deterministic objective epsilon _ _ _ _ Hr Hst _ _ _ Hr' Hst'). }
  intros H1 H2.
  destruct H1 as [Hu|start n t status Hb Hr Hst Hn|start n t Hb Hr Ho];
    destruct H2 as [Hu'|start' n' t' status' Hb' Hr' Hst' Hn'|start' n' t' Hb' Hr' Ho'];
    try reflexivity; try (destruct (bracketed_not_un _ Hb Hu'));
    try (destruct (bracketed_not_un _ Hb' Hu)).
  - destruct (Hone _ _ _ _ _ _ _ _ Hb Hr Hst Hb' Hr' Hst') as (-> & _ & ->). reflexivity.
  - destruct (Hone _ _ _ _ _ _ _ _ Hb Hr Hst Hb' Hr' (stops_converged _ Ho')) as (_ & _ & ?).
    done.
  - destruct (Hone _ _ _ _ _ _ _ _ Hb Hr (stops_converged _ Ho) Hb' Hr' Hst') as (_ & _ & ?).
    congruence.
  - destruct (Hone _ _ _ _ _ _ _ _ Hb Hr (stops_converged _ Ho) Hb' Hr' (stops_converged _ Ho'))
      as (-> & -> & _). reflexivity.
Qed.
End Settlement.

(** C19: the volatility search always settles, within 100 bracket steps and 100
    iterations, whatever [exp] and [log] return.  Its outcome is the one the
    relation [settles] describes, and no other: the first bracket is the
    logarithm of the surprise or the first trial point that is not below zero;
    a volatility is returned only when the two ends have come within the
    tolerance after the reported number of rounds, is then positive and finite,
    and the ordinates the loop ends with are those of its ends, the left one
    halved once per round it was kept; it fails only by divergence or by a
    value out of range. *)
Theorem volatility_settles {M : Libm} phi volatility variance delta tau epsilon result count :
  let f := objective phi volatility variance delta tau in
  let solved := solve_volatility phi volatility variance delta tau epsilon result count in
  (forall outcome,
     solved = outcome <->
     settles phi volatility variance delta tau epsilon result count outcome) /\
  let '(status, value, n) := solved in
  (n = count \/ 0 <= n <= LAPLACE_STANDING_MAX_ITERATIONS) /\
  (status = LAPLACE_STANDING_OK \/ status = LAPLACE_STANDING_CONVERGENCE_FAILED \/
   status = LAPLACE_STANDING_NUMERIC_INVALID) /\
  (status = LAPLACE_STANDING_OK ->
     usable value = true /\ exists start t,
       bracketed phi volatility variance delta tau start /\
       rounds f epsilon (Z.to_nat n) (opening phi volatility variance delta tau start) t /\
       ordinates f t /\ search_open epsilon t = false /\ value = volatility_of t).
Proof.
  intros f solved.
  pose proof (solve_volatility_settles phi volatility variance delta tau epsilon result count)
    as Hs. fold solved in Hs.
  assert (Hopen : forall start n t,
    rounds f epsilon n (opening phi volatility variance delta tau start) t ->
    0 <= Z.of_nat n <= LAPLACE_STANDING_MAX_ITERATIONS /\ ordinates f t).
  { intros start n t Hr. destruct (rounds_facts f epsilon n _ t Hr) as (Hi & Hle & Ho);
      cbn [iterations opening] in *; [lia|]. split; [lia|]. apply Ho.
    split; [reflexivity|]. exists 0%nat. reflexivity. }
  split.
  { intros outcome. split; [by intros <-|]. by apply settles_unique. }
  clearbody solved. destruct Hs as [Hu|start n t status Hb Hr Hst Hno|start n t Hb Hr Ho].
  - split; [by left|]. split; [auto|done].
  - destruct (Hopen _ _ _ Hr) as [Hn _]. split; [by right|]. split; [|done].
    unfold stops in Hst. destruct (search_open epsilon t); [|done].
    apply search_step_failure in Hst as [-> | ->]; auto.
  - destruct (Hopen _ _ _ Hr) as [Hn Hord]. split; [by right|].
    destruct (usable (volatility_of t)) eqn:Hv; (split; [auto|]); [|done].
    intros _. split; [done|]. exists start, t. rewrite Nat2Z.id. auto.
Qed.

(** ** Concrete functions
    [(1 + x/1024)^1024] by ten squarings, and its inverse by ten square roots. *)
Definition sample_libm : Libm := {|
  exp x := Nat.iter 10 (fun v => double_multiply v v)
             (double_add one (double_divide x 0x4090000000000000));
  log x := double_multiply 0x4090000000000000
             (double_subtract (Nat.iter 10 double_sqrt x) one) |}.
