(* ===== verification/StandingCalculation.v ===== *)
(** * Standing: recipes, coordinates, states and events of a rating

    Models the identification half of [engine/src/standing_calculation.c] and
    [engine/include/laplace/standing_calculation.h]: the shape of an arena
    recipe, the mapping of outcomes to exact scores, the coordinate of a
    participant in its arena, rating states and match events, each identified
    by the digest of its fields, and the onboarding of a participant.  The
    rating period itself is in [StandingPeriod].

    [score_numerator] and [score_denominator] are arrays of nine words, the
    outcome kind [k] at index [k - 1].  The loop of [greatest_common_divisor]
    is the one of testimony ([EvidenceTestimony.gcd_u64], fuel 129). *)
From stdpp Require Import prelude strings.
From Stdlib Require Import ZArith Lia SpecFloat.
From S2P Require Import Prelude Bytes Hash Identity EvidenceTestimony Binary64.
From S2P Require Import StandingNumeric.

(** ** Contract constants ([contracts/standing-calculation.json]) *)
Abbreviation LAPLACE_STANDING_VERSION := 1 (only parsing).
Abbreviation LAPLACE_STANDING_FLAGS_NONE := 0 (only parsing).
Abbreviation LAPLACE_STANDING_OUTCOME_CONFIRM := 1 (only parsing).
Abbreviation LAPLACE_STANDING_OUTCOME_UNCERTAIN := 4 (only parsing).
Abbreviation LAPLACE_STANDING_OUTCOME_INVALID_EXECUTION := 9 (only parsing).
Abbreviation LAPLACE_STANDING_OUTCOME_KIND_COUNT := 9%nat (only parsing).

Definition LAPLACE_STANDING_RECIPE_DOMAIN := domain_bytes "laplace.standing.recipe.v1".
Definition LAPLACE_STANDING_OUTCOME_MAPPING_DOMAIN :=
  domain_bytes "laplace.standing.outcome-mapping.v1".
Definition LAPLACE_STANDING_ARENA_SCOPE_DOMAIN := domain_bytes "laplace.standing.arena-scope.v1".
Definition LAPLACE_STANDING_COORDINATE_DOMAIN := domain_bytes "laplace.standing.coordinate.v1".
Definition LAPLACE_STANDING_STATE_DOMAIN := domain_bytes "laplace.standing.state.v1".
Definition LAPLACE_STANDING_EVENT_DOMAIN := domain_bytes "laplace.standing.event.v1".

(** ** Data *)
Record laplace_standing_recipe := mk_recipe {
  recipe_id : laplace_digest256;
  authority_receipt_id : laplace_digest256;
  recipe_evaluation_law_id : laplace_digest256;
  recipe_world_context_id : laplace_digest256;
  recipe_language_modality_id : laplace_digest256;
  recipe_valid_time_scope_id : laplace_digest256;
  recipe_evidence_boundary_id : laplace_digest256;
  default_rating : double;
  default_rating_deviation : double;
  default_volatility : double;
  volatility_constraint : double;
  convergence_tolerance : double;
  recipe_score_numerator : list Z;
  recipe_score_denominator : list Z;
  rateable_outcome_mask : Z;
  recipe_participant_role : Z;
  recipe_arena_kind : Z;
  recipe_version : Z;
  recipe_flags : Z }.

Record laplace_standing_coordinate := mk_coordinate {
  participant_id : laplace_digest256;
  evaluation_law_id : laplace_digest256;
  world_context_id : laplace_digest256;
  language_modality_id : laplace_digest256;
  valid_time_scope_id : laplace_digest256;
  evidence_boundary_id : laplace_digest256;
  coordinate_recipe_id : laplace_digest256;
  participant_role : Z;
  arena_kind : Z;
  coordinate_recipe_version : Z;
  coordinate_flags : Z }.

Record laplace_standing_state := mk_state {
  state_id : laplace_digest256;
  coordinate_id : laplace_digest256;
  arena_scope_id : laplace_digest256;
  prior_state_id : laplace_digest256;
  epoch_id : laplace_digest256;
  rating_recipe_id : laplace_digest256;
  rating : double;
  rating_deviation : double;
  state_volatility : double;
  eligible_match_count : Z;
  period_ordinal : Z;
  rating_recipe_version : Z;
  state_flags : Z }.

Record laplace_standing_event := mk_event {
  event_id : laplace_digest256;
  participant_coordinate_id : laplace_digest256;
  participant_prior_state_id : laplace_digest256;
  opponent_prior_state : laplace_standing_state;
  event_period_id : laplace_digest256;
  eligible_root_id : laplace_digest256;
  outcome_mapping_id : laplace_digest256;
  context_id : laplace_digest256;
  valid_time_id : laplace_digest256;
  score_numerator : Z;
  score_denominator : Z;
  outcome_kind : Z;
  event_flags : Z }.

(** ** Shapes *)
Definition numeric_state_valid (rating deviation volatility : double) : bool :=
  isfinite rating && isfinite deviation && double_lt zero deviation &&
  isfinite volatility && double_lt zero volatility.

Definition initial_state_matches_recipe (s : laplace_standing_state)
    (r : laplace_standing_recipe) : bool :=
  negb (period_ordinal s =? 0) ||
  ((eligible_match_count s =? 0) &&
   double_eq (rating s) (default_rating r) &&
   double_eq (rating_deviation s) (default_rating_deviation r) &&
   double_eq (state_volatility s) (default_volatility r)).

Definition greatest_common_divisor (left right : Z) : Z := gcd_u64 left right.

(** [rateable_outcome_mask & (1u << index)] *)
Definition rateable (r : laplace_standing_recipe) (index : nat) : bool :=
  negb (Z.land (rateable_outcome_mask r) (u32 (Z.shiftl 1 (Z.of_nat index))) =? 0).

(** The test of one outcome kind: true where the code returns 0. *)
Definition score_refused (r : laplace_standing_recipe) (index : nat) : bool :=
  let numerator := nth index (recipe_score_numerator r) 0 in
  let denominator := nth index (recipe_score_denominator r) 0 in
  (rateable r index &&
   ((denominator =? 0) || (denominator <? numerator) ||
    negb (greatest_common_divisor numerator denominator =? 1))) ||
  (negb (rateable r index) && (negb (numerator =? 0) || negb (denominator =? 0))).

Definition recipe_shape_valid (recipe : ptr laplace_standing_recipe) : bool :=
  let allowed_mask := u32 (Z.shiftl 1 LAPLACE_STANDING_OUTCOME_UNCERTAIN - 1) in
  match recipe with
  | None => false
  | Some r =>
      return_when
        bytes_zero (authority_receipt_id r) || bytes_zero (recipe_evaluation_law_id r) ||
        bytes_zero (recipe_world_context_id r) || bytes_zero (recipe_language_modality_id r) ||
        bytes_zero (recipe_valid_time_scope_id r) || bytes_zero (recipe_evidence_boundary_id r) ||
        negb (numeric_state_valid (default_rating r) (default_rating_deviation r)
                (default_volatility r)) ||
        negb (isfinite (volatility_constraint r)) || double_le (volatility_constraint r) zero ||
        negb (isfinite (convergence_tolerance r)) || double_le (convergence_tolerance r) zero ||
        (rateable_outcome_mask r =? 0) ||
        negb (Z.land (rateable_outcome_mask r) (Z.lxor UINT32_MAX allowed_mask) =? 0) ||
        (recipe_participant_role r =? 0) || (recipe_arena_kind r =? 0) ||
        negb (recipe_version r =? LAPLACE_STANDING_VERSION) ||
        negb (recipe_flags r =? LAPLACE_STANDING_FLAGS_NONE)
        with false ;;
      negb (existsb (score_refused r) (seq 0 LAPLACE_STANDING_OUTCOME_KIND_COUNT))
  end.

Definition outcome_rateable (outcome_kind : Z) : bool :=
  (LAPLACE_STANDING_OUTCOME_CONFIRM <=? outcome_kind) &&
  (outcome_kind <=? LAPLACE_STANDING_OUTCOME_UNCERTAIN).

(** ** Identification *)
Section Identify.
Context {B : Blake3}.

Definition hash_double (hasher : blake3_hasher) (value : double) : blake3_hasher :=
  hash_u64 hasher value.

Definition hash_score (r : laplace_standing_recipe) (hasher : blake3_hasher) (index : nat)
    : blake3_hasher :=
  let hasher := hash_u64 hasher (nth index (recipe_score_numerator r) 0) in
  hash_u64 hasher (nth index (recipe_score_denominator r) 0).

Definition hash_recipe (r : laplace_standing_recipe) : blake3_hasher :=
  let hasher := blake3_hasher_update blake3_hasher_init LAPLACE_STANDING_RECIPE_DOMAIN in
  let hasher := blake3_hasher_update hasher (authority_receipt_id r) in
  let hasher := blake3_hasher_update hasher (recipe_evaluation_law_id r) in
  let hasher := blake3_hasher_update hasher (recipe_world_context_id r) in
  let hasher := blake3_hasher_update hasher (recipe_language_modality_id r) in
  let hasher := blake3_hasher_update hasher (recipe_valid_time_scope_id r) in
  let hasher := blake3_hasher_update hasher (recipe_evidence_boundary_id r) in
  let hasher := hash_double hasher (default_rating r) in
  let hasher := hash_double hasher (default_rating_deviation r) in
  let hasher := hash_double hasher (default_volatility r) in
  let hasher := hash_double hasher (volatility_constraint r) in
  let hasher := hash_double hasher (convergence_tolerance r) in
  let hasher := foldl (hash_score r) hasher (seq 0 LAPLACE_STANDING_OUTCOME_KIND_COUNT) in
  let hasher := hash_u32 hasher (rateable_outcome_mask r) in
  let hasher := hash_u32 hasher (recipe_participant_role r) in
  let hasher := hash_u32 hasher (recipe_arena_kind r) in
  let hasher := hash_u32 hasher (recipe_version r) in
  hash_u32 hasher (recipe_flags r).

Definition laplace_standing_recipe_identify (recipe : ptr laplace_standing_recipe)
    (id : ptr laplace_digest256) : laplace_standing_status * ptr laplace_digest256 :=
  return_when is_null id || negb (recipe_shape_valid recipe)
    with (LAPLACE_STANDING_RECIPE_INVALID, id) ;;
  match recipe with
  | None => (LAPLACE_STANDING_RECIPE_INVALID, id)
  | Some r => (LAPLACE_STANDING_OK, store id (blake3_hasher_finalize (hash_recipe r)))
  end.

Definition hash_outcome_mapping (r : laplace_standing_recipe) (outcome_kind : Z)
    : blake3_hasher :=
  let index := Z.to_nat (outcome_kind - 1) in
  let hasher := blake3_hasher_update blake3_hasher_init
                  LAPLACE_STANDING_OUTCOME_MAPPING_DOMAIN in
  let hasher := blake3_hasher_update hasher (recipe_id r) in
  let hasher := hash_u32 hasher outcome_kind in
  let hasher := hash_u64 hasher (nth index (recipe_score_numerator r) 0) in
  hash_u64 hasher (nth index (recipe_score_denominator r) 0).

Definition laplace_standing_outcome_mapping_identify (recipe : ptr laplace_standing_recipe)
    (outcome_kind : Z) (mapping_id : ptr laplace_digest256)
    : laplace_standing_status * ptr laplace_digest256 :=
  return_when is_null mapping_id || (outcome_kind <? LAPLACE_STANDING_OUTCOME_CONFIRM) ||
              (LAPLACE_STANDING_OUTCOME_INVALID_EXECUTION <? outcome_kind)
    with (LAPLACE_STANDING_RECIPE_INVALID, mapping_id) ;;
  match recipe, laplace_standing_recipe_identify recipe (Some (zeros 32)) with
  | Some r, (LAPLACE_STANDING_OK, Some expected_recipe_id) =>
      return_when negb (bytes_equal (recipe_id r) expected_recipe_id)
        with (LAPLACE_STANDING_RECIPE_IDENTITY_MISMATCH, mapping_id) ;;
      return_when negb (rateable r (Z.to_nat (outcome_kind - 1)))
        with (LAPLACE_STANDING_OUTCOME_NOT_RATEABLE, mapping_id) ;;
      (LAPLACE_STANDING_OK,
       store mapping_id (blake3_hasher_finalize (hash_outcome_mapping r outcome_kind)))
  | _, (status, _) => (status, mapping_id)
  end.

Definition hash_arena_scope (hasher : blake3_hasher) (c : laplace_standing_coordinate)
    : blake3_hasher :=
  let hasher := blake3_hasher_update hasher (evaluation_law_id c) in
  let hasher := blake3_hasher_update hasher (world_context_id c) in
  let hasher := blake3_hasher_update hasher (language_modality_id c) in
  let hasher := blake3_hasher_update hasher (valid_time_scope_id c) in
  let hasher := blake3_hasher_update hasher (evidence_boundary_id c) in
  let hasher := blake3_hasher_update hasher (coordinate_recipe_id c) in
  let hasher := hash_u32 hasher (participant_role c) in
  let hasher := hash_u32 hasher (arena_kind c) in
  let hasher := hash_u32 hasher (coordinate_recipe_version c) in
  hash_u32 hasher (coordinate_flags c).

Definition coordinate_invalid (c : laplace_standing_coordinate) : bool :=
  bytes_zero (participant_id c) || bytes_zero (evaluation_law_id c) ||
  bytes_zero (world_context_id c) || bytes_zero (language_modality_id c) ||
  bytes_zero (valid_time_scope_id c) || bytes_zero (evidence_boundary_id c) ||
  bytes_zero (coordinate_recipe_id c) || (participant_role c =? 0) || (arena_kind c =? 0) ||
  (coordinate_recipe_version c =? 0) ||
  negb (coordinate_flags c =? LAPLACE_STANDING_FLAGS_NONE).

(** The status with the two identities behind the output pointers. *)
Definition laplace_standing_coordinate_identify
    (coordinate : ptr laplace_standing_coordinate) (scope id : ptr laplace_digest256)
    : laplace_standing_status * ptr laplace_digest256 * ptr laplace_digest256 :=
  match coordinate, scope, id with
  | Some c, Some _, Some _ =>
      return_when coordinate_invalid c with (LAPLACE_STANDING_COORDINATE_INVALID, scope, id) ;;
      let arena_scope := blake3_hasher_finalize
        (hash_arena_scope
           (blake3_hasher_update blake3_hasher_init LAPLACE_STANDING_ARENA_SCOPE_DOMAIN) c) in
      let hasher := blake3_hasher_update blake3_hasher_init LAPLACE_STANDING_COORDINATE_DOMAIN in
      let hasher := blake3_hasher_update hasher (participant_id c) in
      let hasher := blake3_hasher_update hasher arena_scope in
      (LAPLACE_STANDING_OK, Some arena_scope, Some (blake3_hasher_finalize hasher))
  | _, _, _ => (LAPLACE_STANDING_COORDINATE_INVALID, scope, id)
  end.

Definition hash_state (hasher : blake3_hasher) (s : laplace_standing_state) : blake3_hasher :=
  let hasher := blake3_hasher_update hasher (coordinate_id s) in
  let hasher := blake3_hasher_update hasher (arena_scope_id s) in
  let hasher := blake3_hasher_update hasher (prior_state_id s) in
  let hasher := blake3_hasher_update hasher (epoch_id s) in
  let hasher := blake3_hasher_update hasher (rating_recipe_id s) in
  let hasher := hash_double hasher (rating s) in
  let hasher := hash_double hasher (rating_deviation s) in
  let hasher := hash_double hasher (state_volatility s) in
  let hasher := hash_u64 hasher (eligible_match_count s) in
  let hasher := hash_u64 hasher (period_ordinal s) in
  let hasher := hash_u32 hasher (rating_recipe_version s) in
  hash_u32 hasher (state_flags s).

Definition state_invalid (s : laplace_standing_state) : bool :=
  bytes_zero (coordinate_id s) || bytes_zero (arena_scope_id s) ||
  bytes_zero (epoch_id s) || bytes_zero (rating_recipe_id s) ||
  negb (numeric_state_valid (rating s) (rating_deviation s) (state_volatility s)) ||
  (rating_recipe_version s =? 0) || negb (state_flags s =? LAPLACE_STANDING_FLAGS_NONE) ||
  ((period_ordinal s =? 0) && negb (bytes_zero (prior_state_id s))) ||
  (negb (period_ordinal s =? 0) && bytes_zero (prior_state_id s)).

Definition laplace_standing_state_identify (state : ptr laplace_standing_state)
    (id : ptr laplace_digest256) : laplace_standing_status * ptr laplace_digest256 :=
  match state with
  | None => (LAPLACE_STANDING_STATE_INVALID, id)
  | Some s =>
      return_when is_null id || state_invalid s with (LAPLACE_STANDING_STATE_INVALID, id) ;;
      (LAPLACE_STANDING_OK,
       store id (blake3_hasher_finalize (hash_state
         (blake3_hasher_update blake3_hasher_init LAPLACE_STANDING_STATE_DOMAIN) s)))
  end.

Definition hash_event (hasher : blake3_hasher) (e : laplace_standing_event) : blake3_hasher :=
  let hasher := blake3_hasher_update hasher (participant_coordinate_id e) in
  let hasher := blake3_hasher_update hasher (participant_prior_state_id e) in
  let hasher := blake3_hasher_update hasher (state_id (opponent_prior_state e)) in
  let hasher := blake3_hasher_update hasher (event_period_id e) in
  let hasher := blake3_hasher_update hasher (eligible_root_id e) in
  let hasher := blake3_hasher_update hasher (outcome_mapping_id e) in
  let hasher := blake3_hasher_update hasher (context_id e) in
  let hasher := blake3_hasher_update hasher (valid_time_id e) in
  let hasher := hash_u64 hasher (score_numerator e) in
  let hasher := hash_u64 hasher (score_denominator e) in
  let hasher := hash_u32 hasher (outcome_kind e) in
  hash_u32 hasher (event_flags e).

Definition event_invalid (e : laplace_standing_event) : bool :=
  bytes_zero (participant_coordinate_id e) || bytes_zero (participant_prior_state_id e) ||
  bytes_zero (event_period_id e) || bytes_zero (eligible_root_id e) ||
  bytes_zero (outcome_mapping_id e) || bytes_zero (context_id e) ||
  bytes_zero (valid_time_id e) || (score_denominator e =? 0) ||
  (score_denominator e <? score_numerator e) || negb (outcome_rateable (outcome_kind e)) ||
  negb (event_flags e =? LAPLACE_STANDING_FLAGS_NONE).

Definition laplace_standing_event_identify (event : ptr laplace_standing_event)
    (id : ptr laplace_digest256) : laplace_standing_status * ptr laplace_digest256 :=
  match event with
  | None => (LAPLACE_STANDING_OUTCOME_NOT_RATEABLE, id)
  | Some e =>
      return_when is_null id || event_invalid e
        with (if outcome_rateable (outcome_kind e) then LAPLACE_STANDING_EVENT_INVALID
              else LAPLACE_STANDING_OUTCOME_NOT_RATEABLE, id) ;;
      (LAPLACE_STANDING_OK,
       store id (blake3_hasher_finalize (hash_event
         (blake3_hasher_update blake3_hasher_init LAPLACE_STANDING_EVENT_DOMAIN) e)))
  end.

(** ** Onboarding *)
Definition participant_coordinate (r : laplace_standing_recipe) (participant : laplace_digest256)
    : laplace_standing_coordinate :=
  mk_coordinate participant (recipe_evaluation_law_id r) (recipe_world_context_id r)
    (recipe_language_modality_id r) (recipe_valid_time_scope_id r)
    (recipe_evidence_boundary_id r) (recipe_id r) (recipe_participant_role r)
    (recipe_arena_kind r) (recipe_version r) LAPLACE_STANDING_FLAGS_NONE.

(** [memset(state, 0, sizeof *state)]; the bytes of [0.0] are zero. *)
Definition empty_state : laplace_standing_state :=
  mk_state (zeros 32) (zeros 32) (zeros 32) (zeros 32) (zeros 32) (zeros 32)
    zero zero zero 0 0 0 0.

Definition with_state_id (s : laplace_standing_state) (id : laplace_digest256)
    : laplace_standing_state :=
  mk_state id (coordinate_id s) (arena_scope_id s) (prior_state_id s) (epoch_id s)
    (rating_recipe_id s) (rating s) (rating_deviation s) (state_volatility s)
    (eligible_match_count s) (period_ordinal s) (rating_recipe_version s) (state_flags s).

(** [laplace_standing_state_identify(state, &state->state_id)] *)
Definition identify_in_place (s : laplace_standing_state)
    : laplace_standing_status * laplace_standing_state :=
  match laplace_standing_state_identify (Some s) (Some (state_id s)) with
  | (status, Some id) => (status, with_state_id s id)
  | (status, None) => (status, s)
  end.

Definition laplace_standing_onboard (recipe : ptr laplace_standing_recipe)
    (participant epoch : ptr laplace_digest256) (state : ptr laplace_standing_state)
    : laplace_standing_status * ptr laplace_standing_state :=
  match state, participant, epoch, recipe with
  | Some _, Some participant, Some epoch, Some r =>
      return_when bytes_zero participant || bytes_zero epoch
        with (LAPLACE_STANDING_INVALID_ARGUMENT, state) ;;
      match laplace_standing_recipe_identify recipe (Some (zeros 32)) with
      | (LAPLACE_STANDING_OK, Some expected_recipe_id) =>
          return_when negb (bytes_equal (recipe_id r) expected_recipe_id)
            with (LAPLACE_STANDING_RECIPE_IDENTITY_MISMATCH, state) ;;
          match laplace_standing_coordinate_identify (Some (participant_coordinate r participant))
                  (Some (arena_scope_id empty_state)) (Some (coordinate_id empty_state)) with
          | (LAPLACE_STANDING_OK, Some scope, Some id) =>
              let '(status, onboarded) := identify_in_place
                (mk_state (state_id empty_state) id scope (prior_state_id empty_state) epoch
                   (recipe_id r) (default_rating r) (default_rating_deviation r)
                   (default_volatility r) (eligible_match_count empty_state)
                   (period_ordinal empty_state) (recipe_version r)
                   LAPLACE_STANDING_FLAGS_NONE) in
              (status, Some onboarded)
          | (status, _, _) => (status, Some empty_state)
          end
      | (status, _) => (status, state)
      end
  | _, _, _, _ => (LAPLACE_STANDING_INVALID_ARGUMENT, state)
  end.
End Identify.

(** ** Well-formed data: digests of 32 bytes and words of their width *)
Record recipe_wf (r : laplace_standing_recipe) : Prop := {
  wf_authority : bytes 32 (authority_receipt_id r);
  wf_evaluation : bytes 32 (recipe_evaluation_law_id r);
  wf_world : bytes 32 (recipe_world_context_id r);
  wf_language : bytes 32 (recipe_language_modality_id r);
  wf_time : bytes 32 (recipe_valid_time_scope_id r);
  wf_boundary : bytes 32 (recipe_evidence_boundary_id r);
  wf_rating : is_u64 (default_rating r);
  wf_deviation : is_u64 (default_rating_deviation r);
  wf_volatility : is_u64 (default_volatility r);
  wf_constraint : is_u64 (volatility_constraint r);
  wf_tolerance : is_u64 (convergence_tolerance r);
  wf_numerators : length (recipe_score_numerator r) = LAPLACE_STANDING_OUTCOME_KIND_COUNT /\
    Forall (fun v => is_u64 v) (recipe_score_numerator r);
  wf_denominators : length (recipe_score_denominator r) = LAPLACE_STANDING_OUTCOME_KIND_COUNT /\
    Forall (fun v => is_u64 v) (recipe_score_denominator r);
  wf_mask : is_u32 (rateable_outcome_mask r);
  wf_role : is_u32 (recipe_participant_role r);
  wf_kind : is_u32 (recipe_arena_kind r);
  wf_version : is_u32 (recipe_version r);
  wf_recipe_flags : is_u32 (recipe_flags r) }.

Record state_wf (s : laplace_standing_state) : Prop := {
  wf_coordinate : bytes 32 (coordinate_id s);
  wf_scope : bytes 32 (arena_scope_id s);
  wf_prior : bytes 32 (prior_state_id s);
  wf_epoch : bytes 32 (epoch_id s);
  wf_recipe : bytes 32 (rating_recipe_id s);
  wf_state_rating : is_u64 (rating s);
  wf_state_deviation : is_u64 (rating_deviation s);
  wf_state_volatility : is_u64 (state_volatility s);
  wf_matches : is_u64 (eligible_match_count s);
  wf_ordinal : is_u64 (period_ordinal s);
  wf_state_version : is_u32 (rating_recipe_version s);
  wf_state_flags : is_u32 (state_flags s) }.

(** ** Transcripts *)
Definition score_code (score : Z * Z) : list Z := store_le 8 score.1 ++ store_le 8 score.2.

Definition recipe_scores (r : laplace_standing_recipe) : list (Z * Z) :=
  map (fun index => (nth index (recipe_score_numerator r) 0,
                     nth index (recipe_score_denominator r) 0))
    (seq 0 LAPLACE_STANDING_OUTCOME_KIND_COUNT).

Definition recipe_transcript (r : laplace_standing_recipe) : list Z :=
  LAPLACE_STANDING_RECIPE_DOMAIN ++ authority_receipt_id r ++ recipe_evaluation_law_id r ++
  recipe_world_context_id r ++ recipe_language_modality_id r ++ recipe_valid_time_scope_id r ++
  recipe_evidence_boundary_id r ++ store_le 8 (default_rating r) ++
  store_le 8 (default_rating_deviation r) ++ store_le 8 (default_volatility r) ++
  store_le 8 (volatility_constraint r) ++ store_le 8 (convergence_tolerance r) ++
  concat (map score_code (recipe_scores r)) ++ store_le 4 (rateable_outcome_mask r) ++
  store_le 4 (recipe_participant_role r) ++ store_le 4 (recipe_arena_kind r) ++
  store_le 4 (recipe_version r) ++ store_le 4 (recipe_flags r).

Definition mapping_transcript (r : laplace_standing_recipe) (kind : Z) : list Z :=
  let score := nth (Z.to_nat (kind - 1)) (recipe_scores r) (0, 0) in
  LAPLACE_STANDING_OUTCOME_MAPPING_DOMAIN ++ recipe_id r ++ store_le 4 kind ++ score_code score.

Definition scope_transcript (c : laplace_standing_coordinate) : list Z :=
  LAPLACE_STANDING_ARENA_SCOPE_DOMAIN ++ evaluation_law_id c ++ world_context_id c ++
  language_modality_id c ++ valid_time_scope_id c ++ evidence_boundary_id c ++
  coordinate_recipe_id c ++ store_le 4 (participant_role c) ++ store_le 4 (arena_kind c) ++
  store_le 4 (coordinate_recipe_version c) ++ store_le 4 (coordinate_flags c).

Definition coordinate_transcript (participant scope : laplace_digest256) : list Z :=
  LAPLACE_STANDING_COORDINATE_DOMAIN ++ participant ++ scope.

Definition state_transcript (s : laplace_standing_state) : list Z :=
  LAPLACE_STANDING_STATE_DOMAIN ++ coordinate_id s ++ arena_scope_id s ++ prior_state_id s ++
  epoch_id s ++ rating_recipe_id s ++ store_le 8 (rating s) ++ store_le 8 (rating_deviation s) ++
  store_le 8 (state_volatility s) ++ store_le 8 (eligible_match_count s) ++
  store_le 8 (period_ordinal s) ++ store_le 4 (rating_recipe_version s) ++
  store_le 4 (state_flags s).

Definition event_transcript (e : laplace_standing_event) : list Z :=
  LAPLACE_STANDING_EVENT_DOMAIN ++ participant_coordinate_id e ++ participant_prior_state_id e ++
  state_id (opponent_prior_state e) ++ event_period_id e ++ eligible_root_id e ++
  outcome_mapping_id e ++ context_id e ++ valid_time_id e ++ store_le 8 (score_numerator e) ++
  store_le 8 (score_denominator e) ++ store_le 4 (outcome_kind e) ++ store_le 4 (event_flags e).

Section Digests.
Context {B : Blake3}.

Definition recipe_digest (r : laplace_standing_recipe) : laplace_digest256 :=
  blake3 (recipe_transcript r).
Definition scope_digest (c : laplace_standing_coordinate) : laplace_digest256 :=
  blake3 (scope_transcript c).
Definition coordinate_digest (c : laplace_standing_coordinate) : laplace_digest256 :=
  blake3 (coordinate_transcript (participant_id c) (scope_digest c)).
Definition state_digest (s : laplace_standing_state) : laplace_digest256 :=
  blake3 (state_transcript s).
Definition event_digest (e : laplace_standing_event) : laplace_digest256 :=
  blake3 (event_transcript e).
Definition mapping_digest (r : laplace_standing_recipe) (kind : Z) : laplace_digest256 :=
  blake3 (mapping_transcript r kind).

(** A recipe, a state, an event that carries its own identity. *)
Definition recipe_identified (r : laplace_standing_recipe) : Prop :=
  recipe_shape_valid (Some r) = true /\ recipe_id r = recipe_digest r.
Definition state_identified (s : laplace_standing_state) : Prop :=
  state_invalid s = false /\ state_id s = state_digest s.
Definition event_identified (e : laplace_standing_event) : Prop :=
  event_invalid e = false /\ event_id e = event_digest e.
End Digests.

(** ** The identification routines *)
Section Specs.
Context {B : Blake3} {L : Blake3Laws B}.

Lemma absorbs_scores r indices h m :
  absorbs h m ->
  absorbs (foldl (hash_score r) h indices)
    (m ++ concat (map score_code
       (map (fun i => (nth i (recipe_score_numerator r) 0, nth i (recipe_score_denominator r) 0))
          indices))).
Proof.
  rewrite map_map. apply absorbs_fold. intros h' m' i Hm. unfold hash_score, score_code.
  cbn [fst snd]. absorb.
Qed.

Lemma recipe_identify_spec r out :
  laplace_standing_recipe_identify (Some r) (Some out) =
  if recipe_shape_valid (Some r) then (LAPLACE_STANDING_OK, Some (recipe_digest r))
  else (LAPLACE_STANDING_RECIPE_INVALID, Some out).
Proof.
  unfold laplace_standing_recipe_identify. ptrs.
  destruct (recipe_shape_valid (Some r)); [|reflexivity]. cbn [negb store].
  do 2 f_equal. apply absorbs_finalize.
  unfold hash_recipe, recipe_transcript, recipe_scores, hash_double.
  rewrite ?app_assoc. do 5 apply absorbs_u32. apply absorbs_scores. absorb.
Qed.

Lemma state_identify_spec s out :
  laplace_standing_state_identify (Some s) (Some out) =
  if state_invalid s then (LAPLACE_STANDING_STATE_INVALID, Some out)
  else (LAPLACE_STANDING_OK, Some (state_digest s)).
Proof.
  unfold laplace_standing_state_identify. ptrs. destruct (state_invalid s); [reflexivity|].
  cbn [store]. do 2 f_equal. apply absorbs_finalize.
  unfold hash_state, state_transcript, hash_double. absorb.
Qed.

Lemma event_identify_spec e out :
  laplace_standing_event_identify (Some e) (Some out) =
  if event_invalid e
  then (if outcome_rateable (outcome_kind e) then LAPLACE_STANDING_EVENT_INVALID
        else LAPLACE_STANDING_OUTCOME_NOT_RATEABLE, Some out)
  else (LAPLACE_STANDING_OK, Some (event_digest e)).
Proof.
  unfold laplace_standing_event_identify. ptrs. destruct (event_invalid e); [reflexivity|].
  cbn [store]. do 2 f_equal. apply absorbs_finalize. unfold hash_event, event_transcript. absorb.
Qed.

Lemma coordinate_identify_spec c scope id :
  laplace_standing_coordinate_identify (Some c) (Some scope) (Some id) =
  if coordinate_invalid c
  then (LAPLACE_STANDING_COORDINATE_INVALID, Some scope, Some id)
  else (LAPLACE_STANDING_OK, Some (scope_digest c), Some (coordinate_digest c)).
Proof.
  unfold laplace_standing_coordinate_identify. destruct (coordinate_invalid c); [reflexivity|].
  assert (Hs : blake3_hasher_finalize (hash_arena_scope
    (blake3_hasher_update blake3_hasher_init LAPLACE_STANDING_ARENA_SCOPE_DOMAIN) c) =
    scope_digest c).
  { apply absorbs_finalize. unfold hash_arena_scope, scope_transcript. absorb. }
  rewrite Hs. do 2 f_equal. apply absorbs_finalize. unfold coordinate_transcript. absorb.
Qed.

Lemma recipe_scores_nth r index : (index < LAPLACE_STANDING_OUTCOME_KIND_COUNT)%nat ->
  nth index (recipe_scores r) (0, 0) =
  (nth index (recipe_score_numerator r) 0, nth index (recipe_score_denominator r) 0).
Proof. intros Hi. do 9 (destruct index as [|index]; [reflexivity|]). lia. Qed.

Lemma mapping_identify_spec r kind out :
  1 <= kind <= LAPLACE_STANDING_OUTCOME_INVALID_EXECUTION ->
  laplace_standing_outcome_mapping_identify (Some r) kind (Some out) =
  if recipe_shape_valid (Some r) then
    if bytes_equal (recipe_id r) (recipe_digest r) then
      if rateable r (Z.to_nat (kind - 1))
      then (LAPLACE_STANDING_OK, Some (mapping_digest r kind))
      else (LAPLACE_STANDING_OUTCOME_NOT_RATEABLE, Some out)
    else (LAPLACE_STANDING_RECIPE_IDENTITY_MISMATCH, Some out)
  else (LAPLACE_STANDING_RECIPE_INVALID, Some out).
Proof.
  intros Hk. unfold laplace_standing_outcome_mapping_identify. ptrs.
  rewrite (proj2 (Z.ltb_ge kind 1)), (proj2 (Z.ltb_ge 9 kind)) by lia. cbn [orb].
  rewrite recipe_identify_spec. destruct (recipe_shape_valid (Some r)); [|reflexivity].
  destruct (bytes_equal (recipe_id r) (recipe_digest r)); [|reflexivity]. cbn [negb].
  destruct (rateable r (Z.to_nat (kind - 1))); [|reflexivity]. cbn [negb store].
  do 2 f_equal. apply absorbs_finalize. unfold hash_outcome_mapping, mapping_transcript, score_code.
  rewrite recipe_scores_nth by lia. cbn [fst snd]. absorb.
Qed.
End Specs.

(** ** Lawful recipes *)
(** The score of an outcome kind, as the recipe's arrays hold it. *)
Definition score_of (r : laplace_standing_recipe) (kind : Z) : Z * Z :=
  nth (Z.to_nat (kind - 1)) (recipe_scores r) (0, 0).

Definition kind_rateable (r : laplace_standing_recipe) (kind : Z) : Prop :=
  Z.testbit (rateable_outcome_mask r) (kind - 1) = true.

Record recipe_lawful (r : laplace_standing_recipe) : Prop := {
  lawful_references : Forall (fun d => bytes_zero d = false)
    [authority_receipt_id r; recipe_evaluation_law_id r; recipe_world_context_id r;
     recipe_language_modality_id r; recipe_valid_time_scope_id r; recipe_evidence_boundary_id r];
  lawful_defaults :
    numeric_state_valid (default_rating r) (default_rating_deviation r)
      (default_volatility r) = true;
  lawful_constraint : usable (volatility_constraint r) = true;
  lawful_tolerance : usable (convergence_tolerance r) = true;
  lawful_mask : 1 <= rateable_outcome_mask r <= 15;
  lawful_scores kind : 1 <= kind <= LAPLACE_STANDING_OUTCOME_INVALID_EXECUTION ->
    let (numerator, denominator) := score_of r kind in
    if Z.testbit (rateable_outcome_mask r) (kind - 1)
    then 0 < denominator /\ numerator <= denominator /\ Z.gcd numerator denominator = 1
    else numerator = 0 /\ denominator = 0;
  lawful_role : recipe_participant_role r <> 0;
  lawful_arena : recipe_arena_kind r <> 0;
  lawful_version : recipe_version r = LAPLACE_STANDING_VERSION;
  lawful_flags : recipe_flags r = LAPLACE_STANDING_FLAGS_NONE }.

(** A finite double is positive unless it is at most zero. *)
Lemma finite_positive v : isfinite v = true -> double_le v zero = negb (double_lt zero v).
Proof.
  intros Hv. unfold isfinite in Hv. apply negb_true_iff in Hv.
  unfold double_le, double_lt. change (to_spec_float zero) with (S754_zero false).
  unfold to_spec_float. rewrite Hv.
  pose proof (proj2 (Z.land_nonneg v 0x000fffffffffffff) ltac:(lia)) as Hf.
  set (fraction := Z.land v 0x000fffffffffffff) in *.
  destruct (Z.land (Z.shiftr v 52) 0x7ff =? 0).
  - destruct fraction as [|m|m]; destruct (Z.testbit v 63); reflexivity || lia.
  - destruct (fraction + 0x0010000000000000) as [|m|m] eqn:E; [lia| |lia].
    destruct (Z.testbit v 63); reflexivity.
Qed.

Lemma mask_allowed m : is_u32 m ->
  Z.land m (Z.lxor UINT32_MAX (u32 (Z.shiftl 1 LAPLACE_STANDING_OUTCOME_UNCERTAIN - 1))) = 0 <->
  m <= 15.
Proof.
  intros Hm. change (Z.lxor _ _) with 0xfffffff0.
  assert (Hall : Z.land m UINT32_MAX = m).
  { change UINT32_MAX with (Z.ones 32). rewrite Z.land_ones by lia. apply Z.mod_small. lia. }
  assert (H15 : Z.land m 15 = m mod 16) by (change 15 with (Z.ones 4); by rewrite Z.land_ones by lia).
  pose proof (Z.mod_pos_bound m 16 ltac:(lia)) as Hb. split.
  - intros Hz. assert (Heq : Z.lor (Z.land m 15) (Z.land m 0xfffffff0) = m)
      by (rewrite <- Z.land_lor_distr_r; exact Hall).
    rewrite Hz, Z.lor_0_r, H15 in Heq. lia.
  - intros Hle. rewrite Z.mod_small in H15 by lia. rewrite <- H15, <- Z.land_assoc.
    apply Z.land_0_r.
Qed.

Lemma rateable_testbit r index : (index < LAPLACE_STANDING_OUTCOME_KIND_COUNT)%nat ->
  rateable r index = Z.testbit (rateable_outcome_mask r) (Z.of_nat index).
Proof.
  intros Hi. unfold rateable.
  replace (u32 (Z.shiftl 1 (Z.of_nat index))) with (Z.shiftl 1 (Z.of_nat index)).
  - rewrite land_bit_zero by lia. apply negb_involutive.
  - do 9 (destruct index as [|index]; [reflexivity|]). lia.
Qed.

Lemma greatest_common_divisor_spec n d :
  is_u64 n -> is_u64 d -> greatest_common_divisor n d = Z.gcd n d.
Proof. apply gcd_u64_spec. Qed.

Lemma score_refused_spec r index :
  recipe_wf r -> (index < LAPLACE_STANDING_OUTCOME_KIND_COUNT)%nat ->
  score_refused r index = false <->
  let (numerator, denominator) := nth index (recipe_scores r) (0, 0) in
  if Z.testbit (rateable_outcome_mask r) (Z.of_nat index)
  then 0 < denominator /\ numerator <= denominator /\ Z.gcd numerator denominator = 1
  else numerator = 0 /\ denominator = 0.
Proof.
  intros Hwf Hi. rewrite recipe_scores_nth by done. unfold score_refused.
  rewrite rateable_testbit by done.
  assert (Hu : is_u64 (nth index (recipe_score_numerator r) 0) /\
               is_u64 (nth index (recipe_score_denominator r) 0)).
  { destruct (wf_numerators r Hwf) as [Hl1 Hn], (wf_denominators r Hwf) as [Hl2 Hd].
    rewrite Forall_forall in Hn, Hd. split; [apply Hn|apply Hd];
      apply list_elem_of_In, nth_In; lia. }
  destruct Hu as [Hn Hd].
  set (n := nth index (recipe_score_numerator r) 0) in *.
  set (d := nth index (recipe_score_denominator r) 0) in *.
  rewrite (greatest_common_divisor_spec n d Hn Hd).
  destruct (Z.testbit _ _); cbn [andb negb orb]; lia.
Qed.

Lemma scores_lawful r : recipe_wf r ->
  existsb (score_refused r) (seq 0 LAPLACE_STANDING_OUTCOME_KIND_COUNT) = false <->
  forall kind, 1 <= kind <= LAPLACE_STANDING_OUTCOME_INVALID_EXECUTION ->
    let (numerator, denominator) := score_of r kind in
    if Z.testbit (rateable_outcome_mask r) (kind - 1)
    then 0 < denominator /\ numerator <= denominator /\ Z.gcd numerator denominator = 1
    else numerator = 0 /\ denominator = 0.
Proof.
  intros Hwf. rewrite <- not_true_iff_false, existsb_exists. split.
  - intros Hno kind Hk.
    pose proof (score_refused_spec r (Z.to_nat (kind - 1)) Hwf ltac:(lia)) as Hs.
    rewrite Z2Nat.id in Hs by lia. apply Hs. apply not_true_iff_false. intros Hr. apply Hno.
    exists (Z.to_nat (kind - 1)). split; [|exact Hr]. apply in_seq. lia.
  - intros Hall (index & Hin & Hr). apply in_seq in Hin.
    pose proof (score_refused_spec r index Hwf ltac:(lia)) as Hs.
    specialize (Hall (Z.of_nat index + 1) ltac:(lia)). unfold score_of in Hall.
    replace (Z.to_nat (Z.of_nat index + 1 - 1)) with index in Hall by lia.
    replace (Z.of_nat index + 1 - 1) with (Z.of_nat index) in Hall by lia.
    apply Hs in Hall. congruence.
Qed.

Lemma recipe_shape_lawful r : recipe_wf r ->
  recipe_shape_valid (Some r) = true <-> recipe_lawful r.
Proof.
  intros Hwf. unfold recipe_shape_valid.
  pose proof (mask_allowed (rateable_outcome_mask r) (wf_mask r Hwf)) as Hm.
  pose proof (scores_lawful r Hwf) as Hs. pose proof (wf_mask r Hwf) as Hu.
  split.
  - casec; [done|]. intros Hok. apply negb_true_iff in Hok.
    rewrite !finite_positive in * by done. bools.
    split; [by repeat constructor|done| | | |by apply Hs|done..].
    + unfold usable. by rewrite andb_true_iff.
    + unfold usable. by rewrite andb_true_iff.
    + assert (rateable_outcome_mask r <= 15) by (by apply Hm). lia.
  - intros [Href Hdef Hcon Htol Hmask Hsc Hrole Har Hver Hfl].
    unfold usable in Hcon, Htol. apply andb_true_iff in Hcon as [Hc1 Hc2], Htol as [Ht1 Ht2].
    rewrite !finite_positive by done.
    apply Hs in Hsc. rewrite Hsc, Hdef, Hc1, Hc2, Ht1, Ht2, Hver, Hfl.
    rewrite (proj2 Hm) by lia. rewrite !Forall_cons in Href.
    destruct Href as (-> & -> & -> & -> & -> & -> & _).
    rewrite (proj2 (Z.eqb_neq _ _) Hrole), (proj2 (Z.eqb_neq _ _) Har).
    rewrite (proj2 (Z.eqb_neq (rateable_outcome_mask r) 0)) by lia. reflexivity.
Qed.

(** ** What the identities bind *)
(** Two recipes, states, events that agree on everything but their identity;
    an event binds its opponent by the identity of the opponent's state. *)
Definition same_recipe (v w : laplace_standing_recipe) : Prop :=
  mk_recipe (recipe_id w) (authority_receipt_id v) (recipe_evaluation_law_id v)
    (recipe_world_context_id v) (recipe_language_modality_id v) (recipe_valid_time_scope_id v)
    (recipe_evidence_boundary_id v) (default_rating v) (default_rating_deviation v)
    (default_volatility v) (volatility_constraint v) (convergence_tolerance v)
    (recipe_score_numerator v) (recipe_score_denominator v) (rateable_outcome_mask v)
    (recipe_participant_role v) (recipe_arena_kind v) (recipe_version v) (recipe_flags v) = w.

Definition same_state (v w : laplace_standing_state) : Prop := with_state_id v (state_id w) = w.

Lemma prefix_code_score :
  prefix_code (fun s : Z * Z => is_u64 s.1 /\ is_u64 s.2) score_code.
Proof.
  intros [n d] [n' d'] x y [Hn Hd] [Hn' Hd'] H. unfold score_code in H. simpl in *. peel H.
  by subst.
Qed.

Lemma listed_scores (l : list Z) : length l = LAPLACE_STANDING_OUTCOME_KIND_COUNT ->
  map (fun index => nth index l 0) (seq 0 LAPLACE_STANDING_OUTCOME_KIND_COUNT) = l.
Proof. do 10 (destruct l as [|? l]; [done|]). done. Qed.

Lemma recipe_scores_inj v w : recipe_wf v -> recipe_wf w ->
  recipe_scores v = recipe_scores w ->
  recipe_score_numerator v = recipe_score_numerator w /\
  recipe_score_denominator v = recipe_score_denominator w.
Proof.
  intros Hv Hw H.
  assert (Hn : map fst (recipe_scores v) = map fst (recipe_scores w)) by by rewrite H.
  assert (Hd : map snd (recipe_scores v) = map snd (recipe_scores w)) by by rewrite H.
  unfold recipe_scores in Hn, Hd. rewrite !map_map in Hn, Hd.
  cbn [fst snd] in Hn, Hd. rewrite !listed_scores in Hn by (apply wf_numerators; done).
  by rewrite !listed_scores in Hd by (apply wf_denominators; done).
Qed.

Lemma recipe_scores_words r : recipe_wf r ->
  Forall (fun s : Z * Z => is_u64 s.1 /\ is_u64 s.2) (recipe_scores r).
Proof.
  intros Hwf. apply Forall_forall. intros s Hs.
  unfold recipe_scores in Hs. apply list_elem_of_fmap in Hs as (i & -> & Hi%list_elem_of_In).
  apply in_seq in Hi. destruct (wf_numerators r Hwf) as [Hl1 Hn], (wf_denominators r Hwf) as [Hl2 Hd].
  rewrite Forall_forall in Hn, Hd. cbn [fst snd].
  split; [apply Hn|apply Hd]; apply list_elem_of_In, nth_In; lia.
Qed.

Lemma recipe_transcript_inj v w : recipe_wf v -> recipe_wf w ->
  recipe_transcript v = recipe_transcript w <-> same_recipe v w.
Proof.
  intros Hv Hw. split; [|by intros <-]. intros H. unfold recipe_transcript in H.
  apply app_inv_head in H.
  pose proof (recipe_scores_words v Hv) as Hsv. pose proof (recipe_scores_words w Hw) as Hsw.
  pose proof (recipe_scores_inj v w Hv Hw) as Hinj.
  rewrite <- (app_nil_r (store_le 4 (recipe_flags v))) in H.
  rewrite <- (app_nil_r (store_le 4 (recipe_flags w))) in H.
  destruct Hv, Hw. peel H.
  apply (prefix_code_list _ _ prefix_code_score) in H as [Hsc H]; [|done|done|reflexivity].
  destruct (Hinj Hsc) as [Hn Hd]. peel H.
  destruct v, w. unfold same_recipe.
  cbn in * |-. subst. reflexivity.
Qed.

Lemma state_transcript_inj v w : state_wf v -> state_wf w ->
  state_transcript v = state_transcript w <-> same_state v w.
Proof.
  intros Hv Hw. split; [|by intros <-]. intros H. unfold state_transcript in H.
  apply app_inv_head in H.
  rewrite <- (app_nil_r (store_le 4 (state_flags v))) in H.
  rewrite <- (app_nil_r (store_le 4 (state_flags w))) in H.
  destruct Hv, Hw. peel H. destruct v, w. unfold same_state, with_state_id.
  cbn in * |-. subst. reflexivity.
Qed.

Lemma score_of_words r kind : recipe_wf r ->
  1 <= kind <= LAPLACE_STANDING_OUTCOME_INVALID_EXECUTION ->
  is_u64 (score_of r kind).1 /\ is_u64 (score_of r kind).2.
Proof.
  intros Hwf Hk. pose proof (recipe_scores_words r Hwf) as Hs. rewrite Forall_forall in Hs.
  apply Hs, list_elem_of_In, nth_In. unfold recipe_scores. rewrite length_map, length_seq. lia.
Qed.

(** The outcome mapping of a lawful recipe exists for its rateable kinds. *)
Lemma rateable_kinds r kind : recipe_lawful r ->
  1 <= kind <= LAPLACE_STANDING_OUTCOME_INVALID_EXECUTION -> kind_rateable r kind ->
  kind <= LAPLACE_STANDING_OUTCOME_UNCERTAIN.
Proof.
  intros Hl Hk Hr. pose proof (lawful_mask r Hl) as Hm. unfold kind_rateable in Hr.
  destruct (decide (kind <= 4)); [lia|].
  rewrite Z.bits_above_log2 in Hr; [done|lia|].
  pose proof (Z.log2_le_mono _ _ (proj2 Hm)) as Hlog. change (Z.log2 15) with 3 in Hlog. lia.
Qed.

(** The kinds for which a recipe that carries its own identity has a score. *)
Definition outcome_mapped {B : Blake3} (r : laplace_standing_recipe) (kind : Z) : Prop :=
  recipe_lawful r /\ recipe_id r = recipe_digest r /\
  LAPLACE_STANDING_OUTCOME_CONFIRM <= kind <= LAPLACE_STANDING_OUTCOME_UNCERTAIN /\
  kind_rateable r kind.

Lemma mapping_outcome {B : Blake3} {L : Blake3Laws B} r kind out :
  recipe_wf r ->
  let mapped := laplace_standing_outcome_mapping_identify (Some r) kind (Some out) in
  (outcome_mapped r kind /\ mapped = (LAPLACE_STANDING_OK, Some (mapping_digest r kind))) \/
  (~ outcome_mapped r kind /\ mapped.1 <> LAPLACE_STANDING_OK /\ mapped.2 = Some out).
Proof.
  intros Hwf mapped. unfold mapped, outcome_mapped.
  destruct (decide (1 <= kind <= LAPLACE_STANDING_OUTCOME_INVALID_EXECUTION)) as [Hk|Hk].
  2:{ right. split; [intros (_ & _ & ? & _); lia|].
      unfold laplace_standing_outcome_mapping_identify. ptrs.
      destruct (Z.ltb_spec kind 1); [done|]. destruct (Z.ltb_spec 9 kind); [done|lia]. }
  rewrite mapping_identify_spec by done.
  pose proof (recipe_shape_lawful r Hwf) as Hs.
  destruct (recipe_shape_valid (Some r)).
  2:{ right. split; [|done]. intros (Hl & _). by apply Hs in Hl. }
  pose proof (proj1 Hs eq_refl) as Hl.
  destruct (bytes_equal (recipe_id r) (recipe_digest r)) eqn:Hid.
  2:{ right. split; [|done]. intros (_ & Hid' & _). by apply bytes_equal_false in Hid. }
  apply bytes_equal_spec in Hid. rewrite rateable_testbit by lia.
  rewrite Z2Nat.id by lia. unfold kind_rateable.
  destruct (Z.testbit (rateable_outcome_mask r) (kind - 1)) eqn:Hr; [left|right].
  - pose proof (rateable_kinds r kind Hl Hk Hr). split; [|done].
    split; [done|]. split; [done|]. split; [lia|done].
  - split; [|done]. by intros (_ & _ & _ & ?).
Qed.

Lemma mapping_transcript_inj {B : Blake3} v w kind kind' :
  recipe_wf v -> recipe_wf w -> bytes 32 (recipe_id v) -> bytes 32 (recipe_id w) ->
  outcome_mapped v kind -> outcome_mapped w kind' ->
  mapping_transcript v kind = mapping_transcript w kind' ->
  recipe_id v = recipe_id w /\ kind = kind' /\ score_of v kind = score_of w kind'.
Proof.
  intros Hv Hw Hidv Hidw (_ & _ & Hk & _) (_ & _ & Hk' & _) H.
  unfold mapping_transcript in H. fold (score_of v kind) (score_of w kind') in H.
  pose proof (score_of_words v kind Hv ltac:(lia)). pose proof (score_of_words w kind' Hw ltac:(lia)).
  apply app_inv_head in H.
  rewrite <- (app_nil_r (score_code (score_of v kind))) in H.
  rewrite <- (app_nil_r (score_code (score_of w kind'))) in H.
  assert (is_u32 kind) by lia. assert (is_u32 kind') by lia. peel H.
  apply prefix_code_score in H as [Hsc _]; done.
Qed.

(** a recipe is identified by everything it says, and decides which
    outcomes rate.  Identification succeeds exactly for a lawful recipe: its
    references present, its defaults finite with positive deviation and
    volatility, its constraint and tolerance positive and finite, at least one
    rateable outcome among confirm, refute, draw and uncertain, each with a
    reduced score of the unit interval, every other score zero.  Its transcript
    is shared by exactly the recipes that agree on every field.  An outcome
    mapping is given exactly for the rateable kinds of a recipe that carries
    its own identity, and its transcript binds recipe, kind and score. *)
Theorem recipe_identity {B : Blake3} {L : Blake3Laws B} v w kind kind' out :
  recipe_wf v -> recipe_wf w -> bytes 32 (recipe_id v) -> bytes 32 (recipe_id w) ->
  let mapped := laplace_standing_outcome_mapping_identify (Some v) kind (Some out) in
  laplace_standing_recipe_identify (Some v) (Some out) =
    (if recipe_shape_valid (Some v)
     then (LAPLACE_STANDING_OK, Some (blake3 (recipe_transcript v)))
     else (LAPLACE_STANDING_RECIPE_INVALID, Some out)) /\
  (recipe_shape_valid (Some v) = true <-> recipe_lawful v) /\
  (recipe_transcript v = recipe_transcript w <-> same_recipe v w) /\
  (mapped.1 = LAPLACE_STANDING_OK <-> outcome_mapped v kind) /\
  mapped.2 = Some (if decide (mapped.1 = LAPLACE_STANDING_OK)
                   then blake3 (mapping_transcript v kind) else out) /\
  (outcome_mapped v kind -> outcome_mapped w kind' ->
     mapping_transcript v kind = mapping_transcript w kind' ->
     recipe_id v = recipe_id w /\ kind = kind' /\ score_of v kind = score_of w kind').
Proof.
  intros Hv Hw Hidv Hidw mapped.
  split; [apply recipe_identify_spec|]. split; [by apply recipe_shape_lawful|].
  split; [by apply recipe_transcript_inj|].
  pose proof (mapping_outcome v kind out Hv) as Hout. cbv zeta in Hout. fold mapped in Hout.
  clearbody mapped. destruct Hout as [[Hm He]|(Hm & Hno & Ho)].
  - rewrite He. cbn [fst snd]. rewrite decide_True by done. split; [done|]. split; [done|].
    by apply mapping_transcript_inj.
  - rewrite decide_False by done. split; [split; [by intros ?|by intros ?%Hm]|].
    split; [done|]. by apply mapping_transcript_inj.
Qed.

(** ** Onboarding *)
(** The state onboarding builds before it is identified. *)
Definition onboarding_draft {B : Blake3} (r : laplace_standing_recipe)
    (participant epoch : laplace_digest256) : laplace_standing_state :=
  let coordinate := participant_coordinate r participant in
  mk_state (zeros 32) (coordinate_digest coordinate) (scope_digest coordinate) (zeros 32) epoch
    (recipe_id r) (default_rating r) (default_rating_deviation r) (default_volatility r) 0 0
    (recipe_version r) LAPLACE_STANDING_FLAGS_NONE.

Definition onboarded {B : Blake3} (r : laplace_standing_recipe)
    (participant epoch : laplace_digest256) : laplace_standing_state :=
  let draft := onboarding_draft r participant epoch in with_state_id draft (state_digest draft).

Section Onboarding.
Context {B : Blake3} {L : Blake3Laws B}.

Lemma state_digest_with_id s id : state_digest (with_state_id s id) = state_digest s.
Proof. reflexivity. Qed.

Lemma identify_in_place_spec s :
  identify_in_place s =
  if state_invalid s then (LAPLACE_STANDING_STATE_INVALID, s)
  else (LAPLACE_STANDING_OK, with_state_id s (state_digest s)).
Proof.
  unfold identify_in_place. rewrite state_identify_spec.
  destruct (state_invalid s); [|reflexivity]. by destruct s.
Qed.

Lemma recipe_shape_facts r : recipe_shape_valid (Some r) = true ->
  numeric_state_valid (default_rating r) (default_rating_deviation r)
    (default_volatility r) = true /\
  bytes_zero (recipe_evaluation_law_id r) = false /\
  bytes_zero (recipe_world_context_id r) = false /\
  bytes_zero (recipe_language_modality_id r) = false /\
  bytes_zero (recipe_valid_time_scope_id r) = false /\
  bytes_zero (recipe_evidence_boundary_id r) = false /\
  recipe_participant_role r <> 0 /\ recipe_arena_kind r <> 0 /\
  recipe_version r = LAPLACE_STANDING_VERSION.
Proof. unfold recipe_shape_valid. casec; [done|]. intros _. by split_and!. Qed.

Lemma participant_coordinate_valid r participant :
  recipe_shape_valid (Some r) = true -> bytes_zero participant = false ->
  coordinate_invalid (participant_coordinate r participant) = bytes_zero (recipe_id r).
Proof.
  intros (_ & H1 & H2 & H3 & H4 & H5 & H6 & H7 & H8)%recipe_shape_facts Hp.
  unfold coordinate_invalid, participant_coordinate.
  cbn [participant_id evaluation_law_id world_context_id language_modality_id valid_time_scope_id
    evidence_boundary_id coordinate_recipe_id participant_role arena_kind
    coordinate_recipe_version coordinate_flags].
  rewrite Hp, H1, H2, H3, H4, H5, H8, (proj2 (Z.eqb_neq _ _) H6), (proj2 (Z.eqb_neq _ _) H7).
  cbn [orb]. destruct (bytes_zero (recipe_id r)); reflexivity.
Qed.

Lemma onboarding_draft_valid r participant epoch :
  recipe_shape_valid (Some r) = true -> bytes_zero epoch = false ->
  bytes_zero (recipe_id r) = false ->
  state_invalid (onboarding_draft r participant epoch) =
  bytes_zero (coordinate_digest (participant_coordinate r participant)) ||
  bytes_zero (scope_digest (participant_coordinate r participant)).
Proof.
  intros (H1 & _ & _ & _ & _ & _ & _ & _ & H8)%recipe_shape_facts He Hr.
  unfold state_invalid, onboarding_draft.
  cbn [coordinate_id arena_scope_id epoch_id rating_recipe_id rating rating_deviation
    state_volatility rating_recipe_version state_flags period_ordinal prior_state_id].
  rewrite He, Hr, H1, H8. change (bytes_zero (zeros 32)) with true.
  destruct (bytes_zero (coordinate_digest _)), (bytes_zero (scope_digest _)); reflexivity.
Qed.

(** Onboarding, branch by branch. *)
Lemma onboard_spec r participant epoch s :
  laplace_standing_onboard (Some r) (Some participant) (Some epoch) (Some s) =
  let coordinate := participant_coordinate r participant in
  if bytes_zero participant || bytes_zero epoch
  then (LAPLACE_STANDING_INVALID_ARGUMENT, Some s)
  else if negb (recipe_shape_valid (Some r)) then (LAPLACE_STANDING_RECIPE_INVALID, Some s)
  else if negb (bytes_equal (recipe_id r) (recipe_digest r))
  then (LAPLACE_STANDING_RECIPE_IDENTITY_MISMATCH, Some s)
  else if bytes_zero (recipe_id r) then (LAPLACE_STANDING_COORDINATE_INVALID, Some empty_state)
  else if bytes_zero (coordinate_digest coordinate) || bytes_zero (scope_digest coordinate)
  then (LAPLACE_STANDING_STATE_INVALID, Some (onboarding_draft r participant epoch))
  else (LAPLACE_STANDING_OK, Some (onboarded r participant epoch)).
Proof.
  unfold laplace_standing_onboard. cbv zeta.
  destruct (bytes_zero participant) eqn:Hp; [reflexivity|].
  destruct (bytes_zero epoch) eqn:He; [reflexivity|]. cbn [orb].
  rewrite recipe_identify_spec. destruct (recipe_shape_valid (Some r)) eqn:Hs; [|reflexivity].
  cbn [negb]. destruct (bytes_equal _ _); [|reflexivity]. cbn [negb].
  rewrite coordinate_identify_spec, participant_coordinate_valid by assumption.
  destruct (bytes_zero (recipe_id r)) eqn:Hr; [reflexivity|].
  change (mk_state (state_id empty_state) _ _ _ _ _ _ _ _ _ _ _ _)
    with (onboarding_draft r participant epoch).
  rewrite identify_in_place_spec, onboarding_draft_valid by assumption.
  destruct (_ || _); reflexivity.
Qed.
End Onboarding.

(** ** An arena *)
Definition sample_recipe_draft (id : laplace_digest256) : laplace_standing_recipe :=
  mk_recipe id (replicate 32 1) (replicate 32 2) (replicate 32 3) (replicate 32 4)
    (replicate 32 5) (replicate 32 6)
    0x4097700000000000 0x4075e00000000000 0x3faeb851eb851eb8 (* 1500, 350, 0.06 *)
    0x3fe0000000000000 0x3eb0c6f7a0b5ed8d (* 0.5, 10^-6 *)
    [1; 0; 1; 0; 0; 0; 0; 0; 0] [1; 1; 2; 0; 0; 0; 0; 0; 0] 7 1 1 1 0.

Definition sample_recipe : laplace_standing_recipe :=
  sample_recipe_draft (recipe_digest (B := checksum_blake3) (sample_recipe_draft [])).

Lemma sample_draft_wf id : recipe_wf (sample_recipe_draft id).
Proof. split; first [check | cbn; lia]. Qed.

Lemma sample_recipe_valid : recipe_shape_valid (Some sample_recipe) = true.
Proof. vm_compute. reflexivity. Qed.

Lemma sample_recipe_id_bytes : bytes 32 (recipe_id sample_recipe).
Proof. exact (blake3_bytes (Blake3Laws := checksum_blake3_laws) _). Qed.

Lemma sample_mappings :
  (laplace_standing_outcome_mapping_identify (B := checksum_blake3) (Some sample_recipe) 3
     (Some [])).1 = LAPLACE_STANDING_OK.
Proof. vm_compute. reflexivity. Qed.

Lemma sample_other_transcript :
  recipe_transcript sample_recipe = recipe_transcript (sample_recipe_draft (zeros 32)).
Proof. reflexivity. Qed.

Lemma recipe_identity_witness :
  recipe_lawful sample_recipe /\ same_recipe sample_recipe (sample_recipe_draft (zeros 32)) /\
  outcome_mapped (B := checksum_blake3) sample_recipe 3.
Proof.
  destruct (recipe_identity (B := checksum_blake3) (L := checksum_blake3_laws)
    sample_recipe (sample_recipe_draft (zeros 32)) 3 3 []
    (sample_draft_wf _) (sample_draft_wf _) sample_recipe_id_bytes (bytes_zeros 32))
    as (_ & Hlawful & Hsame & Hmapped & _).
  split; [apply Hlawful; exact sample_recipe_valid|].
  split; [apply Hsame; exact sample_other_transcript|].
  apply Hmapped. exact sample_mappings.
Defined.
