(* ===== verification/StandingPeriod.v ===== *)
(** * Standing: the rating period

    Models [laplace_standing_calculate_period] and its batch form of
    [engine/src/standing_calculation.c] over the data of [StandingCalculation]
    and the arithmetic of [StandingNumeric].  A period takes the exact prior
    state of a participant and the matches of one closed period, brings the
    matches into the order of their identities, admits each of them, and
    produces the successor state with a receipt, or names what is at fault.

    The outcome of each [malloc] is an argument.  The receipt and the error are
    returned as the code leaves them: before the matches are copied a failure
    leaves the receipt cleared, afterwards it writes the status into it; the
    successor is written only when every number of the period is in range. *)
From stdpp Require Import prelude strings sorting.
From Stdlib Require Import ZArith Lia SpecFloat.
From S2P Require Import Prelude Bytes Sorting Hash Identity Binary64.
From S2P Require Import StandingNumeric StandingCalculation.

(** ** Contract constants ([contracts/standing-calculation.json]) and sizes *)
Definition LAPLACE_STANDING_INPUT_DOMAIN := domain_bytes "laplace.standing.period-input.v1".
Definition LAPLACE_STANDING_OUTPUT_DOMAIN := domain_bytes "laplace.standing.period-output.v1".
Definition LAPLACE_STANDING_RECEIPT_DOMAIN := domain_bytes "laplace.standing.period-receipt.v1".
(** [sizeof] an event and a digest under the 64-bit ABI. *)
Abbreviation SIZEOF_EVENT := 520 (only parsing).
Abbreviation SIZEOF_DIGEST := 32 (only parsing).

(** ** Data *)
Record laplace_standing_period_receipt := mk_receipt {
  receipt_id : laplace_digest256;
  receipt_prior_state_id : laplace_digest256;
  successor_state_id : laplace_digest256;
  receipt_period_id : laplace_digest256;
  input_fingerprint : laplace_digest256;
  output_fingerprint : laplace_digest256;
  eligible_event_count : Z;
  prior_match_count : Z;
  successor_match_count : Z;
  receipt_iterations : Z;
  receipt_version : Z;
  receipt_status : Z;
  receipt_flags : Z }.

Record laplace_standing_error := mk_error {
  event_index : Z;
  volatility_iterations : Z;
  reserved : Z }.

Record laplace_standing_period_input := mk_input {
  input_recipe : laplace_standing_recipe;
  input_prior_state : laplace_standing_state;
  input_event : laplace_standing_event }.

Record laplace_standing_period_result := mk_result {
  result_successor_state : laplace_standing_state;
  result_receipt : laplace_standing_period_receipt }.

(** The numbers of the enumerators. *)
Definition status_code (status : laplace_standing_status) : Z :=
  match status with
  | LAPLACE_STANDING_OK => 0
  | LAPLACE_STANDING_INVALID_ARGUMENT => 1
  | LAPLACE_STANDING_COORDINATE_INVALID => 2
  | LAPLACE_STANDING_STATE_INVALID => 3
  | LAPLACE_STANDING_STATE_IDENTITY_MISMATCH => 4
  | LAPLACE_STANDING_EVENT_INVALID => 5
  | LAPLACE_STANDING_EVENT_IDENTITY_MISMATCH => 6
  | LAPLACE_STANDING_ARENA_MISMATCH => 7
  | LAPLACE_STANDING_PRIOR_MISMATCH => 8
  | LAPLACE_STANDING_DEPENDENCE_ROOT_DUPLICATE => 9
  | LAPLACE_STANDING_EVENT_DUPLICATE => 10
  | LAPLACE_STANDING_OUTCOME_NOT_RATEABLE => 11
  | LAPLACE_STANDING_NUMERIC_INVALID => 12
  | LAPLACE_STANDING_CONVERGENCE_FAILED => 13
  | LAPLACE_STANDING_RESOURCE_INSUFFICIENT => 14
  | LAPLACE_STANDING_OVERFLOW => 15
  | LAPLACE_STANDING_RECIPE_INVALID => 16
  | LAPLACE_STANDING_RECIPE_IDENTITY_MISMATCH => 17
  | LAPLACE_STANDING_OUTCOME_MAPPING_MISMATCH => 18
  end.

(** ** The numbers of a period *)
Record period_numbers := mk_numbers {
  next_volatility : double;
  next_phi : double;
  next_mu : double;
  used_iterations : Z }.

(** [initialize_receipt] *)
Definition initialize_receipt : laplace_standing_period_receipt :=
  mk_receipt (zeros 32) (zeros 32) (zeros 32) (zeros 32) (zeros 32) (zeros 32) 0 0 0 0
    LAPLACE_STANDING_VERSION 0 LAPLACE_STANDING_FLAGS_NONE.

Definition compare_event (a b : laplace_standing_event) : comparison :=
  memcmp (event_id a) (event_id b).
Definition compare_digest (a b : laplace_digest256) : comparison := memcmp a b.

Section Period.
Context {B : Blake3} {M : Libm}.

(** ** Admission of the matches *)
(** The checks of one round of the loop over the ordered matches. *)
Definition check_event (recipe : laplace_standing_recipe) (prior : laplace_standing_state)
    (period : laplace_digest256) (previous : option laplace_standing_event)
    (e : laplace_standing_event) : laplace_standing_status :=
  let opponent := opponent_prior_state e in
  let (status, opponent_id) :=
    laplace_standing_state_identify (Some opponent) (Some (zeros 32)) in
  return_when negb (bool_decide (status = LAPLACE_STANDING_OK)) with status ;;
  return_when negb (bytes_equal (default [] opponent_id) (state_id opponent))
    with LAPLACE_STANDING_STATE_IDENTITY_MISMATCH ;;
  let (status, expected_event_id) :=
    laplace_standing_event_identify (Some e) (Some (zeros 32)) in
  return_when negb (bool_decide (status = LAPLACE_STANDING_OK)) with status ;;
  return_when negb (bytes_equal (default [] expected_event_id) (event_id e))
    with LAPLACE_STANDING_EVENT_IDENTITY_MISMATCH ;;
  let (status, expected_mapping_id) :=
    laplace_standing_outcome_mapping_identify (Some recipe) (outcome_kind e) (Some (zeros 32)) in
  return_when negb (bool_decide (status = LAPLACE_STANDING_OK)) with status ;;
  let index := Z.to_nat (outcome_kind e - 1) in
  return_when negb (bytes_equal (default [] expected_mapping_id) (outcome_mapping_id e)) ||
              negb (score_numerator e =? nth index (recipe_score_numerator recipe) 0) ||
              negb (score_denominator e =? nth index (recipe_score_denominator recipe) 0)
    with LAPLACE_STANDING_OUTCOME_MAPPING_MISMATCH ;;
  return_when match previous with
              | None => false
              | Some p => bytes_equal (event_id p) (event_id e)
              end
    with LAPLACE_STANDING_EVENT_DUPLICATE ;;
  return_when negb (bytes_equal (participant_coordinate_id e) (coordinate_id prior)) ||
              negb (bytes_equal (participant_prior_state_id e) (state_id prior)) ||
              negb (bytes_equal (event_period_id e) period)
    with LAPLACE_STANDING_PRIOR_MISMATCH ;;
  return_when negb (bytes_equal (arena_scope_id opponent) (arena_scope_id prior)) ||
              bytes_equal (coordinate_id opponent) (coordinate_id prior) ||
              negb (bytes_equal (rating_recipe_id opponent) (rating_recipe_id prior)) ||
              negb (rating_recipe_version opponent =? rating_recipe_version prior)
    with LAPLACE_STANDING_ARENA_MISMATCH ;;
  return_when negb (initial_state_matches_recipe opponent recipe)
    with LAPLACE_STANDING_PRIOR_MISMATCH ;;
  LAPLACE_STANDING_OK.

(** The first match refused, with its index in the canonical order. *)
Fixpoint event_loop (recipe : laplace_standing_recipe) (prior : laplace_standing_state)
    (period : laplace_digest256) (previous : option laplace_standing_event)
    (events : list laplace_standing_event) (index : Z)
    : option (laplace_standing_status * Z) :=
  match events with
  | [] => None
  | e :: rest =>
      match check_event recipe prior period previous e with
      | LAPLACE_STANDING_OK => event_loop recipe prior period (Some e) rest (index + 1)
      | failed => Some (failed, index)
      end
  end.

(** The index of the first ordered root that equals the one before it. *)
Fixpoint duplicate_root (previous : laplace_digest256) (roots : list laplace_digest256)
    (index : Z) : option Z :=
  match roots with
  | [] => None
  | root :: rest =>
      if bytes_equal previous root then Some index else duplicate_root root rest (index + 1)
  end.

Definition root_loop (roots : list laplace_digest256) : option Z :=
  match roots with [] => None | first :: rest => duplicate_root first rest 1 end.

(** ** Accumulation *)
Definition to_mu (value : double) : double :=
  double_divide (double_subtract value LAPLACE_STANDING_SCALE_CENTER)
    LAPLACE_STANDING_SCALE_DIVISOR.
Definition to_phi (deviation : double) : double :=
  double_divide deviation LAPLACE_STANDING_SCALE_DIVISOR.

(** The two sums over the matches, [variance_inverse] and [improvement_sum]. *)
Definition accumulate (mu : double) (sums : double * double) (e : laplace_standing_event)
    : double * double :=
  let opponent_mu := to_mu (rating (opponent_prior_state e)) in
  let opponent_phi := to_phi (rating_deviation (opponent_prior_state e)) in
  let g := g_function opponent_phi in
  let expected := expectation mu opponent_mu opponent_phi in
  let score := double_divide (double_of_u64 (score_numerator e))
                 (double_of_u64 (score_denominator e)) in
  (double_add sums.1
     (double_multiply (double_multiply (double_multiply g g) expected)
        (double_subtract one expected)),
   double_add sums.2 (double_multiply g (double_subtract score expected))).

Definition hash_inputs (recipe : laplace_standing_recipe) (prior : laplace_standing_state)
    (period : laplace_digest256) (events : list laplace_standing_event) (event_count : Z)
    : blake3_hasher :=
  let hasher := blake3_hasher_update blake3_hasher_init LAPLACE_STANDING_INPUT_DOMAIN in
  let hasher := blake3_hasher_update hasher (state_id prior) in
  let hasher := blake3_hasher_update hasher period in
  let hasher := blake3_hasher_update hasher (recipe_id recipe) in
  let hasher := hash_u64 hasher event_count in
  foldl (fun h e => blake3_hasher_update h (event_id e)) hasher events.

(** The numbers, or the status with the count [error->volatility_iterations]
    is left with. *)
Definition calculate_numbers (recipe : laplace_standing_recipe)
    (prior : laplace_standing_state) (events : list laplace_standing_event)
    : period_numbers + laplace_standing_status * Z :=
  let mu := to_mu (rating prior) in
  let phi := to_phi (rating_deviation prior) in
  let '(variance_inverse, improvement_sum) := foldl (accumulate mu) (zero, zero) events in
  return_when negb (isfinite variance_inverse) || double_le variance_inverse zero ||
              negb (isfinite improvement_sum)
    with inr (LAPLACE_STANDING_NUMERIC_INVALID, 0) ;;
  let variance := double_divide one variance_inverse in
  let delta := double_multiply variance improvement_sum in
  let '(status, next_volatility, iterations) :=
    solve_volatility phi (state_volatility prior) variance delta
      (volatility_constraint recipe) (convergence_tolerance recipe) zero 0 in
  return_when negb (bool_decide (status = LAPLACE_STANDING_OK)) with inr (status, iterations) ;;
  let phi_star := double_sqrt (double_add (double_multiply phi phi)
                    (double_multiply next_volatility next_volatility)) in
  let next_phi := double_divide one (double_sqrt
                    (double_add (double_divide one (double_multiply phi_star phi_star))
                       (double_divide one variance))) in
  let next_mu := double_add mu
                   (double_multiply (double_multiply next_phi next_phi) improvement_sum) in
  return_when negb (isfinite phi_star) || negb (isfinite next_phi) || double_le next_phi zero ||
              negb (isfinite next_mu)
    with inr (LAPLACE_STANDING_NUMERIC_INVALID, 0) ;;
  inl (mk_numbers next_volatility next_phi next_mu iterations).

(** ** Successor and receipt *)
Definition successor_draft (prior : laplace_standing_state) (period : laplace_digest256)
    (numbers : period_numbers) (event_count : Z) : laplace_standing_state :=
  mk_state (zeros 32) (coordinate_id prior) (arena_scope_id prior) (state_id prior) period
    (rating_recipe_id prior)
    (double_add (double_multiply (next_mu numbers) LAPLACE_STANDING_SCALE_DIVISOR)
       LAPLACE_STANDING_SCALE_CENTER)
    (double_multiply (next_phi numbers) LAPLACE_STANDING_SCALE_DIVISOR)
    (next_volatility numbers)
    (u64 (eligible_match_count prior + event_count)) (u64 (period_ordinal prior + 1))
    (rating_recipe_version prior) LAPLACE_STANDING_FLAGS_NONE.

Definition hash_output (successor : laplace_standing_state) : blake3_hasher :=
  blake3_hasher_update
    (blake3_hasher_update blake3_hasher_init LAPLACE_STANDING_OUTPUT_DOMAIN)
    (state_id successor).

Definition hash_receipt (r : laplace_standing_period_receipt) : blake3_hasher :=
  let hasher := blake3_hasher_update blake3_hasher_init LAPLACE_STANDING_RECEIPT_DOMAIN in
  let hasher := blake3_hasher_update hasher (receipt_prior_state_id r) in
  let hasher := blake3_hasher_update hasher (successor_state_id r) in
  let hasher := blake3_hasher_update hasher (receipt_period_id r) in
  let hasher := blake3_hasher_update hasher (input_fingerprint r) in
  let hasher := blake3_hasher_update hasher (output_fingerprint r) in
  let hasher := hash_u64 hasher (eligible_event_count r) in
  let hasher := hash_u64 hasher (prior_match_count r) in
  let hasher := hash_u64 hasher (successor_match_count r) in
  let hasher := hash_u32 hasher (receipt_iterations r) in
  let hasher := hash_u32 hasher (receipt_version r) in
  let hasher := hash_u32 hasher (receipt_status r) in
  hash_u32 hasher (receipt_flags r).

Definition final_receipt (recipe : laplace_standing_recipe) (prior successor : laplace_standing_state)
    (period : laplace_digest256) (ordered : list laplace_standing_event) (event_count : Z)
    (iterations : Z) : laplace_standing_period_receipt :=
  let body := mk_receipt (zeros 32) (state_id prior) (state_id successor) period
    (blake3_hasher_finalize (hash_inputs recipe prior period ordered event_count))
    (blake3_hasher_finalize (hash_output successor))
    event_count (eligible_match_count prior) (eligible_match_count successor) iterations
    (receipt_version initialize_receipt) (status_code LAPLACE_STANDING_OK)
    (receipt_flags initialize_receipt) in
  mk_receipt (blake3_hasher_finalize (hash_receipt body)) (receipt_prior_state_id body)
    (successor_state_id body) (receipt_period_id body) (input_fingerprint body)
    (output_fingerprint body) (eligible_event_count body) (prior_match_count body)
    (successor_match_count body) (receipt_iterations body) (receipt_version body)
    (receipt_status body) (receipt_flags body).

(** [failure: receipt->status = (uint32_t)status;] *)
Definition failed_receipt (status : laplace_standing_status) : laplace_standing_period_receipt :=
  mk_receipt (zeros 32) (zeros 32) (zeros 32) (zeros 32) (zeros 32) (zeros 32) 0 0 0 0
    LAPLACE_STANDING_VERSION (status_code status) LAPLACE_STANDING_FLAGS_NONE.

(** ** The period *)
(** The checks on recipe and prior state, in the order of the code. *)
Definition check_prior (recipe : laplace_standing_recipe) (prior : laplace_standing_state)
    : laplace_standing_status :=
  let (status, expected_recipe_id) :=
    laplace_standing_recipe_identify (Some recipe) (Some (zeros 32)) in
  return_when negb (bool_decide (status = LAPLACE_STANDING_OK)) with status ;;
  return_when negb (bytes_equal (recipe_id recipe) (default [] expected_recipe_id))
    with LAPLACE_STANDING_RECIPE_IDENTITY_MISMATCH ;;
  let (status, expected_state_id) :=
    laplace_standing_state_identify (Some prior) (Some (zeros 32)) in
  return_when negb (bool_decide (status = LAPLACE_STANDING_OK)) with status ;;
  return_when negb (bytes_equal (default [] expected_state_id) (state_id prior))
    with LAPLACE_STANDING_STATE_IDENTITY_MISMATCH ;;
  return_when negb (bytes_equal (rating_recipe_id prior) (recipe_id recipe)) ||
              negb (rating_recipe_version prior =? recipe_version recipe)
    with LAPLACE_STANDING_ARENA_MISMATCH ;;
  return_when negb (initial_state_matches_recipe prior recipe)
    with LAPLACE_STANDING_PRIOR_MISMATCH ;;
  LAPLACE_STANDING_OK.

(** The part after the copies exist: the status, the successor written if any,
    the receipt, the error index and iteration count. *)
Definition period_of_copies (recipe : laplace_standing_recipe) (prior : laplace_standing_state)
    (period : laplace_digest256) (events : list laplace_standing_event) (event_count : Z)
    : laplace_standing_status * option laplace_standing_state *
      laplace_standing_period_receipt * laplace_standing_error :=
  let ordered := qsort compare_event events in
  let failure status successor index iterations :=
    (status, successor, failed_receipt status, mk_error index iterations 0) in
  match event_loop recipe prior period None ordered 0 with
  | Some (status, index) => failure status None index 0
  | None =>
      match root_loop (qsort compare_digest (map eligible_root_id ordered)) with
      | Some index => failure LAPLACE_STANDING_DEPENDENCE_ROOT_DUPLICATE None index 0
      | None =>
          match calculate_numbers recipe prior ordered with
          | inr (status, iterations) => failure status None UINT64_MAX iterations
          | inl numbers =>
              return_when (UINT64_MAX - eligible_match_count prior <? event_count) ||
                          (period_ordinal prior =? UINT64_MAX)
                with failure LAPLACE_STANDING_OVERFLOW None UINT64_MAX 0 ;;
              match identify_in_place (successor_draft prior period numbers event_count) with
              | (LAPLACE_STANDING_OK, successor) =>
                  (LAPLACE_STANDING_OK, Some successor,
                   final_receipt recipe prior successor period ordered event_count
                     (used_iterations numbers),
                   mk_error UINT64_MAX (used_iterations numbers) 0)
              | (status, draft) => failure status (Some draft) UINT64_MAX 0
              end
          end
      end
  end.

Definition laplace_standing_calculate_period (malloc_ordered malloc_roots : bool)
    (recipe : ptr laplace_standing_recipe) (prior_state : ptr laplace_standing_state)
    (period_id : ptr laplace_digest256) (events : ptr (list laplace_standing_event))
    (event_count : Z) (successor_state : ptr laplace_standing_state)
    (receipt : ptr laplace_standing_period_receipt) (error : ptr laplace_standing_error)
    : laplace_standing_status * ptr laplace_standing_state *
      ptr laplace_standing_period_receipt * ptr laplace_standing_error :=
  let early status :=
    (status, successor_state, store receipt initialize_receipt,
     store error (mk_error UINT64_MAX 0 0)) in
  match recipe, prior_state, period_id, events with
  | Some recipe, Some prior, Some period, Some _ =>
      return_when (event_count =? 0) || is_null successor_state || is_null receipt ||
                  bytes_zero period
        with early LAPLACE_STANDING_INVALID_ARGUMENT ;;
      match check_prior recipe prior with
      | LAPLACE_STANDING_OK =>
          return_when (SIZE_MAX / SIZEOF_EVENT <? event_count) ||
                      (SIZE_MAX / SIZEOF_DIGEST <? event_count)
            with early LAPLACE_STANDING_OVERFLOW ;;
          return_when negb malloc_ordered || negb malloc_roots
            with early LAPLACE_STANDING_RESOURCE_INSUFFICIENT ;;
          let '(status, successor, receipt', error') :=
            period_of_copies recipe prior period (cells events event_count) event_count in
          (status,
           match successor with Some s => store successor_state s | None => successor_state end,
           store receipt receipt', store error error')
      | failed => early failed
      end
  | _, _, _, _ => early LAPLACE_STANDING_INVALID_ARGUMENT
  end.

(** ** The batch *)
(** One round of the loop: the failure, or the event copied. *)
Definition check_input (first input : laplace_standing_period_input)
    : laplace_standing_event + laplace_standing_status :=
  let recipe := input_recipe input in
  let (status, identified_recipe_id) :=
    laplace_standing_recipe_identify (Some recipe) (Some (zeros 32)) in
  return_when negb (bool_decide (status = LAPLACE_STANDING_OK)) ||
              negb (bytes_equal (default [] identified_recipe_id) (recipe_id recipe)) ||
              negb (bytes_equal (recipe_id recipe) (recipe_id (input_recipe first)))
    with inr (if bool_decide (status = LAPLACE_STANDING_OK)
              then LAPLACE_STANDING_RECIPE_IDENTITY_MISMATCH else status) ;;
  let prior := input_prior_state input in
  let (status, identified_state_id) :=
    laplace_standing_state_identify (Some prior) (Some (zeros 32)) in
  return_when negb (bool_decide (status = LAPLACE_STANDING_OK)) ||
              negb (bytes_equal (default [] identified_state_id) (state_id prior)) ||
              negb (bytes_equal (state_id prior) (state_id (input_prior_state first)))
    with inr LAPLACE_STANDING_PRIOR_MISMATCH ;;
  inl (input_event input).

Fixpoint input_loop (first : laplace_standing_period_input)
    (inputs : list laplace_standing_period_input) (index : Z)
    : list laplace_standing_event + laplace_standing_status * Z :=
  match inputs with
  | [] => inl []
  | input :: rest =>
      match check_input first input with
      | inr status => inr (status, index)
      | inl event =>
          match input_loop first rest (index + 1) with
          | inl events => inl (event :: events)
          | inr failed => inr failed
          end
      end
  end.

Definition empty_receipt : laplace_standing_period_receipt :=
  mk_receipt (zeros 32) (zeros 32) (zeros 32) (zeros 32) (zeros 32) (zeros 32) 0 0 0 0 0 0 0.

Definition laplace_standing_calculate_period_batch
    (malloc_events malloc_ordered malloc_roots : bool)
    (inputs : ptr (list laplace_standing_period_input)) (input_count : Z)
    (result : ptr laplace_standing_period_result) (error : ptr laplace_standing_error)
    : laplace_standing_status * ptr laplace_standing_period_result * ptr laplace_standing_error :=
  return_when is_null inputs || (input_count =? 0) || is_null result ||
              (SIZE_MAX / SIZEOF_EVENT <? input_count)
    with (LAPLACE_STANDING_INVALID_ARGUMENT, result, error) ;;
  return_when negb malloc_events
    with (LAPLACE_STANDING_RESOURCE_INSUFFICIENT, result, error) ;;
  match cells inputs input_count with
  | [] => (* not reached: the array holds [input_count] > 0 rows *)
      (LAPLACE_STANDING_INVALID_ARGUMENT, result, error)
  | (first :: _) as all =>
      match input_loop first all 0 with
      | inr (status, index) => (status, result, store error (mk_error index 0 0))
      | inl events =>
          let '(status, successor, receipt, error') :=
            laplace_standing_calculate_period malloc_ordered malloc_roots
              (Some (input_recipe first)) (Some (input_prior_state first))
              (Some (event_period_id (input_event first))) (Some events) input_count
              (Some empty_state) (Some empty_receipt) error in
          (status,
           store result (mk_result (default empty_state successor) (default empty_receipt receipt)),
           error')
      end
  end.
End Period.

(** ** The law of a period *)
Section Law.
Context {B : Blake3}.

(** A prior state that its recipe can continue. *)
Record prior_lawful (recipe : laplace_standing_recipe) (prior : laplace_standing_state) : Prop := {
  prior_recipe : recipe_identified recipe;
  prior_identified : state_identified prior;
  prior_of_recipe : rating_recipe_id prior = recipe_id recipe;
  prior_of_version : rating_recipe_version prior = recipe_version recipe;
  prior_initial : initial_state_matches_recipe prior recipe = true }.

(** A match admitted to the period of a participant. *)
Record event_eligible (recipe : laplace_standing_recipe) (prior : laplace_standing_state)
    (period : laplace_digest256) (e : laplace_standing_event) : Prop := {
  eligible_opponent : state_identified (opponent_prior_state e);
  eligible_event : event_identified e;
  eligible_kind : kind_rateable recipe (outcome_kind e);
  eligible_mapping : outcome_mapping_id e = mapping_digest recipe (outcome_kind e);
  eligible_score : score_of recipe (outcome_kind e) = (score_numerator e, score_denominator e);
  eligible_coordinate : participant_coordinate_id e = coordinate_id prior;
  eligible_prior : participant_prior_state_id e = state_id prior;
  eligible_period : event_period_id e = period;
  eligible_scope : arena_scope_id (opponent_prior_state e) = arena_scope_id prior;
  eligible_other : coordinate_id (opponent_prior_state e) <> coordinate_id prior;
  eligible_recipe : rating_recipe_id (opponent_prior_state e) = rating_recipe_id prior;
  eligible_version :
    rating_recipe_version (opponent_prior_state e) = rating_recipe_version prior;
  eligible_initial : initial_state_matches_recipe (opponent_prior_state e) recipe = true }.

(** Identities increase strictly along a list of matches. *)
Definition strictly_ordered (events : list laplace_standing_event) : Prop :=
  StronglySorted (fun a b => memcmp (event_id a) (event_id b) = Lt) events.

Definition events_admitted (recipe : laplace_standing_recipe) (prior : laplace_standing_state)
    (period : laplace_digest256) (events : list laplace_standing_event) : Prop :=
  Forall (event_eligible recipe prior period) events /\ strictly_ordered events.
End Law.

Section Admission.
Context {B : Blake3} {L : Blake3Laws B}.

Lemma bytes_equal_refl l : bytes_equal l l = true.
Proof. by apply bytes_equal_spec. Qed.

Lemma bytes_equal_reflects l r : reflect (l = r) (bytes_equal l r).
Proof.
  destruct (bytes_equal l r) eqn:E; constructor; [by apply bytes_equal_spec|].
  by apply bytes_equal_false.
Qed.

(** The identification of a state, compared with the identity it carries. *)
Lemma state_identified_spec s :
  state_identified s <->
  laplace_standing_state_identify (Some s) (Some (zeros 32)) =
    (LAPLACE_STANDING_OK, Some (state_id s)).
Proof.
  rewrite state_identify_spec. unfold state_identified.
  destruct (state_invalid s); [by split; [intros [??]|]|].
  split; [by intros [_ ->]|]. by intros [= ->].
Qed.

Lemma event_identified_spec e :
  event_identified e <->
  laplace_standing_event_identify (Some e) (Some (zeros 32)) =
    (LAPLACE_STANDING_OK, Some (event_id e)).
Proof.
  rewrite event_identify_spec. unfold event_identified.
  destruct (event_invalid e).
  - split; [by intros [??]|]. by destruct (outcome_rateable (outcome_kind e)).
  - split; [by intros [_ ->]|]. by intros [= ->].
Qed.

Lemma event_kind e : event_invalid e = false ->
  LAPLACE_STANDING_OUTCOME_CONFIRM <= outcome_kind e <= LAPLACE_STANDING_OUTCOME_UNCERTAIN.
Proof.
  unfold event_invalid, outcome_rateable. intros H. bools. lia.
Qed.

(** A status test that a call just passed, and the digest it wrote. *)
#[local] Ltac passed :=
  change (negb (bool_decide (LAPLACE_STANDING_OK = LAPLACE_STANDING_OK))) with false;
  change (bool_decide (LAPLACE_STANDING_OK = LAPLACE_STANDING_OK)) with true;
  repeat match goal with |- context [default [] (Some ?d)] => change (default [] (Some d)) with d end;
  cbn [negb orb andb]; cbv beta iota.
#[local] Ltac compare_next a b :=
  destruct (bytes_equal_reflects a b); [passed|done].

Lemma check_prior_spec recipe prior :
  check_prior recipe prior = LAPLACE_STANDING_OK <-> prior_lawful recipe prior.
Proof.
  unfold check_prior. rewrite recipe_identify_spec, state_identify_spec. split.
  - destruct (recipe_shape_valid (Some recipe)) eqn:Hs; [passed|done].
    compare_next (recipe_id recipe) (recipe_digest recipe).
    destruct (state_invalid prior) eqn:Hp; [done|passed].
    compare_next (state_digest prior) (state_id prior).
    compare_next (rating_recipe_id prior) (recipe_id recipe).
    destruct (Z.eqb_spec (rating_recipe_version prior) (recipe_version recipe)); [passed|done].
    destruct (initial_state_matches_recipe prior recipe) eqn:Hi; [|done].
    intros _. by split.
  - intros [[Hs Hid] [Hp Hpid] Hr Hv Hi]. rewrite Hs, Hp. passed.
    by rewrite <- Hid, <- Hpid, Hr, Hv, Hi, !bytes_equal_refl, Z.eqb_refl.
Qed.

Lemma check_event_sound recipe prior period previous e :
  recipe_identified recipe ->
  check_event recipe prior period previous e = LAPLACE_STANDING_OK ->
  event_eligible recipe prior period e /\
  (forall p, previous = Some p -> event_id p <> event_id e).
Proof.
  intros [Hs Hid]. unfold check_event. rewrite state_identify_spec, event_identify_spec.
  destruct (state_invalid (opponent_prior_state e)) eqn:Hp; [done|passed].
  compare_next (state_digest (opponent_prior_state e)) (state_id (opponent_prior_state e)).
  destruct (event_invalid e) eqn:He; [by destruct (outcome_rateable _)|passed].
  compare_next (event_digest e) (event_id e).
  pose proof (event_kind e He) as Hk.
  rewrite mapping_identify_spec, Hs, Hid, bytes_equal_refl, rateable_testbit by lia.
  rewrite Z2Nat.id by lia.
  destruct (Z.testbit (rateable_outcome_mask recipe) (outcome_kind e - 1)) eqn:Hr; [passed|done].
  compare_next (mapping_digest recipe (outcome_kind e)) (outcome_mapping_id e).
  destruct (Z.eqb_spec (score_numerator e) (nth (Z.to_nat (outcome_kind e - 1))
    (recipe_score_numerator recipe) 0)) as [Hn|]; [passed|done].
  destruct (Z.eqb_spec (score_denominator e) (nth (Z.to_nat (outcome_kind e - 1))
    (recipe_score_denominator recipe) 0)) as [Hd|]; [passed|done].
  destruct (match previous with None => false | Some p => bytes_equal (event_id p) (event_id e) end)
    eqn:Hdup; [done|].
  compare_next (participant_coordinate_id e) (coordinate_id prior).
  compare_next (participant_prior_state_id e) (state_id prior).
  compare_next (event_period_id e) period.
  compare_next (arena_scope_id (opponent_prior_state e)) (arena_scope_id prior).
  destruct (bytes_equal_reflects (coordinate_id (opponent_prior_state e)) (coordinate_id prior));
    [done|passed].
  compare_next (rating_recipe_id (opponent_prior_state e)) (rating_recipe_id prior).
  destruct (Z.eqb_spec (rating_recipe_version (opponent_prior_state e))
    (rating_recipe_version prior)); [passed|done].
  destruct (initial_state_matches_recipe (opponent_prior_state e) recipe) eqn:Hi; [|done].
  intros _. split.
  - split; try done. unfold score_of. rewrite recipe_scores_nth by lia. congruence.
  - intros p ->. by apply bytes_equal_false.
Qed.

Lemma check_event_complete recipe prior period previous e :
  recipe_identified recipe -> event_eligible recipe prior period e ->
  (forall p, previous = Some p -> event_id p <> event_id e) ->
  check_event recipe prior period previous e = LAPLACE_STANDING_OK.
Proof.
  intros [Hs Hid] [[Hp Hpid] [He Heid] Hr Hm Hsc Hco Hpr Hpe Har Hot Hre Hve Hi] Hdup.
  unfold check_event. rewrite state_identify_spec, event_identify_spec, Hp, He. passed.
  rewrite <- Hpid, <- Heid, !bytes_equal_refl. passed.
  pose proof (event_kind e He) as Hk.
  rewrite mapping_identify_spec, Hs, Hid, bytes_equal_refl, rateable_testbit by lia.
  rewrite Z2Nat.id by lia. rewrite Hr. passed.
  unfold score_of in Hsc. rewrite recipe_scores_nth in Hsc by lia. injection Hsc as -> ->.
  rewrite <- Hm, bytes_equal_refl, !Z.eqb_refl. passed.
  rewrite Hco, Hpr, Hpe, Har, Hre, Hve, Hi, !bytes_equal_refl, Z.eqb_refl. passed.
  rewrite (proj2 (bytes_equal_false _ _) Hot).
  destruct previous as [p|]; [|done].
  by rewrite (proj2 (bytes_equal_false _ _) (Hdup p eq_refl)).
Qed.
Lemma events_admitted_nil recipe prior period : events_admitted recipe prior period [].
Proof. split; constructor. Qed.

Lemma events_admitted_snoc recipe prior period all ps e rest :
  recipe_identified recipe -> all = ps ++ e :: rest ->
  StronglySorted (cmp_le compare_event) all -> events_admitted recipe prior period ps ->
  check_event recipe prior period (last ps) e = LAPLACE_STANDING_OK <->
  events_admitted recipe prior period (ps ++ [e]).
Proof.
  intros Hr Hall Hs [He Ho].
  pose proof (sorted_extend event_id all ps e rest Hall Hs Ho) as Hext. split.
  - intros [Hel Hdup]%check_event_sound; [|done]. split.
    + apply Forall_app. split; [exact He|]. by apply Forall_singleton.
    + destruct (last ps) as [q|]; [|exact Hext].
      destruct (bytes_equal_reflects (event_id e) (event_id q)) as [Heq|]; [|exact Hext].
      by destruct (Hdup q eq_refl).
  - intros [Hel Ho']. apply Forall_app in Hel as [_ Hel]. apply Forall_cons in Hel as [Hel _].
    apply check_event_complete; [done..|]. intros q Hq Heq.
    apply StronglySorted_extend in Ho'; [|apply (memcmp_lt_transitive event_id)|done].
    rewrite Hq, Heq, memcmp_refl in Ho'. done.
Qed.

(** The loop admits the matches or stops at the first one that cannot join
    those before it. *)
Lemma event_loop_spec recipe prior period all rest : forall ps i,
  recipe_identified recipe -> all = ps ++ rest ->
  StronglySorted (cmp_le compare_event) all -> events_admitted recipe prior period ps ->
  i = Z.of_nat (length ps) ->
  match event_loop recipe prior period (last ps) rest i with
  | None => events_admitted recipe prior period all
  | Some (status, index) =>
      status <> LAPLACE_STANDING_OK /\ exists k, index = Z.of_nat k /\ (k < length all)%nat /\
        events_admitted recipe prior period (take k all) /\
        ~ events_admitted recipe prior period (take (S k) all)
  end.
Proof.
  induction rest as [|e rest IH]; intros ps i Hr Hall Hs Ha Hi; cbn [event_loop].
  { by rewrite Hall, app_nil_r. }
  pose proof (events_admitted_snoc recipe prior period all ps e rest Hr Hall Hs Ha) as Hstep.
  destruct (decide (check_event recipe prior period (last ps) e = LAPLACE_STANDING_OK)) as [Hc|Hc].
  - rewrite Hc. specialize (IH (ps ++ [e]) (i + 1)). rewrite last_snoc in IH.
    apply IH; [done|by rewrite <- app_assoc|done|by apply Hstep|].
    rewrite length_app. simpl. lia.
  - assert (Hfail : events_admitted recipe prior period (take (length ps) all) /\
      ~ events_admitted recipe prior period (take (S (length ps)) all) /\
      (length ps < length all)%nat).
    { rewrite Hall, take_app_length, take_snoc, length_app. simpl.
      split; [done|]. split; [by rewrite <- Hstep|lia]. }
    destruct Hfail as (H1 & H2 & H3).
    destruct (check_event recipe prior period (last ps) e) eqn:E; [by destruct Hc|..];
      (split; [discriminate|]; exists (length ps); auto).
Qed.

(** The scan of the ordered roots. *)
Lemma duplicate_root_spec all rest : forall ps previous i,
  all = ps ++ previous :: rest -> StronglySorted (cmp_le compare_digest) all ->
  StronglySorted (fun a b => memcmp a b = Lt) (ps ++ [previous]) ->
  i = Z.of_nat (length ps) + 1 ->
  match duplicate_root previous rest i with
  | None => NoDup all
  | Some index => ~ NoDup all /\ exists k, index = Z.of_nat (S k) /\ all !! k = all !! S k /\
      (S k < length all)%nat /\ NoDup (take (S k) all)
  end.
Proof.
  induction rest as [|root rest IH]; intros ps previous i Hall Hs Hlt Hi; cbn [duplicate_root].
  { rewrite Hall, <- (map_id (ps ++ [previous])). by apply strictly_sorted_distinct. }
  assert (Hall' : all = (ps ++ [previous]) ++ root :: rest) by (by rewrite <- app_assoc).
  pose proof (sorted_extend (fun d => d) all _ root rest Hall' Hs Hlt) as Hext.
  rewrite last_snoc, map_id in Hext. cbv beta in Hext.
  destruct (bytes_equal_reflects root previous) as [->|Hne].
  - rewrite bytes_equal_refl. split; [done|]. exists (length ps). split; [lia|].
    rewrite Hall'. split; [|split].
    + transitivity (Some previous); [rewrite <- app_assoc; by apply list_lookup_middle|].
      symmetry. apply list_lookup_middle. rewrite length_app. simpl. lia.
    + rewrite !length_app. simpl. lia.
    + replace (S (length ps)) with (length (ps ++ [previous])) by (rewrite length_app; simpl; lia).
      rewrite take_app_length, <- (map_id (ps ++ [previous])).
      by apply strictly_sorted_distinct.
  - rewrite (proj2 (bytes_equal_false previous root)) by congruence.
    apply (IH (ps ++ [previous])); [done..|]. rewrite length_app. simpl. lia.
Qed.

Lemma root_loop_spec roots : StronglySorted (cmp_le compare_digest) roots ->
  match root_loop roots with
  | None => NoDup roots
  | Some index => ~ NoDup roots /\ exists k, index = Z.of_nat (S k) /\ roots !! k = roots !! S k /\
      (S k < length roots)%nat /\ NoDup (take (S k) roots)
  end.
Proof.
  intros Hs. destruct roots as [|first rest]; [constructor|]. cbn [root_loop].
  apply (duplicate_root_spec (first :: rest) rest [] first 1); [done..| |done].
  by repeat constructor.
Qed.
End Admission.

#[export] Instance compare_event_laws : CmpLaws compare_event.
Proof. apply (cmp_on_laws event_id memcmp). apply _. Qed.
#[export] Instance compare_digest_laws : CmpLaws compare_digest.
Proof. apply memcmp_laws. Qed.

(** ** The canonical order *)
Definition canonical (events : list laplace_standing_event) : list laplace_standing_event :=
  qsort compare_event events.
Definition canonical_roots (events : list laplace_standing_event) : list laplace_digest256 :=
  qsort compare_digest (map eligible_root_id (canonical events)).

Lemma compare_event_eq a b : compare_event a b = Eq <-> event_id a = event_id b.
Proof. apply memcmp_eq. Qed.

Lemma NoDup_map_separates {A C} (f : A -> C) l a b :
  NoDup (map f l) -> a ∈ l -> b ∈ l -> f a = f b -> a = b.
Proof.
  intros Hnd [i Hi]%list_elem_of_lookup_1 [j Hj]%list_elem_of_lookup_1 Hf.
  assert (i = j) as ->; [|congruence].
  eapply (NoDup_lookup (map f l)); [done|..]; rewrite list_lookup_fmap; [rewrite Hi|rewrite Hj];
    simpl; [done|by rewrite Hf].
Qed.

(** Distinct identities have one canonical order. *)
Lemma canonical_unique events events' :
  NoDup (map event_id events) -> events ≡ₚ events' -> canonical events = canonical events'.
Proof.
  intros Hnd Hp. apply (sorted_permutation_unique compare_event); [apply qsort_sorted, _..| |].
  - unfold canonical. rewrite !(qsort_perm compare_event). exact Hp.
  - intros a b Ha Hb Heq%compare_event_eq. unfold canonical in *.
    rewrite (qsort_perm compare_event) in Ha, Hb. by eapply (NoDup_map_separates event_id events).
Qed.

Lemma canonical_distinct events :
  strictly_ordered (canonical events) <-> NoDup (map event_id events).
Proof.
  split.
  - intros Hs%strictly_sorted_distinct. unfold canonical in Hs. by rewrite (qsort_perm compare_event) in Hs.
  - intros Hnd. unfold strictly_ordered.
    pose proof (qsort_sorted compare_event events) as Hs. fold (canonical events) in Hs.
    assert (Hnd' : NoDup (map event_id (canonical events))).
    { unfold canonical. by rewrite (qsort_perm compare_event). }
    clear Hnd. induction Hs as [|x l Hs IH Hx]; [constructor|].
    apply NoDup_cons in Hnd' as [Hnot Hnd']. constructor; [by apply IH|].
    rewrite Forall_forall in Hx |- *. intros y Hy. specialize (Hx y Hy).
    unfold cmp_le, compare_event in Hx. destruct (memcmp (event_id x) (event_id y)) eqn:E; [|done|done].
    apply memcmp_eq in E. destruct Hnot. apply list_elem_of_fmap. by exists y.
Qed.

(** ** What a period promises *)
Definition input_transcript (recipe : laplace_standing_recipe) (prior : laplace_standing_state)
    (period : laplace_digest256) (ordered : list laplace_standing_event) : list Z :=
  LAPLACE_STANDING_INPUT_DOMAIN ++ state_id prior ++ period ++ recipe_id recipe ++
  counted event_id ordered.

Definition output_transcript (successor : laplace_standing_state) : list Z :=
  LAPLACE_STANDING_OUTPUT_DOMAIN ++ state_id successor.

Definition receipt_transcript (r : laplace_standing_period_receipt) : list Z :=
  LAPLACE_STANDING_RECEIPT_DOMAIN ++ receipt_prior_state_id r ++ successor_state_id r ++
  receipt_period_id r ++ input_fingerprint r ++ output_fingerprint r ++
  store_le 8 (eligible_event_count r) ++ store_le 8 (prior_match_count r) ++
  store_le 8 (successor_match_count r) ++ store_le 4 (receipt_iterations r) ++
  store_le 4 (receipt_version r) ++ store_le 4 (receipt_status r) ++
  store_le 4 (receipt_flags r).

(** The counters of a state are words. *)
Definition counts_wf (s : laplace_standing_state) : Prop :=
  is_u64 (eligible_match_count s) /\ is_u64 (period_ordinal s).

(** The receipt of a period that succeeded. *)
Record receipt_of {B : Blake3} (recipe : laplace_standing_recipe)
    (prior successor : laplace_standing_state) (period : laplace_digest256)
    (events : list laplace_standing_event) (iterations : Z)
    (r : laplace_standing_period_receipt) : Prop := {
  of_id : receipt_id r = blake3 (receipt_transcript r);
  of_prior : receipt_prior_state_id r = state_id prior;
  of_successor : successor_state_id r = state_id successor;
  of_period : receipt_period_id r = period;
  of_input : input_fingerprint r = blake3 (input_transcript recipe prior period (canonical events));
  of_output : output_fingerprint r = blake3 (output_transcript successor);
  of_count : eligible_event_count r = Z.of_nat (length events);
  of_prior_count : prior_match_count r = eligible_match_count prior;
  of_successor_count : successor_match_count r = eligible_match_count successor;
  of_iterations : receipt_iterations r = iterations;
  of_version : receipt_version r = LAPLACE_STANDING_VERSION;
  of_status : receipt_status r = 0;
  of_flags : receipt_flags r = LAPLACE_STANDING_FLAGS_NONE }.

(** The successor of a prior state by the numbers of a period. *)
Definition next_state (prior : laplace_standing_state) (period : laplace_digest256)
    (numbers : period_numbers) (matches : Z) : laplace_standing_state :=
  mk_state (zeros 32) (coordinate_id prior) (arena_scope_id prior) (state_id prior) period
    (rating_recipe_id prior)
    (double_add (double_multiply (next_mu numbers) LAPLACE_STANDING_SCALE_DIVISOR)
       LAPLACE_STANDING_SCALE_CENTER)
    (double_multiply (next_phi numbers) LAPLACE_STANDING_SCALE_DIVISOR)
    (next_volatility numbers) (eligible_match_count prior + matches) (period_ordinal prior + 1)
    (rating_recipe_version prior) LAPLACE_STANDING_FLAGS_NONE.

Definition successor_of {B : Blake3} (prior : laplace_standing_state)
    (period : laplace_digest256) (numbers : period_numbers) (matches : Z)
    : laplace_standing_state :=
  let next := next_state prior period numbers matches in with_state_id next (state_digest next).

(** The numbers of a period give a state. *)
Definition representable (prior : laplace_standing_state) (numbers : period_numbers) : bool :=
  let next := next_state prior [] numbers 0 in
  numeric_state_valid (rating next) (rating_deviation next) (state_volatility next).

Record period_lawful {B : Blake3} {M : Libm} (recipe : laplace_standing_recipe)
    (prior : laplace_standing_state) (period : laplace_digest256)
    (events : list laplace_standing_event) (numbers : period_numbers) : Prop := {
  lawful_prior : prior_lawful recipe prior;
  lawful_link : bytes_zero (state_id prior) = false;
  lawful_period : bytes_zero period = false;
  lawful_events : Forall (event_eligible recipe prior period) events;
  lawful_distinct : NoDup (map event_id events);
  lawful_roots : NoDup (map eligible_root_id events);
  lawful_numbers : calculate_numbers recipe prior (canonical events) = inl numbers;
  lawful_representable : representable prior numbers = true;
  lawful_matches : eligible_match_count prior + Z.of_nat (length events) <= UINT64_MAX;
  lawful_ordinal : period_ordinal prior < UINT64_MAX }.

(** What a period refuses once the matches are copied, in the order in which
    the code looks: the status, the successor it has written, the error. *)
Inductive period_fault {B : Blake3} {M : Libm} (recipe : laplace_standing_recipe)
    (prior : laplace_standing_state) (period : laplace_digest256)
    (events : list laplace_standing_event) :
    laplace_standing_status -> option laplace_standing_state -> laplace_standing_error -> Prop :=
| fault_event status k :
    status <> LAPLACE_STANDING_OK -> (k < length events)%nat ->
    events_admitted recipe prior period (take k (canonical events)) ->
    ~ events_admitted recipe prior period (take (S k) (canonical events)) ->
    period_fault recipe prior period events status None (mk_error (Z.of_nat k) 0 0)
| fault_root k :
    events_admitted recipe prior period (canonical events) -> (S k < length events)%nat ->
    NoDup (take (S k) (canonical_roots events)) ->
    canonical_roots events !! k = canonical_roots events !! S k ->
    period_fault recipe prior period events LAPLACE_STANDING_DEPENDENCE_ROOT_DUPLICATE None
      (mk_error (Z.of_nat (S k)) 0 0)
| fault_numbers status iterations :
    events_admitted recipe prior period (canonical events) ->
    NoDup (map eligible_root_id events) ->
    calculate_numbers recipe prior (canonical events) = inr (status, iterations) ->
    period_fault recipe prior period events status None (mk_error UINT64_MAX iterations 0)
| fault_overflow numbers :
    events_admitted recipe prior period (canonical events) ->
    NoDup (map eligible_root_id events) ->
    calculate_numbers recipe prior (canonical events) = inl numbers ->
    UINT64_MAX < eligible_match_count prior + Z.of_nat (length events) \/
      period_ordinal prior = UINT64_MAX ->
    period_fault recipe prior period events LAPLACE_STANDING_OVERFLOW None
      (mk_error UINT64_MAX 0 0)
| fault_state numbers :
    events_admitted recipe prior period (canonical events) ->
    NoDup (map eligible_root_id events) ->
    calculate_numbers recipe prior (canonical events) = inl numbers ->
    representable prior numbers && negb (bytes_zero (state_id prior)) = false ->
    period_fault recipe prior period events LAPLACE_STANDING_STATE_INVALID
      (Some (next_state prior period numbers (Z.of_nat (length events))))
      (mk_error UINT64_MAX 0 0).

Section PeriodSpec.
Context {B : Blake3} {L : Blake3Laws B} {M : Libm}.
Implicit Types (recipe : laplace_standing_recipe) (prior : laplace_standing_state)
  (period : laplace_digest256) (events : list laplace_standing_event).

Lemma successor_draft_next prior period numbers n :
  counts_wf prior -> 0 <= n -> eligible_match_count prior + n <= UINT64_MAX ->
  period_ordinal prior < UINT64_MAX ->
  successor_draft prior period numbers n = next_state prior period numbers n.
Proof.
  intros Hwf Hn Hm Ho. destruct Hwf as [Hmatches Hordinal].
  unfold successor_draft, next_state. rewrite !u64_small by lia. reflexivity.
Qed.

Lemma next_state_valid prior period numbers n :
  counts_wf prior -> state_invalid prior = false -> bytes_zero period = false ->
  state_invalid (next_state prior period numbers n) =
  negb (representable prior numbers && negb (bytes_zero (state_id prior))).
Proof.
  intros [_ Hordinal] Hp Hperiod.
  unfold state_invalid in Hp. bools. unfold state_invalid.
  cbn [next_state coordinate_id arena_scope_id epoch_id rating_recipe_id rating_recipe_version
    state_flags period_ordinal prior_state_id].
  change (numeric_state_valid (rating (next_state prior period numbers n))
    (rating_deviation (next_state prior period numbers n))
    (state_volatility (next_state prior period numbers n))) with (representable prior numbers).
  rewrite Hperiod. rewrite (proj2 (Z.eqb_neq (period_ordinal prior + 1) 0)) by lia.
  rewrite (proj2 (Z.eqb_neq (rating_recipe_version prior) 0)) by assumption.
  repeat match goal with H : bytes_zero _ = false |- _ => rewrite H; clear H end.
  destruct (representable prior numbers), (bytes_zero (state_id prior)); reflexivity.
Qed.

Lemma period_receipt_spec recipe prior successor period events iterations :
  receipt_of recipe prior successor period events iterations
    (final_receipt recipe prior successor period (canonical events)
       (Z.of_nat (length events)) iterations).
Proof.
  split; try reflexivity; unfold final_receipt;
    cbn [receipt_id input_fingerprint output_fingerprint].
  - apply absorbs_finalize. unfold hash_receipt, receipt_transcript.
    cbn [receipt_prior_state_id successor_state_id receipt_period_id input_fingerprint
      output_fingerprint eligible_event_count prior_match_count successor_match_count
      receipt_iterations receipt_version receipt_status receipt_flags]. absorb.
  - apply absorbs_finalize. unfold hash_inputs, input_transcript, counted.
    unfold canonical at 1. rewrite (length_qsort compare_event). rewrite ?app_assoc.
    apply absorbs_fold; [intros; by apply absorbs_update|]. absorb.
  - apply absorbs_finalize. unfold hash_output, output_transcript. absorb.
Qed.

Lemma canonical_perm events : canonical events ≡ₚ events.
Proof. apply (qsort_perm compare_event). Qed.

Lemma canonical_roots_perm events : canonical_roots events ≡ₚ map eligible_root_id events.
Proof.
  unfold canonical_roots. rewrite (qsort_perm compare_digest). by rewrite canonical_perm.
Qed.

Lemma admitted_canonical recipe prior period events :
  events_admitted recipe prior period (canonical events) <->
  Forall (event_eligible recipe prior period) events /\ NoDup (map event_id events).
Proof.
  unfold events_admitted. rewrite canonical_distinct. by rewrite canonical_perm at 1.
Qed.

Lemma calculate_numbers_failure recipe prior events status iterations :
  calculate_numbers recipe prior events = inr (status, iterations) ->
  status <> LAPLACE_STANDING_OK.
Proof.
  unfold calculate_numbers. destruct (foldl _ _ events) as [variance_inverse improvement_sum].
  casec; [intros [= <- _]; discriminate|].
  destruct (solve_volatility _ _ _ _ _ _ _ _) as [[st value] n].
  case_bool_decide as Hst; cbn [negb]; [|intros [= <- _]; exact Hst].
  casec; [intros [= <- _]; discriminate|]. intros [=].
Qed.

Lemma fault_status recipe prior period events status successor error :
  period_fault recipe prior period events status successor error ->
  status <> LAPLACE_STANDING_OK.
Proof.
  destruct 1; [assumption|discriminate| |discriminate..]. by eapply calculate_numbers_failure.
Qed.

Lemma admitted_prefix recipe prior period k l :
  events_admitted recipe prior period l -> events_admitted recipe prior period (take k l).
Proof.
  intros [He Ho]. split; [by apply Forall_take|].
  unfold strictly_ordered in *. rewrite <- (take_drop k l) in Ho.
  revert Ho. generalize (take k l) (drop k l). induction l0 as [|x l0 IH]; intros l1 Ho; [constructor|].
  apply StronglySorted_inv in Ho as [Ho Hx]. apply Forall_app in Hx as [Hx _].
  constructor; [by apply (IH l1)|exact Hx].
Qed.

Lemma NoDup_take {A} k (l : list A) : NoDup l -> NoDup (take k l).
Proof. rewrite <- (take_drop k l) at 1. by intros [? _]%NoDup_app. Qed.

(** A faulty period is not lawful. *)
Lemma fault_unlawful recipe prior period events status successor error numbers :
  0 <= period_ordinal prior ->
  period_fault recipe prior period events status successor error ->
  ~ period_lawful recipe prior period events numbers.
Proof.
  intros Ho Hf [_ Hlink _ He Hd Hr Hn Hrep Hm Hord].
  assert (Hadm : events_admitted recipe prior period (canonical events))
    by (by apply admitted_canonical).
  destruct Hf as [status k Hst Hk Hpre Hno|k _ Hk _ Heq|status n _ _ Hn'|numbers' _ _ Hn' [Hov|Hov]
    |numbers' _ _ Hn' Hrep'].
  - by apply Hno, admitted_prefix.
  - rewrite <- canonical_roots_perm in Hr.
    destruct (lookup_lt_is_Some_2 (canonical_roots events) (S k)) as [root Hroot].
    { by rewrite canonical_roots_perm, length_map. }
    assert (k = S k); [|lia]. eapply (NoDup_lookup (canonical_roots events)); [done|..|exact Hroot].
    congruence.
  - congruence.
  - lia.
  - lia.
  - rewrite Hn in Hn'. injection Hn' as <-. by rewrite Hrep, Hlink in Hrep'.
Qed.

Lemma period_of_copies_spec recipe prior period events :
  counts_wf prior -> prior_lawful recipe prior -> bytes_zero period = false ->
  let '(status, successor, receipt, error) :=
    period_of_copies recipe prior period events (Z.of_nat (length events)) in
  (status = LAPLACE_STANDING_OK /\ exists numbers,
     period_lawful recipe prior period events numbers /\
     successor = Some (successor_of prior period numbers (Z.of_nat (length events))) /\
     receipt_of recipe prior (successor_of prior period numbers (Z.of_nat (length events)))
       period events (used_iterations numbers) receipt /\
     error = mk_error UINT64_MAX (used_iterations numbers) 0) \/
  (period_fault recipe prior period events status successor error /\
   receipt = failed_receipt status).
Proof.
  intros Hwf Hp Hperiod. unfold period_of_copies.
  fold (canonical events) (canonical_roots events).
  pose proof (event_loop_spec recipe prior period (canonical events) (canonical events) [] 0
    (prior_recipe _ _ Hp) eq_refl (qsort_sorted compare_event events)
    (events_admitted_nil _ _ _) eq_refl) as Hev. cbn [last] in Hev.
  destruct (event_loop recipe prior period None (canonical events) 0) as [[status index]|].
  { destruct Hev as (Hst & k & -> & Hk & Hpre & Hno). right. split; [|reflexivity].
    rewrite canonical_perm in Hk. by apply fault_event. }
  pose proof (root_loop_spec (canonical_roots events) (qsort_sorted compare_digest _)) as Hro.
  destruct (root_loop (canonical_roots events)) as [index|].
  { destruct Hro as (_ & k & -> & Heq & Hk & Hnd). right. split; [|reflexivity].
    rewrite canonical_roots_perm, length_map in Hk. by apply fault_root. }
  rewrite canonical_roots_perm in Hro.
  destruct (calculate_numbers recipe prior (canonical events)) as [numbers|[status iterations]] eqn:Hn.
  2:{ right. split; [|reflexivity]. by apply fault_numbers. }
  pose proof Hwf as [Hm Ho].
  destruct (_ || _) eqn:Hover.
  { right. split; [|reflexivity]. apply (fault_overflow _ _ _ _ numbers); [done..|].
    apply orb_true_iff in Hover as [Hover|Hover]; bools; lia. }
  bools. rewrite identify_in_place_spec, successor_draft_next by (done || lia).
  rewrite next_state_valid by (done || apply Hp).
  destruct (representable prior numbers && negb (bytes_zero (state_id prior))) eqn:Hrep; cbn [negb].
  - left. split; [reflexivity|]. exists numbers.
    apply andb_true_iff in Hrep as [Hrep Hlink%negb_true_iff].
    apply admitted_canonical in Hev as [He Hd].
    split; [by split; try lia|]. split; [reflexivity|].
    split; [apply period_receipt_spec|reflexivity].
  - right. split; [|reflexivity]. by apply fault_state.
Qed.
End PeriodSpec.

(** ** The routine *)
Section Routine.
Context {B : Blake3} {L : Blake3Laws B} {M : Libm}.
Implicit Types (recipe : laplace_standing_recipe) (prior successor : laplace_standing_state)
  (period : laplace_digest256) (events : list laplace_standing_event).

(** What fits the size arithmetic of the copies. *)
Abbreviation MAX_EVENTS := (SIZE_MAX / SIZEOF_EVENT) (only parsing).

Lemma calculate_period_run recipe prior period events successor receipt err :
  (1 <= length events)%nat -> Z.of_nat (length events) <= MAX_EVENTS ->
  bytes_zero period = false -> prior_lawful recipe prior ->
  laplace_standing_calculate_period true true (Some recipe) (Some prior) (Some period)
    (Some events) (Z.of_nat (length events)) (Some successor) (Some receipt) (Some err) =
  let '(status, successor', receipt', error') :=
    period_of_copies recipe prior period events (Z.of_nat (length events)) in
  (status, Some (default successor successor'), Some receipt', Some error').
Proof.
  intros Hn Hmax Hperiod Hp. unfold laplace_standing_calculate_period. ptrs.
  rewrite (proj2 (Z.eqb_neq (Z.of_nat (length events)) 0)) by lia. rewrite Hperiod. cbn [orb].
  apply check_prior_spec in Hp. rewrite Hp.
  rewrite (proj2 (Z.ltb_ge MAX_EVENTS _)) by done.
  rewrite (proj2 (Z.ltb_ge (SIZE_MAX / SIZEOF_DIGEST) _))
    by (change (SIZE_MAX / SIZEOF_DIGEST) with 576460752303423487;
        change MAX_EVENTS with 35474507834056830 in Hmax; lia).
  cbn [orb negb]. rewrite cells_all by done.
  destruct (period_of_copies recipe prior period events (Z.of_nat (length events)))
    as [[[status [s|]] r] e]; reflexivity.
Qed.

(** A failure before the copies: nothing but the cleared receipt and error. *)
Lemma calculate_period_early recipe prior period events successor receipt err :
  (1 <= length events)%nat -> Z.of_nat (length events) <= MAX_EVENTS ->
  bytes_zero period = true \/ ~ prior_lawful recipe prior ->
  exists status, status <> LAPLACE_STANDING_OK /\
  laplace_standing_calculate_period true true (Some recipe) (Some prior) (Some period)
    (Some events) (Z.of_nat (length events)) (Some successor) (Some receipt) (Some err) =
  (status, Some successor, Some initialize_receipt, Some (mk_error UINT64_MAX 0 0)).
Proof.
  intros Hn Hmax Hearly. unfold laplace_standing_calculate_period. ptrs.
  rewrite (proj2 (Z.eqb_neq (Z.of_nat (length events)) 0)) by lia. cbn [orb].
  destruct (bytes_zero period) eqn:Hperiod;
    [exists LAPLACE_STANDING_INVALID_ARGUMENT; split; [discriminate|reflexivity]|].
  destruct Hearly as [?|Hp]; [done|]. rewrite <- check_prior_spec in Hp.
  destruct (check_prior recipe prior) eqn:E; [done|..]; (eexists; split; [|reflexivity]; done).
Qed.

(** A lawful period is computed; nothing else is. *)
Lemma period_dichotomy recipe prior period events successor receipt err :
  counts_wf prior -> (1 <= length events)%nat -> Z.of_nat (length events) <= MAX_EVENTS ->
  let run := laplace_standing_calculate_period true true (Some recipe) (Some prior) (Some period)
    (Some events) (Z.of_nat (length events)) (Some successor) (Some receipt) (Some err) in
  (exists numbers r, period_lawful recipe prior period events numbers /\
     receipt_of recipe prior (successor_of prior period numbers (Z.of_nat (length events)))
       period events (used_iterations numbers) r /\
     run = (LAPLACE_STANDING_OK,
            Some (successor_of prior period numbers (Z.of_nat (length events))), Some r,
            Some (mk_error UINT64_MAX (used_iterations numbers) 0))) \/
  (exists status written e, prior_lawful recipe prior /\ bytes_zero period = false /\
     period_fault recipe prior period events status written e /\
     run = (status, Some (default successor written), Some (failed_receipt status), Some e)) \/
  ((bytes_zero period = true \/ ~ prior_lawful recipe prior) /\
   exists status, status <> LAPLACE_STANDING_OK /\
     run = (status, Some successor, Some initialize_receipt, Some (mk_error UINT64_MAX 0 0))).
Proof.
  intros Hwf Hn Hmax run. unfold run. clear run.
  assert (Hcase : (bytes_zero period = false /\ prior_lawful recipe prior) \/
                  (bytes_zero period = true \/ ~ prior_lawful recipe prior)).
  { rewrite <- check_prior_spec.
    destruct (decide (check_prior recipe prior = LAPLACE_STANDING_OK)), (bytes_zero period); auto. }
  destruct Hcase as [[Hperiod Hp]|Hearly].
  - rewrite calculate_period_run by done.
    pose proof (period_of_copies_spec recipe prior period events Hwf Hp Hperiod) as Hs.
    destruct (period_of_copies recipe prior period events _) as [[[status written] r] e].
    destruct Hs as [(-> & numbers & Hl & -> & Hr & ->)|[Hf ->]].
    + left. exists numbers, r. done.
    + right. left. by exists status, written, e.
  - right. right. split; [done|]. by apply calculate_period_early.
Qed.
End Routine.

(** C7: a rating period is computed exactly when it is lawful.  The recipe and
    the prior state carry their own identities and belong together, every match
    is identified, scored by the mapping of the recipe, played by this
    participant in this state and period against another one of the same arena
    in an identified state, no match and no evidence root occurs twice, the
    numbers exist and represent a state, and the counts fit.  Then the
    successor continues the prior state with the numbers of the Glicko-2 update
    over the matches in their canonical order, never with the defaults, and the
    receipt binds prior, inputs and successor.  Otherwise the outcome is the
    first fault in the order of the code: the index of the first match that
    cannot join those before it, of the first repeated root, or the numeric
    failure with its iterations; the receipt carries the status, and the
    successor is written only if every number was in range. *)
Theorem period_exact {B : Blake3} {L : Blake3Laws B} {M : Libm} recipe prior period events
    successor receipt err :
  counts_wf prior -> (1 <= length events)%nat ->
  Z.of_nat (length events) <= SIZE_MAX / SIZEOF_EVENT ->
  let '(status, successor', receipt', error') :=
    laplace_standing_calculate_period true true (Some recipe) (Some prior) (Some period)
      (Some events) (Z.of_nat (length events)) (Some successor) (Some receipt) (Some err) in
  (status = LAPLACE_STANDING_OK <->
   exists numbers, period_lawful recipe prior period events numbers) /\
  (forall numbers, period_lawful recipe prior period events numbers ->
     let next := successor_of prior period numbers (Z.of_nat (length events)) in
     successor' = Some next /\
     error' = Some (mk_error UINT64_MAX (used_iterations numbers) 0) /\
     exists r, receipt' = Some r /\
       receipt_of recipe prior next period events (used_iterations numbers) r) /\
  (status <> LAPLACE_STANDING_OK ->
     (exists written e, period_fault recipe prior period events status written e /\
        prior_lawful recipe prior /\ bytes_zero period = false /\
        successor' = Some (default successor written) /\
        receipt' = Some (failed_receipt status) /\ error' = Some e) \/
     ((bytes_zero period = true \/ ~ prior_lawful recipe prior) /\
        successor' = Some successor /\ receipt' = Some initialize_receipt /\
        error' = Some (mk_error UINT64_MAX 0 0))).
Proof.
  intros Hwf Hn Hmax. pose proof (proj2 Hwf) as Ho.
  pose proof (period_dichotomy recipe prior period events successor receipt err Hwf Hn Hmax) as Hd.
  cbv zeta in Hd.
  destruct Hd as [(numbers & r & Hl & Hr & ->)|[(status & s & e & Hp & Hperiod & Hf & ->)|
    (Hearly & status & Hst & ->)]].
  - split; [by split; [exists numbers|]|]. split; [|done]. intros numbers' Hl'.
    assert (numbers' = numbers) as ->.
    { apply lawful_numbers in Hl, Hl'. congruence. }
    split; [done|]. split; [done|]. by exists r.
  - pose proof (fault_status _ _ _ _ _ _ _ Hf) as Hst.
    assert (Hno : forall numbers, ~ period_lawful recipe prior period events numbers)
      by (intros numbers; eapply fault_unlawful; [lia|exact Hf]).
    split; [split; [done|intros [numbers Hl]; by destruct (Hno numbers)]|].
    split; [intros numbers Hl; by destruct (Hno numbers)|].
    intros _. left. by exists s, e.
  - assert (Hno : forall numbers, ~ period_lawful recipe prior period events numbers).
    { intros numbers [Hp _ Hperiod]. destruct Hearly; [congruence|done]. }
    split; [split; [done|intros [numbers Hl]; by destruct (Hno numbers)]|].
    split; [intros numbers Hl; by destruct (Hno numbers)|].
    intros _. right. done.
Qed.

(** ** Order *)
Lemma period_of_copies_order {B : Blake3} {M : Libm} recipe prior period events events' n :
  canonical events = canonical events' ->
  period_of_copies recipe prior period events n = period_of_copies recipe prior period events' n.
Proof. unfold period_of_copies, canonical. by intros ->. Qed.

(** A period that succeeds has matches of distinct identities. *)
Lemma success_distinct {B : Blake3} {L : Blake3Laws B} {M : Libm} recipe prior period
    events successor receipt err :
  counts_wf prior -> (1 <= length events)%nat ->
  Z.of_nat (length events) <= SIZE_MAX / SIZEOF_EVENT ->
  (laplace_standing_calculate_period true true (Some recipe) (Some prior) (Some period)
     (Some events) (Z.of_nat (length events)) (Some successor) (Some receipt)
     (Some err)).1.1.1 = LAPLACE_STANDING_OK ->
  NoDup (map event_id events).
Proof.
  intros Hwf Hn Hmax Hok.
  pose proof (period_dichotomy recipe prior period events successor receipt err Hwf Hn Hmax) as Hd.
  cbv zeta in Hd.
  destruct Hd as [(numbers & r & Hl & _)|[(status & s & e & _ & _ & Hf & Hrun)|
    (_ & status & Hst & Hrun)]].
  - by apply lawful_distinct in Hl.
  - rewrite Hrun in Hok. cbn [fst] in Hok. by apply fault_status in Hf.
  - rewrite Hrun in Hok. done.
Qed.

(** With distinct identities, or when one of the orders succeeds, permuted
    arrays are the same array once sorted. *)
Lemma period_permuted {B : Blake3} {L : Blake3Laws B} {M : Libm} recipe prior period
    events events' successor receipt err :
  counts_wf prior -> (1 <= length events)%nat ->
  Z.of_nat (length events) <= SIZE_MAX / SIZEOF_EVENT -> events ≡ₚ events' ->
  let run (es : list laplace_standing_event) :=
    laplace_standing_calculate_period true true (Some recipe) (Some prior) (Some period)
      (Some es) (Z.of_nat (length es)) (Some successor) (Some receipt) (Some err) in
  NoDup (map event_id events) \/ (run events).1.1.1 = LAPLACE_STANDING_OK ->
  run events = run events'.
Proof.
  intros Hwf Hn Hmax Hp run Hor.
  assert (Hnd : NoDup (map event_id events)).
  { destruct Hor as [Hnd|Hok]; [exact Hnd|]. by apply success_distinct in Hok. }
  pose proof (canonical_unique events events' Hnd Hp) as Hc. unfold run.
  rewrite <- (Permutation_length Hp). unfold laplace_standing_calculate_period. ptrs.
  rewrite (cells_all events), (cells_all events') by (done || by rewrite Hp).
  by rewrite (period_of_copies_order recipe prior period events events').
Qed.

(** C35: the order in which matches arrive does not decide whether a period
    succeeds, and not what a period that succeeds computes: of two arrays that
    hold the same matches in different orders, one succeeds exactly when the other
    does, and then status, successor, receipt and error are the same bit for bit,
    although the sums are floating-point.  Of a period that fails this holds under
    the condition that no two matches share an identity; matches that do share
    one make every order fail, but [qsort] leaves their order open, and with it
    which of them is blamed and for what. *)
Theorem period_order_irrelevant {B : Blake3} {L : Blake3Laws B} {M : Libm} recipe prior period
    events events' successor receipt err :
  counts_wf prior -> (1 <= length events)%nat ->
  Z.of_nat (length events) <= SIZE_MAX / SIZEOF_EVENT -> events ≡ₚ events' ->
  let run (es : list laplace_standing_event) :=
    laplace_standing_calculate_period true true (Some recipe) (Some prior) (Some period)
      (Some es) (Z.of_nat (length es)) (Some successor) (Some receipt) (Some err) in
  ((run events).1.1.1 = LAPLACE_STANDING_OK <-> (run events').1.1.1 = LAPLACE_STANDING_OK) /\
  ((run events).1.1.1 = LAPLACE_STANDING_OK -> run events = run events') /\
  (NoDup (map event_id events) -> run events = run events') /\
  (~ NoDup (map event_id events) ->
     (run events).1.1.1 <> LAPLACE_STANDING_OK /\ (run events').1.1.1 <> LAPLACE_STANDING_OK).
Proof.
  intros Hwf Hn Hmax Hp run.
  assert (Hback : (run events').1.1.1 = LAPLACE_STANDING_OK -> run events' = run events).
  { intros Hok. apply period_permuted; try done; [by rewrite <- Hp..|by right]. }
  assert (Hforth : (run events).1.1.1 = LAPLACE_STANDING_OK -> run events = run events')
    by (intros Hok; apply period_permuted; try done; by right).
  split_and!.
  - split; [intros Hok; by rewrite <- (Hforth Hok)|intros Hok; by rewrite <- (Hback Hok)].
  - exact Hforth.
  - intros Hnd. apply period_permuted; try done. by left.
  - intros Hd.
    assert (Hbad : (run events).1.1.1 <> LAPLACE_STANDING_OK)
      by (intros Hok; by apply success_distinct in Hok).
    split; [done|]. intros Hok. apply Hbad. by rewrite <- (Hback Hok).
Qed.

(** ** Histories *)
Section History.
Context {B : Blake3} {L : Blake3Laws B} {M : Libm}.

(** The states a participant goes through: onboarded once, then one period
    after another, each given the state the one before it produced. *)
Inductive standing_history (recipe : laplace_standing_recipe) (participant : laplace_digest256)
    : list (laplace_digest256 * list laplace_standing_event) -> laplace_standing_state -> Prop :=
| history_onboarded epoch before s :
    laplace_standing_onboard (Some recipe) (Some participant) (Some epoch) (Some before) =
      (LAPLACE_STANDING_OK, Some s) ->
    standing_history recipe participant [] s
| history_period past prior period events before receipt err s r e :
    standing_history recipe participant past prior ->
    (1 <= length events)%nat -> Z.of_nat (length events) <= SIZE_MAX / SIZEOF_EVENT ->
    laplace_standing_calculate_period true true (Some recipe) (Some prior) (Some period)
      (Some events) (Z.of_nat (length events)) (Some before) (Some receipt) (Some err) =
      (LAPLACE_STANDING_OK, Some s, r, e) ->
    standing_history recipe participant (past ++ [(period, events)]) s.

Definition matches_of (past : list (laplace_digest256 * list laplace_standing_event)) : Z :=
  sum_of (fun p => Z.of_nat (length p.2)) past.

(** What holds of every state of a history. *)
Record history_state (recipe : laplace_standing_recipe) (participant : laplace_digest256)
    (past : list (laplace_digest256 * list laplace_standing_event))
    (s : laplace_standing_state) : Prop := {
  history_lawful : prior_lawful recipe s;
  history_coordinate :
    coordinate_id s = coordinate_digest (participant_coordinate recipe participant);
  history_scope : arena_scope_id s = scope_digest (participant_coordinate recipe participant);
  history_ordinal : period_ordinal s = Z.of_nat (length past);
  history_matches : eligible_match_count s = matches_of past;
  history_counts : counts_wf s }.

Lemma double_eq_refl v : isfinite v = true -> double_eq v v = true.
Proof.
  intros Hv. unfold isfinite in Hv. apply negb_true_iff in Hv.
  unfold double_eq, to_spec_float. rewrite Hv.
  assert (Hpos : forall s m e, SFeqb (S754_finite s m e) (S754_finite s m e) = true).
  { intros s m e. unfold SFeqb, SFcompare. rewrite Z.compare_refl, Pos.compare_cont_refl.
    by destruct s. }
  pose proof (proj2 (Z.land_nonneg v 0x000fffffffffffff) ltac:(lia)) as Hf.
  set (fraction := Z.land v 0x000fffffffffffff) in *.
  destruct (Z.land (Z.shiftr v 52) 0x7ff =? 0).
  - destruct fraction; [reflexivity|apply Hpos|lia].
  - destruct (fraction + 0x0010000000000000) eqn:E; [lia|apply Hpos|lia].
Qed.

Lemma onboard_history recipe participant epoch before s :
  laplace_standing_onboard (Some recipe) (Some participant) (Some epoch) (Some before) =
    (LAPLACE_STANDING_OK, Some s) ->
  s = onboarded recipe participant epoch /\ history_state recipe participant [] s.
Proof.
  rewrite onboard_spec. cbv zeta. destruct (bytes_zero participant || bytes_zero epoch) eqn:Hz; [done|].
  destruct (recipe_shape_valid (Some recipe)) eqn:Hs; [cbn [negb]|done].
  destruct (bytes_equal_reflects (recipe_id recipe) (recipe_digest recipe)) as [Hid|]; [cbn [negb]|done].
  destruct (bytes_zero (recipe_id recipe)) eqn:Hrz; [done|].
  match goal with |- context [if ?b then _ else _] => destruct b eqn:Hc; [done|] end.
  intros [= <-]. split; [reflexivity|].
  apply orb_false_iff' in Hz as [_ Hepoch].
  pose proof (onboarding_draft_valid recipe participant epoch Hs Hepoch Hrz) as Hv.
  rewrite Hc in Hv. split; try reflexivity; [|by split; cbn].
  split; try reflexivity; [by split|by split|].
  unfold initial_state_matches_recipe. cbn [period_ordinal eligible_match_count rating
    rating_deviation state_volatility onboarded onboarding_draft with_state_id].
  destruct (recipe_shape_facts recipe Hs) as [Hn _]. unfold numeric_state_valid in Hn.
  repeat (apply andb_true_iff in Hn as [Hn ?]). by rewrite !double_eq_refl.
Qed.

Lemma period_history recipe participant past prior period events numbers :
  history_state recipe participant past prior ->
  period_lawful recipe prior period events numbers ->
  history_state recipe participant (past ++ [(period, events)])
    (successor_of prior period numbers (Z.of_nat (length events))).
Proof.
  intros [[Hr Hp Hrec Hver Hin] Hco Hsc Hor Hma [Hcm Hco']] [_ Hlink Hperiod _ _ _ _ Hrep Hm Hord].
  pose proof (next_state_valid prior period numbers (Z.of_nat (length events))
    (conj Hcm Hco') (proj1 Hp) Hperiod) as Hv.
  rewrite Hrep, Hlink in Hv. split.
  - split; [exact Hr|by split|exact Hrec|exact Hver|].
    unfold initial_state_matches_recipe.
    cbn [period_ordinal successor_of with_state_id next_state].
    by rewrite (proj2 (Z.eqb_neq _ _)) by lia.
  - exact Hco.
  - exact Hsc.
  - cbn [period_ordinal successor_of with_state_id next_state].
    rewrite length_app. simpl. lia.
  - cbn [eligible_match_count successor_of with_state_id next_state].
    unfold matches_of in *. rewrite sum_of_snoc. cbn [snd]. lia.
  - split; cbn [eligible_match_count period_ordinal successor_of with_state_id next_state]; lia.
Qed.

Lemma history_invariant recipe participant past s :
  standing_history recipe participant past s -> history_state recipe participant past s.
Proof.
  induction 1 as [epoch before s Ho|past prior period events before receipt err s r e Hh IH Hn Hmax Hc].
  - by apply onboard_history in Ho as [_ Ho].
  - pose proof (period_dichotomy recipe prior period events before receipt err
      (history_counts _ _ _ _ IH) Hn Hmax) as Hd. cbv zeta in Hd. rewrite Hc in Hd.
    destruct Hd as [(numbers & r' & Hl & _ & [= -> -> ->])|[(status & w & e' & _ & _ & Hf & [= <- _ _ _])|
      (_ & status & Hst & [= <- _ _ _])]].
    + by apply period_history.
    + by apply fault_status in Hf.
    + done.
Qed.
End History.

(** C18: a rating history never resets.  Every state that onboarding and any
    number of periods produce carries its own identity, stays in the coordinate
    and arena scope of its participant, has as many periods behind it as its
    ordinal says and as many matches as its count; its last period was lawful
    on the state before it, to whose identity it is linked and from whose
    rating, deviation and volatility it was computed; only the first state has
    the recipe's defaults.  The next period can refuse such a state only for
    what the period itself brings. *)
Theorem standing_history_exact {B : Blake3} {L : Blake3Laws B} {M : Libm} recipe participant past s :
  standing_history recipe participant past s ->
  history_state recipe participant past s /\
  match last past with
  | None => exists epoch, s = onboarded recipe participant epoch
  | Some (period, events) => exists prior numbers,
      standing_history recipe participant (removelast past) prior /\
      period_lawful recipe prior period events numbers /\
      s = successor_of prior period numbers (Z.of_nat (length events)) /\
      prior_state_id s = state_id prior /\ epoch_id s = period
  end /\
  (forall period events before receipt err,
     bytes_zero period = false -> (1 <= length events)%nat ->
     Z.of_nat (length events) <= SIZE_MAX / SIZEOF_EVENT ->
     let run := laplace_standing_calculate_period true true (Some recipe) (Some s) (Some period)
       (Some events) (Z.of_nat (length events)) (Some before) (Some receipt) (Some err) in
     run.1.1.1 = LAPLACE_STANDING_OK \/
     exists written e, period_fault recipe s period events run.1.1.1 written e).
Proof.
  intros Hh. pose proof (history_invariant recipe participant past s Hh) as Hinv.
  split; [exact Hinv|]. split.
  - destruct Hh as [epoch before s Ho|past prior period events before receipt err s r e Hh Hn Hmax Hc].
    + apply onboard_history in Ho as [-> _]. by exists epoch.
    + rewrite last_snoc, removelast_last.
      pose proof (period_dichotomy recipe prior period events before receipt err
        (history_counts _ _ _ _ (history_invariant _ _ _ _ Hh)) Hn Hmax) as Hd.
      cbv zeta in Hd. rewrite Hc in Hd.
      destruct Hd as [(numbers & r' & Hl & _ & [= -> -> ->])|[(status & w & e' & _ & _ & Hf & [= <- _ _ _])|
        (_ & status & Hst & [= <- _ _ _])]]; [by exists prior, numbers|by apply fault_status in Hf|done].
  - intros period events before receipt err Hperiod Hn Hmax run.
    pose proof (period_dichotomy recipe s period events before receipt err
      (history_counts _ _ _ _ Hinv) Hn Hmax) as Hd. cbv zeta in Hd. fold run in Hd.
    clearbody run. destruct Hd as [(numbers & r & _ & _ & ->)|
      [(status & w & e & _ & _ & Hf & ->)|([?|Hno] & _)]];
      [by left|right; by exists w, e|congruence|].
    destruct Hno. apply Hinv.
Qed.

(** ** The batch *)
(** A row repeats the recipe and the prior state of the first row. *)
Record row_agrees {B : Blake3} (first row : laplace_standing_period_input) : Prop := {
  row_recipe : recipe_identified (input_recipe row);
  row_same_recipe : recipe_id (input_recipe row) = recipe_id (input_recipe first);
  row_prior : state_identified (input_prior_state row);
  row_same_prior : state_id (input_prior_state row) = state_id (input_prior_state first) }.

Section BatchSpec.
Context {B : Blake3} {L : Blake3Laws B}.

Lemma check_input_spec first row :
  match check_input first row with
  | inl event => event = input_event row /\ row_agrees first row
  | inr status => (status = LAPLACE_STANDING_RECIPE_INVALID \/
      status = LAPLACE_STANDING_RECIPE_IDENTITY_MISMATCH \/
      status = LAPLACE_STANDING_PRIOR_MISMATCH) /\ ~ row_agrees first row
  end.
Proof.
  unfold check_input. rewrite recipe_identify_spec, state_identify_spec.
  destruct (recipe_shape_valid (Some (input_recipe row))) eqn:Hs;
    [|split; [by left|by intros [[Hs' _] _ _ _]; rewrite Hs in Hs']].
  change (bool_decide (LAPLACE_STANDING_OK = LAPLACE_STANDING_OK)) with true.
  change (default [] (Some (recipe_digest (input_recipe row)))) with (recipe_digest (input_recipe row)).
  cbn [negb orb].
  destruct (bytes_equal_reflects (recipe_digest (input_recipe row)) (recipe_id (input_recipe row)));
    [cbn [negb orb]|split; [by right; left|by intros [[_ ?] _ _ _]]].
  destruct (bytes_equal_reflects (recipe_id (input_recipe row)) (recipe_id (input_recipe first)));
    [cbn [negb orb]|split; [by right; left|by intros []]].
  destruct (state_invalid (input_prior_state row)) eqn:Hp;
    [split; [by right; right|by intros [_ _ [Hp' _] _]; rewrite Hp in Hp']|].
  change (bool_decide (LAPLACE_STANDING_OK = LAPLACE_STANDING_OK)) with true.
  change (default [] (Some (state_digest (input_prior_state row))))
    with (state_digest (input_prior_state row)).
  cbn [negb orb].
  destruct (bytes_equal_reflects (state_digest (input_prior_state row))
    (state_id (input_prior_state row)));
    [cbn [negb orb]|split; [by right; right|by intros [_ _ [_ ?] _]]].
  destruct (bytes_equal_reflects (state_id (input_prior_state row))
    (state_id (input_prior_state first)));
    [cbn [negb orb]|split; [by right; right|by intros []]].
  split; [reflexivity|]. by split.
Qed.

Lemma input_loop_spec first rows : forall i,
  match input_loop first rows i with
  | inl events => events = map input_event rows /\ Forall (row_agrees first) rows
  | inr (status, index) => (status = LAPLACE_STANDING_RECIPE_INVALID \/
      status = LAPLACE_STANDING_RECIPE_IDENTITY_MISMATCH \/
      status = LAPLACE_STANDING_PRIOR_MISMATCH) /\
      exists k row, index = i + Z.of_nat k /\ rows !! k = Some row /\ ~ row_agrees first row /\
        Forall (row_agrees first) (take k rows)
  end.
Proof.
  induction rows as [|row rows IH]; intros i; cbn [input_loop]; [done|].
  pose proof (check_input_spec first row) as Hc.
  destruct (check_input first row) as [event|status].
  - destruct Hc as [-> Hrow]. specialize (IH (i + 1)).
    destruct (input_loop first rows (i + 1)) as [events|[status index]].
    + destruct IH as [-> Hall]. split; [done|]. by constructor.
    + destruct IH as (Hst & k & bad & -> & Hk & Hbad & Hall). split; [exact Hst|].
      exists (S k), bad. split; [lia|]. split; [exact Hk|]. split; [exact Hbad|].
      simpl. by constructor.
  - destruct Hc as [Hst Hbad]. split; [exact Hst|]. exists 0%nat, row. split; [lia|].
    split; [done|]. split; [exact Hbad|]. constructor.
Qed.
End BatchSpec.

(** A batch is one period.  When every row repeats the identified recipe and
    prior state of the first one, the batch gives the status, successor,
    receipt and error that the period of the first row's recipe, prior state
    and period identity gives on the matches of all rows; otherwise it writes
    no result, and names the first row that does not agree. *)
Theorem batch_is_period {B : Blake3} {L : Blake3Laws B} {M : Libm} first rest result err
    malloc_ordered malloc_roots :
  let rows := first :: rest in
  let count := Z.of_nat (length rows) in
  count <= SIZE_MAX / SIZEOF_EVENT ->
  let '(status, result', error') :=
    laplace_standing_calculate_period_batch true malloc_ordered malloc_roots (Some rows) count
      (Some result) (Some err) in
  (Forall (row_agrees first) rows ->
     exists successor receipt,
       laplace_standing_calculate_period malloc_ordered malloc_roots
         (Some (input_recipe first)) (Some (input_prior_state first))
         (Some (event_period_id (input_event first))) (Some (map input_event rows)) count
         (Some empty_state) (Some empty_receipt) (Some err) =
       (status, Some successor, Some receipt, error') /\
       result' = Some (mk_result successor receipt)) /\
  (~ Forall (row_agrees first) rows ->
     result' = Some result /\
     (status = LAPLACE_STANDING_RECIPE_INVALID \/
      status = LAPLACE_STANDING_RECIPE_IDENTITY_MISMATCH \/
      status = LAPLACE_STANDING_PRIOR_MISMATCH) /\
     exists k row, error' = Some (mk_error (Z.of_nat k) 0 0) /\ rows !! k = Some row /\
       ~ row_agrees first row /\ Forall (row_agrees first) (take k rows)).
Proof.
  intros rows count Hmax. unfold laplace_standing_calculate_period_batch. ptrs.
  rewrite (proj2 (Z.eqb_neq count 0)) by (unfold count, rows; simpl; lia).
  rewrite (proj2 (Z.ltb_ge (SIZE_MAX / SIZEOF_EVENT) count)) by done. cbn [orb negb].
  rewrite cells_all by done. unfold rows at 1.
  pose proof (input_loop_spec first (first :: rest) 0) as Hl. fold rows in Hl |- *.
  destruct (input_loop first rows 0) as [events|[status index]].
  - destruct Hl as [-> Hall].
    destruct (laplace_standing_calculate_period _ _ _ _ _ _ _ _ _ _) as [[[status s] r] e] eqn:Hc.
    split; [|done]. intros _.
    assert (Hptr : exists s' r', s = Some s' /\ r = Some r').
    { unfold laplace_standing_calculate_period in Hc. repeat casec_in Hc;
        try (injection Hc as _ <- <- _; by eexists _, _).
      all: destruct (check_prior _ _); repeat casec_in Hc;
        try (injection Hc as _ <- <- _; by eexists _, _).
      destruct (period_of_copies _ _ _ _ _) as [[[st [w|]] r'] e'];
        injection Hc as _ <- <- _; by eexists _, _. }
    destruct Hptr as (s' & r' & -> & ->). by exists s', r'.
  - destruct Hl as (Hst & k & row & -> & Hk & Hbad & Hpre). split.
    + intros Hall. rewrite Forall_lookup in Hall. by destruct Hbad; eapply Hall.
    + intros _. split; [done|]. split; [exact Hst|]. by exists k, row.
Qed.

(** ** A period of two matches *)
#[local] Existing Instance checksum_blake3.
#[local] Existing Instance checksum_blake3_laws.
#[local] Existing Instance sample_libm.

Definition sample_epoch : laplace_digest256 := replicate 32 7.
Definition sample_period : laplace_digest256 := replicate 32 8.
Definition sample_player (n : Z) : laplace_standing_state :=
  onboarded sample_recipe (replicate 32 n) sample_epoch.

(** A match of player 11 against another player, with its identity. *)
Definition sample_event (opponent root kind : Z) : laplace_standing_event :=
  let draft id :=
    mk_event id (coordinate_id (sample_player 11)) (state_id (sample_player 11))
      (sample_player opponent) sample_period (replicate 32 root)
      (mapping_digest sample_recipe kind) (replicate 32 9) (replicate 32 10)
      (score_of sample_recipe kind).1 (score_of sample_recipe kind).2 kind 0 in
  draft (event_digest (draft (zeros 32))).

Definition sample_events : list laplace_standing_event :=
  [sample_event 22 40 1; sample_event 33 41 3].

Definition sample_run (events : list laplace_standing_event) :=
  laplace_standing_calculate_period true true (Some sample_recipe) (Some (sample_player 11))
    (Some sample_period) (Some events) (Z.of_nat (length events)) (Some empty_state)
    (Some empty_receipt) (Some (mk_error 0 0 0)).

Lemma sample_counts : counts_wf (sample_player 11).
Proof. split; cbn; lia. Qed.

Lemma sample_period_ok : (sample_run sample_events).1.1.1 = LAPLACE_STANDING_OK.
Proof. vm_compute. reflexivity. Qed.

(** The winner of both matches gains rating and certainty. *)
Definition improves (before : laplace_standing_state) (after : ptr laplace_standing_state) : bool :=
  match after with
  | Some after => double_lt (rating before) (rating after) &&
                  double_lt (rating_deviation after) (rating_deviation before)
  | None => false
  end.

Lemma sample_run_improves : improves (sample_player 11) (sample_run sample_events).1.1.2 = true.
Proof. vm_compute. reflexivity. Qed.

Lemma sample_run_repeated_root :
  (sample_run [sample_event 22 40 1; sample_event 33 40 3]).1.1.1 =
  LAPLACE_STANDING_DEPENDENCE_ROOT_DUPLICATE.
Proof. vm_compute. reflexivity. Qed.

Lemma sample_epoch_onboards :
  laplace_standing_onboard (Some sample_recipe) (Some (replicate 32 11)) (Some sample_epoch)
    (Some empty_state) = (LAPLACE_STANDING_OK, Some (sample_player 11)).
Proof. vm_compute. reflexivity. Qed.

Lemma sample_event_period opponent root kind :
  event_period_id (sample_event opponent root kind) = sample_period.
Proof. reflexivity. Qed.

#[local] Opaque sample_event sample_player.

Lemma sample_length : (1 <= length sample_events)%nat.
Proof. cbn. lia. Qed.
Lemma sample_size : Z.of_nat (length sample_events) <= SIZE_MAX / SIZEOF_EVENT.
Proof. check. Qed.

Lemma period_exact_witness :
  exists numbers,
    period_lawful sample_recipe (sample_player 11) sample_period sample_events numbers.
Proof.
  pose proof (period_exact sample_recipe (sample_player 11) sample_period sample_events
    empty_state empty_receipt (mk_error 0 0 0) sample_counts sample_length sample_size) as H.
  pose proof sample_period_ok as Hok. unfold sample_run in Hok.
  destruct (laplace_standing_calculate_period _ _ _ _ _ _ _ _ _ _) as [[[status s] r] e].
  cbn [fst] in Hok. subst status. destruct H as (H & _ & _). by apply H.
Defined.

Lemma period_order_irrelevant_witness :
  sample_run sample_events = sample_run [sample_event 33 41 3; sample_event 22 40 1].
Proof.
  destruct (period_order_irrelevant sample_recipe (sample_player 11) sample_period sample_events
    [sample_event 33 41 3; sample_event 22 40 1] empty_state empty_receipt (mk_error 0 0 0)
    sample_counts sample_length sample_size (Permutation_swap _ _ _)) as (_ & Hsame & _).
  exact (Hsame sample_period_ok).
Defined.

Lemma sample_history : exists s,
  standing_history sample_recipe (replicate 32 11) [(sample_period, sample_events)] s.
Proof.
  pose proof sample_period_ok as Hok.
  pose proof (period_dichotomy sample_recipe (sample_player 11) sample_period sample_events
    empty_state empty_receipt (mk_error 0 0 0) sample_counts sample_length sample_size) as Hd.
  unfold sample_run in Hok. cbv zeta in Hd.
  destruct Hd as [(numbers & r & _ & _ & Hrun)|[(status & s & e & _ & _ & Hf & Hrun)|
    (_ & status & Hst & Hrun)]].
  - eexists. exact (history_period sample_recipe (replicate 32 11) [] (sample_player 11)
      sample_period sample_events empty_state empty_receipt (mk_error 0 0 0) _ _ _
      (history_onboarded _ _ _ _ _ sample_epoch_onboards) sample_length sample_size Hrun).
  - apply fault_status in Hf. rewrite Hrun in Hok. cbn [fst] in Hok.
    destruct (Hf Hok).
  - rewrite Hrun in Hok. cbn [fst] in Hok. destruct (Hst Hok).
Qed.

Lemma standing_history_exact_witness : exists s,
  period_ordinal s = 1 /\ eligible_match_count s = 2 /\ epoch_id s = sample_period.
Proof.
  destruct sample_history as [s Hs]. exists s.
  destruct (standing_history_exact sample_recipe (replicate 32 11) _ s Hs) as ([] & Hlast & _).
  cbn [last] in Hlast. destruct Hlast as (prior & numbers & _ & _ & _ & _ & Hepoch).
  split; [assumption|]. split; [assumption|exact Hepoch].
Defined.

(** The same two matches as a batch. *)
Definition sample_row (e : laplace_standing_event) : laplace_standing_period_input :=
  mk_input sample_recipe (sample_player 11) e.

Lemma sample_prior_lawful : prior_lawful sample_recipe (sample_player 11).
Proof. apply check_prior_spec. vm_compute. reflexivity. Qed.

Lemma sample_row_agrees e : row_agrees (sample_row (sample_event 22 40 1)) (sample_row e).
Proof.
  pose proof sample_prior_lawful as [Hr Hs _ _ _].
  exact (Build_row_agrees _ (sample_row (sample_event 22 40 1)) (sample_row e)
    Hr eq_refl Hs eq_refl).
Qed.

Lemma sample_rows_agree :
  Forall (row_agrees (sample_row (sample_event 22 40 1))) (map sample_row sample_events).
Proof.
  apply Forall_forall. intros row (e & -> & _)%list_elem_of_fmap. apply sample_row_agrees.
Qed.

Lemma batch_is_period_witness :
  let '(status, result, _) :=
    laplace_standing_calculate_period_batch true true true (Some (map sample_row sample_events)) 2
      (Some (mk_result empty_state empty_receipt)) (Some (mk_error 0 0 0)) in
  status = LAPLACE_STANDING_OK /\ exists s r, result = Some (mk_result s r).
Proof.
  pose proof (batch_is_period (sample_row (sample_event 22 40 1))
    [sample_row (sample_event 33 41 3)] (mk_result empty_state empty_receipt) (mk_error 0 0 0)
    true true sample_size) as H.
  pose proof sample_period_ok as Hok. unfold sample_run in Hok.
  unfold sample_events in *. cbn [map length] in *.
  change (Z.of_nat 2) with 2 in *.
  destruct (laplace_standing_calculate_period_batch _ _ _ _ _ _ _) as [[status result] error].
  destruct H as [H _]. destruct (H sample_rows_agree) as (s & r & Hrun & Hresult).
  cbn [input_event sample_row input_recipe input_prior_state] in Hrun.
  rewrite sample_event_period in Hrun. rewrite Hrun in Hok. cbn [fst] in Hok.
  split; [exact Hok|]. exists s, r. exact Hresult.
Defined.
