(* ===== verification/PerfcacheModules.v ===== *)
(** * Perfcache modules: contracts, the framework probe, and pinned views

    Models the parts of [engine/src/perfcache_modules.c] that its modules share,
    with [engine/include/laplace/perfcache_modules.h] and the module structure of
    [perfcache_registry.h]: the decoding of the generated hexadecimal identities,
    the three built-in modules, the match of a contract with a module, the
    validators of the framework probe and the resolution of a contract to its
    module.  The tables of the two Unicode modules are [UnicodeTier0] and
    [UnicodeReverse].  A module's callbacks are the names of the functions they
    point to.  From [engine/src/perfcache_registry.cpp] it models how a pin finds
    the view of a module.

    A C string is the list of its characters with the terminating zero behind
    them; decoding never reads behind that zero, since it is no digit. *)
From stdpp Require Import prelude strings sorting.
From Stdlib Require Import ZArith Lia.
From S2P Require Import Prelude Bytes Sorting Layout Hash Identity Highway Perfcache.

(** ** Contract constants ([contracts/perfcache.json]) *)
Definition c_string (s : string) : list Z := domain_bytes s ++ [0].

Definition LAPLACE_PERFCACHE_FRAMEWORK_PROBE_MODULE_ID_HEX : list Z :=
  c_string "9dcf5110ee3085368f65237c155ccd11".
Definition LAPLACE_PERFCACHE_FRAMEWORK_PROBE_KEY_SCHEMA_ID_HEX : list Z :=
  c_string "d1d7384380796c44701b2d99b081e7dd".
Definition LAPLACE_PERFCACHE_FRAMEWORK_PROBE_VALUE_SCHEMA_ID_HEX : list Z :=
  c_string "55048fbdd2d7443356e9cf097f283497".
Definition LAPLACE_PERFCACHE_FRAMEWORK_PROBE_CONTRACT_FINGERPRINT_HEX : list Z :=
  c_string "552d0c9695a7fdd013289bfe8ab2694735930aa85f4f30d96aa315828aeaed02".
Definition LAPLACE_PERFCACHE_UNICODE_TIER0_MODULE_ID_HEX : list Z :=
  c_string "cb4d73fe1c7ad3784bdd69f9e22f5b3f".
Definition LAPLACE_PERFCACHE_UNICODE_TIER0_KEY_SCHEMA_ID_HEX : list Z :=
  c_string "94a3071b818712e79766560b00104c03".
Definition LAPLACE_PERFCACHE_UNICODE_TIER0_VALUE_SCHEMA_ID_HEX : list Z :=
  c_string "77426e5a65de6a72ab29ebe8ded89097".
Definition LAPLACE_PERFCACHE_UNICODE_TIER0_CONTRACT_FINGERPRINT_HEX : list Z :=
  c_string "4be3330a91e1f4c68087fa79da527e5c09784effc3c4e544e6b421b4942aa3d8".
Definition LAPLACE_PERFCACHE_UNICODE_REVERSE_MODULE_ID_HEX : list Z :=
  c_string "7eb954d41423919d2ffa04bc5e41483b".
Definition LAPLACE_PERFCACHE_UNICODE_REVERSE_KEY_SCHEMA_ID_HEX : list Z :=
  c_string "49bd054506262933ea754514330d0c60".
Definition LAPLACE_PERFCACHE_UNICODE_REVERSE_VALUE_SCHEMA_ID_HEX : list Z :=
  c_string "92c44b7d8c0aba06265b397dce3fd6ee".
Definition LAPLACE_PERFCACHE_UNICODE_REVERSE_CONTRACT_FINGERPRINT_HEX : list Z :=
  c_string "f6d1a0db56270ed66e4032be928386401f0f10c02f29f64c903eaebb7c8520c2".

Abbreviation LAPLACE_PERFCACHE_FRAMEWORK_PROBE_KEY_BYTES := 4 (only parsing).
Abbreviation LAPLACE_PERFCACHE_FRAMEWORK_PROBE_VALUE_BYTES := 8 (only parsing).
Abbreviation LAPLACE_PERFCACHE_UNICODE_TIER0_KEY_BYTES := 4 (only parsing).
Abbreviation LAPLACE_PERFCACHE_UNICODE_TIER0_VALUE_BYTES := 152 (only parsing).
Abbreviation LAPLACE_PERFCACHE_UNICODE_REVERSE_KEY_BYTES := 48 (only parsing).
Abbreviation LAPLACE_PERFCACHE_UNICODE_REVERSE_VALUE_BYTES := 8 (only parsing).
Abbreviation LAPLACE_PERFCACHE_MODULE_ABI_MAJOR := 2 (only parsing).
Abbreviation LAPLACE_PERFCACHE_MODULE_ABI_MINOR := 0 (only parsing).
Abbreviation LAPLACE_PERFCACHE_MODULE_REQUIRED := 1 (only parsing).

(** The sizes of the two Unicode tables are generated from the contract too; they
    are parameters here, so that small tables can be evaluated, and
    [contract_tables] holds the numbers of the contract. *)
Class ModuleTables := {
  LAPLACE_PERFCACHE_UNICODE_TIER0_POPULATION : Z;
  LAPLACE_PERFCACHE_UNICODE_REVERSE_POPULATION : Z;
  LAPLACE_PERFCACHE_UNICODE_REVERSE_CAPACITY : Z }.

(** What the tables rely on: the populations are positions, the capacity is a
    power of two and leaves a slot empty. *)
Class ModuleTablesLaws (T : ModuleTables) : Prop := {
  tier0_population_positions :
    0 < LAPLACE_PERFCACHE_UNICODE_TIER0_POPULATION <= 1114112;
  reverse_population_positions :
    0 <= LAPLACE_PERFCACHE_UNICODE_REVERSE_POPULATION <= 1114112;
  reverse_capacity_power : exists k, 0 <= k <= 32 /\
    LAPLACE_PERFCACHE_UNICODE_REVERSE_CAPACITY = 2 ^ k;
  reverse_population_capacity :
    LAPLACE_PERFCACHE_UNICODE_REVERSE_POPULATION < LAPLACE_PERFCACHE_UNICODE_REVERSE_CAPACITY }.

Definition contract_tables : ModuleTables := {|
  LAPLACE_PERFCACHE_UNICODE_TIER0_POPULATION := 1114112;
  LAPLACE_PERFCACHE_UNICODE_REVERSE_POPULATION := 1114112;
  LAPLACE_PERFCACHE_UNICODE_REVERSE_CAPACITY := 2097152 |}.

Lemma contract_tables_laws : ModuleTablesLaws contract_tables.
Proof. split; cbn; [lia..| |lia]. exists 21. split; [lia|reflexivity]. Qed.

(** ** Data *)
Inductive laplace_perfcache_registry_status :=
| LAPLACE_PERFCACHE_REGISTRY_OK
| LAPLACE_PERFCACHE_REGISTRY_INVALID_ARGUMENT
| LAPLACE_PERFCACHE_REGISTRY_PROVIDER_INVALID
| LAPLACE_PERFCACHE_REGISTRY_MODULE_INVALID
| LAPLACE_PERFCACHE_REGISTRY_MODULE_SET_MISMATCH
| LAPLACE_PERFCACHE_REGISTRY_ARTIFACT_OPEN_FAILED
| LAPLACE_PERFCACHE_REGISTRY_PREFAULT_FAILED
| LAPLACE_PERFCACHE_REGISTRY_EPOCH_MISMATCH
| LAPLACE_PERFCACHE_REGISTRY_NO_ACTIVE_GENERATION
| LAPLACE_PERFCACHE_REGISTRY_MODULE_NOT_FOUND
| LAPLACE_PERFCACHE_REGISTRY_BUSY
| LAPLACE_PERFCACHE_REGISTRY_ALLOCATION_FAILED
| LAPLACE_PERFCACHE_REGISTRY_INTERNAL_ERROR
| LAPLACE_PERFCACHE_REGISTRY_MANIFEST_MISMATCH
| LAPLACE_PERFCACHE_REGISTRY_DEPENDENCY_INVALID
| LAPLACE_PERFCACHE_REGISTRY_ALREADY_RESERVED
| LAPLACE_PERFCACHE_REGISTRY_NOT_AUTHORIZED
| LAPLACE_PERFCACHE_REGISTRY_MANIFEST_INVALID
| LAPLACE_PERFCACHE_REGISTRY_BUFFER_TOO_SMALL.

#[export] Instance perfcache_registry_status_eq_dec :
  EqDecision laplace_perfcache_registry_status.
Proof. solve_decision. Defined.

(** The functions that the modules of this file point to. *)
Inductive record_validator :=
| validate_framework_probe_record_fn
| validate_unicode_tier0_record_fn
| validate_unicode_identity_reverse_record_fn.
Inductive view_validator :=
| validate_framework_probe_view_fn
| laplace_perfcache_unicode_tier0_validate_view_fn
| laplace_perfcache_unicode_identity_reverse_validate_view_fn.
Inductive lookup_function := unicode_identity_reverse_lookup_fn.

Record laplace_perfcache_module_v2 := mk_module {
  m_module_id : laplace_id128;
  m_key_schema_id : laplace_id128;
  m_value_schema_id : laplace_id128;
  m_module_contract_fingerprint : laplace_digest256;
  validate_record : ptr record_validator;
  validate_view : ptr view_validator;
  lookup_batch : ptr lookup_function;
  m_state : ptr unit;
  m_access_law : Z;
  m_key_bytes : Z;
  m_value_bytes : Z;
  m_flags : Z;
  abi_major : Z;
  abi_minor : Z;
  m_reserved : Z }.

(** [memset(module, 0, sizeof( *module))]. *)
Definition zero_module : laplace_perfcache_module_v2 :=
  mk_module (zeros 16) (zeros 16) (zeros 16) (zeros 32) None None None None 0 0 0 0 0 0 0.

(** ** Hexadecimal identities *)
Definition hex_nibble (value nibble : Z) : bool * Z :=
  if (48 <=? value) && (value <=? 57) then (true, u8 (value - 48))
  else if (97 <=? value) && (value <=? 102) then (true, u8 (value - 97 + 10))
  else (false, nibble).

(** The loop from an index on, over the bytes that remain. *)
Fixpoint decode_hex_from (source : list Z) (index remaining : nat) (output : list Z)
    : bool * list Z :=
  match remaining with
  | O => (true, output)
  | S remaining =>
      let '(high_ok, high) := hex_nibble (source !!! (index * 2)%nat) 0 in
      return_when negb high_ok with (false, output) ;;
      let '(low_ok, low) := hex_nibble (source !!! (index * 2 + 1)%nat) 0 in
      return_when negb low_ok with (false, output) ;;
      decode_hex_from source (S index) remaining
        (<[index := u8 (Z.lor (Z.shiftl high 4) low)]> output)
  end.

Definition decode_hex (source output : list Z) (bytes : nat) : bool * list Z :=
  let '(ok, output) := decode_hex_from source 0 bytes output in
  (ok && (source !!! (bytes * 2)%nat =? 0), output).

(** The four identities of a module, decoded into a cleared one up to the first
    that fails. *)
Definition decode_identities (module_id_hex key_schema_id_hex value_schema_id_hex
    contract_fingerprint_hex : list Z) : bool * laplace_perfcache_module_v2 :=
  let identities id key value fingerprint :=
    mk_module id key value fingerprint None None None None 0 0 0 0 0 0 0 in
  let '(ok, id) := decode_hex module_id_hex (zeros 16) 16 in
  return_when negb ok with (false, identities id (zeros 16) (zeros 16) (zeros 32)) ;;
  let '(ok, key) := decode_hex key_schema_id_hex (zeros 16) 16 in
  return_when negb ok with (false, identities id key (zeros 16) (zeros 32)) ;;
  let '(ok, value) := decode_hex value_schema_id_hex (zeros 16) 16 in
  return_when negb ok with (false, identities id key value (zeros 32)) ;;
  let '(ok, fingerprint) := decode_hex contract_fingerprint_hex (zeros 32) 32 in
  (ok, identities id key value fingerprint).

(** ** The built-in modules *)
(** The members that follow the identities. *)
Definition complete_module (m : laplace_perfcache_module_v2) (record : record_validator)
    (view : view_validator) (lookup : ptr lookup_function) (access key value : Z)
    : laplace_perfcache_module_v2 :=
  mk_module (m_module_id m) (m_key_schema_id m) (m_value_schema_id m)
    (m_module_contract_fingerprint m) (Some record) (Some view) lookup (m_state m)
    access key value LAPLACE_PERFCACHE_MODULE_REQUIRED
    LAPLACE_PERFCACHE_MODULE_ABI_MAJOR LAPLACE_PERFCACHE_MODULE_ABI_MINOR (m_reserved m).

Definition laplace_perfcache_framework_probe_module (module : ptr laplace_perfcache_module_v2)
    : laplace_perfcache_registry_status * ptr laplace_perfcache_module_v2 :=
  return_when is_null module with (LAPLACE_PERFCACHE_REGISTRY_INVALID_ARGUMENT, module) ;;
  let '(ok, m) := decode_identities LAPLACE_PERFCACHE_FRAMEWORK_PROBE_MODULE_ID_HEX
    LAPLACE_PERFCACHE_FRAMEWORK_PROBE_KEY_SCHEMA_ID_HEX
    LAPLACE_PERFCACHE_FRAMEWORK_PROBE_VALUE_SCHEMA_ID_HEX
    LAPLACE_PERFCACHE_FRAMEWORK_PROBE_CONTRACT_FINGERPRINT_HEX in
  return_when negb ok with (LAPLACE_PERFCACHE_REGISTRY_INTERNAL_ERROR, store module m) ;;
  (LAPLACE_PERFCACHE_REGISTRY_OK,
   store module (complete_module m validate_framework_probe_record_fn
     validate_framework_probe_view_fn None LAPLACE_PERFCACHE_ACCESS_DENSE_U32_ZERO_BASED
     LAPLACE_PERFCACHE_FRAMEWORK_PROBE_KEY_BYTES LAPLACE_PERFCACHE_FRAMEWORK_PROBE_VALUE_BYTES)).

Definition laplace_perfcache_unicode_tier0_module (module : ptr laplace_perfcache_module_v2)
    : laplace_perfcache_registry_status * ptr laplace_perfcache_module_v2 :=
  return_when is_null module with (LAPLACE_PERFCACHE_REGISTRY_INVALID_ARGUMENT, module) ;;
  let '(ok, m) := decode_identities LAPLACE_PERFCACHE_UNICODE_TIER0_MODULE_ID_HEX
    LAPLACE_PERFCACHE_UNICODE_TIER0_KEY_SCHEMA_ID_HEX
    LAPLACE_PERFCACHE_UNICODE_TIER0_VALUE_SCHEMA_ID_HEX
    LAPLACE_PERFCACHE_UNICODE_TIER0_CONTRACT_FINGERPRINT_HEX in
  return_when negb ok with (LAPLACE_PERFCACHE_REGISTRY_INTERNAL_ERROR, store module m) ;;
  (LAPLACE_PERFCACHE_REGISTRY_OK,
   store module (complete_module m validate_unicode_tier0_record_fn
     laplace_perfcache_unicode_tier0_validate_view_fn None
     LAPLACE_PERFCACHE_ACCESS_DENSE_U32_ZERO_BASED
     LAPLACE_PERFCACHE_UNICODE_TIER0_KEY_BYTES LAPLACE_PERFCACHE_UNICODE_TIER0_VALUE_BYTES)).

Definition laplace_perfcache_unicode_identity_reverse_module
    (module : ptr laplace_perfcache_module_v2)
    : laplace_perfcache_registry_status * ptr laplace_perfcache_module_v2 :=
  return_when is_null module with (LAPLACE_PERFCACHE_REGISTRY_INVALID_ARGUMENT, module) ;;
  let '(ok, m) := decode_identities LAPLACE_PERFCACHE_UNICODE_REVERSE_MODULE_ID_HEX
    LAPLACE_PERFCACHE_UNICODE_REVERSE_KEY_SCHEMA_ID_HEX
    LAPLACE_PERFCACHE_UNICODE_REVERSE_VALUE_SCHEMA_ID_HEX
    LAPLACE_PERFCACHE_UNICODE_REVERSE_CONTRACT_FINGERPRINT_HEX in
  return_when negb ok with (LAPLACE_PERFCACHE_REGISTRY_INTERNAL_ERROR, store module m) ;;
  (LAPLACE_PERFCACHE_REGISTRY_OK,
   store module (complete_module m validate_unicode_identity_reverse_record_fn
     laplace_perfcache_unicode_identity_reverse_validate_view_fn
     (Some unicode_identity_reverse_lookup_fn) LAPLACE_PERFCACHE_ACCESS_MODULE_DEFINED
     LAPLACE_PERFCACHE_UNICODE_REVERSE_KEY_BYTES LAPLACE_PERFCACHE_UNICODE_REVERSE_VALUE_BYTES)).

Definition module_contract_matches (c : laplace_perfcache_contract)
    (m : laplace_perfcache_module_v2) : bool :=
  bytes_equal (module_id c) (m_module_id m) &&
  bytes_equal (key_schema_id c) (m_key_schema_id m) &&
  bytes_equal (value_schema_id c) (m_value_schema_id m) &&
  bytes_equal (module_contract_fingerprint c) (m_module_contract_fingerprint m) &&
  (key_bytes c =? m_key_bytes m) && (value_bytes c =? m_value_bytes m) &&
  (access_law c =? m_access_law m).

(** One candidate of the resolution: its failure, its match, or nothing. *)
Definition try_candidate (c : laplace_perfcache_contract)
    (result : laplace_perfcache_registry_status * ptr laplace_perfcache_module_v2)
    (module : ptr laplace_perfcache_module_v2)
    : option (laplace_perfcache_registry_status * ptr laplace_perfcache_module_v2) :=
  match result with
  | (LAPLACE_PERFCACHE_REGISTRY_OK, Some candidate) =>
      return_when negb (bytes_equal (module_id c) (m_module_id candidate)) with None ;;
      return_when negb (module_contract_matches c candidate)
        with Some (LAPLACE_PERFCACHE_REGISTRY_MODULE_SET_MISMATCH, module) ;;
      Some (LAPLACE_PERFCACHE_REGISTRY_OK, store module candidate)
  | (status, _) => Some (status, module)
  end.

Definition laplace_perfcache_builtin_module_resolve (contract : ptr laplace_perfcache_contract)
    (module : ptr laplace_perfcache_module_v2)
    : laplace_perfcache_registry_status * ptr laplace_perfcache_module_v2 :=
  match contract, module with
  | Some c, Some _ =>
      match try_candidate c (laplace_perfcache_framework_probe_module (Some zero_module)) module with
      | Some result => result
      | None =>
      match try_candidate c
              (laplace_perfcache_unicode_identity_reverse_module (Some zero_module)) module with
      | Some result => result
      | None =>
      match try_candidate c (laplace_perfcache_unicode_tier0_module (Some zero_module)) module with
      | Some result => result
      | None => (LAPLACE_PERFCACHE_REGISTRY_MODULE_NOT_FOUND, store module zero_module)
      end end end
  | _, _ => (LAPLACE_PERFCACHE_REGISTRY_INVALID_ARGUMENT, module)
  end.

(** ** Views *)
(** The sections of a view point into its artifact; the code tests them for
    NULL all the same. *)
Definition view_records (v : laplace_perfcache_view) : ptr (list Z) := Some (records v).
Definition view_metadata (v : laplace_perfcache_view) : ptr (list Z) := Some (metadata v).

(** [view->records + (size_t)index * view->record_stride]. *)
Definition record_at (v : laplace_perfcache_view) (index : Z) : list Z :=
  drop (Z.to_nat (index * record_stride v)) (records v).

(** The indices of a loop over the records of a view. *)
Definition record_indexes (v : laplace_perfcache_view) : list Z :=
  map Z.of_nat (seq 0 (Z.to_nat (record_count v))).

(** ** The framework probe *)
Definition validate_framework_probe_record (record_index : Z) (record : ptr (list Z))
    (record_stride : Z) : laplace_perfcache_status :=
  match record with
  | None => LAPLACE_PERFCACHE_SEMANTIC_MISMATCH
  | Some record =>
      return_when negb (record_stride =? LAPLACE_PERFCACHE_FRAMEWORK_PROBE_KEY_BYTES +
                                         LAPLACE_PERFCACHE_FRAMEWORK_PROBE_VALUE_BYTES)
        with LAPLACE_PERFCACHE_SEMANTIC_MISMATCH ;;
      let key := u32_at 0 record in
      if key =? record_index then LAPLACE_PERFCACHE_OK else LAPLACE_PERFCACHE_DENSE_KEY_MISMATCH
  end.

Fixpoint framework_probe_loop (v : laplace_perfcache_view) (indexes : list Z) (invalid : Z)
    : laplace_perfcache_status * Z :=
  match indexes with
  | [] => (LAPLACE_PERFCACHE_OK, invalid)
  | record_index :: indexes =>
      match validate_framework_probe_record record_index (Some (record_at v record_index))
              (record_stride v) with
      | LAPLACE_PERFCACHE_OK => framework_probe_loop v indexes invalid
      | _ => (LAPLACE_PERFCACHE_SEMANTIC_MISMATCH, record_index)
      end
  end.

Definition validate_framework_probe_view (view : ptr laplace_perfcache_view)
    (invalid_record_index : ptr Z) : laplace_perfcache_status * ptr Z :=
  match view with
  | None => (LAPLACE_PERFCACHE_SEMANTIC_MISMATCH, invalid_record_index)
  | Some v =>
      return_when is_null invalid_record_index || is_null (view_records v) ||
                  (record_count v =? 0)
        with (LAPLACE_PERFCACHE_SEMANTIC_MISMATCH, invalid_record_index) ;;
      let '(status, invalid) := framework_probe_loop v (record_indexes v) UINT64_MAX in
      (status, store invalid_record_index invalid)
  end.

(** ** Pinned views *)
(** The members of a loaded artifact, of a pin and of its generation that are
    read here; the artifacts of a generation are sorted by module. *)
Record LoadedArtifact := mk_loaded_artifact {
  loaded_contract : laplace_perfcache_contract;
  handle_view : laplace_perfcache_view }.

Record laplace_perfcache_pin := mk_pin { generation : ptr (list LoadedArtifact) }.

(** [IdLess(left, right)]. *)
Definition IdLess (l r : laplace_id128) : bool :=
  match memcmp l r with Lt => true | _ => false end.

(** [std::lower_bound] halves the range of the artifacts; [found == end()] is the
    index behind the last. *)
Definition artifact_before (artifacts : list LoadedArtifact) (module_id : laplace_id128) (i : Z) : bool :=
  match artifacts !! Z.to_nat i with
  | Some artifact => IdLess (Perfcache.module_id (loaded_contract artifact)) module_id
  | None => false
  end.

Definition FindArtifact (artifacts : list LoadedArtifact) (module_id : laplace_id128)
    : ptr LoadedArtifact :=
  let found := lower_bound (length artifacts) (artifact_before artifacts module_id) 0
                 (Z.of_nat (length artifacts)) in
  match artifacts !! Z.to_nat found with
  | Some found =>
      if bytes_equal (Perfcache.module_id (loaded_contract found)) module_id
      then Some found else None
  | None => None
  end.

Definition laplace_perfcache_pin_view (pin : ptr laplace_perfcache_pin)
    (module_id : ptr laplace_id128) (view : ptr (ptr laplace_perfcache_view))
    : laplace_perfcache_registry_status * ptr (ptr laplace_perfcache_view) :=
  match pin, module_id with
  | Some (mk_pin (Some artifacts)), Some module_id =>
      return_when is_null view with (LAPLACE_PERFCACHE_REGISTRY_INVALID_ARGUMENT, view) ;;
      match FindArtifact artifacts module_id with
      | None => (LAPLACE_PERFCACHE_REGISTRY_MODULE_NOT_FOUND, view)
      | Some artifact => (LAPLACE_PERFCACHE_REGISTRY_OK, store view (Some (handle_view artifact)))
      end
  | _, _ => (LAPLACE_PERFCACHE_REGISTRY_INVALID_ARGUMENT, view)
  end.

(** The module and the pinned view that a resolution reads, if its contract
    matches. *)
Definition pinned_module_view (pin : ptr laplace_perfcache_pin)
    (module_result : laplace_perfcache_registry_status * ptr laplace_perfcache_module_v2)
    : option (laplace_perfcache_module_v2 * laplace_perfcache_view) :=
  match module_result with
  | (LAPLACE_PERFCACHE_REGISTRY_OK, Some module) =>
      match laplace_perfcache_pin_view pin (Some (m_module_id module)) (Some None) with
      | (LAPLACE_PERFCACHE_REGISTRY_OK, Some (Some v)) =>
          return_when negb (module_contract_matches (contract v) module) with None ;;
          Some (module, v)
      | _ => None
      end
  | _ => None
  end.

(** ** Lemmas *)
(** *** Hexadecimal text *)
Lemma hex_nibble_highway v n : hex_nibble v n =
  match Highway.hex_nibble v with Some digit => (true, digit) | None => (false, n) end.
Proof.
  unfold hex_nibble, Highway.hex_nibble. casec; [by rewrite u8_small by lia|].
  casec; [by rewrite u8_small by lia|done].
Qed.

(** The octet of two digits. *)
Definition hex_octet (h l : Z) : option Z :=
  match Highway.hex_nibble h, Highway.hex_nibble l with
  | Some high, Some low => Some (16 * high + low)
  | _, _ => None
  end.

Lemma hex_octet_exact h l b :
  hex_octet h l = Some b <-> is_u8 b /\ h = hex_digit (b / 16) /\ l = hex_digit (b mod 16).
Proof.
  unfold hex_octet. split.
  - destruct (Highway.hex_nibble h) as [hi|] eqn:Eh; [|done].
    destruct (Highway.hex_nibble l) as [lo|] eqn:El; [|done]. intros [= <-].
    apply hex_nibble_inv in Eh as [Hh ->]. apply hex_nibble_inv in El as [Hl ->].
    replace ((16 * hi + lo) / 16) with hi by (Z.div_mod_to_equations; lia).
    replace ((16 * hi + lo) mod 16) with lo by (Z.div_mod_to_equations; lia). by split; [lia|].
  - intros (Hb & -> & ->). rewrite !hex_nibble_digit by (Z.div_mod_to_equations; lia).
    f_equal. Z.div_mod_to_equations. lia.
Qed.

Lemma decode_hex_step source index remaining output :
  decode_hex_from source index (S remaining) output =
  match hex_octet (source !!! (index * 2)%nat) (source !!! (index * 2 + 1)%nat) with
  | Some b => decode_hex_from source (S index) remaining (<[index := b]> output)
  | None => (false, output)
  end.
Proof.
  cbn [decode_hex_from]. rewrite !hex_nibble_highway. unfold hex_octet.
  destruct (Highway.hex_nibble (source !!! (index * 2)%nat)) as [hi|] eqn:Eh; [|done]. cbn [negb].
  destruct (Highway.hex_nibble (source !!! (index * 2 + 1)%nat)) as [lo|] eqn:El; [|done]. cbn [negb].
  apply hex_nibble_inv in Eh as [Hh _]. apply hex_nibble_inv in El as [Hl _]. by rewrite nibbles_byte.
Qed.

Lemma decode_hex_from_exact remaining : forall source index output out,
  (index + remaining <= length output)%nat ->
  decode_hex_from source index remaining output = (true, out) <->
  exists d, bytes remaining d /\ out = take index output ++ d ++ drop (index + remaining) output /\
    forall i b, d !! i = Some b ->
      hex_octet (source !!! ((index + i) * 2)%nat) (source !!! ((index + i) * 2 + 1)%nat) = Some b.
Proof.
  induction remaining as [|remaining IH]; intros source index output out Hl.
  { cbn [decode_hex_from]. rewrite Nat.add_0_r. split.
    - intros [= <-]. exists []. split; [by split|]. split; [cbn; by rewrite take_drop|]. done.
    - intros (d & [Hd%nil_length_inv _] & -> & _). subst d. cbn. by rewrite take_drop. }
  rewrite decode_hex_step. destruct (hex_octet _ _) as [b|] eqn:Eb.
  2: { split; [done|]. intros (d & [Hd Ho] & _ & Hs). destruct d as [|b d]; [done|].
       specialize (Hs 0%nat b eq_refl). rewrite Nat.add_0_r in Hs. congruence. }
  assert (Htake : take (S index) (<[index:=b]> output) = take index output ++ [b]).
  { rewrite (take_S_r _ _ b) by (apply list_lookup_insert_eq; lia). by rewrite take_insert_ge by lia. }
  rewrite IH, Htake, drop_insert_lt, <- !Nat.add_succ_comm by (rewrite ?length_insert; lia). split.
  - intros (d & [Hd Ho] & -> & Hs). exists (b :: d).
    split; [apply hex_octet_exact in Eb as [Hb _]; apply bytes_cons; [exact Hb|by split]|].
    split; [by rewrite <- app_assoc|]. intros [|i] c Hc.
    + injection Hc as <-. by rewrite Nat.add_0_r.
    + rewrite <- Nat.add_succ_comm. by apply Hs.
  - intros ([|c d] & [Hd Ho] & -> & Hs); [done|]. apply Forall_cons in Ho as [Hc Ho].
    pose proof (Hs 0%nat c eq_refl) as H0. rewrite Nat.add_0_r, Eb in H0. injection H0 as ->.
    exists d. split; [split; [by injection Hd|done]|]. split; [by rewrite <- app_assoc|].
    intros i e Hi. rewrite Nat.add_succ_comm. by apply Hs.
Qed.

Lemma hex_encode_lookup d : forall i b, d !! i = Some b ->
  hex_encode d !! (i * 2)%nat = Some (hex_digit (b / 16)) /\
  hex_encode d !! (i * 2 + 1)%nat = Some (hex_digit (b mod 16)).
Proof.
  induction d as [|c d IH]; intros [|i] b Hi; try done.
  - by injection Hi as ->.
  - apply IH in Hi. unfold hex_encode in *. exact Hi.
Qed.

(** A string that reads as the digits of [d] starts with them. *)
Lemma hex_text_exact d : Forall (fun b => is_u8 b) d -> forall source,
  (forall i b, d !! i = Some b -> hex_octet (source !!! (i * 2)%nat) (source !!! (i * 2 + 1)%nat) = Some b) <->
  take (length d * 2) source = hex_encode d.
Proof.
  induction 1 as [|b d Hb _ IH]; intros source; [done|]. split.
  - intros Hs. pose proof (Hs 0%nat b eq_refl) as H0. apply hex_octet_exact in H0 as (_ & H0 & H1).
    destruct source as [|x [|y source]].
    1-2: exfalso; clear -Hb H1; cbn in H1; unfold hex_digit in H1; casec_in H1; Z.div_mod_to_equations; lia.
    cbn in H0, H1. subst x y. change (length (b :: d) * 2)%nat with (S (S (length d * 2))). cbn [take]. unfold hex_encode. cbn [map concat app].
    rewrite (proj1 (IH source)); [done|]. intros i c Hi. apply (Hs (S i) c Hi).
  - intros Ht. destruct source as [|x [|y source]]; [done|done|].
    change (length (b :: d) * 2)%nat with (S (S (length d * 2))) in Ht. cbn [take] in Ht. unfold hex_encode in Ht. cbn [map concat app] in Ht.
    injection Ht as -> -> Ht. pose proof (proj2 (IH source) Ht) as Hs. intros [|i] c Hi.
    + injection Hi as ->. by apply hex_octet_exact.
    + by apply Hs.
Qed.

(** Decoding accepts exactly the text of [bytes] octets behind which the string
    ends, and writes them. *)
Lemma decode_hex_exact source output n out : (n <= length output)%nat ->
  decode_hex source output n = (true, out) <->
  exists d, bytes n d /\ take (n * 2) source = hex_encode d /\ source !!! (n * 2)%nat = 0 /\
    out = d ++ drop n output.
Proof.
  intros Hl. unfold decode_hex. pose proof (decode_hex_from_exact n source 0 output) as H.
  destruct (decode_hex_from source 0 n output) as [ok o]. split.
  - intros Hok. injection Hok as Hok Eo. subst o. apply andb_true_iff in Hok as [-> E%Z.eqb_eq].
    destruct (proj1 (H out Hl) eq_refl) as (d & Hd & -> & Hs). exists d. split; [done|].
    split; [|by split]. rewrite <- (bytes_length _ _ Hd). apply hex_text_exact; [apply Hd|exact Hs].
  - intros (d & Hd & Ht & E & ->). rewrite <- (bytes_length _ _ Hd) in Ht.
    assert (Eo : (ok, o) = (true, d ++ drop n output)); [|injection Eo as -> ->; by rewrite E].
    apply H; [done|]. exists d. split; [done|]. split; [done|]. by apply hex_text_exact; [apply Hd|].
Qed.

(** *** The first record at fault *)
Lemma find_first (ok : Z -> bool) n :
  match find (fun i => negb (ok i)) (map Z.of_nat (seq 0 n)) with
  | None => forall i, 0 <= i < Z.of_nat n -> ok i = true
  | Some k => 0 <= k < Z.of_nat n /\ ok k = false /\ forall i, 0 <= i < k -> ok i = true
  end.
Proof.
  induction n as [|n IH]; [cbn; intros; lia|].
  rewrite seq_S, map_app. destruct (find _ (map Z.of_nat (seq 0 n))) as [k|] eqn:E.
  - assert (find (fun i => negb (ok i)) (map Z.of_nat (seq 0 n) ++ map Z.of_nat [(0 + n)%nat]) = Some k) as ->.
    { clear IH. induction (map Z.of_nat (seq 0 n)) as [|x l IHl]; [done|]. cbn [find app] in *.
      destruct (negb (ok x)); [done|]. by apply IHl. }
    destruct IH as (? & ? & ?). split; [lia|by split].
  - assert (find (fun i => negb (ok i)) (map Z.of_nat (seq 0 n) ++ map Z.of_nat [(0 + n)%nat]) =
            find (fun i => negb (ok i)) [Z.of_nat n]) as ->.
    { clear IH. induction (map Z.of_nat (seq 0 n)) as [|x l IHl]; [done|]. cbn [find app] in *.
      destruct (negb (ok x)); [done|]. by apply IHl. }
    cbn [find]. destruct (ok (Z.of_nat n)) eqn:Eo; cbn [negb].
    + intros i Hi. destruct (Z.eq_dec i (Z.of_nat n)) as [->|]; [done|]. apply IH. lia.
    + split; [lia|]. split; [done|]. intros i Hi. apply IH. lia.
Qed.

Lemma framework_probe_loop_find v idx invalid :
  framework_probe_loop v idx invalid =
  match find (fun i => negb ((record_stride v =? 12) && (u32_at 0 (record_at v i) =? i))) idx with
  | None => (LAPLACE_PERFCACHE_OK, invalid)
  | Some k => (LAPLACE_PERFCACHE_SEMANTIC_MISMATCH, k)
  end.
Proof.
  induction idx as [|i idx IH]; [done|]. cbn [framework_probe_loop find].
  unfold validate_framework_probe_record. change (4 + 8) with 12.
  destruct (record_stride v =? 12); cbn [negb andb]; [|done].
  destruct (u32_at 0 (record_at v i) =? i); cbn [negb]; [exact IH|done].
Qed.

(** *** The identities of the built-in modules *)
Definition framework_probe_module : laplace_perfcache_module_v2 :=
  default zero_module (laplace_perfcache_framework_probe_module (Some zero_module)).2.
Definition unicode_tier0_module : laplace_perfcache_module_v2 :=
  default zero_module (laplace_perfcache_unicode_tier0_module (Some zero_module)).2.
Definition unicode_identity_reverse_module : laplace_perfcache_module_v2 :=
  default zero_module (laplace_perfcache_unicode_identity_reverse_module (Some zero_module)).2.
Definition builtin_modules : list laplace_perfcache_module_v2 :=
  [framework_probe_module; unicode_identity_reverse_module; unicode_tier0_module].

Lemma framework_probe_module_ok m : laplace_perfcache_framework_probe_module (Some m) =
  (LAPLACE_PERFCACHE_REGISTRY_OK, Some framework_probe_module).
Proof. vm_compute. reflexivity. Qed.
Lemma unicode_tier0_module_ok m : laplace_perfcache_unicode_tier0_module (Some m) =
  (LAPLACE_PERFCACHE_REGISTRY_OK, Some unicode_tier0_module).
Proof. vm_compute. reflexivity. Qed.
Lemma unicode_identity_reverse_module_ok m :
  laplace_perfcache_unicode_identity_reverse_module (Some m) =
  (LAPLACE_PERFCACHE_REGISTRY_OK, Some unicode_identity_reverse_module).
Proof. vm_compute. reflexivity. Qed.

Lemma builtin_modules_distinct : NoDup (map m_module_id builtin_modules).
Proof. apply (bool_decide_unpack _). vm_compute. exact I. Qed.

(** A contract that a module implements. *)
Definition implements (m : laplace_perfcache_module_v2) (c : laplace_perfcache_contract) : Prop :=
  module_id c = m_module_id m /\ key_schema_id c = m_key_schema_id m /\
  value_schema_id c = m_value_schema_id m /\
  module_contract_fingerprint c = m_module_contract_fingerprint m /\
  key_bytes c = m_key_bytes m /\ value_bytes c = m_value_bytes m /\ access_law c = m_access_law m.

Lemma module_contract_matches_exact c m : module_contract_matches c m = true <-> implements m c.
Proof.
  unfold module_contract_matches, implements.
  rewrite !andb_true_iff, !bytes_equal_spec, !Z.eqb_eq. tauto.
Qed.

#[export] Instance implements_dec m c : Decision (implements m c).
Proof. unfold implements. apply _. Defined.

(** The outcome of a list of candidates, tried in turn. *)
Fixpoint resolve_among (c : laplace_perfcache_contract) (module : laplace_perfcache_module_v2)
    (candidates : list laplace_perfcache_module_v2)
    : laplace_perfcache_registry_status * laplace_perfcache_module_v2 :=
  match candidates with
  | [] => (LAPLACE_PERFCACHE_REGISTRY_MODULE_NOT_FOUND, zero_module)
  | candidate :: candidates =>
      if decide (module_id c = m_module_id candidate) then
        if decide (implements candidate c) then (LAPLACE_PERFCACHE_REGISTRY_OK, candidate)
        else (LAPLACE_PERFCACHE_REGISTRY_MODULE_SET_MISMATCH, module)
      else resolve_among c module candidates
  end.

Lemma try_candidate_spec c m0 candidate rest :
  match try_candidate c (LAPLACE_PERFCACHE_REGISTRY_OK, Some candidate) (Some m0) with
  | Some result => result
  | None => (fun '(s, m) => (s, Some m)) (resolve_among c m0 rest)
  end = (fun '(s, m) => (s, Some m)) (resolve_among c m0 (candidate :: rest)).
Proof.
  unfold try_candidate. cbn [resolve_among].
  pose proof (bytes_equal_spec (module_id c) (m_module_id candidate)) as He.
  pose proof (module_contract_matches_exact c candidate) as Hm.
  destruct (bytes_equal _ _); cbn [negb].
  - rewrite decide_True by naive_solver. destruct (module_contract_matches c candidate); cbn [negb].
    + by rewrite decide_True by naive_solver.
    + by rewrite decide_False by naive_solver.
  - by rewrite decide_False by naive_solver.
Qed.

Lemma resolve_builtin c m0 :
  laplace_perfcache_builtin_module_resolve (Some c) (Some m0) =
  (fun '(s, m) => (s, Some m)) (resolve_among c m0 builtin_modules).
Proof.
  unfold laplace_perfcache_builtin_module_resolve.
  rewrite framework_probe_module_ok, unicode_tier0_module_ok, unicode_identity_reverse_module_ok.
  unfold builtin_modules. rewrite <- !try_candidate_spec. done.
Qed.

Lemma resolve_among_exact c m0 candidates : NoDup (map m_module_id candidates) ->
  let '(status, m) := resolve_among c m0 candidates in
  (exists b, b ∈ candidates /\ implements b c /\ status = LAPLACE_PERFCACHE_REGISTRY_OK /\ m = b) \/
  (exists b, b ∈ candidates /\ module_id c = m_module_id b /\ ~ implements b c /\
     status = LAPLACE_PERFCACHE_REGISTRY_MODULE_SET_MISMATCH /\ m = m0) \/
  (module_id c ∉ map m_module_id candidates /\
     status = LAPLACE_PERFCACHE_REGISTRY_MODULE_NOT_FOUND /\ m = zero_module).
Proof.
  induction candidates as [|b candidates IH]; intros Hnd; cbn [resolve_among].
  { right. right. split; [apply not_elem_of_nil|done]. }
  cbn [map] in Hnd. apply NoDup_cons in Hnd as [Hb Hnd].
  destruct (decide (module_id c = m_module_id b)) as [E|E].
  - destruct (decide (implements b c)) as [Hi|Hi]; [left|right; left]; exists b; (split; [left|by split]).
  - specialize (IH Hnd). destruct (resolve_among c m0 candidates) as [s m].
    destruct IH as [(x & Hx & Hr)|[(x & Hx & Hr)|(Hn & Hr)]].
    + left. exists x. split; [by right|done].
    + right. left. exists x. split; [by right|done].
    + right. right. split; [|done]. cbn [map]. by apply not_elem_of_cons.
Qed.

(** *** Artifacts of a generation *)
Definition artifact_id (a : LoadedArtifact) : laplace_id128 := module_id (loaded_contract a).
Definition sorted_artifacts (artifacts : list LoadedArtifact) : Prop :=
  StronglySorted (fun l r => IdLess (artifact_id l) (artifact_id r) = true) artifacts.

Lemma IdLess_lt l r : IdLess l r = true <-> memcmp l r = Lt.
Proof. unfold IdLess. by destruct (memcmp l r). Qed.

Lemma sorted_artifacts_lookup artifacts i j a b : sorted_artifacts artifacts ->
  artifacts !! i = Some a -> artifacts !! j = Some b -> (i < j)%nat ->
  memcmp (artifact_id a) (artifact_id b) = Lt.
Proof.
  intros Hs Ha Hb Hij. apply IdLess_lt.
  exact (StronglySorted_lookup _ artifacts i j a b Hs Hij Ha Hb).
Qed.

(** The test of the search is monotone. *)
Lemma artifact_before_monotone artifacts id i j : sorted_artifacts artifacts ->
  0 <= i <= j -> artifact_before artifacts id j = true -> artifact_before artifacts id i = true.
Proof.
  intros Hs Hij. unfold artifact_before.
  destruct (artifacts !! Z.to_nat j) as [b|] eqn:Eb; [|done]. intros Hlt%IdLess_lt.
  destruct (decide (i = j)) as [->|Hne]; [by rewrite Eb; apply IdLess_lt|].
  destruct (lookup_lt_is_Some_2 artifacts (Z.to_nat i)) as [a Ea].
  { apply lookup_lt_Some in Eb. lia. }
  rewrite Ea. apply IdLess_lt. eapply memcmp_lt_trans; [|exact Hlt].
  apply (sorted_artifacts_lookup artifacts (Z.to_nat i) (Z.to_nat j)); (done || lia).
Qed.

(** In a sorted generation a pin finds the artifact of every module that has one. *)
Lemma find_artifact_exact artifacts id a : sorted_artifacts artifacts ->
  FindArtifact artifacts id = Some a <-> a ∈ artifacts /\ artifact_id a = id.
Proof.
  intros Hs. unfold FindArtifact.
  destruct (lower_bound_spec (artifact_before artifacts id) (length artifacts) 0
    (Z.of_nat (length artifacts))) as (Hr & Hlow & Hhigh); [lia..| |].
  { intros i j Hi _. by apply artifact_before_monotone. }
  set (r := lower_bound _ _ _ _) in *. clearbody r. split.
  - destruct (artifacts !! Z.to_nat r) as [b|] eqn:Eb; [|done].
    destruct (bytes_equal _ _) eqn:E; [|done]. intros [= ->]. apply bytes_equal_spec in E.
    split; [by eapply list_elem_of_lookup_2|done].
  - intros [Ha <-]. apply list_elem_of_lookup_1 in Ha as [k Ek].
    assert (Hk : (k < length artifacts)%nat) by by eapply lookup_lt_Some.
    assert (r = Z.of_nat k) as ->.
    { destruct (Z.lt_trichotomy r (Z.of_nat k)) as [Hlt|[?|Hgt]]; [exfalso|done|exfalso].
      - specialize (Hhigh r ltac:(lia)). unfold artifact_before in Hhigh.
        destruct (lookup_lt_is_Some_2 artifacts (Z.to_nat r)) as [b Eb]; [lia|]. rewrite Eb in Hhigh.
        rewrite (proj2 (IdLess_lt _ _)) in Hhigh; [done|].
        apply (sorted_artifacts_lookup artifacts (Z.to_nat r) k); (done || lia).
      - specialize (Hlow (Z.of_nat k) ltac:(lia)). unfold artifact_before in Hlow.
        rewrite Nat2Z.id, Ek in Hlow. apply IdLess_lt in Hlow. unfold artifact_id in Hlow.
        by rewrite memcmp_refl in Hlow. }
    rewrite Nat2Z.id, Ek. by rewrite (proj2 (bytes_equal_spec _ _)).
Qed.

Lemma pin_view_found artifacts a v0 : sorted_artifacts artifacts -> a ∈ artifacts ->
  laplace_perfcache_pin_view (Some (mk_pin (Some artifacts))) (Some (artifact_id a)) (Some v0) =
    (LAPLACE_PERFCACHE_REGISTRY_OK, Some (Some (handle_view a))).
Proof.
  intros Hs Ha. unfold laplace_perfcache_pin_view. ptrs.
  by rewrite (proj2 (find_artifact_exact artifacts (artifact_id a) a Hs)).
Qed.

(** Results written one behind the other into an array. *)
Lemma fill_step {A} (l rs : list A) i n x : (i < length l)%nat ->
  take (S i) (<[i := x]> l) ++ rs ++ drop (S i + n) (<[i := x]> l) =
  take i l ++ (x :: rs) ++ drop (i + S n) l.
Proof.
  intros Hi. rewrite (take_S_r _ _ x) by by apply list_lookup_insert_eq.
  rewrite take_insert_ge, drop_insert_lt by lia. rewrite <- app_assoc, Nat.add_succ_comm. done.
Qed.

(** The memory that a view describes. *)
Definition view_memory (v : laplace_perfcache_view) : Prop :=
  0 <= record_count v /\ 0 <= record_stride v /\ is_u64 (metadata_bytes v) /\
  bytes (length (records v)) (records v) /\
  record_count v * record_stride v <= Z.of_nat (length (records v)) /\
  bytes (length (metadata v)) (metadata v) /\ metadata_bytes v <= Z.of_nat (length (metadata v)).

(** ** Properties *)
(** A persisted contract selects a built-in module exactly when its identities,
    record sizes and access law are all those of one module of the engine, and
    then it selects that module; a contract that only shares the identity of a
    module is refused and leaves the result alone, and an unknown identity clears
    it. *)
Theorem builtin_module_resolve_exact c m0 :
  let '(status, m) := laplace_perfcache_builtin_module_resolve (Some c) (Some m0) in
  (status = LAPLACE_PERFCACHE_REGISTRY_OK <-> exists b, b ∈ builtin_modules /\ implements b c) /\
  (status = LAPLACE_PERFCACHE_REGISTRY_MODULE_NOT_FOUND <->
     module_id c ∉ map m_module_id builtin_modules) /\
  match status with
  | LAPLACE_PERFCACHE_REGISTRY_OK => exists b, b ∈ builtin_modules /\ implements b c /\ m = Some b
  | LAPLACE_PERFCACHE_REGISTRY_MODULE_NOT_FOUND => m = Some zero_module
  | _ => status = LAPLACE_PERFCACHE_REGISTRY_MODULE_SET_MISMATCH /\ m = Some m0
  end.
Proof.
  rewrite resolve_builtin. pose proof (resolve_among_exact c m0 builtin_modules builtin_modules_distinct) as H.
  destruct (resolve_among c m0 builtin_modules) as [status m]. cbv beta iota.
  assert (Hin : forall b, b ∈ builtin_modules -> m_module_id b ∈ map m_module_id builtin_modules)
    by (intros b Hb; by apply list_elem_of_fmap_2).
  assert (Huniq : forall b x, b ∈ builtin_modules -> x ∈ builtin_modules ->
    m_module_id b = m_module_id x -> b = x).
  { intros b x [i Hi]%list_elem_of_lookup_1 [j Hj]%list_elem_of_lookup_1 E.
    assert (i = j) as ->; [|congruence].
    apply (NoDup_lookup _ _ _ (m_module_id b) builtin_modules_distinct); rewrite list_lookup_fmap.
    - by rewrite Hi.
    - by rewrite Hj, E. }
  destruct H as [(b & Hb & Hi & -> & ->)|[(b & Hb & Hid & Hn & -> & ->)|(Hn & -> & ->)]].
  - split; [split; [eauto|done]|]. split; [|by exists b]. split; [done|]. intros Hc. exfalso. apply Hc.
    rewrite (proj1 Hi). by apply Hin.
  - split; [split; [done|]|].
    { intros (x & Hx & Hxi). exfalso. apply Hn. rewrite (Huniq b x); [done|done|done|].
      by rewrite <- Hid, (proj1 Hxi). }
    split; [|done]. split; [done|]. intros Hc. exfalso. apply Hc. rewrite Hid. by apply Hin.
  - split; [split; [done|]|by split]. intros (b & Hb & Hi). exfalso. apply Hn. rewrite (proj1 Hi). by apply Hin.
Qed.

(** The view of the probe is accepted exactly when it has records, all of twelve
    bytes, and each has its index for a key; otherwise the first record at fault
    is reported. *)
Lemma framework_probe_view_exact v i0 : 0 <= record_count v ->
  let ok i := record_stride v = 12 /\ u32_at 0 (record_at v i) = i in
  let '(status, invalid) := validate_framework_probe_view (Some v) (Some i0) in
  (status = LAPLACE_PERFCACHE_OK <-> 0 < record_count v /\ forall i, 0 <= i < record_count v -> ok i) /\
  (status <> LAPLACE_PERFCACHE_OK -> status = LAPLACE_PERFCACHE_SEMANTIC_MISMATCH) /\
  (record_count v = 0 -> invalid = Some i0) /\
  (forall k, 0 <= k < record_count v -> ~ ok k -> (forall i, 0 <= i < k -> ok i) -> invalid = Some k).
Proof.
  intros Hc ok. unfold validate_framework_probe_view. cbn [is_null view_records orb].
  assert (Hok : forall i, ok i <-> (record_stride v =? 12) && (u32_at 0 (record_at v i) =? i) = true)
    by (intros i; unfold ok; rewrite andb_true_iff, !Z.eqb_eq; done).
  destruct (Z.eqb_spec (record_count v) 0) as [E|E].
  { split; [split; [done|lia]|]. split; [done|]. split; [done|]. intros; lia. }
  rewrite framework_probe_loop_find. unfold record_indexes.
  pose proof (find_first (fun i => (record_stride v =? 12) && (u32_at 0 (record_at v i) =? i))
    (Z.to_nat (record_count v))) as H. cbv beta in H.
  destruct (find _ _) as [k|]; cbn [store].
  - destruct H as (Hk & Hbad & Hbefore). split; [|split; [done|split; [done|]]].
    + split; [done|]. intros [_ Hall]. specialize (Hall k ltac:(lia)). apply Hok in Hall. congruence.
    + intros j Hj Hnj Hb. f_equal. destruct (Z.lt_trichotomy j k) as [Hlt|[->|Hgt]]; [|done|].
      * exfalso. apply Hnj, Hok, Hbefore. lia.
      * specialize (Hb k ltac:(lia)). apply Hok in Hb. congruence.
  - split; [|split; [done|split; [done|]]].
    + split; [|done]. intros _. split; [lia|]. intros i Hi. apply Hok, H. lia.
    + intros k Hk Hn _. exfalso. apply Hn, Hok, H. lia.
Qed.
