(* ===== verification/UnicodeReverse.v ===== *)
(** * The reverse index of Unicode identities: an open-addressing table

    Models the reverse module of [engine/src/perfcache_modules.c]: slots of 56
    bytes, each empty or holding the identity of a position, found by linear
    probing from a home slot that the identity selects.  The loops over the probes
    run once per slot of the table, as the code's do.

    [reverse_validate_exact] shows that a view is accepted exactly when its records
    are those of a lawful table, in which every position is found from its home,
    and [reverse_resolve_exact] that a lawful table answers every identity, and
    that no probe of one fails. *)
From stdpp Require Import prelude strings sorting.
From Stdlib Require Import ZArith Lia.
From S2P Require Import Prelude Bytes Layout Hash Identity Perfcache PerfcacheModules.

Record laplace_unicode_identity_key := mk_key {
  key_content_id : laplace_id128;
  key_identity_preimage_fingerprint : laplace_digest256 }.

(** [(const uint8_t* )&key]. *)
Definition key_image (k : laplace_unicode_identity_key) : list Z :=
  key_content_id k ++ key_identity_preimage_fingerprint k.

Section Reverse.
Context {B : Blake3} {T : ModuleTables}.

(** ** Records *)
Definition validate_unicode_identity_reverse_record (record_index : Z) (record : ptr (list Z))
    (record_stride : Z) : laplace_perfcache_status :=
  match record with
  | None => LAPLACE_PERFCACHE_SEMANTIC_MISMATCH
  | Some record =>
      return_when negb (record_stride =? LAPLACE_PERFCACHE_UNICODE_REVERSE_KEY_BYTES +
                                         LAPLACE_PERFCACHE_UNICODE_REVERSE_VALUE_BYTES) ||
                  (LAPLACE_PERFCACHE_UNICODE_REVERSE_CAPACITY <=? record_index)
        with LAPLACE_PERFCACHE_SEMANTIC_MISMATCH ;;
      let value := drop (Z.to_nat LAPLACE_PERFCACHE_UNICODE_REVERSE_KEY_BYTES) record in
      let position := u32_at 0 value in
      let occupied := u8_at 4 value in
      return_when occupied =? 0 with
        (if forallb (fun byte => byte =? 0) (slice 0 record_stride record)
         then LAPLACE_PERFCACHE_OK else LAPLACE_PERFCACHE_SEMANTIC_MISMATCH) ;;
      return_when negb (occupied =? 1) || negb (u8_at 5 value =? 0) || negb (u8_at 6 value =? 0) ||
                  negb (u8_at 7 value =? 0)
        with LAPLACE_PERFCACHE_SEMANTIC_MISMATCH ;;
      return_when LAPLACE_PERFCACHE_UNICODE_REVERSE_POPULATION <=? position
        with LAPLACE_PERFCACHE_SEMANTIC_MISMATCH ;;
      match laplace_identity_codepoint_witness position (Some (zeros 16)) (Some (zeros 32)) with
      | (LAPLACE_IDENTITY_OK, Some expected_id, Some expected_witness) =>
          return_when negb (bytes_equal (slice 0 16 record) expected_id) ||
                      negb (bytes_equal (slice 16 32 record) expected_witness)
            with LAPLACE_PERFCACHE_SEMANTIC_MISMATCH ;;
          LAPLACE_PERFCACHE_OK
      | _ => LAPLACE_PERFCACHE_SEMANTIC_MISMATCH
      end
  end.

(** ** Probing *)
Definition unicode_identity_reverse_home (key : list Z) : Z :=
  Z.land (u64_at 16 key) (u64 (LAPLACE_PERFCACHE_UNICODE_REVERSE_CAPACITY - 1)).

Definition next_slot (slot : Z) : Z :=
  Z.land (u64 (slot + 1)) (u64 (LAPLACE_PERFCACHE_UNICODE_REVERSE_CAPACITY - 1)).

(** The probes that remain, from a slot on: the status, the slot found and the
    flag, both as they stand when the loop ends. *)
Fixpoint find_loop (v : laplace_perfcache_view) (key : list Z) (probes : nat) (slot : Z)
    : laplace_perfcache_status * Z * Z :=
  match probes with
  | O => (LAPLACE_PERFCACHE_SEMANTIC_MISMATCH, UINT64_MAX, 0)
  | S probes =>
      let record := PerfcacheModules.record_at v slot in
      let occupied := u8_at (LAPLACE_PERFCACHE_UNICODE_REVERSE_KEY_BYTES + 4) record in
      return_when occupied =? 0 with (LAPLACE_PERFCACHE_OK, UINT64_MAX, 0) ;;
      return_when negb (occupied =? 1)
        with (LAPLACE_PERFCACHE_SEMANTIC_MISMATCH, UINT64_MAX, 0) ;;
      return_when bytes_equal (slice 0 LAPLACE_PERFCACHE_UNICODE_REVERSE_KEY_BYTES record)
                    (slice 0 LAPLACE_PERFCACHE_UNICODE_REVERSE_KEY_BYTES key)
        with (LAPLACE_PERFCACHE_OK, slot, 1) ;;
      find_loop v key probes (next_slot slot)
  end.

Definition reverse_shape (v : laplace_perfcache_view) : bool :=
  (record_count v =? LAPLACE_PERFCACHE_UNICODE_REVERSE_CAPACITY) &&
  (record_stride v =? LAPLACE_PERFCACHE_UNICODE_REVERSE_KEY_BYTES +
                      LAPLACE_PERFCACHE_UNICODE_REVERSE_VALUE_BYTES).

Definition unicode_identity_reverse_find (view : ptr laplace_perfcache_view) (key : ptr (list Z))
    (record_index found : ptr Z) : laplace_perfcache_status * ptr Z * ptr Z :=
  match view, key with
  | Some v, Some key =>
      return_when is_null record_index || is_null found || negb (reverse_shape v)
        with (LAPLACE_PERFCACHE_INVALID_ARGUMENT, record_index, found) ;;
      let '(status, slot, flag) :=
        find_loop v key (Z.to_nat LAPLACE_PERFCACHE_UNICODE_REVERSE_CAPACITY)
          (unicode_identity_reverse_home key) in
      (status, store record_index slot, store found flag)
  | _, _ => (LAPLACE_PERFCACHE_INVALID_ARGUMENT, record_index, found)
  end.

(** The keys that remain, into the cells of the results from an index on. *)
Fixpoint reverse_lookup_loop (view : ptr laplace_perfcache_view) (keys : list Z)
    (remaining index : nat) (record_indexes found : list Z)
    : laplace_perfcache_status * list Z * list Z :=
  match remaining with
  | O => (LAPLACE_PERFCACHE_OK, record_indexes, found)
  | S remaining =>
      let key := drop (index * Z.to_nat LAPLACE_PERFCACHE_UNICODE_REVERSE_KEY_BYTES) keys in
      let '(status, slot, flag) :=
        unicode_identity_reverse_find view (Some key) (record_indexes !! index) (found !! index) in
      let record_indexes := <[index := default 0 slot]> record_indexes in
      let found := <[index := default 0 flag]> found in
      match status with
      | LAPLACE_PERFCACHE_OK =>
          reverse_lookup_loop view keys remaining (S index) record_indexes found
      | _ => (status, record_indexes, found)
      end
  end.

Definition unicode_identity_reverse_lookup (view : ptr laplace_perfcache_view)
    (keys : ptr (list Z)) (key_count : Z) (record_indexes found : ptr (list Z))
    : laplace_perfcache_status * ptr (list Z) * ptr (list Z) :=
  match view with
  | None => (LAPLACE_PERFCACHE_INVALID_ARGUMENT, record_indexes, found)
  | Some v =>
      return_when (negb (key_count =? 0) &&
                   (is_null keys || is_null record_indexes || is_null found)) ||
                  negb (reverse_shape v)
        with (LAPLACE_PERFCACHE_INVALID_ARGUMENT, record_indexes, found) ;;
      let '(status, indexes, flags) :=
        reverse_lookup_loop view (default [] keys) (Z.to_nat key_count) 0
          (default [] record_indexes) (default [] found) in
      (status, store record_indexes indexes, store found flags)
  end.

(** ** Validation of a view *)
(** The probes that remain from a slot on to the record: whether it is reached. *)
Fixpoint reach_loop (v : laplace_perfcache_view) (key_bytes : Z) (record_index : Z)
    (record : list Z) (probes : nat) (slot : Z) : bool :=
  match probes with
  | O => false
  | S probes =>
      let candidate := PerfcacheModules.record_at v slot in
      return_when (u8_at (key_bytes + 4) candidate =? 0) ||
                  (negb (slot =? record_index) &&
                   bytes_equal (slice 0 key_bytes candidate) (slice 0 key_bytes record))
        with false ;;
      return_when slot =? record_index with true ;;
      reach_loop v key_bytes record_index record probes (next_slot slot)
  end.

(** The records from an index on: the status, the invalid record and the count
    of the occupied ones. *)
Fixpoint reverse_validate_loop (v : laplace_perfcache_view) (key_bytes : Z) (indexes : list Z)
    (invalid occupied_count : Z) : laplace_perfcache_status * Z * Z :=
  match indexes with
  | [] => (LAPLACE_PERFCACHE_OK, invalid, occupied_count)
  | record_index :: indexes =>
      let record := PerfcacheModules.record_at v record_index in
      let occupied := u8_at (key_bytes + 4) record in
      match validate_unicode_identity_reverse_record record_index (Some record) (record_stride v) with
      | LAPLACE_PERFCACHE_OK =>
          if negb (occupied =? 0) then
            let occupied_count := u64 (occupied_count + 1) in
            return_when negb (reach_loop v key_bytes record_index record
                                (Z.to_nat LAPLACE_PERFCACHE_UNICODE_REVERSE_CAPACITY)
                                (unicode_identity_reverse_home record))
              with (LAPLACE_PERFCACHE_SEMANTIC_MISMATCH, record_index, occupied_count) ;;
            reverse_validate_loop v key_bytes indexes invalid occupied_count
          else reverse_validate_loop v key_bytes indexes invalid occupied_count
      | _ => (LAPLACE_PERFCACHE_SEMANTIC_MISMATCH, record_index, occupied_count)
      end
  end.

Definition laplace_perfcache_unicode_identity_reverse_validate_view
    (view : ptr laplace_perfcache_view) (invalid_record_index : ptr Z)
    : laplace_perfcache_status * ptr Z :=
  match view with
  | None => (LAPLACE_PERFCACHE_SEMANTIC_MISMATCH, invalid_record_index)
  | Some v =>
      return_when is_null invalid_record_index || is_null (view_records v) ||
                  negb (metadata_bytes v =? 0) ||
                  negb (record_count v =? LAPLACE_PERFCACHE_UNICODE_REVERSE_CAPACITY)
        with (LAPLACE_PERFCACHE_SEMANTIC_MISMATCH, invalid_record_index) ;;
      match laplace_perfcache_unicode_identity_reverse_module (Some zero_module) with
      | (LAPLACE_PERFCACHE_REGISTRY_OK, Some module) =>
          return_when negb (module_contract_matches (contract v) module) ||
                      negb (record_stride v =? u32 (m_key_bytes module + m_value_bytes module))
            with (LAPLACE_PERFCACHE_SEMANTIC_MISMATCH, invalid_record_index) ;;
          match reverse_validate_loop v (m_key_bytes module) (PerfcacheModules.record_indexes v)
                  UINT64_MAX 0 with
          | (LAPLACE_PERFCACHE_OK, invalid, occupied_count) =>
              if negb (occupied_count =? LAPLACE_PERFCACHE_UNICODE_REVERSE_POPULATION)
              then (LAPLACE_PERFCACHE_SEMANTIC_MISMATCH, store invalid_record_index (record_count v))
              else (LAPLACE_PERFCACHE_OK, store invalid_record_index invalid)
          | (status, invalid, _) => (status, store invalid_record_index invalid)
          end
      | _ => (LAPLACE_PERFCACHE_SEMANTIC_MISMATCH, invalid_record_index)
      end
  end.

(** ** Resolution *)
(** The identities that remain, into the cells of the results from an index on. *)
Fixpoint reverse_resolve_loop (v : laplace_perfcache_view) (key_bytes : Z)
    (identities : list laplace_unicode_identity_key) (index : nat)
    (codepoint_positions found : list Z)
    : laplace_perfcache_registry_status * list Z * list Z :=
  match identities with
  | [] => (LAPLACE_PERFCACHE_REGISTRY_OK, codepoint_positions, found)
  | identity :: identities =>
      let '(status, record_index, flag) :=
        unicode_identity_reverse_find (Some v) (Some (key_image identity)) (Some UINT64_MAX)
          (found !! index) in
      let found := <[index := default 0 flag]> found in
      let codepoint_positions := <[index := UINT32_MAX]> codepoint_positions in
      match status with
      | LAPLACE_PERFCACHE_OK =>
          let codepoint_positions :=
            if negb (default 0 flag =? 0) then
              <[index := u32_at 0 (drop (Z.to_nat key_bytes)
                                     (PerfcacheModules.record_at v (default 0 record_index)))]>
                codepoint_positions
            else codepoint_positions in
          reverse_resolve_loop v key_bytes identities (S index) codepoint_positions found
      | _ => (LAPLACE_PERFCACHE_REGISTRY_INTERNAL_ERROR, codepoint_positions, found)
      end
  end.

Definition laplace_perfcache_unicode_identity_reverse_resolve_batch
    (pin : ptr laplace_perfcache_pin) (identities : ptr (list laplace_unicode_identity_key))
    (item_count : Z) (codepoint_positions found : ptr (list Z))
    : laplace_perfcache_registry_status * ptr (list Z) * ptr (list Z) :=
  return_when is_null pin ||
              (negb (item_count =? 0) &&
               (is_null identities || is_null codepoint_positions || is_null found))
    with (LAPLACE_PERFCACHE_REGISTRY_INVALID_ARGUMENT, codepoint_positions, found) ;;
  match pinned_module_view pin
          (laplace_perfcache_unicode_identity_reverse_module (Some zero_module)) with
  | None => (LAPLACE_PERFCACHE_REGISTRY_INVALID_ARGUMENT, codepoint_positions, found)
  | Some (module, v) =>
      let '(status, positions, flags) :=
        reverse_resolve_loop v (m_key_bytes module) (cells identities item_count) 0
          (default [] codepoint_positions) (default [] found) in
      (status, store codepoint_positions positions, store found flags)
  end.
End Reverse.

Local Abbreviation octets := (Forall (fun b => is_u8 b)) (only parsing).
Local Abbreviation capacity := LAPLACE_PERFCACHE_UNICODE_REVERSE_CAPACITY (only parsing).
Local Abbreviation population := LAPLACE_PERFCACHE_UNICODE_REVERSE_POPULATION (only parsing).

Section Laws.
Context {B : Blake3} {L : Blake3Laws B} {T : ModuleTables} {TL : ModuleTablesLaws T}.

(** ** Lawful tables *)
(** The identity of a position, and the bytes of a slot. *)
Definition identity_of (p : Z) : laplace_unicode_identity_key :=
  mk_key (take 16 (blake3 (position_bytes p))) (blake3 (position_bytes p)).
Definition key_of (p : Z) : list Z := key_image (identity_of p).
Definition home_of (p : Z) : Z := unicode_identity_reverse_home (key_of p).

Definition slot_bytes (s : option Z) : list Z :=
  match s with
  | None => zeros 56
  | Some p => key_of p ++ store_le 4 p ++ [1] ++ zeros 3
  end.

Definition slot_wf (s : option Z) : Prop :=
  match s with None => True | Some p => 0 <= p < population end.

(** The slot a number of probes behind another, and the number of probes from
    one to another. *)
Definition probe (slot k : Z) : Z := (slot + k) mod capacity.
Definition distance (slot i : Z) : Z := (i - slot) mod capacity.

Definition cell (slots : list (option Z)) (i : Z) : option Z := mjoin (slots !! Z.to_nat i).

(** Every occupied slot is reached from the home of its identity, through slots
    that hold other identities. *)
Definition reached (slots : list (option Z)) : Prop :=
  forall i p, 0 <= i -> cell slots i = Some p -> forall k, 0 <= k < distance (home_of p) i ->
    exists q, cell slots (probe (home_of p) k) = Some q /\ key_of q <> key_of p.

(** A lawful table has the capacity of the module, holds every position of its
    population and nothing else, and reaches what it holds. *)
Record lawful_table (slots : list (option Z)) : Prop := {
  table_size : Z.of_nat (length slots) = capacity;
  table_positions : forall p, Some p ∈ slots <-> 0 <= p < population;
  table_reached : reached slots }.

(** ** Probes *)
Lemma capacity_bounds : 0 < capacity <= 4294967296.
Proof.
  destruct reverse_capacity_power as (k & Hk & ->). split; [apply Z.pow_pos_nonneg; lia|].
  change 4294967296 with (2 ^ 32). apply Z.pow_le_mono_r; lia.
Qed.

Lemma land_capacity v : Z.land v (u64 (capacity - 1)) = v mod capacity.
Proof.
  pose proof capacity_bounds. rewrite u64_small by lia.
  destruct reverse_capacity_power as (k & Hk & ->). rewrite Z.sub_1_r, <- Z.ones_equiv.
  apply Z.land_ones. lia.
Qed.

Lemma next_slot_probe slot : 0 <= slot < capacity -> next_slot slot = probe slot 1.
Proof.
  intros Hs. pose proof capacity_bounds. unfold next_slot, probe. rewrite u64_small by lia. apply land_capacity.
Qed.

Lemma home_range key : 0 <= unicode_identity_reverse_home key < capacity.
Proof. unfold unicode_identity_reverse_home. rewrite land_capacity. apply Z.mod_pos_bound. apply capacity_bounds. Qed.

Lemma probe_range slot k : 0 <= probe slot k < capacity.
Proof. apply Z.mod_pos_bound. apply capacity_bounds. Qed.

Lemma probe_0 slot : 0 <= slot < capacity -> probe slot 0 = slot.
Proof. intros Hs. unfold probe. rewrite Z.add_0_r. by apply Z.mod_small. Qed.

Lemma probe_probe slot j k : probe (probe slot j) k = probe slot (j + k).
Proof. pose proof capacity_bounds. unfold probe. rewrite Zplus_mod_idemp_l. f_equal. lia. Qed.

Lemma distance_range slot i : 0 <= distance slot i < capacity.
Proof. apply Z.mod_pos_bound. apply capacity_bounds. Qed.

Lemma probe_distance slot i : 0 <= i < capacity -> probe slot (distance slot i) = i.
Proof.
  intros Hi. unfold probe, distance. rewrite Zplus_mod_idemp_r.
  replace (slot + (i - slot)) with i by lia. by apply Z.mod_small.
Qed.

Lemma distance_probe slot k : 0 <= k < capacity -> distance slot (probe slot k) = k.
Proof.
  intros Hk. unfold probe, distance. rewrite Zminus_mod_idemp_l.
  replace (slot + k - slot) with k by lia. by apply Z.mod_small.
Qed.

(** ** Identities *)
Lemma key_of_length p : length (key_of p) = 48%nat.
Proof. unfold key_of, key_image, identity_of. cbn. by rewrite length_app, length_take, blake3_length. Qed.

Lemma slot_bytes_length s : length (slot_bytes s) = 56%nat.
Proof.
  destruct s as [p|]; [|apply length_zeros]. cbn [slot_bytes].
  by rewrite !length_app, key_of_length, length_store_le.
Qed.

(** ** Slots in memory *)
(** The memory of a view holds a table. *)
Definition holds (v : laplace_perfcache_view) (slots : list (option Z)) : Prop :=
  record_stride v = 56 /\ Forall slot_wf slots /\ Z.of_nat (length slots) = capacity /\
  exists rest, records v = concat (map slot_bytes slots) ++ rest.

Lemma holds_record v slots i : holds v slots -> 0 <= i < capacity ->
  exists rest, PerfcacheModules.record_at v i = slot_bytes (cell slots i) ++ rest.
Proof.
  intros (Hs & _ & Hl & rest & E) Hi. unfold PerfcacheModules.record_at, cell. rewrite Hs, E.
  destruct (lookup_lt_is_Some_2 slots (Z.to_nat i)) as [s Hx]; [lia|]. rewrite Hx. cbn [mjoin option_join].
  replace (Z.to_nat (i * 56)) with (Z.to_nat i * 56)%nat by lia.
  apply strided_lookup; [|done]. apply Forall_forall. intros x _. apply slot_bytes_length.
Qed.

Lemma slot_occupied s rest : u8_at 52 (slot_bytes s ++ rest) = match s with Some _ => 1 | None => 0 end.
Proof.
  destruct s as [p|]; [|done]. apply u8_at_stored. cbn [slot_bytes]. rewrite <- !app_assoc.
  rewrite slice_app_r by (rewrite key_of_length; lia). rewrite key_of_length.
  rewrite slice_app_r by (rewrite length_store_le; lia). by rewrite length_store_le.
Qed.

Lemma slot_key p rest : slice 0 48 (slot_bytes (Some p) ++ rest) = key_of p.
Proof.
  cbn [slot_bytes]. rewrite <- !app_assoc, slice_app_l by (rewrite ?key_of_length; lia).
  apply slice_all. by rewrite key_of_length.
Qed.

Lemma slot_position p rest : slot_wf (Some p) ->
  u32_at 0 (drop 48 (slot_bytes (Some p) ++ rest)) = p.
Proof.
  intros Hp. pose proof reverse_population_positions. cbn [slot_wf] in Hp.
  apply u32_at_stored; [|lia]. cbn [slot_bytes]. rewrite <- !app_assoc.
  rewrite drop_app_length' by (by rewrite key_of_length).
  rewrite slice_app_l by (rewrite ?length_store_le; lia). apply slice_all. by rewrite length_store_le.
Qed.

Lemma cell_wf slots i : Forall slot_wf slots -> slot_wf (cell slots i).
Proof.
  intros Hw. unfold cell. destruct (slots !! Z.to_nat i) as [s|] eqn:E; [|done].
  by apply (Forall_lookup_1 _ _ _ _ Hw E).
Qed.

Lemma slot_bytes_inj s s' : slot_wf s -> slot_wf s' -> slot_bytes s' = slot_bytes s -> s = s'.
Proof.
  intros Hs Hs' E. pose proof (f_equal (fun b => u8_at 52 (b ++ [])) E) as Ho. cbv beta in Ho.
  rewrite !slot_occupied in Ho. pose proof (f_equal (fun b => u32_at 0 (drop 48 (b ++ []))) E) as Hp.
  cbv beta in Hp. destruct s, s'; try done. rewrite !slot_position in Hp by done. by rewrite Hp.
Qed.

(** What the probes read at a slot. *)
Lemma probe_reads v slots i : holds v slots -> 0 <= i < capacity ->
  let record := PerfcacheModules.record_at v i in
  match cell slots i with
  | None => u8_at 52 record = 0
  | Some p => u8_at 52 record = 1 /\ slice 0 48 record = key_of p /\
              u32_at 0 (drop 48 record) = p /\ 0 <= p < population
  end.
Proof.
  intros Hv Hi. destruct (holds_record v slots i Hv Hi) as [rest E]. cbv zeta. rewrite E.
  destruct Hv as (_ & Hw & _). destruct (cell slots i) as [p|] eqn:Ec; [|apply slot_occupied].
  assert (slot_wf (Some p)) as Hp by (rewrite <- Ec; by apply cell_wf).
  split; [apply (slot_occupied (Some p))|]. split; [apply slot_key|]. split; [by apply slot_position|done].
Qed.

(** ** The probing loops *)
Lemma find_present v slots key p : holds v slots -> slice 0 48 key = key_of p ->
  forall d n slot, 0 <= slot < capacity -> 0 <= d < Z.of_nat n ->
  cell slots (probe slot d) = Some p ->
  (forall j, 0 <= j < d -> exists q, cell slots (probe slot j) = Some q /\ key_of q <> key_of p) ->
  find_loop v key n slot = (LAPLACE_PERFCACHE_OK, probe slot d, 1).
Proof.
  intros Hv Hkey d n. revert d. induction n as [|n IH]; intros d slot Hs Hd Hc Hbefore; [lia|].
  cbn [find_loop]. rewrite Hkey. pose proof (probe_reads v slots slot Hv Hs) as Hr. cbv zeta in Hr.
  change (48 + 4) with 52. destruct (Z.eq_dec d 0) as [->|Hne].
  - rewrite probe_0 in Hc |- * by done. rewrite Hc in Hr. destruct Hr as (-> & -> & _). cbn [Z.eqb negb].
    by rewrite (proj2 (bytes_equal_spec _ _) eq_refl).
  - destruct (Hbefore 0) as (q & Hq & Hqp); [lia|]. rewrite probe_0 in Hq by done. rewrite Hq in Hr.
    destruct Hr as (-> & -> & _). cbn [Z.eqb negb]. rewrite (proj2 (bytes_equal_false _ _) Hqp).
    assert (E : forall k, probe (next_slot slot) k = probe slot (1 + k))
      by (intros k; by rewrite next_slot_probe, probe_probe).
    rewrite (IH (d - 1)), E.
    + do 3 f_equal. lia.
    + rewrite next_slot_probe by done. apply probe_range.
    + lia.
    + rewrite E. by replace (1 + (d - 1)) with d by lia.
    + intros j Hj. rewrite E. apply Hbefore. lia.
Qed.

Lemma find_absent v slots key : holds v slots ->
  (forall i q, 0 <= i < capacity -> cell slots i = Some q -> key_of q <> slice 0 48 key) ->
  forall d n slot, 0 <= slot < capacity -> 0 <= d < Z.of_nat n -> cell slots (probe slot d) = None ->
  find_loop v key n slot = (LAPLACE_PERFCACHE_OK, UINT64_MAX, 0).
Proof.
  intros Hv Hno d n. revert d. induction n as [|n IH]; intros d slot Hs Hd Hc; [lia|].
  cbn [find_loop]. pose proof (probe_reads v slots slot Hv Hs) as Hr. cbv zeta in Hr.
  change (48 + 4) with 52. destruct (cell slots slot) as [q|] eqn:Eq; [|by rewrite Hr].
  destruct Hr as (-> & -> & _). cbn [Z.eqb negb].
  rewrite (proj2 (bytes_equal_false _ _) (Hno slot q Hs Eq)).
  assert (d <> 0) by (intros ->; rewrite probe_0 in Hc by done; congruence).
  apply (IH (d - 1)); [rewrite next_slot_probe by done; apply probe_range|lia|].
  rewrite next_slot_probe, probe_probe by done. by replace (1 + (d - 1)) with d by lia.
Qed.

(** What is read at the slots before a record decides whether it is reached. *)
Definition free_path (v : laplace_perfcache_view) (key : list Z) (slot d : Z) : Prop :=
  forall j, 0 <= j < d -> let candidate := PerfcacheModules.record_at v (probe slot j) in
    u8_at 52 candidate <> 0 /\ slice 0 48 candidate <> key.

Lemma free_path_S v key slot d : 0 <= slot < capacity -> 0 < d ->
  free_path v key slot d <->
  (u8_at 52 (PerfcacheModules.record_at v slot) <> 0 /\ slice 0 48 (PerfcacheModules.record_at v slot) <> key) /\
  free_path v key (next_slot slot) (d - 1).
Proof.
  intros Hs Hd. unfold free_path. rewrite next_slot_probe by done. split.
  - intros Hall. split.
    + specialize (Hall 0 ltac:(lia)). by rewrite probe_0 in Hall.
    + intros j Hj. rewrite probe_probe. apply Hall. lia.
  - intros [H0 Hall] j Hj. destruct (Z.eq_dec j 0) as [->|]; [by rewrite probe_0|].
    specialize (Hall (j - 1) ltac:(lia)). rewrite probe_probe in Hall. by replace (1 + (j - 1)) with j in Hall by lia.
Qed.

Lemma reach_exact v i record : 0 <= i < capacity -> u8_at 52 (PerfcacheModules.record_at v i) <> 0 ->
  forall d n slot, 0 <= slot < capacity -> 0 <= d < Z.of_nat n -> distance slot i = d ->
  reach_loop v 48 i record n slot = true <-> free_path v (slice 0 48 record) slot d.
Proof.
  intros Hi Hocc d n. revert d. induction n as [|n IH]; intros d slot Hs Hd Hdist; [lia|].
  cbn [reach_loop]. change (48 + 4) with 52. destruct (Z.eqb_spec slot i) as [->|Hne]; cbn [negb andb].
  - assert (d = 0) as ->.
    { rewrite <- Hdist. unfold distance. rewrite Z.sub_diag. apply Z.mod_0_l. pose proof capacity_bounds. lia. }
    rewrite (proj2 (Z.eqb_neq _ _) Hocc). cbn [orb]. split; [intros _ j Hj; lia|done].
  - assert (d <> 0) by (intros ->; apply Hne; rewrite <- (probe_distance slot i Hi), Hdist; by rewrite probe_0).
    assert (Hnext : distance (next_slot slot) i = d - 1).
    { rewrite <- (probe_distance slot i Hi) at 1. rewrite Hdist.
      replace d with (1 + (d - 1)) at 1 by lia. rewrite <- probe_probe, <- next_slot_probe by done.
      apply distance_probe. pose proof (distance_range slot i). lia. }
    assert (Hns : 0 <= next_slot slot < capacity) by (rewrite next_slot_probe by done; apply probe_range).
    rewrite (free_path_S v _ slot d), <- (IH (d - 1) (next_slot slot)) by (done || lia).
    destruct (Z.eqb_spec (u8_at 52 (PerfcacheModules.record_at v slot)) 0) as [E|E]; cbn [orb].
    { split; [done|]. by intros [[? _] _]. }
    pose proof (bytes_equal_spec (slice 0 48 (PerfcacheModules.record_at v slot)) (slice 0 48 record)) as Hb.
    destruct (bytes_equal _ _); cbn [negb]; naive_solver.
Qed.

(** ** Counting *)
Definition held (slots : list (option Z)) : list Z := omap id slots.

Lemma cell_elem slots p : Some p ∈ slots <-> exists i, 0 <= i < Z.of_nat (length slots) /\ cell slots i = Some p.
Proof.
  rewrite list_elem_of_lookup. unfold cell. split.
  - intros [i Hi]. exists (Z.of_nat i). apply lookup_lt_Some in Hi as Hl. rewrite Nat2Z.id, Hi. split; [lia|done].
  - intros (i & _ & Hc). exists (Z.to_nat i). destruct (slots !! Z.to_nat i); [|done]. cbn in Hc. by subst.
Qed.

Lemma held_elem slots p : p ∈ held slots <-> Some p ∈ slots.
Proof. unfold held. rewrite list_elem_of_omap. split; [intros ([x|] & Hx & E); cbn in E; congruence|by exists (Some p)]. Qed.

(** Two slots of a reached table do not hold the same identity. *)
Lemma reached_distinct slots i j p q : Z.of_nat (length slots) = capacity -> reached slots ->
  0 <= i < capacity -> 0 <= j < capacity ->
  cell slots i = Some p -> cell slots j = Some q -> key_of p = key_of q -> i = j.
Proof.
  intros Hl Hr Hi Hj Hp Hq Hk. assert (home_of p = home_of q) as Hh by (unfold home_of; by rewrite Hk).
  pose proof (distance_range (home_of p) i) as Di. pose proof (distance_range (home_of p) j) as Dj.
  destruct (Z.lt_trichotomy (distance (home_of p) i) (distance (home_of p) j)) as [Hlt|[E|Hgt]].
  - destruct (Hr j q ltac:(lia) Hq (distance (home_of p) i)) as (x & Hx & Hn); [rewrite <- Hh; lia|].
    rewrite <- Hh, probe_distance in Hx by done. congruence.
  - rewrite <- (probe_distance (home_of p) i Hi), E. by apply probe_distance.
  - destruct (Hr i p ltac:(lia) Hp (distance (home_of p) j)) as (x & Hx & Hn); [lia|].
    rewrite probe_distance in Hx by done. congruence.
Qed.

Lemma held_NoDup slots : (forall i j p, (i < length slots)%nat -> (j < length slots)%nat ->
    slots !! i = Some (Some p) -> slots !! j = Some (Some p) -> i = j) -> NoDup (held slots).
Proof.
  induction slots as [|s slots IH]; intros Hd; [apply NoDup_nil; done|]. unfold held. cbn [omap list_omap].
  assert (Htail : NoDup (held slots)).
  { apply IH. intros i j p Hi Hj H1 H2. enough (S i = S j) by lia. apply (Hd (S i) (S j) p); cbn; (done || lia). }
  destruct s as [p|]; cbn [id]; [|exact Htail]. apply NoDup_cons. split; [|exact Htail].
  rewrite held_elem. intros [j Hj]%list_elem_of_lookup. apply lookup_lt_Some in Hj as Hl.
  discriminate (Hd 0%nat (S j) p ltac:(cbn; lia) ltac:(cbn; lia) eq_refl Hj).
Qed.

Lemma reached_held_NoDup slots : Z.of_nat (length slots) = capacity -> reached slots -> NoDup (held slots).
Proof.
  intros Hl Hr. apply held_NoDup. intros i j p Hi Hj H1 H2. apply Nat2Z.inj.
  apply (reached_distinct slots _ _ p p); [done|done|lia|lia| | |done]; unfold cell; rewrite Nat2Z.id; by rewrite ?H1, ?H2.
Qed.

(** Positions of the population without repetition are all of it exactly when
    there are as many of them. *)
Lemma population_counted ps : NoDup ps -> Forall (fun p => 0 <= p < population) ps ->
  Z.of_nat (length ps) = population <-> forall p, 0 <= p < population -> p ∈ ps.
Proof.
  intros Hnd Hr. pose proof reverse_population_positions as Hp.
  assert (Hsub : ps ⊆+ seqZ 0 population).
  { apply NoDup_submseteq; [done|]. intros p Hin. rewrite Forall_forall in Hr. apply elem_of_seqZ. specialize (Hr p Hin). lia. }
  split.
  - intros Hl p Hin. assert (ps ≡ₚ seqZ 0 population) as Hperm.
    { apply submseteq_length_Permutation; [done|]. rewrite length_seqZ. lia. }
    rewrite Hperm. apply elem_of_seqZ. lia.
  - intros Hall. assert (seqZ 0 population ⊆+ ps) as Hsup.
    { apply NoDup_submseteq; [apply NoDup_seqZ|]. intros p Hin%elem_of_seqZ. apply Hall. lia. }
    apply submseteq_length in Hsub, Hsup. rewrite length_seqZ in Hsub, Hsup. lia.
Qed.

(** A lawful table has an empty slot. *)
Lemma lawful_empty slots : lawful_table slots -> exists e, 0 <= e < capacity /\ cell slots e = None.
Proof.
  intros [Hl Hp Hr]. pose proof reverse_population_capacity as Hc. pose proof capacity_bounds.
  destruct (decide (None ∈ slots)) as [Hin|Hno].
  { apply list_elem_of_lookup in Hin as [i Hi]. apply lookup_lt_Some in Hi as Hlt.
    exists (Z.of_nat i). split; [lia|]. unfold cell. by rewrite Nat2Z.id, Hi. }
  exfalso. assert (length (held slots) = length slots) as Hlen.
  { clear -Hno. induction slots as [|s slots IH]; [done|]. apply not_elem_of_cons in Hno as [Hs Hno].
    unfold held in *. cbn [omap list_omap]. destruct s; [|done]. cbn. f_equal. by apply IH. }
  pose proof (reached_held_NoDup slots Hl Hr) as Hnd.
  assert (Z.of_nat (length (held slots)) = population); [|lia].
  apply population_counted; [done| |].
  - apply Forall_forall. intros p Hin%held_elem. by apply Hp.
  - intros p Hin. by apply held_elem, Hp.
Qed.

(** ** Lookup in a lawful table *)
(** The slot of the identity a key starts with. *)
Lemma find_lawful v slots key : holds v slots -> lawful_table slots -> bytes (length key) key ->
  (48 <= length key)%nat ->
  (exists i p, 0 <= i < capacity /\ cell slots i = Some p /\ slice 0 48 key = key_of p /\
     find_loop v key (Z.to_nat capacity) (unicode_identity_reverse_home key) = (LAPLACE_PERFCACHE_OK, i, 1)) \/
  ((forall p, 0 <= p < population -> slice 0 48 key <> key_of p) /\
   find_loop v key (Z.to_nat capacity) (unicode_identity_reverse_home key) =
     (LAPLACE_PERFCACHE_OK, UINT64_MAX, 0)).
Proof.
  intros Hv Ht Hb Hlen. pose proof (home_range key) as Hh. pose proof capacity_bounds.
  destruct (decide (Exists (fun p => slice 0 48 key = key_of p) (held slots))) as [Hex|Hno].
  - left. apply Exists_exists in Hex as (p & Hp%held_elem & Hk).
    apply cell_elem in Hp as (i & Hi & Hc). rewrite (table_size _ Ht) in Hi. exists i, p.
    split; [done|]. split; [done|]. split; [done|].
    assert (E : unicode_identity_reverse_home key = home_of p).
    { unfold home_of, unicode_identity_reverse_home. f_equal. rewrite <- Hk. unfold u64_at. f_equal.
      unfold slice. cbn. rewrite drop_0. symmetry. rewrite skipn_firstn_comm, take_take. done. }
    rewrite E in Hh |- *. pose proof (distance_range (home_of p) i).
    rewrite (find_present v slots key p Hv Hk (distance (home_of p) i)); [|done|lia| |].
    + by rewrite probe_distance.
    + by rewrite probe_distance.
    + intros j Hj. apply (table_reached _ Ht i p); [lia|done|done].
  - right. assert (Hnone : forall p, Some p ∈ slots -> slice 0 48 key <> key_of p).
    { intros p Hp Hk. apply Hno, Exists_exists. exists p. split; [by apply held_elem|done]. }
    split.
    { intros p Hp. apply Hnone. by apply (table_positions _ Ht). }
    destruct (lawful_empty slots Ht) as (e & He & Hce).
    pose proof (distance_range (unicode_identity_reverse_home key) e).
    apply (find_absent v slots key Hv) with (d := distance (unicode_identity_reverse_home key) e);
      [|done|lia|by rewrite probe_distance].
    intros i q Hi Hq Hk. apply (Hnone q); [|done]. apply cell_elem. exists i. rewrite (table_size _ Ht). done.
Qed.

(** ** Validation of a slot *)
Definition slot_pieces (p : Z) : list (list Z) :=
  [key_content_id (identity_of p); key_identity_preimage_fingerprint (identity_of p);
   store_le 4 p; [1]; [0]; [0]; [0]].
Definition slot_sizes : list nat := [16; 32; 4; 1; 1; 1; 1]%nat.

Lemma slot_bytes_pieces p : slot_bytes (Some p) = concat (slot_pieces p).
Proof. cbn [slot_bytes slot_pieces concat]. unfold key_of, key_image. by rewrite <- !app_assoc. Qed.

Lemma slot_piece_sizes p : map length (slot_pieces p) = slot_sizes.
Proof. cbn [map slot_pieces identity_of]. cbn. by rewrite length_take, !blake3_length, length_store_le. Qed.

Lemma u8_at_drop a n l : 0 <= a -> u8_at a (drop n l) = u8_at (Z.of_nat n + a) l.
Proof.
  intros Ha. unfold u8_at. rewrite list_lookup_total_alt, lookup_drop, list_lookup_total_alt. do 2 f_equal. lia.
Qed.
Lemma u32_at_drop n l : u32_at 0 (drop n l) = u32_at (Z.of_nat n) l.
Proof. unfold u32_at, slice. rewrite drop_drop. do 3 f_equal. lia. Qed.

Lemma zeros_exact n l : length l = n -> forallb (fun b => b =? 0) l = true <-> l = zeros n.
Proof.
  intros <-. rewrite forallb_forall. split.
  - intros Hz. symmetry. apply replicate_as_elem_of. split; [done|]. intros b Hb. apply Z.eqb_eq, Hz. by apply list_elem_of_In.
  - intros -> b Hb%list_elem_of_In. apply elem_of_replicate in Hb as [-> _]. done.
Qed.

(** The witness test of a record. *)
Lemma witness_test p id w : 0 <= p < population ->
  match laplace_identity_codepoint_witness p (Some (zeros 16)) (Some (zeros 32)) with
  | (LAPLACE_IDENTITY_OK, Some expected_id, Some expected_witness) =>
      return_when negb (bytes_equal id expected_id) || negb (bytes_equal w expected_witness)
        with LAPLACE_PERFCACHE_SEMANTIC_MISMATCH ;; LAPLACE_PERFCACHE_OK
  | _ => LAPLACE_PERFCACHE_SEMANTIC_MISMATCH
  end = LAPLACE_PERFCACHE_OK <-> mk_key id w = identity_of p.
Proof.
  intros Hp. pose proof reverse_population_positions. rewrite codepoint_witness_ok by lia. unfold identity_of.
  pose proof (bytes_equal_spec id (take 16 (blake3 (position_bytes p)))) as H1.
  pose proof (bytes_equal_spec w (blake3 (position_bytes p))) as H2.
  destruct (bytes_equal id _), (bytes_equal w _); cbn [negb orb]; split; naive_solver.
Qed.

Lemma slot_read p rest l : l = slot_bytes (Some p) ++ rest -> 0 <= p < population ->
  slice 0 16 l = key_content_id (identity_of p) /\
  slice 16 32 l = key_identity_preimage_fingerprint (identity_of p) /\
  u32_at 48 l = p /\ u8_at 52 l = 1 /\ u8_at 53 l = 0 /\ u8_at 54 l = 0 /\ u8_at 55 l = 0.
Proof.
  intros E Hp. pose proof reverse_population_positions. rewrite slot_bytes_pieces in E.
  pose proof (cuts_record slot_sizes (slot_pieces p) rest l (slot_piece_sizes p) E) as C.
  unfold slot_sizes in C. slices_in C. injection C as C1 C2 C3 C4 C5 C6 C7.
  split; [exact C1|]. split; [exact C2|]. split; [apply u32_at_stored; [exact C3|lia]|].
  split; [by apply u8_at_stored|]. split; [by apply u8_at_stored|]. split; by apply u8_at_stored.
Qed.

Lemma slot_written p l : bytes (length l) l -> (56 <= length l)%nat ->
  mk_key (slice 0 16 l) (slice 16 32 l) = identity_of p -> u32_at 48 l = p ->
  u8_at 52 l = 1 -> u8_at 53 l = 0 -> u8_at 54 l = 0 -> u8_at 55 l = 0 ->
  take 56 l = slot_bytes (Some p).
Proof.
  intros Hl Hn Hk Hp H52 H53 H54 H55. rewrite slot_bytes_pieces.
  assert (E : cuts 0 slot_sizes l = slot_pieces p).
  { unfold slot_sizes. slices. unfold slot_pieces. rewrite <- Hk. cbn [key_content_id key_identity_preimage_fingerprint].
    rewrite slice_u32, !slice_one by (done || lia). by rewrite Hp, H52, H53, H54, H55. }
  apply pieces_split in E. rewrite E at 1. apply take_app_length'.
  rewrite length_concat_pieces, slot_piece_sizes. done.
Qed.

(** A record is accepted exactly when it is a slot. *)
Lemma slot_exact i l : 0 <= i < capacity -> bytes (length l) l -> (56 <= length l)%nat ->
  validate_unicode_identity_reverse_record i (Some l) 56 = LAPLACE_PERFCACHE_OK <->
  exists s, slot_wf s /\ take 56 l = slot_bytes s.
Proof.
  intros Hi Hl Hn. unfold validate_unicode_identity_reverse_record.
  rewrite (proj2 (Z.leb_gt _ _)) by lia. change (negb (56 =? 48 + 8)) with false. cbn [orb].
  change (Z.to_nat 48) with 48%nat. rewrite u32_at_drop, !u8_at_drop by lia.
  change (Z.of_nat 48 + 4) with 52. change (Z.of_nat 48 + 5) with 53. change (Z.of_nat 48 + 6) with 54.
  change (Z.of_nat 48 + 7) with 55. change (Z.of_nat 48) with 48.
  assert (Hsl : slice 0 56 l = take 56 l) by (unfold slice; by rewrite drop_0). rewrite Hsl.
  pose proof (u32_at_range l 48 Hl ltac:(lia) ltac:(lia)) as Hpos.
  pose proof (zeros_exact 56 (take 56 l) ltac:(rewrite length_take; lia)) as Hz.
  split.
  - destruct (Z.eqb_spec (u8_at 52 l) 0) as [H0|H0].
    { destruct (forallb _ _); [|done]. intros _. exists None. split; [done|]. by apply Hz. }
    casec; [done|]. casec; [done|]. intros Hw. apply witness_test in Hw; [|lia].
    exists (Some (u32_at 48 l)). split; [cbn; lia|]. by apply slot_written.
  - intros ([p|] & Hw & E).
    + cbn [slot_wf] in Hw. assert (El : l = slot_bytes (Some p) ++ drop 56 l)
        by (rewrite <- E; symmetry; apply take_drop).
      destruct (slot_read p _ l El Hw) as (-> & -> & -> & -> & -> & -> & ->). cbn [Z.eqb negb orb].
      rewrite (proj2 (Z.leb_gt _ _)) by lia. by apply witness_test.
    + assert (H52 : u8_at 52 l = 0).
      { rewrite <- (take_drop 56 l), E. apply (slot_occupied None). }
      rewrite H52. cbn [Z.eqb]. by rewrite (proj2 Hz E).
Qed.

(** ** Validation of a table *)
(** The contract and the sizes of a view of the module. *)
Definition reverse_view (v : laplace_perfcache_view) : Prop :=
  metadata_bytes v = 0 /\ record_count v = capacity /\ record_stride v = 56 /\
  implements unicode_identity_reverse_module (contract v).

(** A record that is a slot and, when it is occupied, is reached. *)
Definition slot_lawful (v : laplace_perfcache_view) (i : Z) : Prop :=
  exists s, slot_wf s /\ slice (i * 56) 56 (records v) = slot_bytes s /\
    forall p, s = Some p -> free_path v (key_of p) (home_of p) (distance (home_of p) i).

Definition slot_ok (v : laplace_perfcache_view) (i : Z) : bool :=
  let record := PerfcacheModules.record_at v i in
  match validate_unicode_identity_reverse_record i (Some record) (record_stride v) with
  | LAPLACE_PERFCACHE_OK =>
      if negb (u8_at 52 record =? 0)
      then reach_loop v 48 i record (Z.to_nat capacity) (unicode_identity_reverse_home record)
      else true
  | _ => false
  end.

Definition occupied_at (v : laplace_perfcache_view) (i : Z) : bool :=
  negb (u8_at 52 (PerfcacheModules.record_at v i) =? 0).

Lemma reverse_validate_loop_find v idx invalid : forall count,
  0 <= count -> count + Z.of_nat (length idx) <= UINT64_MAX ->
  match find (fun i => negb (slot_ok v i)) idx with
  | Some k => exists count',
      reverse_validate_loop v 48 idx invalid count = (LAPLACE_PERFCACHE_SEMANTIC_MISMATCH, k, count')
  | None => reverse_validate_loop v 48 idx invalid count =
      (LAPLACE_PERFCACHE_OK, invalid, count + Z.of_nat (length (List.filter (occupied_at v) idx)))
  end.
Proof.
  induction idx as [|i idx IH]; intros count Hc Hn; [cbn; do 2 f_equal; lia|].
  cbn [find reverse_validate_loop List.filter length] in *. change (48 + 4) with 52.
  unfold slot_ok at 1. change (occupied_at v i) with (negb (u8_at 52 (PerfcacheModules.record_at v i) =? 0)).
  set (record := PerfcacheModules.record_at v i). cbv zeta.
  destruct (validate_unicode_identity_reverse_record i (Some record) (record_stride v)); cbn [negb]; try by eexists.
  destruct (negb (u8_at 52 record =? 0)).
  - rewrite u64_small by lia. destruct (reach_loop _ _ _ _ _ _); cbn [negb]; [|by eexists].
    specialize (IH (count + 1) ltac:(lia) ltac:(lia)). destruct (find _ idx); [exact IH|].
    rewrite IH. cbn [length]. f_equal. lia.
  - cbn [negb]. apply IH; lia.
Qed.

(** The record of an index in the memory of a view of the module. *)
Lemma record_at_reverse v i : view_memory v -> reverse_view v -> 0 <= i < capacity ->
  let record := PerfcacheModules.record_at v i in
  bytes (length record) record /\ (56 <= length record)%nat /\
  take 56 record = slice (i * 56) 56 (records v).
Proof.
  intros (_ & _ & _ & Hb & Hl & _) (_ & Hc & Hs & _) Hi. cbv zeta. unfold PerfcacheModules.record_at, slice.
  rewrite Hc, Hs in Hl. rewrite Hs. split; [|split; [|done]].
  - split; [done|]. apply Forall_drop, Hb.
  - rewrite length_drop. nia.
Qed.

Lemma slot_home p rest : unicode_identity_reverse_home (slot_bytes (Some p) ++ rest) = home_of p.
Proof.
  unfold home_of, unicode_identity_reverse_home. f_equal. unfold u64_at. f_equal.
  cbn [slot_bytes]. rewrite <- !app_assoc. apply slice_app_l; rewrite ?key_of_length; lia.
Qed.

Lemma slot_ok_exact v i : view_memory v -> reverse_view v -> 0 <= i < capacity ->
  slot_ok v i = true <-> slot_lawful v i.
Proof.
  intros Hm Hv Hi. destruct (record_at_reverse v i Hm Hv Hi) as (Hb & Hn & E).
  unfold slot_ok. set (record := PerfcacheModules.record_at v i) in *. cbv zeta.
  pose proof (slot_exact i record Hi Hb Hn) as Hx. rewrite (proj1 (proj2 (proj2 Hv))). unfold slot_lawful. rewrite <- E.
  assert (Er : forall s, take 56 record = slot_bytes s -> record = slot_bytes s ++ drop 56 record)
    by (intros s <-; symmetry; apply take_drop).
  pose proof capacity_bounds. split.
  - destruct (validate_unicode_identity_reverse_record i (Some record) 56); try done.
    destruct (proj1 Hx eq_refl) as (s & Hw & Es). intros Hok. exists s. split; [done|]. split; [done|].
    intros p ->. specialize (Er _ Es). rewrite Er, slot_occupied in Hok at 1. cbn [Z.eqb negb] in Hok.
    apply (reach_exact v i) with (d := distance (home_of p) i) in Hok.
    + by rewrite Er, slot_key, slot_home in Hok.
    + done.
    + fold record. rewrite Er, slot_occupied. done.
    + apply home_range.
    + pose proof (distance_range (home_of p) i). lia.
    + by rewrite Er, slot_home.
  - intros (s & Hw & Es & Hp). rewrite (proj2 Hx) by eauto. specialize (Er s Es).
    rewrite Er, slot_occupied at 1. destruct s as [p|]; cbn [Z.eqb negb]; [|done].
    apply (reach_exact v i) with (d := distance (home_of p) i).
    + done.
    + fold record. rewrite Er, slot_occupied. done.
    + apply home_range.
    + pose proof (distance_range (home_of p) i). lia.
    + by rewrite Er, slot_home.
    + rewrite Er, slot_key, slot_home. by apply Hp.
Qed.

(** Slots in memory are those of a table. *)
Lemma slots_table v : view_memory v -> reverse_view v ->
  (forall i, 0 <= i < capacity -> exists s, slot_wf s /\ slice (i * 56) 56 (records v) = slot_bytes s) <->
  exists slots, Z.of_nat (length slots) = capacity /\ Forall slot_wf slots /\
    slice 0 (capacity * 56) (records v) = concat (map slot_bytes slots).
Proof.
  intros Hm Hv. pose proof capacity_bounds as Hcap. pose proof Hm as (_ & _ & _ & Hb & Hl & _).
  pose proof Hv as (_ & Hc & Hs & _). rewrite Hc, Hs in Hl.
  pose proof (strided_exact 56
    (fun l => bool_decide (validate_unicode_identity_reverse_record 0 (Some l) 56 = LAPLACE_PERFCACHE_OK))
    slot_bytes slot_wf (fun s _ => slot_bytes_length s)) as Hx.
  assert (Hopen : forall l, Forall (fun b => is_u8 b) l -> (56 <= length l)%nat ->
    bool_decide (validate_unicode_identity_reverse_record 0 (Some l) 56 = LAPLACE_PERFCACHE_OK) = true <->
    exists s, slot_wf s /\ take 56 l = slot_bytes s).
  { intros l Ho Hn. rewrite bool_decide_eq_true. apply slot_exact; [lia|by split|done]. }
  specialize (Hx Hopen (Z.to_nat capacity) (records v) (proj2 Hb) ltac:(lia)).
  assert (Hslice : slice 0 (capacity * 56) (records v) = take (Z.to_nat capacity * 56) (records v)).
  { unfold slice. rewrite drop_0. f_equal. lia. }
  rewrite Hslice. split.
  - intros Hall. destruct (proj1 Hx) as (es & He & Hw & E); [|by exists es; split; [lia|]].
    apply forallb_forall. intros i Hi%in_seq. apply Hopen.
    + by apply Forall_drop, Hb.
    + rewrite length_drop. nia.
    + destruct (Hall (Z.of_nat i)) as (s & Hw & E); [lia|]. exists s. split; [done|].
      rewrite <- E. unfold slice. do 2 f_equal. lia.
  - intros (slots & Hn & Hw & E) i Hi.
    assert (Hf : forallb (fun index => bool_decide (validate_unicode_identity_reverse_record 0
        (Some (drop (index * 56) (records v))) 56 = LAPLACE_PERFCACHE_OK)) (seq 0 (Z.to_nat capacity)) = true).
    { apply Hx. exists slots. split; [lia|by split]. }
    rewrite forallb_forall in Hf. specialize (Hf (Z.to_nat i) ltac:(apply in_seq; lia)).
    apply Hopen in Hf; [|by apply Forall_drop, Hb|rewrite length_drop; nia].
    destruct Hf as (s & Hsw & Hse). exists s. split; [done|]. rewrite <- Hse. unfold slice. do 2 f_equal. lia.
Qed.

Lemma table_holds v slots : reverse_view v -> Z.of_nat (length slots) = capacity -> Forall slot_wf slots ->
  slice 0 (capacity * 56) (records v) = concat (map slot_bytes slots) -> holds v slots.
Proof.
  intros (_ & _ & Hs & _) Hn Hw E. split; [done|]. split; [done|]. split; [done|].
  exists (drop (Z.to_nat (capacity * 56)) (records v)). rewrite <- E. unfold slice. rewrite drop_0.
  symmetry. apply take_drop.
Qed.

Lemma holds_slice v slots i : holds v slots -> 0 <= i < capacity ->
  slice (i * 56) 56 (records v) = slot_bytes (cell slots i).
Proof.
  intros Hv Hi. destruct (holds_record v slots i Hv Hi) as [rest E]. unfold PerfcacheModules.record_at in E.
  rewrite (proj1 Hv) in E. unfold slice. rewrite E. apply take_app_length'. by rewrite slot_bytes_length.
Qed.

(** What is free in the memory is occupied by other identities in the table. *)
Lemma free_path_table v slots key slot d : holds v slots ->
  free_path v key slot d <-> forall j, 0 <= j < d ->
    exists q, cell slots (probe slot j) = Some q /\ key_of q <> key.
Proof.
  intros Hv. unfold free_path. split; intros H j Hj; specialize (H j Hj);
    pose proof (probe_reads v slots (probe slot j) Hv (probe_range slot j)) as Hr; cbv zeta in H, Hr;
    destruct (cell slots (probe slot j)) as [q|].
  - destruct Hr as (_ & Hk & _). rewrite Hk in H. exists q. split; [done|apply H].
  - by destruct H.
  - destruct Hr as (Ho & Hk & _). rewrite Ho, Hk. split; [done|]. by destruct H as (x & [= ->] & ?).
  - by destruct H as (x & ? & _).
Qed.

Lemma occupied_held v slots : holds v slots ->
  length (List.filter (occupied_at v) (PerfcacheModules.record_indexes v)) = length (held slots) \/
  record_count v <> capacity.
Proof.
  intros Hv. destruct (decide (record_count v = capacity)) as [Hc|Hc]; [left|by right].
  pose proof Hv as (_ & _ & Hn & _). unfold PerfcacheModules.record_indexes. rewrite Hc.
  replace (Z.to_nat capacity) with (length slots) by lia.
  assert (Hocc : forall i, (i < length slots)%nat ->
    occupied_at v (Z.of_nat i) = match mjoin (slots !! i) with Some _ => true | None => false end).
  { intros i Hi. pose proof (probe_reads v slots (Z.of_nat i) Hv ltac:(lia)) as Hr. cbv zeta in Hr.
    unfold occupied_at, cell in *. rewrite Nat2Z.id in Hr. destruct (mjoin (slots !! i)) as [q|].
    - by destruct Hr as (-> & _).
    - by rewrite Hr. }
  clear -Hocc. revert Hocc. generalize (occupied_at v). intros f Hocc.
  assert (Hgen : forall l b, (forall i, (i < length l)%nat ->
      f (Z.of_nat (b + i)) = match mjoin (l !! i) with Some _ => true | None => false end) ->
    length (List.filter f (map Z.of_nat (seq b (length l)))) = length (held l)).
  { induction l as [|s l IH]; intros b Hf; [done|]. cbn [length seq map List.filter].
    pose proof (Hf 0%nat ltac:(cbn; lia)) as H0. rewrite Nat.add_0_r in H0. cbn in H0. rewrite H0.
    specialize (IH (S b)). unfold held in *. cbn [omap list_omap].
    assert (IH' : length (List.filter f (map Z.of_nat (seq (S b) (length l)))) = length (omap id l)).
    { apply IH. intros i Hi. rewrite Nat.add_succ_comm. apply (Hf (S i)). cbn. lia. }
    destruct s; cbn [id length]; by rewrite IH'. }
  by apply Hgen.
Qed.

(** Slots that are all lawful, of which as many are occupied as there are
    positions, are a lawful table. *)
Lemma lawful_slots v slots : holds v slots ->
  (forall i, 0 <= i < capacity -> slot_lawful v i) <-> reached slots.
Proof.
  intros Hv. pose proof Hv as (_ & Hw & Hn & _). split.
  - intros Hall i p Hi Hc k Hk.
    assert (Hlt : 0 <= i < capacity).
    { unfold cell in Hc. destruct (slots !! Z.to_nat i) eqn:E; [|done]. apply lookup_lt_Some in E. lia. }
    destruct (Hall i Hlt) as (s & Hsw & Es & Hp). rewrite (holds_slice v slots i Hv Hlt), Hc in Es.
    assert (s = Some p) as ->.
    { apply slot_bytes_inj; [done| |done]. rewrite <- Hc. by apply cell_wf. }
    apply (proj1 (free_path_table v slots _ _ _ Hv) (Hp p eq_refl) k Hk).
  - intros Hr i Hi. exists (cell slots i). split.
    { by apply cell_wf. }
    split; [by apply holds_slice|]. intros p Hp. apply (free_path_table v slots _ _ _ Hv).
    intros j Hj. apply (Hr i p); [lia|done|done].
Qed.

#[local] Instance reverse_view_dec v : Decision (reverse_view v).
Proof. unfold reverse_view. apply _. Defined.

Lemma reverse_module_sizes :
  m_key_bytes unicode_identity_reverse_module = 48 /\ m_value_bytes unicode_identity_reverse_module = 8.
Proof. by vm_compute. Qed.

Lemma reverse_validate_guarded v i0 :
  laplace_perfcache_unicode_identity_reverse_validate_view (Some v) (Some i0) =
  if decide (reverse_view v) then
    match reverse_validate_loop v 48 (PerfcacheModules.record_indexes v) UINT64_MAX 0 with
    | (LAPLACE_PERFCACHE_OK, invalid, occupied_count) =>
        if negb (occupied_count =? population)
        then (LAPLACE_PERFCACHE_SEMANTIC_MISMATCH, Some (record_count v))
        else (LAPLACE_PERFCACHE_OK, Some invalid)
    | (status, invalid, _) => (status, Some invalid)
    end
  else (LAPLACE_PERFCACHE_SEMANTIC_MISMATCH, Some i0).
Proof.
  unfold laplace_perfcache_unicode_identity_reverse_validate_view.
  rewrite unicode_identity_reverse_module_ok. destruct reverse_module_sizes as [-> ->].
  change (u32 (48 + 8)) with 56. cbn [is_null view_records orb store].
  pose proof (module_contract_matches_exact (contract v) unicode_identity_reverse_module) as Hm.
  unfold reverse_view. destruct (Z.eqb_spec (metadata_bytes v) 0) as [E0|E0]; cbn [negb orb];
    [|rewrite decide_False by (intros (? & _); done); done].
  destruct (Z.eqb_spec (record_count v) capacity) as [E1|E1]; cbn [negb];
    [|rewrite decide_False by (intros (_ & ? & _); done); done].
  destruct (module_contract_matches _ _); cbn [negb orb];
    [|rewrite decide_False by (intros (_ & _ & _ & Hi); by apply Hm in Hi); done].
  destruct (Z.eqb_spec (record_stride v) 56) as [E2|E2]; cbn [negb];
    [|rewrite decide_False by (intros (_ & _ & ? & _); done); done].
  rewrite decide_True by (repeat (split; [done|]); by apply Hm). done.
Qed.

(** The count decides whether reached slots are a lawful table. *)
Lemma lawful_count slots : Z.of_nat (length slots) = capacity -> Forall slot_wf slots -> reached slots ->
  lawful_table slots <-> Z.of_nat (length (held slots)) = population.
Proof.
  intros Hn Hw Hr. pose proof (reached_held_NoDup slots Hn Hr) as Hnd.
  assert (Hrange : Forall (fun p => 0 <= p < population) (held slots)).
  { apply Forall_forall. intros p Hp%held_elem. rewrite Forall_forall in Hw. by apply (Hw (Some p)). }
  rewrite (population_counted (held slots) Hnd Hrange). split.
  - intros [_ Hp _] p Hin. by apply held_elem, Hp.
  - intros Hall. split; [done| |done]. intros p. split.
    + intros Hin%held_elem. rewrite Forall_forall in Hrange. by apply Hrange.
    + intros Hin. by apply held_elem, Hall.
Qed.

(** The view holds a lawful table. *)
Definition holds_lawful (v : laplace_perfcache_view) : Prop :=
  exists slots, lawful_table slots /\ slice 0 (capacity * 56) (records v) = concat (map slot_bytes slots).

Lemma lawful_wf slots : lawful_table slots -> Forall slot_wf slots.
Proof.
  intros [_ Hp _]. apply Forall_forall. intros [p|] Hin; [|done]. by apply Hp.
Qed.

Lemma holds_lawful_table v : reverse_view v -> holds_lawful v ->
  exists slots, lawful_table slots /\ holds v slots.
Proof.
  intros Hv (slots & Ht & E). exists slots. split; [done|].
  apply table_holds; [done|apply Ht|by apply lawful_wf|done].
Qed.

Lemma holds_unique v slots slots' : holds v slots -> holds v slots' -> slots = slots'.
Proof.
  intros Hh Hh'. pose proof (proj1 (proj2 (proj2 Hh))) as Hn. pose proof (proj1 (proj2 (proj2 Hh'))) as Hn'.
  apply (list_eq_same_length _ _ (length slots)); [lia|done|]. intros i x y Hi Hx Hy.
  pose proof (holds_slice v slots (Z.of_nat i) Hh ltac:(lia)) as H1.
  rewrite (holds_slice v slots' (Z.of_nat i) Hh' ltac:(lia)) in H1.
  apply slot_bytes_inj in H1; [|apply cell_wf, Hh|apply cell_wf, Hh'].
  unfold cell in H1. by rewrite Nat2Z.id, Hx, Hy in H1.
Qed.

(** Lawful slots are a lawful table exactly when as many are occupied as there
    are positions. *)
Lemma all_slots_lawful v : view_memory v -> reverse_view v ->
  (forall i, 0 <= i < capacity -> slot_lawful v i) ->
  holds_lawful v <->
  Z.of_nat (length (List.filter (occupied_at v) (PerfcacheModules.record_indexes v))) = population.
Proof.
  intros Hm Hv Hall. destruct (proj1 (slots_table v Hm Hv)) as (slots & Hn & Hw & E).
  { intros i Hi. destruct (Hall i Hi) as (s & Hsw & Es & _). by exists s. }
  pose proof (table_holds v slots Hv Hn Hw E) as Hh.
  pose proof (proj1 (lawful_slots v slots Hh) Hall) as Hr.
  destruct (occupied_held v slots Hh) as [->|Hc]; [|by destruct Hc; apply Hv].
  rewrite <- (lawful_count slots Hn Hw Hr). split; [|intros Ht; by exists slots].
  intros Hl. destruct (holds_lawful_table v Hv Hl) as (slots' & Ht & Hh').
  by rewrite (holds_unique v slots slots').
Qed.

(** What an accepted view is, and where a refusal points. *)
Lemma reverse_validate_cases v i0 : view_memory v ->
  let '(status, invalid) :=
    laplace_perfcache_unicode_identity_reverse_validate_view (Some v) (Some i0) in
  (status = LAPLACE_PERFCACHE_OK <-> reverse_view v /\ holds_lawful v) /\
  (status <> LAPLACE_PERFCACHE_OK -> status = LAPLACE_PERFCACHE_SEMANTIC_MISMATCH) /\
  (~ reverse_view v -> invalid = Some i0) /\
  (reverse_view v -> (forall k, 0 <= k < capacity -> ~ slot_lawful v k ->
     (forall i, 0 <= i < k -> slot_lawful v i) -> invalid = Some k) /\
   (~ holds_lawful v -> (forall i, 0 <= i < capacity -> slot_lawful v i) -> invalid = Some capacity)).
Proof.
  intros Hm. rewrite reverse_validate_guarded. destruct (decide (reverse_view v)) as [Hv|Hv].
  2: { split; [split; [done|by intros [? _]]|]. split; [done|]. by split. }
  pose proof capacity_bounds as Hcap. pose proof Hv as (_ & Hc & Hs & _).
  unfold PerfcacheModules.record_indexes. rewrite Hc.
  pose proof (find_first (slot_ok v) (Z.to_nat capacity)) as Hf. rewrite Z2Nat.id in Hf by lia.
  pose proof (reverse_validate_loop_find v (map Z.of_nat (seq 0 (Z.to_nat capacity))) UINT64_MAX 0) as Hloop.
  rewrite length_map, length_seq in Hloop. specialize (Hloop ltac:(lia) ltac:(lia)).
  assert (Hok : forall i, 0 <= i < capacity -> slot_ok v i = true <-> slot_lawful v i)
    by (intros i Hi; by apply slot_ok_exact).
  destruct (find _ _) as [k|].
  - destruct Hloop as [count' ->]. destruct Hf as (Hk & Hbad & Hbefore).
    assert (Hbad' : ~ slot_lawful v k) by (rewrite <- Hok by done; congruence).
    split; [split; [done|]|].
    { intros [_ Hl]. exfalso. destruct (holds_lawful_table v Hv Hl) as (slots & Ht & Hh). apply Hbad'.
      apply (lawful_slots v slots Hh); [apply Ht|done]. }
    split; [done|]. split; [done|]. intros _. split.
    + intros j Hj Hnj Hb. f_equal. destruct (Z.lt_trichotomy j k) as [Hlt|[->|Hgt]]; [|done|].
      * exfalso. apply Hnj, Hok; [done|]. apply Hbefore. lia.
      * exfalso. apply Hbad', Hb. lia.
    + intros _ Hall. exfalso. by apply Hbad', Hall.
  - rewrite Hloop, Z.add_0_l.
    assert (Hall : forall i, 0 <= i < capacity -> slot_lawful v i) by (intros i Hi; apply Hok, Hf; done).
    pose proof (all_slots_lawful v Hm Hv Hall) as Hlaw. unfold PerfcacheModules.record_indexes in Hlaw.
    rewrite Hc in Hlaw.
    match type of Hlaw with _ <-> ?n = _ => destruct (Z.eqb_spec n population) as [Ep|Ep] end; cbn [negb].
    + split; [split; [intros _; split; [done|by apply Hlaw]|done]|]. split; [done|]. split; [done|].
      intros _. split; [intros k Hk Hn' _; by destruct (Hn' (Hall k Hk))|]. intros Hno. by destruct Hno; apply Hlaw.
    + split; [split; [done|intros [_ Hl]; by apply Hlaw in Hl]|]. split; [done|]. split; [done|].
      intros _. split; [intros k Hk Hn' _; by destruct (Hn' (Hall k Hk))|]. done.
Qed.

Lemma accepted v i0 : view_memory v ->
  (laplace_perfcache_unicode_identity_reverse_validate_view (Some v) (Some i0)).1 = LAPLACE_PERFCACHE_OK ->
  reverse_view v /\ holds_lawful v.
Proof.
  intros Hm Hok. pose proof (reverse_validate_cases v i0 Hm) as H. 
  destruct (laplace_perfcache_unicode_identity_reverse_validate_view _ _). by apply H.
Qed.

(** ** Resolution in an accepted view *)
(** Where an identity is found, and the position there; or that it is none of the
    population. *)
Definition located (v : laplace_perfcache_view) (key : list Z) (r : option (Z * Z)) : Prop :=
  match r with
  | Some (i, p) => 0 <= i < capacity /\ 0 <= p < population /\ slice 0 48 key = key_of p /\
                   slice (i * 56) 56 (records v) = slot_bytes (Some p)
  | None => forall p, 0 <= p < population -> slice 0 48 key <> key_of p
  end.

Definition located_slot (r : option (Z * Z)) : Z := match r with Some (i, _) => i | None => UINT64_MAX end.
Definition located_position (r : option (Z * Z)) : Z := match r with Some (_, p) => p | None => UINT32_MAX end.
Definition located_flag (r : option (Z * Z)) : Z := match r with Some _ => 1 | None => 0 end.

Lemma find_located v key ri fd : reverse_view v -> holds_lawful v -> bytes (length key) key ->
  (48 <= length key)%nat ->
  exists r, located v key r /\
    unicode_identity_reverse_find (Some v) (Some key) (Some ri) (Some fd) =
      (LAPLACE_PERFCACHE_OK, Some (located_slot r), Some (located_flag r)).
Proof.
  intros Hv Hl Hb Hk. destruct (holds_lawful_table v Hv Hl) as (slots & Ht & Hh).
  unfold unicode_identity_reverse_find. cbn [is_null orb].
  assert (reverse_shape v = true) as ->.
  { unfold reverse_shape. destruct Hv as (_ & -> & -> & _). by rewrite Z.eqb_refl. }
  cbn [negb]. destruct (find_lawful v slots key Hh Ht Hb Hk) as [(i & p & Hi & Hc & Hkp & ->)|[Hno ->]].
  - exists (Some (i, p)). split; [|done]. split; [done|]. split; [|split; [done|]].
    + apply (table_positions _ Ht), cell_elem. exists i. by rewrite (table_size _ Ht).
    + by rewrite (holds_slice v slots i Hh Hi), Hc.
  - by exists None.
Qed.

(** The position that is read where an identity is found. *)
Lemma located_reads v key i p : reverse_view v -> view_memory v -> located v key (Some (i, p)) ->
  u32_at 0 (drop 48 (PerfcacheModules.record_at v i)) = p.
Proof.
  intros Hv Hm (Hi & Hp & _ & E). destruct (record_at_reverse v i Hm Hv Hi) as (_ & _ & Er). rewrite E in Er.
  rewrite <- (take_drop 56 (PerfcacheModules.record_at v i)), Er. by apply slot_position.
Qed.

Lemma lookup_loop_located v keys : reverse_view v -> holds_lawful v -> bytes (length keys) keys ->
  forall remaining index ri fd, ((index + remaining) * 48 <= length keys)%nat ->
  (index + remaining <= length ri)%nat -> (index + remaining <= length fd)%nat ->
  exists rs, Forall2 (fun i r => located v (drop (i * 48) keys) r) (seq index remaining) rs /\
    reverse_lookup_loop (Some v) keys remaining index ri fd =
    (LAPLACE_PERFCACHE_OK,
     take index ri ++ map located_slot rs ++ drop (index + remaining) ri,
     take index fd ++ map located_flag rs ++ drop (index + remaining) fd).
Proof.
  intros Hv Hl Hb. induction remaining as [|remaining IH]; intros index ri fd Hk Hri Hfd.
  { exists []. split; [constructor|]. cbn. by rewrite Nat.add_0_r, !take_drop. }
  cbn [reverse_lookup_loop seq]. change (Z.to_nat 48) with 48%nat.
  destruct (lookup_lt_is_Some_2 ri index) as [r0 ->]; [lia|].
  destruct (lookup_lt_is_Some_2 fd index) as [f0 ->]; [lia|].
  destruct (find_located v (drop (index * 48) keys) r0 f0 Hv Hl) as (r & Hr & ->).
  { split; [done|]. by apply Forall_drop, Hb. }
  { rewrite length_drop. lia. }
  cbn [from_option id]. destruct (IH (S index) (<[index:=located_slot r]> ri) (<[index:=located_flag r]> fd))
    as (rs & Hrs & ->); [lia|rewrite length_insert; lia..|].
  exists (r :: rs). split; [by constructor|]. cbn [map]. by rewrite !fill_step by lia.
Qed.

Lemma resolve_loop_located v : reverse_view v -> holds_lawful v -> view_memory v ->
  forall identities index ps fd,
  Forall (fun k => bytes 48 (key_image k)) identities ->
  (index + length identities <= length ps)%nat -> (index + length identities <= length fd)%nat ->
  exists rs, Forall2 (fun k r => located v (key_image k) r) identities rs /\
    reverse_resolve_loop v 48 identities index ps fd =
    (LAPLACE_PERFCACHE_REGISTRY_OK,
     take index ps ++ map located_position rs ++ drop (index + length identities) ps,
     take index fd ++ map located_flag rs ++ drop (index + length identities) fd).
Proof.
  intros Hv Hl Hm. induction identities as [|k identities IH]; intros index ps fd Hks Hps Hfd.
  { exists []. split; [constructor|]. cbn. by rewrite Nat.add_0_r, !take_drop. }
  cbn [reverse_resolve_loop length] in *. apply Forall_cons in Hks as [Hk Hks].
  destruct (lookup_lt_is_Some_2 fd index) as [f0 ->]; [lia|].
  destruct (find_located v (key_image k) UINT64_MAX f0 Hv Hl) as (r & Hr & ->).
  { rewrite (bytes_length _ _ Hk). done. }
  { rewrite (bytes_length _ _ Hk). done. }
  cbn [from_option id]. change (Z.to_nat 48) with 48%nat.
  assert (E : (if negb (located_flag r =? 0)
      then <[index := u32_at 0 (drop 48 (PerfcacheModules.record_at v (located_slot r)))]>
             (<[index := UINT32_MAX]> ps)
      else <[index := UINT32_MAX]> ps) = <[index := located_position r]> ps).
  { destruct r as [[i p]|]; [|done]. cbn [located_flag located_slot located_position Z.eqb negb].
    by rewrite (located_reads v (key_image k) i p Hv Hm Hr), list_insert_insert_eq. }
  rewrite E. destruct (IH (S index) (<[index:=located_position r]> ps) (<[index:=located_flag r]> fd))
    as (rs & Hrs & ->); [done|rewrite length_insert; lia..|].
  exists (r :: rs). split; [by constructor|]. cbn [map]. by rewrite !fill_step by lia.
Qed.

(** On an accepted view the module's lookup answers every key: it reports the
    slot of each identity of the population, whose record is that identity with
    its position, and for any other key that there is none; no probe fails. *)
Lemma reverse_lookup_exact v i0 keys n ri fd : view_memory v ->
  (laplace_perfcache_unicode_identity_reverse_validate_view (Some v) (Some i0)).1 = LAPLACE_PERFCACHE_OK ->
  bytes (length keys) keys -> 0 <= n -> n * 48 <= Z.of_nat (length keys) ->
  n <= Z.of_nat (length ri) -> n <= Z.of_nat (length fd) ->
  let '(status, ri', fd') :=
    unicode_identity_reverse_lookup (Some v) (Some keys) n (Some ri) (Some fd) in
  status = LAPLACE_PERFCACHE_OK /\ exists rs,
    Forall2 (fun i r => located v (drop (i * 48) keys) r) (seq 0 (Z.to_nat n)) rs /\
    ri' = Some (map located_slot rs ++ drop (Z.to_nat n) ri) /\
    fd' = Some (map located_flag rs ++ drop (Z.to_nat n) fd).
Proof.
  intros Hm Hok Hb Hn Hk Hri Hfd. apply accepted in Hok as [Hv Hl]; [|done].
  unfold unicode_identity_reverse_lookup. cbn [is_null orb]. rewrite andb_false_r.
  assert (reverse_shape v = true) as ->.
  { unfold reverse_shape. destruct Hv as (_ & -> & -> & _). by rewrite Z.eqb_refl. }
  cbn [negb orb].
  destruct (lookup_loop_located v keys Hv Hl Hb (Z.to_nat n) 0 ri fd) as (rs & Hrs & E); [lia..|].
  change (default [] (Some keys)) with keys. change (default [] (Some ri)) with ri.
  change (default [] (Some fd)) with fd. rewrite E. cbn [store take app Nat.add]. split; [done|]. by exists rs.
Qed.

(** What is located is an identity of the population. *)
Lemma located_identity v k r : bytes 16 (key_content_id k) -> bytes 32 (key_identity_preimage_fingerprint k) ->
  located v (key_image k) r ->
  match r with
  | Some (_, p) => 0 <= p < population /\ k = identity_of p
  | None => forall p, 0 <= p < population -> k <> identity_of p
  end.
Proof.
  intros Hc Hf. assert (Hs : slice 0 48 (key_image k) = key_image k).
  { apply slice_all. unfold key_image. rewrite length_app, (bytes_length _ _ Hc), (bytes_length _ _ Hf). done. }
  assert (Hinj : forall p, key_image k = key_of p -> k = identity_of p).
  { intros p E. unfold key_of, key_image in E. apply app_inj_len in E as [E1 E2].
    - destruct k. cbn in *. by subst.
    - rewrite (bytes_length _ _ Hc). cbn. by rewrite length_take, blake3_length. }
  destruct r as [[i p]|]; cbn [located]; rewrite Hs.
  - intros (_ & Hp & E & _). split; [done|by apply Hinj].
  - intros Hno p Hp ->. by apply (Hno p Hp).
Qed.

(** An accepted view separates the identities of its population. *)
Lemma lawful_identities v p q : reverse_view v -> holds_lawful v -> 0 <= p < population ->
  0 <= q < population -> identity_of p = identity_of q -> p = q.
Proof.
  intros Hv Hl Hp Hq E. destruct (holds_lawful_table v Hv Hl) as (slots & Ht & Hh).
  apply (table_positions _ Ht), cell_elem in Hp as (i & Hi & Hci).
  apply (table_positions _ Ht), cell_elem in Hq as (j & Hj & Hcj). rewrite (table_size _ Ht) in Hi, Hj.
  assert (i = j) as ->; [|congruence].
  apply (reached_distinct slots i j p q); [apply Ht|apply Ht|done|done|done|done|]. unfold key_of. by rewrite E.
Qed.

(** ** Properties *)
(** C5: A view of the reverse module is accepted exactly when it has the contract,
    the sizes and no metadata, and its memory is a lawful table: every slot is
    empty or holds the identity of a position, every position of the population
    is held, and each is reached from its home by linear probing.  A refusal
    reports the first slot that is none or is not reached, or the capacity when
    every slot is lawful but positions are missing. *)
Theorem reverse_validate_exact v i0 : view_memory v ->
  let '(status, invalid) :=
    laplace_perfcache_unicode_identity_reverse_validate_view (Some v) (Some i0) in
  (status = LAPLACE_PERFCACHE_OK <-> reverse_view v /\ holds_lawful v) /\
  (status <> LAPLACE_PERFCACHE_OK -> status = LAPLACE_PERFCACHE_SEMANTIC_MISMATCH) /\
  (~ reverse_view v -> invalid = Some i0) /\
  (reverse_view v -> (forall k, 0 <= k < capacity -> ~ slot_lawful v k ->
     (forall i, 0 <= i < k -> slot_lawful v i) -> invalid = Some k) /\
   (~ holds_lawful v -> (forall i, 0 <= i < capacity -> slot_lawful v i) -> invalid = Some capacity)).
Proof. apply reverse_validate_cases. Qed.

(** The result of a resolution for one identity. *)
Definition resolves (k : laplace_unicode_identity_key) (p : option Z) : Prop :=
  match p with
  | Some p => 0 <= p < population /\ k = identity_of p
  | None => forall p, 0 <= p < population -> k <> identity_of p
  end.

Lemma resolve_batch_found artifacts a i0 identities n ps fd :
  sorted_artifacts artifacts -> a ∈ artifacts ->
  artifact_id a = m_module_id unicode_identity_reverse_module -> view_memory (handle_view a) ->
  (laplace_perfcache_unicode_identity_reverse_validate_view (Some (handle_view a)) (Some i0)).1 =
    LAPLACE_PERFCACHE_OK ->
  Forall (fun k => bytes 16 (key_content_id k) /\ bytes 32 (key_identity_preimage_fingerprint k)) identities ->
  n = Z.of_nat (length identities) -> n <= Z.of_nat (length ps) -> n <= Z.of_nat (length fd) ->
  exists answers, Forall2 resolves identities answers /\
    laplace_perfcache_unicode_identity_reverse_resolve_batch (Some (mk_pin (Some artifacts)))
      (Some identities) n (Some ps) (Some fd) =
    (LAPLACE_PERFCACHE_REGISTRY_OK,
     Some (map (default UINT32_MAX) answers ++ drop (length identities) ps),
     Some (map (fun p => match p with Some _ => 1 | None => 0 end) answers ++ drop (length identities) fd)).
Proof.
  intros Hs Ha Hid Hm Hok Hks -> Hps Hfd. apply accepted in Hok as [Hv Hl]; [|done].
  unfold laplace_perfcache_unicode_identity_reverse_resolve_batch, pinned_module_view.
  cbn [is_null orb]. rewrite andb_false_r, unicode_identity_reverse_module_ok, <- Hid.
  rewrite pin_view_found by done.
  rewrite (proj2 (module_contract_matches_exact _ _)) by apply Hv. cbn [negb].
  rewrite (proj1 reverse_module_sizes), cells_all by done.
  destruct (resolve_loop_located (handle_view a) Hv Hl Hm identities 0 ps fd) as (rs & Hrs & E).
  { eapply Forall_impl; [exact Hks|]. intros k [H1 H2]. unfold key_image.
    change 48%nat with (16 + 32)%nat. by apply bytes_app. }
  { lia. } { lia. }
  change (default [] (Some ps)) with ps. change (default [] (Some fd)) with fd. rewrite E.
  rewrite !take_0, Nat.add_0_l. cbn [store app]. exists (map (option_map snd) rs). split.
  - clear -Hrs Hks L TL. induction Hrs as [|k r ks rs Hr _ IH]; cbn [map]; [constructor|].
    apply Forall_cons in Hks as [[H1 H2] Hks]. constructor; [|by apply IH].
    apply located_identity in Hr; [|done|done]. by destruct r as [[i p]|].
  - rewrite !map_map. rewrite (map_ext located_position (fun r => default UINT32_MAX (option_map snd r)))
      by by intros [[i p]|].
    rewrite (map_ext located_flag (fun r => match option_map snd r with Some _ => 1 | None => 0 end))
      by by intros [[i p]|]. done.
Qed.

(** C29: A batch of identities resolved against a pinned, accepted view of the
    reverse module always succeeds: each identity of the population gives its
    position, every other one is reported as not found, and the results behind
    the batch are left alone. *)
Theorem reverse_resolve_exact artifacts a i0 identities n ps fd :
  sorted_artifacts artifacts -> a ∈ artifacts ->
  artifact_id a = m_module_id unicode_identity_reverse_module -> view_memory (handle_view a) ->
  (laplace_perfcache_unicode_identity_reverse_validate_view (Some (handle_view a)) (Some i0)).1 =
    LAPLACE_PERFCACHE_OK ->
  Forall (fun k => bytes 16 (key_content_id k) /\ bytes 32 (key_identity_preimage_fingerprint k)) identities ->
  n = Z.of_nat (length identities) -> n <= Z.of_nat (length ps) -> n <= Z.of_nat (length fd) ->
  exists answers, Forall2 resolves identities answers /\
    laplace_perfcache_unicode_identity_reverse_resolve_batch (Some (mk_pin (Some artifacts)))
      (Some identities) n (Some ps) (Some fd) =
    (LAPLACE_PERFCACHE_REGISTRY_OK,
     Some (map (default UINT32_MAX) answers ++ drop (length identities) ps),
     Some (map (fun p => match p with Some _ => 1 | None => 0 end) answers ++ drop (length identities) fd)).
Proof. apply resolve_batch_found. Qed.
End Laws.
(** ** A table of three identities in four slots *)
Definition sample_tables : ModuleTables := {|
  LAPLACE_PERFCACHE_UNICODE_TIER0_POPULATION := 3;
  LAPLACE_PERFCACHE_UNICODE_REVERSE_POPULATION := 3;
  LAPLACE_PERFCACHE_UNICODE_REVERSE_CAPACITY := 4 |}.

Lemma sample_tables_laws : ModuleTablesLaws sample_tables.
Proof. split; cbn; [lia..| |lia]. exists 2. split; [lia|reflexivity]. Qed.

Definition sample_slots : list (option Z) := [Some 2; None; Some 0; Some 1].
Definition sample_reverse_contract : laplace_perfcache_contract :=
  let m := unicode_identity_reverse_module in
  mk_contract (m_module_id m) (m_key_schema_id m) (m_value_schema_id m) (zeros 16) (zeros 32)
    (m_module_contract_fingerprint m) (zeros 32) (zeros 32) (zeros 32)
    (m_key_bytes m) (m_value_bytes m) (m_access_law m) 0.
Definition sample_reverse_records : list Z :=
  concat (map (slot_bytes (B := checksum_blake3)) sample_slots).
Definition sample_reverse_view : laplace_perfcache_view :=
  mk_view sample_reverse_contract [] 0 sample_reverse_records 4 56 [] 0 (zeros 32).
Definition sample_reverse_artifact : LoadedArtifact :=
  mk_loaded_artifact sample_reverse_contract sample_reverse_view.

Lemma sample_reverse_memory : view_memory sample_reverse_view.
Proof.
  split; [cbn; lia|]. split; [cbn; lia|]. split; [cbn; lia|]. split; [check|].
  split; [vm_compute; discriminate|]. split; [check|vm_compute; discriminate].
Qed.

Lemma sample_reverse_accepted :
  (laplace_perfcache_unicode_identity_reverse_validate_view (B := checksum_blake3)
     (T := sample_tables) (Some sample_reverse_view) (Some 0)).1 = LAPLACE_PERFCACHE_OK.
Proof. vm_compute. reflexivity. Qed.

(** The same records with one slot moved away from its home are refused there. *)
Example displaced_refused :
  laplace_perfcache_unicode_identity_reverse_validate_view (B := checksum_blake3)
    (T := sample_tables)
    (Some (mk_view sample_reverse_contract [] 0
             (concat (map (slot_bytes (B := checksum_blake3)) [None; Some 2; Some 0; Some 1]))
             4 56 [] 0 (zeros 32))) (Some 0) = (LAPLACE_PERFCACHE_SEMANTIC_MISMATCH, Some 1).
Proof. vm_compute. reflexivity. Qed.

Lemma reverse_validate_exact_witness :
  view_memory sample_reverse_view /\
  reverse_view (T := sample_tables) sample_reverse_view /\
  holds_lawful (B := checksum_blake3) (T := sample_tables) sample_reverse_view.
Proof.
  split; [exact sample_reverse_memory|].
  pose proof (reverse_validate_exact (B := checksum_blake3) (L := checksum_blake3_laws)
    (T := sample_tables) (TL := sample_tables_laws) sample_reverse_view 0 sample_reverse_memory) as H.
  pose proof sample_reverse_accepted as Hok.
  destruct (laplace_perfcache_unicode_identity_reverse_validate_view _ _) as [status invalid].
  destruct H as [H _]. exact (proj1 H Hok).
Defined.

Definition sample_keys : list laplace_unicode_identity_key :=
  [identity_of (B := checksum_blake3) 2; identity_of (B := checksum_blake3) 3].

Lemma sample_keys_wf : Forall (fun k => bytes 16 (key_content_id k) /\
  bytes 32 (key_identity_preimage_fingerprint k)) sample_keys.
Proof. check. Qed.

Lemma sample_reverse_sorted : sorted_artifacts [sample_reverse_artifact].
Proof. constructor; [constructor|constructor]. Qed.

Lemma reverse_resolve_exact_witness :
  exists answers, Forall2 (resolves (B := checksum_blake3) (T := sample_tables)) sample_keys answers /\
  laplace_perfcache_unicode_identity_reverse_resolve_batch (T := sample_tables)
    (Some (mk_pin (Some [sample_reverse_artifact]))) (Some sample_keys) 2 (Some [0; 0; 7])
    (Some [0; 0; 7]) =
  (LAPLACE_PERFCACHE_REGISTRY_OK, Some (map (default UINT32_MAX) answers ++ [7]),
   Some (map (fun p => match p with Some _ => 1 | None => 0 end) answers ++ [7])).
Proof.
  exact (reverse_resolve_exact (B := checksum_blake3) (L := checksum_blake3_laws)
    (T := sample_tables) (TL := sample_tables_laws) [sample_reverse_artifact] sample_reverse_artifact 0
    sample_keys 2 [0; 0; 7] [0; 0; 7] sample_reverse_sorted ltac:(left) eq_refl sample_reverse_memory
    sample_reverse_accepted sample_keys_wf eq_refl ltac:(vm_compute; discriminate)
    ltac:(vm_compute; discriminate)).
Defined.
