(* ===== verification/UnicodeTier0.v ===== *)
(** * The Unicode tier-0 index: a dense table over the atom records

    Models the tier-0 module of [engine/src/perfcache_modules.c]: a record of 156
    bytes per position, which repeats what is looked up most and points at the
    canonical atom record of the position in the metadata of the artifact.

    [tier0_validate_exact] shows that a view is accepted exactly when its records
    and its metadata are the image of a list of atoms, one per position, and
    [tier0_batch_found] that an accepted view gives the atom of every position.
    [tier0_reverse_roundtrip] composes the module with [UnicodeReverse]: the
    identities read from the one resolve to their positions in the other. *)
From stdpp Require Import prelude strings sorting.
From Stdlib Require Import ZArith Lia.
From S2P Require Import Prelude Bytes Layout Hash Identity Trajectory Binary64 Geometry Perfcache.
From S2P Require Import PersistenceFrames UnicodeFields UnicodeNumeric UnicodeCollation UnicodeAtoms.
From S2P Require Import PerfcacheModules UnicodeReverse.

Local Abbreviation octets := (Forall (fun b => is_u8 b)) (only parsing).
Local Abbreviation record_of := PerfcacheModules.record_at (only parsing).

Section Tier0.
Context {B : Blake3} {T : ModuleTables}.

(** ** Records *)
(** The loop over the axes, which ends at the first that is out of range. *)
Fixpoint quantize_axes (components : list double) : option (list Z) :=
  match components with
  | [] => Some []
  | component :: components =>
      match laplace_unicode_quantize_component_u32 component (Some 0) with
      | (LAPLACE_UNICODE_OK, Some axis) =>
          match quantize_axes components with
          | Some axes => Some (axis :: axes)
          | None => None
          end
      | _ => None
      end
  end.

(** [read_u64le(value + 72u + axis * 8u)]. *)
Definition value_axes (value : list Z) : list double :=
  map (fun axis => u64_at (72 + Z.of_nat axis * 8) value) (seq 0 4).

Definition validate_unicode_tier0_record (record_index : Z) (record : ptr (list Z))
    (record_stride : Z) : laplace_perfcache_status :=
  match record with
  | None => LAPLACE_PERFCACHE_SEMANTIC_MISMATCH
  | Some record =>
      return_when negb (record_stride =? LAPLACE_PERFCACHE_UNICODE_TIER0_KEY_BYTES +
                                         LAPLACE_PERFCACHE_UNICODE_TIER0_VALUE_BYTES) ||
                  (LAPLACE_PERFCACHE_UNICODE_TIER0_POPULATION <=? record_index)
        with LAPLACE_PERFCACHE_SEMANTIC_MISMATCH ;;
      let key := u32_at 0 record in
      let value := drop (Z.to_nat LAPLACE_PERFCACHE_UNICODE_TIER0_KEY_BYTES) record in
      return_when negb (key =? record_index) ||
                  (u32_at 8 value <? LAPLACE_UNICODE_ATOM_HEADER_BYTES) ||
                  (LAPLACE_UNICODE_ROOT_POPULATION <=? u32_at 12 value) ||
                  (LAPLACE_UNICODE_SURROGATE_LUP_ADDRESS <? u8_at 16 value) ||
                  (u8_at 17 value =? 0) || (4 <? u8_at 17 value) ||
                  negb (u8_at 18 value =? 0) || negb (u8_at 19 value =? 0)
        with LAPLACE_PERFCACHE_SEMANTIC_MISMATCH ;;
      match laplace_unicode_position_encode key (Some (zeros 4)) (Some 0),
            laplace_identity_codepoint_witness key (Some (zeros 16)) (Some (zeros 32)) with
      | (LAPLACE_IDENTITY_OK, Some expected_lup, Some expected_lup_length),
        (LAPLACE_IDENTITY_OK, Some expected_id, Some expected_witness) =>
          return_when negb (u8_at 17 value =? expected_lup_length) ||
                      negb (bytes_equal (slice 20 4 value) expected_lup) ||
                      negb (bytes_equal (slice 24 16 value) expected_id) ||
                      negb (bytes_equal (slice 40 32 value) expected_witness)
            with LAPLACE_PERFCACHE_SEMANTIC_MISMATCH ;;
          match quantize_axes (value_axes value) with
          | None => LAPLACE_PERFCACHE_SEMANTIC_MISMATCH
          | Some axes =>
              match laplace_unicode_hilbert4_encode (Some axes) (Some (zeros 16)) with
              | (LAPLACE_UNICODE_OK, Some expected_hilbert) =>
                  return_when negb (bytes_equal (slice 104 16 value) expected_hilbert)
                    with LAPLACE_PERFCACHE_SEMANTIC_MISMATCH ;;
                  LAPLACE_PERFCACHE_OK
              | _ => LAPLACE_PERFCACHE_SEMANTIC_MISMATCH
              end
          end
      | _, _ => LAPLACE_PERFCACHE_SEMANTIC_MISMATCH
      end
  end.

(** ** Validation of a view *)
(** The atom record agrees with the record of its position. *)
Definition atom_agrees (atom : laplace_unicode_atom_record) (record_index : Z) (value : list Z) : bool :=
  (atom_position atom =? record_index) && (placement_rank atom =? u32_at 12 value) &&
  (position_class atom =? u8_at 16 value) && (lup_v1_length atom =? u8_at 17 value) &&
  bytes_equal (lup_v1_bytes atom) (slice 20 4 value) &&
  bytes_equal (content_id atom) (slice 24 16 value) &&
  bytes_equal (identity_preimage_fingerprint atom) (slice 40 32 value) &&
  bytes_equal (hilbert_key atom) (slice 104 16 value) &&
  bytes_equal (atom_physicality_id atom) (slice 120 32 value) &&
  forallb (fun axis => component (coordinate atom) !!! axis =? u64_at (72 + Z.of_nat axis * 8) value)
    (seq 0 4).

(** The body of the loop: the bytes of metadata of a valid record. *)
Definition tier0_entry (v : laplace_perfcache_view) (key_bytes record_index expected_metadata_offset : Z)
    : option Z :=
  let record := record_of v record_index in
  let value := drop (Z.to_nat key_bytes) record in
  let metadata_offset := u64_at 0 value in
  let entry_bytes := u32_at 8 value in
  match validate_unicode_tier0_record record_index (Some record) (record_stride v) with
  | LAPLACE_PERFCACHE_OK =>
      return_when negb (metadata_offset =? expected_metadata_offset) ||
                  (metadata_bytes v <? metadata_offset) ||
                  (metadata_bytes v - metadata_offset <? entry_bytes) with None ;;
      match laplace_unicode_atom_record_open (Some (advance metadata_offset (metadata v))) entry_bytes
              (Some zero_atom_view) (Some 0) with
      | (LAPLACE_UNICODE_OK, Some atom, Some consumed) =>
          return_when negb (consumed =? entry_bytes) ||
                      negb (atom_agrees (atom_value atom) record_index value) with None ;;
          Some entry_bytes
      | _ => None
      end
  | _ => None
  end.

(** The records from an index on: the status, the invalid record and the offset
    reached. *)
Fixpoint tier0_validate_loop (v : laplace_perfcache_view) (key_bytes : Z) (indexes : list Z)
    (invalid expected_metadata_offset : Z) : laplace_perfcache_status * Z * Z :=
  match indexes with
  | [] => (LAPLACE_PERFCACHE_OK, invalid, expected_metadata_offset)
  | record_index :: indexes =>
      match tier0_entry v key_bytes record_index expected_metadata_offset with
      | None => (LAPLACE_PERFCACHE_SEMANTIC_MISMATCH, record_index, expected_metadata_offset)
      | Some entry_bytes =>
          tier0_validate_loop v key_bytes indexes invalid (u64 (expected_metadata_offset + entry_bytes))
      end
  end.

Definition laplace_perfcache_unicode_tier0_validate_view (view : ptr laplace_perfcache_view)
    (invalid_record_index : ptr Z) : laplace_perfcache_status * ptr Z :=
  match view with
  | None => (LAPLACE_PERFCACHE_SEMANTIC_MISMATCH, invalid_record_index)
  | Some v =>
      return_when is_null invalid_record_index || is_null (view_records v) ||
                  is_null (view_metadata v) ||
                  negb (record_count v =? LAPLACE_PERFCACHE_UNICODE_TIER0_POPULATION)
        with (LAPLACE_PERFCACHE_SEMANTIC_MISMATCH, invalid_record_index) ;;
      match laplace_perfcache_unicode_tier0_module (Some zero_module) with
      | (LAPLACE_PERFCACHE_REGISTRY_OK, Some module) =>
          return_when negb (module_contract_matches (contract v) module) ||
                      negb (record_stride v =? u32 (m_key_bytes module + m_value_bytes module))
            with (LAPLACE_PERFCACHE_SEMANTIC_MISMATCH, invalid_record_index) ;;
          match tier0_validate_loop v (m_key_bytes module) (PerfcacheModules.record_indexes v)
                  UINT64_MAX 0 with
          | (LAPLACE_PERFCACHE_OK, invalid, expected_metadata_offset) =>
              return_when negb (expected_metadata_offset =? metadata_bytes v)
                with (LAPLACE_PERFCACHE_SEMANTIC_MISMATCH,
                      store invalid_record_index (record_count v)) ;;
              (LAPLACE_PERFCACHE_OK, store invalid_record_index invalid)
          | (status, invalid, _) => (status, store invalid_record_index invalid)
          end
      | _ => (LAPLACE_PERFCACHE_SEMANTIC_MISMATCH, invalid_record_index)
      end
  end.

(** ** Resolution *)
(** One position: whether it failed, the view of the atom and the flag. *)
Definition resolve_position (v : laplace_perfcache_view) (key_bytes position : Z)
    : bool * laplace_unicode_atom_record_view * Z :=
  return_when LAPLACE_PERFCACHE_UNICODE_TIER0_POPULATION <=? position
    with (true, zero_atom_view, 0) ;;
  let value := drop (Z.to_nat key_bytes) (record_of v position) in
  let metadata_offset := u64_at 0 value in
  let entry_bytes := u32_at 8 value in
  return_when (metadata_bytes v <? metadata_offset) ||
              (metadata_bytes v - metadata_offset <? entry_bytes)
    with (false, zero_atom_view, 0) ;;
  match laplace_unicode_atom_record_open (Some (advance metadata_offset (metadata v))) entry_bytes
          (Some zero_atom_view) (Some 0) with
  | (LAPLACE_UNICODE_OK, Some atom, Some consumed) =>
      return_when negb (consumed =? entry_bytes) ||
                  negb (atom_position (atom_value atom) =? position) with (false, atom, 0) ;;
      (true, atom, 1)
  | (_, atom, _) => (false, default zero_atom_view atom, 0)
  end.

Fixpoint tier0_resolve_loop (v : laplace_perfcache_view) (key_bytes : Z) (codepoint_positions : list Z)
    (index : nat) (atoms : list laplace_unicode_atom_record_view) (found : list Z)
    : laplace_perfcache_registry_status * list laplace_unicode_atom_record_view * list Z :=
  match codepoint_positions with
  | [] => (LAPLACE_PERFCACHE_REGISTRY_OK, atoms, found)
  | position :: rest =>
      let '(ok, atom, flag) := resolve_position v key_bytes position in
      let atoms := <[index := atom]> atoms in
      let found := <[index := flag]> found in
      return_when negb ok with (LAPLACE_PERFCACHE_REGISTRY_INTERNAL_ERROR, atoms, found) ;;
      tier0_resolve_loop v key_bytes rest (S index) atoms found
  end.

Definition laplace_perfcache_unicode_tier0_resolve_batch (pin : ptr laplace_perfcache_pin)
    (codepoint_positions : ptr (list Z)) (item_count : Z)
    (atoms : ptr (list laplace_unicode_atom_record_view)) (found : ptr (list Z))
    : laplace_perfcache_registry_status * ptr (list laplace_unicode_atom_record_view) * ptr (list Z) :=
  return_when is_null pin ||
              (negb (item_count =? 0) &&
               (is_null codepoint_positions || is_null atoms || is_null found))
    with (LAPLACE_PERFCACHE_REGISTRY_INVALID_ARGUMENT, atoms, found) ;;
  match pinned_module_view pin (laplace_perfcache_unicode_tier0_module (Some zero_module)) with
  | None => (LAPLACE_PERFCACHE_REGISTRY_INVALID_ARGUMENT, atoms, found)
  | Some (module, v) =>
      let '(status, views, flags) :=
        tier0_resolve_loop v (m_key_bytes module) (cells codepoint_positions item_count) 0
          (default [] atoms) (default [] found) in
      (status, store atoms views, store found flags)
  end.
End Tier0.

Section Laws.
Context {B : Blake3} {L : Blake3Laws B} {T : ModuleTables} {TL : ModuleTablesLaws T}.
Local Abbreviation population := LAPLACE_PERFCACHE_UNICODE_TIER0_POPULATION (only parsing).

(** ** The image of the atoms *)
(** The Hilbert key of an atom is that of its coordinate. *)
Definition hilbert_placed (r : laplace_unicode_atom_record) : Prop :=
  exists axes, quantize_axes (component (coordinate r)) = Some axes /\
    laplace_unicode_hilbert4_encode (Some axes) (Some (zeros 16)) =
      (LAPLACE_UNICODE_OK, Some (hilbert_key r)).

Definition tier0_pieces (offset : Z) (r : laplace_unicode_atom_record) : list (list Z) :=
  [store_le 4 (atom_position r); store_le 8 offset; store_le 4 (atom_total r);
   store_le 4 (placement_rank r); [position_class r]; [lup_v1_length r]; [0]; [0];
   lup_v1_bytes r; content_id r; identity_preimage_fingerprint r;
   store_le 8 (component (coordinate r) !!! 0%nat); store_le 8 (component (coordinate r) !!! 1%nat);
   store_le 8 (component (coordinate r) !!! 2%nat); store_le 8 (component (coordinate r) !!! 3%nat);
   hilbert_key r; atom_physicality_id r].
Definition tier0_sizes : list nat := [4; 8; 4; 4; 1; 1; 1; 1; 4; 16; 32; 8; 8; 8; 8; 16; 32]%nat.
Definition tier0_record (offset : Z) (r : laplace_unicode_atom_record) : list Z :=
  concat (tier0_pieces offset r).

(** The records of the atoms whose bytes start at an offset of the metadata. *)
Fixpoint tier0_image (offset : Z) (atoms : list laplace_unicode_atom_record) : list Z :=
  match atoms with
  | [] => []
  | r :: atoms => tier0_record offset r ++ tier0_image (offset + atom_total r) atoms
  end.

(** The atoms of consecutive positions. *)
Definition tier0_atom (i : Z) (r : laplace_unicode_atom_record) : Prop :=
  atom_wf r /\ atom_position r = i /\ hilbert_placed r.

(** ** Reading a record *)
Lemma slice_drop a n k l : 0 <= a -> slice a k (drop n l) = slice (Z.of_nat n + a) k l.
Proof. intros Ha. unfold slice. rewrite drop_drop. do 2 f_equal. lia. Qed.

Lemma u32_at_dropped a n l : 0 <= a -> u32_at a (drop n l) = u32_at (Z.of_nat n + a) l.
Proof. intros Ha. unfold u32_at. by rewrite slice_drop. Qed.
Lemma u64_at_dropped a n l : 0 <= a -> u64_at a (drop n l) = u64_at (Z.of_nat n + a) l.
Proof. intros Ha. unfold u64_at. by rewrite slice_drop. Qed.

Lemma tier0_piece_sizes offset r : atom_typed r -> map length (tier0_pieces offset r) = tier0_sizes.
Proof.
  intros (_ & _ & _ & _ & [H1 _] & [H2 _] & [H3 _] & _ & [H4 _] & _ & [H6 _] & _).
  cbn [tier0_pieces map]. by rewrite !length_store_le, H1, H2, H3, H4, H6.
Qed.

Lemma tier0_record_length offset r : atom_typed r -> length (tier0_record offset r) = 156%nat.
Proof.
  intros Ht. unfold tier0_record. rewrite length_concat_pieces, tier0_piece_sizes by done. done.
Qed.

Lemma components_four (vs : list double) : doubles_wf 4 vs ->
  vs = [vs !!! 0%nat; vs !!! 1%nat; vs !!! 2%nat; vs !!! 3%nat] /\ Forall (fun v => is_u64 v) vs.
Proof. intros [Hl Hf]. split; [|done]. by destruct vs as [|? [|? [|? [|? []]]]]. Qed.

(** The fields of a record of the image. *)
Lemma tier0_read offset r rest l : atom_wf r -> is_u64 offset -> l = tier0_record offset r ++ rest ->
  u32_at 0 l = atom_position r /\ u64_at 4 l = offset /\ u32_at 12 l = atom_total r /\
  u32_at 16 l = placement_rank r /\ u8_at 20 l = position_class r /\ u8_at 21 l = lup_v1_length r /\
  u8_at 22 l = 0 /\ u8_at 23 l = 0 /\ slice 24 4 l = lup_v1_bytes r /\ slice 28 16 l = content_id r /\
  slice 44 32 l = identity_preimage_fingerprint r /\
  [u64_at 76 l; u64_at 84 l; u64_at 92 l; u64_at 100 l] = component (coordinate r) /\
  slice 108 16 l = hilbert_key r /\ slice 124 32 l = atom_physicality_id r.
Proof.
  intros (Hty & Hv & Ht) Ho E. pose proof (left_atom_bytes r Hty Hv) as Hl.
  pose proof (left_nonneg (atom_bytes r)) as Hln. rewrite Hl in Hln.
  pose proof (cuts_record tier0_sizes (tier0_pieces offset r) rest l (tier0_piece_sizes offset r Hty) E) as C.
  unfold tier0_sizes in C. slices_in C. unfold tier0_pieces in C.
  destruct Hty as (Hp & Hr & _ & _ & _ & _ & _ & Hd & _).
  destruct (components_four _ Hd) as [Ec Hu].
  assert (Hcs : forall i, (i < 4)%nat -> is_u64 (component (coordinate r) !!! i)).
  { intros i Hi. destruct (lookup_lt_is_Some_2 (component (coordinate r)) i) as [x Hx]; [rewrite (proj1 Hd); lia|].
    rewrite (list_lookup_total_correct _ _ _ Hx). by apply (Forall_lookup_1 _ _ _ _ Hu Hx). }
  injection C as C1 C2 C3 C4 C5 C6 C7 C8 C9 C10 C11 C12 C13 C14 C15 C16 C17.
  split; [by apply u32_at_stored|]. split; [by apply u64_at_stored|]. split; [by apply u32_at_stored|].
  split; [by apply u32_at_stored|]. split; [by apply u8_at_stored|]. split; [by apply u8_at_stored|].
  split; [by apply u8_at_stored|]. split; [by apply u8_at_stored|].
  do 3 (split; [done|]). split; [|by split]. rewrite Ec.
  rewrite (u64_at_stored l 76 _ C12), (u64_at_stored l 84 _ C13), (u64_at_stored l 92 _ C14),
    (u64_at_stored l 100 _ C15) by (apply Hcs; lia). done.
Qed.

(** The reads behind the key. *)
Lemma value_reads l :
  let value := drop 4 l in
  u64_at 0 value = u64_at 4 l /\ u32_at 8 value = u32_at 12 l /\ u32_at 12 value = u32_at 16 l /\
  u8_at 16 value = u8_at 20 l /\ u8_at 17 value = u8_at 21 l /\ u8_at 18 value = u8_at 22 l /\
  u8_at 19 value = u8_at 23 l /\ slice 20 4 value = slice 24 4 l /\ slice 24 16 value = slice 28 16 l /\
  slice 40 32 value = slice 44 32 l /\ slice 104 16 value = slice 108 16 l /\
  slice 120 32 value = slice 124 32 l /\
  value_axes value = [u64_at 76 l; u64_at 84 l; u64_at 92 l; u64_at 100 l].
Proof.
  cbv zeta. unfold value_axes. cbn [seq map].
  rewrite !u64_at_dropped, !u32_at_dropped, !u8_at_drop, !slice_drop by lia. done.
Qed.

(** The fields that a record is tested for. *)
Definition tier0_fields (i : Z) (l : list Z) : Prop :=
  u32_at 0 l = i /\ 196 <= u32_at 12 l /\ u32_at 16 l < 1114112 /\ u8_at 20 l <= 4 /\
  u8_at 22 l = 0 /\ u8_at 23 l = 0 /\ u8_at 21 l = Z.of_nat (length (position_bytes i)) /\
  slice 24 4 l = overwrite (zeros 4) (position_bytes i) /\
  slice 28 16 l = take 16 (blake3 (position_bytes i)) /\ slice 44 32 l = blake3 (position_bytes i) /\
  exists axes, quantize_axes [u64_at 76 l; u64_at 84 l; u64_at 92 l; u64_at 100 l] = Some axes /\
    laplace_unicode_hilbert4_encode (Some axes) (Some (zeros 16)) =
      (LAPLACE_UNICODE_OK, Some (slice 108 16 l)).

Lemma hilbert_test coordinates key :
  match quantize_axes coordinates with
  | None => LAPLACE_PERFCACHE_SEMANTIC_MISMATCH
  | Some axes =>
      match laplace_unicode_hilbert4_encode (Some axes) (Some (zeros 16)) with
      | (LAPLACE_UNICODE_OK, Some expected_hilbert) =>
          return_when negb (bytes_equal key expected_hilbert)
            with LAPLACE_PERFCACHE_SEMANTIC_MISMATCH ;;
          LAPLACE_PERFCACHE_OK
      | _ => LAPLACE_PERFCACHE_SEMANTIC_MISMATCH
      end
  end = LAPLACE_PERFCACHE_OK <->
  exists axes, quantize_axes coordinates = Some axes /\
    laplace_unicode_hilbert4_encode (Some axes) (Some (zeros 16)) = (LAPLACE_UNICODE_OK, Some key).
Proof.
  destruct (quantize_axes coordinates) as [axes|]; [|split; [done|by intros (? & ? & _)]].
  destruct (laplace_unicode_hilbert4_encode (Some axes) (Some (zeros 16))) as [status out] eqn:E. split.
  - destruct status; try done. destruct out as [out|]; [|done].
    destruct (bytes_equal key out) eqn:Eb; [|done]. apply bytes_equal_spec in Eb as ->. intros _. by exists axes.
  - intros (axes' & [= <-] & Ek). rewrite E in Ek. injection Ek as -> ->.
    by rewrite (proj2 (bytes_equal_spec key key) eq_refl).
Qed.

Lemma tier0_record_exact i l : 0 <= i < population ->
  validate_unicode_tier0_record i (Some l) 156 = LAPLACE_PERFCACHE_OK <-> tier0_fields i l.
Proof.
  intros Hi. pose proof tier0_population_positions as Hpop.
  pose proof (length_position_bytes i) as Hlen.
  unfold validate_unicode_tier0_record, tier0_fields. change (Z.to_nat 4) with 4%nat.
  destruct (value_reads l) as (_ & -> & -> & -> & -> & -> & -> & -> & -> & -> & -> & _ & ->).
  rewrite (proj2 (Z.leb_gt _ _)) by lia. change (negb (156 =? 4 + 152)) with false. cbn [orb].
  destruct (Z.eqb_spec (u32_at 0 l) i) as [->|E]; cbn [negb orb]; [|split; [done|by intros [? _]]].
  rewrite position_encode_ok, codepoint_witness_ok by lia.
  pose proof (hilbert_test [u64_at 76 l; u64_at 84 l; u64_at 92 l; u64_at 100 l] (slice 108 16 l)) as Hh.
  pose proof (bytes_equal_spec (slice 24 4 l) (overwrite (zeros 4) (position_bytes i))) as H1.
  pose proof (bytes_equal_spec (slice 28 16 l) (take 16 (blake3 (position_bytes i)))) as H2.
  pose proof (bytes_equal_spec (slice 44 32 l) (blake3 (position_bytes i))) as H3.
  match goal with |- (if ?g then _ else if ?h then _ else ?k) = _ <-> _ =>
    assert (G : g || h = false <-> 196 <= u32_at 12 l /\ u32_at 16 l < 1114112 /\ u8_at 20 l <= 4 /\
      u8_at 22 l = 0 /\ u8_at 23 l = 0 /\ u8_at 21 l = Z.of_nat (length (position_bytes i)) /\
      slice 24 4 l = overwrite (zeros 4) (position_bytes i) /\
      slice 28 16 l = take 16 (blake3 (position_bytes i)) /\ slice 44 32 l = blake3 (position_bytes i));
    [|destruct g; [cbn [orb] in G|destruct h; cbn [orb] in G]]
  end.
  - rewrite !orb_false_iff, !negb_false_iff, !Z.eqb_eq, Z.eqb_neq, Z.leb_gt, !Z.ltb_ge, H1, H2, H3. intuition lia.
  - split; [done|]. intros (_ & A1 & A2 & A3 & A4 & A5 & A6 & A7 & A8 & A9 & _). by assert (true = false) by (apply G; tauto).
  - split; [done|]. intros (_ & A1 & A2 & A3 & A4 & A5 & A6 & A7 & A8 & A9 & _). by assert (true = false) by (apply G; tauto).
  - rewrite Hh. pose proof (proj1 G eq_refl). tauto.
Qed.

(** ** A record and its atom *)
Definition tier0_view (v : laplace_perfcache_view) : Prop :=
  record_count v = population /\ record_stride v = 156 /\ implements unicode_tier0_module (contract v).

(** The record of an index points at its atom in the metadata. *)
Definition entry_of (v : laplace_perfcache_view) (i offset : Z) (r : laplace_unicode_atom_record) : Prop :=
  tier0_atom i r /\ slice (i * 156) 156 (records v) = tier0_record offset r /\
  offset + atom_total r <= metadata_bytes v /\
  slice offset (atom_total r) (metadata v) = atom_bytes r.

Lemma record_of_tier0 v i : view_memory v -> tier0_view v -> 0 <= i < population ->
  let record := record_of v i in
  bytes (length record) record /\ (156 <= length record)%nat /\
  take 156 record = slice (i * 156) 156 (records v).
Proof.
  intros (_ & _ & _ & Hb & Hl & _) (Hc & Hs & _) Hi. cbv zeta. unfold PerfcacheModules.record_at, slice.
  rewrite Hc, Hs in Hl. rewrite Hs. split; [|split; [|done]].
  - split; [done|]. apply Forall_drop, Hb.
  - rewrite length_drop. nia.
Qed.

Lemma atom_agrees_exact atom i l : length (component (coordinate atom)) = 4%nat ->
  atom_agrees atom i (drop 4 l) = true <->
  atom_position atom = i /\ placement_rank atom = u32_at 16 l /\ position_class atom = u8_at 20 l /\
  lup_v1_length atom = u8_at 21 l /\ lup_v1_bytes atom = slice 24 4 l /\ content_id atom = slice 28 16 l /\
  identity_preimage_fingerprint atom = slice 44 32 l /\ hilbert_key atom = slice 108 16 l /\
  atom_physicality_id atom = slice 124 32 l /\
  component (coordinate atom) = [u64_at 76 l; u64_at 84 l; u64_at 92 l; u64_at 100 l].
Proof.
  intros Hl. unfold atom_agrees. destruct (value_reads l) as (_ & _ & -> & -> & -> & _ & _ & -> & -> & -> & -> & -> & Ha).
  assert (Hc : forallb (fun axis => component (coordinate atom) !!! axis =?
      u64_at (72 + Z.of_nat axis * 8) (drop 4 l)) (seq 0 4) = true <->
    component (coordinate atom) = [u64_at 76 l; u64_at 84 l; u64_at 92 l; u64_at 100 l]).
  { rewrite <- Ha. unfold value_axes. cbn [seq map forallb]. rewrite !andb_true_iff, !Z.eqb_eq.
    destruct (component (coordinate atom)) as [|a [|b [|c [|d []]]]]; try done. cbn [lookup_total list_lookup_total].
    split; [intros (-> & -> & -> & -> & _); done|]. intros [= -> -> -> ->]. done. }
  rewrite !andb_true_iff, Hc, !Z.eqb_eq, !bytes_equal_spec. tauto.
Qed.

(** An open of the metadata at an offset. *)
Lemma metadata_open v offset n : view_memory v -> 0 <= offset -> offset + n <= metadata_bytes v ->
  forall atom consumed,
  laplace_unicode_atom_record_open (Some (advance offset (metadata v))) n (Some zero_atom_view) (Some 0) =
    (LAPLACE_UNICODE_OK, Some atom, Some consumed) <->
  exists r, atom_wf r /\ slice offset (atom_total r) (metadata v) = atom_bytes r /\ atom_total r <= n /\
    atom = atom_view (advance offset (metadata v)) r /\ consumed = atom_total r.
Proof.
  intros (_ & _ & _ & _ & _ & [_ Hm] & Hlen) Ho Hn atom consumed.
  assert (Hoct : octets (advance offset (metadata v))) by (by apply Forall_drop).
  destruct (Z.le_gt_cases 0 n) as [Hn0|Hn0].
  2: { split.
    - intros E. exfalso. unfold laplace_unicode_atom_record_open in E.
      rewrite (proj2 (Z.ltb_lt n 196)) in E by lia. done.
    - intros (r & Hw & _ & Hle & _). pose proof (atom_total_positive r Hw) as Hp.
      rewrite (left_atom_bytes r) in Hp by apply Hw. lia. }
  assert (Hav : n <= left (advance offset (metadata v))) by (rewrite left_advance; unfold left; lia).
  rewrite (opener_exact (Opener := atom_opener) _ n zero_atom_view 0 (Some atom) (Some consumed) Hoct Hav).
  split.
  - intros (r & rest & Hw & E & Hle & [= ->] & [= ->]). rewrite left_atom_bytes in * by apply Hw.
    exists r. split; [done|]. split; [|done]. unfold advance in E. unfold slice. rewrite E.
    apply take_app_length'. pose proof (left_atom_bytes r (proj1 Hw) (proj1 (proj2 Hw))) as Hl. unfold left in Hl. lia.
  - intros (r & Hw & E & Hle & -> & ->). exists r, (drop (Z.to_nat (atom_total r)) (advance offset (metadata v))).
    rewrite left_atom_bytes by apply Hw. split; [done|]. split; [|done].
    rewrite <- E. unfold slice, advance. symmetry. apply take_drop.
Qed.

Lemma tier0_entry_only v i offset n : view_memory v -> tier0_view v -> 0 <= i < population ->
  is_u64 offset -> tier0_entry v 4 i offset = Some n -> exists r, entry_of v i offset r /\ n = atom_total r.
Proof.
  intros Hm Hv Hi Ho. destruct (record_of_tier0 v i Hm Hv Hi) as (Hb & Hn & E).
  unfold tier0_entry, entry_of. rewrite <- E. set (l := record_of v i) in *. cbv zeta.
  change (Z.to_nat 4) with 4%nat. rewrite (proj1 (proj2 Hv)).
  pose proof (tier0_record_exact i l Hi) as Hx. destruct (value_reads l) as (-> & -> & _).
  destruct (validate_unicode_tier0_record i (Some l) 156); try done. specialize (proj1 Hx eq_refl) as Hf.
  casec; [done|]. assert (u64_at 4 l = offset) as E4 by done. rewrite E4 in *.
  destruct (laplace_unicode_atom_record_open _ _ _ _) as [[[] [atom|]] [consumed|]] eqn:Eo; try done.
  apply (metadata_open v offset (u32_at 12 l) Hm) in Eo as (r & Hw & Er & Hle & -> & ->); [|lia|lia].
  casec; [done|]. intros [= <-].
  match goal with H : atom_agrees _ _ _ = true |- _ => rename H into Hag end.
  apply atom_agrees_exact in Hag; [|apply Hw].
  cbn [atom_view atom_value pointed_at atom_position placement_rank position_class lup_v1_length lup_v1_bytes
       content_id identity_preimage_fingerprint coordinate hilbert_key atom_physicality_id] in Hag.
  destruct Hag as (G1 & G2 & G3 & G4 & G5 & G6 & G7 & G8 & G9 & G10).
  destruct Hf as (F0 & _ & _ & _ & F22 & F23 & _ & _ & _ & _ & axes & Fa & Fh).
  assert (Et : atom_total r = u32_at 12 l) by lia. exists r. split; [|done].
  split; [split; [done|]; split; [done|]; exists axes; by rewrite G10, G8|].
  split; [|split; [lia|by rewrite Et in Er |- *]].
  assert (Ec : cuts 0 tier0_sizes l = tier0_pieces offset r).
  { unfold tier0_sizes. slices. unfold tier0_pieces. rewrite G10. cbn [lookup_total list_lookup_total].
    rewrite !slice_u64, (slice_u32 l 0), (slice_u32 l 12), (slice_u32 l 16), !slice_one by (done || lia).
    by rewrite F0, F22, F23, E4, Et, G1, <- G2, <- G3, <- G4, <- G5, <- G6, <- G7, <- G8, <- G9. }
  apply pieces_split in Ec. rewrite Ec at 1. apply take_app_length'.
  by rewrite tier0_record_length by apply Hw.
Qed.

(** The members of a view that agree with its record. *)
Lemma atom_view_agrees m i offset r l : tier0_atom i r -> is_u64 offset ->
  take 156 l = tier0_record offset r -> atom_agrees (atom_value (atom_view m r)) i (drop 4 l) = true.
Proof.
  intros (Hw & Hp & _) Ho El. apply atom_agrees_exact; [apply Hw|].
  assert (Ell : l = tier0_record offset r ++ drop 156 l) by (rewrite <- El; symmetry; apply take_drop).
  destruct (tier0_read offset r _ l Hw Ho Ell) as (_ & _ & _ & R16 & R20 & R21 & _ & _ & R24 & R28 & R44 & Rc & Rh & Rp).
  cbn [atom_view atom_value pointed_at atom_position placement_rank position_class lup_v1_length
    lup_v1_bytes content_id identity_preimage_fingerprint coordinate hilbert_key atom_physicality_id].
  by rewrite R16, R20, R21, R24, R28, R44, Rc, Rh, Rp.
Qed.

(** A record of the image passes the tests of a record. *)
Lemma tier0_record_fields i offset r l : tier0_atom i r -> is_u64 offset ->
  take 156 l = tier0_record offset r -> tier0_fields i l.
Proof.
  intros (Hw & Hp & Hh) Ho El. pose proof Hw as (_ & Hval & _).
  assert (Ell : l = tier0_record offset r ++ drop 156 l) by (rewrite <- El; symmetry; apply take_drop).
  destruct (tier0_read offset r _ l Hw Ho Ell) as (R0 & _ & R12 & R16 & R20 & R21 & R22 & R23 & R24 & R28 & R44 & Rc & Rh & _).
  pose proof (atom_total_positive r Hw) as Hpos. rewrite left_atom_bytes in Hpos by apply Hw.
  destruct Hval as (V1 & V2 & V3 & V4 & V5 & V6 & V7 & V8 & _). unfold UnicodeFields.position in V2. rewrite Hp in *.
  unfold tier0_fields. rewrite R0, R12, R16, R20, R21, R22, R23, R24, R28, R44, Rc, Rh.
  split; [done|]. split; [lia|]. split; [lia|]. split; [lia|]. do 2 (split; [done|]).
  split; [done|]. split; [done|]. split; [done|]. split; [done|]. exact Hh.
Qed.

Lemma tier0_entry_ok v i offset r : view_memory v -> tier0_view v -> 0 <= i < population ->
  is_u64 offset -> entry_of v i offset r -> tier0_entry v 4 i offset = Some (atom_total r).
Proof.
  intros Hm Hv Hi Ho (Hat & El & Hle & Er). destruct (record_of_tier0 v i Hm Hv Hi) as (Hb & Hn & E).
  rewrite <- E in El. unfold tier0_entry. set (l := record_of v i) in *. cbv zeta.
  change (Z.to_nat 4) with 4%nat. rewrite (proj1 (proj2 Hv)).
  pose proof (tier0_record_exact i l Hi) as Hx. destruct (value_reads l) as (-> & -> & _).
  pose proof Hat as (Hw & _ & _).
  assert (Ell : l = tier0_record offset r ++ drop 156 l) by (rewrite <- El; symmetry; apply take_drop).
  destruct (tier0_read offset r _ l Hw Ho Ell) as (_ & R4 & R12 & _).
  rewrite (proj2 Hx) by by apply (tier0_record_fields i offset r).
  pose proof (atom_total_positive r Hw) as Hpos. rewrite left_atom_bytes in Hpos by apply Hw.
  rewrite R4, R12, Z.eqb_refl. cbn [negb orb]. rewrite !(proj2 (Z.ltb_ge _ _)) by lia. cbn [orb].
  rewrite (proj2 (metadata_open v offset (atom_total r) Hm ltac:(lia) Hle
    (atom_view (advance offset (metadata v)) r) (atom_total r))) by (exists r; repeat (split; [done|]); done).
  rewrite Z.eqb_refl. cbn [negb orb]. by rewrite (atom_view_agrees _ i offset r l Hat Ho El).
Qed.

(** ** All records *)
Fixpoint entries_of (v : laplace_perfcache_view) (i offset : Z) (atoms : list laplace_unicode_atom_record)
    : Prop :=
  match atoms with
  | [] => True
  | r :: atoms => entry_of v i offset r /\ entries_of v (i + 1) (offset + atom_total r) atoms
  end.

Definition atoms_total (atoms : list laplace_unicode_atom_record) : Z :=
  foldr (fun r total => atom_total r + total) 0 atoms.

Lemma entry_bounds v i offset r : 0 <= offset -> entry_of v i offset r ->
  0 <= offset + atom_total r <= metadata_bytes v.
Proof.
  intros Ho ((Hw & _) & _ & Hle & _). pose proof (atom_total_positive r Hw) as Hp.
  rewrite left_atom_bytes in Hp by apply Hw. lia.
Qed.

(** The loop accepts the records of atoms one behind the other, and stops at the
    first index without one. *)
Lemma tier0_loop_cases v invalid : view_memory v -> tier0_view v -> forall n b offset,
  0 <= b -> b + Z.of_nat n <= population -> 0 <= offset <= metadata_bytes v ->
  exists atoms, entries_of v b offset atoms /\
    ((length atoms = n /\
      tier0_validate_loop v 4 (map (fun i => b + Z.of_nat i) (seq 0 n)) invalid offset =
        (LAPLACE_PERFCACHE_OK, invalid, offset + atoms_total atoms)) \/
     ((length atoms < n)%nat /\
      (forall r, ~ entry_of v (b + Z.of_nat (length atoms)) (offset + atoms_total atoms) r) /\
      exists offset', tier0_validate_loop v 4 (map (fun i => b + Z.of_nat i) (seq 0 n)) invalid offset =
        (LAPLACE_PERFCACHE_SEMANTIC_MISMATCH, b + Z.of_nat (length atoms), offset'))).
Proof.
  intros Hm Hv. pose proof Hm as (_ & _ & Hmb & _). induction n as [|n IH]; intros b offset Hb Hn Ho.
  { exists []. split; [done|]. left. split; [done|]. cbn. by rewrite Z.add_0_r. }
  rewrite <- cons_seq, <- seq_shift, map_cons, map_map. cbn [tier0_validate_loop].
  change (b + Z.of_nat 0) with (b + 0). rewrite Z.add_0_r.
  assert (Emap : map (fun i => b + Z.of_nat (S i)) (seq 0 n) = map (fun i => b + 1 + Z.of_nat i) (seq 0 n))
    by (apply map_ext; intros; lia).
  destruct (tier0_entry v 4 b offset) as [m|] eqn:E.
  - apply tier0_entry_only in E as (r & Hr & ->); [|done|done|lia|lia].
    pose proof (entry_bounds v b offset r ltac:(lia) Hr) as Hbounds. rewrite u64_small, Emap by lia.
    destruct (IH (b + 1) (offset + atom_total r)) as (atoms & Ha & Hcases); [lia|lia|lia|].
    exists (r :: atoms). split; [done|]. cbn [length atoms_total foldr]. fold (atoms_total atoms).
    replace (offset + (atom_total r + atoms_total atoms)) with (offset + atom_total r + atoms_total atoms) by lia.
    replace (b + Z.of_nat (S (length atoms))) with (b + 1 + Z.of_nat (length atoms)) by lia.
    destruct Hcases as [[Hl El]|(Hl & Hno & El)]; [left|right]; (split; [lia|]); [done|by split].
  - exists []. split; [done|]. right. cbn. rewrite !Z.add_0_r. split; [lia|]. split; [|by eexists].
    intros r Hr. rewrite (tier0_entry_ok v b offset r) in E by (done || lia). done.
Qed.

(** *** Chains of entries *)
Lemma atoms_total_app xs ys : atoms_total (xs ++ ys) = atoms_total xs + atoms_total ys.
Proof. unfold atoms_total. induction xs as [|x xs IH]; cbn [app foldr]; lia. Qed.

Lemma entries_app v : forall xs b offset ys,
  entries_of v b offset (xs ++ ys) <->
  entries_of v b offset xs /\ entries_of v (b + Z.of_nat (length xs)) (offset + atoms_total xs) ys.
Proof.
  induction xs as [|x xs IH]; intros b offset ys.
  { cbn. rewrite !Z.add_0_r. tauto. }
  cbn [app entries_of length atoms_total foldr]. fold (atoms_total xs). rewrite IH.
  replace (b + 1 + Z.of_nat (length xs)) with (b + Z.of_nat (S (length xs))) by lia.
  replace (offset + atom_total x + atoms_total xs) with (offset + (atom_total x + atoms_total xs)) by lia. tauto.
Qed.

(** The offset behind an entry does not depend on the atom. *)
Lemma entry_total v i offset r r' : view_memory v -> tier0_view v -> 0 <= i < population ->
  is_u64 offset -> entry_of v i offset r -> entry_of v i offset r' -> atom_total r = atom_total r'.
Proof.
  intros Hm Hv Hi Ho Hr Hr'. pose proof (tier0_entry_ok v i offset r Hm Hv Hi Ho Hr) as E.
  rewrite (tier0_entry_ok v i offset r' Hm Hv Hi Ho Hr') in E. by injection E.
Qed.

Lemma entries_bounds v : forall atoms b offset, 0 <= offset <= metadata_bytes v -> entries_of v b offset atoms ->
  offset <= offset + atoms_total atoms <= metadata_bytes v.
Proof.
  induction atoms as [|r atoms IH]; intros b offset Ho Ha; [cbn; lia|].
  destruct Ha as [Hr Ha]. cbn [atoms_total foldr]. fold (atoms_total atoms).
  pose proof (entry_bounds v b offset r ltac:(lia) Hr) as Hb.
  destruct Hr as ((Hw & _) & _). pose proof (atom_total_positive r Hw) as Hp. rewrite left_atom_bytes in Hp by apply Hw.
  specialize (IH (b + 1) (offset + atom_total r) ltac:(lia) Ha). lia.
Qed.

(** A chain that is at least as long goes through the end of another. *)
Lemma entries_agree v : view_memory v -> tier0_view v -> forall xs ys b offset,
  0 <= b -> b + Z.of_nat (length ys) <= population -> 0 <= offset <= metadata_bytes v ->
  entries_of v b offset xs -> entries_of v b offset ys -> (length xs <= length ys)%nat ->
  atoms_total xs = atoms_total (take (length xs) ys).
Proof.
  intros Hm Hv. pose proof Hm as (_ & _ & Hmb & _).
  induction xs as [|x xs IH]; intros [|y ys] b offset Hb Hn Ho Hx Hy Hl; cbn [length] in *; try done; [lia|].
  destruct Hx as [Hx Hxs]. destruct Hy as [Hy Hys]. cbn [take atoms_total foldr].
  pose proof (entry_total v b offset x y Hm Hv ltac:(lia) ltac:(lia) Hx Hy) as E. rewrite E in *. f_equal.
  apply (IH ys (b + 1) (offset + atom_total y)); [lia|lia| |done|done|lia].
  by apply (entry_bounds v b offset y); [lia|].
Qed.

(** ** The image of a view *)
Lemma slice_add off n m l : 0 <= off -> 0 <= n -> 0 <= m ->
  slice off (n + m) l = slice off n l ++ slice (off + n) m l.
Proof.
  intros Ho Hn Hm. unfold slice. rewrite !Z2Nat.inj_add by lia. rewrite <- drop_drop. symmetry. apply take_take_drop.
Qed.

Lemma tier0_image_length atoms : Forall atom_wf atoms -> forall offset,
  length (tier0_image offset atoms) = (length atoms * 156)%nat.
Proof.
  induction 1 as [|r atoms Hw _ IH]; intros offset; [done|]. cbn [tier0_image length Nat.mul].
  rewrite length_app, IH, tier0_record_length by apply Hw. lia.
Qed.

Lemma atoms_bytes_length atoms : Forall atom_wf atoms ->
  Z.of_nat (length (concat (map atom_bytes atoms))) = atoms_total atoms.
Proof.
  induction 1 as [|r atoms Hw _ IH]; [done|]. cbn [map concat atoms_total foldr].
  rewrite length_app, Nat2Z.inj_add, IH. f_equal. apply (left_atom_bytes r); apply Hw.
Qed.

Lemma atoms_total_nonneg atoms : Forall atom_wf atoms -> 0 <= atoms_total atoms.
Proof. intros Hw. rewrite <- atoms_bytes_length by done. lia. Qed.

Definition tier0_atoms (b : Z) (atoms : list laplace_unicode_atom_record) : Prop :=
  forall i r, atoms !! i = Some r -> tier0_atom (b + Z.of_nat i) r.

Lemma tier0_atoms_cons b r atoms :
  tier0_atoms b (r :: atoms) <-> tier0_atom b r /\ tier0_atoms (b + 1) atoms.
Proof.
  unfold tier0_atoms. split.
  - intros H. split; [rewrite <- (Z.add_0_r b); by apply (H 0%nat)|].
    intros i x Hx. replace (b + 1 + Z.of_nat i) with (b + Z.of_nat (S i)) by lia. by apply H.
  - intros [H0 H] [|i] x Hx; cbn in Hx.
    + injection Hx as ->. by rewrite Z.add_0_r.
    + replace (b + Z.of_nat (S i)) with (b + 1 + Z.of_nat i) by lia. by apply H.
Qed.

Lemma tier0_atoms_wf b atoms : tier0_atoms b atoms -> Forall atom_wf atoms.
Proof. intros H. apply Forall_lookup. intros i r Hr. by destruct (H i r Hr). Qed.

(** Entries one behind the other are an image. *)
Lemma entries_image v : view_memory v -> forall atoms b offset,
  0 <= b -> 0 <= offset <= metadata_bytes v ->
  entries_of v b offset atoms <->
  tier0_atoms b atoms /\ offset + atoms_total atoms <= metadata_bytes v /\
  slice (b * 156) (Z.of_nat (length atoms) * 156) (records v) = tier0_image offset atoms /\
  slice offset (atoms_total atoms) (metadata v) = concat (map atom_bytes atoms).
Proof.
  intros Hm. pose proof Hm as (_ & _ & _ & _ & _ & _ & Hlen).
  induction atoms as [|r atoms IH]; intros b offset Hb Ho.
  { split; [|done]. intros _. split; [done|]. split; [cbn; lia|]. split; unfold slice; by rewrite take_0. }
  cbn [entries_of length tier0_image map concat atoms_total foldr]. fold (atoms_total atoms).
  rewrite tier0_atoms_cons. replace (Z.of_nat (S (length atoms)) * 156) with (156 + Z.of_nat (length atoms) * 156) by lia.
  rewrite (slice_add (b * 156)) by lia. replace (b * 156 + 156) with ((b + 1) * 156) by lia. split.
  - intros [Hr Ha]. pose proof (entry_bounds v b offset r ltac:(lia) Hr) as Hbo.
    apply IH in Ha as (Ht & Hle & Er & Em); [|lia|done].
    destruct Hr as (Hat & E1 & E2 & E3). pose proof (proj1 Hat) as Hw.
    pose proof (atoms_total_nonneg atoms (tier0_atoms_wf _ _ Ht)).
    pose proof (atom_total_positive r Hw) as Hp. rewrite left_atom_bytes in Hp by apply Hw.
    split; [done|]. split; [lia|]. split; [by rewrite E1, Er|]. by rewrite slice_add, E3, Em by lia.
  - intros ([Hat Ht] & Hle & Er & Em). pose proof (proj1 Hat) as Hw. pose proof (tier0_atoms_wf _ _ Ht) as Hws.
    pose proof (atoms_total_nonneg atoms Hws).
    pose proof (atom_total_positive r Hw) as Hp. rewrite left_atom_bytes in Hp by apply Hw.
    rewrite slice_add in Em by lia. unfold left in Hlen.
    apply app_inj_len in Em as [Em1 Em2].
    2: { rewrite length_slice by lia. pose proof (left_atom_bytes r (proj1 Hw) (proj1 (proj2 Hw))) as Hl.
         unfold left in Hl. lia. }
    assert (Hrl : length (slice (b * 156) 156 (records v)) = length (tier0_record offset r)).
    { apply (f_equal length) in Er. rewrite !length_app, tier0_image_length, tier0_record_length in Er
        by (done || apply Hw). rewrite tier0_record_length by apply Hw.
      unfold slice in *. rewrite !length_take in *. lia. }
    apply app_inj_len in Er as [Er1 Er2]; [|done].
    split; [by split; [|split; [|split; [lia|]]]|]. apply IH; [lia|lia|]. split; [done|]. split; [lia|]. by split.
Qed.

(** The view holds the image of atoms, one of each position. *)
Definition tier0_holds (v : laplace_perfcache_view) (atoms : list laplace_unicode_atom_record) : Prop :=
  Z.of_nat (length atoms) = population /\ tier0_atoms 0 atoms /\
  slice 0 (population * 156) (records v) = tier0_image 0 atoms /\
  slice 0 (metadata_bytes v) (metadata v) = concat (map atom_bytes atoms).

Lemma tier0_holds_entries v atoms : view_memory v -> tier0_view v ->
  tier0_holds v atoms <->
  Z.of_nat (length atoms) = population /\ entries_of v 0 0 atoms /\ atoms_total atoms = metadata_bytes v.
Proof.
  intros Hm Hv. pose proof Hm as (_ & _ & Hmb & _ & _ & _ & Hlen). unfold tier0_holds.
  rewrite (entries_image v Hm atoms 0 0) by lia. split.
  - intros (Hn & Ht & Er & Em). split; [done|].
    assert (Etot : atoms_total atoms = metadata_bytes v).
    { rewrite <- (atoms_bytes_length atoms) by by apply (tier0_atoms_wf 0).
      rewrite <- Em, length_slice by lia. lia. }
    rewrite Etot, Hn. by repeat (split; [done || lia|]).
  - intros (Hn & (Ht & _ & Er & Em) & Etot). rewrite <- Hn, <- Etot. by repeat (split; [done|]).
Qed.

#[local] Instance tier0_view_dec v : Decision (tier0_view v).
Proof. unfold tier0_view. apply _. Defined.

Lemma tier0_module_sizes :
  m_key_bytes unicode_tier0_module = 4 /\ m_value_bytes unicode_tier0_module = 152.
Proof. by vm_compute. Qed.

Lemma tier0_validate_guarded v i0 :
  laplace_perfcache_unicode_tier0_validate_view (Some v) (Some i0) =
  if decide (tier0_view v) then
    match tier0_validate_loop v 4 (PerfcacheModules.record_indexes v) UINT64_MAX 0 with
    | (LAPLACE_PERFCACHE_OK, invalid, expected_metadata_offset) =>
        return_when negb (expected_metadata_offset =? metadata_bytes v)
          with (LAPLACE_PERFCACHE_SEMANTIC_MISMATCH, Some (record_count v)) ;;
        (LAPLACE_PERFCACHE_OK, Some invalid)
    | (status, invalid, _) => (status, Some invalid)
    end
  else (LAPLACE_PERFCACHE_SEMANTIC_MISMATCH, Some i0).
Proof.
  unfold laplace_perfcache_unicode_tier0_validate_view.
  rewrite unicode_tier0_module_ok. destruct tier0_module_sizes as [-> ->].
  change (u32 (4 + 152)) with 156. cbn [is_null view_records view_metadata orb store].
  pose proof (module_contract_matches_exact (contract v) unicode_tier0_module) as Hm.
  unfold tier0_view. destruct (Z.eqb_spec (record_count v) population) as [E1|E1]; cbn [negb];
    [|rewrite decide_False by (intros (? & _); done); done].
  destruct (module_contract_matches _ _); cbn [negb orb];
    [|rewrite decide_False by (intros (_ & _ & Hi); by apply Hm in Hi); done].
  destruct (Z.eqb_spec (record_stride v) 156) as [E2|E2]; cbn [negb];
    [|rewrite decide_False by (intros (_ & ? & _); done); done].
  rewrite decide_True by (repeat (split; [done|]); by apply Hm). done.
Qed.

(** What an accepted view is, and where a refusal points. *)
Lemma tier0_validate_cases v i0 : view_memory v ->
  let '(status, invalid) := laplace_perfcache_unicode_tier0_validate_view (Some v) (Some i0) in
  (status = LAPLACE_PERFCACHE_OK <-> tier0_view v /\ exists atoms, tier0_holds v atoms) /\
  (status <> LAPLACE_PERFCACHE_OK -> status = LAPLACE_PERFCACHE_SEMANTIC_MISMATCH) /\
  (~ tier0_view v -> invalid = Some i0) /\
  (tier0_view v -> status <> LAPLACE_PERFCACHE_OK -> exists atoms, entries_of v 0 0 atoms /\
     invalid = Some (Z.of_nat (length atoms)) /\
     (Z.of_nat (length atoms) < population /\
        (forall r, ~ entry_of v (Z.of_nat (length atoms)) (atoms_total atoms) r) \/
      Z.of_nat (length atoms) = population /\ atoms_total atoms < metadata_bytes v)).
Proof.
  intros Hm. rewrite tier0_validate_guarded. destruct (decide (tier0_view v)) as [Hv|Hv].
  2: { split; [split; [done|by intros [? _]]|]. split; [done|]. by split. }
  pose proof Hm as (Hc0 & _ & Hmb & _). pose proof Hv as (Hc & _). pose proof tier0_population_positions as Hpop.
  unfold PerfcacheModules.record_indexes. rewrite Hc.
  destruct (tier0_loop_cases v UINT64_MAX Hm Hv (Z.to_nat population) 0 0) as (atoms & Ha & Hcases); [lia..|].
  rewrite (map_ext (fun i => 0 + Z.of_nat i) Z.of_nat) in Hcases by done.
  pose proof (entries_bounds v atoms 0 0 ltac:(lia) Ha) as Hb. rewrite !Z.add_0_l in *.
  assert (Hagree : forall atoms', tier0_holds v atoms' -> (length atoms <= length atoms')%nat ->
    atoms_total atoms = atoms_total (take (length atoms) atoms')).
  { intros atoms' Hh Hl. apply tier0_holds_entries in Hh as (Hn & He & _); [|done|done].
    apply (entries_agree v Hm Hv atoms atoms' 0 0); (done || lia). }
  destruct Hcases as [[Hl ->]|(Hl & Hno & offset' & ->)].
  - destruct (Z.eqb_spec (atoms_total atoms) (metadata_bytes v)) as [E|E]; cbn [negb].
    + split; [split; [intros _; split; [done|]|done]|]; [|split; [done|]; by split].
      exists atoms. apply tier0_holds_entries; [done|done|]. split; [lia|by split].
    + split; [split; [done|]|].
      { intros (_ & atoms' & Hh). exfalso. apply E. rewrite (Hagree atoms' Hh).
        - rewrite take_ge by (destruct Hh; lia). by apply tier0_holds_entries in Hh as (_ & _ & ?).
        - destruct Hh; lia. }
      split; [done|]. split; [done|]. intros _ _. exists atoms. split; [done|].
      rewrite Hl, Z2Nat.id by lia. split; [done|]. right. lia.
  - split; [split; [done|]|].
    { intros (_ & atoms' & Hh). exfalso. pose proof (Hagree atoms' Hh ltac:(destruct Hh; lia)) as Et.
      apply tier0_holds_entries in Hh as (Hn & He & _); [|done|done].
      rewrite <- (take_drop (length atoms) atoms') in He. apply entries_app in He as [_ He].
      rewrite length_take, Nat.min_l, !Z.add_0_l, <- Et in He by lia.
      destruct (drop (length atoms) atoms') as [|r rest] eqn:Ed.
      - apply (f_equal length) in Ed. rewrite length_drop in Ed. cbn in Ed. lia.
      - apply (Hno r). apply He. }
    split; [done|]. split; [done|]. intros _ _. exists atoms. split; [done|]. split; [done|]. left.
    split; [lia|done].
Qed.

Lemma tier0_accepted v i0 : view_memory v ->
  (laplace_perfcache_unicode_tier0_validate_view (Some v) (Some i0)).1 = LAPLACE_PERFCACHE_OK ->
  tier0_view v /\ exists atoms, tier0_holds v atoms.
Proof.
  intros Hm Hok. pose proof (tier0_validate_cases v i0 Hm) as H.
  destruct (laplace_perfcache_unicode_tier0_validate_view _ _). by apply H.
Qed.

(** ** Resolution in an accepted view *)
(** The view of the atom of a position in the metadata of the index. *)
Definition tier0_answer (v : laplace_perfcache_view) (atoms : list laplace_unicode_atom_record) (p : Z)
    : laplace_unicode_atom_record_view :=
  match atoms !! Z.to_nat p with
  | Some r => atom_view (advance (atoms_total (take (Z.to_nat p) atoms)) (metadata v)) r
  | None => zero_atom_view
  end.
Definition tier0_flag (p : Z) : Z := if p <? population then 1 else 0.

Lemma entry_resolves v i offset r : view_memory v -> tier0_view v -> 0 <= i < population -> is_u64 offset ->
  entry_of v i offset r ->
  resolve_position v 4 i = (true, atom_view (advance offset (metadata v)) r, 1).
Proof.
  intros Hm Hv Hi Ho (Hat & El & Hle & Er). destruct (record_of_tier0 v i Hm Hv Hi) as (_ & _ & E).
  rewrite <- E in El. unfold resolve_position. rewrite (proj2 (Z.leb_gt _ _)) by lia.
  set (l := record_of v i) in *. cbv zeta. change (Z.to_nat 4) with 4%nat.
  destruct (value_reads l) as (-> & -> & _).
  assert (Ell : l = tier0_record offset r ++ drop 156 l) by (rewrite <- El; symmetry; apply take_drop).
  pose proof Hat as (Hw & Hp & _). destruct (tier0_read offset r _ l Hw Ho Ell) as (_ & R4 & R12 & _).
  pose proof (atom_total_positive r Hw) as Hpos. rewrite left_atom_bytes in Hpos by apply Hw.
  rewrite R4, R12. rewrite !(proj2 (Z.ltb_ge _ _)) by lia. cbn [orb].
  rewrite (proj2 (metadata_open v offset (atom_total r) Hm ltac:(lia) Hle
    (atom_view (advance offset (metadata v)) r) (atom_total r))) by (exists r; repeat (split; [done|]); done).
  rewrite Z.eqb_refl. cbn [negb orb atom_view atom_value pointed_at atom_position]. by rewrite Hp, Z.eqb_refl.
Qed.

Lemma position_resolves v atoms p : view_memory v -> tier0_view v -> tier0_holds v atoms -> 0 <= p ->
  resolve_position v 4 p = (true, tier0_answer v atoms p, tier0_flag p).
Proof.
  intros Hm Hv Hh Hp. apply tier0_holds_entries in Hh as (Hn & He & Htot); [|done|done].
  pose proof Hm as (_ & _ & Hmb & _). unfold tier0_answer, tier0_flag.
  destruct (Z.ltb_spec p population) as [Hlt|Hge].
  - destruct (lookup_lt_is_Some_2 atoms (Z.to_nat p)) as [r Hr]; [lia|]. rewrite Hr.
    rewrite <- (take_drop (Z.to_nat p) atoms), (drop_S _ _ _ Hr) in He.
    apply entries_app in He as [Hbefore He].
    rewrite length_take, Nat.min_l, !Z.add_0_l, Z2Nat.id in He by lia.
    pose proof (entries_bounds v _ 0 0 ltac:(lia) Hbefore). apply entry_resolves; [done|done|lia|lia|apply He].
  - rewrite (proj2 (lookup_ge_None _ _)) by lia. unfold resolve_position. by rewrite (proj2 (Z.leb_le _ _)).
Qed.

Lemma tier0_resolve_loop_ok v atoms : view_memory v -> tier0_view v -> tier0_holds v atoms ->
  forall positions index views found, Forall (fun p => 0 <= p) positions ->
  (index + length positions <= length views)%nat -> (index + length positions <= length found)%nat ->
  tier0_resolve_loop v 4 positions index views found =
  (LAPLACE_PERFCACHE_REGISTRY_OK,
   take index views ++ map (tier0_answer v atoms) positions ++ drop (index + length positions) views,
   take index found ++ map tier0_flag positions ++ drop (index + length positions) found).
Proof.
  intros Hm Hv Hh. induction positions as [|p positions IH]; intros index views found Hp Hl1 Hl2.
  { cbn. by rewrite Nat.add_0_r, !take_drop. }
  apply Forall_cons in Hp as [Hp Hps]. cbn [tier0_resolve_loop length map] in *.
  rewrite (position_resolves v atoms p) by done. cbn [negb].
  rewrite IH by (done || rewrite length_insert; lia). by rewrite !fill_step by lia.
Qed.

Lemma tier0_batch_found artifacts a atoms positions n views found :
  sorted_artifacts artifacts -> a ∈ artifacts -> artifact_id a = m_module_id unicode_tier0_module ->
  view_memory (handle_view a) -> tier0_view (handle_view a) -> tier0_holds (handle_view a) atoms ->
  Forall (fun p => 0 <= p) positions -> n = Z.of_nat (length positions) ->
  n <= Z.of_nat (length views) -> n <= Z.of_nat (length found) ->
  laplace_perfcache_unicode_tier0_resolve_batch (Some (mk_pin (Some artifacts))) (Some positions) n
    (Some views) (Some found) =
  (LAPLACE_PERFCACHE_REGISTRY_OK,
   Some (map (tier0_answer (handle_view a) atoms) positions ++ drop (length positions) views),
   Some (map tier0_flag positions ++ drop (length positions) found)).
Proof.
  intros Hs Ha Hid Hm Hv Hh Hp -> Hl1 Hl2.
  unfold laplace_perfcache_unicode_tier0_resolve_batch, pinned_module_view.
  cbn [is_null orb]. rewrite andb_false_r, unicode_tier0_module_ok, <- Hid, pin_view_found by done.
  rewrite (proj2 (module_contract_matches_exact _ _)) by apply Hv. cbn [negb].
  rewrite (proj1 tier0_module_sizes), cells_all by done.
  change (default [] (Some views)) with views. change (default [] (Some found)) with found.
  rewrite (tier0_resolve_loop_ok (handle_view a) atoms) by (assumption || lia).
  by rewrite !take_0, Nat.add_0_l.
Qed.

(** ** Properties *)
(** C28: A view of the tier-0 module is accepted exactly when it has the contract
    and the sizes, and its memory is the image of valid atoms, one of each
    position: the metadata is their bytes one behind the other, to its end, and
    each record repeats the members of its atom, whose Hilbert key is that of its
    coordinate, and points at it.  A refusal reports the first record that has no
    such atom, or the number of records when metadata is left behind them. *)
Theorem tier0_validate_exact v i0 : view_memory v ->
  let '(status, invalid) := laplace_perfcache_unicode_tier0_validate_view (Some v) (Some i0) in
  (status = LAPLACE_PERFCACHE_OK <-> tier0_view v /\ exists atoms, tier0_holds v atoms) /\
  (status <> LAPLACE_PERFCACHE_OK -> status = LAPLACE_PERFCACHE_SEMANTIC_MISMATCH) /\
  (~ tier0_view v -> invalid = Some i0) /\
  (tier0_view v -> status <> LAPLACE_PERFCACHE_OK -> exists atoms, entries_of v 0 0 atoms /\
     invalid = Some (Z.of_nat (length atoms)) /\
     (Z.of_nat (length atoms) < population /\
        (forall r, ~ entry_of v (Z.of_nat (length atoms)) (atoms_total atoms) r) \/
      Z.of_nat (length atoms) = population /\ atoms_total atoms < metadata_bytes v)).
Proof. apply tier0_validate_cases. Qed.

(** The identity that an atom carries. *)
Definition atom_key (a : laplace_unicode_atom_record_view) : laplace_unicode_identity_key :=
  mk_key (content_id (atom_value a)) (identity_preimage_fingerprint (atom_value a)).

Lemma answer_key v atoms p : tier0_holds v atoms -> 0 <= p < population ->
  atom_key (tier0_answer v atoms p) = identity_of p.
Proof.
  intros (Hn & Ht & _) Hp. unfold tier0_answer.
  destruct (lookup_lt_is_Some_2 atoms (Z.to_nat p)) as [r Hr]; [lia|]. rewrite Hr.
  destruct (Ht _ _ Hr) as ((_ & (_ & _ & _ & _ & _ & _ & Hc & Hf & _) & _) & Hpos & _).
  rewrite Z.add_0_l, Z2Nat.id in Hpos by lia. rewrite Hpos in Hc, Hf.
  unfold atom_key, identity_of. cbn [atom_view atom_value pointed_at content_id identity_preimage_fingerprint].
  by rewrite Hc, Hf.
Qed.

Lemma identity_bytes p :
  bytes 16 (key_content_id (identity_of p)) /\ bytes 32 (key_identity_preimage_fingerprint (identity_of p)).
Proof.
  pose proof (blake3_bytes (position_bytes p)) as Hb. split; [|exact Hb]. apply (bytes_take 32); [exact Hb|lia].
Qed.

(** C6: A generation that pins an accepted tier-0 view and an accepted reverse view
    is a bijection on positions: the atoms that the first gives for positions of
    both populations carry identities that the second resolves to the same
    positions, every one of them found. *)
Theorem tier0_reverse_roundtrip artifacts forward backward i0 i1 positions n views f1 ps f2 :
  sorted_artifacts artifacts -> forward ∈ artifacts -> backward ∈ artifacts ->
  artifact_id forward = m_module_id unicode_tier0_module ->
  artifact_id backward = m_module_id unicode_identity_reverse_module ->
  view_memory (handle_view forward) -> view_memory (handle_view backward) ->
  (laplace_perfcache_unicode_tier0_validate_view (Some (handle_view forward)) (Some i0)).1 =
    LAPLACE_PERFCACHE_OK ->
  (laplace_perfcache_unicode_identity_reverse_validate_view (Some (handle_view backward)) (Some i1)).1 =
    LAPLACE_PERFCACHE_OK ->
  Forall (fun p => 0 <= p < population /\ p < LAPLACE_PERFCACHE_UNICODE_REVERSE_POPULATION) positions ->
  n = Z.of_nat (length positions) -> n = Z.of_nat (length views) -> n = Z.of_nat (length f1) ->
  n = Z.of_nat (length ps) -> n = Z.of_nat (length f2) ->
  let pin := Some (mk_pin (Some artifacts)) in
  exists atoms,
    laplace_perfcache_unicode_tier0_resolve_batch pin (Some positions) n (Some views) (Some f1) =
      (LAPLACE_PERFCACHE_REGISTRY_OK, Some atoms, Some (map (fun _ => 1) positions)) /\
    laplace_perfcache_unicode_identity_reverse_resolve_batch pin (Some (map atom_key atoms)) n
      (Some ps) (Some f2) =
      (LAPLACE_PERFCACHE_REGISTRY_OK, Some positions, Some (map (fun _ => 1) positions)).
Proof.
  intros Hs Hf Hb Hidf Hidb Hmf Hmb Hokf Hokb Hp Hn Hl1 Hl2 Hl3 Hl4 pin.
  apply tier0_accepted in Hokf as (Hv & atoms & Hh); [|done].
  exists (map (tier0_answer (handle_view forward) atoms) positions). split.
  - unfold pin. rewrite (tier0_batch_found artifacts forward atoms positions n views f1) by
      first [assumption | lia | (eapply Forall_impl; [exact Hp|]; cbn; lia)].
    rewrite !drop_ge, !app_nil_r by lia. do 2 f_equal. apply map_ext_in. intros p Hin%list_elem_of_In.
    rewrite Forall_forall in Hp. specialize (Hp p Hin). unfold tier0_flag. rewrite (proj2 (Z.ltb_lt _ _)) by lia. done.
  - assert (Hkeys : map atom_key (map (tier0_answer (handle_view forward) atoms) positions) =
      map identity_of positions).
    { rewrite map_map. apply map_ext_in. intros p Hin%list_elem_of_In. rewrite Forall_forall in Hp.
      specialize (Hp p Hin). apply answer_key; [done|apply Hp]. }
    rewrite Hkeys. pose proof Hokb as Hok'. apply accepted in Hok' as [Hrv Hrl]; [|done].
    destruct (resolve_batch_found artifacts backward i1 (map identity_of positions) n ps f2) as (answers & Ha & E);
      [done..| | |lia|lia|].
    { apply Forall_map. apply Forall_forall. intros p _. apply identity_bytes. }
    { by rewrite length_map. }
    assert (answers = map Some positions) as ->.
    { clear -Ha Hp Hrv Hrl L TL. revert answers Ha. induction positions as [|p positions IH]; intros answers Ha.
      { by apply Forall2_nil_inv_l in Ha. }
      apply Forall_cons in Hp as [Hp Hps]. cbn [map] in *. apply Forall2_cons_inv_l in Ha as (x & xs & Hx & Hxs & ->).
      rewrite (IH Hps xs Hxs). f_equal. destruct x as [q|]; cbn [resolves] in Hx.
      - destruct Hx as [Hq Eq]. f_equal. symmetry. apply (lawful_identities (handle_view backward)); (done || lia).
      - exfalso. apply (Hx p); [lia|done]. }
    unfold pin. rewrite E, !length_map, !drop_ge, !app_nil_r by lia. rewrite !map_map.
    by rewrite (map_ext (fun p => default UINT32_MAX (Some p)) (fun p => p)), map_id by done.
Qed.
End Laws.

(** ** An index of three atoms *)
Definition sample_point : laplace_point4d := mk_point [plus_one; minus_one; 0; 0x3fe0000000000000].
Definition sample_hilbert : list Z :=
  match quantize_axes (component sample_point) with
  | Some axes => default [] (laplace_unicode_hilbert4_encode (Some axes) (Some (zeros 16))).2
  | None => []
  end.
Definition indexed_atom (p : Z) : laplace_unicode_atom_record :=
  let r := sample_atom_at p (p + 5) in
  mk_atom (atom_position r) (placement_rank r) (position_class r) (lup_v1_length r) (lup_v1_bytes r)
    (content_id r) (identity_preimage_fingerprint r) sample_point sample_hilbert
    (atom_geometry_epoch r) (atom_physicality_id r) (fields r).
Definition indexed_atoms : list laplace_unicode_atom_record := map indexed_atom [0; 1; 2].

Definition sample_tier0_contract : laplace_perfcache_contract :=
  let m := unicode_tier0_module in
  mk_contract (m_module_id m) (m_key_schema_id m) (m_value_schema_id m) (zeros 16) (zeros 32)
    (m_module_contract_fingerprint m) (zeros 32) (zeros 32) (zeros 32)
    (m_key_bytes m) (m_value_bytes m) (m_access_law m) 0.
Definition sample_tier0_view : laplace_perfcache_view :=
  let metadata := concat (map atom_bytes indexed_atoms) in
  mk_view sample_tier0_contract [] 0 (tier0_image 0 indexed_atoms) 3 156 metadata (left metadata) (zeros 32).
Definition sample_tier0_artifact : LoadedArtifact :=
  mk_loaded_artifact sample_tier0_contract sample_tier0_view.
Definition sample_generation : list LoadedArtifact := [sample_reverse_artifact; sample_tier0_artifact].

Lemma sample_tier0_memory : view_memory sample_tier0_view.
Proof.
  split; [vm_compute; discriminate|]. split; [vm_compute; discriminate|].
  split; [vm_compute; split; discriminate|]. split; [check|].
  split; [vm_compute; discriminate|]. split; [check|vm_compute; discriminate].
Qed.

Lemma sample_tier0_accepted :
  (laplace_perfcache_unicode_tier0_validate_view (B := checksum_blake3) (T := sample_tables)
     (Some sample_tier0_view) (Some 0)).1 = LAPLACE_PERFCACHE_OK.
Proof. vm_compute. reflexivity. Qed.

(** Metadata behind the last atom is refused. *)
Example trailing_metadata_refused :
  let v := sample_tier0_view in
  laplace_perfcache_unicode_tier0_validate_view (B := checksum_blake3) (T := sample_tables)
    (Some (mk_view (contract v) [] 0 (records v) 3 156 (metadata v ++ [0]) (metadata_bytes v + 1) (zeros 32)))
    (Some 0) = (LAPLACE_PERFCACHE_SEMANTIC_MISMATCH, Some 3).
Proof. vm_compute. reflexivity. Qed.

Lemma sample_generation_sorted : sorted_artifacts sample_generation.
Proof.
  constructor; [constructor; [constructor|constructor]|]. constructor; [vm_compute; reflexivity|constructor].
Qed.

Lemma tier0_validate_exact_witness :
  view_memory sample_tier0_view /\ tier0_view (T := sample_tables) sample_tier0_view /\
  exists atoms, tier0_holds (B := checksum_blake3) (T := sample_tables) sample_tier0_view atoms.
Proof.
  split; [exact sample_tier0_memory|].
  pose proof (tier0_validate_exact (B := checksum_blake3)
    (T := sample_tables) (TL := sample_tables_laws) sample_tier0_view 0 sample_tier0_memory) as H.
  pose proof sample_tier0_accepted as Hok.
  destruct (laplace_perfcache_unicode_tier0_validate_view _ _) as [status invalid].
  destruct H as [H _]. exact (proj1 H Hok).
Defined.

Lemma sample_forward_elem : sample_tier0_artifact ∈ sample_generation.
Proof. right. left. Qed.
Lemma sample_backward_elem : sample_reverse_artifact ∈ sample_generation.
Proof. left. Qed.

Lemma sample_positions_range :
  Forall (fun p => 0 <= p < LAPLACE_PERFCACHE_UNICODE_TIER0_POPULATION (ModuleTables := sample_tables) /\
                   p < LAPLACE_PERFCACHE_UNICODE_REVERSE_POPULATION (ModuleTables := sample_tables)) [2; 0].
Proof. check. Qed.

Lemma tier0_reverse_roundtrip_witness : exists atoms,
  laplace_perfcache_unicode_tier0_resolve_batch (B := checksum_blake3) (T := sample_tables)
    (Some (mk_pin (Some sample_generation))) (Some [2; 0]) 2
    (Some [zero_atom_view; zero_atom_view]) (Some [0; 0]) =
    (LAPLACE_PERFCACHE_REGISTRY_OK, Some atoms, Some [1; 1]) /\
  laplace_perfcache_unicode_identity_reverse_resolve_batch (T := sample_tables)
    (Some (mk_pin (Some sample_generation))) (Some (map atom_key atoms)) 2 (Some [0; 0]) (Some [0; 0]) =
    (LAPLACE_PERFCACHE_REGISTRY_OK, Some [2; 0], Some [1; 1]).
Proof.
  exact (tier0_reverse_roundtrip (B := checksum_blake3) (L := checksum_blake3_laws)
    (T := sample_tables) (TL := sample_tables_laws) sample_generation sample_tier0_artifact
    sample_reverse_artifact 0 0 [2; 0] 2 [zero_atom_view; zero_atom_view] [0; 0] [0; 0] [0; 0]
    sample_generation_sorted sample_forward_elem sample_backward_elem eq_refl eq_refl
    sample_tier0_memory sample_reverse_memory sample_tier0_accepted sample_reverse_accepted
    sample_positions_range eq_refl eq_refl eq_refl eq_refl eq_refl).
Defined.
